(* ===== verification/_CoqProject ===== *)
-Q . S2P
Prelude.v
Storage.v
StorageSpec.v
Text.v
Rolling.v
Core.v
Plan.v
Supervisor.v
SupervisorSpec.v
SupervisorTheorems.v
Events.v
Health.v
Files.v
Snapshot.v
Directory.v
DirectoryTheorems.v
RestoreTheorems.v
RecoveryTheorems.v
Blob.v
BlobTheorems.v
BlobGcTheorems.v
Reachability.v
Rollout.v
Progress.v
ProgressTheorems.v
Store.v
StoreTheorems.v
Routing.v
RoutingTheorems.v
Network.v
Peer.v
NetworkTheorems.v
PeerTheorems.v
Manifest.v
ManifestTheorems.v
Resolver.v
ResolverTheorems.v
Trace.v
Media.v
Graphics.v
GraphicsTheorems.v
Audio.v
Ring.v
AudioTheorems.v
Host.v
HostStorage.v
Runtime.v
RuntimeTheorems.v
Archive.v
ArchiveTheorems.v
Identity.v
IdentityFiles.v
Registry.v
IdentityTheorems.v
RegistryTheorems.v
Release.v
ReleaseTheorems.v
RolloutStatus.v
Desktop.v
DesktopTheorems.v
Probe.v
Daemon.v
DaemonTheorems.v
Planning.v
PlanningTheorems.v
Replicas.v
EngineDaemon.v
InvocationTheorems.v
EngineDaemonTheorems.v
ReconcileTheorems.v
Broker.v
Documents.v
Ingress.v
Capsule.v
Migrate.v
Supervise.v
SuperviseTheorems.v
