(* ===== verification/Prelude.v ===== *)
(** * Cartridge Runtime: verification library

    Cartridge Runtime packages WebAssembly components as cartridges and runs
    them.  Its engine keeps stacks of cartridges in a desired state: a stack
    manifest becomes a plan, plans are recorded as events in a journal per
    stack, a supervisor drives the replicas of the plan, rollouts replace one
    plan by another with rolling updates, and health reports summarise the
    result.  Each cartridge has key-value storage in a namespace of its own, in
    memory or in a directory of generation files.

    ** Files and the code they model

    - [Prelude]: results, machine integers with their checked and wrapping
      arithmetic, strings as bytes, ordered maps ([BTreeMap]) and the tactics and
      lemmas that the components share.
    - [Storage] models crates/cartridge-storage/src/lib.rs: validation of
      namespaces, keys and limits, the transaction core and every operation of
      the in-memory backend (Module [MemoryBackend]).  [StorageSpec] has its
      theorems.
    - [Snapshot] models snapshot.rs of the same crate, with its theorems.
    - [Directory] models directory.rs (Module [DirectoryBackend]): the operations
      as runs of system calls.  [DirectoryTheorems] has crash safety of the
      updates and the equivalence with the backend in memory, [RestoreTheorems]
      restoring, [RecoveryTheorems] recovery and [DirectoryWitness] a concrete
      directory at which these theorems apply.
    - [Text] models the text checks of crates/cartridge-engine/src/lib.rs, and
      declares the classes that stand for code outside the repository.
    - [Rolling] models rolling.rs: policy, observation and the decision function
      of the rolling-update scheduler, with its theorems.
    - [Core] models runtime limits and interface names (cartridge-core/src/
      manifest.rs) and composition locks (resolver.rs).
    - [Plan] models stack manifests and plans (engine lib.rs and probe.rs).
    - [Supervisor] models supervisor.rs: the runtime status and every operation
      on it; [SupervisorSpec] is the invariant and one lemma per operation,
      [SupervisorTheorems] what follows for runs.
    - [Events] models the journal of lib.rs, [Health] health.rs, [Files] the
      writers that replace and create files atomically.
    - [Rollout] models the records of rollout.rs, [Progress] rollout_progress.rs
      with [ProgressTheorems], and [Store] the engine store's transactions on
      journal, checkpoints and runtime files with [StoreTheorems].

    ** How the model is written

    Every definition is executable.  Errors are values of [result]; [let?] is the
    question mark of the source.  Code that mutates returns the new value.  Code
    that talks to the operating system is a function on a [World] (Section
    System calls of [Files]): a disk of directories of files, the counter of
    temporary names, the process id and a list of fates.  Each system call takes
    the next fate: it succeeds, fails after doing a part of its work, or is the
    last before the process dies, again after a part of its work.  A theorem for
    all fates is therefore a theorem about every crash and every failing call;
    an empty list of fates is an undisturbed run.  Integers are [N] with the
    width of the source: [checked_add], [checked_sub] and the wrapping versions
    fail or wrap at [u64_max] and [usize_max].

    ** What the theorems show

    - Storage: counters equal contents, quotas hold, revisions are sound tokens
      for optimistic transactions, failing calls change nothing, transactions
      are total with determined errors; the directory backend is atomic and
      durable under crashes and equivalent to the one in memory; restoring is
      atomic and exact; recovery keeps the newest valid generation; snapshots
      round-trip and untrusted ones are bounded.
    - Supervisor: every reachable status conforms to its plan, operations are
      total on enabled inputs and refused otherwise, runs are bounded by the
      restart budget, ended runs and replayed signals are fenced off.
    - Rolling updates: starts respect the surge, drains the availability floor,
      updates terminate; decisions can be carried out and completion is
      complete.
    - Engine store: journals are gapless chains, files are replaced atomically,
      activation and rollback of a rollout survive a crash at any system call,
      reading recovers the record, and active rollouts fence other changes.
    - Plans, locks and reports are bounded, closed and exact.
    - A few theorems state behaviour that departs from the documentation; they
      are listed as findings of the manifest.

    ** Assumptions

    Code outside the repository is a class with the documented behaviour that is
    used: [Externals] (SHA-256 gives 32 bytes; semantic versions), [Json],
    [JsonDecode], [JsonRoundTrip] and [JsonTotal] (serde_json reads what it
    wrote), [HexDecode] (the hex crate).  Where a file is read under a size
    limit, the theorem assumes that the file at hand fits ([fits] and its like);
    each such theorem has a witness with a concrete codec.

    ** Bounds and fuel

    Recursion is structural; no definition has fuel, except the run of a
    rolling update, which is driven for a number of steps that
    [rolling_update_converges] bounds by the replicas.

    ** Not modelled

    Symbolic links, file permissions and waiting for locks (a lock is one system
    call; runs of one namespace or stack are sequential because of it); packing
    and unpacking zip archives, the Wasmtime embedding, sockets, processes, GPU
    and audio output, the desktop shell and the command line, which are calls of
    libraries and of the operating system.  The manifest lists each part with
    its status. *)
From Stdlib Require Export Strings.Ascii Strings.Byte.
From Stdlib Require Import Lia.
From stdpp Require Export sorting.
From stdpp Require Export prelude gmap strings fin_maps numbers list.

Declare Scope rust_scope.
Delimit Scope rust_scope with rust.
#[global] Open Scope N_scope.
#[global] Open Scope rust_scope.

(** ** Results

    [Result<T, E>] with the constructors of the source.  The notation is a
    plain [match], so that a proof analyses the code with [case_match]. *)
Inductive result (E A : Type) : Type :=
| Ok (a : A)
| Err (e : E).
Arguments Ok {E A} a.
Arguments Err {E A} e.

#[global] Instance result_eq_dec {E A : Type} `{EqDecision E} `{EqDecision A} :
  EqDecision (result E A).
Proof. solve_decision. Defined.

(** [let? x := e in k] is [let x = e?; k]. *)
Notation "'let?' x := e 'in' k" :=
  (match e with Ok x => k | Err err => Err err end)
  (at level 10, x pattern, e at level 100, k at level 200) : rust_scope.

Definition is_ok {E A : Type} (r : result E A) : bool :=
  match r with Ok _ => true | Err _ => false end.

Definition ok_or {E A : Type} (o : option A) (e : E) : result E A :=
  match o with Some a => Ok a | None => Err e end.

(** A [&mut self] method gives the new state and the result: a method that
    fails half way keeps the changes it made before the failure.
    [let! x := e on s in k] is [let x = e?; k] with [s] the state at that
    point. *)
Notation "'let!' x := e 'on' s 'in' k" :=
  (match e with Ok x => k | Err err => (s, Err err) end)
  (at level 10, x pattern, e at level 100, s at level 100, k at level 200) : rust_scope.

(** ** Tactics *)
Create HintDb rust discriminated.
Create Rewrite HintDb rust.

(** Case analysis of the code in a hypothesis that fixes its result. *)
Ltac run_in H :=
  repeat (first [ progress simplify_eq/= | case_match ]); simplify_eq/=.
Ltac run := repeat (first [ progress simplify_eq/= | case_match ]); simplify_eq/=.

(** Boolean guards to propositions. *)
Ltac bprop :=
  repeat match goal with
  | H : _ || _ = false |- _ => apply orb_false_iff in H as [? ?]
  | H : _ && _ = true |- _ => apply andb_true_iff in H as [? ?]
  | H : _ || _ = true |- _ => apply orb_true_iff in H
  | H : _ && _ = false |- _ => apply andb_false_iff in H
  | H : negb _ = true |- _ => apply negb_true_iff in H
  | H : negb _ = false |- _ => apply negb_false_iff in H
  | H : bool_decide _ = true |- _ => apply bool_decide_eq_true in H
  | H : bool_decide _ = false |- _ => apply bool_decide_eq_false in H
  | H : (_ =? _) = true |- _ => apply N.eqb_eq in H
  | H : (_ =? _) = false |- _ => apply N.eqb_neq in H
  | H : (_ <=? _) = true |- _ => apply N.leb_le in H
  | H : (_ <=? _) = false |- _ => apply N.leb_gt in H
  | H : (_ <? _) = true |- _ => apply N.ltb_lt in H
  | H : (_ <? _) = false |- _ => apply N.ltb_ge in H
  end.

(** Step over the guard, or the fallible call, at the head of the code whose
    success is assumed. *)
Ltac pass H :=
  match goal with |- (if ?b then _ else _) = _ -> _ => destruct b eqn:H; [intros; discriminate|] end.
Ltac succeed p H :=
  match goal with
  | |- (match ?e with Ok _ => _ | Err _ => _ end) = _ -> _ => destruct e as [p|?] eqn:H; [|intros; discriminate]
  end.
(** A false disjunction of guards is a list of facts. *)
Ltac split_guard :=
  repeat match goal with H : _ || _ = false |- _ => apply orb_false_iff in H as [H ?] end; bprop.

(** ** Machine integers

    Unsigned integers are [N]; the width shows in the operations that can
    leave it. *)
Definition u8_max : N := 255.
Definition u16_max : N := 65535.
Definition u64_max : N := 18446744073709551615.
Definition usize_max : N := u64_max.

Definition checked_add (max a b : N) : option N :=
  if a + b <=? max then Some (a + b) else None.
Definition checked_sub (a b : N) : option N :=
  if b <=? a then Some (a - b) else None.
Definition saturating_add (max a b : N) : N := N.min (a + b) max.
Definition saturating_mul (max a b : N) : N := N.min (a * b) max.
Definition wrapping_add (max a b : N) : N := (a + b) mod (max + 1).
Definition wrapping_sub (max a b : N) : N := (a + (max + 1) - b) mod (max + 1).

Lemma checked_add_Some (max a b c : N) :
  checked_add max a b = Some c <-> c = a + b /\ a + b <= max.
Proof. unfold checked_add. destruct (N.leb_spec (a + b) max); split; intros; destruct_and?; simplify_eq; (lia || done || f_equal; lia). Qed.

Lemma checked_add_None (max a b : N) :
  checked_add max a b = None <-> max < a + b.
Proof. unfold checked_add. destruct (N.leb_spec (a + b) max); split; intros; destruct_and?; simplify_eq; (lia || done || f_equal; lia). Qed.

Lemma checked_sub_Some (a b c : N) :
  checked_sub a b = Some c <-> c = a - b /\ b <= a.
Proof. unfold checked_sub. destruct (N.leb_spec b a); split; intros; destruct_and?; simplify_eq; (lia || done || f_equal; lia). Qed.

Lemma checked_sub_None (a b : N) : checked_sub a b = None <-> a < b.
Proof. unfold checked_sub. destruct (N.leb_spec b a); split; intros; destruct_and?; simplify_eq; (lia || done || f_equal; lia). Qed.

Lemma wrapping_sub_small (max a b : N) :
  b <= a -> a <= max -> wrapping_sub max a b = a - b.
Proof.
  intros. unfold wrapping_sub.
  replace (a + (max + 1) - b) with (a - b + 1 * (max + 1)) by lia.
  rewrite N.Div0.mod_add. apply N.mod_small. lia.
Qed.

Lemma wrapping_add_small (max a b : N) :
  a + b <= max -> wrapping_add max a b = a + b.
Proof. intros. unfold wrapping_add. apply N.mod_small. lia. Qed.

Definition len {A : Type} (l : list A) : N := N.of_nat (length l).

Definition is_none {A : Type} (o : option A) : bool :=
  match o with Some _ => false | None => true end.
Definition is_some {A : Type} (o : option A) : bool := negb (is_none o).
Definition is_some_and {A : Type} (f : A -> bool) (o : option A) : bool :=
  match o with Some a => f a | None => false end.
Definition is_none_or {A : Type} (f : A -> bool) (o : option A) : bool :=
  match o with Some a => f a | None => true end.

(** ** Bytes and strings

    A [Vec<u8>] is a list of bytes.  A Rust [String] is the sequence of its
    UTF-8 bytes, held as a [string] of 8-bit characters: [len] counts bytes
    and the order of [str] is the lexicographic order of bytes. *)
Abbreviation bytes := (list byte).
#[global] Instance byte_eq_dec : EqDecision byte := Byte.byte_eq_dec.

Fixpoint str_bytes (s : string) : list N :=
  match s with
  | EmptyString => []
  | String a s' => N_of_ascii a :: str_bytes s'
  end.
Definition str_len (s : string) : N := len (str_bytes s).
Definition str_is_empty (s : string) : bool := bool_decide (s = "").
Definition starts_with (s p : string) : bool := String.prefix p s.

Fixpoint str_last (s : string) : option ascii :=
  match s with
  | EmptyString => None
  | String a EmptyString => Some a
  | String _ s' => str_last s'
  end.
Definition ends_with_char (s : string) (c : ascii) : bool :=
  bool_decide (str_last s = Some c).
Definition starts_with_char (s : string) (c : ascii) : bool :=
  match s with String a _ => bool_decide (a = c) | EmptyString => false end.

(** [s.strip_suffix(c).unwrap_or(s)] *)
Fixpoint strip_suffix_char (s : string) (c : ascii) : string :=
  match s with
  | EmptyString => EmptyString
  | String a EmptyString => if bool_decide (a = c) then EmptyString else s
  | String a s' => String a (strip_suffix_char s' c)
  end.

(** [s.split(c)]: a separator between any two fields, so [split "" = [""]]. *)
Fixpoint split_on (c : ascii) (s : string) : list string :=
  match s with
  | EmptyString => [EmptyString]
  | String a s' =>
      if bool_decide (a = c) then EmptyString :: split_on c s'
      else match split_on c s' with
           | h :: t => String a h :: t
           | [] => [String a EmptyString]
           end
  end.

Definition in_range (lo hi b : N) : bool := (lo <=? b) && (b <=? hi).
Definition is_ascii_digit (b : N) : bool := in_range 48 57 b.
Definition is_ascii_lowercase (b : N) : bool := in_range 97 122 b.
Definition is_ascii_uppercase (b : N) : bool := in_range 65 90 b.
Definition is_ascii_alphanumeric (b : N) : bool :=
  is_ascii_digit b || is_ascii_lowercase b || is_ascii_uppercase b.
Definition is_lower_hex (b : N) : bool := is_ascii_digit b || in_range 97 102 b.

(** [str::chars]: the code points of a UTF-8 string.  Strings of the source
    are well formed UTF-8; a lone byte decodes to itself. *)
Fixpoint utf8_chars (bs : list N) : list N :=
  match bs with
  | [] => []
  | b0 :: r0 =>
      if b0 <? 192 then b0 :: utf8_chars r0
      else match r0 with
      | [] => [b0]
      | b1 :: r1 =>
          if b0 <? 224 then (b0 - 192) * 64 + (b1 - 128) :: utf8_chars r1
          else match r1 with
          | [] => [b0; b1]
          | b2 :: r2 =>
              if b0 <? 240 then
                (b0 - 224) * 4096 + (b1 - 128) * 64 + (b2 - 128) :: utf8_chars r2
              else match r2 with
              | [] => [b0; b1; b2]
              | b3 :: r3 =>
                  (b0 - 240) * 262144 + (b1 - 128) * 4096
                    + (b2 - 128) * 64 + (b3 - 128) :: utf8_chars r3
              end
          end
      end
  end.
Definition str_chars (s : string) : list N := utf8_chars (str_bytes s).

(** [char::is_control] (category Cc) and [char::is_whitespace]. *)
Definition char_is_control (c : N) : bool := (c <=? 31) || in_range 127 159 c.
Definition char_is_whitespace (c : N) : bool :=
  in_range 9 13 c || (c =? 32) || (c =? 133) || (c =? 160) || (c =? 5760)
  || in_range 8192 8202 c || (c =? 8232) || (c =? 8233) || (c =? 8239)
  || (c =? 8287) || (c =? 12288).
(** [s.trim().is_empty()] *)
Definition trim_is_empty (s : string) : bool := forallb char_is_whitespace (str_chars s).

(** [hex::encode] *)
Definition hex_digit (n : N) : ascii := ascii_of_N (if n <? 10 then 48 + n else 87 + n).
Fixpoint hex_encode (bs : bytes) : string :=
  match bs with
  | [] => EmptyString
  | b :: r =>
      let n := Byte.to_N b in
      String (hex_digit (n / 16)) (String (hex_digit (n mod 16)) (hex_encode r))
  end.

(** [to_le_bytes] of an integer of [n] bytes. *)
Fixpoint le_byte_list (n : nat) (v : N) : bytes :=
  match n with
  | O => []
  | S n => default x00 (Byte.of_N (v mod 256)) :: le_byte_list n (v / 256)
  end.
Fixpoint le_value (b : bytes) : N := match b with [] => 0 | x :: b => Byte.to_N x + 256 * le_value b end.
Lemma le_byte_list_len n v : length (le_byte_list n v) = n.
Proof. revert v. induction n as [|n IH]; intros v; cbn; [done|by rewrite IH]. Qed.
Lemma le_value_bytes n v : v < 256 ^ N.of_nat n -> le_value (le_byte_list n v) = v.
Proof.
  revert v. induction n as [|n IH]; intros v Hv; cbn [le_byte_list le_value]; [cbn in Hv; lia|].
  rewrite Nat2N.inj_succ, N.pow_succ_r' in Hv.
  assert (exists b, Byte.of_N (v mod 256) = Some b) as [b Hb].
  { pose proof (N.mod_lt v 256 ltac:(lia)). destruct (Byte.of_N (v mod 256)) as [b|] eqn:E; [eauto|].
    apply Byte.of_N_None_iff in E. lia. }
  rewrite Hb. cbn [default from_option]. unfold id. apply Byte.to_of_N in Hb. rewrite Hb, IH.
  - pose proof (N.div_mod v 256 ltac:(lia)). lia.
  - apply N.Div0.div_lt_upper_bound. lia.
Qed.
Lemma le_byte_list_inj n v w :
  v < 256 ^ N.of_nat n -> w < 256 ^ N.of_nat n -> le_byte_list n v = le_byte_list n w -> v = w.
Proof. intros Hv Hw H. by rewrite <- (le_value_bytes n v Hv), H, le_value_bytes. Qed.

(** ** Ordered maps and sets

    A [BTreeMap<String, V>] is a [gmap string V]; its iteration is in the
    order of the keys.  A [BTreeSet] of integers is a [gset N]. *)
Definition key_le {V : Type} (x y : string * V) : Prop := String.le x.1 y.1.
#[global] Instance key_le_dec {V : Type} : RelDecision (@key_le V).
Proof. intros x y. unfold key_le. apply _. Defined.
#[global] Instance key_le_total {V : Type} : Total (@key_le V).
Proof. intros x y. apply String.le_total. Qed.
#[global] Instance key_le_trans {V : Type} : Transitive (@key_le V).
Proof. intros x y z. unfold key_le. intros ? ?. etrans; eassumption. Qed.

Definition btree_iter {V : Type} (m : gmap string V) : list (string * V) :=
  merge_sort key_le (map_to_list m).
Definition btree_keys {V : Type} (m : gmap string V) : list string := (btree_iter m).*1.
Definition btree_values {V : Type} (m : gmap string V) : list V := (btree_iter m).*2.
Definition btree_len {V : Type} (m : gmap string V) : N := N.of_nat (size m).

Lemma btree_iter_perm {V : Type} (m : gmap string V) : btree_iter m ≡ₚ map_to_list m.
Proof. apply merge_sort_Permutation. Qed.

Lemma btree_iter_elem {V : Type} (m : gmap string V) k v :
  (k, v) ∈ btree_iter m <-> m !! k = Some v.
Proof. rewrite btree_iter_perm. apply elem_of_map_to_list. Qed.

Lemma btree_values_elem {V : Type} (m : gmap string V) v :
  v ∈ btree_values m <-> exists k, m !! k = Some v.
Proof.
  unfold btree_values. rewrite list_elem_of_fmap. split.
  - intros ([k v'] & -> & Hin). exists k. by apply btree_iter_elem.
  - intros [k Hk]. exists (k, v). split; [done|]. by apply btree_iter_elem.
Qed.

Lemma btree_keys_sorted {V : Type} (m : gmap string V) : StronglySorted String.le (btree_keys m).
Proof.
  unfold btree_keys.
  pose proof (StronglySorted_merge_sort key_le (map_to_list m)) as H.
  fold (btree_iter m) in H. induction H as [|x l Hl IH Hall]; [constructor|].
  simpl. constructor; [done|]. rewrite Forall_fmap. exact Hall.
Qed.

Lemma btree_keys_NoDup {V : Type} (m : gmap string V) : NoDup (btree_keys m).
Proof.
  unfold btree_keys. rewrite btree_iter_perm. apply NoDup_fst_map_to_list.
Qed.

Definition set_iter (X : gset N) : list N := merge_sort N.le (elements X).
Definition set_len {A : Type} `{Countable A} (X : gset A) : N := N.of_nat (size X).

Lemma set_iter_perm (X : gset N) : set_iter X ≡ₚ elements X.
Proof. apply merge_sort_Permutation. Qed.
Lemma set_iter_elem (X : gset N) x : x ∈ set_iter X <-> x ∈ X.
Proof. rewrite set_iter_perm. apply elem_of_elements. Qed.
Lemma set_iter_NoDup (X : gset N) : NoDup (set_iter X).
Proof. rewrite set_iter_perm. apply NoDup_elements. Qed.
Lemma set_iter_length (X : gset N) : length (set_iter X) = size X.
Proof. rewrite set_iter_perm. done. Qed.
#[export] Hint Rewrite @set_iter_elem @set_iter_length : rust.

(** ** Sums *)
Definition sumN (l : list N) : N := foldr N.add 0 l.

Lemma sumN_nil : sumN [] = 0.
Proof. done. Qed.
Lemma sumN_cons (x : N) (l : list N) : sumN (x :: l) = x + sumN l.
Proof. done. Qed.
#[global] Opaque sumN.
#[export] Hint Rewrite sumN_nil sumN_cons @fmap_nil @fmap_cons : rust.
(** Normalise sums and lengths, then decide the arithmetic. *)
Ltac sums := csimpl in *; autorewrite with rust in *; lia.

Lemma sumN_perm (l k : list N) : l ≡ₚ k -> sumN l = sumN k.
Proof. induction 1; rewrite ?sumN_cons; lia. Qed.
#[global] Instance sumN_proper : Proper (Permutation ==> eq) sumN.
Proof. intros l k. apply sumN_perm. Qed.
Lemma sumN_app (l k : list N) : sumN (l ++ k) = sumN l + sumN k.
Proof. induction l; simpl; rewrite ?sumN_nil, ?sumN_cons; lia. Qed.
Lemma sumN_elem (x : N) (l : list N) : x ∈ l -> x <= sumN l.
Proof. induction 1; rewrite sumN_cons; lia. Qed.

(** ** Lists updated through a found element

    [iter_mut().find(p)]: the first element that satisfies [p]. *)
Fixpoint update_first {A : Type} (p : A -> bool) (f : A -> A) (l : list A) : list A :=
  match l with
  | [] => []
  | x :: r => if p x then f x :: r else x :: update_first p f r
  end.

Lemma update_first_length {A : Type} (p : A -> bool) f (l : list A) :
  length (update_first p f l) = length l.
Proof. induction l as [|x l IH]; simpl; [done|]. case_match; simpl; lia. Qed.

Lemma update_first_fmap {A B : Type} (p : A -> bool) f (g : A -> B) (l : list A) :
  (forall x, p x = true -> g (f x) = g x) -> g <$> update_first p f l = g <$> l.
Proof.
  intros Hg. induction l as [|x l IH]; simpl; [done|].
  destruct (p x) eqn:E; csimpl; [by rewrite (Hg x E)|by rewrite IH].
Qed.

Lemma find_update_first {A : Type} (p : A -> bool) (f : A -> A) (l : list A) x :
  List.find p l = Some x -> p (f x) = true -> List.find p (update_first p f l) = Some (f x).
Proof.
  induction l as [|y l IH]; simpl; [done|]. destruct (p y) eqn:E; simpl.
  - intros ? Hp. simplify_eq. by rewrite Hp.
  - intros Hx Hp. rewrite E. auto.
Qed.
