(* ===== verification/Storage.v ===== *)
(** * Scoped key/value storage ([crates/cartridge-storage/src/lib.rs])

    The in-memory backend, its quota accounting, revisions and transactions.
    Every operation of [MemoryStorage] is a state-passing definition; the
    [RwLock] around the namespaces is the [poisoned] flag that makes
    [read()]/[write()] fail. *)
From S2P Require Import Prelude.

Definition MAX_KEY_BYTES : N := 256.
Definition MAX_STORAGE_BYTES : N := 64 * 1024 * 1024.
Definition MAX_STORAGE_KEYS : N := 100000.
Definition MAX_STORAGE_VALUE_BYTES : N := 8 * 1024 * 1024.
Definition MAX_TRANSACTION_INPUT_BYTES : N := 16 * 1024 * 1024.
Definition MAX_TRANSACTION_OPERATIONS : N := 128.

Record StorageLimits := mkLimits {
  max_bytes : N;
  max_keys : N;
  max_value_bytes : N;
}.

Record StorageUsage := mkUsage {
  usage_bytes : N;
  usage_keys : N;
}.

Record StorageMutation := mkMutation {
  mut_key : string;
  mut_value : option bytes;
}.

Record StorageTransactionResult := mkTxResult {
  applied : bool;
  tx_revision : N;
}.

Record Namespace := mkNamespace {
  state_schema : N;
  ns_revision : N;
  ns_entries : gmap string bytes;
  ns_bytes : N;
}.

Definition default_namespace : Namespace := mkNamespace 0 0 ∅ 0.

Record MemoryStorage := mkMemoryStorage {
  poisoned : bool;
  namespaces : gmap string Namespace;
}.

Inductive Error :=
| InvalidNamespace (name : string)
| InvalidKey (key : string)
| InvalidLimits
| ValueTooLarge (size limit : N)
| QuotaExceeded (size limit : N)
| KeyLimitExceeded (limit : N)
| Unavailable
| Corrupt (detail : string)
| NoRecoverableState
| Io (detail : string)
| Serialization (detail : string)
| SnapshotIdentity (expected actual : string)
| SchemaMismatch (expected actual : N)
| StateChanged
| LockTimeout (milliseconds : N)
| UnsafePath (path : string)
| InvalidTransaction
| TransactionTooLarge (size limit : N)
| RevisionOverflow
| InvalidSchemaTransition (from to : N).

Abbreviation Result A := (result Error A).

#[global] Instance limits_eq_dec : EqDecision StorageLimits.
Proof. solve_decision. Defined.
#[global] Instance usage_eq_dec : EqDecision StorageUsage.
Proof. solve_decision. Defined.
#[global] Instance mutation_eq_dec : EqDecision StorageMutation.
Proof. solve_decision. Defined.
#[global] Instance tx_result_eq_dec : EqDecision StorageTransactionResult.
Proof. solve_decision. Defined.
#[global] Instance namespace_eq_dec : EqDecision Namespace.
Proof. solve_decision. Defined.
#[global] Instance error_eq_dec : EqDecision Error.
Proof. solve_decision. Defined.

(** ** Validation *)
Definition namespace_byte (b : N) : bool :=
  is_ascii_lowercase b || is_ascii_digit b || (b =? 45) || (b =? 46).

Definition validate_namespace (namespace : string) : Result unit :=
  if str_is_empty namespace || (128 <? str_len namespace)
     || negb (forallb namespace_byte (str_bytes namespace))
  then Err (InvalidNamespace namespace) else Ok tt.

Definition key_byte (b : N) : bool :=
  is_ascii_alphanumeric b || (b =? 45) || (b =? 95) || (b =? 46) || (b =? 47).

Definition bad_segment (segment : string) : bool :=
  str_is_empty segment || bool_decide (segment = ".") || bool_decide (segment = "..").

Definition validate_key (key : string) : Result unit :=
  if str_is_empty key || (MAX_KEY_BYTES <? str_len key)
     || starts_with_char key "/" || ends_with_char key "/"
     || negb (forallb key_byte (str_bytes key))
     || existsb bad_segment (split_on "/" key)
  then Err (InvalidKey key) else Ok tt.

Definition validate_prefix (prefix : string) : Result unit :=
  if str_is_empty prefix then Ok tt
  else validate_key (strip_suffix_char prefix "/").

Definition validate_limits (limits : StorageLimits) : Result unit :=
  if (limits.(max_bytes) =? 0) || (limits.(max_keys) =? 0)
     || (limits.(max_value_bytes) =? 0)
     || (limits.(max_bytes) <? limits.(max_value_bytes))
     || (MAX_STORAGE_BYTES <? limits.(max_bytes))
     || (MAX_STORAGE_KEYS <? limits.(max_keys))
     || (MAX_STORAGE_VALUE_BYTES <? limits.(max_value_bytes))
  then Err InvalidLimits else Ok tt.

(** The loop of [validate_entry_limits] over the values in key order. *)
Fixpoint sum_entry_bytes (limits : StorageLimits) (total : N) (values : list bytes) : Result N :=
  match values with
  | [] => Ok total
  | value :: rest =>
      if limits.(max_value_bytes) <? len value
      then Err (ValueTooLarge (len value) limits.(max_value_bytes))
      else let? total := ok_or (checked_add usize_max total (len value))
                               (QuotaExceeded usize_max limits.(max_bytes)) in
           sum_entry_bytes limits total rest
  end.

Definition validate_entry_limits (entries : gmap string bytes) (limits : StorageLimits) :
    Result StorageUsage :=
  let? _ := validate_limits limits in
  if limits.(max_keys) <? btree_len entries
  then Err (KeyLimitExceeded limits.(max_keys))
  else let? total := sum_entry_bytes limits 0 (btree_values entries) in
       if limits.(max_bytes) <? total
       then Err (QuotaExceeded total limits.(max_bytes))
       else Ok (mkUsage total (btree_len entries)).

(** The loop of [validate_mutations]: [keys] are the keys seen so far. *)
Fixpoint check_mutations (limits : StorageLimits) (keys : gset string) (input_bytes : N)
    (mutations : list StorageMutation) : Result N :=
  match mutations with
  | [] => Ok input_bytes
  | mutation :: rest =>
      let? _ := validate_key mutation.(mut_key) in
      if bool_decide (mutation.(mut_key) ∈ keys) then Err InvalidTransaction
      else
        let? input_bytes :=
          ok_or (match checked_add usize_max input_bytes (str_len mutation.(mut_key)) with
                 | None => None
                 | Some total =>
                     match mutation.(mut_value) with
                     | None => Some total
                     | Some value => checked_add usize_max total (len value)
                     end
                 end)
                (TransactionTooLarge usize_max MAX_TRANSACTION_INPUT_BYTES) in
        let? _ :=
          match mutation.(mut_value) with
          | Some value =>
              if limits.(max_value_bytes) <? len value
              then Err (ValueTooLarge (len value) limits.(max_value_bytes)) else Ok tt
          | None => Ok tt
          end in
        check_mutations limits ({[mutation.(mut_key)]} ∪ keys) input_bytes rest
  end.

Definition validate_mutations (mutations : list StorageMutation) (limits : StorageLimits) :
    Result unit :=
  let? _ := validate_limits limits in
  if (len mutations =? 0) || (MAX_TRANSACTION_OPERATIONS <? len mutations)
  then Err InvalidTransaction
  else let? input_bytes := check_mutations limits ∅ 0 mutations in
       if MAX_TRANSACTION_INPUT_BYTES <? input_bytes
       then Err (TransactionTooLarge input_bytes MAX_TRANSACTION_INPUT_BYTES)
       else Ok tt.

Definition opt_len (value : option bytes) : N := from_option len 0 value.

Definition validate_compare_exchange (key : string) (expected replacement : option bytes)
    (limits : StorageLimits) : Result unit :=
  let? input_bytes :=
    ok_or (match checked_add usize_max (str_len key) (opt_len expected) with
           | None => None
           | Some total => checked_add usize_max total (opt_len replacement)
           end)
          (TransactionTooLarge usize_max MAX_TRANSACTION_INPUT_BYTES) in
  if MAX_TRANSACTION_INPUT_BYTES <? input_bytes
  then Err (TransactionTooLarge input_bytes MAX_TRANSACTION_INPUT_BYTES)
  else
    let? _ := validate_mutations [mkMutation key replacement] limits in
    if is_some_and (fun value => limits.(max_value_bytes) <? len value) expected
    then Err (ValueTooLarge (opt_len expected) limits.(max_value_bytes))
    else Ok tt.

(** ** Transactions *)
Record Delta := mkDelta {
  removed_bytes : N;
  added_bytes : N;
  removed_keys : N;
  added_keys : N;
  changed : bool;
}.

(** One turn of the accounting loop of [apply_mutations].  The two key
    counters are plain additions of 1: they are bounded by the length of the
    mutation list. *)
Definition count_mutation (entries : gmap string bytes) (limits : StorageLimits)
    (d : Delta) (mutation : StorageMutation) : Result Delta :=
  let current := entries !! mutation.(mut_key) in
  if bool_decide (current = mutation.(mut_value)) then Ok d
  else
    let? removed := match current with
                    | Some value => ok_or (checked_add usize_max d.(removed_bytes) (len value))
                                          (QuotaExceeded usize_max limits.(max_bytes))
                    | None => Ok d.(removed_bytes)
                    end in
    let? added := match mutation.(mut_value) with
                  | Some value => ok_or (checked_add usize_max d.(added_bytes) (len value))
                                        (QuotaExceeded usize_max limits.(max_bytes))
                  | None => Ok d.(added_bytes)
                  end in
    Ok (mkDelta removed added
          (match current, mutation.(mut_value) with
           | Some _, None => d.(removed_keys) + 1 | _, _ => d.(removed_keys) end)
          (match current, mutation.(mut_value) with
           | None, Some _ => d.(added_keys) + 1 | _, _ => d.(added_keys) end)
          true).

Fixpoint count_mutations (entries : gmap string bytes) (limits : StorageLimits)
    (d : Delta) (mutations : list StorageMutation) : Result Delta :=
  match mutations with
  | [] => Ok d
  | mutation :: rest =>
      let? d := count_mutation entries limits d mutation in
      count_mutations entries limits d rest
  end.

Definition write_mutation (entries : gmap string bytes) (mutation : StorageMutation) :
    gmap string bytes :=
  match mutation.(mut_value) with
  | Some value => <[mutation.(mut_key) := value]> entries
  | None => delete mutation.(mut_key) entries
  end.
Definition write_mutations (entries : gmap string bytes) (mutations : list StorageMutation) :
    gmap string bytes :=
  fold_left write_mutation mutations entries.

(** [apply_mutations] writes through [&mut entries] and [&mut usage]: the new
    values are returned with the result.  Every error is raised before the
    first write, so a failing call has no new values. *)
Definition apply_mutations (entries : gmap string bytes) (usage : StorageUsage)
    (mutations : list StorageMutation) (limits : StorageLimits) :
    Result (gmap string bytes * StorageUsage * bool) :=
  let? d := count_mutations entries limits (mkDelta 0 0 0 0 false) mutations in
  let? next_bytes :=
    ok_or (match checked_sub usage.(usage_bytes) d.(removed_bytes) with
           | Some total => checked_add usize_max total d.(added_bytes)
           | None => None
           end) (QuotaExceeded usize_max limits.(max_bytes)) in
  let? next_keys :=
    ok_or (match checked_sub usage.(usage_keys) d.(removed_keys) with
           | Some total => checked_add usize_max total d.(added_keys)
           | None => None
           end) (KeyLimitExceeded limits.(max_keys)) in
  if limits.(max_bytes) <? next_bytes then Err (QuotaExceeded next_bytes limits.(max_bytes))
  else if limits.(max_keys) <? next_keys then Err (KeyLimitExceeded limits.(max_keys))
  else if d.(changed)
       then Ok (write_mutations entries mutations, mkUsage next_bytes next_keys, true)
       else Ok (entries, usage, false).

Definition mutations_change (entries : gmap string bytes) (mutations : list StorageMutation) : bool :=
  existsb (fun mutation => negb (bool_decide (entries !! mutation.(mut_key) = mutation.(mut_value))))
          mutations.

Definition next_revision (revision : N) : Result N :=
  ok_or (checked_add u64_max revision 1) RevisionOverflow.

(** ** The in-memory backend *)
Module MemoryBackend.

Definition new : MemoryStorage := mkMemoryStorage false ∅.

(** [namespaces.entry(name).or_default()] *)
Definition entry_or_default (self : MemoryStorage) (namespace : string) : Namespace :=
  default default_namespace (self.(namespaces) !! namespace).
Definition set_namespace (self : MemoryStorage) (namespace : string) (state : Namespace) :
    MemoryStorage :=
  mkMemoryStorage self.(poisoned) (<[namespace := state]> self.(namespaces)).

Definition lock (self : MemoryStorage) : Result unit :=
  if self.(poisoned) then Err Unavailable else Ok tt.

Definition snapshot_state (self : MemoryStorage) (namespace : string) (limits : StorageLimits) :
    Result (N * gmap string bytes) :=
  let? _ := validate_namespace namespace in
  let? _ := validate_limits limits in
  let? _ := lock self in
  let '(revision, entries) :=
    match self.(namespaces) !! namespace with
    | None => (0, ∅)
    | Some state => (state.(ns_revision), state.(ns_entries))
    end in
  let? _ := validate_entry_limits entries limits in
  Ok (revision, entries).

Definition load_namespace (self : MemoryStorage) (namespace : string) (schema revision : N)
    (entries : gmap string bytes) (limits : StorageLimits) : MemoryStorage * Result unit :=
  let! _ := validate_namespace namespace on self in
  let! usage := validate_entry_limits entries limits on self in
  let! _ := lock self on self in
  (set_namespace self namespace (mkNamespace schema revision entries usage.(usage_bytes)), Ok tt).

Definition prepare (self : MemoryStorage) (namespace : string) (schema : N)
    (limits : StorageLimits) : MemoryStorage * Result unit :=
  let! _ := validate_namespace namespace on self in
  let! _ := validate_limits limits on self in
  let! _ := lock self on self in
  let! next := match self.(namespaces) !! namespace with
               | None => Ok (set_namespace self namespace (mkNamespace schema 0 ∅ 0))
               | Some state =>
                   if negb (state.(state_schema) =? schema)
                   then Err (SchemaMismatch schema state.(state_schema))
                   else Ok self
               end on self in
  match next.(namespaces) !! namespace with
  | Some state =>
      let! _ := validate_entry_limits state.(ns_entries) limits on next in (next, Ok tt)
  | None => (next, Ok tt)
  end.

Definition get (self : MemoryStorage) (namespace key : string) : Result (option bytes) :=
  let? _ := validate_namespace namespace in
  let? _ := validate_key key in
  let? _ := lock self in
  Ok (match self.(namespaces) !! namespace with
      | Some state => state.(ns_entries) !! key
      | None => None
      end).

Definition put (self : MemoryStorage) (namespace key : string) (value : bytes)
    (limits : StorageLimits) : MemoryStorage * Result unit :=
  let! _ := validate_namespace namespace on self in
  let! _ := validate_key key on self in
  let! _ := validate_limits limits on self in
  if limits.(max_value_bytes) <? len value
  then (self, Err (ValueTooLarge (len value) limits.(max_value_bytes)))
  else
  let! _ := lock self on self in
  let state := entry_or_default self namespace in
  let self := set_namespace self namespace state in
  if bool_decide (state.(ns_entries) !! key = Some value) then (self, Ok tt)
  else
  let old_size := opt_len (state.(ns_entries) !! key) in
  let! next_bytes :=
    ok_or (match checked_sub state.(ns_bytes) old_size with
           | Some total => checked_add usize_max total (len value)
           | None => None
           end) (QuotaExceeded usize_max limits.(max_bytes)) on self in
  if limits.(max_bytes) <? next_bytes
  then (self, Err (QuotaExceeded next_bytes limits.(max_bytes)))
  else if is_none (state.(ns_entries) !! key)
          && (limits.(max_keys) <=? btree_len state.(ns_entries))
  then (self, Err (KeyLimitExceeded limits.(max_keys)))
  else
  let! revision := next_revision state.(ns_revision) on self in
  (set_namespace self namespace
     (mkNamespace state.(state_schema) revision
        (<[key := value]> state.(ns_entries)) next_bytes), Ok tt).

Definition delete (self : MemoryStorage) (namespace key : string) : MemoryStorage * Result bool :=
  let! _ := validate_namespace namespace on self in
  let! _ := validate_key key on self in
  let! _ := lock self on self in
  match self.(namespaces) !! namespace with
  | None => (self, Ok false)
  | Some state =>
      match state.(ns_entries) !! key with
      | None => (self, Ok false)
      | Some value =>
          let! revision := next_revision state.(ns_revision) on self in
          (set_namespace self namespace
             (mkNamespace state.(state_schema) revision
                (base.delete key state.(ns_entries))
                (wrapping_sub usize_max state.(ns_bytes) (len value))), Ok true)
      end
  end.

Definition list (self : MemoryStorage) (namespace prefix : string) : Result (list string) :=
  let? _ := validate_namespace namespace in
  let? _ := validate_prefix prefix in
  let? _ := lock self in
  Ok (match self.(namespaces) !! namespace with
      | None => []
      | Some state => List.filter (fun key => starts_with key prefix) (btree_keys state.(ns_entries))
      end).

Definition usage (self : MemoryStorage) (namespace : string) : Result StorageUsage :=
  let? _ := validate_namespace namespace in
  let? _ := lock self in
  Ok (match self.(namespaces) !! namespace with
      | None => mkUsage 0 0
      | Some state => mkUsage state.(ns_bytes) (btree_len state.(ns_entries))
      end).

Definition revision (self : MemoryStorage) (namespace : string) : Result N :=
  let? _ := validate_namespace namespace in
  let? _ := lock self in
  Ok (match self.(namespaces) !! namespace with
      | None => 0
      | Some state => state.(ns_revision)
      end).

(** The tail that [compare_exchange] and [apply_batch] share once the expected
    revision has been checked: [self] already holds the namespace. *)
Definition commit (self : MemoryStorage) (namespace : string) (state : Namespace)
    (mutations : Datatypes.list StorageMutation) (limits : StorageLimits) :
    MemoryStorage * Result StorageTransactionResult :=
  let usage := mkUsage state.(ns_bytes) (btree_len state.(ns_entries)) in
  let! revision := if mutations_change state.(ns_entries) mutations
                   then next_revision state.(ns_revision)
                   else Ok state.(ns_revision) on self in
  let! (entries, usage, changed) :=
    apply_mutations state.(ns_entries) usage mutations limits on self in
  let revision := if changed : bool then revision else state.(ns_revision) in
  (set_namespace self namespace
     (mkNamespace state.(state_schema) revision entries usage.(usage_bytes)),
   Ok (mkTxResult true revision)).

Definition compare_exchange (self : MemoryStorage) (namespace : string) (expected_revision : N)
    (key : string) (expected replacement : option bytes) (limits : StorageLimits) :
    MemoryStorage * Result StorageTransactionResult :=
  let! _ := validate_compare_exchange key expected replacement limits on self in
  let! _ := validate_namespace namespace on self in
  let! _ := lock self on self in
  let state := entry_or_default self namespace in
  let self := set_namespace self namespace state in
  if negb (state.(ns_revision) =? expected_revision)
     || negb (bool_decide (state.(ns_entries) !! key = expected))
  then (self, Ok (mkTxResult false state.(ns_revision)))
  else commit self namespace state [mkMutation key replacement] limits.

Definition apply_batch (self : MemoryStorage) (namespace : string) (expected_revision : N)
    (mutations : Datatypes.list StorageMutation) (limits : StorageLimits) :
    MemoryStorage * Result StorageTransactionResult :=
  let! _ := validate_mutations mutations limits on self in
  let! _ := validate_namespace namespace on self in
  let! _ := lock self on self in
  let state := entry_or_default self namespace in
  let self := set_namespace self namespace state in
  if negb (state.(ns_revision) =? expected_revision)
  then (self, Ok (mkTxResult false state.(ns_revision)))
  else commit self namespace state mutations limits.

End MemoryBackend.

(** ** Reference accounting

    The bytes a namespace really holds, against which the incremental counters
    of the code are proved. *)
Definition entries_bytes (m : gmap string bytes) : N := sumN (len <$> (map_to_list m).*2).

Lemma entries_bytes_empty : entries_bytes ∅ = 0.
Proof. unfold entries_bytes. by rewrite map_to_list_empty. Qed.

Lemma entries_bytes_insert_new m k v :
  m !! k = None -> entries_bytes (<[k := v]> m) = len v + entries_bytes m.
Proof.
  intros Hk. unfold entries_bytes. by rewrite map_to_list_insert.
Qed.

Lemma entries_bytes_delete m k v :
  m !! k = Some v -> entries_bytes m = len v + entries_bytes (delete k m).
Proof.
  intros Hk. rewrite <- (entries_bytes_insert_new (delete k m) k v) by apply lookup_delete_eq.
  rewrite insert_delete_eq. by rewrite insert_id.
Qed.

Lemma entries_bytes_write m k (o : option bytes) :
  entries_bytes (write_mutation m (mkMutation k o)) + opt_len (m !! k)
  = entries_bytes m + opt_len o.
Proof.
  unfold write_mutation; simpl. destruct (m !! k) as [v|] eqn:Hk; simpl.
  - rewrite (entries_bytes_delete m k v Hk). destruct o as [w|]; simpl; [|lia].
    rewrite <- insert_delete_eq, entries_bytes_insert_new by apply lookup_delete_eq. lia.
  - destruct o as [w|]; simpl.
    + rewrite entries_bytes_insert_new by done. lia.
    + rewrite delete_id by done. lia.
Qed.

Lemma btree_len_write m k (o : option bytes) :
  btree_len (write_mutation m (mkMutation k o)) + (if is_some (m !! k) then 1 else 0)
  = btree_len m + (if is_some o then 1 else 0).
Proof.
  unfold write_mutation, btree_len; simpl. destruct (m !! k) as [v|] eqn:Hk; simpl.
  - destruct o as [w|]; simpl.
    + rewrite map_size_insert_Some by eauto. lia.
    + rewrite map_size_delete_Some by eauto.
      assert (size m <> 0%nat) by (apply map_size_non_empty_iff; intros ->; done). lia.
  - destruct o as [w|]; simpl.
    + rewrite map_size_insert_None by done. lia.
    + rewrite delete_id by done. lia.
Qed.

Lemma entries_bytes_elem m k v : m !! k = Some v -> len v <= entries_bytes m.
Proof. intros H. rewrite (entries_bytes_delete m k v H). lia. Qed.

Lemma entries_bytes_btree m : sumN (len <$> btree_values m) = entries_bytes m.
Proof.
  unfold btree_values. by rewrite btree_iter_perm.
Qed.

(** ** Validation against declarative specifications *)
Definition limits_ok (limits : StorageLimits) : Prop :=
  0 < limits.(max_bytes) /\ 0 < limits.(max_keys) /\ 0 < limits.(max_value_bytes)
  /\ limits.(max_value_bytes) <= limits.(max_bytes) <= MAX_STORAGE_BYTES
  /\ limits.(max_keys) <= MAX_STORAGE_KEYS
  /\ limits.(max_value_bytes) <= MAX_STORAGE_VALUE_BYTES.

Lemma validate_limits_spec limits u : validate_limits limits = Ok u -> limits_ok limits.
Proof. unfold validate_limits, limits_ok. intros. run. bprop. lia. Qed.

(** The entries respect the limits. *)
Definition within (limits : StorageLimits) (m : gmap string bytes) : Prop :=
  btree_len m <= limits.(max_keys) /\ entries_bytes m <= limits.(max_bytes)
  /\ forall k v, m !! k = Some v -> len v <= limits.(max_value_bytes).

Lemma sum_entry_bytes_spec limits values total r :
  sum_entry_bytes limits total values = Ok r ->
  r = total + sumN (len <$> values)
  /\ Forall (fun v => len v <= limits.(max_value_bytes)) values.
Proof.
  revert total. induction values as [|v vs IH]; intros total Hr; csimpl in *.
  - simplify_eq. split; [sums|constructor].
  - destruct (N.ltb_spec (max_value_bytes limits) (len v)); [done|].
    unfold ok_or in Hr. destruct (checked_add _ _ _) as [t|] eqn:Ht; [|done].
    apply checked_add_Some in Ht as [-> ?]. apply IH in Hr as [-> ?].
    split; [sums|by constructor].
Qed.

Lemma sum_entry_bytes_ok limits values total :
  total + sumN (len <$> values) <= usize_max ->
  Forall (fun v => len v <= limits.(max_value_bytes)) values ->
  sum_entry_bytes limits total values = Ok (total + sumN (len <$> values)).
Proof.
  revert total. induction values as [|v vs IH]; intros total Hs Hv; csimpl in *.
  - f_equal. sums.
  - inversion_clear Hv as [|? ? Hv1 Hvs]. autorewrite with rust in Hs.
    destruct (N.ltb_spec (max_value_bytes limits) (len v)); [lia|].
    unfold ok_or. rewrite (proj2 (checked_add_Some _ _ _ _)) by (split; [done|lia]).
    rewrite IH; [|sums|done]. f_equal. sums.
Qed.

Lemma btree_values_Forall {V : Type} (P : V -> Prop) (m : gmap string V) :
  Forall P (btree_values m) <-> forall k v, m !! k = Some v -> P v.
Proof.
  rewrite Forall_forall. split; intros H.
  - intros k v Hk. apply H, btree_values_elem. eauto.
  - intros v [k Hk]%btree_values_elem. eauto.
Qed.

Lemma validate_entry_limits_iff m limits u :
  validate_entry_limits m limits = Ok u <->
  validate_limits limits = Ok tt /\ within limits m
  /\ u = mkUsage (entries_bytes m) (btree_len m).
Proof.
  unfold validate_entry_limits, within. rewrite <- entries_bytes_btree, <- btree_values_Forall.
  destruct (validate_limits limits) as [[]|e] eqn:Hl; [|naive_solver].
  destruct (N.ltb_spec (max_keys limits) (btree_len m)); [split; [done|lia]|].
  split.
  - destruct (sum_entry_bytes _ _ _) as [t|] eqn:Ht; [|done].
    apply sum_entry_bytes_spec in Ht as [-> ?].
    destruct (N.ltb_spec (max_bytes limits) (0 + sumN (len <$> btree_values m))); [done|].
    intros; simplify_eq. split_and!; try done; lia.
  - intros (_ & (_ & Hb & Hv) & ->). apply validate_limits_spec in Hl as Hok.
    rewrite sum_entry_bytes_ok; [|unfold limits_ok, MAX_STORAGE_BYTES in Hok; unfold usize_max, u64_max; lia|done].
    destruct (N.ltb_spec (max_bytes limits) (0 + sumN (len <$> btree_values m))); [lia|].
    done.
Qed.

(** Validated batches touch each key once. *)
Lemma check_mutations_spec limits keys n mutations r :
  check_mutations limits keys n mutations = Ok r ->
  NoDup (mut_key <$> mutations)
  /\ Forall (fun m => mut_key m ∉ keys /\ validate_key (mut_key m) = Ok tt
                      /\ opt_len (mut_value m) <= limits.(max_value_bytes)) mutations
  /\ r = n + sumN ((fun m => str_len (mut_key m) + opt_len (mut_value m)) <$> mutations).
Proof.
  revert keys n. induction mutations as [|[k o] ms IH]; intros keys n Hr; cbn in *.
  - simplify_eq. split_and!; [constructor|constructor|sums].
  - destruct (validate_key k) as [[]|] eqn:Hk; [|done]. case_bool_decide; [done|].
    unfold ok_or in Hr. destruct (checked_add _ n _) as [t|] eqn:Ht; [|done].
    apply checked_add_Some in Ht as [-> ?].
    destruct o as [v|]; cbn in *.
    + destruct (checked_add _ _ (len v)) as [t|] eqn:Ht; [|done].
      apply checked_add_Some in Ht as [-> ?].
      destruct (N.ltb_spec (max_value_bytes limits) (len v)); [done|].
      apply IH in Hr as (? & Hall & ->). rewrite Forall_forall in Hall.
      split_and!; [constructor; [|done] | constructor;
        [done|rewrite Forall_forall; set_solver] | sums].
      rewrite list_elem_of_fmap. intros ([k' o'] & -> & Hin). apply Hall in Hin. set_solver.
    + apply IH in Hr as (? & Hall & ->). rewrite Forall_forall in Hall.
      split_and!; [constructor; [|done] | constructor;
        [split_and!; [done..|cbn; lia]|rewrite Forall_forall; set_solver] | sums].
      rewrite list_elem_of_fmap. intros ([k' o'] & -> & Hin). apply Hall in Hin. set_solver.
Qed.

Lemma validate_mutations_spec mutations limits u :
  validate_mutations mutations limits = Ok u ->
  validate_limits limits = Ok tt /\ NoDup (mut_key <$> mutations)
  /\ Forall (fun m => validate_key (mut_key m) = Ok tt
                      /\ opt_len (mut_value m) <= limits.(max_value_bytes)) mutations
  /\ sumN ((fun m => str_len (mut_key m) + opt_len (mut_value m)) <$> mutations)
     <= MAX_TRANSACTION_INPUT_BYTES.
Proof.
  unfold validate_mutations. intros Hr.
  destruct (validate_limits limits) as [[]|]; [|done]. case_match; [done|].
  destruct (check_mutations _ _ _ _) as [t|] eqn:Ht; [|done].
  apply check_mutations_spec in Ht as (? & Hall & ->).
  destruct (N.ltb_spec MAX_TRANSACTION_INPUT_BYTES
    (0 + sumN ((fun m => str_len (mut_key m) + opt_len (mut_value m)) <$> mutations))); [done|].
  split_and!; [done..|eapply Forall_impl; [done|]; naive_solver|lia].
Qed.

(** ** The transaction core against its reference

    The four counters of the accounting loop describe exactly what writing the
    mutations does to the entries. *)
Definition delta_of (m m' : gmap string bytes) (d d' : Delta) : Prop :=
  entries_bytes m' + d'.(removed_bytes) + d.(added_bytes)
    = entries_bytes m + d.(removed_bytes) + d'.(added_bytes)
  /\ btree_len m' + d'.(removed_keys) + d.(added_keys)
    = btree_len m + d.(removed_keys) + d'.(added_keys).

Lemma count_mutation_spec m limits d k o d' :
  count_mutation m limits d (mkMutation k o) = Ok d' ->
  delta_of m (write_mutation m (mkMutation k o)) d d'
  /\ d'.(changed) = d.(changed) || negb (bool_decide (m !! k = o)).
Proof.
  intros Hr. pose proof (entries_bytes_write m k o) as Hb. pose proof (btree_len_write m k o) as Hl.
  unfold count_mutation, ok_or, delta_of in *. cbn [mut_key mut_value] in *.
  case_bool_decide as Heq.
  - simplify_eq. split; [lia|]. by destruct (changed d').
  - destruct (m !! k) as [w|], o as [v|]; cbn [opt_len from_option is_some is_none negb] in *; try done;
      repeat match type of Hr with
        context [checked_add ?a ?b ?c] => destruct (checked_add a b c) as [?|] eqn:?; [|done]
      end;
      repeat match goal with H : checked_add _ _ _ = Some _ |- _ =>
        apply checked_add_Some in H as [-> ?] end;
      simplify_eq; cbn [changed removed_bytes added_bytes removed_keys added_keys negb];
      rewrite orb_true_r; split; try done; lia.
Qed.

Lemma count_mutation_ext m n limits d mu :
  n !! mut_key mu = m !! mut_key mu -> count_mutation m limits d mu = count_mutation n limits d mu.
Proof. intros H. unfold count_mutation. by rewrite H. Qed.

Lemma write_mutation_lookup m mu k :
  write_mutation m mu !! k = if bool_decide (mut_key mu = k) then mut_value mu else m !! k.
Proof.
  destruct mu as [k' [v|]]; unfold write_mutation; cbn; case_bool_decide; subst.
  - apply lookup_insert_eq.
  - by apply lookup_insert_ne.
  - apply lookup_delete_eq.
  - by apply lookup_delete_ne.
Qed.

Lemma write_mutation_ne m mu k : mut_key mu <> k -> write_mutation m mu !! k = m !! k.
Proof. intros. rewrite write_mutation_lookup. by rewrite bool_decide_eq_false_2. Qed.

(** What a batch with distinct keys writes, key by key. *)
Definition batch_lookup (m : gmap string bytes) (ms : list StorageMutation) (k : string) :
    option bytes :=
  match List.find (fun mu => bool_decide (mut_key mu = k)) ms with
  | Some mu => mut_value mu
  | None => m !! k
  end.

Lemma find_key_None ms k :
  k ∉ mut_key <$> ms -> List.find (fun mu => bool_decide (mut_key mu = k)) ms = None.
Proof.
  induction ms as [|mu ms IH]; csimpl; [done|]. intros [? ?]%not_elem_of_cons.
  rewrite bool_decide_eq_false_2 by done. auto.
Qed.

Lemma write_mutations_lookup m ms k :
  NoDup (mut_key <$> ms) -> write_mutations m ms !! k = batch_lookup m ms k.
Proof.
  unfold write_mutations, batch_lookup. revert m.
  induction ms as [|mu ms IH]; intros m Hnd; csimpl in *; [done|].
  apply NoDup_cons in Hnd as [Hnin Hnd]. rewrite IH by done.
  rewrite write_mutation_lookup. case_bool_decide; subst; [|done].
  by rewrite find_key_None.
Qed.

Lemma mutations_change_ext m n ms :
  Forall (fun mu => n !! mut_key mu = m !! mut_key mu) ms ->
  mutations_change n ms = mutations_change m ms.
Proof.
  unfold mutations_change. induction 1 as [|mu ms Hmu _ IH]; cbn; [done|].
  by rewrite Hmu, IH.
Qed.

Lemma write_mutation_Forall m mu ms :
  mut_key mu ∉ mut_key <$> ms ->
  Forall (fun mu' => write_mutation m mu !! mut_key mu' = m !! mut_key mu') ms.
Proof.
  intros Hnin. apply Forall_forall. intros mu' Hin. apply write_mutation_ne.
  intros Heq. apply Hnin. rewrite Heq. by apply list_elem_of_fmap_2.
Qed.

Lemma count_mutations_spec m n limits d ms d' :
  NoDup (mut_key <$> ms) ->
  Forall (fun mu => n !! mut_key mu = m !! mut_key mu) ms ->
  count_mutations m limits d ms = Ok d' ->
  delta_of n (write_mutations n ms) d d'
  /\ d'.(changed) = d.(changed) || mutations_change n ms.
Proof.
  revert n d. induction ms as [|mu ms IH]; intros n d Hnd Hall Hr; csimpl in *.
  - simplify_eq. split; [unfold delta_of, write_mutations; cbn; lia|].
    by destruct (changed d').
  - apply NoDup_cons in Hnd as [Hnin Hnd]. apply Forall_cons in Hall as [Hmu Hall].
    destruct (count_mutation _ _ _ _) as [d1|] eqn:Hd1; [|done].
    rewrite (count_mutation_ext _ n) in Hd1 by done.
    destruct mu as [k o]. apply count_mutation_spec in Hd1 as [Hd1 Hc1].
    pose proof (write_mutation_Forall n (mkMutation k o) ms Hnin) as Hw.
    apply (IH (write_mutation n (mkMutation k o))) in Hr as [Hd2 Hc2]; [|done|].
    + split; [unfold delta_of, write_mutations in *; cbn in *; lia|].
      rewrite Hc2, Hc1, (mutations_change_ext n _ ms) by done. cbn. by rewrite orb_assoc.
    + apply Forall_forall. intros mu' Hin. rewrite Forall_forall in Hw, Hall.
      rewrite Hw by done. auto.
Qed.

Lemma write_mutations_unchanged m ms :
  mutations_change m ms = false -> write_mutations m ms = m.
Proof.
  unfold write_mutations. induction ms as [|mu ms IH]; cbn; [done|].
  intros [Hmu Hms]%orb_false_iff. bprop.
  assert (write_mutation m mu = m) as ->; [|auto].
  apply map_eq. intros k. rewrite write_mutation_lookup. case_bool_decide; by subst.
Qed.

(** What a batch with distinct keys finds under its keys is part of the
    entries, for a measure that is additive over them. *)
Lemma removed_bound (f : option bytes -> N) (F : gmap string bytes -> N) m ms :
  f None = 0 ->
  (forall m k v, m !! k = Some v -> F m = f (Some v) + F (delete k m)) ->
  NoDup (mut_key <$> ms) ->
  sumN ((fun mu => f (m !! mut_key mu)) <$> ms) <= F m.
Proof.
  intros Hf HF. revert m. induction ms as [|mu ms IH]; intros m Hnd; csimpl in *; [sums|].
  apply NoDup_cons in Hnd as [Hnin Hnd]. rewrite sumN_cons.
  pose proof (IH (delete (mut_key mu) m) Hnd) as Hle.
  assert (((fun mu' => f (delete (mut_key mu) m !! mut_key mu')) <$> ms)
          = ((fun mu' => f (m !! mut_key mu')) <$> ms)) as Heq.
  { apply list_fmap_ext. intros i mu' Hi. rewrite lookup_delete_ne; [done|].
    intros E. apply Hnin. rewrite E. apply list_elem_of_fmap_2.
    by apply list_elem_of_lookup_2 in Hi. }
  rewrite Heq in Hle. destruct (m !! mut_key mu) as [v|] eqn:Hv.
  - rewrite (HF _ _ _ Hv). lia.
  - rewrite delete_id in Hle by done. lia.
Qed.

Definition opt_count (value : option bytes) : N := if is_some value then 1 else 0.

Lemma btree_len_delete (m : gmap string bytes) k v :
  m !! k = Some v -> btree_len m = opt_count (Some v) + btree_len (delete k m).
Proof.
  intros Hk. pose proof (btree_len_write m k None) as H. unfold write_mutation in H.
  cbn in *. rewrite Hk in H. cbn in H. unfold opt_count. cbn. lia.
Qed.

Lemma count_mutations_ok m limits d ms :
  d.(removed_bytes) + sumN ((fun mu => opt_len (m !! mut_key mu)) <$> ms) <= usize_max ->
  d.(added_bytes) + sumN ((fun mu => opt_len (mut_value mu)) <$> ms) <= usize_max ->
  exists d', count_mutations m limits d ms = Ok d'
    /\ d'.(removed_bytes) <= d.(removed_bytes) + sumN ((fun mu => opt_len (m !! mut_key mu)) <$> ms)
    /\ d'.(added_bytes) <= d.(added_bytes) + sumN ((fun mu => opt_len (mut_value mu)) <$> ms)
    /\ d'.(removed_keys) <= d.(removed_keys) + sumN ((fun mu => opt_count (m !! mut_key mu)) <$> ms).
Proof.
  revert d. induction ms as [|mu ms IH]; intros d Hr Ha; csimpl in *.
  - eexists. split; [done|]. sums.
  - rewrite sumN_cons in Hr, Ha. unfold count_mutation, ok_or.
    setoid_rewrite sumN_cons. case_bool_decide.
    + destruct (IH d) as (d' & Hd' & ? & ? & ?); [lia..|]. exists d'. split; [done|lia].
    + destruct (m !! mut_key mu) as [w|] eqn:Hw, (mut_value mu) as [v|] eqn:Hv; cbn in Hr, Ha;
        try done;
        rewrite ?(proj2 (checked_add_Some _ _ _ _)) by (split; [reflexivity|lia]); cbn;
        match goal with |- context [count_mutations _ _ ?d1 _] =>
          destruct (IH d1) as (d' & Hd' & ? & ? & ?); cbn in *; [lia..|exists d'; split; [done|lia]] end.
Qed.

(** [apply_mutations] succeeds exactly when the written entries fit the
    limits, and then returns those entries and their real usage. *)
Lemma apply_mutations_iff m ms limits m' u c :
  NoDup (mut_key <$> ms) ->
  entries_bytes m <= MAX_STORAGE_BYTES -> btree_len m <= MAX_STORAGE_KEYS ->
  sumN ((fun mu => opt_len (mut_value mu)) <$> ms) <= MAX_TRANSACTION_INPUT_BYTES ->
  limits_ok limits ->
  apply_mutations m (mkUsage (entries_bytes m) (btree_len m)) ms limits = Ok (m', u, c) <->
  m' = write_mutations m ms /\ u = mkUsage (entries_bytes m') (btree_len m')
  /\ c = mutations_change m ms
  /\ entries_bytes m' <= limits.(max_bytes) /\ btree_len m' <= limits.(max_keys).
Proof.
  intros Hnd Hm Hk Ha Hlim. unfold limits_ok in Hlim. set (d0 := mkDelta 0 0 0 0 false).
  pose proof (removed_bound opt_len entries_bytes m ms eq_refl entries_bytes_delete Hnd) as Hr.
  pose proof (removed_bound opt_count btree_len m ms eq_refl btree_len_delete Hnd) as Hrk.
  assert (MAX_STORAGE_BYTES + MAX_TRANSACTION_INPUT_BYTES + MAX_STORAGE_KEYS <= usize_max) as Hbig
    by (vm_compute; done).
  destruct (count_mutations_ok m limits d0 ms) as (d & Hd & Hdr & Hda & Hdk); [cbn; lia..|].
  cbn in Hdr, Hda, Hdk. unfold apply_mutations. fold d0. rewrite Hd.
  apply (count_mutations_spec m m) in Hd as [[Hb Hl] Hc];
    [|done|by apply Forall_forall]. cbn in Hb, Hl, Hc.
  cbn [usage_bytes usage_keys]. unfold ok_or.
  rewrite (proj2 (checked_sub_Some (entries_bytes m) _ _)) by (split; [reflexivity|lia]).
  set (m1 := write_mutations m ms) in *.
  assert (entries_bytes m - removed_bytes d + added_bytes d = entries_bytes m1) as Eb by lia.
  rewrite (proj2 (checked_add_Some _ _ _ _)) by (split; [reflexivity|lia]). rewrite Eb.
  destruct (checked_sub (btree_len m) (removed_keys d)) as [kk|] eqn:Hkk.
  - apply checked_sub_Some in Hkk as [-> ?].
    assert (btree_len m - removed_keys d + added_keys d = btree_len m1) as El by lia.
    destruct (checked_add usize_max (btree_len m - removed_keys d) (added_keys d)) eqn:Hka.
    + apply checked_add_Some in Hka as [-> ?]. rewrite El.
      destruct (N.ltb_spec (max_bytes limits) (entries_bytes m1)); [split; [done|naive_solver lia]|].
      destruct (N.ltb_spec (max_keys limits) (btree_len m1)); [split; [done|naive_solver lia]|].
      rewrite Hc. destruct (mutations_change m ms) eqn:Hch.
      * split; [intros; simplify_eq; split_and!; try done; lia|naive_solver].
      * apply write_mutations_unchanged in Hch as Hm1. fold m1 in Hm1. rewrite Hm1 in *.
        split; [intros; simplify_eq; split_and!; try done; lia|naive_solver].
    + apply checked_add_None in Hka. split; [done|]. intros (-> & _ & _ & _ & Hle). lia.
  - apply checked_sub_None in Hkk. split; [done|]. intros (-> & _ & _ & _ & Hle). lia.
Qed.
