(* ===== verification/StorageSpec.v ===== *)
(** * Correctness of the in-memory storage backend

    Invariants of every reachable store, atomicity of failed and refused
    operations, revisions as change tokens, quota enforcement, and the
    behaviour of each operation key by key. *)
From S2P Require Import Prelude Storage.
Module M := MemoryBackend.

Abbreviation view := M.entry_or_default.

(** A namespace whose recorded usage is its real usage. *)
Definition ns_ok (n : Namespace) : Prop :=
  n.(ns_bytes) = entries_bytes n.(ns_entries)
  /\ n.(ns_bytes) <= MAX_STORAGE_BYTES /\ btree_len n.(ns_entries) <= MAX_STORAGE_KEYS
  /\ n.(ns_revision) <= u64_max.

Definition wf (st : MemoryStorage) : Prop :=
  forall ns n, st.(namespaces) !! ns = Some n -> validate_namespace ns = Ok tt /\ ns_ok n.

(** A write of [n] into [n']: one revision further, same schema, changed
    content, usage still exact and still within limits it was within. *)
Record evolves (limits : StorageLimits) (n n' : Namespace) : Prop := {
  ev_schema : n'.(state_schema) = n.(state_schema);
  ev_revision : n'.(ns_revision) = n.(ns_revision) + 1;
  ev_max : n'.(ns_revision) <= u64_max;
  ev_changed : n'.(ns_entries) <> n.(ns_entries);
  ev_ok : ns_ok n -> ns_ok n';
  ev_within : ns_ok n -> within limits n.(ns_entries) -> within limits n'.(ns_entries);
}.

(** What one operation on [ns] can do to the store. *)
Inductive outcome (limits : StorageLimits) (st : MemoryStorage) (ns : string) :
    MemoryStorage -> Prop :=
| outcome_same : outcome limits st ns st
| outcome_touch :
    validate_namespace ns = Ok tt -> outcome limits st ns (M.set_namespace st ns (view st ns))
| outcome_create schema :
    validate_namespace ns = Ok tt -> st.(namespaces) !! ns = None ->
    outcome limits st ns (M.set_namespace st ns (mkNamespace schema 0 ∅ 0))
| outcome_write n' :
    validate_namespace ns = Ok tt -> evolves limits (view st ns) n' ->
    outcome limits st ns (M.set_namespace st ns n').
#[export] Hint Constructors outcome : rust.

Lemma set_namespace_twice st ns a b :
  M.set_namespace (M.set_namespace st ns a) ns b = M.set_namespace st ns b.
Proof. unfold M.set_namespace; cbn. f_equal. apply insert_insert_eq. Qed.

Lemma view_set_eq st ns n : view (M.set_namespace st ns n) ns = n.
Proof. unfold M.entry_or_default, M.set_namespace; cbn. by rewrite lookup_insert_eq. Qed.

Lemma view_set_ne st ns ns' n : ns <> ns' -> view (M.set_namespace st ns n) ns' = view st ns'.
Proof. intros. unfold M.entry_or_default, M.set_namespace; cbn. by rewrite lookup_insert_ne. Qed.
#[export] Hint Rewrite set_namespace_twice view_set_eq : rust.

Lemma ns_ok_default : ns_ok default_namespace.
Proof.
  unfold ns_ok; cbn. rewrite entries_bytes_empty. unfold btree_len. rewrite map_size_empty.
  split_and!; vm_compute; done.
Qed.

Lemma wf_view st ns : wf st -> ns_ok (view st ns).
Proof.
  intros Hwf. unfold M.entry_or_default. destruct (namespaces st !! ns) as [n|] eqn:E; cbn.
  - by apply (Hwf ns n).
  - apply ns_ok_default.
Qed.

Lemma wf_set st ns n : wf st -> validate_namespace ns = Ok tt -> ns_ok n -> wf (M.set_namespace st ns n).
Proof.
  intros Hwf Hns Hn ns' n'. unfold M.set_namespace; cbn.
  rewrite lookup_insert. case_decide; [intros; simplify_eq; auto|]. apply Hwf.
Qed.

Lemma outcome_wf limits st ns st' : outcome limits st ns st' -> wf st -> wf st'.
Proof.
  intros [ | ? | schema ? ? | n' ? Hev ] Hwf; [done| | |].
  - by apply wf_set; [..|apply wf_view].
  - apply wf_set; [done..|]. apply ns_ok_default.
  - apply wf_set; [done..|]. by apply (ev_ok _ _ _ Hev), wf_view.
Qed.

(** ** One lemma per operation *)
Lemma within_write limits m k v :
  btree_len (<[k := v]> m) <= limits.(max_keys) ->
  entries_bytes (<[k := v]> m) <= limits.(max_bytes) -> len v <= limits.(max_value_bytes) ->
  within limits m -> within limits (<[k := v]> m).
Proof.
  intros ? ? ? (_ & _ & Hv). split_and!; [done..|]. intros k' v'.
  rewrite lookup_insert. case_decide; [naive_solver|]. apply Hv.
Qed.

Lemma next_revision_spec r r' : next_revision r = Ok r' -> r' = r + 1 /\ r' <= u64_max.
Proof.
  unfold next_revision, ok_or. destruct (checked_add _ _ _) eqn:E; [|done].
  apply checked_add_Some in E as [-> ?]. intros; by simplify_eq.
Qed.

(** The branches of [put]. *)
Lemma put_cases st ns k v limits st' r :
  M.put st ns k v limits = (st', r) ->
  let n := view st ns in
  (st' = st /\ is_ok r = false)
  \/ (validate_namespace ns = Ok tt /\ validate_key k = Ok tt /\ validate_limits limits = Ok tt
      /\ len v <= limits.(max_value_bytes) /\ st.(poisoned) = false /\
      ((st' = M.set_namespace st ns n /\ (r = Ok tt -> n.(ns_entries) !! k = Some v))
       \/ (r = Ok tt /\ n.(ns_entries) !! k <> Some v /\
           exists n', st' = M.set_namespace st ns n' /\
             n'.(state_schema) = n.(state_schema) /\
             next_revision n.(ns_revision) = Ok n'.(ns_revision) /\
             n'.(ns_entries) = <[k := v]> n.(ns_entries) /\
             (n.(ns_bytes) = entries_bytes n.(ns_entries) ->
                n'.(ns_bytes) = entries_bytes n'.(ns_entries)) /\
             n'.(ns_bytes) <= limits.(max_bytes) /\
             btree_len n'.(ns_entries) <= N.max limits.(max_keys) (btree_len n.(ns_entries)) /\
             (is_none (n.(ns_entries) !! k) = true ->
                btree_len n'.(ns_entries) <= limits.(max_keys))))).
Proof.
  unfold M.put. cbn zeta. set (n := view st ns). intros Hr.
  destruct (validate_namespace ns) as [[]|]; [|left; by simplify_eq].
  destruct (validate_key k) as [[]|]; [|left; by simplify_eq].
  destruct (validate_limits limits) as [[]|] eqn:Hl; [|left; by simplify_eq].
  destruct (N.ltb_spec (max_value_bytes limits) (len v)) as [|Hv]; [left; by simplify_eq|].
  unfold M.lock in Hr. destruct (poisoned st); [left; by simplify_eq|].
  right. split_and!; [done..|]. fold n in Hr.
  case_bool_decide as Hsame; [left; by simplify_eq|]. unfold ok_or in Hr.
  destruct (checked_sub (ns_bytes n) _) as [rest|] eqn:Hs; [|left; by simplify_eq].
  apply checked_sub_Some in Hs as [-> Hs].
  destruct (checked_add usize_max _ (len v)) as [nb|] eqn:Ha; [|left; by simplify_eq].
  apply checked_add_Some in Ha as [-> Ha].
  destruct (N.ltb_spec (max_bytes limits) (ns_bytes n - opt_len (ns_entries n !! k) + len v));
    [left; by simplify_eq|].
  destruct (is_none (ns_entries n !! k) && (max_keys limits <=? btree_len (ns_entries n))) eqn:Hkl;
    [left; by simplify_eq|].
  destruct (next_revision (ns_revision n)) as [rv|] eqn:Hrv; [|left; by simplify_eq].
  right. simplify_eq. rewrite set_namespace_twice. split_and!; [done..|].
  eexists; split; [done|]. cbn.
  pose proof (entries_bytes_write (ns_entries n) k (Some v)) as Eb.
  pose proof (btree_len_write (ns_entries n) k (Some v)) as El.
  unfold write_mutation in Eb, El. cbn in Eb, El.
  split_and!; try done; [intros; lia| |].
  - destruct (ns_entries n !! k) eqn:Ek; cbn in *; [lia|]. apply N.leb_gt in Hkl. lia.
  - intros Hn. rewrite Hn in Hkl. cbn in Hkl. apply N.leb_gt in Hkl.
    destruct (ns_entries n !! k); cbn in *; [done|lia].
Qed.

Lemma put_outcome st ns k v limits : outcome limits st ns (M.put st ns k v limits).1.
Proof.
  destruct (M.put st ns k v limits) as [st' r] eqn:E. apply put_cases in E. cbn in *.
  destruct E as [[-> _]|(Hns & Hk & Hl & Hv & _ & [[-> _]|(_ & Hne & n' & -> & Hsch & Hrev & Hent & Hb & Hmb & Hmk & Hmk')])];
    [by constructor..|].
  apply next_revision_spec in Hrev as [Hr1 Hr2]. apply validate_limits_spec in Hl.
  unfold limits_ok in Hl. constructor 4; [done|]. constructor; try done.
  - rewrite Hent. intros Heq. apply Hne. rewrite <- Heq. apply lookup_insert_eq.
  - intros (Hx & ? & ? & ?). unfold ns_ok. rewrite <- (Hb Hx). split_and!; [done|lia..].
  - intros (Hx & _) Hw. rewrite Hent. rewrite Hent in Hmk. apply within_write; try done.
    + destruct Hw as (? & _ & _). lia.
    + rewrite <- Hent, <- (Hb Hx). done.
Qed.

Lemma delete_cases st ns k st' r :
  M.delete st ns k = (st', r) ->
  let n := view st ns in
  (st' = st /\ (r = Ok false -> n.(ns_entries) !! k = None) /\ r <> Ok true)
  \/ (validate_namespace ns = Ok tt /\ r = Ok true /\
      exists v n', st.(namespaces) !! ns = Some n /\ n.(ns_entries) !! k = Some v /\
        st' = M.set_namespace st ns n' /\ n'.(state_schema) = n.(state_schema) /\
        next_revision n.(ns_revision) = Ok n'.(ns_revision) /\
        n'.(ns_entries) = delete k n.(ns_entries) /\
        n'.(ns_bytes) = wrapping_sub usize_max n.(ns_bytes) (len v)).
Proof.
  unfold M.delete. cbn zeta. unfold M.entry_or_default. intros Hr.
  destruct (validate_namespace ns) as [[]|]; [|left; by simplify_eq].
  destruct (validate_key k) as [[]|]; [|left; by simplify_eq].
  unfold M.lock in Hr. destruct (poisoned st); [left; by simplify_eq|].
  destruct (namespaces st !! ns) as [n|] eqn:Hn; [|left; by simplify_eq]. cbn.
  destruct (ns_entries n !! k) as [v|] eqn:Hv; [|left; by simplify_eq].
  destruct (next_revision (ns_revision n)) as [rv|] eqn:Hrv; [|left; by simplify_eq].
  right. simplify_eq. split_and!; [done..|]. eexists v, _. by split_and!.
Qed.

Lemma delete_outcome limits st ns k : outcome limits st ns (M.delete st ns k).1.
Proof.
  destruct (M.delete st ns k) as [st' r] eqn:E. apply delete_cases in E. cbn in *.
  destruct E as [[-> _]|(Hns & _ & v & n' & _ & Hv & -> & Hsch & Hrev & Hent & Hb)];
    [by constructor|].
  apply next_revision_spec in Hrev as [Hr1 Hr2]. constructor 4; [done|].
  set (n := view st ns) in *.
  pose proof (entries_bytes_delete _ _ _ Hv) as Eb.
  pose proof (btree_len_delete _ _ _ Hv) as El. cbn in El.
  constructor; try done.
  - rewrite Hent. intros Heq. rewrite <- Heq, lookup_delete_eq in Hv. done.
  - intros (Hx & Hmax & Hkeys & _). unfold ns_ok.
    rewrite Hb, wrapping_sub_small; [| |unfold usize_max, u64_max, MAX_STORAGE_BYTES in *]; [|lia..].
    rewrite Hent. split_and!; lia.
  - intros _ (? & ? & Hw). rewrite Hent. split_and!; [lia..|].
    intros k' v' [_ ?]%lookup_delete_Some. eauto.
Qed.

(** The common tail of the two transactions. *)
Lemma commit_cases st ns n ms limits st' r :
  M.commit (M.set_namespace st ns n) ns n ms limits = (st', r) ->
  NoDup (mut_key <$> ms) ->
  (is_ok r = false /\ st' = M.set_namespace st ns n)
  \/ exists n', st' = M.set_namespace st ns n' /\ r = Ok (mkTxResult true n'.(ns_revision))
      /\ n'.(state_schema) = n.(state_schema)
      /\ n'.(ns_entries) = write_mutations n.(ns_entries) ms
      /\ (if mutations_change n.(ns_entries) ms
          then next_revision n.(ns_revision) = Ok n'.(ns_revision)
          else n' = n).
Proof.
  intros Hr Hnd. unfold M.commit in Hr.
  set (u := mkUsage (ns_bytes n) (btree_len (ns_entries n))) in *.
  set (mc := mutations_change (ns_entries n) ms) in *.
  destruct (if mc then _ else _) as [rv|] eqn:Hrv; [|left; by simplify_eq].
  destruct (apply_mutations _ u ms limits) as [[[m' u'] c]|] eqn:Ha; [|left; by simplify_eq].
  right. unfold apply_mutations in Ha. set (d0 := mkDelta 0 0 0 0 false) in *.
  destruct (count_mutations _ _ _ _) as [d|] eqn:Hd; [|done].
  apply (count_mutations_spec (ns_entries n) (ns_entries n)) in Hd as [_ Hc];
    [|done|by apply Forall_forall]. cbn in Hc. fold mc in Hc. rewrite Hc in Ha.
  unfold ok_or in Ha. cbn in Ha. repeat (case_match; try done).
  - simplify_eq. rewrite set_namespace_twice. eexists. split; [done|]. by split_and!.
  - simplify_eq. rewrite set_namespace_twice. exists n. cbn.
    rewrite write_mutations_unchanged by done. by destruct n.
Qed.

Lemma batch_input_bound ms :
  sumN ((fun mu => opt_len (mut_value mu)) <$> ms)
  <= sumN ((fun mu => str_len (mut_key mu) + opt_len (mut_value mu)) <$> ms).
Proof. induction ms; sums. Qed.

Lemma within_batch limits m ms :
  NoDup (mut_key <$> ms) ->
  Forall (fun mu => opt_len (mut_value mu) <= limits.(max_value_bytes)) ms ->
  within limits m ->
  entries_bytes (write_mutations m ms) <= limits.(max_bytes) ->
  btree_len (write_mutations m ms) <= limits.(max_keys) ->
  within limits (write_mutations m ms).
Proof.
  intros Hnd Hall (_ & _ & Hv) ? ?. split_and!; [done..|]. intros k v.
  rewrite write_mutations_lookup by done. unfold batch_lookup.
  destruct (List.find _ ms) as [mu|] eqn:Hf; [|apply Hv].
  apply List.find_some in Hf as [Hin _]. rewrite Forall_forall in Hall.
  intros Hmv. specialize (Hall mu). rewrite Hmv in Hall. apply Hall.
  by apply list_elem_of_In.
Qed.

Lemma write_mutations_changes m ms :
  NoDup (mut_key <$> ms) -> mutations_change m ms = true -> write_mutations m ms <> m.
Proof.
  intros Hnd Hc Heq. unfold mutations_change in Hc.
  apply existsb_exists in Hc as (mu & Hmu & Hne). bprop. apply Hne.
  rewrite <- Heq at 1. rewrite write_mutations_lookup by done. unfold batch_lookup.
  destruct (List.find _ ms) as [mu'|] eqn:Hf.
  - apply List.find_some in Hf as [Hin Hk]. bprop. f_equal.
    apply list_elem_of_In, list_elem_of_lookup in Hmu as [i Hi], Hin as [j Hj].
    assert (i = j) as ->; [|by simplify_eq].
    eapply NoDup_lookup; [done| |]; rewrite list_lookup_fmap; [by rewrite Hi|].
    rewrite Hj. cbn. by rewrite Hk.
  - apply (List.find_none _ _ Hf) in Hmu. bprop. done.
Qed.

Lemma commit_outcome st ns ms limits :
  validate_namespace ns = Ok tt -> validate_mutations ms limits = Ok tt ->
  outcome limits st ns
    (M.commit (M.set_namespace st ns (view st ns)) ns (view st ns) ms limits).1.
Proof.
  intros Hns Hms. apply validate_mutations_spec in Hms as (Hl & Hnd & Hall & Hin).
  apply validate_limits_spec in Hl. set (n := view st ns).
  destruct (M.commit _ _ _ _ _) as [st' r] eqn:E.
  destruct (commit_cases _ _ _ _ _ _ _ E Hnd) as [[_ ->]|(n' & -> & Hr & Hsch & Hent & Hrev)];
    cbn; [by constructor|].
  destruct (mutations_change (ns_entries n) ms) eqn:Hc; [|subst n'; by constructor].
  apply next_revision_spec in Hrev as [Hr1 Hr2]. constructor 4; [done|].
  assert (ns_ok n -> n'.(ns_bytes) = entries_bytes n'.(ns_entries)
     /\ entries_bytes n'.(ns_entries) <= limits.(max_bytes)
     /\ btree_len n'.(ns_entries) <= limits.(max_keys)) as Hok.
  { intros (Hb & ? & ? & _). unfold M.commit in E. rewrite Hb, Hc in E.
    destruct (next_revision _) as [rv|]; [|simplify_eq; done].
    destruct (apply_mutations _ _ _ _) as [[[m1 u1] c1]|] eqn:Ha; [|simplify_eq; done].
    apply apply_mutations_iff in Ha as (-> & -> & -> & ? & ?);
      [|done|lia|done|pose proof (batch_input_bound ms); lia|done].
    rewrite Hc, set_namespace_twice in E. apply (f_equal fst) in E. cbn in E.
    apply (f_equal (fun s => view s ns)) in E. rewrite !view_set_eq in E. subst n'. done. }
  constructor; try done.
  - rewrite Hent. by apply write_mutations_changes.
  - intros Hn. destruct (Hok Hn) as (? & ? & ?). unfold limits_ok in Hl.
    unfold ns_ok. split_and!; [done|lia..].
  - intros Hn Hw. destruct (Hok Hn) as (? & ? & ?). rewrite Hent in *.
    apply within_batch; try done. eapply Forall_impl; [done|]. naive_solver.
Qed.

Lemma compare_exchange_mutations k ex rep limits u :
  validate_compare_exchange k ex rep limits = Ok u ->
  validate_mutations [mkMutation k rep] limits = Ok tt.
Proof.
  unfold validate_compare_exchange, ok_or. intros H. repeat (case_match; try done).
  all: by match goal with u : () |- _ => destruct u end.
Qed.

Lemma compare_exchange_outcome st ns er k ex rep limits :
  outcome limits st ns (M.compare_exchange st ns er k ex rep limits).1.
Proof.
  unfold M.compare_exchange.
  destruct (validate_compare_exchange k ex rep limits) as [[]|] eqn:Hv; [|constructor].
  destruct (validate_namespace ns) as [[]|] eqn:Hns; [|constructor].
  destruct (M.lock st); [|constructor].
  case_match; [by constructor|]. apply commit_outcome; [done|].
  by eapply compare_exchange_mutations.
Qed.

Lemma apply_batch_outcome st ns er ms limits :
  outcome limits st ns (M.apply_batch st ns er ms limits).1.
Proof.
  unfold M.apply_batch.
  destruct (validate_mutations ms limits) as [[]|] eqn:Hv; [|constructor].
  destruct (validate_namespace ns) as [[]|] eqn:Hns; [|constructor].
  destruct (M.lock st); [|constructor].
  case_match; [by constructor|]. by apply commit_outcome.
Qed.

Lemma within_empty limits : within limits ∅.
Proof.
  unfold within, btree_len. rewrite entries_bytes_empty, map_size_empty.
  split_and!; [lia..|]. intros k v. by rewrite lookup_empty.
Qed.

Lemma prepare_outcome st ns schema limits : outcome limits st ns (M.prepare st ns schema limits).1.
Proof.
  unfold M.prepare.
  destruct (validate_namespace ns) as [[]|] eqn:Hns; [|constructor].
  destruct (validate_limits limits) as [[]|] eqn:Hl; [|constructor].
  destruct (M.lock st); [|constructor].
  destruct (namespaces st !! ns) as [n|] eqn:Hn.
  - destruct (negb _); [constructor|]. rewrite Hn.
    destruct (validate_entry_limits _ _); constructor.
  - unfold M.set_namespace; cbn. rewrite lookup_insert_eq; cbn.
    destruct (validate_entry_limits _ _); by constructor.
Qed.

Lemma load_cases st ns schema rv m limits st' r :
  M.load_namespace st ns schema rv m limits = (st', r) ->
  (st' = st /\ is_ok r = false)
  \/ (validate_namespace ns = Ok tt /\ validate_limits limits = Ok tt /\ within limits m /\
      r = Ok tt /\ st' = M.set_namespace st ns (mkNamespace schema rv m (entries_bytes m))).
Proof.
  unfold M.load_namespace. intros H.
  destruct (validate_namespace ns) as [[]|]; [|left; by simplify_eq].
  destruct (validate_entry_limits m limits) as [u|] eqn:Hu; [|left; by simplify_eq].
  apply validate_entry_limits_iff in Hu as (? & ? & ->).
  destruct (M.lock st); [|left; by simplify_eq]. right. by simplify_eq.
Qed.

(** ** Runs of the store

    [client_step] is any call of the [StorageBackend] trait, whatever it
    returns; [step] adds the crate-internal [load_namespace]. *)
Inductive client_step (L : StorageLimits -> Prop) (st : MemoryStorage) : MemoryStorage -> Prop :=
| step_prepare ns schema limits :
    L limits -> client_step L st (M.prepare st ns schema limits).1
| step_put ns k v limits :
    L limits -> client_step L st (M.put st ns k v limits).1
| step_delete ns k : client_step L st (M.delete st ns k).1
| step_compare_exchange ns er k ex rep limits :
    L limits -> client_step L st (M.compare_exchange st ns er k ex rep limits).1
| step_apply_batch ns er ms limits :
    L limits -> client_step L st (M.apply_batch st ns er ms limits).1.

Inductive step (L : StorageLimits -> Prop) (st : MemoryStorage) : MemoryStorage -> Prop :=
| step_client st' : client_step L st st' -> step L st st'
| step_load ns schema rv m limits :
    L limits -> rv <= u64_max -> step L st (M.load_namespace st ns schema rv m limits).1.

Lemma client_step_outcome L st st' (limits0 : StorageLimits) :
  client_step L st st' -> exists ns limits, outcome limits st ns st' /\ (L limits \/ limits = limits0).
Proof.
  intros []; eexists _, _;
    (split; [first [apply prepare_outcome | apply put_outcome | apply delete_outcome
                   | apply compare_exchange_outcome | apply apply_batch_outcome] | eauto]).
Qed.

Lemma step_wf L st st' : step L st st' -> wf st -> wf st'.
Proof.
  intros [st1 H|ns schema rv m limits _ Hrv] Hwf.
  - destruct (client_step_outcome _ _ _ (mkLimits 0 0 0) H) as (? & ? & ? & _).
    by eapply outcome_wf.
  - destruct (M.load_namespace _ _ _ _ _ _) as [st1 r] eqn:E. cbn.
    apply load_cases in E as [[-> _]|(? & Hl & (? & ? & _) & _ & ->)]; [done|].
    apply validate_limits_spec in Hl. unfold limits_ok in Hl.
    apply wf_set; [done..|]. unfold ns_ok. cbn. split_and!; [done|lia..].
Qed.

Lemma new_wf : wf M.new.
Proof. intros ns n. unfold M.new; cbn. by rewrite lookup_empty. Qed.

Lemma steps_wf L st st' : rtc (step L) st st' -> wf st -> wf st'.
Proof. induction 1; eauto using step_wf. Qed.

(** ** Theorems *)
Definition any_limits (_ : StorageLimits) : Prop := True.
Definition same_view (st st' : MemoryStorage) : Prop := forall ns, view st' ns = view st ns.

Lemma same_view_touch st ns : same_view st (M.set_namespace st ns (view st ns)).
Proof.
  intros ns'. destruct (decide (ns = ns')) as [<-|]; [apply view_set_eq|by apply view_set_ne].
Qed.
Lemma same_view_refl st : same_view st st.
Proof. done. Qed.
#[export] Hint Resolve same_view_touch same_view_refl : rust.

(** In every state the backend can reach from [MemoryStorage::new] by any
    sequence of calls (successful or failing, with any limits), every
    namespace has a valid name, its recorded byte count is the sum of the
    sizes of its values, it is within the global byte and key ceilings, and its
    revision fits in a [u64]; so the unchecked subtraction of [delete] never
    underflows. *)
Theorem storage_reachable_wf (st : MemoryStorage) (Hrun : rtc (step any_limits) M.new st) :
  forall ns n, st.(namespaces) !! ns = Some n ->
    validate_namespace ns = Ok tt
    /\ n.(ns_bytes) = entries_bytes n.(ns_entries)
    /\ n.(ns_bytes) <= MAX_STORAGE_BYTES
    /\ btree_len n.(ns_entries) <= MAX_STORAGE_KEYS
    /\ n.(ns_revision) <= u64_max.
Proof.
  intros ns n Hn. pose proof (steps_wf _ _ _ Hrun new_wf) as Hwf.
  destruct (Hwf ns n Hn) as (? & ? & ? & ? & ?). done.
Qed.

Definition quota_inv (L : StorageLimits) (st : MemoryStorage) : Prop :=
  wf st /\ forall ns, within L (view st ns).(ns_entries).

Lemma outcome_quota L st ns st' : outcome L st ns st' -> quota_inv L st -> quota_inv L st'.
Proof.
  intros Hout [Hwf Hq]. split; [by eapply outcome_wf|]. intros ns'.
  destruct Hout as [ | ? | schema ? ? | n' ? Hev ]; [done| | |].
  - rewrite (same_view_touch st ns ns'). done.
  - destruct (decide (ns = ns')) as [<-|]; [|by rewrite view_set_ne].
    rewrite view_set_eq. apply within_empty.
  - destruct (decide (ns = ns')) as [<-|]; [|by rewrite view_set_ne].
    rewrite view_set_eq. apply (ev_within _ _ _ Hev); [by apply wf_view|done].
Qed.

Lemma step_quota L st st' : step (eq L) st st' -> quota_inv L st -> quota_inv L st'.
Proof.
  intros [st1 H|ns schema rv m limits <- Hrv] Hq.
  - destruct (client_step_outcome _ _ _ L H) as (? & ? & ? & [<-| ->]); by eapply outcome_quota.
  - pose proof Hq as [Hwf Hw]. split; [by eapply step_wf; [eapply (step_load (eq L))|]|].
    intros ns'. destruct (M.load_namespace _ _ _ _ _ _) as [st1 r] eqn:E. cbn.
    apply load_cases in E as [[-> _]|(? & _ & ? & _ & ->)]; [done|].
    destruct (decide (ns = ns')) as [<-|]; [by rewrite view_set_eq|by rewrite view_set_ne].
Qed.

(** When every call of a run uses the same valid limits, each namespace
    always passes [validate_entry_limits] with those limits, and the usage
    this computes is the recorded one: quotas are never exceeded and a later
    [prepare] with the same limits cannot be refused for quota. *)
Theorem storage_quota_enforced (L : StorageLimits) (st : MemoryStorage)
    (HL : validate_limits L = Ok tt) (Hrun : rtc (step (eq L)) M.new st) :
  forall ns n, st.(namespaces) !! ns = Some n ->
    validate_entry_limits n.(ns_entries) L = Ok (mkUsage n.(ns_bytes) (btree_len n.(ns_entries))).
Proof.
  intros ns n Hn. assert (quota_inv L st) as [Hwf Hq].
  { assert (quota_inv L M.new) as H0.
    { split; [apply new_wf|]. intros ns'. apply within_empty. }
    revert H0. induction Hrun; eauto using step_quota. }
  specialize (Hq ns). unfold M.entry_or_default in Hq. rewrite Hn in Hq. cbn in Hq.
  destruct (Hwf ns n Hn) as (_ & Hb & _). rewrite validate_entry_limits_iff, <- Hb. done.
Qed.

(** Content can only change together with the revision. *)
Definition token_order (n n' : Namespace) : Prop :=
  n.(ns_revision) <= n'.(ns_revision)
  /\ (n.(ns_revision) = n'.(ns_revision) -> n'.(ns_entries) = n.(ns_entries)).

Lemma outcome_token L st ns st' ns' : outcome L st ns st' -> token_order (view st ns') (view st' ns').
Proof.
  intros Hout. unfold token_order. destruct Hout as [ | ? | schema ? Hn | n' ? Hev ]; [done| | |].
  - by rewrite (same_view_touch st ns ns').
  - destruct (decide (ns = ns')) as [<-|]; [|by rewrite view_set_ne].
    rewrite view_set_eq. unfold M.entry_or_default. by rewrite Hn.
  - destruct (decide (ns = ns')) as [<-|]; [|by rewrite view_set_ne].
    rewrite view_set_eq, (ev_revision _ _ _ Hev). split; [lia|]. intros; lia.
Qed.

Lemma run_token L st st' ns :
  rtc (client_step L) st st' -> token_order (view st ns) (view st' ns).
Proof.
  induction 1 as [|a b c Hab _ IH]; [done|].
  destruct (client_step_outcome _ _ _ (mkLimits 0 0 0) Hab) as (ns1 & lim & Hout & _).
  apply (outcome_token _ _ _ _ ns) in Hout as [Ha1 Ha2]. destruct IH as [Hb1 Hb2].
  split; [lia|]. intros Heq. rewrite Hb2, Ha2; [done|lia..].
Qed.

(** A revision is an ABA-safe token: if a client reads revision [token],
    any calls happen in between, and a later [compare_exchange] or
    [apply_batch] that expects [token] applies, then the namespace holds at
    that moment exactly what it held when the token was read. *)
Theorem transaction_token_sound (L : StorageLimits -> Prop) (st0 st : MemoryStorage)
    (ns : string) (token : N)
    (Hread : M.revision st0 ns = Ok token) (Hrun : rtc (client_step L) st0 st) :
  (forall k ex rep limits st' rv,
     M.compare_exchange st ns token k ex rep limits = (st', Ok (mkTxResult true rv)) ->
     (view st ns).(ns_entries) = (view st0 ns).(ns_entries)
     /\ (view st0 ns).(ns_entries) !! k = ex)
  /\ (forall ms limits st' rv,
     M.apply_batch st ns token ms limits = (st', Ok (mkTxResult true rv)) ->
     (view st ns).(ns_entries) = (view st0 ns).(ns_entries)).
Proof.
  pose proof (run_token _ _ _ ns Hrun) as [_ Htok].
  assert ((view st0 ns).(ns_revision) = token) as Ht.
  { unfold M.revision in Hread. unfold M.entry_or_default. run; done. }
  split.
  - intros k ex rep limits st' rv H. unfold M.compare_exchange in H.
    do 3 (case_match; [|done]). case_match; [by simplify_eq|]. bprop.
    rewrite Ht in Htok. split; [by apply Htok|]. by rewrite <- Htok by done.
  - intros ms limits st' rv H. unfold M.apply_batch in H.
    do 3 (case_match; [|done]). case_match; [by simplify_eq|]. bprop.
    rewrite Ht in Htok. by apply Htok.
Qed.

(** A call that fails, and a transaction that is refused because its
    revision or expected value is stale, changes neither content, revision,
    schema nor usage of any namespace. *)
Theorem failed_calls_change_nothing (st : MemoryStorage) (ns k : string) (limits : StorageLimits) :
  (forall schema st' e, M.prepare st ns schema limits = (st', Err e) -> same_view st st')
  /\ (forall v st' e, M.put st ns k v limits = (st', Err e) -> same_view st st')
  /\ (forall st' e, M.delete st ns k = (st', Err e) -> same_view st st')
  /\ (forall token ex rep st' r, M.compare_exchange st ns token k ex rep limits = (st', r) ->
        (forall rv, r <> Ok (mkTxResult true rv)) -> same_view st st')
  /\ (forall token ms st' r, M.apply_batch st ns token ms limits = (st', r) ->
        (forall rv, r <> Ok (mkTxResult true rv)) -> same_view st st').
Proof.
  split_and!.
  - intros schema st' e H. unfold M.prepare in H.
    destruct (validate_namespace ns) as [[]|]; [|by simplify_eq].
    destruct (validate_limits limits) as [[]|] eqn:Hl; [|by simplify_eq].
    destruct (M.lock st); [|by simplify_eq].
    destruct (namespaces st !! ns) as [n|] eqn:Hn.
    + destruct (negb _); [by simplify_eq|]. rewrite Hn in H.
      destruct (validate_entry_limits _ _); by simplify_eq.
    + unfold M.set_namespace in H; cbn in H. rewrite lookup_insert_eq in H; cbn in H.
      erewrite (proj2 (validate_entry_limits_iff ∅ limits _)) in H; [done|].
      split_and!; [done|apply within_empty|reflexivity].
  - intros v st' e H. apply put_cases in H as [[-> _]|(_ & _ & _ & _ & _ & [[-> _]|[? _]])];
      auto with rust; done.
  - intros st' e H. apply delete_cases in H as [[-> _]|(_ & ? & _)]; auto with rust; done.
  - intros token ex rep st' r H Hr. unfold M.compare_exchange in H.
    destruct (validate_compare_exchange _ _ _ _) as [[]|] eqn:Hv; [|by simplify_eq].
    apply compare_exchange_mutations, validate_mutations_spec in Hv as (_ & Hnd & _).
    do 2 (case_match; [|by simplify_eq]).
    case_match; [simplify_eq; auto with rust|].
    apply commit_cases in H as [[_ ->]|(n' & _ & -> & _)]; auto with rust; by edestruct Hr.
  - intros token ms st' r H Hr. unfold M.apply_batch in H.
    destruct (validate_mutations _ _) as [[]|] eqn:Hv; [|by simplify_eq].
    apply validate_mutations_spec in Hv as (_ & Hnd & _).
    do 2 (case_match; [|by simplify_eq]).
    case_match; [simplify_eq; auto with rust|].
    apply commit_cases in H as [[_ ->]|(n' & _ & -> & _)]; auto with rust; by edestruct Hr.
Qed.

Definition fits (limits : StorageLimits) (m : gmap string bytes) : bool :=
  (entries_bytes m <=? limits.(max_bytes)) && (btree_len m <=? limits.(max_keys)).

(** Total behaviour of [apply_batch] on a current revision: the batch is
    applied exactly when the resulting content fits the quota.  Then every
    mutated key has its new value (or is gone), every other key is as before,
    usage is the real usage of the new content, and the revision moves by one
    exactly when something changed; otherwise the call fails and nothing
    changes. *)
Theorem apply_batch_total (st : MemoryStorage) (ns : string) (ms : list StorageMutation)
    (limits : StorageLimits)
    (Hwf : wf st) (Hp : st.(poisoned) = false) (Hns : validate_namespace ns = Ok tt)
    (Hms : validate_mutations ms limits = Ok tt) (Hrev : (view st ns).(ns_revision) < u64_max) :
  let n := view st ns in
  let m' := write_mutations n.(ns_entries) ms in
  let '(st', r) := M.apply_batch st ns n.(ns_revision) ms limits in
  if fits limits m' then
    let rv := n.(ns_revision) + (if mutations_change n.(ns_entries) ms then 1 else 0) in
    r = Ok (mkTxResult true rv)
    /\ view st' ns = mkNamespace n.(state_schema) rv m' (entries_bytes m')
    /\ (forall k, m' !! k = batch_lookup n.(ns_entries) ms k)
    /\ (forall ns', ns' <> ns -> view st' ns' = view st ns')
  else is_ok r = false /\ same_view st st'.
Proof.
  cbn zeta. pose proof (wf_view st ns Hwf) as (Hb & ? & ? & _). set (n := view st ns) in *.
  pose proof Hms as (Hl & Hnd & _ & Hin)%validate_mutations_spec.
  apply validate_limits_spec in Hl. pose proof (batch_input_bound ms) as Hin'.
  unfold M.apply_batch. rewrite Hms, Hns. unfold M.lock. rewrite Hp. fold n.
  rewrite N.eqb_refl. cbn [negb]. unfold M.commit. rewrite Hb.
  set (mc := mutations_change (ns_entries n) ms).
  assert (next_revision (ns_revision n) = Ok (ns_revision n + 1)) as Hnr.
  { unfold next_revision. by rewrite (proj2 (checked_add_Some _ _ _ _)) by (split; [done|lia]). }
  set (m' := write_mutations (ns_entries n) ms). rewrite Hb in *.
  assert (forall m1 u c, apply_mutations (ns_entries n)
     (mkUsage (entries_bytes (ns_entries n)) (btree_len (ns_entries n))) ms limits = Ok (m1, u, c)
     <-> m1 = m' /\ u = mkUsage (entries_bytes m1) (btree_len m1) /\ c = mc
     /\ entries_bytes m1 <= max_bytes limits /\ btree_len m1 <= max_keys limits) as Hiff
    by (intros; apply apply_mutations_iff; [done|lia|done|lia|done]).
  assert ((if mc then next_revision (ns_revision n) else Ok (ns_revision n))
          = Ok (E := Error) (ns_revision n + (if mc then 1 else 0))) as ->
    by (destruct mc; [done|f_equal; lia]).
  unfold fits. destruct (N.leb_spec (entries_bytes m') (max_bytes limits));
    [destruct (N.leb_spec (btree_len m') (max_keys limits))|]; cbn [andb].
  - rewrite (proj2 (Hiff m' _ mc)) by done. rewrite set_namespace_twice, view_set_eq.
    split_and!; [destruct mc; repeat f_equal; lia|destruct mc; repeat f_equal; lia| |].
    + intros k. by apply write_mutations_lookup.
    + intros ns' ?. by apply view_set_ne.
  - destruct (apply_mutations _ _ _ _) as [[[m1 u] c]|] eqn:E; [|auto with rust].
    destruct (proj1 (Hiff _ _ _) eq_refl) as (-> & _ & _ & _ & ?). lia.
  - destruct (apply_mutations _ _ _ _) as [[[m1 u] c]|] eqn:E; [|auto with rust].
    destruct (proj1 (Hiff _ _ _) eq_refl) as (-> & _ & _ & ? & _). lia.
Qed.

(** [compare_exchange] on a matching value is the one-element batch: the
    two entry points cannot disagree on quota, revision or content. *)
Theorem compare_exchange_is_batch (st : MemoryStorage) (ns k : string) (token : N)
    (ex rep : option bytes) (limits : StorageLimits)
    (Hv : validate_compare_exchange k ex rep limits = Ok tt)
    (Hex : (view st ns).(ns_entries) !! k = ex) :
  M.compare_exchange st ns token k ex rep limits
  = M.apply_batch st ns token [mkMutation k rep] limits.
Proof.
  unfold M.compare_exchange, M.apply_batch. rewrite Hv.
  rewrite (compare_exchange_mutations _ _ _ _ _ Hv).
  destruct (validate_namespace ns); [|done]. destruct (M.lock st); [|done].
  rewrite (bool_decide_eq_true_2 _ Hex). cbn. by rewrite orb_false_r.
Qed.

(** A [put] that succeeds stores exactly the value it was given: [get] then
    returns it, every other key of the namespace and every other namespace
    reads as before, and the revision moves by one unless the value was
    already there.  A key then removed by [delete] reads as absent. *)
Theorem put_get_delete (st st' : MemoryStorage) (ns k : string) (v : bytes) (limits : StorageLimits)
    (Hput : M.put st ns k v limits = (st', Ok tt)) :
  M.get st' ns k = Ok (Some v)
  /\ (forall ns' k', (ns', k') <> (ns, k) -> M.get st' ns' k' = M.get st ns' k')
  /\ (view st' ns).(ns_revision)
     = (view st ns).(ns_revision)
       + (if bool_decide ((view st ns).(ns_entries) !! k = Some v) then 0 else 1)
  /\ (forall st'' b, M.delete st' ns k = (st'', Ok b) -> b = true /\ M.get st'' ns k = Ok None).
Proof.
  apply put_cases in Hput as [[_ ?]|(Hns & Hk & _ & _ & Hp & Hcase)]; [done|].
  set (n := view st ns) in *.
  assert (exists n', st' = M.set_namespace st ns n' /\ n'.(ns_entries) = <[k := v]> n.(ns_entries)
    /\ n'.(ns_revision) = n.(ns_revision)
       + (if bool_decide (n.(ns_entries) !! k = Some v) then 0 else 1)) as (n' & -> & Hent & Hrev).
  { destruct Hcase as [[-> Hv]|(_ & Hne & n' & -> & _ & Hr & Hent & _)].
    - exists n. rewrite insert_id by auto. rewrite bool_decide_eq_true_2 by auto.
      split_and!; [done..|lia].
    - exists n'. rewrite bool_decide_eq_false_2 by done.
      by apply next_revision_spec in Hr as [-> _]. }
  unfold M.get, M.lock. rewrite Hns, Hk, Hp, view_set_eq. unfold M.set_namespace; cbn.
  rewrite Hp, lookup_insert_eq, Hent, lookup_insert_eq. split_and!; [done| |done|].
  - intros ns' k' Hne. destruct (decide (ns = ns')) as [<-|]; [|by rewrite lookup_insert_ne].
    rewrite lookup_insert_eq.
    assert (k' <> k) by congruence. subst n. unfold M.entry_or_default in Hent.
    rewrite Hent, lookup_insert_ne by done. by destruct (namespaces st !! ns).
  - intros st'' b Hd. unfold M.delete, M.lock in Hd. rewrite Hns, Hk in Hd. cbn in Hd.
    rewrite lookup_insert_eq in Hd. rewrite Hent, lookup_insert_eq in Hd.
    destruct (next_revision (ns_revision n')) as [rv|]; simplify_eq. split; [done|]. unfold M.set_namespace; cbn.
    rewrite lookup_insert_eq; cbn. by rewrite lookup_delete_eq.
Qed.

(** [list] returns exactly the stored keys that start with the prefix, each
    once, in increasing byte order. *)
Theorem list_sorted_exact (st : MemoryStorage) (ns prefix : string) (keys : list string)
    (Hlist : M.list st ns prefix = Ok keys) :
  StronglySorted String.le keys /\ NoDup keys
  /\ forall k, k ∈ keys <->
       is_Some ((view st ns).(ns_entries) !! k) /\ starts_with k prefix = true.
Proof.
  unfold M.list in Hlist. destruct (validate_namespace ns); [|done].
  destruct (validate_prefix prefix); [|done]. destruct (M.lock st); [|done].
  assert (keys = List.filter (fun key => starts_with key prefix) (btree_keys (view st ns).(ns_entries)))
    as ->.
  { unfold M.entry_or_default. destruct (namespaces st !! ns); by simplify_eq. }
  set (m := ns_entries (view st ns)). split_and!.
  - generalize (btree_keys_sorted m). generalize (btree_keys m). intros l0. induction 1 as [|x l Hl IH Hx]; cbn; [constructor|].
    destruct (starts_with x prefix); [|done]. constructor; [done|]. rewrite Forall_forall in *.
    intros y [Hy _]%list_elem_of_In%List.filter_In. apply Hx. by apply list_elem_of_In.
  - apply NoDup_ListNoDup, List.NoDup_filter, NoDup_ListNoDup, btree_keys_NoDup.
  - intros k. rewrite list_elem_of_In, List.filter_In, <- list_elem_of_In.
    assert (k ∈ btree_keys m <-> is_Some (m !! k)) as ->; [|done].
    unfold btree_keys. rewrite list_elem_of_fmap. split.
    + intros ([k' v] & -> & Hin). exists v. by apply btree_iter_elem.
    + intros [v Hv]. exists (k, v). split; [done|]. by apply btree_iter_elem.
Qed.

(** Path resolution of a key below a root directory: [None] leaves the root. *)
Fixpoint resolve (stack segments : list string) : option (list string) :=
  match segments with
  | [] => Some (reverse stack)
  | segment :: rest =>
      if bool_decide (segment = "") || bool_decide (segment = ".") then resolve stack rest
      else if bool_decide (segment = "..") then
        match stack with [] => None | _ :: up => resolve up rest end
      else resolve (segment :: stack) rest
  end.

Fixpoint join_slash (segments : list string) : string :=
  match segments with
  | [] => ""
  | [s] => s
  | s :: rest => s +:+ "/" +:+ join_slash rest
  end.

Lemma split_on_ne c s : split_on c s <> [].
Proof. destruct s; cbn; repeat case_match; done. Qed.

Lemma join_split s : join_slash (split_on "/" s) = s.
Proof.
  induction s as [|a s IH]; [done|]. cbn. pose proof (split_on_ne "/" s).
  case_bool_decide as Ha.
  - destruct (split_on "/" s) as [|h t]; [done|]. rewrite Ha, <- IH. reflexivity.
  - destruct (split_on "/" s) as [|h [|h' t]]; [done|..]; rewrite <- IH; reflexivity.
Qed.

Lemma resolve_plain stack segments :
  existsb bad_segment segments = false -> resolve stack segments = Some (reverse stack ++ segments).
Proof.
  revert stack. induction segments as [|s l IH]; intros stack H; cbn in *.
  - by rewrite app_nil_r.
  - apply orb_false_iff in H as [Hs Hl]. unfold bad_segment, str_is_empty in Hs. bprop.
    rewrite !bool_decide_eq_false_2 by done. cbn. rewrite IH by done.
    by rewrite reverse_cons, <- app_assoc.
Qed.

(** A key accepted by [validate_key] read as a relative path never leaves
    its root and denotes itself segment by segment, so that two accepted keys
    that resolve to the same path are the same key. *)
Theorem valid_keys_are_confined (k1 k2 : string)
    (H1 : validate_key k1 = Ok tt) (H2 : validate_key k2 = Ok tt) :
  resolve [] (split_on "/" k1) = Some (split_on "/" k1)
  /\ (resolve [] (split_on "/" k1) = resolve [] (split_on "/" k2) -> k1 = k2).
Proof.
  assert (forall k, validate_key k = Ok tt -> resolve [] (split_on "/" k) = Some (split_on "/" k)) as H.
  { intros k Hk. unfold validate_key in Hk. case_match; [done|]. bprop. by apply resolve_plain. }
  rewrite !H by done. split; [done|]. intros; simplify_eq.
  rewrite <- (join_split k1), <- (join_split k2). by f_equal.
Qed.

(** A transaction that is refused on a namespace nobody prepared still
    creates it, with schema 0: a later [prepare] for any other schema is then
    rejected although nothing was ever written. *)
Theorem refused_transaction_pins_schema (st st' : MemoryStorage) (ns : string) (token schema rv : N)
    (ms : list StorageMutation) (limits : StorageLimits)
    (Hfresh : st.(namespaces) !! ns = None) (Hschema : schema <> 0)
    (Hrun : M.apply_batch st ns token ms limits = (st', Ok (mkTxResult false rv))) :
  (M.prepare st ns schema limits).2 = Ok tt
  /\ (M.prepare st' ns schema limits).2 = Err (SchemaMismatch schema 0).
Proof.
  unfold M.apply_batch in Hrun.
  destruct (validate_mutations ms limits) as [[]|] eqn:Hms; [|done].
  apply validate_mutations_spec in Hms as (Hl & Hnd & _).
  destruct (validate_namespace ns) as [[]|] eqn:Hns; [|done].
  unfold M.lock in Hrun. destruct (poisoned st) eqn:Hp; [done|].
  case_match; [|apply commit_cases in Hrun as [[? _]|(? & _ & ? & _)]; done].
  simplify_eq. unfold M.prepare, M.lock. rewrite Hns, Hl. cbn. rewrite Hp, Hfresh. split.
  - unfold M.set_namespace; cbn. rewrite lookup_insert_eq; cbn.
    erewrite (proj2 (validate_entry_limits_iff ∅ limits _)); [done|].
    split_and!; [done|apply within_empty|reflexivity].
  - unfold M.entry_or_default. rewrite Hfresh; cbn. rewrite lookup_insert_eq; cbn.
    by destruct schema.
Qed.

(** ** Concrete runs *)
Definition demo_ns : string := "dev.example.test".
Definition demo_limits : StorageLimits := mkLimits 16 2 12.
Definition demo_value : bytes := [x6f; x6e; x65].
Definition demo_store : MemoryStorage := (M.put M.new demo_ns "a" demo_value demo_limits).1.
Definition demo_state : Namespace := mkNamespace 0 1 {["a" := demo_value]} 3.
Definition demo_batch : list StorageMutation :=
  [mkMutation "a" None; mkMutation "b" (Some demo_value)].

Lemma demo_lookup : demo_store.(namespaces) !! demo_ns = Some demo_state.
Proof. vm_compute. reflexivity. Qed.
Lemma demo_view : view demo_store demo_ns = demo_state.
Proof. vm_compute. reflexivity. Qed.
Lemma demo_put : M.put M.new demo_ns "a" demo_value demo_limits = (demo_store, Ok tt).
Proof. vm_compute. reflexivity. Qed.
Lemma demo_run (L : StorageLimits -> Prop) : L demo_limits -> rtc (step L) M.new demo_store.
Proof. intros. by apply rtc_once, step_client, step_put. Qed.

Lemma storage_reachable_wf_witness :
  demo_state.(ns_bytes) = entries_bytes demo_state.(ns_entries).
Proof.
  apply (storage_reachable_wf demo_store (demo_run any_limits I) demo_ns demo_state demo_lookup).
Defined.

Lemma storage_quota_enforced_witness :
  validate_entry_limits demo_state.(ns_entries) demo_limits = Ok (mkUsage 3 1).
Proof.
  apply (storage_quota_enforced demo_limits demo_store eq_refl (demo_run (eq demo_limits) eq_refl)
           demo_ns demo_state demo_lookup).
Defined.

Lemma transaction_token_sound_witness :
  (view demo_store demo_ns).(ns_entries) !! "a" = Some demo_value.
Proof.
  refine (proj2 (proj1 (transaction_token_sound any_limits demo_store demo_store demo_ns 1
            eq_refl (rtc_refl _ _)) "a" (Some demo_value) None demo_limits _ 2 _)).
  vm_compute. reflexivity.
Defined.

Lemma demo_store_wf : wf demo_store.
Proof. apply (steps_wf any_limits M.new); [by apply demo_run|apply new_wf]. Qed.

Lemma apply_batch_total_witness :
  (M.apply_batch demo_store demo_ns 1 demo_batch demo_limits).2 = Ok (mkTxResult true 2).
Proof.
  pose proof (apply_batch_total demo_store demo_ns demo_batch demo_limits demo_store_wf
                eq_refl eq_refl eq_refl ltac:(rewrite demo_view; reflexivity)) as H.
  cbv zeta in H. rewrite demo_view in H.
  change (ns_revision demo_state) with 1 in H.
  destruct (M.apply_batch demo_store demo_ns 1 demo_batch demo_limits) as [st' r].
  replace (fits demo_limits (write_mutations (ns_entries demo_state) demo_batch)) with true in H
    by (vm_compute; reflexivity).
  apply H.
Defined.

Lemma compare_exchange_is_batch_witness :
  M.compare_exchange demo_store demo_ns 1 "a" (Some demo_value) None demo_limits
  = M.apply_batch demo_store demo_ns 1 [mkMutation "a" None] demo_limits.
Proof. apply compare_exchange_is_batch; vm_compute; reflexivity. Defined.

Lemma put_get_delete_witness : M.get demo_store demo_ns "a" = Ok (Some demo_value).
Proof. apply (put_get_delete M.new demo_store demo_ns "a" demo_value demo_limits demo_put). Defined.

Lemma list_sorted_exact_witness : StronglySorted String.le ["a"] /\ NoDup ["a"].
Proof.
  destruct (list_sorted_exact demo_store demo_ns "" ["a"]) as (? & ? & _);
    [vm_compute; reflexivity|split; assumption].
Defined.

Lemma valid_keys_are_confined_witness :
  resolve [] (split_on "/" "settings/theme") = Some (split_on "/" "settings/theme").
Proof. apply (valid_keys_are_confined "settings/theme" "settings/font"); vm_compute; reflexivity. Defined.

Lemma refused_transaction_pins_schema_witness :
  let st' := (M.apply_batch M.new demo_ns 7 demo_batch demo_limits).1 in
  (M.prepare st' demo_ns 2 demo_limits).2 = Err (SchemaMismatch 2 0).
Proof.
  apply (refused_transaction_pins_schema M.new _ demo_ns 7 2 0 demo_batch demo_limits);
    vm_compute; (reflexivity || discriminate).
Defined.
