(* ===== verification/Text.v ===== *)
(** * Names, digests and checksums

    The textual predicates every record of the engine is validated with
    ([valid_name], [is_digest], [valid_text], ...), and the interface to the
    third-party crates they rest on: SHA-256 ([sha2]), JSON ([serde_json]) and
    semantic versions ([semver]). *)
From S2P Require Import Prelude.

(** [sha2::Sha256::digest] returns 32 bytes; [semver_ok] is
    [Version::parse(..).is_ok()] and [semver_req_ok] is
    [VersionReq::parse(..).is_ok()]. *)
Class Externals := {
  sha256 : bytes -> bytes;
  sha256_length : forall b, length (sha256 b) = 32%nat;
  semver_ok : string -> bool;
  semver_req_ok : string -> bool;
}.

(** [serde_json::to_vec]: the bytes, or the message of the error. *)
Class Json (A : Type) := to_vec : A -> result string bytes.
#[global] Arguments to_vec {A _} _ : simpl never.

(** [str::as_bytes] *)
Definition as_bytes (s : string) : bytes := (fun b => default x00 (Byte.of_N b)) <$> str_bytes s.

(** [hex::encode(Sha256::digest(bytes))] *)
Definition hex_sha256 `{Externals} (b : bytes) : string := hex_encode (sha256 b).

Definition is_digest (value : string) : bool :=
  (str_len value =? 64) && forallb is_lower_hex (str_bytes value).

Definition name_byte (b : N) : bool := is_ascii_lowercase b || is_ascii_digit b || (b =? 45).

Definition valid_name (value : string) : bool :=
  negb (str_is_empty value) && (str_len value <=? 64)
  && forallb name_byte (str_bytes value)
  && negb (starts_with_char value "-") && negb (ends_with_char value "-").

Definition id_segment (segment : string) : bool :=
  negb (str_is_empty segment) && forallb name_byte (str_bytes segment)
  && negb (starts_with_char segment "-") && negb (ends_with_char segment "-").

Definition valid_cartridge_id (value : string) : bool :=
  (str_len value <=? 128) && (3 <=? len (split_on "." value))
  && forallb id_segment (split_on "." value).

Definition valid_text (value : string) (maximum : N) (allow_empty : bool) : bool :=
  (allow_empty || negb (trim_is_empty value))
  && (len (str_chars value) <=? maximum)
  && negb (existsb char_is_control (str_chars value)).

(** ** A digest is always accepted by [is_digest] *)
Lemma byte_hex (b : byte) :
  is_lower_hex (N_of_ascii (hex_digit (Byte.to_N b / 16))) = true
  /\ is_lower_hex (N_of_ascii (hex_digit (Byte.to_N b mod 16))) = true.
Proof. destruct b; vm_compute; split; reflexivity. Qed.

Lemma hex_encode_len (bs : bytes) : str_len (hex_encode bs) = 2 * len bs.
Proof.
  unfold str_len, len. induction bs as [|b bs IH]; [done|]. cbn [hex_encode str_bytes length] in *. lia.
Qed.

Lemma hex_encode_lower (bs : bytes) : forallb is_lower_hex (str_bytes (hex_encode bs)) = true.
Proof.
  induction bs as [|b bs IH]; [done|]. cbn [hex_encode str_bytes forallb].
  destruct (byte_hex b) as [-> ->]. exact IH.
Qed.

Lemma hex_sha256_is_digest `{Externals} (b : bytes) : is_digest (hex_sha256 b) = true.
Proof.
  unfold is_digest, hex_sha256. rewrite hex_encode_len, hex_encode_lower.
  unfold len. rewrite sha256_length. reflexivity.
Qed.
#[export] Hint Resolve hex_sha256_is_digest : rust.

Lemma is_digest_nonempty (s : string) : is_digest s = true -> s <> "".
Proof. intros H ->. discriminate H. Qed.

(** ** Strict order of [str] *)
Definition str_lt (a b : string) : bool := bool_decide (String.le a b) && negb (bool_decide (a = b)).
(** [a >= b] *)
Definition str_ge (a b : string) : bool := bool_decide (String.le b a).

Lemma str_ge_lt (a b : string) : str_ge a b = negb (str_lt a b).
Proof.
  unfold str_ge, str_lt. destruct (decide (a = b)) as [->|Hne].
  - rewrite !(bool_decide_eq_true_2 (String.le b b)) by reflexivity.
    by rewrite (bool_decide_eq_true_2 (b = b)).
  - rewrite (bool_decide_eq_false_2 (a = b)) by done. rewrite andb_true_r.
    destruct (String.le_total a b) as [Hab|Hba].
    + rewrite (bool_decide_eq_true_2 (String.le a b)) by done.
      apply bool_decide_eq_false_2. intros Hba. by apply Hne, (anti_symm String.le).
    + rewrite (bool_decide_eq_true_2 (String.le b a)) by done. symmetry.
      apply negb_true_iff, bool_decide_eq_false_2. intros Hab. by apply Hne, (anti_symm String.le).
Qed.

Lemma str_lt_irrefl (a : string) : str_lt a a = false.
Proof. unfold str_lt. rewrite (bool_decide_eq_true_2 (a = a)) by done. by rewrite andb_false_r. Qed.

Lemma str_lt_trans (a b c : string) : str_lt a b = true -> str_lt b c = true -> str_lt a c = true.
Proof.
  unfold str_lt. intros. bprop. apply andb_true_iff. split.
  - apply bool_decide_eq_true_2. by etrans.
  - apply negb_true_iff, bool_decide_eq_false_2. intros ->. naive_solver (by apply (anti_symm String.le)).
Qed.

(** ** A concrete choice of the foreign functions, for evaluation

    A checksum in the place of SHA-256 and three dotted numbers in the place of
    a semantic version. *)
Definition checksum (b : bytes) : bytes :=
  replicate 32 (default x00 (Byte.of_N (sumN (Byte.to_N <$> b) mod 256))).
Lemma checksum_length b : length (checksum b) = 32%nat.
Proof. apply length_replicate. Qed.
Definition three_numbers (s : string) : bool :=
  let parts := split_on "." s in
  (len parts =? 3)
  && forallb (fun p => negb (str_is_empty p) && forallb is_ascii_digit (str_bytes p)) parts.
Definition demo_externals : Externals :=
  {| sha256 := checksum; sha256_length := checksum_length; semver_ok := three_numbers;
     semver_req_ok := three_numbers |}.
(** The encoder that writes nothing. *)
Definition demo_json {A : Type} : Json A := fun _ => Ok [].

(** The engine's records have string keys only, so [serde_json] always encodes
    them. *)
Class JsonTotal (A : Type) `{Json A} := to_vec_total : forall a : A, exists b, to_vec a = Ok b.

(** [serde_json::from_slice], and that it reads back what [to_vec] wrote. *)
Class JsonDecode (A : Type) := from_slice : bytes -> result string A.
#[global] Arguments from_slice {A _} _ : simpl never.
Class JsonRoundTrip (A : Type) `{Json A} `{JsonDecode A} :=
  from_slice_to_vec : forall (a : A) (b : bytes), to_vec a = Ok b -> from_slice b = Ok a.

(** A codec for the values of a finite table: a value is written as its index. *)
Definition table_json {A : Type} `{EqDecision A} (tbl : list A) : Json A := fun a =>
  match list_find (fun x => x = a) tbl with
  | Some (i, _) => match Byte.of_N (N.of_nat i) with
                   | Some b => Ok [b]
                   | None => Err "table is too large"
                   end
  | None => Err "value is not in the table"
  end.
Definition table_decode {A : Type} (tbl : list A) : JsonDecode A := fun bs =>
  match bs with
  | [b] => ok_or (tbl !! N.to_nat (Byte.to_N b)) "index is not in the table"
  | _ => Err "not an index"
  end.
Lemma table_round_trip {A : Type} `{EqDecision A} (tbl : list A) :
  @JsonRoundTrip A (table_json tbl) (table_decode tbl).
Proof.
  intros a b. unfold to_vec, from_slice, table_json, table_decode.
  destruct (list_find _ tbl) as [[i x]|] eqn:Hf; [|done].
  apply list_find_Some in Hf as (Hi & -> & _).
  destruct (Byte.of_N (N.of_nat i)) as [c|] eqn:Hc; [|done]. intros [= <-].
  apply Byte.to_of_N in Hc. by rewrite Hc, Nat2N.id, Hi.
Qed.
