(* ===== verification/Rolling.v ===== *)
(** * Rolling-update scheduler ([crates/cartridge-engine/src/rolling.rs])

    The pure decision function of a rolling update: from one observation of a
    previous and a candidate generation it selects starts, drains, waits,
    completion or rollback. *)
From S2P Require Import Prelude.

Definition MIN_ROLLING_PROGRESS_DEADLINE_MS : N := 1000.
Definition MAX_ROLLING_PROGRESS_DEADLINE_MS : N := 60 * 60 * 1000.
Definition MAX_ROLLING_MIN_READY_MS : N := 5 * 60 * 1000.
Definition MAX_ROLLING_DRAIN_TIMEOUT_MS : N := 5 * 60 * 1000.
Definition MAX_STACK_REPLICAS : N := 32.

Inductive RollingOrder := StartFirst | StopFirst.

Record RollingUpdatePolicy := mkPolicy {
  order : RollingOrder;
  max_surge : N;
  max_unavailable : N;
  min_ready_ms : N;
  progress_deadline_ms : N;
  drain_timeout_ms : N;
}.

#[global] Instance rolling_order_eq_dec : EqDecision RollingOrder.
Proof. solve_decision. Defined.
#[global] Instance policy_eq_dec : EqDecision RollingUpdatePolicy.
Proof. solve_decision. Defined.

Definition default_policy : RollingUpdatePolicy :=
  mkPolicy StartFirst 1 0 2000 (5 * 60 * 1000) 30000.
Definition is_default (self : RollingUpdatePolicy) : bool := bool_decide (self = default_policy).

Definition policy_error : string := "rolling update policy is invalid".

Definition validate_policy (self : RollingUpdatePolicy) (replicas : N) : result string unit :=
  if (replicas =? 0) || (MAX_STACK_REPLICAS <? replicas)
     || (replicas <? self.(max_surge)) || (replicas <? self.(max_unavailable))
     || ((self.(max_surge) =? 0) && (self.(max_unavailable) =? 0))
     || (MAX_ROLLING_MIN_READY_MS <? self.(min_ready_ms))
     || negb (in_range MIN_ROLLING_PROGRESS_DEADLINE_MS MAX_ROLLING_PROGRESS_DEADLINE_MS
                self.(progress_deadline_ms))
     || (self.(progress_deadline_ms) <=? self.(min_ready_ms))
     || (MAX_ROLLING_DRAIN_TIMEOUT_MS <? self.(drain_timeout_ms))
     || (self.(progress_deadline_ms) <=? self.(drain_timeout_ms))
  then Err policy_error else Ok tt.

Record RollingObservation := mkObservation {
  previous_replicas : N;
  candidate_replicas : N;
  previous_active : gset N;
  previous_ready : gset N;
  candidate_active : gset N;
  candidate_ready : gset N;
  candidate_available : gset N;
  candidate_terminal : gset N;
  elapsed_since_progress_ms : N;
}.

Inductive RollingWaitReason := CandidateReadiness | MinimumReadyTime | AvailabilityBudget.
Inductive RollingRollbackReason := CandidateFailed | ProgressDeadline.

Inductive RollingAction :=
| StartCandidate (ordinals : list N)
| DrainPrevious (ordinals : list N) (timeout_ms : N)
| Wait (reason : RollingWaitReason)
| Complete
| Rollback (reason : RollingRollbackReason).

#[global] Instance wait_reason_eq_dec : EqDecision RollingWaitReason.
Proof. solve_decision. Defined.
#[global] Instance rollback_reason_eq_dec : EqDecision RollingRollbackReason.
Proof. solve_decision. Defined.
#[global] Instance action_eq_dec : EqDecision RollingAction.
Proof. solve_decision. Defined.

Definition set_any (f : N -> bool) (X : gset N) : bool := existsb f (set_iter X).
Definition valid_ordinal (replicas ordinal : N) : bool := (0 <? ordinal) && (ordinal <=? replicas).
(** [1..=n] *)
Definition ordinals_to (n : N) : list N := N.of_nat <$> seq 1 (N.to_nat n).

Definition validate_observation (self : RollingObservation) (policy : RollingUpdatePolicy) :
    result string unit :=
  let policy_replicas := N.max self.(previous_replicas) self.(candidate_replicas) in
  let? _ := validate_policy policy policy_replicas in
  let bad_previous ordinal := negb (valid_ordinal self.(previous_replicas) ordinal) in
  let bad_candidate ordinal := negb (valid_ordinal self.(candidate_replicas) ordinal) in
  if set_any bad_previous self.(previous_active) || set_any bad_previous self.(previous_ready)
     || set_any bad_candidate self.(candidate_active) || set_any bad_candidate self.(candidate_ready)
     || set_any bad_candidate self.(candidate_available)
     || set_any bad_candidate self.(candidate_terminal)
     || negb (bool_decide (self.(previous_ready) ⊆ self.(previous_active)))
     || negb (bool_decide (self.(candidate_ready) ⊆ self.(candidate_active)))
     || negb (bool_decide (self.(candidate_available) ⊆ self.(candidate_ready)))
     || negb (bool_decide (self.(candidate_terminal) ## self.(candidate_active)))
  then Err "rolling update observation is inconsistent"
  else
    let? active := ok_or (checked_add usize_max (set_len self.(previous_active))
                            (set_len self.(candidate_active)))
                         "rolling update active count overflow" in
    let? limit := ok_or (checked_add usize_max policy_replicas policy.(max_surge))
                        "rolling update surge count overflow" in
    if limit <? active then Err "rolling update exceeds its surge limit" else Ok tt.

Definition start_action (self : RollingObservation) (policy : RollingUpdatePolicy) :
    option RollingAction :=
  let desired := self.(candidate_replicas) in
  let active := set_len self.(previous_active) + set_len self.(candidate_active) in
  let capacity := N.max self.(previous_replicas) self.(candidate_replicas) + policy.(max_surge) in
  let count := N.min (desired - set_len self.(candidate_active)) (capacity - active) in
  if count =? 0 then None
  else
    let ordinals :=
      take (N.to_nat count)
        (List.filter (fun ordinal => negb (bool_decide (ordinal ∈ self.(candidate_active)))
                                     && negb (bool_decide (ordinal ∈ self.(candidate_terminal))))
           (ordinals_to self.(candidate_replicas))) in
    match ordinals with [] => None | _ => Some (StartCandidate ordinals) end.

Definition drain_action (self : RollingObservation) (policy : RollingUpdatePolicy) :
    option RollingAction :=
  if bool_decide (self.(previous_active) = ∅) then None
  else
    let desired := self.(candidate_replicas) in
    let minimum_available := desired - policy.(max_unavailable) in
    let available := set_len self.(previous_ready) + set_len self.(candidate_available) in
    let ready_budget := available - minimum_available in
    let ordinals := set_iter (self.(previous_active) ∖ self.(previous_ready))
                    ++ take (N.to_nat ready_budget) (set_iter self.(previous_ready)) in
    match ordinals with
    | [] => None
    | _ => Some (DrainPrevious (merge_sort N.le ordinals) policy.(drain_timeout_ms))
    end.

Definition or_else {A : Type} (o k : option A) : option A :=
  match o with Some a => Some a | None => k end.

Definition next (self : RollingObservation) (policy : RollingUpdatePolicy) :
    result string RollingAction :=
  let? _ := validate_observation self policy in
  if negb (bool_decide (self.(candidate_terminal) = ∅)) then Ok (Rollback CandidateFailed)
  else if bool_decide (self.(previous_active) = ∅)
          && (set_len self.(candidate_available) =? self.(candidate_replicas))
  then Ok Complete
  else if policy.(progress_deadline_ms) <=? self.(elapsed_since_progress_ms)
  then Ok (Rollback ProgressDeadline)
  else
    let action :=
      match policy.(order) with
      | StartFirst => or_else (start_action self policy) (drain_action self policy)
      | StopFirst => or_else (drain_action self policy) (start_action self policy)
      end in
    match action with
    | Some action => Ok action
    | None =>
        Ok (Wait (if set_len self.(candidate_ready) <? set_len self.(candidate_active)
                  then CandidateReadiness
                  else if set_len self.(candidate_available) <? set_len self.(candidate_ready)
                  then MinimumReadyTime else AvailabilityBudget))
    end.

(** ** What validation establishes *)
Lemma set_any_false (f : N -> bool) (X : gset N) :
  set_any f X = false <-> forall x, x ∈ X -> f x = false.
Proof.
  unfold set_any. rewrite <- not_true_iff_false, existsb_exists. split.
  - intros H x Hx. apply not_true_iff_false. intros Hf. apply H. exists x.
    split; [|done]. by apply list_elem_of_In, set_iter_elem.
  - intros H (x & Hx & Hf). apply list_elem_of_In, set_iter_elem, H in Hx. congruence.
Qed.

Definition in_ordinals (n : N) (X : gset N) : Prop := forall x, x ∈ X -> 0 < x <= n.

Lemma ordinals_to_elem n x : x ∈ ordinals_to n <-> 0 < x <= n.
Proof.
  unfold ordinals_to. rewrite list_elem_of_fmap. split.
  - intros (i & -> & Hi). apply elem_of_seq in Hi. lia.
  - intros. exists (N.to_nat x). split; [lia|]. apply elem_of_seq. lia.
Qed.
Lemma ordinals_to_NoDup n : NoDup (ordinals_to n).
Proof. unfold ordinals_to. apply NoDup_fmap; [intros ? ? ?; lia|apply NoDup_seq]. Qed.
Lemma ordinals_to_length n : len (ordinals_to n) = n.
Proof. unfold len, ordinals_to. rewrite length_fmap, length_seq. lia. Qed.

Lemma in_ordinals_size n X : in_ordinals n X -> set_len X <= n.
Proof.
  intros H. rewrite <- (ordinals_to_length n). unfold set_len, len.
  rewrite <- (size_list_to_set (C := gset N) (ordinals_to n)) by apply ordinals_to_NoDup.
  assert (X ⊆ list_to_set (ordinals_to n)) as Hs.
  { intros x Hx. apply elem_of_list_to_set, ordinals_to_elem. auto. }
  apply subseteq_size in Hs. lia.
Qed.

Lemma bad_ordinals n X :
  set_any (fun ordinal => negb (valid_ordinal n ordinal)) X = false <-> in_ordinals n X.
Proof.
  rewrite set_any_false. unfold in_ordinals, valid_ordinal. split; intros H x Hx; specialize (H x Hx).
  - bprop. lia.
  - apply negb_false_iff, andb_true_iff. split; [apply N.ltb_lt; lia|apply N.leb_le; lia].
Qed.

Lemma validate_policy_spec p n u :
  validate_policy p n = Ok u ->
  0 < n <= MAX_STACK_REPLICAS /\ p.(max_surge) <= n /\ p.(max_unavailable) <= n
  /\ 0 < p.(max_surge) + p.(max_unavailable)
  /\ 0 < p.(progress_deadline_ms).
Proof.
  unfold validate_policy, in_range, MIN_ROLLING_PROGRESS_DEADLINE_MS. case_match; [done|].
  intros _. bprop. split_and!; try lia. destruct (N.eqb_spec (max_surge p) 0); [|lia].
  destruct (N.eqb_spec (max_unavailable p) 0); [|lia]. cbn in *. naive_solver.
Qed.

Record obs_ok (o : RollingObservation) (p : RollingUpdatePolicy) : Prop := {
  ok_policy : validate_policy p (N.max o.(previous_replicas) o.(candidate_replicas)) = Ok tt;
  ok_pa : in_ordinals o.(previous_replicas) o.(previous_active);
  ok_ca : in_ordinals o.(candidate_replicas) o.(candidate_active);
  ok_ct : in_ordinals o.(candidate_replicas) o.(candidate_terminal);
  ok_pr : o.(previous_ready) ⊆ o.(previous_active);
  ok_cr : o.(candidate_ready) ⊆ o.(candidate_active);
  ok_cv : o.(candidate_available) ⊆ o.(candidate_ready);
  ok_disj : o.(candidate_terminal) ## o.(candidate_active);
  ok_surge : set_len o.(previous_active) + set_len o.(candidate_active)
             <= N.max o.(previous_replicas) o.(candidate_replicas) + p.(max_surge);
}.

Lemma in_ordinals_mono n X Y : X ⊆ Y -> in_ordinals n Y -> in_ordinals n X.
Proof. intros HXY H x Hx. apply H. set_solver. Qed.

Lemma validate_observation_iff o p : validate_observation o p = Ok tt <-> obs_ok o p.
Proof.
  unfold validate_observation.
  set (n := N.max (previous_replicas o) (candidate_replicas o)).
  destruct (validate_policy p n) as [[]|] eqn:Hp; [|split; [done|intros Ho; apply ok_policy in Ho; subst n; congruence]].
  pose proof (validate_policy_spec _ _ _ Hp) as (Hn & Hs & _).
  unfold MAX_STACK_REPLICAS in Hn. split.
  - case_match eqn:Hg; [done|]. unfold ok_or.
    destruct (checked_add _ (set_len _) _) as [a|] eqn:Ha; [|done].
    destruct (checked_add _ n _) as [l|] eqn:Hl; [|done].
    apply checked_add_Some in Ha as [-> _], Hl as [-> _].
    destruct (N.ltb_spec (n + max_surge p) (set_len (previous_active o) + set_len (candidate_active o)));
      [done|]. intros _.
    split_guard.
    repeat match goal with H : set_any _ _ = false |- _ => apply bad_ordinals in H end.
    by constructor.
  - intros [].
    pose proof (in_ordinals_size _ _ ok_pa0). pose proof (in_ordinals_size _ _ ok_ca0).
    pose proof (in_ordinals_mono _ _ _ ok_pr0 ok_pa0) as Hpr.
    pose proof (in_ordinals_mono _ _ _ ok_cr0 ok_ca0) as Hcr.
    pose proof (in_ordinals_mono _ _ _ ok_cv0 Hcr) as Hcv.
    apply bad_ordinals in ok_pa0, ok_ca0, ok_ct0, Hpr, Hcr, Hcv.
    rewrite ok_pa0, ok_ca0, ok_ct0, Hpr, Hcr, Hcv.
    rewrite !bool_decide_eq_true_2 by done. cbn.
    rewrite (proj2 (checked_add_Some _ (set_len _) _ _)) by (split; [reflexivity|unfold usize_max, u64_max; lia]).
    rewrite (proj2 (checked_add_Some _ n _ _)) by (split; [reflexivity|unfold usize_max, u64_max; lia]).
    cbn. destruct (N.ltb_spec (n + max_surge p) (set_len (previous_active o) + set_len (candidate_active o)));
      [lia|done].
Qed.

(** ** The two kinds of work *)
Lemma start_action_spec o p a :
  start_action o p = Some a ->
  exists ords, a = StartCandidate ords /\ ords <> [] /\ NoDup ords
    /\ (forall x, x ∈ ords -> 0 < x <= o.(candidate_replicas)
                  /\ x ∉ o.(candidate_active) /\ x ∉ o.(candidate_terminal))
    /\ len ords + set_len o.(candidate_active) <= o.(candidate_replicas)
    /\ set_len o.(previous_active) + set_len o.(candidate_active) + len ords
       <= N.max o.(previous_replicas) o.(candidate_replicas) + p.(max_surge).
Proof.
  unfold start_action. case_match eqn:Hc; [done|]. apply N.eqb_neq in Hc.
  set (count := N.min _ _) in *. set (free := List.filter _ _).
  pose proof (firstn_le_length (N.to_nat count) free) as Hle.
  destruct (take (N.to_nat count) free) as [|x l] eqn:Ht; [done|]. intros; simplify_eq.
  exists (x :: l). rewrite <- Ht.
  assert (len (take (N.to_nat count) free) <= count) by (unfold len; rewrite length_take; lia).
  split_and!; [done|by rewrite Ht| | |lia..].
  - eapply sublist_NoDup; [|apply sublist_take].
    apply NoDup_ListNoDup, List.NoDup_filter, NoDup_ListNoDup, ordinals_to_NoDup.
  - intros y Hy. apply subseteq_take in Hy.
    apply list_elem_of_In, List.filter_In in Hy as [Hin Hf].
    apply list_elem_of_In, ordinals_to_elem in Hin. bprop. done.
Qed.

Lemma drain_action_spec o p a :
  drain_action o p = Some a ->
  exists ords, a = DrainPrevious ords p.(drain_timeout_ms) /\ ords <> []
    /\ StronglySorted N.le ords
    /\ (forall x, x ∈ ords -> x ∈ o.(previous_active) \/ x ∈ o.(previous_ready))
    /\ (forall x, x ∈ o.(previous_active) -> x ∉ o.(previous_ready) -> x ∈ ords)
    /\ set_len (o.(previous_ready) ∩ list_to_set ords)
       <= set_len o.(previous_ready) + set_len o.(candidate_available)
          - (o.(candidate_replicas) - p.(max_unavailable)).
Proof.
  unfold drain_action. case_bool_decide; [done|].
  set (budget := _ - (_ - _)).
  set (ords := _ ++ _). intros Ha.
  assert (a = DrainPrevious (merge_sort N.le ords) (drain_timeout_ms p) /\ ords <> []) as [-> Hne]
    by (destruct ords; by simplify_eq). clear Ha.
  exists (merge_sort N.le ords).
  assert (forall x, x ∈ merge_sort N.le ords <-> x ∈ ords) as Hms
    by (intros x; by rewrite merge_sort_Permutation).
  split_and!; [done| | | | |].
  - intros Hnil. apply Hne, Permutation_nil_r. by rewrite <- Hnil, merge_sort_Permutation.
  - apply (StronglySorted_merge_sort N.le).
  - intros x. rewrite Hms. subst ords. rewrite elem_of_app. intros [Hx|Hx].
    + apply set_iter_elem in Hx. set_solver.
    + apply subseteq_take in Hx. apply set_iter_elem in Hx. by right.
  - intros x ? ?. apply Hms. subst ords. apply elem_of_app. left. apply set_iter_elem. set_solver.
  - assert (previous_ready o ∩ list_to_set (merge_sort N.le ords)
            ⊆ list_to_set (take (N.to_nat budget) (set_iter (previous_ready o)))) as Hs.
    { intros x [Hx Hl]%elem_of_intersection. apply elem_of_list_to_set, Hms in Hl.
      apply elem_of_list_to_set. subst ords. apply elem_of_app in Hl as [Hl|Hl]; [|done].
      apply set_iter_elem in Hl. set_solver. }
    apply subseteq_size in Hs. unfold set_len at 1.
    rewrite size_list_to_set in Hs
      by (eapply sublist_NoDup; [apply set_iter_NoDup|apply sublist_take]).
    rewrite length_take in Hs. lia.
Qed.

(** ** Effect of a decision

    What the daemon's execution of a decision does to the observation. *)
Definition after_start (o : RollingObservation) (ords : list N) : RollingObservation :=
  mkObservation o.(previous_replicas) o.(candidate_replicas) o.(previous_active) o.(previous_ready)
    (o.(candidate_active) ∪ list_to_set ords) o.(candidate_ready) o.(candidate_available)
    o.(candidate_terminal) 0.

Definition after_drain (o : RollingObservation) (ords : list N) : RollingObservation :=
  mkObservation o.(previous_replicas) o.(candidate_replicas)
    (o.(previous_active) ∖ list_to_set ords) (o.(previous_ready) ∖ list_to_set ords)
    o.(candidate_active) o.(candidate_ready) o.(candidate_available) o.(candidate_terminal) 0.

(** Every started candidate has become ready for long enough. *)
Definition settle (o : RollingObservation) : RollingObservation :=
  mkObservation o.(previous_replicas) o.(candidate_replicas) o.(previous_active) o.(previous_ready)
    o.(candidate_active) o.(candidate_active) o.(candidate_active) o.(candidate_terminal) 0.

Definition available (o : RollingObservation) : N :=
  set_len o.(previous_ready) + set_len o.(candidate_available).
Definition minimum_available (o : RollingObservation) (p : RollingUpdatePolicy) : N :=
  o.(candidate_replicas) - p.(max_unavailable).

Lemma next_inv o p a :
  next o p = Ok a ->
  obs_ok o p /\
  match a with
  | StartCandidate _ => start_action o p = Some a /\ o.(candidate_terminal) = ∅
  | DrainPrevious _ _ => drain_action o p = Some a /\ o.(candidate_terminal) = ∅
  | Wait _ => start_action o p = None /\ drain_action o p = None /\ o.(candidate_terminal) = ∅
              /\ ~ (o.(previous_active) = ∅ /\ set_len o.(candidate_available) = o.(candidate_replicas))
  | Complete => o.(candidate_terminal) = ∅ /\ o.(previous_active) = ∅
                /\ set_len o.(candidate_available) = o.(candidate_replicas)
  | Rollback CandidateFailed => o.(candidate_terminal) <> ∅
  | Rollback ProgressDeadline => p.(progress_deadline_ms) <= o.(elapsed_since_progress_ms)
  end.
Proof.
  unfold next. destruct (validate_observation o p) as [[]|] eqn:Hv; [|done].
  apply validate_observation_iff in Hv. intros Ha. split; [done|].
  case_match eqn:Ht; bprop; [by simplify_eq|].
  case_match eqn:Hc; bprop; [by simplify_eq|].
  case_match eqn:Hd; bprop; [by simplify_eq|].
  assert (forall a', start_action o p = Some a' -> exists ords, a' = StartCandidate ords) as Hs
    by (intros a' (ords & -> & _)%start_action_spec; eauto).
  assert (forall a', drain_action o p = Some a' -> exists ords t, a' = DrainPrevious ords t) as Hr
    by (intros a' (ords & -> & _)%drain_action_spec; eauto).
  unfold or_else in Ha.
  destruct (order p), (start_action o p) as [s|], (drain_action o p) as [d|]; simplify_eq;
    try (destruct (Hs _ eq_refl) as [? ->]; done);
    try (destruct (Hr _ eq_refl) as (? & ? & ->); done);
    (split_and!; [done..|intros [? ?]; destruct Hc as [Hc|Hc]; bprop; done]).
Qed.

Lemma set_len_union_disjoint (X Y : gset N) : X ## Y -> set_len (X ∪ Y) = set_len X + set_len Y.
Proof. intros. unfold set_len. rewrite size_union by done. lia. Qed.

Lemma set_len_difference (X Y : gset N) : set_len (X ∖ Y) + set_len (X ∩ Y) = set_len X.
Proof.
  unfold set_len. assert (size X = size (X ∖ Y) + size (X ∩ Y))%nat as ->; [|lia].
  rewrite <- size_union by set_solver. f_equal. apply set_eq. intros x.
  destruct (decide (x ∈ Y)); set_solver.
Qed.

Lemma after_start_ok o p ords :
  obs_ok o p -> start_action o p = Some (StartCandidate ords) -> obs_ok (after_start o ords) p.
Proof.
  intros Ho (ords' & [= <-] & _ & Hnd & Hx & _ & Hsurge)%start_action_spec.
  destruct Ho. constructor; cbn; try done.
  - intros x [?|Hin%elem_of_list_to_set]%elem_of_union; [by apply ok_ca0|by apply Hx].
  - set_solver.
  - intros x Hct [?|Hin%elem_of_list_to_set]%elem_of_union; [by apply (ok_disj0 x)|].
    by destruct (Hx x Hin) as (_ & _ & ?).
  - rewrite set_len_union_disjoint.
    + unfold set_len at 3. rewrite size_list_to_set by done. unfold len in Hsurge. lia.
    + intros x ? Hin%elem_of_list_to_set. by destruct (Hx x Hin) as (_ & ? & _).
Qed.

Lemma after_drain_ok o p ords : obs_ok o p -> obs_ok (after_drain o ords) p.
Proof.
  intros []. constructor; cbn; try done.
  - eapply in_ordinals_mono; [|done]. set_solver.
  - set_solver.
  - pose proof (set_len_difference (previous_active o) (list_to_set ords)). lia.
Qed.

Lemma drain_available o p ords t :
  drain_action o p = Some (DrainPrevious ords t) ->
  N.min (available o) (minimum_available o p) <= available (after_drain o ords).
Proof.
  intros (ords' & [= <- _] & _ & _ & _ & _ & Hb)%drain_action_spec.
  unfold available, minimum_available; cbn.
  pose proof (set_len_difference (previous_ready o) (list_to_set ords)). lia.
Qed.

(** ** Convergence

    A run in an environment where starts and drains work: candidates settle
    before the next decision. *)
Definition environment (o : RollingObservation) (a : RollingAction) : RollingObservation :=
  match a with
  | StartCandidate ords => settle (after_start o ords)
  | DrainPrevious ords _ => after_drain o ords
  | _ => o
  end.

Fixpoint drive (fuel : nat) (p : RollingUpdatePolicy) (o : RollingObservation) :
    option (list RollingObservation) :=
  match fuel with
  | O => None
  | S fuel =>
      match next o p with
      | Ok Complete => Some [o]
      | Ok (Wait _) | Ok (Rollback _) | Err _ => None
      | Ok a => cons o <$> drive fuel p (environment o a)
      end
  end.

Record settled (o : RollingObservation) (p : RollingUpdatePolicy) : Prop := {
  st_ok : obs_ok o p;
  st_ready : o.(candidate_ready) = o.(candidate_active);
  st_available : o.(candidate_available) = o.(candidate_active);
  st_terminal : o.(candidate_terminal) = ∅;
  st_elapsed : o.(elapsed_since_progress_ms) < p.(progress_deadline_ms);
}.

(** The work left: previous replicas to drain and candidates to start. *)
Definition work_left (o : RollingObservation) : N :=
  set_len o.(previous_active) + (o.(candidate_replicas) - set_len o.(candidate_active)).

Lemma set_len_pos (X : gset N) : X <> ∅ -> 0 < set_len X.
Proof.
  intros [x Hx]%set_choose_L. unfold set_len.
  assert ({[x]} ⊆ X) as Hs by set_solver. apply subseteq_size in Hs.
  rewrite size_singleton in Hs. lia.
Qed.

Lemma start_action_enabled o p :
  obs_ok o p -> o.(candidate_terminal) = ∅ ->
  set_len o.(candidate_active) < o.(candidate_replicas) ->
  set_len o.(previous_active) + set_len o.(candidate_active)
    < N.max o.(previous_replicas) o.(candidate_replicas) + p.(max_surge) ->
  exists a, start_action o p = Some a.
Proof.
  intros Ho Ht Hc Hcap. unfold start_action.
  destruct (N.eqb_spec (N.min (candidate_replicas o - set_len (candidate_active o))
     (previous_replicas o `max` candidate_replicas o + max_surge p -
      (set_len (previous_active o) + set_len (candidate_active o)))) 0) as [|Hne]; [lia|].
  set (count := N.min _ _) in *. set (free := List.filter _ _).
  destruct (take (N.to_nat count) free) as [|x l] eqn:Htk; [|eauto]. exfalso.
  assert (free = []) as Hfree.
  { destruct free; [done|]. destruct (N.to_nat count) eqn:E; [lia|]. done. }
  assert (list_to_set (ordinals_to (candidate_replicas o)) ⊆ candidate_active o) as Hs.
  { intros x Hx%elem_of_list_to_set. destruct (decide (x ∈ candidate_active o)); [done|].
    assert (In x free) as Hin; [|by rewrite Hfree in Hin].
    apply List.filter_In. split; [by apply list_elem_of_In|].
    rewrite Ht, !bool_decide_eq_false_2 by set_solver. done. }
  apply subseteq_size in Hs. rewrite size_list_to_set in Hs by apply ordinals_to_NoDup.
  pose proof (ordinals_to_length (candidate_replicas o)) as Hl. unfold len in Hl.
  unfold set_len in Hc. lia.
Qed.

Lemma drain_action_enabled o p :
  obs_ok o p -> o.(previous_active) <> ∅ -> minimum_available o p < available o ->
  exists a, drain_action o p = Some a.
Proof.
  intros Ho Hne Hav. unfold drain_action. rewrite bool_decide_eq_false_2 by done.
  fold (available o). fold (minimum_available o p).
  destruct (_ ++ _) as [|x l] eqn:E; [|eauto]. exfalso.
  apply app_eq_nil in E as [E1 E2].
  destruct (decide (previous_ready o = ∅)) as [Hr|Hr].
  - apply Hne. apply set_eq. intros x. split; [|set_solver]. intros Hx.
    assert (x ∈ set_iter (previous_active o ∖ previous_ready o)) as Hin
      by (apply set_iter_elem; set_solver).
    rewrite E1 in Hin. by apply elem_of_nil in Hin.
  - apply set_choose_L in Hr as [x Hx]. apply set_iter_elem in Hx.
    destruct (set_iter (previous_ready o)); [by apply elem_of_nil in Hx|].
    destruct (N.to_nat (available o - minimum_available o p)) eqn:E; [lia|done].
Qed.

(** A settled update always has work to do or is complete. *)
Lemma settled_progress o p :
  settled o p ->
  next o p = Ok Complete
  \/ exists a, next o p = Ok a
       /\ ((exists ords, a = StartCandidate ords) \/ (exists ords t, a = DrainPrevious ords t)).
Proof.
  intros [Ho Hr Hav Ht Hel].
  destruct (next o p) as [a|e] eqn:Hn.
  2:{ unfold next in Hn. rewrite (proj2 (validate_observation_iff o p) Ho) in Hn.
      repeat case_match; done. }
  destruct (next_inv _ _ _ Hn) as [_ Ha]. destruct a as [ords|ords t|r| |[]]; [eauto 6| | | | |].
  - eauto 8.
  - exfalso. destruct Ha as (Hs & Hd & _ & Hnc).
    pose proof (validate_policy_spec _ _ _ (ok_policy _ _ Ho)) as (_ & Hsu & Hun & Hpos & _).
    pose proof (in_ordinals_size _ _ (ok_ca _ _ Ho)) as Hca.
    pose proof (ok_surge _ _ Ho) as Hsurge.
    destruct (decide (set_len (candidate_active o) < candidate_replicas o
      /\ set_len (previous_active o) + set_len (candidate_active o)
         < N.max (previous_replicas o) (candidate_replicas o) + max_surge p)) as [[? ?]|Hcap].
    { destruct (start_action_enabled o p) as [a' ?]; [done..|congruence]. }
    destruct (decide (previous_active o = ∅)) as [Hpa|Hpa].
    { assert (set_len (previous_active o) = 0) by (rewrite Hpa; done).
      apply Hnc. split; [done|]. rewrite Hav. lia. }
    destruct (decide (previous_ready o = previous_active o)) as [Hpr|Hpr].
    { destruct (drain_action_enabled o p) as [a' ?]; [done..| |congruence].
      unfold minimum_available, available. rewrite Hpr, Hav.
      pose proof (set_len_pos _ Hpa). lia. }
    unfold drain_action in Hd. rewrite bool_decide_eq_false_2 in Hd by done.
    destruct (set_iter (previous_active o ∖ previous_ready o)) as [|x l] eqn:E; [|done].
    apply Hpr, set_eq. intros x. split; [apply (ok_pr _ _ Ho)|]. intros Hx.
    destruct (decide (x ∈ previous_ready o)); [done|].
    assert (x ∈ set_iter (previous_active o ∖ previous_ready o)) as Hin
      by (apply set_iter_elem; set_solver).
    rewrite E in Hin. by apply elem_of_nil in Hin.
  - by left.
  - exfalso. done.
  - lia.
Qed.

Lemma environment_settled o p a :
  settled o p -> next o p = Ok a ->
  ((exists ords, a = StartCandidate ords) \/ (exists ords t, a = DrainPrevious ords t)) ->
  settled (environment o a) p
  /\ work_left (environment o a) < work_left o
  /\ N.min (available o) (minimum_available o p) <= available (environment o a)
  /\ (environment o a).(candidate_replicas) = o.(candidate_replicas).
Proof.
  intros [Ho Hr Hav Ht Hel] Hn Ha. pose proof (next_inv _ _ _ Hn) as [_ Hi].
  pose proof (validate_policy_spec _ _ _ (ok_policy _ _ Ho)) as (_ & _ & _ & _ & Hpd).
  destruct Ha as [[ords ->]|(ords & t & ->)]; destruct Hi as [Hi _]; cbn [environment].
  - pose proof (after_start_ok _ _ _ Ho Hi) as Ho'.
    apply start_action_spec in Hi as (ords' & [= <-] & Hne & Hnd & Hx & Hlen & _).
    assert (candidate_active o ## list_to_set ords) as Hdisj.
    { intros x ? Hin%elem_of_list_to_set. by destruct (Hx x Hin) as (_ & ? & _). }
    assert (set_len (candidate_active o ∪ list_to_set ords)
            = set_len (candidate_active o) + len ords) as Hsz.
    { rewrite set_len_union_disjoint by done. unfold set_len at 2.
      by rewrite size_list_to_set. }
    assert (0 < len ords) by (unfold len; destruct ords; [done|cbn; lia]).
    split_and!; [|unfold work_left; cbn; lia|unfold available; cbn; rewrite Hav; lia|done].
    constructor; cbn; try done. destruct Ho'. by constructor; cbn in *.
  - pose proof (drain_available _ _ _ _ Hi) as Hd.
    apply drain_action_spec in Hi as (ords' & [= <- _] & Hne & _ & Hin & _ & _).
    pose proof (set_len_difference (previous_active o) (list_to_set ords)) as Hdiff.
    assert (0 < set_len (previous_active o ∩ list_to_set ords)).
    { apply set_len_pos. destruct ords as [|x l]; [done|]. intros E.
      assert (x ∈ previous_active o) as Hx.
      { destruct (Hin x) as [?|Hx]; [left|done|by apply (ok_pr _ _ Ho)]. }
      assert (x ∈ (∅ : gset N)) as Hbad; [|set_solver]. rewrite <- E. set_solver. }
    split_and!; [|unfold work_left; cbn; lia|done|done].
    constructor; cbn; try done. by apply after_drain_ok.
Qed.

Lemma drive_converges fuel p o :
  settled o p -> (N.to_nat (work_left o) < fuel)%nat ->
  exists tr, drive fuel p o = Some tr
    /\ Forall (fun s => validate_observation s p = Ok tt
                 /\ N.min (available o) (minimum_available o p) <= available s) tr
    /\ exists final, last tr = Some final /\ next final p = Ok Complete.
Proof.
  revert o. induction fuel as [|fuel IH]; intros o Hs Hf; [lia|]. cbn [drive].
  assert (validate_observation o p = Ok tt) as Hv by apply validate_observation_iff, Hs.
  destruct (settled_progress o p Hs) as [Hc|(a & Ha & Hk)].
  - rewrite Hc. exists [o]. split_and!; [done| |exists o; done].
    constructor; [|constructor]. split; [done|lia].
  - destruct (environment_settled o p a Hs Ha Hk) as (Hs' & Hw & Hav & Hcr).
    destruct (IH (environment o a) Hs') as (tr & Htr & Hall & final & Hl & Hfin); [lia|].
    assert (drive (S fuel) p o = Some (o :: tr)) as Hd.
    { cbn [drive]. rewrite Ha, Htr. by destruct Hk as [[? ->]|(? & ? & ->)]. }
    cbn [drive] in Hd. rewrite Hd. exists (o :: tr). split_and!; [done| |].
    + constructor; [split; [done|lia]|]. eapply Forall_impl; [exact Hall|].
      intros s [? Hm]. split; [done|]. revert Hm. unfold minimum_available in *. rewrite Hcr. lia.
    + exists final. split; [|done]. by destruct tr.
Qed.

(** ** Theorems *)

(** Whenever the scheduler decides to start candidates it names at least
    one, each a new ordinal of the candidate generation, and after starting
    them the observation is still valid: in particular the surge limit holds. *)
Theorem start_respects_surge (o : RollingObservation) (p : RollingUpdatePolicy) (ords : list N)
    (Hnext : next o p = Ok (StartCandidate ords)) :
  ords <> [] /\ NoDup ords
  /\ (forall x, x ∈ ords -> 0 < x <= o.(candidate_replicas) /\ x ∉ o.(candidate_active))
  /\ validate_observation (after_start o ords) p = Ok tt.
Proof.
  apply next_inv in Hnext as [Ho [Hs _]]. rewrite validate_observation_iff.
  split_and!; [..|by apply after_start_ok];
    apply start_action_spec in Hs as (ords' & [= <-] & ? & ? & Hx & _); naive_solver.
Qed.

(** Whenever the scheduler decides to drain previous replicas it names at
    least one, all of them active, in increasing order and with the policy's
    timeout; after the drain the observation is valid and the number of
    available replicas has not fallen below the policy's minimum (or below
    where it already was). *)
Theorem drain_respects_availability (o : RollingObservation) (p : RollingUpdatePolicy)
    (ords : list N) (timeout : N) (Hnext : next o p = Ok (DrainPrevious ords timeout)) :
  ords <> [] /\ StronglySorted N.le ords /\ timeout = p.(drain_timeout_ms)
  /\ (forall x, x ∈ ords -> x ∈ o.(previous_active))
  /\ validate_observation (after_drain o ords) p = Ok tt
  /\ N.min (available o) (minimum_available o p) <= available (after_drain o ords).
Proof.
  apply next_inv in Hnext as [Ho [Hd _]]. rewrite validate_observation_iff.
  pose proof (drain_available _ _ _ _ Hd) as Hav.
  apply drain_action_spec in Hd as (ords' & [= <- ->] & ? & ? & Hin & _).
  split_and!; try done; [|by apply after_drain_ok].
  intros x [?|Hx]%Hin; [done|by apply (ok_pr _ _ Ho)].
Qed.

(** C40: Rolling updates converge: from a valid, settled observation under any
    valid policy, if starts and drains take effect, the scheduler never waits,
    fails or rolls back, and completes within one decision more than the
    replicas left to start or drain.  Every state on the way is valid and keeps
    the guaranteed number of available replicas. *)
Theorem rolling_update_converges (o : RollingObservation) (p : RollingUpdatePolicy)
    (Hvalid : validate_observation o p = Ok tt)
    (Hready : o.(candidate_ready) = o.(candidate_active))
    (Havail : o.(candidate_available) = o.(candidate_active))
    (Hterm : o.(candidate_terminal) = ∅)
    (Hel : o.(elapsed_since_progress_ms) < p.(progress_deadline_ms)) :
  exists tr, drive (S (N.to_nat (work_left o))) p o = Some tr
    /\ Forall (fun s => validate_observation s p = Ok tt
                 /\ N.min (available o) (minimum_available o p) <= available s) tr
    /\ exists final, last tr = Some final /\ next final p = Ok Complete.
Proof.
  apply drive_converges; [|lia]. constructor; try done. by apply validate_observation_iff.
Qed.

(** The decision table of the scheduler on a valid observation: a failed
    candidate always rolls back; otherwise the update is complete exactly when
    no previous replica is active and every candidate is available; otherwise
    an expired progress deadline rolls back; and only then starts, drains or
    waits are considered. *)
Theorem next_decision (o : RollingObservation) (p : RollingUpdatePolicy)
    (Hvalid : validate_observation o p = Ok tt) :
  exists a, next o p = Ok a
  /\ (a = Rollback CandidateFailed <-> o.(candidate_terminal) <> ∅)
  /\ (a = Complete <-> o.(candidate_terminal) = ∅ /\ o.(previous_active) = ∅
        /\ set_len o.(candidate_available) = o.(candidate_replicas))
  /\ (a = Rollback ProgressDeadline <-> o.(candidate_terminal) = ∅
        /\ ~ (o.(previous_active) = ∅ /\ set_len o.(candidate_available) = o.(candidate_replicas))
        /\ p.(progress_deadline_ms) <= o.(elapsed_since_progress_ms)).
Proof.
  assert (forall a', start_action o p = Some a' -> exists ords, a' = StartCandidate ords) as Hs
    by (intros a' (ords & -> & _)%start_action_spec; eauto).
  assert (forall a', drain_action o p = Some a' -> exists ords t, a' = DrainPrevious ords t) as Hr
    by (intros a' (ords & -> & _)%drain_action_spec; eauto).
  unfold next. rewrite Hvalid. unfold or_else.
  destruct (decide (candidate_terminal o = ∅)) as [Ht|Ht].
  2:{ rewrite bool_decide_eq_false_2 by done. eexists; split; [done|]. naive_solver. }
  rewrite (bool_decide_eq_true_2 (candidate_terminal o = ∅)) by done. cbn [negb].
  destruct (decide (previous_active o = ∅)) as [Hp|Hp];
    [rewrite (bool_decide_eq_true_2 (previous_active o = ∅)) by done
    |rewrite (bool_decide_eq_false_2 (previous_active o = ∅)) by done];
    cbn [andb];
    [destruct (N.eqb_spec (set_len (candidate_available o)) (candidate_replicas o));
       [eexists; split; [done|]; naive_solver|]|];
    (destruct (N.leb_spec (progress_deadline_ms p) (elapsed_since_progress_ms o));
       [eexists; split; [done|]; naive_solver|]);
    destruct (order p), (start_action o p) as [s|], (drain_action o p) as [d|];
    try (destruct (Hs _ eq_refl) as [? ->]); try (destruct (Hr _ eq_refl) as (? & ? & ->));
    (eexists; split; [done|]; split_and!; split; intros; destruct_and?; try done; lia).
Qed.

(** ** Concrete runs *)
Definition sample_policy : RollingUpdatePolicy := mkPolicy StartFirst 1 0 2000 300000 30000.
Definition sample_observation : RollingObservation :=
  mkObservation 2 2 {[1; 2]} {[1; 2]} ∅ ∅ ∅ ∅ 0.
Definition sample_surged : RollingObservation :=
  mkObservation 2 2 {[1; 2]} {[1; 2]} {[1]} {[1]} {[1]} ∅ 0.

Lemma start_respects_surge_witness :
  exists ords, next sample_observation sample_policy = Ok (StartCandidate ords)
    /\ validate_observation (after_start sample_observation ords) sample_policy = Ok tt.
Proof.
  exists [1]. split; [vm_compute; reflexivity|].
  apply (start_respects_surge sample_observation sample_policy [1]). vm_compute; reflexivity.
Defined.

Lemma drain_respects_availability_witness :
  next sample_surged sample_policy = Ok (DrainPrevious [1] 30000)
  /\ [1] <> []
  /\ N.min (available sample_surged) (minimum_available sample_surged sample_policy)
     <= available (after_drain sample_surged [1]).
Proof.
  assert (next sample_surged sample_policy = Ok (DrainPrevious [1] 30000)) as Hn
    by (vm_compute; reflexivity).
  split; [exact Hn|].
  destruct (drain_respects_availability sample_surged sample_policy [1] 30000 Hn)
    as (? & _ & _ & _ & _ & ?). by split.
Defined.

Lemma rolling_update_converges_witness :
  exists tr, drive (S (N.to_nat (work_left sample_observation))) sample_policy sample_observation
             = Some tr /\ length tr = 5%nat.
Proof.
  destruct (rolling_update_converges sample_observation sample_policy) as (tr & Htr & _);
    [vm_compute; reflexivity..|].
  exists tr. split; [exact Htr|]. vm_compute in Htr. by injection Htr as <-.
Defined.

Lemma next_decision_witness :
  exists a, next sample_surged sample_policy = Ok a /\ a <> Complete.
Proof.
  destruct (next_decision sample_surged sample_policy) as (a & Ha & _ & Hc & _);
    [vm_compute; reflexivity|].
  exists a. split; [exact Ha|]. vm_compute in Ha. by injection Ha as <-.
Defined.
