(* ===== verification/Core.v ===== *)
(** * Package limits and composition locks ([crates/cartridge-core])

    [RuntimeLimits] and its ceilings ([manifest.rs]), WIT interface names
    ([manifest.rs]) and the composition lock with its validation
    ([resolver.rs]). *)
From stdpp Require Import pretty.
From S2P Require Import Prelude Text.

(** ** Errors ([lib.rs]); foreign errors are their messages *)
Inductive Error :=
| Io (m : string) | Manifest (m : string) | Archive (m : string) | Integrity (m : string)
| TomlDecode (m : string) | TomlEncode (m : string) | Zip (m : string).

Definition error_to_string (e : Error) : string :=
  match e with
  | Io m => "I/O error: " +:+ m
  | Manifest m => "invalid cartridge manifest: " +:+ m
  | Archive m => "invalid cartridge archive: " +:+ m
  | Integrity m => "package integrity check failed: " +:+ m
  | TomlDecode m => "TOML error: " +:+ m
  | TomlEncode m => "TOML serialization error: " +:+ m
  | Zip m => "ZIP error: " +:+ m
  end.

Definition map_err {E F A : Type} (f : E -> F) (r : result E A) : result F A :=
  match r with Ok a => Ok a | Err e => Err (f e) end.

(** ** Runtime limits *)
Definition MAX_FUEL : N := 1000000000000.
Definition MAX_MEMORY_BYTES : N := 256 * 1024 * 1024.
Definition MAX_STORAGE_BYTES : N := 64 * 1024 * 1024.
Definition MAX_STORAGE_KEYS : N := 100000.
Definition MAX_STORAGE_VALUE_BYTES : N := 8 * 1024 * 1024.
Definition MAX_TIMEOUT_MS : N := 5 * 60 * 1000.
Definition MAX_GRAPHICS_PIXELS : N := 4 * 1024 * 1024.
Definition MAX_GRAPHICS_COMMANDS : N := 32768.
Definition MAX_AUDIO_NODES : N := 128.
Definition MAX_AUDIO_EVENTS : N := 65536.
Definition MAX_AUDIO_FRAMES : N := 48000 * 30.

Record RuntimeLimits := mkRuntimeLimits {
  fuel : N;
  memory_bytes : N;
  timeout_ms : N;
  storage_bytes : N;
  storage_keys : N;
  storage_value_bytes : N;
  graphics_pixels : N;
  graphics_commands : N;
  audio_nodes : N;
  audio_events : N;
  audio_frames : N;
}.
#[global] Instance runtime_limits_eq_dec : EqDecision RuntimeLimits.
Proof. solve_decision. Defined.

Definition maximum : RuntimeLimits :=
  mkRuntimeLimits MAX_FUEL MAX_MEMORY_BYTES MAX_TIMEOUT_MS MAX_STORAGE_BYTES MAX_STORAGE_KEYS
    MAX_STORAGE_VALUE_BYTES MAX_GRAPHICS_PIXELS MAX_GRAPHICS_COMMANDS MAX_AUDIO_NODES
    MAX_AUDIO_EVENTS MAX_AUDIO_FRAMES.

Definition default_limits : RuntimeLimits :=
  mkRuntimeLimits 10000000 (64 * 1024 * 1024) 30000 (1024 * 1024) 1024 (256 * 1024)
    (2 * 1024 * 1024) 8192 64 16384 480000.

Definition between (field : string) (max : N) : Error :=
  Manifest ("runtime " +:+ field +:+ " must be between 1 and " +:+ pretty max).

Definition validate_runtime_limits (self : RuntimeLimits) : result Error unit :=
  if negb (in_range 1 MAX_FUEL self.(fuel)) then Err (between "fuel" MAX_FUEL)
  else if negb (in_range (1024 * 1024) MAX_MEMORY_BYTES self.(memory_bytes)) then
    Err (Manifest ("runtime memory_bytes must be between 1 MiB and "
                     +:+ pretty (MAX_MEMORY_BYTES / 1024 / 1024) +:+ " MiB"))
  else if negb (in_range 1 MAX_TIMEOUT_MS self.(timeout_ms)) then
    Err (between "timeout_ms" MAX_TIMEOUT_MS)
  else if negb (in_range 1 MAX_STORAGE_BYTES self.(storage_bytes)) then
    Err (between "storage_bytes" MAX_STORAGE_BYTES)
  else if negb (in_range 1 MAX_STORAGE_KEYS self.(storage_keys)) then
    Err (between "storage_keys" MAX_STORAGE_KEYS)
  else if (self.(storage_value_bytes) =? 0) || (self.(storage_bytes) <? self.(storage_value_bytes))
          || (MAX_STORAGE_VALUE_BYTES <? self.(storage_value_bytes)) then
    Err (Manifest ("runtime storage_value_bytes must be positive, no larger than storage_bytes, and at most "
                     +:+ pretty MAX_STORAGE_VALUE_BYTES))
  else if negb (in_range 1 MAX_GRAPHICS_PIXELS self.(graphics_pixels)) then
    Err (between "graphics_pixels" MAX_GRAPHICS_PIXELS)
  else if negb (in_range 1 MAX_GRAPHICS_COMMANDS self.(graphics_commands)) then
    Err (between "graphics_commands" MAX_GRAPHICS_COMMANDS)
  else if negb (in_range 1 MAX_AUDIO_NODES self.(audio_nodes)) then
    Err (between "audio_nodes" MAX_AUDIO_NODES)
  else if negb (in_range 1 MAX_AUDIO_EVENTS self.(audio_events)) then
    Err (between "audio_events" MAX_AUDIO_EVENTS)
  else if negb (in_range 1 MAX_AUDIO_FRAMES self.(audio_frames)) then
    Err (between "audio_frames" MAX_AUDIO_FRAMES)
  else Ok tt.

Definition constrained_by (self ceiling : RuntimeLimits) : RuntimeLimits :=
  let bytes := N.min self.(storage_bytes) ceiling.(storage_bytes) in
  mkRuntimeLimits
    (N.min self.(fuel) ceiling.(fuel))
    (N.min self.(memory_bytes) ceiling.(memory_bytes))
    (N.min self.(timeout_ms) ceiling.(timeout_ms))
    bytes
    (N.min self.(storage_keys) ceiling.(storage_keys))
    (N.min (N.min self.(storage_value_bytes) ceiling.(storage_value_bytes)) bytes)
    (N.min self.(graphics_pixels) ceiling.(graphics_pixels))
    (N.min self.(graphics_commands) ceiling.(graphics_commands))
    (N.min self.(audio_nodes) ceiling.(audio_nodes))
    (N.min self.(audio_events) ceiling.(audio_events))
    (N.min self.(audio_frames) ceiling.(audio_frames)).

(** ** Interface names *)
(** [s.split_once(c)] and [s.rsplit_once(c)] *)
Fixpoint split_once (c : ascii) (s : string) : option (string * string) :=
  match s with
  | EmptyString => None
  | String a s' =>
      if bool_decide (a = c) then Some (EmptyString, s')
      else match split_once c s' with
           | Some (l, r) => Some (String a l, r)
           | None => None
           end
  end.
Fixpoint rsplit_once (c : ascii) (s : string) : option (string * string) :=
  match s with
  | EmptyString => None
  | String a s' =>
      match rsplit_once c s' with
      | Some (l, r) => Some (String a l, r)
      | None => if bool_decide (a = c) then Some (EmptyString, s') else None
      end
  end.

(** The errors of [validate_interface], one constructor per message. *)
Inductive InterfaceError :=
| MissingVersion (value : string)
| InvalidVersion (value : string)
| InterfaceSyntax (value : string)
| InvalidWitName (full : string).

Definition validate_wit_name (name full : string) : result InterfaceError unit :=
  if str_is_empty name || (64 <? str_len name) || negb (forallb name_byte (str_bytes name))
     || starts_with_char name "-" || ends_with_char name "-"
  then Err (InvalidWitName full) else Ok tt.

Definition validate_interface `{Externals} (value : string) : result InterfaceError unit :=
  match rsplit_once "@" value with
  | None => Err (MissingVersion value)
  | Some (path, version) =>
      if negb (semver_ok version) then Err (InvalidVersion value)
      else match split_once "/" path with
      | None => Err (InterfaceSyntax value)
      | Some (package, interface) =>
          match split_once ":" package with
          | None => Err (InterfaceSyntax value)
          | Some (namespace, package) =>
              let? _ := validate_wit_name namespace value in
              let? _ := validate_wit_name package value in
              validate_wit_name interface value
          end
      end
  end.

(** ** Composition locks *)
Definition COMPOSITION_LOCK_FORMAT_VERSION : N := 1.
Definition MAX_LOCKED_PACKAGES : N := 128.
Definition MAX_LOCKED_PACKAGE_BYTES : N := 160 * 1024 * 1024.

Record ResolvedDependency := mkResolved {
  rd_alias : string;
  rd_cartridge : string;
  rd_version : string;
  rd_interfaces : list string;
}.
Record UnavailableDependency := mkUnavailable {
  ud_alias : string;
  ud_cartridge : string;
  ud_reason : string;
}.
Record ResolutionPlan := mkResolutionPlan {
  resolved : list ResolvedDependency;
  unavailable_optional : list UnavailableDependency;
}.
Record LockedPackage := mkLockedPackage {
  lp_cartridge_id : string;
  lp_version : string;
  lp_package_sha256 : string;
  lp_package_bytes : N;
  lp_component_sha256 : string;
  lp_assets_root_sha256 : string;
}.
Record CompositionLock := mkCompositionLock {
  cl_format_version : N;
  root : LockedPackage;
  providers : list LockedPackage;
  cl_plan : ResolutionPlan;
}.
#[global] Instance resolved_eq_dec : EqDecision ResolvedDependency.
Proof. solve_decision. Defined.
#[global] Instance unavailable_eq_dec : EqDecision UnavailableDependency.
Proof. solve_decision. Defined.
#[global] Instance resolution_plan_eq_dec : EqDecision ResolutionPlan.
Proof. solve_decision. Defined.
#[global] Instance locked_package_eq_dec : EqDecision LockedPackage.
Proof. solve_decision. Defined.
#[global] Instance composition_lock_eq_dec : EqDecision CompositionLock.
Proof. solve_decision. Defined.

Definition is_alias (value : string) : bool :=
  negb (str_is_empty value) && (str_len value <=? 48)
  && forallb name_byte (str_bytes value)
  && negb (starts_with_char value "-") && negb (ends_with_char value "-").

(** [is_cartridge_id], [is_bounded_text] and [is_digest] of [resolver.rs] are
    the same expressions as [valid_cartridge_id], [valid_text] and [is_digest]
    of the engine. *)
Abbreviation is_cartridge_id := valid_cartridge_id (only parsing).
Abbreviation is_bounded_text := valid_text (only parsing).

Definition validate_locked_package `{Externals} (value : LockedPackage) : result string unit :=
  if negb (is_cartridge_id value.(lp_cartridge_id))
     || negb (is_bounded_text value.(lp_version) 64 false)
     || negb (semver_ok value.(lp_version))
     || (value.(lp_package_bytes) =? 0)
     || (MAX_LOCKED_PACKAGE_BYTES <? value.(lp_package_bytes))
     || negb (is_digest value.(lp_package_sha256))
     || negb (is_digest value.(lp_component_sha256))
     || (negb (str_is_empty value.(lp_assets_root_sha256))
         && negb (is_digest value.(lp_assets_root_sha256)))
  then Err "composition lock package identity is invalid" else Ok tt.

(** A package key [(&str, &str)], ordered lexicographically. *)
Definition lp_key (value : LockedPackage) : string * string :=
  (value.(lp_cartridge_id), value.(lp_version)).
Definition rd_key (value : ResolvedDependency) : string * string :=
  (value.(rd_cartridge), value.(rd_version)).
Definition key_lt (a b : string * string) : bool :=
  str_lt a.1 b.1 || (bool_decide (a.1 = b.1) && str_lt a.2 b.2).
Definition key_ge (a b : string * string) : bool := negb (key_lt a b).

Fixpoint index_providers `{Externals} (previous : option (string * string))
    (indexed : gmap (string * string) LockedPackage) (l : list LockedPackage) :
    result string (gmap (string * string) LockedPackage) :=
  match l with
  | [] => Ok indexed
  | provider :: l =>
      let? _ := validate_locked_package provider in
      let key := lp_key provider in
      if is_some_and (fun value => key_ge value key) previous
      then Err "composition lock providers are not strictly sorted"
      else index_providers (Some key) (<[key := provider]> indexed) l
  end.

Definition bad_interface `{Externals} (interface : string) : bool :=
  negb (is_bounded_text interface 256 false) || negb (is_ok (validate_interface interface)).

Fixpoint check_resolved `{Externals} (indexed : gmap (string * string) LockedPackage)
    (aliases : gset string) (referenced : gset (string * string)) (l : list ResolvedDependency) :
    result string (gset string * gset (string * string)) :=
  match l with
  | [] => Ok (aliases, referenced)
  | dependency :: l =>
      if negb (is_alias dependency.(rd_alias))
         || negb (is_cartridge_id dependency.(rd_cartridge))
         || negb (is_bounded_text dependency.(rd_version) 64 false)
         || negb (semver_ok dependency.(rd_version))
         || bool_decide (dependency.(rd_alias) ∈ aliases)
         || bool_decide (dependency.(rd_interfaces) = [])
         || (64 <? len dependency.(rd_interfaces))
         || existsb bad_interface dependency.(rd_interfaces)
         || is_none (indexed !! rd_key dependency)
      then Err "composition lock resolved edge is invalid"
      else check_resolved indexed ({[dependency.(rd_alias)]} ∪ aliases)
             ({[rd_key dependency]} ∪ referenced) l
  end.

Fixpoint check_unavailable (aliases : gset string) (l : list UnavailableDependency) :
    result string (gset string) :=
  match l with
  | [] => Ok aliases
  | dependency :: l =>
      if negb (is_alias dependency.(ud_alias))
         || negb (is_cartridge_id dependency.(ud_cartridge))
         || bool_decide (dependency.(ud_alias) ∈ aliases)
         || negb (is_bounded_text dependency.(ud_reason) 512 false)
      then Err "composition lock optional edge is invalid"
      else check_unavailable ({[dependency.(ud_alias)]} ∪ aliases) l
  end.

Definition validate_composition_lock `{Externals} (self : CompositionLock) : result string unit :=
  if negb (self.(cl_format_version) =? COMPOSITION_LOCK_FORMAT_VERSION)
     || (MAX_LOCKED_PACKAGES <? len self.(providers))
     || (MAX_LOCKED_PACKAGES <? len self.(cl_plan).(resolved))
     || (MAX_LOCKED_PACKAGES <? len self.(cl_plan).(unavailable_optional))
  then Err "composition lock format or count is invalid"
  else
    let? _ := validate_locked_package self.(root) in
    let? indexed := index_providers None ∅ self.(providers) in
    let? (aliases, referenced) := check_resolved indexed ∅ ∅ self.(cl_plan).(resolved) in
    let? _ := check_unavailable aliases self.(cl_plan).(unavailable_optional) in
    if negb (bool_decide (dom indexed = referenced))
    then Err "composition lock contains an unreferenced provider" else Ok tt.

Definition key_le_pair (a b : LockedPackage) : Prop := key_lt (lp_key b) (lp_key a) = false.
#[global] Instance key_le_pair_dec : RelDecision key_le_pair.
Proof. intros a b. unfold key_le_pair. apply _. Defined.

(** [CompositionLock::new]: the providers sorted by key. *)
Definition new_composition_lock `{Externals} (root : LockedPackage) (providers : list LockedPackage)
    (plan : ResolutionPlan) : result string CompositionLock :=
  let value := mkCompositionLock COMPOSITION_LOCK_FORMAT_VERSION root
                 (merge_sort key_le_pair providers) plan in
  let? _ := validate_composition_lock value in
  Ok value.

(** ** Limits form a lower semilattice *)
Record limits_le (a b : RuntimeLimits) : Prop := {
  le_fuel : a.(fuel) <= b.(fuel);
  le_memory : a.(memory_bytes) <= b.(memory_bytes);
  le_timeout : a.(timeout_ms) <= b.(timeout_ms);
  le_storage : a.(storage_bytes) <= b.(storage_bytes);
  le_keys : a.(storage_keys) <= b.(storage_keys);
  le_value : a.(storage_value_bytes) <= b.(storage_value_bytes);
  le_pixels : a.(graphics_pixels) <= b.(graphics_pixels);
  le_commands : a.(graphics_commands) <= b.(graphics_commands);
  le_nodes : a.(audio_nodes) <= b.(audio_nodes);
  le_events : a.(audio_events) <= b.(audio_events);
  le_frames : a.(audio_frames) <= b.(audio_frames);
}.

(** The limits the host enforces: positive, at most the maximum, one value
    never larger than the whole store. *)
Record runtime_limits_ok (l : RuntimeLimits) : Prop := {
  lim_max : limits_le l maximum;
  lim_fuel : 1 <= l.(fuel);
  lim_memory : 1024 * 1024 <= l.(memory_bytes);
  lim_timeout : 1 <= l.(timeout_ms);
  lim_storage : 1 <= l.(storage_bytes);
  lim_keys : 1 <= l.(storage_keys);
  lim_value : 1 <= l.(storage_value_bytes) <= l.(storage_bytes);
  lim_pixels : 1 <= l.(graphics_pixels);
  lim_commands : 1 <= l.(graphics_commands);
  lim_nodes : 1 <= l.(audio_nodes);
  lim_events : 1 <= l.(audio_events);
  lim_frames : 1 <= l.(audio_frames);
}.

Lemma in_range_spec lo hi x : BoolSpec (lo <= x <= hi) (~ (lo <= x <= hi)) (in_range lo hi x).
Proof.
  unfold in_range. destruct (N.leb_spec lo x), (N.leb_spec x hi); constructor; lia.
Qed.

Lemma validate_runtime_limits_iff l : validate_runtime_limits l = Ok tt <-> runtime_limits_ok l.
Proof.
  unfold validate_runtime_limits.
  destruct ((storage_value_bytes l =? 0) || _ || _) eqn:E.
  { split; [repeat case_match; done|]. intros [[] ]. cbn in *. bprop.
    destruct E as [[E|E]%orb_true_iff|E]; bprop; lia. }
  bprop. split.
  - repeat match goal with |- context [in_range ?a ?b ?c] =>
      destruct (in_range_spec a b c); cbn [negb]; [|done] end.
    intros _. constructor; [constructor|..]; cbn; lia.
  - intros [[] ]. cbn in *.
    repeat match goal with |- context [in_range ?a ?b ?c] =>
      destruct (in_range_spec a b c); cbn [negb]; [|lia] end.
    done.
Qed.

Lemma constrained_by_le a b : limits_le (constrained_by a b) a /\ limits_le (constrained_by a b) b.
Proof. split; constructor; cbn; lia. Qed.

Lemma constrained_by_greatest a b c :
  limits_le c a -> limits_le c b -> c.(storage_value_bytes) <= c.(storage_bytes) ->
  limits_le c (constrained_by a b).
Proof. intros [] [] ?. constructor; cbn; lia. Qed.

Lemma limits_le_antisym a b : limits_le a b -> limits_le b a -> a = b.
Proof. destruct a, b. intros [] []. cbn in *. f_equal; lia. Qed.

Lemma limits_le_trans a b c : limits_le a b -> limits_le b c -> limits_le a c.
Proof. intros [] []. constructor; lia. Qed.

Lemma constrained_by_ok a b :
  runtime_limits_ok a -> runtime_limits_ok b -> runtime_limits_ok (constrained_by a b).
Proof.
  intros Ha Hb. pose proof (constrained_by_le a b) as [Hle _].
  pose proof (limits_le_trans _ _ _ Hle (lim_max _ Ha)) as Hmax.
  destruct Ha, Hb. constructor; [done|cbn; lia..].
Qed.

(** The check [requested.constrained_by(l) == l] accepts exactly ceilings
    below the request. *)
Lemma constrained_by_fixed a l :
  l.(storage_value_bytes) <= l.(storage_bytes) -> constrained_by a l = l <-> limits_le l a.
Proof.
  intros Hv. split.
  - intros <-. apply constrained_by_le.
  - intros Hle. apply limits_le_antisym; [apply constrained_by_le|].
    by apply constrained_by_greatest; [|constructor; lia|].
Qed.

(** ** What a valid lock says *)
Lemma key_lt_trans a b c : key_lt a b = true -> key_lt b c = true -> key_lt a c = true.
Proof.
  unfold key_lt. intros H1 H2. apply orb_true_iff in H1 as [H1|H1], H2 as [H2|H2]; apply orb_true_iff; bprop.
  - left. eauto using str_lt_trans.
  - left. congruence.
  - left. congruence.
  - right. apply andb_true_iff. split; [apply bool_decide_eq_true; congruence|eauto using str_lt_trans].
Qed.
Lemma key_lt_irrefl a : key_lt a a = false.
Proof. unfold key_lt. by rewrite !str_lt_irrefl, andb_false_r. Qed.

Definition key_before (a b : string * string) : Prop := key_lt a b = true.

Section Locks.
Context `{Ext : Externals}.

Lemma index_providers_spec prev m l m' :
  index_providers prev m l = Ok m' ->
  (forall k, prev = Some k -> Forall (key_before k) (lp_key <$> l))
  /\ StronglySorted key_before (lp_key <$> l)
  /\ dom m' = dom m ∪ list_to_set (lp_key <$> l)
  /\ Forall (fun p => validate_locked_package p = Ok tt) l.
Proof.
  revert prev m. induction l as [|p l IH]; intros prev m; cbn [index_providers].
  { intros [= ->]. split_and!; [by intros; constructor|constructor|set_solver|done]. }
  destruct (validate_locked_package p) as [[]|] eqn:Hp; [|done].
  destruct (is_some_and _ prev) eqn:Hprev; [done|].
  intros (Hall & Hs & Hd & Hf)%IH. specialize (Hall _ eq_refl). csimpl.
  split_and!.
  - intros k ->. cbn in Hprev. unfold key_ge in Hprev. bprop.
    constructor; [exact Hprev|]. eapply Forall_impl; [exact Hall|]. cbn.
    intros x Hx. unfold key_before in *. eauto using key_lt_trans.
  - by constructor.
  - rewrite Hd, dom_insert_L. set_solver.
  - by constructor.
Qed.

Lemma check_resolved_spec m al rf l al' rf' :
  check_resolved m al rf l = Ok (al', rf') ->
  NoDup (rd_alias <$> l)
  /\ (forall x, x ∈ rd_alias <$> l -> x ∉ al)
  /\ al' = al ∪ list_to_set (rd_alias <$> l)
  /\ rf' = rf ∪ list_to_set (rd_key <$> l)
  /\ Forall (fun d => rd_key d ∈ dom m) l.
Proof.
  revert al rf. induction l as [|d l IH]; intros al rf; cbn [check_resolved].
  { intros [= <- <-]. split_and!; [constructor|set_solver|set_solver|set_solver|done]. }
  pass Hg. split_guard.
  intros (Hnd & Hfresh & -> & -> & Hall)%IH. csimpl. split_and!.
  - constructor; [|done]. intros Hin%Hfresh. set_solver.
  - intros x [->|Hx]%elem_of_cons; [done|]. apply Hfresh in Hx. set_solver.
  - set_solver.
  - set_solver.
  - constructor; [|done]. apply elem_of_dom. destruct (m !! rd_key d); [eauto|done].
Qed.

Lemma check_unavailable_spec al l al' :
  check_unavailable al l = Ok al' ->
  NoDup (ud_alias <$> l) /\ (forall x, x ∈ ud_alias <$> l -> x ∉ al).
Proof.
  revert al. induction l as [|d l IH]; intros al; cbn [check_unavailable].
  { intros [= <-]. split; [constructor|set_solver]. }
  pass Hg. split_guard.
  intros (Hnd & Hfresh)%IH. csimpl. split.
  - constructor; [|done]. intros Hin%Hfresh. set_solver.
  - intros x [->|Hx]%elem_of_cons; [done|]. apply Hfresh in Hx. set_solver.
Qed.

Lemma key_sorted_NoDup (l : list (string * string)) : StronglySorted key_before l -> NoDup l.
Proof.
  induction 1 as [|x l Hs IH Hall]; constructor; [|done]. intros Hin.
  rewrite Forall_forall in Hall. apply Hall in Hin. unfold key_before in Hin.
  by rewrite key_lt_irrefl in Hin.
Qed.

(** A valid composition lock is a closed, unambiguous graph: providers are
    strictly sorted by id and version, aliases are unique over required and
    optional edges, every resolved edge has exactly one provider, and every
    provider is used by some edge. *)
Theorem composition_lock_closed (lock : CompositionLock)
    (Hvalid : validate_composition_lock lock = Ok tt) :
  StronglySorted key_before (lp_key <$> lock.(providers))
  /\ NoDup ((rd_alias <$> lock.(cl_plan).(resolved)) ++ (ud_alias <$> lock.(cl_plan).(unavailable_optional)))
  /\ (forall d, d ∈ lock.(cl_plan).(resolved) ->
        exists p, p ∈ lock.(providers) /\ lp_key p = rd_key d
                  /\ validate_locked_package p = Ok tt
                  /\ forall p', p' ∈ lock.(providers) -> lp_key p' = rd_key d -> p' = p)
  /\ (forall p, p ∈ lock.(providers) -> exists d, d ∈ lock.(cl_plan).(resolved) /\ rd_key d = lp_key p).
Proof.
  unfold validate_composition_lock in Hvalid. destruct (_ || _); [done|].
  destruct (validate_locked_package (root lock)); [|done].
  destruct (index_providers None ∅ (providers lock)) as [m|] eqn:Hi; [|done].
  destruct (check_resolved m ∅ ∅ (resolved (cl_plan lock))) as [[al rf]|] eqn:Hr; [|done].
  destruct (check_unavailable al _) as [al'|] eqn:Hu; [|done].
  destruct (bool_decide _) eqn:Hd; [|done]. bprop. clear Hvalid.
  apply index_providers_spec in Hi as (_ & Hs & Hdom & Hok).
  apply check_resolved_spec in Hr as (Hnd & _ & -> & -> & Hin).
  apply check_unavailable_spec in Hu as (Hnd' & Hfresh).
  pose proof (key_sorted_NoDup _ Hs) as Hkeys. rewrite Forall_forall in Hin; rewrite Forall_forall in Hok.
  assert (dom m = list_to_set (lp_key <$> providers lock)) as Hdm by set_solver.
  assert (list_to_set (lp_key <$> providers lock) =@{gset _}
          list_to_set (rd_key <$> resolved (cl_plan lock))) as Heq by set_solver.
  split_and!; [done| | |].
  - apply NoDup_app. split_and!; [done| |done]. intros x ? Hx%Hfresh. set_solver.
  - intros d Hdin%Hin. rewrite Hdm in Hdin.
    apply elem_of_list_to_set, list_elem_of_fmap in Hdin as (p & Hp & Hpin).
    exists p. split_and!; [done|done|by apply Hok|]. intros p' Hp' Hk.
    apply list_elem_of_lookup in Hpin as [i Hi], Hp' as [j Hj].
    assert (i = j) as <-; [|congruence].
    eapply (NoDup_lookup (lp_key <$> providers lock) i j (rd_key d)); [done| |];
      rewrite list_lookup_fmap, ?Hi, ?Hj; cbn; congruence.
  - intros p Hp. assert (lp_key p ∈ (list_to_set (lp_key <$> providers lock) : gset _)) as Hk.
    { apply elem_of_list_to_set. by apply list_elem_of_fmap_2. }
    rewrite Heq in Hk. apply elem_of_list_to_set, list_elem_of_fmap in Hk as (d & ? & ?). eauto.
Qed.

End Locks.

(** Constraining limits never widens them: the result is below the request
    and below the ceiling, is the largest such limits whose value bound fits
    the store, and is valid whenever both inputs are. *)
Theorem constrained_by_is_meet (a b : RuntimeLimits)
    (Ha : validate_runtime_limits a = Ok tt) (Hb : validate_runtime_limits b = Ok tt) :
  validate_runtime_limits (constrained_by a b) = Ok tt
  /\ limits_le (constrained_by a b) a /\ limits_le (constrained_by a b) b
  /\ (forall c, validate_runtime_limits c = Ok tt -> limits_le c a -> limits_le c b ->
        limits_le c (constrained_by a b)).
Proof.
  rewrite validate_runtime_limits_iff in *. pose proof (constrained_by_le a b) as [? ?].
  split_and!; [by apply constrained_by_ok|done|done|].
  intros c Hc%validate_runtime_limits_iff ? ?. apply constrained_by_greatest; [done..|].
  by destruct Hc as [? ? ? ? ? ? [_ ?]].
Qed.

(** ** Concrete locks *)
Definition zero_digest : string :=
  "0000000000000000000000000000000000000000000000000000000000000000".
Definition demo_package (id : string) : LockedPackage :=
  mkLockedPackage id "1.2.3" zero_digest 4096 zero_digest "".
Definition demo_lock : CompositionLock :=
  mkCompositionLock 1 (demo_package "dev.example.root") [demo_package "dev.example.provider"]
    (mkResolutionPlan
       [mkResolved "store" "dev.example.provider" "1.2.3" ["demo:store/kv@1.0.0"]]
       [mkUnavailable "extra" "dev.example.extra" "cartridge is not installed"]).

Lemma composition_lock_closed_witness :
  @validate_composition_lock demo_externals demo_lock = Ok tt
  /\ exists p, p ∈ demo_lock.(providers) /\ lp_key p = ("dev.example.provider", "1.2.3").
Proof.
  assert (@validate_composition_lock demo_externals demo_lock = Ok tt) as Hv
    by (vm_compute; reflexivity).
  split; [exact Hv|].
  destruct (@composition_lock_closed demo_externals demo_lock Hv) as (_ & _ & Hd & _).
  destruct (Hd _ (list_elem_of_here _ _)) as (p & Hp & Hk & _). by exists p.
Defined.

Lemma constrained_by_is_meet_witness :
  validate_runtime_limits (constrained_by maximum default_limits) = Ok tt
  /\ limits_le (constrained_by maximum default_limits) default_limits.
Proof.
  destruct (constrained_by_is_meet maximum default_limits) as (? & _ & ? & _);
    [vm_compute; reflexivity..|]. by split.
Defined.
