(* ===== verification/Plan.v ===== *)
(** * Stack manifests and plans ([crates/cartridge-engine/src/lib.rs])

    The data model of a stack (manifest, plan, instances, resources, secrets),
    the validation of manifests and plans, instance limits and the stopped
    version of a plan. *)
From S2P Require Import Prelude Text Core Rolling.

Definition STACK_FORMAT_VERSION : N := 1.
Definition STACK_PLAN_FORMAT_VERSION : N := 4.
Definition LEGACY_STACK_PLAN_FORMAT_VERSION : N := 2.
Definition HEALTH_STACK_PLAN_FORMAT_VERSION : N := 3.
Definition MAX_STACK_INSTANCES : N := 64.
Definition MAX_STACK_TOTAL_REPLICAS : N := 256.
Definition MAX_STACK_TOTAL_SURGE_REPLICAS : N := 64.
Definition MAX_STACK_RESTARTS : N := 64.
Definition MAX_STACK_RESOURCES : N := 128.
Definition MAX_STACK_SECRETS : N := 128.
Definition MAX_STACK_ARGUMENTS : N := 256.
Definition MAX_STACK_ARGUMENT_BYTES : N := 64 * 1024.
Definition MAX_STACK_PLAN_BYTES : N := 8 * 1024 * 1024.
Definition MIN_PROBE_TIMEOUT_MS : N := 100.
Definition MAX_PROBE_TIMEOUT_MS : N := 5 * 60 * 1000.
Definition MAX_PROBE_FAILURE_THRESHOLD : N := 10.

(** ** Data *)
Inductive SecurityProfile := Strict | Balanced | Permissive.
Inductive SandboxPolicy := Required | Preferred | Disabled.
Module DesiredState.
Inductive DesiredState := Running | Stopped.
End DesiredState.
Abbreviation DesiredState := DesiredState.DesiredState.
Inductive RestartPolicy := Never | OnFailure | Always.
Inductive StackCapability :=
| Clock | Random | Assets | Storage | Graphics | Audio | Midi | Http | Serve.
Inductive ResourceKind := State | Blob.
Inductive RetentionPolicy := Retain | Delete.

#[global] Instance security_profile_eq_dec : EqDecision SecurityProfile.
Proof. solve_decision. Defined.
#[global] Instance sandbox_policy_eq_dec : EqDecision SandboxPolicy.
Proof. solve_decision. Defined.
#[global] Instance desired_state_eq_dec : EqDecision DesiredState.
Proof. solve_decision. Defined.
#[global] Instance restart_policy_eq_dec : EqDecision RestartPolicy.
Proof. solve_decision. Defined.
#[global] Instance capability_eq_dec : EqDecision StackCapability.
Proof. solve_decision. Defined.
#[global] Instance resource_kind_eq_dec : EqDecision ResourceKind.
Proof. solve_decision. Defined.
#[global] Instance retention_eq_dec : EqDecision RetentionPolicy.
Proof. solve_decision. Defined.

Definition all_capabilities : list StackCapability :=
  [Clock; Random; Assets; Storage; Graphics; Audio; Midi; Http; Serve].
Definition capability_code (c : StackCapability) : nat :=
  match c with
  | Clock => 0 | Random => 1 | Assets => 2 | Storage => 3 | Graphics => 4
  | Audio => 5 | Midi => 6 | Http => 7 | Serve => 8
  end%nat.
Lemma capability_code_inv c : all_capabilities !! capability_code c = Some c.
Proof. by destruct c. Qed.
#[global] Instance capability_countable : Countable StackCapability :=
  inj_countable capability_code (fun n => all_capabilities !! n) capability_code_inv.
Abbreviation Capabilities := (gset StackCapability).

Record HealthProbeSpec := mkHealthProbeSpec {
  startup_timeout_ms : N;
  readiness_timeout_ms : N;
  liveness_timeout_ms : N;
  failure_threshold : N;
}.
Definition default_health : HealthProbeSpec := mkHealthProbeSpec 10000 30000 15000 3.

Record InstanceLimits := mkInstanceLimits {
  il_fuel : option N;
  il_memory_bytes : option N;
  il_timeout_ms : option N;
  il_storage_bytes : option N;
  il_storage_keys : option N;
  il_storage_value_bytes : option N;
  il_graphics_pixels : option N;
  il_graphics_commands : option N;
  il_audio_nodes : option N;
  il_audio_events : option N;
  il_audio_frames : option N;
}.

Record InstanceSpec := mkInstanceSpec {
  is_name : string;
  is_cartridge : string;
  is_version : string;
  is_replicas : N;
  is_desired : DesiredState;
  is_restart : RestartPolicy;
  is_max_restarts : N;
  is_allow : Capabilities;
  is_deny : Capabilities;
  is_args : list string;
  is_secrets : gset string;
  is_limits : InstanceLimits;
  is_health : option HealthProbeSpec;
  is_update : RollingUpdatePolicy;
}.
Record ResourceSpec := mkResourceSpec {
  rs_name : string;
  rs_kind : ResourceKind;
  rs_owner : string;
  rs_retention : RetentionPolicy;
  rs_quota_bytes : option N;
}.
Record SecretSpec := mkSecretSpec { ss_name : string; ss_required : bool }.
Record StackSecurity := mkStackSecurity { profile : SecurityProfile; sandbox : SandboxPolicy }.
Definition default_security : StackSecurity := mkStackSecurity Strict Required.
Record StackManifest := mkStackManifest {
  sm_format_version : N;
  sm_name : string;
  sm_security : StackSecurity;
  sm_instances : list InstanceSpec;
  sm_resources : list ResourceSpec;
  sm_secrets : list SecretSpec;
}.

Record PlannedInstance := mkPlannedInstance {
  pi_name : string;
  pi_cartridge_id : string;
  pi_version : string;
  pi_package_sha256 : string;
  pi_package_bytes : N;
  pi_replicas : N;
  pi_desired : DesiredState;
  pi_restart : RestartPolicy;
  pi_max_restarts : N;
  pi_requested : Capabilities;
  pi_granted : Capabilities;
  pi_blocked : Capabilities;
  pi_allowed : Capabilities;
  pi_denied : Capabilities;
  pi_args : list string;
  pi_secrets : gset string;
  pi_limits : RuntimeLimits;
  pi_health : option HealthProbeSpec;
  pi_update : RollingUpdatePolicy;
  pi_composition : CompositionLock;
}.
Record PlannedResource := mkPlannedResource {
  pr_name : string;
  pr_kind : ResourceKind;
  pr_owner : string;
  pr_retention : RetentionPolicy;
  pr_quota_bytes : option N;
}.
Record PlannedSecret := mkPlannedSecret { ps_name : string; ps_required : bool }.
Record PlannedSecurity := mkPlannedSecurity { ps_profile : SecurityProfile; ps_sandbox : SandboxPolicy }.
Record StackPlan := mkStackPlan {
  sp_format_version : N;
  sp_stack : string;
  sp_security : PlannedSecurity;
  sp_instances : list PlannedInstance;
  sp_resources : list PlannedResource;
  sp_secrets : list PlannedSecret;
  sp_warnings : list string;
  sp_plan_sha256 : string;
}.
#[global] Instance health_spec_eq_dec : EqDecision HealthProbeSpec.
Proof. solve_decision. Defined.
#[global] Instance planned_instance_eq_dec : EqDecision PlannedInstance.
Proof. solve_decision. Defined.
#[global] Instance planned_resource_eq_dec : EqDecision PlannedResource.
Proof. solve_decision. Defined.
#[global] Instance planned_secret_eq_dec : EqDecision PlannedSecret.
Proof. solve_decision. Defined.
#[global] Instance planned_security_eq_dec : EqDecision PlannedSecurity.
Proof. solve_decision. Defined.
#[global] Instance stack_plan_eq_dec : EqDecision StackPlan.
Proof. solve_decision. Defined.

(** ** Probe policy and instance limits *)
Definition validate_health_spec (self : HealthProbeSpec) : result string unit :=
  let timeouts := [self.(startup_timeout_ms); self.(readiness_timeout_ms);
                   self.(liveness_timeout_ms)] in
  if existsb (fun value => negb (in_range MIN_PROBE_TIMEOUT_MS MAX_PROBE_TIMEOUT_MS value)) timeouts
     || (self.(readiness_timeout_ms) <? self.(startup_timeout_ms))
     || (self.(failure_threshold) =? 0)
     || (MAX_PROBE_FAILURE_THRESHOLD <? self.(failure_threshold))
  then Err "application health probe policy is invalid" else Ok tt.

Definition ceiling (self : InstanceLimits) : result string RuntimeLimits :=
  let storage := default MAX_STORAGE_BYTES self.(il_storage_bytes) in
  let limits :=
    mkRuntimeLimits
      (default MAX_FUEL self.(il_fuel))
      (default MAX_MEMORY_BYTES self.(il_memory_bytes))
      (default MAX_TIMEOUT_MS self.(il_timeout_ms))
      storage
      (default MAX_STORAGE_KEYS self.(il_storage_keys))
      (N.min (default MAX_STORAGE_VALUE_BYTES self.(il_storage_value_bytes)) storage)
      (default MAX_GRAPHICS_PIXELS self.(il_graphics_pixels))
      (default MAX_GRAPHICS_COMMANDS self.(il_graphics_commands))
      (default MAX_AUDIO_NODES self.(il_audio_nodes))
      (default MAX_AUDIO_EVENTS self.(il_audio_events))
      (default MAX_AUDIO_FRAMES self.(il_audio_frames)) in
  let? _ := map_err error_to_string (validate_runtime_limits limits) in
  Ok limits.

Definition apply_limits (self : InstanceLimits) (requested : RuntimeLimits) :
    result string RuntimeLimits :=
  let? limits := ceiling self in
  Ok (constrained_by requested limits).

(** [try_fold(0_usize, |total, argument| total.checked_add(argument.len()))] *)
Fixpoint argument_bytes (total : N) (args : list string) : option N :=
  match args with
  | [] => Some total
  | argument :: args =>
      match checked_add usize_max total (str_len argument) with
      | Some total => argument_bytes total args
      | None => None
      end
  end.

(** ** Manifests *)
Definition bad_quota (quota : option N) : bool :=
  is_some_and (fun value => (value =? 0) || (N.shiftl 64 30 <? value)) quota.

Section Validate.
Context `{Ext : Externals}.

Definition validate_instance (value : InstanceSpec) : result string unit :=
  let? _ := ceiling value.(is_limits) in
  let? _ := match value.(is_health) with
            | Some health => validate_health_spec health
            | None => Ok tt
            end in
  let? _ := validate_policy value.(is_update) value.(is_replicas) in
  let? bytes := ok_or (argument_bytes 0 value.(is_args)) "stack argument size overflow" in
  if negb (valid_name value.(is_name))
     || negb (valid_cartridge_id value.(is_cartridge))
     || (128 <? str_len value.(is_version))
     || negb (semver_req_ok value.(is_version))
     || (value.(is_replicas) =? 0)
     || (MAX_STACK_REPLICAS <? value.(is_replicas))
     || (MAX_STACK_RESTARTS <? value.(is_max_restarts))
     || (MAX_STACK_ARGUMENTS <? len value.(is_args))
     || (MAX_STACK_ARGUMENT_BYTES <? bytes)
     || existsb (fun argument => negb (valid_text argument 4096 true)) value.(is_args)
     || negb (bool_decide (value.(is_allow) ## value.(is_deny)))
     || existsb (fun secret => negb (valid_name secret)) (elements value.(is_secrets))
  then Err "stack instance is invalid" else Ok tt.

Fixpoint check_instances (instances : gset string) (total_replicas total_surge : N)
    (l : list InstanceSpec) : result string (gset string * N * N) :=
  match l with
  | [] => Ok (instances, total_replicas, total_surge)
  | instance :: l =>
      let? _ := validate_instance instance in
      let? total_replicas := ok_or (checked_add u16_max total_replicas instance.(is_replicas))
                                   "stack replica count overflow" in
      let? total_surge := ok_or (checked_add u16_max total_surge instance.(is_update).(max_surge))
                                "stack surge count overflow" in
      if bool_decide (instance.(is_name) ∈ instances)
      then Err "stack instance names must be unique"
      else check_instances ({[instance.(is_name)]} ∪ instances) total_replicas total_surge l
  end.

Fixpoint check_resources (instances resources : gset string) (l : list ResourceSpec) :
    result string unit :=
  match l with
  | [] => Ok tt
  | resource :: l =>
      if negb (valid_name resource.(rs_name))
         || negb (bool_decide (resource.(rs_owner) ∈ instances))
         || bad_quota resource.(rs_quota_bytes)
         || bool_decide (resource.(rs_name) ∈ resources)
      then Err "stack resource is invalid"
      else check_resources instances ({[resource.(rs_name)]} ∪ resources) l
  end.

Fixpoint check_secrets (secrets : gset string) (l : list SecretSpec) :
    result string (gset string) :=
  match l with
  | [] => Ok secrets
  | secret :: l =>
      if negb (valid_name secret.(ss_name)) || bool_decide (secret.(ss_name) ∈ secrets)
      then Err "stack secret is invalid"
      else check_secrets ({[secret.(ss_name)]} ∪ secrets) l
  end.

Definition validate_manifest (self : StackManifest) : result string unit :=
  if negb (self.(sm_format_version) =? STACK_FORMAT_VERSION)
     || negb (valid_name self.(sm_name))
     || bool_decide (self.(sm_instances) = [])
     || (MAX_STACK_INSTANCES <? len self.(sm_instances))
     || (MAX_STACK_RESOURCES <? len self.(sm_resources))
     || (MAX_STACK_SECRETS <? len self.(sm_secrets))
  then Err "stack format, name, or collection count is invalid"
  else
    let? (instances, total_replicas, total_surge) := check_instances ∅ 0 0 self.(sm_instances) in
    if (MAX_STACK_TOTAL_REPLICAS <? total_replicas)
       || (MAX_STACK_TOTAL_SURGE_REPLICAS <? total_surge)
    then Err "stack exceeds its aggregate replica or surge limit"
    else
      let? _ := check_resources instances ∅ self.(sm_resources) in
      let? secrets := check_secrets ∅ self.(sm_secrets) in
      if existsb (fun instance =>
           existsb (fun secret => negb (bool_decide (secret ∈ secrets)))
             (elements instance.(is_secrets))) self.(sm_instances)
      then Err "instance references an undeclared secret" else Ok tt.

(** ** Plans *)
Definition balanced_capabilities : Capabilities := {[Clock; Assets; Graphics; Audio]}.

Definition profile_capabilities (p : SecurityProfile) (requested granted : Capabilities) :
    Capabilities :=
  match p with
  | Strict => granted
  | Balanced => (requested ∩ balanced_capabilities) ∪ granted
  | Permissive => requested
  end.

Definition validate_planned_capabilities (instance : PlannedInstance) (p : SecurityProfile) :
    result string unit :=
  let expected_allowed :=
    profile_capabilities p instance.(pi_requested) instance.(pi_granted)
      ∖ instance.(pi_blocked) in
  let expected_denied := instance.(pi_requested) ∖ instance.(pi_allowed) in
  if negb (bool_decide (expected_allowed = instance.(pi_allowed)))
     || negb (bool_decide (expected_denied = instance.(pi_denied)))
  then Err "stack plan capability policy is inconsistent" else Ok tt.

Definition validate_planned_instance (instance : PlannedInstance) (p : SecurityProfile)
    (declared_secrets : gset string) : result string unit :=
  let? _ := map_err error_to_string (validate_runtime_limits instance.(pi_limits)) in
  let? _ := match instance.(pi_health) with
            | Some health => validate_health_spec health
            | None => Ok tt
            end in
  let? _ := validate_policy instance.(pi_update) instance.(pi_replicas) in
  let? bytes := ok_or (argument_bytes 0 instance.(pi_args)) "stack plan argument size overflow" in
  if negb (valid_name instance.(pi_name))
     || negb (valid_cartridge_id instance.(pi_cartridge_id))
     || negb (semver_ok instance.(pi_version))
     || negb (is_digest instance.(pi_package_sha256))
     || (instance.(pi_package_bytes) =? 0)
     || (160 * 1024 * 1024 <? instance.(pi_package_bytes))
     || (instance.(pi_replicas) =? 0)
     || (MAX_STACK_REPLICAS <? instance.(pi_replicas))
     || (MAX_STACK_RESTARTS <? instance.(pi_max_restarts))
     || negb (bool_decide (instance.(pi_allowed) ⊆ instance.(pi_requested)))
     || negb (bool_decide (instance.(pi_denied) ⊆ instance.(pi_requested)))
     || negb (bool_decide (instance.(pi_granted) ⊆ instance.(pi_requested)))
     || negb (bool_decide (instance.(pi_blocked) ⊆ instance.(pi_requested)))
     || negb (bool_decide (instance.(pi_granted) ## instance.(pi_blocked)))
     || negb (bool_decide (instance.(pi_allowed) ## instance.(pi_denied)))
     || negb (bool_decide (instance.(pi_allowed) ∪ instance.(pi_denied) = instance.(pi_requested)))
     || (MAX_STACK_ARGUMENTS <? len instance.(pi_args))
     || (MAX_STACK_ARGUMENT_BYTES <? bytes)
     || existsb (fun argument => negb (valid_text argument 4096 true)) instance.(pi_args)
     || existsb (fun secret => negb (valid_name secret)
                               || negb (bool_decide (secret ∈ declared_secrets)))
          (elements instance.(pi_secrets))
  then Err "stack plan instance is invalid"
  else
    let? _ := validate_composition_lock instance.(pi_composition) in
    let root := instance.(pi_composition).(root) in
    if negb (bool_decide (root.(lp_cartridge_id) = instance.(pi_cartridge_id)))
       || negb (bool_decide (root.(lp_version) = instance.(pi_version)))
       || negb (bool_decide (root.(lp_package_sha256) = instance.(pi_package_sha256)))
       || negb (root.(lp_package_bytes) =? instance.(pi_package_bytes))
    then Err "stack plan package does not match its composition root"
    else validate_planned_capabilities instance p.

Fixpoint check_planned_instances (p : SecurityProfile) (declared_secrets : gset string)
    (names : gset string) (previous_name : option string) (total_replicas total_surge : N)
    (l : list PlannedInstance) : result string (gset string * N * N) :=
  match l with
  | [] => Ok (names, total_replicas, total_surge)
  | instance :: l =>
      let? _ := validate_planned_instance instance p declared_secrets in
      let? total_replicas := ok_or (checked_add u16_max total_replicas instance.(pi_replicas))
                                   "stack plan replica count overflow" in
      let? total_surge := ok_or (checked_add u16_max total_surge instance.(pi_update).(max_surge))
                                "stack plan surge count overflow" in
      if is_some_and (fun previous => str_ge previous instance.(pi_name)) previous_name
         || bool_decide (instance.(pi_name) ∈ names)
      then Err "stack plan instances are not strictly sorted"
      else check_planned_instances p declared_secrets ({[instance.(pi_name)]} ∪ names)
             (Some instance.(pi_name)) total_replicas total_surge l
  end.

Definition validate_planned_instances (instances : list PlannedInstance) (p : SecurityProfile)
    (secrets : list PlannedSecret) : result string (gset string) :=
  let declared_secrets := list_to_set (ps_name <$> secrets) in
  let? (names, total_replicas, total_surge) :=
    check_planned_instances p declared_secrets ∅ None 0 0 instances in
  if (MAX_STACK_TOTAL_REPLICAS <? total_replicas)
     || (MAX_STACK_TOTAL_SURGE_REPLICAS <? total_surge)
  then Err "stack plan exceeds its aggregate replica or surge limit" else Ok names.

Fixpoint validate_planned_resources (instances : gset string) (previous : option string)
    (l : list PlannedResource) : result string unit :=
  match l with
  | [] => Ok tt
  | resource :: l =>
      if negb (valid_name resource.(pr_name))
         || negb (bool_decide (resource.(pr_owner) ∈ instances))
         || bad_quota resource.(pr_quota_bytes)
         || is_some_and (fun name => str_ge name resource.(pr_name)) previous
      then Err "stack plan resource is invalid or not strictly sorted"
      else validate_planned_resources instances (Some resource.(pr_name)) l
  end.

Fixpoint validate_planned_secrets (previous : option string) (l : list PlannedSecret) :
    result string unit :=
  match l with
  | [] => Ok tt
  | secret :: l =>
      if negb (valid_name secret.(ps_name))
         || is_some_and (fun name => str_ge name secret.(ps_name)) previous
      then Err "stack plan secret is invalid or not strictly sorted"
      else validate_planned_secrets (Some secret.(ps_name)) l
  end.

Context `{!Json StackPlan}.

Definition with_plan_sha256 (self : StackPlan) (sha : string) : StackPlan :=
  mkStackPlan self.(sp_format_version) self.(sp_stack) self.(sp_security) self.(sp_instances)
    self.(sp_resources) self.(sp_secrets) self.(sp_warnings) sha.

Definition plan_computed_sha256 (self : StackPlan) : result string string :=
  let? bytes := to_vec (with_plan_sha256 self "") in
  if MAX_STACK_PLAN_BYTES <? len bytes then Err "stack plan exceeds its byte limit"
  else Ok (hex_sha256 bytes).

Definition validate_plan (self : StackPlan) : result string unit :=
  if negb ((self.(sp_format_version) =? LEGACY_STACK_PLAN_FORMAT_VERSION)
           || (self.(sp_format_version) =? HEALTH_STACK_PLAN_FORMAT_VERSION)
           || (self.(sp_format_version) =? STACK_PLAN_FORMAT_VERSION))
     || ((self.(sp_format_version) =? LEGACY_STACK_PLAN_FORMAT_VERSION)
         && existsb (fun instance => is_some instance.(pi_health)
                                     || negb (is_default instance.(pi_update))) self.(sp_instances))
     || ((self.(sp_format_version) =? HEALTH_STACK_PLAN_FORMAT_VERSION)
         && existsb (fun instance => negb (is_default instance.(pi_update))) self.(sp_instances))
     || negb (valid_name self.(sp_stack))
     || bool_decide (self.(sp_instances) = [])
     || (MAX_STACK_INSTANCES <? len self.(sp_instances))
     || negb (is_digest self.(sp_plan_sha256))
  then Err "stack plan identity is invalid"
  else
    let? sha := plan_computed_sha256 self in
    if negb (bool_decide (sha = self.(sp_plan_sha256))) then Err "stack plan identity is invalid"
    else
      let? names := validate_planned_instances self.(sp_instances)
                      self.(sp_security).(ps_profile) self.(sp_secrets) in
      if (MAX_STACK_RESOURCES <? len self.(sp_resources))
         || (MAX_STACK_SECRETS <? len self.(sp_secrets))
         || (MAX_STACK_INSTANCES + 1 <? len self.(sp_warnings))
         || existsb (fun warning => negb (valid_text warning 512 false)) self.(sp_warnings)
      then Err "stack plan collection is invalid"
      else
        let? _ := validate_planned_resources names None self.(sp_resources) in
        validate_planned_secrets None self.(sp_secrets).

Definition stop_instance (instance : PlannedInstance) : PlannedInstance :=
  mkPlannedInstance instance.(pi_name) instance.(pi_cartridge_id) instance.(pi_version)
    instance.(pi_package_sha256) instance.(pi_package_bytes) instance.(pi_replicas)
    DesiredState.Stopped instance.(pi_restart) instance.(pi_max_restarts) instance.(pi_requested)
    instance.(pi_granted) instance.(pi_blocked) instance.(pi_allowed) instance.(pi_denied)
    instance.(pi_args) instance.(pi_secrets) instance.(pi_limits) instance.(pi_health)
    instance.(pi_update) instance.(pi_composition).

Definition stop_instances (self : StackPlan) : StackPlan :=
  mkStackPlan self.(sp_format_version) self.(sp_stack) self.(sp_security)
    (stop_instance <$> self.(sp_instances)) self.(sp_resources) self.(sp_secrets)
    self.(sp_warnings) self.(sp_plan_sha256).

Definition stopped (self : StackPlan) : result string StackPlan :=
  let value := with_plan_sha256 (stop_instances self) "" in
  let? sha := plan_computed_sha256 value in
  let value := with_plan_sha256 value sha in
  let? _ := validate_plan value in
  Ok value.

End Validate.

(** ** What a valid plan says *)
Definition str_before (a b : string) : Prop := str_lt a b = true.

Lemma before_head prev k (l : list string) :
  str_before prev k -> Forall (str_before k) l -> Forall (str_before prev) (k :: l).
Proof.
  intros Hpk Hl. constructor; [done|]. eapply Forall_impl; [exact Hl|].
  intros x. unfold str_before in *. eauto using str_lt_trans.
Qed.

Lemma not_ge_before (prev : option string) k :
  is_some_and (fun p => str_ge p k) prev = false -> forall p, prev = Some p -> str_before p k.
Proof. intros H p ->. cbn in H. rewrite str_ge_lt in H. by bprop. Qed.

Lemma before_NoDup (l : list string) : StronglySorted str_before l -> NoDup l.
Proof.
  induction 1 as [|x l Hs IH Hall]; constructor; [|done]. intros Hin.
  rewrite Forall_forall in Hall. apply Hall in Hin. unfold str_before in Hin.
  by rewrite str_lt_irrefl in Hin.
Qed.

Section PlanFacts.
Context `{Ext : Externals} `{JP : !Json StackPlan}.

Lemma check_planned_instances_spec prof sec names prev tr ts l names' tr' ts' :
  check_planned_instances prof sec names prev tr ts l = Ok (names', tr', ts') ->
  Forall (fun i => validate_planned_instance i prof sec = Ok tt) l
  /\ (forall p, prev = Some p -> Forall (str_before p) (pi_name <$> l))
  /\ StronglySorted str_before (pi_name <$> l)
  /\ names' = names ∪ list_to_set (pi_name <$> l)
  /\ tr' = tr + sumN (pi_replicas <$> l)
  /\ ts' = ts + sumN ((fun i => i.(pi_update).(max_surge)) <$> l).
Proof.
  revert names prev tr ts. induction l as [|i l IH]; intros names prev tr ts;
    cbn [check_planned_instances].
  { intros [= <- <- <-]. split_and!; [done|by intros; constructor|constructor|set_solver|..];
      csimpl; rewrite sumN_nil; lia. }
  destruct (validate_planned_instance i prof sec) as [[]|] eqn:Hi; [|done]. unfold ok_or.
  destruct (checked_add _ tr _) as [tr1|] eqn:Htr; [|done].
  destruct (checked_add _ ts _) as [ts1|] eqn:Hts; [|done].
  apply checked_add_Some in Htr as [-> _], Hts as [-> _].
  destruct (_ || _) eqn:Hg; [done|]. split_guard.
  intros (Hok & Hprev & Hs & -> & -> & ->)%IH. specialize (Hprev _ eq_refl). csimpl.
  split_and!.
  - by constructor.
  - intros p Hp. apply before_head; [|done]. by eapply not_ge_before.
  - by constructor.
  - set_solver.
  - rewrite sumN_cons. lia.
  - rewrite sumN_cons. lia.
Qed.

Lemma validate_planned_resources_spec names prev l :
  validate_planned_resources names prev l = Ok tt ->
  (forall p, prev = Some p -> Forall (str_before p) (pr_name <$> l))
  /\ StronglySorted str_before (pr_name <$> l)
  /\ Forall (fun r => r.(pr_owner) ∈ names) l.
Proof.
  revert prev. induction l as [|r l IH]; intros prev; cbn [validate_planned_resources].
  { intros _. split_and!; [by intros; constructor|constructor|done]. }
  destruct (_ || _) eqn:Hg; [done|]. split_guard. intros (Hprev & Hs & Hf)%IH.
  specialize (Hprev _ eq_refl). csimpl. split_and!.
  - intros p Hp. apply before_head; [|done]. by eapply not_ge_before.
  - by constructor.
  - by constructor.
Qed.

Lemma validate_planned_secrets_spec prev l :
  validate_planned_secrets prev l = Ok tt ->
  (forall p, prev = Some p -> Forall (str_before p) (ps_name <$> l))
  /\ StronglySorted str_before (ps_name <$> l).
Proof.
  revert prev. induction l as [|r l IH]; intros prev; cbn [validate_planned_secrets].
  { intros _. split; [by intros; constructor|constructor]. }
  destruct (_ || _) eqn:Hg; [done|]. split_guard. intros (Hprev & Hs)%IH.
  specialize (Hprev _ eq_refl). csimpl. split.
  - intros p Hp. apply before_head; [|done]. by eapply not_ge_before.
  - by constructor.
Qed.

(** The declared content of a valid plan, apart from its checksum. *)
Record plan_ok (p : StackPlan) : Prop := {
  po_name : valid_name p.(sp_stack) = true;
  po_nonempty : p.(sp_instances) <> [];
  po_count : len p.(sp_instances) <= MAX_STACK_INSTANCES;
  po_sha : plan_computed_sha256 p = Ok p.(sp_plan_sha256);
  po_digest : is_digest p.(sp_plan_sha256) = true;
  po_instances : Forall (fun i => validate_planned_instance i p.(sp_security).(ps_profile)
                                    (list_to_set (ps_name <$> p.(sp_secrets))) = Ok tt)
                   p.(sp_instances);
  po_sorted : StronglySorted str_before (pi_name <$> p.(sp_instances));
  po_replicas : sumN (pi_replicas <$> p.(sp_instances)) <= MAX_STACK_TOTAL_REPLICAS;
  po_surge : sumN ((fun i => i.(pi_update).(max_surge)) <$> p.(sp_instances))
             <= MAX_STACK_TOTAL_SURGE_REPLICAS;
  po_owners : Forall (fun r => r.(pr_owner) ∈ pi_name <$> p.(sp_instances)) p.(sp_resources);
  po_resources : StronglySorted str_before (pr_name <$> p.(sp_resources));
  po_secrets : StronglySorted str_before (ps_name <$> p.(sp_secrets));
}.

Lemma validate_plan_ok p : validate_plan p = Ok tt -> plan_ok p.
Proof.
  unfold validate_plan. destruct (_ || _) eqn:Hg; [done|]. split_guard.
  destruct (plan_computed_sha256 p) as [sha|] eqn:Hsha; [|done].
  destruct (bool_decide (sha = _)) eqn:Hs; cbn [negb]; [|done]. bprop. subst sha.
  unfold validate_planned_instances.
  destruct (check_planned_instances _ _ _ _ _ _ _) as [[[names tr] ts]|] eqn:Hi; [|done].
  apply check_planned_instances_spec in Hi as (? & _ & ? & -> & -> & ->).
  destruct ((MAX_STACK_TOTAL_REPLICAS <? _) || _) eqn:Hb; [done|]. split_guard.
  cbn beta iota. destruct ((MAX_STACK_RESOURCES <? _) || _ || _ || _) eqn:Hc; [done|].
  destruct (validate_planned_resources _ _ _) as [[]|] eqn:Hr; [|done].
  apply validate_planned_resources_spec in Hr as (_ & ? & Hown).
  intros (_ & ?)%validate_planned_secrets_spec.
  constructor; try done. eapply Forall_impl; [exact Hown|]. cbn; set_solver.
Qed.

Lemma planned_instance_inv i prof sec :
  validate_planned_instance i prof sec = Ok tt ->
  valid_name i.(pi_name) = true
  /\ 0 < i.(pi_replicas) <= MAX_STACK_REPLICAS
  /\ i.(pi_max_restarts) <= MAX_STACK_RESTARTS
  /\ i.(pi_allowed) ## i.(pi_denied)
  /\ i.(pi_allowed) ∪ i.(pi_denied) = i.(pi_requested)
  /\ i.(pi_secrets) ⊆ sec
  /\ runtime_limits_ok i.(pi_limits)
  /\ validate_composition_lock i.(pi_composition) = Ok tt
  /\ i.(pi_composition).(root).(lp_package_sha256) = i.(pi_package_sha256)
  /\ i.(pi_granted) ⊆ i.(pi_requested)
  /\ validate_planned_capabilities i prof = Ok tt.
Proof.
  unfold validate_planned_instance, map_err.
  destruct (validate_runtime_limits _) as [[]|] eqn:Hl; [|done].
  destruct (match pi_health i with Some _ => _ | None => _ end) as [[]|]; [|done].
  destruct (validate_policy _ _); [|done]. destruct (ok_or _ _) as [bytes|]; [|done].
  pass Hg. destruct (validate_composition_lock _) as [[]|] eqn:Hcl; [|done].
  pass Hroot. intros Hcap. split_guard.
  split_and!; try done; try lia; [|by apply validate_runtime_limits_iff].
  intros s Hs. match goal with H : existsb _ (elements _) = false |- _ => rename H into He end.
  apply not_true_iff_false in He. rewrite existsb_exists in He.
  destruct (decide (s ∈ sec)) as [|Hn]; [done|]. exfalso. apply He.
  exists s. split; [by apply list_elem_of_In, elem_of_elements|].
  rewrite bool_decide_eq_false_2 by done. apply orb_true_r.
Qed.

Lemma capabilities_inv i prof :
  validate_planned_capabilities i prof = Ok tt ->
  i.(pi_allowed) = profile_capabilities prof i.(pi_requested) i.(pi_granted) ∖ i.(pi_blocked).
Proof.
  unfold validate_planned_capabilities. destruct (_ || _) eqn:Hg; [done|]. split_guard. done.
Qed.

Lemma planned_elem p i :
  plan_ok p -> i ∈ p.(sp_instances) ->
  validate_planned_instance i p.(sp_security).(ps_profile)
    (list_to_set (ps_name <$> p.(sp_secrets))) = Ok tt.
Proof. intros Hp Hi. pose proof (po_instances _ Hp) as H. rewrite Forall_forall in H. auto. Qed.

(** ** The stopped plan *)
Lemma existsb_fmap {A B : Type} (f : A -> B) (g : B -> bool) l :
  existsb g (f <$> l) = existsb (fun x => g (f x)) l.
Proof. induction l as [|x l IH]; [done|]. csimpl. by rewrite IH. Qed.

Lemma check_stopped_instances prof sec names prev tr ts l :
  check_planned_instances prof sec names prev tr ts (stop_instance <$> l)
  = check_planned_instances prof sec names prev tr ts l.
Proof.
  revert names prev tr ts. induction l as [|i l IH]; intros; [done|]. csimpl.
  change (validate_planned_instance (stop_instance i) prof sec)
    with (validate_planned_instance i prof sec).
  destruct (validate_planned_instance i prof sec); [|done].
  destruct (ok_or (checked_add _ tr _) _); [|done]. destruct (ok_or (checked_add _ ts _) _); [|done].
  by rewrite IH.
Qed.

Lemma stop_instance_idem i : stop_instance (stop_instance i) = stop_instance i.
Proof. done. Qed.

Lemma stop_instances_idem p : stop_instances (stop_instances p) = stop_instances p.
Proof.
  unfold stop_instances; cbn. f_equal. rewrite <- list_fmap_compose. by apply list_fmap_ext.
Qed.

Lemma plan_sha_digest p sha : plan_computed_sha256 p = Ok sha -> is_digest sha = true.
Proof.
  unfold plan_computed_sha256. destruct (to_vec _); [|done]. pass Hl. intros [= <-].
  apply hex_sha256_is_digest.
Qed.

(** Validation depends on the checksum and on no desired state. *)
Lemma validate_stopped p sha :
  validate_plan p = Ok tt -> plan_computed_sha256 (stop_instances p) = Ok sha ->
  validate_plan (with_plan_sha256 (stop_instances p) sha) = Ok tt.
Proof.
  intros Hv Hsha. pose proof (plan_sha_digest _ _ Hsha) as Hd. revert Hv. unfold validate_plan.
  change (plan_computed_sha256 (with_plan_sha256 (stop_instances p) sha))
    with (plan_computed_sha256 (stop_instances p)).
  rewrite Hsha. cbn. rewrite Hd, !existsb_fmap. cbn.
  replace (len (stop_instance <$> sp_instances p)) with (len (sp_instances p))
    by (unfold len; by rewrite length_fmap).
  replace (bool_decide (stop_instance <$> sp_instances p = []))
    with (bool_decide (sp_instances p = [])) by (by destruct (sp_instances p)).
  unfold validate_planned_instances. rewrite check_stopped_instances.
  rewrite (bool_decide_eq_true_2 (sha = sha)) by done. pass Hg.
  apply orb_false_iff in Hg as [Hg _]. rewrite orb_false_r. setoid_rewrite Hg.
  destruct (plan_computed_sha256 p); [|done]. pass Heq. done.
Qed.

(** ** Theorems *)

(** In a valid plan the capabilities of every instance obey the policy: the
    requested ones are split into allowed and denied, a blocked one is never
    allowed, under the strict profile only granted ones are allowed and under
    the balanced profile only granted ones and the balanced set. *)
Theorem plan_capabilities_sound (p : StackPlan) (i : PlannedInstance)
    (Hvalid : validate_plan p = Ok tt) (Hin : i ∈ p.(sp_instances)) :
  i.(pi_allowed) ∪ i.(pi_denied) = i.(pi_requested)
  /\ i.(pi_allowed) ## i.(pi_denied)
  /\ i.(pi_allowed) ## i.(pi_blocked)
  /\ (p.(sp_security).(ps_profile) = Strict -> i.(pi_allowed) ⊆ i.(pi_granted))
  /\ (p.(sp_security).(ps_profile) = Balanced ->
        i.(pi_allowed) ⊆ i.(pi_granted) ∪ balanced_capabilities)
  /\ (p.(sp_security).(ps_profile) = Permissive ->
        i.(pi_allowed) = i.(pi_requested) ∖ i.(pi_blocked)).
Proof.
  apply validate_plan_ok in Hvalid.
  apply (planned_elem _ _ Hvalid), planned_instance_inv
    in Hin as (_ & _ & _ & ? & ? & _ & _ & _ & _ & _ & Hc).
  apply capabilities_inv in Hc.
  split_and!; try done; [set_solver| | |]; intros Hp; rewrite Hp in Hc; cbn in Hc; set_solver.
Qed.

(** A valid plan is bounded and self-contained: 1 to 64 uniquely named
    instances, each with 1 to 32 replicas, at most 64 restarts, valid limits
    and a lock of its own package; at most 256 replicas and 64 surge replicas
    in all; secrets and resource owners are declared; the checksum is the
    checksum of the content. *)
Theorem plan_bounded_and_closed (p : StackPlan) (Hvalid : validate_plan p = Ok tt) :
  0 < len p.(sp_instances) <= 64
  /\ NoDup (pi_name <$> p.(sp_instances))
  /\ sumN (pi_replicas <$> p.(sp_instances)) <= 256
  /\ sumN ((fun i => i.(pi_update).(max_surge)) <$> p.(sp_instances)) <= 64
  /\ (forall i, i ∈ p.(sp_instances) ->
        0 < i.(pi_replicas) <= 32 /\ i.(pi_max_restarts) <= 64
        /\ validate_runtime_limits i.(pi_limits) = Ok tt
        /\ i.(pi_composition).(root).(lp_package_sha256) = i.(pi_package_sha256)
        /\ forall s, s ∈ i.(pi_secrets) -> s ∈ ps_name <$> p.(sp_secrets))
  /\ (forall r, r ∈ p.(sp_resources) -> r.(pr_owner) ∈ pi_name <$> p.(sp_instances))
  /\ NoDup (pr_name <$> p.(sp_resources)) /\ NoDup (ps_name <$> p.(sp_secrets))
  /\ plan_computed_sha256 p = Ok p.(sp_plan_sha256).
Proof.
  apply validate_plan_ok in Hvalid. pose proof Hvalid as [].
  split_and!; try done; try (by apply before_NoDup).
  - unfold len. destruct (sp_instances p); [done|]. cbn. lia.
  - intros i Hi. apply (planned_elem _ _ Hvalid), planned_instance_inv
      in Hi as (_ & ? & ? & _ & _ & Hs & Hl & _ & ? & _).
    unfold MAX_STACK_REPLICAS in *. split_and!; try done; try lia; [by apply validate_runtime_limits_iff|].
    intros s ?%Hs. set_solver.
  - intros r Hr. rewrite Forall_forall in po_owners0. auto.
Qed.

(** Stopping a plan keeps it valid and stops every instance: whenever the
    stopped content can be encoded within the plan size, [stopped] succeeds,
    changes nothing but the desired states and the checksum, and stopping again
    gives the same plan. *)
Theorem stopped_plan_valid (p : StackPlan) (sha : string)
    (Hvalid : validate_plan p = Ok tt)
    (Hsha : plan_computed_sha256 (stop_instances p) = Ok sha) :
  exists q, stopped p = Ok q /\ validate_plan q = Ok tt
    /\ (forall i, i ∈ q.(sp_instances) -> i.(pi_desired) = DesiredState.Stopped)
    /\ pi_name <$> q.(sp_instances) = pi_name <$> p.(sp_instances)
    /\ q.(sp_stack) = p.(sp_stack) /\ q.(sp_security) = p.(sp_security)
    /\ stopped q = Ok q.
Proof.
  set (q := with_plan_sha256 (stop_instances p) sha).
  assert (validate_plan q = Ok tt) as Hq by (by apply validate_stopped).
  assert (forall r, with_plan_sha256 (stop_instances r) "" = with_plan_sha256 (stop_instances p) "" ->
            stopped r = Ok q) as Hst.
  { intros r Hr. unfold stopped. rewrite Hr.
    change (plan_computed_sha256 (with_plan_sha256 (stop_instances p) ""))
      with (plan_computed_sha256 (stop_instances p)). rewrite Hsha.
    change (with_plan_sha256 (with_plan_sha256 (stop_instances p) "") sha) with q. by rewrite Hq. }
  exists q. split_and!; try done; [by apply Hst| | |].
  - intros i (j & -> & _)%list_elem_of_fmap. done.
  - cbn. rewrite <- list_fmap_compose. by apply list_fmap_ext.
  - apply Hst. change (stop_instances q) with (with_plan_sha256 (stop_instances (stop_instances p)) sha).
    by rewrite stop_instances_idem.
Qed.

End PlanFacts.

(** An override is respected when it bounds the resulting limit. *)
Definition respects (override : option N) (limit : N) : Prop := forall v, override = Some v -> limit <= v.

(** Applying the limits of an instance to the limits a package requests
    gives valid limits, no larger than the request in any field and no larger
    than any override; a limit without an override is the requested one; and
    the installed package passes the ceiling check of [verify_installed]. *)
Theorem apply_limits_sound (self : InstanceLimits) (requested limits : RuntimeLimits)
    (Hreq : validate_runtime_limits requested = Ok tt)
    (Happly : apply_limits self requested = Ok limits) :
  validate_runtime_limits limits = Ok tt
  /\ limits_le limits requested
  /\ respects self.(il_fuel) limits.(fuel)
  /\ respects self.(il_memory_bytes) limits.(memory_bytes)
  /\ respects self.(il_timeout_ms) limits.(timeout_ms)
  /\ respects self.(il_storage_bytes) limits.(storage_bytes)
  /\ respects self.(il_storage_keys) limits.(storage_keys)
  /\ respects self.(il_storage_value_bytes) limits.(storage_value_bytes)
  /\ respects self.(il_graphics_pixels) limits.(graphics_pixels)
  /\ respects self.(il_graphics_commands) limits.(graphics_commands)
  /\ respects self.(il_audio_nodes) limits.(audio_nodes)
  /\ respects self.(il_audio_events) limits.(audio_events)
  /\ respects self.(il_audio_frames) limits.(audio_frames)
  /\ (self.(il_fuel) = None -> limits.(fuel) = requested.(fuel))
  /\ (self.(il_memory_bytes) = None -> limits.(memory_bytes) = requested.(memory_bytes))
  /\ constrained_by requested limits = limits.
Proof.
  unfold apply_limits, ceiling, map_err in Happly.
  destruct (validate_runtime_limits (mkRuntimeLimits _ _ _ _ _ _ _ _ _ _ _)) as [[]|] eqn:Hc; [|done].
  apply validate_runtime_limits_iff in Hc, Hreq. injection Happly as <-.
  set (c := mkRuntimeLimits _ _ _ _ _ _ _ _ _ _ _) in *.
  pose proof (constrained_by_ok _ _ Hreq Hc) as Hok. pose proof (constrained_by_le requested c) as [Hr Hlc].
  split; [by apply validate_runtime_limits_iff|]. split; [done|].
  destruct (lim_max _ Hreq) as [Hf Hm _ _ _ _ _ _ _ _ _]; cbn in Hf, Hm.
  split_and!; try (intros v Hv; cbn; rewrite Hv; cbn; lia).
  - intros Hn. cbn. rewrite Hn. cbn. lia.
  - intros Hn. cbn. rewrite Hn. cbn. lia.
  - apply constrained_by_fixed; [apply (lim_value _ Hok)|done].
Qed.

(** ** A concrete plan *)
Definition no_overrides : InstanceLimits :=
  mkInstanceLimits None None None None None None None None None None None.
Definition demo_instance (name : string) (replicas : N) (restart : RestartPolicy)
    (health : option HealthProbeSpec) : PlannedInstance :=
  mkPlannedInstance name "dev.example.root" "1.2.3" zero_digest 4096 replicas DesiredState.Running
    restart 2 {[Clock; Http; Storage]} {[Storage]} ∅ {[Clock; Storage]} {[Http]} ["--port"; "80"]
    {["token"]} default_limits health default_policy demo_lock.
Definition demo_plan (restart : RestartPolicy) (health : option HealthProbeSpec) : StackPlan :=
  mkStackPlan 4 "shop" (mkPlannedSecurity Balanced Required)
    [demo_instance "api" 2 restart health; demo_instance "web" 1 restart None]
    [mkPlannedResource "data" State "api" Retain (Some 1024)] [mkPlannedSecret "token" true]
    ["api has denied requested capabilities: http"] zero_digest.

Section Witnesses.
#[local] Existing Instance demo_externals.
#[local] Instance plan_json : Json StackPlan := demo_json.

Lemma demo_plan_valid restart : validate_plan (demo_plan restart None) = Ok tt.
Proof. destruct restart; vm_compute; reflexivity. Qed.

Lemma plan_capabilities_sound_witness :
  validate_plan (demo_plan OnFailure None) = Ok tt
  /\ ({[Clock; Storage]} : Capabilities) ⊆ {[Storage]} ∪ balanced_capabilities.
Proof.
  assert (validate_plan (demo_plan OnFailure None) = Ok tt) as Hv by (vm_compute; reflexivity).
  split; [exact Hv|].
  apply (plan_capabilities_sound (demo_plan OnFailure None) (demo_instance "api" 2 OnFailure None) Hv);
    [left|reflexivity].
Defined.

Lemma plan_bounded_and_closed_witness :
  validate_plan (demo_plan Always (Some default_health)) = Ok tt
  /\ sumN (pi_replicas <$> sp_instances (demo_plan Always (Some default_health))) <= 256.
Proof.
  assert (validate_plan (demo_plan Always (Some default_health)) = Ok tt) as Hv
    by (vm_compute; reflexivity).
  split; [exact Hv|]. apply (plan_bounded_and_closed (demo_plan Always (Some default_health)) Hv).
Defined.

Lemma stopped_plan_valid_witness :
  exists q, stopped (demo_plan Never None) = Ok q /\ stopped q = Ok q.
Proof.
  destruct (stopped_plan_valid (demo_plan Never None) zero_digest) as (q & Hq & _ & _ & _ & _ & _ & Hs);
    [vm_compute; reflexivity..|]. exists q. split; [exact Hq|exact Hs].
Defined.

Lemma apply_limits_sound_witness :
  exists l, apply_limits no_overrides default_limits = Ok l /\ limits_le l default_limits.
Proof.
  exists default_limits. split; [vm_compute; reflexivity|].
  apply (apply_limits_sound no_overrides default_limits default_limits); vm_compute; reflexivity.
Defined.
End Witnesses.
