(* ===== verification/Supervisor.v ===== *)
(** * Replica supervision ([crates/cartridge-engine/src/supervisor.rs])

    The runtime status of a stack generation: one record per planned replica
    with its phase, run identity, restart budget and application probe.  Every
    method that takes [&mut self] is a function from the status to the new
    status and the result; a method that fails after a write keeps the write. *)
From S2P Require Import Prelude Text Core Rolling Plan.

Definition SUPERVISOR_STATUS_FORMAT_VERSION : N := 2.
Definition LEGACY_SUPERVISOR_STATUS_FORMAT_VERSION : N := 1.
Definition MAX_RESTART_BACKOFF_MS : N := 30000.
Definition MIN_RESTART_BACKOFF_MS : N := 250.

(** ** Data *)
Record ReplicaId := mkReplicaId { instance : string; ordinal : N }.
#[global] Instance replica_id_eq_dec : EqDecision ReplicaId.
Proof. solve_decision. Defined.
#[global] Instance replica_id_countable : Countable ReplicaId :=
  inj_countable' (fun i => (i.(instance), i.(ordinal))) (fun '(a, b) => mkReplicaId a b)
    (fun i => match i with mkReplicaId a b => eq_refl end).

Module ReplicaPhase.
Inductive ReplicaPhase :=
| Pending | Starting | Running | Backoff | Succeeded | Failed | Exhausted | Stopped.
#[global] Instance eq_dec : EqDecision ReplicaPhase.
Proof. solve_decision. Defined.
End ReplicaPhase.
Abbreviation ReplicaPhase := ReplicaPhase.ReplicaPhase.

Module ProbePhase.
Inductive ProbePhase := Waiting | Ready | Unhealthy.
#[global] Instance eq_dec : EqDecision ProbePhase.
Proof. solve_decision. Defined.
End ProbePhase.
Abbreviation ProbePhase := ProbePhase.ProbePhase.

(** [ProbeSignalKind] of [probe.rs]. *)
Module ProbeSignalKind.
Inductive ProbeSignalKind := Started | Ready | Heartbeat | Unhealthy.
End ProbeSignalKind.
Abbreviation ProbeSignalKind := ProbeSignalKind.ProbeSignalKind.

Record ReplicaProbeRuntime := mkProbe {
  probe_phase : ProbePhase;
  last_sequence : N;
  last_signal_at_ms : option N;
  ready_at_ms : option N;
  consecutive_failures : N;
}.
#[global] Instance probe_eq_dec : EqDecision ReplicaProbeRuntime.
Proof. solve_decision. Defined.

Record ReplicaRuntime := mkReplica {
  id : ReplicaId;
  desired : DesiredState;
  restart : RestartPolicy;
  max_restarts : N;
  attempt : N;
  phase : ReplicaPhase;
  run_id : option string;
  started_at_ms : option N;
  finished_at_ms : option N;
  next_start_at_ms : option N;
  last_exit_code : option Z;
  detail : option string;
  probe : option ReplicaProbeRuntime;
}.
#[global] Instance replica_eq_dec : EqDecision ReplicaRuntime.
Proof. solve_decision. Defined.

Record StackRuntimeStatus := mkStatus {
  format_version : N;
  stack : string;
  revision : N;
  generation : string;
  observed_at_ms : N;
  replicas : list ReplicaRuntime;
  status_sha256 : string;
}.
#[global] Instance status_eq_dec : EqDecision StackRuntimeStatus.
Proof. solve_decision. Defined.

Definition with_status_sha256 (self : StackRuntimeStatus) (sha : string) : StackRuntimeStatus :=
  mkStatus self.(format_version) self.(stack) self.(revision) self.(generation)
    self.(observed_at_ms) self.(replicas) sha.
Definition with_replicas (self : StackRuntimeStatus) (l : list ReplicaRuntime) :
    StackRuntimeStatus :=
  mkStatus self.(format_version) self.(stack) self.(revision) self.(generation)
    self.(observed_at_ms) l self.(status_sha256).
Definition with_observed (self : StackRuntimeStatus) (now_ms : N) : StackRuntimeStatus :=
  mkStatus self.(format_version) self.(stack) self.(revision) self.(generation) now_ms
    self.(replicas) self.(status_sha256).

(** Derived [Ord] of [ReplicaId]. *)
Definition id_lt (a b : ReplicaId) : bool :=
  str_lt a.(instance) b.(instance)
  || (bool_decide (a.(instance) = b.(instance)) && (a.(ordinal) <? b.(ordinal))).

Definition pristine_probe : ReplicaProbeRuntime := mkProbe ProbePhase.Waiting 0 None None 0.

(** ** Validation *)
Definition phase_is (r : ReplicaRuntime) (p : ReplicaPhase) : bool := bool_decide (r.(phase) = p).
(** [matches!(replica.phase, Starting | Running)] *)
Definition is_active (r : ReplicaRuntime) : bool :=
  phase_is r ReplicaPhase.Starting || phase_is r ReplicaPhase.Running.

Definition validate_probe_runtime (self : ReplicaProbeRuntime) (replica_phase : ReplicaPhase) :
    result string unit :=
  let phase_eq p := bool_decide (self.(probe_phase) = p) in
  let pristine := (self.(last_sequence) =? 0) && is_none self.(last_signal_at_ms)
                  && is_none self.(ready_at_ms) && (self.(consecutive_failures) =? 0)
                  && phase_eq ProbePhase.Waiting in
  let observed := (0 <? self.(last_sequence)) && is_some self.(last_signal_at_ms) in
  if (negb pristine && negb observed)
     || (MAX_PROBE_FAILURE_THRESHOLD <? self.(consecutive_failures))
     || (phase_eq ProbePhase.Ready && negb (self.(consecutive_failures) =? 0))
     || (phase_eq ProbePhase.Ready && is_none self.(ready_at_ms))
     || (negb (phase_eq ProbePhase.Ready) && is_some self.(ready_at_ms))
     || (phase_eq ProbePhase.Unhealthy && (self.(consecutive_failures) =? 0))
     || match self.(ready_at_ms), self.(last_signal_at_ms) with
        | Some ready, Some signal => signal <? ready
        | _, _ => false
        end
     || (bool_decide (replica_phase = ReplicaPhase.Running) && phase_eq ProbePhase.Waiting)
     || (bool_decide (replica_phase = ReplicaPhase.Starting) && phase_eq ProbePhase.Ready)
  then Err "runtime application health state is invalid" else Ok tt.

Definition DRAINED : string := "drained by rollout".

Definition validate_replica (replica : ReplicaRuntime) : result string unit :=
  if negb (valid_name replica.(id).(instance))
     || (replica.(id).(ordinal) =? 0)
     || (MAX_STACK_RESTARTS <? replica.(max_restarts))
     || (replica.(max_restarts) + 1 <? replica.(attempt))
     || is_some_and (fun value => negb (valid_text value 512 false)) replica.(detail)
  then Err "runtime replica is invalid"
  else
    let? _ := match replica.(probe) with
              | Some probe => validate_probe_runtime probe replica.(phase)
              | None => Ok tt
              end in
    let active := is_active replica in
    let waiting := phase_is replica ReplicaPhase.Backoff in
    let pending := phase_is replica ReplicaPhase.Pending in
    let stopped := phase_is replica ReplicaPhase.Stopped in
    let planned_stopped :=
      stopped && bool_decide (replica.(desired) = DesiredState.Stopped)
      && (replica.(attempt) =? 0) && is_none replica.(run_id) && is_none replica.(started_at_ms)
      && is_none replica.(finished_at_ms) && is_none replica.(next_start_at_ms)
      && is_none replica.(last_exit_code) && is_none replica.(detail) in
    let drained :=
      stopped && bool_decide (replica.(desired) = DesiredState.Running)
      && is_none replica.(run_id) && is_some replica.(finished_at_ms)
      && is_none replica.(next_start_at_ms) && is_none replica.(last_exit_code)
      && bool_decide (replica.(detail) = Some DRAINED)
      && Bool.eqb (replica.(attempt) =? 0) (is_none replica.(started_at_ms)) in
    let terminal := phase_is replica ReplicaPhase.Succeeded || phase_is replica ReplicaPhase.Failed
                    || phase_is replica ReplicaPhase.Exhausted in
    let policy_phase_is_valid :=
      match replica.(phase) with
      | ReplicaPhase.Backoff | ReplicaPhase.Exhausted =>
          negb (bool_decide (replica.(restart) = Never))
      | ReplicaPhase.Succeeded => negb (bool_decide (replica.(restart) = Always))
      | ReplicaPhase.Failed => bool_decide (replica.(restart) = Never)
      | _ => true
      end in
    if (active && ((replica.(attempt) =? 0)
                   || is_none_or (fun value => negb (is_digest value)) replica.(run_id)
                   || is_none replica.(started_at_ms) || is_some replica.(finished_at_ms)
                   || is_some replica.(next_start_at_ms) || is_some replica.(last_exit_code)
                   || is_some replica.(detail)))
       || (waiting && ((replica.(attempt) =? 0) || is_some replica.(run_id)
                       || is_none replica.(started_at_ms) || is_none replica.(finished_at_ms)
                       || is_none replica.(next_start_at_ms) || is_none replica.(detail)))
       || (pending && (negb (replica.(attempt) =? 0) || is_some replica.(run_id)
                       || is_some replica.(started_at_ms) || is_some replica.(finished_at_ms)
                       || is_some replica.(next_start_at_ms) || is_some replica.(last_exit_code)
                       || is_some replica.(detail)))
       || (stopped && negb planned_stopped && negb drained)
       || (bool_decide (replica.(desired) = DesiredState.Stopped) && negb planned_stopped)
       || (terminal && ((replica.(attempt) =? 0) || is_none replica.(started_at_ms)
                        || is_none replica.(finished_at_ms) || is_some replica.(next_start_at_ms)
                        || is_none replica.(detail)))
       || (negb active && negb waiting && negb pending && is_some replica.(run_id))
       || negb policy_phase_is_valid
       || match replica.(finished_at_ms), replica.(started_at_ms) with
          | Some finished, Some started => finished <? started
          | _, _ => false
          end
       || match replica.(next_start_at_ms), replica.(finished_at_ms) with
          | Some next, Some finished => next <=? finished
          | _, _ => false
          end
    then Err "runtime replica phase fields are inconsistent" else Ok tt.

Fixpoint check_replicas (ids : gset ReplicaId) (previous : option ReplicaId)
    (l : list ReplicaRuntime) : result string unit :=
  match l with
  | [] => Ok tt
  | replica :: l =>
      let? _ := validate_replica replica in
      if is_some_and (fun value => negb (id_lt value replica.(id))) previous
         || bool_decide (replica.(id) ∈ ids)
      then Err "runtime replicas are not strictly sorted"
      else check_replicas ({[replica.(id)]} ∪ ids) (Some replica.(id)) l
  end.

Section Supervisor.
Context `{Ext : Externals} `{JP : !Json StackPlan} `{JS : !Json StackRuntimeStatus}.

Definition status_computed_sha256 (self : StackRuntimeStatus) : result string string :=
  let? bytes := to_vec (with_status_sha256 self "") in
  Ok (hex_sha256 bytes).

Definition validate_status (self : StackRuntimeStatus) : result string unit :=
  if negb ((self.(format_version) =? LEGACY_SUPERVISOR_STATUS_FORMAT_VERSION)
           || (self.(format_version) =? SUPERVISOR_STATUS_FORMAT_VERSION))
     || ((self.(format_version) =? LEGACY_SUPERVISOR_STATUS_FORMAT_VERSION)
         && existsb (fun replica => is_some replica.(probe)) self.(replicas))
     || negb (valid_name self.(stack))
     || (self.(revision) =? 0)
     || negb (is_digest self.(generation))
     || (self.(observed_at_ms) =? 0)
     || (MAX_STACK_TOTAL_REPLICAS <? len self.(replicas))
     || negb (is_digest self.(status_sha256))
  then Err "runtime status identity is invalid"
  else
    let? sha := status_computed_sha256 self in
    if negb (bool_decide (sha = self.(status_sha256))) then Err "runtime status identity is invalid"
    else check_replicas ∅ None self.(replicas).

Definition refresh (self : StackRuntimeStatus) : StackRuntimeStatus * result string unit :=
  let self := with_status_sha256 self "" in
  let! sha := status_computed_sha256 self on self in
  let self := with_status_sha256 self sha in
  (self, validate_status self).

(** ** Construction *)
Definition planned_replica (i : PlannedInstance) (ordinal : N) : ReplicaRuntime :=
  let running := bool_decide (i.(pi_desired) = DesiredState.Running) in
  mkReplica (mkReplicaId i.(pi_name) ordinal) i.(pi_desired) i.(pi_restart) i.(pi_max_restarts) 0
    (if running then ReplicaPhase.Pending else ReplicaPhase.Stopped)
    None None None None None None
    (if running then (fun _ => pristine_probe) <$> i.(pi_health) else None).

Definition planned_replicas (plan : StackPlan) : list ReplicaRuntime :=
  concat ((fun i => planned_replica i <$> ordinals_to i.(pi_replicas)) <$> plan.(sp_instances)).

Definition from_plan (plan : StackPlan) (revision : N) (generation : string) (now_ms : N) :
    result string StackRuntimeStatus :=
  let? _ := validate_plan plan in
  if (revision =? 0) || negb (is_digest generation) || (now_ms =? 0)
  then Err "runtime generation identity is invalid"
  else
    let value := mkStatus SUPERVISOR_STATUS_FORMAT_VERSION plan.(sp_stack) revision generation
                   now_ms (planned_replicas plan) "" in
    match refresh value with
    | (value, Ok _) => Ok value
    | (_, Err e) => Err e
    end.

Definition replica_mismatch (actual expected : ReplicaRuntime) : bool :=
  negb (bool_decide (actual.(id) = expected.(id)))
  || negb (bool_decide (actual.(desired) = expected.(desired)))
  || negb (bool_decide (actual.(restart) = expected.(restart)))
  || negb (actual.(max_restarts) =? expected.(max_restarts))
  || negb (Bool.eqb (is_some actual.(probe)) (is_some expected.(probe))).

Definition validate_against (self : StackRuntimeStatus) (plan : StackPlan) (rev : N) (gen : string) :
    result string unit :=
  let? _ := validate_status self in
  let? expected := from_plan plan rev gen self.(observed_at_ms) in
  if negb (bool_decide (self.(stack) = expected.(stack)))
     || negb (self.(revision) =? rev)
     || negb (bool_decide (self.(generation) = gen))
     || negb (len self.(replicas) =? len expected.(replicas))
     || existsb (fun '(actual, expected) => replica_mismatch actual expected)
          (zip self.(replicas) expected.(replicas))
  then Err "runtime status does not match the desired generation" else Ok tt.

(** ** Transitions *)
(** A pending replica, or one whose backoff is over. *)
Definition startable (replica : ReplicaRuntime) (now_ms : N) : bool :=
  match replica.(phase) with
  | ReplicaPhase.Pending => true
  | ReplicaPhase.Backoff => is_some_and (fun deadline => deadline <=? now_ms) replica.(next_start_at_ms)
  | _ => false
  end.

Definition eligible_starts (self : StackRuntimeStatus) (now_ms : N) : list ReplicaId :=
  id <$> List.filter (fun replica => bool_decide (replica.(desired) = DesiredState.Running)
                                     && startable replica now_ms) self.(replicas).

Definition has_id (i : ReplicaId) (replica : ReplicaRuntime) : bool := bool_decide (replica.(id) = i).

Definition replica_mut (self : StackRuntimeStatus) (i : ReplicaId) : result string ReplicaRuntime :=
  ok_or (List.find (has_id i) self.(replicas)) "replica is not part of this runtime generation".
(** Write the replica borrowed by [replica_mut]. *)
Definition set_replica (self : StackRuntimeStatus) (i : ReplicaId) (r : ReplicaRuntime) :
    StackRuntimeStatus :=
  with_replicas self (update_first (has_id i) (fun _ => r) self.(replicas)).

Definition started_replica (r : ReplicaRuntime) (run : string) (attempt now_ms : N) : ReplicaRuntime :=
  mkReplica r.(id) r.(desired) r.(restart) r.(max_restarts) attempt ReplicaPhase.Starting (Some run)
    (Some now_ms) None None None None ((fun _ => pristine_probe) <$> r.(probe)).

Definition begin_start (self : StackRuntimeStatus) (i : ReplicaId) (run : string) (now_ms : N) :
    StackRuntimeStatus * result string N :=
  if negb (is_digest run) || (now_ms <? self.(observed_at_ms))
  then (self, Err "replica run identity is invalid")
  else
    let! r := replica_mut self i on self in
    if negb (startable r now_ms) || negb (bool_decide (r.(desired) = DesiredState.Running))
    then (self, Err "replica is not eligible to start")
    else
      let! attempt := ok_or (checked_add u16_max r.(attempt) 1) "replica attempt counter overflow"
        on self in
      if r.(max_restarts) + 1 <? attempt then (self, Err "replica restart budget is exhausted")
      else
        let self := set_replica self i (started_replica r run attempt now_ms) in
        let self := with_observed self now_ms in
        let (self, res) := refresh self in
        let! _ := res on self in
        (self, Ok attempt).

Definition set_phase (r : ReplicaRuntime) (p : ReplicaPhase) (pr : option ReplicaProbeRuntime) :
    ReplicaRuntime :=
  mkReplica r.(id) r.(desired) r.(restart) r.(max_restarts) r.(attempt) p r.(run_id)
    r.(started_at_ms) r.(finished_at_ms) r.(next_start_at_ms) r.(last_exit_code) r.(detail) pr.

Definition mark_running (self : StackRuntimeStatus) (i : ReplicaId) (run : string) (now_ms : N) :
    StackRuntimeStatus * result string unit :=
  if now_ms <? self.(observed_at_ms)
  then (self, Err "runtime observation time cannot move backwards")
  else
    let! r := replica_mut self i on self in
    if negb (phase_is r ReplicaPhase.Starting) || negb (bool_decide (r.(run_id) = Some run))
    then (self, Err "stale or unexpected replica start acknowledgement")
    else if is_some r.(probe)
    then (self, Err "probe-gated replica requires an application ready signal")
    else
      let self := set_replica self i (set_phase r ReplicaPhase.Running r.(probe)) in
      refresh (with_observed self now_ms).

Definition mark_probe_signal (self : StackRuntimeStatus) (i : ReplicaId) (run : string)
    (sequence : N) (kind : ProbeSignalKind) (now_ms : N) : StackRuntimeStatus * result string unit :=
  if now_ms <? self.(observed_at_ms)
  then (self, Err "runtime observation time cannot move backwards")
  else
    let! r := replica_mut self i on self in
    if negb (is_active r) || negb (bool_decide (r.(run_id) = Some run))
    then (self, Err "stale or unexpected application health signal")
    else
      let! p := ok_or r.(probe) "replica does not require application health signals" on self in
      if sequence <=? p.(last_sequence)
      then (self, Err "application health signal was replayed or reordered")
      else
        match kind with
        | ProbeSignalKind.Started | ProbeSignalKind.Heartbeat =>
            let p := mkProbe p.(probe_phase) sequence (Some now_ms) p.(ready_at_ms)
                       p.(consecutive_failures) in
            refresh (with_observed (set_replica self i (set_phase r r.(phase) (Some p))) now_ms)
        | ProbeSignalKind.Ready =>
            let p := mkProbe ProbePhase.Ready sequence (Some now_ms) (Some now_ms) 0 in
            refresh (with_observed (set_replica self i (set_phase r ReplicaPhase.Running (Some p)))
                       now_ms)
        | ProbeSignalKind.Unhealthy =>
            let sick failures := mkProbe ProbePhase.Unhealthy sequence (Some now_ms) None failures in
            let write failures := set_replica self i (set_phase r r.(phase) (Some (sick failures))) in
            let! failures := ok_or (checked_add u16_max p.(consecutive_failures) 1)
                               "application health failure counter overflow"
              on write p.(consecutive_failures) in
            if MAX_PROBE_FAILURE_THRESHOLD <? failures
            then (write failures, Err "application health failure counter exceeded its limit")
            else refresh (with_observed (write failures) now_ms)
        end.

Definition mark_probe_timeout (self : StackRuntimeStatus) (i : ReplicaId) (run : string) (now_ms : N) :
    StackRuntimeStatus * result string N :=
  if now_ms <? self.(observed_at_ms)
  then (self, Err "runtime observation time cannot move backwards")
  else
    let! r := replica_mut self i on self in
    if negb (is_active r) || negb (bool_decide (r.(run_id) = Some run))
    then (self, Err "stale or unexpected application health timeout")
    else
      let! p := ok_or r.(probe) "replica does not require application health signals" on self in
      let timed_out failures :=
        mkProbe ProbePhase.Unhealthy p.(last_sequence) p.(last_signal_at_ms) None failures in
      let write failures := set_replica self i (set_phase r r.(phase) (Some (timed_out failures))) in
      let! failures := ok_or (checked_add u16_max p.(consecutive_failures) 1)
                         "application health failure counter overflow"
        on write p.(consecutive_failures) in
      if MAX_PROBE_FAILURE_THRESHOLD <? failures
      then (write failures, Err "application health failure counter exceeded its limit")
      else
        let (self, res) := refresh (with_observed (write failures) now_ms) in
        let! _ := res on self in
        (self, Ok failures).

Definition probe_ready (self : StackRuntimeStatus) (i : ReplicaId) : bool :=
  is_some_and (fun r => is_none_or (fun p => bool_decide (p.(probe_phase) = ProbePhase.Ready)) r.(probe))
    (List.find (has_id i) self.(replicas)).

(** [u16::to_le_bytes] and [u16::from_le_bytes] *)
Definition le_bytes (v : N) : bytes :=
  [default x00 (Byte.of_N (v mod 256)); default x00 (Byte.of_N (v / 256 mod 256))].
Definition from_le_bytes (lo hi : byte) : N := Byte.to_N lo + 256 * Byte.to_N hi.
Definition restart_backoff_ms (i : ReplicaId) (attempt : N) : N :=
  let shift := N.min (attempt - 1) 7 in
  let base := N.min (saturating_mul u64_max MIN_RESTART_BACKOFF_MS (N.shiftl 1 shift))
                MAX_RESTART_BACKOFF_MS in
  let digest := sha256 (as_bytes i.(instance) ++ le_bytes i.(ordinal) ++ le_bytes attempt) in
  let jitter := from_le_bytes (default x00 (digest !! 0%nat)) (default x00 (digest !! 1%nat))
                  mod (base / 4 + 1) in
  N.min (saturating_add u64_max base jitter) MAX_RESTART_BACKOFF_MS.

Definition finish_replica (r : ReplicaRuntime) (success : bool) (exit_code : option Z)
    (text : string) (now_ms : N) : ReplicaRuntime :=
  let again :=
    match r.(restart) with Never => false | OnFailure => negb success | Always => true end in
  let restart_available := r.(attempt) <? r.(max_restarts) + 1 in
  let finish p next :=
    mkReplica r.(id) r.(desired) r.(restart) r.(max_restarts) r.(attempt) p None
      r.(started_at_ms) (Some now_ms) next exit_code (Some text) r.(probe) in
  if again && restart_available then
    finish ReplicaPhase.Backoff
      (Some (saturating_add u64_max now_ms (restart_backoff_ms r.(id) r.(attempt))))
  else
    finish (if again then ReplicaPhase.Exhausted
            else if success then ReplicaPhase.Succeeded else ReplicaPhase.Failed) None.

Definition mark_exit (self : StackRuntimeStatus) (i : ReplicaId) (run : string) (success : bool)
    (exit_code : option Z) (text : string) (now_ms : N) : StackRuntimeStatus * result string unit :=
  if negb (valid_text text 512 false) || (now_ms <? self.(observed_at_ms))
  then (self, Err "replica exit detail is invalid")
  else
    let! r := replica_mut self i on self in
    if negb (is_active r) || negb (bool_decide (r.(run_id) = Some run))
    then (self, Err "stale or unexpected replica exit")
    else
      let self := set_replica self i (finish_replica r success exit_code text now_ms) in
      refresh (with_observed self now_ms).

Definition drained_replica (r : ReplicaRuntime) (now_ms : N) : ReplicaRuntime :=
  mkReplica r.(id) r.(desired) r.(restart) r.(max_restarts) r.(attempt) ReplicaPhase.Stopped None
    r.(started_at_ms) (Some now_ms) None None (Some DRAINED) r.(probe).

Definition mark_drained (self : StackRuntimeStatus) (i : ReplicaId) (run : option string) (now_ms : N) :
    StackRuntimeStatus * result string unit :=
  if now_ms <? self.(observed_at_ms)
  then (self, Err "runtime observation time cannot move backwards")
  else
    let! r := replica_mut self i on self in
    let active := is_active r in
    if negb (bool_decide (r.(desired) = DesiredState.Running))
       || phase_is r ReplicaPhase.Stopped
       || negb (Bool.eqb active (is_some run))
       || (active && negb (bool_decide (r.(run_id) = run)))
    then (self, Err "stale or unexpected replica drain")
    else
      let self := set_replica self i (drained_replica r now_ms) in
      refresh (with_observed self now_ms).

Definition recover_replica (now_ms : N) (r : ReplicaRuntime) : ReplicaRuntime :=
  if is_active r
  then finish_replica r false None "previous supervisor exited before the worker" now_ms
  else r.

Definition recover_interrupted (self : StackRuntimeStatus) (now_ms : N) :
    StackRuntimeStatus * result string N :=
  if now_ms <? self.(observed_at_ms)
  then (self, Err "runtime observation time cannot move backwards")
  else
    let recovered := len (List.filter is_active self.(replicas)) in
    let self := with_replicas self (recover_replica now_ms <$> self.(replicas)) in
    if 0 <? recovered then
      let (self, res) := refresh (with_observed self now_ms) in
      let! _ := res on self in
      (self, Ok recovered)
    else (self, Ok recovered).

Definition heartbeat (self : StackRuntimeStatus) (now_ms : N) :
    StackRuntimeStatus * result string unit :=
  if now_ms <? self.(observed_at_ms)
  then (self, Err "runtime observation time cannot move backwards")
  else refresh (with_observed self now_ms).

End Supervisor.
