(* ===== verification/SupervisorSpec.v ===== *)
(** * Properties of replica supervision

    A declarative reading of the validation of [Supervisor], the invariant of
    the statuses a supervisor can reach, and the theorems about restart
    budgets, run fencing, probes, backoff and recovery. *)
From S2P Require Import Prelude Text Core Rolling Plan Supervisor.

(** ** Declarative validation *)
Record replica_ok (r : ReplicaRuntime) : Prop := {
  ro_name : valid_name r.(id).(instance) = true;
  ro_ordinal : r.(id).(ordinal) <> 0;
  ro_restarts : r.(max_restarts) <= MAX_STACK_RESTARTS;
  ro_attempt : r.(attempt) <= r.(max_restarts) + 1;
  ro_detail : forall d, r.(detail) = Some d -> valid_text d 512 false = true;
  ro_probe : forall p, r.(probe) = Some p -> validate_probe_runtime p r.(phase) = Ok tt;
  ro_phase :
    match r.(phase) with
    | ReplicaPhase.Pending =>
        r.(desired) = DesiredState.Running /\ r.(attempt) = 0 /\ r.(run_id) = None
        /\ r.(started_at_ms) = None /\ r.(finished_at_ms) = None /\ r.(next_start_at_ms) = None
        /\ r.(last_exit_code) = None /\ r.(detail) = None
    | ReplicaPhase.Starting | ReplicaPhase.Running =>
        r.(desired) = DesiredState.Running /\ r.(attempt) <> 0
        /\ (exists run, r.(run_id) = Some run /\ is_digest run = true)
        /\ (exists t, r.(started_at_ms) = Some t) /\ r.(finished_at_ms) = None
        /\ r.(next_start_at_ms) = None /\ r.(last_exit_code) = None /\ r.(detail) = None
    | ReplicaPhase.Backoff =>
        r.(desired) = DesiredState.Running /\ r.(attempt) <> 0 /\ r.(run_id) = None
        /\ r.(restart) <> Never /\ r.(detail) <> None
        /\ exists st fi nx, r.(started_at_ms) = Some st /\ r.(finished_at_ms) = Some fi
             /\ r.(next_start_at_ms) = Some nx /\ st <= fi /\ fi < nx
    | ReplicaPhase.Stopped =>
        r.(run_id) = None /\ r.(next_start_at_ms) = None /\ r.(last_exit_code) = None
        /\ ((r.(desired) = DesiredState.Stopped /\ r.(attempt) = 0 /\ r.(started_at_ms) = None
             /\ r.(finished_at_ms) = None /\ r.(detail) = None)
            \/ (r.(desired) = DesiredState.Running /\ r.(detail) = Some DRAINED
                /\ (r.(attempt) = 0 <-> r.(started_at_ms) = None)
                /\ exists fi, r.(finished_at_ms) = Some fi
                     /\ forall st, r.(started_at_ms) = Some st -> st <= fi))
    | ReplicaPhase.Succeeded | ReplicaPhase.Failed | ReplicaPhase.Exhausted =>
        r.(desired) = DesiredState.Running /\ r.(attempt) <> 0 /\ r.(run_id) = None
        /\ r.(next_start_at_ms) = None /\ r.(detail) <> None
        /\ match r.(phase) with
           | ReplicaPhase.Succeeded => r.(restart) <> Always
           | ReplicaPhase.Failed => r.(restart) = Never
           | _ => r.(restart) <> Never
           end
        /\ exists st fi, r.(started_at_ms) = Some st /\ r.(finished_at_ms) = Some fi /\ st <= fi
    end;
}.

(** Evaluate decisions on constructors. *)
Ltac decide_constructors :=
  repeat match goal with
  | H : context [bool_decide (?a = ?b)] |- _ =>
      first [ rewrite (bool_decide_eq_true_2 (a = b)) in H by reflexivity
            | rewrite (bool_decide_eq_false_2 (a = b)) in H by discriminate ]
  | |- context [bool_decide (?a = ?b)] =>
      first [ rewrite (bool_decide_eq_true_2 (a = b)) by reflexivity
            | rewrite (bool_decide_eq_false_2 (a = b)) by discriminate ]
  end.
Ltac opt_cases :=
  repeat match goal with
  | H : context [is_none ?o] |- _ => destruct o; cbn in H; try discriminate H
  | H : context [is_some ?o] |- _ => destruct o; cbn in H; try discriminate H
  | H : context [is_none_or _ ?o] |- _ => destruct o; cbn in H; try discriminate H
  end.

Lemma validate_replica_sound r : validate_replica r = Ok tt -> replica_ok r.
Proof.
  unfold validate_replica. pass Hg.
  destruct (match probe r with Some _ => _ | None => _ end) as [[]|] eqn:Hp; [|discriminate].
  match goal with |- (if ?b then _ else _) = _ -> _ => destruct b eqn:Hf; [intros; discriminate|] end.
  intros _. revert Hf. apply orb_false_iff in Hg as [Hg Hd]. split_guard. intros Hf.
  constructor; try done.
  - intros d Hde. rewrite Hde in Hd. cbn in Hd. by bprop.
  - intros p Hpr. by rewrite Hpr in Hp.
  - destruct r as [i d rs mr at_ ph ru st fi nx ex de pr].
    unfold is_active, phase_is in *. cbn [id desired restart max_restarts attempt phase run_id
      started_at_ms finished_at_ms next_start_at_ms last_exit_code detail probe] in *. clear Hp Hd.
    destruct ph, d; decide_constructors; cbn in Hf; try discriminate Hf; split_guard; opt_cases;
      try discriminate; try (destruct (N.eqb_spec at_ 0); try discriminate); bprop; naive_solver.
Qed.

Lemma validate_replica_complete r : replica_ok r -> validate_replica r = Ok tt.
Proof.
  intros [Hn Ho Hr Ha Hd Hp Hph]. unfold validate_replica, is_active, phase_is.
  rewrite Hn. destruct (N.eqb_spec (ordinal (id r)) 0); [lia|].
  destruct (N.ltb_spec MAX_STACK_RESTARTS (max_restarts r)); [lia|].
  destruct (N.ltb_spec (max_restarts r + 1) (attempt r)); [lia|]. cbn.
  replace (is_some_and (fun value => negb (valid_text value 512 false)) (detail r)) with false.
  2:{ destruct (detail r) as [d|]; [|done]. cbn. by rewrite (Hd d). }
  assert (match probe r with Some p => validate_probe_runtime p (phase r) | None => Ok tt end = Ok tt)
    as -> by (destruct (probe r); auto). clear Hp Hd Ha Hr.
  destruct r as [i d rs mr at_ ph ru st fi nx ex de pr]. cbn in *.
  destruct ph; destruct_and?; simplify_eq; try (match goal with H : _ \/ _ |- _ => destruct H end);
    repeat (destruct_and?; match goal with H : exists _, _ |- _ => destruct H end);
    destruct_and?; simplify_eq; decide_constructors; cbn;
    repeat match goal with |- context [?a =? ?b] => destruct (N.eqb_spec a b); [try done|] end;
    try lia; cbn; try done;
    try (rewrite bool_decide_eq_false_2 by done);
    try (match goal with H : is_digest _ = true |- _ => by rewrite H end);
    try (destruct de; [|done]);
    try (match goal with H : _ <-> st = None |- _ => destruct H as [H1 H2]; destruct st;
           [try discriminate (H1 eq_refl)|try (specialize (H2 eq_refl); lia)] end); cbn;
    repeat match goal with
    | |- context [?a <? ?b] => destruct (N.ltb_spec a b); [exfalso|]
    | |- context [?a <=? ?b] => destruct (N.leb_spec a b); [lia|]
    end; try lia; try reflexivity.
  { discriminate (H1 e). }
   match goal with H : forall st, _ -> st <= _ |- _ => specialize (H _ eq_refl) end. lia.
Qed.

Lemma validate_replica_iff r : validate_replica r = Ok tt <-> replica_ok r.
Proof. split; [apply validate_replica_sound|apply validate_replica_complete]. Qed.

(** ** Probes *)
Record probe_ok (p : ReplicaProbeRuntime) (ph : ReplicaPhase) : Prop := {
  pk_seen : p = pristine_probe \/ (0 < p.(last_sequence) /\ p.(last_signal_at_ms) <> None);
  pk_failures : p.(consecutive_failures) <= MAX_PROBE_FAILURE_THRESHOLD;
  pk_phase : match p.(probe_phase) with
             | ProbePhase.Waiting => p.(ready_at_ms) = None /\ ph <> ReplicaPhase.Running
             | ProbePhase.Ready => p.(consecutive_failures) = 0 /\ p.(ready_at_ms) <> None
                                   /\ ph <> ReplicaPhase.Starting
             | ProbePhase.Unhealthy => p.(consecutive_failures) <> 0 /\ p.(ready_at_ms) = None
             end;
  pk_order : forall ready signal, p.(ready_at_ms) = Some ready ->
               p.(last_signal_at_ms) = Some signal -> ready <= signal;
}.

Lemma validate_probe_sound p ph : validate_probe_runtime p ph = Ok tt -> probe_ok p ph.
Proof.
  unfold validate_probe_runtime, pristine_probe. destruct p as [pp sq sg rd cf]. cbn.
  pass Hf. intros _. constructor; cbn.
  - repeat (apply orb_false_iff in Hf as [Hf _]). apply andb_false_iff in Hf as [Hf|Hf]; bprop.
    + left. opt_cases. by subst.
    + right. split; [done|]. by destruct sg.
  - split_guard. done.
  - destruct pp; decide_constructors; cbn in Hf; split_guard; destruct rd; try discriminate;
      split_and?; try done; naive_solver.
  - intros ready signal -> ->. split_guard. done.
Qed.

Lemma validate_probe_complete p ph : probe_ok p ph -> validate_probe_runtime p ph = Ok tt.
Proof.
  intros [Hs Hc Hp Ho]. unfold validate_probe_runtime. destruct p as [pp sq sg rd cf]. cbn in *.
  destruct (N.ltb_spec MAX_PROBE_FAILURE_THRESHOLD cf); [lia|].
  assert (match rd, sg with Some r, Some s => s <? r | _, _ => false end = false) as ->.
  { destruct rd, sg; try done. apply N.ltb_ge. by apply Ho. }
  assert (negb ((sq =? 0) && is_none sg && is_none rd && (cf =? 0)
                && bool_decide (pp = ProbePhase.Waiting))
          && negb ((0 <? sq) && is_some sg) = false) as ->.
  { destruct Hs as [[= -> -> -> -> ->]|[Hq Hg]]; [done|]. destruct sg; [|done].
    destruct (N.ltb_spec 0 sq); [|lia]. apply andb_false_r. }
  destruct pp; decide_constructors; destruct_and?; subst; cbn;
    repeat (rewrite bool_decide_eq_false_2 by done);
    repeat match goal with H : rd <> None |- _ => destruct rd; [clear H|done] end;
    repeat match goal with |- context [cf =? 0] => destruct (N.eqb_spec cf 0); [done|] end; cbn;
    rewrite ?andb_false_r; try reflexivity.
  by rewrite bool_decide_eq_false_2.
Qed.
#[export] Hint Resolve validate_probe_sound validate_probe_complete : rust.

Lemma pristine_probe_ok ph : ph <> ReplicaPhase.Running -> probe_ok pristine_probe ph.
Proof. intros. constructor; cbn; [by left|lia|done|done]. Qed.

(** A probe outlives the run it belongs to. *)
Lemma probe_ok_other p ph ph' :
  ph' <> ReplicaPhase.Running -> ph' <> ReplicaPhase.Starting -> probe_ok p ph -> probe_ok p ph'.
Proof.
  intros ? ? [? ? Hp ?]. constructor; try done. destruct (probe_phase p); naive_solver.
Qed.

(** ** Sorted replicas *)
Definition id_before (a b : ReplicaId) : Prop := id_lt a b = true.

Lemma id_lt_trans a b c : id_lt a b = true -> id_lt b c = true -> id_lt a c = true.
Proof.
  unfold id_lt. intros H1 H2. apply orb_true_iff in H1 as [H1|H1], H2 as [H2|H2]; apply orb_true_iff; bprop.
  - left. eauto using str_lt_trans.
  - left. congruence.
  - left. congruence.
  - right. apply andb_true_iff. split; [apply bool_decide_eq_true; congruence|]. apply N.ltb_lt. lia.
Qed.
Lemma id_lt_irrefl a : id_lt a a = false.
Proof. unfold id_lt. by rewrite str_lt_irrefl, N.ltb_irrefl, andb_false_r. Qed.

Lemma id_sorted_NoDup l : StronglySorted id_before l -> NoDup l.
Proof.
  induction 1 as [|x l Hs IH Hall]; constructor; [|done]. intros Hin.
  rewrite Forall_forall in Hall. apply Hall in Hin. unfold id_before in Hin.
  by rewrite id_lt_irrefl in Hin.
Qed.

Lemma check_replicas_iff ids prev l :
  check_replicas ids prev l = Ok tt <->
  Forall replica_ok l /\ StronglySorted id_before (id <$> l)
  /\ (forall p, prev = Some p -> Forall (id_before p) (id <$> l))
  /\ (forall x, x ∈ id <$> l -> x ∉ ids).
Proof.
  revert ids prev. induction l as [|r l IH]; intros ids prev; cbn [check_replicas].
  { split; [intros _|done]. split_and!; [done|constructor|by intros; constructor|set_solver]. }
  csimpl. split.
  - destruct (validate_replica r) as [[]|] eqn:Hr; [|done]. apply validate_replica_iff in Hr.
    pass Hg. split_guard. intros (Hok & Hs & Hp & Hf)%IH. specialize (Hp _ eq_refl). split_and!.
    + by constructor.
    + by constructor.
    + intros p ->. cbn in Hg. bprop. constructor; [done|]. eapply Forall_impl; [exact Hp|].
      intros x. unfold id_before in *. eauto using id_lt_trans.
    + intros x [->|Hx]%elem_of_cons; [done|]. apply Hf in Hx. set_solver.
  - intros ([Hr Hok]%Forall_cons & Hs & Hp & Hf).
    rewrite (validate_replica_complete _ Hr).
    apply StronglySorted_inv in Hs as [Hs Hall].
    replace (is_some_and (fun value => negb (id_lt value (id r))) prev) with false.
    2:{ destruct prev as [p|]; [|done]. cbn. specialize (Hp _ eq_refl).
        apply Forall_cons in Hp as [Hp _]. by rewrite Hp. }
    rewrite bool_decide_eq_false_2 by (apply Hf; left). cbn.
    apply IH. split_and!; [done|done|by intros p [= <-]|]. intros x Hx. apply not_elem_of_union.
    split; [|apply Hf; by right]. intros ->%elem_of_singleton. rewrite Forall_forall in Hall.
    apply Hall in Hx. unfold id_before in Hx. by rewrite id_lt_irrefl in Hx.
Qed.

(** ** Valid statuses *)
Record content_ok (s : StackRuntimeStatus) : Prop := {
  co_format : s.(format_version) = SUPERVISOR_STATUS_FORMAT_VERSION
              \/ (s.(format_version) = LEGACY_SUPERVISOR_STATUS_FORMAT_VERSION
                  /\ forall r, r ∈ s.(replicas) -> r.(probe) = None);
  co_stack : valid_name s.(stack) = true;
  co_revision : s.(revision) <> 0;
  co_generation : is_digest s.(generation) = true;
  co_observed : s.(observed_at_ms) <> 0;
  co_count : len s.(replicas) <= MAX_STACK_TOTAL_REPLICAS;
  co_replicas : Forall replica_ok s.(replicas);
  co_sorted : StronglySorted id_before (id <$> s.(replicas));
}.

Lemma existsb_false {A : Type} (f : A -> bool) (l : list A) :
  existsb f l = false <-> forall x, x ∈ l -> f x = false.
Proof.
  rewrite <- not_true_iff_false, existsb_exists. split.
  - intros H x Hx. apply not_true_iff_false. intros Hf. apply H. exists x. by rewrite <- list_elem_of_In.
  - intros H (x & Hx%list_elem_of_In & Hf). rewrite H in Hf; done.
Qed.

Section Status.
Context `{Ext : Externals} `{JP : !Json StackPlan} `{JS : !Json StackRuntimeStatus}.

Lemma validate_status_iff s :
  validate_status s = Ok tt <-> content_ok s /\ status_computed_sha256 s = Ok s.(status_sha256).
Proof.
  unfold validate_status. split.
  - pass Hg. destruct (status_computed_sha256 s) as [sha|]; [|done].
    pass Hs. apply negb_false_iff, bool_decide_eq_true in Hs as ->.
    intros (Hok & Hsort & _)%check_replicas_iff. split; [|done]. split_guard. constructor; try done. cbn in *.
    match goal with H : _ \/ existsb _ _ = false |- _ => destruct H as [Hl|Hl] end.
    + apply N.eqb_neq in Hl. bprop. destruct Hg as [Hg|Hg]; bprop; [done|]. by left.
    + destruct (N.eqb_spec (format_version s) SUPERVISOR_STATUS_FORMAT_VERSION); [by left|].
      right. destruct Hg as [Hg|Hg]; bprop; [|done]. split; [done|]. intros r Hr.
      rewrite existsb_false in Hl. specialize (Hl r Hr). by destruct (probe r).
  - intros [[Hf Hn Hr Hg Ho Hc Hok Hs] Hsha]. rewrite Hsha, Hn, Hg. cbn.
    assert (is_digest (status_sha256 s) = true) as ->.
    { unfold status_computed_sha256 in Hsha. destruct (to_vec _); [|done].
      injection Hsha as <-. apply hex_sha256_is_digest. }
    destruct (N.eqb_spec (revision s) 0); [done|]. destruct (N.eqb_spec (observed_at_ms s) 0); [done|].
    destruct (N.ltb_spec MAX_STACK_TOTAL_REPLICAS (len (replicas s))); [lia|].
    rewrite bool_decide_eq_true_2 by done. cbn.
    assert (check_replicas ∅ None (replicas s) = Ok tt) as -> by (apply check_replicas_iff; set_solver).
    destruct Hf as [->|[-> Hp]]; [done|]. cbn.
    replace (existsb _ (replicas s)) with false; [done|]. symmetry. apply existsb_false.
    intros r Hin%Hp. by rewrite Hin.
Qed.

Context `{JT : !JsonTotal StackRuntimeStatus}.

Lemma refresh_ok s :
  content_ok s ->
  exists sha, refresh s = (with_status_sha256 s sha, Ok tt)
              /\ validate_status (with_status_sha256 s sha) = Ok tt.
Proof.
  intros Hc. destruct (to_vec_total (with_status_sha256 s "")) as [b Hb].
  exists (hex_sha256 b).
  assert (forall sha, status_computed_sha256 (with_status_sha256 s sha) = Ok (hex_sha256 b)) as Hsha.
  { intros sha. unfold status_computed_sha256.
    change (with_status_sha256 (with_status_sha256 s sha) "") with (with_status_sha256 s "").
    by rewrite Hb. }
  assert (validate_status (with_status_sha256 s (hex_sha256 b)) = Ok tt) as Hv.
  { apply validate_status_iff. split; [by destruct Hc; constructor|]. apply Hsha. }
  split; [|done]. unfold refresh. rewrite Hsha.
  change (with_status_sha256 (with_status_sha256 s "") (hex_sha256 b))
    with (with_status_sha256 s (hex_sha256 b)). by rewrite Hv.
Qed.
End Status.

(** ** The invariant of one replica *)
Record rep_inv (obs : N) (r : ReplicaRuntime) : Prop := {
  ri_ok : replica_ok r;
  ri_started : forall t, r.(started_at_ms) = Some t -> t <= obs;
  ri_ready : forall p t, r.(probe) = Some p -> p.(ready_at_ms) = Some t -> t <= obs;
  ri_backoff : r.(phase) = ReplicaPhase.Backoff -> r.(attempt) <= r.(max_restarts);
}.

Lemma rep_inv_mono obs obs' r : obs <= obs' -> rep_inv obs r -> rep_inv obs' r.
Proof. intros Hle [? H1 H2 ?]. constructor; [done| | |done]; [intros t ?%H1; lia|intros p t Hp Ht; pose proof (H2 p t Hp Ht); lia]. Qed.

(** What the plan fixes of a replica. *)
Definition skeleton (r : ReplicaRuntime) : ReplicaId * DesiredState * RestartPolicy * N * bool :=
  (r.(id), r.(desired), r.(restart), r.(max_restarts), is_some r.(probe)).

Lemma is_active_iff r :
  is_active r = true <-> r.(phase) = ReplicaPhase.Starting \/ r.(phase) = ReplicaPhase.Running.
Proof. unfold is_active, phase_is. rewrite orb_true_iff, !bool_decide_eq_true. done. Qed.

Lemma active_inv r :
  replica_ok r -> is_active r = true ->
  r.(desired) = DesiredState.Running /\ r.(attempt) <> 0 /\ (exists t, r.(started_at_ms) = Some t)
  /\ r.(finished_at_ms) = None /\ r.(next_start_at_ms) = None /\ r.(last_exit_code) = None
  /\ r.(detail) = None /\ exists run, r.(run_id) = Some run /\ is_digest run = true.
Proof. intros [? ? ? ? ? ? Hp] [Ha|Ha]%is_active_iff; rewrite Ha in Hp; naive_solver. Qed.

Lemma shape_active (r : ReplicaRuntime) :
  is_active r = true -> r.(desired) = DesiredState.Running -> r.(attempt) <> 0 ->
  (exists run, r.(run_id) = Some run /\ is_digest run = true) ->
  (exists t, r.(started_at_ms) = Some t) -> r.(finished_at_ms) = None ->
  r.(next_start_at_ms) = None -> r.(last_exit_code) = None -> r.(detail) = None ->
  valid_name r.(id).(instance) = true -> r.(id).(ordinal) <> 0 ->
  r.(max_restarts) <= MAX_STACK_RESTARTS -> r.(attempt) <= r.(max_restarts) + 1 ->
  (forall p, r.(probe) = Some p -> probe_ok p r.(phase)) -> replica_ok r.
Proof.
  intros Ha. intros. constructor; try done; [naive_solver|naive_solver (eauto with rust)|].
  apply is_active_iff in Ha as [->| ->]; done.
Qed.

Lemma started_replica_inv obs now r run :
  rep_inv obs r -> r.(desired) = DesiredState.Running -> is_digest run = true ->
  r.(attempt) <= r.(max_restarts) ->
  rep_inv now (started_replica r run (r.(attempt) + 1) now).
Proof.
  intros [[] ? ? ?] Hd Hrun Ha. constructor; cbn; [|naive_solver lia| |done].
  - apply shape_active; cbn; try done; [lia|by exists run|by exists now|lia|].
    intros p. destruct (probe r); [|done]. intros [= <-]. by apply pristine_probe_ok.
  - intros p t. destruct (probe r); [|done]. by intros [= <-].
Qed.

Lemma active_update_inv obs now r ph pr :
  rep_inv obs r -> obs <= now -> is_active r = true ->
  ph = ReplicaPhase.Starting \/ ph = ReplicaPhase.Running ->
  (forall p, pr = Some p -> probe_ok p ph /\ forall t, p.(ready_at_ms) = Some t -> t <= now) ->
  rep_inv now (set_phase r ph pr).
Proof.
  intros [Hok Hs Hr Hb] Hle Ha Hph Hpr.
  pose proof (active_inv _ Hok Ha) as (? & ? & ? & ? & ? & ? & ? & ?). destruct Hok.
  constructor; cbn.
  - apply shape_active; cbn; try done; [by apply is_active_iff|naive_solver].
  - intros t ?%Hs. lia.
  - naive_solver.
  - destruct Hph; naive_solver.
Qed.

Lemma signal_inv obs now r p seq :
  rep_inv obs r -> obs <= now -> is_active r = true -> r.(probe) = Some p -> p.(last_sequence) < seq ->
  rep_inv now (set_phase r r.(phase) (Some (mkProbe p.(probe_phase) seq (Some now) p.(ready_at_ms)
                                              p.(consecutive_failures)))).
Proof.
  intros Hi Hle Ha Hp Hseq.
  assert (forall t, ready_at_ms p = Some t -> t <= now) as Hready
    by (intros t Ht; pose proof (ri_ready _ _ Hi p t Hp Ht); lia).
  eapply active_update_inv; [done..|by apply is_active_iff|].
  intros p' [= <-]. cbn. split; [|done].
  pose proof (ro_probe _ (ri_ok _ _ Hi) p Hp) as [? ? ? ?]%validate_probe_sound.
  constructor; cbn; [right; split; [lia|done]|done|done|]. intros ready signal Hr [= <-]. by apply Hready.
Qed.

Lemma ready_inv obs now r seq :
  rep_inv obs r -> obs <= now -> is_active r = true -> 0 < seq ->
  rep_inv now (set_phase r ReplicaPhase.Running
                 (Some (mkProbe ProbePhase.Ready seq (Some now) (Some now) 0))).
Proof.
  intros Hi Hle Ha Hseq. eapply active_update_inv; [done..|by right|]. intros p [= <-]. cbn.
  split; [|intros t [= <-]; lia]. constructor; cbn; [by right|lia|naive_solver|naive_solver lia].
Qed.

Lemma unhealthy_inv obs now r seq sig failures :
  rep_inv obs r -> obs <= now -> is_active r = true -> 0 < seq -> sig <> None ->
  0 < failures <= MAX_PROBE_FAILURE_THRESHOLD ->
  rep_inv now (set_phase r r.(phase) (Some (mkProbe ProbePhase.Unhealthy seq sig None failures))).
Proof.
  intros Hi Hle Ha Hseq Hsig Hf. eapply active_update_inv; [done..|by apply is_active_iff|].
  intros p [= <-]. cbn. split; [|done].
  constructor; cbn; [by right|lia|split; [lia|done]|done].
Qed.

Lemma restart_backoff_bounds `{Externals} i n :
  MIN_RESTART_BACKOFF_MS <= restart_backoff_ms i n <= MAX_RESTART_BACKOFF_MS.
Proof.
  unfold restart_backoff_ms, saturating_mul, saturating_add, MIN_RESTART_BACKOFF_MS,
    MAX_RESTART_BACKOFF_MS, u64_max.
  set (j := from_le_bytes _ _). set (sh := N.min (n - 1) 7).
  assert (1 <= N.shiftl 1 sh) as Hsh.
  { rewrite N.shiftl_mul_pow2, N.mul_1_l. pose proof (N.pow_nonzero 2 sh). lia. }
  generalize (N.shiftl 1 sh) as w, Hsh. intros w Hw.
  set (m := N.min (N.min (250 * w) _) 30000). assert (250 <= m <= 30000) by lia.
  generalize (j mod (m / 4 + 1)). lia.
Qed.

Lemma finish_phase `{Externals} r success code text now :
  finish_replica r success code text now =
  let again := match r.(restart) with Never => false | OnFailure => negb success | Always => true end in
  let backoff := again && (r.(attempt) <? r.(max_restarts) + 1) in
  mkReplica r.(id) r.(desired) r.(restart) r.(max_restarts) r.(attempt)
    (if backoff then ReplicaPhase.Backoff else if again then ReplicaPhase.Exhausted
     else if success then ReplicaPhase.Succeeded else ReplicaPhase.Failed)
    None r.(started_at_ms) (Some now)
    (if backoff then Some (saturating_add u64_max now (restart_backoff_ms r.(id) r.(attempt))) else None)
    code (Some text) r.(probe).
Proof. unfold finish_replica. cbn zeta. by destruct (_ && _). Qed.

Lemma finish_replica_inv `{Externals} obs now r success code text :
  rep_inv obs r -> obs <= now -> now < u64_max -> is_active r = true ->
  valid_text text 512 false = true ->
  rep_inv now (finish_replica r success code text now).
Proof.
  intros [Hok Hs Hr Hb] Hle Hmax Ha Ht. rewrite finish_phase. cbn zeta.
  pose proof (active_inv _ Hok Ha) as (Hd & Hat & [st Hst] & _). pose proof (Hs _ Hst).
  pose proof (restart_backoff_bounds (id r) (attempt r)) as [Hmin _].
  set (again := match restart r with Never => false | _ => _ end).
  assert (again = true -> restart r <> Never) as Hag by (subst again; by destruct (restart r)).
  assert (again = false -> success = true -> restart r <> Always) as Has by (subst again; by destruct (restart r)).
  assert (again = false -> success = false -> restart r = Never) as Haf
    by (subst again; by destruct (restart r), success).
  constructor; cbn; [|intros t Ht'; apply Hs in Ht'; lia|intros p t Hp Hp'; pose proof (Hr p t Hp Hp'); lia|].
  2:{ destruct again, (N.ltb_spec (attempt r) (max_restarts r + 1)); cbn; try done; [lia|by destruct success..]. }
  destruct Hok as [? ? ? ? ? Hpr ?].
  constructor; cbn; try done; [naive_solver| |].
  - intros p Hp. apply validate_probe_complete.
    eapply probe_ok_other; [..|apply validate_probe_sound, (Hpr p Hp)];
      destruct (_ && _), again, success; done.
  - assert (exists a b, started_at_ms r = Some a /\ Some now = Some b /\ a <= b) as Hex
      by (exists st, now; split_and!; [done..|lia]).
    destruct again; cbn; [destruct (N.ltb_spec (attempt r) (max_restarts r + 1))|destruct success];
      cbn; split_and!; try done; auto.
    exists st, now, (saturating_add u64_max now (restart_backoff_ms (id r) (attempt r))).
    unfold saturating_add, MIN_RESTART_BACKOFF_MS in *. split_and!; try done; lia.
Qed.

Lemma drained_replica_inv obs now r :
  rep_inv obs r -> obs <= now -> r.(desired) = DesiredState.Running ->
  r.(phase) <> ReplicaPhase.Stopped -> rep_inv now (drained_replica r now).
Proof.
  intros [Hok Hs Hr Hb] Hle Hd Hph. constructor; cbn; [|intros t ?%Hs; lia| |done].
  2:{ intros p t Hp Ht. pose proof (Hr p t Hp Ht). lia. }
  destruct Hok as [? ? ? ? ? Hpr Hphase]. constructor; cbn; try done.
  - intros d [= <-]. reflexivity.
  - intros p Hp. apply validate_probe_complete.
    eapply probe_ok_other; [..|apply validate_probe_sound, (Hpr p Hp)]; done.
  - split_and!; [done..|]. right. split_and!; [done|done| |].
    + destruct (phase r); destruct_and?; naive_solver.
    + exists now. split; [done|]. intros st ?%Hs. lia.
Qed.

(** ** The operations of a supervisor *)
Inductive Op :=
| BeginStart (i : ReplicaId) (run : string) (now : N)
| MarkRunning (i : ReplicaId) (run : string) (now : N)
| ProbeSignal (i : ReplicaId) (run : string) (seq : N) (kind : ProbeSignalKind) (now : N)
| ProbeTimeout (i : ReplicaId) (run : string) (now : N)
| MarkExit (i : ReplicaId) (run : string) (success : bool) (code : option Z) (text : string) (now : N)
| MarkDrained (i : ReplicaId) (run : option string) (now : N)
| RecoverInterrupted (now : N)
| Heartbeat (now : N).

Definition op_time (o : Op) : N :=
  match o with
  | BeginStart _ _ now | MarkRunning _ _ now | ProbeSignal _ _ _ _ now | ProbeTimeout _ _ now
  | MarkExit _ _ _ _ _ now | MarkDrained _ _ now | RecoverInterrupted now | Heartbeat now => now
  end.

Definition drop_value {A B : Type} (p : A * result string B) : A * result string unit :=
  (p.1, match p.2 with Ok _ => Ok tt | Err e => Err e end).

(** A health signal that would exceed the failure counter, or a liveness
    timeout of a run that never signalled: the supervisor loop never issues
    them, since a probe policy fails a replica at 10 failures or fewer and
    starts liveness checks at the first signal. *)
Definition probe_overrun (s : StackRuntimeStatus) (o : Op) : bool :=
  let probe_of i := r ← List.find (has_id i) s.(replicas); r.(probe) in
  let full p := MAX_PROBE_FAILURE_THRESHOLD <? p.(consecutive_failures) + 1 in
  match o with
  | ProbeSignal i _ _ ProbeSignalKind.Unhealthy _ => is_some_and full (probe_of i)
  | ProbeTimeout i _ _ => is_some_and (fun p => full p || (p.(last_sequence) =? 0)) (probe_of i)
  | _ => false
  end.

Section Runs.
Context `{Ext : Externals} `{JP : !Json StackPlan} `{JS : !Json StackRuntimeStatus}
  `{JT : !JsonTotal StackRuntimeStatus}.

Definition exec (s : StackRuntimeStatus) (o : Op) : StackRuntimeStatus * result string unit :=
  match o with
  | BeginStart i run now => drop_value (begin_start s i run now)
  | MarkRunning i run now => mark_running s i run now
  | ProbeSignal i run seq kind now => mark_probe_signal s i run seq kind now
  | ProbeTimeout i run now => drop_value (mark_probe_timeout s i run now)
  | MarkExit i run success code text now => mark_exit s i run success code text now
  | MarkDrained i run now => mark_drained s i run now
  | RecoverInterrupted now => drop_value (recover_interrupted s now)
  | Heartbeat now => heartbeat s now
  end.

Record inv (s : StackRuntimeStatus) : Prop := {
  inv_content : content_ok s;
  inv_sha : status_computed_sha256 s = Ok s.(status_sha256);
  inv_replicas : Forall (rep_inv s.(observed_at_ms)) s.(replicas);
}.

Lemma inv_valid s : inv s -> validate_status s = Ok tt.
Proof. intros []. by apply validate_status_iff. Qed.

(** The new status of an accepted operation: same identity, new replicas. *)
Record advances (s s' : StackRuntimeStatus) (now : N) (l : list ReplicaRuntime) : Prop := {
  adv_inv : inv s';
  adv_time : s.(observed_at_ms) <= s'.(observed_at_ms) /\ s'.(observed_at_ms) <= N.max now s.(observed_at_ms);
  adv_stack : s'.(stack) = s.(stack);
  adv_revision : s'.(revision) = s.(revision);
  adv_generation : s'.(generation) = s.(generation);
  adv_replicas : s'.(replicas) = l;
  adv_skeleton : skeleton <$> l = skeleton <$> s.(replicas);
}.

Lemma skeleton_id (l k : list ReplicaRuntime) : skeleton <$> l = skeleton <$> k -> id <$> l = id <$> k.
Proof.
  intros H. apply (f_equal (fmap (fun x => x.1.1.1.1))) in H.
  rewrite <- !list_fmap_compose in H. exact H.
Qed.
Lemma skeleton_probe (l k : list ReplicaRuntime) :
  skeleton <$> l = skeleton <$> k -> (forall r, r ∈ k -> r.(probe) = None) ->
  forall r, r ∈ l -> r.(probe) = None.
Proof.
  intros H Hk r Hr. apply (list_elem_of_fmap_2 skeleton) in Hr. rewrite H in Hr.
  apply list_elem_of_fmap in Hr as (r' & Heq & Hr'). apply Hk in Hr'.
  unfold skeleton in Heq. rewrite Hr' in Heq. by destruct (probe r).
Qed.

Lemma refresh_advances s now l :
  inv s -> s.(observed_at_ms) <= now -> Forall (rep_inv now) l ->
  skeleton <$> l = skeleton <$> s.(replicas) ->
  exists s', refresh (with_observed (with_replicas s l) now) = (s', Ok tt)
             /\ s'.(observed_at_ms) = now /\ advances s s' now l.
Proof.
  intros [[Hf Hn Hr Hg Ho Hc Hok Hs] Hsha Hrep] Hle Hl Hsk.
  assert (content_ok (with_observed (with_replicas s l) now)) as Hcon.
  { constructor; cbn; try done.
    - destruct Hf as [?|[? Hp]]; [by left|right]. split; [done|]. by eapply skeleton_probe.
    - lia.
    - apply (f_equal length) in Hsk. rewrite !length_fmap in Hsk. unfold len in *. lia.
    - eapply Forall_impl; [exact Hl|]. by intros ? [].
    - by rewrite (skeleton_id _ _ Hsk). }
  destruct (refresh_ok _ Hcon) as (sha & Href & Hv). eexists. split; [exact Href|]. split; [done|].
  apply validate_status_iff in Hv as [Hcon' Hsha'].
  constructor; cbn; try done. lia.
Qed.

Lemma update_skeleton s i r r' :
  List.find (has_id i) s.(replicas) = Some r -> skeleton r' = skeleton r ->
  skeleton <$> update_first (has_id i) (fun _ => r') s.(replicas) = skeleton <$> s.(replicas).
Proof.
  intros Hf Hsk. induction (replicas s) as [|x l IH]; [done|]. cbn in *.
  destruct (has_id i x) eqn:E; csimpl.
  - injection Hf as ->. by rewrite Hsk.
  - by rewrite IH.
Qed.

Lemma update_Forall (P : ReplicaRuntime -> Prop) p f (l : list ReplicaRuntime) :
  Forall P l -> (forall x, p x = true -> P (f x)) -> Forall P (update_first p f l).
Proof.
  intros Hl Hf. induction Hl as [|x l Hx Hl IH]; [constructor|]. cbn.
  destruct (p x) eqn:E; constructor; auto.
Qed.

Lemma find_inv s i r :
  inv s -> List.find (has_id i) s.(replicas) = Some r ->
  rep_inv s.(observed_at_ms) r /\ r.(id) = i /\ r ∈ s.(replicas).
Proof.
  intros Hi [Hin Hid]%List.find_some. apply list_elem_of_In in Hin.
  pose proof (inv_replicas _ Hi) as H. rewrite Forall_forall in H.
  unfold has_id in Hid. bprop. auto.
Qed.

Lemma replica_advances s i r r' now :
  inv s -> s.(observed_at_ms) <= now -> List.find (has_id i) s.(replicas) = Some r ->
  skeleton r' = skeleton r -> rep_inv now r' ->
  exists s', refresh (with_observed (set_replica s i r') now) = (s', Ok tt)
             /\ s'.(observed_at_ms) = now
             /\ advances s s' now (update_first (has_id i) (fun _ => r') s.(replicas)).
Proof.
  intros Hi Hle Hf Hsk Hr. apply refresh_advances; try done; [|by eapply update_skeleton].
  apply update_Forall; [|done]. eapply Forall_impl; [apply (inv_replicas _ Hi)|].
  intros x. by apply rep_inv_mono.
Qed.

(** ** What each operation needs and does *)
Definition op_id (o : Op) : option ReplicaId :=
  match o with
  | BeginStart i _ _ | MarkRunning i _ _ | ProbeSignal i _ _ _ _ | ProbeTimeout i _ _
  | MarkExit i _ _ _ _ _ | MarkDrained i _ _ => Some i
  | RecoverInterrupted _ | Heartbeat _ => None
  end.

Definition runs (r : ReplicaRuntime) (run : string) : bool :=
  is_active r && bool_decide (r.(run_id) = Some run).
Definition wants (r : ReplicaRuntime) : bool := bool_decide (r.(desired) = DesiredState.Running).

Definition can (o : Op) (r : ReplicaRuntime) : bool :=
  match o with
  | BeginStart _ run now =>
      is_digest run && startable r now && wants r && (r.(attempt) <=? r.(max_restarts))
  | MarkRunning _ run _ => runs r run && phase_is r ReplicaPhase.Starting && is_none r.(probe)
  | ProbeSignal _ run seq _ _ =>
      runs r run && is_some_and (fun p => p.(last_sequence) <? seq) r.(probe)
  | ProbeTimeout _ run _ => runs r run && is_some r.(probe)
  | MarkExit _ run _ _ text _ => runs r run && valid_text text 512 false
  | MarkDrained _ run _ =>
      wants r && negb (phase_is r ReplicaPhase.Stopped)
      && if is_active r then bool_decide (r.(run_id) = run) else is_none run
  | RecoverInterrupted _ | Heartbeat _ => true
  end.

Definition enabled (s : StackRuntimeStatus) (o : Op) : bool :=
  (s.(observed_at_ms) <=? op_time o)
  && match op_id o with
     | Some i => is_some_and (can o) (List.find (has_id i) s.(replicas))
     | None => true
     end.

Definition probe_update (seq : N) (kind : ProbeSignalKind) (now : N) (p : ReplicaProbeRuntime) :
    ReplicaProbeRuntime :=
  match kind with
  | ProbeSignalKind.Started | ProbeSignalKind.Heartbeat =>
      mkProbe p.(probe_phase) seq (Some now) p.(ready_at_ms) p.(consecutive_failures)
  | ProbeSignalKind.Ready => mkProbe ProbePhase.Ready seq (Some now) (Some now) 0
  | ProbeSignalKind.Unhealthy =>
      mkProbe ProbePhase.Unhealthy seq (Some now) None (p.(consecutive_failures) + 1)
  end.

(** The effect on one replica. *)
Definition transition (o : Op) (r : ReplicaRuntime) : ReplicaRuntime :=
  match o with
  | BeginStart _ run now => started_replica r run (r.(attempt) + 1) now
  | MarkRunning _ _ _ => set_phase r ReplicaPhase.Running r.(probe)
  | ProbeSignal _ _ seq kind now =>
      set_phase r (match kind with ProbeSignalKind.Ready => ReplicaPhase.Running | _ => r.(phase) end)
        (probe_update seq kind now <$> r.(probe))
  | ProbeTimeout _ _ _ =>
      set_phase r r.(phase)
        ((fun p => mkProbe ProbePhase.Unhealthy p.(last_sequence) p.(last_signal_at_ms) None
                     (p.(consecutive_failures) + 1)) <$> r.(probe))
  | MarkExit _ _ success code text now => finish_replica r success code text now
  | MarkDrained _ _ now => drained_replica r now
  | RecoverInterrupted now => recover_replica now r
  | Heartbeat _ => r
  end.

Definition affects (o : Op) (r : ReplicaRuntime) : bool :=
  match op_id o with Some i => has_id i r | None => true end.
Definition effect (s : StackRuntimeStatus) (o : Op) : list ReplicaRuntime :=
  (fun r => if affects o r then transition o r else r) <$> s.(replicas).

Lemma effect_update s i r o :
  inv s -> op_id o = Some i -> List.find (has_id i) s.(replicas) = Some r ->
  effect s o = update_first (has_id i) (fun _ => transition o r) s.(replicas).
Proof.
  intros Hi Ho Hf. unfold effect, affects. rewrite Ho.
  pose proof (id_sorted_NoDup _ (co_sorted _ (inv_content _ Hi))) as Hnd. clear Hi.
  induction (replicas s) as [|x l IH]; [done|]. csimpl in *.
  apply NoDup_cons in Hnd as [Hx Hnd]. destruct (has_id i x) eqn:E; cbn in *.
  - injection Hf as ->. f_equal. transitivity (Datatypes.id <$> l); [|by rewrite list_fmap_id].
    apply list_fmap_ext. intros j y Hy.
    destruct (has_id i y) eqn:Ey; [|done]. exfalso. apply Hx. unfold has_id in E, Ey. bprop.
    rewrite E, <- Ey. apply list_elem_of_fmap_2. by eapply list_elem_of_lookup_2.
  - f_equal. by apply IH.
Qed.

Lemma recover_replica_inv obs now r :
  rep_inv obs r -> obs <= now -> now < u64_max -> rep_inv now (recover_replica now r).
Proof.
  intros Hr Hle Hmax. unfold recover_replica. destruct (is_active r) eqn:Ha.
  - by eapply finish_replica_inv.
  - by eapply rep_inv_mono.
Qed.

Lemma overrun_false s i r p o :
  List.find (has_id i) s.(replicas) = Some r -> r.(probe) = Some p -> op_id o = Some i ->
  probe_overrun s o = false ->
  match o with
  | ProbeSignal _ _ _ ProbeSignalKind.Unhealthy _ =>
      p.(consecutive_failures) + 1 <= MAX_PROBE_FAILURE_THRESHOLD
  | ProbeTimeout _ _ _ =>
      p.(consecutive_failures) + 1 <= MAX_PROBE_FAILURE_THRESHOLD /\ p.(last_sequence) <> 0
  | _ => True
  end.
Proof.
  intros Hf Hp Ho. destruct o as [| |? ? ? []| | | | |]; try done; injection Ho as ->; cbn; rewrite Hf; cbn;
    rewrite Hp; cbn; intros; bprop; done.
Qed.

Lemma transition_skeleton o r : skeleton (transition o r) = skeleton r.
Proof.
  destruct o; unfold skeleton; cbn; try done.
  - by destruct (probe r).
  - by destruct (probe r).
  - by destruct (probe r).
  - unfold finish_replica. by destruct (_ && _).
  - unfold recover_replica, finish_replica. destruct (is_active r); [|done]. by destruct (_ && _).
Qed.

Lemma transition_inv s i r o :
  inv s -> s.(observed_at_ms) <= op_time o -> op_time o < u64_max -> op_id o = Some i ->
  List.find (has_id i) s.(replicas) = Some r -> can o r = true -> probe_overrun s o = false ->
  rep_inv (op_time o) (transition o r).
Proof.
  intros Hi Hle Hmax Ho Hf Hcan Hov.
  destruct (find_inv _ _ _ Hi Hf) as (Hr & _ & _).
  pose proof (fun p Hp => overrun_false _ _ _ p _ Hf Hp Ho Hov) as Hlim. clear Hov.
  destruct o; try discriminate Ho; injection Ho as ->; cbn in *; unfold runs, wants, phase_is in *; bprop.
  - by eapply started_replica_inv.
  - eapply active_update_inv; [done..|by right|]. by destruct (probe r).
  - destruct (probe r) as [p|] eqn:Hp; [|done]. cbn in *. bprop.
    specialize (Hlim p eq_refl). destruct kind; cbn in *.
    + by eapply signal_inv.
    + eapply ready_inv; try done. lia.
    + by eapply signal_inv.
    + eapply unhealthy_inv; try done; lia.
  - destruct (probe r) as [p|] eqn:Hp; [|done]. cbn.
    destruct (Hlim p eq_refl) as [Hfull Hseq].
    pose proof (ro_probe _ (ri_ok _ _ Hr) p Hp) as [Hseen _ _ _]%validate_probe_sound.
    eapply unhealthy_inv; try done; [lia| |lia]. destruct Hseen as [->|[_ ?]]; done.
  - by eapply finish_replica_inv.
  - by eapply drained_replica_inv.
Qed.

Lemma replica_exec_advances s i r o :
  inv s -> s.(observed_at_ms) <= op_time o -> op_time o < u64_max -> op_id o = Some i ->
  List.find (has_id i) s.(replicas) = Some r -> can o r = true -> probe_overrun s o = false ->
  exists s', refresh (with_observed (set_replica s i (transition o r)) (op_time o)) = (s', Ok tt)
             /\ advances s s' (op_time o) (effect s o).
Proof.
  intros Hi Hle Hmax Ho Hf Hcan Hov.
  destruct (replica_advances s i r (transition o r) (op_time o)) as (s' & Hs' & _ & Hadv); try done.
  - apply transition_skeleton.
  - by eapply transition_inv.
  - exists s'. split; [done|]. by rewrite (effect_update _ _ _ _ Hi Ho Hf).
Qed.

Lemma probe_count s i r p :
  inv s -> List.find (has_id i) s.(replicas) = Some r -> r.(probe) = Some p ->
  checked_add u16_max p.(consecutive_failures) 1 = Some (p.(consecutive_failures) + 1).
Proof.
  intros Hi Hf Hp. destruct (find_inv _ _ _ Hi Hf) as (Hr & _ & _).
  pose proof (ro_probe _ (ri_ok _ _ Hr) p Hp) as [_ Hc _ _]%validate_probe_sound.
  apply checked_add_Some. unfold MAX_PROBE_FAILURE_THRESHOLD, u16_max in *. lia.
Qed.

Lemma drop_refresh {B : Type} (p : StackRuntimeStatus * result string unit) (v : B) :
  drop_value (let (self, res) := p in let! _ := res on self in (self, Ok v)) = p.
Proof. destruct p as [self [[]|]]; done. Qed.

(** An operation its replica allows is the transition followed by [refresh]. *)
Lemma exec_eq s i r o :
  inv s -> s.(observed_at_ms) <= op_time o -> op_id o = Some i ->
  List.find (has_id i) s.(replicas) = Some r -> can o r = true -> probe_overrun s o = false ->
  exec s o = refresh (with_observed (set_replica s i (transition o r)) (op_time o)).
Proof.
  intros Hi Hle Ho Hf Hcan Hov. destruct (find_inv _ _ _ Hi Hf) as (Hr & _ & _).
  pose proof (fun p Hp => overrun_false _ _ _ p _ Hf Hp Ho Hov) as Hlim. clear Hov.
  pose proof (fun p Hp => probe_count s i r p Hi Hf Hp) as Hcount.
  destruct o; try discriminate Ho; injection Ho as ->; cbn in *; unfold runs, wants in *; bprop;
    unfold begin_start, mark_running, mark_probe_signal, mark_probe_timeout, mark_exit,
      mark_drained, replica_mut, ok_or;
    destruct (N.ltb_spec now (observed_at_ms s)); try lia; rewrite ?Hf;
    repeat match goal with
    | H : ?x = true |- context [?x] => rewrite H
    | H : ?x = false |- context [?x] => rewrite H
    | H : ?x = ?y |- context [bool_decide (?x = ?y)] => rewrite (bool_decide_eq_true_2 (x = y)) by exact H
    end; cbn [negb orb andb].
  - assert (attempt r + 1 <= u16_max) as Hu.
    { pose proof (ro_restarts _ (ri_ok _ _ Hr)). unfold MAX_STACK_RESTARTS, u16_max in *. lia. }
    rewrite (proj2 (checked_add_Some _ _ _ _) (conj eq_refl Hu)).
    destruct (N.ltb_spec (max_restarts r + 1) (attempt r + 1)); [lia|]. apply drop_refresh.
  - by destruct (probe r).
  - destruct (probe r) as [p|]; [|done]. specialize (Hcount p eq_refl). specialize (Hlim p eq_refl).
    cbn in *. bprop. destruct (N.leb_spec seq (last_sequence p)); [lia|].
    destruct kind; try done. rewrite Hcount.
    by destruct (N.ltb_spec MAX_PROBE_FAILURE_THRESHOLD (consecutive_failures p + 1)); [lia|].
  - destruct (probe r) as [p|]; [|done]. rewrite (Hcount p eq_refl). destruct (Hlim p eq_refl) as [? _].
    destruct (N.ltb_spec MAX_PROBE_FAILURE_THRESHOLD (consecutive_failures p + 1)); [lia|].
    apply drop_refresh.
  - done.
  - destruct (is_active r) eqn:Ha; bprop; [|by destruct run].
    pose proof (active_inv _ (ri_ok _ _ Hr) Ha) as (_ & _ & _ & _ & _ & _ & _ & x & Hx & _).
    subst. rewrite Hx. by rewrite bool_decide_eq_true_2.
Qed.

Lemma recover_idle now (l : list ReplicaRuntime) :
  List.filter is_active l = [] -> recover_replica now <$> l = l.
Proof.
  induction l as [|r l IH]; [done|]. cbn. unfold recover_replica at 1. destruct (is_active r); [done|].
  intros Hl. f_equal. auto.
Qed.

Lemma inv_advances s now : inv s -> advances s s now s.(replicas).
Proof. intros. constructor; done || lia. Qed.

Lemma recover_accepted s now :
  inv s -> s.(observed_at_ms) <= now -> now < u64_max ->
  exists s', recover_interrupted s now = (s', Ok (len (List.filter is_active s.(replicas))))
             /\ advances s s' now (recover_replica now <$> s.(replicas)).
Proof.
  intros Hi Hle Hmax. unfold recover_interrupted.
  destruct (N.ltb_spec now (observed_at_ms s)); [lia|].
  destruct (N.ltb_spec 0 (len (List.filter is_active (replicas s)))) as [Hpos|Hz].
  - destruct (refresh_advances s now (recover_replica now <$> replicas s)) as (s' & -> & _ & ?); try done.
    + apply Forall_fmap. eapply Forall_impl; [apply (inv_replicas _ Hi)|].
      intros r Hr. by eapply recover_replica_inv.
    + rewrite <- list_fmap_compose. apply list_fmap_ext. intros _ r _.
      apply (transition_skeleton (RecoverInterrupted now)).
    + by exists s'.
  - assert (List.filter is_active (replicas s) = []) as Hnil.
    { unfold len in Hz. by destruct (List.filter is_active (replicas s)). }
    rewrite (recover_idle _ _ Hnil). exists s.
    assert (with_replicas s (replicas s) = s) as -> by (by destruct s).
    split; [done|]. by apply inv_advances.
Qed.

Lemma exec_accepted s o :
  inv s -> enabled s o = true -> probe_overrun s o = false -> op_time o < u64_max ->
  exists s', exec s o = (s', Ok tt) /\ advances s s' (op_time o) (effect s o).
Proof.
  intros Hi Hen Hov Hmax. unfold enabled in Hen. apply andb_true_iff in Hen as [Hle Hen].
  apply N.leb_le in Hle.
  destruct (op_id o) as [i|] eqn:Ho.
  - destruct (List.find (has_id i) (replicas s)) as [r|] eqn:Hf; [|done]. cbn in Hen.
    rewrite (exec_eq s i r o) by done. by eapply replica_exec_advances.
  - destruct o; try discriminate Ho; cbn in Hle, Hmax |- *.
    + destruct (recover_accepted s now) as (s' & -> & Hadv); [done..|]. by exists s'.
    + unfold heartbeat. destruct (N.ltb_spec now (observed_at_ms s)); [lia|].
      destruct (refresh_advances s now (replicas s)) as (s' & Hs' & _ & ?); try done.
      * eapply Forall_impl; [apply (inv_replicas _ Hi)|]. intros x. by apply rep_inv_mono.
      * assert (with_replicas s (replicas s) = s) as Hid by (by destruct s). rewrite Hid in Hs'.
        exists s'. split; [done|]. unfold effect. cbn. by rewrite list_fmap_id.
Qed.

(** An operation whose guard fails leaves the status alone. *)
Lemma exec_refused s o : inv s -> enabled s o = false -> exists e, exec s o = (s, Err e).
Proof.
  intros Hi Hen. unfold enabled in Hen.
  destruct (N.leb_spec (observed_at_ms s) (op_time o)) as [Hle|Hlt].
  2:{ destruct o; cbn in Hlt |- *;
        unfold begin_start, mark_running, mark_probe_signal, mark_probe_timeout, mark_exit,
          mark_drained, recover_interrupted, heartbeat;
        rewrite (proj2 (N.ltb_lt _ _) Hlt), ?orb_true_r; eexists; reflexivity. }
  cbn in Hen. destruct (op_id o) as [i|] eqn:Ho; [|done].
  destruct o; try discriminate Ho; injection Ho as ->; cbn in *;
    unfold begin_start, mark_running, mark_probe_signal, mark_probe_timeout, mark_exit,
      mark_drained, replica_mut, ok_or;
    destruct (N.ltb_spec now (observed_at_ms s)); try lia;
    destruct (List.find (has_id i) (replicas s)) as [r|] eqn:Hf;
    try (destruct (find_inv _ _ _ Hi Hf) as (Hr & _ & _)); cbn in Hen;
    try (eexists; reflexivity); unfold runs, wants in Hen.
  - destruct (is_digest run); [|eexists; reflexivity]. cbn.
    destruct (startable r now); [|eexists; reflexivity]. cbn in Hen.
    destruct (bool_decide _); [|eexists; reflexivity]. cbn in *. apply N.leb_gt in Hen.
    unfold checked_add. destruct (_ <=? u16_max); [|eexists; reflexivity].
    destruct (N.ltb_spec (max_restarts r + 1) (attempt r + 1)); [eexists; reflexivity|lia].
  - destruct (is_digest run); eexists; reflexivity.
  - unfold is_active in Hen. destruct (phase_is r ReplicaPhase.Starting); [|eexists; reflexivity].
    cbn in *. destruct (bool_decide _); [|eexists; reflexivity]. cbn in *.
    destruct (probe r); [eexists; reflexivity|done].
  - destruct (is_active r); [|eexists; reflexivity]. cbn in *.
    destruct (bool_decide _); [|eexists; reflexivity]. cbn in *.
    destruct (probe r) as [p|]; [|eexists; reflexivity]. cbn in Hen. apply N.ltb_ge in Hen.
    destruct (N.leb_spec seq (last_sequence p)); [eexists; reflexivity|lia].
  - destruct (is_active r); [|eexists; reflexivity]. cbn in *.
    destruct (bool_decide _); [|eexists; reflexivity]. cbn in *.
    destruct (probe r); [done|eexists; reflexivity].
  - destruct (valid_text text 512 false); [|eexists; reflexivity]. cbn.
    destruct (is_active r); [|eexists; reflexivity]. cbn in *.
    destruct (bool_decide _); [done|eexists; reflexivity].
  - destruct (valid_text text 512 false); eexists; reflexivity.
  - destruct (bool_decide (desired r = _)); [|eexists; reflexivity]. cbn in *.
    destruct (phase_is r ReplicaPhase.Stopped); [eexists; reflexivity|]. cbn in *.
    destruct (is_active r); cbn in *; [|destruct run; [eexists; reflexivity|done]].
    rewrite Hen. rewrite orb_true_r. eexists; reflexivity.
Qed.

Lemma overrun_fails s i r o :
  inv s -> s.(observed_at_ms) <= op_time o -> op_id o = Some i ->
  List.find (has_id i) s.(replicas) = Some r -> can o r = true -> probe_overrun s o = true ->
  exists s' e, exec s o = (s', Err e).
Proof.
  intros Hi Hle Ho Hf Hcan Hov. pose proof (fun p Hp => probe_count s i r p Hi Hf Hp) as Hcount.
  destruct o as [| |? ? ? [] ?| | | | |]; try discriminate Hov; injection Ho as ->; cbn in *;
    unfold runs in Hcan; rewrite Hf in Hov; cbn in Hov;
    destruct (probe r) as [p|] eqn:Hp; try discriminate; specialize (Hcount p eq_refl); cbn in *; bprop;
    unfold mark_probe_signal, mark_probe_timeout, replica_mut, ok_or; rewrite Hf;
    destruct (N.ltb_spec now (observed_at_ms s)); try lia;
    repeat match goal with H : ?x = true |- context [?x] => rewrite H end;
    rewrite (bool_decide_eq_true_2 (run_id r = Some run)) by done; cbn; rewrite Hp.
  - destruct (N.leb_spec seq (last_sequence p)); [lia|]. rewrite Hcount.
    destruct (N.ltb_spec MAX_PROBE_FAILURE_THRESHOLD (consecutive_failures p + 1)); [eauto|lia].
  - rewrite Hcount.
    destruct (N.ltb_spec MAX_PROBE_FAILURE_THRESHOLD (consecutive_failures p + 1)) as [|Hn]; [by eexists _, _|].
    destruct Hov as [?|Hz]; bprop; [lia|].
    set (sick := set_replica s i _). destruct (refresh (with_observed sick now)) as [s' [u|e]] eqn:Hr;
      [|by eexists _, _].
    exfalso. unfold refresh in Hr. destruct (status_computed_sha256 _); [|by injection Hr as <-].
    injection Hr as <- Hv. destruct u. apply validate_status_iff in Hv as [[_ _ _ _ _ _ Hall _] _].
    rewrite Forall_forall in Hall. cbn in Hall.
    match type of Hall with context [update_first _ (fun _ => ?x) _] => set (r' := x) in Hall end.
    pose proof (find_update_first (has_id i) (fun _ => r') _ r Hf) as Hf'. cbn in Hf'.
    assert (has_id i r' = true) as Hid by (apply List.find_some in Hf as [_ Hf]; exact Hf).
    apply Hf', List.find_some in Hid as [Hin%list_elem_of_In _].
    destruct (validate_probe_sound _ _ (ro_probe _ (Hall _ Hin) _ eq_refl)) as [Hseen _ _ _].
    cbn in Hseen. destruct Hseen as [[=]|[? _]]. lia.
Qed.

Lemma enabled_inv s o i :
  enabled s o = true -> op_id o = Some i ->
  s.(observed_at_ms) <= op_time o
  /\ exists r, List.find (has_id i) s.(replicas) = Some r /\ can o r = true.
Proof.
  unfold enabled. intros [Hle He]%andb_true_iff Ho. rewrite Ho in He. apply N.leb_le in Hle.
  split; [done|]. destruct (List.find _ _) as [r|]; [|done]. by exists r.
Qed.

(** The three outcomes of an operation on a status that satisfies the
    invariant. *)
Lemma exec_cases s o s' res :
  inv s -> op_time o < u64_max -> exec s o = (s', res) ->
  (enabled s o = true /\ probe_overrun s o = false /\ res = Ok tt /\ advances s s' (op_time o) (effect s o))
  \/ (enabled s o = true /\ probe_overrun s o = true /\ exists e, res = Err e)
  \/ (enabled s o = false /\ s' = s /\ exists e, res = Err e).
Proof.
  intros Hi Hmax Hex. destruct (enabled s o) eqn:He.
  - destruct (probe_overrun s o) eqn:Hov.
    + destruct (op_id o) as [i|] eqn:Ho; [|by destruct o].
      destruct (enabled_inv _ _ _ He Ho) as (Hle & r & Hf & Hcan).
      destruct (overrun_fails s i r o) as (? & e & Hr); try done. right; left. split_and!; [done..|].
      exists e. congruence.
    + destruct (exec_accepted s o) as (s1 & Hr & Hadv); try done. left.
      rewrite Hr in Hex. by injection Hex as <- <-.
  - destruct (exec_refused s o) as (e & Hr); try done. right; right. rewrite Hr in Hex.
    injection Hex as <- <-. eauto.
Qed.

Lemma exec_ok s o s' :
  inv s -> op_time o < u64_max -> exec s o = (s', Ok tt) ->
  enabled s o = true /\ advances s s' (op_time o) (effect s o).
Proof.
  intros Hi Hmax Hex.
  destruct (exec_cases _ _ _ _ Hi Hmax Hex) as [(? & _ & _ & ?)|[(_ & _ & ? & ?)|(_ & _ & ? & ?)]]; done.
Qed.

(** ** Runs of a supervisor: sequences of operations that succeed *)
Inductive run_of : list Op -> StackRuntimeStatus -> StackRuntimeStatus -> Prop :=
| run_nil s : run_of [] s s
| run_cons o os s s1 s2 :
    op_time o < u64_max -> exec s o = (s1, Ok tt) -> run_of os s1 s2 -> run_of (o :: os) s s2.

Lemma run_advances os s s' :
  run_of os s s' -> inv s ->
  inv s' /\ skeleton <$> s'.(replicas) = skeleton <$> s.(replicas)
  /\ s'.(stack) = s.(stack) /\ s'.(revision) = s.(revision) /\ s'.(generation) = s.(generation)
  /\ s.(observed_at_ms) <= s'.(observed_at_ms).
Proof.
  induction 1 as [s|o os s s1 s2 Ht Hex Hrun IH]; intros Hi; [done|].
  destruct (exec_ok _ _ _ Hi Ht Hex) as [_ [Hi1 [Hle _] Hst Hrv Hg Hrep Hsk]].
  destruct (IH Hi1) as (? & Hsk' & ? & ? & ? & ?).
  split_and!; try done; [|congruence..|lia]. rewrite Hsk', Hrep. done.
Qed.

(** ** The initial status *)
Lemma seq_sorted k n : StronglySorted N.lt (N.of_nat <$> seq k n).
Proof.
  revert k. induction n as [|n IH]; intros k; [constructor|]. cbn. constructor; [apply IH|].
  apply Forall_fmap, Forall_forall. intros x Hx%elem_of_seq. cbn. lia.
Qed.

Definition block (i : PlannedInstance) : list ReplicaRuntime :=
  planned_replica i <$> ordinals_to i.(pi_replicas).

Lemma block_elem i r : r ∈ block i -> r.(id).(instance) = i.(pi_name).
Proof. intros (n & -> & _)%list_elem_of_fmap. done. Qed.

Lemma block_sorted i : StronglySorted id_before (id <$> block i).
Proof.
  unfold block. rewrite <- list_fmap_compose.
  apply (StronglySorted_fmap _ N.lt); [|apply seq_sorted]. intros a b Hab.
  unfold id_before, id_lt. cbn. rewrite str_lt_irrefl, (bool_decide_eq_true_2 (pi_name i = pi_name i)) by done.
  apply (proj2 (N.ltb_lt _ _) Hab).
Qed.

Lemma planned_elem_instance plan_instances r :
  r ∈ concat (block <$> plan_instances) -> exists i, i ∈ plan_instances /\ r ∈ block i.
Proof.
  induction plan_instances as [|i l IH]; csimpl; [set_solver|].
  rewrite elem_of_app. intros [?|(j & ? & ?)%IH]; [exists i|exists j]; split; try done; by constructor.
Qed.

Lemma blocks_sorted (l : list PlannedInstance) :
  StronglySorted str_before (pi_name <$> l) -> StronglySorted id_before (id <$> concat (block <$> l)).
Proof.
  induction l as [|i l IH]; csimpl; [constructor|].
  intros [Hs Hall]%StronglySorted_inv. rewrite fmap_app. apply StronglySorted_app.
  split_and!; [|apply block_sorted|by apply IH].
  intros a b (r & -> & Hr%block_elem)%list_elem_of_fmap (r' & -> & Hr')%list_elem_of_fmap.
  apply planned_elem_instance in Hr' as (j & Hj & Hr'%block_elem).
  rewrite Forall_forall in Hall. apply (list_elem_of_fmap_2 pi_name) in Hj. apply Hall in Hj.
  unfold id_before, id_lt, str_before in *. by rewrite Hr, Hr', Hj.
Qed.

Lemma blocks_length (l : list PlannedInstance) :
  len (concat (block <$> l)) = sumN (pi_replicas <$> l).
Proof.
  induction l as [|i l IH]; csimpl; [done|]. rewrite sumN_cons, <- IH. unfold len, block.
  rewrite length_app, length_fmap. pose proof (ordinals_to_length (pi_replicas i)) as H.
  unfold len in H. lia.
Qed.

Lemma planned_replica_inv obs i n prof sec :
  validate_planned_instance i prof sec = Ok tt -> 0 < n -> rep_inv obs (planned_replica i n).
Proof.
  intros (Hname & _ & Hmax & _)%planned_instance_inv Hn.
  unfold planned_replica. destruct (decide (pi_desired i = DesiredState.Running)) as [Hd|Hd].
  - rewrite !(bool_decide_eq_true_2 (pi_desired i = DesiredState.Running)) by done.
    constructor; cbn; [|done| |done].
    + constructor; cbn; try done; [lia|lia|]. intros p. destruct (pi_health i); [|done].
      intros [= <-]. apply validate_probe_complete. by apply pristine_probe_ok.
    + intros p t. destruct (pi_health i); [|done]. by intros [= <-].
  - rewrite !(bool_decide_eq_false_2 (pi_desired i = DesiredState.Running)) by done.
    constructor; cbn; try done. constructor; cbn; try done; [lia|lia|].
    split_and!; try done. left. destruct (pi_desired i); done.
Qed.

Lemma planned_inv obs (l : list PlannedInstance) prof sec :
  Forall (fun i => validate_planned_instance i prof sec = Ok tt) l ->
  Forall (rep_inv obs) (concat (block <$> l)).
Proof.
  intros Hl. apply Forall_forall. intros r (i & Hi & Hr)%planned_elem_instance.
  rewrite Forall_forall in Hl. apply list_elem_of_fmap in Hr as (n & -> & Hn).
  eapply planned_replica_inv; [by apply Hl|]. apply ordinals_to_elem in Hn. lia.
Qed.

Lemma from_plan_inv plan rev gen now :
  validate_plan plan = Ok tt -> rev <> 0 -> is_digest gen = true -> now <> 0 ->
  exists s, from_plan plan rev gen now = Ok s /\ inv s
    /\ s.(replicas) = planned_replicas plan /\ s.(stack) = plan.(sp_stack)
    /\ s.(revision) = rev /\ s.(generation) = gen /\ s.(observed_at_ms) = now.
Proof.
  intros Hv Hrev Hgen Hnow. unfold from_plan. rewrite Hv, Hgen.
  destruct (N.eqb_spec rev 0); [done|]. destruct (N.eqb_spec now 0); [done|]. cbn [negb orb].
  apply validate_plan_ok in Hv as Hp. clear Hv.
  pose proof (planned_inv now _ _ _ (po_instances _ Hp)) as Hall.
  set (s0 := mkStatus _ _ _ _ _ _ _).
  assert (content_ok s0) as Hc.
  { constructor; cbn; try done; [by left|by apply po_name| | |].
    - change (len (concat (block <$> sp_instances plan)) <= MAX_STACK_TOTAL_REPLICAS).
      rewrite blocks_length. by apply po_replicas.
    - eapply Forall_impl; [exact Hall|]. by intros ? [].
    - by apply blocks_sorted, po_sorted. }
  destruct (refresh_ok _ Hc) as (sha & -> & Hv). apply validate_status_iff in Hv as [Hc' Hsha].
  eexists. split; [done|]. split; [|done]. by constructor.
Qed.

(** The first status of a generation conforms to its plan. *)
Lemma mismatch_false a b : skeleton a = skeleton b -> replica_mismatch a b = false.
Proof.
  unfold skeleton, replica_mismatch. intros [= -> -> -> -> ->].
  rewrite !bool_decide_eq_true_2 by done. by rewrite N.eqb_refl, eqb_reflx.
Qed.

Lemma conforms s plan rev gen :
  inv s -> validate_plan plan = Ok tt -> rev <> 0 -> is_digest gen = true ->
  skeleton <$> s.(replicas) = skeleton <$> planned_replicas plan ->
  s.(stack) = plan.(sp_stack) -> s.(revision) = rev -> s.(generation) = gen ->
  validate_against s plan rev gen = Ok tt.
Proof.
  intros Hi Hv Hrev Hgen Hsk Hst Hr Hg. unfold validate_against. rewrite (inv_valid _ Hi).
  destruct (from_plan_inv plan rev gen (observed_at_ms s)) as (e & -> & _ & He & Hest & _);
    [done..|apply (co_observed _ (inv_content _ Hi))|].
  rewrite Hst, Hr, Hg, Hest, He, !bool_decide_eq_true_2, N.eqb_refl by done. cbn.
  replace (len (replicas s)) with (len (planned_replicas plan)).
  2:{ unfold len. apply (f_equal length) in Hsk. rewrite !length_fmap in Hsk. by rewrite Hsk. }
  rewrite N.eqb_refl. cbn. replace (existsb _ _) with false; [done|]. symmetry.
  clear -Hsk. revert Hsk. generalize (planned_replicas plan). induction (replicas s) as [|x l IH];
    intros [|y k]; csimpl; try done. intros Hc.
  rewrite mismatch_false by congruence. apply IH. congruence.
Qed.
End Runs.
