(* ===== verification/SupervisorTheorems.v ===== *)
(** * Theorems of replica supervision

    What holds of every status a supervisor reaches from the first status of a
    generation by operations that succeed. *)
From S2P Require Import Prelude Text Core Rolling Plan Supervisor SupervisorSpec.

Section Theorems.
Context `{Ext : Externals} `{JP : !Json StackPlan} `{JS : !Json StackRuntimeStatus}
  `{JT : !JsonTotal StackRuntimeStatus}.

(** ** One replica through one step *)
Lemma find_unique s r :
  inv s -> r ∈ s.(replicas) -> List.find (has_id r.(id)) s.(replicas) = Some r.
Proof.
  intros Hi Hr. pose proof (id_sorted_NoDup _ (co_sorted _ (inv_content _ Hi))) as Hnd. clear Hi.
  induction (replicas s) as [|x l IH]; [by apply elem_of_nil in Hr|]. csimpl in *.
  apply NoDup_cons in Hnd as [Hx Hnd]. unfold has_id at 1.
  apply elem_of_cons in Hr as [<-|Hr]; [by rewrite bool_decide_eq_true_2|].
  rewrite bool_decide_eq_false_2; [auto|]. intros Heq. apply Hx. rewrite Heq.
  by apply list_elem_of_fmap_2.
Qed.

Lemma same_id s r r' : inv s -> r ∈ s.(replicas) -> r' ∈ s.(replicas) -> r.(id) = r'.(id) -> r = r'.
Proof.
  intros Hi Hr Hr' Heq. apply (find_unique s) in Hr, Hr'; [|done..]. rewrite Heq in Hr. congruence.
Qed.

Definition after (o : Op) (r : ReplicaRuntime) : ReplicaRuntime :=
  if affects o r then transition o r else r.

Lemma after_id o r : (after o r).(id) = r.(id).
Proof.
  unfold after. destruct (affects o r); [|done].
  pose proof (transition_skeleton o r) as H. unfold skeleton in H. congruence.
Qed.

Lemma affects_id o r i : op_id o = Some i -> affects o r = true -> r.(id) = i.
Proof. unfold affects, has_id. intros ->. intros. by bprop. Qed.

Lemma step_replica s o s' :
  inv s -> op_time o < u64_max -> exec s o = (s', Ok tt) ->
  inv s' /\ s'.(replicas) = after o <$> s.(replicas)
  /\ s.(observed_at_ms) <= op_time o
  /\ forall r, r ∈ s.(replicas) -> affects o r = true -> can o r = true.
Proof.
  intros Hi Hmax Hex. destruct (exec_ok _ _ _ Hi Hmax Hex) as [He [? ? _ _ _ ? _]].
  split_and!; try done.
  - unfold enabled in He. bprop. done.
  - intros r Hr Ha. destruct (op_id o) as [i|] eqn:Ho; [|by destruct o].
    pose proof (affects_id _ _ _ Ho Ha) as <-.
    destruct (enabled_inv _ _ _ He Ho) as (_ & r' & Hf & Hcan).
    rewrite (find_unique _ _ Hi Hr) in Hf. by injection Hf as <-.
Qed.

(** Induction over a run, following one replica backwards. *)
Lemma run_snoc os o s s' :
  run_of (os ++ [o]) s s' ->
  exists s1, run_of os s s1 /\ op_time o < u64_max /\ exec s1 o = (s', Ok tt).
Proof.
  revert s. induction os as [|a os IH]; intros s Hrun; inversion Hrun as [|? ? ? s1 ? Ht Hex Hr]; subst.
  - inversion Hr; subst. exists s. split_and!; [constructor|done|done].
  - destruct (IH _ Hr) as (s2 & ? & ? & ?). exists s2. split_and!; try done. by econstructor.
Qed.

Lemma run_replica_ind (P : list Op -> ReplicaRuntime -> Prop) s0 :
  inv s0 ->
  (forall r, r ∈ s0.(replicas) -> P [] r) ->
  (forall os o r obs, rep_inv obs r -> obs <= op_time o -> P os r ->
     (affects o r = true -> can o r = true) -> P (os ++ [o]) (after o r)) ->
  forall os s, run_of os s0 s -> forall r, r ∈ s.(replicas) -> P os r.
Proof.
  intros Hi H0 Hstep os. induction os as [|o os IH] using rev_ind; intros s Hrun r Hr.
  - inversion Hrun; subst. auto.
  - destruct (run_snoc _ _ _ _ Hrun) as (s1 & Hrun1 & Ht & Hex).
    destruct (run_advances _ _ _ Hrun1 Hi) as (Hi1 & _).
    destruct (step_replica _ _ _ Hi1 Ht Hex) as (_ & Hreps & Hle & Hcan).
    rewrite Hreps in Hr. apply list_elem_of_fmap in Hr as (x & -> & Hx).
    pose proof (inv_replicas _ Hi1) as Hall. rewrite Forall_forall in Hall.
    eapply Hstep; [by apply Hall|done|by eapply IH|by apply Hcan].
Qed.

Lemma run_image os s s' r :
  inv s -> run_of os s s' -> r ∈ s.(replicas) -> exists r', r' ∈ s'.(replicas) /\ r'.(id) = r.(id).
Proof.
  intros Hi Hrun Hr. destruct (run_advances _ _ _ Hrun Hi) as (_ & Hsk & _).
  apply skeleton_id in Hsk. apply (list_elem_of_fmap_2 id) in Hr. rewrite <- Hsk in Hr.
  apply list_elem_of_fmap in Hr as (r' & ? & ?). by exists r'.
Qed.

Lemma from_plan_inversion plan rev gen now s :
  from_plan plan rev gen now = Ok s ->
  validate_plan plan = Ok tt /\ rev <> 0 /\ is_digest gen = true /\ now <> 0 /\ inv s
  /\ s.(replicas) = planned_replicas plan /\ s.(stack) = plan.(sp_stack)
  /\ s.(revision) = rev /\ s.(generation) = gen.
Proof.
  intros Hfp. assert (validate_plan plan = Ok tt /\ rev <> 0 /\ is_digest gen = true /\ now <> 0)
    as (Hv & Hr & Hg & Hn).
  { unfold from_plan in Hfp. destruct (validate_plan plan) as [[]|]; [|done]. revert Hfp. pass Hgd.
    split_guard. done. }
  destruct (from_plan_inv plan rev gen now) as (s' & Hs' & ? & ? & ? & ? & ? & ?); try done.
  rewrite Hfp in Hs'. by injection Hs' as <-.
Qed.

(** The statuses of a generation: reached by successful operations from the
    first one. *)
Definition reachable (s : StackRuntimeStatus) : Prop :=
  exists plan rev gen now s0 os, from_plan plan rev gen now = Ok s0 /\ run_of os s0 s.

Lemma reachable_inv s : reachable s -> inv s.
Proof.
  intros (plan & rev & gen & now & s0 & os & Hfp & Hrun).
  apply from_plan_inversion in Hfp as (_ & _ & _ & _ & Hi & _). by apply (run_advances _ _ _ Hrun).
Qed.


(** The complete behaviour of every supervisor operation on a reachable
    status: if its guard holds it succeeds, applies exactly its transition to
    the replica it names (or to all) and the new status is valid; if the guard
    fails it is refused and nothing changes.  The only other case, a failure
    count over the limit, is an error. *)
Theorem supervisor_step_total (s : StackRuntimeStatus) (o : Op)
    (Hreach : reachable s) (Htime : op_time o < u64_max) :
  if enabled s o then
    if probe_overrun s o then exists s' e, exec s o = (s', Err e)
    else exists s', exec s o = (s', Ok tt) /\ s'.(replicas) = effect s o /\ validate_status s' = Ok tt
  else exists e, exec s o = (s, Err e).
Proof.
  apply reachable_inv in Hreach. destruct (exec s o) as [s' res] eqn:Hex.
  destruct (exec_cases _ _ _ _ Hreach Htime Hex) as [(-> & -> & -> & [])|[(-> & -> & e & ->)|(-> & -> & e & ->)]].
  - exists s'. split_and!; [done|done|by apply inv_valid].
  - by exists s', e.
  - by exists e.
Qed.

(** ** Restart budget *)
Definition starts_of (i : ReplicaId) (o : Op) : bool :=
  match o with BeginStart j _ _ => bool_decide (j = i) | _ => false end.
Definition count_starts (i : ReplicaId) (os : list Op) : N := len (List.filter (starts_of i) os).

Lemma after_attempt o r :
  (after o r).(attempt) = r.(attempt) + (if starts_of r.(id) o then 1 else 0).
Proof.
  unfold after, affects, has_id. destruct o; cbn;
    [destruct (decide (id r = i));
       [rewrite !bool_decide_eq_true_2 by done|rewrite !bool_decide_eq_false_2 by done]; cbn; lia|..];
    try destruct (bool_decide _); cbn; try lia; unfold recover_replica, finish_replica;
    try destruct (is_active r); try destruct (_ && _); cbn; lia.
Qed.


(** ** Fencing of old runs *)
Definition speaks_for (i : ReplicaId) (run : string) (o : Op) : bool :=
  match o with
  | MarkRunning j run' _ | ProbeSignal j run' _ _ _ | ProbeTimeout j run' _
  | MarkExit j run' _ _ _ _ | MarkDrained j (Some run') _ => bool_decide (j = i /\ run' = run)
  | _ => false
  end.

Lemma speaks_op i run o :
  speaks_for i run o = true ->
  op_id o = Some i /\ forall r, can o r = true -> is_active r = true /\ r.(run_id) = Some run.
Proof.
  destruct o as [| | | | |j [run'|] now| |]; cbn; try done; intros Hs; bprop; destruct Hs as [-> ->];
    (split; [done|]); intros r Hc; unfold runs, wants in Hc; bprop; try done.
  destruct (is_active r); bprop; done.
Qed.

Lemma after_run_id o r run :
  (after o r).(run_id) = Some run ->
  r.(run_id) = Some run \/ exists now, o = BeginStart r.(id) run now.
Proof.
  unfold after, affects, has_id. destruct o; cbn; try case_bool_decide; cbn; auto.
  - intros [= ->]. right. subst. by eexists.
  - unfold finish_replica. by destruct (_ && _).
  - done.
  - unfold recover_replica, finish_replica. destruct (is_active r); [|by left]. by destruct (_ && _).
Qed.

Lemma refused_unless_runs s o i run :
  inv s -> speaks_for i run o = true ->
  (forall r, r ∈ s.(replicas) -> r.(id) = i -> r.(run_id) <> Some run) ->
  exists e, exec s o = (s, Err e).
Proof.
  intros Hi [Ho Hc]%speaks_op Hno. apply exec_refused; [done|]. apply not_true_iff_false.
  intros He. destruct (enabled_inv _ _ _ He Ho) as (_ & r & Hf & Hcan).
  destruct (find_inv _ _ _ Hi Hf) as (_ & Hid & Hin). destruct (Hc r Hcan) as [_ Hrun].
  by apply (Hno r Hin Hid).
Qed.

(** A run identity that a replica does not currently hold is fenced off:
    every acknowledgement, health signal, timeout, exit or drain in its name is
    refused and changes nothing.  After a run has exited, its identity stays
    fenced off for as long as no new start uses it. *)
Theorem exited_run_is_fenced (s s1 s2 : StackRuntimeStatus) (i : ReplicaId) (run text : string)
    (success : bool) (code : option Z) (t : N) (os : list Op) (o : Op)
    (Hreach : reachable s) (Ht : t < u64_max)
    (Hexit : exec s (MarkExit i run success code text t) = (s1, Ok tt))
    (Hrun : run_of os s1 s2) (Hno : forall now, BeginStart i run now ∉ os)
    (Hspeak : speaks_for i run o = true) :
  exists e, exec s2 o = (s2, Err e).
Proof.
  apply reachable_inv in Hreach.
  destruct (step_replica s (MarkExit i run success code text t) s1 Hreach Ht Hexit) as (Hi1 & Hreps & _ & _).
  destruct (run_advances _ _ _ Hrun Hi1) as (Hi2 & _).
  eapply (refused_unless_runs _ _ i run); [done|done|]. intros r Hr.
  revert os s2 Hrun r Hr Hno Hi2.
  enough (forall os s2, run_of os s1 s2 -> forall r, r ∈ s2.(replicas) ->
            (forall now, BeginStart i run now ∉ os) -> id r = i -> run_id r <> Some run) as H
    by (intros; by eapply H).
  apply (run_replica_ind (fun os r => (forall now, BeginStart i run now ∉ os) -> id r = i ->
                                       run_id r <> Some run)); [done| |].
  - intros r Hr _ Hid. rewrite Hreps in Hr. apply list_elem_of_fmap in Hr as (x & -> & Hx).
    rewrite after_id in Hid. unfold after, affects, has_id. cbn. rewrite bool_decide_eq_true_2 by done.
    unfold finish_replica. by destruct (_ && _).
  - intros os o' r obs _ _ IH _ Hno Hid Hrun'. rewrite after_id in Hid.
    apply after_run_id in Hrun' as [Hrun'|[now ->]].
    + apply IH; [|done|done]. intros now Hin. apply (Hno now), elem_of_app. by left.
    + apply (Hno now), elem_of_app. right. rewrite Hid. left.
Qed.

(** ** Terminal phases *)
Definition is_terminal (r : ReplicaRuntime) : bool :=
  match r.(phase) with
  | ReplicaPhase.Succeeded | ReplicaPhase.Failed | ReplicaPhase.Exhausted | ReplicaPhase.Stopped => true
  | _ => false
  end.

Lemma after_terminal o r :
  is_terminal r = true -> (affects o r = true -> can o r = true) ->
  after o r = r
  \/ (r.(phase) <> ReplicaPhase.Stopped /\ exists now, after o r = drained_replica r now).
Proof.
  intros Ht Hc. unfold after. destruct (affects o r); [|by left]. specialize (Hc eq_refl).
  assert (is_active r = false) as Ha.
  { unfold is_terminal in Ht. apply not_true_iff_false. intros [Ha|Ha]%is_active_iff; by rewrite Ha in Ht. }
  destruct o; cbn in Hc; unfold runs in Hc; rewrite ?Ha in Hc; try discriminate Hc.
  - unfold is_terminal in Ht. unfold startable in Hc. bprop. by destruct (phase r).
  - right. unfold phase_is in Hc. bprop. by eauto.
  - left. cbn. unfold recover_replica. by rewrite Ha.
  - by left.
Qed.

(** A replica that has succeeded, failed, exhausted its budget or stopped
    is never started again in its generation: from then on its record stays as
    it is, except that a rollout may drain it to stopped, and its attempt
    counter never moves. *)
Theorem terminal_phases_absorbing (s s' : StackRuntimeStatus) (os : list Op) (r r' : ReplicaRuntime)
    (Hreach : reachable s) (Hrun : run_of os s s') (Hr : r ∈ s.(replicas)) (Hterm : is_terminal r = true)
    (Hr' : r' ∈ s'.(replicas)) (Hid : r'.(id) = r.(id)) :
  r' = r \/ (r.(phase) <> ReplicaPhase.Stopped /\ r'.(phase) = ReplicaPhase.Stopped
             /\ r'.(attempt) = r.(attempt) /\ r'.(run_id) = None).
Proof.
  apply reachable_inv in Hreach. revert os s' Hrun r' Hr' Hid.
  apply (run_replica_ind (fun os r' => id r' = id r -> r' = r \/ (r.(phase) <> ReplicaPhase.Stopped
    /\ r'.(phase) = ReplicaPhase.Stopped /\ r'.(attempt) = r.(attempt) /\ r'.(run_id) = None))); [done| |].
  - intros x Hx Hid. left. by eapply same_id.
  - intros os o x obs _ _ IH Hcan Hid. rewrite after_id in Hid. destruct (IH Hid) as [->|(Hn & Hst & Hat & Hru)].
    + destruct (after_terminal o r Hterm Hcan) as [->|[? [now ->]]]; [by left|by right].
    + assert (is_terminal x = true) as Hx by (unfold is_terminal; by rewrite Hst).
      destruct (after_terminal o x Hx Hcan) as [->|[? _]]; [by right|done].
Qed.

(** ** Probe sequences *)
Lemma after_sequence o r p :
  starts_of r.(id) o = false -> r.(probe) = Some p -> (affects o r = true -> can o r = true) ->
  exists p', (after o r).(probe) = Some p' /\ p.(last_sequence) <= p'.(last_sequence).
Proof.
  intros Hs Hp Hcan. unfold after. destruct (affects o r) eqn:Ha; [|by exists p].
  specialize (Hcan eq_refl). destruct o; cbn in *; rewrite ?Hp in *; cbn in *; eauto.
  - unfold affects, has_id in Ha. cbn in Ha. bprop. congruence.
  - exists (probe_update seq kind now p). split; [done|]. bprop. destruct kind; cbn; lia.
  - exists p. clear Hcan. split; [|lia]. unfold finish_replica. by destruct (_ && _).
  - exists p. split; [|lia]. unfold recover_replica, finish_replica.
    destruct (is_active r); [|done]. by destruct (_ && _).
Qed.

(** Health signals are accepted in strictly increasing sequence within a
    run: once a signal with a sequence number has been accepted, a signal with
    the same or a smaller number is refused as a replay until the replica is
    started again. *)
Theorem probe_replay_refused (s s1 s2 : StackRuntimeStatus) (i : ReplicaId) (run run' : string)
    (seq seq' t t' : N) (kind kind' : ProbeSignalKind) (os : list Op)
    (Hreach : reachable s) (Ht : t < u64_max)
    (Hsig : exec s (ProbeSignal i run seq kind t) = (s1, Ok tt))
    (Hrun : run_of os s1 s2) (Hno : forall o, o ∈ os -> starts_of i o = false) (Hseq : seq' <= seq) :
  exists e, exec s2 (ProbeSignal i run' seq' kind' t') = (s2, Err e).
Proof.
  apply reachable_inv in Hreach.
  destruct (step_replica s (ProbeSignal i run seq kind t) s1 Hreach Ht Hsig) as (Hi1 & Hreps & _ & Hcan1).
  destruct (run_advances _ _ _ Hrun Hi1) as (Hi2 & _).
  assert (forall r, r ∈ s2.(replicas) -> id r = i ->
            exists p, probe r = Some p /\ seq <= last_sequence p) as Hlast.
  { revert os s2 Hrun Hno Hi2.
    enough (forall os s2, run_of os s1 s2 -> forall r, r ∈ s2.(replicas) ->
      (forall o, o ∈ os -> starts_of i o = false) -> id r = i ->
      exists p, probe r = Some p /\ seq <= last_sequence p) as H by (intros; by eapply H).
    apply (run_replica_ind (fun os r => (forall o, o ∈ os -> starts_of i o = false) -> id r = i ->
      exists p, probe r = Some p /\ seq <= last_sequence p)); [done| |].
    - intros r Hr _ Hid. rewrite Hreps in Hr. apply list_elem_of_fmap in Hr as (x & -> & Hx).
      rewrite after_id in Hid. unfold after. specialize (Hcan1 x Hx). unfold affects, has_id in *. cbn in *.
      rewrite (bool_decide_eq_true_2 (id x = i)) in * by done. specialize (Hcan1 eq_refl). bprop.
      destruct (probe x) as [p|]; [|done]. cbn. eexists. split; [done|]. destruct kind; cbn; lia.
    - intros os o r obs _ _ IH Hcan Hno Hid. rewrite after_id in Hid.
      destruct IH as (p & Hp & Hle); [intros o' ?; apply Hno, elem_of_app; by left|done|].
      destruct (after_sequence o r p) as (p' & ? & ?); [|done|done|exists p'; split; [done|lia]].
      rewrite Hid. apply Hno, elem_of_app. right. left. }
  apply exec_refused; [done|]. apply not_true_iff_false. intros He.
  destruct (enabled_inv _ _ i He eq_refl) as (_ & r & Hf & Hcan).
  destruct (find_inv _ _ _ Hi2 Hf) as (_ & Hid & Hin). destruct (Hlast r Hin Hid) as (p & Hp & Hle).
  cbn in Hcan. rewrite Hp in Hcan. cbn in Hcan. bprop. lia.
Qed.


(** ** Backoff *)
Lemma finish_backoff r success code text t :
  (finish_replica r success code text t).(phase) = ReplicaPhase.Backoff ->
  (finish_replica r success code text t).(next_start_at_ms)
  = Some (saturating_add u64_max t (restart_backoff_ms r.(id) r.(attempt))).
Proof.
  rewrite finish_phase. cbn zeta.
  set (again := match restart r with Never => false | _ => _ end). cbn.
  destruct (again && _); [done|]. by destruct again, success.
Qed.

Lemma begin_start_guard s i run now :
  enabled s (BeginStart i run now) = true <->
  s.(observed_at_ms) <= now /\ exists r, List.find (has_id i) s.(replicas) = Some r
    /\ is_digest run = true /\ startable r now = true /\ r.(desired) = DesiredState.Running
    /\ r.(attempt) <= r.(max_restarts).
Proof.
  unfold enabled. cbn. rewrite andb_true_iff, N.leb_le.
  destruct (List.find _ _) as [r|]; cbn; [|naive_solver]. unfold wants.
  rewrite !andb_true_iff, bool_decide_eq_true, N.leb_le. naive_solver.
Qed.

(** After an exit that leaves a replica in backoff, its next start is due
    between 250 ms and 30 s later; every start before that moment is refused,
    and a start at or after it with a fresh digest as run identity succeeds. *)
Theorem backoff_window (s s' : StackRuntimeStatus) (i : ReplicaId) (run text : string)
    (success : bool) (code : option Z) (t : N) (r' : ReplicaRuntime)
    (Hreach : reachable s) (Ht : t + MAX_RESTART_BACKOFF_MS < u64_max)
    (Hexit : exec s (MarkExit i run success code text t) = (s', Ok tt))
    (Hr' : r' ∈ s'.(replicas)) (Hid : r'.(id) = i) (Hphase : r'.(phase) = ReplicaPhase.Backoff) :
  exists next, r'.(next_start_at_ms) = Some next /\ t + 250 <= next <= t + 30000
    /\ (forall run' now', now' < next -> exists e, exec s' (BeginStart i run' now') = (s', Err e))
    /\ (forall run' now', next <= now' -> now' < u64_max -> is_digest run' = true ->
          exists s'', exec s' (BeginStart i run' now') = (s'', Ok tt)).
Proof.
  apply reachable_inv in Hreach. unfold MAX_RESTART_BACKOFF_MS in Ht.
  assert (t < u64_max) as Ht' by lia.
  destruct (step_replica s (MarkExit i run success code text t) s' Hreach Ht' Hexit) as (Hi' & Hreps & Hobs & Hcan).
  destruct (exec_ok s (MarkExit i run success code text t) s' Hreach Ht' Hexit) as [_ [_ [_ Htime] _ _ _ _ _]].
  cbn in Hobs, Htime.
  pose proof (find_unique _ _ Hi' Hr') as Hf'. rewrite Hid in Hf'.
  assert (rep_inv (observed_at_ms s') r') as Hinv
    by (pose proof (inv_replicas _ Hi') as H; rewrite Forall_forall in H; auto).
  pose proof (ri_backoff _ _ Hinv Hphase) as Hbudget.
  assert (desired r' = DesiredState.Running) as Hd
    by (pose proof (ro_phase _ (ri_ok _ _ Hinv)) as H; rewrite Hphase in H; tauto).
  rewrite Hreps in Hr'. apply list_elem_of_fmap in Hr' as (r & Hr & Hin). rewrite Hr in Hid.
  rewrite after_id in Hid. unfold after, affects, has_id in Hr. cbn in Hr.
  rewrite bool_decide_eq_true_2 in Hr by done.
  pose proof (restart_backoff_bounds (id r) (attempt r)) as [Hmin Hmax].
  unfold MIN_RESTART_BACKOFF_MS, MAX_RESTART_BACKOFF_MS in *.
  exists (t + restart_backoff_ms (id r) (attempt r)).
  assert (next_start_at_ms r' = Some (t + restart_backoff_ms (id r) (attempt r))) as Hnext.
  { rewrite Hr in Hphase |- *. rewrite (finish_backoff _ _ _ _ _ Hphase). unfold saturating_add. f_equal. lia. }
  split_and!; [done|lia|lia| |].
  - intros run' now' Hlt. apply exec_refused; [done|]. apply not_true_iff_false.
    intros (_ & x & Hx & _ & Hst & _)%begin_start_guard. rewrite Hf' in Hx. injection Hx as <-.
    unfold startable in Hst. rewrite Hphase, Hnext in Hst. cbn in Hst. bprop. lia.
  - intros run' now' Hge Hlt Hdig.
    destruct (exec_accepted s' (BeginStart i run' now')) as (s'' & ? & _); try done; [|by exists s''].
    apply begin_start_guard. split; [lia|]. exists r'. split_and!; try done.
    unfold startable. rewrite Hphase, Hnext. cbn. by apply N.leb_le.
Qed.

(** ** Eligibility *)
(** [eligible_starts] lists exactly the replicas that can be started now: a
    start with a well-formed run identity succeeds for those and is refused for
    all others. *)
Theorem eligible_starts_exact (s : StackRuntimeStatus) (i : ReplicaId) (run : string) (now : N)
    (Hreach : reachable s) (Hle : s.(observed_at_ms) <= now) (Hnow : now < u64_max)
    (Hdig : is_digest run = true) :
  (i ∈ eligible_starts s now <-> exists s', exec s (BeginStart i run now) = (s', Ok tt))
  /\ (i ∉ eligible_starts s now <-> exists e, exec s (BeginStart i run now) = (s, Err e)).
Proof.
  apply reachable_inv in Hreach.
  assert (i ∈ eligible_starts s now <-> enabled s (BeginStart i run now) = true) as Heq.
  { rewrite begin_start_guard. unfold eligible_starts. rewrite list_elem_of_fmap. split.
    - intros (r & -> & [Hin Hg]%list_elem_of_In%List.filter_In). bprop.
      apply list_elem_of_In in Hin. split; [done|]. exists r. split_and!; try done; [by apply find_unique|].
      pose proof (inv_replicas _ Hreach) as Hall. rewrite Forall_forall in Hall. specialize (Hall r Hin).
      unfold startable in *. destruct (phase r) eqn:Hp; try done; [|by eapply ri_backoff].
      pose proof (ro_phase _ (ri_ok _ _ Hall)) as Hph. rewrite Hp in Hph. destruct_and?. lia.
    - intros (_ & r & Hf & _ & Hst & Hd & _). destruct (find_inv _ _ _ Hreach Hf) as (_ & <- & Hin).
      exists r. split; [done|]. apply list_elem_of_In, List.filter_In. split; [by apply list_elem_of_In|].
      rewrite Hst, bool_decide_eq_true_2 by done. done. }
  rewrite Heq. destruct (enabled s (BeginStart i run now)) eqn:He.
  - destruct (exec_accepted s (BeginStart i run now)) as (s' & Hs' & _); try done.
    rewrite Hs'. split; [naive_solver|]. split; [done|]. intros [e He']. discriminate He'.
  - destruct (exec_refused s (BeginStart i run now)) as (e & Hs'); try done.
    rewrite Hs'. split; [|naive_solver]. split; [done|]. intros [s' Hs'']. discriminate Hs''.
Qed.

(** ** Recovery *)
(** After a supervisor crash, recovery ends every interrupted run and no
    other: it reports the number of replicas that were active, leaves none
    active, keeps every other record as it was, and puts each interrupted
    replica in backoff, exhausted or failed according to its policy. *)
Theorem recovery_ends_active_runs (s : StackRuntimeStatus) (now : N)
    (Hreach : reachable s) (Hle : s.(observed_at_ms) <= now) (Hnow : now < u64_max) :
  exists s', recover_interrupted s now = (s', Ok (len (List.filter is_active s.(replicas))))
    /\ validate_status s' = Ok tt
    /\ Forall2 (fun r r' =>
          is_active r' = false /\ (is_active r = false -> r' = r)
          /\ (is_active r = true ->
                r'.(phase) = match r.(restart) with
                             | Never => ReplicaPhase.Failed
                             | _ => if r.(attempt) <=? r.(max_restarts) then ReplicaPhase.Backoff
                                    else ReplicaPhase.Exhausted
                             end))
        s.(replicas) s'.(replicas).
Proof.
  apply reachable_inv in Hreach.
  destruct (recover_accepted s now) as (s' & Hs' & [Hi' _ _ _ _ Hreps _]); try done.
  exists s'. split_and!; [done|by apply inv_valid|]. rewrite Hreps.
  apply Forall2_fmap_r, Forall_Forall2_diag, Forall_forall. intros r _.
  unfold compose, recover_replica. destruct (is_active r) eqn:Ha; [|by split_and!].
  rewrite finish_phase. cbn.
  replace (attempt r <? max_restarts r + 1) with (attempt r <=? max_restarts r).
  2:{ destruct (N.leb_spec (attempt r) (max_restarts r)), (N.ltb_spec (attempt r) (max_restarts r + 1)); lia. }
  destruct (restart r); cbn; try destruct (attempt r <=? max_restarts r); done.
Qed.

(** ** Probe gating *)
(** A replica with an application probe counts as running only after its
    current run has said it is ready: in every reachable status a running,
    probed replica has an accepted ready signal of its run in the history. *)
Theorem probe_gates_running (plan : StackPlan) (rev : N) (gen : string) (now : N)
    (s0 s : StackRuntimeStatus) (os : list Op) (r : ReplicaRuntime)
    (Hinit : from_plan plan rev gen now = Ok s0) (Hrun : run_of os s0 s) (Hr : r ∈ s.(replicas))
    (Hprobe : r.(probe) <> None) (Hphase : r.(phase) = ReplicaPhase.Running) :
  exists run seq t, r.(run_id) = Some run /\ ProbeSignal r.(id) run seq ProbeSignalKind.Ready t ∈ os.
Proof.
  apply from_plan_inversion in Hinit as (_ & _ & _ & _ & Hi & Hreps & _).
  revert os s Hrun r Hr Hprobe Hphase.
  apply (run_replica_ind (fun os r => probe r <> None -> phase r = ReplicaPhase.Running ->
    exists run seq t, r.(run_id) = Some run /\ ProbeSignal r.(id) run seq ProbeSignalKind.Ready t ∈ os)); [done| |].
  - intros r Hr _. rewrite Hreps in Hr. apply planned_elem_instance in Hr as (i & _ & Hr).
    apply list_elem_of_fmap in Hr as (n & -> & _). cbn. by destruct (bool_decide _).
  - intros os o r obs _ _ IH Hcan.
    assert (probe r <> None -> phase r = ReplicaPhase.Running ->
      exists run seq t, run_id r = Some run /\ ProbeSignal (id r) run seq ProbeSignalKind.Ready t ∈ os ++ [o]) as IH'.
    { intros Hp Hph. destruct (IH Hp Hph) as (run & seq & t & ? & ?). exists run, seq, t.
      split; [done|]. apply elem_of_app. by left. }
    unfold after. destruct (affects o r) eqn:Ha; [|done]. specialize (Hcan eq_refl).
    destruct o; cbn in *; unfold runs in *; bprop; try done.
    + intros Hp. by destruct (probe r).
    + destruct kind; cbn; intros Hp Hph; try (apply IH'; [by destruct (probe r)|done]).
      exists run, seq, now0. split; [done|]. apply elem_of_app. right.
      unfold affects, has_id in Ha. cbn in Ha. bprop. rewrite Ha. left.
    + intros Hp Hph. apply IH'; [by destruct (probe r)|done].
    + rewrite finish_phase. cbn. intros _. repeat case_match; done.
    + unfold recover_replica. destruct (is_active r) eqn:Hact; [|done].
      rewrite finish_phase. cbn. intros _. repeat case_match; done.
Qed.
End Theorems.

(** ** Concrete runs *)
Section Witnesses.
#[local] Existing Instance demo_externals.
#[local] Instance plan_json : Json StackPlan := demo_json.
#[local] Instance status_json : Json StackRuntimeStatus := demo_json.
#[local] Instance status_total : JsonTotal StackRuntimeStatus.
Proof. intros a. by exists []. Defined.

Fixpoint run_ops (os : list Op) (s : StackRuntimeStatus) : option StackRuntimeStatus :=
  match os with
  | [] => Some s
  | o :: os =>
      if op_time o <? u64_max
      then match exec s o with (s1, Ok _) => run_ops os s1 | (_, Err _) => None end
      else None
  end.
Lemma run_ops_run os s s' : run_ops os s = Some s' -> run_of os s s'.
Proof.
  revert s. induction os as [|o os IH]; intros s; cbn [run_ops]; [intros [= ->]; constructor|].
  destruct (N.ltb_spec (op_time o) u64_max); [|done].
  destruct (exec s o) as [s1 [[]|]] eqn:E; [|done]. intros. by econstructor; eauto.
Qed.

Definition demo_stack : StackPlan := demo_plan OnFailure (Some default_health).
Definition web : ReplicaId := mkReplicaId "web" 1.
Definition api : ReplicaId := mkReplicaId "api" 1.
Definition demo_init : StackRuntimeStatus :=
  match from_plan demo_stack 1 zero_digest 10 with
  | Ok s => s
  | Err _ => mkStatus 0 "" 0 "" 0 [] ""
  end.
Definition demo_ops : list Op :=
  [BeginStart web zero_digest 20; MarkRunning web zero_digest 21;
   BeginStart api zero_digest 22; ProbeSignal api zero_digest 1 ProbeSignalKind.Started 23;
   ProbeSignal api zero_digest 2 ProbeSignalKind.Ready 24].
Definition demo_running : StackRuntimeStatus := default demo_init (run_ops demo_ops demo_init).
Definition demo_exit : Op := MarkExit web zero_digest false (Some 1%Z) "worker crashed" 40.
Definition demo_exited : StackRuntimeStatus := (exec demo_running demo_exit).1.
Definition replica_of (s : StackRuntimeStatus) (i : ReplicaId) : ReplicaRuntime :=
  default (planned_replica (demo_instance "web" 1 Never None) 1) (List.find (has_id i) s.(replicas)).

Lemma demo_from_plan : from_plan demo_stack 1 zero_digest 10 = Ok demo_init.
Proof. vm_compute. reflexivity. Qed.
Lemma demo_supervised : run_of demo_ops demo_init demo_running.
Proof. apply run_ops_run. vm_compute. reflexivity. Qed.
Lemma demo_reachable : reachable demo_running.
Proof. exists demo_stack, 1, zero_digest, 10, demo_init, demo_ops. split; [apply demo_from_plan|apply demo_supervised]. Qed.
Lemma demo_exit_ok : exec demo_running demo_exit = (demo_exited, Ok tt).
Proof. vm_compute. reflexivity. Qed.
Lemma demo_elem s i r : List.find (has_id i) s.(replicas) = Some r -> r ∈ s.(replicas).
Proof. intros [H _]%List.find_some. by apply list_elem_of_In. Qed.


Lemma supervisor_step_total_witness :
  enabled demo_running demo_exit = true
  /\ exists s', exec demo_running demo_exit = (s', Ok tt) /\ validate_status s' = Ok tt.
Proof.
  assert (op_time demo_exit < u64_max) as Ht by (vm_compute; reflexivity).
  pose proof (supervisor_step_total demo_running demo_exit demo_reachable Ht) as H.
  assert (enabled demo_running demo_exit = true) as He by (vm_compute; reflexivity).
  assert (probe_overrun demo_running demo_exit = false) as Hp by (vm_compute; reflexivity).
  rewrite He, Hp in H. split; [exact He|]. destruct H as (s' & H1 & _ & H2). exists s'. split; assumption.
Defined.


Lemma exited_run_is_fenced_witness :
  exists e, exec demo_exited (MarkRunning web zero_digest 50) = (demo_exited, Err e).
Proof.
  apply (exited_run_is_fenced demo_running demo_exited demo_exited web zero_digest "worker crashed"
           false (Some 1%Z) 40 [] (MarkRunning web zero_digest 50) demo_reachable);
    [vm_compute; reflexivity|exact demo_exit_ok|constructor| |vm_compute; reflexivity].
  intros now Hin. by apply elem_of_nil in Hin.
Defined.

Definition demo_finished : StackRuntimeStatus :=
  (exec demo_running (MarkExit web zero_digest true (Some 0%Z) "done" 40)).1.
Lemma demo_finished_reachable : reachable demo_finished.
Proof.
  exists demo_stack, 1, zero_digest, 10, demo_init,
    (demo_ops ++ [MarkExit web zero_digest true (Some 0%Z) "done" 40]).
  split; [apply demo_from_plan|]. apply run_ops_run. vm_compute. reflexivity.
Qed.

Lemma terminal_phases_absorbing_witness :
  (replica_of demo_finished web).(phase) = ReplicaPhase.Succeeded
  /\ (replica_of demo_finished web = replica_of demo_finished web
      \/ (replica_of demo_finished web).(phase) <> ReplicaPhase.Stopped).
Proof.
  split; [vm_compute; reflexivity|].
  assert (replica_of demo_finished web ∈ demo_finished.(replicas)) as Hin
    by (apply (demo_elem demo_finished web); vm_compute; reflexivity).
  destruct (terminal_phases_absorbing demo_finished demo_finished [] (replica_of demo_finished web)
    (replica_of demo_finished web) demo_finished_reachable (run_nil demo_finished) Hin
    ltac:(vm_compute; reflexivity) Hin eq_refl) as [H|(H & _)]; [left; exact H|right; exact H].
Defined.

Definition demo_signalled : StackRuntimeStatus :=
  (exec demo_running (ProbeSignal api zero_digest 3 ProbeSignalKind.Heartbeat 30)).1.

Lemma probe_replay_refused_witness :
  exists e, exec demo_signalled (ProbeSignal api zero_digest 3 ProbeSignalKind.Ready 31)
            = (demo_signalled, Err e).
Proof.
  apply (probe_replay_refused demo_running demo_signalled demo_signalled api zero_digest zero_digest
           3 3 30 31 ProbeSignalKind.Heartbeat ProbeSignalKind.Ready [] demo_reachable);
    [vm_compute; reflexivity|vm_compute; reflexivity|constructor| |lia].
  intros o Hin. by apply elem_of_nil in Hin.
Defined.

Lemma backoff_window_witness :
  exists next, (replica_of demo_exited web).(next_start_at_ms) = Some next /\ 290 <= next <= 30040.
Proof.
  destruct (backoff_window demo_running demo_exited web zero_digest "worker crashed" false (Some 1%Z) 40
    (replica_of demo_exited web) demo_reachable) as (next & Hn & Hb & _);
    [vm_compute; reflexivity|exact demo_exit_ok
    |apply (demo_elem demo_exited web); vm_compute; reflexivity|vm_compute; reflexivity..|].
  exists next. split; [exact Hn|]. lia.
Defined.

Lemma eligible_starts_exact_witness :
  mkReplicaId "api" 2 ∈ eligible_starts demo_running 60
  /\ exists s', exec demo_running (BeginStart (mkReplicaId "api" 2) zero_digest 60) = (s', Ok tt).
Proof.
  destruct (eligible_starts_exact demo_running (mkReplicaId "api" 2) zero_digest 60 demo_reachable)
    as [H _]; [by vm_compute|vm_compute; reflexivity..|].
  assert (mkReplicaId "api" 2 ∈ eligible_starts demo_running 60) as Hin by (vm_compute; left).
  split; [exact Hin|]. by apply H.
Defined.

Lemma recovery_ends_active_runs_witness :
  exists s', recover_interrupted demo_running 100 = (s', Ok 2) /\ validate_status s' = Ok tt.
Proof.
  destruct (recovery_ends_active_runs demo_running 100 demo_reachable) as (s' & Hs & Hv & _);
    [by vm_compute|vm_compute; reflexivity|].
  exists s'. split; [|exact Hv]. rewrite Hs. vm_compute. reflexivity.
Defined.

Lemma probe_gates_running_witness :
  exists run seq t, (replica_of demo_running api).(run_id) = Some run
    /\ ProbeSignal (replica_of demo_running api).(id) run seq ProbeSignalKind.Ready t ∈ demo_ops.
Proof.
  apply (probe_gates_running demo_stack 1 zero_digest 10 demo_init demo_running demo_ops
           (replica_of demo_running api) demo_from_plan demo_supervised);
    [apply (demo_elem demo_running api); vm_compute; reflexivity|by vm_compute|vm_compute; reflexivity].
Defined.
End Witnesses.
