(* ===== verification/Events.v ===== *)
(** * The event journal of the engine ([crates/cartridge-engine/src/lib.rs])

    Engine events with their checksums, the status an event stands for, and
    the journal: a directory with one file per event, named by its revision,
    read back as a checked chain. *)
From S2P Require Import Prelude Text Core Rolling Plan.

Definition ENGINE_EVENT_FORMAT_VERSION : N := 1.
Definition MAX_ENGINE_EVENTS_PER_STACK : N := 4096.
Definition MAX_ENGINE_EVENT_BYTES : N := 16 * 1024 * 1024.
Definition MAX_ENGINE_EVENT_HISTORY_BYTES : N := 64 * 1024 * 1024.

(** ** Data *)
Module EngineEventKind.
Inductive EngineEventKind := Apply | Stop | Remove.
#[global] Instance eq_dec : EqDecision EngineEventKind.
Proof. solve_decision. Defined.
End EngineEventKind.
Abbreviation EngineEventKind := EngineEventKind.EngineEventKind.

Module EngineStackState.
Inductive EngineStackState := Applied | Stopped | Removed.
#[global] Instance eq_dec : EqDecision EngineStackState.
Proof. solve_decision. Defined.
End EngineStackState.
Abbreviation EngineStackState := EngineStackState.EngineStackState.

Record EngineEvent := mkEvent {
  ev_format_version : N;
  ev_revision : N;
  ev_stack : string;
  ev_kind : EngineEventKind;
  previous_event_sha256 : string;
  created_at_ms : N;
  ev_plan : option StackPlan;
  event_sha256 : string;
}.
#[global] Instance event_eq_dec : EqDecision EngineEvent.
Proof. solve_decision. Defined.

Record StackStatus := mkStackStatus {
  ss_stack : string;
  ss_revision : N;
  ss_state : EngineStackState;
  ss_plan_sha256 : option string;
  ss_instance_count : N;
  ss_desired_replicas : N;
  ss_event_sha256 : string;
}.
#[global] Instance stack_status_eq_dec : EqDecision StackStatus.
Proof. solve_decision. Defined.

Record ApplyReport := mkApplyReport { changed : bool; report_status : StackStatus }.

Definition with_event_sha256 (self : EngineEvent) (sha : string) : EngineEvent :=
  mkEvent self.(ev_format_version) self.(ev_revision) self.(ev_stack) self.(ev_kind)
    self.(previous_event_sha256) self.(created_at_ms) self.(ev_plan) sha.

(** [{:020}]: the decimal digits of a [u64], padded to 20. *)
Fixpoint digits (width : nat) (n : N) : string :=
  match width with
  | O => EmptyString
  | S w => String (ascii_of_N (48 + n / 10 ^ N.of_nat w mod 10)) (digits w n)
  end.
Definition event_file_name (revision : N) : string := digits 20 revision +:+ ".json".

Fixpoint ends_with (value suffix : string) : bool :=
  bool_decide (value = suffix)
  || match value with String _ value' => ends_with value' suffix | EmptyString => false end.
(** [exact_suffix] *)
Definition exact_suffix (value suffix : string) : bool := ends_with value suffix.

(** A directory of regular files. *)
Abbreviation Directory := (gmap string bytes).

Section Events.
Context `{Ext : Externals} `{JP : !Json StackPlan} `{JE : !Json EngineEvent}.

Definition event_computed_sha256 (self : EngineEvent) : result string string :=
  let? bytes := to_vec (with_event_sha256 self "") in
  Ok (hex_sha256 bytes).

Definition validate_event (self : EngineEvent) : result string unit :=
  if negb (self.(ev_format_version) =? ENGINE_EVENT_FORMAT_VERSION)
     || (self.(ev_revision) =? 0)
     || (self.(created_at_ms) =? 0)
     || negb (valid_name self.(ev_stack))
     || ((self.(ev_revision) =? 1) && negb (str_is_empty self.(previous_event_sha256)))
     || ((1 <? self.(ev_revision)) && negb (is_digest self.(previous_event_sha256)))
     || negb (is_digest self.(event_sha256))
  then Err "engine event identity is invalid"
  else
    let? sha := event_computed_sha256 self in
    if negb (bool_decide (sha = self.(event_sha256))) then Err "engine event identity is invalid"
    else
      match self.(ev_kind) with
      | EngineEventKind.Apply =>
          let? plan := ok_or self.(ev_plan) "engine event is missing its plan" in
          let? _ := validate_plan plan in
          if negb (bool_decide (plan.(sp_stack) = self.(ev_stack)))
          then Err "engine event plan belongs to another stack" else Ok tt
      | EngineEventKind.Stop =>
          let? plan := ok_or self.(ev_plan) "engine event is missing its plan" in
          let? _ := validate_plan plan in
          if negb (bool_decide (plan.(sp_stack) = self.(ev_stack)))
             || existsb (fun i => negb (bool_decide (i.(pi_desired) = DesiredState.Stopped)))
                  plan.(sp_instances)
          then Err "stop event contains a running or foreign plan" else Ok tt
      | EngineEventKind.Remove =>
          if is_some self.(ev_plan) then Err "remove event cannot retain a plan" else Ok tt
      end.

(** [EngineEvent::new]; [now] is what the clock says, or its error. *)
Definition new_event (now : result string N) (revision : N) (stack : string) (kind : EngineEventKind)
    (previous : string) (plan : option StackPlan) : result string EngineEvent :=
  let? created := now in
  let value := mkEvent ENGINE_EVENT_FORMAT_VERSION revision stack kind previous created plan "" in
  let? sha := event_computed_sha256 value in
  let value := with_event_sha256 value sha in
  let? _ := validate_event value in
  Ok value.

Definition running_replicas (plan : StackPlan) : N :=
  sumN (pi_replicas <$> List.filter (fun i => bool_decide (i.(pi_desired) = DesiredState.Running))
                          plan.(sp_instances)).

Definition event_status (self : EngineEvent) : StackStatus :=
  mkStackStatus self.(ev_stack) self.(ev_revision)
    match self.(ev_kind) with
    | EngineEventKind.Apply => EngineStackState.Applied
    | EngineEventKind.Stop => EngineStackState.Stopped
    | EngineEventKind.Remove => EngineStackState.Removed
    end
    (sp_plan_sha256 <$> self.(ev_plan))
    (from_option (fun plan => len plan.(sp_instances)) 0 self.(ev_plan))
    (from_option running_replicas 0 self.(ev_plan))
    self.(event_sha256).

Definition next_event (now : result string N) (previous : option EngineEvent)
    (kind : EngineEventKind) (plan : option StackPlan) : result string EngineEvent :=
  let? stack := ok_or (match sp_stack <$> plan with
                       | Some stack => Some stack
                       | None => ev_stack <$> previous
                       end) "engine event has no stack identity" in
  new_event now (from_option (fun value => value.(ev_revision) + 1) 1 previous) stack kind
    (from_option event_sha256 "" previous) plan.

(** ** The journal directory

    An entry is a regular file; the directory lists its entries in any order
    and the reader sorts them. *)
Context `{DE : !JsonDecode EngineEvent}.

Definition read_bounded_event (content : bytes) (remaining : N) : result string (EngineEvent * N) :=
  let limit := N.min MAX_ENGINE_EVENT_BYTES remaining in
  if limit <? len content then Err "engine event must be a bounded regular file"
  else
    let? value := from_slice content in
    Ok (value, len content).

Fixpoint event_paths (entries : list (string * bytes)) : result string (list (string * bytes)) :=
  match entries with
  | [] => Ok []
  | (name, content) :: entries =>
      if exact_suffix name ".json" then
        let? paths := event_paths entries in
        Ok ((name, content) :: paths)
      else if negb (starts_with name ".engine-event-" && exact_suffix name ".tmp")
      then Err "engine event directory contains an unexpected entry"
      else event_paths entries
  end.

Fixpoint check_chain (stack : string) (events : list EngineEvent) (total : N)
    (paths : list (string * bytes)) : result string (list EngineEvent * N) :=
  match paths with
  | [] => Ok (events, total)
  | (name, content) :: paths =>
      let? remaining := ok_or (checked_sub MAX_ENGINE_EVENT_HISTORY_BYTES total)
                              "engine event history byte limit exceeded" in
      let? (event, size) := read_bounded_event content remaining in
      let? total := ok_or (checked_add u64_max total size) "engine event history byte count overflow" in
      let? _ := validate_event event in
      let expected_revision := from_option (fun value => value.(ev_revision) + 1) 1 (last events) in
      let expected_previous := from_option event_sha256 "" (last events) in
      if negb (bool_decide (event.(ev_stack) = stack))
         || negb (event.(ev_revision) =? expected_revision)
         || negb (bool_decide (event.(previous_event_sha256) = expected_previous))
         || negb (bool_decide (name = event_file_name event.(ev_revision)))
      then Err "engine event journal is not a canonical chain"
      else check_chain stack (events ++ [event]) total paths
  end.

Definition read_events_with_size (path : option Directory) (stack : string) :
    result string (list EngineEvent * N) :=
  match path with
  | None => Ok ([], 0)
  | Some directory =>
      let? paths := event_paths (btree_iter directory) in
      if MAX_ENGINE_EVENTS_PER_STACK <? len paths then Err "engine event history limit exceeded"
      else check_chain stack [] 0 paths
  end.

(** [EngineStore::append], after the validation of the event and up to the
    write: the event continues the journal and fits; the result is its
    encoding. *)
Definition prepare_append (path : option Directory) (event : EngineEvent) : result string bytes :=
  let? (current, current_bytes) := read_events_with_size path event.(ev_stack) in
  if MAX_ENGINE_EVENTS_PER_STACK <=? len current then Err "engine event history limit reached"
  else
    let expected_revision := from_option (fun value => value.(ev_revision) + 1) 1 (last current) in
    let expected_previous := from_option event_sha256 "" (last current) in
    if negb (event.(ev_revision) =? expected_revision)
       || negb (bool_decide (event.(previous_event_sha256) = expected_previous))
    then Err "engine event does not continue the current journal"
    else
      let? bytes := to_vec event in
      if MAX_ENGINE_EVENT_BYTES <? len bytes then Err "engine event exceeds its byte limit"
      else if is_none_or (fun total => MAX_ENGINE_EVENT_HISTORY_BYTES <? total)
                (checked_add u64_max current_bytes (len bytes))
      then Err "engine event history byte limit reached"
      else Ok bytes.

(** [EngineStore::append] with the write as the update of the directory: a file
    that exists is not replaced. *)
Definition append_event (path : option Directory) (event : EngineEvent) : result string Directory :=
  let? _ := validate_event event in
  let directory := default ∅ path in
  let? bytes := prepare_append (Some directory) event in
  match directory !! event_file_name event.(ev_revision) with
  | Some _ => Err "File exists"
  | None => Ok (<[event_file_name event.(ev_revision) := bytes]> directory)
  end.
End Events.

(** ** File names order like revisions *)
Lemma str_lt_compare a b : str_lt a b = true <-> String.compare a b = Lt.
Proof.
  unfold str_lt, String.le, String.leb. split.
  - intros [H1 H2]%andb_true_iff. bprop. destruct (String.compare a b) eqn:E; try done.
    by apply String.compare_eq_iff in E.
  - intros H. rewrite H. apply andb_true_iff. split; [by apply bool_decide_eq_true|].
    apply negb_true_iff, bool_decide_eq_false. intros ->.
    pose proof (String.compare_antisym b b) as E. by rewrite H in E.
Qed.

Lemma digit_compare m n :
  m < 10 -> n < 10 -> Ascii.compare (ascii_of_N (48 + m)) (ascii_of_N (48 + n)) = (m ?= n).
Proof.
  intros. unfold Ascii.compare. rewrite !N_ascii_embedding by lia.
  destruct (N.compare_spec m n), (N.compare_spec (48 + m) (48 + n)); lia || done.
Qed.

Lemma digits_compare w a b suffix :
  a mod 10 ^ N.of_nat w < b mod 10 ^ N.of_nat w ->
  String.compare (digits w a +:+ suffix) (digits w b +:+ suffix) = Lt.
Proof.
  induction w as [|w IH]; [rewrite !N.mod_1_r; lia|].
  rewrite Nat2N.inj_succ, N.pow_succ_r', (N.mul_comm 10), !N.Div0.mod_mul_r. intros Hlt.
  cbn [digits]. set (P := 10 ^ N.of_nat w) in *.
  assert (P <> 0) as HP by (apply N.pow_nonzero; lia).
  pose proof (N.mod_upper_bound a P HP). pose proof (N.mod_upper_bound b P HP).
  pose proof (N.mod_upper_bound (a / P) 10 ltac:(lia)). pose proof (N.mod_upper_bound (b / P) 10 ltac:(lia)).
  cbn [String.app String.compare]. change (String ?x ?y +:+ ?z) with (String x (y +:+ z)).
  cbn [String.compare]. rewrite digit_compare by done.
  destruct (N.compare_spec (a / P mod 10) (b / P mod 10)) as [He|Hl|Hg]; [apply IH|done|exfalso].
  - rewrite He in Hlt. lia.
  - assert (P * (b / P mod 10 + 1) <= P * (a / P mod 10)) as Hm by (apply N.mul_le_mono_l; lia).
    rewrite N.mul_add_distr_l in Hm. clear - Hm Hlt H H0. revert Hm Hlt H H0.
    generalize (a mod P) (b mod P) (P * (a / P mod 10)) (P * (b / P mod 10)). lia.
Qed.

Lemma event_file_name_lt a b :
  a < b -> b <= u64_max -> str_lt (event_file_name a) (event_file_name b) = true.
Proof.
  intros Hab Hb. apply str_lt_compare, digits_compare. unfold u64_max in Hb.
  rewrite !N.mod_small by (change (10 ^ N.of_nat 20) with 100000000000000000000; lia). done.
Qed.

Lemma event_file_name_json n : exact_suffix (event_file_name n) ".json" = true.
Proof.
  unfold event_file_name, exact_suffix. generalize 20%nat as w. induction w as [|w IH]; [done|].
  cbn [digits]. change (String ?x ?y +:+ ?z) with (String x (y +:+ z)). cbn [ends_with].
  rewrite IH. apply orb_true_r.
Qed.

(** ** Reading a journal *)
Definition is_event_file (entry : string * bytes) : bool := exact_suffix entry.1 ".json".
Definition allowed_entry (entry : string * bytes) : bool :=
  is_event_file entry || (starts_with entry.1 ".engine-event-" && exact_suffix entry.1 ".tmp").

Lemma event_paths_spec l :
  event_paths l = if forallb allowed_entry l then Ok (List.filter is_event_file l)
                  else Err "engine event directory contains an unexpected entry".
Proof.
  induction l as [|[name content] l IH]; [done|]. cbn [event_paths forallb List.filter].
  unfold allowed_entry, is_event_file in *. cbn [fst]. destruct (exact_suffix name ".json"); cbn [orb].
  - rewrite IH. cbn [andb]. by destruct (forallb _ l).
  - destruct (starts_with name ".engine-event-" && exact_suffix name ".tmp"); cbn [negb andb]; done.
Qed.

Lemma StronglySorted_filter {A : Type} (R : relation A) (f : A -> bool) (l : list A) :
  StronglySorted R l -> StronglySorted R (List.filter f l).
Proof.
  induction 1 as [|x l Hs IH Hall]; [constructor|]. cbn. destruct (f x); [|done]. constructor; [done|].
  rewrite Forall_forall in Hall |- *. intros y [Hy _]%list_elem_of_In%List.filter_In. auto using list_elem_of_In.
  apply Hall. by apply list_elem_of_In.
Qed.

Lemma btree_iter_sorted {V : Type} (m : gmap string V) : StronglySorted key_le (btree_iter m).
Proof. apply (StronglySorted_merge_sort key_le). Qed.

Lemma forallb_perm {A : Type} (f : A -> bool) (l k : list A) : l ≡ₚ k -> forallb f l = forallb f k.
Proof.
  induction 1 as [|x l k _ IH|x y l|l k j _ IH1 _ IH2]; cbn; [done|by rewrite IH| |by rewrite IH1].
  by rewrite !andb_assoc, (andb_comm (f x)).
Qed.

Lemma filter_perm {A : Type} (f : A -> bool) (l k : list A) :
  l ≡ₚ k -> List.filter f l ≡ₚ List.filter f k.
Proof.
  induction 1 as [|x l k _ IH|x y l|l k j _ IH1 _ IH2]; cbn; [done|by destruct (f x); rewrite ?IH| |by rewrite IH1].
  destruct (f x), (f y); try done. apply Permutation_swap.
Qed.

(** A new last file comes last in the listing. *)
Lemma filter_insert_last (m : gmap string bytes) k v :
  m !! k = None -> is_event_file (k, v) = true ->
  (forall x, x ∈ List.filter is_event_file (btree_iter m) -> String.le x.1 k) ->
  List.filter is_event_file (btree_iter (<[k := v]> m))
  = List.filter is_event_file (btree_iter m) ++ [(k, v)].
Proof.
  intros Hk Hj Hle.
  assert (btree_iter (<[k := v]> m) ≡ₚ btree_iter m ++ [(k, v)]) as Hperm.
  { rewrite !btree_iter_perm, map_to_list_insert by done. by rewrite (Permutation_cons_append _ (k, v)). }
  assert (List.filter is_event_file (btree_iter (<[k := v]> m))
          ≡ₚ List.filter is_event_file (btree_iter m) ++ [(k, v)]) as Hperm'.
  { rewrite (filter_perm is_event_file _ _ Hperm), List.filter_app. cbn [List.filter]. by rewrite Hj. }
  eapply (StronglySorted_unique_strong key_le); [| | |exact Hperm'].
  - intros [k1 v1] [k2 v2] H1 H2 Hle1 Hle2. unfold key_le in Hle1, Hle2. cbn in Hle1, Hle2.
    assert (k1 = k2) as <- by (by apply (anti_symm String.le)). rewrite <- Hperm' in H2.
    apply list_elem_of_In, List.filter_In in H1 as [H1 _], H2 as [H2 _].
    apply list_elem_of_In, btree_iter_elem in H1, H2. congruence.
  - apply StronglySorted_filter, btree_iter_sorted.
  - apply StronglySorted_app. split_and!; [|apply StronglySorted_filter, btree_iter_sorted|repeat constructor].
    intros x y Hx ->%list_elem_of_singleton. by apply Hle.
Qed.

(** The events of a journal: numbered from 1, each valid and pointing to the
    one before. *)
Section Journal.
Context `{Ext : Externals} `{JP : !Json StackPlan} `{JE : !Json EngineEvent} `{DE : !JsonDecode EngineEvent}.

Definition next_revision (es : list EngineEvent) : N :=
  from_option (fun value => value.(ev_revision) + 1) 1 (last es).
Definition next_previous (es : list EngineEvent) : string := from_option event_sha256 "" (last es).

Inductive chain (stack : string) : list EngineEvent -> Prop :=
| chain_nil : chain stack []
| chain_snoc es e :
    chain stack es -> validate_event e = Ok tt -> e.(ev_stack) = stack ->
    e.(ev_revision) = next_revision es -> e.(previous_event_sha256) = next_previous es ->
    chain stack (es ++ [e]).

Lemma chain_revision stack es : chain stack es -> next_revision es = len es + 1.
Proof.
  induction 1 as [|es e _ IH _ _ Hr _]; [done|]. unfold next_revision. rewrite last_snoc. cbn.
  unfold len in *. rewrite Hr, IH, length_app. cbn. lia.
Qed.

Lemma check_chain_app stack es t p1 p2 :
  check_chain stack es t (p1 ++ p2) =
  let? (es', t') := check_chain stack es t p1 in check_chain stack es' t' p2.
Proof.
  revert es t. induction p1 as [|[name content] p1 IH]; intros es t; [done|]. cbn [check_chain app].
  destruct (ok_or _ _); [|done]. destruct (read_bounded_event _ _) as [[ev size]|]; [|done].
  destruct (ok_or _ _); [|done]. destruct (validate_event ev); [|done].
  destruct (_ || _); [done|]. apply IH.
Qed.

Lemma check_chain_spec stack es t paths es' t' :
  check_chain stack es t paths = Ok (es', t') -> chain stack es ->
  t <= MAX_ENGINE_EVENT_HISTORY_BYTES ->
  chain stack es'
  /\ (exists new, es' = es ++ new /\ length new = length paths
        /\ paths.*1 = (fun e => event_file_name e.(ev_revision)) <$> new)
  /\ t' = t + sumN (len <$> paths.*2) /\ t' <= MAX_ENGINE_EVENT_HISTORY_BYTES.
Proof.
  revert es t. induction paths as [|[name content] paths IH]; intros es t; cbn [check_chain].
  { intros [= <- <-] Hc Ht. split_and!; [done|exists []; by rewrite app_nil_r|csimpl; rewrite sumN_nil; lia|done]. }
  unfold ok_or. destruct (checked_sub _ t) as [remaining|] eqn:Hsub; [|done].
  apply checked_sub_Some in Hsub as [-> _]. unfold read_bounded_event.
  destruct (N.ltb_spec (N.min MAX_ENGINE_EVENT_BYTES (MAX_ENGINE_EVENT_HISTORY_BYTES - t)) (len content)); [done|].
  destruct (from_slice content) as [ev|] eqn:Hev; [|done].
  destruct (checked_add u64_max t (len content)) as [t1|] eqn:Hadd; [|done].
  apply checked_add_Some in Hadd as [-> _].
  destruct (validate_event ev) as [[]|] eqn:Hv; [|done]. pass Hg. split_guard. intros Hrec Hc Ht.
  destruct (IH _ _ Hrec) as (Hc' & (new & -> & Hlen & Hnames) & -> & Hle);
    [by apply chain_snoc|lia|].
  split_and!; [done| |csimpl; rewrite sumN_cons; lia|done].
  exists (ev :: new). rewrite <- app_assoc. csimpl. split_and!; [done|by rewrite Hlen|].
  by rewrite Hnames, <- H0.
Qed.

Lemma read_events_spec path stack es n :
  read_events_with_size path stack = Ok (es, n) ->
  chain stack es /\ len es <= MAX_ENGINE_EVENTS_PER_STACK /\ n <= MAX_ENGINE_EVENT_HISTORY_BYTES
  /\ (forall dir, path = Some dir ->
        forallb allowed_entry (btree_iter dir) = true
        /\ check_chain stack [] 0 (List.filter is_event_file (btree_iter dir)) = Ok (es, n)
        /\ (List.filter is_event_file (btree_iter dir)).*1
           = (fun e => event_file_name e.(ev_revision)) <$> es).
Proof.
  unfold read_events_with_size. destruct path as [dir|].
  2:{ intros [= <- <-]. split_and!; [constructor|done|done|done]. }
  rewrite event_paths_spec. destruct (forallb _ _) eqn:Hall; [|done].
  destruct (N.ltb_spec MAX_ENGINE_EVENTS_PER_STACK (len (List.filter is_event_file (btree_iter dir)))); [done|].
  intros Hc. destruct (check_chain_spec _ _ _ _ _ _ Hc (chain_nil stack)) as (? & (new & -> & Hl & Hn) & _ & ?);
    [lia|]. cbn in *. split_and!; [done|unfold len in *; lia|done|]. by intros dir' [= <-].
Qed.

Lemma chain_elem stack es e : chain stack es -> e ∈ es ->
  e.(ev_revision) <= len es /\ validate_event e = Ok tt /\ e.(ev_stack) = stack.
Proof.
  induction 1 as [|es x Hc IH Hv Hs Hr Hp]; [by intros ?%elem_of_nil|].
  pose proof (chain_revision _ _ Hc) as Hnr. unfold len in *. rewrite length_app. cbn.
  intros [He|Hx%list_elem_of_singleton]%elem_of_app.
  - destruct (IH He) as (? & ? & ?). split_and!; try done. lia.
  - subst x. split_and!; try done. lia.
Qed.

Lemma prepare_append_inv path e b :
  prepare_append path e = Ok b ->
  exists es n,
    read_events_with_size path e.(ev_stack) = Ok (es, n) /\ len es < MAX_ENGINE_EVENTS_PER_STACK
    /\ e.(ev_revision) = next_revision es /\ e.(previous_event_sha256) = next_previous es
    /\ to_vec e = Ok b /\ len b <= MAX_ENGINE_EVENT_BYTES
    /\ n + len b <= MAX_ENGINE_EVENT_HISTORY_BYTES.
Proof.
  unfold prepare_append. destruct (read_events_with_size _ _) as [[es n]|]; [|done].
  destruct (N.leb_spec MAX_ENGINE_EVENTS_PER_STACK (len es)); [done|].
  pass Hg. split_guard. destruct (to_vec e) as [b'|]; [|done].
  destruct (N.ltb_spec MAX_ENGINE_EVENT_BYTES (len b')); [done|].
  destruct (checked_add u64_max n (len b')) as [t|] eqn:Ht; cbn [is_none_or]; [|done].
  apply checked_add_Some in Ht as [-> _].
  destruct (N.ltb_spec MAX_ENGINE_EVENT_HISTORY_BYTES (n + len b')); [done|]. intros [= <-]. by exists es, n.
Qed.

Lemma append_inv path e dir' :
  append_event path e = Ok dir' ->
  exists es n b,
    read_events_with_size (Some (default ∅ path)) e.(ev_stack) = Ok (es, n)
    /\ validate_event e = Ok tt /\ len es < MAX_ENGINE_EVENTS_PER_STACK
    /\ e.(ev_revision) = next_revision es /\ e.(previous_event_sha256) = next_previous es
    /\ to_vec e = Ok b /\ len b <= MAX_ENGINE_EVENT_BYTES
    /\ n + len b <= MAX_ENGINE_EVENT_HISTORY_BYTES
    /\ default ∅ path !! event_file_name e.(ev_revision) = None
    /\ dir' = <[event_file_name e.(ev_revision) := b]> (default ∅ path).
Proof.
  unfold append_event. destruct (validate_event e) as [[]|]; [|done].
  destruct (prepare_append _ _) as [b|] eqn:Hp; [|done].
  apply prepare_append_inv in Hp as (es & n & ? & ? & ? & ? & ? & ? & ?).
  destruct (default ∅ path !! _) eqn:Hl; [done|]. intros [= <-]. by exists es, n, b.
Qed.

Context `{RT : !JsonRoundTrip EngineEvent}.

(** The journal with the file of the next event. *)
Lemma read_insert (dir : Directory) (e : EngineEvent) (es : list EngineEvent) (n : N) (b : bytes) :
  read_events_with_size (Some dir) e.(ev_stack) = Ok (es, n) -> validate_event e = Ok tt ->
  len es < MAX_ENGINE_EVENTS_PER_STACK ->
  e.(ev_revision) = next_revision es -> e.(previous_event_sha256) = next_previous es ->
  to_vec e = Ok b -> len b <= MAX_ENGINE_EVENT_BYTES -> n + len b <= MAX_ENGINE_EVENT_HISTORY_BYTES ->
  dir !! event_file_name e.(ev_revision) = None ->
  read_events_with_size (Some (<[event_file_name e.(ev_revision) := b]> dir)) e.(ev_stack)
  = Ok (es ++ [e], n + len b).
Proof.
  intros Hread Hv Hlen Hrev Hprev Hb Hbl Hnb Hnone.
  destruct (read_events_spec _ _ _ _ Hread) as (Hc & _ & Hn & Hd).
  destruct (Hd dir eq_refl) as (Hall & Hchain & Hnames). pose proof (chain_revision _ _ Hc) as Hnr. rewrite <- Hrev in Hnr.
  set (name := event_file_name (ev_revision e)) in *.
  assert (is_event_file (name, b) = true) as Hj by apply event_file_name_json.
  assert (btree_iter (<[name := b]> dir) ≡ₚ (name, b) :: btree_iter dir) as Hperm
    by (rewrite !btree_iter_perm; by apply map_to_list_insert).
  unfold read_events_with_size. rewrite event_paths_spec, (forallb_perm _ _ _ Hperm). cbn [forallb].
  rewrite Hall. unfold allowed_entry at 1. rewrite Hj. cbn [orb andb].
  rewrite filter_insert_last; [|done|done|].
  - assert (length (List.filter is_event_file (btree_iter dir)) = length es) as Hl
      by (rewrite <- (length_fmap fst), Hnames; apply length_fmap).
    destruct (N.ltb_spec MAX_ENGINE_EVENTS_PER_STACK
      (len (List.filter is_event_file (btree_iter dir) ++ [(name, b)]))) as [Hlt|_].
    { unfold len in Hlt, Hlen. rewrite length_app, Hl in Hlt. cbn in Hlt. lia. }
    rewrite check_chain_app, Hchain. cbn [check_chain].
    rewrite (proj2 (checked_sub_Some _ _ _) (conj eq_refl Hn)). cbn [ok_or]. unfold read_bounded_event.
    destruct (N.ltb_spec (N.min MAX_ENGINE_EVENT_BYTES (MAX_ENGINE_EVENT_HISTORY_BYTES - n)) (len b)); [lia|].
    rewrite (from_slice_to_vec e b Hb).
    assert (n + len b <= u64_max) as Hu by (unfold MAX_ENGINE_EVENT_HISTORY_BYTES, u64_max in *; lia).
    rewrite (proj2 (checked_add_Some u64_max n (len b) (n + len b)) (conj eq_refl Hu)).
    cbn [ok_or]. rewrite Hv. fold (next_revision es). fold (next_previous es).
    rewrite <- Hrev, <- Hprev, N.eqb_refl, !bool_decide_eq_true_2 by done. done.
  - intros x Hx. apply (list_elem_of_fmap_2 fst) in Hx. rewrite Hnames in Hx.
    apply list_elem_of_fmap in Hx as (e' & -> & He'). destruct (chain_elem _ _ _ Hc He') as (Hle & _).
    assert (str_lt (event_file_name (ev_revision e')) name = true) as Hlt.
    { apply event_file_name_lt; [lia|]. unfold MAX_ENGINE_EVENTS_PER_STACK, u64_max in *. lia. }
    unfold str_lt in Hlt. bprop. done.
Qed.
(** ** Theorems *)

(** A journal that reads is a chain: its events are valid, belong to the
    stack, are numbered 1, 2, 3, ... without a gap, each carries the checksum
    of the one before (the first none), and their number and total size are
    within the limits; anything else in the directory is refused. *)
Theorem journal_reads_as_chain (path : option Directory) (stack : string) (es : list EngineEvent) (n : N)
    (Hread : read_events_with_size path stack = Ok (es, n)) :
  len es <= 4096 /\ n <= MAX_ENGINE_EVENT_HISTORY_BYTES
  /\ forall i e, es !! i = Some e ->
       validate_event e = Ok tt /\ e.(ev_stack) = stack /\ e.(ev_revision) = N.of_nat i + 1
       /\ e.(previous_event_sha256)
          = match i with O => "" | S j => from_option event_sha256 "" (es !! j) end.
Proof.
  destruct (read_events_spec _ _ _ _ Hread) as (Hc & Hl & Hn & _). split_and!; [done|done|]. clear Hread Hl Hn.
  induction Hc as [|es x Hc IH Hv Hs Hr Hp]; [done|]. intros i e Hi.
  apply lookup_snoc_Some in Hi as [[Hlt Hi]|[-> ->]].
  - destruct (IH i e Hi) as (? & ? & ? & Hprev). split_and!; try done. rewrite Hprev.
    destruct i as [|j]; [done|]. by rewrite lookup_app_l by lia.
  - split_and!; try done.
    + rewrite Hr, (chain_revision _ _ Hc). unfold len. lia.
    + rewrite Hp. unfold next_previous. rewrite last_lookup.
      destruct (length es) as [|j] eqn:Hl; [by destruct es|]. cbn. by rewrite lookup_app_l by lia.
Qed.

(** Appending an event is durable and loses nothing: after a successful
    append the journal reads back as the old events followed by the new one,
    the size grows by the size of its encoding, and no file that was there is
    changed or removed. *)
Theorem append_then_read (dir dir' : Directory) (e : EngineEvent) (es : list EngineEvent) (n : N)
    (Hread : read_events_with_size (Some dir) e.(ev_stack) = Ok (es, n))
    (Happend : append_event (Some dir) e = Ok dir') :
  exists b, to_vec e = Ok b
    /\ read_events_with_size (Some dir') e.(ev_stack) = Ok (es ++ [e], n + len b)
    /\ dir ⊆ dir'.
Proof.
  apply append_inv in Happend as (es1 & n1 & b & Hr1 & Hv & Hlen & Hrev & Hprev & Hb & Hbl & Hnb & Hnone & ->).
  change (default ∅ (Some dir)) with dir in *. rewrite Hread in Hr1. injection Hr1 as <- <-.
  exists b. split_and!; [done|by apply read_insert|by apply insert_subseteq].
Qed.
End Journal.

(** ** A concrete journal *)
Section Witnesses.
#[local] Existing Instance demo_externals.
#[local] Instance plan_json : Json StackPlan := demo_json.

Definition draft_event (rev : N) (prev sha : string) : EngineEvent :=
  mkEvent 1 rev "shop" EngineEventKind.Apply prev 7 (Some (demo_plan OnFailure None)) sha.
(** Both drafts and both events, checksums under the table encoding below. *)
Definition sum_of (n : N) : string := hex_encode (checksum [default x00 (Byte.of_N n)]).
Definition event_one : EngineEvent := draft_event 1 "" (sum_of 0).
Definition event_two : EngineEvent := draft_event 2 (sum_of 0) (sum_of 1).
Definition event_table : list EngineEvent :=
  [draft_event 1 "" ""; draft_event 2 (sum_of 0) ""; event_one; event_two].
#[local] Instance event_json : Json EngineEvent := table_json event_table.
#[local] Instance event_decode : JsonDecode EngineEvent := table_decode event_table.
#[local] Instance event_round_trip : JsonRoundTrip EngineEvent := table_round_trip event_table.

Definition journal_one : Directory :=
  match append_event None event_one with Ok d => d | Err _ => ∅ end.
Definition journal_two : Directory :=
  match append_event (Some journal_one) event_two with Ok d => d | Err _ => ∅ end.

Lemma journal_reads_as_chain_witness :
  read_events_with_size (Some journal_two) "shop" = Ok ([event_one; event_two], 2)
  /\ event_two.(previous_event_sha256) = event_one.(event_sha256).
Proof.
  assert (read_events_with_size (Some journal_two) "shop" = Ok ([event_one; event_two], 2)) as Hr
    by (vm_compute; reflexivity).
  split; [exact Hr|].
  destruct (journal_reads_as_chain (Some journal_two) "shop" _ _ Hr) as (_ & _ & H).
  destruct (H 1%nat event_two eq_refl) as (_ & _ & _ & Hp). exact Hp.
Defined.

Lemma append_then_read_witness :
  exists b, to_vec event_two = Ok b
    /\ read_events_with_size (Some journal_two) "shop" = Ok ([event_one] ++ [event_two], 1 + len b).
Proof.
  destruct (append_then_read journal_one journal_two event_two [event_one] 1) as (b & Hb & Hr & _);
    [vm_compute; reflexivity..|].
  exists b. split; [exact Hb|exact Hr].
Defined.
End Witnesses.
