(* ===== verification/Health.v ===== *)
(** * Stack health ([crates/cartridge-engine/src/health.rs])

    The health report derived from the desired state of a stack and the
    observed status of its replicas, and the validation of reports. *)
From S2P Require Import Prelude Text Core Rolling Plan Supervisor SupervisorSpec SupervisorTheorems Events.

Definition ENGINE_HEALTH_FORMAT_VERSION : N := 2.
Definition SUPERVISOR_STALE_AFTER_MS : N := 20000.
Definition MAX_ENGINE_HEALTH_REPORTS : N := 64.

Module StackHealthState.
Inductive StackHealthState :=
| Healthy | Starting | Degraded | Failed | Completed | Stopped | Removed | Stale.
#[global] Instance eq_dec : EqDecision StackHealthState.
Proof. solve_decision. Defined.
End StackHealthState.
Abbreviation StackHealthState := StackHealthState.StackHealthState.

(** The replica and probe counters of a report. *)
Record Counts := mkCounts {
  pending : N;
  starting : N;
  running : N;
  backoff : N;
  succeeded : N;
  failed : N;
  exhausted : N;
  stopped_count : N;
  probe_waiting : N;
  probe_ready_count : N;
  probe_unhealthy : N;
}.
Definition zero_counts : Counts := mkCounts 0 0 0 0 0 0 0 0 0 0 0.

Record StackHealthReport := mkReport {
  hr_format_version : N;
  hr_stack : string;
  hr_revision : N;
  desired_state : EngineStackState;
  hr_state : StackHealthState;
  hr_observed_at_ms : N;
  runtime_observed_at_ms : option N;
  desired_replicas : N;
  replicas_total : N;
  counts : Counts;
  report_sha256 : string;
}.

Definition with_report_sha256 (self : StackHealthReport) (sha : string) : StackHealthReport :=
  mkReport self.(hr_format_version) self.(hr_stack) self.(hr_revision) self.(desired_state)
    self.(hr_state) self.(hr_observed_at_ms) self.(runtime_observed_at_ms) self.(desired_replicas)
    self.(replicas_total) self.(counts) sha.
Definition with_hr_state (self : StackHealthReport) (st : StackHealthState) : StackHealthReport :=
  mkReport self.(hr_format_version) self.(hr_stack) self.(hr_revision) self.(desired_state)
    st self.(hr_observed_at_ms) self.(runtime_observed_at_ms) self.(desired_replicas)
    self.(replicas_total) self.(counts) self.(report_sha256).
Definition with_counts (self : StackHealthReport) (total : N) (c : Counts) : StackHealthReport :=
  mkReport self.(hr_format_version) self.(hr_stack) self.(hr_revision) self.(desired_state)
    self.(hr_state) self.(hr_observed_at_ms) self.(runtime_observed_at_ms) self.(desired_replicas)
    total c self.(report_sha256).

Definition validate_stack_status (status : StackStatus) : result string unit :=
  if negb (valid_name status.(ss_stack))
     || (status.(ss_revision) =? 0)
     || (MAX_STACK_INSTANCES <? status.(ss_instance_count))
     || (MAX_STACK_TOTAL_REPLICAS <? status.(ss_desired_replicas))
     || negb (is_digest status.(ss_event_sha256))
     || is_some_and (fun value => negb (is_digest value)) status.(ss_plan_sha256)
     || match status.(ss_state) with
        | EngineStackState.Applied | EngineStackState.Stopped => is_none status.(ss_plan_sha256)
        | EngineStackState.Removed =>
            is_some status.(ss_plan_sha256)
            || negb (status.(ss_instance_count) =? 0)
            || negb (status.(ss_desired_replicas) =? 0)
        end
  then Err "stack status is invalid" else Ok tt.

(** ** Counting *)
Definition bump (count : N) (message : string) : result string N :=
  ok_or (checked_add u16_max count 1) message.

Definition count_phase (c : Counts) (p : ReplicaPhase) : result string Counts :=
  let message := "health replica count overflow" in
  match p with
  | ReplicaPhase.Pending =>
      let? n := bump c.(pending) message in
      Ok (mkCounts n c.(starting) c.(running) c.(backoff) c.(succeeded) c.(failed) c.(exhausted)
            c.(stopped_count) c.(probe_waiting) c.(probe_ready_count) c.(probe_unhealthy))
  | ReplicaPhase.Starting =>
      let? n := bump c.(starting) message in
      Ok (mkCounts c.(pending) n c.(running) c.(backoff) c.(succeeded) c.(failed) c.(exhausted)
            c.(stopped_count) c.(probe_waiting) c.(probe_ready_count) c.(probe_unhealthy))
  | ReplicaPhase.Running =>
      let? n := bump c.(running) message in
      Ok (mkCounts c.(pending) c.(starting) n c.(backoff) c.(succeeded) c.(failed) c.(exhausted)
            c.(stopped_count) c.(probe_waiting) c.(probe_ready_count) c.(probe_unhealthy))
  | ReplicaPhase.Backoff =>
      let? n := bump c.(backoff) message in
      Ok (mkCounts c.(pending) c.(starting) c.(running) n c.(succeeded) c.(failed) c.(exhausted)
            c.(stopped_count) c.(probe_waiting) c.(probe_ready_count) c.(probe_unhealthy))
  | ReplicaPhase.Succeeded =>
      let? n := bump c.(succeeded) message in
      Ok (mkCounts c.(pending) c.(starting) c.(running) c.(backoff) n c.(failed) c.(exhausted)
            c.(stopped_count) c.(probe_waiting) c.(probe_ready_count) c.(probe_unhealthy))
  | ReplicaPhase.Failed =>
      let? n := bump c.(failed) message in
      Ok (mkCounts c.(pending) c.(starting) c.(running) c.(backoff) c.(succeeded) n c.(exhausted)
            c.(stopped_count) c.(probe_waiting) c.(probe_ready_count) c.(probe_unhealthy))
  | ReplicaPhase.Exhausted =>
      let? n := bump c.(exhausted) message in
      Ok (mkCounts c.(pending) c.(starting) c.(running) c.(backoff) c.(succeeded) c.(failed) n
            c.(stopped_count) c.(probe_waiting) c.(probe_ready_count) c.(probe_unhealthy))
  | ReplicaPhase.Stopped =>
      let? n := bump c.(stopped_count) message in
      Ok (mkCounts c.(pending) c.(starting) c.(running) c.(backoff) c.(succeeded) c.(failed)
            c.(exhausted) n c.(probe_waiting) c.(probe_ready_count) c.(probe_unhealthy))
  end.

Definition count_probe (c : Counts) (p : ProbePhase) : result string Counts :=
  let message := "health probe count overflow" in
  match p with
  | ProbePhase.Waiting =>
      let? n := bump c.(probe_waiting) message in
      Ok (mkCounts c.(pending) c.(starting) c.(running) c.(backoff) c.(succeeded) c.(failed)
            c.(exhausted) c.(stopped_count) n c.(probe_ready_count) c.(probe_unhealthy))
  | ProbePhase.Ready =>
      let? n := bump c.(probe_ready_count) message in
      Ok (mkCounts c.(pending) c.(starting) c.(running) c.(backoff) c.(succeeded) c.(failed)
            c.(exhausted) c.(stopped_count) c.(probe_waiting) n c.(probe_unhealthy))
  | ProbePhase.Unhealthy =>
      let? n := bump c.(probe_unhealthy) message in
      Ok (mkCounts c.(pending) c.(starting) c.(running) c.(backoff) c.(succeeded) c.(failed)
            c.(exhausted) c.(stopped_count) c.(probe_waiting) c.(probe_ready_count) n)
  end.

Fixpoint count_replicas (c : Counts) (l : list ReplicaRuntime) : result string Counts :=
  match l with
  | [] => Ok c
  | replica :: l =>
      let? c := count_phase c replica.(phase) in
      let? c := match replica.(probe) with
                | Some p => count_probe c p.(probe_phase)
                | None => Ok c
                end in
      count_replicas c l
  end.

(** ** States *)
Definition waiting (c : Counts) : N := c.(pending) + c.(starting) + c.(backoff).
Definition failures (c : Counts) : N := c.(failed) + c.(exhausted).
Definition successful (c : Counts) : N := c.(running) + c.(succeeded).

Definition derived_applied_state (self : StackHealthReport) (now_ms observed : N) : StackHealthState :=
  let c := self.(counts) in
  let live := (0 <? c.(running)) || (0 <? waiting c) in
  if live && (SUPERVISOR_STALE_AFTER_MS <? now_ms - observed) then StackHealthState.Stale
  else if 0 <? c.(probe_unhealthy) then StackHealthState.Degraded
  else if 0 <? failures c then
    if (0 <? successful c) || (0 <? waiting c) then StackHealthState.Degraded else StackHealthState.Failed
  else if (0 <? waiting c) || (successful c <? self.(desired_replicas)) then StackHealthState.Starting
  else if (c.(running) =? 0) && (c.(succeeded) =? self.(desired_replicas)) then StackHealthState.Completed
  else StackHealthState.Healthy.

Definition state_matches_counts (self : StackHealthReport) : bool :=
  let c := self.(counts) in
  let state_is s := bool_decide (self.(hr_state) = s) in
  match self.(desired_state) with
  | EngineStackState.Removed =>
      state_is StackHealthState.Removed && (self.(replicas_total) =? 0) && is_none self.(runtime_observed_at_ms)
  | EngineStackState.Stopped =>
      state_is StackHealthState.Stopped && (self.(desired_replicas) =? 0) && (waiting c =? 0)
      && (successful c =? 0) && (failures c =? 0)
  | EngineStackState.Applied =>
      if self.(desired_replicas) =? 0 then state_is StackHealthState.Stopped
      else
        match self.(hr_state) with
        | StackHealthState.Healthy =>
            (failures c =? 0) && (c.(probe_unhealthy) =? 0) && (c.(probe_waiting) =? 0)
            && (waiting c =? 0) && (0 <? c.(running))
            && (c.(running) + c.(succeeded) =? self.(desired_replicas))
        | StackHealthState.Completed =>
            (failures c =? 0) && (c.(probe_unhealthy) =? 0) && (c.(probe_waiting) =? 0)
            && (waiting c =? 0) && (c.(running) =? 0) && (c.(succeeded) =? self.(desired_replicas))
        | StackHealthState.Starting =>
            (failures c =? 0) && (c.(probe_unhealthy) =? 0)
            && ((0 <? waiting c) || (successful c <? self.(desired_replicas)))
        | StackHealthState.Degraded =>
            (0 <? c.(probe_unhealthy))
            || ((0 <? failures c) && ((0 <? successful c) || (0 <? waiting c)))
        | StackHealthState.Failed => (0 <? failures c) && (successful c =? 0) && (waiting c =? 0)
        | StackHealthState.Stale =>
            is_some_and (fun observed =>
              ((0 <? c.(running)) || (0 <? waiting c))
              && (SUPERVISOR_STALE_AFTER_MS <? self.(hr_observed_at_ms) - observed))
              self.(runtime_observed_at_ms)
        | StackHealthState.Stopped | StackHealthState.Removed => false
        end
  end.

Definition ready (self : StackHealthReport) : bool :=
  match self.(hr_state) with
  | StackHealthState.Healthy | StackHealthState.Completed => true
  | _ => false
  end.
Definition terminal_failure (self : StackHealthReport) : bool :=
  match self.(hr_state) with
  | StackHealthState.Degraded | StackHealthState.Failed => true
  | _ => false
  end.

(** A chain of [checked_add] on [u16]. *)
Fixpoint checked_sum (total : N) (l : list N) : option N :=
  match l with
  | [] => Some total
  | n :: l => match checked_add u16_max total n with Some total => checked_sum total l | None => None end
  end.

Section Health.
Context `{Ext : Externals} `{JP : !Json StackPlan} `{JS : !Json StackRuntimeStatus}
  `{JR : !Json StackHealthReport}.

Definition report_computed_sha256 (self : StackHealthReport) : result string string :=
  let? bytes := to_vec (with_report_sha256 self "") in
  Ok (hex_sha256 bytes).

Definition validate_report (self : StackHealthReport) : result string unit :=
  let c := self.(counts) in
  let? total := ok_or (checked_sum c.(pending) [c.(starting); c.(running); c.(backoff); c.(succeeded);
                                                c.(failed); c.(exhausted); c.(stopped_count)])
                      "health replica count overflow" in
  let? probed := ok_or (checked_sum c.(probe_waiting) [c.(probe_ready_count); c.(probe_unhealthy)])
                       "health probe count overflow" in
  if negb (self.(hr_format_version) =? ENGINE_HEALTH_FORMAT_VERSION)
     || negb (valid_name self.(hr_stack))
     || (self.(hr_revision) =? 0)
     || (self.(hr_observed_at_ms) =? 0)
     || (MAX_STACK_TOTAL_REPLICAS <? self.(desired_replicas))
     || (MAX_STACK_TOTAL_REPLICAS <? self.(replicas_total))
     || negb (total =? self.(replicas_total))
     || (self.(replicas_total) <? probed)
     || is_some_and (fun value => (value =? 0) || (self.(hr_observed_at_ms) <? value))
          self.(runtime_observed_at_ms)
     || negb (is_digest self.(report_sha256))
  then Err "stack health report is invalid"
  else
    let? sha := report_computed_sha256 self in
    if negb (bool_decide (sha = self.(report_sha256))) || negb (state_matches_counts self)
    then Err "stack health report is invalid" else Ok tt.

Definition refresh_report (self : StackHealthReport) : result string StackHealthReport :=
  let? sha := report_computed_sha256 self in
  let self := with_report_sha256 self sha in
  let? _ := validate_report self in
  Ok self.

Definition initial_state (s : EngineStackState) (desired : N) : StackHealthState :=
  match s with
  | EngineStackState.Applied => if desired =? 0 then StackHealthState.Stopped else StackHealthState.Starting
  | EngineStackState.Stopped => StackHealthState.Stopped
  | EngineStackState.Removed => StackHealthState.Removed
  end.

Definition from_status (status : StackStatus) (runtime : option StackRuntimeStatus) (now_ms : N) :
    result string StackHealthReport :=
  let? _ := validate_stack_status status in
  if now_ms =? 0 then Err "health observation time is invalid"
  else
    let? desired := ok_or (if status.(ss_desired_replicas) <=? u16_max
                           then Some status.(ss_desired_replicas) else None)
                          "desired replica count overflow" in
    let report :=
      mkReport ENGINE_HEALTH_FORMAT_VERSION status.(ss_stack) status.(ss_revision) status.(ss_state)
        (initial_state status.(ss_state) desired) now_ms (observed_at_ms <$> runtime) desired 0
        zero_counts "" in
    match runtime with
    | None => refresh_report report
    | Some runtime =>
        let? _ := validate_status runtime in
        if negb (bool_decide (runtime.(stack) = status.(ss_stack)))
           || negb (runtime.(revision) =? status.(ss_revision))
           || negb (bool_decide (runtime.(generation) = status.(ss_event_sha256)))
        then Err "runtime health belongs to another desired generation"
        else
          let? total := ok_or (if len runtime.(replicas) <=? u16_max
                               then Some (len runtime.(replicas)) else None)
                              "runtime replica count overflow" in
          let? c := count_replicas zero_counts runtime.(replicas) in
          let report := with_counts report total c in
          refresh_report
            (if bool_decide (status.(ss_state) = EngineStackState.Applied) && (0 <? desired)
             then with_hr_state report (derived_applied_state report now_ms runtime.(observed_at_ms))
             else report)
    end.

Fixpoint check_reports (previous : option string) (l : list StackHealthReport) : result string unit :=
  match l with
  | [] => Ok tt
  | report :: l =>
      let? _ := validate_report report in
      if is_some_and (fun stack => str_ge stack report.(hr_stack)) previous
      then Err "engine health reports are not strictly sorted"
      else check_reports (Some report.(hr_stack)) l
  end.

Definition validate_health_reports (reports : list StackHealthReport) : result string unit :=
  if MAX_ENGINE_HEALTH_REPORTS <? len reports then Err "engine health response contains too many stacks"
  else check_reports None reports.
End Health.

(** ** Counting, as a specification *)
Definition cnt {A : Type} (f : A -> bool) (l : list A) : N := len (List.filter f l).

Lemma cnt_cons {A : Type} (f : A -> bool) x l : cnt f (x :: l) = (if f x then 1 else 0) + cnt f l.
Proof. unfold cnt, len. cbn. destruct (f x); cbn [length]; lia. Qed.
Lemma cnt_app {A : Type} (f : A -> bool) l k : cnt f (l ++ k) = cnt f l + cnt f k.
Proof. unfold cnt, len. rewrite List.filter_app, length_app. lia. Qed.
Lemma cnt_len {A : Type} (f : A -> bool) l : cnt f l <= len l.
Proof. induction l as [|x l IH]; [done|]. rewrite cnt_cons. unfold len in *. cbn [length]. destruct (f x); lia. Qed.

Lemma cnt_zero {A : Type} (f : A -> bool) l : cnt f l = 0 <-> forall x, x ∈ l -> f x = false.
Proof.
  induction l as [|x l IH]; [split; [intros _ y Hy; by apply elem_of_nil in Hy|done]|].
  rewrite cnt_cons. split.
  - destruct (f x) eqn:E; [lia|]. intros H y [->|Hy]%elem_of_cons; [done|]. apply IH; [lia|done].
  - intros H. rewrite (H x) by left. rewrite (proj2 IH); [done|]. intros y Hy. apply H. by right.
Qed.

Lemma cnt_pos {A : Type} (f : A -> bool) l : 0 < cnt f l <-> exists x, x ∈ l /\ f x = true.
Proof.
  induction l as [|x l IH]; [split; [by intros ?|intros (y & Hy%elem_of_nil & _); done]|].
  rewrite cnt_cons. destruct (f x) eqn:E.
  - split; [|lia]. intros _. exists x. split; [left|done].
  - rewrite N.add_0_l, IH. split; intros (y & Hy & Hf); exists y; (split; [|done]); [by right|].
    apply elem_of_cons in Hy as [->|Hy]; [congruence|done].
Qed.

Lemma cnt_sub {A : Type} (f g : A -> bool) l :
  (forall x, x ∈ l -> f x = true -> g x = true) -> cnt f l <= cnt g l.
Proof.
  induction l as [|x l IH]; intros H; [done|]. rewrite !cnt_cons.
  assert (cnt f l <= cnt g l) by (apply IH; intros y Hy; apply H; by right).
  destruct (f x) eqn:E; [rewrite (H x); [lia|left|done]|lia].
Qed.

(** A part as large as the whole is the whole. *)
Lemma cnt_full {A : Type} (f g : A -> bool) l :
  (forall x, x ∈ l -> f x = true -> g x = true) -> cnt g l <= cnt f l ->
  forall x, x ∈ l -> g x = true -> f x = true.
Proof.
  induction l as [|x l IH]; intros H Hle y Hy; [by apply elem_of_nil in Hy|].
  rewrite !cnt_cons in Hle.
  assert (forall z, z ∈ l -> f z = true -> g z = true) as H' by (intros z Hz; apply H; by right).
  pose proof (cnt_sub f g l H') as Hs. pose proof (H x ltac:(left)) as Hx.
  apply elem_of_cons in Hy as [->|Hy].
  - intros Hg. destruct (f x); [done|]. rewrite Hg in Hle. lia.
  - apply IH; [done| |done]. destruct (f x); [rewrite Hx in Hle by done; lia|destruct (g x); lia].
Qed.

Lemma cnt_or {A : Type} (f g : A -> bool) l :
  (forall x, f x = true -> g x = false) -> cnt f l + cnt g l = cnt (fun x => f x || g x) l.
Proof.
  intros H. induction l as [|x l IH]; [done|]. rewrite !cnt_cons. specialize (H x).
  destruct (f x); cbn; [rewrite H by done|]; destruct (g x); cbn in *; lia.
Qed.

Definition in_phase (p : ReplicaPhase) (r : ReplicaRuntime) : bool := phase_is r p.
Definition probe_in (p : ProbePhase) (r : ReplicaRuntime) : bool :=
  is_some_and (fun x => bool_decide (x.(probe_phase) = p)) r.(probe).
Definition tally (l : list ReplicaRuntime) : Counts :=
  mkCounts (cnt (in_phase ReplicaPhase.Pending) l) (cnt (in_phase ReplicaPhase.Starting) l)
    (cnt (in_phase ReplicaPhase.Running) l) (cnt (in_phase ReplicaPhase.Backoff) l)
    (cnt (in_phase ReplicaPhase.Succeeded) l) (cnt (in_phase ReplicaPhase.Failed) l)
    (cnt (in_phase ReplicaPhase.Exhausted) l) (cnt (in_phase ReplicaPhase.Stopped) l)
    (cnt (probe_in ProbePhase.Waiting) l) (cnt (probe_in ProbePhase.Ready) l)
    (cnt (probe_in ProbePhase.Unhealthy) l).

Lemma count_replicas_snoc c l r :
  count_replicas c (l ++ [r]) = let? c := count_replicas c l in count_replicas c [r].
Proof.
  revert c. induction l as [|x l IH]; intros c; [done|]. cbn [count_replicas app].
  destruct (count_phase c (phase x)) as [c1|]; [|done].
  destruct (match probe x with Some _ => _ | None => _ end) as [c2|]; [|done]. apply IH.
Qed.

Lemma bump_ok n m : n < u16_max -> bump n m = Ok (n + 1).
Proof.
  intros. unfold bump. assert (n + 1 <= u16_max) as Hle by lia.
  by rewrite (proj2 (checked_add_Some u16_max n 1 (n + 1)) (conj eq_refl Hle)).
Qed.

Lemma count_one l r :
  len l < u16_max -> count_replicas (tally l) [r] = Ok (tally (l ++ [r])).
Proof.
  intros Hl. assert (forall f : ReplicaRuntime -> bool, cnt f l < u16_max) as Hc
    by (intros f; pose proof (cnt_len f l); lia).
  destruct r as [i d rs mr at_ ph ru st fi nx ex de pr]. cbn [count_replicas phase probe].
  destruct ph; cbn [count_phase tally pending starting running backoff succeeded failed exhausted stopped_count];
    rewrite bump_ok by apply Hc;
    (destruct pr as [[[] ? ? ? ?]|];
     [cbn [probe_phase count_probe probe_waiting probe_ready_count probe_unhealthy];
      rewrite bump_ok by apply Hc..|]);
    unfold tally; rewrite !cnt_app; cbn; rewrite ?N.add_0_r; reflexivity.
Qed.

Lemma count_replicas_tally l : len l <= u16_max -> count_replicas zero_counts l = Ok (tally l).
Proof.
  induction l as [|r l IH] using rev_ind; intros Hl; [done|]. unfold len in *.
  rewrite length_app in Hl. cbn in Hl. rewrite count_replicas_snoc, IH by (unfold u16_max in *; lia).
  apply count_one. unfold len. lia.
Qed.

(** ** Conforming statuses *)
Lemma mismatch_skeleton a b : replica_mismatch a b = false -> skeleton a = skeleton b.
Proof.
  unfold replica_mismatch, skeleton. intros. split_guard.
  match goal with H : Bool.eqb _ _ = true |- _ => apply eqb_prop in H end. congruence.
Qed.

Lemma zip_skeleton l k :
  length l = length k ->
  existsb (fun '(actual, expected) => replica_mismatch actual expected) (zip l k) = false ->
  skeleton <$> l = skeleton <$> k.
Proof.
  revert k. induction l as [|a l IH]; intros [|b k]; cbn; try done. intros Hl [Hm Hr]%orb_false_iff.
  csimpl. by rewrite (mismatch_skeleton a b Hm), (IH k) by (lia || done).
Qed.

Lemma cnt_fmap {A B : Type} (g : A -> B) (f : B -> bool) (l : list A) :
  cnt f (g <$> l) = cnt (fun x => f (g x)) l.
Proof. induction l as [|x l IH]; [done|]. csimpl. by rewrite !cnt_cons, IH. Qed.

Lemma cnt_const {A : Type} (f : A -> bool) (b : bool) (l : list A) :
  (forall x, x ∈ l -> f x = b) -> cnt f l = if b then len l else 0.
Proof.
  induction l as [|x l IH]; intros H; [by destruct b|]. rewrite cnt_cons, (H x) by left.
  rewrite IH by (intros y Hy; apply H; by right). unfold len. cbn [length]. destruct b; lia.
Qed.

(** The replicas a plan wants are those of its running instances. *)
Lemma wanted_planned (plan : StackPlan) : cnt wants (planned_replicas plan) = running_replicas plan.
Proof.
  unfold planned_replicas, running_replicas. induction (sp_instances plan) as [|i l IH]; [done|].
  csimpl. rewrite cnt_app, IH. clear IH.
  rewrite (cnt_const wants (bool_decide (pi_desired i = DesiredState.Running))).
  2:{ intros r (n & -> & _)%list_elem_of_fmap. done. }
  pose proof (ordinals_to_length (pi_replicas i)) as Hl. unfold len in *. rewrite length_fmap.
  destruct (bool_decide _); csimpl; rewrite ?sumN_cons; lia.
Qed.

Section Conforming.
Context `{Ext : Externals} `{JP : !Json StackPlan} `{JS : !Json StackRuntimeStatus}
  `{JT : !JsonTotal StackRuntimeStatus}.

Record matches_plan (s : StackRuntimeStatus) (plan : StackPlan) (rev : N) (gen : string) : Prop := {
  mp_plan : plan_ok plan;
  mp_valid : validate_status s = Ok tt;
  mp_stack : s.(stack) = plan.(sp_stack);
  mp_revision : s.(revision) = rev;
  mp_generation : s.(generation) = gen;
  mp_skeleton : skeleton <$> s.(replicas) = skeleton <$> planned_replicas plan;
}.

Lemma validate_against_inv s plan rev gen :
  validate_against s plan rev gen = Ok tt -> matches_plan s plan rev gen.
Proof.
  unfold validate_against. destruct (validate_status s) as [[]|] eqn:Hv; [|done].
  destruct (from_plan _ _ _ _) as [e|] eqn:He; [|done]. pass Hg. split_guard. intros _.
  assert (replicas e = planned_replicas plan /\ stack e = sp_stack plan /\ plan_ok plan) as (Hr & Hs & Hp).
  { revert He. unfold from_plan. destruct (validate_plan plan) as [[]|] eqn:Hp; [|done]. pass Hi.
    unfold refresh. destruct (status_computed_sha256 _) as [sha|]; [|done]. cbn beta iota.
    destruct (validate_status (with_status_sha256 _ sha)); [|done]. intros [= <-]. split_and!; [done|done|]. by apply validate_plan_ok. }
  rewrite Hr in *. constructor; try done; [congruence|]. apply zip_skeleton; [|done]. unfold len in *. lia.
Qed.

Lemma wanted_count s plan rev gen :
  matches_plan s plan rev gen -> cnt wants s.(replicas) = running_replicas plan.
Proof.
  intros Hm. rewrite <- wanted_planned.
  assert (forall l : list ReplicaRuntime,
    cnt wants l = cnt (fun k : ReplicaId * DesiredState * RestartPolicy * N * bool =>
                         bool_decide (k.1.1.1.2 = DesiredState.Running)) (skeleton <$> l)) as Hk
    by (intros l; by rewrite cnt_fmap).
  by rewrite !Hk, (mp_skeleton _ _ _ _ Hm).
Qed.

Lemma unwanted_unprobed s plan rev gen r :
  matches_plan s plan rev gen -> r ∈ s.(replicas) -> wants r = false -> r.(probe) = None.
Proof.
  intros Hm Hr Hw. apply (list_elem_of_fmap_2 skeleton) in Hr. rewrite (mp_skeleton _ _ _ _ Hm) in Hr.
  apply list_elem_of_fmap in Hr as (q & Hq & Hin). apply planned_elem_instance in Hin as (i & _ & Hi).
  apply list_elem_of_fmap in Hi as (n & -> & _). unfold skeleton, planned_replica in Hq. cbn in Hq.
  injection Hq as _ Hd _ _ Hp. unfold wants in Hw. rewrite Hd in Hw. rewrite Hw in Hp.
  by destruct (probe r).
Qed.
End Conforming.

(** ** The state of a report *)
Lemma derived_ready rep now obs :
  match derived_applied_state rep now obs with
  | StackHealthState.Healthy | StackHealthState.Completed => True | _ => False end
  <-> (0 < rep.(counts).(running) \/ 0 < waiting rep.(counts) -> now - obs <= SUPERVISOR_STALE_AFTER_MS)
      /\ rep.(counts).(probe_unhealthy) = 0 /\ failures rep.(counts) = 0
      /\ waiting rep.(counts) = 0 /\ rep.(desired_replicas) <= successful rep.(counts).
Proof.
  unfold derived_applied_state.
  destruct (N.ltb_spec 0 (running (counts rep))), (N.ltb_spec 0 (waiting (counts rep))); cbn [orb andb];
    try (destruct (N.ltb_spec SUPERVISOR_STALE_AFTER_MS (now - obs)));
    try (split; [done|intros (Hf & _); exfalso; lia]);
    destruct (N.ltb_spec 0 (probe_unhealthy (counts rep))); try (split; [done|lia]);
    destruct (N.ltb_spec 0 (failures (counts rep)));
    try (destruct (0 <? successful (counts rep))); cbn [orb]; try (split; [done|lia]);
    destruct (N.ltb_spec (successful (counts rep)) (desired_replicas rep)); cbn [orb]; try (split; [done|lia]);
    destruct (running (counts rep) =? 0), (succeeded (counts rep) =? desired_replicas rep); cbn [andb];
    split; intros; split_and?; try done; lia.
Qed.

Lemma derived_matches rep obs :
  rep.(desired_state) = EngineStackState.Applied -> 0 < rep.(desired_replicas) ->
  rep.(hr_state) = derived_applied_state rep rep.(hr_observed_at_ms) obs ->
  rep.(runtime_observed_at_ms) = Some obs -> successful rep.(counts) <= rep.(desired_replicas) ->
  (ready rep = true -> rep.(counts).(probe_waiting) = 0) ->
  state_matches_counts rep = true.
Proof.
  intros Hd Hpos Hst Hobs Hsucc Hready. unfold state_matches_counts, ready in *. rewrite Hd, Hobs in *.
  rewrite Hst in *. clear Hst Hd Hobs. unfold derived_applied_state, successful in *. cbn [is_some_and].
  generalize dependent (counts rep). intros c Hsucc. generalize (waiting c) (failures c). intros w f.
  rewrite (proj2 (N.eqb_neq (desired_replicas rep) 0)) by lia.
  destruct (N.ltb_spec 0 (running c)) as [Hr|Hr], (N.ltb_spec 0 w) as [Hw|Hw]; cbn [orb andb];
    try (destruct (SUPERVISOR_STALE_AFTER_MS <? hr_observed_at_ms rep - obs)); try done;
    destruct (N.ltb_spec 0 (probe_unhealthy c)) as [Hu|Hu]; try done;
    destruct (N.ltb_spec 0 f) as [Hf|Hf];
    try (destruct (N.ltb_spec 0 (running c + succeeded c)); cbn [orb andb]);
    try (destruct (N.ltb_spec (running c + succeeded c) (desired_replicas rep)); cbn [orb andb]);
    try (destruct (N.eqb_spec (running c) 0); cbn [orb andb]);
    try (destruct (N.eqb_spec (succeeded c) (desired_replicas rep)); cbn [orb andb]);
    intros Hready; try (rewrite Hready by done);
    repeat match goal with |- context [?a =? ?b] => destruct (N.eqb_spec a b) end; cbn; try done; lia.
Qed.

(** ** Reports of conforming statuses *)
Definition settled (r : ReplicaRuntime) : bool :=
  in_phase ReplicaPhase.Running r || in_phase ReplicaPhase.Succeeded r.

Lemma tally_total l :
  checked_sum (tally l).(pending)
    [(tally l).(starting); (tally l).(running); (tally l).(backoff); (tally l).(succeeded);
     (tally l).(failed); (tally l).(exhausted); (tally l).(stopped_count)] = Some (len l)
  \/ u16_max < len l.
Proof.
  destruct (N.le_gt_cases (len l) u16_max) as [Hle|]; [left|by right].
  assert (len l = (tally l).(pending) + (tally l).(starting) + (tally l).(running) + (tally l).(backoff)
                  + (tally l).(succeeded) + (tally l).(failed) + (tally l).(exhausted)
                  + (tally l).(stopped_count)) as Hsum.
  { clear Hle. induction l as [|r l IH]; [done|]. cbn [tally pending starting running backoff succeeded failed
      exhausted stopped_count] in *. rewrite !cnt_cons. revert IH.
    repeat match goal with |- context [cnt ?f l] => let n := fresh in generalize (cnt f l); intros n end.
    unfold in_phase, phase_is, len in *. cbn [length]. destruct (phase r); decide_constructors; lia. }
  unfold checked_sum.
  repeat match goal with
  | |- context [checked_add u16_max ?a ?b] =>
      rewrite (proj2 (checked_add_Some u16_max a b (a + b)) ltac:(split; [done|lia]))
  end. f_equal. lia.
Qed.

Lemma tally_probed l :
  len l <= u16_max ->
  exists n, checked_sum (tally l).(probe_waiting) [(tally l).(probe_ready_count); (tally l).(probe_unhealthy)]
            = Some n /\ n <= len l.
Proof.
  intros Hle.
  assert ((tally l).(probe_waiting) + (tally l).(probe_ready_count) + (tally l).(probe_unhealthy) <= len l)
    as Hsum.
  { clear Hle. induction l as [|r l IH]; [done|]. cbn [tally probe_waiting probe_ready_count probe_unhealthy] in *.
    rewrite !cnt_cons. revert IH.
    repeat match goal with |- context [cnt ?f l] => let n := fresh in generalize (cnt f l); intros n end.
    unfold probe_in, len in *. cbn [length]. destruct (probe r) as [[[] ? ? ? ?]|]; cbn [is_some_and probe_phase]; decide_constructors; lia. }
  eexists. split; [|exact Hsum]. unfold checked_sum.
  repeat match goal with
  | |- context [checked_add u16_max ?a ?b] =>
      rewrite (proj2 (checked_add_Some u16_max a b (a + b)) ltac:(split; [done|lia]))
  end. done.
Qed.

Lemma waiting_cnt l :
  waiting (tally l) = 0 <-> forall r, r ∈ l -> in_phase ReplicaPhase.Pending r = false
    /\ in_phase ReplicaPhase.Starting r = false /\ in_phase ReplicaPhase.Backoff r = false.
Proof.
  unfold waiting. cbn. split.
  - intros H r Hr. split_and!; eapply cnt_zero; try done; lia.
  - intros H. rewrite !(proj2 (cnt_zero _ _)); [done|intros r Hr; by destruct (H r Hr) as (? & ? & ?)..].
Qed.
Lemma failures_cnt l :
  failures (tally l) = 0 <-> forall r, r ∈ l -> in_phase ReplicaPhase.Failed r = false
    /\ in_phase ReplicaPhase.Exhausted r = false.
Proof.
  unfold failures. cbn. split.
  - intros H r Hr. split_and!; eapply cnt_zero; try done; lia.
  - intros H. rewrite !(proj2 (cnt_zero _ _)); [done|intros r Hr; by destruct (H r Hr)..].
Qed.
Lemma successful_cnt l : successful (tally l) = cnt settled l.
Proof.
  unfold successful, settled. cbn. apply cnt_or. unfold in_phase, phase_is. intros r. bprop.
  intros H%bool_decide_eq_true. rewrite H. done.
Qed.

Section Reports.
Context `{Ext : Externals} `{JP : !Json StackPlan} `{JS : !Json StackRuntimeStatus}
  `{JE : !Json EngineEvent} `{JR : !Json StackHealthReport}
  `{JTS : !JsonTotal StackRuntimeStatus} `{JTR : !JsonTotal StackHealthReport}.

Lemma applied_event_inv e :
  validate_event e = Ok tt -> e.(ev_kind) = EngineEventKind.Apply ->
  exists plan, e.(ev_plan) = Some plan /\ plan_ok plan /\ plan.(sp_stack) = e.(ev_stack)
    /\ valid_name e.(ev_stack) = true /\ e.(ev_revision) <> 0 /\ is_digest e.(event_sha256) = true.
Proof.
  intros Hv Hk. revert Hv. unfold validate_event. rewrite Hk. pass Hg.
  destruct (event_computed_sha256 e); [|done]. pass Hs. destruct (ev_plan e) as [plan|]; [|done]. cbn [ok_or].
  destruct (validate_plan plan) as [[]|] eqn:Hp; [|done]. pass Hstack. split_guard. intros _.
  exists plan. split_and!; try done. by apply validate_plan_ok.
Qed.

Lemma running_le plan : running_replicas plan <= sumN (pi_replicas <$> plan.(sp_instances)).
Proof.
  unfold running_replicas. induction (sp_instances plan) as [|i l IH]; [done|]. cbn [List.filter].
  destruct (bool_decide _); csimpl; rewrite !sumN_cons; lia.
Qed.

Lemma applied_status_ok e plan :
  validate_event e = Ok tt -> e.(ev_kind) = EngineEventKind.Apply -> e.(ev_plan) = Some plan ->
  validate_stack_status (event_status e) = Ok tt /\ running_replicas plan <= MAX_STACK_TOTAL_REPLICAS.
Proof.
  intros Hv Hk Hpl. destruct (applied_event_inv e Hv Hk) as (plan' & Hpl' & Hp & _ & Hn & Hr & Hd).
  rewrite Hpl in Hpl'. injection Hpl' as <-. pose proof (running_le plan) as Hle.
  pose proof (po_replicas _ Hp). split; [|lia]. unfold validate_stack_status, event_status. cbn.
  rewrite Hk, Hpl, Hn, Hd. cbn. rewrite (po_digest _ Hp). rewrite (proj2 (N.eqb_neq _ 0) Hr).
  pose proof (po_count _ Hp). destruct (N.ltb_spec MAX_STACK_INSTANCES (len (sp_instances plan))); [lia|].
  destruct (N.ltb_spec MAX_STACK_TOTAL_REPLICAS (running_replicas plan)); [lia|]. done.
Qed.

(** The report before its checksum. *)
Definition draft_report (e : EngineEvent) (plan : StackPlan) (rt : StackRuntimeStatus) (now : N) :
    StackHealthReport :=
  let report := mkReport ENGINE_HEALTH_FORMAT_VERSION e.(ev_stack) e.(ev_revision) EngineStackState.Applied
    (initial_state EngineStackState.Applied (running_replicas plan)) now (Some rt.(observed_at_ms))
    (running_replicas plan) (len rt.(replicas)) (tally rt.(replicas)) "" in
  if 0 <? running_replicas plan
  then with_hr_state report (derived_applied_state report now rt.(observed_at_ms)) else report.

Context (e : EngineEvent) (plan : StackPlan) (rt : StackRuntimeStatus) (now : N).
Hypothesis Hvalid : validate_event e = Ok tt.
Hypothesis Happly : e.(ev_kind) = EngineEventKind.Apply.
Hypothesis Hplan : e.(ev_plan) = Some plan.
Hypothesis Hagainst : validate_against rt plan e.(ev_revision) e.(event_sha256) = Ok tt.
Hypothesis Htime : rt.(observed_at_ms) <= now.

Lemma from_status_draft :
  from_status (event_status e) (Some rt) now = refresh_report (draft_report e plan rt now).
Proof.
  destruct (applied_status_ok e plan Hvalid Happly Hplan) as [Hs Hmax].
  pose proof (validate_against_inv _ _ _ _ Hagainst) as Hm.
  pose proof (mp_valid _ _ _ _ Hm) as Hv. pose proof (proj1 (validate_status_iff _) Hv) as [Hc _].
  pose proof (co_observed _ Hc). pose proof (co_count _ Hc) as Hcount.
  assert (sp_stack plan = ev_stack e) as Hst.
  { destruct (applied_event_inv e Hvalid Happly) as (p & Hp & _ & Hst & _). congruence. }
  unfold from_status. rewrite Hs, Hv. destruct (N.eqb_spec now 0); [lia|].
  unfold event_status. rewrite Hplan, Happly. cbn [ss_desired_replicas ss_stack ss_revision ss_state
    ss_event_sha256 from_option].
  rewrite (mp_stack _ _ _ _ Hm), (mp_revision _ _ _ _ Hm), (mp_generation _ _ _ _ Hm), Hst.
  rewrite !bool_decide_eq_true_2, N.eqb_refl by done. cbn [negb orb andb].
  unfold MAX_STACK_TOTAL_REPLICAS in *.
  rewrite !(proj2 (N.leb_le _ u16_max)) by (unfold u16_max; lia). cbn [ok_or].
  rewrite count_replicas_tally by (unfold u16_max; lia). done.
Qed.

Lemma settled_wants r : r ∈ rt.(replicas) -> settled r = true -> wants r = true.
Proof.
  pose proof (validate_against_inv _ _ _ _ Hagainst) as Hm.
  pose proof (proj1 (validate_status_iff _) (mp_valid _ _ _ _ Hm)) as [Hc _].
  pose proof (co_replicas _ Hc) as Hall. rewrite Forall_forall in Hall.
  intros Hr. pose proof (ro_phase _ (Hall r Hr)) as Hph. unfold settled, in_phase, phase_is, wants.
  destruct (phase r); try done; intros _; apply bool_decide_eq_true_2, Hph.
Qed.

Lemma successful_le : successful (tally rt.(replicas)) <= running_replicas plan.
Proof.
  pose proof (validate_against_inv _ _ _ _ Hagainst) as Hm.
  rewrite successful_cnt, <- (wanted_count _ _ _ _ Hm). apply cnt_sub. apply settled_wants.
Qed.

Lemma refresh_report_ok rep :
  checked_sum rep.(counts).(pending)
    [rep.(counts).(starting); rep.(counts).(running); rep.(counts).(backoff); rep.(counts).(succeeded);
     rep.(counts).(failed); rep.(counts).(exhausted); rep.(counts).(stopped_count)] = Some rep.(replicas_total) ->
  (exists n, checked_sum rep.(counts).(probe_waiting)
               [rep.(counts).(probe_ready_count); rep.(counts).(probe_unhealthy)] = Some n
             /\ n <= rep.(replicas_total)) ->
  rep.(hr_format_version) = ENGINE_HEALTH_FORMAT_VERSION -> valid_name rep.(hr_stack) = true ->
  rep.(hr_revision) <> 0 -> rep.(hr_observed_at_ms) <> 0 ->
  rep.(desired_replicas) <= MAX_STACK_TOTAL_REPLICAS -> rep.(replicas_total) <= MAX_STACK_TOTAL_REPLICAS ->
  (forall t, rep.(runtime_observed_at_ms) = Some t -> t <> 0 /\ t <= rep.(hr_observed_at_ms)) ->
  exists sha, refresh_report rep
    = (if state_matches_counts rep then Ok (with_report_sha256 rep sha) else Err "stack health report is invalid")
    /\ validate_report (with_report_sha256 rep sha)
       = (if state_matches_counts rep then Ok tt else Err "stack health report is invalid").
Proof.
  intros Htot (n & Hn & Hle) Hf Hname Hrev Hobs Hdes Hrep Ht.
  destruct (to_vec_total (with_report_sha256 rep "")) as [b Hb]. exists (hex_sha256 b).
  assert (forall sha, report_computed_sha256 (with_report_sha256 rep sha) = Ok (hex_sha256 b)) as Hsha.
  { intros sha. unfold report_computed_sha256.
    change (with_report_sha256 (with_report_sha256 rep sha) "") with (with_report_sha256 rep "").
    by rewrite Hb. }
  assert (validate_report (with_report_sha256 rep (hex_sha256 b))
          = if state_matches_counts rep then Ok tt else Err "stack health report is invalid") as Hv.
  { unfold validate_report. rewrite Hsha. cbn [counts with_report_sha256 hr_format_version hr_stack hr_revision
      hr_observed_at_ms desired_replicas replicas_total runtime_observed_at_ms report_sha256].
    rewrite Htot, Hn, Hf, Hname, hex_sha256_is_digest. cbn [ok_or negb orb].
    rewrite !N.eqb_refl, (proj2 (N.eqb_neq _ 0) Hrev), (proj2 (N.eqb_neq _ 0) Hobs).
    rewrite !(proj2 (N.ltb_ge _ _)) by done. cbn [negb orb].
    replace (is_some_and _ (runtime_observed_at_ms rep)) with false.
    2:{ destruct (runtime_observed_at_ms rep) as [t|]; [|done]. destruct (Ht t eq_refl). cbn.
        destruct (N.eqb_spec t 0); [done|]. by destruct (N.ltb_spec (hr_observed_at_ms rep) t); [lia|]. }
    rewrite bool_decide_eq_true_2 by done. cbn [negb orb].
    change (state_matches_counts (with_report_sha256 rep (hex_sha256 b))) with (state_matches_counts rep).
    by destruct (state_matches_counts rep). }
  split; [|exact Hv]. unfold refresh_report.
  assert (report_computed_sha256 rep = Ok (hex_sha256 b)) as ->
    by (unfold report_computed_sha256; by rewrite Hb).
  rewrite Hv. by destruct (state_matches_counts rep).
Qed.

Lemma draft_refresh :
  exists sha, refresh_report (draft_report e plan rt now)
    = (if state_matches_counts (draft_report e plan rt now)
       then Ok (with_report_sha256 (draft_report e plan rt now) sha) else Err "stack health report is invalid")
    /\ validate_report (with_report_sha256 (draft_report e plan rt now) sha)
       = (if state_matches_counts (draft_report e plan rt now) then Ok tt
          else Err "stack health report is invalid").
Proof.
  pose proof (validate_against_inv _ _ _ _ Hagainst) as Hm.
  pose proof (proj1 (validate_status_iff _) (mp_valid _ _ _ _ Hm)) as [Hc _].
  destruct (applied_status_ok e plan Hvalid Happly Hplan) as [_ Hmax].
  destruct (applied_event_inv e Hvalid Happly) as (_ & _ & _ & _ & Hn & Hr & _).
  pose proof (co_count _ Hc) as Hcount. pose proof (co_observed _ Hc) as Hobs.
  assert (len (replicas rt) <= u16_max) as Hu by (unfold MAX_STACK_TOTAL_REPLICAS, u16_max in *; lia).
  apply refresh_report_ok; unfold draft_report; destruct (0 <? running_replicas plan);
    cbn [with_hr_state counts replicas_total hr_format_version hr_stack hr_revision hr_observed_at_ms
         desired_replicas runtime_observed_at_ms]; try done; try lia; try (by apply tally_probed);
    try (destruct (tally_total (replicas rt)) as [Htt|]; [exact Htt|lia]);
    intros t [= <-]; done.
Qed.
End Reports.

Section Theorems.
Context `{Ext : Externals} `{JP : !Json StackPlan} `{JS : !Json StackRuntimeStatus}
  `{JE : !Json EngineEvent} `{JR : !Json StackHealthReport}
  `{JTS : !JsonTotal StackRuntimeStatus} `{JTR : !JsonTotal StackHealthReport}.

(** When every wanted replica is settled and none of them waits for its first
    signal, nobody waits. *)
Lemma settled_none_waiting (e : EngineEvent) plan rt :
  validate_against rt plan e.(ev_revision) e.(event_sha256) = Ok tt ->
  (forall r p, r ∈ rt.(replicas) -> r.(phase) = ReplicaPhase.Succeeded -> r.(probe) = Some p ->
     p.(probe_phase) <> ProbePhase.Waiting) ->
  (forall r, r ∈ rt.(replicas) -> wants r = true -> settled r = true) ->
  (tally rt.(replicas)).(probe_waiting) = 0.
Proof.
  intros Ha Hq Hs. cbn. apply cnt_zero. intros r Hr. unfold probe_in.
  pose proof (validate_against_inv _ _ _ _ Ha) as Hm.
  pose proof (proj1 (validate_status_iff _) (mp_valid _ _ _ _ Hm)) as [Hc _].
  pose proof (co_replicas _ Hc) as Hall. rewrite Forall_forall in Hall.
  destruct (probe r) as [p|] eqn:Hp; [|done]. cbn. apply bool_decide_eq_false_2. intros Hw.
  destruct (wants r) eqn:Hwant; [|by rewrite (unwanted_unprobed _ _ _ _ _ Hm Hr Hwant) in Hp].
  specialize (Hs r Hr Hwant). unfold settled, in_phase, phase_is in Hs. bprop. destruct Hs as [Hs|Hs]; bprop.
  - pose proof (validate_probe_sound _ _ (ro_probe _ (Hall r Hr) p Hp)) as Hk. apply pk_phase in Hk.
    rewrite Hw, Hs in Hk. by destruct Hk.
  - by eapply Hq.
Qed.

(** Health can always be reported: for a status that conforms to the plan
    of the applied event, in which no replica finished successfully before its
    first readiness signal, a report is derived, passes its own validation,
    counts every replica in its phase and every probe in its state, and carries
    the number of replicas the plan wants. *)
Theorem health_report_total (e : EngineEvent) (plan : StackPlan) (rt : StackRuntimeStatus) (now : N)
    (Hvalid : validate_event e = Ok tt) (Happly : e.(ev_kind) = EngineEventKind.Apply)
    (Hplan : e.(ev_plan) = Some plan)
    (Hagainst : validate_against rt plan e.(ev_revision) e.(event_sha256) = Ok tt)
    (Htime : rt.(observed_at_ms) <= now)
    (Hquiet : forall r p, r ∈ rt.(replicas) -> r.(phase) = ReplicaPhase.Succeeded -> r.(probe) = Some p ->
                p.(probe_phase) <> ProbePhase.Waiting) :
  exists rep, from_status (event_status e) (Some rt) now = Ok rep /\ validate_report rep = Ok tt
    /\ rep.(counts) = tally rt.(replicas) /\ rep.(replicas_total) = len rt.(replicas)
    /\ rep.(desired_replicas) = cnt wants rt.(replicas).
Proof.
  rewrite (from_status_draft e plan rt now) by done.
  destruct (draft_refresh e plan rt now) as (sha & -> & Hv); try done.
  pose proof (validate_against_inv _ _ _ _ Hagainst) as Hm.
  pose proof (wanted_count _ _ _ _ Hm) as Hw.
  assert (state_matches_counts (draft_report e plan rt now) = true) as Hst.
  { unfold draft_report. destruct (N.ltb_spec 0 (running_replicas plan)) as [Hpos|Hz].
    - apply (derived_matches _ (observed_at_ms rt)); try done.
      + by apply (successful_le e plan rt).
      + cbn [with_hr_state counts]. intros Hready. apply (settled_none_waiting e plan); [done..|].
        set (rep := mkReport _ _ _ _ _ _ _ _ _ _ _) in *.
        assert (running_replicas plan <= successful (tally (replicas rt))) as Hle.
        { apply (proj1 (derived_ready rep now (observed_at_ms rt))). revert Hready. unfold ready. cbn [hr_state with_hr_state].
          by destruct (derived_applied_state _ _ _). }
        rewrite successful_cnt, <- Hw in Hle. intros r Hr. eapply cnt_full; [|exact Hle|exact Hr].
        intros x. by apply (settled_wants e plan rt).
    - unfold state_matches_counts. cbn [desired_state desired_replicas hr_state].
      assert (running_replicas plan = 0) as -> by lia. done. }
  rewrite Hst in *. eexists. split; [done|]. split; [exact Hv|]. rewrite Hw. unfold draft_report.
  by destruct (0 <? running_replicas plan).
Qed.

Lemma settled_iff r :
  settled r = true <-> r.(phase) = ReplicaPhase.Running \/ r.(phase) = ReplicaPhase.Succeeded.
Proof. unfold settled, in_phase, phase_is. by rewrite orb_true_iff, !bool_decide_eq_true. Qed.

(** What the counters say when every wanted replica is settled. *)
Lemma settled_counts (e : EngineEvent) plan rt :
  validate_against rt plan e.(ev_revision) e.(event_sha256) = Ok tt ->
  (forall r, r ∈ rt.(replicas) -> wants r = true ->
     settled r = true /\ forall p, r.(probe) = Some p -> p.(probe_phase) <> ProbePhase.Unhealthy) ->
  let c := tally rt.(replicas) in
  waiting c = 0 /\ failures c = 0 /\ c.(probe_unhealthy) = 0 /\ running_replicas plan <= successful c.
Proof.
  intros Ha Hall c. subst c. pose proof (validate_against_inv _ _ _ _ Ha) as Hm.
  assert (forall r, r ∈ replicas rt -> settled r = true \/ in_phase ReplicaPhase.Stopped r = true) as Hor.
  { intros r Hin. destruct (wants r) eqn:Hwant; [left; by apply Hall|right].
    pose proof (proj1 (validate_status_iff _) (mp_valid _ _ _ _ Hm)) as [Hc _].
    pose proof (co_replicas _ Hc) as Hok. rewrite Forall_forall in Hok. pose proof (ro_phase _ (Hok r Hin)) as Hph.
    unfold wants in Hwant. bprop. unfold in_phase, phase_is.
    destruct (phase r); try done; by destruct Hph as [? _]. }
  split_and!.
  - apply waiting_cnt. intros r Hin. destruct (Hor r Hin) as [H|H];
      unfold settled, in_phase, phase_is in *; by destruct (phase r).
  - apply failures_cnt. intros r Hin. destruct (Hor r Hin) as [H|H];
      unfold settled, in_phase, phase_is in *; by destruct (phase r).
  - cbn. apply cnt_zero. intros r Hin. unfold probe_in. destruct (probe r) as [p|] eqn:Hp; [|done]. cbn.
    destruct (wants r) eqn:Hwant; [|by rewrite (unwanted_unprobed _ _ _ _ _ Hm Hin Hwant) in Hp].
    apply bool_decide_eq_false_2. by apply (Hall r Hin Hwant).
  - rewrite successful_cnt, <- (wanted_count _ _ _ _ Hm). apply cnt_sub. intros r Hin Hwant. by apply Hall.
Qed.

Lemma ready_derived d st :
  ready (with_hr_state d st) = true
  <-> match st with StackHealthState.Healthy | StackHealthState.Completed => True | _ => False end.
Proof. unfold ready. cbn [hr_state with_hr_state]. by destruct st. Qed.

Lemma ready_no_waiting rep :
  state_matches_counts rep = true -> rep.(desired_state) = EngineStackState.Applied ->
  0 < rep.(desired_replicas) -> ready rep = true -> rep.(counts).(probe_waiting) = 0.
Proof.
  unfold state_matches_counts, ready. intros Hst Hd Hpos. rewrite Hd in Hst. revert Hst.
  rewrite (proj2 (N.eqb_neq (desired_replicas rep) 0)) by lia.
  destruct (hr_state rep); try done; intros Hs _; bprop; done.
Qed.

(** Readiness means what it says: a derived report says ready exactly when
    the plan wants at least one replica, every wanted replica is running or
    has succeeded, every application probe is ready, and, when any replica
    still runs, the supervisor wrote its status within the last 20 seconds. *)
Theorem health_ready_exact (e : EngineEvent) (plan : StackPlan) (rt : StackRuntimeStatus) (now : N)
    (rep : StackHealthReport)
    (Hvalid : validate_event e = Ok tt) (Happly : e.(ev_kind) = EngineEventKind.Apply)
    (Hplan : e.(ev_plan) = Some plan)
    (Hagainst : validate_against rt plan e.(ev_revision) e.(event_sha256) = Ok tt)
    (Htime : rt.(observed_at_ms) <= now)
    (Hrep : from_status (event_status e) (Some rt) now = Ok rep) :
  ready rep = true <->
  (exists r, r ∈ rt.(replicas) /\ wants r = true)
  /\ (forall r, r ∈ rt.(replicas) -> wants r = true ->
        (r.(phase) = ReplicaPhase.Running \/ r.(phase) = ReplicaPhase.Succeeded)
        /\ forall p, r.(probe) = Some p -> p.(probe_phase) = ProbePhase.Ready)
  /\ ((exists r, r ∈ rt.(replicas) /\ r.(phase) = ReplicaPhase.Running) ->
        now - rt.(observed_at_ms) <= 20000).
Proof.
  rewrite (from_status_draft e plan rt now) in Hrep by done.
  destruct (draft_refresh e plan rt now) as (sha & Heq & _); try done. rewrite Heq in Hrep. clear Heq.
  destruct (state_matches_counts (draft_report e plan rt now)) eqn:Hst; [|done]. injection Hrep as <-.
  change (ready (with_report_sha256 (draft_report e plan rt now) sha)) with (ready (draft_report e plan rt now)).
  pose proof (validate_against_inv _ _ _ _ Hagainst) as Hm. pose proof (wanted_count _ _ _ _ Hm) as Hw.
  assert ((exists r, r ∈ replicas rt /\ phase r = ReplicaPhase.Running)
          <-> 0 < cnt (in_phase ReplicaPhase.Running) (replicas rt)) as ->
    by (rewrite cnt_pos; unfold in_phase, phase_is; by setoid_rewrite bool_decide_eq_true).
  rewrite <- (cnt_pos wants), Hw.
  unfold draft_report in *. destruct (N.ltb_spec 0 (running_replicas plan)) as [Hpos|Hz].
  2:{ cbn. assert (running_replicas plan = 0) as -> by lia. cbn. split; [done|lia]. }
  set (d := mkReport _ _ _ _ _ _ _ _ _ _ _) in *. split.
  - intros Hready. pose proof (ready_no_waiting _ Hst eq_refl Hpos Hready) as Hwait.
    apply ready_derived, derived_ready in Hready as (Hfresh & Hun & _ & _ & Hle).
    cbn [counts d desired_replicas with_hr_state] in Hfresh, Hun, Hle, Hwait.
    rewrite successful_cnt, <- Hw in Hle.
    split_and!; [done| |intros; apply Hfresh; left; done]. intros r Hin Hwant. split.
    + apply settled_iff. eapply cnt_full; [|exact Hle|exact Hin|done]. intros x. by apply (settled_wants e plan rt).
    + intros p Hp. cbn [tally probe_unhealthy probe_waiting] in Hun, Hwait.
      pose proof (proj1 (cnt_zero _ _) Hun r Hin) as H1. pose proof (proj1 (cnt_zero _ _) Hwait r Hin) as H2.
      unfold probe_in in H1, H2. rewrite Hp in H1, H2. cbn in H1, H2. bprop. by destruct (probe_phase p).
  - intros (_ & Hall & Hfresh). apply ready_derived, derived_ready. cbn [counts d desired_replicas].
    destruct (settled_counts e plan rt Hagainst) as (Hwt & Hf & Hu & Hle).
    { intros r Hin Hwant. destruct (Hall r Hin Hwant) as [Hs Hp]. split; [by apply settled_iff|].
      intros p Hpr. by rewrite (Hp p Hpr). }
    split_and!; try done. intros [H|H]; [by apply Hfresh|lia].
Qed.

(** A stack in which a probed replica finished successfully before it ever
    signalled readiness cannot report its health: once every wanted replica
    is running or has succeeded and no probe is unhealthy, the derived report
    fails its own validation and the call returns an error, although the
    status conforms to the plan. *)
Theorem silent_success_unreportable (e : EngineEvent) (plan : StackPlan) (rt : StackRuntimeStatus) (now : N)
    (Hvalid : validate_event e = Ok tt) (Happly : e.(ev_kind) = EngineEventKind.Apply)
    (Hplan : e.(ev_plan) = Some plan)
    (Hagainst : validate_against rt plan e.(ev_revision) e.(event_sha256) = Ok tt)
    (Htime : rt.(observed_at_ms) <= now) (Hfresh : now - rt.(observed_at_ms) <= 20000)
    (Hsettled : forall r, r ∈ rt.(replicas) -> wants r = true ->
       settled r = true /\ forall p, r.(probe) = Some p -> p.(probe_phase) <> ProbePhase.Unhealthy)
    (Hsilent : exists r p, r ∈ rt.(replicas) /\ r.(phase) = ReplicaPhase.Succeeded /\ r.(probe) = Some p
                 /\ p.(probe_phase) = ProbePhase.Waiting) :
  from_status (event_status e) (Some rt) now = Err "stack health report is invalid".
Proof.
  rewrite (from_status_draft e plan rt now) by done.
  destruct (draft_refresh e plan rt now) as (sha & -> & _); try done.
  destruct (state_matches_counts (draft_report e plan rt now)) eqn:Hst; [exfalso|done].
  pose proof (validate_against_inv _ _ _ _ Hagainst) as Hm. pose proof (wanted_count _ _ _ _ Hm) as Hw.
  destruct Hsilent as (r & p & Hin & Hph & Hp & Hpw).
  assert (wants r = true) as Hwant by (apply (settled_wants e plan rt); try done; apply settled_iff; by right).
  assert (0 < running_replicas plan) as Hpos by (rewrite <- Hw; apply cnt_pos; by exists r).
  destruct (settled_counts e plan rt Hagainst Hsettled) as (Hwt & Hf & Hu & Hle).
  unfold draft_report in Hst. rewrite (proj2 (N.ltb_lt _ _) Hpos) in Hst. set (d := mkReport _ _ _ _ _ _ _ _ _ _ _) in *.
  assert (probe_waiting (tally (replicas rt)) = 0) as Hz.
  { apply (ready_no_waiting _ Hst eq_refl Hpos). apply ready_derived, derived_ready. by split_and!. }
  cbn in Hz. pose proof (proj1 (cnt_zero _ _) Hz r Hin) as H. unfold probe_in in H. rewrite Hp in H. cbn in H.
  bprop. done.
Qed.
End Theorems.

(** ** Concrete reports *)
Section Witnesses.
#[local] Existing Instance demo_externals.
#[local] Instance plan_json : Json StackPlan := demo_json.
#[local] Instance status_json : Json StackRuntimeStatus := demo_json.
#[local] Instance event_json : Json EngineEvent := demo_json.
#[local] Instance report_json : Json StackHealthReport := demo_json.
#[local] Instance status_total : JsonTotal StackRuntimeStatus.
Proof. intros a. by exists []. Defined.
#[local] Instance report_total : JsonTotal StackHealthReport.
Proof. intros a. by exists []. Defined.

Definition demo_event : EngineEvent :=
  mkEvent 1 1 "shop" EngineEventKind.Apply "" 7 (Some demo_stack) zero_digest.
Definition api_two : ReplicaId := mkReplicaId "api" 2.
Definition start_two : list Op := demo_ops ++ [BeginStart api_two zero_digest 25].
Definition all_ready : StackRuntimeStatus :=
  default demo_init (run_ops (start_two ++ [ProbeSignal api_two zero_digest 1 ProbeSignalKind.Ready 26]) demo_init).
(** The second replica of [api] exits with success before any signal. *)
Definition silent : StackRuntimeStatus :=
  default demo_init (run_ops (start_two ++ [MarkExit api_two zero_digest true (Some 0%Z) "done" 26]) demo_init).

(** Every replica passes a boolean test. *)
Lemma replicas_pass (f : ReplicaRuntime -> bool) (l : list ReplicaRuntime) r :
  forallb f l = true -> r ∈ l -> f r = true.
Proof. rewrite forallb_forall. intros H Hr. by apply H, list_elem_of_In. Qed.
Definition unhurt (r : ReplicaRuntime) : bool :=
  settled r && is_none_or (fun p => negb (bool_decide (p.(probe_phase) = ProbePhase.Unhealthy))) r.(probe).
Definition loud (r : ReplicaRuntime) : bool :=
  negb (phase_is r ReplicaPhase.Succeeded)
  || is_none_or (fun p => negb (bool_decide (p.(probe_phase) = ProbePhase.Waiting))) r.(probe).

Lemma health_report_total_witness :
  exists rep, from_status (event_status demo_event) (Some all_ready) 40 = Ok rep
    /\ rep.(counts) = mkCounts 0 0 3 0 0 0 0 0 0 2 0.
Proof.
  destruct (health_report_total demo_event demo_stack all_ready 40) as (rep & Hr & _ & Hc & _);
    try (vm_compute; reflexivity); [vm_compute; discriminate| |].
  - intros r p Hin Hph Hp Hw. assert (loud r = true) as H
      by (apply (replicas_pass loud all_ready.(replicas)); [vm_compute; reflexivity|exact Hin]).
    revert H. unfold loud, phase_is. rewrite Hph, Hp. cbn. rewrite Hw. discriminate.
  - exists rep. split; [exact Hr|]. rewrite Hc. vm_compute. reflexivity.
Defined.

Lemma health_ready_exact_witness :
  exists rep, from_status (event_status demo_event) (Some all_ready) 40 = Ok rep /\ ready rep = true
    /\ 40 - all_ready.(observed_at_ms) <= 20000.
Proof.
  destruct (from_status (event_status demo_event) (Some all_ready) 40) as [rep|] eqn:Hr;
    [|vm_compute in Hr; discriminate Hr].
  exists rep. assert (ready rep = true) as Hready by (vm_compute in Hr; injection Hr as <-; reflexivity).
  split_and!; [reflexivity|exact Hready|].
  apply (health_ready_exact demo_event demo_stack all_ready 40 rep); try (vm_compute; reflexivity);
    [vm_compute; discriminate|exact Hr|exact Hready|].
  exists (replica_of all_ready web). split; [|vm_compute; reflexivity].
  apply (demo_elem all_ready web). vm_compute. reflexivity.
Defined.

Lemma silent_success_unreportable_witness :
  validate_against silent demo_stack 1 zero_digest = Ok tt
  /\ from_status (event_status demo_event) (Some silent) 40 = Err "stack health report is invalid".
Proof.
  split; [vm_compute; reflexivity|].
  apply (silent_success_unreportable demo_event demo_stack silent 40); try (vm_compute; reflexivity);
    [vm_compute; discriminate..| |].
  - intros r Hin _. assert (unhurt r = true) as H
      by (apply (replicas_pass unhurt silent.(replicas)); [vm_compute; reflexivity|exact Hin]).
    apply andb_true_iff in H as [Hs Hp]. split; [exact Hs|]. intros p Hpr. rewrite Hpr in Hp. cbn in Hp.
    apply negb_true_iff, bool_decide_eq_false in Hp. exact Hp.
  - exists (replica_of silent api_two), pristine_probe. split; [|vm_compute; split_and!; reflexivity].
    apply (demo_elem silent api_two). vm_compute. reflexivity.
Defined.
End Witnesses.
