(* ===== verification/Files.v ===== *)
(** * Durable files ([crates/cartridge-engine/src/lib.rs])

    The file operations the engine's state rests on: [write_new_atomic] for a
    journal event, [write_replace_atomic] and its recovery for a file that is
    replaced.  A run of them is a sequence of system calls; every call may
    succeed, fail, or be the last one before the process dies, as an oracle of
    fates decides.  A call is atomic, except that a write may leave a prefix of
    its bytes.  A directory holds regular files; the order in which a lost
    power supply makes calls durable is not part of the model. *)
From stdpp Require Import pretty.
From S2P Require Import Prelude Text Core Rolling Plan Events.

(** [Fails n] and [Dies n]: [n] bytes of a write reached the file. *)
Inductive fate := Succeeds | Fails (n : nat) | Dies (n : nat).

(** Directories by their path, the process-wide counter of temporary names, the
    process id, and the fates of the calls to come; a call beyond the list
    succeeds. *)
Record World := mkWorld {
  disk : gmap string Directory;
  sequence : N;
  process_id : N;
  fates : list fate;
}.
Definition with_disk (w : World) (d : gmap string Directory) : World :=
  mkWorld d w.(sequence) w.(process_id) w.(fates).

Inductive outcome (A : Type) := Done (r : result string A) | Died.
Arguments Done {A} r.
Arguments Died {A}.

Definition IO (A : Type) : Type := World -> World * outcome A.
Definition ret {A : Type} (a : A) : IO A := fun w => (w, Done (Ok a)).
Definition fail {A : Type} (e : string) : IO A := fun w => (w, Done (Err e)).
(** A pure fallible computation. *)
Definition lift {A : Type} (r : result string A) : IO A := fun w => (w, Done r).
Definition bind {A B : Type} (m : IO A) (k : A -> IO B) : IO B := fun w =>
  match m w with
  | (w, Done (Ok a)) => k a w
  | (w, Done (Err e)) => (w, Done (Err e))
  | (w, Died) => (w, Died)
  end.
(** [if let Err(error) = m { ... }]: the result as a value. *)
Definition attempt {A : Type} (m : IO A) : IO (result string A) := fun w =>
  match m w with
  | (w, Done r) => (w, Done (Ok r))
  | (w, Died) => (w, Died)
  end.
Notation "'do?' x := m 'in' k" := (bind m (fun x => k))
  (at level 10, x pattern, m at level 100, k at level 200) : rust_scope.
Notation "m ';;?' k" := (bind m (fun _ => k)) (at level 60, right associativity) : rust_scope.

(** ** System calls *)
Definition syscall {A : Type} (step : gmap string Directory -> result string (gmap string Directory * A))
    (torn : nat -> gmap string Directory -> gmap string Directory) : IO A := fun w =>
  let rest := mkWorld w.(disk) w.(sequence) w.(process_id) (tail w.(fates)) in
  match w.(fates) with
  | [] | Succeeds :: _ =>
      match step w.(disk) with
      | Ok (d, a) => (with_disk rest d, Done (Ok a))
      | Err e => (rest, Done (Err e))
      end
  | Fails n :: _ => (with_disk rest (torn n w.(disk)), Done (Err "I/O error"))
  | Dies n :: _ => (with_disk rest (torn n w.(disk)), Died)
  end.

Definition untouched (_ : nat) (d : gmap string Directory) : gmap string Directory := d.
Definition NO_ENTRY : string := "No such file or directory".
Definition EXISTS : string := "File exists".

(** A file is a directory and a name. *)
Definition Path : Type := string * string.
Definition read_path (d : gmap string Directory) (path : Path) : option bytes :=
  directory ← d !! path.1; directory !! path.2.
Definition write_path (d : gmap string Directory) (path : Path) (content : bytes) :
    gmap string Directory :=
  alter (fun directory => <[path.2 := content]> directory) path.1 d.
Definition remove_path (d : gmap string Directory) (path : Path) : gmap string Directory :=
  alter (fun directory => delete path.2 directory) path.1 d.

(** [Path::exists] and [fs::read] of a file that exists. *)
Definition exists_file (path : Path) : IO bool := fun w =>
  (w, Done (Ok (is_some (read_path w.(disk) path)))).
Definition read_file (path : Path) : IO bytes := fun w =>
  (w, Done (ok_or (read_path w.(disk) path) NO_ENTRY)).

(** [create_new(true).open(path)] *)
Definition create_new (path : Path) : IO unit :=
  syscall (fun d =>
    match d !! path.1 with
    | None => Err NO_ENTRY
    | Some _ => if is_some (read_path d path) then Err EXISTS else Ok (write_path d path [], tt)
    end) untouched.
(** [write_all] and [sync_all] of the file just created *)
Definition write_all (path : Path) (content : bytes) : IO unit :=
  syscall (fun d => Ok (write_path d path content, tt))
    (fun n d => write_path d path (take n content)).
Definition hard_link (from to : Path) : IO unit :=
  syscall (fun d =>
    match read_path d from with
    | None => Err NO_ENTRY
    | Some content => if is_some (read_path d to) then Err EXISTS else Ok (write_path d to content, tt)
    end) untouched.
Definition rename (from to : Path) : IO unit :=
  syscall (fun d =>
    match read_path d from with
    | None => Err NO_ENTRY
    | Some content => Ok (write_path (remove_path d from) to content, tt)
    end) untouched.
Definition remove_file (path : Path) : IO unit :=
  syscall (fun d => if is_some (read_path d path) then Ok (remove_path d path, tt) else Err NO_ENTRY)
    untouched.
Definition sync_parent_directory : IO unit := syscall (fun d => Ok (d, tt)) untouched.
Definition ensure_directory (directory : string) : IO unit := fun w =>
  if is_some (w.(disk) !! directory) then (w, Done (Ok tt))
  else syscall (fun d => Ok (<[directory := ∅]> d, tt)) untouched w.

(** [EVENT_SEQUENCE.fetch_add(1, Relaxed)]: the counter of temporary names. *)
Definition fetch_sequence : IO N := fun w =>
  (mkWorld w.(disk) (wrapping_add u64_max w.(sequence) 1) w.(process_id) w.(fates), Done (Ok w.(sequence))).
Definition get_process_id : IO N := fun w => (w, Done (Ok w.(process_id))).

(** ** The engine's writers *)
Definition temporary_name (prefix : string) (process sequence : N) : string :=
  prefix +:+ pretty process +:+ "-" +:+ pretty sequence +:+ ".tmp".

(** [let _ = fs::remove_file(path);] *)
Definition discard (path : Path) : IO unit := attempt (remove_file path) ;;? ret tt.

(** A temporary file with the content, removed when it cannot be written. *)
Definition stage (prefix directory : string) (content : bytes) : IO Path :=
  do? sequence := fetch_sequence in
  do? process := get_process_id in
  let temporary := (directory, temporary_name prefix process sequence) in
  create_new temporary ;;?
  do? written := attempt (write_all temporary content) in
  match written with
  | Err error => discard temporary ;;? fail error
  | Ok _ => ret temporary
  end.

Definition write_new_atomic (path : Path) (content : bytes) : IO unit :=
  do? temporary := stage ".engine-event-" path.1 content in
  do? linked := attempt (hard_link temporary path) in
  match linked with
  | Err error => discard temporary ;;? fail error
  | Ok _ => remove_file temporary ;;? sync_parent_directory
  end.

(** [path.with_extension("json.previous")] of a [.json] file. *)
Definition backup_of (path : Path) : Path := (path.1, path.2 +:+ ".previous").

Definition write_replace_atomic (path : Path) (content : bytes) : IO unit :=
  ensure_directory path.1 ;;?
  do? temporary := stage ".runtime-status-" path.1 content in
  do? present := exists_file path in
  (if present : bool then
     let backup := backup_of path in
     do? busy := exists_file backup in
     if busy : bool then
       discard temporary ;;? fail "runtime status replacement is already in progress"
     else
       rename path backup ;;?
       do? renamed := attempt (rename temporary path) in
       match renamed with
       | Err error => attempt (rename backup path) ;;? discard temporary ;;? fail error
       | Ok _ => remove_file backup
       end
   else rename temporary path) ;;?
  sync_parent_directory.

(** [recover_runtime_status], [recover_rollout_file] and
    [recover_progress_file] have this one body; [parse] is the check of the
    content their reader makes. *)
Definition recover_file {A : Type} (parse : bytes -> result string A) (path : Path) : IO unit :=
  let backup := backup_of path in
  do? present := exists_file path in
  do? saved := exists_file backup in
  if negb present && saved then
    do? content := read_file backup in
    lift (parse content) ;;?
    rename backup path ;;? sync_parent_directory
  else if present && saved then
    do? content := read_file path in
    lift (parse content) ;;?
    remove_file backup ;;? sync_parent_directory
  else ret tt.

(** ** Names *)
Definition staged (prefix name : string) : bool := starts_with name prefix && exact_suffix name ".tmp".

Lemma app_cons_str x (a b : string) : String x a +:+ b = String x (a +:+ b).
Proof. done. Qed.
Lemma app_assoc_str (a b c : string) : a +:+ (b +:+ c) = (a +:+ b) +:+ c.
Proof. induction a as [|x a IH]; [done|]. by rewrite !app_cons_str, IH. Qed.
Lemma prefix_app (p s : string) : String.prefix p (p +:+ s) = true.
Proof.
  induction p as [|x p IH]; [by destruct s|]. rewrite app_cons_str. cbn [String.prefix].
  by destruct (ascii_dec x x).
Qed.
Lemma ends_with_app (a s : string) : ends_with (a +:+ s) s = true.
Proof.
  induction a as [|x a IH].
  - change ("" +:+ s) with s. destruct s; cbn [ends_with]; by rewrite bool_decide_eq_true_2.
  - change (String x a +:+ s) with (String x (a +:+ s)). cbn [ends_with]. rewrite IH. apply orb_true_r.
Qed.

Lemma temporary_staged prefix p s : staged prefix (temporary_name prefix p s) = true.
Proof.
  unfold staged, temporary_name, starts_with, exact_suffix. rewrite prefix_app.
  by rewrite (app_assoc_str (pretty p)), (app_assoc_str (pretty p +:+ "-")), app_assoc_str, ends_with_app.
Qed.

Lemma staged_dot prefix name :
  starts_with_char prefix "." = true -> staged prefix name = true -> starts_with_char name "." = true.
Proof.
  unfold staged, starts_with. intros Hp [H _]%andb_true_iff. destruct prefix as [|a prefix]; [done|].
  destruct name as [|b name]; [done|]. cbn in *. destruct (ascii_dec a b) as [->|]; done.
Qed.

Lemma backup_dot path : path.2 <> "" -> starts_with_char (backup_of path).2 "." = starts_with_char path.2 ".".
Proof. unfold backup_of. cbn [snd]. by destruct (path.2). Qed.
Lemma length_app_str (a b : string) : String.length (a +:+ b) = (String.length a + String.length b)%nat.
Proof. induction a as [|x a IH]; [done|]. rewrite app_cons_str. cbn [String.length]. by rewrite IH. Qed.
Lemma append_ne (a b : string) : b <> "" -> a +:+ b <> a.
Proof.
  intros Hb H. apply (f_equal String.length) in H. rewrite length_app_str in H. destruct b; [done|]. cbn in H. lia.
Qed.
Lemma backup_ne path : backup_of path <> path.
Proof.
  intros H. apply (f_equal (fun q => String.length q.2)) in H. unfold backup_of in H. cbn [snd] in H.
  rewrite length_app_str in H. cbn in H. lia.
Qed.

(** ** Reading back *)
Lemma read_write_eq d path c : is_Some (d !! path.1) -> read_path (write_path d path c) path = Some c.
Proof.
  intros [dir Hd]. unfold read_path, write_path. rewrite lookup_alter_eq, Hd. cbn. by rewrite lookup_insert_eq.
Qed.
Lemma read_write_ne d p q c : p <> q -> read_path (write_path d p c) q = read_path d q.
Proof.
  intros Hne. unfold read_path, write_path. destruct p as [pd pn], q as [qd qn]. cbn.
  destruct (decide (pd = qd)) as [<-|]; [|by rewrite lookup_alter_ne].
  rewrite lookup_alter_eq. destruct (d !! pd); [|done]. cbn. apply lookup_insert_ne. congruence.
Qed.
Lemma read_remove_eq d path : read_path (remove_path d path) path = None.
Proof.
  unfold read_path, remove_path. rewrite lookup_alter_eq. destruct (d !! path.1); [|done]. cbn. apply lookup_delete_eq.
Qed.
Lemma read_remove_ne d p q : p <> q -> read_path (remove_path d p) q = read_path d q.
Proof.
  intros Hne. unfold read_path, remove_path. destruct p as [pd pn], q as [qd qn]. cbn.
  destruct (decide (pd = qd)) as [<-|]; [|by rewrite lookup_alter_ne].
  rewrite lookup_alter_eq. destruct (d !! pd); [|done]. cbn. apply lookup_delete_ne. congruence.
Qed.
Lemma read_Some_dir d path c : read_path d path = Some c -> is_Some (d !! path.1).
Proof. unfold read_path. destruct (d !! path.1); [by eexists|done]. Qed.
Lemma dir_write d path c dir : dir <> path.1 -> write_path d path c !! dir = d !! dir.
Proof. intros. unfold write_path. by apply lookup_alter_ne. Qed.
Lemma dir_remove d path dir : dir <> path.1 -> remove_path d path !! dir = d !! dir.
Proof. intros. unfold remove_path. by apply lookup_alter_ne. Qed.
Lemma is_dir_write d path c dir : is_Some (write_path d path c !! dir) <-> is_Some (d !! dir).
Proof.
  unfold write_path. destruct (decide (dir = path.1)) as [->|]; [|by rewrite lookup_alter_ne].
  rewrite lookup_alter_eq. by rewrite fmap_is_Some.
Qed.
Lemma is_dir_remove d path dir : is_Some (remove_path d path !! dir) <-> is_Some (d !! dir).
Proof.
  unfold remove_path. destruct (decide (dir = path.1)) as [->|]; [|by rewrite lookup_alter_ne].
  rewrite lookup_alter_eq. by rewrite fmap_is_Some.
Qed.

(** ** A crash logic

    [triple P m Q C]: from a disk in [P], the run of [m] ends with its result
    and a disk in [Q], or dies at a disk in [C], whatever the fates. *)
Abbreviation Disk := (gmap string Directory).
Definition triple {A : Type} (P : Disk -> Prop) (m : IO A) (Q : result string A -> Disk -> Prop)
    (C : Disk -> Prop) : Prop :=
  forall w, P w.(disk) -> match m w with
                          | (w', Done r) => Q r w'.(disk)
                          | (w', Died) => C w'.(disk)
                          end.

Lemma triple_weaken {A : Type} P P' (m : IO A) Q Q' C C' :
  triple P m Q C -> (forall d, P' d -> P d) -> (forall r d, Q r d -> Q' r d) -> (forall d, C d -> C' d) ->
  triple P' m Q' C'.
Proof. intros Hm HP HQ HC w Hw. specialize (Hm w (HP _ Hw)). destruct (m w) as [w' [r|]]; auto. Qed.

Lemma triple_bind {A B : Type} P (m : IO A) (k : A -> IO B) R Q C :
  triple P m (fun r d => match r with Ok a => R a d | Err e => Q (Err e) d end) C ->
  (forall a, triple (R a) (k a) Q C) -> triple P (bind m k) Q C.
Proof.
  intros Hm Hk w Hw. specialize (Hm w Hw). unfold bind. destruct (m w) as [w' [[a|e]|]]; [|done|done].
  by apply Hk.
Qed.
Lemma triple_attempt {A : Type} P (m : IO A) Q C :
  triple P m (fun r d => Q (Ok r) d) C -> triple P (attempt m) Q C.
Proof. intros Hm w Hw. specialize (Hm w Hw). unfold attempt. by destruct (m w) as [w' [r|]]. Qed.
Lemma triple_syscall {A : Type} P (step : Disk -> result string (Disk * A)) torn Q C :
  (forall d, P d -> match step d with Ok (d', a) => Q (Ok a) d' | Err e => Q (Err e) d end) ->
  (forall d n, P d -> Q (Err "I/O error") (torn n d) /\ C (torn n d)) ->
  triple P (syscall step torn) Q C.
Proof.
  intros Hs Ht w Hw. specialize (Hs _ Hw). unfold syscall.
  destruct (fates w) as [|[|n|n] l]; [| |apply (Ht _ n Hw)..]; by destruct (step (disk w)) as [[d' a]|e].
Qed.
Lemma triple_ret {A : Type} P (a : A) (Q : result string A -> Disk -> Prop) C :
  (forall d, P d -> Q (Ok a) d) -> triple P (ret a) Q C.
Proof. intros H w Hw. by apply H. Qed.
Lemma triple_fail {A : Type} P e (Q : result string A -> Disk -> Prop) C :
  (forall d, P d -> Q (Err e) d) -> triple P (fail e) Q C.
Proof. intros H w Hw. by apply H. Qed.
Lemma triple_lift {A : Type} P (r : result string A) (Q : result string A -> Disk -> Prop) C :
  (forall d, P d -> Q r d) -> triple P (lift r) Q C.
Proof. intros H w Hw. by apply H. Qed.
(** A fact that does not depend on the disk is a hypothesis. *)
Lemma triple_pure {A : Type} (F : Prop) P (m : IO A) Q C :
  (F -> triple P m Q C) -> triple (fun d => F /\ P d) m Q C.
Proof. intros H w [Hf Hw]. by apply H. Qed.
Lemma triple_exists P path (Q : result string bool -> Disk -> Prop) C :
  (forall d, P d -> Q (Ok (is_some (read_path d path))) d) -> triple P (exists_file path) Q C.
Proof. intros H w Hw. by apply H. Qed.
Lemma triple_read P path (Q : result string bytes -> Disk -> Prop) C :
  (forall d, P d -> Q (ok_or (read_path d path) NO_ENTRY) d) -> triple P (read_file path) Q C.
Proof. intros H w Hw. by apply H. Qed.

(** ** Staging

    What does not depend on staged files survives staging. *)
Definition ignores (prefix dir : string) (P : Disk -> Prop) : Prop :=
  forall d q, q.1 = dir -> staged prefix q.2 = true -> P d ->
    (forall c, P (write_path d q c)) /\ P (remove_path d q).

Lemma discard_triple prefix dir P q :
  ignores prefix dir P -> q.1 = dir -> staged prefix q.2 = true ->
  triple P (discard q) (fun _ d => P d) P.
Proof.
  intros HP Hd Hs. unfold discard. apply (triple_bind _ _ _ (fun _ d => P d)).
  - apply triple_attempt, triple_syscall; [|done]. intros d Hw. destruct (is_some _); [|done].
    by apply (HP d q).
  - intros r. by apply triple_ret.
Qed.

Lemma stage_triple prefix dir content P :
  ignores prefix dir P ->
  triple P (stage prefix dir content)
    (fun r d => P d /\ match r with
                       | Ok q => q.1 = dir /\ staged prefix q.2 = true /\ read_path d q = Some content
                       | Err _ => True
                       end) P.
Proof.
  intros HP [d0 seq pid fs] Hw. cbn in Hw. set (q := (dir, temporary_name prefix pid seq)).
  assert (staged prefix q.2 = true) as Hs by apply temporary_staged.
  assert (triple P (create_new q ;;? (do? written := attempt (write_all q content) in
            match written with Err error => discard q ;;? fail error | Ok _ => ret q end))
    (fun r d => P d /\ match r with
                       | Ok q => q.1 = dir /\ staged prefix q.2 = true /\ read_path d q = Some content
                       | Err _ => True
                       end) P) as Ht.
  2:{ exact (Ht (mkWorld d0 (wrapping_add u64_max seq 1) pid fs) Hw). }
  apply (triple_bind _ _ _ (fun _ d => P d /\ is_Some (d !! dir))).
  { apply triple_syscall; [|done]. intros d Hd. destruct (d !! q.1) as [x|] eqn:Hq; [|done].
    destruct (is_some _); [done|]. split; [by apply (HP d q)|]. apply is_dir_write. by exists x. }
  intros _. apply (triple_bind _ _ _ (fun r d => P d /\ match r with Ok _ => read_path d q = Some content | Err _ => True end)).
  { apply triple_attempt, triple_syscall.
    - intros d [Hd Hdir]. split; [by apply (HP d q)|]. by apply read_write_eq.
    - intros d n [Hd _]. split; [split; [by apply (HP d q)|done]|by apply (HP d q)]. }
  intros [u|e].
  - apply triple_ret. intros d [Hd Hr]. done.
  - apply (triple_bind _ _ _ (fun _ d => P d)).
    + apply (triple_weaken P _ _ (fun _ d => P d) _ P); [by apply (discard_triple prefix dir)|tauto|by intros [] ?|done].
    + intros _. by apply triple_fail.
Qed.

(** ** What a writer leaves alone *)
Record framed (prefix dir : string) (names : list string) (d0 d : Disk) : Prop := {
  fr_dirs : forall x, x <> dir -> d !! x = d0 !! x;
  fr_dir : is_Some (d0 !! dir) -> is_Some (d !! dir);
  fr_names : forall name, name ∉ names -> staged prefix name = false ->
               read_path d (dir, name) = read_path d0 (dir, name);
}.

Lemma framed_refl prefix dir names d : framed prefix dir names d d.
Proof. by constructor. Qed.
Lemma framed_write prefix dir names d0 d q c :
  framed prefix dir names d0 d -> q.1 = dir -> (q.2 ∈ names \/ staged prefix q.2 = true) ->
  framed prefix dir names d0 (write_path d q c).
Proof.
  intros [Hd He Hn] Hq Hor. constructor.
  - intros x Hx. rewrite dir_write by congruence. by apply Hd.
  - intros H. apply is_dir_write. by apply He.
  - intros name Hnot Hs. rewrite read_write_ne; [by apply Hn|]. intros ->. cbn in Hor. destruct Hor; congruence.
Qed.
Lemma framed_remove prefix dir names d0 d q :
  framed prefix dir names d0 d -> q.1 = dir -> (q.2 ∈ names \/ staged prefix q.2 = true) ->
  framed prefix dir names d0 (remove_path d q).
Proof.
  intros [Hd He Hn] Hq Hor. constructor.
  - intros x Hx. rewrite dir_remove by congruence. by apply Hd.
  - intros H. apply is_dir_remove. by apply He.
  - intros name Hnot Hs. rewrite read_remove_ne; [by apply Hn|]. intros ->. cbn in Hor. destruct Hor; congruence.
Qed.

(** The content a reader sees after recovery: the file, or the backup of a
    replacement that was cut short. *)
Definition visible (d : Disk) (path : Path) : option bytes :=
  match read_path d path with Some c => Some c | None => read_path d (backup_of path) end.

(** Neither the file nor its backup is a temporary file. *)
Definition plain (path : Path) : Prop := path.2 <> "" /\ starts_with_char path.2 "." = false.
Lemma plain_not_staged prefix path q :
  starts_with_char prefix "." = true -> plain path -> staged prefix q.2 = true -> q <> path /\ q <> backup_of path.
Proof.
  intros Hp [Hne Hdot] Hs%staged_dot; [|done]. split; intros ->; [congruence|].
  rewrite backup_dot in Hs by done. congruence.
Qed.

(** ** Replacing a file *)
Section Replace.
Context (path : Path) (content : bytes) (d0 : Disk) (Hplain : plain path).
Let prefix : string := ".runtime-status-".
Let backup : Path := backup_of path.
Let names : list string := [path.2; backup.2].

Definition frame (d : Disk) : Prop := framed prefix path.1 names d0 d.
(** Neither file was touched. *)
Definition before (d : Disk) : Prop :=
  frame d /\ read_path d path = read_path d0 path /\ read_path d backup = read_path d0 backup.
(** A reader sees the old content or the new one. *)
Definition either (d : Disk) : Prop :=
  frame d /\ (visible d path = visible d0 path \/ visible d path = Some content).

Lemma before_either d : before d -> either d.
Proof. intros (Hf & Hp & Hb). split; [done|]. left. unfold visible. fold backup. by rewrite Hp, Hb. Qed.

Lemma ignores_reads P :
  (forall d d', framed prefix path.1 names d0 d -> read_path d' path = read_path d path ->
     read_path d' backup = read_path d backup -> P d -> P d') ->
  ignores prefix path.1 (fun d => frame d /\ P d).
Proof.
  intros HP d q Hq Hs [Hf Hd]. destruct (plain_not_staged prefix path q eq_refl Hplain Hs) as [Hne Hnb].
  split; [intros c|]; (split; [first [apply framed_write|apply framed_remove]; auto|]);
    eapply HP; try done; first [by apply read_write_ne|by apply read_remove_ne].
Qed.

Lemma ignores_before : ignores prefix path.1 before.
Proof. apply ignores_reads. intros d d' Hf -> ->. done. Qed.
Lemma ignores_either : ignores prefix path.1 either.
Proof. apply ignores_reads. intros d d' Hf Hp Hb. unfold visible. fold backup. by rewrite Hp, Hb. Qed.

Lemma either_framed d : either d -> frame d.
Proof. by intros [? _]. Qed.
Lemma frame_write d q c : frame d -> q = path \/ q = backup -> frame (write_path d q c).
Proof. intros Hf [->| ->]; apply framed_write; try done; left; set_solver. Qed.
Lemma frame_remove d q :
  frame d -> q = path \/ q = backup \/ (q.1 = path.1 /\ staged prefix q.2 = true) -> frame (remove_path d q).
Proof. intros Hf [->|[->|[??]]]; apply framed_remove; try done; [left; set_solver..|by right]. Qed.

(** The new content replaces whatever is at the path. *)
Lemma rename_staged_triple q old P :
  q.1 = path.1 -> staged prefix q.2 = true ->
  (forall d, P d -> either d /\ read_path d q = Some content /\ read_path d backup = old) ->
  triple P (rename q path)
    (fun r d => match r with
                | Ok _ => frame d /\ read_path d path = Some content /\ read_path d backup = old
                | Err _ => P d
                end) either.
Proof.
  intros Hq Hs HP. destruct (plain_not_staged prefix path q eq_refl Hplain Hs) as [Hne Hnb].
  apply triple_syscall.
  - intros d Hd. destruct (HP d Hd) as (He & Hr & Hb). rewrite Hr. split_and!.
    + apply frame_write; [|by left]. apply frame_remove; [by apply either_framed|by right; right].
    + apply read_write_eq, is_dir_remove. rewrite <- Hq. by apply (read_Some_dir d q content).
    + rewrite read_write_ne by (apply not_eq_sym, backup_ne). by rewrite read_remove_ne.
  - intros d n Hd. split; [done|by apply HP].
Qed.

(** The result of a replacement. *)
Definition replaced (r : result string unit) (d : Disk) : Prop :=
  either d /\ (r = Ok tt -> read_path d path = Some content
                /\ (is_some (read_path d0 path) = true -> read_path d backup = None)).
Lemma replaced_err e d : either d -> replaced (Err e) d.
Proof. intros Hd. split; [done|discriminate]. Qed.
Lemma before_self : before d0.
Proof. split; [apply framed_refl|done]. Qed.
(** Content at the path is what a reader sees. *)
Lemma written_either d : frame d -> read_path d path = Some content -> either d.
Proof. intros Hf Hp. split; [done|]. right. unfold visible. by rewrite Hp. Qed.

Lemma create_directory_before : d0 !! path.1 = None -> before (<[path.1 := ∅]> d0).
Proof.
  intros Hx.
  assert (forall name, read_path (<[path.1 := ∅]> d0) (path.1, name) = read_path d0 (path.1, name)) as Hr.
  { intros name. unfold read_path. cbn. rewrite lookup_insert_eq, Hx. cbn. apply lookup_empty. }
  split_and!; [|exact (Hr path.2)|exact (Hr backup.2)]. constructor.
  - intros y Hy. by apply lookup_insert_ne.
  - rewrite Hx. by intros [? [=]].
  - intros n _ _. apply Hr.
Qed.

Lemma ensure_directory_triple :
  triple (fun d => d = d0) (ensure_directory path.1)
    (fun r d => match r with Ok _ => before d | Err e => replaced (Err e) d end) either.
Proof.
  intros w Hw. unfold ensure_directory. destruct (disk w !! path.1) as [x|] eqn:Hx; cbn [is_some is_none negb].
  { rewrite Hw. apply before_self. }
  rewrite Hw in Hx.
  assert (triple (fun d => d = d0) (syscall (fun d => Ok (<[path.1 := ∅]> d, tt)) untouched)
    (fun r d => match r with Ok _ => before d | Err e => replaced (Err e) d end) either) as Ht.
  { apply triple_syscall; [intros d ->; by apply create_directory_before|]. intros d n ->.
    assert (either d0) by apply before_either, before_self. split; [by apply replaced_err|done]. }
  exact (Ht w Hw).
Qed.

(** The replacement of a file that exists: it is saved, replaced, and the save
    removed; a failed replacement puts it back. *)
Lemma swap_triple q old :
  q.1 = path.1 -> staged prefix q.2 = true -> read_path d0 path = Some old ->
  triple (fun d => before d /\ read_path d q = Some content)
    (do? busy := exists_file backup in
     if busy : bool then discard q ;;? fail "runtime status replacement is already in progress"
     else rename path backup ;;?
          do? renamed := attempt (rename q path) in
          match renamed with
          | Err error => attempt (rename backup path) ;;? discard q ;;? fail error
          | Ok _ => remove_file backup
          end)
    (fun r d => match r with
                | Ok _ => frame d /\ read_path d path = Some content /\ read_path d backup = None
                | Err e => replaced (Err e) d
                end) either.
Proof.
  intros Hq Hs Hold. destruct (plain_not_staged prefix path q eq_refl Hplain Hs) as [Hne Hnb].
  assert (triple either (discard q) (fun _ => either) either) as Hdiscard
    by (apply (discard_triple prefix path.1); [apply ignores_either|done|done]).
  apply (triple_bind _ _ _ (fun b d => before d /\ read_path d q = Some content /\ b = is_some (read_path d0 backup))).
  { apply triple_exists. intros d [Hd Hr]. split_and!; try done. by destruct Hd as (_ & _ & ->). }
  intros [|].
  { apply (triple_bind _ _ _ (fun _ => either)); [|intros _; apply triple_fail, replaced_err].
    eapply triple_weaken; [apply Hdiscard|intros d [Hd _]; by apply before_either|by intros [] ?; [|apply replaced_err]|done]. }
  apply (triple_bind _ _ _ (fun _ d => either d /\ read_path d q = Some content /\ read_path d backup = Some old
                                      /\ read_path d path = None)).
  { apply triple_syscall.
    - intros d ((Hf & Hp & Hb) & Hr & _). rewrite Hp, Hold.
      assert (frame (write_path (remove_path d path) backup old)) as Hf'
        by (apply frame_write; [apply frame_remove; [done|by left]|by right]).
      assert (read_path (write_path (remove_path d path) backup old) path = None) as Hnone
        by (rewrite read_write_ne by apply backup_ne; apply read_remove_eq).
      assert (read_path (write_path (remove_path d path) backup old) backup = Some old) as Hback
        by (apply read_write_eq, is_dir_remove; change backup.1 with path.1; rewrite <- Hq;
            by apply (read_Some_dir d q content)).
      split_and!; try done.
      + split; [done|]. left. unfold visible. fold backup. by rewrite Hnone, Hback, Hold.
      + rewrite read_write_ne by auto. by rewrite read_remove_ne by auto.
    - intros d n (Hd & _). split; [apply replaced_err|]; by apply before_either. }
  intros _. apply (triple_bind _ _ _ (fun r d => match r with
      | Ok _ => frame d /\ read_path d path = Some content /\ read_path d backup = Some old
      | Err _ => either d /\ read_path d backup = Some old /\ read_path d path = None end)).
  { apply triple_attempt. eapply triple_weaken;
      [apply (rename_staged_triple q (Some old)
                (fun d => either d /\ read_path d q = Some content /\ read_path d backup = Some old
                          /\ read_path d path = None)); [done|done|tauto]|done| |done].
    intros [u|e] d; tauto. }
  intros [u|e].
  - apply triple_syscall.
    + intros d (Hf & Hp & Hb). rewrite Hb. cbn [is_some is_none negb]. split_and!.
      * apply frame_remove; [done|by right; left].
      * by rewrite read_remove_ne by apply backup_ne.
      * apply read_remove_eq.
    + intros d n (Hf & Hp & _). split; [apply replaced_err|]; by apply written_either.
  - apply (triple_bind _ _ _ (fun _ => either)).
    + apply triple_attempt, triple_syscall.
      * intros d (He & Hb & Hp). rewrite Hb. split.
        -- apply frame_write; [apply frame_remove; [by apply either_framed|by right; left]|by left].
        -- left. unfold visible. rewrite read_write_eq, Hold; [done|].
           apply is_dir_remove. by apply (read_Some_dir d backup old).
      * intros d n (He & _). done.
    + intros _. apply (triple_bind _ _ _ (fun _ => either)); [|intros _; apply triple_fail, replaced_err].
      eapply triple_weaken; [apply Hdiscard|done|by intros [] ?; [|apply replaced_err]|done].
Qed.

Lemma write_replace_triple :
  triple (fun d => d = d0) (write_replace_atomic path content) replaced either.
Proof.
  unfold write_replace_atomic. fold backup.
  apply (triple_bind _ _ _ (fun _ => before)); [apply ensure_directory_triple|]. intros _.
  apply (triple_bind _ _ _ (fun q d => before d /\ q.1 = path.1 /\ staged prefix q.2 = true
                                       /\ read_path d q = Some content)).
  { eapply triple_weaken; [apply (stage_triple prefix path.1 content before ignores_before)|done| |apply before_either].
    intros [q|e] d [Hd Hr]; [by split|]. by apply replaced_err, before_either. }
  intros q. apply (triple_bind _ _ _ (fun b d => before d /\ q.1 = path.1 /\ staged prefix q.2 = true
      /\ read_path d q = Some content /\ b = is_some (read_path d0 path))).
  { apply triple_exists. intros d (Hd & ? & ? & ?). split_and!; try done. by destruct Hd as (_ & -> & _). }
  intros present. apply (triple_bind _ _ _ (fun _ d => frame d /\ read_path d path = Some content
      /\ (is_some (read_path d0 path) = true -> read_path d backup = None))).
  2:{ intros _. apply triple_syscall.
      - intros d (Hf & Hp & Hb). split; [by apply written_either|done].
      - intros d n (Hf & Hp & Hb). split; [apply replaced_err|]; by apply written_either. }
  intros w (Hd & Hq & Hs & Hr & Hpres). revert w Hd Hr.
  enough (triple (fun d => before d /\ read_path d q = Some content)
    (if present then _ else rename q path)
    (fun r d => match r with
       | Ok _ => frame d /\ read_path d path = Some content
                 /\ (is_some (read_path d0 path) = true -> read_path d backup = None)
       | Err e => replaced (Err e) d end) either) as Ht by (intros w Hd Hr; exact (Ht w (conj Hd Hr))).
  destruct present.
  - destruct (read_path d0 path) as [old|] eqn:Hold; [|done].
    eapply triple_weaken; [apply (swap_triple q old Hq Hs Hold)|done| |done].
    intros [u|e] d; [|done]. intros (? & ? & ?). done.
  - destruct (read_path d0 path) as [old|] eqn:Hold; [done|].
    eapply triple_weaken; [apply (rename_staged_triple q (read_path d0 backup)
      (fun d => before d /\ read_path d q = Some content) Hq Hs)|done| |done].
    + intros d [H1 H2]. split_and!; [by apply before_either|done|apply H1].
    + intros [u|e] d; [by intros (? & ? & _)|intros [? _]; by apply replaced_err, before_either].
Qed.
End Replace.

(** ** A new file *)
Section New.
Context (path : Path) (content : bytes) (d0 : Disk) (Hplain : plain path).
Let prefix : string := ".engine-event-".

Definition new_frame (d : Disk) : Prop := framed prefix path.1 [path.2] d0 d.
(** The file is as it was, or the new content took an empty place. *)
Definition new_either (d : Disk) : Prop :=
  new_frame d /\ (read_path d path = read_path d0 path
                  \/ (read_path d0 path = None /\ read_path d path = Some content)).
Definition new_before (d : Disk) : Prop := new_frame d /\ read_path d path = read_path d0 path.
Definition new_after (d : Disk) : Prop :=
  new_frame d /\ read_path d0 path = None /\ read_path d path = Some content.

Lemma new_ignores P :
  (forall d d', read_path d' path = read_path d path -> P d -> P d') ->
  ignores prefix path.1 (fun d => new_frame d /\ P d).
Proof.
  intros HP d q Hq Hs [Hf Hd]. destruct (plain_not_staged prefix path q eq_refl Hplain Hs) as [Hne _].
  split; [intros c|]; (split; [first [apply framed_write|apply framed_remove]; auto|]);
    apply (HP d); try done; first [by apply read_write_ne|by apply read_remove_ne].
Qed.

Lemma write_new_triple :
  triple (fun d => d = d0) (write_new_atomic path content)
    (fun r d => new_either d /\ (r = Ok tt -> new_after d)) new_either.
Proof.
  assert (ignores prefix path.1 new_before) as Hib by (apply new_ignores; by intros d d' ->).
  assert (ignores prefix path.1 new_after) as Hia by (apply new_ignores; by intros d d' ->).
  assert (forall d, new_before d -> new_either d) as Hbe by (intros d [? ?]; split; [done|by left]).
  assert (forall d, new_after d -> new_either d) as Hae by (intros d (? & ? & ?); split; [done|by right]).
  set (Q := fun (r : result string unit) d => new_either d /\ (r = Ok tt -> new_after d)).
  assert (forall e d, new_either d -> Q (Err e) d) as HQ by (intros e d Hd; split; [done|discriminate]).
  unfold write_new_atomic.
  apply (triple_bind _ _ _ (fun q d => new_before d /\ q.1 = path.1 /\ staged prefix q.2 = true
                                       /\ read_path d q = Some content)).
  { eapply triple_weaken; [apply (stage_triple prefix path.1 content new_before Hib)| | |apply Hbe].
    - intros d ->. split; [apply framed_refl|done].
    - intros [q|e] d [Hd Hr]; [by split|]. by apply HQ, Hbe. }
  intros q. apply (triple_bind _ _ _ (fun r d => (q.1 = path.1 /\ staged prefix q.2 = true)
      /\ match r with Ok _ => new_after d /\ is_some (read_path d q) = true | Err _ => new_before d end)).
  { apply triple_attempt, triple_syscall.
    - intros d ((Hf & Hp) & Hq & Hs & Hr). rewrite Hr. destruct (read_path d path) as [c|] eqn:Hc; [split; [done|]; split; [done|congruence]|].
      destruct (plain_not_staged prefix path q eq_refl Hplain Hs) as [Hne _]. split; [done|]. split.
      + split; [apply framed_write; [done..|left; set_solver]|]. split; [done|].
        apply read_write_eq. rewrite <- Hq. by apply (read_Some_dir d q content).
      + by rewrite read_write_ne, Hr by auto.
    - intros d n (Hd & ? & ? & _). split; [done|by apply Hbe]. }
  intros [u|e] w [[Hq Hs] Hd].
  - revert w Hd. enough (triple (fun d => new_after d /\ is_some (read_path d q) = true)
      (remove_file q ;;? sync_parent_directory) Q new_either) as Ht by exact Ht.
    apply (triple_bind _ _ _ (fun _ => new_after)).
    + apply triple_syscall.
      * intros d [Hd ->]. by apply (Hia d q Hq Hs).
      * intros d n [Hd _]. split; [apply HQ|]; by apply Hae.
    + intros _. apply triple_syscall; [intros d Hd; split; auto|]. intros d n Hd. split; [apply HQ|]; by apply Hae.
  - revert w Hd. enough (triple new_before (discard q ;;? fail e) Q new_either) as Ht by exact Ht.
    apply (triple_bind _ _ _ (fun _ => new_before)); [|intros _; apply triple_fail; intros d Hd; by apply HQ, Hbe].
    eapply triple_weaken; [apply (discard_triple prefix path.1 new_before q Hib Hq Hs)|done| |apply Hbe].
    intros [u|e'] d Hd; [done|by apply HQ, Hbe].
Qed.
End New.

(** ** Recovery *)
Section Recover.
Context {A : Type} (parse : bytes -> result string A).

(** Recovery never changes what a reader sees, whatever happens to it. *)
Definition seen_same (path : Path) (d0 d : Disk) : Prop :=
  visible d path = visible d0 path
  /\ (forall q, q <> path -> q <> backup_of path -> read_path d q = read_path d0 q)
  /\ (forall dir, dir <> path.1 -> d !! dir = d0 !! dir).

(** One file is left. *)
Definition one_file (path : Path) (d0 d : Disk) : Prop :=
  read_path d path = visible d0 path /\ read_path d (backup_of path) = None.

Lemma settle_triple path d0 (m : IO unit) d1 :
  seen_same path d0 d0 -> seen_same path d0 d1 -> one_file path d0 d1 ->
  triple (fun d => d = d0) m (fun r d => match r with Ok _ => d = d1 | Err _ => d = d0 end) (fun d => d = d0) ->
  triple (fun d => d = d0) (m ;;? sync_parent_directory)
    (fun r d => seen_same path d0 d /\ (r = Ok tt -> one_file path d0 d)) (seen_same path d0).
Proof.
  intros H0 H1 Ho Hm. apply (triple_bind _ _ _ (fun _ d => d = d1)).
  - eapply triple_weaken; [apply Hm|done| |by intros d ->]. intros [u|e] d Hd; subst d; [done|split; [done|discriminate]].
  - intros _. apply triple_syscall; [by intros d ->|]. intros d n ->. split; [split; [done|discriminate]|done].
Qed.

Lemma recover_triple path d0 :
  triple (fun d => d = d0) (recover_file parse path)
    (fun r d => seen_same path d0 d /\ (r = Ok tt -> one_file path d0 d)) (seen_same path d0).
Proof.
  pose proof (backup_ne path) as Hbn. assert (seen_same path d0 d0) as H0 by done.
  intros w Hw. unfold recover_file, bind, exists_file, lift, read_file. rewrite Hw.
  destruct (read_path d0 path) as [p|] eqn:Hp, (read_path d0 (backup_of path)) as [b|] eqn:Hb;
    cbn [is_some is_none negb andb ok_or];
    try (unfold ret; rewrite Hw; split; [exact H0|]; intros _; unfold one_file, visible; by rewrite Hp).
  - rewrite Hw, Hp. cbn [ok_or]. destruct (parse p); [|rewrite Hw; split; [exact H0|discriminate]].
    refine (settle_triple path d0 (remove_file (backup_of path)) (remove_path d0 (backup_of path)) H0 _ _ _ w Hw).
    + split_and!.
      * unfold visible. by rewrite read_remove_ne, Hp by auto.
      * intros q _ Hq. by rewrite read_remove_ne by auto.
      * intros dir Hd. by apply dir_remove.
    + split; [|apply read_remove_eq]. unfold visible. by rewrite read_remove_ne, Hp by auto.
    + apply triple_syscall; [intros d ->; by rewrite Hb|by intros d n ->].
  - rewrite Hw, Hb. cbn [ok_or]. destruct (parse b); [|rewrite Hw; split; [exact H0|discriminate]].
    assert (read_path (write_path (remove_path d0 (backup_of path)) path b) path = Some b) as Hread
      by (apply read_write_eq, is_dir_remove; exact (read_Some_dir d0 (backup_of path) b Hb)).
    refine (settle_triple path d0 (rename (backup_of path) path)
              (write_path (remove_path d0 (backup_of path)) path b) H0 _ _ _ w Hw).
    + split_and!.
      * unfold visible. by rewrite Hread, Hp, Hb.
      * intros q Hq Hq'. by rewrite read_write_ne, read_remove_ne by auto.
      * intros dir Hd. rewrite dir_write by done. by apply dir_remove.
    + split; [unfold visible; by rewrite Hread, Hp, Hb|]. rewrite read_write_ne by auto. apply read_remove_eq.
    + apply triple_syscall; [intros d ->; by rewrite Hb|by intros d n ->].
Qed.

(** An undisturbed recovery of content that parses leaves one file. *)
Lemma recover_clean path w :
  w.(fates) = [] -> (forall c, visible w.(disk) path = Some c -> is_ok (parse c) = true) ->
  exists w', recover_file parse path w = (w', Done (Ok tt)) /\ w'.(fates) = []
    /\ read_path w'.(disk) path = visible w.(disk) path /\ read_path w'.(disk) (backup_of path) = None.
Proof.
  intros Hf Hv. destruct w as [d seq pid fs]. cbn in Hf. subst fs. cbn [disk] in *. unfold visible in *.
  pose proof (backup_ne path) as Hbn. unfold recover_file, bind, exists_file, read_file. cbn [disk].
  destruct (read_path d path) as [p|] eqn:Hp, (read_path d (backup_of path)) as [b|] eqn:Hb;
    cbn [is_some is_none negb andb ok_or].
  - specialize (Hv p eq_refl). unfold lift, remove_file, sync_parent_directory, syscall.
    cbn [disk fates tail]. rewrite Hp. cbn [ok_or]. destruct (parse p); [|done]. cbn [disk fates tail].
    rewrite Hb. cbn [is_some is_none negb with_disk disk fates tail].
    eexists. split; [reflexivity|]. cbn [disk fates with_disk]. split_and!; [done| |apply read_remove_eq].
    by rewrite read_remove_ne, Hp by auto.
  - eexists. split; [reflexivity|]. cbn [disk fates]. by rewrite Hp.
  - specialize (Hv b eq_refl). unfold lift, rename, sync_parent_directory, syscall.
    cbn [disk fates tail]. rewrite Hb. cbn [ok_or]. destruct (parse b); [|done]. cbn [disk fates tail].
    cbn [with_disk disk fates tail].
    eexists. split; [reflexivity|]. cbn [disk fates with_disk]. split_and!; [done| |].
    + apply read_write_eq, is_dir_remove. exact (read_Some_dir d (backup_of path) b Hb).
    + rewrite read_write_ne by auto. apply read_remove_eq.
  - eexists. split; [reflexivity|]. cbn [disk fates]. by rewrite Hp.
Qed.

(** Replacing a file is atomic: whatever system call of the replacement
    fails, and wherever the process dies, the recovery run by the next reader
    succeeds and leaves exactly one file, with the old content or the new one;
    the new one if the replacement returned success.  No other file is
    touched, apart from temporary files of the same directory. *)
Theorem replace_is_atomic (path : Path) (content : bytes) (w w' : World) (o : outcome unit)
    (Hplain : plain path)
    (Hold : forall c, visible w.(disk) path = Some c -> is_ok (parse c) = true)
    (Hnew : is_ok (parse content) = true)
    (Hrun : write_replace_atomic path content w = (w', o)) :
  exists w2, recover_file parse path (mkWorld w'.(disk) 0 w'.(process_id) []) = (w2, Done (Ok tt))
    /\ read_path w2.(disk) (backup_of path) = None
    /\ (read_path w2.(disk) path = visible w.(disk) path \/ read_path w2.(disk) path = Some content)
    /\ (o = Done (Ok tt) -> read_path w2.(disk) path = Some content)
    /\ forall q, q <> path -> q <> backup_of path ->
         (q.1 = path.1 -> staged ".runtime-status-" q.2 = false) ->
         read_path w2.(disk) q = read_path w.(disk) q.
Proof.
  pose proof (write_replace_triple path content w.(disk) Hplain w eq_refl) as Ht. rewrite Hrun in Ht.
  assert (either path content w.(disk) w'.(disk)) as [Hf Hvis] by (destruct o; [apply Ht|exact Ht]).
  destruct (recover_clean path (mkWorld w'.(disk) 0 w'.(process_id) [])) as (w2 & Hrec & _ & Hp & Hb); [done| |].
  { intros c. cbn. destruct Hvis as [->| ->]; [apply Hold|by intros [= <-]]. }
  exists w2. cbn [disk] in *. rewrite Hp. split_and!; [done|done|done| |].
  - intros ->. destruct Ht as [_ Ht]. unfold visible. by rewrite (proj1 (Ht eq_refl)).
  - intros q Hq Hqb Hs. pose proof (recover_triple path w'.(disk) (mkWorld w'.(disk) 0 w'.(process_id) []) eq_refl) as Hr.
    rewrite Hrec in Hr. destruct Hr as ((_ & Hr & _) & _). rewrite Hr by done.
    destruct (decide (q.1 = path.1)) as [He|He].
    + destruct q as [dir name]. cbn in He. subst dir. apply (fr_names _ _ _ _ _ Hf); [|by apply Hs].
      intros [->|[->|[]%elem_of_nil]%elem_of_cons]%elem_of_cons; [|done]. apply Hq. by destruct path.
    + unfold read_path. by rewrite (fr_dirs _ _ _ _ _ Hf).
Qed.
End Recover.

(** A new file is written atomically and never over another one: wherever
    the process dies or a system call fails, the file is either as it was
    before, or, if there was none, complete; a successful return means there
    was none and now there is.  No other file is touched, apart from temporary
    files of the same directory. *)
Theorem new_is_atomic (path : Path) (content : bytes) (w w' : World) (o : outcome unit)
    (Hplain : plain path) (Hrun : write_new_atomic path content w = (w', o)) :
  (read_path w'.(disk) path = read_path w.(disk) path
   \/ (read_path w.(disk) path = None /\ read_path w'.(disk) path = Some content))
  /\ (o = Done (Ok tt) -> read_path w.(disk) path = None /\ read_path w'.(disk) path = Some content)
  /\ forall q, q <> path -> (q.1 = path.1 -> staged ".engine-event-" q.2 = false) ->
       read_path w'.(disk) q = read_path w.(disk) q.
Proof.
  pose proof (write_new_triple path content w.(disk) Hplain w eq_refl) as Ht. rewrite Hrun in Ht.
  assert (new_either path content w.(disk) w'.(disk)) as [Hf Hvis] by (destruct o; [apply Ht|exact Ht]).
  split_and!; [done| |].
  - intros ->. destruct Ht as [_ Ht]. by destruct (Ht eq_refl) as (_ & ? & ?).
  - intros q Hq Hs. destruct (decide (q.1 = path.1)) as [He|He].
    + destruct q as [dir name]. cbn in He. subst dir. apply (fr_names _ _ _ _ _ Hf); [|by apply Hs].
      intros ->%list_elem_of_singleton. apply Hq. by destruct path.
    + unfold read_path. by rewrite (fr_dirs _ _ _ _ _ Hf).
Qed.

(** ** Undisturbed runs

    Without failures every writer succeeds when its temporary name is free. *)
Definition clean {A : Type} (P : World -> Prop) (m : IO A) (Q : A -> World -> Prop) : Prop :=
  forall w, w.(fates) = [] -> P w -> exists w' a, m w = (w', Done (Ok a)) /\ w'.(fates) = [] /\ Q a w'.

Lemma clean_bind {A B : Type} P (m : IO A) (k : A -> IO B) R Q :
  clean P m R -> (forall a, clean (R a) (k a) Q) -> clean P (bind m k) Q.
Proof.
  intros Hm Hk w Hf Hw. destruct (Hm w Hf Hw) as (w' & a & Hrun & Hf' & Hr).
  destruct (Hk a w' Hf' Hr) as (w2 & b & Hrun' & ? & ?). exists w2, b. unfold bind. by rewrite Hrun.
Qed.
Lemma clean_attempt {A : Type} P (m : IO A) Q :
  clean P m (fun a => Q (Ok a)) -> clean P (attempt m) Q.
Proof.
  intros Hm w Hf Hw. destruct (Hm w Hf Hw) as (w' & a & Hrun & ? & ?). exists w', (Ok a). unfold attempt. by rewrite Hrun.
Qed.
Lemma clean_ret {A : Type} (P : World -> Prop) (a : A) : clean P (ret a) (fun b w => b = a /\ P w).
Proof. intros w Hf Hw. by exists w, a. Qed.
Lemma clean_exists P path : clean P (exists_file path) (fun b w => b = is_some (read_path w.(disk) path) /\ P w).
Proof. intros w Hf Hw. by eexists w, _. Qed.
Lemma clean_syscall {A : Type} (P : World -> Prop) (step : Disk -> result string (Disk * A)) torn (Q : A -> World -> Prop) :
  (forall w, P w -> exists d a, step w.(disk) = Ok (d, a) /\ Q a (with_disk w d)) ->
  clean P (syscall step torn) Q.
Proof.
  intros Hs w Hf Hw. destruct (Hs w Hw) as (d & a & Hstep & Hq). exists (with_disk w d), a.
  unfold syscall. rewrite Hf, Hstep. destruct w as [dk sq pid fs]. cbn in *. by subst fs.
Qed.
Lemma clean_weaken {A : Type} (P P' : World -> Prop) (m : IO A) (Q Q' : A -> World -> Prop) :
  clean P m Q -> (forall w, P' w -> P w) -> (forall a w, Q a w -> Q' a w) -> clean P' m Q'.
Proof.
  intros Hm HP HQ w Hf Hw. destruct (Hm w Hf (HP _ Hw)) as (w' & a & ? & ? & ?). exists w', a. auto.
Qed.

Lemma clean_stage prefix dir content (P : Disk -> Prop) :
  ignores prefix dir P ->
  clean (fun w => P w.(disk) /\ is_Some (w.(disk) !! dir)
                  /\ read_path w.(disk) (dir, temporary_name prefix w.(process_id) w.(sequence)) = None)
    (stage prefix dir content)
    (fun q w => P w.(disk) /\ is_Some (w.(disk) !! dir) /\ q.1 = dir /\ staged prefix q.2 = true
                /\ read_path w.(disk) q = Some content).
Proof.
  intros HP w Hf (Hp & Hd & Hfree). destruct w as [d seq pid fs]. cbn [fates disk process_id sequence] in *. subst fs.
  set (q := (dir, temporary_name prefix pid seq)) in *.
  assert (staged prefix q.2 = true) as Hs by apply temporary_staged.
  enough (clean (fun w => P w.(disk) /\ is_Some (w.(disk) !! dir) /\ read_path w.(disk) q = None)
    (create_new q ;;? (do? written := attempt (write_all q content) in
       match written with Err error => discard q ;;? fail error | Ok _ => ret q end))
    (fun q w => P w.(disk) /\ is_Some (w.(disk) !! dir) /\ q.1 = dir /\ staged prefix q.2 = true
                /\ read_path w.(disk) q = Some content)) as Ht.
  { exact (Ht (mkWorld d (wrapping_add u64_max seq 1) pid []) eq_refl (conj Hp (conj Hd Hfree))). }
  apply (clean_bind _ _ _ (fun _ w => P w.(disk) /\ is_Some (w.(disk) !! dir))).
  { apply clean_syscall. intros w (Hw & [x Hx] & Hn). change (q.1) with dir. rewrite Hx, Hn. cbn [is_some is_none negb].
    eexists _, _. split; [reflexivity|]. cbn [disk with_disk]. split; [by apply (HP _ q)|].
    apply is_dir_write. by exists x. }
  intros _. apply (clean_bind _ _ _ (fun r w => r = Ok tt /\ P w.(disk) /\ is_Some (w.(disk) !! dir)
                                                /\ read_path w.(disk) q = Some content)).
  { apply clean_attempt, clean_syscall. intros w (Hw & Hx). eexists _, _. split; [reflexivity|].
    cbn [disk with_disk]. split_and!; [done|by apply (HP _ q)|by apply is_dir_write|by apply read_write_eq]. }
  intros r w' Hf' (-> & ? & ? & ?). by exists w', q.
Qed.

(** The saved file is replaced and its save removed. *)
Lemma clean_swap path content old q :
  plain path -> q.1 = path.1 -> staged ".runtime-status-" q.2 = true ->
  clean (fun w => read_path w.(disk) (backup_of path) = None /\ is_Some (w.(disk) !! path.1)
        /\ read_path w.(disk) q = Some content /\ read_path w.(disk) path = Some old)
    (rename path (backup_of path) ;;? (do? renamed := attempt (rename q path) in
       match renamed with
       | Err error => attempt (rename (backup_of path) path) ;;? discard q ;;? fail error
       | Ok _ => remove_file (backup_of path) end))
    (fun _ w => is_Some (w.(disk) !! path.1) /\ read_path w.(disk) path = Some content).
Proof.
  intros Hpl Hq Hs. destruct (plain_not_staged ".runtime-status-" path q eq_refl Hpl Hs) as [Hne Hnb].
  assert (path <> backup_of path) as Hpb by (apply not_eq_sym, backup_ne).
  apply (clean_bind _ _ _ (fun _ w => is_Some (w.(disk) !! path.1) /\ read_path w.(disk) q = Some content
                                      /\ read_path w.(disk) (backup_of path) = Some old)).
  { apply clean_syscall. intros w' (Hb' & Hd' & Hq' & Hp'). rewrite Hp'. eexists _, _. split; [reflexivity|].
    cbn [disk with_disk]. split_and!.
    - by apply is_dir_write, is_dir_remove.
    - by rewrite read_write_ne, read_remove_ne by auto.
    - apply read_write_eq. change (backup_of path).1 with path.1. by apply is_dir_remove. }
  intros _. apply (clean_bind _ _ _ (fun r w => r = Ok tt /\ is_Some (w.(disk) !! path.1)
     /\ read_path w.(disk) path = Some content /\ read_path w.(disk) (backup_of path) = Some old)).
  { apply clean_attempt, clean_syscall. intros w' (Hd' & Hq' & Hb'). rewrite Hq'. eexists _, _. split; [reflexivity|].
    cbn [disk with_disk]. split_and!; [done|by apply is_dir_write, is_dir_remove| |].
    - by apply read_write_eq, is_dir_remove.
    - by rewrite read_write_ne, read_remove_ne by auto. }
  intros r w' Hf' (-> & Hd' & Hp' & Hb'). revert w' Hf' Hd' Hp' Hb'.
  enough (clean (fun w => is_Some (w.(disk) !! path.1) /\ read_path w.(disk) path = Some content
     /\ read_path w.(disk) (backup_of path) = Some old) (remove_file (backup_of path))
    (fun _ w => is_Some (w.(disk) !! path.1) /\ read_path w.(disk) path = Some content)) as Ht.
  { intros w' Hf' Hd' Hp' Hb'. by apply Ht. }
  apply clean_syscall. intros w' (Hd' & Hp' & Hb'). rewrite Hb'. cbn [is_some is_none negb].
  eexists _, _. split; [reflexivity|]. cbn [disk with_disk]. split; [by apply is_dir_remove|].
  by rewrite read_remove_ne by auto.
Qed.

Lemma clean_place path content q :
  clean (fun w => is_Some (w.(disk) !! path.1) /\ read_path w.(disk) q = Some content) (rename q path)
    (fun _ w => is_Some (w.(disk) !! path.1) /\ read_path w.(disk) path = Some content).
Proof.
  apply clean_syscall. intros w' (Hd' & Hq'). rewrite Hq'. eexists _, _. split; [reflexivity|].
  cbn [disk with_disk]. split; [by apply is_dir_write, is_dir_remove|]. by apply read_write_eq, is_dir_remove.
Qed.

Lemma clean_write_replace path content :
  plain path ->
  clean (fun w => is_Some (w.(disk) !! path.1) /\ read_path w.(disk) (backup_of path) = None
                  /\ read_path w.(disk) (path.1, temporary_name ".runtime-status-" w.(process_id) w.(sequence)) = None)
    (write_replace_atomic path content) (fun _ w => read_path w.(disk) path = Some content).
Proof.
  intros Hpl. unfold write_replace_atomic. set (backup := backup_of path).
  apply (clean_bind _ _ _ (fun _ w => read_path w.(disk) backup = None /\ is_Some (w.(disk) !! path.1)
    /\ read_path w.(disk) (path.1, temporary_name ".runtime-status-" w.(process_id) w.(sequence)) = None)).
  { intros w Hf (Hd & Hb & Ht). exists w, tt. unfold ensure_directory.
    destruct (disk w !! path.1) eqn:Hx; [|by destruct Hd]. done. }
  intros _. apply (clean_bind _ _ _ (fun q w => read_path w.(disk) backup = None /\ is_Some (w.(disk) !! path.1)
      /\ q.1 = path.1 /\ staged ".runtime-status-" q.2 = true /\ read_path w.(disk) q = Some content)).
  { apply (clean_stage ".runtime-status-" path.1 content (fun d => read_path d backup = None)). intros d q Hq Hs Hb.
    destruct (plain_not_staged ".runtime-status-" path q eq_refl Hpl Hs) as [_ Hnb].
    split; [intros c; by rewrite read_write_ne by auto|by rewrite read_remove_ne by auto]. }
  intros q w Hf (Hb & Hd & Hq & Hs & Hr).
  assert (clean (fun w => is_Some (w.(disk) !! path.1) /\ read_path w.(disk) path = Some content)
     sync_parent_directory (fun _ w => read_path w.(disk) path = Some content)) as Hsync
    by (apply clean_syscall; intros w' [_ Hw']; by eexists _, _).
  destruct (read_path (disk w) path) as [old|] eqn:Hp.
  - destruct (clean_swap path content old q Hpl Hq Hs w Hf) as (w' & u & Hrun & Hf' & Hdone); [done|].
    destruct (Hsync w' Hf' Hdone) as (w2 & v & Hrun2 & ? & ?). exists w2, v. split; [|done].
    unfold bind at 1. unfold exists_file at 1. rewrite Hp. cbn [is_some is_none negb].
    unfold bind at 1. unfold bind at 1. unfold exists_file at 1. rewrite Hb.
    cbn [is_some is_none negb]. subst backup. rewrite Hrun. exact Hrun2.
  - destruct (clean_place path content q w Hf) as (w' & u & Hrun & Hf' & Hdone); [done|].
    destruct (Hsync w' Hf' Hdone) as (w2 & v & Hrun2 & ? & ?). exists w2, v. split; [|done].
    unfold bind at 1. unfold exists_file at 1. rewrite Hp. cbn [is_some is_none negb].
    unfold bind at 1. rewrite Hrun. exact Hrun2.
Qed.

(** ** Concrete runs *)
Section Witnesses.
Let status_path : Path := ("stacks/shop", "runtime.json").
Definition some_file : World :=
  mkWorld {["stacks/shop" := {["runtime.json" := [x01]]}]} 0 7
    [Succeeds; Succeeds; Succeeds; Dies 0].
Definition any_bytes (content : bytes) : result string bytes := Ok content.

(** The process dies when the old file is saved and the new one not yet in
    place; recovery restores the old content. *)
Lemma replace_is_atomic_witness :
  exists w2, recover_file any_bytes status_path
      (mkWorld (write_replace_atomic status_path [x02; x03] some_file).1.(disk) 0 7 []) = (w2, Done (Ok tt))
    /\ read_path (write_replace_atomic status_path [x02; x03] some_file).1.(disk) status_path = None
    /\ (read_path w2.(disk) status_path = Some [x01] \/ read_path w2.(disk) status_path = Some [x02; x03]).
Proof.
  destruct (replace_is_atomic any_bytes status_path [x02; x03] some_file
    (write_replace_atomic status_path [x02; x03] some_file).1
    (write_replace_atomic status_path [x02; x03] some_file).2) as (w2 & Hr & _ & Hor & _).
  - split; [discriminate|reflexivity].
  - intros c _. reflexivity.
  - reflexivity.
  - apply surjective_pairing.
  - exists w2. split; [exact Hr|]. split; [vm_compute; reflexivity|exact Hor].
Defined.

Lemma new_is_atomic_witness :
  (write_new_atomic ("stacks/shop", "next.json") [x02] some_file).2 = Died
  /\ read_path (write_new_atomic ("stacks/shop", "next.json") [x02] some_file).1.(disk) status_path = Some [x01].
Proof.
  split; [vm_compute; reflexivity|].
  destruct (new_is_atomic ("stacks/shop", "next.json") [x02] some_file
    (write_new_atomic ("stacks/shop", "next.json") [x02] some_file).1
    (write_new_atomic ("stacks/shop", "next.json") [x02] some_file).2) as (_ & _ & Hq).
  - split; [discriminate|reflexivity].
  - apply surjective_pairing.
  - rewrite Hq; [reflexivity|discriminate|reflexivity].
Defined.
End Witnesses.
