(* ===== verification/Snapshot.v ===== *)
(** * Storage snapshots ([crates/cartridge-storage/src/snapshot.rs])

    The portable snapshot of one namespace: its payload and checksum, its
    validation and decoding, the comparison of two snapshots, and
    [SnapshotStorage], the backend a cartridge runs on when its state is a
    snapshot.  The text of a formatted error keeps its fixed part only. *)
From S2P Require Import Prelude Text Storage.

Definition SNAPSHOT_FORMAT_VERSION : N := 3.
Definition MAX_SNAPSHOT_FILE_BYTES : N := 144 * 1024 * 1024.

Record SnapshotPayload := mkSnapshotPayload {
  sn_format_version : N;
  sn_cartridge_id : string;
  sn_state_schema : N;
  sn_state_revision : N;
  sn_entries : gmap string string;
}.
#[global] Instance snapshot_payload_eq_dec : EqDecision SnapshotPayload.
Proof. solve_decision. Defined.

Record StorageSnapshot := mkSnapshot {
  sn_payload : SnapshotPayload;
  sn_payload_sha256 : string;
}.
#[global] Instance snapshot_eq_dec : EqDecision StorageSnapshot.
Proof. solve_decision. Defined.

Record StorageSnapshotSummary := mkSummary {
  sm_format_version : N;
  sm_cartridge_id : string;
  sm_state_schema : N;
  sm_state_revision : N;
  sm_entries : N;
  sm_bytes : N;
  sm_payload_sha256 : string;
}.

Record SnapshotEntry := mkSnapshotEntry { se_bytes : N; se_sha256 : string }.

Inductive SnapshotDifference :=
| DiffIdentity (left right : string)
| DiffSchema (left right : N)
| DiffRevision (left right : N)
| DiffEntry (key : string) (left right : option SnapshotEntry).

Record SnapshotComparison := mkComparison {
  identical : bool;
  difference : option SnapshotDifference;
}.

(** [SnapshotStorage]: an in-memory backend for one cartridge. *)
Record SnapshotStorage := mkSnapshotStorage {
  ss_cartridge_id : string;
  ss_state_schema : N;
  ss_storage : MemoryStorage;
}.

(** [hex::decode] reads back what [hex::encode] wrote, and reads two digits per
    byte. *)
Class HexDecode := {
  hex_decode : string -> result string bytes;
  hex_decode_encode : forall b, hex_decode (hex_encode b) = Ok b;
  hex_decode_len : forall s b, hex_decode s = Ok b -> str_len s = 2 * len b;
}.

(** The checks of a stored entry and the running total: the loop of
    [decode_entries], and of [read_state] of the directory backend, which
    differ in the texts of their errors. *)
Inductive Fault := BadKey | OversizedValue | BadValue | UsageOverflow | OverBudget.

Section Decode.
Context `{Hex : HexDecode}.

Fixpoint decode_loop (detail : Fault -> string) (total : N) (decoded : gmap string bytes)
    (l : list (string * string)) : Result (gmap string bytes * N) :=
  match l with
  | [] => Ok (decoded, total)
  | (key, encoded) :: l =>
      let? _ := match validate_key key with Ok _ => Ok tt | Err _ => Err (Corrupt (detail BadKey)) end in
      if saturating_mul usize_max MAX_STORAGE_VALUE_BYTES 2 <? str_len encoded
      then Err (Corrupt (detail OversizedValue))
      else
        let? value := match hex_decode encoded with
                      | Ok value => Ok value
                      | Err _ => Err (Corrupt (detail BadValue))
                      end in
        let? total := ok_or (checked_add usize_max total (len value)) (Corrupt (detail UsageOverflow)) in
        if MAX_STORAGE_BYTES <? total then Err (Corrupt (detail OverBudget))
        else decode_loop detail total (<[key := value]> decoded) l
  end.

Definition snapshot_fault (f : Fault) : string :=
  match f with
  | BadKey => "snapshot contains invalid key"
  | OversizedValue => "snapshot value exceeds the value limit"
  | BadValue => "snapshot value is invalid"
  | UsageOverflow => "snapshot usage overflowed"
  | OverBudget => "snapshot exceeds the global storage budget"
  end.

Definition decode_entries (self : StorageSnapshot) : Result (gmap string bytes) :=
  if MAX_STORAGE_KEYS <? btree_len self.(sn_payload).(sn_entries)
  then Err (Corrupt "snapshot contains too many keys")
  else
    let? (decoded, _) := decode_loop snapshot_fault 0 ∅ (btree_iter self.(sn_payload).(sn_entries)) in
    Ok decoded.
End Decode.

Section Snapshot.
Context `{Ext : Externals} `{Hex : HexDecode} `{JSp : !Json SnapshotPayload} `{JSn : !Json StorageSnapshot}
  `{DSn : !JsonDecode StorageSnapshot}.

(** [serde_json::to_vec(payload)?] *)
Definition serialize {A : Type} `{Json A} (a : A) : Result bytes :=
  match to_vec a with Ok b => Ok b | Err e => Err (Serialization e) end.

Definition payload_digest (payload : SnapshotPayload) : Result string :=
  let? bytes := serialize payload in
  Ok (hex_sha256 bytes).

Definition from_entries_with_revision (cartridge_id : string) (state_schema state_revision : N)
    (entries : gmap string bytes) : Result StorageSnapshot :=
  let? _ := validate_namespace cartridge_id in
  let payload := mkSnapshotPayload SNAPSHOT_FORMAT_VERSION cartridge_id state_schema state_revision
                   (hex_encode <$> entries) in
  let? payload_sha256 := payload_digest payload in
  Ok (mkSnapshot payload payload_sha256).

Definition supported_format (version : N) : bool :=
  (version =? 1) || (version =? 2) || (version =? SNAPSHOT_FORMAT_VERSION).

Definition validate_snapshot (self : StorageSnapshot) : Result unit :=
  let p := self.(sn_payload) in
  if negb (supported_format p.(sn_format_version)) then Err (Corrupt "unsupported snapshot format")
  else if (p.(sn_format_version) =? 1) && negb (p.(sn_state_schema) =? 0)
  then Err (Corrupt "snapshot format 1 cannot declare a state schema")
  else if (p.(sn_format_version) <? SNAPSHOT_FORMAT_VERSION) && negb (p.(sn_state_revision) =? 0)
  then Err (Corrupt "snapshot formats 1 and 2 cannot declare a state revision")
  else
    let? _ := match validate_namespace p.(sn_cartridge_id) with
              | Ok _ => Ok tt
              | Err _ => Err (Corrupt "snapshot has an invalid cartridge id")
              end in
    let? digest := payload_digest p in
    if negb (bool_decide (self.(sn_payload_sha256) = digest))
    then Err (Corrupt "snapshot payload digest does not match its contents")
    else
      let? _ := decode_entries self in
      Ok tt.

(** [StorageSnapshot::from_slice] *)
Definition snapshot_from_slice (content : bytes) : Result StorageSnapshot :=
  if MAX_SNAPSHOT_FILE_BYTES <? len content then Err (Corrupt "snapshot exceeds the input size limit")
  else
    let? snapshot := match from_slice content with
                     | Ok snapshot => Ok snapshot
                     | Err _ => Err (Corrupt "snapshot is not valid JSON")
                     end in
    let? _ := validate_snapshot snapshot in
    Ok snapshot.

Definition with_state_revision (self : StorageSnapshot) (state_revision : N) : Result StorageSnapshot :=
  let? _ := validate_snapshot self in
  let? entries := decode_entries self in
  from_entries_with_revision self.(sn_payload).(sn_cartridge_id) self.(sn_payload).(sn_state_schema)
    state_revision entries.

Definition payload_sha256_for_format (self : StorageSnapshot) (format_version : N) : Result string :=
  let? _ := validate_snapshot self in
  if negb (supported_format format_version)
  then Err (Corrupt "unsupported snapshot compatibility format")
  else if (format_version =? 1) && negb (self.(sn_payload).(sn_state_schema) =? 0)
  then Err (Corrupt "snapshot format 1 cannot represent a nonzero schema")
  else
    payload_digest
      (mkSnapshotPayload format_version self.(sn_payload).(sn_cartridge_id)
         self.(sn_payload).(sn_state_schema)
         (if SNAPSHOT_FORMAT_VERSION <=? format_version then self.(sn_payload).(sn_state_revision) else 0)
         self.(sn_payload).(sn_entries)).

Fixpoint sum_values (total : N) (values : list bytes) : Result N :=
  match values with
  | [] => Ok total
  | value :: values =>
      let? total := ok_or (checked_add usize_max total (len value)) (Corrupt "snapshot usage overflowed") in
      sum_values total values
  end.
(** [usage] *)
Definition snapshot_usage (entries : gmap string bytes) : Result StorageUsage :=
  let? bytes := sum_values 0 (btree_values entries) in
  Ok (mkUsage bytes (btree_len entries)).

Definition summary (self : StorageSnapshot) : Result StorageSnapshotSummary :=
  let? _ := validate_snapshot self in
  let? entries := decode_entries self in
  let? usage := snapshot_usage entries in
  let p := self.(sn_payload) in
  Ok (mkSummary p.(sn_format_version) p.(sn_cartridge_id) p.(sn_state_schema) p.(sn_state_revision)
        usage.(usage_keys) usage.(usage_bytes) self.(sn_payload_sha256)).

Definition snapshot_entry (value : bytes) : SnapshotEntry := mkSnapshotEntry (len value) (hex_sha256 value).

(** [keys.into_iter().find_map(..)] over the sorted keys of both maps *)
Definition union_keys (left right : gmap string bytes) : list string :=
  merge_sort String.le (elements (dom left ∪ dom right : gset string)).
Fixpoint find_difference (left right : gmap string bytes) (keys : list string) : option SnapshotDifference :=
  match keys with
  | [] => None
  | key :: keys =>
      if negb (bool_decide (left !! key = right !! key))
      then Some (DiffEntry key (snapshot_entry <$> left !! key) (snapshot_entry <$> right !! key))
      else find_difference left right keys
  end.
Definition first_entry_difference (left right : gmap string bytes) : option SnapshotDifference :=
  find_difference left right (union_keys left right).

Definition compare (self other : StorageSnapshot) : Result SnapshotComparison :=
  let? _ := validate_snapshot self in
  let? _ := validate_snapshot other in
  let p := self.(sn_payload) in
  let q := other.(sn_payload) in
  let? difference :=
    (if negb (bool_decide (p.(sn_cartridge_id) = q.(sn_cartridge_id)))
     then Ok (Some (DiffIdentity p.(sn_cartridge_id) q.(sn_cartridge_id)))
     else if negb (p.(sn_state_schema) =? q.(sn_state_schema))
     then Ok (Some (DiffSchema p.(sn_state_schema) q.(sn_state_schema)))
     else if negb (p.(sn_state_revision) =? q.(sn_state_revision))
     then Ok (Some (DiffRevision p.(sn_state_revision) q.(sn_state_revision)))
     else
       let? own := decode_entries self in
       let? others := decode_entries other in
       Ok (first_entry_difference own others)) in
  Ok (mkComparison (is_none difference) difference).

Definition entries_for (self : StorageSnapshot) (expected_cartridge_id : string) : Result (gmap string bytes) :=
  let? _ := validate_snapshot self in
  if negb (bool_decide (self.(sn_payload).(sn_cartridge_id) = expected_cartridge_id))
  then Err (SnapshotIdentity expected_cartridge_id self.(sn_payload).(sn_cartridge_id))
  else decode_entries self.

(** ** The backend of a snapshot *)
Definition from_snapshot (snapshot : StorageSnapshot) (cartridge_id : string) (limits : StorageLimits) :
    Result SnapshotStorage :=
  let? _ := validate_limits limits in
  let? entries := entries_for snapshot cartridge_id in
  let (storage, loaded) :=
    MemoryBackend.load_namespace MemoryBackend.new cartridge_id snapshot.(sn_payload).(sn_state_schema)
      snapshot.(sn_payload).(sn_state_revision) entries limits in
  let? _ := loaded in
  Ok (mkSnapshotStorage cartridge_id snapshot.(sn_payload).(sn_state_schema) storage).

Definition export_snapshot_with_schema (self : SnapshotStorage) (state_schema : N) (limits : StorageLimits) :
    Result StorageSnapshot :=
  let? (revision, entries) := MemoryBackend.snapshot_state self.(ss_storage) self.(ss_cartridge_id) limits in
  from_entries_with_revision self.(ss_cartridge_id) state_schema revision entries.

Definition largest_limits : StorageLimits := mkLimits MAX_STORAGE_BYTES MAX_STORAGE_KEYS MAX_STORAGE_VALUE_BYTES.

Definition export_snapshot (self : SnapshotStorage) : Result StorageSnapshot :=
  export_snapshot_with_schema self self.(ss_state_schema) largest_limits.

Definition export_migrated_snapshot (self : SnapshotStorage) (expected_schema next_schema : N)
    (limits : StorageLimits) : Result StorageSnapshot :=
  if negb (self.(ss_state_schema) =? expected_schema)
  then Err (SchemaMismatch expected_schema self.(ss_state_schema))
  else if next_schema <=? expected_schema
  then Err (InvalidSchemaTransition expected_schema next_schema)
  else export_snapshot_with_schema self next_schema limits.

Definition check_namespace (self : SnapshotStorage) (namespace : string) : Result unit :=
  let? _ := validate_namespace namespace in
  if negb (bool_decide (namespace = self.(ss_cartridge_id)))
  then Err (SnapshotIdentity self.(ss_cartridge_id) namespace) else Ok tt.

Definition with_storage {A : Type} (self : SnapshotStorage) (r : MemoryStorage * Result A) :
    SnapshotStorage * Result A :=
  (mkSnapshotStorage self.(ss_cartridge_id) self.(ss_state_schema) r.1, r.2).

Definition snapshot_prepare (self : SnapshotStorage) (namespace : string) (state_schema : N)
    (limits : StorageLimits) : SnapshotStorage * Result unit :=
  let! _ := check_namespace self namespace on self in
  if negb (self.(ss_state_schema) =? state_schema)
  then (self, Err (SchemaMismatch state_schema self.(ss_state_schema)))
  else with_storage self (MemoryBackend.prepare self.(ss_storage) namespace state_schema limits).
Definition snapshot_get (self : SnapshotStorage) (namespace key : string) : Result (option bytes) :=
  let? _ := check_namespace self namespace in
  MemoryBackend.get self.(ss_storage) namespace key.
Definition snapshot_put (self : SnapshotStorage) (namespace key : string) (value : bytes)
    (limits : StorageLimits) : SnapshotStorage * Result unit :=
  let! _ := check_namespace self namespace on self in
  with_storage self (MemoryBackend.put self.(ss_storage) namespace key value limits).
Definition snapshot_delete (self : SnapshotStorage) (namespace key : string) : SnapshotStorage * Result bool :=
  let! _ := check_namespace self namespace on self in
  with_storage self (MemoryBackend.delete self.(ss_storage) namespace key).
Definition snapshot_list (self : SnapshotStorage) (namespace prefix : string) : Result (list string) :=
  let? _ := check_namespace self namespace in
  MemoryBackend.list self.(ss_storage) namespace prefix.
Definition snapshot_storage_usage (self : SnapshotStorage) (namespace : string) : Result StorageUsage :=
  let? _ := check_namespace self namespace in
  MemoryBackend.usage self.(ss_storage) namespace.
Definition snapshot_revision (self : SnapshotStorage) (namespace : string) : Result N :=
  let? _ := check_namespace self namespace in
  MemoryBackend.revision self.(ss_storage) namespace.
Definition snapshot_compare_exchange (self : SnapshotStorage) (namespace : string) (expected_revision : N)
    (key : string) (expected replacement : option bytes) (limits : StorageLimits) :
    SnapshotStorage * Result StorageTransactionResult :=
  let! _ := check_namespace self namespace on self in
  with_storage self
    (MemoryBackend.compare_exchange self.(ss_storage) namespace expected_revision key expected replacement limits).
Definition snapshot_apply_batch (self : SnapshotStorage) (namespace : string) (expected_revision : N)
    (mutations : list StorageMutation) (limits : StorageLimits) :
    SnapshotStorage * Result StorageTransactionResult :=
  let! _ := check_namespace self namespace on self in
  with_storage self (MemoryBackend.apply_batch self.(ss_storage) namespace expected_revision mutations limits).
End Snapshot.

(** ** Decoding *)

(** What a snapshot can hold: valid keys within the largest limits. *)
Definition storable (m : gmap string bytes) : Prop :=
  (forall k v, m !! k = Some v -> validate_key k = Ok tt) /\ within largest_limits m.

Definition insert_pair {V : Type} (m : gmap string V) (x : string * V) : gmap string V := <[x.1 := x.2]> m.

Lemma insert_pairs {V : Type} (l : list (string * V)) (m : gmap string V) :
  NoDup l.*1 -> (forall k, k ∈ l.*1 -> m !! k = None) ->
  foldl insert_pair m l = list_to_map l ∪ m.
Proof.
  revert m. induction l as [|[k v] l IH]; intros m Hnd Hk; csimpl; [by rewrite (left_id_L ∅ (∪))|].
  csimpl in Hnd. apply NoDup_cons in Hnd as [Hn Hnd]. rewrite IH; [|done|].
  - unfold insert_pair. cbn [fst snd]. rewrite <- insert_union_r, insert_union_l; [done|by apply not_elem_of_list_to_map_1].
  - intros k' Hk'. unfold insert_pair. cbn [fst snd]. rewrite lookup_insert_ne; [|by intros ->]. apply Hk. csimpl. by right.
Qed.

Lemma insert_btree {V : Type} (m : gmap string V) : foldl insert_pair ∅ (btree_iter m) = m.
Proof.
  rewrite insert_pairs; [|apply btree_keys_NoDup|done]. rewrite (right_id_L ∅ (∪)).
  symmetry. apply list_to_map_flip. symmetry. apply btree_iter_perm.
Qed.

(** The listing of an encoded map is the encoded listing. *)
Lemma btree_iter_fmap {V W : Type} (f : V -> W) (m : gmap string V) :
  btree_iter (f <$> m) = prod_map id f <$> btree_iter m.
Proof.
  assert (btree_iter (f <$> m) ≡ₚ prod_map id f <$> btree_iter m) as Hp
    by (rewrite !btree_iter_perm; by rewrite map_to_list_fmap).
  apply (StronglySorted_unique_strong key_le); [| | |exact Hp].
  - intros [k1 v1] [k2 v2] H1 H2 Hle1 Hle2. unfold key_le in Hle1, Hle2. cbn in Hle1, Hle2.
    assert (k1 = k2) as <- by (by apply (anti_symm String.le)). rewrite <- Hp in H2.
    apply btree_iter_elem in H1, H2. congruence.
  - apply (StronglySorted_merge_sort key_le).
  - clear Hp. pose proof (StronglySorted_merge_sort key_le (map_to_list m)) as Hs. fold (btree_iter m) in Hs.
    induction Hs as [|x l Hl IH Hall]; csimpl; [constructor|]. constructor; [done|].
    rewrite Forall_fmap. eapply Forall_impl; [exact Hall|]. by intros [].
Qed.

Section DecodeSpec.
Context `{Hex : HexDecode}.

Lemma decode_loop_encoded detail l total acc :
  Forall (fun x => validate_key x.1 = Ok tt /\ len x.2 <= MAX_STORAGE_VALUE_BYTES) l ->
  total + sumN (len <$> l.*2) <= MAX_STORAGE_BYTES ->
  decode_loop detail total acc (prod_map id hex_encode <$> l)
  = Ok (foldl insert_pair acc l, total + sumN (len <$> l.*2)).
Proof.
  revert total acc. induction l as [|[k v] l IH]; intros total acc Hall Hsum; csimpl.
  { f_equal. f_equal. rewrite sumN_nil. lia. }
  apply Forall_cons in Hall as [[Hk Hv] Hall]. cbn [fst snd] in *. csimpl in Hsum. rewrite sumN_cons in Hsum.
  unfold id at 1. rewrite Hk, hex_encode_len, hex_decode_encode.
  destruct (N.ltb_spec (saturating_mul usize_max MAX_STORAGE_VALUE_BYTES 2) (2 * len v)) as [H|_].
  { unfold saturating_mul, usize_max, u64_max, MAX_STORAGE_VALUE_BYTES in *. lia. }
  assert (checked_add usize_max total (len v) = Some (total + len v)) as ->.
  { apply checked_add_Some. split; [done|]. unfold MAX_STORAGE_BYTES, usize_max, u64_max in *. lia. }
  cbn [ok_or]. destruct (N.ltb_spec MAX_STORAGE_BYTES (total + len v)); [lia|].
  rewrite IH; [|done|lia]. rewrite sumN_cons. f_equal. f_equal. lia.
Qed.

(** A loop that succeeds has decoded every entry. *)
Lemma decode_loop_inv detail l total acc m t :
  decode_loop detail total acc l = Ok (m, t) ->
  exists l', l.*1 = l'.*1 /\ m = foldl insert_pair acc l' /\ t = total + sumN (len <$> l'.*2)
    /\ (l = [] \/ t <= MAX_STORAGE_BYTES)
    /\ Forall2 (fun x y => hex_decode x.2 = Ok y.2) l l'
    /\ Forall (fun x => validate_key x.1 = Ok tt /\ len x.2 <= MAX_STORAGE_VALUE_BYTES) l'.
Proof.
  revert total acc. induction l as [|[k v] l IH]; intros total acc; cbn [decode_loop].
  { intros [= <- <-]. exists []. csimpl. rewrite sumN_nil. split_and!; try done; [lia|by left]. }
  destruct (validate_key k) as [[]|] eqn:Hk; [|done].
  destruct (N.ltb_spec (saturating_mul usize_max MAX_STORAGE_VALUE_BYTES 2) (str_len v)) as [|Hl]; [done|].
  destruct (hex_decode v) as [b|] eqn:Hb; [|done]. rewrite (hex_decode_len v b Hb) in Hl.
  destruct (checked_add usize_max total (len b)) as [t1|] eqn:Ht; [|done]. apply checked_add_Some in Ht as [-> _].
  cbn [ok_or]. destruct (N.ltb_spec MAX_STORAGE_BYTES (total + len b)) as [|Hm]; [done|]. intros Hrec.
  destruct (IH _ _ Hrec) as (l' & Hkeys & -> & -> & Hle & Hf2 & Hf). exists ((k, b) :: l').
  csimpl. rewrite Hkeys, sumN_cons. split_and!; try done; [lia| |by constructor|].
  - right. destruct Hle as [->|?]; [|lia]. destruct l'; [|by inversion Hf2]. csimpl. rewrite sumN_nil. lia.
  - constructor; [|done]. cbn [fst snd]. split; [done|].
    unfold saturating_mul, usize_max, u64_max, MAX_STORAGE_VALUE_BYTES in *. lia.
Qed.

Lemma storable_listing m :
  storable m -> Forall (fun x => validate_key x.1 = Ok tt /\ len x.2 <= MAX_STORAGE_VALUE_BYTES) (btree_iter m).
Proof.
  intros [Hk (_ & _ & Hv)]. apply Forall_forall. intros [k v] Hin%btree_iter_elem. split; [by eapply Hk|by eapply Hv].
Qed.

(** Storable entries survive the encoding ... *)
Lemma decode_loop_storable detail m :
  storable m -> decode_loop detail 0 ∅ (btree_iter (hex_encode <$> m)) = Ok (m, entries_bytes m).
Proof.
  intros Hm. pose proof Hm as [_ (_ & Hbytes & _)]. cbn [largest_limits max_bytes] in *.
  rewrite btree_iter_fmap, decode_loop_encoded; [|by apply storable_listing|]; fold (btree_values m);
    rewrite entries_bytes_btree; [by rewrite insert_btree|lia].
Qed.
Lemma encoded_len m : btree_len (hex_encode <$> m) = btree_len m.
Proof. unfold btree_len. by rewrite map_size_fmap. Qed.

(** ... and nothing else can be decoded. *)
Lemma decode_loop_sound detail (e : gmap string string) m t :
  btree_len e <= MAX_STORAGE_KEYS -> decode_loop detail 0 ∅ (btree_iter e) = Ok (m, t) ->
  storable m /\ t = entries_bytes m.
Proof.
  intros Hlen (l & Hkeys & -> & -> & Hle & Hf2 & Hf)%decode_loop_inv.
  assert (NoDup l.*1) as Hnd by (rewrite <- Hkeys; apply btree_keys_NoDup).
  rewrite insert_pairs, (right_id_L ∅ (∪)) by done.
  assert (map_to_list (list_to_map l : gmap string bytes) ≡ₚ l) as Hperm by (by apply map_to_list_to_map).
  assert (entries_bytes (list_to_map l) = 0 + sumN (len <$> l.*2)) as Hb by (unfold entries_bytes; by rewrite Hperm).
  split; [|done]. rewrite Forall_forall in Hf. split; [|split_and!].
  - intros k v Hk%elem_of_list_to_map_2. by apply (Hf (k, v)).
  - unfold btree_len, largest_limits in *. cbn [max_keys]. rewrite <- length_map_to_list, Hperm.
    apply Forall2_length in Hf2. rewrite <- Hf2. unfold btree_iter. rewrite merge_sort_Permutation, length_map_to_list. lia.
  - rewrite Hb. destruct Hle as [Hnil|Hle]; [|exact Hle].
    rewrite Hnil in Hf2. apply Forall2_nil_inv_l in Hf2 as ->. csimpl. rewrite sumN_nil. vm_compute. done.
  - intros k v Hk%elem_of_list_to_map_2. by apply (Hf (k, v)).
Qed.

Lemma decode_storable s m :
  s.(sn_payload).(sn_entries) = hex_encode <$> m -> storable m -> decode_entries s = Ok m.
Proof.
  intros He Hm. unfold decode_entries. pose proof Hm as [_ (Hkeys & _ & _)]. cbn [largest_limits max_keys] in *.
  rewrite He, encoded_len, decode_loop_storable by done. destruct (N.ltb_spec MAX_STORAGE_KEYS (btree_len m)); [lia|done].
Qed.
Lemma decode_entries_storable s m : decode_entries s = Ok m -> storable m.
Proof.
  unfold decode_entries. destruct (N.ltb_spec MAX_STORAGE_KEYS (btree_len (sn_entries (sn_payload s)))) as [|Hlen]; [done|].
  destruct (decode_loop _ _ _ _) as [[m' t]|] eqn:Hd; [|done]. intros [= <-]. by eapply decode_loop_sound.
Qed.
End DecodeSpec.

(** ** Comparison *)
Section CompareSpec.
Context `{Ext : Externals}.

Lemma find_difference_None l r keys :
  find_difference l r keys = None <-> forall k, k ∈ keys -> l !! k = r !! k.
Proof.
  induction keys as [|k keys IH]; cbn [find_difference].
  - split; [|done]. intros _ k Hk. by apply elem_of_nil in Hk.
  - destruct (bool_decide_reflect (l !! k = r !! k)) as [He|He]; cbn [negb].
    + rewrite IH. set_solver.
    + split; [done|]. intros H. exfalso. apply He, H. by left.
Qed.
Lemma find_difference_Some l r keys d :
  find_difference l r keys = Some d ->
  exists before k after, keys = before ++ k :: after /\ l !! k <> r !! k
    /\ (forall k', k' ∈ before -> l !! k' = r !! k')
    /\ d = DiffEntry k (snapshot_entry <$> l !! k) (snapshot_entry <$> r !! k).
Proof.
  induction keys as [|k keys IH]; cbn [find_difference]; [done|].
  destruct (bool_decide_reflect (l !! k = r !! k)) as [He|He]; cbn [negb].
  - intros H. destruct (IH H) as (b & k1 & a & -> & Hne & Hb & ->). exists (k :: b), k1, a. split_and!; try done.
    intros k' [->|Hk']%elem_of_cons; auto.
  - intros [= <-]. exists [], k, keys. split_and!; try done. intros k' Hk'. by apply elem_of_nil in Hk'.
Qed.

Lemma union_keys_elem l r k : k ∈ union_keys l r <-> is_Some (l !! k) \/ is_Some (r !! k).
Proof.
  unfold union_keys. rewrite merge_sort_Permutation, elem_of_elements, elem_of_union, !elem_of_dom. done.
Qed.
Lemma union_keys_sorted l r : StronglySorted String.le (union_keys l r).
Proof. apply (StronglySorted_merge_sort String.le). Qed.

(** No difference is found exactly when there is none ... *)
Lemma first_difference_None l r : first_entry_difference l r = None <-> l = r.
Proof.
  unfold first_entry_difference. rewrite find_difference_None. split; [|by intros ->]. intros H. apply map_eq. intros k.
  destruct (decide (k ∈ union_keys l r)) as [Hk|Hk]; [by apply H|]. rewrite union_keys_elem in Hk.
  destruct (l !! k) eqn:Hl, (r !! k) eqn:Hr; naive_solver.
Qed.
(** ... and the one that is found is the first in the order of the keys. *)
Lemma first_difference_Some l r d :
  first_entry_difference l r = Some d ->
  exists k, d = DiffEntry k (snapshot_entry <$> l !! k) (snapshot_entry <$> r !! k) /\ l !! k <> r !! k
    /\ forall k', l !! k' <> r !! k' -> String.le k k'.
Proof.
  unfold first_entry_difference. intros (b & k & a & Hkeys & Hne & Hb & ->)%find_difference_Some.
  exists k. split_and!; [done|done|]. intros k' Hk'.
  assert (k' ∈ union_keys l r) as Hin by (apply union_keys_elem; destruct (l !! k'), (r !! k'); naive_solver).
  pose proof (union_keys_sorted l r) as Hs. rewrite Hkeys in Hs, Hin. apply elem_of_app in Hin as [Hin|Hin].
  { by destruct Hk'; apply Hb. }
  apply StronglySorted_app in Hs as (_ & _ & Hs). apply StronglySorted_inv in Hs as [_ Hs].
  apply elem_of_cons in Hin as [->|Hin]; [done|]. rewrite Forall_forall in Hs. by apply Hs.
Qed.
End CompareSpec.

(** ** Theorems *)
Section Theorems.
Context `{Ext : Externals} `{Hex : HexDecode} `{JSp : !Json SnapshotPayload} `{JSn : !Json StorageSnapshot}
  `{DSn : !JsonDecode StorageSnapshot} `{RT : !JsonRoundTrip StorageSnapshot}.

Lemma from_entries_inv cid schema rev m s :
  from_entries_with_revision cid schema rev m = Ok s ->
  validate_namespace cid = Ok tt
  /\ s.(sn_payload) = mkSnapshotPayload SNAPSHOT_FORMAT_VERSION cid schema rev (hex_encode <$> m)
  /\ payload_digest s.(sn_payload) = Ok s.(sn_payload_sha256).
Proof.
  unfold from_entries_with_revision. destruct (validate_namespace cid) as [[]|]; [|done].
  destruct (payload_digest _) as [d|] eqn:Hd; [|done]. by intros [= <-].
Qed.

Lemma from_entries_valid cid schema rev m s :
  from_entries_with_revision cid schema rev m = Ok s -> storable m ->
  validate_snapshot s = Ok tt /\ decode_entries s = Ok m.
Proof.
  intros (Hns & Hp & Hd)%from_entries_inv Hm. assert (decode_entries s = Ok m) as Hdec
    by (apply decode_storable; [by rewrite Hp|done]).
  split; [|done]. unfold validate_snapshot. rewrite Hd, Hdec, Hp. cbn. rewrite Hns. by rewrite bool_decide_eq_true_2.
Qed.

(** A snapshot is a faithful copy: from valid entries within the global
    limits it can be written as JSON within the file limit, read back and
    validated, and then yields the same cartridge, schema, revision and
    entries. *)
Theorem snapshot_round_trip (cid : string) (schema rev : N) (m : gmap string bytes) (s : StorageSnapshot) (b : bytes)
    (Hs : from_entries_with_revision cid schema rev m = Ok s) (Hm : storable m)
    (Hb : to_vec s = Ok b) (Hlen : len b <= MAX_SNAPSHOT_FILE_BYTES) :
  snapshot_from_slice b = Ok s /\ entries_for s cid = Ok m
  /\ s.(sn_payload).(sn_state_schema) = schema /\ s.(sn_payload).(sn_state_revision) = rev.
Proof.
  destruct (from_entries_valid _ _ _ _ _ Hs Hm) as [Hv Hdec]. apply from_entries_inv in Hs as (_ & Hp & _).
  unfold snapshot_from_slice, entries_for. destruct (N.ltb_spec MAX_SNAPSHOT_FILE_BYTES (len b)); [lia|].
  rewrite (from_slice_to_vec s b Hb), Hv, Hdec, Hp. cbn. by rewrite bool_decide_eq_true_2.
Qed.

(** No input is trusted: whatever bytes are read as a snapshot, if they are
    accepted the checksum covers the payload and the entries that come out have
    valid, confined keys, at most 100,000 of them, values of at most 8 MiB and
    64 MiB in all. *)
Theorem accepted_snapshot_is_bounded (b : bytes) (s : StorageSnapshot) (Hs : snapshot_from_slice b = Ok s) :
  payload_digest s.(sn_payload) = Ok s.(sn_payload_sha256)
  /\ exists m, entries_for s s.(sn_payload).(sn_cartridge_id) = Ok m
     /\ (forall k v, m !! k = Some v -> validate_key k = Ok tt /\ len v <= 8 * 1024 * 1024)
     /\ btree_len m <= 100000 /\ entries_bytes m <= 64 * 1024 * 1024.
Proof.
  unfold snapshot_from_slice in Hs. revert Hs. pass Hl. destruct (from_slice b) as [x|]; [|done].
  destruct (validate_snapshot x) as [[]|] eqn:Hv; [|done]. intros [= ->]. pose proof Hv as Hval.
  unfold validate_snapshot in Hv. cbn zeta in Hv. revert Hv. pass H1. pass H2. pass H3.
  destruct (validate_namespace _) as [[]|]; [|done]. destruct (payload_digest _) as [d|] eqn:Hd; [|done]. pass H4.
  destruct (decode_entries s) as [m|] eqn:Hm; [|done]. intros _. apply negb_false_iff, bool_decide_eq_true in H4.
  split; [by rewrite H4|]. exists m. unfold entries_for. rewrite Hval, bool_decide_eq_true_2 by done.
  apply decode_entries_storable in Hm as Hst. destruct Hst as [Hk (Hn & Hb & Hv)].
  split_and!; [done| |exact Hn|exact Hb]. intros k v Hkv. split; [by eapply Hk|by eapply Hv].
Qed.

(** Comparing two valid snapshots never fails; it reports them identical
    exactly when cartridge, schema, revision and every entry agree, and
    otherwise an entry difference is the first one in key order. *)
Theorem compare_exact (s1 s2 : StorageSnapshot) (m1 m2 : gmap string bytes)
    (H1 : entries_for s1 s1.(sn_payload).(sn_cartridge_id) = Ok m1)
    (H2 : entries_for s2 s2.(sn_payload).(sn_cartridge_id) = Ok m2) :
  exists c, compare s1 s2 = Ok c
    /\ (c.(identical) = true <->
          s1.(sn_payload).(sn_cartridge_id) = s2.(sn_payload).(sn_cartridge_id)
          /\ s1.(sn_payload).(sn_state_schema) = s2.(sn_payload).(sn_state_schema)
          /\ s1.(sn_payload).(sn_state_revision) = s2.(sn_payload).(sn_state_revision) /\ m1 = m2)
    /\ (forall k a b, c.(difference) = Some (DiffEntry k a b) ->
          m1 !! k <> m2 !! k /\ forall k', m1 !! k' <> m2 !! k' -> String.le k k').
Proof.
  unfold entries_for in H1, H2. destruct (validate_snapshot s1) as [[]|] eqn:Hv1; [|done].
  destruct (validate_snapshot s2) as [[]|] eqn:Hv2; [|done]. rewrite bool_decide_eq_true_2 in H1, H2 by done.
  cbn [negb] in H1, H2. unfold compare. rewrite Hv1, Hv2, H1, H2. cbn zeta.
  destruct (bool_decide_reflect (sn_cartridge_id (sn_payload s1) = sn_cartridge_id (sn_payload s2))) as [Hid|Hid]; cbn [negb].
  2:{ eexists. split; [done|]. cbn. split; [|done]. split; [done|]. by intros (? & _). }
  destruct (N.eqb_spec (sn_state_schema (sn_payload s1)) (sn_state_schema (sn_payload s2))) as [Hsc|Hsc]; cbn [negb].
  2:{ eexists. split; [done|]. cbn. split; [|done]. split; [done|]. by intros (_ & ? & _). }
  destruct (N.eqb_spec (sn_state_revision (sn_payload s1)) (sn_state_revision (sn_payload s2))) as [Hr|Hr]; cbn [negb].
  2:{ eexists. split; [done|]. cbn. split; [|done]. split; [done|]. by intros (_ & _ & ? & _). }
  eexists. split; [done|]. cbn [identical difference]. split.
  - destruct (first_entry_difference m1 m2) eqn:Hf; cbn [is_none].
    + split; [done|]. intros (_ & _ & _ & Hm). apply first_difference_None in Hm. congruence.
    + apply first_difference_None in Hf. done.
  - intros k a b Hf. apply first_difference_Some in Hf as (k1 & [= <- _ _] & Hne & Hmin). done.
Qed.

(** A session over a snapshot starts from exactly its content: exporting it
    again, before any write, gives a snapshot that compares as identical. *)
Theorem snapshot_session_round_trip (s s' : StorageSnapshot) (cid : string) (limits : StorageLimits)
    (st : SnapshotStorage)
    (Hload : from_snapshot s cid limits = Ok st) (Hexport : export_snapshot st = Ok s') :
  compare s s' = Ok (mkComparison true None).
Proof.
  revert Hload. unfold from_snapshot. destruct (validate_limits limits) as [[]|] eqn:Hlim; [|done].
  destruct (entries_for s cid) as [m|] eqn:He; [|done]. unfold MemoryBackend.load_namespace.
  unfold entries_for in He. revert He. destruct (validate_snapshot s) as [[]|] eqn:Hv; [|done]. pass Hid. intros Hdec.
  apply negb_false_iff, bool_decide_eq_true in Hid. pose proof (decode_entries_storable _ _ Hdec) as Hst.
  destruct (validate_namespace cid) as [[]|] eqn:Hns; [|done].
  destruct (validate_entry_limits m limits) as [u|] eqn:Hu; [|done]. cbn. intros [= <-].
  unfold export_snapshot, export_snapshot_with_schema, MemoryBackend.snapshot_state in Hexport. cbn in Hexport.
  rewrite Hns, lookup_insert_eq in Hexport. cbn in Hexport.
  assert (exists u', validate_entry_limits m largest_limits = Ok u') as [u' Hu'].
  { eexists. apply validate_entry_limits_iff. split_and!; [vm_compute; reflexivity|apply Hst|done]. }
  rewrite Hu' in Hexport. destruct (from_entries_valid _ _ _ _ _ Hexport Hst) as [Hv' Hdec'].
  apply from_entries_inv in Hexport as (_ & Hp & _).
  unfold compare. rewrite Hv, Hv', Hdec, Hdec', Hp. cbn. rewrite bool_decide_eq_true_2 by done. cbn. rewrite !N.eqb_refl. cbn.
  by rewrite (proj2 (first_difference_None m m) eq_refl).
Qed.
End Theorems.

(** ** A concrete snapshot *)
Definition nibble (a : ascii) : option N :=
  let n := N_of_ascii a in
  if in_range 48 57 n then Some (n - 48)
  else if in_range 97 102 n then Some (n - 87)
  else if in_range 65 70 n then Some (n - 55)
  else None.
Fixpoint unhex (s : string) : result string bytes :=
  match s with
  | EmptyString => Ok []
  | String _ EmptyString => Err "Odd number of digits"
  | String a (String b r) =>
      match nibble a, nibble b with
      | Some x, Some y =>
          let? rest := unhex r in
          Ok (default x00 (Byte.of_N (16 * x + y)) :: rest)
      | _, _ => Err "Invalid character"
      end
  end.
Lemma unhex_byte (b : byte) :
  exists x y, nibble (hex_digit (Byte.to_N b / 16)) = Some x /\ nibble (hex_digit (Byte.to_N b mod 16)) = Some y
    /\ default x00 (Byte.of_N (16 * x + y)) = b.
Proof. destruct b; eexists _, _; (split; [vm_compute; reflexivity|]); (split; [vm_compute; reflexivity|]); reflexivity. Qed.
Lemma unhex_encode b : unhex (hex_encode b) = Ok b.
Proof.
  induction b as [|x b IH]; [done|]. cbn [hex_encode unhex]. destruct (unhex_byte x) as (n & m & -> & -> & <-).
  by rewrite IH.
Qed.
Lemma unhex_len s b : unhex s = Ok b -> str_len s = 2 * len b.
Proof.
  revert b. induction s as [s IH] using (induction_ltof1 _ String.length). unfold ltof in IH.
  intros b. destruct s as [|x [|y s]]; cbn [unhex]; [by intros [= <-]|done|].
  destruct (nibble x), (nibble y); try done. destruct (unhex s) as [r|] eqn:Hr; [|done]. intros [= <-].
  apply IH in Hr; [|cbn; lia]. unfold str_len, len in *. cbn [str_bytes length]. lia.
Qed.
Definition demo_hex : HexDecode := {| hex_decode := unhex; hex_decode_encode := unhex_encode; hex_decode_len := unhex_len |}.

Section Witnesses.
#[local] Existing Instance demo_externals.
#[local] Existing Instance demo_hex.
#[local] Instance payload_json : Json SnapshotPayload := demo_json.

Definition demo_entries : gmap string bytes := {["a" := [x01]; "b/c" := [x02; x03]]}.
Definition demo_snapshot : StorageSnapshot :=
  mkSnapshot (mkSnapshotPayload 3 "dev.example.app" 2 7 (hex_encode <$> demo_entries)) (hex_sha256 []).
Definition other_snapshot : StorageSnapshot :=
  mkSnapshot (mkSnapshotPayload 3 "dev.example.app" 2 7 (hex_encode <$> delete "b/c" demo_entries)) (hex_sha256 []).
#[local] Instance snapshot_json : Json StorageSnapshot := table_json [demo_snapshot].
#[local] Instance snapshot_decode : JsonDecode StorageSnapshot := table_decode [demo_snapshot].
#[local] Instance snapshot_rt : JsonRoundTrip StorageSnapshot := table_round_trip [demo_snapshot].

Lemma demo_storable : storable demo_entries.
Proof.
  apply (decode_entries_storable demo_snapshot). vm_compute. reflexivity.
Qed.

Lemma snapshot_round_trip_witness :
  snapshot_from_slice [x00] = Ok demo_snapshot /\ entries_for demo_snapshot "dev.example.app" = Ok demo_entries.
Proof.
  destruct (snapshot_round_trip "dev.example.app" 2 7 demo_entries demo_snapshot [x00]) as (H1 & H2 & _).
  - vm_compute. reflexivity.
  - exact demo_storable.
  - vm_compute. reflexivity.
  - vm_compute. discriminate.
  - split; [exact H1|exact H2].
Defined.

Lemma accepted_snapshot_is_bounded_witness :
  exists m, entries_for demo_snapshot "dev.example.app" = Ok m /\ btree_len m <= 100000.
Proof.
  destruct (accepted_snapshot_is_bounded [x00] demo_snapshot) as (_ & m & He & _ & Hn & _).
  - vm_compute. reflexivity.
  - exists m. split; [exact He|exact Hn].
Defined.

Lemma compare_exact_witness : exists c, compare demo_snapshot other_snapshot = Ok c /\ c.(identical) = false.
Proof.
  destruct (compare_exact demo_snapshot other_snapshot demo_entries (delete "b/c" demo_entries)) as (c & Hc & Hi & _).
  - vm_compute. reflexivity.
  - vm_compute. reflexivity.
  - exists c. split; [exact Hc|]. apply not_true_is_false. intros H. apply Hi in H as (_ & _ & _ & H).
    apply (f_equal (fun m : gmap string bytes => m !! "b/c")) in H. vm_compute in H. discriminate H.
Defined.

Definition demo_limits_8 : StorageLimits := mkLimits 8 8 8.
Lemma snapshot_session_round_trip_witness :
  exists st s', from_snapshot demo_snapshot "dev.example.app" demo_limits_8 = Ok st /\ export_snapshot st = Ok s'
    /\ compare demo_snapshot s' = Ok (mkComparison true None).
Proof.
  destruct (from_snapshot demo_snapshot "dev.example.app" demo_limits_8) as [st|] eqn:Hst; [|vm_compute in Hst; discriminate Hst].
  destruct (export_snapshot st) as [s'|] eqn:Hs.
  - exists st, s'. split; [reflexivity|]. split; [exact Hs|].
    exact (snapshot_session_round_trip demo_snapshot s' "dev.example.app" demo_limits_8 st Hst Hs).
  - exfalso. vm_compute in Hst. injection Hst as <-. vm_compute in Hs. discriminate Hs.
Defined.
End Witnesses.
