(* ===== verification/Directory.v ===== *)
(** * The directory storage backend ([crates/cartridge-storage/src/directory.rs])

    [DirectoryStorage] keeps one directory per namespace and one file per
    generation of its state.  Its operations are runs of system calls in the
    sense of [Files]; the errors of a system call ([Error::Io]) are those of the
    run, the others are a value.  A directory holds regular files only, listed
    in the order of their names, so [reject_symlink] has nothing to reject; the
    lock of the namespace is a system call that can fail, its timeout included. *)
From stdpp Require Import pretty.
From S2P Require Import Prelude Text Events Files Storage Snapshot.

Definition DISK_FORMAT_VERSION : N := 2.
Definition RETAINED_GENERATIONS : N := 2.
Definition MAX_STATE_FILE_BYTES : N := 144 * 1024 * 1024.

(** ** Data *)
Record State := mkState {
  st_generation : N;
  st_schema : N;
  st_entries : gmap string bytes;
  st_usage : StorageUsage;
}.
#[global] Instance state_eq_dec : EqDecision State.
Proof. solve_decision. Defined.
Definition default_state : State := mkState 0 0 ∅ (mkUsage 0 0).

Record DiskPayload := mkDiskPayload {
  dp_format_version : N;
  dp_namespace : string;
  dp_generation : N;
  dp_state_schema : N;
  dp_entries : gmap string string;
}.
#[global] Instance disk_payload_eq_dec : EqDecision DiskPayload.
Proof. solve_decision. Defined.
Record DiskEnvelope := mkDiskEnvelope { de_payload : DiskPayload; de_payload_sha256 : string }.
#[global] Instance disk_envelope_eq_dec : EqDecision DiskEnvelope.
Proof. solve_decision. Defined.

Record RecoveryReport := mkRecoveryReport {
  valid_generation : option N;
  quarantined : list string;
  discarded_pending : N;
}.
Record RestorePlan := mkRestorePlan {
  current_schema : N;
  snapshot_schema : N;
  current_revision : N;
  plan_snapshot_revision : N;
  result_revision : N;
  plan_current : StorageUsage;
  plan_snapshot : StorageUsage;
  added : N;
  replaced : N;
  removed : N;
  unchanged : N;
}.
Definition plan_changed (self : RestorePlan) : bool :=
  negb (self.(current_revision) =? self.(result_revision))
  || negb (self.(current_schema) =? self.(snapshot_schema))
  || negb (self.(added) =? 0) || negb (self.(replaced) =? 0) || negb (self.(removed) =? 0).

Record CapturedState := mkCaptured { cs_generation : N; cs_snapshot : StorageSnapshot }.
Record GenerationEvidence := mkEvidence { ge_current : CapturedState; ge_requested : option CapturedState }.

(** ** Runs with storage errors *)
Definition IOR (A : Type) : Type := IO (Result A).
Definition pure_ {A : Type} (r : Result A) : IOR A := ret r.
(** [?] on an [io::Result] *)
Definition io {A : Type} (m : IO A) : IOR A := bind m (fun a => ret (Ok a)).
Definition rbind {A B : Type} (m : IOR A) (k : A -> IOR B) : IOR B :=
  bind m (fun r => match r with Ok a => k a | Err e => ret (Err e) end).
Notation "'try?' x := m 'in' k" := (rbind m (fun x => k))
  (at level 10, x pattern, m at level 100, k at level 200) : rust_scope.
Notation "m ';;!' k" := (rbind m (fun _ => k)) (at level 60, right associativity) : rust_scope.

(** ** File names *)
Fixpoint strip_prefix (prefix s : string) : option string :=
  match prefix, s with
  | EmptyString, _ => Some s
  | String a prefix', String b s' => if bool_decide (a = b) then strip_prefix prefix' s' else None
  | String _ _, EmptyString => None
  end.
Fixpoint strip_suffix (suffix s : string) : option string :=
  if bool_decide (s = suffix) then Some EmptyString
  else match s with
       | EmptyString => None
       | String a s' => String a <$> strip_suffix suffix s'
       end.

(** [str::parse::<u64>]: digits after an optional plus sign, without overflow. *)
Fixpoint parse_digits (value : N) (s : string) : option N :=
  match s with
  | EmptyString => Some value
  | String a s' =>
      if is_ascii_digit (N_of_ascii a) && (value * 10 + (N_of_ascii a - 48) <=? u64_max)
      then parse_digits (value * 10 + (N_of_ascii a - 48)) s' else None
  end.
Definition parse_u64 (s : string) : option N :=
  match s with
  | EmptyString => None
  | String a s' =>
      if bool_decide (a = "+"%char) then (if str_is_empty s' then None else parse_digits 0 s')
      else parse_digits 0 s
  end.

Definition state_file_name (generation : N) : string := "state-" +:+ digits 20 generation +:+ ".json".

(** The generation in the name of a state file; other names have none. *)
Definition state_generation (name : string) : option (Result N) :=
  match strip_prefix "state-" name ≫= strip_suffix ".json" with
  | None => None
  | Some generation => Some (ok_or (parse_u64 generation) (Corrupt "unrecognized state file name"))
  end.

Definition StateFile : Type := N * (string * bytes).
Definition file_le (x y : StateFile) : Prop := x.1 < y.1 \/ x.1 = y.1 /\ String.le x.2.1 y.2.1.
#[global] Instance file_le_dec : RelDecision file_le.
Proof. intros x y. unfold file_le. apply _. Defined.

Fixpoint collect_state_files (entries : list (string * bytes)) : Result (list StateFile) :=
  match entries with
  | [] => Ok []
  | (name, content) :: entries =>
      match state_generation name with
      | None => collect_state_files entries
      | Some parsed =>
          let? generation := parsed in
          let? files := collect_state_files entries in
          Ok ((generation, (name, content)) :: files)
      end
  end.
(** [sort_by_key] keeps files of one generation in the order of the listing. *)
Definition state_files (directory : Directory) : Result (list StateFile) :=
  let? files := collect_state_files (btree_iter directory) in
  Ok (merge_sort file_le files).

(** [Path::extension] *)
Definition extension (name : string) : option string :=
  match split_on "." name with
  | [] | [_] | [EmptyString; _] => None
  | parts => last parts
  end.
Definition ascii_lower (a : ascii) : ascii :=
  if is_ascii_uppercase (N_of_ascii a) then ascii_of_N (N_of_ascii a + 32) else a.
Fixpoint str_lower (s : string) : string :=
  match s with EmptyString => EmptyString | String a s' => String (ascii_lower a) (str_lower s') end.
Definition is_pending (name : string) : bool :=
  starts_with name "pending-" && is_some_and (fun e => bool_decide (str_lower e = "tmp")) (extension name).

(** [format!("{prefix}-{}-{sequence}.{extension}", process::id())] *)
Definition unique_name (prefix extension : string) (process sequence : N) : string :=
  prefix +:+ "-" +:+ pretty process +:+ "-" +:+ pretty sequence +:+ "." +:+ extension.
Definition unique_path (directory prefix extension : string) : IO Path :=
  do? sequence := fetch_sequence in
  do? process := get_process_id in
  ret (directory, unique_name prefix extension process sequence).

Definition disk_fault (f : Fault) : string :=
  match f with
  | BadKey => "contains an invalid key"
  | OversizedValue => "contains an oversized value"
  | BadValue => "contains invalid value data"
  | UsageOverflow => "has overflowing usage"
  | OverBudget => "exceeds the global storage budget"
  end.

Definition sync_all : IO unit := syscall (fun d => Ok (d, tt)) untouched.
Definition sync_directory (directory : string) : IO unit := sync_all.
Definition set_private_directory_permissions (directory : string) : IO unit := sync_all.
(** Opening the lock file creates it. *)
Definition open_lock (directory : string) : IO unit :=
  syscall (fun d =>
    match read_path d (directory, "namespace.lock") with
    | Some _ => Ok (d, tt)
    | None => Ok (write_path d (directory, "namespace.lock") [], tt)
    end) untouched.
Definition acquire_lock : IO unit := sync_all.

Section Directory.
Context `{Ext : Externals} `{Hex : HexDecode} `{JD : !Json DiskPayload} `{JEn : !Json DiskEnvelope}
  `{DEn : !JsonDecode DiskEnvelope} `{JSp : !Json SnapshotPayload}.

(** ** Reading *)
(** [read_state] of the content of a file *)
Definition read_state (content : bytes) (namespace : string) (generation : N) : Result State :=
  if MAX_STATE_FILE_BYTES <? len content then Err (Corrupt "exceeds the state file size limit")
  else
    let? envelope := match from_slice content with
                     | Ok envelope => Ok envelope
                     | Err _ => Err (Corrupt "is not valid JSON")
                     end in
    let p := envelope.(de_payload) in
    let? payload_bytes := serialize p in
    if negb (bool_decide (envelope.(de_payload_sha256) = hex_sha256 payload_bytes))
    then Err (Corrupt "has a mismatched payload digest")
    else if negb ((p.(dp_format_version) =? 1) || (p.(dp_format_version) =? DISK_FORMAT_VERSION))
            || negb (bool_decide (p.(dp_namespace) = namespace))
            || negb (p.(dp_generation) =? generation)
            || ((p.(dp_format_version) =? 1) && negb (p.(dp_state_schema) =? 0))
    then Err (Corrupt "has mismatched state identity")
    else if MAX_STORAGE_KEYS <? btree_len p.(dp_entries) then Err (Corrupt "contains too many keys")
    else
      let? (entries, bytes_used) := decode_loop disk_fault 0 ∅ (btree_iter p.(dp_entries)) in
      Ok (mkState generation p.(dp_state_schema) entries (mkUsage bytes_used (btree_len entries))).

Fixpoint load_files (namespace : string) (latest : State) (files : list StateFile) : Result State :=
  match files with
  | [] => Ok latest
  | (generation, (_, content)) :: files =>
      let? state := read_state content namespace generation in
      load_files namespace (if latest.(st_generation) <=? generation then state else latest) files
  end.
Definition load_state (directory : Directory) (namespace : string) : Result State :=
  let? files := state_files directory in
  load_files namespace default_state files.

(** The directory as it is now *)
Definition read_dir (directory : string) : IO Directory := fun w =>
  (w, Done (ok_or (w.(disk) !! directory) NO_ENTRY)).
Definition load (directory namespace : string) : IOR State :=
  try? entries := io (read_dir directory) in pure_ (load_state entries namespace).

(** ** Writing *)
Fixpoint remove_files (directory : string) (names : list string) : IO unit :=
  match names with
  | [] => ret tt
  | name :: names => remove_file (directory, name) ;;? remove_files directory names
  end.

Definition cleanup_pending (directory : string) : IO N :=
  do? entries := read_dir directory in
  let names := List.filter is_pending (btree_keys entries) in
  remove_files directory names ;;? ret (len names).

Definition prune_generations (directory : string) : IOR unit :=
  try? entries := io (read_dir directory) in
  try? files := pure_ (state_files entries) in
  let remove_count := len files - RETAINED_GENERATIONS in
  io (remove_files directory ((fun f : StateFile => f.2.1) <$> take (N.to_nat remove_count) files)) ;;!
  io (sync_directory directory).

Definition envelope_of (namespace : string) (state : State) : Result DiskEnvelope :=
  let payload := mkDiskPayload DISK_FORMAT_VERSION namespace state.(st_generation) state.(st_schema)
                   (hex_encode <$> state.(st_entries)) in
  let? payload_bytes := serialize payload in
  Ok (mkDiskEnvelope payload (hex_sha256 payload_bytes)).

Definition with_generation (state : State) (generation : N) : State :=
  mkState generation state.(st_schema) state.(st_entries) state.(st_usage).

Definition commit_state (directory namespace : string) (state : State) : IOR unit :=
  try? generation := pure_ (ok_or (checked_add u64_max state.(st_generation) 1)
                              (Corrupt "storage generation overflowed")) in
  let state := with_generation state generation in
  try? envelope := pure_ (envelope_of namespace state) in
  try? encoded := pure_ (serialize envelope) in
  let final_path := (directory, state_file_name generation) in
  try? temporary := io (unique_path directory "pending" "tmp") in
  io (create_new temporary) ;;!
  io (write_all temporary encoded) ;;!
  io (rename temporary final_path) ;;!
  io (sync_directory directory) ;;!
  prune_generations directory.

(** ** The namespace of an operation *)
Definition namespace_directory (namespace : string) : string := hex_sha256 (as_bytes namespace).
Definition with_namespace {A : Type} (namespace : string) (operation : string -> IOR A) : IOR A :=
  pure_ (validate_namespace namespace) ;;!
  let directory := namespace_directory namespace in
  io (ensure_directory directory) ;;!
  io (set_private_directory_permissions directory) ;;!
  io (open_lock directory) ;;!
  io acquire_lock ;;!
  operation directory.
End Directory.

(** ** Restoring *)
Definition count_entries (p : string * bytes -> bool) (entries : gmap string bytes) : N :=
  len (List.filter p (btree_iter entries)).

Fixpoint sum_usage (total : N) (values : list bytes) : Result N :=
  match values with
  | [] => Ok total
  | value :: values =>
      let? total := ok_or (checked_add usize_max total (len value)) (Corrupt "storage usage overflowed") in
      sum_usage total values
  end.
Definition state_usage (entries : gmap string bytes) : Result StorageUsage :=
  let? bytes := sum_usage 0 (btree_values entries) in
  Ok (mkUsage bytes (btree_len entries)).

(** [validate_restore_limits]: [sum_entry_bytes] is its loop. *)
Definition validate_restore_limits (entries : gmap string bytes) (limits : StorageLimits) : Result unit :=
  let? _ := validate_limits limits in
  let? bytes := sum_entry_bytes limits 0 (btree_values entries) in
  if limits.(max_bytes) <? bytes then Err (QuotaExceeded bytes limits.(max_bytes))
  else if limits.(max_keys) <? btree_len entries then Err (KeyLimitExceeded limits.(max_keys))
  else Ok tt.

Definition build_restore_plan (current_schema current_revision : N) (current : gmap string bytes)
    (snapshot_schema snapshot_revision : N) (snapshot : gmap string bytes) : Result RestorePlan :=
  let added := count_entries (fun x => is_none (current !! x.1)) snapshot in
  let unchanged := count_entries (fun x => bool_decide (current !! x.1 = Some x.2)) snapshot in
  let replaced := count_entries
    (fun x => is_some (current !! x.1) && negb (bool_decide (current !! x.1 = Some x.2))) snapshot in
  let removed := count_entries (fun x => is_none (snapshot !! x.1)) current in
  let content_changed :=
    negb (current_schema =? snapshot_schema) || negb (added =? 0) || negb (replaced =? 0) || negb (removed =? 0) in
  let imports_newer_revision := current_revision <? snapshot_revision in
  let? result_revision :=
    if content_changed || imports_newer_revision then next_revision (N.max current_revision snapshot_revision)
    else Ok current_revision in
  let? current_usage := state_usage current in
  let? snapshot_usage := state_usage snapshot in
  Ok (mkRestorePlan current_schema snapshot_schema current_revision snapshot_revision result_revision
        current_usage snapshot_usage added replaced removed unchanged).

Module DirectoryBackend.
Section Operations.
Context `{Ext : Externals} `{Hex : HexDecode} `{JD : !Json DiskPayload} `{JEn : !Json DiskEnvelope}
  `{DEn : !JsonDecode DiskEnvelope} `{JSp : !Json SnapshotPayload}.

(** ** The [StorageBackend] operations *)
Definition prepare (namespace : string) (state_schema : N) (limits : StorageLimits) : IOR unit :=
  pure_ (validate_limits limits) ;;!
  with_namespace namespace (fun directory =>
    io (cleanup_pending directory) ;;!
    try? state := load directory namespace in
    if state.(st_generation) =? 0 then
      commit_state directory namespace
        (mkState state.(st_generation) state_schema state.(st_entries) state.(st_usage))
    else if negb (state.(st_schema) =? state_schema)
    then pure_ (Err (SchemaMismatch state_schema state.(st_schema)))
    else
      try? _ := pure_ (validate_entry_limits state.(st_entries) limits) in
      pure_ (Ok tt)).

Definition get (namespace key : string) : IOR (option bytes) :=
  pure_ (validate_key key) ;;!
  with_namespace namespace (fun directory =>
    try? state := load directory namespace in
    pure_ (Ok (state.(st_entries) !! key))).

Definition put (namespace key : string) (value : bytes) (limits : StorageLimits) : IOR unit :=
  pure_ (validate_key key) ;;!
  pure_ (validate_limits limits) ;;!
  if limits.(max_value_bytes) <? len value
  then pure_ (Err (ValueTooLarge (len value) limits.(max_value_bytes)))
  else
    with_namespace namespace (fun directory =>
      io (cleanup_pending directory) ;;!
      try? state := load directory namespace in
      if bool_decide (state.(st_entries) !! key = Some value) then pure_ (Ok tt)
      else
        let old_size := opt_len (state.(st_entries) !! key) in
        try? next_bytes :=
          pure_ (ok_or (match checked_sub state.(st_usage).(usage_bytes) old_size with
                        | Some bytes => checked_add usize_max bytes (len value)
                        | None => None
                        end) (QuotaExceeded usize_max limits.(max_bytes))) in
        if limits.(max_bytes) <? next_bytes
        then pure_ (Err (QuotaExceeded next_bytes limits.(max_bytes)))
        else if is_none (state.(st_entries) !! key) && (limits.(max_keys) <=? btree_len state.(st_entries))
        then pure_ (Err (KeyLimitExceeded limits.(max_keys)))
        else
          let entries := <[key := value]> state.(st_entries) in
          commit_state directory namespace
            (mkState state.(st_generation) state.(st_schema) entries (mkUsage next_bytes (btree_len entries)))).

Definition delete (namespace key : string) : IOR bool :=
  pure_ (validate_key key) ;;!
  with_namespace namespace (fun directory =>
    io (cleanup_pending directory) ;;!
    try? state := load directory namespace in
    match state.(st_entries) !! key with
    | None => pure_ (Ok false)
    | Some value =>
        let entries := base.delete key state.(st_entries) in
        commit_state directory namespace
          (mkState state.(st_generation) state.(st_schema) entries
             (mkUsage (wrapping_sub usize_max state.(st_usage).(usage_bytes) (len value)) (btree_len entries))) ;;!
        pure_ (Ok true)
    end).

Definition list (namespace prefix : string) : IOR (Datatypes.list string) :=
  pure_ (validate_prefix prefix) ;;!
  with_namespace namespace (fun directory =>
    try? state := load directory namespace in
    pure_ (Ok (List.filter (fun key => starts_with key prefix) (btree_keys state.(st_entries))))).

Definition usage (namespace : string) : IOR StorageUsage :=
  with_namespace namespace (fun directory =>
    try? state := load directory namespace in pure_ (Ok state.(st_usage))).

Definition revision (namespace : string) : IOR N :=
  with_namespace namespace (fun directory =>
    try? state := load directory namespace in pure_ (Ok state.(st_generation))).

(** The tail that [compare_exchange] and [apply_batch] share. *)
Definition commit (directory namespace : string) (state : State) (mutations : Datatypes.list StorageMutation)
    (limits : StorageLimits) : IOR StorageTransactionResult :=
  try? revision :=
    pure_ (if mutations_change state.(st_entries) mutations
           then next_revision state.(st_generation) else Ok state.(st_generation)) in
  try? (entries, usage, changed) := pure_ (apply_mutations state.(st_entries) state.(st_usage) mutations limits) in
  let state := mkState state.(st_generation) state.(st_schema) entries usage in
  if changed : bool then
    commit_state directory namespace state ;;!
    pure_ (Ok (mkTxResult true revision))
  else pure_ (Ok (mkTxResult true state.(st_generation))).

Definition compare_exchange (namespace : string) (expected_revision : N) (key : string)
    (expected replacement : option bytes) (limits : StorageLimits) : IOR StorageTransactionResult :=
  pure_ (validate_compare_exchange key expected replacement limits) ;;!
  with_namespace namespace (fun directory =>
    io (cleanup_pending directory) ;;!
    try? state := load directory namespace in
    if negb (state.(st_generation) =? expected_revision)
       || negb (bool_decide (state.(st_entries) !! key = expected))
    then pure_ (Ok (mkTxResult false state.(st_generation)))
    else commit directory namespace state [mkMutation key replacement] limits).

Definition apply_batch (namespace : string) (expected_revision : N)
    (mutations : Datatypes.list StorageMutation) (limits : StorageLimits) : IOR StorageTransactionResult :=
  pure_ (validate_mutations mutations limits) ;;!
  with_namespace namespace (fun directory =>
    io (cleanup_pending directory) ;;!
    try? state := load directory namespace in
    if negb (state.(st_generation) =? expected_revision)
    then pure_ (Ok (mkTxResult false state.(st_generation)))
    else commit directory namespace state mutations limits).

(** ** Snapshots of a namespace *)
Definition capture_state (namespace : string) (state : State) : Result CapturedState :=
  let? snapshot := from_entries_with_revision namespace state.(st_schema) state.(st_generation) state.(st_entries) in
  Ok (mkCaptured state.(st_generation) snapshot).

Definition capture (namespace : string) : IOR CapturedState :=
  with_namespace namespace (fun directory =>
    try? state := load directory namespace in pure_ (capture_state namespace state)).

Definition export_snapshot (namespace : string) : IOR StorageSnapshot :=
  try? captured := capture namespace in pure_ (Ok captured.(cs_snapshot)).

Definition evidence (namespace : string) (requested_generation : N) : IOR GenerationEvidence :=
  with_namespace namespace (fun directory =>
    try? current_state := load directory namespace in
    try? current := pure_ (capture_state namespace current_state) in
    try? requested :=
      (if requested_generation =? current_state.(st_generation) then pure_ (Ok (Some current))
       else
         try? entries := io (read_dir directory) in
         try? files := pure_ (state_files entries) in
         pure_ (match List.find (fun f : StateFile => f.1 =? requested_generation) files with
                | None => Ok None
                | Some (generation, (_, content)) =>
                    let? state := read_state content namespace generation in
                    let? captured := capture_state namespace state in
                    Ok (Some captured)
                end)) in
    pure_ (Ok (mkEvidence current requested))).

Definition plan_of (current : State) (snapshot : StorageSnapshot) (entries : gmap string bytes) :
    Result RestorePlan :=
  build_restore_plan current.(st_schema) current.(st_generation) current.(st_entries)
    snapshot.(sn_payload).(sn_state_schema) snapshot.(sn_payload).(sn_state_revision) entries.

Definition plan_restore (namespace : string) (snapshot : StorageSnapshot) (limits : StorageLimits) :
    IOR RestorePlan :=
  try? entries := pure_ (entries_for snapshot namespace) in
  pure_ (validate_restore_limits entries limits) ;;!
  with_namespace namespace (fun directory =>
    try? current := load directory namespace in
    pure_ (plan_of current snapshot entries)).

(** What [restore] and [restore_if_unchanged] do with the current state. *)
Definition restore_over (directory namespace : string) (current : State) (snapshot : StorageSnapshot)
    (entries : gmap string bytes) : IOR RestorePlan :=
  try? plan := pure_ (plan_of current snapshot entries) in
  (if plan_changed plan then
     commit_state directory namespace
       (mkState (N.max current.(st_generation) snapshot.(sn_payload).(sn_state_revision))
          snapshot.(sn_payload).(sn_state_schema) entries plan.(plan_snapshot))
   else pure_ (Ok tt)) ;;!
  pure_ (Ok plan).

Definition restore (namespace : string) (snapshot : StorageSnapshot) (limits : StorageLimits) : IOR RestorePlan :=
  try? entries := pure_ (entries_for snapshot namespace) in
  pure_ (validate_restore_limits entries limits) ;;!
  with_namespace namespace (fun directory =>
    io (cleanup_pending directory) ;;!
    try? current := load directory namespace in
    restore_over directory namespace current snapshot entries).

Definition restore_if_unchanged (namespace : string) (expected : CapturedState) (replacement : StorageSnapshot)
    (limits : StorageLimits) : IOR RestorePlan :=
  try? expected_entries := pure_ (entries_for expected.(cs_snapshot) namespace) in
  try? replacement_entries := pure_ (entries_for replacement namespace) in
  pure_ (validate_restore_limits replacement_entries limits) ;;!
  with_namespace namespace (fun directory =>
    io (cleanup_pending directory) ;;!
    try? current := load directory namespace in
    if negb (current.(st_generation) =? expected.(cs_generation))
       || negb (current.(st_schema) =? expected.(cs_snapshot).(sn_payload).(sn_state_schema))
       || negb (bool_decide (current.(st_entries) = expected_entries))
    then pure_ (Err StateChanged)
    else restore_over directory namespace current replacement replacement_entries).

(** ** Recovery *)
(** The generations that read, and the files that are corrupt. *)
Fixpoint triage (namespace : string) (files : Datatypes.list StateFile) :
    Result (Datatypes.list N * Datatypes.list string) :=
  match files with
  | [] => Ok ([], [])
  | (generation, (name, content)) :: files =>
      match read_state content namespace generation with
      | Ok _ =>
          let? (valid, corrupt) := triage namespace files in Ok (generation :: valid, corrupt)
      | Err (Corrupt _) =>
          let? (valid, corrupt) := triage namespace files in Ok (valid, name :: corrupt)
      | Err error => Err error
      end
  end.

Fixpoint quarantine (directory : string) (names : Datatypes.list string) : IO (Datatypes.list string) :=
  match names with
  | [] => ret []
  | name :: names =>
      do? target := unique_path directory ("corrupt-" +:+ name) "json" in
      rename (directory, name) target ;;?
      do? rest := quarantine directory names in
      ret (target.2 :: rest)
  end.

Definition max_generation (l : Datatypes.list N) : option N :=
  match l with [] => None | x :: l => Some (foldr N.max x l) end.

Definition recover (namespace : string) : IOR RecoveryReport :=
  with_namespace namespace (fun directory =>
    try? entries := io (read_dir directory) in
    try? files := pure_ (state_files entries) in
    try? (valid, corrupt) := pure_ (triage namespace files) in
    if bool_decide (valid = []) && negb (bool_decide (corrupt = [])) then pure_ (Err NoRecoverableState)
    else
      try? quarantined := io (quarantine directory corrupt) in
      try? discarded := io (cleanup_pending directory) in
      prune_generations directory ;;!
      io (sync_directory directory) ;;!
      pure_ (Ok (mkRecoveryReport (max_generation valid) quarantined discarded))).
End Operations.
End DirectoryBackend.
