(* ===== verification/DirectoryTheorems.v ===== *)
(** * Durability of the directory storage backend

    What a reader of a namespace finds after a process died, or a system call
    failed, anywhere inside an operation; that the backend behaves as the
    in-memory one; and recovery. *)
From stdpp Require Import pretty.
From S2P Require Import Prelude Text Events Files Storage StorageSpec Snapshot Directory.
Module D := DirectoryBackend.

(** ** Names of state files *)
Lemma parse_digits_digits w n v :
  v * 10 ^ N.of_nat w + n mod 10 ^ N.of_nat w <= u64_max ->
  parse_digits v (digits w n) = Some (v * 10 ^ N.of_nat w + n mod 10 ^ N.of_nat w).
Proof.
  revert v. induction w as [|w IH]; intros v.
  { rewrite N.mod_1_r. cbn. intros _. f_equal. lia. }
  rewrite Nat2N.inj_succ, N.pow_succ_r', (N.mul_comm 10 (10 ^ N.of_nat w)), N.Div0.mod_mul_r. intros Hle.
  cbn [digits parse_digits]. set (P := 10 ^ N.of_nat w) in *.
  pose proof (N.mod_upper_bound (n / P) 10 ltac:(lia)) as Hd. set (k := n / P mod 10) in *.
  rewrite N_ascii_embedding by lia.
  assert (is_ascii_digit (48 + k) = true) as -> by (apply andb_true_iff; split; apply N.leb_le; lia).
  replace (48 + k - 48) with k by lia.
  assert (1 <= P) as HP by (pose proof (N.pow_nonzero 10 (N.of_nat w)); unfold P; lia).
  destruct (N.leb_spec (v * 10 + k) u64_max) as [_|Hgt].
  - cbn [andb]. rewrite IH; [f_equal; lia|]. lia.
  - exfalso. assert (v * 10 + k <= (v * 10 + k) * P) by (rewrite <- (N.mul_1_r (v * 10 + k)) at 1; apply N.mul_le_mono_l; lia).
    revert Hle Hgt H. clearbody k. generalize (n mod P). clearbody P. intros. nia.
Qed.

Lemma strip_suffix_app a suffix :
  strip_suffix suffix (a +:+ suffix) = Some a.
Proof.
  induction a as [|x a IH].
  - change ("" +:+ suffix) with suffix. destruct suffix; cbn; by rewrite bool_decide_eq_true_2.
  - rewrite app_cons_str. cbn [strip_suffix].
    rewrite bool_decide_eq_false_2.
    + by rewrite IH.
    + intros H. apply (f_equal String.length) in H. cbn in H. rewrite length_app_str in H. lia.
Qed.

Lemma state_generation_name g : g <= u64_max -> state_generation (state_file_name g) = Some (Ok g).
Proof.
  intros Hg. unfold state_generation, state_file_name.
  change (strip_prefix "state-" ("state-" +:+ digits 20 g +:+ ".json")) with (Some (digits 20 g +:+ ".json")).
  cbn [mbind option_bind]. rewrite strip_suffix_app.
  assert (parse_u64 (digits 20 g) = Some g) as ->; [|done].
  change (digits 20 g) with (String (ascii_of_N (48 + g / 10 ^ N.of_nat 19 mod 10)) (digits 19 g)) at 1.
  unfold parse_u64. rewrite bool_decide_eq_false_2.
  - change (String (ascii_of_N (48 + g / 10 ^ N.of_nat 19 mod 10)) (digits 19 g)) with (digits 20 g).
    assert (g mod 10 ^ N.of_nat 20 = g) as Hm.
    { apply N.mod_small. change (10 ^ N.of_nat 20) with 100000000000000000000. unfold u64_max in Hg. lia. }
    rewrite parse_digits_digits; rewrite Hm; [f_equal; lia|lia].
  - intros H. apply (f_equal N_of_ascii) in H. revert H.
    pose proof (N.mod_upper_bound (g / 10 ^ N.of_nat 19) 10 ltac:(lia)) as Hlt. revert Hlt.
    generalize (g / 10 ^ N.of_nat 19 mod 10). intros k Hlt. rewrite N_ascii_embedding by lia.
    change (N_of_ascii "+") with 43. lia.
Qed.

(** Names that do not begin with an s are no state files. *)
Lemma state_generation_other a name : a <> "s"%char -> state_generation (String a name) = None.
Proof. intros Ha. unfold state_generation. cbn. rewrite bool_decide_eq_false_2; [done|congruence]. Qed.
Lemma pending_no_state name : is_pending name = true -> state_generation name = None.
Proof.
  unfold is_pending, starts_with. intros [Hp _]%andb_true_iff. destruct name as [|a name]; [done|].
  apply state_generation_other. intros ->. cbn in Hp. discriminate Hp.
Qed.
Lemma unique_no_state prefix e p s : starts_with_char prefix "s" = false -> prefix <> "" ->
  state_generation (unique_name prefix e p s) = None.
Proof.
  intros Hp Hne. unfold unique_name. destruct prefix as [|a prefix]; [done|]. rewrite app_cons_str.
  apply state_generation_other. intros ->. cbn in Hp. by rewrite bool_decide_eq_true_2 in Hp.
Qed.

(** ** Listings *)
Definition file_of (x : string * bytes) : option StateFile :=
  match state_generation x.1 with Some (Ok g) => Some (g, x) | _ => None end.
Definition named (x : string * bytes) : Prop := forall e, state_generation x.1 <> Some (Err e).

Lemma collect_spec l fs : collect_state_files l = Ok fs <-> Forall named l /\ fs = omap file_of l.
Proof.
  revert fs. induction l as [|[n c] l IH]; intros fs; cbn [collect_state_files].
  { split; [intros [= <-]; by split|by intros [_ ->]]. }
  rewrite Forall_cons. unfold named at 1. cbn [fst omap list_omap]. unfold file_of at 1. cbn [fst].
  destruct (state_generation n) as [[g|e]|].
  - destruct (collect_state_files l) as [fs'|] eqn:Hc.
    + destruct (proj1 (IH fs') eq_refl) as [Hn ->]. split; [intros [= <-]; split_and!; done|]. by intros [[_ _] ->].
    + split; [done|]. intros [[_ Hn] _]. by assert (Err e = Ok (omap file_of l)) by (by apply IH).
  - split; [done|]. intros [[Hn _] _]. by destruct (Hn e).
  - rewrite IH. split; [intros [Hn ->]; split_and!; done|by intros [[_ ?] ->]].
Qed.

#[global] Instance file_le_total : Total file_le.
Proof.
  intros [g1 [n1 c1]] [g2 [n2 c2]]. unfold file_le. cbn. destruct (N.lt_trichotomy g1 g2) as [|[->|]]; [auto| |auto].
  destruct (String.le_total n1 n2); auto.
Qed.
#[global] Instance file_le_trans : Transitive file_le.
Proof.
  intros [g1 [n1 c1]] [g2 [n2 c2]] [g3 [n3 c3]]. unfold file_le. cbn. intros [?|[-> H1]] [?|[-> H2]]; [left; lia|auto|auto|].
  right. split; [done|]. by etrans.
Qed.

Lemma file_of_Some x g y : file_of x = Some (g, y) <-> y = x /\ state_generation x.1 = Some (Ok g).
Proof.
  unfold file_of. destruct (state_generation x.1) as [[g'|]|]; naive_solver.
Qed.

Lemma state_files_elem m fs g n c :
  state_files m = Ok fs -> (g, (n, c)) ∈ fs <-> m !! n = Some c /\ state_generation n = Some (Ok g).
Proof.
  unfold state_files. destruct (collect_state_files _) as [l|] eqn:Hc; [|done]. intros [= <-].
  apply collect_spec in Hc as [_ ->]. rewrite merge_sort_Permutation, list_elem_of_omap. split.
  - intros ([n' c'] & Hin & Hf). apply file_of_Some in Hf as [[= <- <-] Hg]. by apply btree_iter_elem in Hin.
  - intros [Hm Hg]. exists (n, c). split; [by apply btree_iter_elem|]. by apply file_of_Some.
Qed.

Lemma state_files_sorted m fs : state_files m = Ok fs -> StronglySorted file_le fs.
Proof.
  unfold state_files. destruct (collect_state_files _); [|done]. intros [= <-]. apply (StronglySorted_merge_sort file_le).
Qed.
Lemma state_files_NoDup m fs : state_files m = Ok fs -> NoDup fs.
Proof.
  unfold state_files. destruct (collect_state_files _) as [l|] eqn:Hc; [|done]. intros [= <-].
  apply collect_spec in Hc as [_ ->]. rewrite merge_sort_Permutation.
  assert (NoDup (btree_iter m)) as Hn by (apply (NoDup_fmap_1 fst), btree_keys_NoDup). revert Hn.
  induction (btree_iter m) as [|x l IH]; intros Hn; csimpl; [constructor|]. apply NoDup_cons in Hn as [Hx Hn].
  destruct (file_of x) as [[g y]|] eqn:Hf; [|by apply IH]. apply file_of_Some in Hf as [-> Hg].
  constructor; [|by apply IH]. intros (z & Hz & Hfz)%list_elem_of_omap. apply file_of_Some in Hfz as [-> _]. done.
Qed.
Lemma state_files_Ok m :
  (exists fs, state_files m = Ok fs) <-> forall n c e, m !! n = Some c -> state_generation n <> Some (Err e).
Proof.
  unfold state_files. split.
  - intros [fs Hm] n c e Hn. destruct (collect_state_files _) as [l|] eqn:Hc; [|done].
    apply collect_spec in Hc as [Hf _]. rewrite Forall_forall in Hf. apply (Hf (n, c)). by apply btree_iter_elem.
  - intros H. rewrite (proj2 (collect_spec _ (omap file_of (btree_iter m)))); [by eexists|]. split; [|done].
    apply Forall_forall. intros [n c] Hin%btree_iter_elem e. by apply (H n c).
Qed.

(** A listing is determined by its elements. *)
Lemma state_files_intro m fs :
  (forall n c e, m !! n = Some c -> state_generation n <> Some (Err e)) ->
  StronglySorted file_le fs -> NoDup fs ->
  (forall g n c, (g, (n, c)) ∈ fs <-> m !! n = Some c /\ state_generation n = Some (Ok g)) ->
  state_files m = Ok fs.
Proof.
  intros Hok Hs Hnd Hel. apply state_files_Ok in Hok as [fs' Hm]. rewrite Hm. f_equal. symmetry.
  apply (StronglySorted_unique_strong file_le); [|done|by eapply state_files_sorted|].
  - intros [g1 [n1 c1]] [g2 [n2 c2]] H1 H2 [Hlt|[He Hle]] [Hlt'|[He' Hle']]; cbn in *; try lia. subst g2.
    assert (n1 = n2) as <- by (by apply (anti_symm String.le)). apply Hel in H1 as [H1 _].
    apply (state_files_elem m) in H2 as [H2 _]; [|done]. congruence.
  - apply NoDup_Permutation; [done|by eapply state_files_NoDup|]. intros [g [n c]].
    rewrite Hel. symmetry. by apply state_files_elem.
Qed.

(** Files with other names do not matter. *)
Lemma state_files_agree m m' fs :
  (forall n, state_generation n <> None -> m' !! n = m !! n) -> state_files m = Ok fs -> state_files m' = Ok fs.
Proof.
  intros Ha Hm. apply state_files_intro; [|by eapply state_files_sorted|by eapply state_files_NoDup|].
  - intros n c e Hn He. rewrite Ha in Hn by congruence. by eapply (proj1 (state_files_Ok m) (ex_intro _ fs Hm)).
  - intros g n c. rewrite (state_files_elem m fs g n c Hm). split; intros [H1 H2]; (split; [|done]); [by rewrite Ha by congruence|].
    rewrite Ha in H1 by congruence. done.
Qed.

(** A file of a later generation is the last of the listing. *)
Lemma state_files_insert m fs g c :
  state_files m = Ok fs -> g <= u64_max -> (forall f, f ∈ fs -> f.1 < g) ->
  state_files (<[state_file_name g := c]> m) = Ok (fs ++ [(g, (state_file_name g, c))]).
Proof.
  intros Hm Hg Hlt. pose proof (state_generation_name g Hg) as Hname. apply state_files_intro.
  - intros n x e. rewrite lookup_insert. case_decide as Hn; [subst n; congruence|].
    intros Hx. by eapply (proj1 (state_files_Ok m) (ex_intro _ fs Hm)).
  - apply StronglySorted_app. split_and!; [|by eapply state_files_sorted|repeat constructor].
    intros x y Hx ->%list_elem_of_singleton. left. by apply Hlt.
  - apply NoDup_app. split_and!; [by eapply state_files_NoDup| |apply NoDup_singleton].
    intros x Hx ->%list_elem_of_singleton. apply Hlt in Hx. cbn in Hx. lia.
  - intros g' n x. rewrite elem_of_app, list_elem_of_singleton, (state_files_elem m fs g' n x Hm), lookup_insert.
    case_decide as Hn; [subst n|].
    + split; [|intros [Hx Hg']; right; congruence]. intros [[Hin Hs]|Hx]; [|injection Hx as -> ->; done].
      exfalso. assert ((g', (state_file_name g, x)) ∈ fs) as Hf by (apply (state_files_elem m); done).
      apply Hlt in Hf. cbn in Hf. assert (g' = g) by congruence. lia.
    + split; [intros [?|Hx]; [done|congruence]|by left].
Qed.

(** Removing the first file removes the head of the listing. *)
Lemma state_files_delete m f fs :
  state_files m = Ok (f :: fs) -> state_files (delete f.2.1 m) = Ok fs.
Proof.
  intros Hm. destruct f as [g [n c]]. cbn [fst snd]. pose proof (state_files_NoDup _ _ Hm) as Hnd.
  pose proof (state_files_sorted _ _ Hm) as Hs. apply NoDup_cons in Hnd as [Hf Hnd]. apply StronglySorted_inv in Hs as [Hs _].
  apply state_files_intro; [|done|done|].
  - intros n' x e. rewrite lookup_delete. case_decide; [done|]. intros Hx.
    by eapply (proj1 (state_files_Ok m) (ex_intro _ _ Hm)).
  - intros g' n' x. rewrite lookup_delete. pose proof (state_files_elem m _ g' n' x Hm) as Hel. rewrite elem_of_cons in Hel.
    pose proof (proj1 (state_files_elem m _ g n c Hm) ltac:(by left)) as [Hn Hgn].
    case_decide as Hne; [subst n'|].
    + split; [|by intros [? _]]. intros Hin. exfalso. apply Hf. destruct (proj1 Hel (or_intror Hin)) as [H1 H2].
      assert (x = c) as <- by congruence. by assert (g' = g) as <- by congruence.
    + rewrite <- Hel. split; [by right|]. intros [[= -> -> ->]|?]; done.
Qed.

(** ** Loading *)
Section Load.
Context `{Ext : Externals} `{Hex : HexDecode} `{JD : !Json DiskPayload} `{JEn : !Json DiskEnvelope}
  `{DEn : !JsonDecode DiskEnvelope} `{RTEn : !JsonRoundTrip DiskEnvelope}.

Lemma read_state_generation c ns g s : read_state c ns g = Ok s -> s.(st_generation) = g.
Proof.
  unfold read_state. pass H1. destruct (from_slice c); [|done]. cbn zeta. destruct (serialize _); [|done].
  pass H2. pass H3. pass H4. destruct (decode_loop _ _ _ _) as [[]|]; [|done]. by intros [= <-].
Qed.

(** A state whose usage is exact and whose entries can be stored. *)
Definition state_ok (s : State) : Prop :=
  storable s.(st_entries) /\ s.(st_usage) = mkUsage (entries_bytes s.(st_entries)) (btree_len s.(st_entries)).

Lemma state_ok_generation s g : state_ok s -> state_ok (with_generation s g).
Proof. done. Qed.
Lemma default_state_ok : state_ok default_state.
Proof.
  split; [split; [done|]|]; cbn.
  - unfold within, btree_len. rewrite entries_bytes_empty, map_size_empty. split_and!; try done; vm_compute; done.
  - by rewrite entries_bytes_empty.
Qed.

Lemma read_state_ok c ns g s : read_state c ns g = Ok s -> state_ok s.
Proof.
  unfold read_state. pass H1. destruct (from_slice c) as [env|]; [|done]. cbn zeta. destruct (serialize _); [|done].
  pass H2. pass H3. destruct (N.ltb_spec MAX_STORAGE_KEYS (btree_len (dp_entries (de_payload env)))) as [|Hlen]; [done|].
  destruct (decode_loop _ _ _ _) as [[m t]|] eqn:Hd; [|done]. intros [= <-].
  by apply (decode_loop_sound _ _ _ _ Hlen) in Hd as [Hst ->].
Qed.

(** What a reader makes of a file that was committed. *)
Lemma read_committed ns s env b :
  state_ok s -> envelope_of ns s = Ok env -> serialize env = Ok b -> len b <= MAX_STATE_FILE_BYTES ->
  read_state b ns s.(st_generation) = Ok s.
Proof.
  intros [Hst Hu] He Hb Hlen. unfold read_state. destruct (N.ltb_spec MAX_STATE_FILE_BYTES (len b)); [lia|].
  unfold serialize in Hb. destruct (to_vec env) as [b'|] eqn:Hv; [|done]. injection Hb as <-.
  rewrite (from_slice_to_vec env b' Hv). unfold envelope_of in He. cbn zeta in He.
  destruct (serialize _) as [pb|] eqn:Hp; [|done]. injection He as <-. cbn [de_payload de_payload_sha256]. rewrite Hp.
  rewrite bool_decide_eq_true_2 by done. cbn [negb dp_format_version dp_namespace dp_generation dp_state_schema dp_entries].
  rewrite bool_decide_eq_true_2, N.eqb_refl, encoded_len, decode_loop_storable by done.
  change (DISK_FORMAT_VERSION =? 1) with false. rewrite ?N.eqb_refl. cbn [negb orb andb]. pose proof Hst as [_ (Hk & _)]. cbn [largest_limits max_keys] in Hk.
  destruct (N.ltb_spec MAX_STORAGE_KEYS (btree_len (st_entries s))); [lia|]. rewrite <- Hu. by destruct s.
Qed.

(** The last file of a sorted listing is the state. *)
Definition readable (ns : string) (f : StateFile) : Prop := exists s, read_state f.2.2 ns f.1 = Ok s.
Definition latest_of (ns : string) (fs : list StateFile) (s : State) : Prop :=
  match last fs with None => s = default_state | Some f => read_state f.2.2 ns f.1 = Ok s end.

Lemma load_files_app ns s0 fs fs' :
  load_files ns s0 (fs ++ fs') = let? s := load_files ns s0 fs in load_files ns s fs'.
Proof.
  revert s0. induction fs as [|[g [n c]] fs IH]; intros s0; cbn [app load_files]; [done|].
  destruct (read_state c ns g); [|done]. apply IH.
Qed.

Lemma load_sorted ns fs s :
  StronglySorted file_le fs -> load_files ns default_state fs = Ok s <-> Forall (readable ns) fs /\ latest_of ns fs s.
Proof.
  revert s. induction fs as [|[g [n c]] fs IH] using rev_ind; intros s Hs.
  { cbn. split; [intros [= <-]; done|by intros [_ ->]]. }
  apply StronglySorted_app in Hs as (Hle & Hs & _). rewrite load_files_app, Forall_app, Forall_singleton.
  unfold latest_of at 1, readable at 2. rewrite last_snoc. cbn [fst snd load_files].
  assert (forall s1, load_files ns default_state fs = Ok s1 -> s1.(st_generation) <= g) as Hgen.
  { intros s1 Hl. apply (IH s1 Hs) in Hl as [_ Hl]. unfold latest_of in Hl. destruct (last fs) as [[g1 [n1 c1]]|] eqn:Hlast.
    - apply read_state_generation in Hl. cbn in Hl. rewrite Hl. apply last_Some_elem_of in Hlast.
      destruct (Hle _ _ Hlast ltac:(by apply list_elem_of_singleton)) as [H|[H _]]; cbn in H; lia.
    - subst s1. cbn. lia. }
  destruct (load_files ns default_state fs) as [s1|e] eqn:Hl.
  - destruct (proj1 (IH s1 Hs) eq_refl) as [Hf _]. destruct (read_state c ns g) as [s2|]; [|naive_solver].
    rewrite (proj2 (N.leb_le _ _) (Hgen s1 eq_refl)). naive_solver.
  - split; [done|]. intros [[Hf _] _]. exfalso.
    assert (exists s1, latest_of ns fs s1) as [s1 H1].
    { unfold latest_of. destruct (last fs) as [f|] eqn:Hlast; [|by eexists]. apply last_Some_elem_of in Hlast.
      rewrite Forall_forall in Hf. destruct (Hf f Hlast) as [s1 H1]. by exists s1. }
    by assert (Err e = Ok s1) by (by apply IH).
Qed.

(** ** The state of a directory *)
Lemma load_state_iff m ns s :
  load_state m ns = Ok s <-> exists fs, state_files m = Ok fs /\ Forall (readable ns) fs /\ latest_of ns fs s.
Proof.
  unfold load_state. destruct (state_files m) as [fs|] eqn:Hm; [|naive_solver].
  rewrite (load_sorted ns fs s) by (by eapply state_files_sorted). naive_solver.
Qed.

Lemma load_state_ok m ns s : load_state m ns = Ok s -> state_ok s.
Proof.
  intros (fs & _ & _ & Hl)%load_state_iff. unfold latest_of in Hl. destruct (last fs); [by eapply read_state_ok|].
  subst s. apply default_state_ok.
Qed.

Lemma load_state_agree m m' ns s :
  (forall n, state_generation n <> None -> m' !! n = m !! n) -> load_state m ns = Ok s -> load_state m' ns = Ok s.
Proof.
  rewrite !load_state_iff. intros Ha (fs & Hm & H). exists fs. split; [by eapply state_files_agree|done].
Qed.

(** Every generation is at most that of the state. *)
Lemma load_state_generation m ns s fs f :
  load_state m ns = Ok s -> state_files m = Ok fs -> f ∈ fs -> f.1 <= s.(st_generation).
Proof.
  intros (fs' & Hm & _ & Hl)%load_state_iff Hm' Hf. rewrite Hm in Hm'. injection Hm' as ->.
  unfold latest_of in Hl. destruct (last fs) as [f1|] eqn:Hlast.
  2:{ apply last_None in Hlast as ->. by apply elem_of_nil in Hf. }
  apply read_state_generation in Hl. rewrite Hl. apply last_Some in Hlast as [l ->].
  apply state_files_sorted in Hm. apply StronglySorted_app in Hm as (Hle & _ & _).
  apply elem_of_app in Hf as [Hf|Hf%list_elem_of_singleton]; [|subst f; lia].
  destruct (Hle _ _ Hf ltac:(by apply list_elem_of_singleton)) as [|[-> _]]; lia.
Qed.

Lemma load_state_commit m ns s s' c :
  load_state m ns = Ok s -> s.(st_generation) < s'.(st_generation) -> s'.(st_generation) <= u64_max ->
  read_state c ns s'.(st_generation) = Ok s' ->
  load_state (<[state_file_name s'.(st_generation) := c]> m) ns = Ok s'.
Proof.
  intros Hl Hlt Hmax Hr. pose proof Hl as (fs & Hm & Hf & _)%load_state_iff. apply load_state_iff.
  exists (fs ++ [(s'.(st_generation), (state_file_name s'.(st_generation), c))]). split_and!.
  - apply state_files_insert; [done|done|]. intros f Hin. pose proof (load_state_generation _ _ _ _ _ Hl Hm Hin). lia.
  - apply Forall_app. split; [done|]. apply Forall_singleton. by exists s'.
  - unfold latest_of. by rewrite last_snoc.
Qed.

Lemma load_state_prune m ns s f f' fs :
  load_state m ns = Ok s -> state_files m = Ok (f :: f' :: fs) -> load_state (delete f.2.1 m) ns = Ok s.
Proof.
  intros (fs' & Hm & Hf & Hl)%load_state_iff Hm'. rewrite Hm in Hm'. injection Hm' as ->. apply load_state_iff.
  exists (f' :: fs). split_and!; [by apply state_files_delete|by apply Forall_cons in Hf as [_ ?]|done].
Qed.
End Load.

(** ** Runs with storage errors *)
Lemma triple_rbind {A B : Type} P (m : IOR A) (k : A -> IOR B) R Q C :
  triple P m (fun r d => match r with
                         | Ok (Ok a) => R a d
                         | Ok (Err e) => Q (Ok (Err e)) d
                         | Err e => Q (Err e) d
                         end) C ->
  (forall a, triple (R a) (k a) Q C) -> triple P (rbind m k) Q C.
Proof.
  intros Hm Hk. unfold rbind. apply (triple_bind _ _ _ (fun r d => match r with Ok a => R a d | Err e => Q (Ok (Err e)) d end)).
  - eapply triple_weaken; [exact Hm|done| |done]. by intros [[a|e]|e] d.
  - intros [a|e]; [apply Hk|]. by apply triple_ret.
Qed.
Lemma triple_io {A : Type} P (m : IO A) (Q : result string (Result A) -> Disk -> Prop) C :
  triple P m (fun r d => match r with Ok a => Q (Ok (Ok a)) d | Err e => Q (Err e) d end) C -> triple P (io m) Q C.
Proof.
  intros Hm. unfold io. apply (triple_bind _ _ _ (fun a d => Q (Ok (Ok a)) d)); [done|]. intros a. by apply triple_ret.
Qed.
Lemma triple_pure_bind {A B : Type} P (r : Result A) (k : A -> IOR B) Q C :
  (forall e d, r = Err e -> P d -> Q (Ok (Err e)) d) -> (forall a, r = Ok a -> triple P (k a) Q C) ->
  triple P (rbind (pure_ r) k) Q C.
Proof. intros He Hk w Hw. unfold rbind, bind, pure_, ret. destruct r as [a|e]; [by apply (Hk a)|by apply He]. Qed.

(** ** A namespace through system calls *)
Section Runs.
Context `{Ext : Externals} `{Hex : HexDecode} `{JD : !Json DiskPayload} `{JEn : !Json DiskEnvelope}
  `{DEn : !JsonDecode DiskEnvelope} `{RTEn : !JsonRoundTrip DiskEnvelope}.
Variables (d0 : Disk) (dir ns : string).

(** The directory of the namespace holds [s]; every other is that of [d0]. *)
Definition hold (s : State) (d : Disk) : Prop :=
  (forall x, x <> dir -> d !! x = d0 !! x) /\ load_state (default ∅ (d !! dir)) ns = Ok s.

Lemma read_default (d : Disk) n : default ∅ (d !! dir) !! n = read_path d (dir, n).
Proof. unfold read_path. cbn [fst snd]. by destruct (d !! dir). Qed.

Lemma hold_agree s d d' :
  (forall x, x <> dir -> d' !! x = d !! x) ->
  (forall n, state_generation n <> None -> read_path d' (dir, n) = read_path d (dir, n)) -> hold s d -> hold s d'.
Proof.
  intros Ho Hn [Ho' Hl]. split; [intros x Hx; by rewrite Ho, Ho'|].
  eapply load_state_agree; [|exact Hl]. intros n Hg. rewrite !read_default. by apply Hn.
Qed.
Lemma hold_write s d n c : state_generation n = None -> hold s d -> hold s (write_path d (dir, n) c).
Proof.
  intros Hn. apply hold_agree; [intros x Hx; by apply dir_write|]. intros n' Hn'. apply read_write_ne. congruence.
Qed.
Lemma hold_remove s d n : state_generation n = None -> hold s d -> hold s (remove_path d (dir, n)).
Proof.
  intros Hn. apply hold_agree; [intros x Hx; by apply dir_remove|]. intros n' Hn'. apply read_remove_ne. congruence.
Qed.

(** A system call that changes nothing. *)
Lemma nothing_triple (P : Disk -> Prop) : triple P sync_all (fun _ => P) P.
Proof. unfold sync_all. by apply triple_syscall. Qed.

(** Opening a namespace creates its directory and its lock file only. *)
Lemma open_triple {A : Type} (I : Disk -> Prop) (k : IOR A) Q C :
  (forall d, I d -> d !! dir = None -> I (<[dir := ∅]> d)) ->
  (forall d n c, state_generation n = None -> I d -> I (write_path d (dir, n) c)) ->
  (forall r d, I d -> is_ok r = false -> Q r d) -> (forall d, I d -> C d) ->
  triple (fun d => I d /\ is_Some (d !! dir)) k Q C ->
  triple I (io (ensure_directory dir) ;;! io (set_private_directory_permissions dir) ;;!
            io (open_lock dir) ;;! io acquire_lock ;;! k) Q C.
Proof.
  intros Hnew Hwrite HQ HC Hk.
  apply (triple_rbind _ _ _ (fun _ d => I d /\ is_Some (d !! dir))).
  { apply triple_io. intros w Hw. unfold ensure_directory.
    destruct (disk w !! dir) as [m|] eqn:Hm; cbn [is_some is_none negb]; [by split; [|exists m]|].
    assert (triple (fun d => I d /\ d !! dir = None) (syscall (fun d => Ok (<[dir := ∅]> d, tt)) untouched)
      (fun r d => match r with Ok _ => I d /\ is_Some (d !! dir) | Err e => Q (Err e) d end) C) as Ht;
      [apply triple_syscall|exact (Ht w (conj Hw Hm))].
    - intros d [Hd Hn]. split; [by apply Hnew|by rewrite lookup_insert_eq].
    - intros d n [Hd _]. split; [by apply HQ|by apply HC]. }
  intros _. apply (triple_rbind _ _ _ (fun _ d => I d /\ is_Some (d !! dir))).
  { apply triple_io. eapply triple_weaken; [apply (nothing_triple (fun d => I d /\ is_Some (d !! dir)))|done| |by intros d [Hd _]; apply HC].
    intros [u|e] d [Hd Hi]; [done|by apply HQ]. }
  intros _. apply (triple_rbind _ _ _ (fun _ d => I d /\ is_Some (d !! dir))).
  { apply triple_io, triple_syscall.
    - intros d [Hd Hi]. destruct (read_path d (dir, "namespace.lock")); [done|].
      split; [by apply Hwrite|]. by apply is_dir_write.
    - intros d n [Hd _]. split; [by apply HQ|by apply HC]. }
  intros _. apply (triple_rbind _ _ _ (fun _ d => I d /\ is_Some (d !! dir))); [|by intros _].
  apply triple_io. eapply triple_weaken; [apply (nothing_triple (fun d => I d /\ is_Some (d !! dir)))|done| |by intros d [Hd _]; apply HC].
  intros [u|e] d [Hd Hi]; [done|by apply HQ].
Qed.
Lemma hold_new s d : hold s d -> d !! dir = None -> hold s (<[dir := ∅]> d).
Proof.
  intros [Ho Hl] Hn. rewrite Hn in Hl. split; [intros x Hx; rewrite lookup_insert_ne by done; by apply Ho|].
  by rewrite lookup_insert_eq.
Qed.

(** Removing files that are no state files. *)
Lemma remove_files_triple s names :
  Forall (fun n => state_generation n = None) names ->
  triple (fun d => hold s d /\ is_Some (d !! dir)) (remove_files dir names)
    (fun _ d => hold s d /\ is_Some (d !! dir)) (hold s).
Proof.
  induction names as [|n names IH]; intros Hn; cbn [remove_files]; [by apply triple_ret|].
  apply Forall_cons in Hn as [Hn Hns]. apply (triple_bind _ _ _ (fun _ d => hold s d /\ is_Some (d !! dir))).
  - apply triple_syscall; [|by intros d k [Hd Hi]]. intros d [Hd Hi]. destruct (is_some _); [|done].
    split; [by apply hold_remove|]. by apply is_dir_remove.
  - intros _. by apply IH.
Qed.

Lemma pending_listed (m : Directory) : Forall (fun n => state_generation n = None) (List.filter is_pending (btree_keys m)).
Proof. apply Forall_forall. intros n Hn. apply list_elem_of_In, List.filter_In in Hn as [_ Hn]. by apply pending_no_state. Qed.

Lemma cleanup_triple s :
  triple (fun d => hold s d /\ is_Some (d !! dir)) (cleanup_pending dir)
    (fun _ d => hold s d /\ is_Some (d !! dir)) (hold s).
Proof.
  intros w [Hd [m Hm]]. unfold cleanup_pending. unfold bind at 1. unfold read_dir at 1. rewrite Hm. cbn [ok_or].
  assert (triple (fun d => hold s d /\ is_Some (d !! dir))
    (remove_files dir (List.filter is_pending (btree_keys m)) ;;? ret (len (List.filter is_pending (btree_keys m))))
    (fun _ d => hold s d /\ is_Some (d !! dir)) (hold s)) as Ht; [|apply Ht; split; [done|by exists m]].
  apply (triple_bind _ _ _ (fun _ d => hold s d /\ is_Some (d !! dir))).
  - eapply triple_weaken; [apply (remove_files_triple s), pending_listed|done| |done]. by intros [u|e] d H.
  - intros _. by apply triple_ret.
Qed.

(** Pruning keeps the last generations. *)
Definition listed (s : State) (fs : list StateFile) (d : Disk) : Prop :=
  hold s d /\ exists m, d !! dir = Some m /\ state_files m = Ok fs.

Lemma listed_remove s f f' fs d :
  listed s (f :: f' :: fs) d ->
  is_some (read_path d (dir, f.2.1)) = true /\ listed s (f' :: fs) (remove_path d (dir, f.2.1)).
Proof.
  intros [[Ho Hl] (m & Hm & Hfs)]. rewrite Hm in Hl. cbn [default from_option id] in Hl. split.
  - destruct f as [g [n c]]. cbn [fst snd].
    destruct (proj1 (state_files_elem m _ g n c Hfs) ltac:(by left)) as [Hn _].
    unfold read_path. cbn [fst snd]. rewrite Hm. cbn. by rewrite Hn.
  - assert (remove_path d (dir, f.2.1) !! dir = Some (delete f.2.1 m)) as Hd
      by (unfold remove_path; cbn [fst snd]; by rewrite lookup_alter_eq, Hm).
    split; [split|].
    + intros x Hx. rewrite dir_remove by done. by apply Ho.
    + rewrite Hd. cbn [default from_option id]. by eapply load_state_prune.
    + exists (delete f.2.1 m). split; [done|]. by apply state_files_delete.
Qed.

Lemma remove_old_triple s fs1 fs2 :
  fs2 <> [] ->
  triple (listed s (fs1 ++ fs2)) (remove_files dir ((fun f : StateFile => f.2.1) <$> fs1))
    (fun r d => hold s d /\ (is_ok r = true -> listed s fs2 d)) (hold s).
Proof.
  intros Hne. induction fs1 as [|f fs1 IH]; csimpl; [apply triple_ret; by intros d [Hd ?]|].
  apply (triple_bind _ _ _ (fun _ => listed s (fs1 ++ fs2))); [|by intros _].
  assert (exists f' fs', fs1 ++ fs2 = f' :: fs') as (f' & fs' & Hfs).
  { destruct fs1 as [|f1 fs1]; [|by exists f1, (fs1 ++ fs2)]. destruct fs2 as [|f' fs']; [done|by exists f', fs']. }
  rewrite Hfs. apply triple_syscall.
  - intros d Hd. destruct (listed_remove s f f' fs' d Hd) as [-> Hr]. done.
  - intros d n [Hd _]. done.
Qed.

Lemma prune_triple s :
  triple (fun d => hold s d /\ is_Some (d !! dir)) (prune_generations dir)
    (fun r d => hold s d /\ match r with
                             | Ok (Ok _) => exists fs, listed s fs d /\ len fs <= RETAINED_GENERATIONS
                             | _ => True
                             end) (hold s).
Proof.
  intros w [Hd [m Hm]]. unfold prune_generations. unfold rbind at 1, io at 1, read_dir at 1, bind at 1 2. rewrite Hm.
  cbn [ok_or ret]. unfold rbind at 1, pure_ at 1, bind at 1, ret at 1.
  pose proof Hd as [_ Hl]. rewrite Hm in Hl. cbn [default from_option id] in Hl. apply load_state_iff in Hl as (fs & Hfs & _).
  rewrite Hfs. cbn zeta. set (k := N.to_nat (len fs - RETAINED_GENERATIONS)).
  assert (triple (listed s fs)
    (io (remove_files dir ((fun f : StateFile => f.2.1) <$> take k fs)) ;;! io (sync_directory dir))
    (fun r d => hold s d /\ match r with
                             | Ok (Ok _) => exists fs, listed s fs d /\ len fs <= RETAINED_GENERATIONS
                             | _ => True
                             end) (hold s)) as Ht; [|apply Ht; split; [done|by exists m]].
  assert (len (drop k fs) <= RETAINED_GENERATIONS) as Hlen.
  { unfold len, k. rewrite length_drop. unfold len, RETAINED_GENERATIONS in *. lia. }
  apply (triple_rbind _ _ _ (fun _ => listed s (drop k fs))).
  - apply triple_io. destruct (decide (drop k fs = [])) as [Hnil|Hne].
    + assert (take k fs = []) as Ht.
      { assert (length (drop k fs) = 0%nat) as H by (by rewrite Hnil). rewrite length_drop in H.
        destruct fs as [|f fs]; [apply take_nil|]. exfalso. unfold k, len, RETAINED_GENERATIONS in H.
        cbn [length] in H. lia. }
      rewrite Ht. apply triple_ret. intros d Hd'. rewrite Hnil.
      by assert (fs = []) as <- by (by rewrite <- (take_drop k fs), Ht, Hnil).
    + eapply triple_weaken; [apply (remove_old_triple s (take k fs) (drop k fs) Hne)|by rewrite take_drop| |done].
      intros [u|e] d [Hh Hr]; [by apply Hr|done].
  - intros _. apply triple_io. eapply triple_weaken; [apply (nothing_triple (listed s (drop k fs)))|done| |by intros d [Hh _]].
    intros [u|e] d Hd'; (split; [by destruct Hd'|]); [|done]. by exists (drop k fs).
Qed.

(** ** Committing *)
Definition committed (s : State) : State := with_generation s (s.(st_generation) + 1).
(** The encoder succeeds and the file is within the limit of the reader. *)
Definition fits (s : State) : Prop :=
  exists env b, envelope_of ns (committed s) = Ok env /\ serialize env = Ok b /\ len b <= MAX_STATE_FILE_BYTES.

Lemma rename_state d s s1 n c :
  hold s d -> is_Some (d !! dir) -> state_generation n = None -> s.(st_generation) < s1.(st_generation) ->
  s1.(st_generation) <= u64_max -> read_state c ns s1.(st_generation) = Ok s1 ->
  hold s1 (write_path (remove_path d (dir, n)) (dir, state_file_name s1.(st_generation)) c).
Proof.
  intros Hh Hi Hn Hlt Hmax Hr. apply (hold_remove _ _ _ Hn) in Hh as [Ho Hl].
  apply (is_dir_remove d (dir, n)) in Hi as [m Hm]. rewrite Hm in Hl. cbn [default from_option id] in Hl. split.
  - intros x Hx. rewrite dir_write by done. by apply Ho.
  - unfold write_path. cbn [fst snd]. rewrite lookup_alter_eq, Hm. cbn. by eapply load_state_commit.
Qed.

Definition either_state (s s1 : State) (d : Disk) : Prop := hold s d \/ hold (committed s1) d.
(** At most two generations are left. *)
Definition retained (s : State) (d : Disk) : Prop := exists fs, listed s fs d /\ len fs <= RETAINED_GENERATIONS.

Lemma commit_triple s s1 :
  state_ok s1 -> s.(st_generation) <= s1.(st_generation) -> fits s1 ->
  triple (fun d => hold s d /\ is_Some (d !! dir)) (commit_state dir ns s1)
    (fun r d => match r with Ok (Ok _) => retained (committed s1) d | _ => either_state s s1 d end)
    (either_state s s1).
Proof.
  intros Hok Hle (env & b & He & Hb & Hlen). unfold commit_state.
  apply triple_pure_bind; [by intros e d _ [Hd _]; left|]. intros g Hg.
  unfold ok_or in Hg. destruct (checked_add _ _ _) as [g'|] eqn:Hadd; [|done]. injection Hg as <-.
  apply checked_add_Some in Hadd as [-> Hmax]. fold (committed s1). rewrite He. cbn zeta.
  apply triple_pure_bind; [done|]. intros env' [= <-]. rewrite Hb.
  apply triple_pure_bind; [done|]. intros b' [= <-].
  assert (read_state b ns (committed s1).(st_generation) = Ok (committed s1)) as Hread
    by (by eapply read_committed).
  intros [dk sq pid fs] [Hd Hi].
  unfold rbind at 1, io at 1, unique_path at 1, fetch_sequence, get_process_id, bind at 1 2 3 4, ret.
  cbn [disk sequence process_id fates] in *.
  set (n := unique_name "pending" "tmp" pid sq). assert (state_generation n = None) as Hn by (by apply unique_no_state).
  clearbody n. set (w1 := mkWorld _ _ _ _). assert (hold s (disk w1) /\ is_Some (disk w1 !! dir)) as H1 by done.
  clearbody w1. clear Hd Hi. revert w1 H1.
  match goal with |- forall w1, _ -> match ?m w1 with _ => _ end =>
    enough (triple (fun d => hold s d /\ is_Some (d !! dir)) m
      (fun r d => match r with Ok (Ok _) => retained (committed s1) d | _ => either_state s s1 d end)
      (either_state s s1)) as Ht by exact Ht end.
  apply (triple_rbind _ _ _ (fun _ d => hold s d /\ is_Some (d !! dir))).
  { apply triple_io, triple_syscall; [|by intros d k [Hd _]; split; left]. intros d [Hd [m Hm]].
    cbn [fst]. rewrite Hm. destruct (is_some _); [by left|].
    split; [by apply hold_write|]. apply is_dir_write. by exists m. }
  intros _. apply (triple_rbind _ _ _ (fun _ d => (hold s d /\ is_Some (d !! dir)) /\ read_path d (dir, n) = Some b)).
  { apply triple_io, triple_syscall.
    - intros d [Hd Hi]. split; [split; [by apply hold_write|by apply is_dir_write]|]. by apply read_write_eq.
    - intros d k [Hd _]. split; left; by apply hold_write. }
  intros _. apply (triple_rbind _ _ _ (fun _ d => hold (committed s1) d /\ is_Some (d !! dir))).
  { apply triple_io, triple_syscall; [|by intros d k [[Hd _] _]; split; left]. intros d [[Hd Hi] Hr]. rewrite Hr.
    split; [apply (rename_state d s); try done; cbn; lia|]. apply is_dir_write. by apply is_dir_remove. }
  intros _. apply (triple_rbind _ _ _ (fun _ d => hold (committed s1) d /\ is_Some (d !! dir))).
  { apply triple_io. eapply triple_weaken; [apply (nothing_triple (fun d => hold (committed s1) d /\ is_Some (d !! dir)))|done| |].
    - intros [u|e] d [Hd Hi]; [done|by right].
    - intros d [Hd _]. by right. }
  intros _. eapply triple_weaken; [apply (prune_triple (committed s1))|done| |by right].
  intros [[u|e]|e] d [Hh Hr]; [done|by right|by right].
Qed.
End Runs.

(** ** The operations as transactions

    What an operation does to the state it finds: its answer, and the state to
    commit if there is one. *)
Inductive Update :=
| Prepare (schema : N) (limits : StorageLimits)
| Put (key : string) (value : bytes) (limits : StorageLimits)
| Delete (key : string)
| CompareExchange (expected_revision : N) (key : string) (expected replacement : option bytes) (limits : StorageLimits)
| ApplyBatch (expected_revision : N) (mutations : list StorageMutation) (limits : StorageLimits).
Definition answer (u : Update) : Type :=
  match u with
  | Prepare _ _ | Put _ _ _ => unit
  | Delete _ => bool
  | CompareExchange _ _ _ _ _ | ApplyBatch _ _ _ => StorageTransactionResult
  end.

(** The checks before the namespace is opened. *)
Definition precheck (u : Update) : Result unit :=
  match u with
  | Prepare _ limits => validate_limits limits
  | Put key value limits =>
      let? _ := validate_key key in
      let? _ := validate_limits limits in
      if limits.(max_value_bytes) <? len value then Err (ValueTooLarge (len value) limits.(max_value_bytes)) else Ok tt
  | Delete key => validate_key key
  | CompareExchange _ key expected replacement limits => validate_compare_exchange key expected replacement limits
  | ApplyBatch _ mutations limits => validate_mutations mutations limits
  end.

Definition next_put (s : State) (key : string) (value : bytes) (limits : StorageLimits) :
    Result (unit * option State) :=
  if bool_decide (s.(st_entries) !! key = Some value) then Ok (tt, None)
  else
    let? next_bytes :=
      ok_or (match checked_sub s.(st_usage).(usage_bytes) (opt_len (s.(st_entries) !! key)) with
             | Some bytes => checked_add usize_max bytes (len value)
             | None => None
             end) (QuotaExceeded usize_max limits.(max_bytes)) in
    if limits.(max_bytes) <? next_bytes then Err (QuotaExceeded next_bytes limits.(max_bytes))
    else if is_none (s.(st_entries) !! key) && (limits.(max_keys) <=? btree_len s.(st_entries))
    then Err (KeyLimitExceeded limits.(max_keys))
    else
      let entries := <[key := value]> s.(st_entries) in
      Ok (tt, Some (mkState s.(st_generation) s.(st_schema) entries (mkUsage next_bytes (btree_len entries)))).

Definition next_commit (s : State) (mutations : list StorageMutation) (limits : StorageLimits) :
    Result (StorageTransactionResult * option State) :=
  let? revision := if mutations_change s.(st_entries) mutations
                   then next_revision s.(st_generation) else Ok s.(st_generation) in
  let? (entries, usage, changed) := apply_mutations s.(st_entries) s.(st_usage) mutations limits in
  if changed : bool
  then Ok (mkTxResult true revision, Some (mkState s.(st_generation) s.(st_schema) entries usage))
  else Ok (mkTxResult true s.(st_generation), None).

Definition next (u : Update) (s : State) : Result (answer u * option State) :=
  match u with
  | Prepare schema limits =>
      if s.(st_generation) =? 0
      then Ok (tt, Some (mkState s.(st_generation) schema s.(st_entries) s.(st_usage)))
      else if negb (s.(st_schema) =? schema) then Err (SchemaMismatch schema s.(st_schema))
      else let? _ := validate_entry_limits s.(st_entries) limits in Ok (tt, None)
  | Put key value limits => next_put s key value limits
  | Delete key =>
      match s.(st_entries) !! key with
      | None => Ok (false, None)
      | Some value =>
          let entries := delete key s.(st_entries) in
          Ok (true, Some (mkState s.(st_generation) s.(st_schema) entries
                            (mkUsage (wrapping_sub usize_max s.(st_usage).(usage_bytes) (len value)) (btree_len entries))))
      end
  | CompareExchange expected_revision key expected replacement limits =>
      if negb (s.(st_generation) =? expected_revision) || negb (bool_decide (s.(st_entries) !! key = expected))
      then Ok (mkTxResult false s.(st_generation), None)
      else next_commit s [mkMutation key replacement] limits
  | ApplyBatch expected_revision mutations limits =>
      if negb (s.(st_generation) =? expected_revision) then Ok (mkTxResult false s.(st_generation), None)
      else next_commit s mutations limits
  end.

Section Transact.
Context `{Ext : Externals} `{Hex : HexDecode} `{JD : !Json DiskPayload} `{JEn : !Json DiskEnvelope}
  `{DEn : !JsonDecode DiskEnvelope}.

Definition exec (ns : string) (u : Update) : IOR (answer u) :=
  match u with
  | Prepare schema limits => D.prepare ns schema limits
  | Put key value limits => D.put ns key value limits
  | Delete key => D.delete ns key
  | CompareExchange revision key expected replacement limits =>
      D.compare_exchange ns revision key expected replacement limits
  | ApplyBatch revision mutations limits => D.apply_batch ns revision mutations limits
  end.

Definition transact {A : Type} (ns : string) (pre : Result unit) (f : State -> Result (A * option State)) : IOR A :=
  pure_ pre ;;!
  with_namespace ns (fun dir =>
    io (cleanup_pending dir) ;;!
    try? s := load dir ns in
    try? (a, next) := pure_ (f s) in
    (match next with None => pure_ (Ok tt) | Some s' => commit_state dir ns s' end) ;;!
    pure_ (Ok a)).

(** Equality of runs *)
Definition same_run {A : Type} (m m' : IO A) : Prop := forall w, m w = m' w.
#[global] Instance same_run_equiv {A : Type} : Equivalence (@same_run A).
Proof. split; [by intros m w|by intros m m' H w|intros m1 m2 m3 H1 H2 w; by rewrite H1]. Qed.

Lemma same_rbind {A B : Type} (m m' : IOR A) (k k' : A -> IOR B) :
  same_run m m' -> (forall a, same_run (k a) (k' a)) -> same_run (rbind m k) (rbind m' k').
Proof.
  intros Hm Hk w. unfold rbind, bind. rewrite (Hm w). destruct (m' w) as [w' [[[a|e]|e]|]]; [apply Hk|done..].
Qed.
Lemma same_namespace {A : Type} ns (k k' : string -> IOR A) :
  (forall dir, same_run (k dir) (k' dir)) -> same_run (with_namespace ns k) (with_namespace ns k').
Proof. intros Hk. unfold with_namespace. repeat (apply same_rbind; [done|intros _]). apply Hk. Qed.
Lemma rbind_tt (m : IOR unit) : same_run (m ;;! pure_ (Ok tt)) m.
Proof. intros w. unfold rbind, bind, pure_, ret. by destruct (m w) as [w' [[[[]|e]|e]|]]. Qed.

Lemma pure_ok {A B : Type} (a : A) (k : A -> IOR B) : same_run (rbind (pure_ (Ok a)) k) (k a).
Proof. done. Qed.
Lemma pure_err {A B : Type} e (k : A -> IOR B) : same_run (rbind (pure_ (Err e)) k) (pure_ (Err e)).
Proof. done. Qed.

(** After the checks, the namespace is opened, cleaned and loaded. *)
Lemma same_opened {A : Type} ns (pre : Result unit) (k k' : string -> State -> IOR A) :
  (forall dir s, same_run (k dir s) (k' dir s)) ->
  same_run (pure_ pre ;;! with_namespace ns (fun dir => io (cleanup_pending dir) ;;! try? s := load dir ns in k dir s))
    (pure_ pre ;;! with_namespace ns (fun dir => io (cleanup_pending dir) ;;! try? s := load dir ns in k' dir s)).
Proof.
  intros Hk. apply same_rbind; [done|intros _]. apply same_namespace. intros dir.
  apply same_rbind; [done|intros _]. apply same_rbind; [done|]. apply Hk.
Qed.

Lemma same_commit dir ns s ms limits :
  same_run (D.commit dir ns s ms limits)
    (try? (a, next) := pure_ (next_commit s ms limits) in
     (match next with None => pure_ (Ok tt) | Some s' => commit_state dir ns s' end) ;;! pure_ (Ok a)).
Proof.
  unfold D.commit, next_commit. destruct (if mutations_change _ _ then _ else _) as [rv|e]; [|done].
  destruct (apply_mutations _ _ _ _) as [[[m u] c]|e]; [|done]. by destruct c.
Qed.

Lemma exec_transact ns u : same_run (exec ns u) (transact ns (precheck u) (next u)).
Proof.
  destruct u as [schema limits|key value limits|key|er key ex rep limits|er ms limits]; unfold transact; cbn [exec precheck next answer].
  - apply same_opened. intros dir s. destruct (_ =? 0); [symmetry; apply rbind_tt|].
    destruct (negb _); [done|]. by destruct (validate_entry_limits _ _).
  - unfold D.put. destruct (validate_key key) as [[]|]; [|done]. destruct (validate_limits limits) as [[]|]; [|done].
    destruct (_ <? len value); [done|]. etransitivity; [|symmetry; apply (pure_ok tt)].
    etransitivity; [apply pure_ok|]. etransitivity; [apply pure_ok|]. apply same_namespace. intros dir.
    apply same_rbind; [done|intros _]. apply same_rbind; [done|]. intros s. unfold next_put.
    destruct (bool_decide _); [done|]. destruct (ok_or _ _) as [nb|]; [|done].
    etransitivity; [apply pure_ok|]. destruct (_ <? nb); [done|]. destruct (_ && _); [done|].
    symmetry. apply rbind_tt.
  - apply same_opened. intros dir s. by destruct (st_entries s !! key).
  - apply same_opened. intros dir s. destruct (_ || _); [done|]. apply same_commit.
  - apply same_opened. intros dir s. destruct (negb _); [done|]. apply same_commit.
Qed.
End Transact.

(** ** The states an update commits *)
Lemma storable_batch m ms :
  storable m -> NoDup (mut_key <$> ms) ->
  Forall (fun mu => validate_key (mut_key mu) = Ok tt /\ opt_len (mut_value mu) <= MAX_STORAGE_VALUE_BYTES) ms ->
  entries_bytes (write_mutations m ms) <= MAX_STORAGE_BYTES -> btree_len (write_mutations m ms) <= MAX_STORAGE_KEYS ->
  storable (write_mutations m ms).
Proof.
  intros [Hk Hw] Hnd Hms Hb Hl. split.
  - intros k v. rewrite write_mutations_lookup by done. unfold batch_lookup.
    destruct (List.find _ ms) as [mu|] eqn:Hf; [|apply Hk].
    apply List.find_some in Hf as [Hin Hmu]. bprop. intros _. rewrite Forall_forall in Hms.
    subst k. apply Hms. by apply list_elem_of_In.
  - apply within_batch; try done. eapply Forall_impl; [done|]. by intros mu [_ ?].
Qed.

Lemma next_put_ok s key value limits s' :
  precheck (Put key value limits) = Ok tt -> state_ok s -> next_put s key value limits = Ok (tt, Some s') ->
  state_ok s' /\ s'.(st_generation) = s.(st_generation).
Proof.
  cbn [precheck]. destruct (validate_key key) as [[]|] eqn:Hk; [|done].
  destruct (validate_limits limits) as [[]|] eqn:Hl; [|done]. apply validate_limits_spec in Hl. unfold limits_ok in Hl.
  destruct (N.ltb_spec (max_value_bytes limits) (len value)) as [|Hv]; [done|]. intros _ [Hs Hu]. unfold next_put.
  destruct (bool_decide _); [done|]. rewrite Hu. cbn [usage_bytes]. unfold ok_or.
  destruct (checked_sub _ _) as [t|] eqn:Ht; [|done]. apply checked_sub_Some in Ht as [-> Ht].
  destruct (checked_add _ _ _) as [nb|] eqn:Hnb; [|done]. apply checked_add_Some in Hnb as [-> Hnb].
  set (m := st_entries s) in *. destruct (N.ltb_spec (max_bytes limits) (entries_bytes m - opt_len (m !! key) + len value)) as [|Hq]; [done|].
  destruct (is_none (m !! key) && (max_keys limits <=? btree_len m)) eqn:Hkl; [done|]. intros [= <-]. split; [|done].
  pose proof (entries_bytes_write m key (Some value)) as Eb. pose proof (btree_len_write m key (Some value)) as El.
  cbn in Eb, El.
  assert (entries_bytes (<[key := value]> m) = entries_bytes m - opt_len (m !! key) + len value) as Hbytes by lia.
  split; cbn [st_entries st_usage]; [|by rewrite Hbytes].
  change (<[key := value]> m) with (write_mutations m [mkMutation key (Some value)]) in *.
  apply storable_batch; try done.
  - apply NoDup_singleton.
  - apply Forall_singleton. split; [done|]. cbn. lia.
  - lia.
  - destruct Hs as [_ (Hn & _)]. cbn in Hn. fold m in Hn.
    destruct (m !! key); cbn [is_none is_some negb andb] in Hkl, El; [lia|]. apply N.leb_gt in Hkl. lia.
Qed.

Lemma next_commit_ok s ms limits a s' :
  validate_mutations ms limits = Ok tt -> state_ok s -> next_commit s ms limits = Ok (a, Some s') ->
  state_ok s' /\ s'.(st_generation) = s.(st_generation).
Proof.
  intros Hms [Hs Hu]. apply validate_mutations_spec in Hms as (Hl & Hnd & Hms & Hin).
  apply validate_limits_spec in Hl. pose proof Hl as Hl'. unfold limits_ok in Hl'. pose proof (batch_input_bound ms).
  unfold next_commit. destruct (if mutations_change _ _ then _ else _); [|done]. rewrite Hu.
  destruct (apply_mutations _ _ _ _) as [[[m u] c]|] eqn:Ha; [|done]. destruct Hs as [Hk (Hn & Hb & Hv)]. cbn in Hn, Hb.
  apply apply_mutations_iff in Ha as (-> & -> & _ & Hb' & Hl''); try done; [|lia].
  destruct c; [|done]. intros [= <- <-]. split; [|done]. split; [|done]. apply storable_batch; try done; [|lia..].
  eapply Forall_impl; [exact Hms|]. intros mu [? ?]. split; [done|lia].
Qed.

Lemma next_ok u s a s' :
  precheck u = Ok tt -> state_ok s -> next u s = Ok (a, Some s') -> state_ok s' /\ s'.(st_generation) = s.(st_generation).
Proof.
  destruct u as [schema limits|key value limits|key|er key ex rep limits|er ms limits]; cbn [next answer] in *.
  - intros _ Hs. destruct (_ =? 0); [by intros [= <- <-]|]. destruct (negb _); [done|]. by destruct (validate_entry_limits _ _).
  - destruct a. apply next_put_ok.
  - cbn [precheck]. intros Hk [Hs Hu]. destruct (st_entries s !! key) as [v|] eqn:Hv; [|done]. intros [= <- <-].
    split; [|done]. pose proof (entries_bytes_delete _ _ _ Hv) as Eb. pose proof (btree_len_delete _ _ _ Hv) as El.
    pose proof Hs as [_ (Hn & Hb & _)]. cbn in Hn, Hb, El. rewrite Hu. cbn [usage_bytes].
    rewrite wrapping_sub_small; [| |unfold usize_max, u64_max, MAX_STORAGE_BYTES in *]; [|lia..].
    split; [|cbn; f_equal; lia]. cbn [st_entries].
    change (delete key (st_entries s)) with (write_mutations (st_entries s) [mkMutation key None]) in *.
    apply storable_batch; try done; [apply NoDup_singleton| |lia..]. apply Forall_singleton. split; [done|]. cbn. vm_compute. done.
  - cbn [precheck]. intros Hp Hs. destruct (_ || _); [done|]. apply next_commit_ok; [|done]. by eapply compare_exchange_mutations.
  - cbn [precheck]. intros Hp Hs. destruct (negb _); [done|]. by apply next_commit_ok.
Qed.

(** ** Crash safety of a transaction *)
Section Landing.
Context `{Ext : Externals} `{Hex : HexDecode} `{JD : !Json DiskPayload} `{JEn : !Json DiskEnvelope}
  `{DEn : !JsonDecode DiskEnvelope} `{RTEn : !JsonRoundTrip DiskEnvelope}.

(** The namespace holds [s] and no other directory changed since [d0]. *)
Definition holds (d0 : Disk) (ns : string) (s : State) (d : Disk) : Prop :=
  hold d0 (namespace_directory ns) ns s d.
Definition settle (s : State) (next : option State) : State := from_option committed s next.

(** Where a transaction [f] on [s] can leave the disk: an answer is the answer
    of [f], with its state committed; an error or the death of the process
    leaves the old state or the new one. *)
Definition landed {A : Type} (d0 : Disk) (ns : string) (pre : Result unit) (f : State -> Result (A * option State))
    (s : State) (o : Files.outcome (Result A)) (d : Disk) : Prop :=
  match o with
  | Done (Ok (Ok a)) => pre = Ok tt /\ exists next, f s = Ok (a, next) /\ holds d0 ns (settle s next) d
  | Done (Ok (Err _)) | Done (Err _) | Died =>
      holds d0 ns s d \/ exists a s', pre = Ok tt /\ f s = Ok (a, Some s') /\ holds d0 ns (committed s') d
  end.

Lemma load_triple d0 dir ns s :
  triple (fun d => hold d0 dir ns s d /\ is_Some (d !! dir)) (load dir ns)
    (fun r d => r = Ok (Ok s) /\ hold d0 dir ns s d /\ is_Some (d !! dir)) (hold d0 dir ns s).
Proof.
  intros w [[Ho Hl] [m Hm]]. unfold load, rbind, io, read_dir, bind, pure_, ret. rewrite Hm in *. cbn in Hl |- *.
  rewrite Hl. split; [done|]. split; [split; [done|by rewrite Hm]|by exists m].
Qed.

Lemma transact_triple {A : Type} d0 ns pre (f : State -> Result (A * option State)) s :
  (forall a s', pre = Ok tt -> f s = Ok (a, Some s') ->
     state_ok s' /\ s.(st_generation) <= s'.(st_generation) /\ fits ns s') ->
  triple (holds d0 ns s) (transact ns pre f) (fun r => landed d0 ns pre f s (Done r)) (landed d0 ns pre f s Died).
Proof.
  intros Hf. unfold transact. apply triple_pure_bind; [intros e d _ Hd; by left|]. intros [] Hpre. unfold with_namespace.
  apply triple_pure_bind; [intros e d _ Hd; by left|]. intros _ _. cbn zeta. set (dir := namespace_directory ns).
  apply (open_triple dir (hold d0 dir ns s)); [apply hold_new|intros d n c; apply hold_write|..].
  { intros [[a|e]|e] d Hd Hr; [done|by left|by left]. }
  { intros d Hd. by left. }
  apply (triple_rbind _ _ _ (fun _ d => hold d0 dir ns s d /\ is_Some (d !! dir))).
  { apply triple_io. eapply triple_weaken; [apply (cleanup_triple d0 dir ns s)|done| |by intros d Hd; left].
    intros [n|e] d [Hd Hi]; [done|by left]. }
  intros _. apply (triple_rbind _ _ _ (fun s1 d => s1 = s /\ hold d0 dir ns s d /\ is_Some (d !! dir))).
  { eapply triple_weaken; [apply (load_triple d0 dir ns s)|done| |by intros d Hd; left].
    intros r d [-> Hd]. done. }
  intros s1 w [-> Hw]. revert w Hw.
  match goal with |- forall w, _ -> match ?m w with _ => _ end =>
    enough (triple (fun d => hold d0 dir ns s d /\ is_Some (d !! dir)) m
      (fun r => landed d0 ns pre f s (Done r)) (landed d0 ns pre f s Died)) as Ht by exact Ht end.
  apply triple_pure_bind; [by intros e d _ [Hd _]; left|]. intros [a [s'|]] Hs.
  - destruct (Hf a s' Hpre Hs) as (Hok & Hge & Hfit).
    apply (triple_rbind _ _ _ (fun _ d => hold d0 dir ns (committed s') d)).
    + eapply triple_weaken; [apply (commit_triple d0 dir ns s s'); done|done| |].
      * intros [[u|e]|e] d.
        -- by intros (fs & [Hd _] & _).
        -- intros [Hd|Hd]; [by left|right; by exists a, s'].
        -- intros [Hd|Hd]; [by left|right; by exists a, s'].
      * intros d [Hd|Hd]; [by left|right; by exists a, s'].
    + intros _. apply triple_ret. intros d Hd. split; [done|]. by exists (Some s').
  - apply triple_pure_bind; [done|]. intros _ _. apply triple_ret. intros d [Hd _]. split; [done|]. by exists None.
Qed.

Lemma holds_run {A : Type} d0 ns pre (f : State -> Result (A * option State)) s (m : IOR A) w w' o :
  same_run m (transact ns pre f) -> holds d0 ns s (disk w) ->
  (forall a s', pre = Ok tt -> f s = Ok (a, Some s') ->
     state_ok s' /\ s.(st_generation) <= s'.(st_generation) /\ fits ns s') ->
  m w = (w', o) -> landed d0 ns pre f s o (disk w').
Proof.
  intros Hm Hd Hf Hr. pose proof (transact_triple d0 ns pre f s Hf w Hd) as Ht. rewrite <- Hm, Hr in Ht.
  by destruct o.
Qed.

(** C18: Updates of the directory backend are atomic and durable.  Whatever
    system calls fail and wherever the process dies, prepare, put, delete,
    compare_exchange and apply_batch leave a directory that loads as the old
    state or as the state the update computes, one generation later; an
    operation that answers has given the answer of that computation and
    committed it, and nothing outside the directory of the namespace changed. *)
Theorem directory_update_survives_crash (ns : string) (u : Update) (s : State) (w w' : World)
    (o : Files.outcome (Result (answer u))) :
  load_state (default ∅ (disk w !! namespace_directory ns)) ns = Ok s ->
  (forall a s', next u s = Ok (a, Some s') -> fits ns s') ->
  exec ns u w = (w', o) -> landed (disk w) ns (precheck u) (next u) s o (disk w').
Proof.
  intros Hl Hfit Hr. refine (holds_run _ _ _ _ _ _ _ _ _ (exec_transact ns u) _ _ Hr); [by split|].
  intros a s' Hp Hn. destruct (next_ok u s a s' Hp (load_state_ok _ _ _ Hl) Hn) as [Hok ->].
  split_and!; [done..|by eapply Hfit].
Qed.
End Landing.

(** ** The directory backend against the in-memory one *)

(** A namespace in memory with the content of a state. *)
Definition represents (s : State) (n : Namespace) : Prop :=
  n = mkNamespace s.(st_schema) s.(st_generation) s.(st_entries) s.(st_usage).(usage_bytes)
  /\ s.(st_usage).(usage_keys) = btree_len s.(st_entries).

Definition memory_exec (st : MemoryStorage) (ns : string) (u : Update) : MemoryStorage * Result (answer u) :=
  match u with
  | Prepare schema limits => MemoryBackend.prepare st ns schema limits
  | Put key value limits => MemoryBackend.put st ns key value limits
  | Delete key => MemoryBackend.delete st ns key
  | CompareExchange revision key expected replacement limits =>
      MemoryBackend.compare_exchange st ns revision key expected replacement limits
  | ApplyBatch revision mutations limits => MemoryBackend.apply_batch st ns revision mutations limits
  end.
(** [prepare] of a directory starts at generation one, in memory at revision zero. *)
Definition is_prepare (u : Update) : bool := match u with Prepare _ _ => true | _ => false end.

Lemma next_revision_Ok r : r < u64_max -> next_revision r = Ok (r + 1).
Proof.
  intros Hr. unfold next_revision, ok_or. destruct (checked_add _ _ _) eqn:E; [by apply checked_add_Some in E as [-> _]|].
  apply checked_add_None in E. lia.
Qed.

Lemma apply_mutations_changed m u ms limits m' u' c :
  NoDup (mut_key <$> ms) -> apply_mutations m u ms limits = Ok (m', u', c) ->
  c = mutations_change m ms /\ (c = false -> m' = m /\ u' = u).
Proof.
  intros Hnd. unfold apply_mutations. destruct (count_mutations _ _ _ _) as [d|] eqn:Hd; [|done].
  apply (count_mutations_spec m m) in Hd as [_ Hc]; [|done|by apply Forall_forall]. cbn in Hc.
  destruct (ok_or _ _); [|done]. destruct (ok_or _ _); [|done]. pass H1. pass H2. rewrite Hc.
  destruct (mutations_change m ms); intros [= <- <- <-]; done.
Qed.

(** The namespace an update leaves in memory. *)
Definition memory_next (n : Namespace) (next : option State) : Namespace :=
  from_option (fun s' => mkNamespace s'.(st_schema) (s'.(st_generation) + 1) s'.(st_entries) s'.(st_usage).(usage_bytes))
    n next.

Lemma commit_memory st ns s n ms limits :
  represents s n -> s.(st_generation) < u64_max -> NoDup (mut_key <$> ms) ->
  MemoryBackend.commit (MemoryBackend.set_namespace st ns n) ns n ms limits =
  match next_commit s ms limits with
  | Ok (a, next) => (MemoryBackend.set_namespace st ns (memory_next n next), Ok a)
  | Err e => (MemoryBackend.set_namespace st ns n, Err e)
  end.
Proof.
  intros [-> Hk] Hg Hnd. unfold MemoryBackend.commit, next_commit.
  cbn [ns_bytes ns_entries ns_revision state_schema]. rewrite <- Hk.
  replace (mkUsage (usage_bytes (st_usage s)) (usage_keys (st_usage s))) with (st_usage s) by (by destruct (st_usage s)).
  rewrite next_revision_Ok by done. set (mc := mutations_change _ _).
  destruct (apply_mutations _ _ _ _) as [[[m u] c]|e] eqn:Ha.
  - apply apply_mutations_changed in Ha as [Hc Hu]; [|done]. fold mc in Hc. rewrite <- Hc.
    destruct c; rewrite set_namespace_twice; [done|]. by destruct (Hu eq_refl) as [-> ->].
  - by destruct mc.
Qed.

Lemma memory_exec_next st ns s u :
  is_prepare u = false -> poisoned st = false -> validate_namespace ns = Ok tt -> precheck u = Ok tt ->
  represents s (MemoryBackend.entry_or_default st ns) -> s.(st_generation) < u64_max ->
  match next u s with
  | Ok (a, next) => exists st', memory_exec st ns u = (st', Ok a) /\ poisoned st' = false
      /\ MemoryBackend.entry_or_default st' ns = memory_next (MemoryBackend.entry_or_default st ns) next
  | Err e => exists st', memory_exec st ns u = (st', Err e) /\ poisoned st' = false
      /\ MemoryBackend.entry_or_default st' ns = MemoryBackend.entry_or_default st ns
  end.
Proof.
  intros Hu Hp Hns Hpre Hr Hg. pose proof Hr as [Hn Hk]. set (n := MemoryBackend.entry_or_default st ns) in *.
  assert (forall n', MemoryBackend.entry_or_default (MemoryBackend.set_namespace st ns n') ns = n') as Hset
    by apply view_set_eq.
  destruct u as [schema limits|key value limits|key|er key ex rep limits|er ms limits]; [done|..]; cbn [next memory_exec answer precheck] in *.
  - unfold MemoryBackend.put, next_put. rewrite Hns. destruct (validate_key key) as [[]|]; [|done].
    destruct (validate_limits limits) as [[]|]; [|done]. destruct (_ <? len value); [done|].
    unfold MemoryBackend.lock. rewrite Hp. cbn zeta. fold n. rewrite Hn. cbn [ns_entries ns_bytes ns_revision state_schema].
    destruct (bool_decide _); [eauto|]. destruct (ok_or _ _) as [nb|e]; [|eauto].
    destruct (_ <? nb); [eauto|]. destruct (_ && _); [eauto|]. rewrite next_revision_Ok by done.
    rewrite set_namespace_twice. eauto.
  - unfold MemoryBackend.delete. rewrite Hns, Hpre. unfold MemoryBackend.lock. rewrite Hp.
    destruct (namespaces st !! ns) as [n0|] eqn:Hl.
    + assert (n0 = n) as -> by (unfold n, MemoryBackend.entry_or_default; by rewrite Hl).
      assert (ns_entries n = st_entries s /\ ns_revision n = st_generation s /\ state_schema n = st_schema s
              /\ ns_bytes n = usage_bytes (st_usage s)) as (-> & -> & -> & ->) by (by rewrite Hn). destruct (st_entries s !! key) as [v|]; [|eauto].
      rewrite next_revision_Ok by done. eauto.
    + assert (n = default_namespace) as Hd by (unfold n, MemoryBackend.entry_or_default; by rewrite Hl).
      rewrite Hd in Hn. injection Hn as _ _ <- _. rewrite lookup_empty. eauto.
  - unfold MemoryBackend.compare_exchange. rewrite Hpre, Hns. unfold MemoryBackend.lock. rewrite Hp. cbn zeta. fold n.
    assert (ns_revision n = st_generation s /\ ns_entries n = st_entries s) as [-> ->] by (by rewrite Hn).
    destruct (_ || _); [eauto|]. rewrite (commit_memory st ns s n) by (try done; apply NoDup_singleton).
    destruct (next_commit _ _ _) as [[a nx]|e]; eauto.
  - unfold MemoryBackend.apply_batch. rewrite Hpre, Hns. unfold MemoryBackend.lock. rewrite Hp. cbn zeta. fold n.
    assert (ns_revision n = st_generation s) as -> by (by rewrite Hn).
    destruct (negb _); [eauto|]. apply validate_mutations_spec in Hpre as (_ & Hnd & _).
    rewrite (commit_memory st ns s n) by done. destruct (next_commit _ _ _) as [[a nx]|e]; eauto.
Qed.

(** ** Undisturbed runs *)
Lemma btree_keys_elem {V : Type} (m : gmap string V) k : k ∈ btree_keys m <-> is_Some (m !! k).
Proof.
  unfold btree_keys. rewrite list_elem_of_fmap. split.
  - intros ([k' v] & -> & Hin). exists v. by apply btree_iter_elem.
  - intros [v Hk]. exists (k, v). split; [done|]. by apply btree_iter_elem.
Qed.
Lemma split_on_app c a b : split_on c (a +:+ String c b) = split_on c a ++ split_on c b.
Proof.
  induction a as [|x a IH].
  - change ("" +:+ String c b) with (String c b). cbn [split_on]. by rewrite bool_decide_eq_true_2.
  - rewrite app_cons_str. cbn [split_on]. rewrite IH. case_bool_decide; [done|].
    destruct (split_on c a) eqn:Hs; [by apply split_on_ne in Hs|done].
Qed.
Lemma extension_app a b : a <> "" -> split_on "." b = [b] -> extension (a +:+ "." +:+ b) = Some b.
Proof.
  intros Ha Hb. unfold extension. change ("." +:+ b) with (String "." b). rewrite split_on_app, Hb.
  destruct (split_on "." a) as [|x l] eqn:Hs; [by apply split_on_ne in Hs|].
  destruct l as [|y l].
  2: { assert (last (x :: y :: l ++ [b]) = Some b) as <- by apply (last_snoc b (x :: y :: l)).
       destruct x; [|done]. by destruct l. }
  destruct x; [|done]. exfalso. destruct a as [|c a]; [done|]. cbn [split_on] in Hs.
  case_bool_decide; [injection Hs as Hs; by apply split_on_ne in Hs|].
  by destruct (split_on "." a).
Qed.
Lemma unique_pending p q : is_pending (unique_name "pending" "tmp" p q) = true.
Proof.
  unfold is_pending. apply andb_true_iff. split.
  - unfold unique_name. rewrite app_assoc_str. unfold starts_with. apply (prefix_app "pending-").
  - unfold unique_name. rewrite !app_assoc_str. rewrite <- (app_assoc_str _ "." "tmp"). by rewrite extension_app.
Qed.

Lemma clean_io {A : Type} P (m : IO A) (Q : Result A -> World -> Prop) :
  clean P m (fun a => Q (Ok a)) -> clean P (io m) Q.
Proof. intros Hm w Hf Hw. destruct (Hm w Hf Hw) as (w' & a & Hr & ? & ?). exists w', (Ok a). unfold io, bind. by rewrite Hr. Qed.
Lemma clean_rbind {A B : Type} P (m : IOR A) (k : A -> IOR B) R Q :
  clean P m (fun r w => exists a, r = Ok a /\ R a w) -> (forall a, clean (R a) (k a) Q) -> clean P (rbind m k) Q.
Proof.
  intros Hm Hk. unfold rbind. apply (clean_bind _ _ _ (fun r w => exists a, r = Ok a /\ R a w)); [done|].
  intros r w Hf (a & -> & Hw). by apply Hk.
Qed.
(** A step whose value is not used. *)
Lemma clean_then {A B : Type} (P : World -> Prop) (m : IO A) (k : IOR B) (R : World -> Prop) Q :
  clean P m (fun _ => R) -> clean R k Q -> clean P (io m ;;! k) Q.
Proof.
  intros Hm Hk. apply (clean_rbind _ _ _ (fun _ => R)); [|done]. apply clean_io.
  eapply clean_weaken; [exact Hm|done|]. intros a w Hw. by exists a.
Qed.
Lemma clean_nothing (P : Disk -> Prop) : clean (fun w => P (disk w)) sync_all (fun _ w => P (disk w)).
Proof. apply clean_syscall. intros w Hw. by exists (disk w), tt. Qed.

Section Clean.
Context `{Ext : Externals} `{Hex : HexDecode} `{JD : !Json DiskPayload} `{JEn : !Json DiskEnvelope}
  `{DEn : !JsonDecode DiskEnvelope} `{RTEn : !JsonRoundTrip DiskEnvelope}.
Variables (d0 : Disk) (dir ns : string).

(** Every file of a list is there to be removed. *)
Lemma clean_remove_files d names :
  NoDup names -> is_Some (d !! dir) -> (forall n, n ∈ names -> read_path d (dir, n) <> None) ->
  clean (fun w => disk w = d) (remove_files dir names)
    (fun _ w => is_Some (disk w !! dir) /\ (forall x, x <> dir -> disk w !! x = d !! x)
                /\ forall n, read_path (disk w) (dir, n) = if bool_decide (n ∈ names) then None else read_path d (dir, n)).
Proof.
  revert d. induction names as [|n names IH]; intros d Hnd Hi Hall; cbn [remove_files].
  { eapply clean_weaken; [apply (clean_ret (fun w => disk w = d) tt)|done|]. intros [] w [_ Hw]. rewrite Hw. done. }
  apply NoDup_cons in Hnd as [Hn Hnd]. set (d1 := remove_path d (dir, n)).
  apply (clean_bind _ _ _ (fun _ w => disk w = d1)).
  { apply clean_syscall. intros w ->. assert (is_some (read_path d (dir, n)) = true) as ->.
    { specialize (Hall n ltac:(by left)). by destruct (read_path d (dir, n)). }
    by exists d1, tt. }
  intros _. eapply clean_weaken; [apply (IH d1); [done|by apply is_dir_remove|]|done|].
  - intros n' Hn'. unfold d1. rewrite read_remove_ne; [apply Hall; by right|]. intros [= ->]. done.
  - intros _ w (Hi' & Ho & Hr). split; [done|]. split.
    + intros x Hx. rewrite Ho by done. by apply dir_remove.
    + intros n'. rewrite Hr. destruct (decide (n' = n)) as [->|Hne].
      * rewrite bool_decide_eq_false_2, bool_decide_eq_true_2 by set_solver. apply read_remove_eq.
      * rewrite (bool_decide_ext (n' ∈ n :: names) (n' ∈ names)) by set_solver. destruct (bool_decide _); [done|].
        apply read_remove_ne. congruence.
Qed.

(** The directory is there and holds no pending file. *)
Definition tidy (s : State) (d : Disk) : Prop :=
  hold d0 dir ns s d /\ is_Some (d !! dir) /\ forall n, is_pending n = true -> read_path d (dir, n) = None.

Lemma listing_readable (d : Disk) m n : d !! dir = Some m -> n ∈ btree_keys m <-> read_path d (dir, n) <> None.
Proof.
  intros Hm. rewrite btree_keys_elem. unfold read_path. cbn [fst snd]. rewrite Hm. cbn. rewrite <- not_eq_None_Some. done.
Qed.

Lemma clean_cleanup s :
  clean (fun w => hold d0 dir ns s (disk w) /\ is_Some (disk w !! dir)) (cleanup_pending dir) (fun _ w => tidy s (disk w)).
Proof.
  intros w Hf [Hd [m Hm]]. unfold cleanup_pending, bind at 1, read_dir. rewrite Hm. cbn [ok_or].
  set (names := List.filter is_pending (btree_keys m)).
  assert (forall n, n ∈ names <-> n ∈ btree_keys m /\ is_pending n = true) as Hnames.
  { intros n. unfold names. rewrite !list_elem_of_In. apply List.filter_In. }
  refine (clean_bind (fun w' => disk w' = disk w) _ _ (fun _ w' => tidy s (disk w')) _ _ _ w Hf eq_refl).
  - eapply clean_weaken; [apply (clean_remove_files (disk w) names)|done|].
    + apply NoDup_ListNoDup, List.NoDup_filter, NoDup_ListNoDup, btree_keys_NoDup.
    + by exists m.
    + intros n Hn. apply Hnames in Hn as [Hn _]. by apply (listing_readable _ m).
    + intros _ w' (Hi & Ho & Hr). split; [|split; [done|]].
      * eapply hold_agree; [done| |exact Hd]. intros n Hg. rewrite Hr. rewrite bool_decide_eq_false_2; [done|].
        intros [_ Hn]%Hnames. by apply pending_no_state in Hn.
      * intros n Hn. rewrite Hr. case_bool_decide as Hin; [done|]. destruct (read_path (disk w) (dir, n)) eqn:Hx; [|done].
        exfalso. apply Hin, Hnames. split; [|done]. apply (proj2 (listing_readable (disk w) m n Hm)). congruence.
  - intros _. eapply clean_weaken; [apply (clean_ret (fun w1 => tidy s (disk w1)))|done|]. by intros a w' [_ Hw].
Qed.

Lemma clean_prune s :
  clean (fun w => hold d0 dir ns s (disk w) /\ is_Some (disk w !! dir)) (prune_generations dir) (fun r _ => r = Ok tt).
Proof.
  intros w Hf [[_ Hl] [m Hm]]. rewrite Hm in Hl. cbn [default from_option id] in Hl. apply load_state_iff in Hl as (fs & Hfs & _).
  unfold prune_generations, rbind at 1, io at 1, read_dir at 1, bind at 1 2. rewrite Hm. cbn [ok_or ret].
  unfold rbind at 1, pure_ at 1, bind at 1, ret at 1. rewrite Hfs. cbn zeta. set (k := N.to_nat _).
  set (names := (fun f : StateFile => f.2.1) <$> take k fs).
  refine (clean_then (fun w' => disk w' = disk w) _ _ (fun _ => True) _ _ _ w Hf eq_refl).
  - eapply clean_weaken; [apply (clean_remove_files (disk w) names)|done|done].
    + apply (sublist_NoDup _ ((fun f : StateFile => f.2.1) <$> fs)); [|apply fmap_sublist, sublist_take].
      apply NoDup_fmap_2_strong; [|by eapply state_files_NoDup].
      intros [g [n c]] [g' [n' c']] Hx Hy. cbn. intros <-. apply (state_files_elem m fs) in Hx as [? ?], Hy as [? ?]; [|done..]. congruence.
    + by exists m.
    + intros n Hn. apply list_elem_of_fmap in Hn as ([g [n' c]] & -> & Hin). apply elem_of_take in Hin as (i & Hin & _).
      apply list_elem_of_lookup_2, (state_files_elem m fs) in Hin as [Hn _]; [|done].
      unfold read_path. cbn [fst snd]. rewrite Hm. cbn. by rewrite Hn.
  - apply clean_io. eapply clean_weaken; [apply (clean_nothing (fun _ => True))|done|]. by intros [] w' _.
Qed.

Lemma clean_commit s s1 :
  state_ok s1 -> s.(st_generation) <= s1.(st_generation) -> s1.(st_generation) < u64_max -> fits ns s1 ->
  clean (fun w => tidy s (disk w)) (commit_state dir ns s1) (fun r _ => r = Ok tt).
Proof.
  intros Hok Hle Hmax (env & b & He & Hb & Hlen). unfold commit_state.
  assert (checked_add u64_max (st_generation s1) 1 = Some (st_generation s1 + 1)) as ->
    by (apply checked_add_Some; split; [done|lia]).
  cbn [ok_or]. intros w Hf Hw. unfold rbind at 1, pure_ at 1, bind at 1, ret at 1. fold (committed s1). rewrite He.
  unfold rbind at 1, pure_ at 1, bind at 1, ret at 1. rewrite Hb. unfold rbind at 1, pure_ at 1, bind at 1, ret at 1. revert w Hf Hw.
  assert (read_state b ns (committed s1).(st_generation) = Ok (committed s1)) as Hread by (by eapply read_committed).
  intros [dk sq pid fs] Hf Hw.
  unfold rbind at 1, io at 1, unique_path at 1, fetch_sequence, get_process_id, bind at 1 2 3 4, ret. cbn [disk sequence process_id fates] in *.
  set (n := unique_name "pending" "tmp" pid sq). assert (is_pending n = true) as Hp by apply unique_pending.
  clearbody n. set (w1 := mkWorld _ _ _ _). assert (fates w1 = []) as Hf1 by done. assert (tidy s (disk w1)) as H1 by done.
  clearbody w1. clear Hw Hf. revert w1 Hf1 H1.
  match goal with |- forall w1, _ -> _ -> exists w' a, ?m w1 = _ /\ _ /\ ?q =>
    enough (clean (fun w => tidy s (disk w)) m (fun r _ => r = Ok tt)) as Ht by exact Ht end.
  pose proof (pending_no_state n Hp) as Hn.
  apply (clean_then _ _ _ (fun w => hold d0 dir ns s (disk w) /\ is_Some (disk w !! dir))).
  { apply clean_syscall. intros w (Hd & [m Hm] & Hfree). exists (write_path (disk w) (dir, n) []), tt. cbn [fst].
    rewrite Hm, (Hfree n Hp). split; [done|]. split; [by apply hold_write|]. apply is_dir_write. by exists m. }
  apply (clean_then _ _ _ (fun w => hold d0 dir ns s (disk w) /\ is_Some (disk w !! dir) /\ read_path (disk w) (dir, n) = Some b)).
  { apply clean_syscall. intros w [Hd Hi]. eexists _, _. split; [done|].
    split_and!; [by apply hold_write|by apply is_dir_write|]. by apply read_write_eq. }
  apply (clean_then _ _ _ (fun w => hold d0 dir ns (committed s1) (disk w) /\ is_Some (disk w !! dir))).
  { apply clean_syscall. intros w (Hd & Hi & Hr). rewrite Hr. eexists _, _. split; [done|].
    split; [apply (rename_state d0 dir ns (disk w) s); try done; cbn; lia|]. apply is_dir_write. by apply is_dir_remove. }
  apply (clean_then _ _ _ (fun w => hold d0 dir ns (committed s1) (disk w) /\ is_Some (disk w !! dir))).
  { apply (clean_nothing (fun d => hold d0 dir ns (committed s1) d /\ is_Some (d !! dir))). }
  apply clean_prune.
Qed.
End Clean.

(** ** Equivalence of the backends *)
Section Equivalence.
Context `{Ext : Externals} `{Hex : HexDecode} `{JD : !Json DiskPayload} `{JEn : !Json DiskEnvelope}
  `{DEn : !JsonDecode DiskEnvelope} `{RTEn : !JsonRoundTrip DiskEnvelope}.

Definition answer_of {A : Type} (pre : Result unit) (f : State -> Result (A * option State)) (s : State) : Result A :=
  let? _ := pre in let? (a, _) := f s in Ok a.

Lemma clean_enter {A : Type} d0 dir ns s (k : IOR A) Q :
  clean (fun w => hold d0 dir ns s (disk w) /\ is_Some (disk w !! dir)) k Q ->
  clean (fun w => hold d0 dir ns s (disk w))
    (io (ensure_directory dir) ;;! io (set_private_directory_permissions dir) ;;!
     io (open_lock dir) ;;! io acquire_lock ;;! k) Q.
Proof.
  intros Hk. apply (clean_then _ _ _ (fun w => hold d0 dir ns s (disk w) /\ is_Some (disk w !! dir))).
  { intros w Hf Hw. unfold ensure_directory. destruct (disk w !! dir) as [m|] eqn:Hm; cbn [is_some is_none negb].
    { exists w, tt. rewrite Hm. by split_and!. }
    refine (clean_syscall (fun w1 => w1 = w) _ _ (fun _ w1 => hold d0 dir ns s (disk w1) /\ is_Some (disk w1 !! dir)) _ w Hf eq_refl).
    intros ? ->. eexists _, _. split; [done|]. destruct Hw as [Ho Hl]. rewrite Hm in Hl. cbn [disk with_disk].
    split; [|by rewrite lookup_insert_eq]. split; [intros x Hx; rewrite lookup_insert_ne by done; by apply Ho|].
    by rewrite lookup_insert_eq. }
  apply (clean_then _ _ _ (fun w => hold d0 dir ns s (disk w) /\ is_Some (disk w !! dir)));
    [apply (clean_nothing (fun d => hold d0 dir ns s d /\ is_Some (d !! dir)))|].
  apply (clean_then _ _ _ (fun w => hold d0 dir ns s (disk w) /\ is_Some (disk w !! dir))).
  { apply clean_syscall. intros w [Hd Hi]. destruct (read_path (disk w) (dir, "namespace.lock")); eexists _, _; (split; [done|]); [done|].
    split; [by apply hold_write|by apply is_dir_write]. }
  apply (clean_then _ _ _ (fun w => hold d0 dir ns s (disk w) /\ is_Some (disk w !! dir)));
    [apply (clean_nothing (fun d => hold d0 dir ns s d /\ is_Some (d !! dir)))|done].
Qed.

Lemma clean_transact {A : Type} d0 ns pre (f : State -> Result (A * option State)) s :
  validate_namespace ns = Ok tt ->
  (forall a s', pre = Ok tt -> f s = Ok (a, Some s') ->
     state_ok s' /\ s.(st_generation) <= s'.(st_generation) < u64_max /\ fits ns s') ->
  clean (fun w => holds d0 ns s (disk w)) (transact ns pre f) (fun r _ => r = answer_of pre f s).
Proof.
  intros Hns Hf. unfold transact, answer_of. destruct pre as [[]|e]; [|by intros w Hw Hd; eexists w, _].
  unfold with_namespace. rewrite Hns. set (dir := namespace_directory ns).
  match goal with |- clean ?P (_ ;;! (_ ;;! ?m)) ?Q => enough (clean P m Q) as Ht by exact Ht end. cbn zeta.
  apply (clean_enter d0 dir ns s). apply (clean_then _ _ _ (fun w => tidy d0 dir ns s (disk w))); [apply clean_cleanup|].
  apply (clean_rbind _ _ _ (fun s1 w => s1 = s /\ tidy d0 dir ns s (disk w))).
  { intros w Hw Ht. pose proof Ht as [[_ Hl] [[m Hm] _]]. rewrite Hm in Hl. cbn [default from_option id] in Hl.
    exists w, (Ok s). unfold load, rbind, io, read_dir, bind, pure_, ret. rewrite Hm. cbn [ok_or]. rewrite Hl.
    split_and!; [done..|]. by exists s. }
  intros s1 w Hw [-> Ht]. unfold rbind at 1, pure_ at 1, bind at 1, ret at 1.
  destruct (f s) as [[a [s'|]]|e]; [|by eexists w, _..].
  destruct (Hf a s' eq_refl eq_refl) as (Hok & [Hle Hlt] & Hfit).
  destruct (clean_commit d0 dir ns s s' Hok Hle Hlt Hfit w Hw Ht) as (w' & r & Hr & Hw' & ->).
  exists w', (Ok a). unfold rbind, bind. by rewrite Hr.
Qed.

Lemma memory_exec_refused st ns u e :
  is_prepare u = false -> validate_namespace ns = Ok tt -> precheck u = Err e -> memory_exec st ns u = (st, Err e).
Proof.
  intros Hu Hns. destruct u as [schema limits|key value limits|key|er key ex rep limits|er ms limits]; [done|..];
    cbn [precheck memory_exec answer].
  - unfold MemoryBackend.put. rewrite Hns. destruct (validate_key key); [|by intros [= ->]].
    destruct (validate_limits limits); [|by intros [= ->]]. by destruct (_ <? len value); [intros [= <-]|].
  - unfold MemoryBackend.delete. rewrite Hns. by intros ->.
  - unfold MemoryBackend.compare_exchange. by intros ->.
  - unfold MemoryBackend.apply_batch. by intros ->.
Qed.

Lemma represents_next s n u a next_state :
  precheck u = Ok tt -> state_ok s -> represents s n -> next u s = Ok (a, next_state) ->
  represents (settle s next_state) (memory_next n next_state).
Proof.
  intros Hp Hs Hr Hn. destruct next_state as [s'|]; [|done]. destruct (next_ok u s a s' Hp Hs Hn) as [[_ Hu] _].
  split; [done|]. cbn. by rewrite Hu.
Qed.

(** C19: The two backends are equivalent.  On a namespace with the same content,
    an undisturbed put, delete, compare_exchange or apply_batch of the
    directory backend terminates with exactly the answer or the error of the
    in-memory backend, and the directory then loads as what memory holds. *)
Theorem backends_agree (ns : string) (u : Update) (s : State) (st : MemoryStorage) (w : World) :
  is_prepare u = false -> poisoned st = false -> fates w = [] -> validate_namespace ns = Ok tt ->
  s.(st_generation) < u64_max -> load_state (default ∅ (disk w !! namespace_directory ns)) ns = Ok s ->
  represents s (MemoryBackend.entry_or_default st ns) ->
  (forall a s', next u s = Ok (a, Some s') -> fits ns s') ->
  exists w' st' r s', exec ns u w = (w', Done (Ok r)) /\ memory_exec st ns u = (st', r) /\ poisoned st' = false
    /\ load_state (default ∅ (disk w' !! namespace_directory ns)) ns = Ok s'
    /\ represents s' (MemoryBackend.entry_or_default st' ns).
Proof.
  intros Hu Hp Hf Hns Hg Hl Hr Hfit. pose proof (load_state_ok _ _ _ Hl) as Hs.
  assert (forall a s', precheck u = Ok tt -> next u s = Ok (a, Some s') ->
    state_ok s' /\ st_generation s <= st_generation s' < u64_max /\ fits ns s') as Hn.
  { intros a s' Hpre Hn. destruct (next_ok u s a s' Hpre Hs Hn) as [Hok ->]. split_and!; [done..|by eapply Hfit]. }
  destruct (clean_transact (disk w) ns (precheck u) (next u) s Hns Hn w Hf) as (w' & r & Hrun & _ & ->); [by split|].
  assert (landed (disk w) ns (precheck u) (next u) s (Done (Ok (answer_of (precheck u) (next u) s))) (disk w')) as Hland.
  { refine (holds_run _ _ _ _ _ _ _ _ _ (fun _ => eq_refl) _ _ Hrun); [by split|].
    intros a s' Hpre Hx. destruct (Hn a s' Hpre Hx) as (? & [? _] & ?). done. }
  rewrite <- exec_transact in Hrun. exists w'. unfold answer_of in *. destruct (precheck u) as [[]|e] eqn:Hpre.
  - pose proof (memory_exec_next st ns s u Hu Hp Hns Hpre Hr Hg) as Hm. destruct (next u s) as [[a nx]|e] eqn:Hnx.
    + destruct Hm as (st' & Hm & Hp' & Hv), Hland as (_ & nx' & Hnx' & [_ Hh]). rewrite Hnx in Hnx'. injection Hnx' as <-. exists st', (Ok a), (settle s nx).
      split_and!; try done. rewrite Hv. by apply (represents_next s _ u a).
    + destruct Hm as (st' & Hm & Hp' & Hv). exists st', (Err e), s.
      destruct Hland as [[_ Hh]|(a & s' & _ & Hx & _)]; [|by rewrite Hnx in Hx]. rewrite Hv. done.
  - exists st, (Err e), s. destruct Hland as [[_ Hh]|(a & s' & ? & _)]; [|done].
    split_and!; try done. by apply memory_exec_refused.
Qed.
End Equivalence.
