(* ===== verification/RestoreTheorems.v ===== *)
(** * Restoring a snapshot into the directory backend

    A restore is a transaction of the directory backend: it either leaves the
    old state or installs exactly the content of the snapshot, under a revision
    no client has seen; the guarded form installs it only over the state that
    was captured. *)
From S2P Require Import Prelude Text Events Files Storage StorageSpec Snapshot Directory DirectoryTheorems.
Module D := DirectoryBackend.

(** ** The restore plan *)
Lemma count_entries_zero p m : count_entries p m = 0 <-> forall k v, m !! k = Some v -> p (k, v) = false.
Proof.
  unfold count_entries, len. split.
  - intros H k v Hk. apply btree_iter_elem, list_elem_of_In in Hk. destruct (p (k, v)) eqn:Hp; [|done].
    assert (In (k, v) (List.filter p (btree_iter m))) as Hin by (by apply List.filter_In).
    by destruct (List.filter p (btree_iter m)).
  - intros H. destruct (List.filter p (btree_iter m)) as [|[k v] l] eqn:Hl; [done|].
    assert (In (k, v) (List.filter p (btree_iter m))) as Hin by (rewrite Hl; by left).
    apply List.filter_In in Hin as [Hin Hp]. rewrite (H k v) in Hp; [done|]. by apply btree_iter_elem, list_elem_of_In.
Qed.

Lemma sum_usage_spec values total r : sum_usage total values = Ok r -> r = total + sumN (len <$> values).
Proof.
  revert total. induction values as [|v values IH]; intros total; cbn [sum_usage]; [intros [= <-]; sums|].
  unfold ok_or. destruct (checked_add _ _ _) as [t|] eqn:Ht; [|done]. apply checked_add_Some in Ht as [-> _].
  intros ->%IH. sums.
Qed.
Lemma state_usage_spec m u : state_usage m = Ok u -> u = mkUsage (entries_bytes m) (btree_len m).
Proof.
  unfold state_usage. destruct (sum_usage 0 _) as [t|] eqn:Ht; [|done]. apply sum_usage_spec in Ht as ->.
  rewrite entries_bytes_btree. intros [= <-]. by rewrite N.add_0_l.
Qed.

Lemma negb_eqb_false a b : negb (a =? b) = false <-> a = b.
Proof. rewrite negb_false_iff. apply N.eqb_eq. Qed.

(** A plan that changes nothing is a plan for the same content; any other
    continues after both revisions. *)
Lemma build_plan_spec cs cr cur ss sr snap plan :
  build_restore_plan cs cr cur ss sr snap = Ok plan ->
  plan.(plan_snapshot) = mkUsage (entries_bytes snap) (btree_len snap)
  /\ (if plan_changed plan then plan.(result_revision) = N.max cr sr + 1 /\ N.max cr sr < u64_max
      else plan.(result_revision) = cr /\ snap = cur /\ ss = cs /\ sr <= cr).
Proof.
  unfold build_restore_plan. set (a := count_entries _ snap). set (rp := count_entries _ snap).
  set (un := count_entries _ snap). set (rm := count_entries _ cur).
  set (cc := negb (cs =? ss) || negb (a =? 0) || negb (rp =? 0) || negb (rm =? 0)).
  destruct (if cc || (cr <? sr) then _ else _) as [rr|] eqn:Hrr; [|done].
  destruct (state_usage cur) as [uc|]; [|done]. destruct (state_usage snap) as [us|] eqn:Hus; [|done].
  apply state_usage_spec in Hus as ->. intros [= <-]. split; [done|]. unfold plan_changed.
  cbn [current_revision result_revision current_schema snapshot_schema added replaced removed].
  destruct (cc || (cr <? sr)) eqn:Hc.
  - apply next_revision_spec in Hrr as [-> Hmax]. replace (cr =? N.max cr sr + 1) with false by (symmetry; apply N.eqb_neq; lia).
    cbn [negb orb]. lia.
  - injection Hrr as <-. apply orb_false_iff in Hc as [Hc Hlt]. apply N.ltb_ge in Hlt. rewrite N.eqb_refl. cbn [negb orb].
    fold cc. rewrite Hc. unfold cc in Hc. rewrite !orb_false_iff, !negb_eqb_false in Hc. destruct Hc as [[[-> Ha] Hrp] Hrm].
    split_and!; try done. apply map_eq. intros k.
    pose proof (proj1 (count_entries_zero _ _) Ha) as Ha'. pose proof (proj1 (count_entries_zero _ _) Hrp) as Hrp'.
    pose proof (proj1 (count_entries_zero _ _) Hrm) as Hrm'. cbn in Ha', Hrp', Hrm'.
    destruct (snap !! k) as [v|] eqn:Hs.
    + specialize (Ha' k v Hs). specialize (Hrp' k v Hs). destruct (cur !! k) as [v'|]; [|done]. cbn in Hrp'.
      apply negb_false_iff, bool_decide_eq_true in Hrp'. done.
    + destruct (cur !! k) as [v'|] eqn:Hcur; [|done]. specialize (Hrm' k v' Hcur). by rewrite Hs in Hrm'.
Qed.

Section Restore.
Context `{Ext : Externals} `{Hex : HexDecode} `{JD : !Json DiskPayload} `{JEn : !Json DiskEnvelope}
  `{DEn : !JsonDecode DiskEnvelope} `{RTEn : !JsonRoundTrip DiskEnvelope} `{JSp : !Json SnapshotPayload}.

Definition restored_state (s : State) (snapshot : StorageSnapshot) (entries : gmap string bytes) : State :=
  mkState (N.max s.(st_generation) snapshot.(sn_payload).(sn_state_revision)) snapshot.(sn_payload).(sn_state_schema)
    entries (mkUsage (entries_bytes entries) (btree_len entries)).

(** Both restores, as the guard decides. *)
Definition restore_call (ns : string) (guard : option CapturedState) (snapshot : StorageSnapshot)
    (limits : StorageLimits) : IOR RestorePlan :=
  match guard with
  | None => D.restore ns snapshot limits
  | Some expected => D.restore_if_unchanged ns expected snapshot limits
  end.

(** The state is the one that was captured. *)
Definition unchanged_since (ns : string) (expected : CapturedState) (s : State) : Prop :=
  s.(st_generation) = expected.(cs_generation)
  /\ s.(st_schema) = expected.(cs_snapshot).(sn_payload).(sn_state_schema)
  /\ entries_for expected.(cs_snapshot) ns = Ok s.(st_entries).

Definition restore_pre (ns : string) (guard : option CapturedState) (snapshot : StorageSnapshot)
    (limits : StorageLimits) : Result unit :=
  let? _ := match guard with None => Ok ∅ | Some expected => entries_for expected.(cs_snapshot) ns end in
  let? entries := entries_for snapshot ns in validate_restore_limits entries limits.
Definition restore_next (ns : string) (guard : option CapturedState) (snapshot : StorageSnapshot) (s : State) :
    Result (RestorePlan * option State) :=
  let changed := match guard with
                 | None => false
                 | Some expected =>
                     negb (s.(st_generation) =? expected.(cs_generation))
                     || negb (s.(st_schema) =? expected.(cs_snapshot).(sn_payload).(sn_state_schema))
                     || negb (bool_decide (entries_for expected.(cs_snapshot) ns = Ok s.(st_entries)))
                 end in
  if changed then Err StateChanged
  else
    let? entries := entries_for snapshot ns in
    let? plan := D.plan_of s snapshot entries in
    Ok (plan, if plan_changed plan then Some (restored_state s snapshot entries) else None).

Lemma same_restore_over dir ns s snapshot entries :
  same_run (D.restore_over dir ns s snapshot entries)
    (try? (a, next) := pure_ (let? plan := D.plan_of s snapshot entries in
                              Ok (plan, if plan_changed plan then Some (restored_state s snapshot entries) else None)) in
     (match next with None => pure_ (Ok tt) | Some s' => commit_state dir ns s' end) ;;! pure_ (Ok a)).
Proof.
  unfold D.restore_over. destruct (D.plan_of s snapshot entries) as [plan|e] eqn:Hp; [|done].
  apply build_plan_spec in Hp as [Hu _]. etransitivity; [apply pure_ok|]. unfold restored_state. rewrite Hu.
  by destruct (plan_changed plan).
Qed.

Lemma restore_transact ns guard snapshot limits :
  same_run (restore_call ns guard snapshot limits)
    (transact ns (restore_pre ns guard snapshot limits) (restore_next ns guard snapshot)).
Proof.
  unfold restore_call, restore_pre, restore_next, transact, D.restore, D.restore_if_unchanged.
  destruct guard as [expected|].
  - destruct (entries_for (cs_snapshot expected) ns) as [ex|e]; [|done].
    destruct (entries_for snapshot ns) as [m|e]; [|done]. apply same_opened. intros dir s. cbn zeta.
    rewrite (bool_decide_ext (Ok ex = Ok (st_entries s)) (st_entries s = ex)) by (split; [by intros [= ->]|by intros ->]).
    destruct (_ || _); [done|]. apply same_restore_over.
  - destruct (entries_for snapshot ns) as [m|e]; [|done]. apply same_opened. intros dir s. apply same_restore_over.
Qed.

(** The snapshot's content under a fresh revision, or the old state when it is
    that content already. *)
Definition restored (ns : string) (snapshot : StorageSnapshot) (s s' : State) (plan : RestorePlan) : Prop :=
  entries_for snapshot ns = Ok s'.(st_entries) /\ s'.(st_schema) = snapshot.(sn_payload).(sn_state_schema)
  /\ s'.(st_generation) = plan.(result_revision)
  /\ (s' = s \/ (s.(st_generation) < s'.(st_generation)
                 /\ snapshot.(sn_payload).(sn_state_revision) < s'.(st_generation))).
Definition guarded (ns : string) (guard : option CapturedState) (s : State) : Prop :=
  match guard with None => True | Some expected => unchanged_since ns expected s end.

Lemma restore_next_spec ns guard snapshot s plan next_state :
  restore_next ns guard snapshot s = Ok (plan, next_state) ->
  guarded ns guard s /\ restored ns snapshot s (settle s next_state) plan.
Proof.
  unfold restore_next. set (b := match guard with None => false | Some _ => _ end). destruct b eqn:Hb; [done|]. unfold b in Hb. clear b.
  destruct (entries_for snapshot ns) as [m|] eqn:Hm; [|done]. destruct (D.plan_of s snapshot m) as [p|] eqn:Hp; [|done].
  intros [= <- <-]. split.
  - destruct guard as [expected|]; [|done]. apply orb_false_iff in Hb as [Hb Hx]. rewrite orb_false_iff, !negb_eqb_false in Hb.
    destruct Hb as [Hg Hs]. apply negb_false_iff, bool_decide_eq_true in Hx. done.
  - apply build_plan_spec in Hp as [_ Hp]. unfold restored. rewrite Hm. destruct (plan_changed p).
    + destruct Hp as [-> _]. cbn. split_and!; try done. right. lia.
    + destruct Hp as (-> & -> & -> & _). cbn. split_and!; try done. by left.
Qed.

Lemma entries_for_storable snapshot ns m : entries_for snapshot ns = Ok m -> storable m.
Proof.
  unfold entries_for. destruct (validate_snapshot snapshot) as [[]|]; [|done]. pass H. unfold decode_entries.
  destruct (N.ltb_spec MAX_STORAGE_KEYS (btree_len (sn_entries (sn_payload snapshot)))) as [|Hle]; [done|].
  destruct (decode_loop _ _ _ _) as [[m' t]|] eqn:Hd; [|done]. intros [= <-]. by apply decode_loop_sound in Hd as [Hs _].
Qed.

Lemma restore_next_ok ns guard snapshot s plan s' :
  restore_next ns guard snapshot s = Ok (plan, Some s') ->
  exists entries, entries_for snapshot ns = Ok entries /\ s' = restored_state s snapshot entries
                  /\ state_ok s' /\ s.(st_generation) <= s'.(st_generation).
Proof.
  unfold restore_next. destruct (match guard with None => false | Some _ => _ end); [done|].
  destruct (entries_for snapshot ns) as [m|] eqn:Hm; [|done]. destruct (D.plan_of s snapshot m) as [p|]; [|done].
  destruct (plan_changed p); [|done]. intros [= <- <-]. exists m. split_and!; [done..| |cbn; lia].
  split; [by eapply entries_for_storable|done].
Qed.

(** C20: Restoring is atomic and exact.  Whatever fails, the namespace holds the
    old state or exactly the snapshot's content, never a mixture; a restore
    that answers has installed the content under the revision its plan names,
    newer than the old state's and the snapshot's unless nothing changed; the
    guarded restore does so only over the very state that was captured; and no
    other namespace is touched. *)
Theorem restore_is_atomic (ns : string) (guard : option CapturedState) (snapshot : StorageSnapshot)
    (limits : StorageLimits) (s : State) (w w' : World) (o : Files.outcome (Result RestorePlan)) :
  load_state (default ∅ (disk w !! namespace_directory ns)) ns = Ok s ->
  (forall entries, entries_for snapshot ns = Ok entries -> fits ns (restored_state s snapshot entries)) ->
  restore_call ns guard snapshot limits w = (w', o) ->
  (forall x, x <> namespace_directory ns -> disk w' !! x = disk w !! x)
  /\ let now := load_state (default ∅ (disk w' !! namespace_directory ns)) ns in
     match o with
     | Done (Ok (Ok plan)) => guarded ns guard s /\ exists s', now = Ok s' /\ restored ns snapshot s s' plan
     | _ => now = Ok s \/ guarded ns guard s /\ exists s' plan, now = Ok s' /\ restored ns snapshot s s' plan
     end.
Proof.
  intros Hl Hfit Hr. cbn zeta. pose proof Hr as Hland.
  apply (holds_run (disk w) ns _ _ s _ _ _ _ (restore_transact ns guard snapshot limits)) in Hland; [|by split|].
  2: { intros plan s' _ Hn. apply restore_next_ok in Hn as (m & Hm & -> & Hok & Hge). by split_and!; [..|apply Hfit]. }
  assert (forall o', landed (disk w) ns (restore_pre ns guard snapshot limits) (restore_next ns guard snapshot) s o' (disk w') ->
    match o' with Done (Ok (Ok _)) => False | _ => True end ->
    (forall x, x <> namespace_directory ns -> disk w' !! x = disk w !! x)
    /\ (load_state (default ∅ (disk w' !! namespace_directory ns)) ns = Ok s
        \/ guarded ns guard s /\ exists s' plan, load_state (default ∅ (disk w' !! namespace_directory ns)) ns = Ok s'
              /\ restored ns snapshot s s' plan)) as Hfail.
  { intros o' Ho' Hno. assert (holds (disk w) ns s (disk w') \/ exists a s', restore_next ns guard snapshot s = Ok (a, Some s')
      /\ holds (disk w) ns (committed s') (disk w')) as [[Hx Hh]|(plan & s' & Hn & [Hx Hh])]
      by (destruct o' as [[[]|]|]; [done|..]; destruct Ho' as [?|(a & s' & _ & ? & ?)]; eauto).
    - split; [done|by left].
    - apply restore_next_spec in Hn as [Hg Hn]. split; [done|]. right. split; [done|]. by exists (committed s'), plan. }
  destruct o as [[[plan|e]|e]|]; [|by apply (Hfail _ Hland)..].
  destruct Hland as (_ & nx & Hn & [Hx Hh]). apply restore_next_spec in Hn as [Hg Hn].
  split_and!; [done..|]. by exists (settle s nx).
Qed.
End Restore.
