(* ===== verification/RecoveryTheorems.v ===== *)
(** * Recovery of a namespace directory

    [recover] sets corrupt generations aside.  Whatever fails on the way, the
    newest generation that can be read stays readable, and when it answers the
    namespace loads as that generation. *)
From S2P Require Import Prelude Text Events Files Storage StorageSpec Snapshot Directory DirectoryTheorems.
Module D := DirectoryBackend.

Section Recovery.
Context `{Ext : Externals} `{Hex : HexDecode} `{JD : !Json DiskPayload} `{JEn : !Json DiskEnvelope}
  `{DEn : !JsonDecode DiskEnvelope} `{JSp : !Json SnapshotPayload}.

(** ** The newest generation that reads *)
Definition read_valid (ns : string) (f : StateFile) : option State :=
  match read_state f.2.2 ns f.1 with Ok s => Some s | Err _ => None end.
Definition newest (m : Directory) (ns : string) : Result (option State) :=
  let? files := state_files m in Ok (last (omap (read_valid ns) files)).

Lemma newest_Ok m ns o : newest m ns = Ok o <-> exists fs, state_files m = Ok fs /\ o = last (omap (read_valid ns) fs).
Proof. unfold newest. destruct (state_files m) as [fs|]; naive_solver. Qed.

Lemma newest_agree m m' ns o :
  (forall n, state_generation n <> None -> m' !! n = m !! n) -> newest m ns = Ok o -> newest m' ns = Ok o.
Proof. rewrite !newest_Ok. intros Ha (fs & Hm & ->). exists fs. split; [by eapply state_files_agree|done]. Qed.

(** When every generation reads, the newest is the state. *)
Lemma newest_load m ns o fs :
  newest m ns = Ok o -> state_files m = Ok fs -> Forall (fun f => is_Some (read_valid ns f)) fs ->
  load_state m ns = Ok (default default_state o).
Proof.
  intros (fs' & Hm & ->)%newest_Ok Hm' Hall. rewrite Hm in Hm'. injection Hm' as ->. apply load_state_iff. exists fs.
  assert (forall f, is_Some (read_valid ns f) -> exists s, read_state f.2.2 ns f.1 = Ok s /\ read_valid ns f = Some s) as Hv.
  { intros f [s Hs]. unfold read_valid in *. destruct (read_state _ _ _) as [s'|]; [|done]. by exists s'. }
  split_and!; [done| |].
  - eapply Forall_impl; [exact Hall|]. intros f Hf. destruct (Hv f Hf) as (s & Hs & _). by exists s.
  - unfold latest_of. destruct (last fs) as [f|] eqn:Hl; [|by apply last_None in Hl as ->].
    apply last_Some in Hl as [l ->]. rewrite Forall_app, Forall_singleton in Hall. destruct Hall as [_ Hf].
    destruct (Hv f Hf) as (s & -> & Hr). rewrite omap_app. cbn. rewrite Hr, last_snoc. done.
Qed.

Lemma sorted_filter {A : Type} (R : A -> A -> Prop) (P : A -> Prop) `{!forall x, Decision (P x)} (l : list A) :
  StronglySorted R l -> StronglySorted R (filter P l).
Proof.
  induction 1 as [|x l Hl IH Hx]; [constructor|]. rewrite filter_cons. case_decide; [|done]. constructor; [done|].
  rewrite Forall_forall in *. intros y [_ Hy]%list_elem_of_filter. by apply Hx.
Qed.

(** Removing a file that does not read loses nothing. *)
Lemma state_files_remove m fs n :
  state_files m = Ok fs -> state_files (delete n m) = Ok (filter (fun f : StateFile => f.2.1 <> n) fs).
Proof.
  intros Hm. apply state_files_intro.
  - intros n' x e. rewrite lookup_delete. case_decide; [done|]. intros Hx.
    by eapply (proj1 (state_files_Ok m) (ex_intro _ _ Hm)).
  - apply sorted_filter. by eapply state_files_sorted.
  - apply NoDup_filter. by eapply state_files_NoDup.
  - intros g n' c. rewrite list_elem_of_filter, (state_files_elem m fs g n' c Hm), lookup_delete. cbn [fst snd].
    case_decide as Hn; [subst n'|]; naive_solver.
Qed.
Lemma omap_filter_unread {A B : Type} (f : A -> option B) (P : A -> Prop) `{!forall x, Decision (P x)} (l : list A) :
  (forall x, x ∈ l -> ~ P x -> f x = None) -> omap f (filter P l) = omap f l.
Proof.
  induction l as [|x l IH]; intros Hx; csimpl; [done|]. rewrite filter_cons. case_decide as Hp; csimpl.
  - rewrite IH; [done|]. intros y Hy. apply Hx. by right.
  - rewrite (Hx x) by (by left || done). apply IH. intros y Hy. apply Hx. by right.
Qed.

(** ** Triage *)
Lemma triage_spec ns fs valid corrupt :
  D.triage ns fs = Ok (valid, corrupt) ->
  valid = (fun s => s.(st_generation)) <$> omap (read_valid ns) fs
  /\ corrupt = (fun f : StateFile => f.2.1) <$> filter (fun f => read_valid ns f = None) fs.
Proof.
  revert valid corrupt. induction fs as [|[g [n c]] fs IH]; intros valid corrupt; csimpl; [by intros [= <- <-]|].
  rewrite filter_cons. destruct (read_state c ns g) as [s|e] eqn:Hr.
  - assert (read_valid ns (g, (n, c)) = Some s) as Hv by (unfold read_valid; cbn; by rewrite Hr). rewrite Hv.
    destruct (D.triage ns fs) as [[v k]|]; [|done]. intros [= <- <-]. destruct (IH v k eq_refl) as [-> ->].
    rewrite decide_False by done. apply read_state_generation in Hr. csimpl. by rewrite Hr.
  - assert (read_valid ns (g, (n, c)) = None) as Hv by (unfold read_valid; cbn; by rewrite Hr). rewrite Hv.
    destruct e; try done. destruct (D.triage ns fs) as [[v k]|]; [|done]. intros [= <- <-].
    destruct (IH v k eq_refl) as [-> ->]. by rewrite decide_True.
Qed.

(** ** Setting files aside *)
Variables (d0 : Disk) (dir ns : string).

(** The newest valid state is still there; the files that do not read are
    those called [names]. *)
Definition salvage (o : option State) (d : Disk) : Prop :=
  (forall x, x <> dir -> d !! x = d0 !! x) /\ newest (default ∅ (d !! dir)) ns = Ok o.
Definition suspects (names : list string) (d : Disk) : Prop :=
  exists m fs, d !! dir = Some m /\ state_files m = Ok fs
    /\ forall f, f ∈ fs -> read_valid ns f = None <-> f.2.1 ∈ names.

Lemma salvage_new o d : salvage o d -> d !! dir = None -> salvage o (<[dir := ∅]> d).
Proof.
  intros [Ho Hl] Hn. rewrite Hn in Hl. split; [intros x Hx; rewrite lookup_insert_ne by done; by apply Ho|].
  by rewrite lookup_insert_eq.
Qed.
Lemma salvage_write o d n c : state_generation n = None -> salvage o d -> salvage o (write_path d (dir, n) c).
Proof.
  intros Hn [Ho Hl]. split; [intros x Hx; rewrite dir_write by done; by apply Ho|].
  eapply newest_agree; [|exact Hl]. intros n' Hn'. rewrite !read_default. apply read_write_ne. congruence.
Qed.
Lemma hold_salvage o d m fs :
  salvage o d -> d !! dir = Some m -> state_files m = Ok fs -> Forall (fun f => is_Some (read_valid ns f)) fs ->
  hold d0 dir ns (default default_state o) d.
Proof.
  intros [Ho Hn] Hm Hfs Hall. split; [done|]. rewrite Hm in *. cbn [default from_option id] in *. by eapply newest_load.
Qed.
Lemma hold_newest s d : hold d0 dir ns s d -> exists o, salvage o d /\ default default_state o = s.
Proof.
  intros [Ho Hl]. apply load_state_iff in Hl as (fs & Hfs & Hall & Hlast). exists (last (omap (read_valid ns) fs)).
  assert (newest (default ∅ (d !! dir)) ns = Ok (last (omap (read_valid ns) fs))) as Hn by (apply newest_Ok; by exists fs).
  split; [done|]. eapply newest_load in Hn as Hload; [|exact Hfs|].
  2: { eapply Forall_impl; [exact Hall|]. intros f [s' Hs]. unfold read_valid. rewrite Hs. done. }
  assert (load_state (default ∅ (d !! dir)) ns = Ok s) as Hs by (apply load_state_iff; by exists fs). congruence.
Qed.

(** One corrupt file is renamed. *)
Lemma salvage_rename o d n t c names :
  salvage o d -> suspects (n :: names) d -> state_generation t = None ->
  salvage o (write_path (remove_path d (dir, n)) (dir, t) c)
  /\ suspects names (write_path (remove_path d (dir, n)) (dir, t) c).
Proof.
  intros [Ho Hn] (m & fs & Hm & Hfs & Hs) Ht. rewrite Hm in Hn. cbn [default from_option id] in Hn.
  assert (write_path (remove_path d (dir, n)) (dir, t) c !! dir = Some (<[t := c]> (delete n m))) as Hd.
  { unfold write_path, remove_path. cbn [fst snd]. by rewrite !lookup_alter_eq, Hm. }
  assert (state_files (<[t := c]> (delete n m)) = Ok (filter (fun f : StateFile => f.2.1 <> n) fs)) as Hfs'.
  { eapply state_files_agree; [|by apply state_files_remove]. intros n' Hn'. apply lookup_insert_ne. congruence. }
  split; [split|].
  - intros x Hx. rewrite dir_write, dir_remove by done. by apply Ho.
  - rewrite Hd. cbn [default from_option id]. apply newest_Ok. eexists. split; [exact Hfs'|].
    apply newest_Ok in Hn as (fs1 & Hfs1 & ->). rewrite Hfs in Hfs1. injection Hfs1 as <-. f_equal. symmetry.
    apply omap_filter_unread. intros f Hf Hn%dec_stable. apply Hs; [done|]. rewrite Hn. by left.
  - eexists _, _. split_and!; [exact Hd|exact Hfs'|]. intros f [Hne Hf]%list_elem_of_filter.
    rewrite (Hs f Hf), elem_of_cons. naive_solver.
Qed.

Lemma corrupt_target n p q : state_generation (unique_name ("corrupt-" +:+ n) "json" p q) = None.
Proof. apply state_generation_other. discriminate. Qed.

Lemma quarantine_triple o names :
  triple (fun d => salvage o d /\ suspects names d) (D.quarantine dir names)
    (fun r d => salvage o d /\ (is_ok r = true -> suspects [] d)) (salvage o).
Proof.
  induction names as [|n names IH]; cbn [D.quarantine]; [by apply triple_ret; intros d [? ?]|].
  intros [dk sq pid fs] Hw. unfold unique_path, fetch_sequence, get_process_id, bind at 1 2 3, ret. cbn [disk sequence process_id fates] in *.
  set (t := unique_name _ _ pid sq). assert (state_generation t = None) as Ht by apply corrupt_target. clearbody t.
  set (w1 := mkWorld _ _ _ _). assert (salvage o (disk w1) /\ suspects (n :: names) (disk w1)) as H1 by done.
  clearbody w1. clear Hw. revert w1 H1.
  match goal with |- forall w1, _ -> match ?m w1 with _ => _ end =>
    enough (triple (fun d => salvage o d /\ suspects (n :: names) d) m
      (fun r d => salvage o d /\ (is_ok r = true -> suspects [] d)) (salvage o)) as Hm by exact Hm end.
  apply (triple_bind _ _ _ (fun _ d => salvage o d /\ suspects names d)).
  - apply triple_syscall; [|by intros d k [Hd _]]. intros d [Hd Hs]. destruct (read_path d (dir, n)) as [c|]; [|done].
    by apply salvage_rename.
  - intros _. apply (triple_bind _ _ _ (fun _ d => salvage o d /\ suspects [] d)).
    + eapply triple_weaken; [exact IH|done| |done]. intros [r|e] d [Hd Hs]; [|done]. split; [done|by apply Hs].
    + intros r. apply triple_ret. by intros d [Hd Hs].
Qed.

Lemma suspects_hold o d : salvage o d -> suspects [] d -> hold d0 dir ns (default default_state o) d /\ is_Some (d !! dir).
Proof.
  intros Hd (m & fs & Hm & Hfs & Hs). split; [|by exists m]. eapply hold_salvage; [done..|].
  apply Forall_forall. intros f Hf. destruct (read_valid ns f) eqn:Hr; [done|]. exfalso. apply (Hs f Hf) in Hr. by apply elem_of_nil in Hr.
Qed.

Lemma max_generation_last l : StronglySorted N.le l -> D.max_generation l = last l.
Proof.
  destruct l as [|x l]; [done|]. intros Hs. cbn [D.max_generation].
  assert (foldr N.max x l = default x (last l)) as ->; [|by destruct l as [|y l]; [|rewrite last_cons_cons; destruct (last (y :: l)) eqn:E; [|apply last_None in E]]].
  induction l as [|y l IH]; [done|]. apply StronglySorted_inv in Hs as [Hs Hx]. apply Forall_cons in Hx as [Hxy Hx].
  apply StronglySorted_inv in Hs as [Hs Hy]. cbn [foldr]. rewrite IH by (by constructor).
  destruct (last l) as [z|] eqn:Hl.
  - assert (last (y :: l) = Some z) as -> by (apply last_Some in Hl as [l' ->]; apply (last_snoc z (y :: l'))).
    rewrite Forall_forall in Hy. apply last_Some_elem_of, Hy in Hl. cbn. lia.
  - apply last_None in Hl as ->. cbn. lia.
Qed.
Lemma generations_sorted fs :
  StronglySorted file_le fs -> StronglySorted N.le ((fun s => s.(st_generation)) <$> omap (read_valid ns) fs).
Proof.
  induction 1 as [|f fs Hfs IH Hf]; csimpl; [constructor|]. destruct (read_valid ns f) as [s|] eqn:Hr; [|done]. csimpl.
  assert (forall f' s', read_valid ns f' = Some s' -> st_generation s' = f'.1) as Hg.
  { intros f' s'. unfold read_valid. destruct (read_state _ _ _) as [s1|] eqn:H1; [|done]. intros [= <-]. by eapply read_state_generation. }
  constructor; [done|]. rewrite Forall_fmap. apply Forall_forall. intros s' (f' & Hin & Hr')%list_elem_of_omap. cbn.
  rewrite (Hg f s Hr), (Hg f' s' Hr'). rewrite Forall_forall in Hf. destruct (Hf f' Hin) as [|[-> _]]; lia.
Qed.

(** The directory has lost no valid state. *)
Definition preserved (o : option State) (d : Disk) : Prop :=
  exists o', salvage o' d /\ default default_state o' = default default_state o.
Lemma salvage_preserved o d : salvage o d -> preserved o d.
Proof. intros Hd. by exists o. Qed.
Lemma hold_preserved o d : hold d0 dir ns (default default_state o) d -> preserved o d.
Proof. apply hold_newest. Qed.

(** What an answer of [recover] promises. *)
Definition recovered (o : option State) (report : RecoveryReport) (d : Disk) : Prop :=
  retained d0 dir ns (default default_state o) d
  /\ report.(valid_generation) = (fun s => s.(st_generation)) <$> o.

Lemma recovery_triple o :
  triple (fun d => salvage o d /\ is_Some (d !! dir))
    (try? entries := io (read_dir dir) in
     try? files := pure_ (state_files entries) in
     try? (valid, corrupt) := pure_ (D.triage ns files) in
     if bool_decide (valid = []) && negb (bool_decide (corrupt = [])) then pure_ (Err NoRecoverableState)
     else
       try? quarantined := io (D.quarantine dir corrupt) in
       try? discarded := io (cleanup_pending dir) in
       prune_generations dir ;;!
       io (sync_directory dir) ;;!
       pure_ (Ok (mkRecoveryReport (D.max_generation valid) quarantined discarded)))
    (fun r d => match r with Ok (Ok report) => recovered o report d | _ => preserved o d end)
    (preserved o).
Proof.
  intros w [Hd [m Hm]]. unfold rbind at 1, io at 1, read_dir at 1, bind at 1 2. rewrite Hm. cbn [ok_or ret].
  unfold rbind at 1, pure_ at 1, bind at 1, ret at 1. pose proof Hd as [_ Hn]. rewrite Hm in Hn. cbn [default from_option id] in Hn.
  apply newest_Ok in Hn as (fs & Hfs & Ho). rewrite Hfs. unfold rbind at 1, pure_ at 1, bind at 1, ret at 1.
  destruct (D.triage ns fs) as [[valid corrupt]|e] eqn:Ht; [|by apply salvage_preserved]. apply triage_spec in Ht as [Hvalid Hcorrupt].
  destruct (_ && _); [by apply salvage_preserved|]. set (s := default default_state o).
  assert (suspects corrupt (disk w)) as Hs.
  { exists m, fs. split_and!; [done..|]. intros f Hf. rewrite Hcorrupt, list_elem_of_fmap. split.
    - intros Hr. exists f. split; [done|]. by apply list_elem_of_filter.
    - intros ([g' [n' c']] & Hn & [Hr Hin]%list_elem_of_filter). destruct f as [g [n c]]. cbn in Hn. subst n'.
      apply (state_files_elem m fs) in Hf as [? ?], Hin as [? ?]; [|done..]. congruence. }
  assert (D.max_generation valid = (fun s => s.(st_generation)) <$> o) as Hmax.
  { rewrite Hvalid, max_generation_last by (by eapply generations_sorted, state_files_sorted). rewrite Ho. by rewrite fmap_last. }
  rewrite Hmax. assert (salvage o (disk w) /\ suspects corrupt (disk w)) as Hw by done.
  clear Hd m Hm fs Hfs Ho Hs Hvalid Hcorrupt Hmax. revert w Hw.
  match goal with |- forall w1, _ -> match ?m w1 with _ => _ end =>
    enough (triple (fun d => salvage o d /\ suspects corrupt d) m
      (fun r d => match r with Ok (Ok report) => recovered o report d | _ => preserved o d end) (preserved o)) as Ht by exact Ht end.
  apply (triple_rbind _ _ _ (fun _ d => hold d0 dir ns s d /\ is_Some (d !! dir))).
  { apply triple_io. eapply triple_weaken; [apply (quarantine_triple o corrupt)|done| |apply salvage_preserved].
    intros [q|e] d [Hd Hs]; [|by apply salvage_preserved]. by apply suspects_hold; [|apply Hs]. }
  intros q. apply (triple_rbind _ _ _ (fun _ d => hold d0 dir ns s d /\ is_Some (d !! dir))).
  { apply triple_io. eapply triple_weaken; [apply (cleanup_triple d0 dir ns s)|done| |apply hold_preserved].
    intros [n|e] d [Hd Hi]; [done|by apply hold_preserved]. }
  intros k. apply (triple_rbind _ _ _ (fun _ => retained d0 dir ns s)).
  { eapply triple_weaken; [apply (prune_triple d0 dir ns s)|done| |apply hold_preserved].
    intros [[u|e]|e] d [Hd Hr]; [done|by apply hold_preserved..]. }
  intros _. assert (forall d, retained d0 dir ns s d -> preserved o d) as Hret by (intros d (fs & [Hd _] & _); by apply hold_preserved).
  apply (triple_rbind _ _ _ (fun _ => retained d0 dir ns s)).
  { apply triple_io. eapply triple_weaken; [apply (nothing_triple (retained d0 dir ns s))|done| |exact Hret].
    intros [u|e] d Hd; [done|by apply Hret]. }
  intros _. by apply triple_ret.
Qed.
End Recovery.

Section Recover.
Context `{Ext : Externals} `{Hex : HexDecode} `{JD : !Json DiskPayload} `{JEn : !Json DiskEnvelope}
  `{DEn : !JsonDecode DiskEnvelope} `{JSp : !Json SnapshotPayload}.

(** Recovery never loses the newest valid generation.  Wherever it fails or
    the process dies, the newest state that could be read before can still be
    read; a recovery that answers reports that generation, leaves a namespace
    that loads as it, with at most two generations on disk, and touches no
    other namespace. *)
Theorem recovery_keeps_newest (ns : string) (o : option State) (w w' : World) (r : Files.outcome (Result RecoveryReport)) :
  newest (default ∅ (disk w !! namespace_directory ns)) ns = Ok o ->
  D.recover ns w = (w', r) ->
  (forall x, x <> namespace_directory ns -> disk w' !! x = disk w !! x)
  /\ (exists o', newest (default ∅ (disk w' !! namespace_directory ns)) ns = Ok o'
                 /\ default default_state o' = default default_state o)
  /\ match r with
     | Done (Ok (Ok report)) =>
         load_state (default ∅ (disk w' !! namespace_directory ns)) ns = Ok (default default_state o)
         /\ report.(valid_generation) = (fun s => s.(st_generation)) <$> o
         /\ exists m fs, disk w' !! namespace_directory ns = Some m /\ state_files m = Ok fs
                         /\ len fs <= RETAINED_GENERATIONS
     | _ => True
     end.
Proof.
  intros Hn Hr. set (dir := namespace_directory ns) in *. set (d0 := disk w).
  assert (triple (salvage d0 dir ns o) (D.recover ns)
    (fun r d => match r with Ok (Ok report) => recovered d0 dir ns o report d | _ => preserved d0 dir ns o d end)
    (preserved d0 dir ns o)) as Ht.
  { unfold D.recover, with_namespace. apply triple_pure_bind; [intros e d _; apply salvage_preserved|]. intros _ _. cbn zeta.
    apply (open_triple dir (salvage d0 dir ns o)); [apply salvage_new|intros d n c; apply salvage_write| |apply salvage_preserved|apply recovery_triple].
    intros [[a|e]|e] d Hd He; [done|by apply salvage_preserved..]. }
  specialize (Ht w (conj (fun _ _ => eq_refl) Hn)). rewrite Hr in Ht.
  assert (forall d, preserved d0 dir ns o d -> (forall x, x <> dir -> d !! x = d0 !! x)
    /\ exists o', newest (default ∅ (d !! dir)) ns = Ok o' /\ default default_state o' = default default_state o) as Hp.
  { intros d (o' & [Hx Hd] & He). split; [done|]. by exists o'. }
  destruct r as [[[report|e]|e]|]; [|by apply Hp in Ht as [? ?]..].
  destruct Ht as [(fs & [Hd (m & Hm & Hfs)] & Hlen) Hg]. apply hold_preserved in Hd as Hd'. apply Hp in Hd' as [? ?].
  destruct Hd as [_ Hl]. split_and!; try done. by exists m, fs.
Qed.
End Recover.

(** * A concrete namespace directory

    Runs of the directory backend with a codec for a few envelopes, at which
    the theorems on updates, restores and recovery apply. *)
From S2P Require Import RestoreTheorems.

Section Witnesses.
#[local] Existing Instance demo_externals.
#[local] Existing Instance demo_hex.
#[local] Instance disk_payload_json : Json DiskPayload := demo_json.
#[local] Instance snapshot_payload_json : Json SnapshotPayload := demo_json.

Definition app : string := "dev.example.app".
Definition app_directory : string := namespace_directory app.
Definition app_state (generation : N) (entries : gmap string bytes) : State :=
  mkState generation 2 entries (mkUsage (entries_bytes entries) (btree_len entries)).
Definition app_envelope (generation : N) (entries : gmap string bytes) : DiskEnvelope :=
  mkDiskEnvelope (mkDiskPayload 2 app generation 2 (hex_encode <$> entries)) (hex_sha256 []).
Definition entries_one : gmap string bytes := {["a" := [x01]]}.
Definition entries_two : gmap string bytes := {["a" := [x02]]}.
Definition envelopes : list DiskEnvelope :=
  [app_envelope 1 entries_one; app_envelope 2 entries_two; app_envelope 8 demo_entries].
#[local] Instance envelope_json : Json DiskEnvelope := table_json envelopes.
#[local] Instance envelope_decode : JsonDecode DiskEnvelope := table_decode envelopes.
#[local] Instance envelope_rt : JsonRoundTrip DiskEnvelope := table_round_trip envelopes.

Definition app_disk : Disk := {[app_directory := {[state_file_name 1 := [x00]]}; "elsewhere" := {["x" := [x07]]}]}.
Definition app_world (fates : list fate) : World := mkWorld app_disk 0 77 fates.
Definition update : Update := Put "a" [x02] demo_limits_8.

Lemma app_loads fates : load_state (default ∅ (disk (app_world fates) !! namespace_directory app)) app = Ok (app_state 1 entries_one).
Proof. vm_compute. reflexivity. Qed.
Lemma update_next : next update (app_state 1 entries_one) = Ok (tt, Some (app_state 1 entries_two)).
Proof. vm_compute. reflexivity. Qed.
Lemma update_fits : fits app (app_state 1 entries_two).
Proof.
  exists (app_envelope 2 entries_two), [x01]. split; [vm_compute; reflexivity|]. split; [vm_compute; reflexivity|].
  vm_compute. discriminate.
Qed.

(** The process dies in the middle of writing the temporary file. *)
Definition dying : list fate := [Succeeds; Succeeds; Succeeds; Succeeds; Dies 0].
Lemma directory_update_survives_crash_witness :
  exists w', exec app update (app_world dying) = (w', Died)
    /\ landed app_disk app (precheck update) (next update) (app_state 1 entries_one) Died (disk w').
Proof.
  destruct (exec app update (app_world dying)) as [w' o] eqn:Hr. exists w'.
  assert (o = Died) as Ho by (apply (f_equal snd) in Hr; vm_compute in Hr; symmetry; exact Hr).
  split; [by rewrite Ho|]. rewrite <- Ho.
  apply (directory_update_survives_crash app update (app_state 1 entries_one) (app_world dying)).
  - apply app_loads.
  - intros a s' H. rewrite update_next in H. injection H as _ <-. apply update_fits.
  - exact Hr.
Defined.

Definition app_memory : MemoryStorage :=
  mkMemoryStorage false {[app := mkNamespace 2 1 entries_one 1]}.
Lemma backends_agree_witness :
  exists w' st' r s', exec app update (app_world []) = (w', Done (Ok r)) /\ memory_exec app_memory app update = (st', r)
    /\ load_state (default ∅ (disk w' !! app_directory)) app = Ok s'
    /\ represents s' (MemoryBackend.entry_or_default st' app).
Proof.
  destruct (backends_agree app update (app_state 1 entries_one) app_memory (app_world [])) as (w' & st' & r & s' & H1 & H2 & _ & H3 & H4).
  - reflexivity.
  - reflexivity.
  - reflexivity.
  - vm_compute. reflexivity.
  - vm_compute. reflexivity.
  - apply app_loads.
  - vm_compute. split; reflexivity.
  - intros a s' H. rewrite update_next in H. injection H as _ <-. apply update_fits.
  - exists w', st', r, s'. split; [exact H1|]. split; [exact H2|]. split; [exact H3|exact H4].
Defined.

(** A snapshot over the state that was captured before. *)
Definition captured : CapturedState :=
  mkCaptured 1 (mkSnapshot (mkSnapshotPayload 3 app 2 1 (hex_encode <$> entries_one)) (hex_sha256 [])).
Lemma restore_is_atomic_witness :
  exists w' plan s', restore_call app (Some captured) demo_snapshot demo_limits_8 (app_world []) = (w', Done (Ok (Ok plan)))
    /\ unchanged_since app captured (app_state 1 entries_one)
    /\ load_state (default ∅ (disk w' !! app_directory)) app = Ok s' /\ entries_for demo_snapshot app = Ok s'.(st_entries).
Proof.
  destruct (restore_call app (Some captured) demo_snapshot demo_limits_8 (app_world [])) as [w' o] eqn:Hr.
  destruct (restore_is_atomic app (Some captured) demo_snapshot demo_limits_8 (app_state 1 entries_one) (app_world []) w' o)
    as [_ Ho].
  - apply app_loads.
  - intros m Hm. assert (m = demo_entries) as -> by (vm_compute in Hm; injection Hm as <-; vm_compute; reflexivity).
    exists (app_envelope 8 demo_entries), [x02]. split; [vm_compute; reflexivity|]. split; [vm_compute; reflexivity|].
    vm_compute. discriminate.
  - exact Hr.
  - destruct o as [[[plan|e]|e]|]; [|apply (f_equal snd) in Hr; vm_compute in Hr; discriminate Hr..].
    destruct Ho as [Hg (s' & Hl & He & _)]. exists w', plan, s'. split; [reflexivity|]. split; [exact Hg|]. split; [exact Hl|exact He].
Defined.

(** Generation 2 is torn; generation 1 is recovered. *)
Definition torn_world : World :=
  mkWorld {[app_directory := {[state_file_name 1 := [x00]; state_file_name 2 := [x7b]]}]} 0 77 [].
Lemma recovery_keeps_newest_witness :
  exists w' report, D.recover app torn_world = (w', Done (Ok (Ok report))) /\ report.(valid_generation) = Some 1
    /\ load_state (default ∅ (disk w' !! app_directory)) app = Ok (app_state 1 entries_one).
Proof.
  destruct (D.recover app torn_world) as [w' o] eqn:Hr.
  destruct (recovery_keeps_newest app (Some (app_state 1 entries_one)) torn_world w' o) as (_ & _ & Ho).
  - vm_compute. reflexivity.
  - exact Hr.
  - destruct o as [[[report|e]|e]|]; [|apply (f_equal snd) in Hr; vm_compute in Hr; discriminate Hr..].
    destruct Ho as (Hl & Hv & _). exists w', report. split; [reflexivity|]. split; [exact Hv|exact Hl].
Defined.
End Witnesses.
