(* ===== verification/Blob.v ===== *)
(** * The blob store ([crates/cartridge-storage/src/blob.rs])

    A content-addressed store: an object is the file named by the digest of its
    content, in the shard directory of the digest's first two digits.  The
    operations are runs of system calls in the sense of [Files]; the store's
    root is the current directory, [objects/xx] are the shards and [tmp] holds
    the files being written.  There are no symbolic links, so [reject_symlink]
    has nothing to reject and a canonical path is the path; the content of a
    file that is put is an argument. *)
From stdpp Require Import pretty.
From S2P Require Import Prelude Text Events Files Storage Snapshot Directory.

Definition MAX_BLOB_BYTES : N := 256 * 1024 * 1024.
Definition MAX_BLOB_GC_ROOTS : N := 100000.
Definition MAX_BLOB_OBJECTS : N := 100000.

Record BlobInfo := mkBlobInfo { bi_sha256 : string; bi_bytes : N; existed : bool }.
Record BlobReference := mkBlobReference { br_sha256 : string; br_bytes : N }.
#[global] Instance blob_info_eq_dec : EqDecision BlobInfo.
Proof. solve_decision. Defined.
#[global] Instance blob_reference_eq_dec : EqDecision BlobReference.
Proof. solve_decision. Defined.
Record BlobGcReport := mkGcReport {
  gc_retained : N;
  removable : N;
  removable_bytes : N;
  gc_removed : N;
  gc_removed_bytes : N;
  dry_run : bool;
}.
Record BlobInventory := mkInventory { objects : list BlobReference; total_bytes : N }.
(** The error is kept as a value; the source keeps its text. *)
Record BlobAuditIssue := mkIssue { issue_sha256 : string; issue_error : Error }.
Record BlobAuditReport := mkAudit { valid_objects : N; valid_bytes : N; issues : list BlobAuditIssue }.
Definition healthy (self : BlobAuditReport) : bool := match self.(issues) with [] => true | _ => false end.
Record BlobReferenceVerification := mkVerification { bv_objects : N; bv_bytes : N }.

(** ** References *)
Definition validate_digest (value : string) : Result unit :=
  if negb (str_len value =? 64) || negb (forallb is_lower_hex (str_bytes value))
  then Err (Corrupt "blob digest must be lowercase sha256") else Ok tt.

Definition validate_reference (self : BlobReference) : Result unit :=
  let? _ := validate_digest self.(br_sha256) in
  if MAX_BLOB_BYTES <? self.(br_bytes) then Err (Corrupt "blob reference exceeds the byte limit") else Ok tt.
Definition new_reference (sha256 : string) (bytes : N) : Result BlobReference :=
  let reference := mkBlobReference sha256 bytes in
  let? _ := validate_reference reference in
  Ok reference.

(** [b"cartridge-blob-v1\0"] *)
Definition BLOB_REFERENCE_PREFIX : bytes :=
  [x63; x61; x72; x74; x72; x69; x64; x67; x65; x2d; x62; x6c; x6f; x62; x2d; x76; x31; x00].
Definition BLOB_REFERENCE_BYTES : N := len BLOB_REFERENCE_PREFIX + 64 + 8.

(** [u64::to_be_bytes] and [u64::from_be_bytes] *)
Fixpoint be_bytes (width : nat) (n : N) : bytes :=
  match width with
  | O => []
  | S w => default x00 (Byte.of_N (n / 256 ^ N.of_nat w mod 256)) :: be_bytes w n
  end.
Definition from_be_bytes (b : bytes) : N := fold_left (fun n x => n * 256 + Byte.to_N x) b 0.

Definition encode_reference (self : BlobReference) : Result bytes :=
  let? _ := validate_reference self in
  Ok (BLOB_REFERENCE_PREFIX ++ as_bytes self.(br_sha256) ++ be_bytes 8 self.(br_bytes)).

(** [str::from_utf8]: the well-formed sequences of the Unicode standard. *)
Definition continuation (b : N) : bool := in_range 128 191 b.
Fixpoint utf8_valid (bs : list N) : bool :=
  match bs with
  | [] => true
  | b0 :: r0 =>
      if b0 <=? 127 then utf8_valid r0
      else match r0 with
      | [] => false
      | b1 :: r1 =>
          if in_range 194 223 b0 then continuation b1 && utf8_valid r1
          else match r1 with
          | [] => false
          | b2 :: r2 =>
              if in_range 224 239 b0 then
                in_range (if b0 =? 224 then 160 else 128) (if b0 =? 237 then 159 else 191) b1
                && continuation b2 && utf8_valid r2
              else match r2 with
              | [] => false
              | b3 :: r3 =>
                  in_range 240 244 b0
                  && in_range (if b0 =? 240 then 144 else 128) (if b0 =? 244 then 143 else 191) b1
                  && continuation b2 && continuation b3 && utf8_valid r3
              end
          end
      end
  end.
Fixpoint text_of (b : bytes) : string :=
  match b with [] => EmptyString | x :: b => String (ascii_of_N (Byte.to_N x)) (text_of b) end.
Definition from_utf8 (b : bytes) : option string :=
  if utf8_valid (Byte.to_N <$> b) then Some (text_of b) else None.

Definition decode_reference (value : bytes) : Result (option BlobReference) :=
  if negb (bool_decide (take (length BLOB_REFERENCE_PREFIX) value = BLOB_REFERENCE_PREFIX)) then Ok None
  else if negb (len value =? BLOB_REFERENCE_BYTES) then Err (Corrupt "blob reference has an invalid length")
  else
    let rest := drop (length BLOB_REFERENCE_PREFIX) value in
    let? sha256 := ok_or (from_utf8 (take 64 rest)) (Corrupt "blob reference digest is not text") in
    let bytes := from_be_bytes (drop 64 rest) in
    let? reference := new_reference sha256 bytes in
    Ok (Some reference).

(** [StorageSnapshot::blob_references] of [snapshot.rs] *)
Fixpoint collect_references (references : gmap string N) (values : list bytes) : Result (gmap string N) :=
  match values with
  | [] => Ok references
  | value :: values =>
      let? decoded := decode_reference value in
      match decoded with
      | None => collect_references references values
      | Some r =>
          if is_some_and (fun bytes => negb (bytes =? r.(br_bytes))) (references !! r.(br_sha256))
          then Err (Corrupt "snapshot has conflicting sizes for blob")
          else collect_references (<[r.(br_sha256) := r.(br_bytes)]> references) values
      end
  end.
Definition blob_references `{HexDecode} (self : StorageSnapshot) : Result (gmap string N) :=
  let? entries := decode_entries self in
  collect_references ∅ (btree_values entries).

Definition validate_gc_root_count (retained references : N) : Result unit :=
  let? root_count := ok_or (checked_add usize_max retained references) (Corrupt "blob root count overflowed") in
  if MAX_BLOB_GC_ROOTS <? root_count then Err (Corrupt "blob garbage collection exceeds the root limit") else Ok tt.

(** ** The store on disk *)
Definition OBJECTS : string := "objects".
Definition TEMPORARY : string := "tmp".
Definition STORE_LOCK : Path := (".", "store.lock").
Definition shard_directory (shard : string) : string := "objects/" +:+ shard.
Definition first_two (s : string) : string :=
  match s with String a (String b _) => String a (String b EmptyString) | s => s end.
Definition digest_path (sha256 : string) : Path := (shard_directory (first_two sha256), sha256).

Definition object_path (sha256 : string) : Result Path :=
  let? _ := validate_digest sha256 in
  Ok (digest_path sha256).

(** [format!(".cartridge-blob-{label}-{}-{sequence}.tmp", process::id())] *)
Definition blob_temporary_name (label : string) (process sequence : N) : string :=
  ".cartridge-blob-" +:+ label +:+ "-" +:+ pretty process +:+ "-" +:+ pretty sequence +:+ ".tmp".
Definition blob_temporary_path (directory label : string) : IO Path :=
  do? sequence := fetch_sequence in
  do? process := get_process_id in
  ret (directory, blob_temporary_name label process sequence).

(** A directory or file that must exist *)
Definition require_present (present : bool) : IO unit := if present then ret tt else fail NO_ENTRY.
Definition validate_layout : IO unit := fun w =>
  require_present (is_some (w.(disk) !! OBJECTS) && is_some (w.(disk) !! TEMPORARY)
                   && is_some (read_path w.(disk) STORE_LOCK)) w.

(** The lock must be there; opening and taking it are system calls. *)
Definition blob_acquire_lock : IO unit :=
  do? present := exists_file STORE_LOCK in
  require_present present ;;? sync_all ;;? sync_all.

(** [PendingFile]: the file is removed when the block ends, unless the block
    removed it ([true]). *)
Definition with_pending {A : Type} (path : Path) (body : IOR (A * bool)) : IOR A :=
  do? r := attempt body in
  match r with
  | Ok (Ok (a, true)) => ret (Ok a)
  | Ok (Ok (a, false)) => discard path ;;? ret (Ok a)
  | Ok (Err e) => discard path ;;? ret (Err e)
  | Err e => discard path ;;? fail e
  end.

Section Blob.
Context `{Ext : Externals}.

(** [hash_reader]: the size and the digest of a content within the limit *)
Definition hash_content (content : bytes) (limit : N) : Result (N * string) :=
  if limit <? len content then Err (Corrupt "blob exceeds the byte limit")
  else Ok (len content, hex_sha256 content).
(** [copy_and_hash] and [sync_all]: the loop writes and hashes the whole
    content; past the limit it stops with an error. *)
Definition copy_and_hash (target : Path) (content : bytes) (limit : N) : IOR (N * string) :=
  try? hashed := pure_ (hash_content content limit) in
  io (write_all target content) ;;!
  pure_ (Ok hashed).

Definition verify_content (sha256 : string) (content : bytes) : Result BlobInfo :=
  let? (bytes, actual) := hash_content content MAX_BLOB_BYTES in
  if negb (bool_decide (actual = sha256)) then Err (Corrupt "blob does not match its content")
  else Ok (mkBlobInfo sha256 bytes true).
Definition verify_object_path_locked (sha256 : string) (path : Path) : IOR BlobInfo :=
  pure_ (validate_digest sha256) ;;!
  try? content := io (read_file path) in
  pure_ (verify_content sha256 content).
Definition verify_locked (sha256 : string) : IOR BlobInfo :=
  io validate_layout ;;!
  try? path := pure_ (object_path sha256) in
  verify_object_path_locked sha256 path.
Definition verify (sha256 : string) : IOR BlobInfo := io blob_acquire_lock ;;! verify_locked sha256.

(** The part of [put_locked] that runs while the temporary file is pending *)
Definition put_pending (temporary : Path) (input : bytes) : IOR (BlobInfo * bool) :=
  io (create_new temporary) ;;!
  try? (bytes, sha256) := copy_and_hash temporary input MAX_BLOB_BYTES in
  try? final_path := pure_ (object_path sha256) in
  io (ensure_directory final_path.1) ;;!
  io (set_private_directory_permissions final_path.1) ;;!
  try? present := io (exists_file final_path) in
  if present : bool then
    try? existing := verify_locked sha256 in
    if negb (existing.(bi_bytes) =? bytes)
    then pure_ (Err (Corrupt "blob digest collision has a different size"))
    else pure_ (Ok (mkBlobInfo existing.(bi_sha256) existing.(bi_bytes) true, false))
  else
    io (hard_link temporary final_path) ;;!
    io (remove_file temporary) ;;!
    pure_ (Ok (mkBlobInfo sha256 bytes false, true)).
Definition put_locked (input : bytes) : IOR BlobInfo :=
  io validate_layout ;;!
  if MAX_BLOB_BYTES <? len input then pure_ (Err (Corrupt "blob input exceeds the byte limit"))
  else
    try? temporary := io (blob_temporary_path TEMPORARY "incoming") in
    try? info :=
      with_pending temporary (put_pending temporary input) in
    if info.(existed) then pure_ (Ok info)
    else
      io (sync_directory (digest_path info.(bi_sha256)).1) ;;!
      io (sync_directory OBJECTS) ;;!
      pure_ (Ok info).
Definition blob_put (input : bytes) : IOR BlobInfo := io blob_acquire_lock ;;! put_locked input.

Definition materialize_locked (sha256 : string) (output : Path) : IOR BlobInfo :=
  try? verified := verify_locked sha256 in
  try? source_path := pure_ (object_path sha256) in
  io (ensure_directory output.1) ;;!
  try? temporary := io (blob_temporary_path output.1 "materialize") in
  try? info :=
    with_pending temporary
      (try? content := io (read_file source_path) in
       io (create_new temporary) ;;!
       try? (bytes, actual) := copy_and_hash temporary content MAX_BLOB_BYTES in
       if negb (bytes =? verified.(bi_bytes)) || negb (bool_decide (actual = sha256))
       then pure_ (Err (Corrupt "blob changed while it was materialized"))
       else
         io (hard_link temporary output) ;;!
         io (remove_file temporary) ;;!
         pure_ (Ok (verified, true))) in
  io (sync_directory output.1) ;;!
  pure_ (Ok info).
Definition materialize (sha256 : string) (output : Path) : IOR BlobInfo :=
  io blob_acquire_lock ;;! materialize_locked sha256 output.

(** ** Listing the objects

    Shards and objects are listed in the order of their names, which is the
    order [files.sort()] gives their paths; a path is known by its digest. *)
Definition shards (d : gmap string Directory) : list (string * Directory) :=
  omap (fun '(path, files) => (fun shard => (shard, files)) <$> strip_prefix "objects/" path) (btree_iter d).

Fixpoint list_shard (shard : string) (files : list string) (names : list string) : Result (list string) :=
  match names with
  | [] => Ok files
  | digest :: names =>
      let? _ := validate_digest digest in
      if negb (starts_with digest shard) then Err (UnsafePath digest)
      else
        let files := files ++ [digest] in
        if MAX_BLOB_OBJECTS <? len files then Err (Corrupt "blob store exceeds the object limit")
        else list_shard shard files names
  end.
Fixpoint list_shards (files : list string) (l : list (string * Directory)) : Result (list string) :=
  match l with
  | [] => Ok files
  | (shard, directory) :: l =>
      if negb (str_len shard =? 2) || negb (forallb is_lower_hex (str_bytes shard)) then Err (UnsafePath shard)
      else
        let? files := list_shard shard files (btree_keys directory) in
        list_shards files l
  end.
Definition object_files_of (d : gmap string Directory) : Result (list string) :=
  match btree_keys (default ∅ (d !! OBJECTS)) with
  | name :: _ => Err (UnsafePath name)
  | [] => list_shards [] (shards d)
  end.
Definition object_files : IOR (list string) := fun w => (w, Done (Ok (object_files_of w.(disk)))).

(** ** Reports *)
Fixpoint inventory_loop (inventory : BlobInventory) (files : list string) : IOR BlobInventory :=
  match files with
  | [] => pure_ (Ok inventory)
  | sha256 :: files =>
      try? info := verify_object_path_locked sha256 (digest_path sha256) in
      try? total := pure_ (ok_or (checked_add u64_max inventory.(total_bytes) info.(bi_bytes))
                             (Corrupt "blob inventory size overflowed")) in
      try? reference := pure_ (new_reference info.(bi_sha256) info.(bi_bytes)) in
      inventory_loop (mkInventory (inventory.(objects) ++ [reference]) total) files
  end.
Definition inventory_locked : IOR BlobInventory :=
  io validate_layout ;;!
  try? files := object_files in
  inventory_loop (mkInventory [] 0) files.
Definition inventory : IOR BlobInventory := io blob_acquire_lock ;;! inventory_locked.

Fixpoint audit_loop (report : BlobAuditReport) (files : list string) : IOR BlobAuditReport :=
  match files with
  | [] => pure_ (Ok report)
  | sha256 :: files =>
      try? outcome := io (attempt (verify_object_path_locked sha256 (digest_path sha256))) in
      match outcome with
      | Ok (Ok info) =>
          try? total := pure_ (ok_or (checked_add u64_max report.(valid_bytes) info.(bi_bytes))
                                 (Corrupt "blob audit size overflowed")) in
          audit_loop (mkAudit (report.(valid_objects) + 1) total report.(issues)) files
      | Ok (Err error) =>
          audit_loop (mkAudit report.(valid_objects) report.(valid_bytes)
                        (report.(issues) ++ [mkIssue sha256 error])) files
      | Err error =>
          audit_loop (mkAudit report.(valid_objects) report.(valid_bytes)
                        (report.(issues) ++ [mkIssue sha256 (Io error)])) files
      end
  end.
Definition audit_locked : IOR BlobAuditReport :=
  io validate_layout ;;!
  try? files := object_files in
  audit_loop (mkAudit 0 0 []) files.
Definition audit : IOR BlobAuditReport := io blob_acquire_lock ;;! audit_locked.

Fixpoint verify_references_loop (report : BlobReferenceVerification) (l : list (string * N)) :
    IOR BlobReferenceVerification :=
  match l with
  | [] => pure_ (Ok report)
  | (sha256, expected_bytes) :: l =>
      try? reference := pure_ (new_reference sha256 expected_bytes) in
      try? actual := verify_locked reference.(br_sha256) in
      if negb (actual.(bi_bytes) =? reference.(br_bytes))
      then pure_ (Err (Corrupt "blob size differs from its reference"))
      else
        try? total := pure_ (ok_or (checked_add u64_max report.(bv_bytes) actual.(bi_bytes))
                               (Corrupt "blob reference size overflowed")) in
        verify_references_loop (mkVerification (report.(bv_objects) + 1) total) l
  end.
Definition verify_references_locked (references : gmap string N) : IOR BlobReferenceVerification :=
  pure_ (validate_gc_root_count 0 (btree_len references)) ;;!
  verify_references_loop (mkVerification 0 0) (btree_iter references).
Definition verify_references (references : gmap string N) : IOR BlobReferenceVerification :=
  io blob_acquire_lock ;;! verify_references_locked references.

(** ** Garbage collection *)
Fixpoint check_digests (l : list string) : Result unit :=
  match l with
  | [] => Ok tt
  | digest :: l => let? _ := validate_digest digest in check_digests l
  end.
Fixpoint plan_removals (retained : gset string) (report : BlobGcReport) (removals : list (string * N))
    (files : list string) : IOR (BlobGcReport * list (string * N)) :=
  match files with
  | [] => pure_ (Ok (report, removals))
  | digest :: files =>
      if bool_decide (digest ∈ retained) then plan_removals retained report removals files
      else
        try? info := verify_locked digest in
        try? total := pure_ (ok_or (checked_add u64_max report.(removable_bytes) info.(bi_bytes))
                               (Corrupt "blob garbage collection size overflowed")) in
        plan_removals retained
          (mkGcReport report.(gc_retained) (report.(removable) + 1) total report.(gc_removed)
             report.(gc_removed_bytes) report.(dry_run))
          (removals ++ [(digest, info.(bi_bytes))]) files
  end.
Fixpoint remove_objects (report : BlobGcReport) (removals : list (string * N)) : IOR BlobGcReport :=
  match removals with
  | [] => pure_ (Ok report)
  | (digest, bytes) :: removals =>
      io (remove_file (digest_path digest)) ;;!
      try? total := pure_ (ok_or (checked_add u64_max report.(gc_removed_bytes) bytes)
                             (Corrupt "blob removal size overflowed")) in
      remove_objects
        (mkGcReport report.(gc_retained) report.(removable) report.(removable_bytes) (report.(gc_removed) + 1)
           total report.(dry_run)) removals
  end.
Definition gc_locked (retained : gset string) (dry : bool) : IOR BlobGcReport :=
  io validate_layout ;;!
  pure_ (check_digests (elements retained)) ;;!
  try? files := object_files in
  try? (report, removals) := plan_removals retained (mkGcReport (set_len retained) 0 0 0 0 dry) [] files in
  if dry then pure_ (Ok report)
  else
    try? report := remove_objects report removals in
    io (sync_directory OBJECTS) ;;!
    pure_ (Ok report).
Definition gc_with_references_locked (retained : gset string) (references : gmap string N) (dry : bool) :
    IOR BlobGcReport :=
  pure_ (validate_gc_root_count (set_len retained) (btree_len references)) ;;!
  verify_references_locked references ;;!
  gc_locked (retained ∪ dom references) dry.
Definition gc_with_references (retained : gset string) (references : gmap string N) (dry : bool) : IOR BlobGcReport :=
  io blob_acquire_lock ;;! gc_with_references_locked retained references dry.
Definition gc (retained : gset string) (dry : bool) : IOR BlobGcReport := gc_with_references retained ∅ dry.

(** ** Opening *)
Fixpoint remove_abandoned (names : list string) : IOR unit :=
  match names with
  | [] => pure_ (Ok tt)
  | name :: names =>
      if negb (starts_with name ".cartridge-blob-incoming-") || negb (exact_suffix name ".tmp")
      then pure_ (Err (UnsafePath name))
      else io (remove_file (TEMPORARY, name)) ;;! remove_abandoned names
  end.
Definition remove_abandoned_temporary_files : IOR unit :=
  io validate_layout ;;!
  try? directory := io (read_dir TEMPORARY) in
  remove_abandoned (btree_keys directory) ;;!
  io (sync_directory TEMPORARY).
Definition open_lock_file (path : Path) : IO unit :=
  syscall (fun d => match read_path d path with
                    | Some _ => Ok (d, tt)
                    | None => Ok (write_path d path [], tt)
                    end) untouched.
Definition blob_open : IOR unit :=
  io (ensure_directory ".") ;;! io (set_private_directory_permissions ".") ;;!
  io (ensure_directory OBJECTS) ;;! io (set_private_directory_permissions OBJECTS) ;;!
  io (ensure_directory TEMPORARY) ;;! io (set_private_directory_permissions TEMPORARY) ;;!
  io (open_lock_file STORE_LOCK) ;;!
  io blob_acquire_lock ;;!
  remove_abandoned_temporary_files.
End Blob.
