(* ===== verification/BlobTheorems.v ===== *)
(** * Theorems on the blob store

    Objects are only ever added whole and under the digest of their content;
    garbage collection removes exactly what no root names; references found in
    a snapshot keep their objects alive. *)
From stdpp Require Import pretty.
From S2P Require Import Prelude Text Events Files Storage StorageSpec Snapshot Directory DirectoryTheorems Blob.

(** ** References *)
Lemma byte_of_N_to_N n : n < 256 -> Byte.to_N (default x00 (Byte.of_N n)) = n.
Proof.
  intros Hn. destruct (Byte.of_N n) as [b|] eqn:Hb; [by apply Byte.to_of_N|].
  apply Byte.of_N_None_iff in Hb. lia.
Qed.

Lemma from_be_be w n acc :
  fold_left (fun n x => n * 256 + Byte.to_N x) (be_bytes w n) acc = acc * 256 ^ N.of_nat w + n mod 256 ^ N.of_nat w.
Proof.
  revert acc. induction w as [|w IH]; intros acc; [cbn; rewrite N.mod_1_r; lia|].
  rewrite Nat2N.inj_succ, N.pow_succ_r', (N.mul_comm 256 (256 ^ N.of_nat w)), N.Div0.mod_mul_r.
  cbn [be_bytes fold_left]. rewrite IH, byte_of_N_to_N by (apply N.mod_upper_bound; lia). lia.
Qed.
Lemma be_round_trip n : n <= u64_max -> from_be_bytes (be_bytes 8 n) = n.
Proof.
  intros Hn. unfold from_be_bytes. rewrite from_be_be. rewrite N.mod_small; [lia|].
  change (256 ^ N.of_nat 8) with 18446744073709551616. unfold u64_max in Hn. lia.
Qed.
Lemma be_bytes_length w n : length (be_bytes w n) = w.
Proof. induction w as [|w IH]; [done|]. cbn. by rewrite IH. Qed.

Lemma text_of_as_bytes s : text_of (as_bytes s) = s.
Proof.
  unfold as_bytes. induction s as [|a s IH]; [done|]. csimpl. rewrite IH, byte_of_N_to_N, ascii_N_embedding; [done|].
  apply N_ascii_bounded.
Qed.
Lemma as_bytes_length s : len (as_bytes s) = str_len s.
Proof. unfold as_bytes, str_len, len. by rewrite length_fmap. Qed.
Lemma hex_text_valid s : forallb is_lower_hex (str_bytes s) = true -> utf8_valid (Byte.to_N <$> as_bytes s) = true.
Proof.
  unfold as_bytes. induction s as [|a s IH]; [done|]. csimpl. intros [Ha Hs]%andb_true_iff.
  rewrite byte_of_N_to_N by apply N_ascii_bounded.
  assert ((N_of_ascii a <=? 127) = true) as ->; [|by apply IH].
  apply N.leb_le. unfold is_lower_hex, is_ascii_digit, in_range in Ha. apply orb_true_iff in Ha as [Ha|Ha];
    apply andb_true_iff in Ha as [? Ha]; apply N.leb_le in Ha; lia.
Qed.

Lemma validate_digest_Ok s : validate_digest s = Ok tt <-> is_digest s = true.
Proof.
  unfold validate_digest, is_digest. destruct (_ =? 64); [|done]. cbn. by destruct (forallb _ _).
Qed.
Lemma validate_reference_Ok r :
  validate_reference r = Ok tt <-> is_digest r.(br_sha256) = true /\ r.(br_bytes) <= MAX_BLOB_BYTES.
Proof.
  unfold validate_reference. rewrite <- validate_digest_Ok. destruct (validate_digest _) as [[]|]; [|naive_solver].
  destruct (N.ltb_spec MAX_BLOB_BYTES (br_bytes r)); naive_solver lia.
Qed.

(** Blob references round-trip and are validated: decoding what was encoded
    gives the reference back, and whatever bytes decode to a reference, it names
    a lowercase SHA-256 digest and a size within the blob limit. *)
Theorem blob_reference_round_trip (r : BlobReference) (b : bytes) :
  (encode_reference r = Ok b -> decode_reference b = Ok (Some r))
  /\ (decode_reference b = Ok (Some r) -> is_digest r.(br_sha256) = true /\ r.(br_bytes) <= MAX_BLOB_BYTES).
Proof.
  split.
  - unfold encode_reference. destruct (validate_reference r) as [[]|] eqn:Hv; [|done]. intros Henc.
    assert (b = BLOB_REFERENCE_PREFIX ++ as_bytes (br_sha256 r) ++ be_bytes 8 (br_bytes r)) as -> by congruence. clear Henc.
    pose proof Hv as [Hd Hb]%validate_reference_Ok. unfold is_digest in Hd. apply andb_true_iff in Hd as [Hl Hh]. apply N.eqb_eq in Hl.
    assert (length (as_bytes (br_sha256 r)) = 64%nat) as Hlen by (pose proof (as_bytes_length (br_sha256 r)); unfold len in *; lia).
    unfold decode_reference. rewrite take_app_length, bool_decide_eq_true_2 by done. cbn [negb].
    assert ((len (BLOB_REFERENCE_PREFIX ++ as_bytes (br_sha256 r) ++ be_bytes 8 (br_bytes r)) =? BLOB_REFERENCE_BYTES) = true) as ->.
    { apply N.eqb_eq. unfold len. rewrite !length_app, Hlen, be_bytes_length. reflexivity. }
    cbn [negb]. cbn zeta. rewrite drop_app_length, take_app_length', drop_app_length' by done. unfold from_utf8. rewrite hex_text_valid by done. cbn [ok_or].
    rewrite text_of_as_bytes, be_round_trip by (unfold MAX_BLOB_BYTES, u64_max in *; lia).
    unfold new_reference. destruct r as [sha n]. cbn in *. by rewrite Hv.
  - unfold decode_reference. destruct (negb _); [done|]. pass H1. cbn zeta. destruct (ok_or _ _); [|done].
    unfold new_reference. destruct (validate_reference _) as [[]|] eqn:Hv; [|done]. intros [= <-]. by apply validate_reference_Ok.
Qed.

(** The references of a snapshot are those its values decode to. *)
Lemma collect_references_spec values refs refs' :
  collect_references refs values = Ok refs' ->
  (forall sha n, refs !! sha = Some n -> refs' !! sha = Some n)
  /\ (forall v r, v ∈ values -> decode_reference v = Ok (Some r) -> refs' !! r.(br_sha256) = Some r.(br_bytes)).
Proof.
  revert refs. induction values as [|v values IH]; intros refs; cbn [collect_references]; [intros [= <-]; set_solver|].
  destruct (decode_reference v) as [[r|]|] eqn:Hv; [| |done].
  - pass Hc. intros [Hk Hin]%IH. split.
    + intros sha n Hs. apply Hk. destruct (decide (sha = br_sha256 r)) as [->|Hne]; [|by rewrite lookup_insert_ne].
      rewrite Hs in Hc. cbn in Hc. apply negb_false_iff, N.eqb_eq in Hc as <-. by rewrite lookup_insert_eq.
    + intros v' r' [->|Hv']%elem_of_cons Hr'; [|by eapply Hin]. rewrite Hv in Hr'. injection Hr' as <-.
      apply Hk. by rewrite lookup_insert_eq.
  - intros [Hk Hin]%IH. split; [done|]. intros v' r' [->|Hv']%elem_of_cons Hr'; [congruence|by eapply Hin].
Qed.

(** ** Objects on disk *)
Definition object (d : Disk) (sha256 : string) : option bytes := read_path d (digest_path sha256).
(** Directories the store does not keep objects or temporary files in. *)
Definition elsewhere (x : string) : Prop := x <> TEMPORARY /\ strip_prefix "objects/" x = None.

Lemma strip_shard s : strip_prefix "objects/" (shard_directory s) = Some s.
Proof. done. Qed.
Lemma tmp_not_shard s : TEMPORARY <> shard_directory s.
Proof. discriminate. Qed.
Lemma shard_inj s s' : shard_directory s = shard_directory s' -> s = s'.
Proof. intros H. apply (f_equal (strip_prefix "objects/")) in H. rewrite !strip_shard in H. congruence. Qed.

Lemma object_write_tmp d n c sha : object (write_path d (TEMPORARY, n) c) sha = object d sha.
Proof. apply read_write_ne. discriminate. Qed.
Lemma object_remove_tmp d n sha : object (remove_path d (TEMPORARY, n)) sha = object d sha.
Proof. apply read_remove_ne. discriminate. Qed.
Lemma object_new_dir d x sha : d !! x = None -> object (<[x := ∅]> d) sha = object d sha.
Proof.
  intros Hx. unfold object, read_path. destruct (decide (x = (digest_path sha).1)) as [->|Hne].
  - rewrite lookup_insert_eq, Hx. cbn. apply lookup_empty.
  - by rewrite lookup_insert_ne.
Qed.
Lemma object_write d sha c sha' :
  is_Some (d !! (digest_path sha).1) ->
  object (write_path d (digest_path sha) c) sha' = if decide (sha' = sha) then Some c else object d sha'.
Proof.
  intros Hd. case_decide as Hs; [subst; by apply read_write_eq|]. apply read_write_ne. intros H. injection H as _ H. congruence.
Qed.
Lemma object_remove d sha sha' :
  object (remove_path d (digest_path sha)) sha' = if decide (sha' = sha) then None else object d sha'.
Proof.
  case_decide as Hs; [subst; apply read_remove_eq|]. apply read_remove_ne. intros H. injection H as _ H. congruence.
Qed.

Section Objects.
Context `{Ext : Externals}.
Variables (d0 : Disk).

(** The other directories did not change, and the temporary one is still there. *)
Definition stays (d : Disk) : Prop :=
  (forall x, elsewhere x -> d !! x = d0 !! x) /\ (is_Some (d0 !! TEMPORARY) -> is_Some (d !! TEMPORARY)).
(** Only the store's directories changed, and the objects are [f]. *)
Definition holds_objects (f : string -> option bytes) (d : Disk) : Prop :=
  (forall sha, object d sha = f sha) /\ stays d.

Lemma elsewhere_shard x s : elsewhere x -> x <> shard_directory s.
Proof. intros [_ Hx] ->. by rewrite strip_shard in Hx. Qed.
Lemma stays_write d path c : ~ elsewhere path.1 -> stays d -> stays (write_path d path c).
Proof.
  intros Hp [He Ht]. split; [intros x Hx; rewrite dir_write; [by apply He|by intros ->]|].
  intros H. by apply is_dir_write, Ht.
Qed.
Lemma stays_remove d path : ~ elsewhere path.1 -> stays d -> stays (remove_path d path).
Proof.
  intros Hp [He Ht]. split; [intros x Hx; rewrite dir_remove; [by apply He|by intros ->]|].
  intros H. by apply is_dir_remove, Ht.
Qed.
Lemma tmp_here (n : string) : ~ elsewhere (TEMPORARY, n).1.
Proof. by intros [? _]. Qed.
Lemma shard_here sha : ~ elsewhere (digest_path sha).1.
Proof. intros H. by eapply elsewhere_shard. Qed.
#[local] Hint Resolve tmp_here shard_here stays_write stays_remove : core.

Lemma objects_tmp_write f d n c : holds_objects f d -> holds_objects f (write_path d (TEMPORARY, n) c).
Proof. intros [Ho He]. split; [intros sha; by rewrite object_write_tmp|auto]. Qed.
Lemma objects_tmp_remove f d n : holds_objects f d -> holds_objects f (remove_path d (TEMPORARY, n)).
Proof. intros [Ho He]. split; [intros sha; by rewrite object_remove_tmp|auto]. Qed.
Lemma objects_shard f d s : holds_objects f d -> d !! shard_directory s = None -> holds_objects f (<[shard_directory s := ∅]> d).
Proof.
  intros [Ho [He Ht]] Hn. split; [intros sha; by rewrite object_new_dir|]. split.
  - intros x Hx. rewrite lookup_insert_ne; [by apply He|]. symmetry. by apply elsewhere_shard.
  - intros H. rewrite lookup_insert_ne; [by apply Ht|discriminate].
Qed.
Lemma objects_link f d sha c :
  holds_objects f d -> is_Some (d !! (digest_path sha).1) ->
  holds_objects (fun sha' => if decide (sha' = sha) then Some c else f sha') (write_path d (digest_path sha) c).
Proof. intros [Ho He] Hd. split; [intros sha'; rewrite object_write by done; by rewrite Ho|auto]. Qed.

(** Steps that change nothing *)
Lemma keep_triple {A : Type} (P : Disk -> Prop) (m : IO A) :
  (forall w, exists o, m w = (w, Done o)) -> triple P m (fun _ => P) P.
Proof. intros Hm w Hw. destruct (Hm w) as [o ->]. done. Qed.
Lemma layout_keeps w : exists o, validate_layout w = (w, Done o).
Proof. unfold validate_layout, require_present. destruct (_ && _); by eexists. Qed.
Lemma lock_triple P : triple P blob_acquire_lock (fun _ => P) P.
Proof.
  unfold blob_acquire_lock. apply (triple_bind _ _ _ (fun _ => P)); [by intros w Hw|].
  intros b. apply (triple_bind _ _ _ (fun _ => P)).
  { intros w Hw. by destruct b. }
  intros _. apply (triple_bind _ _ _ (fun _ => P)); [|intros _; apply nothing_triple].
  eapply triple_weaken; [apply (nothing_triple P)|done| |done]. by intros [u|e] d.
Qed.

Lemma pending_triple {A : Type} n P (body : IOR (A * bool)) (Q : result string (Result A) -> Disk -> Prop) C :
  (forall r d, Q r d -> Q r (remove_path d (TEMPORARY, n))) -> (forall r d, Q r d -> C d) ->
  triple P body (fun r d => match r with
                            | Ok (Ok (a, _)) => Q (Ok (Ok a)) d
                            | Ok (Err e) => Q (Ok (Err e)) d
                            | Err e => Q (Err e) d
                            end) C ->
  triple P (with_pending (TEMPORARY, n) body) Q C.
Proof.
  intros Hrem HC Hb. unfold with_pending.
  assert (forall (r : result string (Result A)) (m : IO (Result A)), (forall d, Q r d -> triple (Q r) m Q C) ->
    triple (Q r) (discard (TEMPORARY, n) ;;? m) Q C) as Hdisc.
  { intros r m Hm. apply (triple_bind _ _ _ (fun _ => Q r)).
    - unfold discard. apply (triple_bind _ _ _ (fun _ => Q r)); [|intros _; by apply triple_ret].
      apply triple_attempt, triple_syscall; [|by intros d k Hd; split; [|by eapply HC]].
      intros d Hd. destruct (is_some _); [by apply Hrem|done].
    - intros _ w Hw. by apply (Hm _ Hw). }
  apply (triple_bind _ _ _ (fun r d => match r with
                                       | Ok (Ok (a, _)) => Q (Ok (Ok a)) d
                                       | Ok (Err e) => Q (Ok (Err e)) d
                                       | Err e => Q (Err e) d
                                       end)).
  - apply triple_attempt. eapply triple_weaken; [exact Hb|done| |done]. by intros [[[a []]|e]|e] d.
  - intros [[[a []]|e]|e].
    + by apply triple_ret.
    + apply Hdisc. intros d _. by apply triple_ret.
    + apply Hdisc. intros d _. by apply triple_ret.
    + apply Hdisc. intros d _. by apply triple_fail.
Qed.

Lemma temporary_triple P label :
  triple P (blob_temporary_path TEMPORARY label)
    (fun r d => match r with Ok q => (exists n, q = (TEMPORARY, n)) /\ P d | Err _ => False end) P.
Proof. intros w Hw. cbn. by split; [eexists|]. Qed.

(** What [verify_locked] finds when it answers. *)
Lemma verify_triple P sha :
  triple P (verify_locked sha)
    (fun r d => P d /\ match r with
                       | Ok (Ok i) => exists c, object d sha = Some c /\ hex_sha256 c = sha /\ len c <= MAX_BLOB_BYTES
                                        /\ is_digest sha = true /\ i = mkBlobInfo sha (len c) true
                       | _ => True
                       end) P.
Proof.
  unfold verify_locked. apply (triple_rbind _ _ _ (fun _ => P)).
  { apply triple_io. eapply triple_weaken; [apply (keep_triple P), layout_keeps|done| |done]. by intros [u|e] d. }
  intros _. apply triple_pure_bind; [done|]. intros q Hq. unfold object_path in Hq.
  destruct (validate_digest sha) as [[]|] eqn:Hd; [|done]. injection Hq as <-.
  unfold verify_object_path_locked. rewrite Hd. apply triple_pure_bind; [done|]. intros [] _.
  apply (triple_rbind _ _ _ (fun c d => P d /\ object d sha = Some c)).
  { apply triple_io, triple_read. intros d HP. unfold object. by destruct (read_path d (digest_path sha)). }
  intros c. apply triple_ret. intros d [HP Hc]. split; [done|]. unfold verify_content, hash_content.
  destruct (N.ltb_spec MAX_BLOB_BYTES (len c)); [done|]. cbn. destruct (bool_decide_reflect (hex_sha256 c = sha)) as [He|]; [|done].
  cbn. exists c. by apply validate_digest_Ok in Hd.
Qed.

(** ** Putting a blob *)
Section Put.
Variables (input : bytes) (f : string -> option bytes).
Let sha : string := hex_sha256 input.
Definition stored (sha' : string) : option bytes := if decide (sha' = sha) then Some input else f sha'.
Definition put_or_not (d : Disk) : Prop :=
  holds_objects f d \/ (f sha = None /\ holds_objects stored d).
Definition put_done (i : BlobInfo) (d : Disk) : Prop :=
  i = mkBlobInfo sha (len input) (is_some (f sha))
  /\ match f sha with
     | Some c => holds_objects f d /\ hex_sha256 c = sha /\ len c = len input
     | None => holds_objects stored d
     end.
Definition put_post (r : result string (Result BlobInfo)) (d : Disk) : Prop :=
  put_or_not d /\ match r with Ok (Ok i) => put_done i d | _ => True end.

Lemma put_post_remove n r d : put_post r d -> put_post r (remove_path d (TEMPORARY, n)).
Proof.
  unfold put_post, put_or_not, put_done. intros [Hd Hr]. split.
  - destruct Hd as [Hd|[Hn Hd]]; [left|right; split]; try done; by apply objects_tmp_remove.
  - destruct r as [[i|]|]; [|done..]. destruct Hr as [-> Hr]. split; [done|].
    destruct (f sha); [destruct Hr; split; [|done]|]; by apply objects_tmp_remove.
Qed.

Lemma read_tmp_dir d s n : d !! shard_directory s = None -> read_path (<[shard_directory s := ∅]> d) (TEMPORARY, n) = read_path d (TEMPORARY, n).
Proof. intros _. unfold read_path. cbn [fst snd]. rewrite lookup_insert_ne; [done|]. discriminate. Qed.

Lemma put_body_triple n :
  let tmp := (TEMPORARY, n) in
  triple (holds_objects f)
    (put_pending tmp input)
    (fun r d => match r with
                | Ok (Ok (a, _)) => put_post (Ok (Ok a)) d
                | Ok (Err e) => put_post (Ok (Err e)) d
                | Err e => put_post (Err e) d
                end) put_or_not.
Proof.
  cbn zeta. unfold put_pending. apply (triple_rbind _ _ _ (fun _ d => holds_objects f d /\ is_Some (d !! TEMPORARY))).
  { apply triple_io, triple_syscall; [|by intros d k Hd; repeat split; left].
    intros d Hd. cbn [fst]. destruct (d !! TEMPORARY) as [x|] eqn:Hx; [|by split; [left|]].
    destruct (is_some _); [by split; [left|]|]. split; [by apply objects_tmp_write|]. apply is_dir_write. by exists x. }
  intros _. unfold copy_and_hash, hash_content.
  apply (triple_rbind _ _ _ (fun b d => b = (len input, sha) /\ holds_objects f d /\ read_path d (TEMPORARY, n) = Some input)).
  { apply triple_pure_bind; [by intros e d _ [Hd _]; split; [left|]|]. intros h Hh.
    destruct (_ <? _); [done|]. injection Hh as <-.
    apply (triple_rbind _ _ _ (fun _ d => holds_objects f d /\ read_path d (TEMPORARY, n) = Some input)); [|by intros _; apply triple_ret].
    apply triple_io, triple_syscall.
    - intros d [Hd Hi]. split; [by apply objects_tmp_write|]. by apply read_write_eq.
    - intros d k [Hd Hi]. unfold put_post. repeat split; left; by apply objects_tmp_write. }
  intros [bytes sha256]. apply triple_pure. intros [= -> ->].
  apply triple_pure_bind; [by intros e d _ [Hd _]; split; [left|]|]. intros q Hq. unfold object_path in Hq.
  destruct (validate_digest sha); [|done]. injection Hq as <-.
  set (P := fun d => (holds_objects f d /\ read_path d (TEMPORARY, n) = Some input) /\ is_Some (d !! (digest_path sha).1)).
  assert (forall d, P d -> put_or_not d) as HP by (intros d [[Hd _] _]; by left).
  apply (triple_rbind _ _ _ (fun _ => P)).
  { apply triple_io. intros w [Hw Hr]. unfold ensure_directory.
    destruct (disk w !! (digest_path sha).1) as [m|] eqn:Hm; cbn [is_some is_none negb]; [by split; [split|exists m]|].
    assert (triple (fun d => d = disk w) (syscall (fun d => Ok (<[(digest_path sha).1 := ∅]> d, tt)) untouched)
      (fun r d => match r with Ok _ => P d | Err _ => put_or_not d /\ True end) put_or_not) as Ht; [apply triple_syscall|by apply (Ht w)].
    - intros d ->. unfold P, digest_path in *. cbn [fst] in *. split; [split; [by apply objects_shard|by rewrite read_tmp_dir]|by rewrite lookup_insert_eq].
    - intros d k ->. by repeat split; left. }
  intros _. apply (triple_rbind _ _ _ (fun _ => P)).
  { apply triple_io. eapply triple_weaken; [apply (nothing_triple P)|done| |done]. intros [u|e] d Hd; [done|by split; [apply HP|]]. }
  intros _. apply (triple_rbind _ _ _ (fun b d => b = is_some (f sha) /\ P d)).
  { apply triple_io, triple_exists. intros d Hd. split; [|done]. destruct Hd as [[[Ho _] _] _]. specialize (Ho sha).
    unfold object in Ho. by rewrite Ho. }
  intros b. apply triple_pure. intros ->. destruct (f sha) as [c|] eqn:Hc; cbn [is_some is_none negb].
  - apply (triple_rbind _ _ _ (fun i d => P d /\ i = mkBlobInfo sha (len c) true /\ hex_sha256 c = sha)).
    { eapply triple_weaken; [apply (verify_triple P)|done| |done]. intros [[i|e]|e] d [Hd Hi]; [|by split; [apply HP|]..].
      destruct Hi as (c' & Hc' & Hh & _ & _ & ->). pose proof Hd as [[[Ho _] _] _].
      assert (c' = c) as -> by (rewrite Ho in Hc'; congruence). done. }
    intros i. apply (triple_weaken (fun d => (i = mkBlobInfo sha (len c) true /\ hex_sha256 c = sha) /\ P d) _ _ _ _ _ _) with (3 := fun _ _ H => H) (4 := fun _ H => H); [|tauto].
    apply triple_pure. intros [-> Hh]. cbn [bi_bytes]. destruct (N.eqb_spec (len c) (len input)) as [He|]; apply triple_ret; intros d Hd; (split; [by apply HP|]); [|done].
    unfold put_done. rewrite Hc. cbn. rewrite He. by destruct Hd as [[Hd _] _].
  - apply (triple_rbind _ _ _ (fun _ => holds_objects stored)).
    { apply triple_io, triple_syscall; [|by intros d k Hd; repeat split; apply HP].
      intros d [[Hd Hr] Hi]. rewrite Hr. destruct (is_some _); [by split; [left|]|]. by apply objects_link. }
    intros _. apply (triple_rbind _ _ _ (fun _ => holds_objects stored)).
    { apply triple_io, triple_syscall.
      - intros d Hd. destruct (is_some _); [by apply objects_tmp_remove|by split; [right|]].
      - intros d k Hd. by repeat split; right. }
    intros _. apply triple_ret. intros d Hd. split; [by right|]. unfold put_done. rewrite Hc. done.
Qed.

Lemma put_triple : triple (holds_objects f) (blob_put input) put_post put_or_not.
Proof.
  assert (forall d, holds_objects f d -> put_or_not d) as HP by (intros d Hd; by left).
  unfold blob_put. apply (triple_rbind _ _ _ (fun _ => holds_objects f)).
  { apply triple_io. eapply triple_weaken; [apply (lock_triple (holds_objects f))|done| |done].
    intros [u|e] d Hd; [done|by split; [apply HP|]]. }
  intros _. unfold put_locked. apply (triple_rbind _ _ _ (fun _ => holds_objects f)).
  { apply triple_io. eapply triple_weaken; [apply (keep_triple (holds_objects f)), layout_keeps|done| |done].
    intros [u|e] d Hd; [done|by split; [apply HP|]]. }
  intros _. destruct (_ <? _); [apply triple_ret; intros d Hd; by split; [apply HP|]|].
  apply (triple_rbind _ _ _ (fun q d => (exists n, q = (TEMPORARY, n)) /\ holds_objects f d)).
  { apply triple_io. eapply triple_weaken; [apply (temporary_triple (holds_objects f))|done| |done]. by intros [q|e] d. }
  intros q. apply triple_pure. intros [n ->].
  apply (triple_rbind _ _ _ (fun i d => put_post (Ok (Ok i)) d)).
  { eapply triple_weaken; [apply (pending_triple n _ _ put_post put_or_not)| | |].
    - apply put_post_remove.
    - by intros r d [Hd _].
    - apply put_body_triple.
    - done.
    - by intros [[i|e]|e] d.
    - done. }
  intros i. destruct (existed i); [by apply triple_ret|].
  assert (triple (put_post (Ok (Ok i))) (io sync_all) (fun r d => match r with
             | Ok (Ok a) => put_post (Ok (Ok i)) d | Ok (Err e) => put_post (Ok (Err e)) d | Err e => put_post (Err e) d end) put_or_not) as Hs.
  { apply triple_io. eapply triple_weaken; [apply (nothing_triple (put_post (Ok (Ok i))))|done| |by intros d [Hd _]].
    intros [u|e] d Hd; [done|]. by split; [apply Hd|]. }
  apply (triple_rbind _ _ _ (fun _ => put_post (Ok (Ok i)))); [exact Hs|]. intros _.
  apply (triple_rbind _ _ _ (fun _ => put_post (Ok (Ok i)))); [exact Hs|]. intros _. by apply triple_ret.
Qed.
End Put.
End Objects.

Lemma holds_start d : holds_objects d (object d) d.
Proof. by repeat split. Qed.

(** Putting a blob is atomic, whatever calls fail and wherever the process
    dies: no other object changes, nothing outside the store's shards and
    temporary directory changes, and the object of the input's digest is either
    as it was or, where there was none, the whole input.  An answer reports that
    digest, the size of the input and whether the object was there, and the
    object it leaves has that digest and that size. *)
Theorem blob_put_is_atomic `{Externals} (input : bytes) (w : World) :
  let sha := hex_sha256 input in
  let '(w', o) := blob_put input w in
  (forall sha', sha' <> sha -> object w'.(disk) sha' = object w.(disk) sha')
  /\ (forall x, elsewhere x -> w'.(disk) !! x = w.(disk) !! x)
  /\ (object w'.(disk) sha = object w.(disk) sha
      \/ (object w.(disk) sha = None /\ object w'.(disk) sha = Some input))
  /\ match o with
     | Done (Ok (Ok i)) =>
         i = mkBlobInfo sha (len input) (is_some (object w.(disk) sha))
         /\ exists c, object w'.(disk) sha = Some c /\ hex_sha256 c = sha /\ len c = len input
     | _ => True
     end.
Proof.
  cbn zeta. pose proof (put_triple (disk w) input (object (disk w)) w (holds_start _)) as Ht.
  destruct (blob_put input w) as [w' o].
  assert (put_or_not (disk w) input (object (disk w)) (disk w')) as Hor
    by (destruct o as [r|]; [apply Ht|done]).
  assert (forall d f, holds_objects (disk w) f d -> forall x, elsewhere x -> d !! x = disk w !! x) as Helse by (by intros d f [_ [He _]]).
  assert (forall sha', stored input (object (disk w)) sha' = if decide (sha' = hex_sha256 input) then Some input else object (disk w) sha') as Hst by done.
  split_and!.
  - intros sha' Hne. destruct Hor as [[Ho _]|[_ [Ho _]]]; rewrite Ho; [done|]. by rewrite Hst, decide_False.
  - intros x Hx. destruct Hor as [Ho|[_ Ho]]; by apply (Helse _ _ Ho).
  - destruct Hor as [[Ho _]|[Hn [Ho _]]]; [by left; rewrite Ho|right]. split; [done|]. by rewrite Ho, Hst, decide_True.
  - destruct o as [[[i|e]|e]|]; [|done..]. destruct Ht as [_ [-> Hd]]. split; [done|].
    destruct (object (disk w) (hex_sha256 input)) as [c|] eqn:Hc.
    + destruct Hd as ([Ho _] & Hh & Hl). exists c. by rewrite Ho, Hc.
    + destruct Hd as [Ho _]. exists input. by rewrite Ho, Hst, decide_True.
Qed.

(** ** Undisturbed runs *)
Definition store_ready (d : Disk) : Prop :=
  is_Some (d !! OBJECTS) /\ is_Some (d !! TEMPORARY) /\ is_Some (read_path d STORE_LOCK).
Lemma ready_write d n c : store_ready d -> store_ready (write_path d (TEMPORARY, n) c).
Proof.
  intros (Ho & Ht & Hl). split_and!; [by apply is_dir_write..|]. rewrite read_write_ne; [done|]. discriminate.
Qed.
Lemma ready_shard d s : store_ready d -> store_ready (<[shard_directory s := ∅]> d).
Proof.
  intros (Ho & Ht & Hl). split_and!; [rewrite lookup_insert_ne; [done|discriminate]..|].
  unfold read_path in *. cbn [fst] in *. rewrite lookup_insert_ne; [done|discriminate].
Qed.
Lemma is_some_true {A : Type} (o : option A) : is_Some o -> is_some o = true.
Proof. by intros [a ->]. Qed.
Lemma layout_ready w : store_ready (disk w) -> validate_layout w = (w, Done (Ok tt)).
Proof. intros (Ho & Ht & Hl). unfold validate_layout. by rewrite !is_some_true. Qed.

Lemma lock_ready w : fates w = [] -> store_ready (disk w) -> blob_acquire_lock w = (w, Done (Ok tt)).
Proof.
  intros Hf (_ & _ & Hl). unfold blob_acquire_lock, bind, exists_file. rewrite is_some_true by done. cbn [require_present].
  unfold ret, sync_all, syscall. rewrite Hf. destruct w as [dk sq pid fs]. cbn in Hf. by subst fs.
Qed.
Lemma clean_fact {A : Type} (F : Prop) P (m : IO A) Q : (F -> clean P m Q) -> clean (fun w => F /\ P w) m Q.
Proof. intros H w Hf [HF Hw]. by apply H. Qed.

Section Clean.
Context `{Ext : Externals}.
(** A sound object verifies; the store is not touched. *)
Lemma verify_sound sha c w :
  store_ready (disk w) -> object (disk w) sha = Some c -> hex_sha256 c = sha -> len c <= MAX_BLOB_BYTES ->
  verify_locked sha w = (w, Done (Ok (Ok (mkBlobInfo sha (len c) true)))).
Proof.
  intros Hr Hc Hh Hl. unfold verify_locked, rbind, io, bind. rewrite layout_ready by done. unfold pure_, ret, object_path.
  assert (validate_digest sha = Ok tt) as Hd by (apply validate_digest_Ok; rewrite <- Hh; auto with rust).
  rewrite Hd. unfold verify_object_path_locked, rbind, io, bind, pure_, ret. rewrite Hd.
  unfold read_file. unfold object in Hc. rewrite Hc. cbn [ok_or]. unfold verify_content, hash_content.
  destruct (N.ltb_spec MAX_BLOB_BYTES (len c)); [lia|]. by rewrite bool_decide_eq_true_2.
Qed.

Variables (input : bytes) (d0 : Disk).
Let sha : string := hex_sha256 input.
Hypothesis (Hfit : len input <= MAX_BLOB_BYTES)
  (Hsound : forall c, object d0 sha = Some c -> hex_sha256 c = sha /\ len c = len input).

Lemma clean_put_body n :
  let tmp := (TEMPORARY, n) in
  let ready d := holds_objects d0 (object d0) d /\ store_ready d in
  clean (fun w => ready (disk w) /\ read_path (disk w) tmp = None)
    (put_pending tmp input)
    (fun r w => exists a, r = Ok a).
Proof.
  cbn zeta. unfold put_pending. set (ready := fun d => holds_objects d0 (object d0) d /\ store_ready d).
  apply (clean_then _ _ _ (fun w => ready (disk w))).
  { apply clean_syscall. intros w [[Hd Hr] Hfree]. pose proof Hr as (_ & [x Hx] & _). exists (write_path (disk w) (TEMPORARY, n) []), tt.
    cbn [fst]. rewrite Hx, Hfree. split; [done|]. split; [by apply objects_tmp_write|by apply ready_write]. }
  set (staged w := ready (disk w) /\ read_path (disk w) (TEMPORARY, n) = Some input).
  apply (clean_rbind _ _ _ (fun p w => p = (len input, sha) /\ staged w)).
  { unfold copy_and_hash, hash_content. destruct (N.ltb_spec MAX_BLOB_BYTES (len input)); [lia|].
    apply (clean_rbind _ _ _ (fun p w => p = (len input, sha) /\ ready (disk w))); [intros w Hf Hw; eexists w, _; by split_and!; [..|eexists]|].
    intros p. apply (clean_then _ _ _ (fun w => p = (len input, sha) /\ staged w)); [|intros w Hf [-> Hw]; eexists w, _; by split_and!; [..|eexists]].
    apply clean_syscall. intros w [-> [Hd Hr]]. eexists _, _. split; [done|]. split; [done|].
    split; [split; [by apply objects_tmp_write|by apply ready_write]|]. apply read_write_eq. apply Hr. }
  intros [b s]. apply clean_fact. intros [= -> ->]. unfold object_path.
  assert (validate_digest sha = Ok tt) as -> by (apply validate_digest_Ok, hex_sha256_is_digest).
  apply (clean_rbind _ _ _ (fun q w => q = digest_path sha /\ staged w)); [intros w Hf Hw; eexists w, _; by split_and!; [..|eexists]|].
  intros q. apply clean_fact. intros ->.
  set (shard_there w := staged w /\ is_Some (disk w !! (digest_path sha).1)).
  apply (clean_then _ _ _ shard_there).
  { intros w Hf Hw. unfold ensure_directory. destruct (disk w !! (digest_path sha).1) as [m|] eqn:Hm; cbn [is_some is_none negb].
    - exists w, tt. split; [done|]. split; [done|]. by split; [|exists m].
    - refine (clean_syscall (fun w1 => w1 = w) _ _ (fun _ => shard_there) _ w Hf eq_refl). intros w1 ->.
      eexists _, _. split; [done|]. destruct Hw as [[Hd Hr] Ht]. unfold shard_there, staged, ready, digest_path in *. cbn [disk with_disk fst] in *.
      split; [|by rewrite lookup_insert_eq]. split; [|by rewrite read_tmp_dir]. split; [by apply objects_shard|by apply ready_shard]. }
  apply (clean_then _ _ _ shard_there); [apply (clean_nothing (fun d => ((holds_objects d0 (object d0) d /\ store_ready d) /\ read_path d (TEMPORARY, n) = Some input) /\ is_Some (d !! (digest_path sha).1)))|].
  apply (clean_rbind _ _ _ (fun b w => b = is_some (object d0 sha) /\ shard_there w)).
  { intros w Hf Hw. eexists w, _. split; [reflexivity|]. split; [done|]. eexists. split; [done|]. split; [|done].
    destruct Hw as [[[[Ho _] _] _] _]. specialize (Ho sha). unfold object in Ho. by rewrite Ho. }
  intros b. apply clean_fact. intros ->. destruct (object d0 sha) as [c|] eqn:Hc; cbn [is_some is_none negb].
  - destruct (Hsound c eq_refl) as [Hh Hl]. intros w Hf [[[[Ho _] Hr] _] _].
    unfold rbind, bind. rewrite (verify_sound sha c); [|done|by rewrite Ho|done|lia]. cbn [bi_bytes]. rewrite Hl, N.eqb_refl. cbn.
    eexists _, _. split; [done|]. split; [done|]. by eexists.
  - apply (clean_then _ _ _ (fun w => is_Some (read_path (disk w) (TEMPORARY, n)))).
    { apply clean_syscall. intros w [[[[Ho _] _] Ht] _]. specialize (Ho sha). rewrite Hc in Ho. unfold object in Ho.
      rewrite Ht, Ho. eexists _, _. split; [done|]. cbn [disk with_disk]. rewrite read_write_ne by discriminate. by rewrite Ht. }
    apply (clean_then _ _ _ (fun _ => True)).
    { apply clean_syscall. intros w Hi. rewrite is_some_true by done. by eexists _, _. }
    intros w Hf _. eexists w, _. split; [done|]. split; [done|]. by eexists.
Qed.

Lemma clean_discard path : clean (fun _ => True) (discard path) (fun _ _ => True).
Proof.
  intros w Hf _. unfold discard, bind, attempt, remove_file, syscall. rewrite Hf.
  destruct (is_some _); (eexists _, _; split; [done|]; split; [|done]); by destruct w; cbn in *; subst.
Qed.
Lemma clean_pending {A : Type} P path (body : IOR (A * bool)) :
  clean P body (fun r _ => exists a, r = Ok a) -> clean P (with_pending path body) (fun r _ => exists a, r = Ok a).
Proof.
  intros Hb. unfold with_pending. apply (clean_bind _ _ _ (fun r _ => exists a, r = Ok (Ok a))).
  { apply clean_attempt. eapply clean_weaken; [exact Hb|done|]. intros r w [a ->]. by exists a. }
  intros r w Hf [[a []] ->]; [eexists w, _; split; [done|]; split; [done|]; by exists a|].
  refine (clean_bind (fun _ => True) _ _ (fun _ _ => True) _ (clean_discard path) _ w Hf I).
  intros _ w' Hf' _. eexists w', _. split; [done|]. split; [done|]. by exists a.
Qed.

Lemma clean_put :
  clean (fun w => (holds_objects d0 (object d0) (disk w) /\ store_ready (disk w))
                  /\ read_path (disk w) (TEMPORARY, blob_temporary_name "incoming" (process_id w) (sequence w)) = None)
    (blob_put input) (fun r w => exists a, r = Ok a).
Proof.
  intros w Hf [Hw Hfree].
  assert (blob_acquire_lock w = (w, Done (Ok tt))) as Hlock by (apply lock_ready; [done|apply Hw]).
  unfold blob_put, rbind, io, bind. rewrite Hlock. unfold ret, put_locked, rbind at 1, io at 1, bind at 1 2. rewrite layout_ready by apply Hw.
  unfold ret at 1. destruct (N.ltb_spec MAX_BLOB_BYTES (len input)); [lia|].
  set (n := blob_temporary_name "incoming" (process_id w) (sequence w)) in *.
  refine (clean_rbind (fun w1 => w1 = w) _ _ (fun q w1 => q = (TEMPORARY, n)
    /\ (holds_objects d0 (object d0) (disk w1) /\ store_ready (disk w1)) /\ read_path (disk w1) (TEMPORARY, n) = None) _ _ _ w Hf eq_refl).
  { intros w1 Hf1 ->. eexists _, _. split; [reflexivity|]. split; [done|]. by eexists. }
  intros q. apply clean_fact. intros ->. apply (clean_rbind _ _ _ (fun _ _ => True)).
  { eapply clean_weaken; [apply clean_pending, clean_put_body|done|]. intros r w1 [a ->]. by exists a. }
  intros i. assert (clean (fun _ => True) (pure_ (Ok i)) (fun r _ => exists a, r = Ok a)) as Hret
    by (intros w1 Hf1 _; eexists w1, _; split; [done|]; split; [done|]; by exists i).
  destruct (existed i); [done|].
  apply (clean_then _ _ _ (fun _ => True)); [apply (clean_nothing (fun _ => True))|].
  apply (clean_then _ _ _ (fun _ => True)); [apply (clean_nothing (fun _ => True))|done].
Qed.
End Clean.

(** A store that is undisturbed keeps what it is given: with its directories
    and lock in place, an input within the limit, no corrupt object under its
    digest and a free temporary name, the blob is put, and verifying the digest
    that was answered then finds the object with the input's size. *)
Theorem put_then_verify `{Externals} (input : bytes) (w : World)
    (Hfates : w.(fates) = []) (Hready : store_ready w.(disk)) (Hfit : len input <= MAX_BLOB_BYTES)
    (Hsound : forall c, object w.(disk) (hex_sha256 input) = Some c ->
                hex_sha256 c = hex_sha256 input /\ len c = len input)
    (Hfree : read_path w.(disk) (TEMPORARY, blob_temporary_name "incoming" w.(process_id) w.(sequence)) = None) :
  let sha := hex_sha256 input in
  exists w1,
    blob_put input w = (w1, Done (Ok (Ok (mkBlobInfo sha (len input) (is_some (object w.(disk) sha))))))
    /\ verify sha w1 = (w1, Done (Ok (Ok (mkBlobInfo sha (len input) true)))).
Proof.
  cbn zeta. destruct (clean_put input (disk w) Hfit Hsound w Hfates (conj (conj (holds_start _) Hready) Hfree)) as (w1 & r & Hrun & Hf1 & i & ->).
  exists w1. pose proof (put_triple (disk w) input (object (disk w)) w (holds_start _)) as Ht. rewrite Hrun in Ht.
  destruct Ht as [_ [-> Hd]]. split; [done|].
  assert (exists c f, holds_objects (disk w) f (disk w1) /\ f (hex_sha256 input) = Some c /\ hex_sha256 c = hex_sha256 input /\ len c = len input)
    as (c & f & [Ho [He Htmp]] & Hc & Hh & Hl).
  { destruct (object (disk w) (hex_sha256 input)) as [c|] eqn:Hc; [destruct Hd; by exists c, (object (disk w))|].
    exists input, (stored input (object (disk w))). unfold stored. by rewrite decide_True. }
  assert (store_ready (disk w1)) as Hr1.
  { destruct Hready as (Hob & Htm & Hlk). split_and!; [by rewrite He|by apply Htmp|].
    unfold read_path in *. cbn [fst] in *. by rewrite He. }
  unfold verify, rbind, io, bind.
  rewrite lock_ready by done. unfold ret. rewrite (verify_sound _ c); [by rewrite Hl|done|by rewrite Ho|done|lia].
Qed.
