(* ===== verification/BlobGcTheorems.v ===== *)
(** * Theorems on the garbage collection of blobs

    The listing of a store is exact; a collection removes only objects no root
    names, keeps every reference it was given, and reports what it removed; so
    the blobs a snapshot refers to outlive it. *)
From stdpp Require Import pretty.
From S2P Require Import Prelude Text Events Files Storage StorageSpec Snapshot Directory DirectoryTheorems Blob BlobTheorems.

(** ** The listing *)
Lemma strip_prefix_Some p s r : strip_prefix p s = Some r -> s = p +:+ r.
Proof.
  revert s. induction p as [|a p IH]; intros s; [by intros [= ->]|]. destruct s as [|b s]; [done|]. cbn [strip_prefix].
  case_bool_decide as Hab; [|done]. intros ->%IH. by subst.
Qed.
Lemma shards_elem d s files : (s, files) ∈ shards d <-> d !! shard_directory s = Some files.
Proof.
  unfold shards. rewrite list_elem_of_omap. split.
  - intros ([path fs] & Hin & Hs). apply fmap_Some in Hs as (s' & Hs' & [= -> ->]). apply btree_iter_elem in Hin.
    apply strip_prefix_Some in Hs' as ->. done.
  - intros Hd. exists (shard_directory s, files). split; [by apply btree_iter_elem|]. by rewrite strip_shard.
Qed.
Lemma stripped_NoDup {V : Type} (p : string) (l : list (string * V)) :
  NoDup l.*1 -> NoDup (omap (fun '(path, files) => (fun shard => (shard, files)) <$> strip_prefix p path) l).*1.
Proof.
  induction l as [|[x fs] l IH]; intros Hn; [constructor|]. csimpl in *. apply NoDup_cons in Hn as [Hx Hl].
  destruct (strip_prefix p x) as [s|] eqn:Hs; csimpl; [|by apply IH]. constructor; [|by apply IH].
  intros ([s' fs'] & -> & Hin)%list_elem_of_fmap. apply list_elem_of_omap in Hin as ([y gs] & Hin & Hy).
  apply fmap_Some in Hy as (s'' & Hy & [= <- <-]). apply strip_prefix_Some in Hs as ->, Hy as ->.
  apply Hx, list_elem_of_fmap. by eexists (_, _).
Qed.
Lemma shards_NoDup d : NoDup (shards d).*1.
Proof. apply stripped_NoDup, btree_keys_NoDup. Qed.

Lemma list_shard_spec s names : forall files r,
  list_shard s files names = Ok r ->
  r = files ++ names /\ (forall n, n ∈ names -> is_digest n = true /\ starts_with n s = true).
Proof.
  induction names as [|n names IH]; intros files r; cbn [list_shard]; [intros [= <-]; rewrite app_nil_r; split; [done|set_solver]|].
  destruct (validate_digest n) as [[]|] eqn:Hd; [|done]. apply validate_digest_Ok in Hd. pass Hs. cbn zeta. pass Hm.
  intros [-> Hn]%IH. rewrite <- app_assoc. split; [done|]. apply negb_false_iff in Hs.
  intros n' [->|Hn']%elem_of_cons; [done|by apply Hn].
Qed.
Lemma list_shards_spec l : forall files r,
  list_shards files l = Ok r ->
  r = files ++ (l ≫= fun p => btree_keys p.2)
  /\ forall s dir, (s, dir) ∈ l -> str_len s = 2
       /\ forall n, n ∈ btree_keys dir -> is_digest n = true /\ starts_with n s = true.
Proof.
  induction l as [|[s dir] l IH]; intros files r; cbn [list_shards]; [intros [= <-]; cbn; rewrite app_nil_r; split; [done|set_solver]|].
  pass Hs. apply orb_false_iff in Hs as [Hs _]. apply negb_false_iff, N.eqb_eq in Hs.
  destruct (list_shard _ _ _) as [fs|] eqn:Hl; [|done]. apply list_shard_spec in Hl as [-> Hn].
  intros [-> Hall]%IH. csimpl. rewrite <- app_assoc. split; [done|].
  intros s' dir' [[= -> ->]|Hin]%elem_of_cons; [done|by apply Hall].
Qed.

Lemma first_two_prefix n s : str_len s = 2 -> starts_with n s = true -> first_two n = s.
Proof.
  unfold str_len, len, starts_with. destruct s as [|a [|b [|c s]]]; [done|done| |csimpl; lia]. intros _.
  destruct n as [|a' [|b' n]]; cbn; [done| |].
  - by destruct (ascii_dec a a').
  - destruct (ascii_dec a a') as [->|]; [|done]. by destruct (ascii_dec b b') as [->|].
Qed.

(** A listing that is answered names each object once. *)
Lemma object_files_spec d l :
  object_files_of d = Ok l ->
  NoDup l /\ (forall sha, sha ∈ l <-> is_Some (object d sha)) /\ (forall sha, sha ∈ l -> is_digest sha = true).
Proof.
  unfold object_files_of. destruct (btree_keys _); [|done]. intros [-> Hall]%list_shards_spec. cbn [app].
  assert (forall sha, (sha ∈ shards d ≫= fun p => btree_keys p.2) <-> is_Some (object d sha)) as Hin.
  { intros sha. rewrite list_elem_of_bind. unfold object, read_path, digest_path. cbn [fst snd]. split.
    - intros ([s dir] & Hk & Hs). destruct (Hall _ _ Hs) as [Hl Hn]. cbn in Hk. destruct (Hn _ Hk) as [_ Hp].
      rewrite (first_two_prefix _ _ Hl Hp). apply shards_elem in Hs. rewrite Hs. cbn. by apply btree_keys_elem.
    - destruct (d !! _) as [dir|] eqn:Hd; [|by intros [? ?]]. cbn. intros Hs. exists (first_two sha, dir).
      split; [by apply btree_keys_elem|by apply shards_elem]. }
  split_and!; [|exact Hin|].
  - pose proof (shards_NoDup d) as Hn. clear Hin. revert Hall Hn. induction (shards d) as [|[s dir] l IH]; intros Hall Hn; [constructor|].
    csimpl in *. apply NoDup_cons in Hn as [Hx Hl]. apply NoDup_app. split_and!; [apply btree_keys_NoDup| |].
    + intros n Hn ([s' dir'] & Hk & Hs')%list_elem_of_bind. cbn in Hk.
      destruct (Hall s dir ltac:(set_solver)) as [H2 Hp]. destruct (Hall s' dir' ltac:(set_solver)) as [H2' Hp'].
      apply Hx, list_elem_of_fmap. exists (s', dir'). split; [|done]. cbn.
      rewrite <- (first_two_prefix n s), <- (first_two_prefix n s'); [done|done|by apply Hp'|done|by apply Hp].
    + apply IH; [|done]. intros s' dir' Hs'. apply Hall. set_solver.
  - intros sha ([s dir] & Hk & Hs)%list_elem_of_bind. by apply (Hall _ _ Hs).
Qed.

(** ** The read phase *)
Section Collect.
Context `{Ext : Externals}.
Variables (d0 : Disk).
Let same (d : Disk) : Prop := d = d0.

(** An object whose content has its digest. *)
Definition sound_object (sha : string) (n : N) : Prop :=
  exists c, object d0 sha = Some c /\ hex_sha256 c = sha /\ len c = n.

Lemma verify_same sha :
  triple same (verify_locked sha)
    (fun r d => same d /\ match r with Ok (Ok i) => sound_object sha i.(bi_bytes) | _ => True end) same.
Proof.
  eapply triple_weaken; [apply (verify_triple same)|done| |done]. intros [[i|e]|e] d [-> Hi]; [|done..].
  split; [done|]. destruct Hi as (c & Hc & Hh & _ & _ & ->). by exists c.
Qed.

Lemma references_triple l : forall rep,
  triple same (verify_references_loop rep l)
    (fun r d => same d /\ match r with Ok (Ok _) => Forall (fun p => sound_object p.1 p.2) l | _ => True end) same.
Proof.
  induction l as [|[sha n] l IH]; intros rep; cbn [verify_references_loop]; [apply triple_ret; intros d Hd; by split; [|constructor]|].
  apply triple_pure_bind; [done|]. intros ref Href. unfold new_reference in Href.
  destruct (validate_reference _) as [[]|]; [|done]. injection Href as <-. cbn [br_sha256 br_bytes].
  apply (triple_rbind _ _ _ (fun i d => sound_object sha i.(bi_bytes) /\ same d)).
  { eapply triple_weaken; [apply (verify_same sha)|done| |done]. by intros [[i|e]|e] d [Hd Hi]. }
  intros i. apply triple_pure. intros Hi. destruct (N.eqb_spec (bi_bytes i) n) as [<-|]; cbn [negb]; [|by apply triple_ret].
  apply triple_pure_bind; [done|]. intros t _. eapply triple_weaken; [apply IH|done| |done].
  intros [[rep'|e]|e] d [Hd Hr]; (split; [done|]); [by constructor|done..].
Qed.

Definition unretained (retained : gset string) (files : list string) : list string :=
  filter (fun sha => sha ∉ retained) files.
Lemma plan_triple retained files : forall rep removals,
  triple same (plan_removals retained rep removals files)
    (fun r d => same d /\ match r with
       | Ok (Ok (rep', removals')) => exists found,
           removals' = removals ++ found /\ found.*1 = unretained retained files
           /\ Forall (fun p => sound_object p.1 p.2) found
           /\ rep' = mkGcReport rep.(gc_retained) (rep.(removable) + len found)
                       (rep.(removable_bytes) + sumN found.*2) rep.(gc_removed) rep.(gc_removed_bytes) rep.(dry_run)
       | _ => True
       end) same.
Proof.
  unfold unretained. induction files as [|sha files IH]; intros rep removals; cbn [plan_removals].
  - apply triple_ret. intros d Hd. split; [done|]. exists []. rewrite app_nil_r. repeat split; [constructor|].
    rewrite fmap_nil, sumN_nil, !N.add_0_r. by destruct rep.
  - case_bool_decide as Hin.
    { rewrite filter_cons_False by naive_solver. apply IH. }
    rewrite filter_cons_True by done. apply (triple_rbind _ _ _ (fun i d => sound_object sha i.(bi_bytes) /\ same d)).
    { eapply triple_weaken; [apply (verify_same sha)|done| |done]. by intros [[i|e]|e] d [Hd Hi]. }
    intros i. apply triple_pure. intros Hi. apply triple_pure_bind; [done|]. intros t Ht.
    unfold ok_or in Ht. destruct (checked_add _ _ _) as [t'|] eqn:Ha; [|done]. injection Ht as <-.
    apply checked_add_Some in Ha as [-> _]. eapply triple_weaken; [apply IH|done| |done].
    intros [[[rep' rem']|e]|e] d [Hd Hr]; (split; [done|]); [|done..]. destruct Hr as (found & -> & Hf & Hall & ->).
    exists ((sha, bi_bytes i) :: found). rewrite <- app_assoc. csimpl. rewrite Hf, sumN_cons.
    split_and!; [done|done|by constructor|]. unfold len. cbn [length removable removable_bytes gc_retained gc_removed gc_removed_bytes dry_run]. f_equal; lia.
Qed.

(** ** The removals *)
Definition without (gone : list string) (d : Disk) : Prop :=
  (forall sha, object d sha = if decide (sha ∈ gone) then None else object d0 sha)
  /\ (forall x, strip_prefix "objects/" x = None -> d !! x = d0 !! x).
Lemma without_remove gone d sha : without gone d -> without (sha :: gone) (remove_path d (digest_path sha)).
Proof.
  intros [Ho He]. split.
  - intros sha'. rewrite object_remove, Ho. repeat case_decide; set_solver.
  - intros x Hx. rewrite dir_remove; [by apply He|]. intros ->. unfold digest_path in Hx. cbn [fst] in Hx. by rewrite strip_shard in Hx.
Qed.
Definition partly_removed (garbage : list string) (d : Disk) : Prop :=
  exists gone, without gone d /\ forall sha, sha ∈ gone -> sha ∈ garbage.

Lemma remove_triple garbage removals : forall rep gone,
  (forall sha, sha ∈ gone ++ removals.*1 -> sha ∈ garbage) ->
  triple (without gone) (remove_objects rep removals)
    (fun r d => partly_removed garbage d /\ match r with
       | Ok (Ok rep') => without (reverse removals.*1 ++ gone) d
           /\ rep' = mkGcReport rep.(gc_retained) rep.(removable) rep.(removable_bytes)
                       (rep.(gc_removed) + len removals) (rep.(gc_removed_bytes) + sumN removals.*2) rep.(dry_run)
       | _ => True
       end) (partly_removed garbage).
Proof.
  induction removals as [|[sha n] removals IH]; intros rep gone Hg; cbn [remove_objects].
  - apply triple_ret. intros d Hd. split; [exists gone; split; [done|set_solver]|]. split; [done|].
    rewrite fmap_nil, sumN_nil, !N.add_0_r. by destruct rep.
  - csimpl in Hg. assert (forall d, without gone d -> partly_removed garbage d) as Hpart by (intros d Hd; exists gone; split; [done|set_solver]).
    assert (forall d, without (sha :: gone) d -> partly_removed garbage d) as Hpart' by (intros d Hd; exists (sha :: gone); split; [done|set_solver]).
    apply (triple_rbind _ _ _ (fun _ => without (sha :: gone))).
    { apply triple_io, triple_syscall; [|by intros d k Hd; repeat split; apply Hpart].
      intros d Hd. destruct (is_some _); [by apply without_remove|by split; [apply Hpart|]]. }
    intros _. apply triple_pure_bind; [by intros e d _ Hd; split; [apply Hpart'|]|]. intros t Ht.
    unfold ok_or in Ht. destruct (checked_add _ _ _) as [t'|] eqn:Ha; [|done]. injection Ht as <-.
    apply checked_add_Some in Ha as [-> _]. 
    assert (forall sha', sha' ∈ (sha :: gone) ++ removals.*1 -> sha' ∈ garbage) as Hg' by set_solver.
    eapply triple_weaken; [apply (IH _ (sha :: gone) Hg')|done| |done].
    intros [[rep'|e]|e] d [Hd Hr]; (split; [done|]); [|done..]. destruct Hr as [Hw ->]. csimpl.
    rewrite reverse_cons, <- app_assoc, sumN_cons. split; [done|]. unfold len. cbn [length removable removable_bytes gc_retained gc_removed gc_removed_bytes dry_run]. f_equal; lia.
Qed.

(** ** A collection *)
Section Gc.
Variables (roots : gset string) (dry : bool).
Definition removed_at_most (d : Disk) : Prop :=
  (forall sha, object d sha = object d0 sha \/ (object d sha = None /\ sha ∉ roots /\ dry = false))
  /\ (forall x, strip_prefix "objects/" x = None -> d !! x = d0 !! x).
Definition collected (report : BlobGcReport) (d : Disk) : Prop :=
  exists garbage : list (string * N),
    NoDup garbage.*1
    /\ (forall sha, sha ∈ garbage.*1 <-> sha ∉ roots /\ is_Some (object d0 sha))
    /\ Forall (fun p => sound_object p.1 p.2) garbage
    /\ report = mkGcReport (set_len roots) (len garbage) (sumN garbage.*2)
                  (if dry then 0 else len garbage) (if dry then 0 else sumN garbage.*2) dry
    /\ (forall sha, object d sha = if dry || bool_decide (sha ∈ roots) then object d0 sha else None).

Lemma same_removed d : same d -> removed_at_most d.
Proof. intros ->. split; [by left|done]. Qed.
Lemma partly_removed_at_most files d :
  dry = false -> partly_removed (unretained roots files) d -> removed_at_most d.
Proof.
  intros Hdry (gone & [Ho He] & Hg). split; [|done]. intros sha. rewrite Ho. case_decide as Hin; [right|by left].
  split_and!; [done| |done]. apply Hg in Hin. unfold unretained in Hin. by apply list_elem_of_filter in Hin as [? _].
Qed.

Lemma gc_triple :
  triple same (gc_locked roots dry)
    (fun r d => removed_at_most d /\ match r with Ok (Ok report) => collected report d | _ => True end) removed_at_most.
Proof.
  assert (forall d, same d -> removed_at_most d /\ True) as Hs by (intros d Hd; split; [by apply same_removed|done]).
  unfold gc_locked. apply (triple_rbind _ _ _ (fun _ => same)).
  { apply triple_io. eapply triple_weaken; [apply (keep_triple same), layout_keeps|done| |by apply same_removed].
    intros [u|e] d Hd; [done|by apply Hs]. }
  intros _. apply triple_pure_bind; [intros e d _; apply Hs|]. intros [] _.
  apply (triple_rbind _ _ _ (fun files d => object_files_of d0 = Ok files /\ same d)).
  { intros w Hw. cbn. destruct (object_files_of (disk w)) as [l|e] eqn:Hl; [|by apply Hs]. by rewrite <- Hw. }
  intros files. apply triple_pure. intros (Hnd & Hin & _)%object_files_spec.
  apply (triple_rbind _ _ _ (fun p d => (exists found, p.2 = found /\ found.*1 = unretained roots files
      /\ Forall (fun p => sound_object p.1 p.2) found
      /\ p.1 = mkGcReport (set_len roots) (len found) (sumN found.*2) 0 0 dry) /\ same d)).
  { eapply triple_weaken; [apply plan_triple|done| |by apply same_removed].
    intros [[[rep rem]|e]|e] d [Hd Hr]; [|by apply Hs..]. destruct Hr as (found & -> & Hf & Hall & ->).
    split; [|done]. by exists found. }
  intros [rep rem]. apply triple_pure. intros (found & Hrem & Hf & Hall & Hrep). cbn [fst snd] in *. subst rem rep.
  assert (forall sha, sha ∈ found.*1 <-> sha ∉ roots /\ is_Some (object d0 sha)) as Hg.
  { intros sha. rewrite Hf. unfold unretained. by rewrite list_elem_of_filter, Hin. }
  assert (NoDup found.*1) as Hnd' by (rewrite Hf; by apply NoDup_filter).
  destruct dry eqn:Hdry.
  - apply triple_ret. intros d Hd. split; [by apply Hs|]. exists found. rewrite Hdry, Hd. by split_and!.
  - assert (forall sha, sha ∈ [] ++ found.*1 -> sha ∈ unretained roots files) as Hsub by (by rewrite Hf).
    assert (forall d, partly_removed (unretained roots files) d -> removed_at_most d) as Hpart.
    { intros d Hp. by apply (partly_removed_at_most files). }
    set (done := fun rep d => removed_at_most d /\ collected rep d).
    apply (triple_rbind _ _ _ done).
    { eapply triple_weaken; [apply (remove_triple _ found _ [] Hsub)| | |exact Hpart].
      - intros d ->. split; [|done]. intros sha. by rewrite decide_False by set_solver.
      - intros [[rep'|e]|e] d [Hp Hr]; (try split; [by apply Hpart|]); [|done..]. destruct Hr as [[Ho _] ->].
        exists found. rewrite Hdry. split_and!; [done..|]. intros sha. rewrite Ho, app_nil_r. cbn [orb].
        destruct (decide (sha ∈ reverse found.*1)) as [Hi|Hi]; rewrite elem_of_reverse, Hg in Hi.
        + by rewrite bool_decide_eq_false_2 by tauto.
        + case_bool_decide; [done|]. destruct (object d0 sha) eqn:Hc; [|done]. exfalso. apply Hi. by split. }
    intros rep'. apply (triple_rbind _ _ _ (fun _ => done rep')); [|intros _; by apply triple_ret].
    apply triple_io. eapply triple_weaken; [apply (nothing_triple (done rep'))|done| |by intros d [Hd _]].
    intros [u|e] d [Hd Hc]; by split.
Qed.
End Gc.

Definition gc_post (roots : gset string) (references : gmap string N) (dry : bool)
    (r : result string (Result BlobGcReport)) (d : Disk) : Prop :=
  removed_at_most roots dry d
  /\ match r with
     | Ok (Ok report) =>
         (forall sha n, references !! sha = Some n -> sound_object sha n) /\ collected roots dry report d
     | _ => True
     end.
Lemma gc_with_references_triple retained references dry :
  let roots := retained ∪ dom references in
  triple same (gc_with_references retained references dry) (gc_post roots references dry) (removed_at_most roots dry).
Proof.
  cbn zeta. set (roots := retained ∪ dom references).
  assert (forall d, same d -> removed_at_most roots dry d /\ True) as Hs by (intros d Hd; split; [by apply same_removed|done]).
  unfold gc_with_references. apply (triple_rbind _ _ _ (fun _ => same)).
  { apply triple_io. eapply triple_weaken; [apply (lock_triple same)|done| |by apply same_removed].
    intros [u|e] d Hd; [done|by apply Hs]. }
  intros _. unfold gc_with_references_locked. apply triple_pure_bind; [intros e d _; apply Hs|]. intros [] _.
  apply (triple_rbind _ _ _ (fun _ d => (forall sha n, references !! sha = Some n -> sound_object sha n) /\ same d)).
  { unfold verify_references_locked. apply triple_pure_bind; [intros e d _; apply Hs|]. intros [] _.
    eapply triple_weaken; [apply references_triple|done| |by apply same_removed].
    intros [[r|e]|e] d [Hd Hr]; [|by apply Hs..]. split; [|done]. intros sha n Hn. rewrite Forall_forall in Hr.
    by apply (Hr (sha, n)), btree_iter_elem. }
  intros _. apply triple_pure. intros Hrefs. eapply triple_weaken; [apply gc_triple|done| |done].
  intros [[r|e]|e] d [Hd Hr]; (split; [done|]); [by split|done..].
Qed.
End Collect.

(** C25: Garbage collection removes only garbage.  Whatever calls fail and
    wherever the process dies, an object is unchanged or it was removed, and
    then no root (retained digest or reference) names it and the run was not a
    dry one; files outside the shards stay.  A run that is answered has found
    every reference present with its digest and size, and what it counts is
    exactly the objects no root names; unless dry, exactly those are gone. *)
Theorem gc_removes_only_garbage `{Externals} (retained : gset string) (references : gmap string N) (dry : bool) (w : World) :
  let roots := retained ∪ dom references in
  let '(w', o) := gc_with_references retained references dry w in
  (forall sha, object w'.(disk) sha = object w.(disk) sha
               \/ (object w'.(disk) sha = None /\ sha ∉ roots /\ dry = false))
  /\ (forall x, strip_prefix "objects/" x = None -> w'.(disk) !! x = w.(disk) !! x)
  /\ match o with
     | Done (Ok (Ok report)) =>
         (forall sha n, references !! sha = Some n -> sound_object w.(disk) sha n)
         /\ collected w.(disk) roots dry report w'.(disk)
     | _ => True
     end.
Proof.
  cbn zeta. pose proof (gc_with_references_triple (disk w) retained references dry w eq_refl) as Ht.
  destruct (gc_with_references retained references dry w) as [w' [r|]].
  - destruct Ht as [[Ho He] Hr]. by split_and!.
  - destruct Ht as [Ho He]. by split_and!.
Qed.

(** The blobs a snapshot refers to outlive a collection: when the references
    are read off a snapshot, the object every reference among its values names
    is as it was after the collection, whatever calls fail and wherever the
    process dies; and if the collection is answered, the object is there with
    the digest and size of the reference. *)
Theorem snapshot_blobs_survive_gc `{Externals} `{HexDecode} (snapshot : StorageSnapshot) (entries : gmap string bytes)
    (references : gmap string N) (retained : gset string) (dry : bool) (key : string) (value : bytes)
    (r : BlobReference) (w : World)
    (Hentries : decode_entries snapshot = Ok entries)
    (Hreferences : blob_references snapshot = Ok references)
    (Hvalue : entries !! key = Some value) (Hr : decode_reference value = Ok (Some r)) :
  let '(w', o) := gc_with_references retained references dry w in
  object w'.(disk) r.(br_sha256) = object w.(disk) r.(br_sha256)
  /\ match o with
     | Done (Ok (Ok _)) => sound_object w'.(disk) r.(br_sha256) r.(br_bytes)
     | _ => True
     end.
Proof.
  assert (references !! br_sha256 r = Some (br_bytes r)) as Href.
  { unfold blob_references in Hreferences. rewrite Hentries in Hreferences.
    apply collect_references_spec in Hreferences as [_ Hin]. apply (Hin value); [|done]. apply btree_values_elem. eauto. }
  pose proof (gc_with_references_triple (disk w) retained references dry w eq_refl) as Ht.
  assert (br_sha256 r ∈ retained ∪ dom references) as Hroot by (apply elem_of_union_r, elem_of_dom; by eexists).
  destruct (gc_with_references retained references dry w) as [w' o].
  assert (object (disk w') (br_sha256 r) = object (disk w) (br_sha256 r)) as Hsame.
  { destruct o as [x|]; [destruct Ht as [[Ho _] _]|destruct Ht as [Ho _]]; by destruct (Ho (br_sha256 r)) as [|(_ & Hno & _)]. }
  split; [done|]. destruct o as [[[rep|e]|e]|]; [|done..]. destruct Ht as [_ [Hs _]].
  destruct (Hs _ _ Href) as (c & Hc & Hh & Hl). exists c. by rewrite Hsame.
Qed.

(** ** A concrete store *)
Section Witnesses.
#[local] Existing Instance demo_externals.
#[local] Existing Instance demo_hex.

Definition empty_store : Disk := {[OBJECTS := ∅; TEMPORARY := ∅; "." := {["store.lock" := []]}]}.
Definition store_world (d : Disk) (fates : list fate) : World := mkWorld d 0 77 fates.
Definition photo : bytes := [x01; x02; x03].
Definition stale : bytes := [x09].

Lemma put_then_verify_witness :
  let sha := hex_sha256 photo in
  exists w1, blob_put photo (store_world empty_store []) = (w1, Done (Ok (Ok (mkBlobInfo sha 3 false))))
    /\ verify sha w1 = (w1, Done (Ok (Ok (mkBlobInfo sha 3 true)))).
Proof.
  apply (put_then_verify photo (store_world empty_store [])).
  - reflexivity.
  - repeat split; vm_compute; by eexists.
  - vm_compute. discriminate.
  - intros c Hc. vm_compute in Hc. discriminate.
  - vm_compute. reflexivity.
Defined.

(** Two blobs were put; the snapshot refers to one of them. *)
Definition both_world (fates : list fate) : World :=
  store_world (disk (blob_put stale (blob_put photo (store_world empty_store [])).1).1) fates.
Definition photo_reference : BlobReference := mkBlobReference (hex_sha256 photo) 3.
Definition photo_value : bytes := match encode_reference photo_reference with Ok b => b | Err _ => [] end.
Definition album : gmap string bytes := {["photo" := photo_value; "title" := [x41]]}.
Definition album_snapshot : StorageSnapshot :=
  mkSnapshot (mkSnapshotPayload 3 "dev.example.app" 2 7 (hex_encode <$> album)) (hex_sha256 []).
Definition album_references : gmap string N := {[hex_sha256 photo := 3]}.
Lemma snapshot_blobs_survive_gc_witness :
  exists w' report, gc_with_references ∅ album_references false (both_world []) = (w', Done (Ok (Ok report)))
    /\ report.(gc_removed) = 1 /\ object w'.(disk) (hex_sha256 stale) = None
    /\ sound_object w'.(disk) (hex_sha256 photo) 3.
Proof.
  destruct (gc_with_references ∅ album_references false (both_world [])) as [w' o] eqn:Hrun.
  assert (exists report, o = Done (Ok (Ok report)) /\ report.(gc_removed) = 1) as (report & -> & Hn).
  { apply (f_equal snd) in Hrun. vm_compute in Hrun. eexists. split; [symmetry; exact Hrun|reflexivity]. }
  exists w', report. split; [done|]. split; [done|]. split.
  { apply (f_equal (fun p => object p.1.(disk) (hex_sha256 stale))) in Hrun. vm_compute in Hrun. symmetry. exact Hrun. }
  pose proof (snapshot_blobs_survive_gc album_snapshot album album_references ∅ false "photo" photo_value
    photo_reference (both_world [])) as H.
  rewrite Hrun in H. apply H; vm_compute; reflexivity.
Defined.
End Witnesses.
