(* ===== verification/Reachability.v ===== *)
(** * Reachability manifests ([crates/cartridge-storage/src/reachability.rs])

    A manifest records which blobs a set of capsules and snapshots keeps alive:
    its sources, the objects they reach and a digest of both.  It is written
    once, by linking a temporary file into place, and checked when it is read.
    JSON is a parameter; the directory of a path without a parent is ["."]. *)
From stdpp Require Import pretty.
From S2P Require Import Prelude Text Events Files Storage Snapshot Directory DirectoryTheorems Blob BlobTheorems.

Definition BLOB_REACHABILITY_FORMAT_VERSION : N := 1.
Definition MAX_BLOB_REACHABILITY_DOCUMENT_BYTES : N := 16 * 1024 * 1024.
Definition MAX_BLOB_REACHABILITY_SOURCES : N := 256.

Inductive BlobReachabilitySourceKind := Capsule | SnapshotSource.
Record BlobReachabilitySource := mkReachSource { rs_kind : BlobReachabilitySourceKind; rs_sha256 : string }.
#[global] Instance source_kind_eq_dec : EqDecision BlobReachabilitySourceKind.
Proof. solve_decision. Defined.
#[global] Instance reach_source_eq_dec : EqDecision BlobReachabilitySource.
Proof. solve_decision. Defined.
#[global] Instance reach_source_countable : Countable BlobReachabilitySource.
Proof.
  refine (inj_countable' (fun s => (bool_decide (s.(rs_kind) = Capsule), s.(rs_sha256)))
            (fun p => mkReachSource (if p.1 : bool then Capsule else SnapshotSource) p.2) _).
  by intros [[] sha].
Defined.

Record BlobReachabilityPayload := mkReachPayload {
  rp_format_version : N;
  rp_sources : gset BlobReachabilitySource;
  rp_objects : gmap string N;
}.
Record BlobReachabilityManifest := mkReachManifest {
  rm_payload : BlobReachabilityPayload;
  rm_payload_sha256 : string;
}.
#[global] Instance reach_payload_eq_dec : EqDecision BlobReachabilityPayload.
Proof. solve_decision. Defined.
#[global] Instance reach_manifest_eq_dec : EqDecision BlobReachabilityManifest.
Proof. solve_decision. Defined.
Record BlobReachabilitySummary := mkReachSummary {
  rsum_format_version : N;
  rsum_sources : N;
  rsum_objects : N;
  rsum_bytes : N;
  rsum_payload_sha256 : string;
}.

Definition validate_sha256 (value : string) : Result unit :=
  if negb (str_len value =? 64) || negb (forallb (fun byte => is_ascii_digit byte || in_range 97 102 byte) (str_bytes value))
  then Err (Corrupt "reachability source digest must be lowercase sha256") else Ok tt.
Definition new_source (kind : BlobReachabilitySourceKind) (sha256 : string) : Result BlobReachabilitySource :=
  let source := mkReachSource kind sha256 in
  let? _ := validate_sha256 source.(rs_sha256) in
  Ok source.

Fixpoint check_sources (l : list BlobReachabilitySource) : Result unit :=
  match l with
  | [] => Ok tt
  | source :: l => let? _ := validate_sha256 source.(rs_sha256) in check_sources l
  end.
Fixpoint check_objects (l : list (string * N)) : Result unit :=
  match l with
  | [] => Ok tt
  | (sha256, bytes) :: l => let? _ := new_reference sha256 bytes in check_objects l
  end.
Fixpoint sum_objects (total : N) (l : list N) : Result N :=
  match l with
  | [] => Ok total
  | bytes :: l =>
      let? total := ok_or (checked_add u64_max total bytes) (Corrupt "blob reachability size overflowed") in
      sum_objects total l
  end.

Section Reachability.
Context `{Ext : Externals} `{JP : !Json BlobReachabilityPayload} `{JM : !Json BlobReachabilityManifest}
  `{DM : !JsonDecode BlobReachabilityManifest}.

(** [payload_digest] *)
Definition reach_payload_digest (payload : BlobReachabilityPayload) : Result string :=
  let? bytes := serialize payload in
  Ok (hex_sha256 bytes).

Definition validate_manifest (self : BlobReachabilityManifest) : Result unit :=
  let p := self.(rm_payload) in
  if negb (p.(rp_format_version) =? BLOB_REACHABILITY_FORMAT_VERSION)
  then Err (Corrupt "unsupported blob reachability format")
  else if bool_decide (p.(rp_sources) = ∅) || (MAX_BLOB_REACHABILITY_SOURCES <? set_len p.(rp_sources))
  then Err (Corrupt "blob reachability manifest must contain between 1 and 256 sources")
  else if MAX_BLOB_GC_ROOTS <? btree_len p.(rp_objects)
  then Err (Corrupt "blob reachability manifest exceeds the object limit")
  else
    let? _ := check_sources (elements p.(rp_sources)) in
    let? _ := check_objects (btree_iter p.(rp_objects)) in
    let? digest := reach_payload_digest p in
    if negb (bool_decide (self.(rm_payload_sha256) = digest))
    then Err (Corrupt "blob reachability payload digest does not match its contents")
    else Ok tt.

Definition new_manifest (sources : gset BlobReachabilitySource) (objects : gmap string N) :
    Result BlobReachabilityManifest :=
  let payload := mkReachPayload BLOB_REACHABILITY_FORMAT_VERSION sources objects in
  let? payload_sha256 := reach_payload_digest payload in
  let manifest := mkReachManifest payload payload_sha256 in
  let? _ := validate_manifest manifest in
  Ok manifest.

Definition manifest_from_slice (bytes : bytes) : Result BlobReachabilityManifest :=
  if MAX_BLOB_REACHABILITY_DOCUMENT_BYTES <? len bytes
  then Err (Corrupt "blob reachability manifest exceeds the byte limit")
  else
    let? manifest := match from_slice bytes with Ok manifest => Ok manifest | Err e => Err (Serialization e) end in
    let? _ := validate_manifest manifest in
    Ok manifest.

(** [File::open(path)?.take(limit + 1).read_to_end(..)] *)
Definition read_manifest (path : Path) : IOR BlobReachabilityManifest :=
  try? content := io (read_file path) in
  pure_ (manifest_from_slice (take (N.to_nat (MAX_BLOB_REACHABILITY_DOCUMENT_BYTES + 1)) content)).

Definition reach_prefix : string := ".cartridge-reachability-".
Definition write_manifest (self : BlobReachabilityManifest) (path : Path) : IOR unit :=
  pure_ (validate_manifest self) ;;!
  io (ensure_directory path.1) ;;!
  try? sequence := io fetch_sequence in
  try? process := io get_process_id in
  let temporary := (path.1, temporary_name reach_prefix process sequence) in
  io (create_new temporary) ;;!
  try? encoded := pure_ (serialize self) in
  if MAX_BLOB_REACHABILITY_DOCUMENT_BYTES <? len encoded then
    io (discard temporary) ;;!
    pure_ (Err (Corrupt "blob reachability manifest exceeds the byte limit"))
  else
    io (write_all temporary encoded) ;;!
    try? linked := io (attempt (hard_link temporary path)) in
    match linked with
    | Err error => io (discard temporary) ;;! io (fail error)
    | Ok _ => io (remove_file temporary) ;;! io (sync_directory path.1)
    end.

Definition manifest_summary (self : BlobReachabilityManifest) : Result BlobReachabilitySummary :=
  let? _ := validate_manifest self in
  let? bytes := sum_objects 0 (btree_values self.(rm_payload).(rp_objects)) in
  Ok (mkReachSummary self.(rm_payload).(rp_format_version) (set_len self.(rm_payload).(rp_sources))
        (btree_len self.(rm_payload).(rp_objects)) bytes self.(rm_payload_sha256)).
End Reachability.

(** ** What a valid manifest is *)
Section Theorems.
Context `{Ext : Externals} `{JP : !Json BlobReachabilityPayload} `{JM : !Json BlobReachabilityManifest}
  `{DM : !JsonDecode BlobReachabilityManifest} `{RM : !JsonRoundTrip BlobReachabilityManifest}.

Lemma check_objects_Ok l :
  check_objects l = Ok tt <-> Forall (fun p => is_digest p.1 = true /\ p.2 <= MAX_BLOB_BYTES) l.
Proof.
  induction l as [|[sha n] l IH]; [done|]. cbn [check_objects]. rewrite Forall_cons, <- IH. unfold new_reference.
  destruct (validate_reference _) as [[]|] eqn:Hv; cbn [fst snd].
  - apply validate_reference_Ok in Hv. naive_solver.
  - split; [done|]. intros [Hr _]. apply (validate_reference_Ok (mkBlobReference sha n)) in Hr. congruence.
Qed.

Lemma sum_objects_exact l : forall total,
  total + sumN l <= u64_max -> sum_objects total l = Ok (total + sumN l).
Proof.
  induction l as [|n l IH]; intros total Hs; cbn [sum_objects]; [by rewrite sumN_nil, N.add_0_r|].
  rewrite sumN_cons in *. assert (checked_add u64_max total n = Some (total + n)) as -> by (apply checked_add_Some; lia).
  cbn [ok_or]. rewrite IH by lia. f_equal. lia.
Qed.
Lemma sumN_bound l b : Forall (fun n => n <= b) l -> sumN l <= len l * b.
Proof.
  induction 1 as [|n l Hn Hl IH]; [rewrite sumN_nil; lia|]. rewrite sumN_cons. unfold len in *. cbn [length]. lia.
Qed.

(** The size a reachability manifest reports is exact: the sum of its
    objects' sizes cannot overflow 64 bits once the manifest is valid, so the
    summary fails exactly when the manifest does not validate. *)
Theorem reachability_summary_exact (m : BlobReachabilityManifest) :
  manifest_summary m
  = match validate_manifest m with
    | Ok _ => Ok (mkReachSummary BLOB_REACHABILITY_FORMAT_VERSION (set_len m.(rm_payload).(rp_sources))
                    (btree_len m.(rm_payload).(rp_objects)) (sumN (btree_values m.(rm_payload).(rp_objects)))
                    m.(rm_payload_sha256))
    | Err e => Err e
    end.
Proof.
  unfold manifest_summary. destruct (validate_manifest m) as [[]|e] eqn:Hv; [|done].
  revert Hv. unfold validate_manifest. cbn zeta. pass Hver. pass Hsrc. pass Hobj.
  destruct (check_sources _) as [[]|]; [|done]. destruct (check_objects _) as [[]|] eqn:Hc; [|done]. intros _.
  apply check_objects_Ok in Hc. apply negb_false_iff, N.eqb_eq in Hver. apply N.ltb_ge in Hobj.
  set (objs := rp_objects (rm_payload m)) in *.
  assert (sumN (btree_values objs) <= len (btree_values objs) * MAX_BLOB_BYTES) as Hsum.
  { apply sumN_bound. unfold btree_values. apply Forall_fmap. eapply Forall_impl; [exact Hc|]. by intros p [_ Hp]. }
  assert (len (btree_values objs) = btree_len objs) as Hlen.
  { unfold len, btree_len, btree_values. rewrite length_fmap, btree_iter_perm. by rewrite length_map_to_list. }
  rewrite sum_objects_exact; [by rewrite Hver|].
  rewrite Hlen in Hsum. unfold MAX_BLOB_GC_ROOTS, MAX_BLOB_BYTES, u64_max in *. nia.
Qed.

(** ** Writing a manifest *)
Section WriteManifest.
Variables (m : BlobReachabilityManifest) (path : Path) (d0 : Disk).
Hypothesis (Hname : staged reach_prefix path.2 = false).
Definition manifest_or_not (d : Disk) : Prop :=
  framed reach_prefix path.1 [path.2] d0 d
  /\ (read_path d path = read_path d0 path
      \/ (read_path d0 path = None /\ exists b, to_vec m = Ok b /\ read_path d path = Some b)).
Definition manifest_there (d : Disk) : Prop :=
  framed reach_prefix path.1 [path.2] d0 d
  /\ exists b, to_vec m = Ok b /\ len b <= MAX_BLOB_REACHABILITY_DOCUMENT_BYTES /\ read_path d path = Some b
       /\ read_path d0 path = None.
Let untouched_path (d : Disk) : Prop :=
  framed reach_prefix path.1 [path.2] d0 d /\ read_path d path = read_path d0 path.
Definition manifest_post (r : result string (Result unit)) (d : Disk) : Prop :=
  manifest_or_not d /\ match r with Ok (Ok _) => validate_manifest m = Ok tt /\ manifest_there d | _ => True end.

Lemma there_or_not d : manifest_there d -> manifest_or_not d.
Proof. intros [Hf (b & Hb & _ & Hr & Hn)]. split; [done|]. right. split; [done|]. by exists b. Qed.
Lemma untouched_or_not d : untouched_path d -> manifest_or_not d.
Proof. intros [Hf Hr]. split; [done|by left]. Qed.
Lemma staged_ne q : q.1 = path.1 -> staged reach_prefix q.2 = true -> q <> path.
Proof. intros _ Hs ->. congruence. Qed.
Lemma untouched_ignores : ignores reach_prefix path.1 untouched_path.
Proof.
  intros d q Hq Hs [Hf Hr]. pose proof (staged_ne q Hq Hs). split; [intros c|]; split.
  - apply framed_write; auto.
  - by rewrite read_write_ne.
  - apply framed_remove; auto.
  - by rewrite read_remove_ne.
Qed.
Lemma there_ignores : ignores reach_prefix path.1 manifest_there.
Proof.
  intros d q Hq Hs [Hf (b & Hb & Hl & Hr & Hn)]. pose proof (staged_ne q Hq Hs). split; [intros c|]; split.
  - apply framed_write; auto.
  - exists b. by rewrite read_write_ne.
  - apply framed_remove; auto.
  - exists b. by rewrite read_remove_ne.
Qed.

Lemma link_triple q b :
  q.1 = path.1 -> staged reach_prefix q.2 = true -> to_vec m = Ok b -> len b <= MAX_BLOB_REACHABILITY_DOCUMENT_BYTES ->
  validate_manifest m = Ok tt ->
  triple (fun d => untouched_path d /\ read_path d q = Some b)
    (try? linked := io (attempt (hard_link q path)) in
     match linked with
     | Err error => io (discard q) ;;! io (fail error)
     | Ok _ => io (remove_file q) ;;! io (sync_directory path.1)
     end) manifest_post manifest_or_not.
Proof.
  intros Hq Hs Hb Hl Hv.
  assert (forall d, untouched_path d -> manifest_or_not d /\ True) as HU by (intros d Hd; split; [by apply untouched_or_not|done]).
  assert (forall d, manifest_there d -> manifest_or_not d /\ True) as HT by (intros d Hd; split; [by apply there_or_not|done]).
  apply (triple_rbind _ _ _ (fun r d => match r with Ok _ => manifest_there d | Err _ => untouched_path d end)).
  { apply triple_io, triple_attempt, triple_syscall; [|by intros d n [Hd _]; split; [|apply HU]].
    intros d [[Hf Hr] Hc]. rewrite Hc. destruct (read_path d path) as [x|] eqn:Hp; cbn [is_some is_none negb]; [split; [done|congruence]|].
    split; [apply framed_write; [done|done|left; set_solver]|]. exists b. split; [done|]. split; [done|]. split; [|congruence].
    apply read_write_eq. rewrite <- Hq. by apply read_Some_dir in Hc. }
  intros [u|e].
  - apply (triple_rbind _ _ _ (fun _ => manifest_there)).
    { apply triple_io, triple_syscall; [|by intros d n Hd; split; apply HT].
      intros d Hd. destruct (is_some _); [by apply (there_ignores d q)|by apply HT]. }
    intros _. apply triple_io. eapply triple_weaken; [apply (nothing_triple manifest_there)|done| |by apply there_or_not].
    intros [[]|e] d Hd; (split; [by apply there_or_not|]); done.
  - apply (triple_rbind _ _ _ (fun _ => untouched_path)).
    { apply triple_io. eapply triple_weaken; [apply (discard_triple reach_prefix path.1 untouched_path q untouched_ignores Hq Hs)|done| |by apply untouched_or_not].
      intros [[]|e'] d Hd; [done|by apply HU]. }
    intros _. apply triple_io, triple_fail. intros d Hd. by apply HU.
Qed.

Lemma write_manifest_triple : triple (fun d => d = d0) (write_manifest m path) manifest_post manifest_or_not.
Proof.
  assert (forall d, untouched_path d -> manifest_or_not d /\ True) as HU by (intros d Hd; split; [by apply untouched_or_not|done]).
  assert (untouched_path d0) as H0 by (split; [apply framed_refl|done]).
  unfold write_manifest. apply triple_pure_bind; [intros e d _ ->; by apply HU|]. intros [] Hv.
  apply (triple_rbind _ _ _ (fun _ => untouched_path)).
  { apply triple_io. intros w Hw0. unfold ensure_directory. rewrite Hw0. destruct (d0 !! path.1) as [x|] eqn:Hx; cbn [is_some is_none negb]; [by rewrite Hw0|].
    assert (triple (fun d => d = d0) (syscall (fun d => Ok (<[path.1 := ∅]> d, tt)) untouched)
      (fun r d => match r with Ok _ => untouched_path d | Err e => manifest_post (Err e) d end) manifest_or_not) as Ht; [apply triple_syscall|].
    - intros d ->. assert (forall name, read_path (<[path.1 := ∅]> d0) (path.1, name) = read_path d0 (path.1, name)) as Hread.
      { intros name. unfold read_path. cbn [fst snd]. by rewrite lookup_insert_eq, Hx. }
      split; [constructor|].
      + intros x Hne. by rewrite lookup_insert_ne.
      + intros [y Hy]. congruence.
      + intros name _ _. apply Hread.
      + destruct path as [pd pn]. apply Hread.
    - intros d n ->. split; [by apply HU|by apply untouched_or_not].
    - by apply (Ht w Hw0). }
  intros _. intros [dk sq pid fs] Hw. set (q := (path.1, temporary_name reach_prefix pid sq)).
  assert (staged reach_prefix q.2 = true) as Hs by apply temporary_staged.
  match goal with |- context [rbind (io fetch_sequence) ?k ?w] => set (k1 := k) end.
  enough (triple untouched_path (rbind (io (create_new q)) (fun _ =>
    rbind (pure_ (serialize m)) (fun encoded =>
    if MAX_BLOB_REACHABILITY_DOCUMENT_BYTES <? len encoded then
      io (discard q) ;;! pure_ (Err (Corrupt "blob reachability manifest exceeds the byte limit"))
    else
      io (write_all q encoded) ;;!
      try? linked := io (attempt (hard_link q path)) in
      match linked with
      | Err error => io (discard q) ;;! io (fail error)
      | Ok _ => io (remove_file q) ;;! io (sync_directory path.1)
      end))) manifest_post manifest_or_not) as Ht
    by exact (Ht (mkWorld dk (wrapping_add u64_max sq 1) pid fs) Hw).
  clear k1. apply (triple_rbind _ _ _ (fun _ d => untouched_path d /\ is_Some (d !! path.1))).
  { apply triple_io, triple_syscall; [|by intros d n Hd; split; [apply HU|apply untouched_or_not]].
    intros d Hd. change q.1 with path.1. destruct (d !! path.1) as [x|] eqn:Hx; [|by apply HU].
    destruct (is_some _); [by apply HU|]. split; [by apply (untouched_ignores d q)|]. apply is_dir_write. by exists x. }
  intros _. apply triple_pure_bind; [intros e d _ [Hd _]; by apply HU|]. intros b Hb. unfold serialize in Hb.
  destruct (to_vec m) as [b'|] eqn:Hm; [|done]. injection Hb as ->.
  destruct (N.ltb_spec MAX_BLOB_REACHABILITY_DOCUMENT_BYTES (len b)) as [Hl|Hl].
  - apply (triple_rbind _ _ _ (fun _ => untouched_path)); [|intros _; apply triple_ret; intros d Hd; by apply HU].
    apply triple_io. eapply triple_weaken; [apply (discard_triple reach_prefix path.1 untouched_path q untouched_ignores eq_refl Hs)|by intros d [Hd _]| |by apply untouched_or_not].
    intros [[]|e] d Hd; [done|by apply HU].
  - apply (triple_rbind _ _ _ (fun _ d => untouched_path d /\ read_path d q = Some b)); [|intros _; by apply link_triple].
    apply triple_io, triple_syscall.
    + intros d [Hd Hi]. split; [by apply (untouched_ignores d q)|by apply read_write_eq].
    + intros d n [Hd Hi]. split; [apply HU|apply untouched_or_not]; by apply (untouched_ignores d q).
Qed.
End WriteManifest.

(** A reachability manifest is written whole or not at all: whatever calls
    fail and wherever the process dies, the file is as it was or it took an empty
    place and holds the whole encoding, and other files stay, its own temporary
    one apart; a write that is answered is of a valid manifest, and reading the
    file then gives that manifest back. *)
Theorem reachability_write_is_atomic (m : BlobReachabilityManifest) (path : Path) (w : World)
    (Hname : staged reach_prefix path.2 = false) :
  let '(w', o) := write_manifest m path w in
  framed reach_prefix path.1 [path.2] w.(disk) w'.(disk)
  /\ (read_path w'.(disk) path = read_path w.(disk) path
      \/ (read_path w.(disk) path = None /\ exists b, to_vec m = Ok b /\ read_path w'.(disk) path = Some b))
  /\ match o with
     | Done (Ok (Ok _)) => validate_manifest m = Ok tt /\ read_path w.(disk) path = None
                           /\ read_manifest path w' = (w', Done (Ok (Ok m)))
     | _ => True
     end.
Proof.
  pose proof (write_manifest_triple m path (disk w) Hname w eq_refl) as Ht.
  destruct (write_manifest m path w) as [w' o].
  assert (manifest_or_not m path (disk w) (disk w')) as [Hf Hor] by (destruct o as [r|]; [apply Ht|done]).
  split; [done|]. split; [done|]. destruct o as [[[[]|e]|e]|]; [|done..].
  destruct Ht as [_ [Hv [_ (b & Hb & Hl & Hr & Hn)]]]. split; [done|]. split; [done|].
  unfold read_manifest, rbind, io, bind, read_file. rewrite Hr. cbn [ok_or]. unfold ret, pure_, ret, manifest_from_slice.
  rewrite take_ge by (unfold len in Hl; lia).
  destruct (N.ltb_spec MAX_BLOB_REACHABILITY_DOCUMENT_BYTES (len b)); [lia|].
  by rewrite (from_slice_to_vec m b Hb), Hv.
Qed.
End Theorems.

(** ** A concrete manifest *)
Section Witnesses.
#[local] Existing Instance demo_externals.
#[local] Instance reach_payload_json : Json BlobReachabilityPayload := demo_json.
Definition demo_manifest : BlobReachabilityManifest :=
  mkReachManifest (mkReachPayload 1 {[mkReachSource SnapshotSource (hex_sha256 [x07])]} {[hex_sha256 [x01] := 1]}) (hex_sha256 []).
#[local] Instance reach_json : Json BlobReachabilityManifest := table_json [demo_manifest].
#[local] Instance reach_decode : JsonDecode BlobReachabilityManifest := table_decode [demo_manifest].
#[local] Instance reach_rt : JsonRoundTrip BlobReachabilityManifest := table_round_trip [demo_manifest].
Definition reach_world : World := mkWorld {["out" := ∅]} 0 77 [].
Lemma reachability_write_is_atomic_witness :
  exists w', write_manifest demo_manifest ("out", "live.json") reach_world = (w', Done (Ok (Ok tt)))
    /\ read_manifest ("out", "live.json") w' = (w', Done (Ok (Ok demo_manifest))).
Proof.
  destruct (write_manifest demo_manifest ("out", "live.json") reach_world) as [w' o] eqn:Hrun.
  assert (o = Done (Ok (Ok tt))) as -> by (apply (f_equal snd) in Hrun; vm_compute in Hrun; symmetry; exact Hrun).
  exists w'. split; [done|].
  pose proof (reachability_write_is_atomic demo_manifest ("out", "live.json") reach_world eq_refl) as H.
  rewrite Hrun in H. apply H.
Defined.
End Witnesses.
