(* ===== verification/Rollout.v ===== *)
(** * Rollout checkpoints ([crates/cartridge-engine/src/rollout.rs])

    The record of a transactional rollout, its validation, and the predicates
    that compare a record with the latest event of the journal. *)
From S2P Require Import Prelude Text Core Rolling Plan Events.

Definition ENGINE_ROLLOUT_FORMAT_VERSION : N := 1.
Definition MAX_ROLLOUT_HISTORY : N := 256.
Definition MAX_ROLLOUT_HISTORY_BYTES : N := 256 * 1024 * 1024.
Definition MAX_ROLLOUT_BYTES : N := MAX_STACK_PLAN_BYTES * 2 + 64 * 1024.
Definition ROLLOUT_STABILITY_WINDOW_MS : N := 2000.

Module RolloutPhase.
Inductive RolloutPhase := Prepared | Activated | Committed | RolledBack | Cancelled.
#[global] Instance eq_dec : EqDecision RolloutPhase.
Proof. solve_decision. Defined.
End RolloutPhase.
Abbreviation RolloutPhase := RolloutPhase.RolloutPhase.

Record RolloutRecord := mkRollout {
  ro_format_version : N;
  ro_rollout_id : string;
  ro_stack : string;
  ro_phase : RolloutPhase;
  ro_created_at_ms : N;
  ro_updated_at_ms : N;
  previous_revision : option N;
  previous_generation : option string;
  previous_state : option EngineStackState;
  previous_plan : option StackPlan;
  candidate_plan : StackPlan;
  activated_revision : option N;
  activated_generation : option string;
  rollback_revision : option N;
  rollback_generation : option string;
  health_report_sha256 : option string;
  record_sha256 : string;
}.
#[global] Instance rollout_eq_dec : EqDecision RolloutRecord.
Proof. solve_decision. Defined.

(** What [serde_json] encodes for the identity of a rollout. *)
Definition RolloutIdentity : Type := N * string * N * option N * option string * string.

Definition with_record_sha256 (r : RolloutRecord) (sha : string) : RolloutRecord :=
  mkRollout r.(ro_format_version) r.(ro_rollout_id) r.(ro_stack) r.(ro_phase) r.(ro_created_at_ms)
    r.(ro_updated_at_ms) r.(previous_revision) r.(previous_generation) r.(previous_state)
    r.(previous_plan) r.(candidate_plan) r.(activated_revision) r.(activated_generation)
    r.(rollback_revision) r.(rollback_generation) r.(health_report_sha256) sha.
Definition with_rollout_id (r : RolloutRecord) (rid : string) : RolloutRecord :=
  mkRollout r.(ro_format_version) rid r.(ro_stack) r.(ro_phase) r.(ro_created_at_ms)
    r.(ro_updated_at_ms) r.(previous_revision) r.(previous_generation) r.(previous_state)
    r.(previous_plan) r.(candidate_plan) r.(activated_revision) r.(activated_generation)
    r.(rollback_revision) r.(rollback_generation) r.(health_report_sha256) r.(record_sha256).
(** The phase and time assignments every transition starts with. *)
Definition with_phase (r : RolloutRecord) (p : RolloutPhase) (now_ms : N) : RolloutRecord :=
  mkRollout r.(ro_format_version) r.(ro_rollout_id) r.(ro_stack) p r.(ro_created_at_ms)
    now_ms r.(previous_revision) r.(previous_generation) r.(previous_state)
    r.(previous_plan) r.(candidate_plan) r.(activated_revision) r.(activated_generation)
    r.(rollback_revision) r.(rollback_generation) r.(health_report_sha256) r.(record_sha256).
Definition with_activation (r : RolloutRecord) (event : EngineEvent) : RolloutRecord :=
  mkRollout r.(ro_format_version) r.(ro_rollout_id) r.(ro_stack) r.(ro_phase) r.(ro_created_at_ms)
    r.(ro_updated_at_ms) r.(previous_revision) r.(previous_generation) r.(previous_state)
    r.(previous_plan) r.(candidate_plan) (Some event.(ev_revision)) (Some event.(event_sha256))
    r.(rollback_revision) r.(rollback_generation) r.(health_report_sha256) r.(record_sha256).
Definition with_rollback (r : RolloutRecord) (event : EngineEvent) : RolloutRecord :=
  mkRollout r.(ro_format_version) r.(ro_rollout_id) r.(ro_stack) r.(ro_phase) r.(ro_created_at_ms)
    r.(ro_updated_at_ms) r.(previous_revision) r.(previous_generation) r.(previous_state)
    r.(previous_plan) r.(candidate_plan) r.(activated_revision) r.(activated_generation)
    (Some event.(ev_revision)) (Some event.(event_sha256)) r.(health_report_sha256) r.(record_sha256).
Definition with_health (r : RolloutRecord) (sha : string) : RolloutRecord :=
  mkRollout r.(ro_format_version) r.(ro_rollout_id) r.(ro_stack) r.(ro_phase) r.(ro_created_at_ms)
    r.(ro_updated_at_ms) r.(previous_revision) r.(previous_generation) r.(previous_state)
    r.(previous_plan) r.(candidate_plan) r.(activated_revision) r.(activated_generation)
    r.(rollback_revision) r.(rollback_generation) (Some sha) r.(record_sha256).

Definition active (self : RolloutRecord) : bool :=
  match self.(ro_phase) with RolloutPhase.Prepared | RolloutPhase.Activated => true | _ => false end.
Definition terminal (self : RolloutRecord) : bool := negb (active self).

Definition valid_phase_fields (phase : RolloutPhase) (previous_revision activated_revision : option N)
    (activated_generation : option string) (rollback_revision : option N)
    (rollback_generation health_report_sha256 : option string) : bool :=
  let activation_valid := is_some_and (fun value => 0 <? value) activated_revision
                          && is_some_and is_digest activated_generation in
  let rollback_valid := is_some_and (fun value => 0 <? value) rollback_revision
                        && is_some_and is_digest rollback_generation in
  let activation_absent := is_none activated_revision && is_none activated_generation in
  let rollback_absent := is_none rollback_revision && is_none rollback_generation in
  let health_valid := is_some_and is_digest health_report_sha256 in
  let phase_valid :=
    match phase with
    | RolloutPhase.Prepared | RolloutPhase.Cancelled =>
        activation_absent && rollback_absent && is_none health_report_sha256
    | RolloutPhase.Activated => activation_valid && rollback_absent && is_none health_report_sha256
    | RolloutPhase.Committed => activation_valid && rollback_absent && health_valid
    | RolloutPhase.RolledBack =>
        activation_valid && rollback_valid && is_none_or is_digest health_report_sha256
    end in
  let activation_revision_valid :=
    is_none_or (fun activated =>
      activated =? from_option (fun revision => saturating_add u64_max revision 1) 1 previous_revision)
      activated_revision in
  let rollback_revision_valid :=
    match activated_revision, rollback_revision with
    | Some activated, Some rollback => rollback =? saturating_add u64_max activated 1
    | _, None => true
    | None, Some _ => false
    end in
  phase_valid && activation_revision_valid && rollback_revision_valid.

(** ** Comparing a record with the journal *)
Definition plan_sha_of (p : option StackPlan) : option string := sp_plan_sha256 <$> p.

Definition matches_candidate (record : RolloutRecord) (current : option EngineEvent) : bool :=
  is_some_and (fun event =>
    bool_decide (event.(ev_kind) = EngineEventKind.Apply)
    && is_some_and (fun plan => bool_decide (plan.(sp_plan_sha256) = record.(candidate_plan).(sp_plan_sha256)))
         event.(ev_plan)
    && bool_decide (event.(previous_event_sha256) = default "" record.(previous_generation))) current.

Definition matches_rollback (record : RolloutRecord) (current : option EngineEvent) : bool :=
  match current with
  | None => false
  | Some event =>
      if negb (bool_decide (event.(previous_event_sha256) = default "" record.(activated_generation)))
      then false
      else
        match record.(previous_state) with
        | Some EngineStackState.Applied =>
            bool_decide (event.(ev_kind) = EngineEventKind.Apply)
            && bool_decide (plan_sha_of event.(ev_plan) = plan_sha_of record.(previous_plan))
        | Some EngineStackState.Stopped =>
            bool_decide (event.(ev_kind) = EngineEventKind.Stop)
            && bool_decide (plan_sha_of event.(ev_plan) = plan_sha_of record.(previous_plan))
        | Some EngineStackState.Removed | None => bool_decide (event.(ev_kind) = EngineEventKind.Remove)
        end
  end.

Definition ensure_time_advances (record : RolloutRecord) (now_ms : N) : result string unit :=
  if (now_ms =? 0) || (now_ms <? record.(ro_updated_at_ms))
  then Err "rollout timestamp cannot move backwards" else Ok tt.

Definition ensure_matches_previous (record : RolloutRecord) (current : option EngineEvent) :
    result string unit :=
  let valid :=
    match record.(previous_revision), current with
    | None, None => true
    | Some revision, Some event =>
        (event.(ev_revision) =? revision)
        && bool_decide (record.(previous_generation) = Some event.(event_sha256))
        && bool_decide (record.(previous_state) = Some (event_status event).(ss_state))
        && bool_decide (plan_sha_of record.(previous_plan) = plan_sha_of event.(ev_plan))
    | _, _ => false
    end in
  if valid then Ok tt else Err "desired state changed after rollout preparation".

Definition ensure_matches_activation (record : RolloutRecord) (current : option EngineEvent) :
    result string unit :=
  if matches_candidate record current
     && is_some_and (fun event =>
          bool_decide (Some event.(ev_revision) = record.(activated_revision))
          && bool_decide (Some event.(event_sha256) = record.(activated_generation))) current
  then Ok tt else Err "desired state no longer matches the activated rollout".

Definition rollback_target (record : RolloutRecord) :
    result string (EngineEventKind * option StackPlan) :=
  match record.(previous_state) with
  | Some EngineStackState.Applied =>
      let? plan := ok_or record.(previous_plan) "rollback plan is missing" in
      Ok (EngineEventKind.Apply, Some plan)
  | Some EngineStackState.Stopped =>
      let? plan := ok_or record.(previous_plan) "rollback plan is missing" in
      Ok (EngineEventKind.Stop, Some plan)
  | Some EngineStackState.Removed | None => Ok (EngineEventKind.Remove, None)
  end.

(** ** Validation *)
Section Rollout.
Context `{Ext : Externals} `{JP : !Json StackPlan} `{JI : !Json RolloutIdentity} `{JRo : !Json RolloutRecord}.

Definition rollout_id (stack : string) (created_at_ms : N) (previous_revision : option N)
    (previous_generation : option string) (candidate_plan_sha256 : string) : result string string :=
  let? identity := to_vec ((ENGINE_ROLLOUT_FORMAT_VERSION, stack, created_at_ms, previous_revision,
                            previous_generation, candidate_plan_sha256) : RolloutIdentity) in
  Ok (hex_sha256 identity).

Definition computed_rollout_id (self : RolloutRecord) : result string string :=
  rollout_id self.(ro_stack) self.(ro_created_at_ms) self.(previous_revision)
    self.(previous_generation) self.(candidate_plan).(sp_plan_sha256).

Definition record_computed_sha256 (self : RolloutRecord) : result string string :=
  let? bytes := to_vec (with_record_sha256 self "") in
  if MAX_ROLLOUT_BYTES <? len bytes then Err "engine rollout exceeds its byte limit"
  else Ok (hex_sha256 bytes).

Definition validate_previous (self : RolloutRecord) : result string unit :=
  match self.(previous_revision), self.(previous_generation), self.(previous_state) with
  | None, None, None =>
      if is_none self.(previous_plan) then Ok tt else Err "rollout previous generation is incomplete"
  | Some revision, Some generation, Some state =>
      if (0 <? revision) && is_digest generation then
        match state with
        | EngineStackState.Applied | EngineStackState.Stopped =>
            let? plan := ok_or self.(previous_plan) "rollout previous state is missing its plan" in
            let? _ := validate_plan plan in
            if negb (bool_decide (plan.(sp_stack) = self.(ro_stack)))
               || (bool_decide (state = EngineStackState.Stopped)
                   && existsb (fun i => negb (bool_decide (i.(pi_desired) = DesiredState.Stopped)))
                        plan.(sp_instances))
            then Err "rollout previous plan is inconsistent" else Ok tt
        | EngineStackState.Removed =>
            if is_none self.(previous_plan) then Ok tt
            else Err "removed rollout state cannot retain a plan"
        end
      else Err "rollout previous generation is incomplete"
  | _, _, _ => Err "rollout previous generation is incomplete"
  end.

Definition validate_phase (self : RolloutRecord) : result string unit :=
  if negb (valid_phase_fields self.(ro_phase) self.(previous_revision) self.(activated_revision)
             self.(activated_generation) self.(rollback_revision) self.(rollback_generation)
             self.(health_report_sha256))
  then Err "engine rollout phase fields are inconsistent" else Ok tt.

Definition validate_record (self : RolloutRecord) : result string unit :=
  let? _ := validate_plan self.(candidate_plan) in
  if negb (self.(ro_format_version) =? ENGINE_ROLLOUT_FORMAT_VERSION)
     || negb (is_digest self.(ro_rollout_id))
     || negb (valid_name self.(ro_stack))
     || negb (bool_decide (self.(candidate_plan).(sp_stack) = self.(ro_stack)))
     || (self.(ro_created_at_ms) =? 0)
     || (self.(ro_updated_at_ms) <? self.(ro_created_at_ms))
  then Err "engine rollout identity is invalid"
  else
    let? rid := computed_rollout_id self in
    if negb (bool_decide (self.(ro_rollout_id) = rid)) || negb (is_digest self.(record_sha256))
    then Err "engine rollout identity is invalid"
    else
      let? sha := record_computed_sha256 self in
      if negb (bool_decide (self.(record_sha256) = sha)) then Err "engine rollout identity is invalid"
      else
        let? _ := validate_previous self in
        validate_phase self.

Definition refresh_record (self : RolloutRecord) : result string RolloutRecord :=
  let self := with_record_sha256 self "" in
  let? sha := record_computed_sha256 self in
  let self := with_record_sha256 self sha in
  let? _ := validate_record self in
  Ok self.

Definition new_record (candidate_plan : StackPlan) (previous : option EngineEvent) (now_ms : N) :
    result string RolloutRecord :=
  if now_ms =? 0 then Err "rollout timestamp is invalid"
  else
    let value :=
      mkRollout ENGINE_ROLLOUT_FORMAT_VERSION "" candidate_plan.(sp_stack) RolloutPhase.Prepared now_ms
        now_ms (ev_revision <$> previous) (event_sha256 <$> previous)
        ((fun event => (event_status event).(ss_state)) <$> previous)
        (event ← previous; event.(ev_plan)) candidate_plan None None None None None "" in
    let? rid := computed_rollout_id value in
    refresh_record (with_rollout_id value rid).

(** The checkpoint after a restart: the journal tells whether an activation or
    a rollback got as far as its event. *)
Definition recover_rollout_checkpoint (record : RolloutRecord) (current : option EngineEvent) :
    result string (RolloutRecord * bool) :=
  match record.(ro_phase) with
  | RolloutPhase.Prepared =>
      if matches_candidate record current then
        let? event := ok_or current "activated rollout event is missing" in
        let record := with_activation
          (with_phase record RolloutPhase.Activated
             (N.max record.(ro_updated_at_ms) event.(created_at_ms))) event in
        let? record := refresh_record record in
        Ok (record, true)
      else
        let? _ := ensure_matches_previous record current in
        Ok (record, false)
  | RolloutPhase.Activated =>
      if matches_rollback record current then
        let? event := ok_or current "rollback event is missing" in
        let record := with_rollback
          (with_phase record RolloutPhase.RolledBack
             (N.max record.(ro_updated_at_ms) event.(created_at_ms))) event in
        let? record := refresh_record record in
        Ok (record, true)
      else
        let? _ := ensure_matches_activation record current in
        Ok (record, false)
  | _ => Ok (record, false)
  end.
End Rollout.
