(* ===== verification/Progress.v ===== *)
(** * Live execution of a rollout ([crates/cartridge-engine/src/rollout_progress.rs])

    The durable progress record of an activated rollout: which candidate
    replicas may start, which previous replicas are draining, and the decision
    of the next action of the whole stack from the runtime statuses of both
    generations. *)
From S2P Require Import Prelude Text Core Rolling Plan Supervisor Events Rollout.

Definition ENGINE_ROLLOUT_PROGRESS_FORMAT_VERSION : N := 1.
Definition MAX_ROLLOUT_PROGRESS_BYTES : N := 1024 * 1024.
Definition MAX_STACK_TOTAL_ACTIVE_REPLICAS : N := MAX_STACK_TOTAL_REPLICAS + MAX_STACK_TOTAL_SURGE_REPLICAS.

Module RolloutExecutionPhase.
Inductive RolloutExecutionPhase := Rolling | Paused | Completing | RollingBack | Completed | RolledBack.
#[global] Instance eq_dec : EqDecision RolloutExecutionPhase.
Proof. solve_decision. Defined.
End RolloutExecutionPhase.
Abbreviation RolloutExecutionPhase := RolloutExecutionPhase.RolloutExecutionPhase.

Record DrainIntent := mkDrainIntent { requested_at_ms : N; deadline_at_ms : N }.
#[global] Instance drain_intent_eq_dec : EqDecision DrainIntent.
Proof. solve_decision. Defined.

Record RolloutInstanceProgress := mkInstanceProgress {
  ip_name : string;
  ip_previous_replicas : N;
  ip_candidate_replicas : N;
  ip_policy : RollingUpdatePolicy;
  candidate_enabled : gset N;
  previous_draining : gmap N DrainIntent;
}.
#[global] Instance instance_progress_eq_dec : EqDecision RolloutInstanceProgress.
Proof. solve_decision. Defined.

Record RolloutProgress := mkProgress {
  rp_format_version : N;
  rp_rollout_id : string;
  rp_stack : string;
  rp_phase : RolloutExecutionPhase;
  rp_previous_revision : option N;
  rp_previous_generation : option string;
  candidate_revision : N;
  candidate_generation : string;
  rp_started_at_ms : N;
  rp_updated_at_ms : N;
  last_progress_at_ms : N;
  action_sequence : N;
  rp_instances : list RolloutInstanceProgress;
  progress_sha256 : string;
}.
#[global] Instance progress_eq_dec : EqDecision RolloutProgress.
Proof. solve_decision. Defined.

Record RolloutProgressAction := mkProgressAction {
  pa_instance : option string;
  pa_action : RollingAction;
}.
#[global] Instance progress_action_eq_dec : EqDecision RolloutProgressAction.
Proof. solve_decision. Defined.

Definition with_progress_sha256 (p : RolloutProgress) (sha : string) : RolloutProgress :=
  mkProgress p.(rp_format_version) p.(rp_rollout_id) p.(rp_stack) p.(rp_phase) p.(rp_previous_revision)
    p.(rp_previous_generation) p.(candidate_revision) p.(candidate_generation) p.(rp_started_at_ms)
    p.(rp_updated_at_ms) p.(last_progress_at_ms) p.(action_sequence) p.(rp_instances) sha.
Definition with_rp_phase (p : RolloutProgress) (ph : RolloutExecutionPhase) : RolloutProgress :=
  mkProgress p.(rp_format_version) p.(rp_rollout_id) p.(rp_stack) ph p.(rp_previous_revision)
    p.(rp_previous_generation) p.(candidate_revision) p.(candidate_generation) p.(rp_started_at_ms)
    p.(rp_updated_at_ms) p.(last_progress_at_ms) p.(action_sequence) p.(rp_instances) p.(progress_sha256).
Definition with_instances (p : RolloutProgress) (l : list RolloutInstanceProgress) : RolloutProgress :=
  mkProgress p.(rp_format_version) p.(rp_rollout_id) p.(rp_stack) p.(rp_phase) p.(rp_previous_revision)
    p.(rp_previous_generation) p.(candidate_revision) p.(candidate_generation) p.(rp_started_at_ms)
    p.(rp_updated_at_ms) p.(last_progress_at_ms) p.(action_sequence) l p.(progress_sha256).
Definition with_times (p : RolloutProgress) (updated progress sequence : N) : RolloutProgress :=
  mkProgress p.(rp_format_version) p.(rp_rollout_id) p.(rp_stack) p.(rp_phase) p.(rp_previous_revision)
    p.(rp_previous_generation) p.(candidate_revision) p.(candidate_generation) p.(rp_started_at_ms)
    updated progress sequence p.(rp_instances) p.(progress_sha256).

(** ** Validation *)
Definition validate_instance_progress (self : RolloutInstanceProgress) : result string unit :=
  let policy_replicas := N.max self.(ip_previous_replicas) self.(ip_candidate_replicas) in
  if negb (valid_name self.(ip_name)) || (policy_replicas =? 0)
     || (MAX_STACK_REPLICAS <? self.(ip_previous_replicas))
     || (MAX_STACK_REPLICAS <? self.(ip_candidate_replicas))
  then Err "rollout instance progress is invalid"
  else
    let? _ := validate_policy self.(ip_policy) policy_replicas in
    if set_any (fun ordinal => (ordinal =? 0) || (self.(ip_candidate_replicas) <? ordinal))
         self.(candidate_enabled)
       || existsb (fun '(ordinal, intent) =>
            (ordinal =? 0) || (self.(ip_previous_replicas) <? ordinal)
            || (intent.(requested_at_ms) =? 0)
            || (intent.(deadline_at_ms) <? intent.(requested_at_ms)))
            (map_to_list self.(previous_draining))
    then Err "rollout instance ordinal progress is invalid" else Ok tt.

Fixpoint check_progress_instances (previous_name : option string)
    (previous_total candidate_total total_surge : N) (l : list RolloutInstanceProgress) :
    result string (N * N * N) :=
  match l with
  | [] => Ok (previous_total, candidate_total, total_surge)
  | instance :: l =>
      let? _ := validate_instance_progress instance in
      if is_some_and (fun name => str_ge name instance.(ip_name)) previous_name
      then Err "rollout progress instances are not strictly sorted"
      else
        let? previous_total := ok_or (checked_add u16_max previous_total instance.(ip_previous_replicas))
                                     "rollout previous replica count overflow" in
        let? candidate_total := ok_or (checked_add u16_max candidate_total instance.(ip_candidate_replicas))
                                      "rollout candidate replica count overflow" in
        let? total_surge := ok_or (checked_add u16_max total_surge instance.(ip_policy).(max_surge))
                                  "rollout surge count overflow" in
        check_progress_instances (Some instance.(ip_name)) previous_total candidate_total total_surge l
  end.

Definition replica_ready (replica : ReplicaRuntime) : bool :=
  is_none_or (fun p => bool_decide (p.(probe_phase) = ProbePhase.Ready)) replica.(probe).

Definition has_name (name : string) (i : RolloutInstanceProgress) : bool := bool_decide (i.(ip_name) = name).

Definition ensure_time (self : RolloutProgress) (now_ms : N) : result string unit :=
  if (now_ms =? 0) || (now_ms <? self.(rp_updated_at_ms))
  then Err "rollout progress time cannot move backwards" else Ok tt.
Definition ensure_mutable (self : RolloutProgress) (now_ms : N) : result string unit :=
  let? _ := ensure_time self now_ms in
  if negb (bool_decide (self.(rp_phase) = RolloutExecutionPhase.Rolling))
  then Err "rollout execution is not accepting scheduler actions" else Ok tt.

Section Progress.
Context `{Ext : Externals} `{JP : !Json StackPlan} `{JS : !Json StackRuntimeStatus}
  `{JI : !Json RolloutIdentity} `{JRo : !Json RolloutRecord} `{JPr : !Json RolloutProgress}.

Definition progress_computed_sha256 (self : RolloutProgress) : result string string :=
  let? bytes := to_vec (with_progress_sha256 self "") in
  if MAX_ROLLOUT_PROGRESS_BYTES <? len bytes then Err "rollout progress exceeds its byte limit"
  else Ok (hex_sha256 bytes).

Definition validate_progress (self : RolloutProgress) : result string unit :=
  if negb (self.(rp_format_version) =? ENGINE_ROLLOUT_PROGRESS_FORMAT_VERSION)
     || negb (is_digest self.(rp_rollout_id))
     || negb (valid_name self.(rp_stack))
     || negb match self.(rp_previous_revision), self.(rp_previous_generation) with
             | None, None => true
             | Some revision, Some _ => 1 <=? revision
             | _, _ => false
             end
     || is_some_and (fun generation => negb (is_digest generation)) self.(rp_previous_generation)
     || (self.(candidate_revision) =? 0)
     || negb (is_digest self.(candidate_generation))
     || (self.(rp_started_at_ms) =? 0)
     || (self.(rp_updated_at_ms) <? self.(rp_started_at_ms))
     || (self.(last_progress_at_ms) <? self.(rp_started_at_ms))
     || (self.(rp_updated_at_ms) <? self.(last_progress_at_ms))
     || (MAX_STACK_INSTANCES <? len self.(rp_instances))
     || negb (is_digest self.(progress_sha256))
  then Err "rollout progress identity is invalid"
  else
    let? sha := progress_computed_sha256 self in
    if negb (bool_decide (sha = self.(progress_sha256))) then Err "rollout progress identity is invalid"
    else
      let? (previous_total, candidate_total, total_surge) :=
        check_progress_instances None 0 0 0 self.(rp_instances) in
      if (MAX_STACK_TOTAL_REPLICAS <? previous_total) || (MAX_STACK_TOTAL_REPLICAS <? candidate_total)
         || (MAX_STACK_TOTAL_SURGE_REPLICAS <? total_surge)
      then Err "rollout progress exceeds its aggregate replica limits" else Ok tt.

Definition refresh_progress (self : RolloutProgress) : RolloutProgress * result string unit :=
  let self := with_progress_sha256 self "" in
  let! sha := progress_computed_sha256 self on self in
  let self := with_progress_sha256 self sha in
  (self, validate_progress self).

(** ** Creation *)
Definition running_count (i : option PlannedInstance) : N :=
  match i with
  | Some i => if bool_decide (i.(pi_desired) = DesiredState.Running) then i.(pi_replicas) else 0
  | None => 0
  end.

(** The instance that [name] moves from one plan to the other, or [None] for an
    instance that runs in neither. *)
Definition instance_transition (previous_plan : option StackPlan) (candidate_plan : StackPlan) (name : string) :
    result string (option RolloutInstanceProgress) :=
  let named i := bool_decide (i.(pi_name) = name) in
  let previous := plan ← previous_plan; List.find named plan.(sp_instances) in
  let candidate := List.find named candidate_plan.(sp_instances) in
  let previous_replicas := running_count previous in
  let candidate_replicas := running_count candidate in
  if (previous_replicas =? 0) && (candidate_replicas =? 0) then Ok None
  else
    let? source := ok_or (or_else candidate previous) "rollout instance transition is missing its policy" in
    Ok (Some (mkInstanceProgress name previous_replicas candidate_replicas source.(pi_update) ∅ ∅)).

Fixpoint instance_transitions (previous_plan : option StackPlan) (candidate_plan : StackPlan)
    (names : list string) : result string (list RolloutInstanceProgress) :=
  match names with
  | [] => Ok []
  | name :: names =>
      let? transition := instance_transition previous_plan candidate_plan name in
      let? rest := instance_transitions previous_plan candidate_plan names in
      Ok (match transition with Some t => t :: rest | None => rest end)
  end.

Definition from_rollout (record : RolloutRecord) (now_ms : N) : result string RolloutProgress :=
  let? _ := validate_record record in
  if negb (bool_decide (record.(ro_phase) = RolloutPhase.Activated)) || (now_ms =? 0)
     || (now_ms <? record.(ro_updated_at_ms))
  then Err "rollout is not activated for live execution"
  else
    let? generation := ok_or record.(activated_generation) "activated rollout has no candidate generation" in
    let previous_plan :=
      if bool_decide (record.(previous_state) = Some EngineStackState.Applied)
      then record.(Rollout.previous_plan) else None in
    let names : gset string :=
      list_to_set (from_option (fun plan => pi_name <$> plan.(sp_instances)) [] previous_plan)
      ∪ list_to_set (pi_name <$> record.(candidate_plan).(sp_instances)) in
    let? instances := instance_transitions previous_plan record.(candidate_plan)
                        (merge_sort String.le (elements names)) in
    let? revision := ok_or record.(activated_revision) "activated rollout has no candidate revision" in
    let value :=
      mkProgress ENGINE_ROLLOUT_PROGRESS_FORMAT_VERSION record.(ro_rollout_id) record.(ro_stack)
        RolloutExecutionPhase.Rolling record.(previous_revision) record.(previous_generation) revision
        generation now_ms now_ms now_ms 0 instances "" in
    match refresh_progress value with
    | (value, Ok _) => Ok value
    | (_, Err e) => Err e
    end.

(** ** Transitions *)
Definition mark_progress (self : RolloutProgress) (now_ms : N) : RolloutProgress * result string unit :=
  let! sequence := ok_or (checked_add u64_max self.(action_sequence) 1) "rollout action sequence overflow"
    on self in
  refresh_progress (with_times self now_ms now_ms sequence).

Definition instance_mut (self : RolloutProgress) (name : string) : result string RolloutInstanceProgress :=
  ok_or (List.find (has_name name) self.(rp_instances)) "rollout progress has no matching instance".
(** Write the instance borrowed by [instance_mut]. *)
Definition set_instance (self : RolloutProgress) (name : string) (i : RolloutInstanceProgress) :
    RolloutProgress :=
  with_instances self (update_first (has_name name) (fun _ => i) self.(rp_instances)).

Definition enable_candidate (self : RolloutProgress) (instance : string) (ordinals : list N) (now_ms : N) :
    RolloutProgress * result string unit :=
  let! _ := ensure_mutable self now_ms on self in
  match ordinals with
  | [] => (self, Err "candidate start intent is empty")
  | _ =>
      let! progress := instance_mut self instance on self in
      if existsb (fun ordinal =>
           (ordinal =? 0) || (progress.(ip_candidate_replicas) <? ordinal)
           || bool_decide (ordinal ∈ progress.(candidate_enabled))) ordinals
      then (self, Err "candidate start intent contains an invalid ordinal")
      else
        let progress := mkInstanceProgress progress.(ip_name) progress.(ip_previous_replicas)
          progress.(ip_candidate_replicas) progress.(ip_policy)
          (progress.(candidate_enabled) ∪ list_to_set ordinals) progress.(previous_draining) in
        mark_progress (set_instance self instance progress) now_ms
  end.

Definition request_previous_drain (self : RolloutProgress) (instance : string) (ordinals : list N)
    (now_ms : N) : RolloutProgress * result string unit :=
  let! _ := ensure_mutable self now_ms on self in
  match ordinals with
  | [] => (self, Err "previous drain intent is empty")
  | _ =>
      let! progress := instance_mut self instance on self in
      let! deadline := ok_or (checked_add u64_max now_ms progress.(ip_policy).(drain_timeout_ms))
                             "rollout drain deadline overflow" on self in
      if existsb (fun ordinal =>
           (ordinal =? 0) || (progress.(ip_previous_replicas) <? ordinal)
           || is_some (progress.(previous_draining) !! ordinal)) ordinals
      then (self, Err "previous drain intent contains an invalid ordinal")
      else
        let draining := foldl (fun m ordinal => <[ordinal := mkDrainIntent now_ms deadline]> m)
                          progress.(previous_draining) ordinals in
        let progress := mkInstanceProgress progress.(ip_name) progress.(ip_previous_replicas)
          progress.(ip_candidate_replicas) progress.(ip_policy) progress.(candidate_enabled) draining in
        mark_progress (set_instance self instance progress) now_ms
  end.

Definition phase_step (from to : RolloutExecutionPhase) : bool :=
  match from, to with
  | RolloutExecutionPhase.Rolling,
    (RolloutExecutionPhase.Paused | RolloutExecutionPhase.Completing | RolloutExecutionPhase.RollingBack) => true
  | RolloutExecutionPhase.Paused,
    (RolloutExecutionPhase.Rolling | RolloutExecutionPhase.Completing | RolloutExecutionPhase.RollingBack) => true
  | RolloutExecutionPhase.Completing,
    (RolloutExecutionPhase.Completed | RolloutExecutionPhase.RollingBack) => true
  | RolloutExecutionPhase.RollingBack, RolloutExecutionPhase.RolledBack => true
  | _, _ => false
  end.

Definition set_execution_phase (self : RolloutProgress) (next : RolloutExecutionPhase) (now_ms : N) :
    RolloutProgress * result string unit :=
  let! _ := ensure_time self now_ms on self in
  if negb (phase_step self.(rp_phase) next)
  then (self, Err "rollout execution phase transition is invalid")
  else mark_progress (with_rp_phase self next) now_ms.

Definition progress_heartbeat (self : RolloutProgress) (now_ms : N) : RolloutProgress * result string unit :=
  let! _ := ensure_time self now_ms on self in
  refresh_progress (with_times self now_ms self.(last_progress_at_ms) self.(action_sequence)).

Definition validate_runtime (self : RolloutProgress) (status : option StackRuntimeStatus)
    (revision : option N) (generation : option string) : result string unit :=
  match status with
  | None => Ok tt
  | Some status =>
      let? _ := validate_status status in
      if negb (bool_decide (status.(stack) = self.(rp_stack)))
         || negb (bool_decide (Some status.(Supervisor.revision) = revision))
         || negb (bool_decide (Some status.(Supervisor.generation) = generation))
      then Err "rollout runtime observation has the wrong generation" else Ok tt
  end.

(** Some replica of the instance with this ordinal is stopped. *)
Definition drained_in (previous : StackRuntimeStatus) (name : string) (ordinal : N) : bool :=
  existsb (fun replica => bool_decide (replica.(id).(instance) = name)
                          && (replica.(id).(Supervisor.ordinal) =? ordinal)
                          && phase_is replica ReplicaPhase.Stopped) previous.(replicas).

Definition retain_draining (previous : StackRuntimeStatus) (i : RolloutInstanceProgress) :
    RolloutInstanceProgress :=
  mkInstanceProgress i.(ip_name) i.(ip_previous_replicas) i.(ip_candidate_replicas) i.(ip_policy)
    i.(candidate_enabled)
    (filter (fun kv => drained_in previous i.(ip_name) kv.1 = false) i.(previous_draining)).

Definition acknowledge_drained (self : RolloutProgress) (previous : option StackRuntimeStatus) (now_ms : N) :
    RolloutProgress * result string N :=
  let! _ := ensure_mutable self now_ms on self in
  let! _ := validate_runtime self previous self.(rp_previous_revision) self.(rp_previous_generation) on self in
  match previous with
  | None => (self, Ok 0)
  | Some previous =>
      let removed := sumN ((fun i => N.of_nat (size i.(previous_draining))
                                     - N.of_nat (size (retain_draining previous i).(previous_draining)))
                             <$> self.(rp_instances)) in
      let self := with_instances self (retain_draining previous <$> self.(rp_instances)) in
      if 0 <? removed then
        let (self, res) := mark_progress self now_ms in
        let! _ := res on self in
        (self, Ok removed)
      else (self, Ok removed)
  end.

(** ** Observation *)
Definition of_instance (name : string) (replica : ReplicaRuntime) : bool :=
  bool_decide (replica.(id).(instance) = name).

Definition still_active (replica : ReplicaRuntime) : bool :=
  match replica.(phase) with
  | ReplicaPhase.Pending | ReplicaPhase.Starting | ReplicaPhase.Running | ReplicaPhase.Backoff => true
  | _ => false
  end.

Definition observe_previous (o : RollingObservation) (replica : ReplicaRuntime) : RollingObservation :=
  let n := replica.(id).(Supervisor.ordinal) in
  mkObservation o.(previous_replicas) o.(candidate_replicas)
    (if still_active replica then {[n]} ∪ o.(previous_active) else o.(previous_active))
    (if phase_is replica ReplicaPhase.Running && replica_ready replica
     then {[n]} ∪ o.(previous_ready) else o.(previous_ready))
    o.(candidate_active) o.(candidate_ready) o.(candidate_available) o.(candidate_terminal)
    o.(elapsed_since_progress_ms).

Definition observe_candidate (progress : RolloutInstanceProgress) (now_ms : N) (o : RollingObservation)
    (replica : ReplicaRuntime) : result string RollingObservation :=
  let n := replica.(id).(Supervisor.ordinal) in
  let with_candidate active ready available terminal :=
    mkObservation o.(previous_replicas) o.(candidate_replicas) o.(previous_active) o.(previous_ready)
      active ready available terminal o.(elapsed_since_progress_ms) in
  if negb (bool_decide (n ∈ progress.(candidate_enabled))) then
    match replica.(phase) with
    | ReplicaPhase.Starting | ReplicaPhase.Running | ReplicaPhase.Backoff | ReplicaPhase.Succeeded =>
        Err "candidate replica ran without scheduler authority"
    | _ => Ok o
    end
  else
    match replica.(phase) with
    | ReplicaPhase.Failed | ReplicaPhase.Exhausted | ReplicaPhase.Stopped =>
        Ok (with_candidate (o.(candidate_active) ∖ {[n]}) o.(candidate_ready) o.(candidate_available)
              ({[n]} ∪ o.(candidate_terminal)))
    | ReplicaPhase.Succeeded =>
        Ok (with_candidate o.(candidate_active) ({[n]} ∪ o.(candidate_ready))
              ({[n]} ∪ o.(candidate_available)) o.(candidate_terminal))
    | ReplicaPhase.Running =>
        if replica_ready replica then
          let? ready_at := ok_or (or_else (p ← replica.(probe); p.(ready_at_ms)) replica.(started_at_ms))
                                 "ready candidate has no readiness timestamp" in
          let available :=
            if N.max progress.(ip_policy).(min_ready_ms) ROLLOUT_STABILITY_WINDOW_MS <=? now_ms - ready_at
            then {[n]} ∪ o.(candidate_available) else o.(candidate_available) in
          Ok (with_candidate o.(candidate_active) ({[n]} ∪ o.(candidate_ready)) available
                o.(candidate_terminal))
        else Ok o
    | _ => Ok o
    end.

Fixpoint observe_candidates (progress : RolloutInstanceProgress) (now_ms : N) (o : RollingObservation)
    (l : list ReplicaRuntime) : result string RollingObservation :=
  match l with
  | [] => Ok o
  | replica :: l =>
      let? o := observe_candidate progress now_ms o replica in
      observe_candidates progress now_ms o l
  end.

Definition instance_observation (self : RolloutProgress) (progress : RolloutInstanceProgress)
    (previous candidate : option StackRuntimeStatus) (now_ms : N) : result string RollingObservation :=
  let replicas_of (s : StackRuntimeStatus) := List.filter (of_instance progress.(ip_name)) s.(replicas) in
  let o := mkObservation progress.(ip_previous_replicas) progress.(ip_candidate_replicas) ∅ ∅
             progress.(candidate_enabled) ∅ ∅ ∅ (now_ms - self.(last_progress_at_ms)) in
  let o := match previous with
           | Some previous => foldl observe_previous o (replicas_of previous)
           | None => o
           end in
  match candidate with
  | Some candidate => observe_candidates progress now_ms o (replicas_of candidate)
  | None => Ok o
  end.

Fixpoint instance_observations (self : RolloutProgress) (previous candidate : option StackRuntimeStatus)
    (now_ms : N) (l : list RolloutInstanceProgress) : result string (list RollingObservation) :=
  match l with
  | [] => Ok []
  | i :: l =>
      let? o := instance_observation self i previous candidate now_ms in
      let? rest := instance_observations self previous candidate now_ms l in
      Ok (o :: rest)
  end.

Fixpoint count_active (total : N) (l : list RollingObservation) : result string N :=
  match l with
  | [] => Ok total
  | o :: l =>
      let? total := ok_or (match checked_add usize_max total (set_len o.(previous_active)) with
                           | Some value => checked_add usize_max value (set_len o.(candidate_active))
                           | None => None
                           end) "rollout active replica count overflow" in
      count_active total l
  end.

(** The sums are of [u16]; validation bounds them by 256, 256 and 64. *)
Definition stack_start_capacity (self : RolloutProgress) (observations : list RollingObservation) :
    result string N :=
  let? active := count_active 0 observations in
  let previous := sumN (ip_previous_replicas <$> self.(rp_instances)) in
  let candidate := sumN (ip_candidate_replicas <$> self.(rp_instances)) in
  let surge := sumN ((fun i => i.(ip_policy).(max_surge)) <$> self.(rp_instances)) in
  let? active_limit := ok_or (checked_add usize_max (N.max previous candidate) surge)
                             "rollout active replica limit overflow" in
  if (active_limit <? active) || (MAX_STACK_TOTAL_ACTIVE_REPLICAS <? active_limit)
  then Err "rollout exceeds its stack-wide active replica limit" else Ok (active_limit - active).

(** ** The next action of the stack *)
Definition waits_for_availability (instance : option string) : RolloutProgressAction :=
  mkProgressAction instance (Wait AvailabilityBudget).

(** The loop over the instances: [first_action] and [first_wait] are set once;
    a rollback returns at once. *)
Fixpoint scan_instances (start_capacity : N) (first_action first_wait : option RolloutProgressAction)
    (l : list (RolloutInstanceProgress * RollingObservation)) :
    result string (RolloutProgressAction + option RolloutProgressAction * option RolloutProgressAction) :=
  match l with
  | [] => Ok (inr (first_action, first_wait))
  | (instance, observation) :: l =>
      let? action := next observation instance.(ip_policy) in
      let this a := mkProgressAction (Some instance.(ip_name)) a in
      match action with
      | Complete => scan_instances start_capacity first_action first_wait l
      | Rollback _ => Ok (inl (this action))
      | Wait _ => scan_instances start_capacity first_action (or_else first_wait (Some (this action))) l
      | StartCandidate ordinals =>
          match take (N.to_nat start_capacity) ordinals with
          | [] => scan_instances start_capacity first_action
                    (or_else first_wait (Some (waits_for_availability (Some instance.(ip_name))))) l
          | ordinals => scan_instances start_capacity
                          (or_else first_action (Some (this (StartCandidate ordinals)))) first_wait l
          end
      | DrainPrevious _ _ => scan_instances start_capacity (or_else first_action (Some (this action))) first_wait l
      end
  end.

Definition next_action (self : RolloutProgress) (previous candidate : option StackRuntimeStatus) (now_ms : N) :
    result string RolloutProgressAction :=
  let? _ := validate_progress self in
  let? _ := ensure_time self now_ms in
  if negb (bool_decide (self.(rp_phase) = RolloutExecutionPhase.Rolling))
  then Err "rollout execution is not accepting scheduler decisions"
  else
    let? _ := validate_runtime self previous self.(rp_previous_revision) self.(rp_previous_generation) in
    let? _ := validate_runtime self candidate (Some self.(candidate_revision))
                (Some self.(candidate_generation)) in
    if is_none previous && existsb (fun i => 0 <? i.(ip_previous_replicas)) self.(rp_instances)
    then Ok (waits_for_availability None)
    else
      let drains_pending := existsb (fun i => negb (bool_decide (i.(previous_draining) = ∅)))
                              self.(rp_instances) in
      let? observations := instance_observations self previous candidate now_ms self.(rp_instances) in
      let? start_capacity := stack_start_capacity self observations in
      let? scanned := scan_instances start_capacity None None (zip self.(rp_instances) observations) in
      match scanned with
      | inl rollback => Ok rollback
      | inr (first_action, first_wait) =>
          if drains_pending then Ok (waits_for_availability None)
          else Ok (default (mkProgressAction None Complete) (or_else first_action first_wait))
      end.

(** [validate_progress_against_rollout] *)
Definition validate_progress_against_rollout (progress : RolloutProgress) (rollout : RolloutRecord) :
    result string unit :=
  let? _ := validate_record rollout in
  if negb (bool_decide (progress.(rp_rollout_id) = rollout.(ro_rollout_id)))
     || negb (bool_decide (progress.(rp_stack) = rollout.(ro_stack)))
     || negb (bool_decide (progress.(rp_previous_revision) = rollout.(previous_revision)))
     || negb (bool_decide (progress.(rp_previous_generation) = rollout.(previous_generation)))
     || negb (bool_decide (Some progress.(candidate_revision) = rollout.(activated_revision)))
     || negb (bool_decide (Some progress.(candidate_generation) = rollout.(activated_generation)))
  then Err "rollout progress does not match its transaction checkpoint" else Ok tt.
End Progress.
