(* ===== verification/ProgressTheorems.v ===== *)
(** * Properties of live rollout execution

    Validity of progress records as a proposition, its preservation by every
    transition, and the correctness of the scheduling decision: what
    [next_action] selects can be carried out and respects the stack-wide
    limits. *)
From S2P Require Import Prelude Text Core Rolling Plan Supervisor SupervisorSpec SupervisorTheorems Events Rollout Progress.

(** ** Valid progress records *)
Record instance_ok (i : RolloutInstanceProgress) : Prop := {
  io_name : valid_name i.(ip_name) = true;
  io_previous : i.(ip_previous_replicas) <= MAX_STACK_REPLICAS;
  io_candidate : i.(ip_candidate_replicas) <= MAX_STACK_REPLICAS;
  io_policy : validate_policy i.(ip_policy) (N.max i.(ip_previous_replicas) i.(ip_candidate_replicas)) = Ok tt;
  io_enabled : in_ordinals i.(ip_candidate_replicas) i.(candidate_enabled);
  io_draining : forall n d, i.(previous_draining) !! n = Some d ->
    0 < n <= i.(ip_previous_replicas) /\ d.(requested_at_ms) <> 0 /\ d.(requested_at_ms) <= d.(deadline_at_ms);
}.

Lemma validate_instance_progress_iff i : validate_instance_progress i = Ok tt <-> instance_ok i.
Proof.
  unfold validate_instance_progress. split.
  - pass Hg. destruct (validate_policy _ _) as [[]|] eqn:Hp; [|done]. pass Hf. intros _. split_guard.
    constructor; try done.
    + intros x Hx. match goal with H : set_any _ _ = false |- _ => rewrite set_any_false in H; specialize (H x Hx) end.
      bprop. lia.
    + intros n d Hd. match goal with H : existsb _ (map_to_list _) = false |- _ => rewrite existsb_false in H;
        specialize (H (n, d) ltac:(by apply elem_of_map_to_list)) end. cbn in *. bprop. lia.
  - intros [Hn Hpr Hc Hp He Hd]. rewrite Hn, Hp. pose proof (validate_policy_spec _ _ _ Hp) as (Hpos & _).
    destruct (N.eqb_spec (N.max (ip_previous_replicas i) (ip_candidate_replicas i)) 0) as [|Hnz]; [lia|].
    rewrite !(proj2 (N.ltb_ge MAX_STACK_REPLICAS _)) by done. cbn [negb orb].
    replace (set_any _ _) with false.
    2:{ symmetry. apply set_any_false. intros x Hx. specialize (He x Hx).
        apply orb_false_iff. split; [apply N.eqb_neq|apply N.ltb_ge]; lia. }
    replace (existsb _ (map_to_list _)) with false; [done|]. symmetry. apply existsb_false.
    intros [n d] Hin%elem_of_map_to_list. destruct (Hd n d Hin) as (? & ? & ?).
    rewrite !orb_false_iff. split_and!; first [apply N.eqb_neq|apply N.ltb_ge]; lia.
Qed.

(** Validation of the list sees only the fields that never change. *)
Lemma check_progress_update q f prev a b c l :
  (forall x, x ∈ l -> q x = true -> validate_instance_progress (f x) = validate_instance_progress x
     /\ (f x).(ip_name) = x.(ip_name) /\ (f x).(ip_previous_replicas) = x.(ip_previous_replicas)
     /\ (f x).(ip_candidate_replicas) = x.(ip_candidate_replicas) /\ (f x).(ip_policy) = x.(ip_policy)) ->
  check_progress_instances prev a b c (update_first q f l) = check_progress_instances prev a b c l.
Proof.
  revert prev a b c. induction l as [|x l IH]; intros prev a b c Hf; [done|]. cbn [update_first].
  destruct (q x) eqn:Hq; cbn [check_progress_instances].
  - destruct (Hf x ltac:(left) Hq) as (-> & -> & -> & -> & ->). done.
  - destruct (validate_instance_progress x); [|done]. destruct (is_some_and _ prev); [done|].
    destruct (ok_or _ _); [|done]. destruct (ok_or _ _); [|done]. destruct (ok_or _ _); [|done].
    apply IH. intros y Hy. apply Hf. by right.
Qed.

Lemma check_progress_fmap f prev a b c l :
  (forall x, x ∈ l -> validate_instance_progress x = Ok tt -> validate_instance_progress (f x) = Ok tt) ->
  (forall x, (f x).(ip_name) = x.(ip_name) /\ (f x).(ip_previous_replicas) = x.(ip_previous_replicas)
     /\ (f x).(ip_candidate_replicas) = x.(ip_candidate_replicas) /\ (f x).(ip_policy) = x.(ip_policy)) ->
  forall r, check_progress_instances prev a b c l = Ok r ->
  check_progress_instances prev a b c (f <$> l) = Ok r.
Proof.
  intros Hv Hf. revert prev a b c Hv. induction l as [|x l IH]; intros prev a b c Hv r; [done|].
  csimpl. cbn [check_progress_instances]. destruct (Hf x) as (-> & -> & -> & ->).
  destruct (validate_instance_progress x) as [[]|] eqn:Hx; [|done].
  rewrite (Hv x ltac:(left) Hx). destruct (is_some_and _ prev); [done|].
  destruct (ok_or _ _); [|done]. destruct (ok_or _ _); [|done]. destruct (ok_or _ _); [|done].
  apply IH. intros y Hy. apply Hv. by right.
Qed.

Lemma check_progress_spec prev a b c l a' b' c' :
  check_progress_instances prev a b c l = Ok (a', b', c') ->
  Forall instance_ok l
  /\ (forall p, prev = Some p -> Forall (str_before p) (ip_name <$> l))
  /\ StronglySorted str_before (ip_name <$> l)
  /\ a' = a + sumN (ip_previous_replicas <$> l) /\ b' = b + sumN (ip_candidate_replicas <$> l)
  /\ c' = c + sumN ((fun i => i.(ip_policy).(max_surge)) <$> l).
Proof.
  revert prev a b c. induction l as [|i l IH]; intros prev a b c; cbn [check_progress_instances].
  { intros [= <- <- <-]. csimpl. rewrite !sumN_nil. split_and!; try lia; by intros; constructor. }
  destruct (validate_instance_progress i) as [[]|] eqn:Hi; [|done]. pass Hg. unfold ok_or.
  destruct (checked_add u16_max a _) as [a1|] eqn:Ha; [|done].
  destruct (checked_add u16_max b _) as [b1|] eqn:Hb; [|done].
  destruct (checked_add u16_max c _) as [c1|] eqn:Hc; [|done].
  apply checked_add_Some in Ha as [-> _], Hb as [-> _], Hc as [-> _].
  intros (Hall & Hp & Hs & -> & -> & ->)%IH. specialize (Hp _ eq_refl). csimpl. rewrite !sumN_cons.
  split_and!; try lia.
  - constructor; [by apply validate_instance_progress_iff|done].
  - intros p ->. apply before_head; [|done]. by apply (not_ge_before (Some p)).
  - by constructor.
Qed.

Record progress_ok (p : RolloutProgress) : Prop := {
  pg_format : p.(rp_format_version) = ENGINE_ROLLOUT_PROGRESS_FORMAT_VERSION;
  pg_id : is_digest p.(rp_rollout_id) = true;
  pg_stack : valid_name p.(rp_stack) = true;
  pg_previous : match p.(rp_previous_revision), p.(rp_previous_generation) with
                | None, None => True
                | Some r, Some g => 1 <= r /\ is_digest g = true
                | _, _ => False
                end;
  pg_candidate : p.(candidate_revision) <> 0 /\ is_digest p.(candidate_generation) = true;
  pg_started : p.(rp_started_at_ms) <> 0;
  pg_times : p.(rp_started_at_ms) <= p.(last_progress_at_ms) <= p.(rp_updated_at_ms);
  pg_count : len p.(rp_instances) <= MAX_STACK_INSTANCES;
  pg_instances : exists a b c, check_progress_instances None 0 0 0 p.(rp_instances) = Ok (a, b, c)
                   /\ a <= MAX_STACK_TOTAL_REPLICAS /\ b <= MAX_STACK_TOTAL_REPLICAS
                   /\ c <= MAX_STACK_TOTAL_SURGE_REPLICAS;
}.

Section Valid.
Context `{Ext : Externals} `{JPr : !Json RolloutProgress}.

Lemma progress_sha_digest p sha : progress_computed_sha256 p = Ok sha -> is_digest sha = true.
Proof.
  unfold progress_computed_sha256. destruct (to_vec _); [|done]. pass Hl. intros [= <-].
  apply hex_sha256_is_digest.
Qed.

Lemma validate_progress_iff p :
  validate_progress p = Ok tt <-> progress_ok p /\ progress_computed_sha256 p = Ok p.(progress_sha256).
Proof.
  unfold validate_progress. split.
  - pass Hg. destruct (progress_computed_sha256 p) as [sha|]; [|done].
    pass Hs. apply negb_false_iff, bool_decide_eq_true in Hs as ->.
    destruct (check_progress_instances _ _ _ _ _) as [[[a b] c]|] eqn:Hc; [|done]. pass Hl. intros _.
    split; [|done]. split_guard. constructor; try done.
    + destruct (rp_previous_revision p), (rp_previous_generation p); cbn in *; try done.
      bprop. split; [lia|done].
    + exists a, b, c. done.
  - intros [[Hf Hi Hs Hp [Hc Hcg] Hst Ht Hn (a & b & c & Hl & Ha & Hb & Hcs)] Hsha]. rewrite Hsha, Hl.
    rewrite Hf, Hi, Hs, Hcg, (progress_sha_digest _ _ Hsha).
    rewrite (proj2 (N.eqb_neq _ _) Hc), (proj2 (N.eqb_neq _ _) Hst).
    rewrite !(proj2 (N.ltb_ge _ _)) by lia. rewrite bool_decide_eq_true_2 by done. cbn [negb orb].
    destruct (rp_previous_revision p), (rp_previous_generation p); try done.
    destruct Hp as [Hr Hg]. cbn. rewrite Hg, (proj2 (N.leb_le _ _) Hr). done.
Qed.

(** The encoder is total, and the encoding of a valid record fits: 64 instances
    of at most 32 ordinals each stay far below one mebibyte of JSON. *)
Class ProgressFits := progress_fits : forall p, progress_ok p ->
  exists b, to_vec p = Ok b /\ len b <= MAX_ROLLOUT_PROGRESS_BYTES.
Context `{Fits : !ProgressFits}.

Lemma progress_ok_sha p sha : progress_ok p -> progress_ok (with_progress_sha256 p sha).
Proof. intros []. by constructor. Qed.

Lemma refresh_progress_ok p :
  progress_ok p ->
  exists sha, refresh_progress p = (with_progress_sha256 p sha, Ok tt)
    /\ validate_progress (with_progress_sha256 p sha) = Ok tt.
Proof.
  intros Hp. destruct (progress_fits (with_progress_sha256 p "")) as (b & Hb & Hlen); [by apply progress_ok_sha|].
  exists (hex_sha256 b).
  assert (forall sha, progress_computed_sha256 (with_progress_sha256 p sha) = Ok (hex_sha256 b)) as Hsha.
  { intros sha. unfold progress_computed_sha256.
    change (with_progress_sha256 (with_progress_sha256 p sha) "") with (with_progress_sha256 p "").
    rewrite Hb. by rewrite (proj2 (N.ltb_ge _ _) Hlen). }
  assert (validate_progress (with_progress_sha256 p (hex_sha256 b)) = Ok tt) as Hv
    by (apply validate_progress_iff; split; [by apply progress_ok_sha|apply Hsha]).
  split; [|done]. unfold refresh_progress. rewrite Hsha.
  change (with_progress_sha256 (with_progress_sha256 p "") (hex_sha256 b)) with (with_progress_sha256 p (hex_sha256 b)).
  by rewrite Hv.
Qed.

Lemma progress_ok_times p updated progress sequence :
  progress_ok p -> p.(rp_started_at_ms) <= progress <= updated ->
  progress_ok (with_times p updated progress sequence).
Proof. intros [] ?. by constructor. Qed.

Lemma mark_progress_ok p now :
  progress_ok p -> p.(rp_updated_at_ms) <= now -> p.(action_sequence) < u64_max ->
  exists sha, let p' := with_progress_sha256 (with_times p now now (p.(action_sequence) + 1)) sha in
    mark_progress p now = (p', Ok tt) /\ validate_progress p' = Ok tt.
Proof.
  intros Hp Hnow Hseq. unfold mark_progress.
  assert (p.(action_sequence) + 1 <= u64_max) as Hle by lia.
  rewrite (proj2 (checked_add_Some u64_max p.(action_sequence) 1 _) (conj eq_refl Hle)). cbn [ok_or].
  apply refresh_progress_ok, progress_ok_times; [done|]. pose proof (pg_times _ Hp). lia.
Qed.

Lemma progress_ok_instances p l r :
  progress_ok p -> length l = length p.(rp_instances) ->
  check_progress_instances None 0 0 0 p.(rp_instances) = Ok r ->
  check_progress_instances None 0 0 0 l = Ok r -> progress_ok (with_instances p l).
Proof.
  intros [] Hlen Hr Hl. constructor; cbn; try done; [unfold len in *; lia|].
  destruct pg_instances0 as (a & b & c & Hc & ? & ? & ?). rewrite Hr in Hc. injection Hc as ->. by exists a, b, c.
Qed.

Lemma progress_elem p i : progress_ok p -> i ∈ p.(rp_instances) -> instance_ok i.
Proof.
  intros [] Hi. destruct pg_instances0 as (a & b & c & Hc & _). apply check_progress_spec in Hc as (Hall & _).
  rewrite Forall_forall in Hall. by apply Hall.
Qed.

Lemma has_name_find p name i :
  List.find (has_name name) p.(rp_instances) = Some i -> i ∈ p.(rp_instances) /\ i.(ip_name) = name.
Proof.
  intros [Hin Hn]%List.find_some. split; [by apply list_elem_of_In|]. by apply bool_decide_eq_true in Hn.
Qed.

(** Names are unique, so the instance found by its name is the instance. *)
Lemma find_instance p i :
  progress_ok p -> i ∈ p.(rp_instances) -> List.find (has_name i.(ip_name)) p.(rp_instances) = Some i.
Proof.
  intros [] Hi. destruct pg_instances0 as (a & b & c & Hc & _). apply check_progress_spec in Hc as (_ & _ & Hs & _).
  clear -Hi Hs. induction (rp_instances p) as [|x l IH]; [by apply elem_of_nil in Hi|]. csimpl.
  apply StronglySorted_inv in Hs as [Hs Hall]. unfold has_name at 1.
  apply elem_of_cons in Hi as [->|Hi]; [by rewrite bool_decide_eq_true_2|].
  rewrite bool_decide_eq_false_2; [by apply IH|]. intros He. rewrite Forall_forall in Hall.
  apply (list_elem_of_fmap_2 ip_name), Hall in Hi. unfold str_before in Hi. by rewrite He, str_lt_irrefl in Hi.
Qed.

(** Replacing an instance by one that differs in its ordinals only. *)
Lemma set_instance_ok p name i i' :
  progress_ok p -> List.find (has_name name) p.(rp_instances) = Some i -> instance_ok i' ->
  i'.(ip_name) = i.(ip_name) -> i'.(ip_previous_replicas) = i.(ip_previous_replicas) ->
  i'.(ip_candidate_replicas) = i.(ip_candidate_replicas) -> i'.(ip_policy) = i.(ip_policy) ->
  progress_ok (set_instance p name i').
Proof.
  intros Hp Hf Hi' Hn Hpr Hcr Hpo. pose proof Hp as [].
  destruct pg_instances0 as (a & b & c & Hc & _). apply (progress_ok_instances _ _ (a, b, c)); try done.
  { apply update_first_length. }
  rewrite check_progress_update; [done|]. intros x Hx Hq.
  assert (x = i) as ->.
  { apply bool_decide_eq_true in Hq. pose proof (find_instance p x Hp Hx) as Hfx. rewrite Hq, Hf in Hfx. congruence. }
  split_and!; try done.
  rewrite (proj2 (validate_instance_progress_iff i') Hi'). symmetry.
  by apply validate_instance_progress_iff, (progress_elem p).
Qed.
End Valid.

(** ** Observations *)
(** Enabled candidates are active or terminal, and nothing else is. *)
Definition tracks (i : RolloutInstanceProgress) (o : RollingObservation) : Prop :=
  o.(previous_replicas) = i.(ip_previous_replicas) /\ o.(candidate_replicas) = i.(ip_candidate_replicas)
  /\ o.(candidate_active) ∪ o.(candidate_terminal) = i.(candidate_enabled).

Lemma observe_previous_tracks i o r : tracks i o -> tracks i (observe_previous o r).
Proof. done. Qed.

Lemma observe_candidate_tracks i now o r o' :
  observe_candidate i now o r = Ok o' -> tracks i o -> tracks i o'.
Proof.
  unfold observe_candidate. destruct (bool_decide (_ ∈ _)) eqn:He; cbn [negb]; bprop.
  - intros Ho (Hp & Hc & Hu). destruct (phase r); try (injection Ho as <-; done);
      try (injection Ho as <-; split_and!; cbn; [done|done|]; rewrite <- Hu in *; apply set_eq; intros x;
           destruct (decide (x = ordinal (id r))); set_solver).
    destruct (replica_ready r); [|by injection Ho as <-]. destruct (ok_or _ _); [|done]. by injection Ho as <-.
  - destruct (phase r); try done; by intros [= <-].
Qed.

Lemma observe_candidates_tracks i now o l o' :
  observe_candidates i now o l = Ok o' -> tracks i o -> tracks i o'.
Proof.
  revert o. induction l as [|r l IH]; intros o; cbn [observe_candidates]; [by intros [= <-]|].
  destruct (observe_candidate i now o r) as [o1|] eqn:Ho; [|done]. intros Hl Ht.
  eapply IH; [exact Hl|]. by eapply observe_candidate_tracks.
Qed.

Lemma instance_observation_tracks p i prev cand now o :
  instance_observation p i prev cand now = Ok o -> tracks i o.
Proof.
  unfold instance_observation. set (o0 := mkObservation _ _ _ _ _ _ _ _ _).
  assert (tracks i o0) as H0 by (split_and!; cbn; [done|done|set_solver]).
  assert (forall l o1, tracks i o1 -> tracks i (foldl observe_previous o1 l)) as Hf.
  { intros l. induction l as [|r l IH]; intros o1 Ho1; [done|]. cbn. apply IH. by apply observe_previous_tracks. }
  assert (tracks i (match prev with
                    | Some s => foldl observe_previous o0 (List.filter (of_instance i.(ip_name)) s.(replicas))
                    | None => o0
                    end)) as H1 by (destruct prev; auto).
  destruct cand as [s|]; [|intros [= <-]; exact H1]. intros Ho. eapply observe_candidates_tracks; [exact Ho|exact H1].
Qed.

Lemma instance_observations_spec p prev cand now l os :
  instance_observations p prev cand now l = Ok os ->
  Forall2 (fun i o => instance_observation p i prev cand now = Ok o) l os.
Proof.
  revert os. induction l as [|i l IH]; intros os; cbn [instance_observations]; [intros [= <-]; constructor|].
  destruct (instance_observation p i prev cand now) as [o|] eqn:Ho; [|done].
  destruct (instance_observations p prev cand now l) as [rest|]; [|done]. intros [= <-]. constructor; auto.
Qed.

Lemma zip_observed p prev cand now l os i o :
  instance_observations p prev cand now l = Ok os -> (i, o) ∈ zip l os ->
  i ∈ l /\ instance_observation p i prev cand now = Ok o.
Proof.
  intros Hos%instance_observations_spec Hin. induction Hos as [|i' o' l os Ho Hos IH]; [by apply elem_of_nil in Hin|].
  cbn in Hin. apply elem_of_cons in Hin as [[= -> ->]|Hin]; [split; [left|done]|].
  destruct (IH Hin). split; [by right|done].
Qed.

Definition active_replicas (o : RollingObservation) : N :=
  set_len o.(previous_active) + set_len o.(candidate_active).

Lemma count_active_spec total l n : count_active total l = Ok n -> n = total + sumN (active_replicas <$> l).
Proof.
  revert total. induction l as [|o l IH]; intros total; cbn [count_active]; [intros [= <-]; csimpl; rewrite sumN_nil; lia|].
  unfold ok_or. destruct (checked_add usize_max total _) as [a|] eqn:Ha; [|done].
  destruct (checked_add usize_max a _) as [b|] eqn:Hb; [|done].
  apply checked_add_Some in Ha as [-> _], Hb as [-> _]. intros ->%IH. csimpl. rewrite sumN_cons.
  unfold active_replicas at 2. lia.
Qed.

(** ** The loop over the instances *)
(** What a scan of the pairs [l] can add to the first action and wait. *)
Definition scanned (cap : N) (fa fw : option RolloutProgressAction)
    (l : list (RolloutInstanceProgress * RollingObservation))
    (r : RolloutProgressAction + option RolloutProgressAction * option RolloutProgressAction) : Prop :=
  match r with
  | inl a => exists i o why, (i, o) ∈ l /\ next o i.(ip_policy) = Ok (Rollback why)
               /\ a = mkProgressAction (Some i.(ip_name)) (Rollback why)
  | inr (fa', fw') =>
      (fa' = fa \/ exists i o, (i, o) ∈ l /\
         ((exists ords, next o i.(ip_policy) = Ok (StartCandidate ords) /\ take (N.to_nat cap) ords <> []
             /\ fa' = Some (mkProgressAction (Some i.(ip_name)) (StartCandidate (take (N.to_nat cap) ords))))
          \/ (exists ords t, next o i.(ip_policy) = Ok (DrainPrevious ords t)
                /\ fa' = Some (mkProgressAction (Some i.(ip_name)) (DrainPrevious ords t)))))
      /\ (fw' = fw \/ exists name why, fw' = Some (mkProgressAction (Some name) (Wait why)))
      /\ (fa' = None -> fw' = None -> forall i o, (i, o) ∈ l -> next o i.(ip_policy) = Ok Complete)
  end.

Lemma scanned_cons cap fa fw fa1 fw1 i o l r a :
  next o i.(ip_policy) = Ok a -> scanned cap fa1 fw1 l r ->
  (fa1 = fa \/ (fa = None /\ (
     (exists ords, a = StartCandidate ords /\ take (N.to_nat cap) ords <> []
        /\ fa1 = Some (mkProgressAction (Some i.(ip_name)) (StartCandidate (take (N.to_nat cap) ords))))
     \/ (exists ords t, a = DrainPrevious ords t
           /\ fa1 = Some (mkProgressAction (Some i.(ip_name)) (DrainPrevious ords t)))))) ->
  (fw1 = fw \/ exists name why, fw1 = Some (mkProgressAction (Some name) (Wait why))) ->
  (fa1 = None -> fw1 = None -> a = Complete) ->
  scanned cap fa fw ((i, o) :: l) r.
Proof.
  intros Hn IH Hfa Hfw Hc. destruct r as [act|[fa' fw']].
  - destruct IH as (i' & o' & why & Hin & Hno & ->). exists i', o', why. split; [by right|done].
  - destruct IH as (H1 & H2 & H3). split_and!.
    + destruct H1 as [->|(i' & o' & Hin & Hor)]; [|right; exists i', o'; split; [by right|done]].
      destruct Hfa as [->|(_ & Hor)]; [by left|]. right. exists i, o. split; [left|].
      destruct Hor as [(ords & -> & ? & ?)|(ords & t & -> & ?)]; [left; exists ords|right; exists ords, t]; done.
    + destruct H2 as [->|?]; [|by right]. done.
    + intros -> -> i' o' [[= -> ->]|Hin]%elem_of_cons.
      * rewrite Hn. f_equal. destruct H1 as [<-|(? & ? & _ & [(? & _ & _ & [=])|(? & ? & _ & [=])])].
        destruct H2 as [<-|(? & ? & [=])]. by apply Hc.
      * by apply H3.
Qed.

Lemma scan_spec cap fa fw l r : scan_instances cap fa fw l = Ok r -> scanned cap fa fw l r.
Proof.
  revert fa fw. induction l as [|[i o] l IH]; intros fa fw; cbn [scan_instances].
  { intros [= <-]. split_and!; [by left|by left|]. intros _ _ i o Hin. by apply elem_of_nil in Hin. }
  destruct (next o (ip_policy i)) as [a|] eqn:Hn; [|done].
  destruct a as [ords|ords t|why| |why].
  - destruct (take (N.to_nat cap) ords) as [|x xs] eqn:Ht.
    + intros Hs%IH. eapply scanned_cons; [done..|by left| |by destruct fw].
      destruct fw; [by left|right]. by eexists _, _.
    + intros Hs%IH. eapply scanned_cons; [done..| |by left|by destruct fa].
      destruct fa; [by left|right]. split; [done|]. left. exists ords. by rewrite Ht.
  - intros Hs%IH. eapply scanned_cons; [done..| |by left|by destruct fa].
    destruct fa; [by left|right]. split; [done|]. right. by exists ords, t.
  - intros Hs%IH. eapply scanned_cons; [done..|by left| |by destruct fw].
    destruct fw; [by left|right]. by eexists _, _.
  - intros Hs%IH. eapply scanned_cons; [done..|by left|by left|done].
  - intros [= <-]. exists i, o, why. split; [left|done].
Qed.

Section Decisions.
Context `{Ext : Externals} `{JP : !Json StackPlan} `{JS : !Json StackRuntimeStatus}
  `{JI : !Json RolloutIdentity} `{JRo : !Json RolloutRecord} `{JPr : !Json RolloutProgress}.

(** A decision that is not the wait for a missing observation. *)
Lemma next_action_inv p prev cand now a :
  next_action p prev cand now = Ok a ->
  progress_ok p /\ now <> 0 /\ p.(rp_updated_at_ms) <= now /\ p.(rp_phase) = RolloutExecutionPhase.Rolling
  /\ (a = waits_for_availability None
      \/ exists os cap, instance_observations p prev cand now p.(rp_instances) = Ok os
           /\ sumN (active_replicas <$> os) + cap
              = N.max (sumN (ip_previous_replicas <$> p.(rp_instances)))
                      (sumN (ip_candidate_replicas <$> p.(rp_instances)))
                + sumN ((fun i => i.(ip_policy).(max_surge)) <$> p.(rp_instances))
           /\ sumN (active_replicas <$> os) + cap <= MAX_STACK_TOTAL_ACTIVE_REPLICAS
           /\ ((exists why i o, (i, o) ∈ zip p.(rp_instances) os /\ next o i.(ip_policy) = Ok (Rollback why)
                   /\ a = mkProgressAction (Some i.(ip_name)) (Rollback why))
               \/ ((forall i, i ∈ p.(rp_instances) -> i.(previous_draining) = ∅)
                   /\ exists fa fw, scanned cap None None (zip p.(rp_instances) os) (inr (fa, fw))
                       /\ a = default (mkProgressAction None Complete) (or_else fa fw)))).
Proof.
  unfold next_action, ensure_time. destruct (validate_progress p) as [[]|] eqn:Hv; [|done].
  apply validate_progress_iff in Hv as [Hok _]. destruct ((now =? 0) || (now <? rp_updated_at_ms p)) eqn:Ht; [done|].
  pass Hph. destruct (validate_runtime _ prev _ _); [|done]. destruct (validate_runtime _ cand _ _); [|done].
  split_guard. intros Ha. split_and!; try done. revert Ha.
  destruct (is_none prev && _); [intros [= <-]; by left|].
  destruct (instance_observations _ _ _ _ _) as [os|]; [|done]. unfold stack_start_capacity.
  destruct (count_active 0 os) as [act|] eqn:Hact; [|done]. apply count_active_spec in Hact.
  destruct (checked_add usize_max _ _) as [lim|] eqn:Hlim; cbn [ok_or]; [|done].
  apply checked_add_Some in Hlim as [Hlim _]. destruct ((lim <? act) || _) eqn:Hl; [done|]. split_guard.
  destruct (scan_instances _ _ _ _) as [r|] eqn:Hs; [|done]. apply scan_spec in Hs. intros Ha.
  destruct r as [ra|[fa fw]]; [|destruct (existsb _ (rp_instances p)) eqn:Hd].
  - right. exists os, (lim - act). split_and!; [done|lia|lia|]. left. destruct Hs as (i & o & why & ? & ? & ->).
    injection Ha as <-. by exists why, i, o.
  - injection Ha as <-. by left.
  - right. exists os, (lim - act). split_and!; [done|lia|lia|]. right. split; [|exists fa, fw; by injection Ha].
    intros i Hi. rewrite existsb_false in Hd. specialize (Hd i Hi). by bprop.
Qed.
End Decisions.

(** ** Decisions can be carried out *)
Lemma in_ordinals_full n (X : gset N) x : in_ordinals n X -> set_len X = n -> 0 < x <= n -> x ∈ X.
Proof.
  intros Hin Hlen Hx. set (all := list_to_set (ordinals_to n) : gset N).
  assert (X ⊆ all) as Hsub by (intros y Hy; apply elem_of_list_to_set, ordinals_to_elem; by apply Hin).
  assert (size all <= size X)%nat as Hsz.
  { unfold all. rewrite size_list_to_set by apply ordinals_to_NoDup.
    pose proof (ordinals_to_length n) as Hl. unfold len, set_len in *. lia. }
  rewrite (set_subseteq_size_eq X all Hsub Hsz). by apply elem_of_list_to_set, ordinals_to_elem.
Qed.

Lemma foldl_insert_lookup (m : gmap N DrainIntent) d ords n :
  foldl (fun m ordinal => <[ordinal := d]> m) m ords !! n
  = if bool_decide (n ∈ ords) then Some d else m !! n.
Proof.
  revert m. induction ords as [|x l IH]; intros m; [done|]. cbn [foldl]. rewrite IH.
  destruct (decide (n ∈ l)) as [Hl|Hl].
  - rewrite !bool_decide_eq_true_2; [done|by right|done].
  - rewrite (bool_decide_eq_false_2 (n ∈ l)) by done. destruct (decide (n = x)) as [->|Hne].
    + by rewrite lookup_insert_eq, bool_decide_eq_true_2 by left.
    + rewrite lookup_insert_ne by done. rewrite bool_decide_eq_false_2; [done|].
      intros [->|?]%elem_of_cons; done.
Qed.

Section Transitions.
Context `{Ext : Externals} `{JPr : !Json RolloutProgress} `{Fits : !ProgressFits}.

Lemma enable_candidate_ok p i ords now :
  progress_ok p -> p.(rp_phase) = RolloutExecutionPhase.Rolling -> now <> 0 ->
  p.(rp_updated_at_ms) <= now -> p.(action_sequence) < u64_max -> i ∈ p.(rp_instances) -> ords <> [] ->
  (forall x, x ∈ ords -> 0 < x <= i.(ip_candidate_replicas) /\ x ∉ i.(candidate_enabled)) ->
  exists p', enable_candidate p i.(ip_name) ords now = (p', Ok tt) /\ validate_progress p' = Ok tt.
Proof.
  intros Hp Hph Hnz Hnow Hseq Hi Hne Hx. unfold enable_candidate, ensure_mutable, ensure_time, instance_mut.
  rewrite (proj2 (N.eqb_neq _ _) Hnz), (proj2 (N.ltb_ge _ _) Hnow), bool_decide_eq_true_2 by done.
  rewrite (find_instance p i Hp Hi). cbn [orb negb ok_or]. destruct ords as [|o l] eqn:Ho; [done|]. rewrite <- Ho in *.
  replace (existsb _ ords) with false.
  2:{ symmetry. apply existsb_false. intros x Hin. destruct (Hx x Hin) as [? ?].
      rewrite (proj2 (N.eqb_neq _ _)), (proj2 (N.ltb_ge _ _)) by lia. by rewrite bool_decide_eq_false_2. }
  set (i' := mkInstanceProgress _ _ _ _ _ _).
  assert (progress_ok (set_instance p (ip_name i) i')) as Hp'.
  { apply (set_instance_ok p _ i); try done; [by apply find_instance|].
    pose proof (progress_elem p i Hp Hi) as []. constructor; try done. cbn. intros x.
    rewrite elem_of_union, elem_of_list_to_set. intros [?|?]; [auto|by apply Hx]. }
  destruct (mark_progress_ok _ now Hp') as (sha & H); [done|done|]. eexists. exact H.
Qed.

Lemma request_drain_ok p i ords now :
  progress_ok p -> p.(rp_phase) = RolloutExecutionPhase.Rolling -> now <> 0 ->
  p.(rp_updated_at_ms) <= now -> p.(action_sequence) < u64_max -> i ∈ p.(rp_instances) -> ords <> [] ->
  now + i.(ip_policy).(drain_timeout_ms) <= u64_max ->
  (forall x, x ∈ ords -> 0 < x <= i.(ip_previous_replicas) /\ i.(previous_draining) !! x = None) ->
  exists p', request_previous_drain p i.(ip_name) ords now = (p', Ok tt) /\ validate_progress p' = Ok tt.
Proof.
  intros Hp Hph Hnz Hnow Hseq Hi Hne Hmax Hx. unfold request_previous_drain, ensure_mutable, ensure_time, instance_mut.
  rewrite (proj2 (N.eqb_neq _ _) Hnz), (proj2 (N.ltb_ge _ _) Hnow), bool_decide_eq_true_2 by done.
  rewrite (find_instance p i Hp Hi). cbn [orb negb ok_or].
  rewrite (proj2 (checked_add_Some u64_max now (drain_timeout_ms (ip_policy i)) _) (conj eq_refl Hmax)).
  cbn [ok_or]. destruct ords as [|o l] eqn:Ho; [done|]. rewrite <- Ho in *.
  replace (existsb _ ords) with false.
  2:{ symmetry. apply existsb_false. intros x Hin. destruct (Hx x Hin) as [? ->].
      by rewrite (proj2 (N.eqb_neq _ _)), (proj2 (N.ltb_ge _ _)) by lia. }
  set (i' := mkInstanceProgress _ _ _ _ _ _).
  assert (progress_ok (set_instance p (ip_name i) i')) as Hp'.
  { apply (set_instance_ok p _ i); try done; [by apply find_instance|].
    pose proof (progress_elem p i Hp Hi) as []. constructor; try done. cbn. intros n d.
    rewrite foldl_insert_lookup. destruct (decide (n ∈ ords)) as [Hin|Hin].
    - rewrite bool_decide_eq_true_2 by done. intros [= <-]. cbn. destruct (Hx n Hin). split_and!; try done; lia.
    - rewrite bool_decide_eq_false_2 by done. apply io_draining0. }
  destruct (mark_progress_ok _ now Hp') as (sha & H); [done|done|]. eexists. exact H.
Qed.

Lemma set_phase_ok p next now :
  progress_ok p -> phase_step p.(rp_phase) next = true -> now <> 0 -> p.(rp_updated_at_ms) <= now ->
  p.(action_sequence) < u64_max ->
  exists p', set_execution_phase p next now = (p', Ok tt) /\ validate_progress p' = Ok tt /\ p'.(rp_phase) = next.
Proof.
  intros Hp Hst Hnz Hnow Hseq. unfold set_execution_phase, ensure_time.
  rewrite (proj2 (N.eqb_neq _ _) Hnz), (proj2 (N.ltb_ge _ _) Hnow), Hst. cbn [orb negb].
  destruct (mark_progress_ok (with_rp_phase p next) now) as (sha & -> & Hv); [|done|done|].
  - destruct Hp. by constructor.
  - eexists. split; [reflexivity|]. split; [exact Hv|done].
Qed.

Context `{JP : !Json StackPlan} `{JS : !Json StackRuntimeStatus} `{JI : !Json RolloutIdentity}
  `{JRo : !Json RolloutRecord}.

(** A start decision can be carried out and stays within the stack's
    capacity: it names an instance of the rollout and new candidate ordinals
    that are not yet enabled; the replicas already active plus the new ones do
    not exceed the larger generation plus the surge of all instances, at most
    320; and recording the intent succeeds and leaves a valid record. *)
Theorem start_decision_applies (p : RolloutProgress) (prev cand : option StackRuntimeStatus) (now : N)
    (inst : option string) (ords : list N)
    (Hnext : next_action p prev cand now = Ok (mkProgressAction inst (StartCandidate ords)))
    (Hseq : p.(action_sequence) < u64_max) :
  exists i os, i ∈ p.(rp_instances) /\ inst = Some i.(ip_name)
    /\ instance_observations p prev cand now p.(rp_instances) = Ok os
    /\ ords <> [] /\ NoDup ords
    /\ (forall x, x ∈ ords -> 0 < x <= i.(ip_candidate_replicas) /\ x ∉ i.(candidate_enabled))
    /\ sumN (active_replicas <$> os) + len ords
       <= N.max (sumN (ip_previous_replicas <$> p.(rp_instances)))
                (sumN (ip_candidate_replicas <$> p.(rp_instances)))
          + sumN ((fun i => i.(ip_policy).(max_surge)) <$> p.(rp_instances))
    /\ sumN (active_replicas <$> os) + len ords <= 320
    /\ exists p', enable_candidate p i.(ip_name) ords now = (p', Ok tt) /\ validate_progress p' = Ok tt.
Proof.
  apply next_action_inv in Hnext as (Hp & Hnz & Hnow & Hph & [[=]|(os & cap & Hos & Hsum & Hmax & Hor)]).
  destruct Hor as [(why & i & o & _ & _ & [=])|(_ & fa & fw & (Hfa & Hfw & _) & Ha)].
  destruct Hfa as [->|(i & o & Hin & [(all & Hn & Hne & ->)|(all & t & _ & ->)])]; cbn in Ha.
  1: destruct Hfw as [->|(name & why & ->)]; discriminate Ha.
  2: discriminate Ha.
  injection Ha as -> ->. destruct (zip_observed _ _ _ _ _ _ _ _ Hos Hin) as [Hi Ho].
  apply instance_observation_tracks in Ho as (_ & Hcr & Hu).
  apply next_inv in Hn as (_ & Hs & Ht). apply start_action_spec in Hs as (all' & [= <-] & _ & Hnd & Hx & _).
  assert (forall x, x ∈ take (N.to_nat cap) all -> 0 < x <= i.(ip_candidate_replicas) /\ x ∉ i.(candidate_enabled)) as Hx'.
  { intros x Hxin%subseteq_take. destruct (Hx x Hxin) as (? & ? & _). rewrite <- Hcr, <- Hu, Ht. split; [done|set_solver]. }
  assert (len (take (N.to_nat cap) all) <= cap) as Hl by (unfold len; rewrite length_take; lia).
  unfold MAX_STACK_TOTAL_ACTIVE_REPLICAS, MAX_STACK_TOTAL_REPLICAS, MAX_STACK_TOTAL_SURGE_REPLICAS in Hmax.
  exists i, os. split_and!; try done; [|lia|lia|by apply enable_candidate_ok].
  eapply sublist_NoDup; [exact Hnd|apply sublist_take].
Qed.

(** A drain decision can be carried out and keeps the service available:
    it names active previous replicas of an instance, none of them draining
    yet; what is ready or available afterwards is at least the candidate count
    less the permitted unavailability, or what there was before; and recording
    the intent succeeds and leaves a valid record. *)
Theorem drain_decision_applies (p : RolloutProgress) (prev cand : option StackRuntimeStatus) (now : N)
    (inst : option string) (ords : list N) (timeout : N)
    (Hnext : next_action p prev cand now = Ok (mkProgressAction inst (DrainPrevious ords timeout)))
    (Hseq : p.(action_sequence) < u64_max) (Hclock : now + timeout <= u64_max) :
  exists i o, i ∈ p.(rp_instances) /\ inst = Some i.(ip_name)
    /\ instance_observation p i prev cand now = Ok o
    /\ ords <> [] /\ timeout = i.(ip_policy).(drain_timeout_ms)
    /\ (forall x, x ∈ ords -> x ∈ o.(previous_active) /\ 0 < x <= i.(ip_previous_replicas))
    /\ N.min (available o) (minimum_available o i.(ip_policy)) <= available (after_drain o ords)
    /\ exists p', request_previous_drain p i.(ip_name) ords now = (p', Ok tt) /\ validate_progress p' = Ok tt.
Proof.
  apply next_action_inv in Hnext as (Hp & Hnz & Hnow & Hph & [[=]|(os & cap & Hos & Hsum & Hmax & Hor)]).
  destruct Hor as [(why & i & o & _ & _ & [=])|(Hdr & fa & fw & (Hfa & Hfw & _) & Ha)].
  destruct Hfa as [->|(i & o & Hin & [(all & _ & _ & ->)|(all & t & Hn & ->)])]; cbn in Ha.
  1: destruct Hfw as [->|(name & why & ->)]; discriminate Ha.
  1: discriminate Ha.
  injection Ha as -> <- <-. destruct (zip_observed _ _ _ _ _ _ _ _ Hos Hin) as [Hi Ho].
  apply instance_observation_tracks in Ho as Htr. destruct Htr as (Hpr & _ & _).
  apply next_inv in Hn as (Hok & Hs & _). pose proof Hs as Hspec.
  apply drain_action_spec in Hspec as (all & [= <- ->] & Hne & _ & Hx & _).
  assert (forall x, x ∈ ords -> x ∈ o.(previous_active) /\ 0 < x <= i.(ip_previous_replicas)) as Hx'.
  { intros x Hxin. assert (x ∈ previous_active o) as Hact by (destruct (Hx x Hxin); [done|]; by apply (ok_pr _ _ Hok)).
    split; [done|]. rewrite <- Hpr. by apply (ok_pa _ _ Hok). }
  exists i, o. split_and!; try done; [by eapply drain_available|].
  apply request_drain_ok; try done. intros x Hxin. split; [by apply Hx'|]. by rewrite (Hdr i Hi).
Qed.

(** The scheduler declares a rollout complete only when it is: no previous
    replica of any instance is active, every candidate ordinal of every
    instance is enabled and available and none has failed; and the record
    then accepts the completing phase. *)
Theorem completion_is_complete (p : RolloutProgress) (prev cand : option StackRuntimeStatus) (now : N)
    (inst : option string)
    (Hnext : next_action p prev cand now = Ok (mkProgressAction inst Complete))
    (Hseq : p.(action_sequence) < u64_max) :
  inst = None
  /\ (forall i, i ∈ p.(rp_instances) ->
        exists o, instance_observation p i prev cand now = Ok o /\ o.(previous_active) = ∅
          /\ o.(candidate_terminal) = ∅
          /\ forall x, 0 < x <= i.(ip_candidate_replicas) -> x ∈ o.(candidate_available) /\ x ∈ i.(candidate_enabled))
  /\ exists p', set_execution_phase p RolloutExecutionPhase.Completing now = (p', Ok tt)
       /\ validate_progress p' = Ok tt /\ p'.(rp_phase) = RolloutExecutionPhase.Completing.
Proof.
  apply next_action_inv in Hnext as (Hp & Hnz & Hnow & Hph & [[=]|(os & cap & Hos & Hsum & Hmax & Hor)]).
  destruct Hor as [(why & i & o & _ & _ & [=])|(Hdr & fa & fw & (Hfa & Hfw & Hall) & Ha)].
  destruct Hfa as [->|(i & o & _ & [(all & _ & _ & ->)|(all & t & _ & ->)])]; [|discriminate Ha..].
  destruct Hfw as [->|(name & why & ->)]; [|discriminate Ha]. injection Ha as ->. split_and!; [done| |].
  - intros i Hi. pose proof (instance_observations_spec _ _ _ _ _ _ Hos) as H2.
    apply list_elem_of_lookup in Hi as (k & Hk). destruct (Forall2_lookup_l _ _ _ _ _ H2 Hk) as (o & Hko & Ho).
    assert ((i, o) ∈ zip p.(rp_instances) os) as Hz.
    { apply list_elem_of_lookup. exists k. apply lookup_zip_with_Some. by eexists _, _. }
    specialize (Hall eq_refl eq_refl i o Hz). apply next_inv in Hall as (Hok & Ht & Hpa & Hav).
    exists o. split_and!; try done. apply instance_observation_tracks in Ho as (_ & Hcr & Hu). rewrite <- Hcr.
    intros x Hx. assert (x ∈ candidate_available o) as Hxa.
    { apply (in_ordinals_full (candidate_replicas o)); [|done|done].
      apply (in_ordinals_mono _ _ (candidate_active o)); [|apply (ok_ca _ _ Hok)].
      etrans; [apply (ok_cv _ _ Hok)|apply (ok_cr _ _ Hok)]. }
    split; [done|]. rewrite <- Hu. apply elem_of_union_l, (ok_cr _ _ Hok), (ok_cv _ _ Hok), Hxa.
  - apply set_phase_ok; try done. by rewrite Hph.
Qed.
End Transitions.

(** ** Runs of a progress record *)
Inductive ProgressOp :=
| EnableCandidate (instance : string) (ordinals : list N) (now : N)
| RequestPreviousDrain (instance : string) (ordinals : list N) (now : N)
| SetExecutionPhase (next : RolloutExecutionPhase) (now : N)
| AcknowledgeDrained (previous : option StackRuntimeStatus) (now : N)
| ProgressHeartbeat (now : N).

(** What every transition keeps: who the rollout is for, what it moves, and
    the starts it has authorised. *)
Record keeps (p p' : RolloutProgress) : Prop := {
  kp_id : p'.(rp_rollout_id) = p.(rp_rollout_id);
  kp_stack : p'.(rp_stack) = p.(rp_stack);
  kp_previous : p'.(rp_previous_revision) = p.(rp_previous_revision)
                /\ p'.(rp_previous_generation) = p.(rp_previous_generation);
  kp_candidate : p'.(candidate_revision) = p.(candidate_revision)
                 /\ p'.(candidate_generation) = p.(candidate_generation);
  kp_started : p'.(rp_started_at_ms) = p.(rp_started_at_ms);
  kp_updated : p.(rp_updated_at_ms) <= p'.(rp_updated_at_ms);
  kp_sequence : p.(action_sequence) <= p'.(action_sequence);
  kp_phase : p'.(rp_phase) = p.(rp_phase) \/ phase_step p.(rp_phase) p'.(rp_phase) = true;
  kp_instances : Forall2 (fun i i' =>
      i'.(ip_name) = i.(ip_name) /\ i'.(ip_previous_replicas) = i.(ip_previous_replicas)
      /\ i'.(ip_candidate_replicas) = i.(ip_candidate_replicas) /\ i'.(ip_policy) = i.(ip_policy)
      /\ i.(candidate_enabled) ⊆ i'.(candidate_enabled)) p.(rp_instances) p'.(rp_instances);
}.

Lemma same_instances (l : list RolloutInstanceProgress) :
  Forall2 (fun i i' =>
      i'.(ip_name) = i.(ip_name) /\ i'.(ip_previous_replicas) = i.(ip_previous_replicas)
      /\ i'.(ip_candidate_replicas) = i.(ip_candidate_replicas) /\ i'.(ip_policy) = i.(ip_policy)
      /\ i.(candidate_enabled) ⊆ i'.(candidate_enabled)) l l.
Proof. induction l; by constructor. Qed.

Lemma update_instances q (l : list RolloutInstanceProgress) i i' :
  List.find q l = Some i ->
  i'.(ip_name) = i.(ip_name) -> i'.(ip_previous_replicas) = i.(ip_previous_replicas) ->
  i'.(ip_candidate_replicas) = i.(ip_candidate_replicas) -> i'.(ip_policy) = i.(ip_policy) ->
  i.(candidate_enabled) ⊆ i'.(candidate_enabled) ->
  Forall2 (fun i i' =>
      i'.(ip_name) = i.(ip_name) /\ i'.(ip_previous_replicas) = i.(ip_previous_replicas)
      /\ i'.(ip_candidate_replicas) = i.(ip_candidate_replicas) /\ i'.(ip_policy) = i.(ip_policy)
      /\ i.(candidate_enabled) ⊆ i'.(candidate_enabled)) l (update_first q (fun _ => i') l).
Proof.
  intros Hf ? ? ? ? ?. induction l as [|x l IH]; [done|]. cbn in *. destruct (q x).
  - injection Hf as ->. constructor; [done|apply same_instances].
  - constructor; [done|by apply IH].
Qed.

Section Runs.
Context `{Ext : Externals} `{JPr : !Json RolloutProgress} `{Fits : !ProgressFits}
  `{JS : !Json StackRuntimeStatus}.

Definition exec_progress (p : RolloutProgress) (o : ProgressOp) : RolloutProgress * result string unit :=
  match o with
  | EnableCandidate instance ordinals now => enable_candidate p instance ordinals now
  | RequestPreviousDrain instance ordinals now => request_previous_drain p instance ordinals now
  | SetExecutionPhase next now => set_execution_phase p next now
  | AcknowledgeDrained previous now => drop_value (acknowledge_drained p previous now)
  | ProgressHeartbeat now => progress_heartbeat p now
  end.

(** The outcome of a transition from a valid record. *)
Definition step_ok (p : RolloutProgress) (r : RolloutProgress * result string unit) : Prop :=
  match r with
  | (p', Ok _) => validate_progress p' = Ok tt /\ keeps p p'
  | (p', Err _) => p' = p
  end.

Lemma mark_step p q now :
  progress_ok q -> q.(rp_updated_at_ms) = p.(rp_updated_at_ms) -> p.(rp_updated_at_ms) <= now ->
  q.(action_sequence) = p.(action_sequence) -> p.(action_sequence) < u64_max ->
  keeps p (with_times q now now (q.(action_sequence) + 1)) -> step_ok p (mark_progress q now).
Proof.
  intros Hq Hu Hnow Hs Hseq Hk. destruct (mark_progress_ok q now Hq) as (sha & -> & Hv); [lia|lia|].
  split; [exact Hv|]. by destruct Hk.
Qed.

Lemma set_instance_step p name i i' now :
  progress_ok p -> p.(rp_updated_at_ms) <= now -> p.(action_sequence) < u64_max ->
  List.find (has_name name) p.(rp_instances) = Some i -> instance_ok i' ->
  i'.(ip_name) = i.(ip_name) -> i'.(ip_previous_replicas) = i.(ip_previous_replicas) ->
  i'.(ip_candidate_replicas) = i.(ip_candidate_replicas) -> i'.(ip_policy) = i.(ip_policy) ->
  i.(candidate_enabled) ⊆ i'.(candidate_enabled) ->
  step_ok p (mark_progress (set_instance p name i') now).
Proof.
  intros Hp Hnow Hseq Hf Hi' ? ? ? ? ?. apply mark_step; try done.
  - by apply (set_instance_ok p name i).
  - constructor; cbn; try done; [lia|by left|]. by apply (update_instances _ _ i).
Qed.

Lemma enable_step p name ords now :
  progress_ok p -> p.(action_sequence) < u64_max -> step_ok p (enable_candidate p name ords now).
Proof.
  intros Hp Hseq. unfold enable_candidate, ensure_mutable, ensure_time.
  destruct ((now =? 0) || _) eqn:Ht; [done|]. split_guard. destruct (bool_decide (rp_phase p = _)); [|done].
  cbn [negb]. destruct ords as [|o l] eqn:Ho; [done|]. rewrite <- Ho. unfold instance_mut.
  destruct (List.find (has_name name) (rp_instances p)) as [i|] eqn:Hf; cbn [ok_or]; [|done].
  destruct (existsb _ ords) eqn:Hx; [done|]. rewrite existsb_false in Hx.
  apply (set_instance_step p name i); try done; [|set_solver].
  destruct (has_name_find p name i Hf) as [Hi _]. pose proof (progress_elem p i Hp Hi) as [].
  constructor; try done. cbn. intros x. rewrite elem_of_union, elem_of_list_to_set. intros [?|Hxin]; [auto|].
  specialize (Hx x Hxin). split_guard. lia.
Qed.

Lemma drain_step p name ords now :
  progress_ok p -> p.(action_sequence) < u64_max -> step_ok p (request_previous_drain p name ords now).
Proof.
  intros Hp Hseq. unfold request_previous_drain, ensure_mutable, ensure_time.
  destruct ((now =? 0) || _) eqn:Ht; [done|]. split_guard. destruct (bool_decide (rp_phase p = _)); [|done].
  cbn [negb]. destruct ords as [|o l] eqn:Ho; [done|]. rewrite <- Ho. unfold instance_mut.
  destruct (List.find (has_name name) (rp_instances p)) as [i|] eqn:Hf; cbn [ok_or]; [|done].
  destruct (checked_add u64_max now _) as [deadline|] eqn:Hd; cbn [ok_or]; [|done].
  apply checked_add_Some in Hd as [-> _]. destruct (existsb _ ords) eqn:Hx; [done|]. rewrite existsb_false in Hx.
  apply (set_instance_step p name i); try done.
  destruct (has_name_find p name i Hf) as [Hi _]. pose proof (progress_elem p i Hp Hi) as [].
  constructor; try done. cbn. intros n d. rewrite foldl_insert_lookup.
  destruct (decide (n ∈ ords)) as [Hin|Hin].
  - rewrite bool_decide_eq_true_2 by done. intros [= <-]. cbn. specialize (Hx n Hin). split_guard. lia.
  - rewrite bool_decide_eq_false_2 by done. apply io_draining0.
Qed.

Lemma retain_ok previous i : instance_ok i -> instance_ok (retain_draining previous i).
Proof.
  intros []. constructor; try done. cbn. intros n d [Hl _]%map_lookup_filter_Some. by apply io_draining0.
Qed.

Lemma acknowledge_step p previous now :
  progress_ok p -> p.(action_sequence) < u64_max -> validate_progress p = Ok tt ->
  step_ok p (drop_value (acknowledge_drained p previous now)).
Proof.
  intros Hp Hseq Hv. unfold acknowledge_drained, ensure_mutable, ensure_time, drop_value.
  destruct ((now =? 0) || _) eqn:Ht; [done|]. split_guard. destruct (bool_decide (rp_phase p = _)); [|done].
  cbn [negb]. destruct (validate_runtime _ _ _ _) as [u|]; [clear u|done].
  assert (keeps p p) as Hself by (constructor; try done; [by left|apply same_instances]).
  destruct previous as [s|]; [|done].
  set (l := retain_draining s <$> rp_instances p).
  assert (progress_ok (with_instances p l)) as Hp'.
  { pose proof Hp as []. destruct pg_instances0 as (a & b & c & Hc & _).
    apply (progress_ok_instances p l (a, b, c)); try done; [apply length_fmap|].
    apply check_progress_fmap; try done. intros x _. rewrite !validate_instance_progress_iff. apply retain_ok. }
  set (removed := sumN _). destruct (N.ltb_spec 0 removed) as [Hpos|Hz].
  - assert (step_ok p (mark_progress (with_instances p l) now)) as Hs.
    { apply mark_step; try done. constructor; cbn; try done; [lia|by left|].
      unfold l. clear. induction (rp_instances p) as [|i l IH]; csimpl; constructor; done. }
    destruct (mark_progress (with_instances p l) now) as [p' [[]|e]]; exact Hs.
  - assert (l = rp_instances p) as ->; [|destruct p; done].
    assert (removed = 0) as Hr by lia. clear -Hr. unfold l, removed in *. clear l removed.
    induction (rp_instances p) as [|i l IH]; [done|]. rewrite fmap_cons, sumN_cons in Hr. rewrite fmap_cons.
    rewrite IH by lia. f_equal. destruct i as [nm pr cr po en dr]. unfold retain_draining in *. cbn in *. f_equal.
    apply map_subseteq_size_eq; [apply map_filter_subseteq|lia].
Qed.

(** A progress record is never damaged: from a valid record every
    operation either fails and changes nothing, or gives a valid record of the
    same rollout, for the same generations and instances, with a clock and an
    action counter that do not go back, a phase that is the same or a permitted
    successor, and every candidate start it had authorised. *)
Theorem progress_step_total (p : RolloutProgress) (o : ProgressOp)
    (Hvalid : validate_progress p = Ok tt) (Hseq : p.(action_sequence) < u64_max) :
  match exec_progress p o with
  | (p', Ok _) => validate_progress p' = Ok tt /\ keeps p p'
  | (p', Err _) => p' = p
  end.
Proof.
  pose proof (proj1 (validate_progress_iff p) Hvalid) as [Hp _].
  change (step_ok p (exec_progress p o)). destruct o as [name ords now|name ords now|ph now|previous now|now]; cbn [exec_progress].
  - by apply enable_step.
  - by apply drain_step.
  - unfold set_execution_phase, ensure_time. destruct ((now =? 0) || _) eqn:Ht; [done|]. split_guard.
    destruct (phase_step (rp_phase p) ph) eqn:Hst; [|done]. cbn [negb]. apply mark_step; try done.
    + destruct Hp. by constructor.
    + constructor; cbn; try done; [lia|by right|apply same_instances].
  - by apply acknowledge_step.
  - unfold progress_heartbeat, ensure_time. destruct ((now =? 0) || _) eqn:Ht; [done|]. split_guard.
    destruct (refresh_progress_ok (with_times p now (last_progress_at_ms p) (action_sequence p))) as (sha & -> & Hv).
    { apply progress_ok_times; [done|]. pose proof (pg_times _ Hp). lia. }
    split; [exact Hv|]. constructor; cbn; try done; [by left|apply same_instances].
Qed.
End Runs.

(** ** The start of a rollout *)
Section Begin.
Context `{Ext : Externals} `{JP : !Json StackPlan} `{JI : !Json RolloutIdentity} `{JRo : !Json RolloutRecord}
  `{JPr : !Json RolloutProgress}.

Definition replicas_in (plan : option StackPlan) (name : string) : N :=
  running_count (p ← plan; List.find (fun i => bool_decide (i.(pi_name) = name)) p.(sp_instances)).

Lemma instance_transition_spec prev cand n t :
  instance_transition prev cand n = Ok t ->
  match t with
  | None => replicas_in prev n = 0 /\ replicas_in (Some cand) n = 0
  | Some i => i.(ip_name) = n /\ i.(candidate_enabled) = ∅ /\ i.(previous_draining) = ∅
              /\ i.(ip_previous_replicas) = replicas_in prev n
              /\ i.(ip_candidate_replicas) = replicas_in (Some cand) n
  end.
Proof.
  unfold instance_transition, replicas_in. cbn [mbind option_bind].
  set (a := running_count _). set (b := running_count _).
  destruct (N.eqb_spec a 0) as [Ha|Ha], (N.eqb_spec b 0) as [Hb|Hb]; cbn [andb];
    try (destruct (ok_or _ _) as [src|]; [|done]); intros [= <-]; done.
Qed.

Lemma instance_transitions_spec prev cand names l :
  instance_transitions prev cand names = Ok l ->
  (forall i, i ∈ l -> i.(ip_name) ∈ names /\ i.(candidate_enabled) = ∅ /\ i.(previous_draining) = ∅
     /\ i.(ip_previous_replicas) = replicas_in prev i.(ip_name)
     /\ i.(ip_candidate_replicas) = replicas_in (Some cand) i.(ip_name))
  /\ (forall name, name ∈ names -> replicas_in prev name <> 0 \/ replicas_in (Some cand) name <> 0 ->
        exists i, i ∈ l /\ i.(ip_name) = name).
Proof.
  revert l. induction names as [|n names IH]; intros l; cbn [instance_transitions].
  { intros [= <-]. split; [by intros i ?%elem_of_nil|by intros name ?%elem_of_nil]. }
  destruct (instance_transition prev cand n) as [t|] eqn:Ht; [|done]. apply instance_transition_spec in Ht.
  destruct (instance_transitions prev cand names) as [rest|]; [|done]. intros [= <-].
  destruct (IH rest eq_refl) as [H1 H2]. clear IH. destruct t as [i0|].
  - destruct Ht as (<- & ? & ? & ? & ?). split.
    + intros i [->|Hi]%elem_of_cons; [split_and!; try done; left|].
      destruct (H1 i Hi) as (? & ? & ? & ? & ?). split_and!; try done. by right.
    + intros name [->|Hin]%elem_of_cons Hor; [exists i0; split; [left|done]|].
      destruct (H2 name Hin Hor) as (i & ? & ?). exists i. split; [by right|done].
  - destruct Ht as [Ha Hb]. split.
    + intros i Hi. destruct (H1 i Hi) as (? & ? & ? & ? & ?). split_and!; try done. by right.
    + intros name [->|Hin]%elem_of_cons Hor; [exfalso; by destruct Hor|by apply H2].
Qed.

Lemma replicas_in_name plan name :
  replicas_in (Some plan) name <> 0 -> name ∈ pi_name <$> plan.(sp_instances).
Proof.
  unfold replicas_in. cbn. destruct (List.find _ _) as [i|] eqn:Hf; [|done]. intros _.
  apply List.find_some in Hf as [Hi Hn]. apply bool_decide_eq_true in Hn as <-.
  by apply (list_elem_of_fmap_2 pi_name), list_elem_of_In.
Qed.

(** The plan the previous generation still runs. *)
Definition rolling_from (r : RolloutRecord) : option StackPlan :=
  if bool_decide (r.(previous_state) = Some EngineStackState.Applied) then r.(Rollout.previous_plan) else None.

(** A rollout starts from the truth: the first progress record of an
    activated rollout is valid, rolling, for the generations of the checkpoint,
    authorises nothing yet, and lists exactly the instances that run in the
    previous or in the candidate plan, with the number of replicas each plan
    runs. *)
Theorem progress_begins_exactly (r : RolloutRecord) (now : N) (p : RolloutProgress)
    (Hbegin : from_rollout r now = Ok p) :
  validate_progress p = Ok tt /\ p.(rp_phase) = RolloutExecutionPhase.Rolling
  /\ p.(rp_rollout_id) = r.(ro_rollout_id) /\ Some p.(candidate_generation) = r.(activated_generation)
  /\ p.(rp_previous_generation) = r.(previous_generation)
  /\ (forall i, i ∈ p.(rp_instances) -> i.(candidate_enabled) = ∅ /\ i.(previous_draining) = ∅
        /\ i.(ip_previous_replicas) = replicas_in (rolling_from r) i.(ip_name)
        /\ i.(ip_candidate_replicas) = replicas_in (Some r.(candidate_plan)) i.(ip_name))
  /\ (forall name, (exists i, i ∈ p.(rp_instances) /\ i.(ip_name) = name) <->
        replicas_in (rolling_from r) name <> 0 \/ replicas_in (Some r.(candidate_plan)) name <> 0).
Proof.
  revert Hbegin. unfold from_rollout. destruct (validate_record r); [|done]. pass Hg.
  destruct (activated_generation r) as [gen|]; cbn [ok_or]; [|done]. fold (rolling_from r).
  set (names := merge_sort String.le _).
  destruct (instance_transitions (rolling_from r) (candidate_plan r) names) as [l|] eqn:Hl; [|done].
  destruct (activated_revision r) as [rev|]; cbn [ok_or]; [|done]. unfold refresh_progress.
  destruct (progress_computed_sha256 _) as [sha|]; [|done]. cbn beta iota.
  destruct (validate_progress (with_progress_sha256 _ sha)) as [[]|] eqn:Hv; [|done]. intros [= <-].
  destruct (instance_transitions_spec _ _ _ _ Hl) as [H1 H2].
  pose proof (proj1 (validate_progress_iff _) Hv) as [Hok _]. cbn [rp_instances] in *.
  split_and!; try done.
  - intros i Hi. by destruct (H1 i Hi) as (_ & ? & ? & ? & ?).
  - intros name. split.
    + intros (i & Hi & <-). destruct (H1 i Hi) as (_ & _ & _ & <- & <-).
      pose proof (validate_policy_spec _ _ _ (io_policy _ (progress_elem _ _ Hok Hi))) as (? & _). lia.
    + intros Hor. apply H2; [|done]. unfold names. rewrite merge_sort_Permutation, elem_of_elements, elem_of_union,
        !elem_of_list_to_set. destruct Hor as [Hp|Hc]; [left|right; by apply replicas_in_name].
      destruct (rolling_from r) as [plan|]; [by apply replicas_in_name|]. done.
Qed.
End Begin.

(** ** Concrete rollouts *)
Section Witnesses.
#[local] Existing Instance demo_externals.
#[local] Instance plan_json : Json StackPlan := demo_json.
#[local] Instance status_json : Json StackRuntimeStatus := demo_json.
#[local] Instance identity_json : Json RolloutIdentity := demo_json.
#[local] Instance record_json : Json RolloutRecord := demo_json.
#[local] Instance progress_json : Json RolloutProgress := demo_json.
#[local] Instance progress_fits_demo : ProgressFits.
Proof. intros p _. exists []. split; [reflexivity|vm_compute; discriminate]. Defined.

Definition activated_record (previous : option StackPlan) (candidate : StackPlan) : RolloutRecord :=
  mkRollout 1 zero_digest "shop" RolloutPhase.Activated 5 6
    (match previous with Some _ => Some 1 | None => None end)
    (match previous with Some _ => Some zero_digest | None => None end)
    (match previous with Some _ => Some EngineStackState.Applied | None => None end) previous candidate
    (match previous with Some _ => Some 2 | None => Some 1 end) (Some zero_digest) None None None zero_digest.
Definition no_progress : RolloutProgress :=
  mkProgress 0 "" "" RolloutExecutionPhase.Paused None None 0 "" 0 0 0 0 [] "".
Definition begun (previous : option StackPlan) (candidate : StackPlan) : RolloutProgress :=
  match from_rollout (activated_record previous candidate) 10 with Ok p => p | Err _ => no_progress end.
Definition update_progress : RolloutProgress :=
  begun (Some (demo_plan OnFailure None)) (demo_plan Always None).
Definition previous_status : StackRuntimeStatus :=
  match from_plan (demo_plan OnFailure None) 1 zero_digest 10 with Ok s => s | Err _ => demo_init end.
Definition one_enabled : RolloutProgress := (enable_candidate update_progress "api" [1] 20).1.

Lemma progress_begins_exactly_witness :
  from_rollout (activated_record (Some (demo_plan OnFailure None)) (demo_plan Always None)) 10
  = Ok update_progress
  /\ exists i, i ∈ update_progress.(rp_instances) /\ i.(ip_name) = "web".
Proof.
  assert (from_rollout (activated_record (Some (demo_plan OnFailure None)) (demo_plan Always None)) 10
          = Ok update_progress) as Hb by (vm_compute; reflexivity).
  split; [exact Hb|]. apply (progress_begins_exactly _ _ _ Hb). left. vm_compute. discriminate.
Defined.

Lemma start_decision_applies_witness :
  next_action update_progress (Some previous_status) None 20 = Ok (mkProgressAction (Some "api") (StartCandidate [1]))
  /\ exists i p', i ∈ update_progress.(rp_instances)
       /\ enable_candidate update_progress i.(ip_name) [1] 20 = (p', Ok tt).
Proof.
  assert (next_action update_progress (Some previous_status) None 20
          = Ok (mkProgressAction (Some "api") (StartCandidate [1]))) as Hn by (vm_compute; reflexivity).
  split; [exact Hn|].
  destruct (start_decision_applies update_progress (Some previous_status) None 20 (Some "api") [1] Hn)
    as (i & os & Hi & _ & _ & _ & _ & _ & _ & _ & p' & He & _); [vm_compute; reflexivity|].
  exists i, p'. split; [exact Hi|exact He].
Defined.

Lemma drain_decision_applies_witness :
  next_action one_enabled (Some previous_status) None 21
  = Ok (mkProgressAction (Some "api") (DrainPrevious [1; 2] 30000))
  /\ exists i p', i ∈ one_enabled.(rp_instances)
       /\ request_previous_drain one_enabled i.(ip_name) [1; 2] 21 = (p', Ok tt).
Proof.
  assert (next_action one_enabled (Some previous_status) None 21
          = Ok (mkProgressAction (Some "api") (DrainPrevious [1; 2] 30000))) as Hn by (vm_compute; reflexivity).
  split; [exact Hn|].
  destruct (drain_decision_applies one_enabled (Some previous_status) None 21 (Some "api") [1; 2] 30000 Hn)
    as (i & o & Hi & _ & _ & _ & _ & _ & _ & p' & He & _); [vm_compute; reflexivity|vm_compute; discriminate|].
  exists i, p'. split; [exact Hi|exact He].
Defined.

(** A first deployment whose three replicas have run long enough. *)
Definition deployed : StackRuntimeStatus :=
  let all := [mkReplicaId "api" 1; mkReplicaId "api" 2; mkReplicaId "web" 1] in
  match from_plan (demo_plan Always None) 1 zero_digest 10 with
  | Ok s => default s (run_ops (((fun i => BeginStart i zero_digest 20) <$> all)
                                ++ ((fun i => MarkRunning i zero_digest 21) <$> all)) s)
  | Err _ => demo_init
  end.
Definition all_enabled : RolloutProgress :=
  (enable_candidate (enable_candidate (begun None (demo_plan Always None)) "api" [1; 2] 11).1 "web" [1] 12).1.

Lemma completion_is_complete_witness :
  next_action all_enabled None (Some deployed) 3000 = Ok (mkProgressAction None Complete)
  /\ exists p', set_execution_phase all_enabled RolloutExecutionPhase.Completing 3000 = (p', Ok tt).
Proof.
  assert (next_action all_enabled None (Some deployed) 3000 = Ok (mkProgressAction None Complete)) as Hn
    by (vm_compute; reflexivity).
  split; [exact Hn|].
  destruct (completion_is_complete all_enabled None (Some deployed) 3000 None Hn) as (_ & _ & p' & Hp & _);
    [vm_compute; reflexivity|].
  exists p'. exact Hp.
Defined.

Lemma progress_step_total_witness :
  validate_progress (exec_progress update_progress (EnableCandidate "api" [1] 20)).1 = Ok tt.
Proof.
  pose proof (progress_step_total update_progress (EnableCandidate "api" [1] 20)) as H.
  destruct (exec_progress update_progress (EnableCandidate "api" [1] 20)) as [p' [[]|e]] eqn:He;
    [|vm_compute in He; discriminate He].
  apply H; vm_compute; reflexivity.
Defined.

(** A plan that stops the four replicas of its only instance and may surge by
    four, in the place of one that runs one. *)
Definition small_plan : StackPlan :=
  mkStackPlan 4 "shop" (mkPlannedSecurity Balanced Required) [demo_instance "api" 1 OnFailure None]
    [] [mkPlannedSecret "token" true] [] zero_digest.
Definition stopped_surging : PlannedInstance :=
  mkPlannedInstance "api" "dev.example.root" "1.2.3" zero_digest 4096 4 DesiredState.Stopped
    OnFailure 2 {[Clock; Http; Storage]} {[Storage]} ∅ {[Clock; Storage]} {[Http]} ["--port"; "80"]
    {["token"]} default_limits None (mkPolicy StartFirst 4 0 2000 300000 30000) demo_lock.
Definition stopping_plan : StackPlan :=
  mkStackPlan 4 "shop" (mkPlannedSecurity Balanced Required) [stopped_surging]
    [] [mkPlannedSecret "token" true] [] zero_digest.

(** A valid activated rollout need not have a progress record: when the
    candidate stops an instance whose policy allows a larger surge than the
    previous generation has replicas, the policy is checked against the running
    replicas alone and live execution can never begin, at any time. *)
Theorem activated_without_progress (now : N) :
  validate_record (activated_record (Some small_plan) stopping_plan) = Ok tt
  /\ (activated_record (Some small_plan) stopping_plan).(ro_phase) = RolloutPhase.Activated
  /\ is_ok (from_rollout (activated_record (Some small_plan) stopping_plan) now) = false.
Proof.
  assert (validate_record (activated_record (Some small_plan) stopping_plan) = Ok tt) as Hv by (vm_compute; reflexivity).
  split_and!; [exact Hv|reflexivity|].
  destruct (from_rollout (activated_record (Some small_plan) stopping_plan) now) as [p|e] eqn:Hp; [exfalso|reflexivity].
  revert Hp. unfold from_rollout. rewrite Hv. pass Hg. cbn [activated_record activated_generation ok_or].
  set (transitions := instance_transitions _ _ _).
  assert (transitions = Ok [mkInstanceProgress "api" 1 0 (mkPolicy StartFirst 4 0 2000 300000 30000) ∅ ∅]) as ->
    by (vm_compute; reflexivity).
  change (activated_revision (activated_record (Some small_plan) stopping_plan)) with (Some 2).
  cbn [ok_or]. unfold refresh_progress.
  destruct (progress_computed_sha256 _) as [sha|]; [|discriminate]. cbn beta iota.
  destruct (validate_progress (with_progress_sha256 _ sha)) as [[]|] eqn:Hval; [|discriminate]. intros _.
  apply validate_progress_iff in Hval as [Hok _]. destruct (pg_instances _ Hok) as (x & y & z & Hc & _).
  vm_compute in Hc. discriminate Hc.
Qed.
End Witnesses.
