(* ===== verification/Store.v ===== *)
(** * The engine store ([crates/cartridge-engine/src/lib.rs], [rollout.rs],
      [rollout_progress.rs])

    The operations of [EngineStore] on its directory tree: the desired-state
    journal, the rollout checkpoint and its archive, the progress of a live
    rollout, and the runtime statuses.  Each is a run of system calls in the
    sense of [Files].  The root is the current directory; a directory of the
    tree is known by its path. *)
From S2P Require Import Prelude Text Core Rolling Plan Supervisor Events Health Files Rollout Progress.

Definition MAX_ENGINE_STACKS : N := 1024.
Definition MAX_RUNTIME_STATUS_BYTES : N := 1024 * 1024.

Definition stack_dir (stack : string) : string := "stacks/" +:+ stack.
Definition events_dir (stack : string) : string := stack_dir stack +:+ "/events".
Definition rollouts_dir (stack : string) : string := stack_dir stack +:+ "/rollouts".
Definition runtime_dir (stack : string) : string := stack_dir stack +:+ "/runtime".
Definition rollout_file (stack : string) : Path := (stack_dir stack, "rollout.json").
Definition progress_file (stack : string) : Path := (stack_dir stack, "rollout-progress.json").
Definition runtime_file (stack : string) : Path := (stack_dir stack, "runtime.json").
Definition generation_file (stack generation : string) : Path := (runtime_dir stack, generation +:+ ".json").

(** [GenerationRole] and [GenerationTarget] *)
Module GenerationRole.
Inductive GenerationRole := Desired | RolloutCandidate | RolloutPrevious.
#[global] Instance eq_dec : EqDecision GenerationRole.
Proof. solve_decision. Defined.
End GenerationRole.
Abbreviation GenerationRole := GenerationRole.GenerationRole.

Record GenerationTarget := mkTarget {
  gt_stack : string;
  gt_revision : N;
  gt_generation : string;
  gt_role : GenerationRole;
  gt_rollout_id : option string;
  gt_plan : StackPlan;
}.

(** The names of the directories below [stacks]. *)
Definition stack_names (d : gmap string Directory) : list string :=
  merge_sort String.le
    (omap (fun '(path, _) => match split_on "/" path with
                             | ["stacks"; name] => Some name
                             | _ => None
                             end) (map_to_list d)).

(** [{:?}] of a health state *)
Definition state_debug (s : StackHealthState) : string :=
  match s with
  | StackHealthState.Healthy => "Healthy"
  | StackHealthState.Starting => "Starting"
  | StackHealthState.Degraded => "Degraded"
  | StackHealthState.Failed => "Failed"
  | StackHealthState.Completed => "Completed"
  | StackHealthState.Stopped => "Stopped"
  | StackHealthState.Removed => "Removed"
  | StackHealthState.Stale => "Stale"
  end.

Definition read_disk : IO (gmap string Directory) := fun w => (w, Done (Ok w.(disk))).
Definition when (b : bool) (e : string) : IO unit := if b then fail e else ret tt.

Section Store.
Context `{Ext : Externals} `{JP : !Json StackPlan} `{JS : !Json StackRuntimeStatus} `{JE : !Json EngineEvent}
  `{JH : !Json StackHealthReport} `{JI : !Json RolloutIdentity} `{JRo : !Json RolloutRecord}
  `{JPr : !Json RolloutProgress} `{DE : !JsonDecode EngineEvent} `{DS : !JsonDecode StackRuntimeStatus}
  `{DRo : !JsonDecode RolloutRecord} `{DPr : !JsonDecode RolloutProgress}.

Definition validate_target (self : GenerationTarget) : result string unit :=
  let? _ := validate_plan self.(gt_plan) in
  let rollout_identity_valid :=
    match self.(gt_role) with
    | GenerationRole.Desired => is_none self.(gt_rollout_id)
    | GenerationRole.RolloutCandidate | GenerationRole.RolloutPrevious =>
        is_some_and is_digest self.(gt_rollout_id)
    end in
  if negb (valid_name self.(gt_stack)) || (self.(gt_revision) =? 0)
     || negb (is_digest self.(gt_generation))
     || negb (bool_decide (self.(gt_plan).(sp_stack) = self.(gt_stack)))
     || negb rollout_identity_valid
  then Err "generation target is invalid" else Ok tt.

(** ** Readers *)
Definition parse_bounded {A : Type} `{JsonDecode A} (limit : N) (message : string)
    (validate : A -> result string unit) (content : bytes) : result string A :=
  if limit <? len content then Err message
  else
    let? value := from_slice content in
    let? _ := validate value in
    Ok value.
Definition parse_rollout : bytes -> result string RolloutRecord :=
  parse_bounded MAX_ROLLOUT_BYTES "engine rollout must be a bounded regular file" validate_record.
Definition parse_progress : bytes -> result string RolloutProgress :=
  parse_bounded MAX_ROLLOUT_PROGRESS_BYTES "rollout progress must be a bounded regular file" validate_progress.
Definition parse_runtime_status : bytes -> result string StackRuntimeStatus :=
  parse_bounded MAX_RUNTIME_STATUS_BYTES "runtime status must be a bounded regular file" validate_status.

Definition read_rollout_file (path : Path) : IO RolloutRecord :=
  do? content := read_file path in lift (parse_rollout content).
Definition read_progress_file (path : Path) : IO RolloutProgress :=
  do? content := read_file path in lift (parse_progress content).
Definition read_runtime_status (path : Path) : IO StackRuntimeStatus :=
  do? content := read_file path in lift (parse_runtime_status content).

Definition recover_rollout_file (path : Path) : IO unit := recover_file parse_rollout path.
Definition recover_progress_file (path : Path) : IO unit := recover_file parse_progress path.
Definition recover_runtime_status (path : Path) : IO unit := recover_file parse_runtime_status path.

(** ** Writers *)
Definition encode_bounded {A : Type} `{Json A} (validate : A -> result string unit) (limit : N)
    (message : string) (value : A) : result string bytes :=
  let? _ := validate value in
  let? bytes := to_vec value in
  if limit <? len bytes then Err message else Ok bytes.
Definition write_rollout_file (path : Path) (record : RolloutRecord) : IO unit :=
  do? bytes := lift (encode_bounded validate_record MAX_ROLLOUT_BYTES
                       "engine rollout exceeds its byte limit" record) in
  write_replace_atomic path bytes.
Definition write_progress_file (path : Path) (progress : RolloutProgress) : IO unit :=
  do? bytes := lift (encode_bounded validate_progress MAX_ROLLOUT_PROGRESS_BYTES
                       "rollout progress exceeds its byte limit" progress) in
  write_replace_atomic path bytes.

(** ** The journal *)
Definition events (stack : string) : IO (list EngineEvent) :=
  when (negb (valid_name stack)) "stack name is invalid" ;;?
  do? d := read_disk in
  lift (let? (es, _) := read_events_with_size (d !! events_dir stack) stack in Ok es).

Definition latest (stack : string) : IO (option EngineEvent) :=
  do? es := events stack in ret (last es).

Fixpoint list_names (names : list string) : IO (list StackStatus) :=
  match names with
  | [] => ret []
  | name :: names =>
      do? event := latest name in
      do? rest := list_names names in
      ret (match event with Some event => event_status event :: rest | None => rest end)
  end.
Definition list_stacks : IO (list StackStatus) :=
  do? d := read_disk in
  let names := stack_names d in
  when (negb (forallb valid_name names)) "engine contains an unsafe stack directory" ;;?
  when (MAX_ENGINE_STACKS <? len names) "engine stack limit exceeded" ;;?
  list_names names.

Definition create_stack_events (stack : string) : IO string :=
  when (negb (valid_name stack)) "stack name is invalid" ;;?
  ensure_directory (stack_dir stack) ;;?
  ensure_directory (events_dir stack) ;;?
  ret (events_dir stack).

Definition append (event : EngineEvent) : IO unit :=
  lift (validate_event event) ;;?
  do? directory := create_stack_events event.(ev_stack) in
  do? d := read_disk in
  do? bytes := lift (prepare_append (d !! directory) event) in
  write_new_atomic (directory, event_file_name event.(ev_revision)) bytes.

(** ** The rollout checkpoint *)
Definition rollout (stack : string) : IO (option RolloutRecord) :=
  when (negb (valid_name stack)) "stack name is invalid" ;;?
  let path := rollout_file stack in
  recover_rollout_file path ;;?
  do? present := exists_file path in
  if negb present then ret None
  else
    do? record := read_rollout_file path in
    when (negb (bool_decide (record.(ro_stack) = stack))) "engine rollout belongs to another stack" ;;?
    do? current := latest record.(ro_stack) in
    do? (record, changed) := lift (recover_rollout_checkpoint record current) in
    if changed : bool then write_rollout_file path record ;;? ret (Some record)
    else ret (Some record).

Definition ensure_no_active_rollout (stack : string) : IO unit :=
  do? record := rollout stack in
  when (is_some_and active record) "stack has an active rollout; commit or roll it back first".

Definition require_rollout (stack rollout_id : string) : IO RolloutRecord :=
  when (negb (is_digest rollout_id)) "rollout identity is invalid" ;;?
  do? record := rollout stack in
  do? record := lift (ok_or record "stack has no rollout checkpoint") in
  when (negb (bool_decide (record.(ro_rollout_id) = rollout_id)))
    "rollout identity does not match the current checkpoint" ;;?
  ret record.

(** ** Desired state.  [clock] is what the system clock says. *)
Definition apply_stack (clock : result string N) (plan : StackPlan) (allow_insecure : bool) : IO ApplyReport :=
  lift (validate_plan plan) ;;?
  ensure_no_active_rollout plan.(sp_stack) ;;?
  when (bool_decide (plan.(sp_security).(ps_sandbox) = Disabled) && negb allow_insecure)
    "sandbox-disabled stacks require an explicit insecure-apply confirmation" ;;?
  do? previous := latest plan.(sp_stack) in
  (if is_none previous then
     do? statuses := list_stacks in
     when (MAX_ENGINE_STACKS <=? len statuses) "engine stack limit reached"
   else ret tt) ;;?
  match previous with
  | Some event =>
      if bool_decide (event.(ev_kind) = EngineEventKind.Apply)
         && is_some_and (fun current => bool_decide (current.(sp_plan_sha256) = plan.(sp_plan_sha256)))
              event.(ev_plan)
      then ret (mkApplyReport false (event_status event))
      else
        do? event := lift (next_event clock previous EngineEventKind.Apply (Some plan)) in
        append event ;;? ret (mkApplyReport true (event_status event))
  | None =>
      do? event := lift (next_event clock previous EngineEventKind.Apply (Some plan)) in
      append event ;;? ret (mkApplyReport true (event_status event))
  end.

Definition stop_stack (clock : result string N) (stack : string) : IO ApplyReport :=
  ensure_no_active_rollout stack ;;?
  do? previous := latest stack in
  do? previous := lift (ok_or previous "stack is not known to the engine") in
  match previous.(ev_kind) with
  | EngineEventKind.Remove => fail "removed stack cannot be stopped"
  | EngineEventKind.Stop => ret (mkApplyReport false (event_status previous))
  | EngineEventKind.Apply =>
      do? plan := lift (ok_or previous.(ev_plan) "active stack has no plan") in
      do? plan := lift (stopped plan) in
      do? event := lift (next_event clock (Some previous) EngineEventKind.Stop (Some plan)) in
      append event ;;? ret (mkApplyReport true (event_status event))
  end.

Definition remove_stack (clock : result string N) (stack : string) : IO ApplyReport :=
  ensure_no_active_rollout stack ;;?
  do? previous := latest stack in
  do? previous := lift (ok_or previous "stack is not known to the engine") in
  if bool_decide (previous.(ev_kind) = EngineEventKind.Remove)
  then ret (mkApplyReport false (event_status previous))
  else
    do? event := lift (next_event clock (Some previous) EngineEventKind.Remove None) in
    append event ;;? ret (mkApplyReport true (event_status event)).

Definition status_of (stack : string) : IO StackStatus :=
  do? event := latest stack in
  lift (ok_or (event_status <$> event) "stack is not known to the engine").

Definition desired_plan (stack : string) : IO (option (N * string * StackPlan)) :=
  do? event := latest stack in
  do? event := lift (ok_or event "stack is not known to the engine") in
  ret ((fun plan => (event.(ev_revision), event.(event_sha256), plan)) <$> event.(ev_plan)).

(** ** Generations *)
Definition generation_target (stack generation : string) : IO (option GenerationTarget) :=
  when (negb (valid_name stack) || negb (is_digest generation)) "runtime generation identity is invalid" ;;?
  do? desired := desired_plan stack in
  do? record := rollout stack in
  let activated r := bool_decide (r.(ro_phase) = RolloutPhase.Activated) in
  let found := match desired with
               | Some (revision, current, plan) =>
                   if bool_decide (current = generation) then Some (revision, current, plan) else None
               | None => None
               end in
  match found with
  | Some (revision, current, plan) =>
      let active_rollout :=
        match record with
        | Some r => if activated r && bool_decide (r.(activated_generation) = Some generation) then Some r else None
        | None => None
        end in
      let target := mkTarget stack revision current
        (if is_some active_rollout then GenerationRole.RolloutCandidate else GenerationRole.Desired)
        (ro_rollout_id <$> active_rollout) plan in
      lift (validate_target target) ;;? ret (Some target)
  | None =>
      match record with
      | Some r =>
          if activated r && bool_decide (r.(previous_state) = Some EngineStackState.Applied)
             && bool_decide (r.(previous_generation) = Some generation)
          then
            do? revision := lift (ok_or r.(previous_revision) "rollout previous revision is missing") in
            do? plan := lift (ok_or r.(previous_plan) "rollout previous plan is missing") in
            let target := mkTarget stack revision generation GenerationRole.RolloutPrevious
                            (Some r.(ro_rollout_id)) plan in
            lift (validate_target target) ;;? ret (Some target)
          else ret None
      | None => ret None
      end
  end.

(** [sort_by] by generation and [dedup_by] of at most two targets. *)
Definition sort_targets (l : list GenerationTarget) : list GenerationTarget :=
  match l with
  | [a; b] =>
      if bool_decide (a.(gt_generation) = b.(gt_generation)) then [a]
      else if str_lt b.(gt_generation) a.(gt_generation) then [b; a] else [a; b]
  | l => l
  end.

Definition generation_targets (stack : string) : IO (list GenerationTarget) :=
  when (negb (valid_name stack)) "stack name is invalid" ;;?
  do? desired := desired_plan stack in
  do? first := match desired with
               | Some (_, generation, _) => generation_target stack generation
               | None => ret None
               end in
  do? record := rollout stack in
  do? second :=
    match record with
    | Some r =>
        match r.(ro_phase), r.(previous_state), r.(previous_generation) with
        | RolloutPhase.Activated, Some EngineStackState.Applied, Some generation =>
            generation_target stack generation
        | _, _, _ => ret None
        end
    | None => ret None
    end in
  ret (sort_targets (option_list first ++ option_list second)).

(** ** Observed state *)
Definition generation_runtime_path (stack generation : string) : IO Path :=
  when (negb (valid_name stack) || negb (is_digest generation)) "runtime generation identity is invalid" ;;?
  ensure_directory (runtime_dir stack) ;;?
  ret (generation_file stack generation).

Definition runtime_status (stack : string) : IO (option StackRuntimeStatus) :=
  do? desired := desired_plan stack in
  match desired with
  | None => ret None
  | Some (revision, generation, plan) =>
      do? generation_path := generation_runtime_path stack generation in
      recover_runtime_status generation_path ;;?
      do? present := exists_file generation_path in
      if present : bool then
        do? status := read_runtime_status generation_path in
        lift (validate_against status plan revision generation) ;;?
        ret (Some status)
      else
        when (negb (valid_name stack)) "stack name is invalid" ;;?
        let path := runtime_file stack in
        recover_runtime_status path ;;?
        do? present := exists_file path in
        if negb present then ret None
        else
          do? status := read_runtime_status path in
          if negb (status.(Supervisor.revision) =? revision)
             || negb (bool_decide (status.(Supervisor.generation) = generation))
          then ret None
          else lift (validate_against status plan revision generation) ;;? ret (Some status)
  end.

Definition health (stack : string) (now_ms : N) : IO StackHealthReport :=
  do? status := status_of stack in
  do? runtime := runtime_status stack in
  lift (from_status status runtime now_ms).

Definition encode_status (status : StackRuntimeStatus) : result string bytes :=
  let? bytes := to_vec status in
  if MAX_RUNTIME_STATUS_BYTES <? len bytes then Err "runtime status exceeds its byte limit" else Ok bytes.

Definition save_runtime_status_for_generation (status : StackRuntimeStatus) : IO unit :=
  lift (validate_status status) ;;?
  do? target := generation_target status.(stack) status.(Supervisor.generation) in
  do? target := lift (ok_or target "runtime status generation is no longer authorized") in
  lift (validate_against status target.(gt_plan) target.(gt_revision) target.(gt_generation)) ;;?
  do? bytes := lift (encode_status status) in
  do? path := generation_runtime_path status.(stack) status.(Supervisor.generation) in
  recover_runtime_status path ;;?
  write_replace_atomic path bytes.

(** The stored status if it conforms to the target, a fresh one otherwise. *)
Definition reuse_or_plan (stored : StackRuntimeStatus) (target : GenerationTarget) (now_ms : N) :
    result string StackRuntimeStatus :=
  if is_ok (validate_against stored target.(gt_plan) target.(gt_revision) target.(gt_generation))
  then Ok stored else from_plan target.(gt_plan) target.(gt_revision) target.(gt_generation) now_ms.

Definition prepare_runtime_status_for_generation (stack generation : string) (now_ms : N) :
    IO StackRuntimeStatus :=
  do? target := generation_target stack generation in
  do? target := lift (ok_or target "runtime generation is no longer authorized") in
  do? path := generation_runtime_path stack generation in
  recover_runtime_status path ;;?
  do? present := exists_file path in
  do? status :=
    (if present : bool then
       do? previous := read_runtime_status path in
       lift (reuse_or_plan previous target now_ms)
     else
       when (negb (valid_name stack)) "stack name is invalid" ;;?
       let legacy_path := runtime_file stack in
       recover_runtime_status legacy_path ;;?
       do? present := exists_file legacy_path in
       if present : bool then
         do? legacy := read_runtime_status legacy_path in
         lift (reuse_or_plan legacy target now_ms)
       else lift (from_plan target.(gt_plan) target.(gt_revision) target.(gt_generation) now_ms)) in
  let (status, recovered) := recover_interrupted status now_ms in
  lift recovered ;;?
  save_runtime_status_for_generation status ;;?
  ret status.

(** The operations of the file one status of the stack used to have. *)
Definition save_runtime_status (status : StackRuntimeStatus) : IO unit :=
  lift (validate_status status) ;;?
  do? desired := desired_plan status.(stack) in
  do? (revision, generation, plan) :=
    lift (ok_or desired "removed stack cannot retain observed runtime state") in
  lift (validate_against status plan revision generation) ;;?
  do? bytes := lift (encode_status status) in
  when (negb (valid_name status.(stack))) "stack name is invalid" ;;?
  let path := runtime_file status.(stack) in
  recover_runtime_status path ;;?
  write_replace_atomic path bytes.

Definition prepare_runtime_status (stack : string) (now_ms : N) : IO StackRuntimeStatus :=
  do? desired := desired_plan stack in
  do? (revision, generation, plan) := lift (ok_or desired "removed stack has no runtime generation") in
  when (negb (valid_name stack)) "stack name is invalid" ;;?
  let path := runtime_file stack in
  recover_runtime_status path ;;?
  do? present := exists_file path in
  do? status :=
    (if present : bool then
       do? previous := read_runtime_status path in
       if is_ok (validate_against previous plan revision generation) then ret previous
       else lift (from_plan plan revision generation now_ms)
     else lift (from_plan plan revision generation now_ms)) in
  let (status, recovered) := recover_interrupted status now_ms in
  lift recovered ;;?
  save_runtime_status status ;;?
  ret status.

Definition runtime_status_for_generation (stack generation : string) : IO (option StackRuntimeStatus) :=
  do? target := generation_target stack generation in
  match target with
  | None => ret None
  | Some target =>
      do? path := generation_runtime_path stack generation in
      recover_runtime_status path ;;?
      do? present := exists_file path in
      if negb present then ret None
      else
        do? status := read_runtime_status path in
        lift (validate_against status target.(gt_plan) target.(gt_revision) target.(gt_generation)) ;;?
        ret (Some status)
  end.

(** ** Rollout transactions *)
Definition digest_json (name : string) : bool :=
  existsb (fun d => is_digest d && bool_decide (name = d +:+ ".json")) [String.substring 0 64 name].

Fixpoint scan_archive (count total : N) (l : list (string * bytes)) : result string (N * N) :=
  match l with
  | [] => Ok (count, total)
  | (name, content) :: l =>
      if digest_json name && (len content <=? MAX_ROLLOUT_BYTES) then
        let? count := ok_or (checked_add usize_max count 1) "rollout archive count overflow" in
        let? total := ok_or (checked_add u64_max total (len content)) "rollout archive byte count overflow" in
        scan_archive count total l
      else if negb (starts_with name ".engine-event-" && exact_suffix name ".tmp")
      then Err "rollout archive contains an unexpected entry"
      else scan_archive count total l
  end.

Definition archive_rollout (record : RolloutRecord) : IO unit :=
  when (negb (terminal record)) "active rollout cannot be archived" ;;?
  let directory := rollouts_dir record.(ro_stack) in
  ensure_directory directory ;;?
  do? d := read_disk in
  do? (count, total_bytes) := lift (scan_archive 0 0 (map_to_list (default ∅ (d !! directory)))) in
  let path := (directory, record.(ro_rollout_id) +:+ ".json") in
  do? present := exists_file path in
  if present : bool then
    do? stored := read_rollout_file path in
    when (negb (bool_decide (stored = record))) "rollout archive identity collision"
  else
    do? bytes := lift (to_vec record) in
    when ((MAX_ROLLOUT_HISTORY <=? count)
          || is_none_or (fun value => MAX_ROLLOUT_HISTORY_BYTES <? value)
               (checked_add u64_max total_bytes (len bytes))) "rollout history limit reached" ;;?
    write_new_atomic path bytes.

Definition remove_terminal_rollout_progress (record : RolloutRecord) : IO unit :=
  when (negb (terminal record)) "active rollout progress cannot be removed" ;;?
  when (negb (valid_name record.(ro_stack))) "stack name is invalid" ;;?
  let path := progress_file record.(ro_stack) in
  recover_progress_file path ;;?
  do? present := exists_file path in
  if negb present then ret tt
  else
    do? progress := read_progress_file path in
    lift (validate_progress_against_rollout progress record) ;;?
    remove_file path ;;? sync_parent_directory.

Definition prepare_rollout (plan : StackPlan) (allow_insecure : bool) (now_ms : N) : IO RolloutRecord :=
  lift (validate_plan plan) ;;?
  when (bool_decide (plan.(sp_security).(ps_sandbox) = Disabled) && negb allow_insecure)
    "sandbox-disabled rollouts require an explicit insecure confirmation" ;;?
  do? current := rollout plan.(sp_stack) in
  do? reuse :=
    match current with
    | None => ret None
    | Some current =>
        let same := bool_decide (current.(candidate_plan).(sp_plan_sha256) = plan.(sp_plan_sha256)) in
        if active current then
          if bool_decide (current.(ro_phase) = RolloutPhase.Prepared) && same then ret (Some current)
          else fail "stack already has an active rollout"
        else
          do? matched :=
            (if bool_decide (current.(ro_phase) = RolloutPhase.Committed) && same then
               do? event := latest plan.(sp_stack) in
               ret (is_ok (ensure_matches_activation current event))
             else ret false) in
          if matched : bool then ret (Some current)
          else
            remove_terminal_rollout_progress current ;;?
            archive_rollout current ;;?
            ret None
    end in
  match reuse with
  | Some current => ret current
  | None =>
      do? previous := latest plan.(sp_stack) in
      (if is_none previous then
         do? statuses := list_stacks in
         when (MAX_ENGINE_STACKS <=? len statuses) "engine stack limit reached"
       else ret tt) ;;?
      when (is_some_and (fun event =>
              bool_decide (event.(ev_kind) = EngineEventKind.Apply)
              && is_some_and (fun current => bool_decide (current.(sp_plan_sha256) = plan.(sp_plan_sha256)))
                   event.(ev_plan)) previous)
        "candidate plan is already the desired generation" ;;?
      do? record := lift (new_record plan previous now_ms) in
      write_rollout_file (rollout_file plan.(sp_stack)) record ;;?
      ret record
  end.

Definition activate_rollout (clock : result string N) (stack rollout_id : string) (now_ms : N) :
    IO RolloutRecord :=
  do? record := require_rollout stack rollout_id in
  match record.(ro_phase) with
  | RolloutPhase.Activated => ret record
  | RolloutPhase.Prepared =>
      lift (ensure_time_advances record now_ms) ;;?
      do? previous := latest stack in
      lift (ensure_matches_previous record previous) ;;?
      do? event := lift (next_event clock previous EngineEventKind.Apply (Some record.(candidate_plan))) in
      append event ;;?
      do? record := lift (refresh_record (with_activation (with_phase record RolloutPhase.Activated now_ms) event)) in
      write_rollout_file (rollout_file stack) record ;;?
      ret record
  | _ => fail "rollout is not prepared for activation"
  end.

(** Every running replica has been running, or ready, for the window. *)
Definition stable_replica (now_ms : N) (replica : ReplicaRuntime) : bool :=
  match replica.(phase) with
  | ReplicaPhase.Running =>
      is_some_and (fun started => ROLLOUT_STABILITY_WINDOW_MS <=? now_ms - started)
        (match replica.(probe) with Some p => p.(ready_at_ms) | None => replica.(started_at_ms) end)
  | ReplicaPhase.Succeeded => true
  | ReplicaPhase.Stopped => bool_decide (replica.(desired) = DesiredState.Stopped)
  | _ => false
  end.

Definition commit_rollout (stack rollout_id : string) (now_ms : N) : IO RolloutRecord :=
  do? record := require_rollout stack rollout_id in
  match record.(ro_phase) with
  | RolloutPhase.Committed => ret record
  | RolloutPhase.Activated =>
      lift (ensure_time_advances record now_ms) ;;?
      do? current := latest stack in
      lift (ensure_matches_activation record current) ;;?
      do? report := health stack now_ms in
      let stopped_candidate :=
        bool_decide (report.(hr_state) = StackHealthState.Stopped) && (report.(desired_replicas) =? 0)
        && forallb (fun i => bool_decide (i.(pi_desired) = DesiredState.Stopped))
             record.(candidate_plan).(sp_instances) in
      when (negb (ready report) && negb stopped_candidate)
        ("rollout cannot commit while stack health is " +:+ state_debug report.(hr_state)) ;;?
      (if bool_decide (report.(hr_state) = StackHealthState.Healthy) then
         do? runtime := runtime_status stack in
         do? runtime := lift (ok_or runtime "rollout has no observed runtime state") in
         when (negb (forallb (stable_replica now_ms) runtime.(replicas)))
           "rollout stability window has not elapsed"
       else ret tt) ;;?
      do? record := lift (refresh_record (with_health (with_phase record RolloutPhase.Committed now_ms)
                                            report.(report_sha256))) in
      write_rollout_file (rollout_file stack) record ;;?
      ret record
  | _ => fail "rollout is not active and cannot be committed"
  end.

Definition rollback_rollout (clock : result string N) (stack rollout_id : string) (now_ms : N) :
    IO RolloutRecord :=
  do? record := require_rollout stack rollout_id in
  match record.(ro_phase) with
  | RolloutPhase.Cancelled | RolloutPhase.RolledBack => ret record
  | RolloutPhase.Prepared =>
      lift (ensure_time_advances record now_ms) ;;?
      do? current := latest stack in
      lift (ensure_matches_previous record current) ;;?
      do? record := lift (refresh_record (with_phase record RolloutPhase.Cancelled now_ms)) in
      write_rollout_file (rollout_file stack) record ;;?
      ret record
  | RolloutPhase.Activated | RolloutPhase.Committed =>
      lift (ensure_time_advances record now_ms) ;;?
      do? current := latest stack in
      lift (ensure_matches_activation record current) ;;?
      do? (kind, plan) := lift (rollback_target record) in
      do? event := lift (next_event clock current kind plan) in
      append event ;;?
      do? record := lift (refresh_record (with_rollback (with_phase record RolloutPhase.RolledBack now_ms) event)) in
      write_rollout_file (rollout_file stack) record ;;?
      ret record
  end.

(** ** Progress files *)
Definition rollout_progress (stack : string) : IO (option RolloutProgress) :=
  when (negb (valid_name stack)) "stack name is invalid" ;;?
  let path := progress_file stack in
  recover_progress_file path ;;?
  do? present := exists_file path in
  if negb present then ret None
  else
    do? progress := read_progress_file path in
    when (negb (bool_decide (progress.(rp_stack) = stack))) "rollout progress belongs to another stack" ;;?
    do? record := rollout stack in
    do? record := lift (ok_or record "rollout progress has no transaction checkpoint") in
    lift (validate_progress_against_rollout progress record) ;;?
    ret (Some progress).

Definition begin_rollout_progress (stack rollout_id : string) (now_ms : N) : IO RolloutProgress :=
  do? progress := rollout_progress stack in
  match progress with
  | Some progress =>
      if bool_decide (progress.(rp_rollout_id) = rollout_id) then ret progress
      else fail "stack already has progress for another rollout"
  | None =>
      do? record := rollout stack in
      do? record := lift (ok_or record "stack has no rollout checkpoint") in
      when (negb (bool_decide (record.(ro_rollout_id) = rollout_id)))
        "rollout identity does not match the current checkpoint" ;;?
      do? progress := lift (from_rollout record now_ms) in
      write_progress_file (progress_file stack) progress ;;?
      ret progress
  end.

Definition save_rollout_progress (progress : RolloutProgress) : IO unit :=
  lift (validate_progress progress) ;;?
  do? record := rollout progress.(rp_stack) in
  do? record := lift (ok_or record "rollout progress has no transaction checkpoint") in
  lift (validate_progress_against_rollout progress record) ;;?
  let path := progress_file progress.(rp_stack) in
  recover_progress_file path ;;?
  write_progress_file path progress.
End Store.
