(* ===== verification/StoreTheorems.v ===== *)
(** * Crash safety of the engine store

    The journal and the rollout checkpoint are two files, written one after
    the other.  These theorems show what a reader finds after a process died,
    or a system call failed, anywhere inside an operation. *)
From S2P Require Import Prelude Text Core Rolling Plan Supervisor SupervisorSpec Events Health Files Rollout Progress Store.

(** ** Journals with stray temporary files *)
Lemma str_last_suffix (s suffix : string) : ends_with s suffix = true -> suffix <> "" -> str_last s = str_last suffix.
Proof.
  intros H Hne. induction s as [|a s IH]; cbn [ends_with] in H.
  - apply orb_true_iff in H as [H|H]; [|done]. by apply bool_decide_eq_true in H.
  - apply orb_true_iff in H as [H|H]; [by apply bool_decide_eq_true in H as <-|].
    specialize (IH H). destruct s as [|b s]; [|exact IH]. destruct suffix as [|c suffix]; [done|].
    exfalso. clear -H. cbn in H. by destruct suffix.
Qed.

Lemma staged_not_event prefix name c : staged prefix name = true -> is_event_file (name, c) = false.
Proof.
  unfold staged, is_event_file, exact_suffix. intros [_ Ht]%andb_true_iff. apply not_true_iff_false. intros Hj.
  cbn [fst] in Hj. apply str_last_suffix in Ht, Hj; [|done|done]. rewrite Hj in Ht. discriminate Ht.
Qed.

Lemma event_file_not_staged prefix n : staged prefix (event_file_name n) = false.
Proof.
  apply not_true_iff_false. intros H. pose proof (staged_not_event _ _ [] H) as Hn.
  unfold is_event_file in Hn. cbn [fst] in Hn. by rewrite event_file_name_json in Hn.
Qed.

(** Sorted listings with the same entries are equal. *)
Lemma event_files_ext (m m' : Directory) :
  (forall k v, is_event_file (k, v) = true -> m !! k = Some v <-> m' !! k = Some v) ->
  List.filter is_event_file (btree_iter m) = List.filter is_event_file (btree_iter m').
Proof.
  intros Hext. assert (forall m : Directory, NoDup (List.filter is_event_file (btree_iter m))) as Hnd.
  { intros x. apply NoDup_ListNoDup, List.NoDup_filter, NoDup_ListNoDup.
    apply (NoDup_fmap_1 fst). apply btree_keys_NoDup. }
  assert (forall (m : Directory) k v, (k, v) ∈ List.filter is_event_file (btree_iter m)
            <-> is_event_file (k, v) = true /\ m !! k = Some v) as Hel.
  { intros x k v. rewrite list_elem_of_In, List.filter_In, <- list_elem_of_In, btree_iter_elem. tauto. }
  apply (StronglySorted_unique_strong key_le).
  - intros [k1 v1] [k2 v2] H1 H2 Hle1 Hle2. unfold key_le in Hle1, Hle2. cbn in Hle1, Hle2.
    assert (k1 = k2) as <- by (by apply (anti_symm String.le)). apply Hel in H1 as [He1 H1], H2 as [He2 H2].
    apply Hext in H2; [|done]. congruence.
  - apply StronglySorted_filter, btree_iter_sorted.
  - apply StronglySorted_filter, btree_iter_sorted.
  - apply NoDup_Permutation; [apply Hnd|apply Hnd|]. intros [k v]. rewrite !Hel. naive_solver.
Qed.

Section Journal.
Context `{Ext : Externals} `{JP : !Json StackPlan} `{JE : !Json EngineEvent} `{DE : !JsonDecode EngineEvent}.

(** Temporary files of a writer that died do not disturb a reader. *)
Lemma read_events_staged (dir dir' : Directory) stack r :
  (forall k, staged ".engine-event-" k = false -> dir' !! k = dir !! k) ->
  read_events_with_size (Some dir) stack = Ok r -> read_events_with_size (Some dir') stack = Ok r.
Proof.
  intros Hs. unfold read_events_with_size. rewrite !event_paths_spec.
  destruct (forallb allowed_entry (btree_iter dir)) eqn:Hall; [|done].
  rewrite (event_files_ext dir' dir).
  2:{ intros k v Hk. rewrite Hs; [done|]. apply not_true_iff_false. intros H. by rewrite (staged_not_event _ _ v H) in Hk. }
  replace (forallb allowed_entry (btree_iter dir')) with true; [done|]. symmetry. apply forallb_forall.
  intros [k v] Hin%list_elem_of_In%btree_iter_elem. destruct (staged ".engine-event-" k) eqn:Hk.
  - unfold allowed_entry. change (starts_with k ".engine-event-" && exact_suffix k ".tmp") with (staged ".engine-event-" k).
    cbn [fst]. unfold staged in Hk. rewrite Hk. apply orb_true_r.
  - rewrite Hs in Hin by done. rewrite forallb_forall in Hall. apply Hall, list_elem_of_In, btree_iter_elem, Hin.
Qed.

(** The events a reader of the store finds. *)
Definition journal (stack : string) (es : list EngineEvent) (d : Disk) : Prop :=
  exists n, read_events_with_size (d !! events_dir stack) stack = Ok (es, n).

Lemma journal_fun stack es es' d : journal stack es d -> journal stack es' d -> es = es'.
Proof. intros [n Hn] [n' Hn']. congruence. Qed.

Lemma journal_dir stack es d d' : d' !! events_dir stack = d !! events_dir stack -> journal stack es d -> journal stack es d'.
Proof. unfold journal. by intros ->. Qed.

Lemma journal_created stack es d : d !! events_dir stack = None -> journal stack es d ->
  journal stack es (<[events_dir stack := ∅]> d).
Proof. unfold journal. intros ->. rewrite lookup_insert_eq. intros [n [= <- <-]]. by exists 0. Qed.

Lemma dirs_differ stack : stack_dir stack <> events_dir stack.
Proof.
  unfold events_dir. intros H. apply (f_equal String.length) in H.
  rewrite (length_app_str (stack_dir stack)) in H. change (String.length "/events") with 7%nat in H. lia.
Qed.
Lemma plain_rollout stack : plain (rollout_file stack).
Proof. by split. Qed.
Lemma plain_event stack n : plain (events_dir stack, event_file_name n).
Proof.
  split; [by destruct (event_file_name n) eqn:E; [discriminate E|]|].
  unfold event_file_name. cbn [snd]. change (digits 20 n) with (String (ascii_of_N (48 + n / 10 ^ N.of_nat 19 mod 10)) (digits 19 n)).
  rewrite app_cons_str. cbn [starts_with_char]. apply bool_decide_eq_false_2. intros H.
  apply (f_equal N_of_ascii) in H. revert H.
  pose proof (N.mod_upper_bound (n / 10 ^ N.of_nat 19) 10 ltac:(lia)) as Hlt. revert Hlt.
  generalize (n / 10 ^ N.of_nat 19 mod 10). intros k Hlt. rewrite N_ascii_embedding by lia.
  change (N_of_ascii ".") with 46. lia.
Qed.

(** What a reader sees of the checkpoint does not depend on other directories. *)
Lemma visible_dir path d d' : d' !! path.1 = d !! path.1 -> visible d' path = visible d path.
Proof. intros H. unfold visible, read_path, backup_of. cbn [fst]. by rewrite H. Qed.
Lemma visible_created path d dir : d !! dir = None -> visible (<[dir := ∅]> d) path = visible d path.
Proof.
  intros H. destruct (decide (dir = path.1)) as [->|Hne]; [|apply visible_dir; by rewrite lookup_insert_ne].
  unfold visible, read_path, backup_of. cbn [fst]. rewrite lookup_insert_eq, H. done.
Qed.

(** A checkpoint [v] beside the journal [es]. *)
Definition state (stack : string) (es : list EngineEvent) (v : option bytes) (d : Disk) : Prop :=
  journal stack es d /\ visible d (rollout_file stack) = v.

Lemma ensure_directory_state stack es v x :
  x = stack_dir stack \/ x = events_dir stack ->
  triple (state stack es v) (ensure_directory x)
    (fun r d => state stack es v d /\ (is_ok r = true -> is_Some (d !! x))) (state stack es v).
Proof.
  intros Hx w Hw. unfold ensure_directory. destruct (disk w !! x) as [m|] eqn:Hm; cbn [is_some is_none negb].
  { split; [done|]. intros _. by exists m. }
  assert (triple (fun d => state stack es v d /\ d !! x = None) (syscall (fun d => Ok (<[x := ∅]> d, tt)) untouched)
    (fun r d => state stack es v d /\ (is_ok r = true -> is_Some (d !! x))) (state stack es v)) as Ht.
  2:{ exact (Ht w (conj Hw Hm)). }
  apply triple_syscall.
  - intros d [[Hj Hv] Hn]. split; [|intros _; rewrite lookup_insert_eq; by eexists]. split.
    + destruct Hx as [->| ->]; [|by apply journal_created]. apply (journal_dir stack es d); [|done].
      rewrite lookup_insert_ne; [done|apply dirs_differ].
    + by rewrite visible_created.
  - intros d n [Hs _]. split; [split; [exact Hs|discriminate]|exact Hs].
Qed.

Context `{RT : !JsonRoundTrip EngineEvent}.

Lemma create_stack_events_triple stack es v :
  triple (state stack es v) (create_stack_events stack)
    (fun r d => state stack es v d
                /\ match r with Ok x => x = events_dir stack /\ is_Some (d !! events_dir stack) | Err _ => True end)
    (state stack es v).
Proof.
  unfold create_stack_events. apply (triple_bind _ _ _ (fun _ => state stack es v)).
  { unfold when. destruct (negb (valid_name stack)); [apply triple_fail|apply triple_ret]; by intros d Hd. }
  intros _. apply (triple_bind _ _ _ (fun _ => state stack es v)).
  { eapply triple_weaken; [apply (ensure_directory_state stack es v (stack_dir stack)); by left|done| |done].
    by intros [u|x] d [Hs _]. }
  intros _. apply (triple_bind _ _ _ (fun _ d => state stack es v d /\ is_Some (d !! events_dir stack))).
  { eapply triple_weaken; [apply (ensure_directory_state stack es v (events_dir stack)); by right|done| |done].
    intros [u|x] d [Hs Hd]; [split; [done|by apply Hd]|done]. }
  intros _. apply triple_ret. by intros d [Hs Hd].
Qed.

(** The journal a new event file leaves behind. *)
Lemma new_event_state stack es v e b n m d0 d :
  e.(ev_stack) = stack -> validate_event e = Ok tt -> visible d0 (rollout_file stack) = v ->
  d0 !! events_dir stack = Some m -> read_events_with_size (Some m) stack = Ok (es, n) ->
  len es < MAX_ENGINE_EVENTS_PER_STACK -> e.(ev_revision) = next_revision es ->
  e.(previous_event_sha256) = next_previous es -> to_vec e = Ok b -> len b <= MAX_ENGINE_EVENT_BYTES ->
  n + len b <= MAX_ENGINE_EVENT_HISTORY_BYTES ->
  let path := (events_dir stack, event_file_name e.(ev_revision)) in
  new_either path b d0 d ->
  (new_after path b d0 d -> state stack (es ++ [e]) v d) /\ (state stack es v d \/ state stack (es ++ [e]) v d).
Proof.
  intros Hst Hval Hv Hm Hr Hlen Hrev Hprev Hb Hbl Hnb path [Hf Hor].
  assert (visible d (rollout_file stack) = v) as Hvis.
  { rewrite <- Hv. apply visible_dir, (fr_dirs _ _ _ _ _ Hf). apply dirs_differ. }
  destruct (fr_dir _ _ _ _ _ Hf) as [m' Hm']; [by exists m|]. cbn [path fst] in Hm'.
  assert (forall k, k <> event_file_name (ev_revision e) -> staged ".engine-event-" k = false -> m' !! k = m !! k) as Hk.
  { intros k Hk Hs. pose proof (fr_names _ _ _ _ _ Hf k ltac:(by intros ->%list_elem_of_singleton) Hs) as Hrd.
    unfold read_path in Hrd. cbn in Hrd. rewrite Hm, Hm' in Hrd. exact Hrd. }
  unfold new_after, read_path, path in *. cbn [fst snd] in *. rewrite Hm, Hm' in *. cbn in Hor |- *.
  assert (m !! event_file_name (ev_revision e) = None -> m' !! event_file_name (ev_revision e) = Some b ->
    state stack (es ++ [e]) v d) as Ha.
  { intros Hnone Hsome. split; [|done]. exists (n + len b). rewrite Hm', <- Hst.
    apply (read_events_staged (<[event_file_name (ev_revision e) := b]> m)).
    - intros k Hks. destruct (decide (k = event_file_name (ev_revision e))) as [->|Hne]; [by rewrite lookup_insert_eq|].
      rewrite lookup_insert_ne by done. by apply Hk.
    - apply read_insert; try done. by rewrite Hst. }
  split; [by intros (_ & ? & ?); apply Ha|]. destruct Hor as [Heq|[? ?]]; [left|right; by apply Ha].
  split; [|done]. exists n. rewrite Hm'. apply (read_events_staged m); [|done].
  intros k Hks. destruct (decide (k = event_file_name (ev_revision e))) as [->|Hne]; [exact Heq|by apply Hk].
Qed.

(** Appending is atomic for the pair of files; a successful append continues
    the journal with a valid event. *)
Lemma append_triple stack es v e :
  e.(ev_stack) = stack ->
  triple (state stack es v) (append e)
    (fun r d => match r with
                | Ok _ => state stack (es ++ [e]) v d
                | Err _ => state stack es v d \/ state stack (es ++ [e]) v d
                end)
    (fun d => state stack es v d \/ state stack (es ++ [e]) v d).
Proof.
  intros Hst. unfold append.
  apply (triple_bind _ _ _ (fun _ d => validate_event e = Ok tt /\ state stack es v d)).
  { apply triple_lift. intros d Hd. destruct (validate_event e) as [[]|]; [done|by left]. }
  intros _. apply triple_pure. intros Hval.
  apply (triple_bind _ _ _ (fun x d => x = events_dir stack /\ state stack es v d /\ is_Some (d !! events_dir stack))).
  { rewrite Hst. eapply triple_weaken; [apply (create_stack_events_triple stack es v)|done| |by left].
    intros [x|x] d [Hs Hx]; [destruct Hx as [-> ?]; done|by left]. }
  intros x w (-> & Hs & [m Hm]). unfold bind at 1. unfold read_disk at 1. cbn beta iota.
  unfold bind at 1. unfold lift at 1.
  destruct (prepare_append (disk w !! events_dir stack) e) as [b|] eqn:Hp; [|by left].
  apply prepare_append_inv in Hp as (es' & n & Hr & Hlen & Hrev & Hprev & Hb & Hbl & Hnb). rewrite Hst in Hr.
  destruct Hs as [Hj Hv]. assert (es' = es) as -> by (eapply journal_fun; [by exists n|exact Hj]). clear Hj.
  rewrite Hm in Hr.
  pose proof (write_new_triple _ b (disk w) (plain_event stack e.(ev_revision)) w eq_refl) as Ht.
  pose proof (fun d => new_event_state stack es v e b n m (disk w) d Hst Hval Hv Hm Hr Hlen Hrev Hprev Hb Hbl Hnb) as Hend.
  destruct (write_new_atomic _ b w) as [w' [[[]|x]|]].
  - destruct Ht as [He Ha]. by apply (Hend _ He), Ha.
  - destruct Ht as [He _]. by apply (Hend _ He).
  - by apply (Hend _ Ht).
Qed.
End Journal.

(** ** Checkpoints *)
Record record_ok `{Externals} `{!Json StackPlan} `{!Json RolloutIdentity} (r : RolloutRecord) : Prop := {
  rk_candidate : validate_plan r.(candidate_plan) = Ok tt;
  rk_format : r.(ro_format_version) = ENGINE_ROLLOUT_FORMAT_VERSION;
  rk_stack : valid_name r.(ro_stack) = true;
  rk_plan_stack : r.(candidate_plan).(sp_stack) = r.(ro_stack);
  rk_created : r.(ro_created_at_ms) <> 0;
  rk_updated : r.(ro_created_at_ms) <= r.(ro_updated_at_ms);
  rk_id : computed_rollout_id r = Ok r.(ro_rollout_id);
  rk_previous : validate_previous r = Ok tt;
  rk_phase : validate_phase r = Ok tt;
}.

Section Records.
Context `{Ext : Externals} `{JP : !Json StackPlan} `{JI : !Json RolloutIdentity} `{JRo : !Json RolloutRecord}.

Lemma rollout_id_digest r rid : computed_rollout_id r = Ok rid -> is_digest rid = true.
Proof.
  unfold computed_rollout_id, rollout_id. destruct (to_vec _); [|done]. intros [= <-]. apply hex_sha256_is_digest.
Qed.
Lemma record_sha_digest r sha : record_computed_sha256 r = Ok sha -> is_digest sha = true.
Proof.
  unfold record_computed_sha256. destruct (to_vec _); [|done]. pass Hl. intros [= <-]. apply hex_sha256_is_digest.
Qed.

Lemma validate_record_iff r :
  validate_record r = Ok tt <-> record_ok r /\ record_computed_sha256 r = Ok r.(record_sha256).
Proof.
  unfold validate_record. split.
  - destruct (validate_plan (candidate_plan r)) as [[]|] eqn:Hp; [|done]. pass Hg.
    destruct (computed_rollout_id r) as [rid|] eqn:Hid; [|done]. pass Hs.
    destruct (record_computed_sha256 r) as [sha|] eqn:Hsha; [|done]. pass He.
    destruct (validate_previous r) as [[]|] eqn:Hprev; [|done]. intros Hph. split_guard. subst sha rid.
    split; [|done]. by constructor.
  - intros [[Hp Hf Hn Hps Hc Hu Hid Hprev Hph] Hsha]. rewrite Hp, Hid, Hsha, Hprev, Hph, Hf, Hn.
    rewrite (rollout_id_digest _ _ Hid), (record_sha_digest _ _ Hsha), (proj2 (N.eqb_neq _ _) Hc).
    rewrite (proj2 (N.ltb_ge _ _) Hu), !bool_decide_eq_true_2 by done. done.
Qed.

(** The encoder succeeds within the limit: a checkpoint holds two plans, each of
    at most 8 MiB of JSON, and the limit is 16 MiB and 64 KiB. *)
Definition fits (r : RolloutRecord) : Prop := exists b, to_vec r = Ok b /\ len b <= MAX_ROLLOUT_BYTES.

Lemma record_ok_sha r sha : record_ok r -> record_ok (with_record_sha256 r sha).
Proof. intros []. by constructor. Qed.

Lemma refresh_record_ok r :
  record_ok r -> fits (with_record_sha256 r "") -> exists sha, refresh_record r = Ok (with_record_sha256 r sha)
    /\ validate_record (with_record_sha256 r sha) = Ok tt.
Proof.
  intros Hr (b & Hb & Hlen).
  exists (hex_sha256 b).
  assert (forall sha, record_computed_sha256 (with_record_sha256 r sha) = Ok (hex_sha256 b)) as Hsha.
  { intros sha. unfold record_computed_sha256.
    change (with_record_sha256 (with_record_sha256 r sha) "") with (with_record_sha256 r "").
    rewrite Hb. by rewrite (proj2 (N.ltb_ge _ _) Hlen). }
  assert (validate_record (with_record_sha256 r (hex_sha256 b)) = Ok tt) as Hv
    by (apply validate_record_iff; split; [by apply record_ok_sha|apply Hsha]).
  split; [|done]. unfold refresh_record. rewrite Hsha.
  change (with_record_sha256 (with_record_sha256 r "") (hex_sha256 b)) with (with_record_sha256 r (hex_sha256 b)).
  by rewrite Hv.
Qed.

Context `{DRo : !JsonDecode RolloutRecord} `{RTRo : !JsonRoundTrip RolloutRecord}.

(** A record that can be written can be read back. *)
Lemma record_round_trip r b :
  encode_bounded validate_record MAX_ROLLOUT_BYTES "engine rollout exceeds its byte limit" r = Ok b ->
  parse_rollout b = Ok r.
Proof.
  unfold encode_bounded, parse_rollout, parse_bounded. destruct (validate_record r) as [[]|] eqn:Hv; [|done].
  destruct (to_vec r) as [b'|] eqn:Hb; [|done]. destruct (MAX_ROLLOUT_BYTES <? len b') eqn:Hl; [done|]. intros [= <-].
  rewrite Hl. rewrite (from_slice_to_vec r b' Hb). by rewrite Hv.
Qed.
Lemma record_encodes r :
  validate_record r = Ok tt -> fits r ->
  exists b, encode_bounded validate_record MAX_ROLLOUT_BYTES "engine rollout exceeds its byte limit" r = Ok b.
Proof.
  intros Hv (b & Hb & Hlen). exists b. unfold encode_bounded. rewrite Hv, Hb.
  by rewrite (proj2 (N.ltb_ge _ _) Hlen).
Qed.
Lemma parse_valid b r : parse_rollout b = Ok r -> validate_record r = Ok tt.
Proof.
  unfold parse_rollout, parse_bounded. pass Hl. destruct (from_slice b) as [x|]; [|done].
  destruct (validate_record x) as [[]|] eqn:Hv; [|done]. by intros [= <-].
Qed.
End Records.

(** ** Readers and writers of the pair *)
Section Pair.
Context `{Ext : Externals} `{JP : !Json StackPlan} `{JE : !Json EngineEvent} `{DE : !JsonDecode EngineEvent}
  `{JI : !Json RolloutIdentity} `{JRo : !Json RolloutRecord} `{DRo : !JsonDecode RolloutRecord}
  `{RTE : !JsonRoundTrip EngineEvent} `{RTRo : !JsonRoundTrip RolloutRecord}.

(** A reader that leaves both files alone and can only return [a]. *)
Definition reads_as {A : Type} (stack : string) (es : list EngineEvent) (v : option bytes) (m : IO A) (a : A) : Prop :=
  triple (state stack es v) m (fun r d => state stack es v d /\ (is_ok r = true -> r = Ok a)) (state stack es v).

Lemma reads_bind {A B : Type} stack es v (m : IO A) (k : A -> IO B) a Q C :
  reads_as stack es v m a -> (forall e d, state stack es v d -> Q (Err e) d) ->
  (forall d, state stack es v d -> C d) ->
  triple (state stack es v) (k a) Q C -> triple (state stack es v) (bind m k) Q C.
Proof.
  intros Hm HQ HC Hk. apply (triple_bind _ _ _ (fun x d => x = a /\ state stack es v d)).
  - eapply triple_weaken; [apply Hm|done| |done]. intros [x|e] d [Hs Hx]; [|auto]. specialize (Hx eq_refl). split; [congruence|done].
  - intros x. apply triple_pure. by intros ->.
Qed.

Lemma reads_seq {A B : Type} stack es v (m : IO A) (k : A -> IO B) a b :
  reads_as stack es v m a -> reads_as stack es v (k a) b -> reads_as stack es v (bind m k) b.
Proof. intros Hm Hk. unfold reads_as. by apply (reads_bind _ _ _ _ _ a). Qed.

Lemma reads_ret {A : Type} stack es v (a : A) : reads_as stack es v (ret a) a.
Proof. unfold reads_as. by apply triple_ret. Qed.
Lemma reads_lift {A : Type} stack es v (r : result string A) (a : A) :
  (forall x, r = Ok x -> x = a) -> reads_as stack es v (lift r) a.
Proof.
  intros H. unfold reads_as. apply triple_lift. intros d Hd. split; [done|]. destruct r; [|done]. intros _. f_equal. auto.
Qed.
Lemma reads_when stack es v b e : reads_as stack es v (when b e) tt.
Proof. unfold when. destruct b; [|apply reads_ret]. unfold reads_as. apply triple_fail. by intros d Hd. Qed.

Lemma reads_latest stack es v : reads_as stack es v (latest stack) (last es).
Proof.
  unfold latest, events. apply (reads_seq _ _ _ _ _ es); [|apply reads_ret].
  apply (reads_seq _ _ _ _ _ tt); [apply reads_when|]. intros w [[n Hn] Hv]. unfold bind, read_disk, lift. rewrite Hn.
  split; [split; [by exists n|done]|done].
Qed.

(** Recovery of the checkpoint leaves the pair, and one file. *)
Lemma recover_rollout_triple stack es v :
  triple (state stack es v) (recover_rollout_file (rollout_file stack))
    (fun r d => state stack es v d /\ (r = Ok tt -> read_path d (rollout_file stack) = v
                                         /\ read_path d (backup_of (rollout_file stack)) = None))
    (state stack es v).
Proof.
  intros w [Hj Hv]. unfold recover_rollout_file.
  pose proof (recover_triple parse_rollout (rollout_file stack) (disk w) w eq_refl) as Ht.
  assert (forall d, seen_same (rollout_file stack) (disk w) d -> state stack es v d) as Hs.
  { intros d (Hvis & _ & Hd). split; [|by rewrite Hvis].
    apply (journal_dir stack es (disk w)); [|done]. apply Hd. apply not_eq_sym, dirs_differ. }
  destruct (recover_file _ _ w) as [w' [r|]]; [|by apply Hs]. destruct Ht as [H1 H2]. split; [by apply Hs|].
  intros Hr. destruct (H2 Hr) as [-> ->]. by rewrite Hv.
Qed.

(** Reading a checkpoint that agrees with the journal. *)
Lemma reads_rollout stack es c r :
  parse_rollout c = Ok r -> r.(ro_stack) = stack ->
  recover_rollout_checkpoint r (last es) = Ok (r, false) ->
  reads_as stack es (Some c) (rollout stack) (Some r).
Proof.
  intros Hparse Hstack Hrec. unfold rollout.
  apply (reads_seq _ _ _ _ _ tt); [apply reads_when|]. cbn zeta. unfold reads_as.
  apply (triple_bind _ _ _ (fun _ d => state stack es (Some c) d /\ read_path d (rollout_file stack) = Some c)).
  { eapply triple_weaken; [apply recover_rollout_triple|done| |done]. intros [[]|e] d [Hs Hr]; [|by split].
    split; [done|]. by apply Hr. }
  intros _ w [Hs Hread]. unfold bind at 1. unfold exists_file at 1. rewrite Hread. cbn [is_some is_none negb].
  unfold bind at 1. unfold read_rollout_file at 1. unfold bind at 1. unfold read_file at 1. rewrite Hread. cbn [ok_or].
  unfold lift at 1. rewrite Hparse. revert w Hs Hread.
  enough (reads_as stack es (Some c)
    (when (negb (bool_decide (ro_stack r = stack))) "engine rollout belongs to another stack" ;;?
     do? current := latest (ro_stack r) in
     do? (record, changed) := lift (recover_rollout_checkpoint r current) in
     (if changed : bool then write_rollout_file (rollout_file stack) record ;;? ret (Some record) else ret (Some record)))
    (Some r)) as Ht by (intros w Hs _; exact (Ht w Hs)).
  apply (reads_seq _ _ _ _ _ tt); [apply reads_when|]. rewrite Hstack.
  apply (reads_seq _ _ _ _ _ (last es)); [apply reads_latest|]. rewrite Hrec.
  apply (reads_seq _ _ _ _ _ (r, false)); [apply reads_lift; by intros x [= <-]|]. apply reads_ret.
Qed.

Lemma reads_require stack es c r rid :
  parse_rollout c = Ok r -> r.(ro_stack) = stack ->
  recover_rollout_checkpoint r (last es) = Ok (r, false) ->
  reads_as stack es (Some c) (require_rollout stack rid) r.
Proof.
  intros Hparse Hstack Hrec. unfold require_rollout.
  apply (reads_seq _ _ _ _ _ tt); [apply reads_when|].
  apply (reads_seq _ _ _ _ _ (Some r)); [by apply reads_rollout|].
  apply (reads_seq _ _ _ _ _ r); [apply reads_lift; by intros x [= <-]|].
  apply (reads_seq _ _ _ _ _ tt); [apply reads_when|]. apply reads_ret.
Qed.

(** Writing a checkpoint: the old one or the new one. *)
Lemma write_rollout_triple stack es v r :
  triple (state stack es v) (write_rollout_file (rollout_file stack) r)
    (fun res d => match res with
                  | Ok _ => exists c, parse_rollout c = Ok r /\ state stack es (Some c) d
                  | Err _ => state stack es v d \/ exists c, parse_rollout c = Ok r /\ state stack es (Some c) d
                  end)
    (fun d => state stack es v d \/ exists c, parse_rollout c = Ok r /\ state stack es (Some c) d).
Proof.
  unfold write_rollout_file. intros w [Hj Hv]. unfold bind at 1. unfold lift at 1.
  destruct (encode_bounded _ _ _ r) as [b|] eqn:Hb; [|by left]. apply record_round_trip in Hb.
  pose proof (write_replace_triple (rollout_file stack) b (disk w) (plain_rollout stack) w eq_refl) as Ht.
  assert (forall d, frame (rollout_file stack) (disk w) d -> journal stack es d) as Hjd.
  { intros d Hf. apply (journal_dir stack es (disk w)); [|done]. apply (fr_dirs _ _ _ _ _ Hf), not_eq_sym, dirs_differ. }
  assert (forall d, either (rollout_file stack) b (disk w) d ->
    state stack es v d \/ exists c, parse_rollout c = Ok r /\ state stack es (Some c) d) as He.
  { intros d [Hf [Hs|Hs]]; [left|right; exists b; split; [done|]]; (split; [by apply Hjd|]); [by rewrite Hs|done]. }
  destruct (write_replace_atomic _ b w) as [w' [[[]|e]|]]; [|by apply He, Ht|by apply He].
  destruct Ht as [[Hf _] Ho]. exists b. split; [done|]. split; [by apply Hjd|].
  unfold visible. by rewrite (proj1 (Ho eq_refl)).
Qed.

(** An event and then the checkpoint that records it: the four situations a
    reader can find. *)
Definition recorded (stack : string) (es : list EngineEvent) (c : bytes) (e : EngineEvent) (r : RolloutRecord)
    (d : Disk) : Prop :=
  state stack es (Some c) d \/ state stack (es ++ [e]) (Some c) d
  \/ exists c', parse_rollout c' = Ok r /\ state stack (es ++ [e]) (Some c') d.

Lemma record_event_triple stack es c e x r :
  e.(ev_stack) = stack -> (forall y, refresh_record x = Ok y -> y = r) ->
  triple (state stack es (Some c))
    (append e ;;? (do? record := lift (refresh_record x) in
                   write_rollout_file (rollout_file stack) record ;;? ret record))
    (fun res d => match res with
                  | Ok y => y = r /\ exists c', parse_rollout c' = Ok r /\ state stack (es ++ [e]) (Some c') d
                  | Err _ => recorded stack es c e r d
                  end) (recorded stack es c e r).
Proof.
  intros Hst Hx. apply (triple_bind _ _ _ (fun _ => state stack (es ++ [e]) (Some c))).
  { eapply triple_weaken; [apply (append_triple stack es (Some c) e Hst)|done| |].
    - intros [u|y] d; [done|]. intros [?|?]; [by left|by right; left].
    - intros d [?|?]; [by left|by right; left]. }
  intros _. apply (triple_bind _ _ _ (fun y d => y = r /\ state stack (es ++ [e]) (Some c) d)).
  { apply triple_lift. intros d Hd. destruct (refresh_record x) as [y|] eqn:Hy; [split; [by apply Hx|done]|by right; left]. }
  intros y. apply triple_pure. intros ->.
  apply (triple_bind _ _ _ (fun _ d => exists c', parse_rollout c' = Ok r /\ state stack (es ++ [e]) (Some c') d)).
  { eapply triple_weaken; [apply write_rollout_triple|done| |].
    - intros [u|z] d; [done|]. intros [?|?]; [by right; left|by right; right].
    - intros d [?|?]; [by right; left|by right; right]. }
  intros _. by apply triple_ret.
Qed.

(** The record a reader of the pair ends up with: the checkpoint, brought in
    step with the journal. *)
Definition checkpoint (stack : string) (es : list EngineEvent) (v : option bytes) :
    result string (option RolloutRecord) :=
  match v with
  | None => Ok None
  | Some c =>
      let? r := parse_rollout c in
      if negb (bool_decide (r.(ro_stack) = stack)) then Err "engine rollout belongs to another stack"
      else
        let? (r, _) := recover_rollout_checkpoint r (last es) in
        Ok (Some r)
  end.

(** A transaction on the pair: nothing happened, or one event was appended and
    the reader ends up with the record of it. *)
Definition settled (stack : string) (es : list EngineEvent) (r : RolloutRecord)
    (P : EngineEvent -> RolloutRecord -> Prop) (out : option RolloutRecord) (d : Disk) : Prop :=
  exists es' v', state stack es' v' d /\ ((es' = es /\ checkpoint stack es' v' = Ok (Some r) /\ out = None)
     \/ exists e r', es' = es ++ [e] /\ checkpoint stack es' v' = Ok (Some r') /\ P e r'
          /\ (forall x, out = Some x -> x = r')).

(** ** Transitions of a record *)

(** The revision of a journal is far below the limit of the counter. *)
Lemma journal_revision stack es e d :
  journal stack es d -> last es = Some e -> e.(ev_revision) <= MAX_ENGINE_EVENTS_PER_STACK /\ e.(ev_stack) = stack.
Proof.
  intros [n Hn] Hl. destruct (read_events_spec _ _ _ _ Hn) as (Hc & Hlen & _).
  apply last_Some in Hl as [l ->]. destruct (chain_elem _ _ e Hc) as (? & _ & ?); [set_solver|]. split; [lia|done].
Qed.

Lemma new_event_inv clock rev stack kind prev plan e :
  new_event clock rev stack kind prev plan = Ok e ->
  validate_event e = Ok tt /\ e.(ev_revision) = rev /\ e.(ev_stack) = stack /\ e.(ev_kind) = kind
  /\ e.(previous_event_sha256) = prev /\ e.(ev_plan) = plan.
Proof.
  unfold new_event. destruct clock as [t|]; [|done]. destruct (event_computed_sha256 _) as [sha|]; [|done].
  destruct (validate_event _) as [[]|] eqn:Hv; [|done]. by intros [= <-].
Qed.

Lemma valid_event_digest e : validate_event e = Ok tt -> is_digest e.(event_sha256) = true /\ 0 < e.(ev_revision).
Proof. unfold validate_event. pass Hg. intros _. split_guard. split; [done|lia]. Qed.

(** The event of an activation follows the previous generation. *)
Lemma activation_record_ok r e t :
  record_ok r -> r.(ro_phase) = RolloutPhase.Prepared -> r.(ro_created_at_ms) <= t ->
  validate_event e = Ok tt ->
  e.(ev_revision) = from_option (fun revision => revision + 1) 1 r.(previous_revision) ->
  e.(ev_revision) <= u64_max ->
  record_ok (with_activation (with_phase r RolloutPhase.Activated t) e).
Proof.
  intros [Hp Hf Hn Hps Hc Hu Hid Hprev Hph] Hphase Ht He Hrev Hmax.
  destruct (valid_event_digest e He) as [Hdig Hpos]. constructor; try done.
  revert Hph. unfold validate_phase, valid_phase_fields. rewrite Hphase. cbn -[N.ltb N.eqb saturating_add].
  destruct (rollback_revision r), (rollback_generation r), (health_report_sha256 r),
    (activated_revision r), (activated_generation r); try done. intros _.
  cbn -[N.ltb N.eqb saturating_add]. rewrite Hdig, (proj2 (N.ltb_lt _ _) Hpos). cbn -[N.ltb N.eqb saturating_add].
  destruct (previous_revision r) as [p|]; cbn -[N.ltb N.eqb saturating_add] in *; rewrite Hrev; [|done].
  unfold saturating_add. rewrite N.min_l by lia. by rewrite N.eqb_refl.
Qed.

(** The event of a rollback follows the activated generation. *)
Lemma rollback_record_ok r e t :
  record_ok r -> r.(ro_phase) = RolloutPhase.Activated \/ r.(ro_phase) = RolloutPhase.Committed ->
  r.(ro_created_at_ms) <= t -> validate_event e = Ok tt ->
  (forall activated, r.(activated_revision) = Some activated -> e.(ev_revision) = activated + 1) ->
  e.(ev_revision) <= u64_max ->
  record_ok (with_rollback (with_phase r RolloutPhase.RolledBack t) e).
Proof.
  intros [Hp Hf Hn Hps Hc Hu Hid Hprev Hph] Hphase Ht He Hrev Hmax.
  destruct (valid_event_digest e He) as [Hdig Hpos]. constructor; try done.
  revert Hph. unfold validate_phase, valid_phase_fields.
  cbn [with_rollback with_phase ro_phase previous_revision activated_revision activated_generation
       rollback_revision rollback_generation health_report_sha256].
  destruct (activated_revision r) as [a|]; [|by destruct Hphase as [-> | ->]]. specialize (Hrev a eq_refl).
  destruct (rollback_revision r), (rollback_generation r); try by destruct Hphase as [-> | ->]; rewrite ?andb_false_r.
  cbn [is_some_and is_none_or is_none is_some negb andb]. rewrite Hdig, (proj2 (N.ltb_lt _ _) Hpos), Hrev.
  replace (a + 1 =? saturating_add u64_max a 1) with true
    by (symmetry; apply N.eqb_eq; unfold saturating_add; rewrite N.min_l; lia).
  set (act := (0 <? a) && is_some_and is_digest (activated_generation r)).
  set (ar := (a =? _)). destruct Hphase as [-> | ->], act, ar, (health_report_sha256 r) as [h|]; try done.
Qed.

(** A checkpoint that needs no recovery is what a reader ends up with. *)
Lemma checkpoint_settled stack es c r :
  parse_rollout c = Ok r -> r.(ro_stack) = stack -> recover_rollout_checkpoint r (last es) = Ok (r, false) ->
  checkpoint stack es (Some c) = Ok (Some r).
Proof. intros Hp Hs Hr. unfold checkpoint. rewrite Hp, bool_decide_eq_true_2, Hr by done. done. Qed.

(** The shared tail of an activation and a rollback: the event, then the
    record [next now_ms] of it.  A reader that finds only the event makes the
    same record for a time of its own. *)
Lemma transition_triple stack es c r e (next : N -> RolloutRecord) now_ms seen_ms :
  parse_rollout c = Ok r -> r.(ro_stack) = stack -> e.(ev_stack) = stack ->
  recover_rollout_checkpoint r (last es) = Ok (r, false) ->
  recover_rollout_checkpoint r (Some e)
    = (let? record := refresh_record (next seen_ms) in Ok (record, true)) ->
  record_ok (next now_ms) -> fits (with_record_sha256 (next now_ms) "") ->
  record_ok (next seen_ms) -> fits (with_record_sha256 (next seen_ms) "") -> (next now_ms).(ro_stack) = stack ->
  (forall sha, recover_rollout_checkpoint (with_record_sha256 (next now_ms) sha) (Some e)
               = Ok (with_record_sha256 (next now_ms) sha, false)) ->
  let P e' r' := e' = e /\ exists t sha, r' = with_record_sha256 (next t) sha in
  triple (state stack es (Some c))
    (append e ;;? (do? record := lift (refresh_record (next now_ms)) in
                   write_rollout_file (rollout_file stack) record ;;? ret record))
    (fun res => settled stack es r P (match res with Ok x => Some x | Err _ => None end))
    (settled stack es r P None).
Proof.
  intros Hparse Hst Hest Hrec Hseen Hok Hfit Hok' Hfit' Hns Hdone P.
  destruct (refresh_record_ok _ Hok Hfit) as (sha & Hrf & Hval). set (r' := with_record_sha256 (next now_ms) sha) in *.
  destruct (refresh_record_ok _ Hok' Hfit') as (sha' & Hrf' & _).
  assert (forall c' d out, parse_rollout c' = Ok r' -> state stack (es ++ [e]) (Some c') d ->
    (forall x, out = Some x -> x = r') -> settled stack es r P out d) as Hwritten.
  { intros c' d out Hp Hs Hout. exists (es ++ [e]), (Some c'). split; [done|]. right. exists e, r'.
    split_and!; [done| |split; [done|by exists now_ms, sha]|done].
    apply checkpoint_settled; [done|exact Hns|]. rewrite last_snoc. apply Hdone. }
  assert (forall d, recorded stack es c e r' d -> settled stack es r P None d) as Hrecorded.
  { intros d [Hs|[Hs|(c' & Hp & Hs)]].
    - exists es, (Some c). split; [done|]. left. split_and!; [done|by apply checkpoint_settled|done].
    - exists (es ++ [e]), (Some c). split; [done|]. right. exists e, (with_record_sha256 (next seen_ms) sha').
      split_and!; [done| |split; [done|by eexists _, _]|done].
      unfold checkpoint. rewrite Hparse, bool_decide_eq_true_2, last_snoc, Hseen, Hrf' by done. done.
    - by apply (Hwritten c'). }
  eapply triple_weaken; [apply (record_event_triple stack es c e (next now_ms) r' Hest)|done| |exact Hrecorded].
  - intros y Hy. rewrite Hrf in Hy. by injection Hy as <-.
  - intros [y|x] d; [|apply Hrecorded]. intros (-> & c' & Hp & Hs). apply (Hwritten c'); [done|done|by intros x [= <-]].
Qed.

Lemma lift_bind {A B : Type} P (r : result string A) (k : A -> IO B) Q C :
  (forall e d, P d -> Q (Err e) d) -> (forall a, r = Ok a -> triple P (k a) Q C) -> triple P (bind (lift r) k) Q C.
Proof. intros He Hk w Hw. unfold bind, lift. destruct r as [a|e]; [by apply (Hk a)|by apply He]. Qed.

Lemma settled_unchanged stack es c r P d :
  parse_rollout c = Ok r -> r.(ro_stack) = stack -> recover_rollout_checkpoint r (last es) = Ok (r, false) ->
  state stack es (Some c) d -> settled stack es r P None d.
Proof. intros Hp Hst Hr Hs. exists es, (Some c). split; [done|]. left. split_and!; [done|by apply checkpoint_settled|done]. Qed.

Lemma settled_weaken stack es r (P P' : EngineEvent -> RolloutRecord -> Prop) out d :
  (forall e r', P e r' -> P' e r') -> settled stack es r P out d -> settled stack es r P' out d.
Proof.
  intros HP (es' & v' & Hs & [H|(e & r' & ? & ? & ? & ?)]); exists es', v'; (split; [done|]); [by left|right].
  exists e, r'. split_and!; auto.
Qed.

(** No event carries its own checksum as that of its predecessor: the checksum
    is the SHA-256 of text that contains the other. *)
Class EventsUnlinked := events_unlinked : forall e, validate_event e = Ok tt ->
  e.(previous_event_sha256) <> e.(event_sha256).

Lemma prepared_in_step r es :
  record_ok r -> r.(ro_phase) = RolloutPhase.Prepared -> recover_rollout_checkpoint r (last es) = Ok (r, false) ->
  next_previous es = default "" r.(previous_generation)
  /\ next_revision es = from_option (fun revision => revision + 1) 1 r.(previous_revision).
Proof.
  intros Hok Hph. unfold recover_rollout_checkpoint, ensure_matches_previous, next_previous, next_revision. rewrite Hph.
  destruct (matches_candidate r (last es)); [destruct (last es); cbn [ok_or]; [|done]; by destruct (refresh_record _)|].
  destruct (last es) as [x|], (previous_revision r) as [p|] eqn:Hp; try done.
  - destruct (_ && _) eqn:Hg; [|done]. intros _. split_guard. rewrite H2. cbn. split; [done|]. by rewrite H.
  - intros _. split; [|done]. pose proof (rk_previous r Hok) as Hv. unfold validate_previous in Hv. rewrite Hp in Hv.
    by destruct (previous_generation r).
Qed.

Context `{Unlinked : !EventsUnlinked}.

(** What an activation records. *)
Definition activation_of (r : RolloutRecord) (e : EngineEvent) (r' : RolloutRecord) : Prop :=
  e.(ev_kind) = EngineEventKind.Apply /\ e.(ev_plan) = Some r.(candidate_plan)
  /\ r'.(ro_rollout_id) = r.(ro_rollout_id) /\ r'.(candidate_plan) = r.(candidate_plan)
  /\ r'.(ro_phase) = RolloutPhase.Activated /\ r'.(activated_revision) = Some e.(ev_revision)
  /\ r'.(activated_generation) = Some e.(event_sha256).

(** The records of an event the operation and a later reader would write, for
    a time of the operation and the time of the event. *)
Definition event_fits (r : RolloutRecord) (now_ms : N) (e : EngineEvent) (next : N -> RolloutRecord) : Prop :=
  fits (with_record_sha256 (next now_ms) "")
  /\ fits (with_record_sha256 (next (N.max r.(ro_updated_at_ms) e.(created_at_ms))) "").

Lemma activate_tail_triple stack es c r clock now_ms d0 :
  (forall e, next_event clock (last es) EngineEventKind.Apply (Some r.(candidate_plan)) = Ok e ->
     event_fits r now_ms e (fun t => with_activation (with_phase r RolloutPhase.Activated t) e)) ->
  state stack es (Some c) d0 ->
  parse_rollout c = Ok r -> r.(ro_stack) = stack -> r.(ro_phase) = RolloutPhase.Prepared ->
  recover_rollout_checkpoint r (last es) = Ok (r, false) -> ensure_time_advances r now_ms = Ok tt ->
  triple (state stack es (Some c))
    (do? event := lift (next_event clock (last es) EngineEventKind.Apply (Some r.(candidate_plan))) in
     append event ;;?
     do? record := lift (refresh_record (with_activation (with_phase r RolloutPhase.Activated now_ms) event)) in
     write_rollout_file (rollout_file stack) record ;;? ret record)
    (fun res => settled stack es r (activation_of r) (match res with Ok x => Some x | Err _ => None end))
    (settled stack es r (activation_of r) None).
Proof.
  intros Hfits [Hj0 _] Hparse Hst Hph Hrec Htime.
  pose proof (proj1 (proj1 (validate_record_iff r) (parse_valid _ _ Hparse))) as Hok.
  destruct (prepared_in_step r es Hok Hph Hrec) as [Hprev Hnext].
  apply lift_bind; [intros x d; by apply settled_unchanged|]. intros e He. destruct (Hfits e He) as [Hfit Hfit'].
  unfold next_event in He. cbn [ok_or fmap option_fmap option_map] in He.
  apply new_event_inv in He as (Hv & Hrev & Hes & Hkind & Hpe & Hplan).
  fold (next_revision es) in Hrev. fold (next_previous es) in Hpe.
  assert (e.(ev_revision) <= u64_max) as Hmax.
  { rewrite Hrev. unfold next_revision. destruct (last es) as [x|] eqn:Hl; [|done].
    destruct (journal_revision _ _ _ _ Hj0 Hl). unfold MAX_ENGINE_EVENTS_PER_STACK, u64_max in *. cbn. lia. }
  assert (forall t, r.(ro_created_at_ms) <= t -> record_ok (with_activation (with_phase r RolloutPhase.Activated t) e)) as Hnew.
  { intros t Ht. apply activation_record_ok; try done. by rewrite Hrev. }
  pose proof (rk_updated r Hok) as Hupd.
  eapply triple_weaken.
  - apply (transition_triple stack es c r e (fun t => with_activation (with_phase r RolloutPhase.Activated t) e)
             now_ms (N.max r.(ro_updated_at_ms) e.(created_at_ms))); try done.
    + by rewrite Hes, (rk_plan_stack r Hok).
    + unfold recover_rollout_checkpoint. rewrite Hph. unfold matches_candidate. cbn [is_some_and].
      rewrite Hplan, Hkind, Hpe, Hprev. cbn [is_some_and]. rewrite !bool_decide_eq_true_2 by done. done.
    + apply Hnew. unfold ensure_time_advances in Htime. destruct (_ || _) eqn:Hg; [done|]. split_guard. lia.
    + apply Hnew. lia.
    + intros sha. unfold recover_rollout_checkpoint. cbn [ro_phase with_record_sha256 with_activation with_phase].
      unfold matches_rollback. cbn [activated_generation with_record_sha256 with_activation with_phase default from_option id].
      rewrite bool_decide_eq_false_2 by (by apply events_unlinked). cbn [negb].
      unfold ensure_matches_activation, matches_candidate. cbn. rewrite Hplan, Hkind, Hpe, Hprev. cbn.
      rewrite !bool_decide_eq_true_2 by done. done.
  - done.
  - intros res d. apply settled_weaken. intros e' r' (-> & t & sha & ->). by split_and!.
  - intros d. apply settled_weaken. intros e' r' (-> & t & sha & ->). by split_and!.
Qed.

(** What a rollback records. *)
Definition rollback_of (r : RolloutRecord) (e : EngineEvent) (r' : RolloutRecord) : Prop :=
  rollback_target r = Ok (e.(ev_kind), e.(ev_plan))
  /\ r'.(ro_rollout_id) = r.(ro_rollout_id) /\ r'.(candidate_plan) = r.(candidate_plan)
  /\ r'.(ro_phase) = RolloutPhase.RolledBack /\ r'.(rollback_revision) = Some e.(ev_revision)
  /\ r'.(rollback_generation) = Some e.(event_sha256).

Lemma activated_in_step r es :
  r.(ro_phase) = RolloutPhase.Activated -> recover_rollout_checkpoint r (last es) = Ok (r, false) ->
  exists x, last es = Some x /\ r.(activated_revision) = Some x.(ev_revision)
    /\ r.(activated_generation) = Some x.(event_sha256).
Proof.
  intros Hph. unfold recover_rollout_checkpoint, ensure_matches_activation. rewrite Hph.
  destruct (matches_rollback r (last es)); [destruct (last es); cbn [ok_or]; [|done]; by destruct (refresh_record _)|].
  destruct (last es) as [x|]; [|done]. cbn [is_some_and]. destruct (_ && _) eqn:Hg; [|done]. intros _. split_guard.
  by exists x.
Qed.

(** The plan of a rollback belongs to the stack. *)
Lemma rollback_target_stack r kind plan p :
  record_ok r -> rollback_target r = Ok (kind, plan) -> plan = Some p -> p.(sp_stack) = r.(ro_stack).
Proof.
  intros Hok Hr ->. pose proof (rk_previous r Hok) as Hv. revert Hr Hv. unfold rollback_target, validate_previous.
  destruct (previous_state r) as [[]|]; [| |done|done];
    (destruct (previous_plan r) as [q|]; [|done]; cbn [ok_or]; intros [= _ ->];
     destruct (previous_revision r), (previous_generation r); try done; (destruct (_ && _); [|done]);
     destruct (validate_plan p) as [[]|]; [|done]; pass Hs; intros _; split_guard; done).
Qed.

Lemma matches_rollback_target r e x :
  rollback_target r = Ok (e.(ev_kind), e.(ev_plan)) -> r.(activated_generation) = Some x ->
  e.(previous_event_sha256) = x -> matches_rollback r (Some e) = true.
Proof.
  unfold rollback_target, matches_rollback. intros Ht -> <-. cbn [default from_option id].
  rewrite bool_decide_eq_true_2 by done. cbn [negb].
  destruct (previous_state r) as [[]|]; try (destruct (previous_plan r); [|done]); cbn [ok_or] in Ht;
    injection Ht as <-; try match goal with H : _ = ev_plan _ |- _ => rewrite <- H end;
    rewrite ?bool_decide_eq_true_2 by done; done.
Qed.

Lemma rollback_tail_triple stack es c r clock now_ms d0 :
  (forall kind plan e, rollback_target r = Ok (kind, plan) -> next_event clock (last es) kind plan = Ok e ->
     event_fits r now_ms e (fun t => with_rollback (with_phase r RolloutPhase.RolledBack t) e)) ->
  state stack es (Some c) d0 ->
  parse_rollout c = Ok r -> r.(ro_stack) = stack -> r.(ro_phase) = RolloutPhase.Activated ->
  recover_rollout_checkpoint r (last es) = Ok (r, false) -> ensure_time_advances r now_ms = Ok tt ->
  triple (state stack es (Some c))
    (do? (kind, plan) := lift (rollback_target r) in
     do? event := lift (next_event clock (last es) kind plan) in
     append event ;;?
     do? record := lift (refresh_record (with_rollback (with_phase r RolloutPhase.RolledBack now_ms) event)) in
     write_rollout_file (rollout_file stack) record ;;? ret record)
    (fun res => settled stack es r (rollback_of r) (match res with Ok x => Some x | Err _ => None end))
    (settled stack es r (rollback_of r) None).
Proof.
  intros Hfits [Hj0 _] Hparse Hst Hph Hrec Htime.
  pose proof (proj1 (proj1 (validate_record_iff r) (parse_valid _ _ Hparse))) as Hok.
  destruct (activated_in_step r es Hph Hrec) as (x & Hlast & Harev & Hagen).
  destruct (journal_revision _ _ _ _ Hj0 Hlast) as [Hxrev Hxst].
  apply lift_bind; [intros y d; by apply settled_unchanged|]. intros [kind plan] Htgt.
  apply lift_bind; [intros y d; by apply settled_unchanged|]. intros e He. destruct (Hfits kind plan e Htgt He) as [Hfit Hfit'].
  unfold next_event in He. rewrite Hlast in He. cbn [from_option] in He.
  destruct (match sp_stack <$> plan with Some s => Some s | None => ev_stack <$> Some x end) as [s|] eqn:Hs; [|done].
  assert (s = stack) as ->.
  { destruct plan as [p|]; cbn in Hs; injection Hs as <-; [|done].
    by rewrite (rollback_target_stack r kind (Some p) p Hok Htgt eq_refl). }
  cbn [ok_or] in He. apply new_event_inv in He as (Hv & Hrev & Hes & Hkind & Hpe & Hplan). subst kind plan.
  assert (e.(ev_revision) <= u64_max) as Hmax
    by (rewrite Hrev; unfold MAX_ENGINE_EVENTS_PER_STACK, u64_max in *; lia).
  assert (forall t, r.(ro_created_at_ms) <= t -> record_ok (with_rollback (with_phase r RolloutPhase.RolledBack t) e)) as Hnew.
  { intros t Ht. apply rollback_record_ok; try done; [by left|]. intros a Ha. congruence. }
  pose proof (rk_updated r Hok) as Hupd.
  eapply triple_weaken.
  - apply (transition_triple stack es c r e (fun t => with_rollback (with_phase r RolloutPhase.RolledBack t) e)
             now_ms (N.max r.(ro_updated_at_ms) e.(created_at_ms))); try done.
    + unfold recover_rollout_checkpoint. rewrite Hph. by rewrite (matches_rollback_target r e _ Htgt Hagen Hpe).
    + apply Hnew. unfold ensure_time_advances in Htime. destruct (_ || _) eqn:Hg; [done|]. split_guard. lia.
    + apply Hnew. lia.
  - done.
  - intros res d. apply settled_weaken. intros e' r' (-> & t & sha & ->). by split_and!.
  - intros d. apply settled_weaken. intros e' r' (-> & t & sha & ->). by split_and!.
Qed.

(** ** Theorems *)
Definition returned {A : Type} (out : outcome A) : option A :=
  match out with Done (Ok x) => Some x | _ => None end.

Lemma triple_settled stack es c r P (m : IO RolloutRecord) w w' out :
  state stack es (Some c) (disk w) -> m w = (w', out) ->
  triple (state stack es (Some c)) m
    (fun res => settled stack es r P (match res with Ok x => Some x | Err _ => None end)) (settled stack es r P None) ->
  settled stack es r P (returned out) (disk w').
Proof. intros Hs Hrun Ht. specialize (Ht w Hs). rewrite Hrun in Ht. by destruct out as [[x|e]|]. Qed.


(** Rollback of an activated rollout is a transaction in the same way: it
    leaves the activated record and its journal, or one event that restores the
    previous generation (Apply or Stop of the previous plan, or Remove) with
    the rolled-back record of exactly that event. *)
Theorem rollback_survives_crash (w w' : World) (out : outcome RolloutRecord) (clock : result string N)
    (stack rid : string) (now_ms : N) (es : list EngineEvent) (c : bytes) (r : RolloutRecord)
    (Hstate : state stack es (Some c) w.(disk)) (Hparse : parse_rollout c = Ok r)
    (Hstack : r.(ro_stack) = stack) (Hphase : r.(ro_phase) = RolloutPhase.Activated)
    (Hfits : forall kind plan e, rollback_target r = Ok (kind, plan) -> next_event clock (last es) kind plan = Ok e ->
       event_fits r now_ms e (fun t => with_rollback (with_phase r RolloutPhase.RolledBack t) e))
    (Hstep : recover_rollout_checkpoint r (last es) = Ok (r, false))
    (Hrun : rollback_rollout clock stack rid now_ms w = (w', out)) :
  settled stack es r (rollback_of r) (returned out) w'.(disk).
Proof.
  apply (triple_settled _ _ c _ _ _ w w' out Hstate Hrun). unfold rollback_rollout.
  assert (forall d, state stack es (Some c) d -> settled stack es r (rollback_of r) None d) as Hsame
    by (intros d; by apply settled_unchanged).
  apply (reads_bind _ _ _ _ _ r); [by apply reads_require|done|done|]. rewrite Hphase.
  apply lift_bind; [done|]. intros [] Htime.
  apply (reads_bind _ _ _ _ _ (last es)); [apply reads_latest|done|done|].
  apply lift_bind; [done|]. intros _ _. by apply (rollback_tail_triple stack es c r clock now_ms (disk w)).
Qed.

(** The three operations that a rollout must fence off. *)
Inductive DesiredChange := ChangeApply (plan : StackPlan) (allow_insecure : bool) | ChangeStop | ChangeRemove.
Definition change_desired (clock : result string N) (stack : string) (change : DesiredChange) : IO ApplyReport :=
  match change with
  | ChangeApply plan allow_insecure => apply_stack clock plan allow_insecure
  | ChangeStop => stop_stack clock stack
  | ChangeRemove => remove_stack clock stack
  end.

(** C3: An active rollout fences the desired state: while the checkpoint is
    prepared or activated and in step with the journal, [apply], [stop] and
    [remove] never succeed, and whatever happens to their system calls they
    leave the journal and the checkpoint as they were. *)
Theorem active_rollout_fences (w w' : World) (out : outcome ApplyReport) (clock : result string N)
    (stack : string) (change : DesiredChange) (es : list EngineEvent) (c : bytes) (r : RolloutRecord)
    (Hstate : state stack es (Some c) w.(disk)) (Hparse : parse_rollout c = Ok r)
    (Hstack : r.(ro_stack) = stack) (Hactive : active r = true)
    (Hstep : recover_rollout_checkpoint r (last es) = Ok (r, false))
    (Hplan : forall plan b, change = ChangeApply plan b -> plan.(sp_stack) = stack)
    (Hrun : change_desired clock stack change w = (w', out)) :
  state stack es (Some c) w'.(disk) /\ returned out = None.
Proof.
  assert (forall (A : Type) (k : unit -> IO A), triple (state stack es (Some c)) (bind (ensure_no_active_rollout stack) k)
    (fun res d => state stack es (Some c) d /\ is_ok res = false) (state stack es (Some c))) as Hfence.
  { intros B k. apply (triple_bind _ _ _ (fun _ _ => False)); [|by intros u w0].
    unfold ensure_no_active_rollout. apply (reads_bind _ _ _ _ _ (Some r)); [by apply reads_rollout|done|done|].
    cbn [is_some_and]. rewrite Hactive. by apply triple_fail. }
  enough (triple (state stack es (Some c)) (change_desired clock stack change)
    (fun res d => state stack es (Some c) d /\ is_ok res = false) (state stack es (Some c))) as Ht.
  { specialize (Ht w Hstate). rewrite Hrun in Ht. destruct out as [[x|e]|]; [by destruct Ht as [_ [=]]|by destruct Ht|done]. }
  destruct change as [plan b| |]; [|apply Hfence|apply Hfence]. cbn [change_desired]. unfold apply_stack.
  apply lift_bind; [done|]. intros _ _. rewrite (Hplan plan b eq_refl). apply Hfence.
Qed.

(** ** An undisturbed reader *)
Lemma bind_pid {A B : Type} (m : IO A) (k : A -> IO B) w :
  (forall w, process_id (m w).1 = process_id w) -> (forall a w, process_id (k a w).1 = process_id w) ->
  process_id (bind m k w).1 = process_id w.
Proof. intros Hm Hk. unfold bind. specialize (Hm w). destruct (m w) as [w' [[a|e]|]]; [by rewrite Hk|done|done]. Qed.
Lemma syscall_pid {A : Type} step torn w : process_id (@syscall A step torn w).1 = process_id w.
Proof. unfold syscall. destruct (fates w) as [|[]]; try done; by destruct (step (disk w)) as [[]|]. Qed.
Lemma recover_pid {A : Type} (parse : bytes -> result string A) path w :
  process_id (recover_file parse path w).1 = process_id w.
Proof.
  unfold recover_file. repeat (apply bind_pid; [done|intros ?]; clear w; intros w).
  destruct (_ && _); [|destruct (_ && _); [|done]];
    repeat (apply bind_pid; [try done; intros; apply syscall_pid|intros ?]; clear w; intros w); apply syscall_pid.
Qed.

Lemma recover_unchanged r current r1 : recover_rollout_checkpoint r current = Ok (r1, false) -> r1 = r.
Proof.
  unfold recover_rollout_checkpoint. destruct (ro_phase r); [| |by intros [= <-]..].
  - destruct (matches_candidate _ _); [destruct current; cbn [ok_or]; [|done]; by destruct (refresh_record _)|].
    by destruct (ensure_matches_previous _ _); [intros [= <-]|].
  - destruct (matches_rollback _ _); [destruct current; cbn [ok_or]; [|done]; by destruct (refresh_record _)|].
    by destruct (ensure_matches_activation _ _); [intros [= <-]|].
Qed.
Lemma refresh_record_valid r r1 : refresh_record r = Ok r1 -> validate_record r1 = Ok tt.
Proof.
  unfold refresh_record. cbn zeta. destruct (record_computed_sha256 _); [|done].
  destruct (validate_record _) as [[]|] eqn:Hv; [|done]. by intros [= <-].
Qed.
Lemma recover_changed r current r1 : recover_rollout_checkpoint r current = Ok (r1, true) -> validate_record r1 = Ok tt.
Proof.
  unfold recover_rollout_checkpoint. destruct (ro_phase r); [| |done..].
  - destruct (matches_candidate _ _); [|by destruct (ensure_matches_previous _ _)]. destruct current; cbn [ok_or]; [|done].
    destruct (refresh_record _) eqn:H; [|done]. intros [= <-]. by eapply refresh_record_valid.
  - destruct (matches_rollback _ _); [|by destruct (ensure_matches_activation _ _)]. destruct current; cbn [ok_or]; [|done].
    destruct (refresh_record _) eqn:H; [|done]. intros [= <-]. by eapply refresh_record_valid.
Qed.

(** No temporary file of this process is left behind in the stack directory. *)
Definition no_stale (stack : string) (w : World) : Prop :=
  forall s, read_path w.(disk) (stack_dir stack, temporary_name ".runtime-status-" w.(process_id) s) = None.

Lemma recover_rollout_clean stack es v w :
  w.(fates) = [] -> state stack es v w.(disk) -> no_stale stack w ->
  (forall c, v = Some c -> is_ok (parse_rollout c) = true) ->
  exists w', recover_rollout_file (rollout_file stack) w = (w', Done (Ok tt)) /\ w'.(fates) = []
    /\ state stack es v w'.(disk) /\ no_stale stack w' /\ read_path w'.(disk) (rollout_file stack) = v
    /\ read_path w'.(disk) (backup_of (rollout_file stack)) = None.
Proof.
  intros Hf Hs Hfree Hok. pose proof (recover_triple parse_rollout (rollout_file stack) (disk w) w eq_refl) as Hsame.
  pose proof (recover_rollout_triple stack es v w Hs) as Hst. unfold recover_rollout_file in *.
  pose proof (recover_pid parse_rollout (rollout_file stack) w) as Hpid.
  destruct (recover_clean parse_rollout (rollout_file stack) w Hf) as (w1 & Hrun & Hf1 & Hread & Hback).
  { intros c Hc. apply Hok. by rewrite <- Hc, (proj2 Hs). }
  rewrite Hrun in *. cbn [fst] in Hpid. destruct Hsame as [(_ & Hsame & _) _], Hst as [Hs1 _].
  rewrite (proj2 Hs) in Hread. exists w1. split_and!; try done; [apply Hs1..|].
  intros s. destruct (plain_not_staged ".runtime-status-" (rollout_file stack)
    (stack_dir stack, temporary_name ".runtime-status-" (process_id w) s) eq_refl (plain_rollout stack)
    (temporary_staged _ _ _)). rewrite Hpid, Hsame by done. apply Hfree.
Qed.

Lemma write_rollout_clean stack es v r w :
  w.(fates) = [] -> state stack es v w.(disk) -> no_stale stack w -> is_Some (w.(disk) !! stack_dir stack) ->
  read_path w.(disk) (backup_of (rollout_file stack)) = None -> validate_record r = Ok tt -> fits r ->
  exists w' c, write_rollout_file (rollout_file stack) r w = (w', Done (Ok tt))
    /\ parse_rollout c = Ok r /\ state stack es (Some c) w'.(disk).
Proof.
  intros Hf Hs Hfree Hdir Hback Hval Hfit. pose proof (write_rollout_triple stack es v r w Hs) as Ht.
  destruct (record_encodes r Hval Hfit) as [b Hb].
  destruct (clean_write_replace (rollout_file stack) b (plain_rollout stack) w Hf) as (w' & [] & Hrun & _ & _);
    [split_and!; [done|done|apply Hfree]|].
  unfold write_rollout_file, bind, lift in Ht |- *. rewrite Hb, Hrun in *. destruct Ht as (c & Hp & Hst). by exists w', c.
Qed.

(** C2: Recovery succeeds: with system calls that succeed and no stale
    temporary file under the process id, [rollout] returns the record the pair
    of files stands for (the checkpoint brought in step with the journal),
    leaves the journal as it was, and that record is then the one on disk. *)
Theorem recovery_settles (w : World) (stack : string) (es : list EngineEvent) (v : option bytes)
    (x : option RolloutRecord)
    (Hfates : w.(fates) = []) (Hname : valid_name stack = true) (Hstate : state stack es v w.(disk))
    (Hfree : no_stale stack w)
    (Hcheck : checkpoint stack es v = Ok x) (Hfits : forall r, x = Some r -> fits r) :
  exists w', rollout stack w = (w', Done (Ok x)) /\ journal stack es w'.(disk)
    /\ match x with
       | None => visible w'.(disk) (rollout_file stack) = None
       | Some r => exists c, visible w'.(disk) (rollout_file stack) = Some c /\ parse_rollout c = Ok r
       end.
Proof.
  destruct (recover_rollout_clean stack es v w Hfates Hstate Hfree) as (w1 & Hrun & Hf1 & Hs1 & Hfree1 & Hread & Hback).
  { intros c ->. unfold checkpoint in Hcheck. by destruct (parse_rollout c). }
  unfold rollout. rewrite Hname. cbn [negb when]. unfold bind at 1. unfold when, ret at 1. cbn zeta.
  unfold bind at 1. rewrite Hrun. unfold bind at 1. unfold exists_file at 1. rewrite Hread.
  destruct v as [c|]; cbn [is_some is_none negb].
  2:{ injection Hcheck as <-. exists w1. split; [done|]. by destruct Hs1. }
  unfold bind at 1. unfold read_rollout_file at 1. unfold bind at 1. unfold read_file at 1. rewrite Hread. cbn [ok_or].
  unfold lift at 1. unfold checkpoint in Hcheck. destruct (parse_rollout c) as [r|] eqn:Hparse; [|done].
  destruct (bool_decide_reflect (ro_stack r = stack)) as [Hrs|]; cbn [negb] in Hcheck; [|done].
  cbn [negb]. unfold bind at 1. unfold ret at 1.
  unfold bind at 1. rewrite Hrs. unfold latest, events, bind, when, lift, read_disk. rewrite Hname. cbn [negb].
  unfold ret at 1. pose proof Hs1 as [[n Hn] Hv1]. rewrite Hn. unfold ret at 1.
  destruct (recover_rollout_checkpoint r (last es)) as [[r1 []]|] eqn:Hrec; [| |done]; injection Hcheck as <-.
  2:{ apply recover_unchanged in Hrec as ->. exists w1. split; [done|]. split; [by exists n|]. by exists c. }
  apply recover_changed in Hrec.
  destruct (write_rollout_clean stack es (Some c) r1 w1) as (w2 & c2 & Hw & Hp2 & Hs2 & Hv2); try done; [|by apply Hfits|].
  { exact (read_Some_dir (disk w1) (rollout_file stack) c Hread). }
  rewrite Hw. exists w2. split; [done|]. split; [done|]. by exists c2.
Qed.
End Pair.

(** ** Concrete stores *)
Section Witnesses.
#[local] Existing Instance demo_externals.
#[local] Instance plan_json : Json StackPlan := demo_json.
#[local] Instance identity_json : Json RolloutIdentity := demo_json.

(** Three generations of a stack; the third restores the first. *)
Definition event_three : EngineEvent := draft_event 3 (sum_of 1) (sum_of 2).
Definition store_events : list EngineEvent :=
  [draft_event 1 "" ""; draft_event 2 (sum_of 0) ""; draft_event 3 (sum_of 1) ""; event_one; event_two; event_three].
#[local] Instance store_event_json : Json EngineEvent := table_json store_events.
#[local] Instance store_event_decode : JsonDecode EngineEvent := table_decode store_events.
#[local] Instance store_event_round_trip : JsonRoundTrip EngineEvent := table_round_trip store_events.

Definition shop_plan : StackPlan := demo_plan OnFailure None.
(** A record in the place of the first generation by the second, sealed with
    the checksum of the table entry [sha]. *)
Definition shop_record (phase : RolloutPhase) (updated : N) (rolled : bool) (report : option string) (sha : string) :
    RolloutRecord :=
  let activated := negb (bool_decide (phase = RolloutPhase.Prepared)) in
  mkRollout 1 (hex_sha256 []) "shop" phase 8 updated (Some 1) (Some (sum_of 0)) (Some EngineStackState.Applied)
    (Some shop_plan) shop_plan
    (if activated then Some 2 else None) (if activated then Some (sum_of 1) else None)
    (if rolled then Some 3 else None) (if rolled then Some (sum_of 2) else None) report sha.
Definition prepared sha := shop_record RolloutPhase.Prepared 8 false None sha.
Definition activated t sha := shop_record RolloutPhase.Activated t false None sha.
Definition rolled_back t report sha := shop_record RolloutPhase.RolledBack t true report sha.
Definition committed sha := shop_record RolloutPhase.Committed 9 false (Some zero_digest) sha.
Definition store_records : list RolloutRecord :=
  [prepared ""; activated 8 ""; activated 9 ""; rolled_back 9 None ""; rolled_back 10 None "";
   committed ""; rolled_back 10 (Some zero_digest) "";
   prepared (sum_of 0); activated 8 (sum_of 1); activated 9 (sum_of 2); rolled_back 9 None (sum_of 3);
   rolled_back 10 None (sum_of 4); committed (sum_of 5); rolled_back 10 (Some zero_digest) (sum_of 6)].
#[local] Instance store_record_json : Json RolloutRecord := table_json store_records.
#[local] Instance store_record_decode : JsonDecode RolloutRecord := table_decode store_records.
#[local] Instance store_record_round_trip : JsonRoundTrip RolloutRecord := table_round_trip store_records.

#[local] Instance store_unlinked : EventsUnlinked.
Proof.
  intros e Hv. unfold validate_event in Hv. revert Hv. pass Hg. unfold event_computed_sha256.
  destruct (to_vec (with_event_sha256 e "")) as [b|] eqn:Hb; [|done]. pass Hs. intros _ Heq. split_guard.
  apply from_slice_to_vec in Hb.
  assert (forall x, from_slice b = Ok x -> x.(previous_event_sha256) <> hex_sha256 b) as Hall.
  { clear. intros x. unfold from_slice, store_event_decode, table_decode. destruct b as [|b []]; [done| |done].
    destruct (store_events !! N.to_nat (Byte.to_N b)) as [y|] eqn:Hy; [|done]. intros [= <-]. revert Hy.
    destruct b; vm_compute; intros [= <-]; discriminate. }
  apply (Hall _ Hb). cbn [previous_event_sha256 with_event_sha256]. congruence.
Qed.

Definition event_content (n : N) : bytes := [default x00 (Byte.of_N (n + 2))].
Definition store_disk (count record : N) : gmap string Directory :=
  {[ "stacks" := ∅;
     "stacks/shop" := {[ "rollout.json" := [default x00 (Byte.of_N record)] ]};
     "stacks/shop/events" :=
       list_to_map ((fun n => (event_file_name n, event_content n)) <$> (N.of_nat <$> seq 1 (N.to_nat count))) ]}.
(** A world whose process dies in the fourth system call that changes files. *)
Definition doomed (count record : N) : World := mkWorld (store_disk count record) 0 7 [Succeeds; Succeeds; Succeeds; Dies 0].

Lemma shop_state1 : state "shop" [event_one] (Some [x07]) (disk (doomed 1 7)).
Proof. split; [exists 1|]; vm_compute; reflexivity. Qed.
Lemma shop_state2 : state "shop" [event_one; event_two] (Some [x09]) (disk (doomed 2 9)).
Proof. split; [exists 2|]; vm_compute; reflexivity. Qed.

Lemma encoded_fits r b : to_vec r = Ok b -> (len b <=? MAX_ROLLOUT_BYTES) = true -> fits r.
Proof. intros Hb Hl. exists b. split; [done|]. by apply N.leb_le. Qed.


(** The process dies with the rollback event in the journal and the activated
    checkpoint beside it. *)
Lemma rollback_survives_crash_witness :
  (rollback_rollout (Ok 7) "shop" (hex_sha256 []) 10 (doomed 2 9)).2 = Died
  /\ settled "shop" [event_one; event_two] (activated 9 (sum_of 2)) (rollback_of (activated 9 (sum_of 2))) None
       (disk (rollback_rollout (Ok 7) "shop" (hex_sha256 []) 10 (doomed 2 9)).1).
Proof.
  assert ((rollback_rollout (Ok 7) "shop" (hex_sha256 []) 10 (doomed 2 9)).2 = Died) as Hdied by (vm_compute; reflexivity).
  split; [exact Hdied|].
  refine (rollback_survives_crash (doomed 2 9) _ Died (Ok 7) "shop" (hex_sha256 []) 10 [event_one; event_two] [x09]
    (activated 9 (sum_of 2)) shop_state2 _ eq_refl eq_refl _ _ _); [vm_compute; reflexivity| |vm_compute; reflexivity|].
  - intros kind plan e Ht He. injection Ht as <- <-.
    assert (e = event_three) as -> by (vm_compute in He; injection He as <-; reflexivity).
    split; (eapply encoded_fits; [vm_compute; reflexivity|reflexivity]).
  - rewrite <- Hdied. apply surjective_pairing.
Defined.

Lemma active_rollout_fences_witness :
  state "shop" [event_one; event_two] (Some [x09])
    (disk (change_desired (Ok 11) "shop" ChangeRemove (doomed 2 9)).1)
  /\ returned (change_desired (Ok 11) "shop" ChangeRemove (doomed 2 9)).2 = None.
Proof.
  refine (active_rollout_fences (doomed 2 9) _ _ (Ok 11) "shop" ChangeRemove [event_one; event_two] [x09]
    (activated 9 (sum_of 2)) shop_state2 _ eq_refl eq_refl _ _ (surjective_pairing _));
    [vm_compute; reflexivity..|discriminate].
Defined.

(** The next reader of the activation that died finds the event and completes
    the checkpoint. *)
Definition restarted : World :=
  mkWorld (disk (activate_rollout (Ok 7) "shop" (hex_sha256 []) 9 (doomed 1 7)).1) 0 8 [].
Lemma recovery_settles_witness :
  exists w', rollout "shop" restarted = (w', Done (Ok (Some (activated 8 (sum_of 1)))))
    /\ journal "shop" [event_one; event_two] w'.(disk).
Proof.
  destruct (recovery_settles restarted "shop" [event_one; event_two] (Some [x07]) (Some (activated 8 (sum_of 1))))
    as (w' & Hrun & Hj & _).
  - reflexivity.
  - vm_compute; reflexivity.
  - split; [exists 2|]; vm_compute; reflexivity.
  - intros s. unfold read_path. cbn [fst snd].
    replace (disk restarted !! stack_dir "shop") with (Some ({[ "rollout.json" := [x07] ]} : Directory))
      by (vm_compute; reflexivity).
    apply lookup_singleton_ne. intros H. discriminate H.
  - vm_compute; reflexivity.
  - intros r [= <-]. eapply encoded_fits; [vm_compute; reflexivity|reflexivity].
  - exists w'. split; [exact Hrun|exact Hj].
Defined.

(** The rollback of a committed rollout is not recoverable: when the process
    dies between the rollback event and the checkpoint, the checkpoint stays
    committed on every later read, and a second rollback is refused, although
    the journal already holds the restored generation. *)
Theorem committed_rollback_is_lost :
  let died := rollback_rollout (Ok 7) "shop" (hex_sha256 []) 10 (doomed 2 12) in
  let restarted := mkWorld (disk died.1) 0 8 [] in
  died.2 = Died
  /\ (events "shop" restarted).2 = Done (Ok [event_one; event_two; event_three])
  /\ (rollout "shop" restarted).2 = Done (Ok (Some (committed (sum_of 5))))
  /\ (rollback_rollout (Ok 7) "shop" (hex_sha256 []) 10 restarted).2
     = Done (Err "desired state no longer matches the activated rollout").
Proof. vm_compute. repeat split. Qed.
End Witnesses.
