(* ===== verification/Routing.v ===== *)
(** * Routing tables ([crates/cartridge-engine/src/routing.rs])

    The routes of a stack: its replicas that are running and ready, of every
    generation that may serve, as the rollout in progress allows.  A table is
    published to a file under a sequence number and read back only while it
    still matches the authoritative state. *)
From S2P Require Import Prelude Text Core Rolling Plan Supervisor Events Health Files Rollout Progress Store.

Definition ENGINE_ROUTING_FORMAT_VERSION : N := 1.
Definition MAX_ENGINE_ROUTING_BYTES : N := 1024 * 1024.

Record RouteTarget := mkRoute {
  rt_instance : string;
  rt_ordinal : N;
  rt_revision : N;
  rt_generation : string;
  rt_run_id : string;
  rt_ready_at_ms : N;
}.
#[global] Instance route_target_eq_dec : EqDecision RouteTarget.
Proof. solve_decision. Defined.

Record RoutingSnapshot := mkRouting {
  rs_format_version : N;
  rs_stack : string;
  routing_epoch : string;
  rs_sequence : N;
  published_at_ms : N;
  rs_rollout_id : option string;
  rs_targets : list RouteTarget;
  routing_sha256 : string;
}.
#[global] Instance routing_snapshot_eq_dec : EqDecision RoutingSnapshot.
Proof. solve_decision. Defined.

(** ** The derived [Ord] of [RouteTarget] *)
Definition then_compare (c d : comparison) : comparison := match c with Eq => d | _ => c end.
Definition target_compare (a b : RouteTarget) : comparison :=
  then_compare (String.compare a.(rt_instance) b.(rt_instance))
  (then_compare (a.(rt_ordinal) ?= b.(rt_ordinal))
  (then_compare (a.(rt_revision) ?= b.(rt_revision))
  (then_compare (String.compare a.(rt_generation) b.(rt_generation))
  (then_compare (String.compare a.(rt_run_id) b.(rt_run_id))
     (a.(rt_ready_at_ms) ?= b.(rt_ready_at_ms)))))).
Definition target_le (a b : RouteTarget) : Prop := target_compare a b <> Gt.
#[global] Instance target_le_dec : RelDecision target_le.
Proof. intros a b. unfold target_le. apply _. Defined.
(** [value >= target] *)
Definition target_ge (a b : RouteTarget) : bool :=
  match target_compare a b with Lt => false | _ => true end.

(** ** Validation *)
Definition validate_route (self : RouteTarget) : result string unit :=
  if negb (valid_name self.(rt_instance)) || (self.(rt_ordinal) =? 0)
     || (MAX_STACK_REPLICAS <? self.(rt_ordinal)) || (self.(rt_revision) =? 0)
     || negb (is_digest self.(rt_generation)) || negb (is_digest self.(rt_run_id))
     || (self.(rt_ready_at_ms) =? 0)
  then Err "routing target identity is invalid" else Ok tt.

Fixpoint check_routes (previous : option RouteTarget) (identities : gset (string * string * N))
    (targets : list RouteTarget) : result string unit :=
  match targets with
  | [] => Ok tt
  | target :: targets =>
      let? _ := validate_route target in
      let identity := (target.(rt_generation), target.(rt_instance), target.(rt_ordinal)) in
      if is_some_and (fun value => target_ge value target) previous || bool_decide (identity ∈ identities)
      then Err "routing targets are not strictly sorted"
      else check_routes (Some target) ({[identity]} ∪ identities) targets
  end.

Definition with_routing_sha256 (self : RoutingSnapshot) (sha : string) : RoutingSnapshot :=
  mkRouting self.(rs_format_version) self.(rs_stack) self.(routing_epoch) self.(rs_sequence)
    self.(published_at_ms) self.(rs_rollout_id) self.(rs_targets) sha.
Definition with_targets (self : RoutingSnapshot) (targets : list RouteTarget) : RoutingSnapshot :=
  mkRouting self.(rs_format_version) self.(rs_stack) self.(routing_epoch) self.(rs_sequence)
    self.(published_at_ms) self.(rs_rollout_id) targets self.(routing_sha256).

(** ** Controls *)
Module RoutingControls.
Inductive RoutingControls := All | Only (values : gset ReplicaId) | Except (values : gset ReplicaId) | Nothing.
End RoutingControls.
Abbreviation RoutingControls := RoutingControls.RoutingControls.

Definition route_candidates (self : RolloutProgress) : gset ReplicaId :=
  list_to_set (mbind (fun i => mkReplicaId i.(ip_name) <$> set_iter i.(candidate_enabled)) self.(rp_instances)).
Definition route_draining (self : RolloutProgress) : gset ReplicaId :=
  list_to_set (mbind (fun i => mkReplicaId i.(ip_name) <$> (map_to_list i.(previous_draining)).*1) self.(rp_instances)).

Definition live_phase (phase : RolloutExecutionPhase) : bool :=
  match phase with
  | RolloutExecutionPhase.Rolling | RolloutExecutionPhase.Paused | RolloutExecutionPhase.Completing => true
  | _ => false
  end.
Definition routing_controls (role : GenerationRole) (progress : option RolloutProgress) : RoutingControls :=
  match role with
  | GenerationRole.Desired => RoutingControls.All
  | GenerationRole.RolloutCandidate =>
      match progress with
      | None => RoutingControls.Nothing
      | Some p => if live_phase p.(rp_phase) then RoutingControls.Only (route_candidates p) else RoutingControls.Nothing
      end
  | GenerationRole.RolloutPrevious =>
      match progress with
      | None => RoutingControls.All
      | Some p => if live_phase p.(rp_phase) then RoutingControls.Except (route_draining p) else RoutingControls.All
      end
  end.
Definition matches_controls (controls : RoutingControls) (id : ReplicaId) : bool :=
  match controls with
  | RoutingControls.All => true
  | RoutingControls.Only values => bool_decide (id ∈ values)
  | RoutingControls.Except values => negb (bool_decide (id ∈ values))
  | RoutingControls.Nothing => false
  end.

(** The time a running replica became ready, if it is. *)
Definition replica_ready_at (replica : ReplicaRuntime) : option N :=
  match replica.(probe) with
  | Some probe => if bool_decide (probe.(probe_phase) = ProbePhase.Ready) then probe.(ready_at_ms) else None
  | None => replica.(started_at_ms)
  end.

Fixpoint append_ready_targets (targets : list RouteTarget) (generation : GenerationTarget)
    (controls : RoutingControls) (replicas : list ReplicaRuntime) : result string (list RouteTarget) :=
  match replicas with
  | [] => Ok targets
  | replica :: replicas =>
      if negb (bool_decide (replica.(desired) = DesiredState.Running))
         || negb (phase_is replica ReplicaPhase.Running) || negb (matches_controls controls replica.(id))
      then append_ready_targets targets generation controls replicas
      else
        let? run_id := ok_or replica.(run_id) "ready routing replica has no run identity" in
        match replica_ready_at replica with
        | None => append_ready_targets targets generation controls replicas
        | Some ready_at_ms =>
            append_ready_targets
              (targets ++ [mkRoute replica.(id).(instance) replica.(id).(ordinal) generation.(gt_revision)
                             generation.(gt_generation) run_id ready_at_ms])
              generation controls replicas
        end
  end.

Definition routes_file (stack : string) : Path := (stack_dir stack, "routes.json").

Section Routing.
Context `{Ext : Externals} `{JP : !Json StackPlan} `{JS : !Json StackRuntimeStatus} `{JE : !Json EngineEvent}
  `{JH : !Json StackHealthReport} `{JI : !Json RolloutIdentity} `{JRo : !Json RolloutRecord}
  `{JPr : !Json RolloutProgress} `{DE : !JsonDecode EngineEvent} `{DS : !JsonDecode StackRuntimeStatus}
  `{DRo : !JsonDecode RolloutRecord} `{DPr : !JsonDecode RolloutProgress}
  `{JRs : !Json RoutingSnapshot} `{DRs : !JsonDecode RoutingSnapshot}.

Definition routing_computed_sha256 (self : RoutingSnapshot) : result string string :=
  let? bytes := to_vec (with_routing_sha256 self "") in
  Ok (hex_sha256 bytes).

Definition validate_routing (self : RoutingSnapshot) : result string unit :=
  if negb (self.(rs_format_version) =? ENGINE_ROUTING_FORMAT_VERSION)
     || negb (valid_name self.(rs_stack)) || negb (is_digest self.(routing_epoch))
     || (self.(rs_sequence) =? 0) || (self.(published_at_ms) =? 0)
     || is_some_and (fun rollout_id => negb (is_digest rollout_id)) self.(rs_rollout_id)
     || (MAX_STACK_TOTAL_ACTIVE_REPLICAS <? len self.(rs_targets))
     || negb (is_digest self.(routing_sha256))
  then Err "routing snapshot identity is invalid"
  else
    let? computed := routing_computed_sha256 self in
    if negb (bool_decide (computed = self.(routing_sha256))) then Err "routing snapshot identity is invalid"
    else check_routes None ∅ self.(rs_targets).

Definition refresh_routing (self : RoutingSnapshot) : result string RoutingSnapshot :=
  let self := with_targets self (merge_sort target_le self.(rs_targets)) in
  let? sha := routing_computed_sha256 self in
  let self := with_routing_sha256 self sha in
  let? _ := validate_routing self in
  Ok self.

(** ** Files *)
Definition parse_routing : bytes -> result string RoutingSnapshot :=
  parse_bounded MAX_ENGINE_ROUTING_BYTES "routing snapshot must be a bounded regular file" validate_routing.
Definition read_routing_file (path : Path) : IO RoutingSnapshot :=
  do? content := read_file path in lift (parse_routing content).
Definition write_routing_file (path : Path) (snapshot : RoutingSnapshot) : IO unit :=
  do? bytes := lift (encode_bounded validate_routing MAX_ENGINE_ROUTING_BYTES
                       "routing snapshot exceeds its byte limit" snapshot) in
  write_replace_atomic path bytes.
Definition recover_routing_file (path : Path) : IO unit := recover_file parse_routing path.

Definition remove_artifact (path : Path) : IO bool :=
  do? present := exists_file path in
  if present : bool then remove_file path ;;? ret true else ret false.
Definition reset_invalid_routing_files (path : Path) : IO unit :=
  do? first := remove_artifact path in
  do? second := remove_artifact (backup_of path) in
  if first || second then sync_parent_directory else ret tt.

Definition routing_snapshot_for_publish (path : Path) : IO (option RoutingSnapshot) :=
  do? recovered := attempt (recover_routing_file path) in
  match recovered with
  | Err error =>
      do? reset := attempt (reset_invalid_routing_files path) in
      match reset with
      | Err e => fail (error +:+ "; " +:+ e)
      | Ok _ => ret None
      end
  | Ok _ =>
      do? present := exists_file path in
      if negb present then ret None
      else
        do? read := attempt (read_routing_file path) in
        match read with
        | Ok snapshot => ret (Some snapshot)
        | Err _ => reset_invalid_routing_files path ;;? ret None
        end
  end.

(** ** The routes of a stack *)
Fixpoint route_generations (stack : string) (progress : option RolloutProgress) (targets : list RouteTarget)
    (generations : list GenerationTarget) : IO (list RouteTarget) :=
  match generations with
  | [] => ret targets
  | generation :: generations =>
      do? runtime := runtime_status_for_generation stack generation.(gt_generation) in
      match runtime with
      | None => route_generations stack progress targets generations
      | Some runtime =>
          do? targets := lift (append_ready_targets targets generation
                                 (routing_controls generation.(gt_role) progress) runtime.(replicas)) in
          route_generations stack progress targets generations
      end
  end.

Definition activated_record (record : option RolloutRecord) : option RolloutRecord :=
  match record with
  | Some r => if bool_decide (r.(ro_phase) = RolloutPhase.Activated) then Some r else None
  | None => None
  end.

Definition routing_targets (stack : string) (progress : option RolloutProgress) :
    IO (option string * list RouteTarget) :=
  do? record := rollout stack in
  let active := activated_record record in
  match progress with
  | Some progress =>
      do? active := lift (ok_or active "routing progress exists without an active rollout") in
      when (negb (bool_decide (active.(ro_rollout_id) = progress.(rp_rollout_id)))
            || negb (bool_decide (progress.(rp_stack) = stack)))
        "routing progress belongs to another rollout"
  | None => ret tt
  end ;;?
  let rollout_id := ro_rollout_id <$> active in
  do? generations := generation_targets stack in
  do? targets := route_generations stack progress [] generations in
  let targets := merge_sort target_le targets in
  when (MAX_STACK_TOTAL_ACTIVE_REPLICAS <? len targets) "routing targets exceed the aggregate replica limit" ;;?
  ret (rollout_id, targets).

Definition active_routing_progress (stack : string) : IO (option RolloutProgress) :=
  do? record := rollout stack in
  if is_some (activated_record record) then rollout_progress stack else ret None.

(** [epoch] is the value of [random::<[u8; 32]>()]. *)
Definition publish_routing_snapshot_inner (epoch : bytes) (stack : string) (progress : option RolloutProgress)
    (now_ms : N) : IO RoutingSnapshot :=
  when (negb (valid_name stack) || (now_ms =? 0)) "routing publication identity is invalid" ;;?
  status_of stack ;;?
  let path := routes_file stack in
  do? previous := routing_snapshot_for_publish path in
  do? (rollout_id, targets) := routing_targets stack progress in
  let same := match previous with
              | Some p => if bool_decide (p.(rs_rollout_id) = rollout_id) && bool_decide (p.(rs_targets) = targets)
                          then Some p else None
              | None => None
              end in
  match same with
  | Some previous => ret previous
  | None =>
      do? sequence := lift (match previous with
                            | None => Ok 1
                            | Some value => ok_or (checked_add u64_max value.(rs_sequence) 1) "routing sequence overflow"
                            end) in
      when (is_some_and (fun value => now_ms <? value.(published_at_ms)) previous)
        "routing publication time moved backwards" ;;?
      do? snapshot := lift (refresh_routing
        (mkRouting ENGINE_ROUTING_FORMAT_VERSION stack
           (match previous with None => hex_encode epoch | Some value => value.(routing_epoch) end)
           sequence now_ms rollout_id targets "")) in
      write_routing_file path snapshot ;;?
      ret snapshot
  end.

Definition publish_routing_snapshot (epoch : bytes) (stack : string) (now_ms : N) : IO RoutingSnapshot :=
  do? progress := active_routing_progress stack in
  publish_routing_snapshot_inner epoch stack progress now_ms.

Definition publish_routing_snapshot_for_progress (epoch : bytes) (progress : RolloutProgress) (now_ms : N) :
    IO RoutingSnapshot :=
  lift (validate_progress progress) ;;?
  do? record := rollout progress.(rp_stack) in
  do? record := lift (ok_or record "routing progress has no rollout checkpoint") in
  when (negb (bool_decide (record.(ro_phase) = RolloutPhase.Activated))
        || negb (bool_decide (record.(ro_rollout_id) = progress.(rp_rollout_id)))
        || negb (bool_decide (record.(previous_revision) = progress.(rp_previous_revision)))
        || negb (bool_decide (record.(previous_generation) = progress.(rp_previous_generation)))
        || negb (bool_decide (record.(activated_revision) = Some progress.(candidate_revision)))
        || negb (bool_decide (record.(activated_generation) = Some progress.(candidate_generation))))
    "routing progress does not match the active rollout" ;;?
  publish_routing_snapshot_inner epoch progress.(rp_stack) (Some progress) now_ms.

Definition routing_snapshot (stack : string) : IO (option RoutingSnapshot) :=
  when (negb (valid_name stack)) "stack name is invalid" ;;?
  status_of stack ;;?
  let path := routes_file stack in
  recover_routing_file path ;;?
  do? present := exists_file path in
  if negb present then ret None
  else
    do? snapshot := read_routing_file path in
    when (negb (bool_decide (snapshot.(rs_stack) = stack))) "routing snapshot belongs to another stack" ;;?
    do? progress := active_routing_progress stack in
    do? (rollout_id, expected) := routing_targets stack progress in
    when (negb (bool_decide (snapshot.(rs_rollout_id) = rollout_id))
          || negb (bool_decide (snapshot.(rs_targets) = expected)))
      "published routes no longer match authoritative runtime state" ;;?
    ret (Some snapshot).

Definition route_target_is_ready (stack : string) (target : RouteTarget) : IO bool :=
  lift (validate_route target) ;;?
  do? progress := active_routing_progress stack in
  do? (_, targets) := routing_targets stack progress in
  ret (bool_decide (target ∈ targets)).
End Routing.
