(* ===== verification/RoutingTheorems.v ===== *)
(** * Theorems on the routing tables

    The routes of a stack are exactly its replicas that are running, ready and
    allowed to serve by the rollout in progress; they always make a valid table;
    and a table that is read back is the current one. *)
From S2P Require Import Prelude Text Core Rolling Plan Supervisor SupervisorSpec Events Health Files Rollout Progress ProgressTheorems Store Routing.

(** ** Lexicographic comparison *)
Record compare_laws {A : Type} (f : A -> A -> comparison) : Prop := {
  cl_opp : forall a b, f b a = CompOpp (f a b);
  cl_trans : forall a b c, f a b = Lt -> f b c = Lt -> f a c = Lt;
  cl_eq : forall a b c, f a b = Eq -> f a c = f b c;
}.
Arguments cl_opp {A f}.
Arguments cl_trans {A f}.
Arguments cl_eq {A f}.

Lemma compare_refl {A : Type} (f : A -> A -> comparison) a : compare_laws f -> f a a = Eq.
Proof. intros Hf. pose proof (cl_opp Hf a a). by destruct (f a a). Qed.

Lemma lex_laws {A : Type} (f g : A -> A -> comparison) :
  compare_laws f -> compare_laws g -> compare_laws (fun a b => then_compare (f a b) (g a b)).
Proof.
  intros Hf Hg.
  assert (forall a b c, f b c = Eq -> f a b = f a c) as Heq.
  { intros a b c H. rewrite (cl_opp Hf b a), (cl_opp Hf c a). f_equal. by apply (cl_eq Hf). }
  constructor.
  - intros a b. rewrite (cl_opp Hf a b), (cl_opp Hg a b). by destruct (f a b).
  - intros a b c. destruct (f a b) eqn:Hab; cbn [then_compare]; [|intros _|done].
    + rewrite (cl_eq Hf a b c Hab). destruct (f b c); [|done..]. apply (cl_trans Hg).
    + destruct (f b c) eqn:Hbc; cbn [then_compare]; [|intros _|done].
      * by rewrite <- (Heq a b c Hbc), Hab.
      * by rewrite (cl_trans Hf a b c Hab Hbc).
  - intros a b c. destruct (f a b) eqn:Hab; cbn [then_compare]; [|done..]. intros H.
    by rewrite (cl_eq Hf a b c Hab), (cl_eq Hg a b c H).
Qed.
Lemma by_laws {A B : Type} (p : A -> B) (f : B -> B -> comparison) :
  compare_laws f -> compare_laws (fun a b => f (p a) (p b)).
Proof. intros Hf. constructor; intros *; [apply (cl_opp Hf)|apply (cl_trans Hf)|apply (cl_eq Hf)]. Qed.
Lemma N_laws : compare_laws N.compare.
Proof.
  constructor.
  - intros a b. apply N.compare_antisym.
  - intros a b c. rewrite !N.compare_lt_iff. lia.
  - intros a b c ->%N.compare_eq_iff. done.
Qed.
Lemma string_laws : compare_laws String.compare.
Proof.
  constructor.
  - intros a b. apply String.compare_antisym.
  - intros a b c H1%str_lt_compare H2%str_lt_compare. apply str_lt_compare. by eapply str_lt_trans.
  - intros a b c ->%String.compare_eq_iff. done.
Qed.

Lemma target_laws : compare_laws target_compare.
Proof.
  assert (forall p, compare_laws (fun a b : RouteTarget => String.compare (p a) (p b))) as Hs
    by (intros p; apply (by_laws p), string_laws).
  assert (forall p, compare_laws (fun a b : RouteTarget => p a ?= p b)) as Hn by (intros p; apply (by_laws p), N_laws).
  do 5 (apply lex_laws; [first [apply Hs|apply Hn]|]). apply Hn.
Qed.
Lemma target_compare_eq a b : target_compare a b = Eq <-> a = b.
Proof.
  split; [|intros ->; apply compare_refl, target_laws].
  unfold target_compare, then_compare. destruct a as [i o r g u t], b as [i' o' r' g' u' t']. cbn.
  destruct (String.compare i i') eqn:?; try done. destruct (o ?= o') eqn:?; try done. destruct (r ?= r') eqn:?; try done.
  destruct (String.compare g g') eqn:?; try done. destruct (String.compare u u') eqn:?; try done. intros ?.
  repeat match goal with
  | H : String.compare _ _ = Eq |- _ => apply String.compare_eq_iff in H
  | H : (_ ?= _) = Eq |- _ => apply N.compare_eq_iff in H
  end. congruence.
Qed.
#[global] Instance target_le_total : Total target_le.
Proof.
  intros a b. unfold target_le. rewrite (cl_opp target_laws a b). destruct (target_compare a b); [by left|by left|by right].
Qed.
#[global] Instance target_le_trans : Transitive target_le.
Proof.
  intros a b c. unfold target_le. destruct (target_compare a b) eqn:Hab; [|intros _|done].
  - apply target_compare_eq in Hab as ->. done.
  - destruct (target_compare b c) eqn:Hbc; [|intros _|done].
    + apply target_compare_eq in Hbc as <-. by rewrite Hab.
    + by rewrite (cl_trans target_laws a b c Hab Hbc).
Qed.
#[global] Instance target_le_antisym : AntiSymm (=) target_le.
Proof.
  intros a b. unfold target_le. rewrite (cl_opp target_laws a b), <- target_compare_eq. by destruct (target_compare a b).
Qed.
Lemma sort_sorted ts : StronglySorted target_le ts -> merge_sort target_le ts = ts.
Proof.
  intros Hs. apply (StronglySorted_unique target_le); [apply (StronglySorted_merge_sort target_le)|done|apply merge_sort_Permutation].
Qed.
Lemma target_ge_false a b : target_ge a b = false <-> target_le a b /\ a <> b.
Proof.
  unfold target_ge, target_le. rewrite <- target_compare_eq. destruct (target_compare a b); naive_solver.
Qed.

(** ** Which replicas serve *)

(** A replica of the generation may serve under the rollout in progress: of the
    candidate the enabled ones, of the previous generation those that are not
    draining. *)
Definition permitted (role : GenerationRole) (progress : option RolloutProgress) (i : ReplicaId) : Prop :=
  match role with
  | GenerationRole.Desired => True
  | GenerationRole.RolloutCandidate =>
      exists p ip, progress = Some p /\ live_phase p.(rp_phase) = true /\ ip ∈ p.(rp_instances)
        /\ ip.(ip_name) = i.(instance) /\ i.(ordinal) ∈ ip.(candidate_enabled)
  | GenerationRole.RolloutPrevious =>
      forall p ip, progress = Some p -> live_phase p.(rp_phase) = true -> ip ∈ p.(rp_instances) ->
        ip.(ip_name) = i.(instance) -> ip.(previous_draining) !! i.(ordinal) = None
  end.

Lemma matches_controls_spec role progress i :
  matches_controls (routing_controls role progress) i = true <-> permitted role progress i.
Proof.
  destruct i as [n o]. unfold routing_controls, permitted. destruct role; [done|..]; (destruct progress as [p|]; cbn).
  - destruct (live_phase (rp_phase p)) eqn:Hl; cbn.
    + rewrite bool_decide_eq_true. unfold route_candidates. rewrite elem_of_list_to_set, list_elem_of_bind. split.
      * intros (ip & Hin & Hip). apply list_elem_of_fmap in Hin as (x & [= -> ->] & Hx). apply set_iter_elem in Hx. by exists p, ip.
      * intros (? & ip & [= <-] & _ & Hip & <- & Ho). exists ip. split; [|done]. apply list_elem_of_fmap. exists o. by rewrite set_iter_elem.
    + split; [done|]. intros (? & ip & [= <-] & ? & _). congruence.
  - split; [done|]. by intros (? & ? & ? & _).
  - destruct (live_phase (rp_phase p)) eqn:Hl; cbn.
    + rewrite negb_true_iff, bool_decide_eq_false. unfold route_draining. rewrite elem_of_list_to_set, list_elem_of_bind. split.
      * intros Hn ? ip [= <-] _ Hip <-. apply eq_None_not_Some. intros [d Hd]. apply Hn. exists ip. split; [|done].
        apply list_elem_of_fmap. exists o. split; [done|]. apply list_elem_of_fmap. exists (o, d). split; [done|]. by apply elem_of_map_to_list.
      * intros H (ip & Hin & Hip). apply list_elem_of_fmap in Hin as (x & [= -> ->] & Hx).
        apply list_elem_of_fmap in Hx as ([x' d] & -> & Hd%elem_of_map_to_list). cbn in *. by rewrite (H p ip) in Hd.
    + split; [|done]. intros _ ? ip [= <-] ?. congruence.
  - split; [|done]. intros _ ? ? ?. done.
Qed.

Definition route_of (g : GenerationTarget) (controls : RoutingControls) (r : ReplicaRuntime) : option RouteTarget :=
  if bool_decide (r.(desired) = DesiredState.Running) && phase_is r ReplicaPhase.Running && matches_controls controls r.(id)
  then
    run ← r.(run_id); ready ← replica_ready_at r;
    Some (mkRoute r.(id).(instance) r.(id).(ordinal) g.(gt_revision) g.(gt_generation) run ready)
  else None.

Lemma append_ready_spec g controls ts rs ts' :
  append_ready_targets ts g controls rs = Ok ts' -> ts' = ts ++ omap (route_of g controls) rs.
Proof.
  revert ts. induction rs as [|r rs IH]; intros ts; cbn [append_ready_targets]; [intros [= <-]; by rewrite app_nil_r|].
  csimpl. unfold route_of at 1. rewrite <- !negb_andb, <- andb_assoc.
  destruct (_ && _); cbn [negb]; [|apply IH]. unfold ok_or. destruct (run_id r) as [run|]; [|done]. cbn [mbind option_bind].
  destruct (replica_ready_at r) as [t|]; [|apply IH]. intros ->%IH. by rewrite <- app_assoc.
Qed.
Lemma append_ready_Ok g controls ts rs :
  Forall (fun r => r.(phase) = ReplicaPhase.Running -> r.(run_id) <> None) rs ->
  exists ts', append_ready_targets ts g controls rs = Ok ts'.
Proof.
  intros Hr. revert ts. induction Hr as [|r rs Hr _ IH]; intros ts; cbn [append_ready_targets]; [by eexists|].
  rewrite <- !negb_andb. destruct (_ && _) eqn:Hb; cbn [negb]; [|apply IH].
  rewrite !andb_true_iff in Hb. destruct Hb as [[_ Hp] _]. unfold phase_is in Hp. apply bool_decide_eq_true in Hp.
  unfold ok_or. destruct (run_id r); [|by specialize (Hr Hp)]. destruct (replica_ready_at r); apply IH.
Qed.

(** A replica serves as a route. *)
Definition serves (g : GenerationTarget) (progress : option RolloutProgress) (r : ReplicaRuntime) (t : RouteTarget) : Prop :=
  r.(desired) = DesiredState.Running /\ r.(phase) = ReplicaPhase.Running
  /\ permitted g.(gt_role) progress r.(id)
  /\ exists run ready, r.(run_id) = Some run /\ replica_ready_at r = Some ready
     /\ t = mkRoute r.(id).(instance) r.(id).(ordinal) g.(gt_revision) g.(gt_generation) run ready.

Lemma route_of_serves g progress r t :
  route_of g (routing_controls g.(gt_role) progress) r = Some t <-> serves g progress r t.
Proof.
  unfold route_of, serves. rewrite <- matches_controls_spec. unfold phase_is. split.
  - destruct (_ && _) eqn:Hb; [|done]. rewrite !andb_true_iff, !bool_decide_eq_true in Hb. destruct Hb as [[? ?] ?].
    destruct (run_id r) as [run|]; [|done]. destruct (replica_ready_at r) as [ready|]; [|done]. intros [= <-].
    split_and!; try done. by exists run, ready.
  - intros (Hd & Hp & Hm & run & ready & Hrun & Hready & ->). rewrite !bool_decide_eq_true_2, Hm by done. cbn.
    by rewrite Hrun, Hready.
Qed.

Section Routes.
Context `{Ext : Externals} `{JP : !Json StackPlan} `{JS : !Json StackRuntimeStatus} `{JE : !Json EngineEvent}
  `{JH : !Json StackHealthReport} `{JI : !Json RolloutIdentity} `{JRo : !Json RolloutRecord}
  `{JPr : !Json RolloutProgress} `{DE : !JsonDecode EngineEvent} `{DS : !JsonDecode StackRuntimeStatus}
  `{DRo : !JsonDecode RolloutRecord} `{DPr : !JsonDecode RolloutProgress}
  `{JRs : !Json RoutingSnapshot} `{DRs : !JsonDecode RoutingSnapshot}.

(** Some run of [m] returned [a]. *)
Definition returned {A : Type} (m : IO A) (a : A) : Prop := exists w w', m w = (w', Done (Ok a)).
Lemma bind_Ok {A B : Type} (m : IO A) (k : A -> IO B) w w' b :
  bind m k w = (w', Done (Ok b)) -> exists w1 a, m w = (w1, Done (Ok a)) /\ k a w1 = (w', Done (Ok b)).
Proof. unfold bind. destruct (m w) as [w1 [[a|e]|]]; [|done..]. intros H. by exists w1, a. Qed.
Lemma lift_Ok {A : Type} (r : result string A) w w' a : lift r w = (w', Done (Ok a)) -> w' = w /\ r = Ok a.
Proof. unfold lift. by intros [= -> ->]. Qed.
Lemma when_Ok b e w w' u : when b e w = (w', Done (Ok u)) -> w' = w /\ b = false.
Proof. unfold when, fail, ret. destruct b; [done|]. by intros [= ->]. Qed.
Lemma ret_Ok {A : Type} (a b : A) w w' : ret a w = (w', Done (Ok b)) -> w' = w /\ b = a.
Proof. unfold ret. by intros [= -> ->]. Qed.

(** What was observed of the generations. *)
Definition observed_routes (progress : option RolloutProgress) (obs : list (GenerationTarget * option StackRuntimeStatus)) :
    list RouteTarget :=
  mbind (fun '(g, o) => match o with
                        | Some rt => omap (route_of g (routing_controls g.(gt_role) progress)) rt.(replicas)
                        | None => []
                        end) obs.

Lemma route_generations_spec st progress ts gens w w' ts' :
  route_generations st progress ts gens w = (w', Done (Ok ts')) ->
  exists os, Forall2 (fun g o => returned (runtime_status_for_generation st g.(gt_generation)) o) gens os
    /\ ts' = ts ++ observed_routes progress (zip gens os).
Proof.
  revert ts w. induction gens as [|g gens IH]; intros ts w; cbn [route_generations].
  { intros [-> ->]%ret_Ok. exists []. split; [constructor|]. by rewrite app_nil_r. }
  intros (w1 & [rt|] & H1 & H2)%bind_Ok.
  - apply bind_Ok in H2 as (w2 & ts1 & [-> H2]%lift_Ok & H3). apply append_ready_spec in H2 as ->.
    apply IH in H3 as (os & Hos & ->). exists (Some rt :: os). split; [constructor; [by exists w, w1|done]|].
    unfold observed_routes. csimpl. by rewrite <- app_assoc.
  - apply IH in H2 as (os & Hos & ->). exists (None :: os). split; [constructor; [by exists w, w1|done]|]. done.
Qed.

Lemma observed_routes_elem progress obs t :
  t ∈ observed_routes progress obs <->
  exists g rt r, (g, Some rt) ∈ obs /\ r ∈ rt.(replicas) /\ serves g progress r t.
Proof.
  unfold observed_routes. rewrite list_elem_of_bind. split.
  - intros ([g [rt|]] & Ht & Hin); [|by apply elem_of_nil in Ht].
    apply list_elem_of_omap in Ht as (r & Hr & Hs). exists g, rt, r. by rewrite <- route_of_serves.
  - intros (g & rt & r & Hin & Hr & Hs). exists (g, Some rt). split; [|done]. apply list_elem_of_omap. exists r.
    by rewrite route_of_serves.
Qed.

(** What [routing_targets] reads and what it makes of it. *)
Definition routes_of (st : string) (progress : option RolloutProgress) (ts : list RouteTarget) : Prop :=
  exists gens os,
    returned (generation_targets st) gens
    /\ Forall2 (fun g o => returned (runtime_status_for_generation st g.(gt_generation)) o) gens os
    /\ StronglySorted target_le ts /\ len ts <= MAX_STACK_TOTAL_ACTIVE_REPLICAS
    /\ (forall t, t ∈ ts <-> exists g rt r, (g, Some rt) ∈ zip gens os /\ r ∈ rt.(replicas) /\ serves g progress r t).

Lemma routing_targets_spec st progress w w' rid ts :
  routing_targets st progress w = (w', Done (Ok (rid, ts))) -> routes_of st progress ts.
Proof.
  unfold routing_targets. intros (w1 & record & _ & H)%bind_Ok. apply bind_Ok in H as (w2 & u & _ & H). cbn zeta in H.
  apply bind_Ok in H as (w3 & gens & Hg & H). apply bind_Ok in H as (w4 & l & Hl & H). cbn zeta in H.
  apply bind_Ok in H as (w5 & u' & [-> Hlen]%when_Ok & [-> [= -> ->]]%ret_Ok).
  apply route_generations_spec in Hl as (os & Hos & ->). exists gens, os.
  split_and!; [by exists w2, w3|done|apply (StronglySorted_merge_sort target_le)|by apply N.ltb_ge in Hlen|].
  intros t. rewrite merge_sort_Permutation. apply observed_routes_elem.
Qed.

(** ** What the store returns *)
Lemma rollout_valid st w w' r : rollout st w = (w', Done (Ok (Some r))) -> validate_record r = Ok tt.
Proof.
  unfold rollout. intros (w1 & ? & _ & H)%bind_Ok. cbn zeta in H. apply bind_Ok in H as (w2 & ? & _ & H).
  apply bind_Ok in H as (w3 & b & _ & H). destruct (negb b); [by apply ret_Ok in H as [_ ?]|].
  apply bind_Ok in H as (w4 & r0 & H0 & H). apply bind_Ok in H as (w5 & ? & _ & H). apply bind_Ok in H as (w6 & cur & _ & H).
  apply bind_Ok in H as (w7 & [r1 c] & [-> H1]%lift_Ok & H).
  assert (r = r1) as ->.
  { destruct c; [apply bind_Ok in H as (w8 & ? & _ & H)|]; apply ret_Ok in H as [_ H]; congruence. }
  assert (validate_record r0 = Ok tt) as Hv0.
  { unfold read_rollout_file in H0. apply bind_Ok in H0 as (w8 & b' & _ & [_ H0]%lift_Ok). revert H0.
    unfold parse_rollout, parse_bounded. pass Hl. destruct (from_slice b') as [v|]; [|done].
    destruct (validate_record v) as [[]|] eqn:Hv; [|done]. by intros [= <-]. }
  assert (forall r2 r3, refresh_record r2 = Ok r3 -> validate_record r3 = Ok tt) as Hrefresh.
  { intros r2 r3. unfold refresh_record. destruct (record_computed_sha256 _); [|done].
    destruct (validate_record (with_record_sha256 _ _)) as [[]|] eqn:Hv; [|done]. by intros [= <-]. }
  revert H1. unfold recover_rollout_checkpoint. destruct (ro_phase r0).
  - destruct (matches_candidate r0 cur); [|destruct (ensure_matches_previous r0 cur); [by intros [= <- _]|done]].
    destruct (ok_or cur _); [|done]. destruct (refresh_record _) as [y|] eqn:Hy; [|done]. intros [= <- _]. by eapply Hrefresh.
  - destruct (matches_rollback r0 cur); [|destruct (ensure_matches_activation r0 cur); [by intros [= <- _]|done]].
    destruct (ok_or cur _); [|done]. destruct (refresh_record _) as [y|] eqn:Hy; [|done]. intros [= <- _]. by eapply Hrefresh.
  - by intros [= <- _].
  - by intros [= <- _].
  - by intros [= <- _].
Qed.

Lemma generation_target_valid st gen w w' g :
  generation_target st gen w = (w', Done (Ok (Some g))) -> validate_target g = Ok tt /\ g.(gt_generation) = gen.
Proof.
  unfold generation_target. intros (w1 & ? & _ & H)%bind_Ok. apply bind_Ok in H as (w2 & desired & _ & H).
  apply bind_Ok in H as (w3 & record & _ & H). cbn zeta in H.
  assert (forall t w1, (lift (validate_target t) ;;? ret (Some t)) w1 = (w', Done (Ok (Some g))) -> validate_target t = Ok tt /\ g = t) as Hret.
  { intros t w4 (w5 & [] & [_ Ht]%lift_Ok & [_ [= <-]]%ret_Ok)%bind_Ok. done. }
  destruct desired as [[[rev cur] plan]|].
  - destruct (bool_decide (cur = gen)) eqn:Hc; [apply bool_decide_eq_true in Hc as <-|].
    + apply Hret in H as [Hv ->]. done.
    + destruct record as [r|]; [|by apply ret_Ok in H as [_ ?]]. destruct (_ && _); [|by apply ret_Ok in H as [_ ?]].
      apply bind_Ok in H as (w4 & rv & _ & H). apply bind_Ok in H as (w5 & pl & _ & H). apply Hret in H as [Hv ->]. done.
  - destruct record as [r|]; [|by apply ret_Ok in H as [_ ?]]. destruct (_ && _); [|by apply ret_Ok in H as [_ ?]].
    apply bind_Ok in H as (w4 & rv & _ & H). apply bind_Ok in H as (w5 & pl & _ & H). apply Hret in H as [Hv ->]. done.
Qed.

Lemma sort_targets_spec l :
  (length l <= 2)%nat -> NoDup (gt_generation <$> sort_targets l) /\ forall g, g ∈ sort_targets l -> g ∈ l.
Proof.
  destruct l as [|a [|b [|c l]]]; intros Hl; cbn in Hl; [|..|lia]; cbn [sort_targets].
  - split; [constructor|done].
  - split; [apply NoDup_singleton|done].
  - case_bool_decide as Hab; [split; [apply NoDup_singleton|set_solver]|].
    destruct (str_lt _ _); (split; [|set_solver]); csimpl; rewrite NoDup_cons, list_elem_of_singleton; split; try apply NoDup_singleton; congruence.
Qed.
Lemma generation_targets_valid st w w' gens :
  generation_targets st w = (w', Done (Ok gens)) ->
  NoDup (gt_generation <$> gens) /\ Forall (fun g => validate_target g = Ok tt) gens.
Proof.
  unfold generation_targets. intros (w1 & ? & _ & H)%bind_Ok. apply bind_Ok in H as (w2 & desired & _ & H).
  apply bind_Ok in H as (w3 & first & H1 & H). apply bind_Ok in H as (w4 & record & _ & H).
  apply bind_Ok in H as (w5 & second & H2 & [_ ->]%ret_Ok).
  assert (forall g, first = Some g -> validate_target g = Ok tt) as Hf.
  { intros g ->. destruct desired as [[[? gen] ?]|]; [|by apply ret_Ok in H1 as [_ ?]].
    by apply generation_target_valid in H1 as [? _]. }
  assert (forall g, second = Some g -> validate_target g = Ok tt) as Hs.
  { intros g ->. destruct record as [r|]; [|by apply ret_Ok in H2 as [_ ?]].
    destruct (ro_phase r), (previous_state r) as [[]|], (previous_generation r); try (by apply ret_Ok in H2 as [_ ?]).
    by apply generation_target_valid in H2 as [? _]. }
  destruct (sort_targets_spec (option_list first ++ option_list second)) as [Hnd Hin].
  { rewrite length_app. destruct first, second; cbn; lia. }
  split; [done|]. apply Forall_forall. intros g [Hg|Hg]%Hin%elem_of_app.
  - destruct first as [g'|]; [apply list_elem_of_singleton in Hg as ->; by apply Hf|by apply elem_of_nil in Hg].
  - destruct second as [g'|]; [apply list_elem_of_singleton in Hg as ->; by apply Hs|by apply elem_of_nil in Hg].
Qed.

Lemma runtime_for_generation_valid st gen w w' rt :
  runtime_status_for_generation st gen w = (w', Done (Ok (Some rt))) ->
  exists plan rev, matches_plan rt plan rev gen.
Proof.
  unfold runtime_status_for_generation. intros (w1 & [t|] & Ht & H)%bind_Ok; [|by apply ret_Ok in H as [_ ?]].
  apply generation_target_valid in Ht as [_ Hg]. apply bind_Ok in H as (w2 & path & _ & H). apply bind_Ok in H as (w3 & ? & _ & H).
  apply bind_Ok in H as (w4 & b & _ & H). destruct (negb b); [by apply ret_Ok in H as [_ ?]|].
  apply bind_Ok in H as (w5 & rt' & _ & H). apply bind_Ok in H as (w6 & [] & [_ Hv]%lift_Ok & [_ [= ->]]%ret_Ok).
  rewrite Hg in Hv. exists (gt_plan t), (gt_revision t). by apply validate_against_inv.
Qed.

(** ** Routes make a valid table *)
Definition identity (t : RouteTarget) : string * string * N := (t.(rt_generation), t.(rt_instance), t.(rt_ordinal)).

Lemma check_routes_Ok previous identities ts :
  Forall (fun t => validate_route t = Ok tt) ts -> StronglySorted target_le ts -> NoDup (identity <$> ts) ->
  (forall p, previous = Some p -> Forall (fun t => target_ge p t = false) ts) ->
  (forall t, t ∈ ts -> identity t ∉ identities) -> check_routes previous identities ts = Ok tt.
Proof.
  revert previous identities. induction ts as [|t ts IH]; intros previous identities Hv Hs Hnd Hp Hi; [done|].
  apply Forall_cons in Hv as [Ht Hv]. apply StronglySorted_inv in Hs as [Hs Ht']. apply NoDup_cons in Hnd as [Hn Hnd].
  cbn [check_routes]. rewrite Ht. fold (identity t). rewrite bool_decide_eq_false_2 by (apply Hi; by left).
  assert (is_some_and (fun value => target_ge value t) previous = false) as ->.
  { destruct previous as [p|]; [|done]. specialize (Hp p eq_refl). by apply Forall_cons in Hp as [? _]. }
  cbn [orb]. apply IH; [done..| |].
  - intros p [= <-]. apply Forall_forall. intros t' Hin. apply target_ge_false. split.
    + rewrite Forall_forall in Ht'. by apply Ht'.
    + intros ->. apply Hn. by apply list_elem_of_fmap_2.
  - intros t' Hin. rewrite not_elem_of_union, not_elem_of_singleton. split; [|apply Hi; by right].
    intros He. apply Hn. rewrite <- He. by apply list_elem_of_fmap_2.
Qed.

(** A replica of a status that matches its plan. *)
Lemma planned_ordinal `{!JsonTotal StackRuntimeStatus} rt plan rev gen r :
  matches_plan rt plan rev gen -> r ∈ rt.(replicas) -> r.(id).(ordinal) <= MAX_STACK_REPLICAS.
Proof.
  intros Hm Hr. pose proof (mp_skeleton _ _ _ _ Hm) as Hsk.
  assert (skeleton r ∈ skeleton <$> planned_replicas plan) as Hin by (rewrite <- Hsk; by apply list_elem_of_fmap_2).
  apply list_elem_of_fmap in Hin as (r' & He & Hr'). assert (id r = id r') as -> by (unfold skeleton in He; congruence).
  apply planned_elem_instance in Hr' as (i & Hi & Hr'). apply list_elem_of_fmap in Hr' as (n & -> & Hn).
  apply ordinals_to_elem in Hn. apply (planned_elem plan i (mp_plan _ _ _ _ Hm)), planned_instance_inv in Hi as (_ & [_ Hi] & _).
  cbn. lia.
Qed.

Lemma matches_replicas rt plan rev gen :
  matches_plan rt plan rev gen -> Forall replica_ok rt.(replicas) /\ NoDup (id <$> rt.(replicas)).
Proof.
  intros Hm. pose proof (mp_valid _ _ _ _ Hm) as Hv. apply validate_status_iff in Hv as [Hc _].
  split; [apply (co_replicas _ Hc)|apply id_sorted_NoDup, (co_sorted _ Hc)].
Qed.

Lemma serves_identity g progress r t : serves g progress r t -> identity t = (g.(gt_generation), r.(id).(instance), r.(id).(ordinal)).
Proof. intros (_ & _ & _ & run & ready & _ & _ & ->). done. Qed.
Lemma serves_valid `{!JsonTotal StackRuntimeStatus} g progress rt plan rev r t :
  validate_target g = Ok tt -> matches_plan rt plan rev g.(gt_generation) -> r ∈ rt.(replicas) -> serves g progress r t ->
  t.(rt_ready_at_ms) <> 0 -> validate_route t = Ok tt.
Proof.
  intros Hg Hm Hr (_ & Hp & _ & run & ready & Hrun & _ & ->) Ht. cbn in Ht.
  pose proof (planned_ordinal _ _ _ _ _ Hm Hr) as Ho. destruct (matches_replicas _ _ _ _ Hm) as [Hok _].
  rewrite Forall_forall in Hok. specialize (Hok r Hr). pose proof (SupervisorSpec.ro_phase _ Hok) as Hph. rewrite Hp in Hph.
  unfold validate_target in Hg. destruct (validate_plan (gt_plan g)); [|done]. revert Hg. cbn zeta. pass Hb. intros _. split_guard.
  unfold validate_route. cbn. rewrite (SupervisorSpec.ro_name _ Hok).
  assert (is_digest run = true) as -> by (destruct Hph as (_ & _ & (x & Hx & Hd) & _); congruence).
  match goal with H : is_digest (gt_generation g) = true |- _ => rewrite H end.
  rewrite (proj2 (N.eqb_neq _ _) Ht), (proj2 (N.ltb_ge _ _) Ho).
  rewrite (proj2 (N.eqb_neq _ _) (SupervisorSpec.ro_ordinal _ Hok)).
  match goal with H : gt_revision g <> 0 |- _ => rewrite (proj2 (N.eqb_neq _ _) H) end. done.
Qed.

(** No two routes of the observed generations are one replica. *)
Lemma observed_identities progress gens os :
  NoDup (gt_generation <$> gens) ->
  Forall2 (fun g o => forall rt, o = Some rt -> exists plan rev, matches_plan rt plan rev g.(gt_generation)) gens os ->
  NoDup (identity <$> observed_routes progress (zip gens os)).
Proof.
  intros Hnd Hall. induction Hall as [|g o gens os Ho Hall IH]; [constructor|].
  apply NoDup_cons in Hnd as [Hg Hnd]. unfold observed_routes. csimpl. rewrite fmap_app. apply NoDup_app. split_and!.
  - destruct o as [rt|]; [|constructor]. destruct (Ho rt eq_refl) as (plan & rev & Hm).
    destruct (matches_replicas _ _ _ _ Hm) as [_ Hids]. clear -Hids. induction (replicas rt) as [|r rs IHr]; [constructor|].
    apply NoDup_cons in Hids as [Hr Hids]. csimpl. destruct (route_of _ _ r) as [t|] eqn:Ht; [|by apply IHr]. csimpl.
    constructor; [|by apply IHr]. apply route_of_serves, serves_identity in Ht. rewrite Ht. intros (t' & He & Hin)%list_elem_of_fmap.
    apply list_elem_of_omap in Hin as (r' & Hr' & Ht'). apply route_of_serves, serves_identity in Ht'. rewrite Ht' in He.
    apply Hr. apply list_elem_of_fmap. exists r'. split; [|done]. destruct (id r), (id r'). cbn in He. congruence.
  - intros x Hx Hy. apply list_elem_of_fmap in Hx as (t & -> & Ht), Hy as (t' & He & Ht').
    assert (rt_generation t = gt_generation g) as Hgen.
    { destruct o as [rt|]; [|by apply elem_of_nil in Ht]. apply list_elem_of_omap in Ht as (r & _ & Hr).
      apply route_of_serves, serves_identity in Hr. unfold identity in Hr. congruence. }
    apply observed_routes_elem in Ht' as (g' & rt & r & Hin & _ & Hs%serves_identity).
    apply Hg. rewrite <- Hgen. assert (rt_generation t = gt_generation g') as -> by (unfold identity in *; congruence).
    apply list_elem_of_fmap_2. by apply elem_of_zip_l in Hin.
  - by apply IH.
Qed.

(** The routes of a stack always make a valid table.  Whatever the store
    returns for the generations of a stack, the routes computed from it can be
    published: refreshing the new table succeeds without reordering them, as
    long as the clock that dated the replicas never read zero. *)
Theorem routes_are_publishable `{!JsonTotal StackRuntimeStatus} `{!JsonTotal RoutingSnapshot}
    (st : string) (progress : option RolloutProgress) (w w' : World) (rid : option string) (ts : list RouteTarget)
    (epoch : string) (seq now_ms : N) :
  routing_targets st progress w = (w', Done (Ok (rid, ts))) ->
  valid_name st = true -> is_digest epoch = true -> seq <> 0 -> now_ms <> 0 ->
  Forall (fun t => t.(rt_ready_at_ms) <> 0) ts ->
  exists snapshot, refresh_routing (mkRouting ENGINE_ROUTING_FORMAT_VERSION st epoch seq now_ms rid ts "") = Ok snapshot
    /\ snapshot.(rs_targets) = ts /\ validate_routing snapshot = Ok tt.
Proof.
  unfold routing_targets. intros (w1 & record & Hrec & H)%bind_Ok Hst Hep Hseq Hnow Hready. apply bind_Ok in H as (w2 & u & _ & H). cbn zeta in H.
  apply bind_Ok in H as (w3 & gens & Hg & H). apply bind_Ok in H as (w4 & l & Hl & H). cbn zeta in H.
  apply bind_Ok in H as (w5 & u' & [-> Hlen]%when_Ok & [-> [= -> ->]]%ret_Ok). apply N.ltb_ge in Hlen.
  apply route_generations_spec in Hl as (os & Hos & ->). cbn [app] in *. apply generation_targets_valid in Hg as [Hnd Hgv].
  assert (Forall2 (fun g o => forall rt, o = Some rt -> exists plan rev, matches_plan rt plan rev g.(gt_generation)) gens os) as Hobs.
  { eapply Forall2_impl; [exact Hos|]. intros g o (w6 & w7 & Ho) rt ->. by eapply runtime_for_generation_valid. }
  set (l := observed_routes progress (zip gens os)) in *. set (ts := merge_sort target_le l) in *.
  assert (StronglySorted target_le ts) as Hs by apply (StronglySorted_merge_sort target_le).
  assert (ts ≡ₚ l) as Hperm by apply merge_sort_Permutation.
  assert (check_routes None ∅ ts = Ok tt) as Hcheck.
  { apply check_routes_Ok; [|done| |done|set_solver].
    - rewrite Forall_forall in Hready |- *. intros t Ht. pose proof (Hready t Ht) as Ht0. rewrite Hperm in Ht.
      apply observed_routes_elem in Ht as (g & rt & r & Hin & Hr & Hsv).
      apply list_elem_of_lookup in Hin as [i Hi]. rewrite lookup_zip_with in Hi.
      destruct (gens !! i) as [g0|] eqn:Hgi; [|done]. destruct (os !! i) as [o|] eqn:Hoi; [|done]. cbn in Hi. injection Hi as -> ->.
      destruct (Forall2_lookup_lr _ _ _ _ _ _ Hobs Hgi Hoi rt eq_refl) as (plan & rev & Hm).
      eapply serves_valid; [|exact Hm|done|done|done]. eapply Forall_lookup_1 in Hgv; [exact Hgv|exact Hgi].
    - rewrite Hperm. by apply observed_identities. }
  assert (forall x, ro_rollout_id <$> activated_record record = Some x -> is_digest x = true) as Hrid.
  { intros x. destruct record as [r|]; [|done]. cbn. destruct (bool_decide _); [|done]. intros [= <-].
    apply rollout_valid in Hrec. unfold validate_record in Hrec. destruct (validate_plan _); [|done]. revert Hrec. pass Hb. intros _. by split_guard. }
  unfold refresh_routing. cbn zeta. unfold with_targets. cbn [rs_targets rs_format_version rs_stack routing_epoch rs_sequence published_at_ms rs_rollout_id routing_sha256].
  rewrite (sort_sorted ts Hs). set (s0 := mkRouting _ _ _ _ _ _ _ _).
  destruct (to_vec_total (with_routing_sha256 s0 "")) as [b Hb]. set (sha := hex_sha256 b).
  assert (routing_computed_sha256 s0 = Ok sha) as Hsha by (unfold routing_computed_sha256; by rewrite Hb).
  rewrite Hsha. assert (validate_routing (with_routing_sha256 s0 sha) = Ok tt) as Hv.
  { unfold validate_routing. assert (routing_computed_sha256 (with_routing_sha256 s0 sha) = Ok sha) as -> by exact Hsha.
    cbn [with_routing_sha256 s0 rs_format_version rs_stack routing_epoch rs_sequence published_at_ms rs_rollout_id rs_targets routing_sha256].
    rewrite Hst, Hep, (proj2 (N.eqb_neq _ _) Hseq), (proj2 (N.eqb_neq _ _) Hnow), (proj2 (N.ltb_ge _ _) Hlen), Hcheck.
    assert (is_digest sha = true) as -> by apply hex_sha256_is_digest.
    assert (is_some_and (fun x => negb (is_digest x)) (ro_rollout_id <$> activated_record record) = false) as ->.
    { destruct (ro_rollout_id <$> activated_record record) as [x|]; [|done]. cbn. by rewrite Hrid. }
    rewrite bool_decide_eq_true_2 by done. done. }
  rewrite Hv. by exists (with_routing_sha256 s0 sha).
Qed.

End Routes.

(** ** A concrete stack with one route *)
Section Witnesses.
#[local] Existing Instance demo_externals.
#[local] Instance plan_json : Json StackPlan := demo_json.
#[local] Instance status_json : Json StackRuntimeStatus := demo_json.
#[local] Instance event_json : Json EngineEvent := demo_json.
#[local] Instance record_json : Json RolloutRecord := demo_json.
#[local] Instance identity_json : Json RolloutIdentity := demo_json.
#[local] Instance progress_json : Json RolloutProgress := demo_json.
#[local] Instance routing_json : Json RoutingSnapshot := demo_json.
#[local] Instance status_total : JsonTotal StackRuntimeStatus.
Proof. intros a. by exists []. Qed.
#[local] Instance routing_total : JsonTotal RoutingSnapshot.
Proof. intros a. by exists []. Qed.

Definition shop_event : EngineEvent :=
  mkEvent 1 1 "shop" EngineEventKind.Apply "" 7 (Some (demo_plan OnFailure None)) (hex_sha256 []).
Definition front : ReplicaId := mkReplicaId "web" 1.
Definition shop_status : StackRuntimeStatus :=
  match from_plan (demo_plan OnFailure None) 1 (hex_sha256 []) 10 with
  | Ok s => (mark_running (begin_start s front zero_digest 20).1 front zero_digest 21).1
  | Err _ => mkStatus 0 "" 0 "" 0 [] ""
  end.
Definition shop_route : RouteTarget := mkRoute "web" 1 1 (hex_sha256 []) zero_digest 20.
Definition shop_routing : RoutingSnapshot :=
  mkRouting 1 "shop" zero_digest 1 30 None [shop_route] (hex_sha256 []).
#[local] Instance event_decode : JsonDecode EngineEvent := fun _ => Ok shop_event.
#[local] Instance status_decode : JsonDecode StackRuntimeStatus := fun _ => Ok shop_status.
#[local] Instance record_decode : JsonDecode RolloutRecord := fun _ => Err "none".
#[local] Instance progress_decode : JsonDecode RolloutProgress := fun _ => Err "none".
#[local] Instance routing_decode : JsonDecode RoutingSnapshot := fun _ => Ok shop_routing.

Definition shop_world : World :=
  mkWorld {[ "stacks" := ∅; "stacks/shop" := {[ "routes.json" := [] ]};
             "stacks/shop/events" := {[ event_file_name 1 := [x00] ]};
             "stacks/shop/runtime" := {[ hex_sha256 [] +:+ ".json" := [] ]} ]} 0 7 [].


Lemma routes_are_publishable_witness :
  exists snapshot,
    refresh_routing (mkRouting ENGINE_ROUTING_FORMAT_VERSION "shop" zero_digest 2 40 None [shop_route] "") = Ok snapshot.
Proof.
  assert ((routing_targets "shop" None shop_world).2 = Done (Ok (None, [shop_route]))) as Hr by (vm_compute; reflexivity).
  destruct (routing_targets "shop" None shop_world) as [w' o] eqn:Hrun. cbn [snd] in Hr. rewrite Hr in Hrun.
  destruct (routes_are_publishable "shop" None shop_world w' None [shop_route] zero_digest 2 40 Hrun) as (snapshot & H & _).
  - reflexivity.
  - reflexivity.
  - discriminate.
  - discriminate.
  - constructor; [discriminate|constructor].
  - exists snapshot. exact H.
Defined.
End Witnesses.
