(* ===== verification/Network.v ===== *)
(** * The network crate ([crates/cartridge-network/src/lib.rs])

    HTTP scopes and policies, service requests, response fixtures, encrypted
    peer sessions, bounded channels, replicated documents, chunked assets, the
    network simulator and the rollback window.  URLs, the cipher and the key
    agreement are parameters; a nonce the code draws at random is an argument. *)
From S2P Require Import Prelude Text Storage Snapshot Directory Blob.

Definition NETWORK_FORMAT_VERSION : N := 1.
Definition MAX_HTTP_REQUEST_BYTES : N := 1024 * 1024.
Definition MAX_HTTP_RESPONSE_BYTES : N := 4 * 1024 * 1024.
Definition MAX_HTTP_HEADERS : N := 128.
Definition MAX_HTTP_HEADER_BYTES : N := 64 * 1024.
Definition MAX_SERVICE_REQUEST_BYTES : N := 256 * 1024.
Definition MAX_SERVICE_RESPONSE_BYTES : N := 256 * 1024.
Definition MAX_SERVICE_PATH_BYTES : N := 8192.
Definition MAX_HTTP_SCOPES : N := 128.
Definition MAX_FIXTURES : N := 4096.
Definition MAX_CHANNEL_MESSAGES : N := 4096.
Definition MAX_MESSAGE_BYTES : N := 1024 * 1024.
Definition MAX_DOCUMENT_OPERATIONS : N := 100000.
Definition MAX_DOCUMENT_BYTES : N := 16 * 1024 * 1024.
Definition MAX_ASSET_BYTES : N := 128 * 1024 * 1024.
Definition ASSET_CHUNK_BYTES : N := 64 * 1024.
Definition MAX_SIMULATED_PACKETS : N := 100000.
Definition MAX_ROLLBACK_DATAGRAMS : N := 65536.

(** The [url] crate: parsing, and the accessors of a parsed URL.
    [url_port] is [port_or_known_default]. *)
Class UrlCrate := {
  Url : Type;
  url_parse : string -> option Url;
  url_scheme : Url -> string;
  url_host_str : Url -> option string;
  url_port : Url -> option N;
  url_path : Url -> string;
  url_username : Url -> string;
  url_password : Url -> option string;
  url_fragment : Url -> option string;
}.

(** ** Strings *)
Definition contains_char (s : string) (c : ascii) : bool := existsb (N.eqb (N_of_ascii c)) (str_bytes s).
Fixpoint contains (s pattern : string) : bool :=
  starts_with s pattern || match s with EmptyString => false | String _ s => contains s pattern end.
Definition eq_ignore_ascii_case (a b : string) : bool := bool_decide (str_lower a = str_lower b).

Definition default_port (scheme : string) : option N :=
  if bool_decide (scheme = "https") then Some 443 else if bool_decide (scheme = "http") then Some 80 else None.
Definition is_loopback_host (host : string) : bool :=
  eq_ignore_ascii_case host "localhost" || bool_decide (host = "127.0.0.1")
  || bool_decide (host = "[::1]") || bool_decide (host = "::1").
Definition path_prefix_matches (prefix path : string) : bool :=
  bool_decide (prefix = "/") || bool_decide (path = prefix)
  || is_some_and (fun rest => ends_with_char prefix "/" || starts_with_char rest "/") (strip_prefix prefix path).

(** ** Headers *)
Definition header_name_byte (b : N) : bool :=
  is_ascii_alphanumeric b || existsb (N.eqb b) (str_bytes "!#$%&'*+-.^_`|~").
Definition forbidden_headers : list string :=
  ["connection"; "proxy-authorization"; "proxy-authenticate"; "transfer-encoding"; "upgrade"; "host"; "content-length"].
Fixpoint check_headers (bytes : N) (normalized : gset string) (l : list (string * string)) : result string N :=
  match l with
  | [] => Ok bytes
  | (name, value) :: l =>
      if str_is_empty name || (256 <? str_len name) || negb (forallb header_name_byte (str_bytes name))
         || existsb (fun ch => (ch =? 13) || (ch =? 10) || (ch =? 0)) (str_chars value)
      then Err "HTTP header is invalid"
      else
        let lower := str_lower name in
        if bool_decide (lower ∈ normalized) then Err "duplicate HTTP header names are not allowed"
        else if bool_decide (lower ∈ forbidden_headers)
        then Err "hop-by-hop or host-controlled HTTP header is forbidden"
        else
          let? bytes := ok_or (checked_add usize_max bytes (str_len name + str_len value)) "HTTP header size overflow" in
          check_headers bytes ({[lower]} ∪ normalized) l
  end.
Definition validate_headers (headers : gmap string string) : result string unit :=
  if MAX_HTTP_HEADERS <? btree_len headers then Err "HTTP header count exceeded"
  else
    let? bytes := check_headers 0 ∅ (btree_iter headers) in
    if MAX_HTTP_HEADER_BYTES <? bytes then Err "HTTP headers exceed their byte limit" else Ok tt.

(** ** HTTP requests and policies *)
Inductive HttpMethod := GET | HEAD | POST | PUT | PATCH | DELETE.
#[global] Instance http_method_eq_dec : EqDecision HttpMethod.
Proof. solve_decision. Defined.
Record HttpScope := mkScope {
  scheme : string;
  host : string;
  port : option N;
  path_prefix : string;
  methods : list HttpMethod;
}.
Record HttpPolicy := mkPolicy {
  scopes : list HttpScope;
  max_request_bytes : N;
  max_response_bytes : N;
  max_redirects : N;
}.
Record HttpRequest := mkRequest {
  rq_method : HttpMethod;
  rq_url : string;
  rq_headers : gmap string string;
  rq_body : bytes;
}.
Record HttpResponse := mkResponse { rp_status : N; rp_headers : gmap string string; rp_body : bytes }.
#[global] Instance http_scope_eq_dec : EqDecision HttpScope.
Proof. solve_decision. Defined.
#[global] Instance http_policy_eq_dec : EqDecision HttpPolicy.
Proof. solve_decision. Defined.
#[global] Instance http_request_eq_dec : EqDecision HttpRequest.
Proof. solve_decision. Defined.

Definition validate_scope (self : HttpScope) : result string unit :=
  if negb (bool_decide (self.(scheme) = "https")) && negb (bool_decide (self.(scheme) = "http"))
  then Err "HTTP scope scheme must be http or https"
  else if bool_decide (self.(scheme) = "http") && negb (is_loopback_host self.(host))
  then Err "unencrypted HTTP is limited to loopback hosts"
  else if str_is_empty self.(host) || (253 <? str_len self.(host)) || contains_char self.(host) "/"
          || contains_char self.(host) "@" || existsb char_is_control (str_chars self.(host))
  then Err "HTTP scope host is invalid"
  else if negb (starts_with_char self.(path_prefix) "/") || contains self.(path_prefix) ".."
          || (2048 <? str_len self.(path_prefix))
  then Err "HTTP path prefix must be an absolute normalized path"
  else if bool_decide (self.(methods) = []) then Err "HTTP scope must allow at least one method"
  else Ok tt.
Fixpoint check_scopes (l : list HttpScope) : result string unit :=
  match l with [] => Ok tt | scope :: l => let? _ := validate_scope scope in check_scopes l end.

Definition default_http_policy : HttpPolicy := mkPolicy [] MAX_HTTP_REQUEST_BYTES MAX_HTTP_RESPONSE_BYTES 0.
Definition validate_http_policy (self : HttpPolicy) : result string unit :=
  if (MAX_HTTP_SCOPES <? len self.(scopes)) || (self.(max_request_bytes) =? 0)
     || (MAX_HTTP_REQUEST_BYTES <? self.(max_request_bytes)) || (self.(max_response_bytes) =? 0)
     || (MAX_HTTP_RESPONSE_BYTES <? self.(max_response_bytes)) || (10 <? self.(max_redirects))
  then Err "HTTP policy limits are invalid"
  else check_scopes self.(scopes).

Definition validate_request (self : HttpRequest) (max_body : N) : result string unit :=
  if (8192 <? str_len self.(rq_url)) || (max_body <? len self.(rq_body)) then Err "HTTP request exceeds its size limit"
  else validate_headers self.(rq_headers).
Definition fingerprint `{Externals} `{!Json HttpRequest} (self : HttpRequest) : result string string :=
  let? _ := validate_request self MAX_HTTP_REQUEST_BYTES in
  let? bytes := to_vec self in
  Ok (hex_sha256 bytes).
Definition validate_response (policy : HttpPolicy) (response : HttpResponse) : result string unit :=
  if policy.(max_response_bytes) <? len response.(rp_body) then Err "HTTP response exceeds its byte limit"
  else if negb (in_range 100 599 response.(rp_status)) then Err "HTTP response status is invalid"
  else validate_headers response.(rp_headers).

Section Policy.
Context `{UC : UrlCrate}.
Definition effective_port (url : Url) : option N := url_port url.
Definition permits (self : HttpScope) (method : HttpMethod) (url : Url) : bool :=
  bool_decide (method ∈ self.(methods))
  && bool_decide (url_scheme url = self.(scheme))
  && is_some_and (fun host => eq_ignore_ascii_case host self.(Network.host)) (url_host_str url)
  && bool_decide (effective_port url
                  = match self.(port) with Some port => Some port | None => default_port self.(scheme) end)
  && path_prefix_matches self.(path_prefix) (url_path url).
Definition authorize (self : HttpPolicy) (request : HttpRequest) : result string Url :=
  let? _ := validate_http_policy self in
  let? _ := validate_request request self.(max_request_bytes) in
  let? url := ok_or (url_parse request.(rq_url)) "request URL is invalid" in
  if negb (str_is_empty (url_username url)) || is_some (url_password url) || is_some (url_fragment url)
  then Err "request URLs cannot contain credentials or fragments"
  else if negb (existsb (fun scope => permits scope request.(rq_method) url) self.(scopes))
  then Err "request URL is outside the declared HTTP scopes"
  else Ok url.
End Policy.

(** ** Fixtures *)
Record HttpFixtures := mkFixtures { fx_format_version : N; fx_responses : gmap string HttpResponse }.
Definition new_fixtures : HttpFixtures := mkFixtures NETWORK_FORMAT_VERSION ∅.
Section Fixtures.
Context `{Ext : Externals} `{UC : UrlCrate} `{JRq : !Json HttpRequest} `{DFx : !JsonDecode HttpFixtures}.
Definition invalid_fixtures (self : HttpFixtures) : bool :=
  negb (self.(fx_format_version) =? NETWORK_FORMAT_VERSION) || (MAX_FIXTURES <? btree_len self.(fx_responses)).
(** [HttpTransport::send] of the fixtures *)
Definition fixture_send (self : HttpFixtures) (request : HttpRequest) : result string HttpResponse :=
  if invalid_fixtures self then Err "HTTP fixture document is invalid"
  else
    let? print := fingerprint request in
    ok_or (self.(fx_responses) !! print) "no HTTP fixture matches this request".
Definition fixture_insert (self : HttpFixtures) (policy : HttpPolicy) (request : HttpRequest)
    (response : HttpResponse) : result string HttpFixtures :=
  let? _ := authorize policy request in
  let? _ := validate_response policy response in
  let? full :=
    (if MAX_FIXTURES <=? btree_len self.(fx_responses) then
       let? print := fingerprint request in
       Ok (is_none (self.(fx_responses) !! print))
     else Ok false) in
  if full : bool then Err "HTTP fixture limit exceeded"
  else
    let? print := fingerprint request in
    Ok (mkFixtures self.(fx_format_version) (<[print := response]> self.(fx_responses))).
Definition fixture_replay (self : HttpFixtures) (policy : HttpPolicy) (request : HttpRequest) :
    result string HttpResponse :=
  if invalid_fixtures self then Err "HTTP fixture document is invalid"
  else
    let? _ := authorize policy request in
    let? print := fingerprint request in
    let? response := ok_or (self.(fx_responses) !! print) "no HTTP fixture matches this request" in
    let? _ := validate_response policy response in
    Ok response.
(** [HttpFixtures::read] of a file with this content *)
Definition fixture_read (content : bytes) : result string HttpFixtures :=
  if saturating_mul usize_max MAX_HTTP_RESPONSE_BYTES 2 <? len content
  then Err "HTTP fixture document exceeds its size limit"
  else
    let? value := from_slice content in
    if invalid_fixtures value then Err "HTTP fixture document is invalid" else Ok value.
End Fixtures.

(** ** Services *)
Record ServiceRequest := mkServiceRequest {
  sr_id : string;
  sr_method : HttpMethod;
  sr_path : string;
  sr_headers : gmap string string;
  sr_body : bytes;
}.
Record ServiceResponse := mkServiceResponse { sp_status : N; sp_headers : gmap string string; sp_body : bytes }.
Definition valid_service_path (path : string) : bool :=
  if str_is_empty path || (MAX_SERVICE_PATH_BYTES <? str_len path) || negb (starts_with_char path "/")
     || starts_with path "//" || contains_char path "\" || contains_char path "#"
     || existsb char_is_control (str_chars path)
  then false
  else
    let lower := str_lower path in
    if contains lower "%2e" || contains lower "%2f" || contains lower "%5c" then false
    else is_some_and (fun value => forallb (fun part => negb (bool_decide (part = ".")) && negb (bool_decide (part = "..")))
                                     (split_on "/" value))
           (head (split_on "?" path)).
Definition validate_service_request (self : ServiceRequest) : result string unit :=
  if negb (str_len self.(sr_id) =? 64) || negb (forallb is_lower_hex (str_bytes self.(sr_id)))
  then Err "service request identity is invalid"
  else if negb (valid_service_path self.(sr_path)) || (MAX_SERVICE_REQUEST_BYTES <? len self.(sr_body))
  then Err "service request exceeds its limits"
  else validate_headers self.(sr_headers).
Definition validate_service_response (self : ServiceResponse) : result string unit :=
  if negb (in_range 100 599 self.(sp_status)) || (MAX_SERVICE_RESPONSE_BYTES <? len self.(sp_body))
  then Err "service response exceeds its limits"
  else validate_headers self.(sp_headers).
