(* ===== verification/Peer.v ===== *)
(** * Peers ([crates/cartridge-network/src/lib.rs])

    Peer identities and encrypted sessions, discovery records, bounded message
    channels, replicated documents, chunked assets, the packet simulator and
    the rollback window.  The key agreement and the cipher are parameters. *)
From S2P Require Import Prelude Text Core Storage Snapshot Directory Blob Network.

(** [x25519] and [XChaCha20Poly1305]: agreement is symmetric, decryption with
    the same key, nonce and associated data undoes encryption, a ciphertext is
    16 bytes longer than its plaintext, and keys are 32 bytes. *)
Class PeerCrypto := {
  x25519 : bytes -> bytes -> bytes;
  basepoint : bytes;
  x25519_length : forall a b, length (x25519 a b) = 32%nat;
  x25519_symmetric : forall a b, x25519 a (x25519 b basepoint) = x25519 b (x25519 a basepoint);
  aead_encrypt : bytes -> bytes -> bytes -> bytes -> option bytes;
  aead_decrypt : bytes -> bytes -> bytes -> bytes -> option bytes;
  aead_round_trip : forall key nonce aad m c, aead_encrypt key nonce aad m = Some c -> aead_decrypt key nonce aad c = Some m;
  aead_length : forall key nonce aad m c, aead_encrypt key nonce aad m = Some c -> length c = (length m + 16)%nat;
}.

(** ** Identities and sessions *)
Record PeerPublic := mkPeerPublic { pp_peer_id : string; pp_public_key : string }.
Record PeerIdentity := mkPeerIdentity { pi_secret : bytes; pi_public : bytes }.
Record PeerSession := mkPeerSession {
  local_peer_id : string;
  remote_peer_id : string;
  session_key : bytes;
  send_sequence : N;
  receive_sequence : N;
}.
Record EncryptedMessage := mkEncrypted {
  sender : string;
  recipient : string;
  em_sequence : N;
  em_nonce : string;
  ciphertext : string;
}.

(** [u64::to_le_bytes] *)
Fixpoint le_bytes (width : nat) (n : N) : bytes :=
  match width with
  | O => []
  | S w => default x00 (Byte.of_N (n mod 256)) :: le_bytes w (n / 256)
  end.
Definition message_aad (sender recipient : string) (sequence : N) : bytes :=
  as_bytes sender ++ [x00] ++ as_bytes recipient ++ le_bytes 8 sequence.

(** [<[u8; 32] as Ord>::cmp] is lexicographic. *)
Fixpoint bytes_leb (a b : bytes) : bool :=
  match a, b with
  | [], _ => true
  | _ :: _, [] => false
  | x :: a, y :: b => (Byte.to_N x <? Byte.to_N y) || ((Byte.to_N x =? Byte.to_N y) && bytes_leb a b)
  end.

Section Session.
Context `{Ext : Externals} `{Hex : HexDecode} `{PC : PeerCrypto}.

Definition peer_id (public : bytes) : string := hex_sha256 public.
Definition decode_array (width : nat) (value label : string) : result string bytes :=
  match hex_decode value with
  | Err _ => Err (label +:+ " is not hexadecimal")
  | Ok b => if (length b =? width)%nat then Ok b else Err (label +:+ " has the wrong length")
  end.

(** [PeerIdentity::generate] with the secret it draws *)
Definition generate (secret : bytes) : PeerIdentity := mkPeerIdentity secret (x25519 secret basepoint).
Definition public (self : PeerIdentity) : PeerPublic :=
  mkPeerPublic (peer_id self.(pi_public)) (hex_encode self.(pi_public)).
Definition validate_peer (self : PeerPublic) : result string unit :=
  let? public := decode_array 32 self.(pp_public_key) "peer public key" in
  if negb (bool_decide (peer_id public = self.(pp_peer_id))) then Err "peer id does not match its public key" else Ok tt.

Definition session (self : PeerIdentity) (remote : PeerPublic) : result string PeerSession :=
  let? _ := validate_peer remote in
  let? remote_public := decode_array 32 remote.(pp_public_key) "peer public key" in
  let shared := x25519 self.(pi_secret) remote_public in
  if bool_decide (shared = replicate 32 x00) then Err "peer key agreement produced an invalid shared secret"
  else
    let (first, second) := if bytes_leb self.(pi_public) remote_public
                           then (self.(pi_public), remote_public) else (remote_public, self.(pi_public)) in
    let key := sha256 (as_bytes "cartridge-peer-session-v1" ++ shared ++ first ++ second) in
    Ok (mkPeerSession (peer_id self.(pi_public)) remote.(pp_peer_id) key 0 0).

Definition with_send_sequence (self : PeerSession) (n : N) : PeerSession :=
  mkPeerSession self.(local_peer_id) self.(remote_peer_id) self.(session_key) n self.(receive_sequence).
Definition with_receive_sequence (self : PeerSession) (n : N) : PeerSession :=
  mkPeerSession self.(local_peer_id) self.(remote_peer_id) self.(session_key) self.(send_sequence) n.

(** [PeerSession::seal] with the nonce it draws *)
Definition seal (self : PeerSession) (nonce plaintext : bytes) : result string (PeerSession * EncryptedMessage) :=
  if MAX_MESSAGE_BYTES <? len plaintext then Err "peer message exceeds its byte limit"
  else
    let aad := message_aad self.(local_peer_id) self.(remote_peer_id) self.(send_sequence) in
    let? encrypted := ok_or (aead_encrypt self.(session_key) nonce aad plaintext) "peer message encryption failed" in
    let message := mkEncrypted self.(local_peer_id) self.(remote_peer_id) self.(send_sequence)
                     (hex_encode nonce) (hex_encode encrypted) in
    let? next := ok_or (checked_add u64_max self.(send_sequence) 1) "peer send sequence overflow" in
    Ok (with_send_sequence self next, message).

Definition open_message (self : PeerSession) (message : EncryptedMessage) : result string (PeerSession * bytes) :=
  if negb (bool_decide (message.(sender) = self.(remote_peer_id)))
     || negb (bool_decide (message.(recipient) = self.(local_peer_id)))
     || negb (message.(em_sequence) =? self.(receive_sequence))
  then Err "peer message identity or sequence is invalid"
  else
    let? nonce := decode_array 24 message.(em_nonce) "peer nonce" in
    let? encrypted := match hex_decode message.(ciphertext) with
                      | Ok b => Ok b
                      | Err _ => Err "peer ciphertext is not hexadecimal"
                      end in
    if MAX_MESSAGE_BYTES + 32 <? len encrypted then Err "peer ciphertext exceeds its byte limit"
    else
      let aad := message_aad message.(sender) message.(recipient) message.(em_sequence) in
      let? plaintext := ok_or (aead_decrypt self.(session_key) nonce aad encrypted) "peer message authentication failed" in
      let? next := ok_or (checked_add u64_max self.(receive_sequence) 1) "peer receive sequence overflow" in
      Ok (with_receive_sequence self next, plaintext).

(** ** Discovery *)
Record DiscoveryRecord := mkDiscovery { dr_peer : PeerPublic; route_token : string; expires_at_ms : N }.
Definition validate_discovery (self : DiscoveryRecord) (now_ms : N) : result string unit :=
  let? _ := validate_peer self.(dr_peer) in
  if (str_len self.(route_token) <? 32) || (512 <? str_len self.(route_token))
     || existsb char_is_control (str_chars self.(route_token)) || (self.(expires_at_ms) <=? now_ms)
  then Err "discovery record is invalid or expired" else Ok tt.
End Session.

(** ** Channels *)
Record MessageChannel := mkChannel { queue : list bytes; max_messages : N; ch_max_bytes : N; ch_bytes : N }.
Definition new_channel (max_messages max_bytes : N) : result string MessageChannel :=
  if (max_messages =? 0) || (MAX_CHANNEL_MESSAGES <? max_messages) || (max_bytes =? 0) || (MAX_ASSET_BYTES <? max_bytes)
  then Err "message channel limits are invalid"
  else Ok (mkChannel [] max_messages max_bytes 0).
Definition send (self : MessageChannel) (value : bytes) : result string MessageChannel :=
  if (MAX_MESSAGE_BYTES <? len value) || (self.(max_messages) <=? len self.(queue))
     || (self.(ch_max_bytes) <? saturating_add usize_max self.(ch_bytes) (len value))
  then Err "message channel quota exceeded"
  else Ok (mkChannel (self.(queue) ++ [value]) self.(max_messages) self.(ch_max_bytes) (self.(ch_bytes) + len value)).
(** [self.bytes -= value.len()] panics below zero: [None] is the panic. *)
Definition receive (self : MessageChannel) : option (MessageChannel * option bytes) :=
  match self.(queue) with
  | [] => Some (self, None)
  | value :: queue =>
      bytes ← checked_sub self.(ch_bytes) (len value);
      Some (mkChannel queue self.(max_messages) self.(ch_max_bytes) bytes, Some value)
  end.

(** ** Replicated documents *)
Record DocumentOperation := mkOperation {
  op_document_id : string;
  op_key : string;
  op_value : option bytes;
  op_clock : N;
  op_peer_id : string;
}.
#[global] Instance document_operation_eq_dec : EqDecision DocumentOperation.
Proof. solve_decision. Defined.
Record SharedDocument := mkDocument {
  document_id : string;
  doc_entries : gmap string DocumentOperation;
  doc_seen : gset string;
  doc_bytes : N;
}.
Definition validate_token (value label : string) (max : N) : result string unit :=
  if str_is_empty value || (max <? str_len value) || existsb char_is_control (str_chars value)
  then Err (label +:+ " is invalid") else Ok tt.
Definition validate_operation (value : DocumentOperation) (id : string) : result string unit :=
  if negb (bool_decide (value.(op_document_id) = id)) then Err "document operation targets another document"
  else
    let? _ := validate_token value.(op_key) "document key" 1024 in
    let? _ := validate_token value.(op_peer_id) "peer id" 128 in
    if is_some_and (fun bytes => MAX_MESSAGE_BYTES <? len bytes) value.(op_value)
    then Err "document value exceeds its byte limit" else Ok tt.
(** [(operation.clock, &operation.peer_id) > (current.clock, &current.peer_id)] *)
Definition newer (operation current : DocumentOperation) : bool :=
  (current.(op_clock) <? operation.(op_clock))
  || ((current.(op_clock) =? operation.(op_clock)) && str_lt current.(op_peer_id) operation.(op_peer_id)).
Definition value_len (o : option bytes) : N := match o with Some b => len b | None => 0 end.

Section Document.
Context `{Ext : Externals} `{JOp : !Json DocumentOperation}.
Definition operation_id (value : DocumentOperation) : result string string :=
  let? bytes := to_vec value in
  Ok (hex_sha256 bytes).
Definition new_document (id : string) : result string SharedDocument :=
  let? _ := validate_token id "document id" 128 in
  Ok (mkDocument id ∅ ∅ 0).
Definition apply_operation (self : SharedDocument) (operation : DocumentOperation) :
    result string (SharedDocument * bool) :=
  let? _ := validate_operation operation self.(document_id) in
  let? identity := operation_id operation in
  if bool_decide (identity ∈ self.(doc_seen)) then Ok (self, false)
  else if MAX_DOCUMENT_OPERATIONS <=? set_len self.(doc_seen) then Err "document operation limit exceeded"
  else
    let replace := is_none_or (newer operation) (self.(doc_entries) !! operation.(op_key)) in
    let seen := {[identity]} ∪ self.(doc_seen) in
    if replace then
      let old := match self.(doc_entries) !! operation.(op_key) with
                 | Some current => value_len current.(op_value)
                 | None => 0
                 end in
      let new := value_len operation.(op_value) in
      let? next := ok_or (checked_add usize_max (self.(doc_bytes) - old) new) "document byte count overflow" in
      if MAX_DOCUMENT_BYTES <? next then Err "document byte quota exceeded"
      else Ok (mkDocument self.(document_id) (<[operation.(op_key) := operation]> self.(doc_entries)) seen next, true)
    else Ok (mkDocument self.(document_id) self.(doc_entries) seen self.(doc_bytes), false).
(** Operations that were applied stay when a later one fails. *)
Fixpoint apply_all (self : SharedDocument) (l : list DocumentOperation) : SharedDocument * result string unit :=
  match l with
  | [] => (self, Ok tt)
  | operation :: l =>
      match apply_operation self operation with
      | Ok (self, _) => apply_all self l
      | Err e => (self, Err e)
      end
  end.
Definition merge (self other : SharedDocument) : SharedDocument * result string unit :=
  if negb (bool_decide (self.(document_id) = other.(document_id))) then (self, Err "cannot merge different documents")
  else apply_all self (btree_values other.(doc_entries)).
Definition document_get (self : SharedDocument) (key : string) : option bytes :=
  operation ← self.(doc_entries) !! key; operation.(op_value).
End Document.

(** ** Assets *)
Record AssetChunk := mkChunk {
  asset_sha256 : string;
  ck_offset : N;
  ck_total_bytes : N;
  ck_bytes : bytes;
  chunk_sha256 : string;
}.
(** [bytes.chunks(n)]: at most one chunk per byte. *)
Fixpoint chunks_fuel (fuel n : nat) (b : bytes) : list bytes :=
  match fuel, b with
  | O, _ | _, [] => []
  | S fuel, _ => take n b :: chunks_fuel fuel n (drop n b)
  end.
Definition chunks (n : N) (b : bytes) : list bytes := chunks_fuel (length b) (N.to_nat n) b.

Section Assets.
Context `{Ext : Externals}.
Definition split_asset (content : bytes) : result string (list AssetChunk) :=
  if MAX_ASSET_BYTES <? len content then Err "asset exceeds transfer limit"
  else
    let asset := hex_sha256 content in
    Ok (imap (fun index chunk => mkChunk asset (N.of_nat index * ASSET_CHUNK_BYTES) (len content) chunk (hex_sha256 chunk))
          (chunks ASSET_CHUNK_BYTES content)).
Fixpoint assemble_loop (expected : string) (total : N) (output : bytes) (offset : N) (l : list AssetChunk) :
    result string bytes :=
  match l with
  | [] => Ok output
  | chunk :: l =>
      if negb (bool_decide (chunk.(asset_sha256) = expected)) || negb (chunk.(ck_total_bytes) =? total)
         || negb (chunk.(ck_offset) =? offset) || (ASSET_CHUNK_BYTES <? len chunk.(ck_bytes))
         || negb (bool_decide (hex_sha256 chunk.(ck_bytes) = chunk.(chunk_sha256)))
      then Err "asset chunk sequence or integrity is invalid"
      else assemble_loop expected total (output ++ chunk.(ck_bytes)) (offset + len chunk.(ck_bytes)) l
  end.
Definition assemble_asset (l : list AssetChunk) : result string bytes :=
  match l with
  | [] => Ok []
  | first :: _ =>
      let expected := first.(asset_sha256) in
      let total := first.(ck_total_bytes) in
      if MAX_ASSET_BYTES <? total then Err "asset exceeds transfer limit"
      else
        let? output := assemble_loop expected total [] 0 l in
        if negb (len output =? total) || negb (bool_decide (hex_sha256 output = expected))
        then Err "assembled asset identity is invalid"
        else Ok output
  end.
End Assets.

(** ** The packet simulator *)
Record SimulationConfig := mkSimulation {
  base_latency_ms : N;
  jitter_ms : N;
  loss_per_million : N;
  reorder_per_million : N;
  seed : N;
}.
Record SimulatedPacket := mkPacket { sim_sequence : N; deliver_at_ms : N; sim_payload : bytes }.
Definition u32_max : N := 4294967295.
(** The state, and its upper half *)
Definition random_u32 (state : N) : N * N :=
  let state := (state * 6364136223846793005 mod (u64_max + 1) + 1442695040888963407) mod (u64_max + 1) in
  (state, N.shiftr state 32).
Fixpoint simulate_loop (self : SimulationConfig) (state : N) (output : list SimulatedPacket)
    (packets : list (N * bytes)) : result string (list SimulatedPacket) :=
  match packets with
  | [] => Ok output
  | (sequence, payload) :: packets =>
      if MAX_SIMULATED_PACKETS <=? len output then Err "simulated packet count exceeded"
      else if MAX_MESSAGE_BYTES <? len payload then Err "simulated packet exceeds its byte limit"
      else
        let (state, lost) := random_u32 state in
        if lost mod 1000000 <? self.(loss_per_million) then simulate_loop self state output packets
        else
          let spread := saturating_add u32_max (saturating_mul u32_max self.(jitter_ms) 2) 1 in
          let (state, jitter) := if spread =? 0 then (state, 0)
                                 else let (state, r) := random_u32 state in (state, r mod spread) in
          let latency := saturating_add u32_max self.(base_latency_ms) jitter - self.(jitter_ms) in
          let (state, r) := random_u32 state in
          let reorder := r mod 1000000 <? self.(reorder_per_million) in
          let adjustment := if reorder then N.min self.(base_latency_ms) 10 else 0 in
          simulate_loop self state (output ++ [mkPacket sequence (latency - adjustment) payload]) packets
  end.
(** [sort_by_key(|packet| (packet.deliver_at_ms, packet.sequence))] *)
Definition packet_le (a b : SimulatedPacket) : Prop :=
  a.(deliver_at_ms) < b.(deliver_at_ms)
  \/ (a.(deliver_at_ms) = b.(deliver_at_ms) /\ a.(sim_sequence) <= b.(sim_sequence)).
#[global] Instance packet_le_dec : RelDecision packet_le.
Proof. unfold packet_le. solve_decision. Defined.
Definition simulate (self : SimulationConfig) (packets : list (N * bytes)) : result string (list SimulatedPacket) :=
  if (60000 <? self.(base_latency_ms)) || (60000 <? self.(jitter_ms)) || (1000000 <? self.(loss_per_million))
     || (1000000 <? self.(reorder_per_million))
  then Err "network simulation limits are invalid"
  else
    let? output := simulate_loop self self.(seed) [] packets in
    Ok (merge_sort packet_le output).

(** ** The rollback window *)
Record RollbackDatagram := mkDatagram { rb_tick : N; rb_sequence : N; rb_payload : bytes }.
Record RollbackWindow := mkWindow { newest_tick : N; max_rollback_ticks : N; rb_seen : gset (N * N) }.
Definition new_window (max_rollback_ticks : N) : result string RollbackWindow :=
  if (max_rollback_ticks =? 0) || (10000 <? max_rollback_ticks) then Err "rollback window is invalid"
  else Ok (mkWindow 0 max_rollback_ticks ∅).
Definition accept (self : RollbackWindow) (packet : RollbackDatagram) : RollbackWindow * result string bool :=
  if MAX_MESSAGE_BYTES <? len packet.(rb_payload) then (self, Err "datagram exceeds its byte limit")
  else if saturating_add u64_max packet.(rb_tick) self.(max_rollback_ticks) <? self.(newest_tick) then (self, Ok false)
  else
    let newest := N.max self.(newest_tick) packet.(rb_tick) in
    let oldest := newest - self.(max_rollback_ticks) in
    let seen := filter (fun p => oldest <= p.1) self.(rb_seen) in
    if MAX_ROLLBACK_DATAGRAMS <=? set_len seen
    then (mkWindow newest self.(max_rollback_ticks) seen, Err "rollback datagram window is full")
    else (mkWindow newest self.(max_rollback_ticks) ({[(packet.(rb_tick), packet.(rb_sequence))]} ∪ seen),
          Ok (bool_decide ((packet.(rb_tick), packet.(rb_sequence)) ∉ seen))).
