(* ===== verification/NetworkTheorems.v ===== *)
(** * Theorems on HTTP policies, fixtures and the packet simulator *)
From S2P Require Import Prelude Text Core Storage Snapshot Directory Blob Network Peer.

(** ** Policies *)
Lemma check_scopes_Ok l s : check_scopes l = Ok tt -> s ∈ l -> validate_scope s = Ok tt.
Proof.
  induction l as [|x l IH]; cbn [check_scopes]; [set_solver|]. destruct (validate_scope x) as [[]|] eqn:Hx; [|done].
  intros Hl [->|Hs]%elem_of_cons; [done|by apply IH].
Qed.
Lemma strip_prefix_app p s r : strip_prefix p s = Some r -> s = p +:+ r.
Proof.
  revert s. induction p as [|a p IH]; intros s; [by intros [= ->]|]. destruct s as [|b s]; [done|]. cbn [strip_prefix].
  case_bool_decide as Hab; [|done]. intros ->%IH. by subst.
Qed.
(** A path at a prefix or below it, at a boundary of segments. *)
Definition within_prefix (prefix path : string) : Prop :=
  prefix = "/" \/ path = prefix
  \/ exists rest, path = prefix +:+ rest /\ (ends_with_char prefix "/" = true \/ starts_with_char rest "/" = true).
Lemma path_prefix_matches_within prefix path : path_prefix_matches prefix path = true -> within_prefix prefix path.
Proof.
  unfold path_prefix_matches, within_prefix. intros H. apply orb_true_iff in H as [H|H].
  - apply orb_true_iff in H as [H|H]; apply bool_decide_eq_true in H; auto.
  - right. right. destruct (strip_prefix prefix path) as [rest|] eqn:Hr; [|done]. apply strip_prefix_app in Hr as ->.
    exists rest. split; [done|]. by apply orb_true_iff.
Qed.
Definition loopback_names : list string := ["localhost"; "127.0.0.1"; "[::1]"; "::1"].
Lemma loopback_lower host : is_loopback_host host = true -> str_lower host ∈ loopback_names.
Proof.
  unfold is_loopback_host, eq_ignore_ascii_case, loopback_names. rewrite !orb_true_iff, !bool_decide_eq_true.
  intros [[[-> | ->] | ->] | ->]; vm_compute; set_solver.
Qed.

(** A request that is authorized is one the policy declares: the URL carries
    no credentials or fragment, and some scope allows the method and has the
    URL's scheme, host (ignoring case), port and a prefix the path lies within;
    and a plain HTTP URL names a loopback host. *)
Theorem authorized_request_in_scope `{UrlCrate} (policy : HttpPolicy) (request : HttpRequest) (url : Url)
    (Hok : authorize policy request = Ok url) :
  url_parse request.(rq_url) = Some url
  /\ url_username url = "" /\ url_password url = None /\ url_fragment url = None
  /\ len request.(rq_body) <= MAX_HTTP_REQUEST_BYTES
  /\ exists scope h, scope ∈ policy.(scopes) /\ url_host_str url = Some h
       /\ request.(rq_method) ∈ scope.(methods)
       /\ url_scheme url = scope.(scheme)
       /\ str_lower h = str_lower scope.(host)
       /\ url_port url = match scope.(port) with Some p => Some p | None => default_port scope.(scheme) end
       /\ within_prefix scope.(path_prefix) (url_path url)
       /\ (url_scheme url = "http" -> str_lower h ∈ loopback_names).
Proof.
  revert Hok. unfold authorize. destruct (validate_http_policy policy) as [[]|] eqn:Hp; [|done].
  destruct (validate_request request _) as [[]|] eqn:Hr; [|done].
  destruct (url_parse _) as [u|]; [|done]. cbn [ok_or]. pass Hcred. pass Hscope. intros [= ->].
  apply orb_false_iff in Hcred as [Hcred Hfrag]. apply orb_false_iff in Hcred as [Huser Hpass].
  apply negb_false_iff, bool_decide_eq_true in Huser. split; [done|]. split; [done|].
  split; [by destruct (url_password url)|]. split; [by destruct (url_fragment url)|].
  revert Hp. unfold validate_http_policy. pass Hlim. intros Hscopes. split.
  { revert Hr. unfold validate_request. pass Hsize. intros _. split_guard. lia. }
  apply negb_false_iff, existsb_exists in Hscope as (scope & Hin & Hperm). apply list_elem_of_In in Hin.
  pose proof (check_scopes_Ok _ _ Hscopes Hin) as Hvalid. unfold permits in Hperm. rewrite !andb_true_iff in Hperm.
  destruct Hperm as ((((Hm & Hs) & Hh) & Hport) & Hpath). apply bool_decide_eq_true in Hm, Hs, Hport.
  destruct (url_host_str url) as [h|]; [|done]. cbn in Hh. apply bool_decide_eq_true in Hh.
  exists scope, h. split_and!; [done..|by apply path_prefix_matches_within|].
  intros Hhttp. rewrite Hh. apply loopback_lower. revert Hvalid. unfold validate_scope. pass H1. pass H2. intros _.
  rewrite <- Hs, Hhttp, (bool_decide_eq_true_2 ("http" = "http")) in H2 by done. cbn in H2. by apply negb_false_iff in H2.
Qed.

(** ** Fixtures *)
Section FixtureTheorems.
Context `{Ext : Externals} `{UC : UrlCrate} `{JRq : !Json HttpRequest}.
Lemma fingerprint_Ok (request : HttpRequest) print :
  fingerprint request = Ok print -> exists b, to_vec request = Ok b /\ print = hex_sha256 b.
Proof.
  unfold fingerprint. destruct (validate_request _ _); [|done]. destruct (to_vec request) as [b|]; [|done]. intros [= <-]. by exists b.
Qed.

(** A recorded response is replayed: after an insertion into valid fixtures
    the fixtures are valid, replaying the request under the policy gives the
    response, and every request with another fingerprint replays as before. *)
Theorem fixture_round_trip (fixtures fixtures' : HttpFixtures) (policy : HttpPolicy) (request : HttpRequest)
    (response : HttpResponse)
    (Hvalid : invalid_fixtures fixtures = false)
    (Hinsert : fixture_insert fixtures policy request response = Ok fixtures') :
  invalid_fixtures fixtures' = false
  /\ fixture_replay fixtures' policy request = Ok response
  /\ forall policy' other, fingerprint other <> fingerprint request ->
       fixture_replay fixtures' policy' other = fixture_replay fixtures policy' other.
Proof.
  revert Hinsert. unfold fixture_insert. destruct (authorize policy request) as [url|] eqn:Ha; [|done].
  destruct (validate_response policy response) as [[]|] eqn:Hr; [|done].
  destruct (fingerprint request) as [print|] eqn:Hp; [|by destruct (_ <=? _)].
  assert (exists full, (if MAX_FIXTURES <=? btree_len (fx_responses fixtures) then Ok (is_none (fx_responses fixtures !! print)) else Ok false)
      = (Ok full : result string bool) /\ (full = false -> btree_len (<[print := response]> (fx_responses fixtures)) <= MAX_FIXTURES)) as (full & -> & Hfull).
  { unfold invalid_fixtures in Hvalid. apply orb_false_iff in Hvalid as [_ Hlen]. apply N.ltb_ge in Hlen.
    unfold btree_len in *. destruct (N.leb_spec MAX_FIXTURES (N.of_nat (size (fx_responses fixtures)))) as [Hge|Hlt]; eexists; (split; [done|]).
    - destruct (fx_responses fixtures !! print) eqn:Hx; [|done]. intros _. rewrite map_size_insert_Some; [done|by rewrite Hx].
    - intros _. pose proof (map_size_insert print response (fx_responses fixtures)) as Hs. destruct (fx_responses fixtures !! print); cbn in Hs; lia. }
  pass Hf. intros [= <-]. specialize (Hfull eq_refl).
  assert (invalid_fixtures (mkFixtures (fx_format_version fixtures) (<[print := response]> (fx_responses fixtures))) = false) as Hv'.
  { unfold invalid_fixtures in *. cbn [fx_format_version fx_responses]. apply orb_false_iff in Hvalid as [-> _]. by apply N.ltb_ge. }
  split; [done|]. unfold fixture_replay. rewrite Hv', Hvalid, Ha, Hp. cbn [fx_responses]. rewrite lookup_insert_eq. cbn [ok_or]. rewrite Hr.
  split; [done|]. intros policy' other Hne. destruct (authorize policy' other); [|done].
  destruct (fingerprint other) as [print'|]; [|done]. rewrite lookup_insert_ne; [done|]. congruence.
Qed.
End FixtureTheorems.

(** ** The simulator *)
Definition packet_key (p : SimulatedPacket) : N * bytes := (p.(sim_sequence), p.(sim_payload)).
Lemma simulate_loop_spec cfg : cfg.(jitter_ms) <= 60000 -> forall packets state output out,
  simulate_loop cfg state output packets = Ok out ->
  exists more, out = output ++ more /\ packet_key <$> more `sublist_of` packets
    /\ Forall (fun p => p.(deliver_at_ms) <= cfg.(base_latency_ms) + cfg.(jitter_ms)) more
    /\ (cfg.(loss_per_million) = 0 -> packet_key <$> more = packets).
Proof.
  intros Hj. induction packets as [|[sequence payload] packets IH]; intros state output out; cbn [simulate_loop].
  { intros [= <-]. exists []. by rewrite app_nil_r. }
  pass Hc. pass Hm. destruct (random_u32 state) as [s1 lost]. destruct (N.ltb_spec (lost mod 1000000) (loss_per_million cfg)) as [Hlost|_].
  { intros (more & -> & Hsub & Hall & Hloss)%IH. exists more. split; [done|]. split; [by apply sublist_cons|]. split; [done|]. intros H0. rewrite H0 in Hlost. by apply N.nlt_0_r in Hlost. }
  cbn zeta. set (spread := saturating_add u32_max (saturating_mul u32_max (jitter_ms cfg) 2) 1).
  assert (spread = 2 * jitter_ms cfg + 1) as Hspread by (unfold spread, saturating_add, saturating_mul, u32_max; lia).
  destruct (N.eqb_spec spread 0) as [Hz|_]; [lia|]. destruct (random_u32 s1) as [s2 r]. destruct (random_u32 s2) as [s3 r'].
  intros (more & -> & Hsub & Hall & Hloss)%IH. eexists. rewrite <- app_assoc. split; [reflexivity|].
  assert (r mod spread <= 2 * jitter_ms cfg) as Hr by (pose proof (N.mod_lt r spread); lia).
  split_and!.
  - cbn. by apply sublist_skip.
  - constructor; [|done]. cbn [deliver_at_ms]. unfold saturating_add. lia.
  - intros H0. cbn. f_equal. by apply Hloss.
Qed.

#[global] Instance packet_le_trans : Transitive packet_le.
Proof. intros a b c. unfold packet_le. lia. Qed.
#[global] Instance packet_le_total : Total packet_le.
Proof. intros a b. unfold packet_le. lia. Qed.
(** The simulator only delays and drops: the packets it delivers are among
    those sent, each at most as often as it was sent and within the latency and
    jitter of the configuration, in the order of their delivery; without loss
    every packet is delivered. *)
Theorem simulation_only_delays (cfg : SimulationConfig) (packets : list (N * bytes)) (out : list SimulatedPacket)
    (Hrun : simulate cfg packets = Ok out) :
  packet_key <$> out ⊆+ packets
  /\ StronglySorted packet_le out
  /\ Forall (fun p => p.(deliver_at_ms) <= cfg.(base_latency_ms) + cfg.(jitter_ms)) out
  /\ (cfg.(loss_per_million) = 0 -> packet_key <$> out ≡ₚ packets).
Proof.
  revert Hrun. unfold simulate. pass Hg. split_guard. destruct (simulate_loop _ _ _ _) as [o|] eqn:Ho; [|done]. intros [= <-].
  apply simulate_loop_spec in Ho as (more & -> & Hsub & Hall & Hloss); [|lia]. cbn [app] in *.
  pose proof (merge_sort_Permutation packet_le more) as Hp. split_and!.
  - rewrite Hp. by apply sublist_submseteq.
  - apply (StronglySorted_merge_sort packet_le).
  - by rewrite Hp.
  - intros Hno. by rewrite Hp, Hloss.
Qed.

(** ** A concrete policy *)
Definition toy_url : UrlCrate :=
  {| Url := string; url_parse := Some; url_scheme := fun _ => "https"; url_host_str := fun _ => Some "API.example.org";
     url_port := fun _ => Some 443; url_path := fun _ => "/v1/items"; url_username := fun _ => "";
     url_password := fun _ => None; url_fragment := fun _ => None |}.
Section NetworkWitness.
#[local] Existing Instance demo_externals.
#[local] Existing Instance toy_url.
#[local] Instance request_json : Json HttpRequest := demo_json.
Definition api_scope : HttpScope := mkScope "https" "api.example.org" None "/v1" [GET].
Definition api_policy : HttpPolicy := mkPolicy [api_scope] 1024 1024 0.
Definition api_request : HttpRequest := mkRequest GET "https://api.example.org/v1/items" ∅ [].
Lemma authorized_request_in_scope_witness :
  exists scope, scope ∈ api_policy.(scopes) /\ GET ∈ scope.(methods) /\ within_prefix scope.(path_prefix) "/v1/items".
Proof.
  destruct (@authorized_request_in_scope toy_url api_policy api_request "https://api.example.org/v1/items") as (_ & _ & _ & _ & _ & scope & h & Hs & _ & Hm & _ & _ & _ & Hp & _).
  - vm_compute. reflexivity.
  - by exists scope.
Defined.
Definition api_response : HttpResponse := mkResponse 200 ∅ [x2a].
Lemma fixture_round_trip_witness :
  exists f, fixture_insert new_fixtures api_policy api_request api_response = Ok f
    /\ fixture_replay f api_policy api_request = Ok api_response.
Proof.
  destruct (fixture_insert new_fixtures api_policy api_request api_response) as [f|] eqn:Hf; [|vm_compute in Hf; discriminate].
  exists f. split; [done|]. apply (fixture_round_trip new_fixtures f api_policy api_request api_response); [vm_compute; reflexivity|exact Hf].
Defined.
Definition lan : SimulationConfig := mkSimulation 20 5 0 100000 42.
Lemma simulation_only_delays_witness :
  exists out, simulate lan [(1, [x01]); (2, [x02]); (3, [])] = Ok out /\ packet_key <$> out ≡ₚ [(1, [x01]); (2, [x02]); (3, [])].
Proof.
  destruct (simulate lan [(1, [x01]); (2, [x02]); (3, [])]) as [out|] eqn:Ho; [|vm_compute in Ho; discriminate].
  exists out. split; [done|]. by apply (simulation_only_delays lan [(1, [x01]); (2, [x02]); (3, [])] out Ho).
Defined.
End NetworkWitness.
