(* ===== verification/PeerTheorems.v ===== *)
(** * Theorems on peers

    The rollback window delivers a datagram at most once; a channel is a bounded
    queue; documents with the same operations agree; an asset survives being
    split; a session delivers each sealed message once and in order. *)
From S2P Require Import Prelude Text Core Storage StorageSpec Snapshot Directory Blob Network Peer.

(** ** The rollback window *)
Definition datagram_key (p : RollbackDatagram) : N * N := (p.(rb_tick), p.(rb_sequence)).
(** The keys of the datagrams a run of the window accepts, the last one first,
    and the window it ends in. *)
Definition window_step (s : RollbackWindow * list (N * N)) (p : RollbackDatagram) : RollbackWindow * list (N * N) :=
  let (w, r) := accept s.1 p in
  (w, match r with Ok true => datagram_key p :: s.2 | _ => s.2 end).
Definition run_window (w : RollbackWindow) (l : list RollbackDatagram) : RollbackWindow * list (N * N) :=
  foldl window_step (w, []) l.

(** What was delivered is remembered, or too old to come again. *)
Record window_ok (max : N) (w : RollbackWindow) (delivered : list (N * N)) : Prop := {
  wo_max : w.(max_rollback_ticks) = max;
  wo_nodup : NoDup delivered;
  wo_known : forall k, k ∈ delivered -> k ∈ w.(rb_seen) \/ k.1 + max < w.(newest_tick);
  wo_recent : forall k, k ∈ w.(rb_seen) -> w.(newest_tick) <= k.1 + max /\ k.1 <= w.(newest_tick);
  wo_bound : set_len w.(rb_seen) <= MAX_ROLLBACK_DATAGRAMS;
}.

Lemma window_step_ok max s p : window_ok max s.1 s.2 -> window_ok max (window_step s p).1 (window_step s p).2.
Proof.
  destruct s as [w del]. cbn [fst snd]. intros [Hm Hn Hk Hr Hb]. unfold window_step, accept. cbn [fst snd].
  destruct (_ <? len _); [by constructor|].
  destruct (N.ltb_spec (saturating_add u64_max (rb_tick p) (max_rollback_ticks w)) (newest_tick w)) as [Hold|Hnew]; [by constructor|].
  set (newest := N.max (newest_tick w) (rb_tick p)). set (seen := filter _ (rb_seen w)).
  assert (forall k, k ∈ seen <-> newest - max <= k.1 /\ k ∈ rb_seen w) as Hseen.
  { intros k. unfold seen. rewrite elem_of_filter. unfold newest. by rewrite Hm. }
  assert (forall k, k ∈ del -> k ∈ seen \/ k.1 + max < newest) as Hk'.
  { intros k [Hin|Hlt]%Hk; [|right; unfold newest; lia]. destruct (N.le_gt_cases (newest - max) k.1); [left|right; lia]. by apply Hseen. }
  assert (forall k, k ∈ seen -> newest <= k.1 + max /\ k.1 <= newest) as Hr'.
  { intros k [Hl Hin]%Hseen. destruct (Hr _ Hin). unfold newest in *. lia. }
  assert (size seen <= size (rb_seen w))%nat as Hsub by (apply subseteq_size; intros k; rewrite Hseen; tauto).
  assert (rb_tick p + max < newest -> False) as Hfresh.
  { rewrite Hm in Hnew. unfold saturating_add, newest in *. lia. }
  destruct (N.leb_spec MAX_ROLLBACK_DATAGRAMS (set_len seen)) as [Hfull|Hroom]; cbn [fst snd].
  { constructor; cbn; auto. unfold set_len in *. lia. }
  assert (set_len ({[datagram_key p]} ∪ seen) <= MAX_ROLLBACK_DATAGRAMS) as Hb'.
  { unfold set_len in *. pose proof (size_union_alt {[datagram_key p]} seen) as Hs. rewrite size_singleton in Hs.
    assert (size (seen ∖ {[datagram_key p]}) <= size seen)%nat by (apply subseteq_size; set_solver). lia. }
  assert (forall k, k ∈ {[datagram_key p]} ∪ seen -> newest <= k.1 + max /\ k.1 <= newest) as Hr''.
  { intros k [->%elem_of_singleton|Hin]%elem_of_union; [|by apply Hr']. unfold datagram_key, newest in *. cbn [fst] in *. lia. }
  assert (forall k, k ∈ del -> k ∈ {[datagram_key p]} ∪ seen \/ k.1 + max < newest) as Hk''.
  { intros k [Hin|Hlt]%Hk'; [left; set_solver|by right]. }
  case_bool_decide as Hin; constructor; cbn; auto.
  - apply NoDup_cons. split; [|done]. intros [?|Hlt]%Hk'; [done|]. by apply Hfresh.
  - intros k [->|Hin']%elem_of_cons; [left; set_solver|by apply Hk''].
Qed.

(** The rollback window delivers at most once: whatever datagrams arrive in
    whatever order, the keys of those it accepts are distinct, and it never
    remembers more than its limit, nor anything outside its ticks. *)
Theorem rollback_delivers_at_most_once (max : N) (w : RollbackWindow) (l : list RollbackDatagram)
    (Hnew : new_window max = Ok w) :
  let (w', delivered) := run_window w l in
  NoDup delivered
  /\ set_len w'.(rb_seen) <= MAX_ROLLBACK_DATAGRAMS
  /\ forall k, k ∈ w'.(rb_seen) -> w'.(newest_tick) <= k.1 + max /\ k.1 <= w'.(newest_tick).
Proof.
  revert Hnew. unfold new_window. pass Hm. intros [= <-].
  assert (forall s, window_ok max s.1 s.2 -> window_ok max (foldl window_step s l).1 (foldl window_step s l).2) as Hrun.
  { induction l as [|p l IH]; intros s Hs; [done|]. cbn [foldl]. by apply IH, window_step_ok. }
  unfold run_window. specialize (Hrun (mkWindow 0 max ∅, [])).
  destruct (foldl window_step _ l) as [w' del]. destruct Hrun as [_ Hn _ Hr Hb]; [|done].
  constructor; cbn; [done|constructor|set_solver|set_solver|]. unfold set_len. rewrite size_empty. unfold MAX_ROLLBACK_DATAGRAMS. lia.
Qed.
Lemma rollback_delivers_at_most_once_witness :
  let p := mkDatagram 5 1 [] in
  exists w, new_window 10 = Ok w /\ (run_window w [p; mkDatagram 3 0 []; p]).2 = [(3, 0); (5, 1)] /\ NoDup [(3, 0); (5, 1)].
Proof.
  eexists. split; [reflexivity|]. split; [vm_compute; reflexivity|].
  pose proof (rollback_delivers_at_most_once 10 (mkWindow 0 10 ∅) [mkDatagram 5 1 []; mkDatagram 3 0 []; mkDatagram 5 1 []] eq_refl) as H.
  vm_compute run_window in H. apply H.
Defined.

(** ** Channels *)
Inductive channel_op := ChSend (value : bytes) | ChReceive.
(** A run of a channel: the messages it took and those it gave, in order;
    [None] where the byte counter would pass below zero. *)
Record channel_run := mkChannelRun { cr_channel : MessageChannel; cr_taken : list bytes; cr_given : list bytes }.
Definition channel_step (s : channel_run) (op : channel_op) : option channel_run :=
  match op with
  | ChSend value =>
      match send s.(cr_channel) value with
      | Ok c => Some (mkChannelRun c (s.(cr_taken) ++ [value]) s.(cr_given))
      | Err _ => Some s
      end
  | ChReceive =>
      '(c, got) ← receive s.(cr_channel);
      Some (mkChannelRun c s.(cr_taken) (s.(cr_given) ++ option_list got))
  end.
Fixpoint run_channel (s : channel_run) (l : list channel_op) : option channel_run :=
  match l with [] => Some s | op :: l => s ← channel_step s op; run_channel s l end.

Record channel_ok (max_messages max_bytes : N) (s : channel_run) : Prop := {
  co_limits : s.(cr_channel).(Peer.max_messages) = max_messages /\ s.(cr_channel).(ch_max_bytes) = max_bytes;
  co_order : s.(cr_taken) = s.(cr_given) ++ s.(cr_channel).(queue);
  co_bytes : s.(cr_channel).(ch_bytes) = sumN (len <$> s.(cr_channel).(queue));
  co_bound : s.(cr_channel).(ch_bytes) <= max_bytes /\ len s.(cr_channel).(queue) <= max_messages;
}.
Lemma channel_step_ok mm mb s op :
  mb < usize_max -> channel_ok mm mb s -> exists s', channel_step s op = Some s' /\ channel_ok mm mb s'.
Proof.
  intros Hmb [[Hm Hb] Ho Hs [Hlb Hlm]]. destruct op as [value|]; cbn [channel_step].
  - unfold send. destruct (_ || _) eqn:Hg; [by exists s|]. apply orb_false_iff in Hg as [Hg Hg3].
    apply orb_false_iff in Hg as [Hg1 Hg2]. apply N.ltb_ge in Hg3. apply N.leb_gt in Hg2. unfold saturating_add in Hg3.
    eexists. split; [done|]. constructor; cbn.
    + done.
    + by rewrite Ho, app_assoc.
    + rewrite fmap_app, sumN_app, Hs. cbn. rewrite sumN_cons, sumN_nil. lia.
    + unfold len in *. rewrite length_app. cbn [length]. lia.
  - unfold receive. destruct (queue (cr_channel s)) as [|value rest] eqn:Hq.
    + cbn. eexists. split; [done|]. constructor; cbn; [done|by rewrite app_nil_r, Hq|by rewrite Hq|by rewrite Hq].
    + assert (checked_sub (ch_bytes (cr_channel s)) (len value) = Some (sumN (len <$> rest))) as ->.
      { rewrite Hs. cbn. rewrite sumN_cons. unfold checked_sub. destruct (N.leb_spec (len value) (len value + sumN (len <$> rest))); [|lia].
        f_equal. lia. }
      cbn. eexists. split; [done|]. rewrite Hs in Hlb. cbn in Hlb. rewrite sumN_cons in Hlb.
      constructor; cbn; [done|by rewrite Ho, <- app_assoc|done|]. unfold len in *. cbn [length] in Hlm. split; lia.
Qed.

(** A message channel is a bounded first-in first-out queue: whatever is
    sent and received, the byte counter never passes below zero, it is the sum
    of the queued sizes, both limits hold, and the messages taken are those
    given, in the same order, followed by those still queued. *)
Theorem channel_is_bounded_queue (max_messages max_bytes : N) (c : MessageChannel) (l : list channel_op)
    (Hnew : new_channel max_messages max_bytes = Ok c) :
  exists s, run_channel (mkChannelRun c [] []) l = Some s
    /\ s.(cr_taken) = s.(cr_given) ++ s.(cr_channel).(queue)
    /\ s.(cr_channel).(ch_bytes) = sumN (len <$> s.(cr_channel).(queue))
    /\ s.(cr_channel).(ch_bytes) <= max_bytes /\ len s.(cr_channel).(queue) <= max_messages.
Proof.
  revert Hnew. unfold new_channel. pass Hg. intros [= <-]. apply orb_false_iff in Hg as [Hg Hmb]. apply N.ltb_ge in Hmb.
  assert (max_bytes < usize_max) as Hmax by (unfold MAX_ASSET_BYTES, usize_max, u64_max in *; lia).
  assert (forall s, channel_ok max_messages max_bytes s -> exists s', run_channel s l = Some s' /\ channel_ok max_messages max_bytes s') as Hrun.
  { induction l as [|op l IH]; intros s Hs; [by exists s|]. cbn [run_channel].
    destruct (channel_step_ok _ _ s op Hmax Hs) as (s1 & -> & Hs1). cbn. by apply IH. }
  destruct (Hrun (mkChannelRun (mkChannel [] max_messages max_bytes 0) [] [])) as (s' & Hr & [_ Ho Hs [Hlb Hlm]]).
  { constructor; cbn; [done|done|by rewrite sumN_nil|split; apply N.le_0_l]. }
  by exists s'.
Qed.
Lemma channel_is_bounded_queue_witness :
  exists c s, new_channel 2 10 = Ok c
    /\ run_channel (mkChannelRun c [] []) [ChSend [x01]; ChSend [x02]; ChSend [x03]; ChReceive] = Some s
    /\ s.(cr_given) = [[x01]] /\ s.(cr_taken) = s.(cr_given) ++ s.(cr_channel).(queue).
Proof.
  destruct (channel_is_bounded_queue 2 10 (mkChannel [] 2 10 0) [ChSend [x01]; ChSend [x02]; ChSend [x03]; ChReceive] eq_refl)
    as (s & Hr & Ho & _).
  exists (mkChannel [] 2 10 0), s. split; [reflexivity|]. split; [exact Hr|]. split; [|exact Ho].
  vm_compute in Hr. injection Hr as <-. reflexivity.
Defined.

(** ** Documents *)
Lemma str_lt_total (a b : string) : str_lt a b = false -> str_lt b a = false -> a = b.
Proof.
  unfold str_lt. intros Hab Hba. destruct (decide (a = b)) as [|Hne]; [done|].
  rewrite !(bool_decide_eq_false_2 (_ = _)) in * by congruence. cbn in *. rewrite !andb_true_r in *.
  apply bool_decide_eq_false in Hab, Hba. destruct (total String.le a b); done.
Qed.
Definition same_stamp (a b : DocumentOperation) : Prop :=
  a.(op_key) = b.(op_key) /\ a.(op_clock) = b.(op_clock) /\ a.(op_peer_id) = b.(op_peer_id).
Lemma newer_irrefl a b : same_stamp a b -> newer a b = false.
Proof.
  intros (_ & Hc & Hp). unfold newer. rewrite Hc, Hp, N.ltb_irrefl, str_lt_irrefl. cbn. by rewrite andb_false_r.
Qed.
Lemma newer_trans a b c : newer a b = true -> newer b c = true -> newer a c = true.
Proof.
  unfold newer. intros Hab Hbc. apply orb_true_iff in Hab as [Hab|Hab], Hbc as [Hbc|Hbc].
  - apply N.ltb_lt in Hab, Hbc. apply orb_true_iff. left. apply N.ltb_lt. lia.
  - apply andb_true_iff in Hbc as [Hbc _]. apply N.ltb_lt in Hab. apply N.eqb_eq in Hbc. apply orb_true_iff. left. apply N.ltb_lt. lia.
  - apply andb_true_iff in Hab as [Hab _]. apply N.ltb_lt in Hbc. apply N.eqb_eq in Hab. apply orb_true_iff. left. apply N.ltb_lt. lia.
  - apply andb_true_iff in Hab as [Hab Hsa], Hbc as [Hbc Hsb]. apply N.eqb_eq in Hab, Hbc. apply orb_true_iff. right.
    apply andb_true_iff. split; [apply N.eqb_eq; lia|by eapply str_lt_trans].
Qed.
Lemma newer_total a b : op_key a = op_key b -> newer a b = false -> newer b a = false -> same_stamp a b.
Proof.
  unfold newer. intros Hk Hab Hba. apply orb_false_iff in Hab as [Hab Hsa], Hba as [Hba Hsb]. apply N.ltb_ge in Hab, Hba.
  assert (op_clock a = op_clock b) as Hc by lia. rewrite Hc, N.eqb_refl in *. cbn in *. split; [done|]. split; [done|].
  by apply str_lt_total.
Qed.

(** The last writer of a key among some operations. *)
Definition last_writer (l : list DocumentOperation) (key : string) (r : option DocumentOperation) : Prop :=
  match r with
  | Some o => o ∈ l /\ o.(op_key) = key /\ forall o', o' ∈ l -> o'.(op_key) = key -> newer o' o = false
  | None => forall o', o' ∈ l -> o'.(op_key) <> key
  end.
(** Operations that are told apart by their stamps and by their digests. *)
Definition distinguished `{Externals} `{!Json DocumentOperation} (l : list DocumentOperation) : Prop :=
  forall a b, a ∈ l -> b ∈ l ->
    (same_stamp a b -> a = b) /\ (forall i, operation_id a = Ok i -> operation_id b = Ok i -> a = b).

Section Documents.
Context `{Ext : Externals} `{JOp : !Json DocumentOperation} (universe : list DocumentOperation)
  (Hdist : distinguished universe).

Lemma last_writer_unique l l' key r r' :
  (forall o, o ∈ l <-> o ∈ l') -> (forall o, o ∈ l -> o ∈ universe) ->
  last_writer l key r -> last_writer l' key r' -> r = r'.
Proof.
  intros Hsame Hsub Hr Hr'. destruct r as [o|], r' as [o'|]; cbn in *; [| | |done].
  - destruct Hr as (Hin & Hk & Hmax), Hr' as (Hin' & Hk' & Hmax'). f_equal. apply (Hdist o o'); [by auto|by apply Hsub, Hsame|].
    apply newer_total; [congruence|apply Hmax'; [by apply Hsame|done]|apply Hmax; [by apply Hsame|done]].
  - destruct Hr as (Hin & Hk & _). by destruct (Hr' o); [apply Hsame|].
  - destruct Hr' as (Hin & Hk & _). by destruct (Hr o'); [apply Hsame|].
Qed.

(** A document that has seen these operations. *)
Record document_of (id : string) (ops : list DocumentOperation) (d : SharedDocument) : Prop := {
  do_id : d.(document_id) = id;
  do_entries : forall key, last_writer ops key (d.(doc_entries) !! key);
  do_seen : forall i, i ∈ d.(doc_seen) -> exists o, o ∈ ops /\ operation_id o = Ok i;
}.
Lemma last_writer_same l o key r : o ∈ l -> last_writer l key r -> last_writer (o :: l) key r.
Proof.
  intros Ho. destruct r as [x|]; cbn.
  - intros (Hx & Hk & Hmax). split_and!; [set_solver|done|]. intros o' [->|Ho']%elem_of_cons; auto.
  - intros Hn o' [->|Ho']%elem_of_cons; auto.
Qed.
Lemma apply_operation_ok id ops d o d' b :
  (forall x, x ∈ o :: ops -> x ∈ universe) ->
  document_of id ops d -> apply_operation d o = Ok (d', b) -> document_of id (o :: ops) d'.
Proof.
  intros Hsub [Hid He Hs]. unfold apply_operation. destruct (validate_operation _ _) as [[]|]; [|done].
  destruct (operation_id o) as [i|] eqn:Hi; [|done]. case_bool_decide as Hin.
  { intros [= <- <-]. destruct (Hs i Hin) as (x & Hx & Hxi).
    assert (x = o) as -> by (apply (Hdist x o) with i; [apply Hsub; set_solver..|done|done]).
    constructor; [done|intros key; by apply last_writer_same|]. intros j (y & Hy & Hyj)%Hs. exists y. set_solver. }
  pass Hlim. cbn zeta.
  assert (forall j, j ∈ {[i]} ∪ doc_seen d -> exists x, x ∈ o :: ops /\ operation_id x = Ok j) as Hs'.
  { intros j [->%elem_of_singleton|(y & Hy & Hyj)%Hs]%elem_of_union; [exists o|exists y]; set_solver. }
  assert (forall key, key <> op_key o -> last_writer (o :: ops) key (doc_entries d !! key)) as Hother.
  { intros key Hne. specialize (He key). destruct (doc_entries d !! key) as [x|]; cbn in *.
    - destruct He as (Hx & Hk & Hmax). split_and!; [set_solver|done|]. intros o' [->|Ho']%elem_of_cons Hk'; [congruence|by apply Hmax].
    - intros o' [->|Ho']%elem_of_cons; [congruence|by apply He]. }
  pose proof (He (op_key o)) as Hkey. destruct (is_none_or (newer o) _) eqn:Hrep.
  - destruct (ok_or _ _) as [next|]; [|done]. pass Hq. intros [= <- <-]. constructor; cbn; [done| |done].
    intros key. destruct (decide (key = op_key o)) as [->|Hne]; [|rewrite lookup_insert_ne by done; by apply Hother].
    rewrite lookup_insert_eq. split_and!; [set_solver|done|]. intros o' [->|Ho']%elem_of_cons Hk'; [by apply newer_irrefl|].
    destruct (doc_entries d !! op_key o) as [x|]; cbn in *.
    + destruct Hkey as (Hx & Hxk & Hmax). destruct (newer o' o) eqn:Hn; [|done].
      pose proof (newer_trans o' o x Hn Hrep) as Ht. rewrite (Hmax o') in Ht by congruence. done.
    + by destruct (Hkey o').
  - intros [= <- <-]. constructor; cbn; [done| |done]. intros key. destruct (decide (key = op_key o)) as [->|Hne]; [|by apply Hother].
    destruct (doc_entries d !! op_key o) as [x|]; cbn in *; [|done]. destruct Hkey as (Hx & Hxk & Hmax).
    split_and!; [set_solver|done|]. intros o' [->|Ho']%elem_of_cons Hk'; [done|by apply Hmax].
Qed.

Lemma apply_all_ok l : forall id ops d d',
  (forall x, x ∈ ops ++ l -> x ∈ universe) ->
  document_of id ops d -> apply_all d l = (d', Ok tt) -> document_of id (reverse l ++ ops) d'.
Proof.
  induction l as [|o l IH]; intros id ops d d' Hsub Hd; cbn [apply_all]; [by intros [= <-]|].
  destruct (apply_operation d o) as [[d1 b]|e] eqn:Ho; [|done]. intros Hrun.
  assert (document_of id (o :: ops) d1) as Hd1 by (eapply apply_operation_ok; [|done|done]; set_solver).
  rewrite reverse_cons, <- app_assoc. eapply (IH id (o :: ops)); [|done|done]. set_solver.
Qed.
Lemma document_ops l id d d' :
  (forall x, x ∈ l -> x ∈ universe) -> new_document id = Ok d -> apply_all d l = (d', Ok tt) -> document_of id (reverse l) d'.
Proof.
  intros Hsub Hnew Hrun. rewrite <- (app_nil_r (reverse l)). eapply apply_all_ok; [done| |done].
  unfold new_document in Hnew. destruct (validate_token _ _ _); [|done]. injection Hnew as <-.
  constructor; cbn; [done| |set_solver]. intros key. rewrite lookup_empty. cbn. set_solver.
Qed.

(** The entries of a document stand for all its operations. *)
Lemma last_writer_values id ops d l key r :
  (forall x, x ∈ ops -> x ∈ universe) -> document_of id ops d ->
  last_writer (btree_values d.(doc_entries) ++ l) key r -> last_writer (ops ++ l) key r.
Proof.
  intros Hsub [_ He _]. assert (forall x, x ∈ btree_values (doc_entries d) -> x ∈ ops) as Hval.
  { intros x [k Hk]%btree_values_elem. specialize (He k). rewrite Hk in He. apply He. }
  assert (forall x, x ∈ ops -> exists y, y ∈ btree_values (doc_entries d) /\ op_key y = op_key x /\ newer x y = false) as Hcover.
  { intros x Hx. pose proof (He (op_key x)) as Hk. destruct (doc_entries d !! op_key x) as [y|] eqn:Hy; [|by destruct (Hk x)].
    destruct Hk as (Hyin & Hyk & Hmax). exists y. split_and!; [apply btree_values_elem; eauto|done|by apply Hmax]. }
  destruct r as [o|]; cbn.
  - intros (Ho & Hk & Hmax). split_and!; [set_solver|done|].
    intros o' [Ho'|Ho']%elem_of_app Hk'; [|apply Hmax; set_solver].
    destruct (Hcover o' Ho') as (y & Hy & Hyk & Hny). assert (newer y o = false) as Hyo by (apply Hmax; [set_solver|congruence]).
    destruct (newer o' o) eqn:Hn; [|done]. exfalso. destruct (newer y o') eqn:Hyo'.
    + pose proof (newer_trans y o' o Hyo' Hn). congruence.
    + destruct (newer_total y o' Hyk Hyo' Hny) as (_ & Hc & Hp). unfold newer in *. rewrite Hc, Hp in Hyo. congruence.
  - intros Hn o' [Ho'|Ho']%elem_of_app; [|apply Hn; set_solver]. destruct (Hcover o' Ho') as (y & Hy & <- & _). apply Hn. set_solver.
Qed.

Lemma merged_last_writer id l1 l2 d0 d1 d2 d12 key :
  (forall x, x ∈ l1 ++ l2 -> x ∈ universe) ->
  new_document id = Ok d0 -> apply_all d0 l1 = (d1, Ok tt) -> apply_all d0 l2 = (d2, Ok tt) ->
  merge d1 d2 = (d12, Ok tt) -> last_writer (l1 ++ l2) key (d12.(doc_entries) !! key).
Proof.
  intros Hsub Hnew H1 H2 Hm.
  assert (document_of id (reverse l1) d1) as Hd1 by (eapply document_ops; [|done|done]; set_solver).
  assert (document_of id (reverse l2) d2) as Hd2 by (eapply document_ops; [|done|done]; set_solver).
  unfold merge in Hm. destruct (negb _); [done|].
  assert (forall x, x ∈ btree_values (doc_entries d2) -> x ∈ l2) as Hval.
  { intros x [k Hk]%btree_values_elem. pose proof (do_entries _ _ _ Hd2 k) as Hl. rewrite Hk in Hl. destruct Hl as [Hl _]. by rewrite elem_of_reverse in Hl. }
  apply (apply_all_ok _ id (reverse l1)) in Hm as [_ He _]; [|set_solver|done].
  assert (forall l l' r, (forall x, x ∈ l <-> x ∈ l') -> last_writer l key r -> last_writer l' key r) as Hext.
  { intros l l' [o|] Hll; cbn; [intros (Ho & Hk & Hmax); split_and!; [by apply Hll|done|]; intros o' Ho'; by apply Hmax, Hll|].
    intros Hn o' Ho'. by apply Hn, Hll. }
  specialize (He key). apply (Hext _ (btree_values (doc_entries d2) ++ reverse l1)) in He; [|set_solver].
  apply (last_writer_values id (reverse l2)) in He; [|set_solver|done]. eapply Hext; [|exact He]. set_solver.
Qed.
End Documents.


Section DocumentWitness.
#[local] Existing Instance demo_externals.
Definition write (value : bytes) (clock : N) (peer : string) : DocumentOperation :=
  mkOperation "notes" "title" (Some value) clock peer.
Definition op_one : DocumentOperation := write [x01] 1 "ann".
Definition op_two : DocumentOperation := write [x02] 2 "bob".
(** A second value under the stamp of the first. *)
Definition op_tie : DocumentOperation := write [x03] 1 "ann".
#[local] Instance operation_json : Json DocumentOperation := table_json [op_one; op_two; op_tie].
Definition empty_notes : SharedDocument := mkDocument "notes" ∅ ∅ 0.
Lemma two_distinguished : distinguished ([op_one] ++ [op_two]).
Proof.
  assert (op_one = op_two -> False) as Hne by (intros H; apply (f_equal op_clock) in H; vm_compute in H; discriminate).
  intros a b Ha Hb. cbn in Ha, Hb.
  assert (a = op_one \/ a = op_two) as [-> | ->] by set_solver; assert (b = op_one \/ b = op_two) as [-> | ->] by set_solver;
    (split; [intros (_ & Hc & _); try done; vm_compute in Hc; discriminate|]);
    intros i H1 H2; try done; rewrite H1 in H2 || rewrite <- H1 in H2; vm_compute in H1, H2; congruence.
Qed.

(** Stamps are not unique to an operation: a peer that writes two values under
    one clock leaves documents that never agree. *)
Lemma equal_stamps_diverge :
  let d1 := (apply_all empty_notes [op_one; op_tie]).1 in
  let d2 := (apply_all empty_notes [op_tie; op_one]).1 in
  document_get (merge d1 d2).1 "title" = Some [x01] /\ document_get (merge d2 d1).1 "title" = Some [x03].
Proof. vm_compute. done. Qed.
End DocumentWitness.

(** ** Assets *)
Section AssetTheorems.
Context `{Ext : Externals}.

Lemma chunks_fuel_spec n : (0 < n)%nat -> forall fuel b, (length b <= fuel)%nat ->
  concat (chunks_fuel fuel n b) = b
  /\ Forall (fun c => length c <= n)%nat (chunks_fuel fuel n b)
  /\ (forall i c, chunks_fuel fuel n b !! i = Some c -> length (concat (take i (chunks_fuel fuel n b))) = (i * n)%nat).
Proof.
  intros Hn. induction fuel as [|fuel IH]; intros b Hb.
  - destruct b; [|cbn in Hb; lia]. split_and!; [done|constructor|done].
  - destruct b as [|x b]; [split_and!; [done|constructor|done]|]. set (y := x :: b) in *.
    assert (chunks_fuel (S fuel) n y = take n y :: chunks_fuel fuel n (drop n y)) as -> by done.
    destruct (IH (drop n y)) as (Hc & Hf & Ho); [rewrite length_drop; cbn in *; lia|]. split_and!.
    + cbn [concat]. by rewrite Hc, take_drop.
    + constructor; [|done]. rewrite length_take. lia.
    + intros [|i] c Hi; [done|]. cbn in Hi. cbn [take concat]. rewrite length_app, (Ho i c Hi), length_take.
      assert (0 < length (drop n y))%nat as Hd; [|rewrite length_drop in Hd; lia].
      destruct (drop n y); [by destruct fuel|cbn; lia].
Qed.

(** The chunks of a content are assembled in their order. *)
Lemma assemble_loop_ok asset total l : forall output k,
  (forall i c, l !! i = Some c -> len output + len (concat (take i l)) = (N.of_nat (k + i)) * ASSET_CHUNK_BYTES) ->
  Forall (fun c => len c <= ASSET_CHUNK_BYTES) l ->
  assemble_loop asset total output (len output)
    (imap (fun i c => mkChunk asset (N.of_nat (k + i) * ASSET_CHUNK_BYTES) total c (hex_sha256 c)) l)
  = Ok (output ++ concat l).
Proof.
  induction l as [|c l IH]; intros output k Hoff Hlen; [cbn; by rewrite app_nil_r|].
  rewrite imap_cons. cbn [assemble_loop asset_sha256 ck_total_bytes ck_offset ck_bytes chunk_sha256].
  inversion Hlen as [|? ? Hc Hl]; subst. rewrite !bool_decide_eq_true_2, N.eqb_refl by done.
  assert ((N.of_nat (k + 0) * ASSET_CHUNK_BYTES =? len output) = true) as ->.
  { apply N.eqb_eq. rewrite <- (Hoff 0%nat c) by done. unfold len. cbn. lia. }
  assert ((ASSET_CHUNK_BYTES <? len c) = false) as -> by (by apply N.ltb_ge). cbn [negb orb].
  assert (len output + len c = len (output ++ c)) as -> by (unfold len; rewrite length_app; lia).
  cbn [concat]. rewrite app_assoc, <- (IH (output ++ c) (S k)).
  - f_equal. apply imap_ext. intros i x Hx. cbn. f_equal. f_equal. f_equal. lia.
  - intros i x Hx. specialize (Hoff (S i) x Hx). cbn [take concat] in Hoff. unfold len in *. rewrite !length_app in *. lia.
  - done.
Qed.
Lemma assemble_loop_inv l : forall asset total output out,
  assemble_loop asset total output (len output) l = Ok out ->
  out = output ++ concat (ck_bytes <$> l)
  /\ Forall (fun c => c.(asset_sha256) = asset /\ hex_sha256 c.(ck_bytes) = c.(chunk_sha256)) l.
Proof.
  induction l as [|c l IH]; intros asset total output out; cbn [assemble_loop].
  - intros [= <-]. cbn. by rewrite app_nil_r.
  - pass Hg. apply orb_false_iff in Hg as [Hg Hh]. do 3 apply orb_false_iff in Hg as [Hg ?].
    apply negb_false_iff, bool_decide_eq_true in Hg, Hh.
    assert (len output + len (ck_bytes c) = len (output ++ ck_bytes c)) as -> by (unfold len; rewrite length_app; lia).
    intros [-> Hall]%IH. cbn. rewrite <- app_assoc. split; [done|]. by constructor.
Qed.
End AssetTheorems.

(** An asset survives its transfer: the chunks it is split into assemble to
    it again; and whatever non-empty list of chunks assembles, the result is
    their contents in order, has the digest every chunk names, and each chunk
    has its own digest. *)
Theorem asset_transfer_round_trip `{Externals} (content : bytes) (l : list AssetChunk) (out : bytes) :
  (split_asset content = Ok l -> assemble_asset l = Ok content)
  /\ (assemble_asset l = Ok out ->
      out = concat (ck_bytes <$> l)
      /\ Forall (fun c => c.(asset_sha256) = hex_sha256 out /\ hex_sha256 c.(ck_bytes) = c.(chunk_sha256)) l).
Proof.
  split.
  - unfold split_asset. pass Hmax. apply N.ltb_ge in Hmax. intros [= <-].
    assert (0 < N.to_nat ASSET_CHUNK_BYTES)%nat as Hpos by (unfold ASSET_CHUNK_BYTES; lia).
    destruct (chunks_fuel_spec (N.to_nat ASSET_CHUNK_BYTES) Hpos (length content) content) as (Hc & Hf & Ho); [lia|].
    fold (chunks ASSET_CHUNK_BYTES content) in *.
    destruct content as [|x b]; [done|]. set (content := x :: b) in *.
    destruct (chunks ASSET_CHUNK_BYTES content) as [|c cs] eqn:Hcs; [cbn in Hc; by subst content|].
    pose proof (assemble_loop_ok (hex_sha256 content) (len content) (c :: cs) [] 0) as Hrun.
    unfold assemble_asset. rewrite imap_cons in *. cbn [asset_sha256 ck_total_bytes].
    assert ((MAX_ASSET_BYTES <? len content) = false) as -> by (by apply N.ltb_ge).
    change (len []) with 0 in Hrun. cbn [Nat.add] in Hrun. rewrite Hrun.
    + cbn [app]. rewrite Hc, N.eqb_refl, bool_decide_eq_true_2 by done. done.
    + intros i y Hy. unfold len. rewrite (Ho i y Hy). cbn [length Nat.add]. unfold ASSET_CHUNK_BYTES. lia.
    + eapply Forall_impl; [exact Hf|]. intros y Hy. unfold len. cbn in Hy. lia.
  - unfold assemble_asset. destruct l as [|c l]; [intros [= <-]; split; [done|constructor]|].
    set (cs := c :: l). cbn zeta. pass Hmax. destruct (assemble_loop _ _ _ _ _) as [o|] eqn:Ho; [|done]. pass Hid.
    intros [= <-]. apply orb_false_iff in Hid as [_ Hid]. apply negb_false_iff, bool_decide_eq_true in Hid.
    apply (assemble_loop_inv cs) in Ho as [-> Hall]. cbn [app] in *. split; [done|]. rewrite Hid. done.
Qed.

(** ** Sessions *)
Section SessionTheorems.
Context `{Ext : Externals} `{Hex : HexDecode} `{PC : PeerCrypto}.

Lemma bytes_leb_total a b : bytes_leb a b = false -> bytes_leb b a = true.
Proof.
  revert b. induction a as [|x a IH]; intros [|y b]; [done..|]. cbn. intros [H1 H2]%orb_false_iff. apply N.ltb_ge in H1.
  destruct (N.eqb_spec (Byte.to_N x) (Byte.to_N y)) as [He|Hne]; cbn in H2.
  - rewrite He, N.ltb_irrefl, N.eqb_refl. cbn. by apply IH.
  - apply orb_true_iff. left. apply N.ltb_lt. lia.
Qed.
Lemma byte_to_N_inj (x y : byte) : Byte.to_N x = Byte.to_N y -> x = y.
Proof. intros H. apply (f_equal Byte.of_N) in H. rewrite !Byte.of_to_N in H. congruence. Qed.
Lemma bytes_leb_antisym a b : bytes_leb a b = true -> bytes_leb b a = true -> a = b.
Proof.
  revert b. induction a as [|x a IH]; intros [|y b]; [done..|]. cbn. intros H1%orb_true_iff H2%orb_true_iff.
  destruct H1 as [H1|H1], H2 as [H2|H2]; rewrite ?andb_true_iff, ?N.ltb_lt, ?N.eqb_eq in *; try lia.
  destruct H1 as [H1 ?], H2 as [_ ?]. f_equal; [by apply byte_to_N_inj|by apply IH].
Qed.
(** The two public keys enter the session key in the same order on both sides. *)
Lemma sorted_pair a b :
  (if bytes_leb a b then (a, b) else (b, a)) = (if bytes_leb b a then (b, a) else (a, b)).
Proof.
  destruct (bytes_leb a b) eqn:Hab, (bytes_leb b a) eqn:Hba; [|done|done|].
  - by rewrite (bytes_leb_antisym a b).
  - pose proof (bytes_leb_total a b Hab). congruence.
Qed.

(** Two ends of one session: what one end sends next is what the other expects. *)
Record paired (a b : PeerSession) : Prop := {
  pr_key : a.(session_key) = b.(session_key);
  pr_ids : a.(local_peer_id) = b.(remote_peer_id) /\ a.(remote_peer_id) = b.(local_peer_id);
  pr_ab : a.(send_sequence) = b.(receive_sequence);
  pr_ba : b.(send_sequence) = a.(receive_sequence);
}.

Lemma decode_public k : length k = 32%nat -> decode_array 32 (hex_encode k) "peer public key" = Ok k.
Proof. intros Hk. unfold decode_array. by rewrite hex_decode_encode, Hk. Qed.
Lemma session_of (a b : bytes) (s : PeerSession) :
  session (generate a) (public (generate b)) = Ok s ->
  let pa := x25519 a basepoint in
  let pb := x25519 b basepoint in
  s = mkPeerSession (peer_id pa) (peer_id pb)
        (sha256 (as_bytes "cartridge-peer-session-v1" ++ x25519 a pb
                 ++ (if bytes_leb pa pb then (pa, pb) else (pb, pa)).1 ++ (if bytes_leb pa pb then (pa, pb) else (pb, pa)).2)) 0 0.
Proof.
  unfold session, generate, public. cbn [pi_public pi_secret pp_public_key pp_peer_id].
  destruct (validate_peer _) as [[]|]; [|done]. rewrite decode_public by apply x25519_length. cbn zeta. pass Hz.
  destruct (bytes_leb _ _); intros [= <-]; done.
Qed.

(** Two peers that opened a session with each other's public identity share
    its key and expect each other's messages; and from then on a message one end
    seals is opened by the other to the plaintext, leaves both ends in step, and
    is refused when it is presented again, at once or after any later message. *)
Theorem session_delivers_once (a b nonce plaintext : bytes) (sa sb sa1 : PeerSession) (message : EncryptedMessage)
    (Hnonce : length nonce = 24%nat) :
  (session (generate a) (public (generate b)) = Ok sa -> session (generate b) (public (generate a)) = Ok sb -> paired sa sb)
  /\ (paired sa sb -> seal sa nonce plaintext = Ok (sa1, message) ->
      exists sb1, open_message sb message = Ok (sb1, plaintext) /\ paired sa1 sb1
        /\ forall s, sb1.(receive_sequence) <= s.(receive_sequence) -> is_ok (open_message s message) = false).
Proof.
  split.
  - intros ->%session_of ->%session_of. constructor; cbn; [|done..].
    by rewrite (x25519_symmetric a b), (sorted_pair (x25519 a basepoint)).
  - intros [Hk [Hl Hr] Hab Hba]. unfold seal. pass Hmax. cbn zeta.
    destruct (aead_encrypt _ _ _ _) as [c|] eqn:He; [|done]. cbn [ok_or].
    destruct (checked_add u64_max (send_sequence sa) 1) as [next|] eqn:Hn; [|done]. intros [= <- <-].
    apply N.ltb_ge in Hmax. pose proof (aead_length _ _ _ _ _ He) as Hlen. pose proof (aead_round_trip _ _ _ _ _ He) as Hdec.
    exists (with_receive_sequence sb next). unfold open_message. cbn [sender recipient em_sequence em_nonce ciphertext].
    rewrite <- Hl, <- Hr, <- Hab, N.eqb_refl, !bool_decide_eq_true_2 by done. cbn [negb orb].
    unfold decode_array. rewrite !hex_decode_encode, Hnonce. cbn [Nat.eqb]. cbn match.
    destruct (N.ltb_spec (MAX_MESSAGE_BYTES + 32) (len c)) as [Hbig|_]; [unfold len in *; lia|].
    rewrite <- Hk, Hdec. cbn [ok_or]. rewrite Hn. split; [done|]. split; [by constructor|].
    intros s Hs. cbn in Hs. apply checked_add_Some in Hn as [-> _].
    destruct (N.eqb_spec (send_sequence sa) (receive_sequence s)); [lia|]. by rewrite !orb_true_r.
Qed.
End SessionTheorems.

(** ** A concrete cipher and key agreement *)
Definition toy_sum (b : bytes) : N := sumN (Byte.to_N <$> b).
Definition toy_x25519 (a p : bytes) : bytes :=
  replicate 32 (default x00 (Byte.of_N ((toy_sum a + Byte.to_N (default x00 (head p))) mod 256))).
Lemma toy_x25519_symmetric a b p : toy_x25519 a (toy_x25519 b p) = toy_x25519 b (toy_x25519 a p).
Proof.
  assert (forall n, n < 256 -> Byte.to_N (default x00 (Byte.of_N n)) = n) as Hb.
  { intros n Hn. destruct (Byte.of_N n) as [x|] eqn:Hx; [by apply Byte.to_of_N|]. apply Byte.of_N_None_iff in Hx. lia. }
  assert (forall c q, toy_sum c + Byte.to_N (default x00 (head (toy_x25519 q p))) = toy_sum c + (toy_sum q + Byte.to_N (default x00 (head p))) mod 256) as Hh.
  { intros c q. change (head (toy_x25519 q p)) with (Some (default x00 (Byte.of_N ((toy_sum q + Byte.to_N (default x00 (head p))) mod 256)))).
    cbn [default from_option id]. by rewrite Hb by (apply N.mod_lt; lia). }
  unfold toy_x25519 at 1 3. rewrite !Hh, !N.Div0.add_mod_idemp_r. do 4 f_equal. lia.
Qed.
Definition toy_crypto : PeerCrypto.
Proof.
  refine {| x25519 := toy_x25519; basepoint := [x09];
            aead_encrypt := fun _ _ _ m => Some (m ++ replicate 16 x00);
            aead_decrypt := fun _ _ _ c => Some (take (length c - 16) c) |}.
  - intros a b. apply length_replicate.
  - intros a b. apply toy_x25519_symmetric.
  - intros _ _ _ m c H. assert (c = m ++ replicate 16 x00) as -> by congruence. f_equal.
    rewrite length_app, length_replicate. apply take_app_length'. lia.
  - intros _ _ _ m c H. assert (c = m ++ replicate 16 x00) as -> by congruence. by rewrite length_app, length_replicate.
Defined.

Section SessionWitness.
#[local] Existing Instance demo_externals.
#[local] Existing Instance demo_hex.
#[local] Existing Instance toy_crypto.
Lemma session_delivers_once_witness :
  exists sa sb sa1 sb1 message,
    session (generate [x01]) (public (generate [x02])) = Ok sa
    /\ session (generate [x02]) (public (generate [x01])) = Ok sb
    /\ seal sa (replicate 24 x07) [x2a] = Ok (sa1, message)
    /\ open_message sb message = Ok (sb1, [x2a]) /\ is_ok (open_message sb1 message) = false.
Proof.
  destruct (session (generate [x01]) (public (generate [x02]))) as [sa|] eqn:Ha; [|vm_compute in Ha; discriminate].
  destruct (session (generate [x02]) (public (generate [x01]))) as [sb|] eqn:Hb; [|vm_compute in Hb; discriminate].
  destruct (seal sa (replicate 24 x07) [x2a]) as [[sa1 message]|] eqn:Hs.
  2:{ exfalso. pose proof (f_equal (fun r => match r with Ok s => is_ok (seal s (replicate 24 x07) [x2a]) | Err _ => false end) Ha) as H.
      cbn beta iota in H. rewrite Hs in H. vm_compute in H. discriminate. }
  destruct (session_delivers_once [x01] [x02] (replicate 24 x07) [x2a] sa sb sa1 message eq_refl) as [Hp Hd].
  destruct (Hd (Hp Ha Hb) Hs) as (sb1 & Ho & _ & Hr).
  exists sa, sb, sa1, sb1, message. split_and!; [done..|]. apply Hr. lia.
Defined.
End SessionWitness.
