(* ===== verification/Manifest.v ===== *)
(** * Package manifests ([crates/cartridge-core/src/manifest.rs])

    The manifest of a package, its validation, the plan of state migrations, the
    negotiation of capabilities and the Merkle root of the assets. *)
From S2P Require Import Prelude Text Storage Core Snapshot Directory Blob Network.

(** The [semver] crate.  Parsing is exact, so that printing a parsed version
    gives the text back; versions are totally ordered. *)
Class Semver `{Externals} := {
  Version : Type;
  VersionReq : Type;
  parse_version : string -> option Version;
  parse_req : string -> option VersionReq;
  version_string : Version -> string;
  version_major : Version -> N;
  version_new : N -> N -> N -> Version;
  version_leb : Version -> Version -> bool;
  req_matches : VersionReq -> Version -> bool;
  parse_version_ok : forall s, is_some (parse_version s) = semver_ok s;
  parse_req_ok : forall s, is_some (parse_req s) = semver_req_ok s;
  version_round_trip : forall s v, parse_version s = Some v -> version_string v = s;
  version_leb_total : forall v w, version_leb v w = true \/ version_leb w v = true;
  version_leb_trans : forall u v w, version_leb u v = true -> version_leb v w = true -> version_leb u w = true;
}.

Definition CURRENT_FORMAT_VERSION : N := 1.
Definition MIGRATION_PLAN_FORMAT_VERSION : N := 1.
Definition MAX_MIGRATIONS : N := 256.
Definition MAX_DEPENDENCIES : N := 128.
Definition MAX_SERVICES : N := 128.
Definition MAX_INTERFACES_PER_DEPENDENCY : N := 64.
Definition MAX_CAPABILITY_REQUIREMENTS : N := 64.
Definition HOST_API_VERSION : string := "0.4.0".

Record CartridgeMetadata := mkMetadata { cm_id : string; cm_name : string; cm_version : string; cm_description : string }.
Record Permissions := mkPermissions {
  clock : bool; random : bool; assets : bool; storage : bool; graphics : bool; audio : bool; midi : bool;
  http : bool; serve : bool;
}.
Record Compatibility := mkCompatibility { host_api : string; cp_capabilities : gmap string string }.
Record StateMigration := mkMigration { mg_name : string; from : N; to : N }.
Record StateConfig := mkStateConfig { schema : N; migrations : list StateMigration }.
Record MigrationPlan := mkMigrationPlan {
  mp_format_version : N;
  mp_cartridge_id : string;
  mp_cartridge_version : string;
  mp_component_sha256 : string;
  source_schema : N;
  target_schema : N;
  steps : list StateMigration;
}.
Record CartridgeDependency := mkDependency {
  dp_alias : string;
  dp_cartridge : string;
  dp_version : string;
  dp_interfaces : list string;
  optional : bool;
  dp_reason : string;
}.
Inductive ServiceVisibility := Private | Dependency | Public.
#[global] Instance visibility_eq_dec : EqDecision ServiceVisibility.
Proof. solve_decision. Defined.
Record ProvidedService := mkService {
  sv_name : string;
  sv_interface : string;
  visibility : ServiceVisibility;
  sv_description : string;
}.
Record Integrity := mkIntegrity {
  in_component_sha256 : string;
  assets_sha256 : gmap string string;
  assets_root_sha256 : string;
}.
Record PackageManifest := mkPackageManifest {
  pm_format_version : N;
  cartridge : CartridgeMetadata;
  permissions : Permissions;
  pm_http : HttpPolicy;
  compatibility : Compatibility;
  runtime : RuntimeLimits;
  state : StateConfig;
  dependencies : list CartridgeDependency;
  provides : list ProvidedService;
  integrity : Integrity;
}.
Abbreviation ManifestResult := (result Core.Error).
Definition manifest_error (m : string) {A : Type} : ManifestResult A := Err (Core.Manifest m).

(** ** Texts *)
Definition validate_id (id : string) : ManifestResult unit :=
  if (128 <? str_len id) || (len (split_on "." id) <? 3)
  then manifest_error "cartridge id must be a reverse-domain identifier such as dev.example.app"
  else if negb (forallb id_segment (split_on "." id)) then manifest_error ("invalid cartridge id: " +:+ id)
  else Ok tt.
Definition validate_alias (value field : string) : ManifestResult unit :=
  if str_is_empty value || (48 <? str_len value) || negb (forallb name_byte (str_bytes value))
     || starts_with_char value "-" || ends_with_char value "-"
  then manifest_error ("invalid " +:+ field) else Ok tt.
Definition validate_human_text (value field : string) (max : N) (allow_empty : bool) : ManifestResult unit :=
  if (negb allow_empty && trim_is_empty value) || (max <? len (str_chars value))
     || existsb char_is_control (str_chars value)
  then manifest_error (field +:+ " must contain printable characters within its limit") else Ok tt.
Definition is_ascii_hexdigit (b : N) : bool := is_ascii_digit b || in_range 97 102 b || in_range 65 70 b.
Definition is_sha256 (value : string) : bool := (str_len value =? 64) && forallb is_ascii_hexdigit (str_bytes value).
Definition validate_capability_name (value : string) : ManifestResult unit :=
  if str_is_empty value || (64 <? str_len value) || negb (forallb name_byte (str_bytes value))
  then manifest_error "capability names must be lowercase identifiers" else Ok tt.
Definition check_interface `{Externals} (value : string) : ManifestResult unit :=
  match validate_interface value with Ok _ => Ok tt | Err _ => manifest_error "invalid interface" end.

(** [normalize_relative_path] of [lib.rs], whose result is not used here. *)
Definition unsafe_part (part : string) : bool :=
  str_is_empty part || bool_decide (part = ".") || bool_decide (part = "..") || contains_char part ":".
Definition normalize_relative_path (path : string) : ManifestResult string :=
  if str_is_empty path || starts_with_char path "/" || starts_with_char path "\" || contains_char path "\"
  then Err (Core.Archive "unsafe relative path")
  else if existsb unsafe_part (split_on "/" path) then Err (Core.Archive "unsafe relative path")
  else Ok path.

(** ** Capabilities *)
Definition permission_map (value : Permissions) : gmap string bool :=
  list_to_map [("clock", value.(clock)); ("random", value.(random)); ("assets", value.(assets));
               ("storage", value.(storage)); ("graphics", value.(graphics)); ("audio", value.(audio));
               ("midi", value.(midi)); ("http", value.(http)); ("serve", value.(serve))].
Definition capability_names : list string :=
  ["assets"; "audio"; "clock"; "graphics"; "http"; "midi"; "random"; "serve"; "storage"].

Section Manifest.
Context `{Ext : Externals} `{Hex : HexDecode} `{SV : !Semver}.

Fixpoint check_requirements (requested : gmap string bool) (l : list (string * string)) : ManifestResult unit :=
  match l with
  | [] => Ok tt
  | (name, requirement) :: l =>
      let? _ := validate_capability_name name in
      if negb (semver_req_ok requirement) then manifest_error "capability requirement is invalid"
      else if negb (default false (requested !! name))
      then manifest_error "capability version requirement needs its permission enabled"
      else check_requirements requested l
  end.
Definition validate_compatibility (self : Compatibility) (manifest : PackageManifest) : ManifestResult unit :=
  if MAX_CAPABILITY_REQUIREMENTS <? btree_len self.(cp_capabilities)
  then manifest_error "too many capability version requirements"
  else if negb (str_is_empty self.(host_api)) && negb (semver_req_ok self.(host_api))
  then manifest_error "compatibility.host_api is invalid"
  else check_requirements (permission_map manifest.(permissions)) (btree_iter self.(cp_capabilities)).

(** ** Migrations *)
Fixpoint check_migrations (schema : N) (names : gset string) (sources : gmap N StateMigration)
    (l : list StateMigration) : ManifestResult (gmap N StateMigration) :=
  match l with
  | [] => Ok sources
  | migration :: l =>
      let? _ := validate_alias migration.(mg_name) "migration name" in
      if bool_decide (migration.(mg_name) ∈ names) then manifest_error "duplicate migration name"
      else if migration.(to) <=? migration.(from) then manifest_error "migration must increase the state schema"
      else if schema <? migration.(to) then manifest_error "migration targets a schema beyond the package schema"
      else if is_some (sources !! migration.(from)) then manifest_error "more than one migration starts at the schema"
      else check_migrations schema ({[migration.(mg_name)]} ∪ names) (<[migration.(from) := migration]> sources) l
  end.
(** [while current < schema { .. }]: the steps taken, [Err] where no migration
    starts, [None] when the fuel runs out. *)
Fixpoint follow (fuel : nat) (sources : gmap N StateMigration) (schema current : N) (taken : list StateMigration) :
    option (result unit (list StateMigration)) :=
  if current <? schema then
    match fuel with
    | O => None
    | S fuel =>
        match sources !! current with
        | None => Some (Err tt)
        | Some migration => follow fuel sources schema migration.(to) (taken ++ [migration])
        end
    end
  else Some (Ok taken).
(** A migration is followed at most once; one more round finds the end. *)
Definition follow_fuel (sources : gmap N StateMigration) : nat := S (size sources).
Fixpoint check_paths (sources : gmap N StateMigration) (schema : N) (l : list StateMigration) : ManifestResult unit :=
  match l with
  | [] => Ok tt
  | migration :: l =>
      match follow (follow_fuel sources) sources schema migration.(to) [] with
      | Some (Ok _) => check_paths sources schema l
      | _ => manifest_error "migration does not lead to the package schema"
      end
  end.
Definition validate_state (manifest : PackageManifest) : ManifestResult unit :=
  let s := manifest.(state) in
  if (0 <? s.(schema)) && negb manifest.(permissions).(storage)
  then manifest_error "state schema requires permissions.storage = true"
  else if MAX_MIGRATIONS <? len s.(migrations) then manifest_error "state declares too many migrations"
  else
    let? sources := check_migrations s.(schema) ∅ ∅ s.(migrations) in
    check_paths sources s.(schema) s.(migrations).

(** ** Relationships *)
Fixpoint check_unique_interfaces (seen : gset string) (l : list string) : ManifestResult unit :=
  match l with
  | [] => Ok tt
  | interface :: l =>
      let? _ := check_interface interface in
      if bool_decide (interface ∈ seen) then manifest_error "dependency requests an interface more than once"
      else check_unique_interfaces ({[interface]} ∪ seen) l
  end.
Fixpoint check_dependencies (id : string) (aliases ids : gset string) (l : list CartridgeDependency) : ManifestResult unit :=
  match l with
  | [] => Ok tt
  | dependency :: l =>
      let? _ := validate_alias dependency.(dp_alias) "dependency alias" in
      let? _ := validate_id dependency.(dp_cartridge) in
      if bool_decide (dependency.(dp_cartridge) = id) then manifest_error "a cartridge cannot depend on itself"
      else if negb (semver_req_ok dependency.(dp_version)) then manifest_error "dependency has an invalid version requirement"
      else if bool_decide (dependency.(dp_interfaces) = []) then manifest_error "dependency must request at least one interface"
      else if MAX_INTERFACES_PER_DEPENDENCY <? len dependency.(dp_interfaces)
      then manifest_error "dependency requests too many interfaces"
      else
        let? _ := validate_human_text dependency.(dp_reason) "dependency reason" 240 true in
        if bool_decide (dependency.(dp_alias) ∈ aliases) then manifest_error "duplicate dependency alias"
        else if bool_decide (dependency.(dp_cartridge) ∈ ids) then manifest_error "duplicate cartridge dependency"
        else
          let? _ := check_unique_interfaces ∅ dependency.(dp_interfaces) in
          check_dependencies id ({[dependency.(dp_alias)]} ∪ aliases) ({[dependency.(dp_cartridge)]} ∪ ids) l
  end.
Fixpoint check_services (names interfaces : gset string) (l : list ProvidedService) : ManifestResult unit :=
  match l with
  | [] => Ok tt
  | service :: l =>
      let? _ := validate_alias service.(sv_name) "service name" in
      let? _ := check_interface service.(sv_interface) in
      let? _ := validate_human_text service.(sv_description) "service description" 240 true in
      if bool_decide (service.(sv_name) ∈ names) then manifest_error "duplicate provided service name"
      else if bool_decide (service.(sv_interface) ∈ interfaces) then manifest_error "interface is provided more than once"
      else check_services ({[service.(sv_name)]} ∪ names) ({[service.(sv_interface)]} ∪ interfaces) l
  end.
Definition validate_relationships (manifest : PackageManifest) : ManifestResult unit :=
  if MAX_DEPENDENCIES <? len manifest.(dependencies) then manifest_error "too many dependencies"
  else if MAX_SERVICES <? len manifest.(provides) then manifest_error "too many services"
  else
    let? _ := check_dependencies manifest.(cartridge).(cm_id) ∅ ∅ manifest.(dependencies) in
    check_services ∅ ∅ manifest.(provides).

(** ** The asset root *)
Definition leaf_input (path : string) (digest : bytes) : bytes :=
  [x00] ++ be_bytes 8 (str_len path) ++ as_bytes path ++ digest.
Definition node_input (left_ right_ : bytes) : bytes := [x01] ++ left_ ++ right_.
Fixpoint asset_leaves (l : list (string * string)) : ManifestResult (list bytes) :=
  match l with
  | [] => Ok []
  | (path, digest) :: l =>
      match hex_decode digest with
      | Err _ => Err (Core.Integrity "invalid asset digest")
      | Ok digest =>
          if negb (length digest =? 32)%nat then Err (Core.Integrity "invalid asset digest")
          else
            let? leaves := asset_leaves l in
            Ok (sha256 (leaf_input path digest) :: leaves)
      end
  end.
(** [nodes.chunks(2)]: a last node without a neighbour is paired with itself. *)
Fixpoint parents (nodes : list bytes) : list bytes :=
  match nodes with
  | [] => []
  | [a] => [sha256 (node_input a a)]
  | a :: b :: nodes => sha256 (node_input a b) :: parents nodes
  end.
(** [while nodes.len() > 1]; [None] when the fuel runs out. *)
Fixpoint collapse (fuel : nat) (nodes : list bytes) : option bytes :=
  match nodes with
  | [] => None
  | [a] => Some a
  | _ => match fuel with O => None | S fuel => collapse fuel (parents nodes) end
  end.
Definition asset_integrity_root (assets : gmap string string) : ManifestResult string :=
  let? nodes := asset_leaves (btree_iter assets) in
  match nodes with
  | [] => Ok (hex_sha256 [x02])
  | _ => match collapse (length nodes) nodes with
         | Some root => Ok (hex_encode root)
         | None => Err (Core.Integrity "asset tree did not collapse")
         end
  end.

(** ** Validation *)
Fixpoint check_assets (l : list (string * string)) : ManifestResult unit :=
  match l with
  | [] => Ok tt
  | (path, digest) :: l =>
      let? _ := match normalize_relative_path path with
                | Ok _ => Ok tt
                | Err _ => manifest_error "invalid integrity asset path"
                end in
      if negb (is_sha256 digest) then manifest_error "integrity.assets_sha256 entry must be a 64-character hexadecimal digest"
      else check_assets l
  end.
Definition validate_integrity (self : Integrity) : ManifestResult unit :=
  if negb (str_is_empty self.(in_component_sha256)) && negb (is_sha256 self.(in_component_sha256))
  then manifest_error "integrity.component_sha256 must be a 64-character hexadecimal digest"
  else
    let? _ := check_assets (btree_iter self.(assets_sha256)) in
    if str_is_empty self.(assets_root_sha256) then Ok tt
    else if negb (is_sha256 self.(assets_root_sha256))
    then manifest_error "integrity.assets_root_sha256 must be a 64-character hexadecimal digest"
    else
      let? actual := asset_integrity_root self.(assets_sha256) in
      if negb (eq_ignore_ascii_case actual self.(assets_root_sha256))
      then Err (Core.Integrity "asset integrity root does not match the declared asset digests")
      else Ok tt.
Definition validate_package (self : PackageManifest) : ManifestResult unit :=
  if negb (self.(pm_format_version) =? CURRENT_FORMAT_VERSION) then manifest_error "unsupported format version"
  else
    let? _ := validate_id self.(cartridge).(cm_id) in
    let? _ := validate_human_text self.(cartridge).(cm_name) "cartridge name" 80 false in
    let? _ := validate_human_text self.(cartridge).(cm_description) "cartridge description" 240 true in
    if negb (semver_ok self.(cartridge).(cm_version)) then manifest_error "version must be valid SemVer"
    else
      let? _ := map_err Core.Manifest (validate_http_policy self.(pm_http)) in
      if negb self.(permissions).(http) && negb (bool_decide (self.(pm_http).(scopes) = []))
      then manifest_error "HTTP scopes require permissions.http = true"
      else
        let? _ := validate_compatibility self.(compatibility) self in
        let? _ := validate_runtime_limits self.(runtime) in
        let? _ := validate_state self in
        let? _ := validate_integrity self.(integrity) in
        validate_relationships self.

Definition migration_plan (self : PackageManifest) (source : N) : option (ManifestResult MigrationPlan) :=
  match validate_package self with
  | Err e => Some (Err e)
  | Ok _ =>
      let s := self.(state) in
      if s.(schema) <? source then Some (manifest_error "state schema is newer than the package schema")
      else
        let sources := list_to_map ((fun m => (m.(from), m)) <$> reverse s.(migrations)) : gmap N StateMigration in
        match follow (follow_fuel sources) sources s.(schema) source [] with
        | None => None
        | Some (Err _) => Some (manifest_error "no migration path")
        | Some (Ok steps) =>
            Some (Ok (mkMigrationPlan MIGRATION_PLAN_FORMAT_VERSION self.(cartridge).(cm_id)
                        self.(cartridge).(cm_version) self.(integrity).(in_component_sha256) source s.(schema) steps))
        end
  end.

(** ** Negotiation; [None] is a panic of [expect]. *)
Record NegotiatedPlatform := mkPlatform { np_host_api : string; np_capabilities : gmap string string }.
Fixpoint negotiate_loop (requirements negotiated : gmap string string) (l : list (string * bool)) :
    option (ManifestResult (gmap string string)) :=
  match l with
  | [] => Some (Ok negotiated)
  | (name, enabled) :: l =>
      if negb enabled then negotiate_loop requirements negotiated l
      else if negb (bool_decide (name ∈ capability_names))
      then Some (manifest_error "host does not implement requested capability")
      else
        let version := version_new 1 0 0 in
        match requirements !! name with
        | None => negotiate_loop requirements (<[name := version_string version]> negotiated) l
        | Some requirement =>
            parsed ← parse_req requirement;
            if negb (req_matches parsed version) then Some (manifest_error "capability version does not satisfy its requirement")
            else negotiate_loop requirements (<[name := version_string version]> negotiated) l
        end
  end.
Definition negotiate_platform (manifest : PackageManifest) : option (ManifestResult NegotiatedPlatform) :=
  match validate_package manifest with
  | Err e => Some (Err e)
  | Ok _ =>
      host ← parse_version HOST_API_VERSION;
      unsatisfied ← (if str_is_empty manifest.(compatibility).(host_api) then Some false
                     else parsed ← parse_req manifest.(compatibility).(host_api); Some (negb (req_matches parsed host)));
      if unsatisfied : bool then Some (manifest_error "host API does not satisfy the requirement")
      else
        capabilities ← negotiate_loop manifest.(compatibility).(cp_capabilities) ∅
                         (btree_iter (permission_map manifest.(permissions)));
        Some (let? capabilities := capabilities in Ok (mkPlatform (version_string host) capabilities))
  end.
End Manifest.
