(* ===== verification/ManifestTheorems.v ===== *)
(** * Theorems on package manifests

    A valid manifest migrates every state it knows to its schema; the asset root
    binds the assets; what is negotiated is what was requested. *)
From S2P Require Import Prelude Text Storage Core Snapshot Directory Blob BlobTheorems Network Manifest.

(** ** Migrations *)
(** The migrations a chain can still take. *)
Definition ahead (sources : gmap N StateMigration) (current : N) : nat :=
  size (filter (fun p => current <= p.1) sources).
Definition increasing (schema : N) (sources : gmap N StateMigration) : Prop :=
  forall n m, sources !! n = Some m -> m.(from) = n /\ m.(from) < m.(to) /\ m.(to) <= schema.

Lemma ahead_step sources schema current m :
  increasing schema sources -> sources !! current = Some m -> (ahead sources m.(to) < ahead sources current)%nat.
Proof.
  intros Hinc Hm. destruct (Hinc _ _ Hm) as (Hf & Ht & _). unfold ahead.
  assert (filter (fun p => current <= p.1) sources !! current = Some m) as Hin by (apply map_lookup_filter_Some; split; [done|cbn; lia]).
  rewrite <- (insert_delete_id _ _ _ Hin). rewrite map_size_insert_None by apply lookup_delete_eq. apply Nat.lt_succ_r.
  apply map_subseteq_size. apply map_subseteq_spec. intros k x [Hk Hle]%map_lookup_filter_Some. cbn in Hle.
  rewrite lookup_delete_ne by lia. apply map_lookup_filter_Some. split; [done|cbn; lia].
Qed.

(** A chain of migrations from one schema to another. *)
Inductive chain (sources : gmap N StateMigration) : N -> N -> list StateMigration -> Prop :=
| chain_done n : chain sources n n []
| chain_step n m target l :
    sources !! n = Some m -> chain sources m.(to) target l -> chain sources n target (m :: l).

Lemma follow_spec sources schema : increasing schema sources -> forall fuel current taken,
  (ahead sources current < fuel)%nat -> current <= schema ->
  match follow fuel sources schema current taken with
  | Some (Ok l) => exists more, l = taken ++ more /\ chain sources current schema more
  | Some (Err _) => exists more stuck, chain sources current stuck more /\ stuck < schema /\ sources !! stuck = None
  | None => False
  end.
Proof.
  intros Hinc. induction fuel as [|fuel IH]; intros current taken Hf Hle; cbn [follow]; [lia|].
  destruct (N.ltb_spec current schema) as [Hlt|Hge].
  2:{ assert (current = schema) as -> by lia. exists []. rewrite app_nil_r. split; [done|constructor]. }
  destruct (sources !! current) as [m|] eqn:Hm; [|by exists [], current; split; [constructor|]].
  pose proof (ahead_step _ _ _ _ Hinc Hm) as Hstep. destruct (Hinc _ _ Hm) as (_ & _ & Hto).
  specialize (IH m.(to) (taken ++ [m]) ltac:(lia) Hto).
  destruct (follow fuel sources schema _ _) as [[l|[]]|]; [| |done].
  - destruct IH as (more & -> & Hc). exists (m :: more). rewrite <- app_assoc. split; [done|]. by econstructor.
  - destruct IH as (more & stuck & Hc & ? & ?). exists (m :: more), stuck. split; [by econstructor|done].
Qed.
Lemma ahead_fuel sources current : (ahead sources current < follow_fuel sources)%nat.
Proof. unfold ahead, follow_fuel. apply Nat.lt_succ_r, map_subseteq_size, map_filter_subseteq. Qed.
Lemma chain_unique sources a : forall b c l l',
  chain sources a b l -> chain sources a c l' -> sources !! b = None -> sources !! c = None -> b = c /\ l = l'.
Proof.
  intros b c l l' H. revert c l'. induction H as [n|n m target l Hm Hc IH]; intros c l' H' Hb Hc'.
  - inversion H'; subst; [done|congruence].
  - inversion H' as [|? m' ? l1 Hm']; subst; [congruence|]. assert (m' = m) as -> by congruence.
    destruct (IH c l1) as [-> ->]; done.
Qed.
Lemma chain_bound schema sources a b l : increasing schema sources -> chain sources a b l -> a <= schema -> b <= schema.
Proof. intros Hinc H. induction H as [n|n m target l Hm Hc IH]; [done|]. intros _. apply IH. by destruct (Hinc _ _ Hm) as (_ & _ & ?). Qed.
Lemma no_source_at_schema schema sources : increasing schema sources -> sources !! schema = None.
Proof. intros Hinc. destruct (sources !! schema) as [m|] eqn:Hm; [|done]. destruct (Hinc _ _ Hm) as (? & ? & ?). lia. Qed.

(** What [validate_state] establishes. *)
Lemma check_migrations_spec schema l : forall names sources sources',
  check_migrations schema names sources l = Ok sources' -> increasing schema sources ->
  increasing schema sources'
  /\ (forall m, m ∈ l -> sources' !! m.(from) = Some m)
  /\ (forall n m, sources !! n = Some m -> sources' !! n = Some m)
  /\ (forall n m, sources' !! n = Some m -> m ∈ l \/ sources !! n = Some m).
Proof.
  induction l as [|m l IH]; intros names sources sources'; cbn [check_migrations].
  { intros [= <-] Hinc. split_and!; [done|set_solver|done|by right]. }
  destruct (validate_alias _ _); [|done]. pass Hn. pass Hle. pass Hs. pass Hdup. intros Hrun Hinc.
  apply N.leb_gt in Hle. apply N.ltb_ge in Hs. apply IH in Hrun as (Hinc' & Hin & Hkeep & Honly).
  - assert (sources !! from m = None) as Hfree by (by destruct (sources !! from m)).
    split_and!; [done| | |].
    + intros m' [->|Hm']%elem_of_cons; [apply Hkeep; by rewrite lookup_insert_eq|by apply Hin].
    + intros n m' Hm'. apply Hkeep. rewrite lookup_insert_ne; [done|]. congruence.
    + intros n m' [Hm'|Hm']%Honly; [left; set_solver|]. apply lookup_insert_Some in Hm' as [[_ <-]|[_ Hm']]; [left; set_solver|by right].
  - intros n m' [[<- <-]|[_ Hm']]%lookup_insert_Some; [split_and!; [done|lia|done]|by apply Hinc].
Qed.
Lemma check_paths_spec sources schema l :
  increasing schema sources -> check_paths sources schema l = Ok tt ->
  Forall (fun m => m.(to) <= schema -> exists more, chain sources m.(to) schema more) l.
Proof.
  intros Hinc. induction l as [|m l IH]; cbn [check_paths]; [constructor|].
  pose proof (fun H => follow_spec sources schema Hinc (follow_fuel sources) m.(to) [] (ahead_fuel _ _) H) as Hf.
  destruct (follow _ _ _ _ _) as [[r|]|]; [|done..]. intros Hl. constructor; [|by apply IH].
  intros Hto. destruct (Hf Hto) as (more & _ & Hc). by exists more.
Qed.

Lemma sources_of l schema sources :
  check_migrations schema ∅ ∅ l = Ok sources ->
  list_to_map ((fun m => (m.(from), m)) <$> reverse l) = sources.
Proof.
  intros Hrun. apply check_migrations_spec in Hrun as (Hinc & Hin & _ & Honly); [|intros n m Hm; by rewrite lookup_empty in Hm].
  apply map_eq. intros n. destruct (sources !! n) as [m|] eqn:Hm.
  - destruct (Honly n m Hm) as [Hl|Hl]; [|by rewrite lookup_empty in Hl]. destruct (Hinc _ _ Hm) as [Hf _].
    apply elem_of_list_to_map_1'.
    + intros m' (x & [= -> ->] & Hx)%list_elem_of_fmap. rewrite elem_of_reverse in Hx.
      apply Hin in Hx. congruence.
    + apply list_elem_of_fmap. exists m. rewrite elem_of_reverse. by rewrite Hf.
  - apply not_elem_of_list_to_map_1. intros ([n' m'] & Hn & Hx)%list_elem_of_fmap. cbn in Hn. subst n'.
    apply list_elem_of_fmap in Hx as (x & [= -> ->] & Hx). rewrite elem_of_reverse in Hx. apply Hin in Hx. congruence.
Qed.

(** The steps of a plan lead from one schema to the other. *)
Fixpoint linked (a : N) (l : list StateMigration) (b : N) : Prop :=
  match l with [] => a = b | m :: l => m.(from) = a /\ linked m.(to) l b end.
Lemma chain_linked schema sources a b l :
  increasing schema sources -> chain sources a b l -> linked a l b /\ Forall (fun m => sources !! m.(from) = Some m) l.
Proof.
  intros Hinc H. induction H as [n|n m target l Hm Hc [IH1 IH2]]; [done|]. destruct (Hinc _ _ Hm) as [Hf _].
  split; [done|]. constructor; [by rewrite Hf|done].
Qed.

Section Plans.
Context `{Ext : Externals} `{Hex : HexDecode} `{SV : !Semver}.
Lemma valid_package_state m : validate_package m = Ok tt -> validate_state m = Ok tt.
Proof.
  unfold validate_package. pass H1. succeed u1 Hid. succeed u2 Hname. succeed u3 Hdesc. pass H2.
  succeed u4 Hhttp. pass H3. succeed u5 Hcomp. succeed u6 Hlimits. by destruct (validate_state m) as [[]|].
Qed.

(** A valid package can migrate every state it knows: the plan from a source
    schema never runs forever; it is a chain of declared migrations from the
    source to the package's schema; and there is none only when the source is
    newer than the package or older with no migration that starts at it. *)
Theorem migration_plan_complete (manifest : PackageManifest) (source : N)
    (Hvalid : validate_package manifest = Ok tt) :
  match migration_plan manifest source with
  | None => False
  | Some (Ok plan) =>
      plan.(source_schema) = source /\ plan.(target_schema) = manifest.(state).(schema)
      /\ linked source plan.(steps) manifest.(state).(schema)
      /\ Forall (fun m => m ∈ manifest.(state).(migrations)) plan.(steps)
  | Some (Err _) =>
      manifest.(state).(schema) < source
      \/ (source < manifest.(state).(schema) /\ forall m, m ∈ manifest.(state).(migrations) -> m.(from) <> source)
  end.
Proof.
  pose proof (valid_package_state manifest Hvalid) as Hstate. revert Hstate. unfold validate_state. cbn zeta. pass Hperm. pass Hcount.
  destruct (check_migrations _ _ _ _) as [sources|] eqn:Hs; [|done]. intros Hpaths.
  unfold migration_plan. rewrite Hvalid. cbn zeta. rewrite (sources_of _ _ _ Hs).
  apply check_migrations_spec in Hs as (Hinc & Hin & _ & Honly); [|intros n m Hm; by rewrite lookup_empty in Hm].
  apply check_paths_spec in Hpaths; [|done]. rewrite Forall_forall in Hpaths.
  set (target := schema (state manifest)) in *. destruct (N.ltb_spec target source) as [Hnew|Hold]; [by left|].
  pose proof (follow_spec sources target Hinc (follow_fuel sources) source [] (ahead_fuel _ _) Hold) as Hf.
  destruct (follow _ _ _ _ _) as [[l|[]]|]; [| |done].
  - destruct Hf as (more & -> & Hc). cbn [app source_schema target_schema steps]. split; [done|]. split; [done|].
    apply (chain_linked target) in Hc as [Hl Hall]; [|done]. split; [done|]. eapply Forall_impl; [exact Hall|].
    intros m Hm. apply Honly in Hm as [Hm|Hm]; [done|]. by rewrite lookup_empty in Hm.
  - destruct Hf as (more & stuck & Hc & Hlt & Hnone). right.
    assert (sources !! source = None) as Hsrc.
    { destruct (sources !! source) as [m|] eqn:Hm; [|done]. exfalso. destruct (Hinc _ _ Hm) as (Hfrom & Hup & Hto).
      assert (m ∈ migrations (state manifest)) as Hml by (apply Honly in Hm as [Hm|Hm]; [done|by rewrite lookup_empty in Hm]).
      destruct (Hpaths m Hml Hto) as [l' Hc']. destruct (chain_unique sources source stuck target more (m :: l')) as [Heq _];
        [done|by econstructor|done|by apply no_source_at_schema|lia]. }
    split.
    + destruct (N.eq_dec source target) as [->|]; [|lia]. inversion Hc; subst; [lia|congruence].
    + intros m Hm Heq. apply Hin in Hm. congruence.
Qed.
End Plans.

(** ** The asset root *)
Fixpoint pairs (nodes : list bytes) : list (bytes * bytes) :=
  match nodes with
  | [] => []
  | [a] => [(a, a)]
  | a :: b :: nodes => (a, b) :: pairs nodes
  end.
Definition pair_input (p : bytes * bytes) : bytes := node_input p.1 p.2.
(** Two by two. *)
Lemma two_ind {A : Type} (P : list A -> Prop) :
  P [] -> (forall a, P [a]) -> (forall a b l, P l -> P (a :: b :: l)) -> forall l, P l.
Proof.
  intros H0 H1 H2 l. enough (P l /\ forall a, P (a :: l)) as [? _] by done.
  induction l as [|x l [IH1 IH2]]; [auto|]. split; [apply IH2|]. intros a. by apply H2.
Qed.

Section Root.
Context `{Ext : Externals} `{Hex : HexDecode}.

Lemma parents_pairs l : parents l = sha256 ∘ pair_input <$> pairs l.
Proof. induction l as [|a|a b l IH] using two_ind; [done|done|]. cbn. by rewrite IH. Qed.

(** The byte strings that are hashed on the way to a root. *)
Fixpoint collapse_inputs (fuel : nat) (nodes : list bytes) : list bytes :=
  match nodes with
  | [] | [_] => []
  | _ => match fuel with O => [] | S fuel => (pair_input <$> pairs nodes) ++ collapse_inputs fuel (parents nodes) end
  end.
Definition leaf_of (p : string * string) : option bytes :=
  match hex_decode p.2 with Ok digest => Some (leaf_input p.1 digest) | Err _ => None end.
Definition root_inputs (assets : gmap string string) : list bytes :=
  let leaves := omap leaf_of (btree_iter assets) in
  [x02] :: leaves ++ collapse_inputs (length leaves) (sha256 <$> leaves).
Definition collision_free (I : list bytes) : Prop :=
  forall x y, x ∈ I -> y ∈ I -> sha256 x = sha256 y -> x = y.

Section CollisionFree.
Context (I : list bytes) (Hfree : collision_free I).

(** Every leaf of a node of the tree is at the same depth below it. *)
Inductive tree_at : nat -> bytes -> Prop :=
| tree_leaf i x : i ∈ I -> head i = Some x00 -> x = sha256 i -> tree_at 0 x
| tree_node n a b x : node_input a b ∈ I -> tree_at n a -> tree_at n b -> x = sha256 (node_input a b) -> tree_at (S n) x.
Lemma tree_length n x : tree_at n x -> length x = 32%nat.
Proof. destruct 1; subst; apply sha256_length. Qed.
Lemma node_input_inj a b a' b' :
  length a = 32%nat -> length a' = 32%nat -> node_input a b = node_input a' b' -> a = a' /\ b = b'.
Proof. intros Ha Ha' H. unfold node_input in H. injection H as H. apply app_inj_1 in H; [done|congruence]. Qed.
Lemma tree_height n x : tree_at n x -> forall n', tree_at n' x -> n = n'.
Proof.
  induction 1 as [i x Hi Hh Hx|n a b x Hin Ha IHa Hb IHb Hx]; intros n' H'.
  - destruct H' as [j x Hj Hhj Hx'|n' a b x Hin Ha Hb Hx']; [done|]. rewrite Hx' in Hx. apply Hfree in Hx; [|done..]. by subst i.
  - destruct H' as [j x Hj Hhj Hx'|n' a' b' x Hin' Ha' Hb' Hx']; rewrite Hx' in Hx; apply Hfree in Hx; try done; [by subst j|].
    apply node_input_inj in Hx as [-> ->]; [|by eapply tree_length..]. f_equal. by apply IHa.
Qed.

Lemma pairs_firsts l : (pairs l).*1 `sublist_of` l.
Proof. induction l as [|a|a b l IH] using two_ind; cbn; [done|done|]. by apply sublist_skip, sublist_cons. Qed.
Lemma pairs_tree n l : Forall (tree_at n) l -> Forall (fun p => tree_at n p.1 /\ tree_at n p.2) (pairs l).
Proof.
  induction l as [|a|a b l IH] using two_ind; cbn; [constructor|..].
  - intros H. inversion H; subst. by repeat constructor.
  - intros H. inversion H as [|? ? Ha H']; subst. inversion H' as [|? ? Hb H'']; subst. constructor; [done|by apply IH].
Qed.
Lemma pairs_inj l : forall l', NoDup l -> NoDup l' -> pairs l = pairs l' -> l = l'.
Proof.
  induction l as [|a|a b l IH] using two_ind; intros l' Hl Hl' H.
  - by destruct l' as [|? [|? ?]].
  - destruct l' as [|a' [|b' l']]; cbn in H; [done|by injection H as ->|]. injection H as -> -> _. exfalso.
    apply NoDup_cons in Hl' as [Hl' _]. set_solver.
  - destruct l' as [|a' [|b' l']]; cbn in H; [done| |].
    + injection H as -> -> _. exfalso. apply NoDup_cons in Hl as [Hl _]. set_solver.
    + injection H as -> -> H. do 2 f_equal. apply NoDup_cons in Hl as [_ Hl], Hl' as [_ Hl'].
      apply NoDup_cons in Hl as [_ Hl], Hl' as [_ Hl']. by apply IH.
Qed.

Definition level (n : nat) (l : list bytes) : Prop := NoDup l /\ Forall (tree_at n) l.
Definition hashed (l : list bytes) : Prop := forall i, i ∈ pair_input <$> pairs l -> i ∈ I.
Lemma parents_level n l : level n l -> hashed l -> level (S n) (parents l).
Proof.
  intros [Hnd Ht] Hin. apply pairs_tree in Ht. rewrite parents_pairs. split.
  - assert (NoDup (pairs l)) as Hp by (eapply NoDup_fmap_1, sublist_NoDup; [done|apply pairs_firsts]).
    apply NoDup_fmap_2_strong; [|done]. intros p q Hpin Hqin Heq. rewrite Forall_forall in Ht.
    destruct (Ht p Hpin) as [Hp1 _], (Ht q Hqin) as [Hq1 _]. cbn in Heq.
    apply Hfree in Heq; [|apply Hin, list_elem_of_fmap; by eexists..]. unfold pair_input in Heq.
    apply node_input_inj in Heq as [? ?]; [|by eapply tree_length..]. destruct p, q. cbn in *. congruence.
  - apply Forall_fmap. rewrite Forall_forall in *. intros p Hp. destruct (Ht p Hp) as [H1 H2].
    eapply tree_node; [|exact H1|exact H2|done]. apply Hin, list_elem_of_fmap. by exists p.
Qed.
Lemma parents_inj n l l' : level n l -> level n l' -> hashed l -> hashed l' -> parents l = parents l' -> l = l'.
Proof.
  intros [Hnd Ht] [Hnd' Ht'] Hin Hin' Heq. apply pairs_inj; [done|done|]. rewrite !parents_pairs in Heq.
  apply pairs_tree in Ht, Ht'. revert Heq Ht Ht' Hin Hin'. unfold hashed. clear Hnd Hnd'.
  generalize (pairs l), (pairs l'). intros p. induction p as [|x p IH]; intros [|y q] Heq Ht Ht' Hin Hin'; cbn in *; [done..|].
  injection Heq as Hx Hr. inversion Ht as [|? ? [Hx1 _] Hp]; inversion Ht' as [|? ? [Hy1 _] Hq]; subst.
  apply Hfree in Hx; [|set_solver..]. unfold pair_input in Hx. apply node_input_inj in Hx as [? ?]; [|by eapply tree_length..].
  f_equal; [destruct x, y; cbn in *; congruence|]. apply IH; [done..|set_solver|set_solver].
Qed.

Lemma collapse_height fuel : forall n l x,
  collapse fuel l = Some x -> level n l -> (forall i, i ∈ collapse_inputs fuel l -> i ∈ I) ->
  exists k, tree_at (k + n) x /\ (k = 0%nat -> l = [x]).
Proof.
  induction fuel as [|fuel IH]; intros n l x Hx Hl Hin.
  - destruct l as [|a [|b l]]; [done| |done]. injection Hx as ->. exists 0%nat. destruct Hl as [_ Hl]. inversion Hl; subst. done.
  - destruct l as [|a [|b l]]; [done| |].
    + injection Hx as ->. exists 0%nat. destruct Hl as [_ Hl]. inversion Hl; subst. done.
    + set (nodes := a :: b :: l) in *. assert (collapse fuel (parents nodes) = Some x) as Hx' by exact Hx.
      assert (forall i, i ∈ (pair_input <$> pairs nodes) ++ collapse_inputs fuel (parents nodes) -> i ∈ I) as Hin' by exact Hin.
      destruct (IH (S n) (parents nodes) x Hx') as (k & Hk & _); [apply parents_level; [done|]; intros i Hi; set_solver|set_solver|].
      exists (S k). by rewrite Nat.add_succ_r in Hk.
Qed.
Lemma collapse_inj fuel : forall fuel' n l l' x,
  collapse fuel l = Some x -> collapse fuel' l' = Some x -> level n l -> level n l' ->
  (forall i, i ∈ collapse_inputs fuel l ++ collapse_inputs fuel' l' -> i ∈ I) -> l = l'.
Proof.
  induction fuel as [|fuel IH]; intros fuel' n l l' x Hx Hx' Hl Hl' Hin.
  all: destruct (collapse_height _ n l x Hx Hl) as (k & Hk & Hk0); [set_solver|].
  all: destruct (collapse_height _ n l' x Hx' Hl') as (k' & Hk' & Hk0'); [set_solver|].
  all: assert (k = k') as <- by (pose proof (tree_height _ _ Hk _ Hk'); lia).
  all: destruct (decide (k = 0%nat)) as [Hz|Hnz]; [by rewrite Hk0, Hk0'|].
  - destruct l as [|a [|b l]]; [done| |done]. injection Hx as ->. exfalso. destruct Hl as [_ Hl]. inversion Hl; subst.
    pose proof (tree_height _ _ Hk n ltac:(done)). lia.
  - assert (forall f m, collapse f m = Some x -> level n m -> m <> [x] ->
      exists f', f = S f' /\ collapse f' (parents m) = Some x /\ collapse_inputs f m = (pair_input <$> pairs m) ++ collapse_inputs f' (parents m)) as Hstep.
    { intros f m Hm _ Hne. destruct f as [|f], m as [|a [|b m]]; try done; [by injection Hm as ->..|]. by exists f. }
    assert (forall m, level n m -> m = [x] -> False) as Hno.
    { intros m [_ Hm] ->. inversion Hm; subst. pose proof (tree_height _ _ Hk n ltac:(done)). lia. }
    destruct (Hstep _ l Hx Hl) as (f1 & [= <-] & Hc1 & Hi1); [naive_solver|].
    destruct (Hstep _ l' Hx' Hl') as (f2 & -> & Hc2 & Hi2); [naive_solver|]. rewrite Hi1, Hi2 in Hin.
    assert (hashed l) as Hh by (intros i Hi; set_solver). assert (hashed l') as Hh' by (intros i Hi; set_solver).
    apply (parents_inj n); [done..|]. apply (IH f2 (S n) _ _ x); [done|done|by apply parents_level..|set_solver].
Qed.
End CollisionFree.

(** The loop ends: a level is shorter than the one below. *)
Lemma parents_shorter l : (2 <= length l)%nat -> (length (parents l) < length l)%nat.
Proof.
  rewrite parents_pairs, length_fmap. intros Hl. assert (2 * length (pairs l) <= S (length l))%nat as H; [|lia].
  clear Hl. induction l as [|a|a b l IH] using two_ind; cbn in *; lia.
Qed.
Lemma collapse_total fuel : forall l, l <> [] -> (length l <= S fuel)%nat -> exists x, collapse fuel l = Some x.
Proof.
  induction fuel as [|fuel IH]; intros l Hne Hl.
  - destruct l as [|a [|b l]]; [done|by exists a|cbn in Hl; lia].
  - destruct l as [|a [|b l]]; [done|by exists a|]. apply IH; [done|].
    pose proof (parents_shorter (a :: b :: l) ltac:(cbn; lia)). lia.
Qed.

Lemma asset_leaves_spec l leaves :
  asset_leaves l = Ok leaves ->
  leaves = sha256 <$> omap leaf_of l
  /\ forall path digest, (path, digest) ∈ l -> exists b, hex_decode digest = Ok b /\ length b = 32%nat.
Proof.
  revert leaves. induction l as [|[path digest] l IH]; intros leaves; cbn [asset_leaves]; [intros [= <-]; split; [done|set_solver]|].
  destruct (hex_decode digest) as [b|] eqn:Hb; [|done]. destruct (Nat.eqb_spec (length b) 32) as [Hl|]; cbn [negb]; [|done].
  destruct (asset_leaves l) as [rest|]; [|done]. intros [= <-]. destruct (IH rest eq_refl) as [-> Hall].
  assert (omap leaf_of ((path, digest) :: l) = leaf_input path b :: omap leaf_of l) as ->.
  { cbn. unfold leaf_of at 1. cbn. by rewrite Hb. }
  split; [done|]. intros p d [[= -> ->]|Hin]%elem_of_cons; [by exists b|by eapply Hall].
Qed.
Lemma as_bytes_len s : length (as_bytes s) = length (str_bytes s).
Proof. unfold as_bytes. apply length_fmap. Qed.
Lemma as_bytes_inj s t : as_bytes s = as_bytes t -> s = t.
Proof. intros H. rewrite <- (text_of_as_bytes s), <- (text_of_as_bytes t). by rewrite H. Qed.
Lemma leaf_input_inj p d p' d' :
  length d = 32%nat -> length d' = 32%nat -> leaf_input p d = leaf_input p' d' -> p = p' /\ d = d'.
Proof.
  intros Hd Hd' H. unfold leaf_input in H. apply app_inj_1 in H as [_ H]; [|done].
  apply app_inj_1 in H as [_ H]; [|by rewrite !be_bytes_length].
  apply app_inj_2 in H as [Hp ->]; [|congruence]. split; [by apply as_bytes_inj|done].
Qed.
Lemma leaves_elem assets i : i ∈ omap leaf_of (btree_iter assets) <->
  exists path digest b, assets !! path = Some digest /\ hex_decode digest = Ok b /\ i = leaf_input path b.
Proof.
  rewrite list_elem_of_omap. unfold leaf_of. split.
  - intros ([path digest] & Hin & Hi). apply btree_iter_elem in Hin. cbn in Hi. destruct (hex_decode digest) as [b|] eqn:Hb; [|done].
    injection Hi as <-. by exists path, digest, b.
  - intros (path & digest & b & Hin & Hb & ->). exists (path, digest). split; [by apply btree_iter_elem|]. cbn. by rewrite Hb.
Qed.
Definition decoded (assets : gmap string string) (path : string) : option bytes :=
  digest ← assets !! path; match hex_decode digest with Ok b => Some b | Err _ => None end.
Definition sized (assets : gmap string string) : Prop :=
  forall path digest, assets !! path = Some digest -> exists b, hex_decode digest = Ok b /\ length b = 32%nat.

Lemma leaves_level I assets :
  collision_free I -> sized assets -> (forall i, i ∈ omap leaf_of (btree_iter assets) -> i ∈ I) ->
  level I 0 (sha256 <$> omap leaf_of (btree_iter assets)).
Proof.
  intros Hfree Hsized Hin. split.
  - apply NoDup_fmap_2_strong; [intros x y Hx Hy; apply Hfree; auto|]. clear Hin.
    assert (forall p, p ∈ btree_iter assets -> exists b, hex_decode p.2 = Ok b /\ length b = 32%nat) as Hdec.
    { intros [path digest] Hp. apply btree_iter_elem in Hp. by eapply Hsized. }
    pose proof (btree_keys_NoDup assets) as Hnd. unfold btree_keys in Hnd.
    induction (btree_iter assets) as [|[path digest] l IH]; [constructor|]. csimpl in *. apply NoDup_cons in Hnd as [Hn Hnd].
    destruct (Hdec (path, digest) ltac:(set_solver)) as (b & Hb & Hlb). unfold leaf_of at 1. cbn in *. rewrite Hb.
    apply NoDup_cons. split; [|apply IH; [set_solver|done]]. intros ([p d] & Hp & Hi)%list_elem_of_omap. unfold leaf_of in Hi. cbn in Hi.
    destruct (Hdec (p, d) ltac:(set_solver)) as (b' & Hb' & Hlb'). cbn in Hb'. rewrite Hb' in Hi. apply (inj Some) in Hi.
    apply leaf_input_inj in Hi as [-> _]; [|done..]. apply Hn, list_elem_of_fmap. by exists (path, d).
  - apply Forall_fmap, Forall_forall. intros i Hi. eapply tree_leaf; [by apply Hin| |done].
    apply leaves_elem in Hi as (? & ? & ? & _ & _ & ->). done.
Qed.

Lemma root_collapse assets r :
  asset_integrity_root assets = Ok r ->
  let leaves := omap leaf_of (btree_iter assets) in
  sized assets
  /\ ((leaves = [] /\ r = hex_encode (sha256 [x02]))
      \/ exists x, collapse (length leaves) (sha256 <$> leaves) = Some x /\ r = hex_encode x).
Proof.
  unfold asset_integrity_root. destruct (asset_leaves (btree_iter assets)) as [nodes|] eqn:Hl; [|done].
  apply asset_leaves_spec in Hl as [-> Hall]. cbn zeta. intros Hr. split.
  { intros path digest Hp. by eapply Hall, btree_iter_elem. }
  destruct (omap leaf_of (btree_iter assets)) as [|i l] eqn:Hi; [left; split; [done|]; unfold hex_sha256 in Hr; cbn in Hr; congruence|].
  right. assert (forall nodes : list bytes, nodes = sha256 <$> i :: l -> match collapse (length nodes) nodes with
      | Some root => Ok (hex_encode root) | None => Err (Core.Integrity "asset tree did not collapse") end = Ok r ->
      exists x, collapse (length (i :: l)) (sha256 <$> i :: l) = Some x /\ r = hex_encode x) as Hgo; [|by eapply Hgo].
  intros nodes -> Hc. rewrite length_fmap in Hc. revert Hc.
  generalize (collapse (length (i :: l)) (sha256 <$> i :: l)). intros [x|] Hc; [|done]. exists x. split; [done|]. congruence.
Qed.
Lemma root_total assets : sized assets -> exists r, asset_integrity_root assets = Ok r.
Proof.
  intros Hs. unfold asset_integrity_root.
  assert (exists leaves, asset_leaves (btree_iter assets) = Ok leaves) as [leaves ->].
  { assert (forall path digest, (path, digest) ∈ btree_iter assets -> exists b, hex_decode digest = Ok b /\ length b = 32%nat) as Hdec
      by (intros path digest Hp; by eapply Hs, btree_iter_elem).
    induction (btree_iter assets) as [|[path digest] l IH]; cbn [asset_leaves]; [by eexists|].
    destruct (Hdec path digest) as (b & -> & ->); [set_solver|]. destruct IH as [leaves ->]; [set_solver|]. by eexists. }
  destruct leaves as [|x l]; [by eexists|]. destruct (collapse_total (length (x :: l)) (x :: l)) as [r ->]; [done|lia|]. by eexists.
Qed.
Lemma hex_encode_inj (a b : bytes) : hex_encode a = hex_encode b -> a = b.
Proof. intros H. pose proof (hex_decode_encode a) as Ha. rewrite H, hex_decode_encode in Ha. congruence. Qed.
Lemma leaves_decoded assets assets' path b :
  sized assets -> sized assets' -> omap leaf_of (btree_iter assets) = omap leaf_of (btree_iter assets') ->
  decoded assets path = Some b -> decoded assets' path = Some b.
Proof.
  intros Hs Hs' Heq. unfold decoded. destruct (assets !! path) as [digest|] eqn:Hd; [|done]. cbn.
  destruct (hex_decode digest) as [b'|] eqn:Hb; [|done]. intros [= ->].
  assert (leaf_input path b ∈ omap leaf_of (btree_iter assets')) as Hin by (rewrite <- Heq; apply leaves_elem; by exists path, digest, b).
  apply leaves_elem in Hin as (p & d & b' & Hp & Hb' & Hi).
  destruct (Hs _ _ Hd) as (b1 & Hb1 & Hl1), (Hs' _ _ Hp) as (b2 & Hb2 & Hl2).
  apply leaf_input_inj in Hi as [-> ->]; [|congruence..]. rewrite Hp. cbn. by rewrite Hb'.
Qed.
(** An empty map hashes a string no other map hashes. *)
Lemma empty_root I n x : collision_free I -> [x02] ∈ I -> tree_at I n x -> sha256 [x02] <> x.
Proof.
  intros Hfree Hin Ht Heq. destruct Ht as [i x Hi Hh ->|n a b x Hi _ _ ->]; apply Hfree in Heq; try done. by subst i.
Qed.
End Root.

(** The asset root binds the assets: the root of a map of valid digests is
    always computed, and two maps with the same root have the same paths with
    the same digests, unless two of the byte strings hashed on the way to the
    two roots collide. *)
Theorem asset_root_binds_assets `{Externals} `{HexDecode} (assets assets' : gmap string string) :
  (sized assets -> exists r, asset_integrity_root assets = Ok r)
  /\ forall r, asset_integrity_root assets = Ok r -> asset_integrity_root assets' = Ok r ->
       collision_free (root_inputs assets ++ root_inputs assets') ->
       forall path, decoded assets path = decoded assets' path.
Proof.
  split; [apply root_total|]. intros r Hr Hr' Hfree path.
  apply root_collapse in Hr as [Hs Hr], Hr' as [Hs' Hr']. cbn zeta in *.
  set (I := root_inputs assets ++ root_inputs assets') in *.
  set (leaves := omap leaf_of (btree_iter assets)) in *. set (leaves' := omap leaf_of (btree_iter assets')) in *.
  assert (forall i, i ∈ leaves ++ leaves' ++ [[x02]] ++ collapse_inputs (length leaves) (sha256 <$> leaves)
                    ++ collapse_inputs (length leaves') (sha256 <$> leaves') -> i ∈ I) as Hin by (unfold I, root_inputs; fold leaves leaves'; set_solver).
  assert (level I 0 (sha256 <$> leaves)) as Hl by (apply leaves_level; [done|done|set_solver]).
  assert (level I 0 (sha256 <$> leaves')) as Hl' by (apply leaves_level; [done|done|set_solver]).
  assert (forall l f x, collapse f (sha256 <$> l) = Some x -> level I 0 (sha256 <$> l) ->
    (forall i, i ∈ collapse_inputs f (sha256 <$> l) -> i ∈ I) -> sha256 [x02] <> x) as Hempty.
  { intros l f x Hx Hlv Hi. destruct (collapse_height I Hfree f 0 _ x Hx Hlv Hi) as (k & Hk & _).
    eapply empty_root; [done|set_solver|done]. }
  assert (leaves = leaves') as Heq.
  { destruct Hr as [[-> ->]|(x & Hx & ->)], Hr' as [[-> Hr']|(x' & Hx' & Hr')]; [done| | |]; apply hex_encode_inj in Hr'.
    - exfalso. eapply (Hempty leaves'); [done|done|set_solver|done].
    - exfalso. eapply (Hempty leaves); [done|done|set_solver|done].
    - subst x'. assert (sha256 <$> leaves = sha256 <$> leaves') as Hsha.
      { eapply (collapse_inj I Hfree); [exact Hx|exact Hx'|done|done|set_solver]. }
      clear -Hsha Hfree Hin. assert (forall l l', (forall i, i ∈ l ++ l' -> i ∈ I) -> sha256 <$> l = sha256 <$> l' -> l = l') as Hmap; [|apply Hmap; [set_solver|done]].
      intros l. induction l as [|i l IH]; intros [|j l'] Hi Hm; [done..|]. injection Hm as Hij Hm.
      apply Hfree in Hij; [|apply Hi; set_solver..]. subst j. f_equal. apply IH; [set_solver|done]. }
  destruct (decoded assets path) as [b|] eqn:Hd; [symmetry; by apply (leaves_decoded assets)|].
  destruct (decoded assets' path) as [b|] eqn:Hd'; [|done]. exfalso.
  assert (decoded assets path = Some b) as Hc by (by apply (leaves_decoded assets')). congruence.
Qed.

(** ** A concrete package *)
Section ManifestWitness.
#[local] Existing Instance demo_externals.
#[local] Existing Instance demo_hex.
(** Versions as their text, of which a requirement allows exactly one. *)
Definition demo_semver : Semver.
Proof.
  refine {| Version := string; VersionReq := string;
            parse_version := fun s => if three_numbers s then Some s else None;
            parse_req := fun s => if three_numbers s then Some s else None;
            version_string := fun s => s; version_major := fun _ => 0; version_new := fun _ _ _ => "1.0.0";
            version_leb := fun a b => bool_decide (String.le a b); req_matches := fun r v => bool_decide (r = v) |}.
  - intros s. cbn. by destruct (three_numbers s).
  - intros s. cbn. by destruct (three_numbers s).
  - intros s v. by destruct (three_numbers s); intros [= ->].
  - intros v w. destruct (total String.le v w) as [H|H]; [left|right]; by apply bool_decide_eq_true.
  - intros u v w Huv%bool_decide_eq_true Hvw%bool_decide_eq_true. apply bool_decide_eq_true. by etrans.
Defined.
#[local] Existing Instance demo_semver.
Definition demo_package : PackageManifest :=
  mkPackageManifest 1 (mkMetadata "dev.example.app" "App" "1.2.0" "")
    (mkPermissions false false false true false false false false false) default_http_policy
    (mkCompatibility "" ∅) default_limits
    (mkStateConfig 3 [mkMigration "one-three" 1 3; mkMigration "zero-one" 0 1]) [] [] (mkIntegrity "" ∅ "").
Lemma demo_package_valid : validate_package demo_package = Ok tt.
Proof. vm_compute. reflexivity. Qed.
Lemma migration_plan_complete_witness :
  exists plan, migration_plan demo_package 0 = Some (Ok plan) /\ linked 0 plan.(steps) 3 /\ len plan.(steps) = 2.
Proof.
  pose proof (migration_plan_complete demo_package 0 demo_package_valid) as H.
  destruct (migration_plan demo_package 0) as [[plan|e]|] eqn:Hp; [|vm_compute in Hp; discriminate..].
  exists plan. split; [done|]. split; [apply H|]. vm_compute in Hp. injection Hp as <-. reflexivity.
Defined.
End ManifestWitness.
