(* ===== verification/Resolver.v ===== *)
(** * Dependency resolution and graphs ([crates/cartridge-core/src/resolver.rs])

    Resolution of the direct dependencies of a package, the expansion of the
    transitive graph, and the authority that follows from a graph.  Composition
    locks are in [Core]. *)
From stdpp Require Import pretty.
From S2P Require Import Prelude Text Storage Core Snapshot Directory Blob Network Manifest.

Definition MAX_RESOLUTION_CANDIDATES : N := 4096.
Definition APPROVED_GRAPH_FORMAT_VERSION : N := 1.
Definition MAX_TRANSITIVE_DEPTH : nat := 64.
Definition MAX_GRAPH_NODES : N := 256.
Definition MAX_GRAPH_EDGES : N := 1024.

Inductive ResolveError :=
| InvalidManifest (m : string)
| DuplicateCandidate (cartridge version : string)
| CandidateLimit (maximum : N)
| RequiredUnavailable (alias cartridge version reason : string).
Inductive GraphError := Cycle (m : string) | DepthExceeded | NodeLimit | Resolution (e : ResolveError).

Record GraphNode := mkNode { gn_instance : string; gn_cartridge_id : string; gn_version : string; gn_interfaces : list string }.
Record GraphEdge := mkEdge {
  caller_instance : string;
  provider_instance : string;
  ge_alias : string;
  ge_interfaces : list string;
}.
Record ApprovedGraph := mkGraph {
  ag_format_version : N;
  root_instance : string;
  nodes : list GraphNode;
  edges : list GraphEdge;
  ag_unavailable : list UnavailableDependency;
}.
#[global] Instance graph_node_eq_dec : EqDecision GraphNode.
Proof. solve_decision. Defined.
#[global] Instance graph_edge_eq_dec : EqDecision GraphEdge.
Proof. solve_decision. Defined.

(** The interfaces a package offers to others *)
Definition offered (services : list ProvidedService) : list string :=
  sv_interface <$> List.filter (fun service => negb (bool_decide (service.(visibility) = Private))) services.
Fixpoint join (separator : string) (l : list string) : string :=
  match l with
  | [] => ""
  | [s] => s
  | s :: l => s +:+ separator +:+ join separator l
  end.
(** [min_by_key(Vec::len)]: the first of the shortest *)
Fixpoint shortest {A : Type} (l : list (list A)) : option (list A) :=
  match l with
  | [] => None
  | x :: l => match shortest l with
              | Some y => if (length x <=? length y)%nat then Some x else Some y
              | None => Some x
              end
  end.

Section Resolver.
Context `{Ext : Externals} `{Hex : HexDecode} `{SV : !Semver}.

(** ** Approved graphs *)
Fixpoint check_nodes (instances : gset string) (l : list GraphNode) : result string (gset string) :=
  match l with
  | [] => Ok instances
  | node :: l =>
      if negb (is_alias node.(gn_instance)) || negb (is_cartridge_id node.(gn_cartridge_id))
         || negb (is_bounded_text node.(gn_version) 64 false) || negb (semver_ok node.(gn_version))
         || bool_decide (node.(gn_instance) ∈ instances)
      then Err "approved graph node is invalid"
      else check_nodes ({[node.(gn_instance)]} ∪ instances) l
  end.
Definition invalid_interfaces (l : list string) : bool :=
  bool_decide (l = []) || (64 <? len l) || existsb bad_interface l.
Definition bad_edge (instances : gset string) (edge : GraphEdge) : bool :=
  negb (bool_decide (edge.(caller_instance) ∈ instances)) || negb (bool_decide (edge.(provider_instance) ∈ instances))
  || negb (is_alias edge.(ge_alias)) || invalid_interfaces edge.(ge_interfaces).
Definition validate_graph (self : ApprovedGraph) : result string unit :=
  if negb (self.(ag_format_version) =? APPROVED_GRAPH_FORMAT_VERSION) then Err "approved graph format version is invalid"
  else if (MAX_GRAPH_NODES <? len self.(nodes)) || (MAX_GRAPH_EDGES <? len self.(edges))
  then Err "approved graph exceeds node or edge limits"
  else
    let? instances := check_nodes ∅ self.(nodes) in
    if negb (bool_decide (self.(root_instance) ∈ instances)) then Err "approved graph root instance is missing from nodes"
    else if existsb (bad_edge instances) self.(edges) then Err "approved graph edge is invalid"
    else Ok tt.

(** ** Authority *)
Inductive EdgeKind := Session | Persistent | PolicyProvided | Revoked.
#[local] Instance edge_kind_eq_dec : EqDecision EdgeKind.
Proof. solve_decision. Defined.
Record RelationshipGrant := mkGrant {
  rg_caller : string;
  rg_provider : string;
  rg_interfaces : list string;
  scope : string;
  rg_kind : EdgeKind;
  expiry_ms : option N;
  approval_generation : N;
}.
Record RelationshipAuthority := mkAuthority { ra_format_version : N; grants : list RelationshipGrant }.
Definition validate_grant (self : RelationshipGrant) : result string unit :=
  if negb (is_alias self.(rg_caller)) || negb (is_alias self.(rg_provider)) || invalid_interfaces self.(rg_interfaces)
     || negb (is_bounded_text self.(scope) 256 false)
  then Err "relationship grant is invalid" else Ok tt.
Fixpoint check_grants (l : list RelationshipGrant) : result string unit :=
  match l with [] => Ok tt | grant :: l => let? _ := validate_grant grant in check_grants l end.
Definition validate_authority (self : RelationshipAuthority) : result string unit :=
  if negb (self.(ra_format_version) =? APPROVED_GRAPH_FORMAT_VERSION)
  then Err "relationship authority format version is invalid"
  else if MAX_GRAPH_EDGES <? len self.(grants) then Err "relationship authority exceeds grant limit"
  else check_grants self.(grants).
Definition from_graph (graph : ApprovedGraph) (generation : N) : result string RelationshipAuthority :=
  let grants := (fun edge => mkGrant edge.(caller_instance) edge.(provider_instance) edge.(ge_interfaces)
                               edge.(ge_alias) Session None generation) <$> graph.(edges) in
  let authority := mkAuthority APPROVED_GRAPH_FORMAT_VERSION grants in
  let? _ := validate_authority authority in
  Ok authority.
Definition active (g : RelationshipGrant) : bool := negb (bool_decide (g.(rg_kind) = Revoked)).
Definition active_grants_for_caller (self : RelationshipAuthority) (caller : string) : list RelationshipGrant :=
  List.filter (fun g => bool_decide (g.(rg_caller) = caller) && active g) self.(grants).
Definition provider_authority_is_isolated (self : RelationshipAuthority) : bool :=
  forallb (fun grant => negb (active grant)
             || forallb (fun caller_grant => negb (bool_decide (caller_grant.(rg_provider) = grant.(rg_caller))))
                  (active_grants_for_caller self grant.(rg_provider)))
    self.(grants).

(** ** Resolution *)
Fixpoint validate_candidates (l : list PackageManifest) : result ResolveError unit :=
  match l with
  | [] => Ok tt
  | candidate :: l =>
      match validate_package candidate with
      | Ok _ => validate_candidates l
      | Err e => Err (InvalidManifest (error_to_string e))
      end
  end.
Definition package_key (m : PackageManifest) : string * string := (m.(cartridge).(cm_id), m.(cartridge).(cm_version)).
Fixpoint check_versions (versions : gset (string * string)) (l : list PackageManifest) : result ResolveError unit :=
  match l with
  | [] => Ok tt
  | candidate :: l =>
      if bool_decide (package_key candidate ∈ versions)
      then Err (DuplicateCandidate candidate.(cartridge).(cm_id) candidate.(cartridge).(cm_version))
      else check_versions ({[package_key candidate]} ∪ versions) l
  end.

Definition matching (dependency : CartridgeDependency) (requirement : VersionReq) (candidates : list PackageManifest) :
    list (Version * PackageManifest) :=
  omap (fun candidate =>
          version ← parse_version candidate.(cartridge).(cm_version);
          if req_matches requirement version then Some (version, candidate) else None)
    (List.filter (fun candidate => bool_decide (candidate.(cartridge).(cm_id) = dependency.(dp_cartridge))) candidates).
(** [sort_by(|left, right| right.0.cmp(&left.0))] *)
Definition newest_first (a b : Version * PackageManifest) : Prop := version_leb b.1 a.1 = true.
#[global] Instance newest_first_dec : RelDecision newest_first.
Proof. unfold newest_first. solve_decision. Defined.
Definition provides_all (dependency : CartridgeDependency) (candidate : PackageManifest) : bool :=
  forallb (fun interface => bool_decide (interface ∈ offered candidate.(provides))) dependency.(dp_interfaces).
Definition find_provider (dependency : CartridgeDependency) (requirement : VersionReq)
    (candidates : list PackageManifest) : option (Version * PackageManifest) :=
  List.find (fun p => provides_all dependency p.2)
    (merge_sort newest_first (matching dependency requirement candidates)).

Definition unavailable_reason (dependency : CartridgeDependency) (candidates : list PackageManifest)
    (requirement : VersionReq) : string :=
  let matching_id := List.filter (fun c => bool_decide (c.(cartridge).(cm_id) = dependency.(dp_cartridge))) candidates in
  if bool_decide (length matching_id = 0%nat) then "cartridge is not installed"
  else
    let matching_version :=
      List.filter (fun c => is_some_and (req_matches requirement) (parse_version c.(cartridge).(cm_version))) matching_id in
    if bool_decide (length matching_version = 0%nat) then "installed versions do not satisfy the requested range"
    else
      let missing := shortest ((fun c => List.filter (fun i => negb (bool_decide (i ∈ offered c.(provides))))
                                           dependency.(dp_interfaces)) <$> matching_version) in
      "compatible versions do not provide: " +:+ join ", " (default dependency.(dp_interfaces) missing).

Fixpoint resolve_loop (candidates : list PackageManifest) (found : list ResolvedDependency)
    (unavailable : list UnavailableDependency) (l : list CartridgeDependency) : result ResolveError ResolutionPlan :=
  match l with
  | [] => Ok (mkResolutionPlan found unavailable)
  | dependency :: l =>
      let? requirement := ok_or (parse_req dependency.(dp_version)) (InvalidManifest "version requirement") in
      match find_provider dependency requirement candidates with
      | Some (version, _) =>
          resolve_loop candidates
            (found ++ [mkResolved dependency.(dp_alias) dependency.(dp_cartridge) (version_string version) dependency.(dp_interfaces)])
            unavailable l
      | None =>
          let reason := unavailable_reason dependency candidates requirement in
          if dependency.(optional)
          then resolve_loop candidates found
                 (unavailable ++ [mkUnavailable dependency.(dp_alias) dependency.(dp_cartridge) reason]) l
          else Err (RequiredUnavailable dependency.(dp_alias) dependency.(dp_cartridge) dependency.(dp_version) reason)
      end
  end.
Definition resolve_dependencies (root : PackageManifest) (candidates : list PackageManifest) :
    result ResolveError ResolutionPlan :=
  if MAX_RESOLUTION_CANDIDATES <? len candidates then Err (CandidateLimit MAX_RESOLUTION_CANDIDATES)
  else
    let? _ := map_err (fun e => InvalidManifest (error_to_string e)) (validate_package root) in
    let? _ := validate_candidates candidates in
    let? _ := check_versions ∅ candidates in
    resolve_loop candidates [] [] root.(dependencies).

(** ** Expansion *)
Record Expansion := mkExpansion {
  ex_nodes : list GraphNode;
  ex_edges : list GraphEdge;
  visited : gmap (string * string) string;
  path : gset (string * string);
  instance_counts : gmap string N;
  ex_unavailable : list UnavailableDependency;
}.

Fixpoint replace_dots (s : string) : string :=
  match s with
  | EmptyString => EmptyString
  | String a s => String (if bool_decide (a = "."%char) then "-"%char else a) (replace_dots s)
  end.
Definition next_instance_id (cartridge_id : string) (counts : gmap string N) : string * gmap string N :=
  let count := default 0 (counts !! cartridge_id) + 1 in
  (if count =? 1 then replace_dots cartridge_id else replace_dots cartridge_id +:+ "-" +:+ pretty count,
   <[cartridge_id := count]> counts).

Definition push_edge (st : Expansion) (e : GraphEdge) : Expansion :=
  mkExpansion st.(ex_nodes) (st.(ex_edges) ++ [e]) st.(visited) st.(path) st.(instance_counts) st.(ex_unavailable).
Definition extend_unavailable (st : Expansion) (l : list UnavailableDependency) : Expansion :=
  mkExpansion st.(ex_nodes) st.(ex_edges) st.(visited) st.(path) st.(instance_counts) (st.(ex_unavailable) ++ l).
Definition enter (st : Expansion) (node : GraphNode) (key : string * string) (counts : gmap string N) : Expansion :=
  mkExpansion (st.(ex_nodes) ++ [node]) st.(ex_edges) (<[key := node.(gn_instance)]> st.(visited))
    ({[key]} ∪ st.(path)) counts st.(ex_unavailable).
Definition leave (st : Expansion) (key : string * string) : Expansion :=
  mkExpansion st.(ex_nodes) st.(ex_edges) st.(visited) (st.(path) ∖ {[key]}) st.(instance_counts) st.(ex_unavailable).

Definition instance_of (dep : ResolvedDependency) (counts : gmap string N) : string * gmap string N :=
  let major := match parse_version dep.(rd_version) with Some v => version_major v | None => 0 end in
  let (base, counts) := next_instance_id dep.(rd_cartridge) counts in
  (if 0 <? major then base +:+ "-v" +:+ pretty major else base, counts).

(** The loop of [expand_graph] over the resolved dependencies; [recurse] is the
    recursive call for a provider. *)
Section Expand.
Variables (candidates : list PackageManifest)
  (recurse : PackageManifest -> string -> Expansion -> result GraphError Expansion).
Fixpoint expand_loop (parent_instance : string) (st : Expansion) (l : list ResolvedDependency) :
    result GraphError Expansion :=
  match l with
  | [] => Ok st
  | dep :: l =>
      let key := (dep.(rd_cartridge), dep.(rd_version)) in
      if bool_decide (key ∈ st.(path)) then Err (Cycle (parent_instance +:+ " -> " +:+ dep.(rd_alias)))
      else
        let? (provider_instance, st) :=
          match st.(visited) !! key with
          | Some existing => Ok (existing, st)
          | None =>
              let (inst, counts) := instance_of dep st.(instance_counts) in
              let? provider_manifest :=
                ok_or (List.find (fun c => bool_decide (c.(cartridge).(cm_id) = dep.(rd_cartridge))
                                           && bool_decide (c.(cartridge).(cm_version) = dep.(rd_version))) candidates)
                  (Resolution (RequiredUnavailable dep.(rd_alias) dep.(rd_cartridge) dep.(rd_version)
                                 "provider vanished during graph expansion")) in
              let node := mkNode inst dep.(rd_cartridge) dep.(rd_version) (offered provider_manifest.(provides)) in
              let? st := recurse provider_manifest inst (enter st node key counts) in
              Ok (inst, leave st key)
          end in
        expand_loop parent_instance
          (push_edge st (mkEdge parent_instance provider_instance dep.(rd_alias) dep.(rd_interfaces))) l
  end.
End Expand.

(** [remaining] is [MAX_TRANSITIVE_DEPTH + 1 - depth]: the depth is exceeded
    when it is zero. *)
Fixpoint expand_graph (remaining : nat) (candidates : list PackageManifest) (manifest : PackageManifest)
    (parent_instance : string) (st : Expansion) : result GraphError Expansion :=
  match remaining with
  | O => Err DepthExceeded
  | S remaining =>
      if MAX_GRAPH_NODES <? len st.(ex_nodes) then Err NodeLimit
      else
        let? plan := map_err Resolution (resolve_dependencies manifest candidates) in
        expand_loop candidates (expand_graph remaining candidates) parent_instance
          (extend_unavailable st plan.(unavailable_optional)) plan.(resolved)
  end.

Definition build_approved_graph (root : PackageManifest) (candidates : list PackageManifest) :
    result GraphError ApprovedGraph :=
  let root_instance := "root" in
  let node := mkNode root_instance root.(cartridge).(cm_id) root.(cartridge).(cm_version) (offered root.(provides)) in
  let start := mkExpansion [node] [] {[package_key root := root_instance]} ∅ ∅ [] in
  let? st := expand_graph (S MAX_TRANSITIVE_DEPTH) candidates root root_instance start in
  Ok (mkGraph APPROVED_GRAPH_FORMAT_VERSION root_instance st.(ex_nodes) st.(ex_edges) st.(ex_unavailable)).
End Resolver.
