(* ===== verification/ResolverTheorems.v ===== *)
(** * Theorems on resolution and graphs

    Resolution picks the newest provider; an expanded graph is closed, names a
    package once, and has no cycle except through its root. *)
From stdpp Require Import pretty.
From S2P Require Import Prelude Text Storage Core Snapshot Directory Blob Network Manifest ManifestTheorems Resolver.

Section Resolution.
Context `{Ext : Externals} `{Hex : HexDecode} `{SV : !Semver}.

#[local] Instance newest_first_trans : Transitive newest_first.
Proof. intros a b c Hab Hbc. unfold newest_first in *. by eapply version_leb_trans. Qed.
#[local] Instance newest_first_total : Total newest_first.
Proof. intros a b. unfold newest_first. destruct (version_leb_total a.1 b.1); auto. Qed.

(** A candidate that satisfies a dependency, at its version. *)
Record eligible (dependency : CartridgeDependency) (candidates : list PackageManifest)
    (candidate : PackageManifest) (version : Version) : Prop := {
  el_in : candidate ∈ candidates;
  el_id : candidate.(cartridge).(cm_id) = dependency.(dp_cartridge);
  el_version : parse_version candidate.(cartridge).(cm_version) = Some version;
  el_matches : exists requirement, parse_req dependency.(dp_version) = Some requirement /\ req_matches requirement version = true;
  el_interfaces : forall i, i ∈ dependency.(dp_interfaces) -> i ∈ offered candidate.(provides);
}.
Lemma eligible_iff dependency requirement candidates candidate version :
  parse_req dependency.(dp_version) = Some requirement ->
  eligible dependency candidates candidate version
  <-> (version, candidate) ∈ matching dependency requirement candidates /\ provides_all dependency candidate = true.
Proof.
  intros Hreq. unfold matching, provides_all. rewrite forallb_forall, list_elem_of_omap. split.
  - intros [Hin Hid Hv (r & Hr & Hm) Hi]. assert (r = requirement) as -> by congruence. split.
    + exists candidate. split; [|by rewrite Hv; cbn; rewrite Hm]. apply list_elem_of_In, filter_In. split; [by apply list_elem_of_In|].
      by apply bool_decide_eq_true.
    + intros i Hi'. apply bool_decide_eq_true, Hi. by apply list_elem_of_In.
  - intros [(c & Hc & Hv) Hi]. apply list_elem_of_In, filter_In in Hc as [Hc Hid]. apply bool_decide_eq_true in Hid.
    destruct (parse_version _) as [v|] eqn:Hp; [|done]. cbn in Hv. destruct (req_matches requirement v) eqn:Hm; [|done].
    injection Hv as -> ->. constructor; [by apply list_elem_of_In|done|done|by exists requirement|].
    intros i Hi'. specialize (Hi i). rewrite bool_decide_eq_true in Hi. by apply Hi, list_elem_of_In.
Qed.
Lemma find_sorted {A : Type} (R : relation A) (p : A -> bool) (l : list A) x :
  Reflexive R -> StronglySorted R l -> List.find p l = Some x -> x ∈ l /\ p x = true /\ forall y, y ∈ l -> p y = true -> R x y.
Proof.
  intros Hrefl Hs. induction Hs as [|a l Hs IH Hall]; cbn; [done|]. destruct (p a) eqn:Hp.
  - intros [= <-]. split_and!; [set_solver|done|]. intros y [->|Hy]%elem_of_cons _; [done|]. by eapply Forall_forall in Hall.
  - intros (Hin & Hpx & Hmax)%IH. split_and!; [set_solver|done|]. intros y [->|Hy]%elem_of_cons Hpy; [congruence|by apply Hmax].
Qed.
Lemma find_provider_spec dependency requirement candidates :
  parse_req dependency.(dp_version) = Some requirement ->
  match find_provider dependency requirement candidates with
  | Some (version, candidate) => eligible dependency candidates candidate version
      /\ forall c v, eligible dependency candidates c v -> version_leb v version = true
  | None => forall c v, ~ eligible dependency candidates c v
  end.
Proof.
  intros Hreq. unfold find_provider. set (l := matching dependency requirement candidates).
  pose proof (merge_sort_Permutation newest_first l) as Hperm.
  assert (Reflexive newest_first) as Hrefl by (intros x; unfold newest_first; by destruct (version_leb_total x.1 x.1)).
  destruct (List.find _ _) as [[version candidate]|] eqn:Hf.
  - apply (find_sorted newest_first) in Hf as (Hin & Hp & Hmax); [|done|apply (StronglySorted_merge_sort newest_first)].
    rewrite Hperm in Hin. split; [by eapply eligible_iff|]. intros c v He. apply (eligible_iff _ requirement) in He as [He1 He2]; [|done].
    apply (Hmax (v, c)); [by rewrite Hperm|done].
  - intros c v He. apply (eligible_iff _ requirement) in He as [He1 He2]; [|done]. fold l in He1. rewrite <- Hperm in He1.
    apply list_elem_of_In in He1. pose proof (find_none _ _ Hf _ He1) as Hn. cbn in Hn. congruence.
Qed.

(** What the loop adds for each dependency. *)
Definition resolves (candidates : list PackageManifest) (plan : ResolutionPlan) (d : CartridgeDependency) : Prop :=
  (exists c v, eligible d candidates c v
     /\ (forall c' v', eligible d candidates c' v' -> version_leb v' v = true)
     /\ mkResolved d.(dp_alias) d.(dp_cartridge) c.(cartridge).(cm_version) d.(dp_interfaces) ∈ plan.(resolved))
  \/ (d.(optional) = true /\ (forall c v, ~ eligible d candidates c v)
      /\ exists reason, mkUnavailable d.(dp_alias) d.(dp_cartridge) reason ∈ plan.(unavailable_optional)).
Lemma resolve_loop_spec candidates l : forall found unavailable,
  match resolve_loop candidates found unavailable l with
  | Ok plan => (forall d, d ∈ l -> resolves candidates plan d)
      /\ (forall x, x ∈ found -> x ∈ plan.(resolved)) /\ (forall x, x ∈ unavailable -> x ∈ plan.(unavailable_optional))
      /\ (forall x, x ∈ plan.(resolved) -> x ∈ found \/ exists d, d ∈ l /\ x.(rd_cartridge) = d.(dp_cartridge)
            /\ exists c v, eligible d candidates c v /\ x.(rd_version) = c.(cartridge).(cm_version)
                 /\ x.(rd_interfaces) = d.(dp_interfaces))
  | Err e => exists d, d ∈ l /\ (parse_req d.(dp_version) = None
                                 \/ (d.(optional) = false /\ forall c v, ~ eligible d candidates c v))
  end.
Proof.
  induction l as [|d l IH]; intros found unavailable; cbn [resolve_loop].
  { cbn. split_and!; [set_solver|done|done|by left]. }
  destruct (parse_req (dp_version d)) as [requirement|] eqn:Hreq; cbn [ok_or]; [|exists d; split; [set_solver|by left]].
  pose proof (find_provider_spec d requirement candidates Hreq) as Hf.
  destruct (find_provider d requirement candidates) as [[version candidate]|].
  - destruct Hf as [He Hmax]. pose proof (version_round_trip _ _ (el_version _ _ _ _ He)) as Hv. rewrite Hv.
    set (x := mkResolved _ _ _ _). specialize (IH (found ++ [x]) unavailable).
    destruct (resolve_loop _ _ _ _) as [plan|e].
    + destruct IH as (Hall & Hf & Hu & Honly). split_and!; [|set_solver|done|].
      * intros d' [->|Hd']%elem_of_cons; [|by apply Hall]. left. exists candidate, version. split_and!; [done|done|apply Hf; set_solver].
      * intros y [Hy|(d' & ? & ?)]%Honly; [|right; exists d'; set_solver]. apply elem_of_app in Hy as [Hy| ->%list_elem_of_singleton]; [by left|].
        right. exists d. split; [set_solver|]. split; [done|]. by exists candidate, version.
    + destruct IH as (d' & ? & ?). exists d'. set_solver.
  - cbn zeta. destruct (optional d) eqn:Hopt; [|exists d; split; [set_solver|by right]].
    set (x := mkUnavailable _ _ _). specialize (IH found (unavailable ++ [x])).
    destruct (resolve_loop _ _ _ _) as [plan|e].
    + destruct IH as (Hall & Hf' & Hu & Honly). split_and!; [|done|set_solver|].
      * intros d' [->|Hd']%elem_of_cons; [|by apply Hall]. right. split; [done|]. split; [done|]. exists (unavailable_reason d candidates requirement). apply Hu, elem_of_app. right. by apply list_elem_of_singleton.
      * intros y [Hy|(d' & ? & ?)]%Honly; [by left|right; exists d'; set_solver].
    + destruct IH as (d' & ? & ?). exists d'. set_solver.
Qed.
End Resolution.

(** Resolution picks the newest provider: for every dependency of a package
    it names the version of a candidate that has the cartridge id, satisfies the
    range and offers every interface, and no such candidate is newer; an optional
    dependency without any is listed as unavailable; and when the manifests are
    valid and distinct, it fails only for a required dependency without any. *)
Theorem resolution_picks_newest `{Externals} `{HexDecode} `{!Semver} (root : PackageManifest) (candidates : list PackageManifest) :
  match resolve_dependencies root candidates with
  | Ok plan => forall d, d ∈ root.(dependencies) -> resolves candidates plan d
  | Err e =>
      MAX_RESOLUTION_CANDIDATES < len candidates \/ is_ok (validate_package root) = false
      \/ is_ok (validate_candidates candidates) = false \/ is_ok (check_versions ∅ candidates) = false
      \/ exists d, d ∈ root.(dependencies) /\ (parse_req d.(dp_version) = None
           \/ (d.(optional) = false /\ forall c v, ~ eligible d candidates c v))
  end.
Proof.
  unfold resolve_dependencies. destruct (N.ltb_spec MAX_RESOLUTION_CANDIDATES (len candidates)); [by left|].
  destruct (validate_package root) as [[]|]; cbn [map_err]; [|right; by left].
  destruct (validate_candidates candidates) as [[]|]; [|do 2 right; by left].
  destruct (check_versions ∅ candidates) as [[]|]; [|do 3 right; by left].
  pose proof (resolve_loop_spec candidates (dependencies root) [] []) as Hl.
  destruct (resolve_loop _ _ _ _) as [plan|e]; [apply Hl|by do 4 right].
Qed.

(** ** Graphs *)
Definition node_key (n : GraphNode) : string * string := (n.(gn_cartridge_id), n.(gn_version)).
Definition instances (l : list GraphNode) : list string := gn_instance <$> l.
Definition ROOT : string := "root".

Section Graphs.
Context `{Ext : Externals} `{Hex : HexDecode} `{SV : !Semver} (candidates : list PackageManifest).

(** An expansion only adds nodes, and stays within their limit. *)
Definition grows (recurse : PackageManifest -> string -> Expansion -> result GraphError Expansion) : Prop :=
  forall m p st st', recurse m p st = Ok st' ->
    st.(ex_nodes) `prefix_of` st'.(ex_nodes) /\ len st'.(ex_nodes) <= MAX_GRAPH_NODES.
Lemma expand_loop_grows recurse : grows recurse -> forall l p st st',
  len st.(ex_nodes) <= MAX_GRAPH_NODES -> expand_loop candidates recurse p st l = Ok st' ->
  st.(ex_nodes) `prefix_of` st'.(ex_nodes) /\ len st'.(ex_nodes) <= MAX_GRAPH_NODES.
Proof.
  intros Hrec. induction l as [|dep l IH]; intros p st st' Hlen; cbn [expand_loop]; [by intros [= <-]|].
  cbn zeta. pass Hpath. destruct (visited st !! _) as [existing|]; [intros Hrun; by apply IH in Hrun|].
  destruct (instance_of dep _) as [inst counts]. destruct (List.find _ _) as [m|]; cbn [ok_or]; [|done].
  destruct (recurse m inst _) as [st2|] eqn:Hr; [|done]. apply Hrec in Hr as [Hp Hl]. cbn in Hp.
  intros Hrun. apply IH in Hrun as [Hp' Hl']; [|done]. split; [|done]. cbn in Hp'. etrans; [|exact Hp']. etrans; [|exact Hp].
  by apply prefix_app_r.
Qed.
Lemma expand_grows n : grows (expand_graph n candidates).
Proof.
  induction n as [|n IH]; intros m p st st'; cbn [expand_graph]; [done|]. pass Hn. apply N.ltb_ge in Hn.
  destruct (map_err _ _) as [plan|]; [|done]. intros Hrun. by apply (expand_loop_grows _ IH) in Hrun.
Qed.

(** [finished] lists the instances whose expansion is over, the last first. *)
Record graph_inv (st : Expansion) (finished : list string) : Prop := {
  gi_nodes : forall n, n ∈ st.(ex_nodes) -> st.(visited) !! node_key n = Some n.(gn_instance);
  gi_visited : forall k i, st.(visited) !! k = Some i -> i ∈ instances st.(ex_nodes);
  gi_keys : NoDup (node_key <$> st.(ex_nodes));
  gi_edges : forall e, e ∈ st.(ex_edges) -> e.(caller_instance) ∈ instances st.(ex_nodes)
               /\ e.(provider_instance) ∈ instances st.(ex_nodes)
               /\ (e.(provider_instance) = ROOT \/ e.(provider_instance) ∈ finished);
  gi_open : forall k i, st.(visited) !! k = Some i -> k ∈ st.(path) \/ i = ROOT \/ i ∈ finished;
  gi_finished : forall i, i ∈ finished -> i ∈ instances st.(ex_nodes);
  gi_topo : forall f1 u f2, finished = f1 ++ u :: f2 -> forall e, e ∈ st.(ex_edges) -> e.(caller_instance) = u ->
              e.(provider_instance) = ROOT \/ e.(provider_instance) ∈ f2;
}.

Definition expands (p : string) (st st' : Expansion) (finished : list string) : Prop :=
  exists more, graph_inv st' (more ++ finished) /\ st'.(path) = st.(path)
    /\ forall i, i ∈ more -> i ∉ instances st.(ex_nodes).
Definition expansion_ok (recurse : PackageManifest -> string -> Expansion -> result GraphError Expansion) : Prop :=
  forall m p st st' finished, recurse m p st = Ok st' -> NoDup (instances st'.(ex_nodes)) ->
    graph_inv st finished -> p ∈ instances st.(ex_nodes) -> p ∉ finished -> expands p st st' finished.

Lemma inv_enter st finished node key counts :
  graph_inv st finished -> node_key node = key -> st.(visited) !! key = None ->
  graph_inv (enter st node key counts) finished.
Proof.
  intros [Hn Hv Hk He Ho Hf Ht] Hkey Hnew. unfold instances in *. constructor; cbn.
  - intros n [Hin|Hin]%elem_of_app.
    + rewrite lookup_insert_ne; [by apply Hn|]. intros ->. rewrite Hn in Hnew by done. done.
    + apply list_elem_of_singleton in Hin as ->. by rewrite Hkey, lookup_insert_eq.
  - intros k i [[<- <-]|[_ Hi]]%lookup_insert_Some; rewrite fmap_app, elem_of_app; [right; cbn; set_solver|left; by eapply Hv].
  - rewrite fmap_app. apply NoDup_app. split_and!; [done| |apply NoDup_singleton].
    intros k (n & -> & Hin)%list_elem_of_fmap Hk'. apply list_elem_of_singleton in Hk'. rewrite Hkey in Hk'.
    rewrite <- Hk', Hn in Hnew by done. done.
  - intros e Hin. destruct (He e Hin) as (H1 & H2 & H3). rewrite fmap_app, !elem_of_app. auto.
  - intros k i [[<- <-]|[_ Hi]]%lookup_insert_Some; [left; set_solver|]. destruct (Ho k i Hi) as [|[|]]; [left; set_solver|auto..].
  - intros i Hi. rewrite fmap_app, elem_of_app. left. by apply Hf.
  - done.
Qed.
Lemma inv_leave st finished key inst :
  graph_inv st finished -> st.(visited) !! key = Some inst -> inst ∉ finished ->
  graph_inv (leave st key) (inst :: finished).
Proof.
  intros [Hn Hv Hk He Ho Hf Ht] Hkey Hnot. constructor; cbn; [done|done|done| | | |].
  - intros e Hin. destruct (He e Hin) as (H1 & H2 & [H3|H3]); [auto|]. split_and!; [done|done|right; set_solver].
  - intros k i Hi. destruct (decide (k = key)) as [->|Hne]; [right; right; assert (i = inst) as -> by congruence; set_solver|].
    destruct (Ho k i Hi) as [|[|]]; [left; set_solver|by right; left|right; right; set_solver].
  - intros i [->|Hi]%elem_of_cons; [by eapply Hv|by apply Hf].
  - intros f1 u f2 Heq e Hin Hc. destruct f1 as [|x f1]; cbn in Heq; injection Heq as Hx Hrest; subst.
    + destruct (He e Hin) as (_ & _ & H3). done.
    + by eapply Ht.
Qed.
Lemma inv_push st finished e :
  graph_inv st finished -> e.(caller_instance) ∈ instances st.(ex_nodes) -> e.(caller_instance) ∉ finished ->
  e.(provider_instance) ∈ instances st.(ex_nodes) ->
  e.(provider_instance) = ROOT \/ e.(provider_instance) ∈ finished -> graph_inv (push_edge st e) finished.
Proof.
  intros [Hn Hv Hk He Ho Hf Ht] Hc Hcf Hp Hpf. constructor; cbn; [done|done|done| |done|done|].
  - intros e' [Hin|Hin]%elem_of_app; [by apply He|]. by apply list_elem_of_singleton in Hin as ->.
  - intros f1 u f2 Heq e' [Hin|Hin]%elem_of_app Hu; [by eapply Ht|]. apply list_elem_of_singleton in Hin as ->.
    exfalso. apply Hcf. rewrite Heq. set_solver.
Qed.
Lemma inv_unavailable st finished l : graph_inv st finished -> graph_inv (extend_unavailable st l) finished.
Proof. by intros [? ? ? ? ? ? ?]. Qed.

Lemma expand_loop_ok recurse : grows recurse -> expansion_ok recurse -> forall l p st st' finished,
  len st.(ex_nodes) <= MAX_GRAPH_NODES ->
  expand_loop candidates recurse p st l = Ok st' -> NoDup (instances st'.(ex_nodes)) ->
  graph_inv st finished -> p ∈ instances st.(ex_nodes) -> p ∉ finished -> expands p st st' finished.
Proof.
  intros Hg Hrec. induction l as [|dep l IH]; intros p st st' finished Hlen Hrun Hnd Hinv Hp Hpf; cbn [expand_loop] in Hrun.
  { injection Hrun as <-. exists []. split_and!; [done|done|set_solver]. }
  revert Hrun. cbn zeta. set (key := (rd_cartridge dep, rd_version dep)). destruct (bool_decide (key ∈ path st)) eqn:Hpath; [done|].
  apply bool_decide_eq_false in Hpath. destruct (visited st !! key) as [existing|] eqn:Hvis.
  - intros Hrun. set (e := mkEdge p existing (rd_alias dep) (rd_interfaces dep)) in *.
    assert (graph_inv (push_edge st e) finished) as Hinv1.
    { apply inv_push; [done|done|done|by eapply gi_visited|]. destruct (gi_open _ _ Hinv _ _ Hvis) as [|[|]]; [done|auto..]. }
    destruct (IH p (push_edge st e) st' finished Hlen Hrun Hnd Hinv1 Hp Hpf) as (more & Hi & Hpt & Hnew). by exists more.
  - destruct (instance_of dep _) as [inst counts]. destruct (List.find _ _) as [m|]; cbn [ok_or]; [|done].
    set (node := mkNode inst _ _ _). destruct (recurse m inst (enter st node key counts)) as [st2|] eqn:Hr; [|done]. intros Hrun.
    set (e := mkEdge p inst (rd_alias dep) (rd_interfaces dep)) in *. set (st3 := push_edge (leave st2 key) e) in *.
    destruct (Hg _ _ _ _ Hr) as [Hp2 Hl2]. cbn in Hp2.
    pose proof (expand_loop_grows recurse Hg l p st3 st' Hl2 Hrun) as [Hp3 _]. cbn in Hp3.
    assert (NoDup (instances (ex_nodes st2))) as Hnd2.
    { destruct Hp3 as [rest Hrest]. rewrite Hrest in Hnd. unfold instances in *. rewrite fmap_app in Hnd. by apply NoDup_app in Hnd as [? _]. }
    assert (inst ∉ instances (ex_nodes st)) as Hfresh.
    { destruct Hp2 as [rest Hrest]. rewrite Hrest in Hnd2. unfold instances in *. rewrite !fmap_app in Hnd2.
      apply NoDup_app in Hnd2 as [Hnd2 _]. apply NoDup_app in Hnd2 as (_ & Hd & _). intros Hin. apply (Hd _ Hin). cbn. set_solver. }
    assert (inst ∉ finished) as Hinf by (intros Hin; by apply Hfresh, (gi_finished _ _ Hinv)).
    assert (graph_inv (enter st node key counts) finished) as Hinv1 by (by apply inv_enter).
    assert (inst ∈ instances (ex_nodes (enter st node key counts))) as Hinst by (unfold instances; cbn; rewrite fmap_app; set_solver).
    destruct (Hrec _ _ _ _ finished Hr Hnd2 Hinv1 Hinst Hinf) as (more & Hinv2 & Hpath2 & Hnew).
    assert (inst ∉ more ++ finished) as Hinm by (intros [Hm|Hm]%elem_of_app; [by apply (Hnew inst)|done]).
    assert (visited st2 !! key = Some inst) as Hvis2.
    { destruct Hp2 as [rest Hrest]. assert (node ∈ ex_nodes st2) as Hin by (rewrite Hrest; set_solver).
      by apply (gi_nodes _ _ Hinv2) in Hin. }
    assert (graph_inv (leave st2 key) (inst :: more ++ finished)) as Hinv3 by (by apply inv_leave).
    assert (forall i, i ∈ instances (ex_nodes st) -> i ∈ instances (ex_nodes st2)) as Hmono.
    { intros i Hi. destruct Hp2 as [rest ->]. unfold instances in *. rewrite !fmap_app. set_solver. }
    assert (p ∉ inst :: more ++ finished) as Hpn.
    { intros [->|[Hm|Hm]%elem_of_app]%elem_of_cons; [done| |done]. apply (Hnew p Hm). unfold instances in *. cbn. rewrite fmap_app. set_solver. }
    assert (graph_inv st3 (inst :: more ++ finished)) as Hinv4.
    { apply inv_push; [done|by apply Hmono|done| |right; set_solver]. cbn. by eapply (gi_visited _ _ Hinv2). }
    destruct (IH p st3 st' (inst :: more ++ finished) Hl2 Hrun Hnd Hinv4) as (more' & Hinv5 & Hpath5 & Hnew5); [by apply Hmono|done|].
    exists (more' ++ inst :: more). split_and!.
    + by rewrite <- app_assoc.
    + rewrite Hpath5. cbn. rewrite Hpath2. cbn. set_solver.
    + intros i [Hi|[->|Hi]%elem_of_cons]%elem_of_app Hin; [by apply (Hnew5 i Hi), Hmono|done|]. apply (Hnew i Hi). unfold instances in *. cbn. rewrite fmap_app. set_solver.
Qed.
Lemma expand_ok n : expansion_ok (expand_graph n candidates).
Proof.
  induction n as [|n IH]; intros m p st st' finished; cbn [expand_graph]; [done|]. pass Hn. apply N.ltb_ge in Hn.
  destruct (map_err _ _) as [plan|]; [|done]. intros Hrun Hnd Hinv Hp Hpf.
  destruct (expand_loop_ok _ (expand_grows n) IH _ p (extend_unavailable st (unavailable_optional plan)) st' finished Hn Hrun Hnd (inv_unavailable _ _ _ Hinv) Hp Hpf) as (more & ? & ? & ?).
  by exists more.
Qed.
End Graphs.

(** One instance calls another, which is not the root. *)
Definition calls (g : ApprovedGraph) (u v : string) : Prop :=
  exists e, e ∈ g.(edges) /\ e.(caller_instance) = u /\ e.(provider_instance) = v /\ v <> ROOT.

(** In an order where every provider comes later than its callers there is no
    way back. *)
Lemma topo_no_cycle (edges : list GraphEdge) (order : list string) :
  (forall f1 u f2, order = f1 ++ u :: f2 -> forall e, e ∈ edges -> e.(caller_instance) = u -> e.(provider_instance) <> ROOT ->
     e.(provider_instance) ∈ f2) ->
  forall u v, tc (fun a b => exists e, e ∈ edges /\ e.(caller_instance) = a /\ e.(provider_instance) = b /\ b <> ROOT) u v ->
  forall f1 f2, order = f1 ++ u :: f2 -> v ∈ f2.
Proof.
  intros Htopo u v H. induction H as [u v (e & He & <- & <- & Hr)|u v w (e & He & <- & <- & Hr) Htc IH]; intros f1 f2 Horder.
  - by eapply Htopo.
  - pose proof (Htopo _ _ _ Horder e He eq_refl Hr) as Hin. apply list_elem_of_split in Hin as (g1 & g2 & ->).
    specialize (IH (f1 ++ caller_instance e :: g1) g2). rewrite <- app_assoc in IH. specialize (IH Horder). set_solver.
Qed.


(** ** Concrete packages *)
Section ResolverWitness.
#[local] Existing Instance demo_externals.
#[local] Existing Instance demo_hex.
#[local] Existing Instance demo_semver.
Definition service_interface : string := "acme:kit/api@1.0.0".
Definition package (id : string) (needs : list (string * string)) : PackageManifest :=
  mkPackageManifest 1 (mkMetadata id "Package" "1.0.0" "")
    (mkPermissions false false false false false false false false false) default_http_policy
    (mkCompatibility "" ∅) default_limits (mkStateConfig 0 [])
    ((fun '(alias, cartridge) => mkDependency alias cartridge "1.0.0" [service_interface] false "") <$> needs)
    [mkService "api" service_interface Dependency ""] (mkIntegrity "" ∅ "").
Definition app_package : PackageManifest := package "dev.acme.app" [("store", "dev.acme.store")].
Definition store_package : PackageManifest := package "dev.acme.store" [("log", "dev.acme.log")].
Definition log_package : PackageManifest := package "dev.acme.log" [].


Definition looping_store : PackageManifest := package "dev.acme.store" [("app", "dev.acme.app")].
(** A cycle through the root is accepted: the root is never on the path of
    the expansion, so a package and its root that need each other make a graph,
    which even validates. *)
Lemma cycle_through_root_accepted :
  exists g, build_approved_graph app_package [looping_store; app_package] = Ok g
    /\ validate_graph g = Ok tt
    /\ (fun e => (e.(caller_instance), e.(provider_instance))) <$> g.(edges)
       = [("dev-acme-store", "root"); ("root", "dev-acme-store")].
Proof. eexists. vm_compute. done. Qed.
(** Two packages whose ids differ in dots and dashes only are one instance. *)
Lemma instance_names_collide :
  exists g, build_approved_graph (package "dev.acme.app" [("one", "dev.acme-log.kit"); ("two", "dev.acme.log-kit")])
              [package "dev.acme-log.kit" []; package "dev.acme.log-kit" []] = Ok g
    /\ instances g.(nodes) = ["root"; "dev-acme-log-kit"; "dev-acme-log-kit"] /\ is_ok (validate_graph g) = false.
Proof. eexists. vm_compute. done. Qed.
End ResolverWitness.
