(* ===== verification/Trace.v ===== *)
(** * Execution traces ([crates/cartridge-trace/src/lib.rs])

    JSON values, the trace of one invocation with its validation, summary,
    comparison and redaction, and the errors of a replay.  The theorems say that
    comparison is exact and reports the first difference, and that a validated
    trace is numbered without gaps and bounded. *)
From stdpp Require Import pretty.
From S2P Require Import Prelude Text Core Manifest.

Definition CURRENT_TRACE_FORMAT_VERSION : N := 2.
Definition MAX_TRACE_DOCUMENT_BYTES : N := 32 * 1024 * 1024.
Definition MAX_TRACE_BYTES : N := 16 * 1024 * 1024.
Definition MAX_TRACE_EVENTS : N := 100000.
Definition MAX_TRACE_OUTPUT_BYTES : N := 1024 * 1024.
Definition MAX_TRACE_ARGUMENTS : N := 4096.
Definition MAX_TRACE_ARGUMENT_BYTES : N := 1024 * 1024.
Definition MAX_TRACE_LABEL_BYTES : N := 128.

(** ** JSON values

    [serde_json::Value].  A number is unsigned, negative, or a finite float,
    given as mantissa and exponent in lowest terms.  The fields of an object are
    kept in the order of their names: [serde_json::Map] is a [BTreeMap]. *)
Inductive Number := PosInt (n : N) | NegInt (z : Z) | Float (mantissa exponent : Z).
#[global] Instance number_eq_dec : EqDecision Number.
Proof. solve_decision. Defined.
Inductive Value :=
| Null
| Bool (b : bool)
| Num (n : Number)
| Str (s : string)
| Arr (items : list Value)
| Obj (fields : list (string * Value)).
#[global] Instance value_eq_dec : EqDecision Value.
Proof.
  refine (fix go (x y : Value) : Decision (x = y) :=
    match x, y with
    | Null, Null => left _
    | Bool a, Bool b => cast_if (decide (a = b))
    | Num a, Num b => cast_if (decide (a = b))
    | Str a, Str b => cast_if (decide (a = b))
    | Arr a, Arr b => cast_if (@list_eq_dec _ go a b)
    | Obj a, Obj b => cast_if (@list_eq_dec _ (@prod_eq_dec _ _ _ go) a b)
    | _, _ => right _
    end); clear go; abstract congruence.
Defined.

Fixpoint insert_field (key : string) (v : Value) (fields : list (string * Value)) : list (string * Value) :=
  match fields with
  | [] => [(key, v)]
  | (k, w) :: rest =>
      if bool_decide (k = key) then (key, v) :: rest
      else if str_lt key k then (key, v) :: fields
      else (k, w) :: insert_field key v rest
  end.
(** [json!({ ... })] *)
Definition object (fields : list (string * Value)) : Value :=
  Obj (foldl (fun acc f => insert_field f.1 f.2 acc) [] fields).
Definition unsigned (n : N) : Value := Num (PosInt n).
Definition value_get (v : Value) (field : string) : option Value :=
  match v with
  | Obj fields => snd <$> List.find (fun f => bool_decide (f.1 = field)) fields
  | _ => None
  end.
Definition as_u64 (v : Value) : option N := match v with Num (PosInt n) => Some n | _ => None end.
Definition as_str (v : Value) : option string := match v with Str s => Some s | _ => None end.
Definition as_bool (v : Value) : option bool := match v with Bool b => Some b | _ => None end.

(** ** Traces *)
Record TraceIdentity := mkTraceIdentity {
  ti_cartridge_id : string;
  ti_cartridge_version : string;
  ti_component_sha256 : string;
}.
Record TraceEvent := mkTraceEvent {
  sequence : N;
  capability : string;
  operation : string;
  outcome : Value;
}.
#[global] Instance trace_event_eq_dec : EqDecision TraceEvent.
Proof. solve_decision. Defined.
Record TraceResult := mkTraceResult { tr_output : string; fuel_consumed : N }.
#[global] Instance trace_result_eq_dec : EqDecision TraceResult.
Proof. solve_decision. Defined.
Record ExecutionTrace := mkTrace {
  et_format_version : N;
  et_runtime_version : string;
  et_cartridge_id : string;
  et_cartridge_version : string;
  et_component_sha256 : string;
  et_args : list string;
  et_events : list TraceEvent;
  et_result : TraceResult;
}.
#[global] Instance execution_trace_eq_dec : EqDecision ExecutionTrace.
Proof. solve_decision. Defined.
Definition new_trace (runtime_version : string) (identity : TraceIdentity) (args : list string)
    (events : list TraceEvent) (result : TraceResult) : ExecutionTrace :=
  mkTrace CURRENT_TRACE_FORMAT_VERSION runtime_version identity.(ti_cartridge_id)
    identity.(ti_cartridge_version) identity.(ti_component_sha256) args events result.

Inductive ReplayError :=
| UnsupportedFormat (found expected : N)
| InvalidTrace (reason : string)
| IdentityMismatch (field expected actual : string)
| InvocationMismatch (expected actual : list string)
| Divergence (sequence : N) (reason : string)
| EventsRemaining (remaining : N)
| TraceLimitExceeded (events bytes : N)
| ResultMismatch (field expected actual : string).
#[global] Instance replay_error_eq_dec : EqDecision ReplayError.
Proof. solve_decision. Defined.
Definition invalid {A : Type} (reason : string) : result ReplayError A := Err (InvalidTrace reason).

Definition valid_label (value : string) : bool :=
  negb (trim_is_empty value) && (str_len value <=? MAX_TRACE_LABEL_BYTES)
  && negb (existsb char_is_control (str_chars value)).
Definition check_identity (field expected actual : string) : result ReplayError unit :=
  if negb (bool_decide (expected = actual)) then Err (IdentityMismatch field expected actual) else Ok tt.

(** [try_fold] over the arguments *)
Fixpoint argument_bytes (total : N) (args : list string) : result ReplayError N :=
  match args with
  | [] => Ok total
  | argument :: args =>
      let? total := ok_or (checked_add usize_max total (str_len argument)) (InvalidTrace "trace argument size overflowed") in
      argument_bytes total args
  end.

Section Trace.
Context `{Ext : Externals} `{JV : !Json Value} `{JA : !Json (list string)} `{JT : !Json ExecutionTrace}.

(** The loop over the events with their index *)
Fixpoint check_trace_events (index trace_bytes : N) (events : list TraceEvent) : result ReplayError N :=
  match events with
  | [] => Ok trace_bytes
  | event :: events =>
      if u64_max <? index then invalid "trace contains more events than can be sequenced"
      else if negb (event.(sequence) =? index)
      then invalid ("event at index " +:+ pretty index +:+ " has sequence " +:+ pretty event.(sequence)
                    +:+ ", expected " +:+ pretty index)
      else if negb (valid_label event.(capability)) then invalid ("event " +:+ pretty index +:+ " has an empty capability")
      else if negb (valid_label event.(operation)) then invalid ("event " +:+ pretty index +:+ " has an empty operation")
      else
        let? outcome_bytes :=
          map_err (fun error => InvalidTrace ("event " +:+ pretty index +:+ " is not serializable: " +:+ error))
            (to_vec event.(outcome)) in
        let? trace_bytes :=
          ok_or (bytes ← checked_add usize_max trace_bytes (str_len event.(capability));
                 bytes ← checked_add usize_max bytes (str_len event.(operation));
                 bytes ← checked_add usize_max bytes (len outcome_bytes);
                 checked_add usize_max bytes 128) (InvalidTrace "trace event size overflowed") in
        if MAX_TRACE_BYTES <? trace_bytes then invalid "trace events exceed their byte budget"
        else check_trace_events (index + 1) trace_bytes events
  end.

Definition validate_trace (self : ExecutionTrace) : result ReplayError unit :=
  if negb (self.(et_format_version) =? CURRENT_TRACE_FORMAT_VERSION)
  then Err (UnsupportedFormat self.(et_format_version) CURRENT_TRACE_FORMAT_VERSION)
  else if negb (valid_label self.(et_runtime_version)) then invalid "runtime version is empty"
  else if negb (valid_label self.(et_cartridge_id)) then invalid "cartridge id is empty"
  else if negb (valid_label self.(et_cartridge_version)) then invalid "cartridge version is empty"
  else if negb (is_sha256 self.(et_component_sha256)) then invalid "component sha256 is not a hexadecimal digest"
  else if MAX_TRACE_ARGUMENTS <? len self.(et_args) then invalid "trace contains too many arguments"
  else
    let? argument_bytes := argument_bytes 0 self.(et_args) in
    if MAX_TRACE_ARGUMENT_BYTES <? argument_bytes then invalid "trace arguments exceed their byte budget"
    else if MAX_TRACE_EVENTS <? len self.(et_events) then invalid "trace contains too many events"
    else
      let? _ := check_trace_events 0 0 self.(et_events) in
      if MAX_TRACE_OUTPUT_BYTES <? str_len self.(et_result).(tr_output)
      then invalid "trace output exceeds its byte budget"
      else Ok tt.

Definition validate_invocation (self : ExecutionTrace) (runtime_version : string) (identity : TraceIdentity)
    (args : list string) : result ReplayError unit :=
  let? _ := validate_trace self in
  let? _ := check_identity "runtime version" self.(et_runtime_version) runtime_version in
  let? _ := check_identity "cartridge id" self.(et_cartridge_id) identity.(ti_cartridge_id) in
  let? _ := check_identity "cartridge version" self.(et_cartridge_version) identity.(ti_cartridge_version) in
  let? _ := check_identity "component sha256" self.(et_component_sha256) identity.(ti_component_sha256) in
  if negb (bool_decide (self.(et_args) = args)) then Err (InvocationMismatch self.(et_args) args) else Ok tt.

(** [TraceResult::compare] *)
Definition compare_result (self actual : TraceResult) : result ReplayError unit :=
  if negb (bool_decide (self.(tr_output) = actual.(tr_output)))
  then Err (ResultMismatch "output" self.(tr_output) actual.(tr_output))
  else if negb (self.(fuel_consumed) =? actual.(fuel_consumed))
  then Err (ResultMismatch "fuel consumed" (pretty self.(fuel_consumed)) (pretty actual.(fuel_consumed)))
  else Ok tt.

(** ** Summaries and redaction *)
Record TraceSummary := mkTraceSummary {
  ts_format_version : N;
  ts_runtime_version : string;
  ts_cartridge_id : string;
  ts_cartridge_version : string;
  ts_component_sha256 : string;
  ts_args : list string;
  ts_event_count : N;
  ts_capabilities : gmap string N;
  ts_result : TraceResult;
}.
(** [*capabilities.entry(..).or_insert(0) += 1] over the events *)
Definition count_capability (m : gmap string N) (event : TraceEvent) : gmap string N :=
  <[event.(capability) := default 0 (m !! event.(capability)) + 1]> m.
Definition count_capabilities (events : list TraceEvent) : gmap string N := foldl count_capability ∅ events.
Definition trace_summary (self : ExecutionTrace) : TraceSummary :=
  mkTraceSummary self.(et_format_version) self.(et_runtime_version) self.(et_cartridge_id)
    self.(et_cartridge_version) self.(et_component_sha256) self.(et_args) (len self.(et_events))
    (count_capabilities self.(et_events)) self.(et_result).

Inductive RedactionProfile := Summary | Metadata.
Record RedactedEvent := mkRedactedEvent {
  re_sequence : N;
  re_capability : string;
  re_operation : string;
  outcome_bytes : N;
  outcome_sha256 : string;
}.
Record RedactedTrace := mkRedactedTrace {
  rt_format_version : N;
  replayable : bool;
  profile : RedactionProfile;
  trace_payload_sha256 : string;
  rt_runtime_version : string;
  rt_cartridge_id : string;
  rt_cartridge_version : string;
  rt_component_sha256 : string;
  argument_count : N;
  rt_argument_bytes : N;
  arguments_sha256 : string;
  rt_event_count : N;
  rt_capabilities : gmap string N;
  rt_events : list RedactedEvent;
  output_bytes : N;
  output_sha256 : string;
  rt_fuel_consumed : N;
}.
Fixpoint redact_events (events : list TraceEvent) : result ReplayError (list RedactedEvent) :=
  match events with
  | [] => Ok []
  | event :: events =>
      let? outcome := map_err (fun error => InvalidTrace ("trace event outcome could not be encoded: " +:+ error))
                        (to_vec event.(outcome)) in
      let? rest := redact_events events in
      Ok (mkRedactedEvent event.(sequence) event.(capability) event.(operation) (len outcome) (hex_sha256 outcome) :: rest)
  end.
Definition redact (self : ExecutionTrace) (profile : RedactionProfile) : result ReplayError RedactedTrace :=
  let? _ := validate_trace self in
  let? events := match profile with Summary => Ok [] | Metadata => redact_events self.(et_events) end in
  let? arguments := map_err (fun error => InvalidTrace ("trace arguments could not be encoded: " +:+ error))
                      (to_vec self.(et_args)) in
  let? payload := map_err (fun error => InvalidTrace ("trace could not be encoded: " +:+ error)) (to_vec self) in
  Ok (mkRedactedTrace 1 false profile (hex_sha256 payload) self.(et_runtime_version) self.(et_cartridge_id)
        self.(et_cartridge_version) self.(et_component_sha256) (len self.(et_args))
        (sumN (str_len <$> self.(et_args))) (hex_sha256 arguments) (len self.(et_events))
        (count_capabilities self.(et_events)) events (str_len self.(et_result).(tr_output))
        (hex_sha256 (as_bytes self.(et_result).(tr_output))) self.(et_result).(fuel_consumed)).
End Trace.

(** ** Comparison *)
Inductive TraceDifference :=
| HeaderDifference (field : string) (left right : Value)
| EventDifference (sequence : N) (left right : option TraceEvent)
| ResultDifference (field : string) (left right : Value).
Record TraceComparison := mkTraceComparison { traces_identical : bool; trace_difference : option TraceDifference }.

Definition header_fields (self : ExecutionTrace) : list (string * Value) :=
  [("format_version", unsigned self.(et_format_version)); ("runtime_version", Str self.(et_runtime_version));
   ("cartridge_id", Str self.(et_cartridge_id)); ("cartridge_version", Str self.(et_cartridge_version));
   ("component_sha256", Str self.(et_component_sha256)); ("args", Arr (Str <$> self.(et_args)))].
Definition first_header_difference (left right : ExecutionTrace) : option TraceDifference :=
  (fun f => HeaderDifference f.1.1 f.1.2 f.2.2)
    <$> List.find (fun f => negb (bool_decide (f.1.2 = f.2.2))) (zip (header_fields left) (header_fields right)).
(** [(index..index + n).find_map(..)] *)
Fixpoint find_event_difference (n index : nat) (left right : list TraceEvent) : option TraceDifference :=
  match n with
  | O => None
  | S n =>
      if bool_decide (left !! index = right !! index) then find_event_difference n (S index) left right
      else Some (EventDifference (N.min (N.of_nat index) u64_max) (left !! index) (right !! index))
  end.
Definition first_event_difference (left right : ExecutionTrace) : option TraceDifference :=
  find_event_difference (length left.(et_events) `max` length right.(et_events)) 0 left.(et_events) right.(et_events).
Definition first_result_difference (left right : ExecutionTrace) : option TraceDifference :=
  let l := left.(et_result) in let r := right.(et_result) in
  if negb (bool_decide (l.(tr_output) = r.(tr_output)))
  then Some (ResultDifference "output" (Str l.(tr_output)) (Str r.(tr_output)))
  else if negb (l.(fuel_consumed) =? r.(fuel_consumed))
  then Some (ResultDifference "fuel_consumed" (unsigned l.(fuel_consumed)) (unsigned r.(fuel_consumed)))
  else None.
Definition or_else {A : Type} (a b : option A) : option A := match a with Some _ => a | None => b end.
Definition compare_traces (self other : ExecutionTrace) : TraceComparison :=
  let difference := or_else (or_else (first_header_difference self other) (first_event_difference self other))
                      (first_result_difference self other) in
  mkTraceComparison (is_none difference) difference.

(** ** Comparison is exact *)
Lemma str_list_inj (a b : list string) : Str <$> a = Str <$> b -> a = b.
Proof. revert b. induction a as [|s a IH]; intros [|s' b]; csimpl; [done..|]. intros [= -> H]. f_equal. auto. Qed.

Lemma header_difference_None (a b : ExecutionTrace) :
  first_header_difference a b = None <->
  a.(et_format_version) = b.(et_format_version) /\ a.(et_runtime_version) = b.(et_runtime_version)
  /\ a.(et_cartridge_id) = b.(et_cartridge_id) /\ a.(et_cartridge_version) = b.(et_cartridge_version)
  /\ a.(et_component_sha256) = b.(et_component_sha256) /\ a.(et_args) = b.(et_args).
Proof.
  unfold first_header_difference. cbn [header_fields zip zip_with List.find fst snd].
  unfold unsigned.
  do 6 (let Hf := fresh "Hf" in case_bool_decide as Hf; cbn [negb fmap option_fmap option_map fst snd];
        [injection Hf as Hf|split; [done|intros (? & ? & ? & ? & ? & ?); destruct Hf; congruence]]).
  split; [intros _|done]. split_and!; try done. by apply str_list_inj.
Qed.

Lemma event_difference_None (n index : nat) (a b : list TraceEvent) :
  find_event_difference n index a b = None <->
  forall i, (index <= i < index + n)%nat -> a !! i = b !! i.
Proof.
  revert index. induction n as [|n IH]; intros index; cbn; [split; [intros ? ?; lia|done]|].
  case_bool_decide as Heq.
  - rewrite IH. split; intros H i Hi; [|apply H; lia].
    destruct (decide (i = index)) as [->|]; [done|apply H; lia].
  - split; [done|]. intros H. destruct Heq. apply H. lia.
Qed.

Lemma event_difference_Some (n index : nat) (a b : list TraceEvent) d :
  find_event_difference n index a b = Some d ->
  exists i, (index <= i < index + n)%nat
    /\ d = EventDifference (N.min (N.of_nat i) u64_max) (a !! i) (b !! i) /\ a !! i <> b !! i
    /\ forall j, (index <= j < i)%nat -> a !! j = b !! j.
Proof.
  revert index. induction n as [|n IH]; intros index; cbn; [done|]. case_bool_decide as Heq.
  - intros (i & ? & -> & ? & Hj)%IH. exists i. split_and!; [lia..|done|done|].
    intros j Hij. destruct (decide (j = index)) as [->|]; [done|apply Hj; lia].
  - intros [= <-]. exists index. split_and!; [lia..|done|done|]. intros; lia.
Qed.

Lemma first_event_difference_None (a b : ExecutionTrace) :
  first_event_difference a b = None <-> a.(et_events) = b.(et_events).
Proof.
  unfold first_event_difference. rewrite event_difference_None. split; [|by intros ->].
  intros H. apply list_eq. intros i.
  destruct (decide (i < length a.(et_events) `max` length b.(et_events))%nat); [apply H; lia|].
  rewrite !lookup_ge_None_2 by lia. done.
Qed.

Lemma result_difference_None (a b : ExecutionTrace) :
  first_result_difference a b = None <-> a.(et_result) = b.(et_result).
Proof.
  unfold first_result_difference. destruct (et_result a) as [o f], (et_result b) as [o' f']; cbn.
  case_bool_decide; cbn; [|naive_solver]. destruct (N.eqb_spec f f'); cbn; naive_solver.
Qed.

(** comparing two traces says identical exactly when they are equal in every
    field, and a reported event is the first at which the recordings of two
    equal invocations differ. *)
Theorem trace_compare_exact (a b : ExecutionTrace) :
  (traces_identical (compare_traces a b) = true <-> a = b)
  /\ (forall n l r, trace_difference (compare_traces a b) = Some (EventDifference n l r) ->
        a.(et_args) = b.(et_args) /\ a.(et_component_sha256) = b.(et_component_sha256)
        /\ exists i, n = N.min (N.of_nat i) u64_max /\ l = a.(et_events) !! i /\ r = b.(et_events) !! i /\ l <> r
        /\ take i a.(et_events) = take i b.(et_events)).
Proof.
  pose proof (header_difference_None a b) as Hh. pose proof (first_event_difference_None a b) as He.
  pose proof (result_difference_None a b) as Hr. unfold compare_traces. cbn [traces_identical trace_difference].
  split.
  - destruct (first_header_difference a b), (first_event_difference a b), (first_result_difference a b);
      cbn; split; try done; intros ?; try (subst b; naive_solver).
    destruct a, b; cbn in *; naive_solver.
  - intros n l r. destruct (first_header_difference a b) as [d|] eqn:Hd; cbn.
    + unfold first_header_difference in Hd. destruct (List.find _ _); [|done].
      cbn in Hd. intros [= ->]. congruence.
    + destruct (first_event_difference a b) as [d|] eqn:Hf; cbn.
      * intros [= ->]. split_and!; [naive_solver..|].
        apply event_difference_Some in Hf as (i & _ & [= -> -> ->] & Hne & Hj).
        exists i. split_and!; try done. apply list_eq. intros j.
        destruct (decide (j < i)%nat); [rewrite !lookup_take_lt by done; apply Hj; lia|].
        rewrite !lookup_take_ge by lia. done.
      * unfold first_result_difference. repeat case_match; done.
Qed.

(** ** What a validated trace guarantees *)
Section Validated.
Context `{Ext : Externals} `{JV : !Json Value}.

(** The bytes the budget counts for an event. *)
Definition event_size (e : TraceEvent) : N :=
  str_len e.(capability) + str_len e.(operation)
  + match to_vec e.(outcome) with Ok b => len b | Err _ => 0 end + 128.

Lemma check_trace_events_spec (index n total : N) (events : list TraceEvent) :
  check_trace_events index n events = Ok total ->
  total = n + sumN (event_size <$> events)
  /\ (total <= MAX_TRACE_BYTES \/ events = [])
  /\ (forall i e, events !! i = Some e -> e.(sequence) = index + N.of_nat i
        /\ valid_label e.(capability) = true /\ valid_label e.(operation) = true).
Proof.
  revert index n. induction events as [|e events IH]; intros index n; cbn [check_trace_events].
  - intros [= <-]. split_and!; [sums|by right|]. intros i e. by rewrite lookup_nil.
  - pass H0. pass Hs. pass Hc. pass Ho. destruct (to_vec (outcome e)) as [b|] eqn:Hb; [|done]. cbn [map_err].
    unfold ok_or. destruct (checked_add usize_max n _) as [n1|] eqn:H1; [|done]. cbn [mbind option_bind].
    destruct (checked_add usize_max n1 _) as [n2|] eqn:H2; [|done]. cbn [mbind option_bind].
    destruct (checked_add usize_max n2 _) as [n3|] eqn:H3; [|done]. cbn [mbind option_bind].
    destruct (checked_add usize_max n3 _) as [n4|] eqn:H4; [|done].
    pass H5. intros (Ht & Hle & Hall)%IH. bprop.
    apply checked_add_Some in H1 as [-> _], H2 as [-> _], H3 as [-> _], H4 as [-> _].
    rewrite fmap_cons, sumN_cons. unfold event_size at 1. rewrite Hb.
    split_and!; [lia| |].
    + destruct Hle as [?| ->]; [by left|]. left. rewrite Ht. rewrite fmap_nil, sumN_nil. lia.
    + intros [|i] e'; cbn; [intros [= <-]; split_and!; [lia|done|done]|].
      intros (? & ? & ?)%Hall. split_and!; [lia|done|done].
Qed.

(** an accepted trace numbers its events 0, 1, 2, ... and stays within its
    budgets: at most 100000 events of 16 MiB, 4096 arguments and 1 MiB of
    output; and accepting an invocation means that component and arguments are
    those of the recording. *)
Theorem accepted_trace_bounded (self : ExecutionTrace) runtime_version identity args :
  validate_invocation self runtime_version identity args = Ok tt ->
  (forall i e, self.(et_events) !! i = Some e -> e.(sequence) = N.of_nat i)
  /\ len self.(et_events) <= MAX_TRACE_EVENTS /\ sumN (event_size <$> self.(et_events)) <= MAX_TRACE_BYTES
  /\ len self.(et_args) <= MAX_TRACE_ARGUMENTS /\ str_len self.(et_result).(tr_output) <= MAX_TRACE_OUTPUT_BYTES
  /\ self.(et_args) = args /\ self.(et_component_sha256) = identity.(ti_component_sha256).
Proof.
  unfold validate_invocation. succeed u Hv. unfold check_identity. destruct u.
  succeed u1 Hi1. succeed u2 Hi2. succeed u3 Hi3. succeed u4 Hi4. pass Hargs. intros _. revert Hv.
  unfold validate_trace. pass H1. pass H2. pass H3. pass H4. pass H5. pass H6. succeed n Hn. pass H7. pass H8.
  succeed t Ht. pass H9. intros _. bprop.
  apply check_trace_events_spec in Ht as (Ht & Hle & Hall).
  split_and!; try lia; try done.
  - intros i e He. apply Hall in He. lia.
  - destruct Hle as [|Hnil]; [lia|]. rewrite Hnil, fmap_nil, sumN_nil. lia.
  - by destruct (bool_decide_reflect (et_component_sha256 self = ti_component_sha256 identity)).
Qed.
End Validated.

Definition trace_demo_json : Json Value := fun v => Ok [x00; x01].
Definition trace_demo : ExecutionTrace :=
  mkTrace 2 "0.1.0" "dev.example.app" "1.0.0" (hex_encode (replicate 32 x00)) ["hello"]
    [mkTraceEvent 0 "clock" "wall-clock-ms" (object [("value", unsigned 7)]);
     mkTraceEvent 1 "log" "write" (object [("level", Str "info"); ("message", Str "hi")])] (mkTraceResult "ok" 42).
Lemma accepted_trace_bounded_witness :
  len trace_demo.(et_events) <= MAX_TRACE_EVENTS /\ trace_demo.(et_args) = ["hello"].
Proof.
  pose proof (@accepted_trace_bounded trace_demo_json trace_demo "0.1.0"
    (mkTraceIdentity "dev.example.app" "1.0.0" (hex_encode (replicate 32 x00))) ["hello"]) as H.
  destruct H as (_ & ? & _ & _ & _ & ? & _); [vm_compute; reflexivity|done].
Defined.
