(* ===== verification/Media.v ===== *)
(** * Media input ([crates/cartridge-media/src/lib.rs], [input.rs], MIDI of [audio.rs])

    The errors of the media crate, input events with their bounded queue, and
    MIDI events.  Signed machine integers are [Z]; the operations that can leave
    their width are written out. *)
From stdpp Require Import pretty.
From S2P Require Import Prelude.

Inductive MediaError :=
| Invalid (detail : string)
| Limit (detail : string)
| Asset (detail : string)
| Encoding (detail : string).
#[global] Instance media_error_eq_dec : EqDecision MediaError.
Proof. solve_decision. Defined.
Abbreviation MediaResult := (result MediaError).
(** [Display] of [MediaError] *)
Definition media_error_text (e : MediaError) : string :=
  match e with
  | Invalid d => "invalid media document: " +:+ d
  | Limit d => "media limit exceeded: " +:+ d
  | Asset d => "media asset error: " +:+ d
  | Encoding d => "media encoding failed: " +:+ d
  end.

(** ** Signed integers *)
Definition clampZ (lo hi v : Z) : Z := Z.max lo (Z.min hi v).
Definition i16_min : Z := -32768.
Definition i16_max : Z := 32767.
Definition i32_min : Z := -2147483648.
Definition i32_max : Z := 2147483647.
Definition i64_min : Z := -9223372036854775808.
Definition i64_max : Z := 9223372036854775807.
Definition u32_max : N := 4294967295.
Definition saturating_add_i32 (a b : Z) : Z := clampZ i32_min i32_max (a + b).
Definition saturating_sub_i32 (a b : Z) : Z := clampZ i32_min i32_max (a - b).
Definition is_i16 (z : Z) : Prop := (i16_min <= z <= i16_max)%Z.
Definition is_i32 (z : Z) : Prop := (i32_min <= z <= i32_max)%Z.
Definition in_rangeZ (lo hi z : Z) : bool := ((lo <=? z) && (z <=? hi))%Z.

Lemma clampZ_bounds (lo hi v : Z) : (lo <= hi -> lo <= clampZ lo hi v <= hi)%Z.
Proof. unfold clampZ. lia. Qed.
Lemma clampZ_id (lo hi v : Z) : (lo <= v <= hi)%Z -> clampZ lo hi v = v.
Proof. unfold clampZ. lia. Qed.

Definition checked_mul (max a b : N) : option N := if a * b <=? max then Some (a * b) else None.
Lemma checked_mul_Some (max a b c : N) : checked_mul max a b = Some c <-> c = a * b /\ a * b <= max.
Proof. unfold checked_mul. destruct (N.leb_spec (a * b) max); split; intros; destruct_and?; simplify_eq; done || lia. Qed.

(** [for i in lo..hi] *)
Definition rangeN (lo hi : N) : list N := (fun i => lo + N.of_nat i) <$> seq 0 (N.to_nat (hi - lo)).
Lemma rangeN_len (lo hi : N) : len (rangeN lo hi) = hi - lo.
Proof. unfold rangeN, len. rewrite length_fmap, length_seq. lia. Qed.
Lemma rangeN_elem (lo hi i : N) : i ∈ rangeN lo hi <-> lo <= i < hi.
Proof.
  unfold rangeN. rewrite list_elem_of_fmap. split.
  - intros (k & -> & Hk%elem_of_seq). lia.
  - intros Hi. exists (N.to_nat (i - lo)). rewrite elem_of_seq. lia.
Qed.
Lemma rangeN_NoDup (lo hi : N) : NoDup (rangeN lo hi).
Proof. unfold rangeN. apply NoDup_fmap_2; [intros x y ?; lia|apply NoDup_seq]. Qed.

(** ** Input events *)
Definition MAX_INPUT_EVENTS : N := 4096.
Definition MAX_TEXT_INPUT_BYTES : N := 4096.
Inductive InputEvent :=
| Key (code : N) (pressed repeat : bool)
| PointerMove (x y : Z)
| PointerButton (button : N) (pressed : bool)
| PointerWheel (x y : Z)
| ControllerAxis (controller axis : N) (value : Z)
| ControllerButton (controller button : N) (pressed : bool)
| TextInput (value : string)
| CloseRequested.
#[global] Instance input_event_eq_dec : EqDecision InputEvent.
Proof. solve_decision. Defined.

Definition validate_event (event : InputEvent) : MediaResult unit :=
  match event with
  | TextInput value =>
      if MAX_TEXT_INPUT_BYTES <? str_len value
      then Err (Limit ("text input exceeds " +:+ pretty MAX_TEXT_INPUT_BYTES +:+ " bytes"))
      else if existsb (N.eqb 0) (str_chars value) then Err (Invalid "text input contains a null character")
      else Ok tt
  | _ => Ok tt
  end.
(** [InputEvent::validate] *)
Definition validate_input (self : InputEvent) : MediaResult InputEvent :=
  let? _ := validate_event self in Ok self.

Record InputQueue := mkInputQueue { iq_events : list InputEvent; iq_capacity : N }.
Definition new_input_queue (capacity : N) : MediaResult InputQueue :=
  if (capacity =? 0) || (MAX_INPUT_EVENTS <? capacity)
  then Err (Limit ("input capacity must be between 1 and " +:+ pretty MAX_INPUT_EVENTS))
  else Ok (mkInputQueue [] capacity).
Definition input_push (self : InputQueue) (event : InputEvent) : InputQueue * MediaResult unit :=
  let! _ := validate_event event on self in
  if len self.(iq_events) =? self.(iq_capacity) then (self, Err (Limit "input queue is full"))
  else (mkInputQueue (self.(iq_events) ++ [event]) self.(iq_capacity), Ok tt).
Definition input_pop (self : InputQueue) : InputQueue * option InputEvent :=
  match self.(iq_events) with
  | [] => (self, None)
  | event :: rest => (mkInputQueue rest self.(iq_capacity), Some event)
  end.
Definition input_len (self : InputQueue) : N := len self.(iq_events).
Definition input_is_empty (self : InputQueue) : bool := bool_decide (self.(iq_events) = []).

(** ** MIDI events *)
Definition MAX_MIDI_EVENTS : N := 4096.
Record MidiEvent := mkMidi { timestamp_frames : N; cable : N; midi_status : N; data1 : N; data2 : N }.
#[global] Instance midi_event_eq_dec : EqDecision MidiEvent.
Proof. solve_decision. Defined.
Definition validate_midi (self : MidiEvent) : MediaResult MidiEvent :=
  if (15 <? self.(cable)) || (self.(midi_status) <? 128) || (127 <? self.(data1)) || (127 <? self.(data2))
  then Err (Invalid "invalid MIDI event") else Ok self.

(** The queue never exceeds its capacity, holds valid events only, and gives them
    back in order. *)
Definition input_ok (q : InputQueue) : Prop :=
  len q.(iq_events) <= q.(iq_capacity) /\ Forall (fun e => validate_event e = Ok tt) q.(iq_events).
Lemma new_input_ok (capacity : N) q : new_input_queue capacity = Ok q -> input_ok q.
Proof. unfold new_input_queue. pass Hc. intros [= <-]. split; [apply N.le_0_l|constructor]. Qed.
Lemma input_push_ok (q : InputQueue) (e : InputEvent) : input_ok q -> input_ok (input_push q e).1.
Proof.
  intros [Hl Hv]. unfold input_push. destruct (validate_event e) as [[]|] eqn:He; [|done].
  destruct (N.eqb_spec (len (iq_events q)) (iq_capacity q)); [done|].
  unfold input_ok. cbn [fst iq_events iq_capacity]. split; [|by apply Forall_app_2; [|constructor]].
  unfold len in *. rewrite length_app. cbn. lia.
Qed.
Lemma input_pop_ok (q : InputQueue) : input_ok q -> input_ok (input_pop q).1.
Proof.
  unfold input_pop, input_ok. destruct (iq_events q) as [|e l] eqn:He; [cbn [fst]; by rewrite He|].
  cbn [fst iq_events iq_capacity]. intros [Hl Hv]. apply Forall_cons in Hv as [_ Hv]. split; [|done].
  unfold len in *. cbn in Hl. lia.
Qed.
