(* ===== verification/Graphics.v ===== *)
(** * Headless graphics ([crates/cartridge-media/src/graphics.rs])

    Windows, frame documents and the software rasteriser.  A drawing routine is
    written as the sequence of pixels it visits, in the order of its loops,
    followed by blending at each of them; the loop of a line has the number of
    its turns as fuel and gives [None] when that does not suffice.  The texts of
    errors leave out the path they quote.  The PNG encoder is a parameter. *)
From stdpp Require Import pretty.
From S2P Require Import Prelude Text Storage Snapshot Directory Blob Network Core Manifest Media.

Definition MAX_WINDOWS : N := 8.
Definition MAX_DIMENSION : N := 4096.
Definition MAX_PIXELS : N := 4 * 1024 * 1024.
Definition MAX_DRAW_COMMANDS : N := 32768.
Definition MAX_GRAPHICS_DOCUMENT_BYTES : N := 4 * 1024 * 1024.
Definition MAX_GRAPHICS_ASSET_BYTES : N := 32 * 1024 * 1024.
Definition MAX_WINDOW_TITLE_BYTES : N := 256.
Definition MAX_CAPTURED_FRAMES : N := 256.
Definition MAX_CAPTURED_GRAPHICS_BYTES : N := 64 * 1024 * 1024.
Definition MAX_DRAW_WORK_UNITS : N := 100000000.
Definition MAX_LOGICAL_DIMENSION : N := 1000000.
Definition MAX_MEDIA_ASSET_PATH_BYTES : N := 1024.

Record GraphicsLimits := mkGraphicsLimits {
  max_windows : N; max_pixels : N; max_commands : N; max_asset_bytes : N;
}.
Definition default_graphics_limits : GraphicsLimits :=
  mkGraphicsLimits MAX_WINDOWS MAX_PIXELS MAX_DRAW_COMMANDS MAX_GRAPHICS_ASSET_BYTES.
Record WindowConfig := mkWindow { title : string; width : N; height : N }.
Record Color := mkColor { red : byte; green : byte; blue : byte; alpha : byte }.
Inductive DrawCommand :=
| Clear (color : Color)
| Rect (x y : Z) (w h : N) (color : Color)
| Line (x1 y1 x2 y2 : Z) (w : N) (color : Color)
| Image (asset : string) (source_width source_height : N) (x y : Z) (w h : N)
| Text (text : string) (font : option string) (x y : Z) (scale : N) (color : Color).
Record FrameDocument := mkFrame {
  logical_width : N; logical_height : N; simulation_tick : N; commands : list DrawCommand;
}.
Record FrameReceipt := mkFrameReceipt {
  fr_window : N; frame : N; fr_simulation_tick : N; fr_width : N; fr_height : N; command_count : N;
  rgba_sha256 : string; png_sha256 : string;
}.
Record RenderedFrame := mkRendered { fr_receipt : FrameReceipt; rgba : bytes; png : bytes }.

(** ** Scaling *)
Record Scale := mkScale { sc_logical_width : N; sc_logical_height : N; sc_width : N; sc_height : N }.
Definition scale_coordinate (value : Z) (target logical : N) : Z :=
  clampZ i32_min i32_max (Z.quot (value * Z.of_N target) (Z.of_N logical)).
Definition scale_length (value target logical : N) : N := N.min (value * target / logical) u32_max.
Definition scale_x (s : Scale) (v : Z) : Z := scale_coordinate v s.(sc_width) s.(sc_logical_width).
Definition scale_y (s : Scale) (v : Z) : Z := scale_coordinate v s.(sc_height) s.(sc_logical_height).
Definition scale_w (s : Scale) (v : N) : N := scale_length v s.(sc_width) s.(sc_logical_width).
Definition scale_h (s : Scale) (v : N) : N := scale_length v s.(sc_height) s.(sc_logical_height).

(** ** Checks *)
Definition pixel_count (w h : N) : option N := checked_mul usize_max w h.
Definition validate_window (config : WindowConfig) (limits : GraphicsLimits) : MediaResult unit :=
  if (MAX_WINDOW_TITLE_BYTES <? str_len config.(title)) || existsb char_is_control (str_chars config.(title))
  then Err (Invalid "window title is too long or contains control characters")
  else if (config.(width) =? 0) || (config.(height) =? 0) || (MAX_DIMENSION <? config.(width))
          || (MAX_DIMENSION <? config.(height))
  then Err (Limit ("window dimensions must be between 1 and " +:+ pretty MAX_DIMENSION))
  else
    let? pixels := ok_or (pixel_count config.(width) config.(height)) (Limit "window dimensions overflow") in
    if limits.(max_pixels) <? pixels then Err (Limit "window pixel limit exceeded") else Ok tt.

Definition validate_coordinate (value : Z) (logical : N) : MediaResult unit :=
  if (Z.of_N logical * 8 <? Z.abs value)%Z then Err (Limit "draw coordinate is too far outside the canvas") else Ok tt.
Definition abs_diff (a b : Z) : N := Z.to_N (Z.abs (a - b)).
Definition line_length (s : Scale) (x1 y1 x2 y2 : Z) : N :=
  N.max (abs_diff (scale_x s x1) (scale_x s x2)) (abs_diff (scale_y s y1) (scale_y s y2)).

Definition command_work (doc : FrameDocument) (s : Scale) (config : WindowConfig) (command : DrawCommand) : MediaResult N :=
  match command with
  | Clear _ => Ok (config.(width) * config.(height))
  | Rect _ _ w h _ | Image _ _ _ _ _ w h =>
      Ok (saturating_mul u64_max (N.min (scale_w s w) config.(width)) (N.min (scale_h s h) config.(height)))
  | Line x1 y1 x2 y2 w _ =>
      if (w =? 0) || (64 <? w) then Err (Limit "line width must be between 1 and 64")
      else
        let? _ := validate_coordinate x1 doc.(logical_width) in
        let? _ := validate_coordinate x2 doc.(logical_width) in
        let? _ := validate_coordinate y1 doc.(logical_height) in
        let? _ := validate_coordinate y2 doc.(logical_height) in
        let length := saturating_add u64_max (line_length s x1 y1 x2 y2) 1 in
        let brush := saturating_add u64_max w 1 in
        Ok (saturating_mul u64_max length (saturating_mul u64_max brush brush))
  | Text text font x y text_scale _ =>
      let? _ := validate_coordinate x doc.(logical_width) in
      let? _ := validate_coordinate y doc.(logical_height) in
      let characters := len (str_chars text) in
      let glyph_pixel := saturating_mul u64_max (N.max (scale_w s text_scale) 1) (N.max (scale_h s text_scale) 1) in
      let raster := saturating_mul u64_max (saturating_mul u64_max characters (16 * 32)) glyph_pixel in
      let font_decode := if is_some font then 95 * 16 * 32 else 0 in
      Ok (saturating_add u64_max raster font_decode)
  end.
Definition validate_extent (doc : FrameDocument) (command : DrawCommand) : MediaResult unit :=
  match command with
  | Rect x y w h _ | Image _ _ _ x y w h =>
      let? _ := validate_coordinate x doc.(logical_width) in
      let? _ := validate_coordinate y doc.(logical_height) in
      if (doc.(logical_width) * 8 <? w) || (doc.(logical_height) * 8 <? h)
      then Err (Limit "draw extent is too large") else Ok tt
  | _ => Ok tt
  end.
Fixpoint check_draw_work (doc : FrameDocument) (s : Scale) (config : WindowConfig) (work : N) (l : list DrawCommand) :
    MediaResult N :=
  match l with
  | [] => Ok work
  | command :: l =>
      let? command_work := command_work doc s config command in
      let work := saturating_add u64_max work command_work in
      if MAX_DRAW_WORK_UNITS <? work then Err (Limit "draw work budget exceeded")
      else
        let? _ := validate_extent doc command in
        check_draw_work doc s config work l
  end.
Definition validate_draw_work (doc : FrameDocument) (s : Scale) (config : WindowConfig) : MediaResult N :=
  check_draw_work doc s config 0 doc.(commands).

Definition validate_asset_path (path : string) : MediaResult unit :=
  if str_is_empty path || (MAX_MEDIA_ASSET_PATH_BYTES <? str_len path) || starts_with_char path "/"
     || starts_with_char path "\" || contains_char path "\" || existsb unsafe_part (split_on "/" path)
  then Err (Asset "media asset path is not normalized") else Ok tt.
Definition checked_rgba_len (w h : N) : MediaResult N :=
  ok_or (pixels ← checked_mul usize_max w h; checked_mul usize_max pixels 4) (Limit "image dimensions overflow").

(** ** Pixels *)
Definition byte_at (buf : bytes) (i : N) : byte := default x00 (buf !! N.to_nat i).
(** [as u8] *)
Definition as_u8 (n : N) : byte := default x00 (Byte.of_N (n mod 256)).
Definition mix_channel (source target alpha : N) : byte := as_u8 ((source * alpha + target * (255 - alpha) + 127) / 255).
Definition mix_alpha (alpha target : N) : byte := as_u8 (N.min (alpha + target * (255 - alpha) / 255) 255).
Definition blend (buf : bytes) (canvas_width x y : N) (source : Color) : bytes :=
  match checked_mul u64_max (y * canvas_width + x) 4 with
  | None => buf
  | Some index =>
      if index + 4 <=? len buf then
        let a := Byte.to_N source.(alpha) in
        let at_ k := Byte.to_N (byte_at buf (index + k)) in
        let i := N.to_nat index in
        <[i := mix_channel (Byte.to_N source.(red)) (at_ 0) a]>
          (<[S i := mix_channel (Byte.to_N source.(green)) (at_ 1) a]>
            (<[S (S i) := mix_channel (Byte.to_N source.(blue)) (at_ 2) a]>
              (<[S (S (S i)) := mix_alpha a (at_ 3)]> buf)))
      else buf
  end.
Definition blend_all (buf : bytes) (canvas_width : N) (color : Color) (pixels : list (N * N)) : bytes :=
  foldl (fun buf p => blend buf canvas_width p.1 p.2 color) buf pixels.
(** [chunks_exact_mut(4)]: a buffer holds whole pixels. *)
Fixpoint clear (buf : bytes) (color : Color) : bytes :=
  match buf with
  | _ :: _ :: _ :: _ :: rest => color.(red) :: color.(green) :: color.(blue) :: color.(alpha) :: clear rest color
  | _ => buf
  end.

(** [for py in top..bottom { for px in left..right { .. } }] *)
Definition block (left right top bottom : N) : list (N * N) :=
  rangeN top bottom ≫= fun py => (fun px => (px, py)) <$> rangeN left right.
Definition far_edge (from : Z) (extent limit : N) : N :=
  Z.to_N (clampZ 0 (Z.of_N limit) (clampZ i64_min i64_max (from + Z.of_N extent))).
Definition rect_pixels (cw ch : N) (s : Scale) (x y : Z) (w h : N) : list (N * N) :=
  let x := scale_x s x in let y := scale_y s y in
  let w := scale_w s w in let h := scale_h s h in
  block (Z.to_N (Z.max x 0)) (far_edge x w cw) (Z.to_N (Z.max y 0)) (far_edge y h ch).
Definition fill_rect (buf : bytes) (cw ch : N) (s : Scale) (x y : Z) (w h : N) (color : Color) : bytes :=
  blend_all buf cw color (rect_pixels cw ch s x y w h).

(** [-radius..=radius] *)
Definition offsets (radius : Z) : list Z := (fun i => Z.of_nat i - radius)%Z <$> seq 0 (Z.to_nat (2 * radius + 1)).
Definition brush_pixels (cw ch : N) (radius x y : Z) : list (N * N) :=
  offsets radius ≫= fun oy => offsets radius ≫= fun ox =>
    let px := saturating_add_i32 x ox in
    let py := saturating_add_i32 y oy in
    if ((0 <=? px) && (0 <=? py) && (px <? Z.of_N cw) && (py <? Z.of_N ch))%Z then [(Z.to_N px, Z.to_N py)] else [].
(** The [loop] of [draw_line]: [dx], [dy] and the steps are fixed, [x0], [y0]
    and [error] change. *)
Fixpoint line_loop (fuel : nat) (cw ch : N) (radius dx dy sx sy x1 y1 x0 y0 error : Z) : option (list (N * N)) :=
  match fuel with
  | O => None
  | S fuel =>
      let here := brush_pixels cw ch radius x0 y0 in
      if ((x0 =? x1) && (y0 =? y1))%Z then Some here
      else
        let doubled := clampZ i64_min i64_max (error * 2) in
        let '(error, x0) := if (dy <=? doubled)%Z then (error + dy, x0 + sx)%Z else (error, x0) in
        let '(error, y0) := if (doubled <=? dx)%Z then (error + dx, y0 + sy)%Z else (error, y0) in
        rest ← line_loop fuel cw ch radius dx dy sx sy x1 y1 x0 y0 error;
        Some (here ++ rest)
  end.
Definition line_pixels (cw ch : N) (s : Scale) (from to : Z * Z) (w : N) : option (list (N * N)) :=
  let x0 := scale_x s from.1 in let y0 := scale_y s from.2 in
  let x1 := scale_x s to.1 in let y1 := scale_y s to.2 in
  let dx := Z.abs (x1 - x0) in
  let dy := (- Z.abs (y1 - y0))%Z in
  let sx := (if x0 <? x1 then 1 else -1)%Z in
  let sy := (if y0 <? y1 then 1 else -1)%Z in
  let radius := Z.of_N (N.min w 64 / 2) in
  line_loop (S (Z.to_nat (Z.max dx (- dy)))) cw ch radius dx dy sx sy x1 y1 x0 y0 (dx + dy).
Definition draw_line (buf : bytes) (cw ch : N) (s : Scale) (from to : Z * Z) (w : N) (color : Color) : option bytes :=
  blend_all buf cw color <$> line_pixels cw ch s from to w.

(** ** Images *)
Definition source_pixel (source : bytes) (sw sh : N) (x y : Z) (w h px py : N) : MediaResult Color :=
  let dx := (Z.of_N px - x)%Z in
  let dy := (Z.of_N py - y)%Z in
  if (dx <? 0)%Z then Err (Invalid "image x offset became negative")
  else if (dy <? 0)%Z then Err (Invalid "image y offset became negative")
  else
    let sx := Z.to_N dx * sw / w in
    let sy := Z.to_N dy * sh / h in
    let index := (sy * sw + sx) * 4 in
    if usize_max <? index then Err (Limit "image index is not addressable")
    else if index + 4 <=? len source then
      Ok (mkColor (byte_at source index) (byte_at source (index + 1)) (byte_at source (index + 2)) (byte_at source (index + 3)))
    else Err (Asset "image pixel is outside its payload").
Fixpoint blit_pixels (buf : bytes) (cw : N) (source : bytes) (sw sh : N) (x y : Z) (w h : N) (l : list (N * N)) :
    MediaResult bytes :=
  match l with
  | [] => Ok buf
  | (px, py) :: l =>
      let? color := source_pixel source sw sh x y w h px py in
      blit_pixels (blend buf cw px py color) cw source sw sh x y w h l
  end.
Definition near_edge (from : Z) (limit : N) : N := Z.to_N (clampZ 0 (Z.of_N limit) from).
Definition blit_block (cw ch : N) (x y : Z) (w h : N) : list (N * N) :=
  block (near_edge x cw) (far_edge x w cw) (near_edge y ch) (far_edge y h ch).
Definition blit (buf : bytes) (cw ch : N) (s : Scale) (source : bytes) (sw sh : N) (x y : Z) (w h : N) : MediaResult bytes :=
  let x := scale_x s x in let y := scale_y s y in
  let w := scale_w s w in let h := scale_h s h in
  if (w =? 0) || (h =? 0) then Ok buf
  else blit_pixels buf cw source sw sh x y w h (blit_block cw ch x y w h).

(** ** Text *)
Record ParsedFont := mkFont { font_width : N; font_height : N; font_bits : list bool }.
Definition font_bit (payload : bytes) (index : nat) : bool :=
  N.testbit (Byte.to_N (default x00 (payload !! (6 + index / 8)%nat))) (7 - N.of_nat index mod 8).
Definition parse_font (payload : bytes) : MediaResult ParsedFont :=
  if (len payload <? 6) || negb (bool_decide (take 4 payload = as_bytes "CFNT"))
  then Err (Asset "font asset does not have a CFNT header")
  else
    let w := Byte.to_N (byte_at payload 4) in
    let h := Byte.to_N (byte_at payload 5) in
    if (w =? 0) || (h =? 0) || (16 <? w) || (32 <? h) then Err (Asset "font dimensions are invalid")
    else
      let? bits := ok_or (n ← checked_mul usize_max 95 w; checked_mul usize_max n h) (Asset "font dimensions overflow") in
      if negb (len payload =? 6 + (bits + 7) / 8) then Err (Asset "font payload length is invalid")
      else Ok (mkFont w h (font_bit payload <$> seq 0 (N.to_nat bits))).
Definition custom_glyph (font : ParsedFont) (character : N) : option (list bool) :=
  if negb (in_range 32 126 character) then None
  else
    let glyph_bits := font.(font_width) * font.(font_height) in
    start ← checked_mul usize_max (character - 32) glyph_bits;
    if start + glyph_bits <=? len font.(font_bits)
    then Some (take (N.to_nat glyph_bits) (drop (N.to_nat start) font.(font_bits))) else None.
Definition builtin_glyph (character : N) : list bool := replicate 35 (negb (character =? 32)).
Definition glyph_bits (parsed : option ParsedFont) (character : N) : list bool :=
  default (builtin_glyph character) (parsed ≫= fun font => custom_glyph font character).
(** The cells of one glyph, row by row *)
Definition glyph_cells (gw gh : N) (bits : list bool) : list (N * N) :=
  List.filter (fun p => default false (bits !! N.to_nat (p.2 * gw + p.1))) (block 0 gw 0 gh).
Definition glyph_pixels (cw ch : N) (s : Scale) (gw gh : N) (bits : list bool) (cursor y : Z) (size : N) : list (N * N) :=
  glyph_cells gw gh bits ≫= fun p =>
    rect_pixels cw ch s (saturating_add_i32 cursor (Z.of_N (p.1 * size))) (saturating_add_i32 y (Z.of_N (p.2 * size))) size size.
Fixpoint text_pixels (cw ch : N) (s : Scale) (parsed : option ParsedFont) (gw gh : N) (cursor y : Z) (size : N)
    (characters : list N) : list (N * N) :=
  match characters with
  | [] => []
  | character :: rest =>
      if character =? 10 then text_pixels cw ch s parsed gw gh cursor y size rest
      else
        glyph_pixels cw ch s gw gh (glyph_bits parsed character) cursor y size
        ++ text_pixels cw ch s parsed gw gh (saturating_add_i32 cursor (Z.of_N ((gw + 1) * size))) y size rest
  end.
Definition draw_text (buf : bytes) (cw ch : N) (s : Scale) (text : string) (font : option bytes) (x y : Z) (size : N)
    (color : Color) : MediaResult bytes :=
  if str_is_empty text then Ok buf
  else
    let? parsed := match font with None => Ok None | Some payload => let? f := parse_font payload in Ok (Some f) end in
    let gw := from_option font_width 5 parsed in
    let gh := from_option font_height 7 parsed in
    Ok (blend_all buf cw color (text_pixels cw ch s parsed gw gh x y size (str_chars text))).

(** ** Frames *)
(** The [png] crate: the encoded image, or the text of the error. *)
Class PngCrate := png_encode : N -> N -> bytes -> result string bytes.
#[global] Arguments png_encode {_} _ _ _ : simpl never.

Section Render.
Context `{Ext : Externals} `{Png : !PngCrate} `{DF : !JsonDecode FrameDocument}.

Definition encode_png (w h : N) (buf : bytes) : MediaResult bytes :=
  match png_encode w h buf with Ok out => Ok out | Err e => Err (Encoding e) end.

Definition draw_image (buf : bytes) (config : WindowConfig) (s : Scale) (limits : GraphicsLimits)
    (asset : string -> option bytes) (path : string) (sw sh : N) (x y : Z) (w h : N) : MediaResult bytes :=
  let? _ := validate_asset_path path in
  if (sw =? 0) || (sh =? 0) then Err (Asset "image dimensions must be positive")
  else
    let? payload := ok_or (asset path) (Asset "missing image asset") in
    let? expected := checked_rgba_len sw sh in
    if negb (len payload =? expected) || (limits.(max_asset_bytes) <? len payload)
    then Err (Asset "image asset has an invalid length")
    else blit buf config.(width) config.(height) s payload sw sh x y w h.
Definition draw_label (buf : bytes) (config : WindowConfig) (s : Scale) (asset : string -> option bytes)
    (text : string) (font : option string) (x y : Z) (text_scale : N) (color : Color) : MediaResult bytes :=
  if (16 * 1024 <? str_len text) || (text_scale =? 0) || (256 <? text_scale)
  then Err (Limit "text command exceeds its limits")
  else
    let? _ := match font with Some path => validate_asset_path path | None => Ok tt end in
    let? font_bytes := match font with
                       | Some path => let? b := ok_or (asset path) (Asset "missing font asset") in Ok (Some b)
                       | None => Ok None
                       end in
    draw_text buf config.(width) config.(height) s text font_bytes x y text_scale color.
(** The inner [None] is a line whose loop ran out of fuel. *)
Definition draw_command (buf : bytes) (config : WindowConfig) (s : Scale) (limits : GraphicsLimits)
    (asset : string -> option bytes) (command : DrawCommand) : MediaResult (option bytes) :=
  match command with
  | Clear color => Ok (Some (clear buf color))
  | Rect x y w h color => Ok (Some (fill_rect buf config.(width) config.(height) s x y w h color))
  | Line x1 y1 x2 y2 w color => Ok (draw_line buf config.(width) config.(height) s (x1, y1) (x2, y2) w color)
  | Image path sw sh x y w h => let? b := draw_image buf config s limits asset path sw sh x y w h in Ok (Some b)
  | Text text font x y text_scale color =>
      let? b := draw_label buf config s asset text font x y text_scale color in Ok (Some b)
  end.
Fixpoint draw_commands (buf : bytes) (config : WindowConfig) (s : Scale) (limits : GraphicsLimits)
    (asset : string -> option bytes) (l : list DrawCommand) : MediaResult (option bytes) :=
  match l with
  | [] => Ok (Some buf)
  | command :: l =>
      let? drawn := draw_command buf config s limits asset command in
      match drawn with
      | Some buf => draw_commands buf config s limits asset l
      | None => Ok None
      end
  end.
Definition render_frame (window number : N) (config : WindowConfig) (doc : FrameDocument) (limits : GraphicsLimits)
    (asset : string -> option bytes) : MediaResult (option RenderedFrame) :=
  if (doc.(logical_width) =? 0) || (doc.(logical_height) =? 0) then Err (Invalid "logical dimensions must be positive")
  else if (MAX_LOGICAL_DIMENSION <? doc.(logical_width)) || (MAX_LOGICAL_DIMENSION <? doc.(logical_height))
  then Err (Limit "logical dimensions are too large")
  else if limits.(max_commands) <? len doc.(commands) then Err (Limit "draw command limit exceeded")
  else
    let? size := ok_or (n ← checked_mul usize_max config.(width) config.(height); checked_mul usize_max n 4)
                   (Limit "frame buffer size overflow") in
    let s := mkScale doc.(logical_width) doc.(logical_height) config.(width) config.(height) in
    let? _ := validate_draw_work doc s config in
    let? drawn := draw_commands (replicate (N.to_nat size) x00) config s limits asset doc.(commands) in
    match drawn with
    | None => Ok None
    | Some buf =>
        let? png := encode_png config.(width) config.(height) buf in
        Ok (Some (mkRendered
          (mkFrameReceipt window number doc.(simulation_tick) config.(width) config.(height) (len doc.(commands))
             (hex_sha256 buf) (hex_sha256 png)) buf png))
    end.

(** ** Windows *)
Record VirtualWindow := mkVirtualWindow { config : WindowConfig; next_frame : N; last_tick : option N }.
Record HeadlessDisplay := mkDisplay {
  dp_limits : GraphicsLimits;
  windows : gmap N VirtualWindow;
  next_window : N;
  frames : list RenderedFrame;
  captured_bytes : N;
}.
Definition new_display (limits : GraphicsLimits) : HeadlessDisplay :=
  mkDisplay (mkGraphicsLimits (N.min limits.(max_windows) MAX_WINDOWS) (N.min limits.(max_pixels) MAX_PIXELS)
               (N.min limits.(max_commands) MAX_DRAW_COMMANDS) (N.min limits.(max_asset_bytes) MAX_GRAPHICS_ASSET_BYTES))
    ∅ 1 [] 0.
Definition with_windows (self : HeadlessDisplay) (w : gmap N VirtualWindow) : HeadlessDisplay :=
  mkDisplay self.(dp_limits) w self.(next_window) self.(frames) self.(captured_bytes).
Definition display_open (self : HeadlessDisplay) (config : WindowConfig) : HeadlessDisplay * MediaResult N :=
  let! _ := validate_window config self.(dp_limits) on self in
  if N.of_nat (size self.(windows)) =? self.(dp_limits).(max_windows)
  then (self, Err (Limit "window limit reached"))
  else
    let handle := self.(next_window) in
    let! next := ok_or (checked_add u32_max self.(next_window) 1) (Limit "window handle space exhausted") on self in
    (mkDisplay self.(dp_limits) (<[handle := mkVirtualWindow config 0 None]> self.(windows)) next
       self.(frames) self.(captured_bytes), Ok handle).
Definition display_close (self : HeadlessDisplay) (window : N) : HeadlessDisplay * MediaResult unit :=
  match self.(windows) !! window with
  | None => (self, Err (Invalid "unknown window handle"))
  | Some _ => (with_windows self (delete window self.(windows)), Ok tt)
  end.
Definition display_resize (self : HeadlessDisplay) (window w h : N) : HeadlessDisplay * MediaResult unit :=
  let! _ := validate_window (mkWindow "" w h) self.(dp_limits) on self in
  match self.(windows) !! window with
  | None => (self, Err (Invalid "unknown window handle"))
  | Some state =>
      (with_windows self (<[window := mkVirtualWindow (mkWindow state.(config).(title) w h) state.(next_frame)
                                        state.(last_tick)]> self.(windows)), Ok tt)
  end.
(** The inner [None] is again a line whose loop ran out of fuel. *)
Definition display_present (self : HeadlessDisplay) (window : N) (document : bytes) (asset : string -> option bytes) :
    HeadlessDisplay * MediaResult (option FrameReceipt) :=
  if (len self.(frames) =? MAX_CAPTURED_FRAMES) || (MAX_CAPTURED_GRAPHICS_BYTES <=? self.(captured_bytes))
  then (self, Err (Limit "captured graphics output limit exceeded"))
  else if MAX_GRAPHICS_DOCUMENT_BYTES <? len document
  then (self, Err (Limit ("graphics document exceeds " +:+ pretty MAX_GRAPHICS_DOCUMENT_BYTES +:+ " bytes")))
  else
    let! doc := match from_slice document with Ok doc => Ok doc | Err e => Err (Invalid e) end on self in
    match self.(windows) !! window with
    | None => (self, Err (Invalid "unknown window handle"))
    | Some state =>
        if is_some_and (fun tick => doc.(simulation_tick) <? tick) state.(last_tick)
        then (self, Err (Invalid "simulation ticks must be monotonic"))
        else
          let! rendered := render_frame window state.(next_frame) state.(config) doc self.(dp_limits) asset on self in
          match rendered with
          | None => (self, Ok None)
          | Some rendered =>
              let! artifact_bytes := ok_or (checked_add usize_max (len rendered.(rgba)) (len rendered.(png)))
                                       (Limit "captured frame size overflows") on self in
              let! next_captured := ok_or (checked_add usize_max self.(captured_bytes) artifact_bytes)
                                      (Limit "captured graphics size overflows") on self in
              if (len self.(frames) =? MAX_CAPTURED_FRAMES) || (MAX_CAPTURED_GRAPHICS_BYTES <? next_captured)
              then (mkDisplay self.(dp_limits) self.(windows) self.(next_window) self.(frames) MAX_CAPTURED_GRAPHICS_BYTES,
                    Err (Limit "captured graphics output limit exceeded"))
              else
                let! number := ok_or (checked_add u64_max state.(next_frame) 1) (Limit "frame counter exhausted") on self in
                (mkDisplay self.(dp_limits)
                   (<[window := mkVirtualWindow state.(config) number (Some doc.(simulation_tick))]> self.(windows))
                   self.(next_window) (self.(frames) ++ [rendered]) next_captured,
                 Ok (Some rendered.(fr_receipt)))
          end
    end.
Definition take_frames (self : HeadlessDisplay) : HeadlessDisplay * list RenderedFrame :=
  (mkDisplay self.(dp_limits) self.(windows) self.(next_window) [] 0, self.(frames)).
End Render.
