(* ===== verification/GraphicsTheorems.v ===== *)
(** * Theorems about the rasteriser and the windows

    The loop of a line ends, the work estimated before drawing bounds the pixels
    that are written, a filled rectangle changes exactly the pixels it covers,
    and the windows of a display stay within their limits. *)
From S2P Require Import Prelude Text Storage Snapshot Directory Blob Network Core Manifest Media Graphics.

(** ** Lines *)
Lemma offsets_length (radius : Z) : (0 <= radius)%Z -> length (offsets radius) = Z.to_nat (2 * radius + 1).
Proof. intros. unfold offsets. by rewrite length_fmap, length_seq. Qed.

Lemma length_bind_le {A B : Type} (f : A -> list B) (l : list A) (n : nat) :
  (forall x, x ∈ l -> (length (f x) <= n)%nat) -> (length (l ≫= f) <= length l * n)%nat.
Proof.
  induction l as [|x l IH]; intros H; [cbn; lia|]. rewrite bind_cons, length_app. cbn [length].
  pose proof (H x (list_elem_of_here _ _)). specialize (IH (fun y Hy => H y (list_elem_of_further _ _ _ Hy))). lia.
Qed.

Lemma brush_length (cw ch : N) (radius x y : Z) :
  (0 <= radius)%Z -> (length (brush_pixels cw ch radius x y) <= Z.to_nat (2 * radius + 1) * Z.to_nat (2 * radius + 1))%nat.
Proof.
  intros Hr. unfold brush_pixels. rewrite <- (offsets_length radius Hr) at 1. apply length_bind_le. intros oy _.
  rewrite <- (offsets_length radius Hr), <- (Nat.mul_1_r (length (offsets radius))). apply length_bind_le.
  intros ox _. cbv zeta. case_match; cbn; lia.
Qed.

(** The state of the loop [a] columns and [b] rows before its end: [error] is
    determined, and along the longer axis it never asks for a wait. *)
Definition line_inv (dx D a b error : Z) : Prop :=
  (0 <= a <= dx /\ 0 <= b <= D /\ error = dx - D + D * a - dx * b
   /\ (D <= dx /\ - D <= 2 * error <= 3 * dx \/ dx < D /\ - (3 * D) <= 2 * error <= dx))%Z.

(** One turn moves along the longer axis, never past the end. *)
Lemma line_inv_step (dx D a b error : Z) :
  line_inv dx D a b error -> (a <> 0 \/ b <> 0)%Z ->
  let a' := (if - D <=? 2 * error then a - 1 else a)%Z in
  let b' := (if 2 * error <=? dx then b - 1 else b)%Z in
  let error' := (error + (if - D <=? 2 * error then - D else 0) + (if 2 * error <=? dx then dx else 0))%Z in
  line_inv dx D a' b' error' /\ (if D <=? dx then a' = a - 1 else b' = b - 1)%Z.
Proof.
  intros (Ha & Hb & He & Hm) Hab. cbv zeta.
  assert (a = 0 -> 2 * error < - D)%Z as Hx.
  { intros ->. assert (1 <= b)%Z by lia. nia. }
  assert (b = 0 -> dx < 2 * error)%Z as Hy.
  { intros ->. assert (1 <= a)%Z by lia. nia. }
  unfold line_inv.
  destruct (Z.leb_spec (- D) (2 * error)), (Z.leb_spec (2 * error) dx), (Z.leb_spec D dx);
    try lia; (split; [split_and!; [lia..|]|]; lia).
Qed.

Lemma line_loop_ok (cw ch : N) (radius dx D sx sy x1 y1 : Z) (fuel : nat) (a b error : Z) :
  (0 <= radius)%Z -> (dx <= 2 ^ 33)%Z -> (D <= 2 ^ 33)%Z -> (sx <> 0)%Z -> (sy <> 0)%Z -> line_inv dx D a b error ->
  (Z.to_nat (if (D <=? dx)%Z then a else b) < fuel)%nat ->
  exists l, line_loop fuel cw ch radius dx (- D) sx sy x1 y1 (x1 - sx * a) (y1 - sy * b) error = Some l
    /\ (length l <= S (Z.to_nat (if (D <=? dx)%Z then a else b)) * (Z.to_nat (2 * radius + 1) * Z.to_nat (2 * radius + 1)))%nat.
Proof.
  intros Hr Hdx HD Hsx Hsy. revert a b error. induction fuel as [|fuel IH]; intros a b error Hinv Hf; [lia|].
  pose proof (brush_length cw ch radius (x1 - sx * a) (y1 - sy * b) Hr) as Hb.
  cbn [line_loop]. destruct (_ && _) eqn:Hend.
  - eexists. split; [done|]. lia.
  - assert (a <> 0 \/ b <> 0)%Z as Hab.
    { destruct (Z.eq_dec a 0%Z) as [->|]; [|by left]. destruct (Z.eq_dec b 0%Z) as [->|]; [|by right].
      rewrite !Z.mul_0_r, !Z.sub_0_r, !Z.eqb_refl in Hend. done. }
    assert (clampZ i64_min i64_max (error * 2) = 2 * error)%Z as ->.
    { rewrite clampZ_id by (destruct Hinv as (_ & _ & _ & Hm); unfold i64_min, i64_max; lia). lia. }
    pose proof (line_inv_step dx D a b error Hinv Hab) as [Hi Hstep]. cbv zeta in Hi, Hstep.
    assert (if D <=? dx then 1 <= a else 1 <= b)%Z as Hpos.
    { destruct Hi as (Ha & Hb' & _). revert Hstep Ha Hb'. destruct (D <=? dx)%Z; intros ->; lia. }
    apply IH in Hi.
    + destruct Hi as (l & Hl & Hlen).
      exists (brush_pixels cw ch radius (x1 - sx * a) (y1 - sy * b) ++ l).
      split; [|rewrite length_app; revert Hstep Hlen Hpos; destruct (D <=? dx)%Z; intros -> Hlen Hpos;
        [replace (Z.to_nat a) with (S (Z.to_nat (a - 1))) by lia|replace (Z.to_nat b) with (S (Z.to_nat (b - 1))) by lia]; lia].
      revert Hl.
      destruct (Z.leb_spec (- D) (2 * error)), (Z.leb_spec (2 * error) dx); intros Hl;
        match type of Hl with line_loop _ _ _ _ _ _ _ _ _ _ ?x ?y ?e = _ =>
          match goal with |- context [line_loop _ _ _ _ _ _ _ _ _ _ ?x' ?y' ?e'] =>
            replace x' with x by ring; replace y' with y by ring; replace e' with e by ring end end;
        by rewrite Hl.
    + revert Hstep Hpos Hf. destruct (D <=? dx)%Z; intros ->; lia.
Qed.

(** Scaled coordinates are 32-bit. *)
Lemma scale_coordinate_i32 (v : Z) (t l : N) : is_i32 (scale_coordinate v t l).
Proof. apply clampZ_bounds. unfold i32_min, i32_max. lia. Qed.

Lemma line_pixels_ok (cw ch : N) (s : Scale) (from to : Z * Z) (w : N) :
  exists l, line_pixels cw ch s from to w = Some l
    /\ len l <= (line_length s from.1 from.2 to.1 to.2 + 1) * ((w + 1) * (w + 1)).
Proof.
  pose proof (scale_coordinate_i32 from.1 (sc_width s) (sc_logical_width s)) as H1.
  pose proof (scale_coordinate_i32 from.2 (sc_height s) (sc_logical_height s)) as H2.
  pose proof (scale_coordinate_i32 to.1 (sc_width s) (sc_logical_width s)) as H3.
  pose proof (scale_coordinate_i32 to.2 (sc_height s) (sc_logical_height s)) as H4.
  fold (scale_x s from.1) (scale_y s from.2) (scale_x s to.1) (scale_y s to.2) in *.
  unfold line_pixels, line_length, abs_diff. cbv zeta.
  set (x0 := scale_x s from.1) in *. set (y0 := scale_y s from.2) in *.
  set (x1 := scale_x s to.1) in *. set (y1 := scale_y s to.2) in *.
  set (dx := Z.abs (x1 - x0)). set (D := Z.abs (y1 - y0)).
  set (sx := (if x0 <? x1 then 1 else -1)%Z). set (sy := (if y0 <? y1 then 1 else -1)%Z).
  set (radius := Z.of_N (N.min w 64 / 2)).
  unfold is_i32, i32_min, i32_max in *.
  assert (line_inv dx D dx D (dx + - D)) as Hinv by (unfold line_inv; lia).
  destruct (line_loop_ok cw ch radius dx D sx sy x1 y1 (S (Z.to_nat (Z.max dx (- - D)))) dx D (dx + - D))
    as (l & Hl & Hlen); try done; try lia.
  - apply N2Z.is_nonneg.
  - subst sx. destruct (x0 <? x1)%Z; lia.
  - subst sy. destruct (y0 <? y1)%Z; lia.
  - destruct (Z.leb_spec D dx); lia.
  - assert (x1 - sx * dx = x0)%Z as Ex by (subst sx dx; destruct (Z.ltb_spec x0 x1); lia).
    assert (y1 - sy * D = y0)%Z as Ey by (subst sy D; destruct (Z.ltb_spec y0 y1); lia).
    rewrite Ex, Ey in Hl. exists l. split; [done|].
    assert (Z.to_nat (2 * radius + 1) <= N.to_nat (w + 1))%nat as Hr.
    { subst radius. pose proof (N.Div0.mul_div_le (N.min w 64) 2). lia. }
    replace (Z.to_N (Z.abs (x0 - x1))) with (Z.to_N dx) by lia.
    replace (Z.to_N (Z.abs (y0 - y1))) with (Z.to_N D) by lia.
    assert (len l <= N.of_nat (S (Z.to_nat (if (D <=? dx)%Z then dx else D))
                      * (Z.to_nat (2 * radius + 1) * Z.to_nat (2 * radius + 1)))) as Hl2 by (unfold len; lia).
    etrans; [exact Hl2|]. rewrite !Nat2N.inj_mul. apply N.mul_le_mono.
    + destruct (Z.leb_spec D dx); lia.
    + apply N.mul_le_mono; lia.
Qed.

(** ** Blocks of pixels *)
Lemma len_bind {A B : Type} (f : A -> list B) (l : list A) (n : N) :
  (forall x, x ∈ l -> len (f x) = n) -> len (l ≫= f) = len l * n.
Proof.
  induction l as [|x l IH]; intros H; [done|]. rewrite bind_cons. unfold len in *. rewrite length_app. cbn [length].
  rewrite Nat2N.inj_add, IH, (H x), Nat2N.inj_succ, N.mul_succ_l; [lia|apply list_elem_of_here|intros y Hy; apply H; by right].
Qed.
Lemma len_bind_le {A B : Type} (f : A -> list B) (l : list A) (n : N) :
  (forall x, x ∈ l -> len (f x) <= n) -> len (l ≫= f) <= len l * n.
Proof.
  intros H. pose proof (length_bind_le f l (N.to_nat n)) as Hl. unfold len in *.
  assert (length (l ≫= f) <= length l * N.to_nat n)%nat; [|lia].
  apply Hl. intros x Hx. specialize (H x Hx). lia.
Qed.
Lemma block_len (l r t b : N) : len (block l r t b) = (b - t) * (r - l).
Proof.
  unfold block. rewrite (len_bind _ _ (r - l)), rangeN_len; [done|]. intros y _.
  rewrite <- rangeN_len. unfold len. by rewrite length_fmap.
Qed.
Lemma rect_block_elem (l r t b x y : N) : (x, y) ∈ block l r t b <-> l <= x < r /\ t <= y < b.
Proof.
  unfold block. rewrite list_elem_of_bind. split.
  - intros (y' & (x' & [= -> ->] & Hx)%list_elem_of_fmap & Hy). rewrite !rangeN_elem in *. lia.
  - intros [Hx Hy]. exists y. rewrite rangeN_elem. split; [|lia]. apply list_elem_of_fmap. exists x.
    by rewrite rangeN_elem.
Qed.
Lemma block_NoDup (l r t b : N) : NoDup (block l r t b).
Proof.
  unfold block. induction (rangeN_NoDup t b) as [|y ys Hy _ IH]; [constructor|].
  rewrite bind_cons. apply NoDup_app. split_and!; [|intros [x' y'] Hin1 Hin2|done].
  - apply NoDup_fmap_2; [by intros ?? [=]|apply rangeN_NoDup].
  - apply list_elem_of_fmap in Hin1 as (? & [= -> ->] & _).
    apply list_elem_of_bind in Hin2 as (y'' & (? & [= -> <-] & _)%list_elem_of_fmap & Hin). done.
Qed.

(** The edges stay on the canvas and no further apart than the extent. *)
Lemma far_edge_bounds (x : Z) (e limit : N) :
  is_i32 x -> e <= u32_max ->
  far_edge x e limit <= limit /\ far_edge x e limit - Z.to_N (Z.max x 0) <= N.min e limit
  /\ (far_edge x e limit = 0 \/ (Z.of_N (far_edge x e limit) <= x + Z.of_N e)%Z).
Proof. unfold is_i32, i32_min, i32_max, u32_max, far_edge, clampZ, i64_min, i64_max. lia. Qed.
Lemma near_edge_min (x : Z) (limit : N) : near_edge x limit = N.min (Z.to_N (Z.max x 0)) limit.
Proof. unfold near_edge, clampZ. lia. Qed.

Lemma scale_length_u32 (v t l : N) : scale_length v t l <= u32_max.
Proof. unfold scale_length. lia. Qed.

Lemma rect_pixels_len (cw ch : N) (s : Scale) (x y : Z) (w h : N) :
  len (rect_pixels cw ch s x y w h) <= N.min (scale_w s w) cw * N.min (scale_h s h) ch.
Proof.
  unfold rect_pixels. cbv zeta. rewrite block_len, N.mul_comm.
  destruct (far_edge_bounds (scale_x s x) (scale_w s w) cw) as (_ & Hx & _);
    [apply scale_coordinate_i32|apply scale_length_u32|].
  destruct (far_edge_bounds (scale_y s y) (scale_h s h) ch) as (_ & Hy & _);
    [apply scale_coordinate_i32|apply scale_length_u32|].
  by apply N.mul_le_mono.
Qed.
Lemma blit_block_len (cw ch : N) (s : Scale) (x y : Z) (w h : N) :
  len (blit_block cw ch (scale_x s x) (scale_y s y) (scale_w s w) (scale_h s h))
  <= N.min (scale_w s w) cw * N.min (scale_h s h) ch.
Proof.
  unfold blit_block. rewrite block_len, N.mul_comm, !near_edge_min.
  destruct (far_edge_bounds (scale_x s x) (scale_w s w) cw) as (Hx' & Hx & _);
    [apply scale_coordinate_i32|apply scale_length_u32|].
  destruct (far_edge_bounds (scale_y s y) (scale_h s h) ch) as (Hy' & Hy & _);
    [apply scale_coordinate_i32|apply scale_length_u32|].
  apply N.mul_le_mono; lia.
Qed.

(** ** Text *)
Lemma filter_len {A : Type} (f : A -> bool) (l : list A) : len (List.filter f l) <= len l.
Proof. unfold len. induction l as [|x l IH]; cbn; [lia|]. destruct (f x); cbn; lia. Qed.
Lemma glyph_pixels_len (cw ch : N) (s : Scale) (gw gh : N) bits (cursor y : Z) (size : N) :
  len (glyph_pixels cw ch s gw gh bits cursor y size) <= gh * gw * (scale_w s size * scale_h s size).
Proof.
  unfold glyph_pixels. etrans; [apply (len_bind_le _ _ (scale_w s size * scale_h s size))|].
  - intros p _. etrans; [apply rect_pixels_len|]. apply N.mul_le_mono; lia.
  - apply N.mul_le_mono_r. unfold glyph_cells. etrans; [apply filter_len|]. rewrite block_len. lia.
Qed.
Lemma text_pixels_len (cw ch : N) (s : Scale) parsed (gw gh : N) (y : Z) (size : N) (l : list N) (cursor : Z) :
  gw <= 16 -> gh <= 32 ->
  len (text_pixels cw ch s parsed gw gh cursor y size l) <= len l * (16 * 32) * (scale_w s size * scale_h s size).
Proof.
  intros Hw Hh. revert cursor. induction l as [|c l IH]; intros cursor; cbn [text_pixels]; [apply N.le_0_l|].
  set (A := scale_w s size * scale_h s size) in *.
  assert (len (c :: l) * (16 * 32) * A = 512 * A + len l * (16 * 32) * A) as -> by (unfold len; cbn [length]; lia).
  destruct (c =? 10); [specialize (IH cursor); lia|].
  unfold len at 1. rewrite length_app, Nat2N.inj_add. apply N.add_le_mono; [|apply IH].
  etrans; [apply glyph_pixels_len|]. fold A. apply N.mul_le_mono_r.
  transitivity (32 * 16); [by apply N.mul_le_mono|lia].
Qed.
Lemma parse_font_size payload font : parse_font payload = Ok font -> font.(font_width) <= 16 /\ font.(font_height) <= 32.
Proof.
  unfold parse_font. pass H1. pass H2. succeed bits Hb. pass H3. intros [= <-]. cbn. split_guard. lia.
Qed.

(** ** The budget of a frame *)
Section Work.
Context `{Ext : Externals} `{Png : !PngCrate} `{DF : !JsonDecode FrameDocument}.

Definition text_font (asset : string -> option bytes) (font : option string) : option ParsedFont :=
  payload ← font ≫= asset; match parse_font payload with Ok f => Some f | Err _ => None end.
(** The pixels a command writes. *)
Definition command_pixels (config : WindowConfig) (s : Scale) (asset : string -> option bytes) (command : DrawCommand) :
    list (N * N) :=
  let cw := config.(width) in let ch := config.(height) in
  match command with
  | Clear _ => block 0 cw 0 ch
  | Rect x y w h _ => rect_pixels cw ch s x y w h
  | Line x1 y1 x2 y2 w _ => default [] (line_pixels cw ch s (x1, y1) (x2, y2) w)
  | Image _ _ _ x y w h => blit_block cw ch (scale_x s x) (scale_y s y) (scale_w s w) (scale_h s h)
  | Text text font x y size _ =>
      let parsed := text_font asset font in
      text_pixels cw ch s parsed (from_option font_width 5 parsed) (from_option font_height 7 parsed) x y size (str_chars text)
  end.

Lemma text_font_size asset font :
  from_option font_width 5 (text_font asset font) <= 16 /\ from_option font_height 7 (text_font asset font) <= 32.
Proof.
  unfold text_font. destruct (font ≫= asset) as [payload|]; cbn; [|lia].
  destruct (parse_font payload) as [f|] eqn:Hf; cbn; [by eapply parse_font_size|lia].
Qed.

(** An estimate that fits the budget did not saturate. *)
Lemma saturating_mul_small (a b : N) : saturating_mul u64_max a b < u64_max -> saturating_mul u64_max a b = a * b.
Proof. unfold saturating_mul. lia. Qed.
Lemma saturating_mul_bound (a b n : N) : n < u64_max -> saturating_mul u64_max a b <= n -> a * b <= n.
Proof. unfold saturating_mul. lia. Qed.
Lemma saturating_add_bound (a b n : N) : n < u64_max -> saturating_add u64_max a b <= n -> a + b <= n.
Proof. unfold saturating_add. lia. Qed.

Lemma command_work_bounds doc s config asset command n :
  command_work doc s config command = Ok n -> n <= MAX_DRAW_WORK_UNITS ->
  len (command_pixels config s asset command) <= n.
Proof.
  assert (MAX_DRAW_WORK_UNITS < u64_max) as Hbig by (vm_compute; done).
  destruct command as [c|x y w h c|x1 y1 x2 y2 w c|path sw sh x y w h|text font x y size c];
    cbn [command_work command_pixels].
  - intros [= <-] _. rewrite block_len. lia.
  - intros [= <-] Hn. rewrite saturating_mul_small by lia. apply rect_pixels_len.
  - pass Hw. succeed a1 H1. succeed a2 H2. succeed a3 H3. succeed a4 H4. intros [= <-] Hn.
    destruct (line_pixels_ok (width config) (height config) s (x1, y1) (x2, y2) w) as (l & -> & Hl).
    cbn [default from_option fst snd] in *. unfold id. etrans; [exact Hl|].
    split_guard. unfold saturating_mul, saturating_add in *. rewrite !(N.min_l (w + 1)) in * by (unfold u64_max; lia).
    rewrite !(N.min_l ((w + 1) * (w + 1))) in * by (unfold u64_max; nia).
    assert (line_length s x1 y1 x2 y2 + 1 <= u64_max).
    { unfold line_length, abs_diff. pose proof (scale_coordinate_i32 x1 (sc_width s) (sc_logical_width s)).
      pose proof (scale_coordinate_i32 x2 (sc_width s) (sc_logical_width s)).
      pose proof (scale_coordinate_i32 y1 (sc_height s) (sc_logical_height s)).
      pose proof (scale_coordinate_i32 y2 (sc_height s) (sc_logical_height s)).
      unfold scale_x, scale_y, is_i32, i32_min, i32_max, u64_max in *. lia. }
    rewrite !(N.min_l (line_length s x1 y1 x2 y2 + 1)) in * by done. lia.
  - intros [= <-] Hn. rewrite saturating_mul_small by lia. apply blit_block_len.
  - succeed a1 H1. succeed a2 H2. intros [= <-] Hn.
    destruct (text_font_size asset font) as [Hw Hh].
    etrans; [by apply text_pixels_len|]. set (k := len (str_chars text)) in *.
    set (a := scale_w s size) in *. set (b := scale_h s size) in *.
    assert (a * b <= N.max a 1 * N.max b 1) by (apply N.mul_le_mono; lia).
    assert (k * (16 * 32) * (a * b) <= k * (16 * 32) * (N.max a 1 * N.max b 1)) by (by apply N.mul_le_mono_l).
    assert (1 <= N.max a 1 * N.max b 1) by nia.
    unfold saturating_add in *. etrans; [eassumption|]. unfold saturating_mul in *.
    set (g := N.max a 1 * N.max b 1) in *. set (m := k * (16 * 32)) in *.
    assert (m * g <= N.min (N.min m u64_max * N.min g u64_max) u64_max \/ u64_max <= N.min m u64_max * N.min g u64_max); [|lia].
    destruct (N.le_gt_cases m u64_max), (N.le_gt_cases g u64_max);
      rewrite ?(N.min_l m), ?(N.min_r m), ?(N.min_l g), ?(N.min_r g) by lia; try (right; nia).
    + lia.
    + destruct (N.eq_dec m 0) as [->|]; [left; lia|right; nia].
Qed.

Lemma check_draw_work_bounds doc s config asset l work n :
  check_draw_work doc s config work l = Ok n ->
  work + sumN (len <$> (command_pixels config s asset <$> l)) <= n
  /\ (l <> [] -> n <= MAX_DRAW_WORK_UNITS).
Proof.
  assert (MAX_DRAW_WORK_UNITS < u64_max) as Hbig by (vm_compute; done).
  revert work. induction l as [|c l IH]; intros work; cbn [check_draw_work].
  - intros [= <-]. split; [sums|done].
  - succeed k Hk. pass Hw. succeed u Hu. intros Hr. apply IH in Hr as Hr'. destruct Hr' as [Hs Hn].
    bprop. apply saturating_add_bound in Hw as Hw'; [|done].
    apply (command_work_bounds _ _ _ asset) in Hk; [|lia]. rewrite !fmap_cons, sumN_cons.
    assert (saturating_add u64_max work k = work + k) as E by (unfold saturating_add in *; lia). rewrite E in *.
    split; [lia|]. intros _. destruct l; [cbn in Hr; injection Hr as <-; lia|by apply Hn].
Qed.

Lemma draw_commands_drawn buf config s limits asset l r :
  draw_commands buf config s limits asset l = Ok r -> r <> None.
Proof.
  revert buf. induction l as [|c l IH]; intros buf; cbn [draw_commands]; [by intros [= <-]|].
  destruct (draw_command _ _ _ _ _ c) as [[b|]|] eqn:Hc; [apply IH| |done]. exfalso. revert Hc.
  destruct c as [c|x y w h c|x1 y1 x2 y2 w c|path sw sh x y w h|text font x y size c]; cbn [draw_command]; try done.
  - unfold draw_line. destruct (line_pixels_ok (width config) (height config) s (x1, y1) (x2, y2) w) as (l' & -> & _). done.
  - by destruct (draw_image _ _ _ _ _ _ _ _ _ _ _ _).
  - by destruct (draw_label _ _ _ _ _ _ _ _ _ _).
Qed.

(** C32: rendering a frame ends, whatever the document: the loop of every line
    reaches its end point; and an accepted frame writes no more pixels than the
    work estimated beforehand, which the budget bounds. *)
Theorem rendering_is_bounded (window number : N) config doc limits asset r :
  render_frame window number config doc limits asset = Ok r ->
  r <> None
  /\ sumN (len <$> (command_pixels config (mkScale doc.(logical_width) doc.(logical_height) config.(width) config.(height)) asset
                      <$> doc.(commands))) <= MAX_DRAW_WORK_UNITS.
Proof.
  unfold render_frame. pass H1. pass H2. pass H3. succeed n Hs. succeed work Hw.
  destruct (draw_commands _ _ _ _ _ _) as [d|] eqn:Hd; [|done]. apply draw_commands_drawn in Hd.
  destruct d as [buf|]; [|done]. succeed out Hp. intros [= <-]. split; [done|].
  unfold validate_draw_work in Hw. apply (check_draw_work_bounds _ _ _ asset) in Hw as [Hle Hn].
  destruct doc.(commands) as [|c l]; [rewrite !fmap_nil, sumN_nil; lia|]. specialize (Hn ltac:(done)). lia.
Qed.
End Work.

(** ** What a rectangle changes *)
Definition pixel (buf : bytes) (cw x y : N) : Color :=
  let i := (y * cw + x) * 4 in
  mkColor (byte_at buf i) (byte_at buf (i + 1)) (byte_at buf (i + 2)) (byte_at buf (i + 3)).
Definition mix (source target : Color) : Color :=
  let a := Byte.to_N source.(alpha) in
  mkColor (mix_channel (Byte.to_N source.(red)) (Byte.to_N target.(red)) a)
    (mix_channel (Byte.to_N source.(green)) (Byte.to_N target.(green)) a)
    (mix_channel (Byte.to_N source.(blue)) (Byte.to_N target.(blue)) a)
    (mix_alpha a (Byte.to_N target.(alpha))).
Definition is_canvas (buf : bytes) (cw ch : N) : Prop := len buf = cw * ch * 4 /\ cw * ch * 4 <= u64_max.

Lemma byte_at_insert (buf : bytes) (k : nat) (i : N) (b : byte) :
  byte_at (<[k := b]> buf) i = if bool_decide (N.to_nat i = k /\ (k < length buf)%nat) then b else byte_at buf i.
Proof.
  unfold byte_at. destruct (decide (N.to_nat i = k /\ (k < length buf)%nat)) as [[<- Hl]|Hn].
  - rewrite bool_decide_eq_true_2 by done. by rewrite list_lookup_insert_eq.
  - rewrite bool_decide_eq_false_2 by done. by rewrite list_lookup_insert, decide_False by naive_solver.
Qed.
Lemma pixel_index (cw ch x y x' y' : N) :
  x < cw -> x' < cw -> y * cw + x = y' * cw + x' -> x = x' /\ y = y'.
Proof. intros. assert (y = y') by nia. subst. lia. Qed.

Lemma blend_length (buf : bytes) (cw x y : N) (c : Color) : length (blend buf cw x y c) = length buf.
Proof.
  unfold blend. destruct (checked_mul _ _ _) as [i|]; [|done]. destruct (_ <=? _); [|done]. by rewrite !length_insert.
Qed.
Lemma blend_canvas (buf : bytes) (cw ch x y : N) (c : Color) : is_canvas buf cw ch -> is_canvas (blend buf cw x y c) cw ch.
Proof. unfold is_canvas, len. by rewrite blend_length. Qed.

Lemma blend_pixel (buf : bytes) (cw ch x y x' y' : N) (c : Color) :
  is_canvas buf cw ch -> x < cw -> y < ch -> x' < cw -> y' < ch ->
  pixel (blend buf cw x y c) cw x' y'
  = if bool_decide ((x', y') = (x, y)) then mix c (pixel buf cw x y) else pixel buf cw x' y'.
Proof.
  intros [Hl Hm] Hx Hy Hx' Hy'.
  assert ((y * cw + x) * 4 + 4 <= len buf) as Hi by nia. assert ((y' * cw + x') * 4 + 4 <= len buf) as Hi' by nia.
  unfold blend. rewrite (proj2 (checked_mul_Some u64_max (y * cw + x) 4 _)) by (split; [reflexivity|lia]).
  rewrite (proj2 (N.leb_le _ _) Hi). cbv zeta.
  set (i := (y * cw + x) * 4) in *. set (j := (y' * cw + x') * 4) in *. unfold len in *.
  unfold pixel, mix. fold i. fold j. cbn [red green blue alpha].
  rewrite !byte_at_insert, !length_insert, N.add_0_r.
  destruct (decide ((x', y') = (x, y))) as [Heq|Heq].
  - rewrite (bool_decide_eq_true_2 ((x', y') = (x, y))) by done. injection Heq as -> ->. assert (i = j) as E by done. rewrite <- E.
    by rewrite ?(bool_decide_eq_true_2 (N.to_nat i = N.to_nat i /\ _)),
      ?(bool_decide_eq_false_2 (N.to_nat (i + _) = N.to_nat i /\ _)),
      ?(bool_decide_eq_true_2 (N.to_nat (i + 1) = S (N.to_nat i) /\ _)),
      ?(bool_decide_eq_false_2 (N.to_nat (i + _) = S (N.to_nat i) /\ _)),
      ?(bool_decide_eq_true_2 (N.to_nat (i + 2) = S (S (N.to_nat i)) /\ _)),
      ?(bool_decide_eq_false_2 (N.to_nat (i + _) = S (S (N.to_nat i)) /\ _)),
      ?(bool_decide_eq_true_2 (N.to_nat (i + 3) = S (S (S (N.to_nat i))) /\ _)) by lia.
  - rewrite (bool_decide_eq_false_2 ((x', y') = (x, y))) by done.
    assert (y' * cw + x' <> y * cw + x) as Hne.
    { intros E. apply (pixel_index _ ch) in E as [-> ->]; done. }
    assert (j + 4 <= i \/ i + 4 <= j) as Hfar by lia.
    rewrite !bool_decide_eq_false_2 by lia. done.
Qed.

Lemma blend_all_pixel (buf : bytes) (cw ch : N) (c : Color) (l : list (N * N)) (x y : N) :
  is_canvas buf cw ch -> NoDup l -> (forall p, p ∈ l -> p.1 < cw /\ p.2 < ch) -> x < cw -> y < ch ->
  pixel (blend_all buf cw c l) cw x y
  = if bool_decide ((x, y) ∈ l) then mix c (pixel buf cw x y) else pixel buf cw x y.
Proof.
  intros Hb Hnd Hin Hx Hy. revert buf Hb. induction Hnd as [|[px py] l Hp _ IH]; intros buf Hb; cbn [blend_all foldl].
  - by rewrite bool_decide_eq_false_2 by apply not_elem_of_nil.
  - destruct (Hin (px, py) (list_elem_of_here _ _)) as [Hpx Hpy]. cbn [fst snd] in *.
    fold (blend_all (blend buf cw px py c) cw c l).
    rewrite IH; [|intros p ?; apply Hin; by right|by apply blend_canvas].
    rewrite (blend_pixel _ _ ch) by done.
    destruct (decide ((x, y) = (px, py))) as [[= -> ->]|Hne].
    + rewrite (bool_decide_eq_false_2 (_ ∈ l)) by done. by rewrite !bool_decide_eq_true_2 by (done || left).
    + rewrite (bool_decide_eq_false_2 (_ = _)) by done.
      rewrite (bool_decide_ext ((x, y) ∈ (px, py) :: l) ((x, y) ∈ l)); [done|].
      rewrite elem_of_cons. naive_solver.
Qed.

Lemma edge_covers (x : Z) (e limit p : N) :
  is_i32 x -> e <= u32_max -> p < limit ->
  Z.to_N (Z.max x 0) <= p < far_edge x e limit <-> (x <= Z.of_N p < x + Z.of_N e)%Z.
Proof.
  unfold is_i32, i32_min, i32_max, u32_max. intros Hx He Hp. unfold far_edge.
  rewrite (clampZ_id i64_min i64_max) by (unfold i64_min, i64_max; lia). unfold clampZ. lia.
Qed.

(** filling a rectangle blends its color once into every canvas pixel that
    the scaled rectangle covers and leaves every other pixel of the canvas as
    it was, wherever the rectangle lies. *)
Theorem fill_rect_exact (buf : bytes) (cw ch : N) (s : Scale) (x y : Z) (w h : N) (c : Color) (px py : N) :
  is_canvas buf cw ch -> px < cw -> py < ch ->
  pixel (fill_rect buf cw ch s x y w h c) cw px py
  = if bool_decide (scale_x s x <= Z.of_N px < scale_x s x + Z.of_N (scale_w s w)
                    /\ scale_y s y <= Z.of_N py < scale_y s y + Z.of_N (scale_h s h))%Z
    then mix c (pixel buf cw px py) else pixel buf cw px py.
Proof.
  intros Hb Hx Hy. unfold fill_rect.
  pose proof (scale_coordinate_i32 x (sc_width s) (sc_logical_width s)) as Ix.
  pose proof (scale_coordinate_i32 y (sc_height s) (sc_logical_height s)) as Iy.
  pose proof (scale_length_u32 w (sc_width s) (sc_logical_width s)) as Iw.
  pose proof (scale_length_u32 h (sc_height s) (sc_logical_height s)) as Ih.
  set (covered := (scale_x s x <= Z.of_N px < scale_x s x + Z.of_N (scale_w s w)
                   /\ scale_y s y <= Z.of_N py < scale_y s y + Z.of_N (scale_h s h))%Z).
  assert ((px, py) ∈ rect_pixels cw ch s x y w h <-> covered) as Hiff.
  { unfold covered, rect_pixels. cbv zeta. by rewrite rect_block_elem, !edge_covers. }
  rewrite (blend_all_pixel _ _ ch); [|done| | |done|done].
  - destruct (decide covered) as [Hc|Hc].
    + rewrite (bool_decide_eq_true_2 (_ ∈ _)) by (by apply Hiff). by rewrite bool_decide_eq_true_2.
    + rewrite (bool_decide_eq_false_2 (_ ∈ _)) by (by rewrite Hiff). by rewrite bool_decide_eq_false_2.
  - apply block_NoDup.
  - unfold rect_pixels. cbv zeta. intros [qx qy] Hq%rect_block_elem. cbn [fst snd].
    destruct (far_edge_bounds (scale_x s x) (scale_w s w) cw), (far_edge_bounds (scale_y s y) (scale_h s h) ch); try done; lia.
Qed.

(** ** Displays *)
Section Display.
Context `{Ext : Externals} `{Png : !PngCrate} `{DF : !JsonDecode FrameDocument}.

(** A call of the guest, or the host taking the captured frames. *)
Inductive display_step : HeadlessDisplay -> HeadlessDisplay -> Prop :=
| step_open d config : display_step d (display_open d config).1
| step_close d window : display_step d (display_close d window).1
| step_resize d window w h : display_step d (display_resize d window w h).1
| step_present d window document asset : display_step d (display_present d window document asset).1
| step_take d : display_step d (take_frames d).1.

Definition frame_bytes (f : RenderedFrame) : N := len f.(rgba) + len f.(png).
Record display_ok (d : HeadlessDisplay) : Prop := {
  do_limits : d.(dp_limits).(max_windows) <= MAX_WINDOWS /\ d.(dp_limits).(max_pixels) <= MAX_PIXELS;
  do_count : N.of_nat (size d.(windows)) <= d.(dp_limits).(max_windows);
  do_handles : forall h w, d.(windows) !! h = Some w ->
    h < d.(next_window) /\ 1 <= w.(config).(width) <= MAX_DIMENSION /\ 1 <= w.(config).(height) <= MAX_DIMENSION
    /\ w.(config).(width) * w.(config).(height) <= d.(dp_limits).(max_pixels);
  do_frames : len d.(frames) <= MAX_CAPTURED_FRAMES;
  do_captured : sumN (frame_bytes <$> d.(frames)) <= d.(captured_bytes) <= MAX_CAPTURED_GRAPHICS_BYTES;
}.

Lemma validate_window_ok config limits u :
  validate_window config limits = Ok u ->
  1 <= config.(width) <= MAX_DIMENSION /\ 1 <= config.(height) <= MAX_DIMENSION
  /\ config.(width) * config.(height) <= limits.(max_pixels).
Proof.
  unfold validate_window. pass H1. pass H2. succeed n Hn. pass H3. intros _. split_guard.
  unfold ok_or, pixel_count in Hn. destruct (checked_mul _ _ _) eqn:Hm; [|done]. injection Hn as <-.
  apply checked_mul_Some in Hm as [-> _]. lia.
Qed.

Lemma new_display_ok limits : display_ok (new_display limits).
Proof. split; cbn; try lia; [by rewrite map_size_empty; lia|done|apply N.le_0_l|rewrite sumN_nil; vm_compute; done]. Qed.

(** A new window takes a handle that was never given out before. *)
Lemma open_fresh d config d' h :
  display_ok d -> display_open d config = (d', Ok h) ->
  display_ok d' /\ d.(windows) !! h = None /\ h = d.(next_window) /\ d'.(next_window) = h + 1.
Proof.
  intros [Hl Hc Hh Hf Hb]. unfold display_open.
  destruct (validate_window config (dp_limits d)) as [u|] eqn:Hv; [|done]. apply validate_window_ok in Hv.
  destruct (N.eqb_spec (N.of_nat (size (windows d))) (max_windows (dp_limits d))); [done|].
  unfold ok_or. destruct (checked_add u32_max (next_window d) 1) as [n'|] eqn:Hn; [|done].
  apply checked_add_Some in Hn as [-> _]. intros [= <- <-].
  assert (windows d !! next_window d = None) as Hnone.
  { destruct (windows d !! next_window d) eqn:E; [|done]. apply Hh in E. lia. }
  split_and!; [|done..]. split; cbn; try done.
  - rewrite map_size_insert_None by done. lia.
  - intros k w [[<- <-]|[Hk Hw]]%lookup_insert_Some; cbn; [split; [lia|done]|]. apply Hh in Hw. split; [lia|apply Hw].
Qed.

Lemma open_ok d config : display_ok d -> display_ok (display_open d config).1.
Proof.
  intros Hok. destruct (display_open d config) as [d' [h|e]] eqn:Ho.
  - by apply open_fresh in Ho as [? _].
  - revert Ho. unfold display_open. repeat (case_match; try (intros [= <- _]; done)).
Qed.
Lemma close_ok d window : display_ok d -> display_ok (display_close d window).1.
Proof.
  intros [Hl Hc Hh Hf Hb]. unfold display_close. destruct (windows d !! window) eqn:Hw; [|by split].
  split; cbn; try done.
  - rewrite map_size_delete_Some by eauto. lia.
  - intros k w [_ Hk]%lookup_delete_Some. by apply Hh.
Qed.
Lemma resize_ok d window w h : display_ok d -> display_ok (display_resize d window w h).1.
Proof.
  intros [Hl Hc Hh Hf Hb]. unfold display_resize.
  destruct (validate_window _ _) as [u|] eqn:Hv; [|by split]. apply validate_window_ok in Hv. cbn [width height] in Hv.
  destruct (windows d !! window) as [state|] eqn:Hw; [|by split]. split; cbn; try done.
  - by rewrite map_size_insert_Some by eauto.
  - intros k v [[<- <-]|[_ Hk]]%lookup_insert_Some; cbn; [|by apply Hh]. apply Hh in Hw. split; [apply Hw|done].
Qed.
Lemma present_ok d window document asset : display_ok d -> display_ok (display_present d window document asset).1.
Proof.
  intros [Hl Hc Hh Hf Hb]. unfold display_present. destruct (_ || _) eqn:Hfull; [by split|].
  destruct (_ <? _); [by split|]. destruct (from_slice document) as [doc|]; [|by split].
  destruct (windows d !! window) as [state|] eqn:Hw; [|by split]. destruct (is_some_and _ _); [by split|].
  destruct (render_frame _ _ _ _ _ _) as [[r|]|]; [|by split..]. unfold ok_or.
  destruct (checked_add usize_max (len (rgba r)) _) as [n|] eqn:Hn; [|by split].
  destruct (checked_add usize_max (captured_bytes d) n) as [total|] eqn:Ht; [|by split].
  apply checked_add_Some in Hn as [-> _], Ht as [-> _]. split_guard.
  destruct (_ || _) eqn:Hover; [split; cbn; try done; lia|].
  destruct (checked_add u64_max _ _); [|by split]. split_guard. split; cbn; try done.
  - by rewrite map_size_insert_Some by eauto.
  - intros k v [[<- <-]|[_ Hk]]%lookup_insert_Some; cbn; [|by apply Hh]. by apply Hh in Hw.
  - unfold len in *. rewrite length_app. cbn. lia.
  - rewrite fmap_app, sumN_app. cbn [fmap list_fmap]. rewrite sumN_cons, sumN_nil. unfold frame_bytes at 2. lia.
Qed.
Lemma take_frames_ok d : display_ok d -> display_ok (take_frames d).1.
Proof. intros [Hl Hc Hh Hf Hb]. split; cbn; try done. Qed.

(** whatever a guest calls, at most eight windows are open, each within its
    dimensions and pixel limit, and the frames kept for the host are at most 256
    and 64 MiB; and a new window never gets the handle of an open one. *)
Theorem display_stays_bounded limits d :
  rtc display_step (new_display limits) d ->
  N.of_nat (size d.(windows)) <= MAX_WINDOWS
  /\ (forall h w, d.(windows) !! h = Some w ->
        w.(config).(width) <= MAX_DIMENSION /\ w.(config).(width) * w.(config).(height) <= MAX_PIXELS)
  /\ len d.(frames) <= MAX_CAPTURED_FRAMES /\ sumN (frame_bytes <$> d.(frames)) <= MAX_CAPTURED_GRAPHICS_BYTES
  /\ (forall config d' h, display_open d config = (d', Ok h) -> d.(windows) !! h = None /\ d'.(next_window) = h + 1).
Proof.
  intros Hsteps.
  assert (display_ok d) as Hok.
  { revert Hsteps. generalize (new_display_ok limits). generalize (new_display limits) as d0.
    intros d0 H0 Hs. induction Hs as [d0|d0 d1 d2 Hstep _ IH]; [done|]. apply IH.
    destruct Hstep; [by apply open_ok|by apply close_ok|by apply resize_ok|by apply present_ok|by apply take_frames_ok]. }
  pose proof Hok as [Hl Hc Hh Hf Hb]. split_and!; try lia.
  - intros h w Hw. apply Hh in Hw. lia.
  - intros c d' h Ho. apply open_fresh in Ho as (_ & ? & -> & ->); done.
Qed.
End Display.

(** ** At a concrete frame *)
Definition demo_png : PngCrate := fun _ _ buf => Ok (take 8 buf).
Definition demo_frame : FrameDocument :=
  mkFrame 100 100 0 [Clear (mkColor x10 x20 x30 xff); Line (-10) 0 90 70 3 (mkColor xff x00 x00 x80);
                     Rect 20 20 30 40 (mkColor x00 xff x00 x40); Text "hi" None 0 0 4 (mkColor x00 x00 x00 xff)].
Definition demo_window : WindowConfig := mkWindow "demo" 16 12.
Definition render_demo : MediaResult (option RenderedFrame) :=
  @render_frame demo_externals demo_png 1 0 demo_window demo_frame default_graphics_limits (fun _ => None).
Lemma rendering_is_bounded_witness : exists r, render_demo = Ok (Some r)
  /\ sumN (len <$> (command_pixels demo_window (mkScale 100 100 16 12) (fun _ => None) <$> demo_frame.(commands)))
     <= MAX_DRAW_WORK_UNITS.
Proof.
  destruct render_demo as [[r|]|] eqn:H; [|vm_compute in H; discriminate H..].
  exists r. split; [done|]. exact (proj2 (@rendering_is_bounded demo_externals demo_png 1 0 demo_window demo_frame _ _ _ H)).
Defined.
Lemma fill_rect_exact_witness :
  pixel (fill_rect (replicate 64 x00) 4 4 (mkScale 8 8 4 4) (-3) 2 8 3 (mkColor xff x00 x00 xff)) 4 0 1 = mkColor xff x00 x00 xff
  /\ pixel (fill_rect (replicate 64 x00) 4 4 (mkScale 8 8 4 4) (-3) 2 8 3 (mkColor xff x00 x00 xff)) 4 3 1 = mkColor x00 x00 x00 x00.
Proof.
  assert (is_canvas (replicate 64 x00) 4 4) as Hc by (vm_compute; done).
  split; rewrite (fill_rect_exact _ 4 4) by (done || lia); vm_compute; reflexivity.
Defined.
Lemma display_stays_bounded_witness :
  let d := (display_open (display_open (new_display default_graphics_limits) demo_window).1 demo_window).1 in
  size d.(windows) = 2%nat /\ N.of_nat (size d.(windows)) <= MAX_WINDOWS.
Proof.
  cbv zeta. split; [vm_compute; reflexivity|].
  apply (@display_stays_bounded demo_externals demo_png (fun _ => Err "no document") default_graphics_limits).
  eapply rtc_l; [apply step_open|]. apply rtc_once, step_open.
Defined.
