(* ===== verification/Audio.v ===== *)
(** * Audio graphs ([crates/cartridge-media/src/audio.rs])

    The offline renderer: validation of a graph, the state of its nodes, one
    sample per node and frame in fixed-point arithmetic, and the WAV encoding.
    An index outside an array is a panic of the source; it is [None] here.  The
    realtime ring buffer follows, its two threads as programs over shared atomic
    cells, and the catalog of devices. *)
From stdpp Require Import pretty.
From S2P Require Import Prelude Text Media.

Definition SAMPLE_RATE : N := 48000.
Definition CHANNELS : N := 2.
Definition MAX_AUDIO_NODES : N := 128.
Definition MAX_AUDIO_EVENTS : N := 65536.
Definition MAX_AUDIO_FRAMES : N := SAMPLE_RATE * 30.
Definition MAX_AUDIO_WORK_UNITS : N := 100000000.
Definition MAX_AUDIO_DOCUMENT_BYTES : N := 4 * 1024 * 1024.
Definition MAX_CAPTURED_AUDIO_RENDERS : N := 64.
Definition MAX_CAPTURED_AUDIO_BYTES : N := 64 * 1024 * 1024.
Definition MAX_DELAY_STORAGE_SAMPLES : N := MAX_AUDIO_FRAMES.
Definition MAX_FREQUENCY_MILLIHZ : Z := 24000000.

Record AudioLimits := mkAudioLimits { max_nodes : N; max_events : N; max_frames : N; max_work_units : N }.
Definition default_audio_limits : AudioLimits :=
  mkAudioLimits MAX_AUDIO_NODES MAX_AUDIO_EVENTS MAX_AUDIO_FRAMES MAX_AUDIO_WORK_UNITS.
Inductive Waveform := Square | Saw | Triangle | Noise.
#[global] Instance waveform_eq_dec : EqDecision Waveform.
Proof. solve_decision. Defined.
Inductive AudioNode :=
| Oscillator (id : N) (waveform : Waveform) (frequency_millihz : N) (level_q15 : Z)
| Gain (id input : N) (gain_q15 : Z)
| LowPass (id input coefficient_q15 : N)
| Delay (id input delay_frames : N) (feedback_q15 : Z) (mix_q15 : N)
| Output (id input : N).
Definition node_id (self : AudioNode) : N :=
  match self with Oscillator id _ _ _ | Gain id _ _ | LowPass id _ _ | Delay id _ _ _ _ | Output id _ => id end.
Definition node_input (self : AudioNode) : option N :=
  match self with
  | Oscillator _ _ _ _ => None
  | Gain _ input _ | LowPass _ input _ | Delay _ input _ _ _ | Output _ input => Some input
  end.
Inductive AudioParameter := FrequencyMillihz | LevelQ15 | GainQ15 | CoefficientQ15 | FeedbackQ15 | MixQ15.
(** [Debug] of a parameter *)
Definition parameter_name (p : AudioParameter) : string :=
  match p with
  | FrequencyMillihz => "FrequencyMillihz" | LevelQ15 => "LevelQ15" | GainQ15 => "GainQ15"
  | CoefficientQ15 => "CoefficientQ15" | FeedbackQ15 => "FeedbackQ15" | MixQ15 => "MixQ15"
  end.
Record ParameterEvent := mkParameterEvent { pe_frame : N; pe_node : N; parameter : AudioParameter; pe_value : Z }.
Record AudioDocument := mkAudioDocument { ad_frames : N; seed : N; nodes : list AudioNode; ad_events : list ParameterEvent }.
Record AudioReceipt := mkAudioReceipt {
  ar_frames : N; ar_sample_rate : N; ar_channels : N; node_count : N; event_count : N;
  pcm_sha256 : string; wav_sha256 : string; peak : Z;
}.
Record AudioRender := mkAudioRender { ar_receipt : AudioReceipt; pcm : list Z; wav : bytes }.

(** ** Fixed-point arithmetic *)
Definition phase_increment (frequency_millihz : N) : N :=
  (N.shiftl frequency_millihz 32 / (SAMPLE_RATE * 1000)) mod 2 ^ 32.
Definition q15 (value factor : Z) : Z := clampZ i32_min i32_max (Z.quot (value * factor) 32768).
Definition clamp_i16 (value : Z) : Z := clampZ i16_min i16_max value.
Definition checked_i16 (value : Z) (name : string) : MediaResult Z :=
  if in_rangeZ i16_min i16_max value then Ok value
  else Err (Invalid (name +:+ " parameter is outside i16 range")).
Definition checked_u15 (value : Z) (name : string) : MediaResult N :=
  if in_rangeZ 0 32767 value then Ok (Z.to_N value)
  else Err (Invalid (name +:+ " parameter is outside q15 range")).

(** ** Validation *)
Definition validate_parameter (node : AudioNode) (event : ParameterEvent) : MediaResult unit :=
  let valid :=
    match node, event.(parameter) with
    | Oscillator _ _ _ _, FrequencyMillihz => in_rangeZ 0 MAX_FREQUENCY_MILLIHZ event.(pe_value)
    | Oscillator _ _ _ _, LevelQ15 | Gain _ _ _, GainQ15 | Delay _ _ _ _ _, FeedbackQ15 =>
        in_rangeZ i16_min i16_max event.(pe_value)
    | LowPass _ _ _, CoefficientQ15 | Delay _ _ _ _ _, MixQ15 => in_rangeZ 0 32767 event.(pe_value)
    | _, _ => false
    end in
  if negb valid
  then Err (Invalid ("parameter " +:+ parameter_name event.(parameter) +:+ " is invalid for node " +:+ pretty event.(pe_node)))
  else Ok tt.
(** The loop over the nodes: [index] is the position, [delay_samples] the sum so
    far. *)
Fixpoint check_audio_nodes (limits : AudioLimits) (index delay_samples : N) (l : list AudioNode) : MediaResult N :=
  match l with
  | [] => Ok delay_samples
  | node :: l =>
      if negb (node_id node =? index) then Err (Invalid "audio node ids must be contiguous and ordered from zero")
      else if is_some_and (fun input => index <=? input) (node_input node)
      then Err (Invalid ("node " +:+ pretty (node_id node) +:+ " input must refer to an earlier node"))
      else
        let? delay_samples :=
          match node with
          | Oscillator _ _ frequency_millihz _ =>
              if SAMPLE_RATE * 500 <? frequency_millihz then Err (Invalid "oscillator frequency exceeds Nyquist")
              else Ok delay_samples
          | Delay _ _ delay_frames _ _ =>
              if (delay_frames =? 0) || (limits.(max_frames) <? delay_frames)
              then Err (Limit "delay length is outside the audio limits")
              else
                let delay_samples := saturating_add u64_max delay_samples delay_frames in
                if MAX_DELAY_STORAGE_SAMPLES <? delay_samples
                then Err (Limit "aggregate delay storage limit exceeded") else Ok delay_samples
          | _ => Ok delay_samples
          end in
        check_audio_nodes limits (index + 1) delay_samples l
  end.
Fixpoint check_audio_events (graph : AudioDocument) (first : bool) (previous : N) (l : list ParameterEvent) : MediaResult unit :=
  match l with
  | [] => Ok tt
  | event :: l =>
      if (graph.(ad_frames) <=? event.(pe_frame)) || (negb first && (event.(pe_frame) <? previous))
      then Err (Invalid "audio events must be ordered and inside the render")
      else
        let? node := ok_or (graph.(nodes) !! N.to_nat event.(pe_node))
                       (Invalid ("audio event refers to unknown node " +:+ pretty event.(pe_node))) in
        let? _ := validate_parameter node event in
        check_audio_events graph false event.(pe_frame) l
  end.
Definition is_output (node : AudioNode) : bool := match node with Output _ _ => true | _ => false end.
Definition validate_audio_graph (graph : AudioDocument) (limits : AudioLimits) : MediaResult unit :=
  if (graph.(ad_frames) =? 0) || (limits.(max_frames) <? graph.(ad_frames)) || (MAX_AUDIO_FRAMES <? graph.(ad_frames))
  then Err (Limit "audio frame limit exceeded")
  else if bool_decide (length graph.(nodes) = 0%nat) || (limits.(max_nodes) <? len graph.(nodes))
          || (MAX_AUDIO_NODES <? len graph.(nodes))
  then Err (Limit "audio node limit exceeded")
  else if (limits.(max_events) <? len graph.(ad_events)) || (MAX_AUDIO_EVENTS <? len graph.(ad_events))
  then Err (Limit "audio event limit exceeded")
  else
    let? work := ok_or (checked_mul u64_max graph.(ad_frames) (len graph.(nodes))) (Limit "audio work estimate overflows") in
    if (limits.(max_work_units) <? work) || (MAX_AUDIO_WORK_UNITS <? work) then Err (Limit "audio work budget exceeded")
    else
      let? _ := check_audio_nodes limits 0 0 graph.(nodes) in
      if negb (is_some_and is_output (last graph.(nodes))) then Err (Invalid "the final audio node must be an output")
      else check_audio_events graph true 0 graph.(ad_events).

(** ** Nodes at work *)
Inductive NodeState :=
| OscillatorState (id : N) (waveform : Waveform) (phase increment : N) (level : Z) (noise : N)
| GainState (id input : N) (gain : Z)
| LowPassState (id input coefficient : N) (previous : Z)
| DelayState (id input : N) (samples : list Z) (cursor : N) (feedback : Z) (mix : N)
| OutputState (id input : N).
Definition state_id (self : NodeState) : N :=
  match self with
  | OscillatorState id _ _ _ _ _ | GainState id _ _ | LowPassState id _ _ _ | DelayState id _ _ _ _ _ | OutputState id _ => id
  end.
Definition new_state (node : AudioNode) (seed : N) : NodeState :=
  match node with
  | Oscillator id waveform frequency_millihz level_q15 =>
      OscillatorState id waveform 0 (phase_increment frequency_millihz) level_q15
        (N.lxor seed ((id * 11400714819323198485) mod 2 ^ 64))
  | Gain id input gain_q15 => GainState id input gain_q15
  | LowPass id input coefficient_q15 => LowPassState id input coefficient_q15 0
  | Delay id input delay_frames feedback_q15 mix_q15 =>
      DelayState id input (replicate (N.to_nat delay_frames) 0%Z) 0 feedback_q15 mix_q15
  | Output id input => OutputState id input
  end.
(** The raw value of an oscillator, and the new state of its noise *)
Definition oscillate (waveform : Waveform) (phase noise : N) : Z * N :=
  let saw := (Z.of_N (N.shiftr phase 16) - 32768)%Z in
  match waveform with
  | Square => (if phase <? 2147483648 then 32767%Z else (-32768)%Z, noise)
  | Saw => (saw, noise)
  | Triangle => ((32767 - Z.abs saw * 2)%Z, noise)
  | Noise =>
      let noise := (noise * 6364136223846793005 + 1442695040888963407) mod 2 ^ 64 in
      ((Z.of_N (N.shiftr noise 48) - 32768)%Z, noise)
  end.
Definition sample (self : NodeState) (values : list Z) : option (NodeState * Z) :=
  match self with
  | OscillatorState id waveform phase increment level noise =>
      let '(raw, noise) := oscillate waveform phase noise in
      Some (OscillatorState id waveform (wrapping_add u32_max phase increment) increment level noise, q15 raw level)
  | GainState _ input gain => v ← values !! N.to_nat input; Some (self, q15 v gain)
  | LowPassState id input coefficient previous =>
      v ← values !! N.to_nat input;
      let previous := saturating_add_i32 previous (q15 (saturating_sub_i32 v previous) (Z.of_N coefficient)) in
      Some (LowPassState id input coefficient previous, previous)
  | DelayState id input samples cursor feedback mix =>
      delayed ← samples !! N.to_nat cursor;
      dry ← values !! N.to_nat input;
      let samples := <[N.to_nat cursor := saturating_add_i32 dry (q15 delayed feedback)]> samples in
      let cursor := (cursor + 1) mod len samples in
      let wet := q15 delayed (Z.of_N mix) in
      let dry_mix := q15 dry (32767 - Z.min (Z.of_N mix) 32767) in
      Some (DelayState id input samples cursor feedback mix, saturating_add_i32 dry_mix wet)
  | OutputState _ input => v ← values !! N.to_nat input; Some (self, v)
  end.
Definition apply_parameter (node : NodeState) (event : ParameterEvent) : MediaResult NodeState :=
  match node, event.(parameter) with
  | OscillatorState id waveform phase increment level noise, FrequencyMillihz =>
      if in_rangeZ 0 MAX_FREQUENCY_MILLIHZ event.(pe_value)
      then Ok (OscillatorState id waveform phase (phase_increment (Z.to_N event.(pe_value))) level noise)
      else Err (Invalid ("parameter FrequencyMillihz is invalid for node " +:+ pretty event.(pe_node)))
  | OscillatorState id waveform phase increment level noise, LevelQ15 =>
      let? level := checked_i16 event.(pe_value) "level" in Ok (OscillatorState id waveform phase increment level noise)
  | GainState id input gain, GainQ15 => let? gain := checked_i16 event.(pe_value) "gain" in Ok (GainState id input gain)
  | LowPassState id input coefficient previous, CoefficientQ15 =>
      let? coefficient := checked_u15 event.(pe_value) "coefficient" in Ok (LowPassState id input coefficient previous)
  | DelayState id input samples cursor feedback mix, FeedbackQ15 =>
      let? feedback := checked_i16 event.(pe_value) "feedback" in Ok (DelayState id input samples cursor feedback mix)
  | DelayState id input samples cursor feedback mix, MixQ15 =>
      let? mix := checked_u15 event.(pe_value) "mix" in Ok (DelayState id input samples cursor feedback mix)
  | _, p => Err (Invalid ("parameter " +:+ parameter_name p +:+ " is invalid for node " +:+ pretty event.(pe_node)))
  end.
(** [iter_mut().find(|node| node.id() == event.node)] and the update *)
Fixpoint apply_audio_event (states : list NodeState) (event : ParameterEvent) : MediaResult (list NodeState) :=
  match states with
  | [] => Err (Invalid "event node disappeared")
  | node :: rest =>
      if state_id node =? event.(pe_node) then let? node := apply_parameter node event in Ok (node :: rest)
      else let? rest := apply_audio_event rest event in Ok (node :: rest)
  end.

(** ** Rendering *)
(** [values[index] = state.sample(&values[..index])] over the nodes *)
Fixpoint sample_nodes (states : list NodeState) (values : list Z) : option (list NodeState * list Z) :=
  match states with
  | [] => Some ([], values)
  | state :: states =>
      '(state, v) ← sample state values;
      '(states, values) ← sample_nodes states (values ++ [v]);
      Some (state :: states, values)
  end.
(** [while graph.events.get(event_index).is_some_and(|event| event.frame == frame)] *)
Fixpoint apply_events_at (frame : N) (states : list NodeState) (events : list ParameterEvent) :
    MediaResult (list NodeState * list ParameterEvent) :=
  match events with
  | event :: rest =>
      if event.(pe_frame) =? frame then
        let? states := apply_audio_event states event in
        apply_events_at frame states rest
      else Ok (states, events)
  | [] => Ok (states, [])
  end.
Definition saturating_abs_i16 (v : Z) : Z := Z.min (Z.abs v) i16_max.
(** The loop over the frames: [remaining] of them from [frame]. *)
Fixpoint render_loop (remaining : nat) (frame : N) (states : list NodeState) (events : list ParameterEvent)
    (peak : Z) (out : list Z) : MediaResult (option (list Z * Z)) :=
  match remaining with
  | O => Ok (Some (out, peak))
  | S remaining =>
      let? (states, events) := apply_events_at frame states events in
      match ('(states, values) ← sample_nodes states []; value ← last values; Some (states, value)) with
      | None => Ok None
      | Some (states, value) =>
          let s := clamp_i16 value in
          render_loop remaining (frame + 1) states events (Z.max peak (saturating_abs_i16 s)) (out ++ [s; s])
      end
  end.

(** ** WAV *)
(** [i16::to_le_bytes]: two's complement *)
Definition i16_bytes (v : Z) : bytes := le_byte_list 2 (Z.to_N (v mod 65536)).
Definition wav_header (data_len riff_len : N) : bytes :=
  as_bytes "RIFF" ++ le_byte_list 4 riff_len ++ as_bytes "WAVEfmt " ++ le_byte_list 4 16 ++ le_byte_list 2 1
  ++ le_byte_list 2 CHANNELS ++ le_byte_list 4 SAMPLE_RATE ++ le_byte_list 4 (SAMPLE_RATE * CHANNELS * 2)
  ++ le_byte_list 2 (CHANNELS * 2) ++ le_byte_list 2 16 ++ as_bytes "data" ++ le_byte_list 4 data_len.
Definition encode_wav (pcm : list Z) (frames : N) : MediaResult bytes :=
  let? pcm_bytes := ok_or (checked_mul usize_max (len pcm) 2) (Limit "wav data length overflows") in
  if u32_max <? pcm_bytes then Err (Limit "wav data exceeds 4 GiB")
  else
    let? riff_len := ok_or (checked_add u32_max 36 pcm_bytes) (Limit "wav length overflows") in
    if negb (bool_decide ((samples ← checked_mul u64_max frames CHANNELS; checked_mul u64_max samples 2) = Some pcm_bytes))
    then Err (Invalid "pcm length does not match frame count")
    else Ok (wav_header pcm_bytes riff_len ++ (pcm ≫= i16_bytes)).

Section Render.
Context `{Ext : Externals} `{DA : !JsonDecode AudioDocument}.
(** The inner [None] is a panic. *)
Definition render_audio (graph : AudioDocument) (limits : AudioLimits) : MediaResult (option AudioRender) :=
  let? _ := validate_audio_graph graph limits in
  let? _ := ok_or (checked_mul usize_max graph.(ad_frames) CHANNELS) (Limit "audio sample count overflows") in
  let states := (fun node => new_state node graph.(seed)) <$> graph.(nodes) in
  let? rendered := render_loop (N.to_nat graph.(ad_frames)) 0 states graph.(ad_events) 0 [] in
  match rendered with
  | None => Ok None
  | Some (pcm, peak) =>
      let? wav := encode_wav pcm graph.(ad_frames) in
      Ok (Some (mkAudioRender
        (mkAudioReceipt graph.(ad_frames) SAMPLE_RATE CHANNELS (len graph.(nodes)) (len graph.(ad_events))
           (hex_sha256 (drop 44 wav)) (hex_sha256 wav) peak) pcm wav))
  end.
Definition render_audio_document (document : bytes) (limits : AudioLimits) : MediaResult (option AudioRender) :=
  if MAX_AUDIO_DOCUMENT_BYTES <? len document
  then Err (Limit ("audio document exceeds " +:+ pretty MAX_AUDIO_DOCUMENT_BYTES +:+ " bytes"))
  else
    let? graph := match from_slice document with Ok graph => Ok graph | Err e => Err (Invalid e) end in
    render_audio graph limits.
End Render.

(** ** Devices *)
Record AudioDevice := mkDevice { dv_id : string; dv_name : string; sample_rate : N; channels : N; is_default : bool }.
Record AudioDeviceCatalog := mkCatalog { devices : list AudioDevice; generation : N }.
Definition headless : AudioDeviceCatalog :=
  mkCatalog [mkDevice "headless" "deterministic offline renderer" SAMPLE_RATE CHANNELS true] 0.
(** [devices.iter().any(..)] with the set of ids seen so far *)
Fixpoint bad_device (ids : gset string) (l : list AudioDevice) : bool :=
  match l with
  | [] => false
  | d :: l =>
      if str_is_empty d.(dv_id) || (256 <? str_len d.(dv_id)) || (256 <? str_len d.(dv_name)) || (d.(sample_rate) =? 0)
         || (d.(channels) =? 0) || bool_decide (d.(dv_id) ∈ ids)
      then true else bad_device ({[d.(dv_id)]} ∪ ids) l
  end.
(** [self.devices] is assigned before the generation is increased. *)
Definition replace_devices (self : AudioDeviceCatalog) (l : list AudioDevice) : AudioDeviceCatalog * MediaResult unit :=
  if (256 <? len l) || (1 <? len (List.filter is_default l)) || bad_device ∅ l
  then (self, Err (Limit "audio device catalog is invalid"))
  else
    let self := mkCatalog l self.(generation) in
    let! next := ok_or (checked_add u64_max self.(generation) 1) (Limit "audio device generation exhausted") on self in
    (mkCatalog l next, Ok tt).
Definition refresh_devices (self : AudioDeviceCatalog) (discover : MediaResult (list AudioDevice)) :
    AudioDeviceCatalog * MediaResult unit :=
  let! l := discover on self in replace_devices self l.
