(* ===== verification/Ring.v ===== *)
(** * The realtime audio buffer ([RealtimeBuffer] of [crates/cartridge-media/src/audio.rs])

    A ring of atomic cells between one thread that pushes samples and the audio
    callback that takes them.  Each thread is a program counter with its local
    variables, and every load, store and update of an atomic cell is one step,
    so that a run is an arbitrary interleaving of the two.  The theorem is that
    the buffer is a bounded first-in first-out queue.

    The cells are sequentially consistent here.  The source pairs the release
    store of an index with an acquire load by the other thread, which is what
    orders a cell's contents with its index. *)
From S2P Require Import Prelude Text Media Audio.

Record RealtimeBuffer := mkRing {
  cells : list Z;
  read : N;
  write : N;
  underruns : N;
  overruns : N;
  peak_fill : N;
}.
Definition is_power_of_two (n : N) : bool := (0 <? n) && (2 ^ N.log2 n =? n).
Definition new_ring (capacity : N) : MediaResult RealtimeBuffer :=
  if (capacity <? 2) || negb (is_power_of_two capacity) || (2 ^ 22 <? capacity)
  then Err (Limit "realtime buffer capacity must be a power of two between 2 and 4194304")
  else Ok (mkRing (replicate (N.to_nat capacity) 0%Z) 0 0 0 0 0).
Definition mask (self : RealtimeBuffer) : N := len self.(cells) - 1.
(** [x.wrapping_add(1) & mask] *)
Definition advance (self : RealtimeBuffer) (x : N) : N := N.land (wrapping_add usize_max x 1) (mask self).
(** [a.wrapping_sub(b) & mask] *)
Definition distance (self : RealtimeBuffer) (a b : N) : N := N.land (wrapping_sub usize_max a b) (mask self).
(** [as i16] of an [i32] *)
Definition as_i16 (v : Z) : Z := ((v + 32768) mod 65536 - 32768)%Z.

(** ** [push] *)
Inductive PushPc :=
| PushDone (written : N)
| PushLoop (rest : list Z) (written : N)
| PushCheck (v : Z) (rest : list Z) (written at_ : N)
| PushOverrun (written : N)
| PushCell (v : Z) (rest : list Z) (written at_ next : N)
| PushPublish (v : Z) (rest : list Z) (written next : N)
| PushFill (rest : list Z) (written next : N)
| PushPeak (rest : list Z) (written fill : N)
| PushPanic.
(** ** [fill_callback] *)
Inductive FillPc :=
| FillDone (out : list Z)
| FillLoop (n : nat) (out : list Z)
| FillCheck (n : nat) (out : list Z) (at_ : N)
| FillUnderrun (n : nat) (out : list Z)
| FillLoad (n : nat) (out : list Z) (at_ : N)
| FillAdvance (n : nat) (out : list Z) (at_ : N)
| FillPanic.
(** What the other side can tell: a sample was published, a sample was taken. *)
Inductive Label := Silent | Pushed (v : Z) | Popped (v : Z).

Definition set_write (b : RealtimeBuffer) (w : N) : RealtimeBuffer :=
  mkRing b.(cells) b.(read) w b.(underruns) b.(overruns) b.(peak_fill).
Definition set_read (b : RealtimeBuffer) (r : N) : RealtimeBuffer :=
  mkRing b.(cells) r b.(write) b.(underruns) b.(overruns) b.(peak_fill).
Definition set_cell (b : RealtimeBuffer) (i : N) (v : Z) : RealtimeBuffer :=
  mkRing (<[N.to_nat i := v]> b.(cells)) b.(read) b.(write) b.(underruns) b.(overruns) b.(peak_fill).
Definition add_underrun (b : RealtimeBuffer) : RealtimeBuffer :=
  mkRing b.(cells) b.(read) b.(write) (wrapping_add u64_max b.(underruns) 1) b.(overruns) b.(peak_fill).
Definition add_overrun (b : RealtimeBuffer) : RealtimeBuffer :=
  mkRing b.(cells) b.(read) b.(write) b.(underruns) (wrapping_add u64_max b.(overruns) 1) b.(peak_fill).
Definition raise_peak (b : RealtimeBuffer) (fill : N) : RealtimeBuffer :=
  mkRing b.(cells) b.(read) b.(write) b.(underruns) b.(overruns) (N.max b.(peak_fill) fill).

Definition push_step (b : RealtimeBuffer) (pc : PushPc) : RealtimeBuffer * PushPc * Label :=
  match pc with
  | PushDone _ | PushPanic => (b, pc, Silent)
  | PushLoop [] written => (b, PushDone written, Silent)
  | PushLoop (v :: rest) written => (b, PushCheck v rest written b.(write), Silent)
  | PushCheck v rest written at_ =>
      let next := advance b at_ in
      if next =? b.(read) then (b, PushOverrun written, Silent) else (b, PushCell v rest written at_ next, Silent)
  | PushOverrun written => (add_overrun b, PushDone written, Silent)
  | PushCell v rest written at_ next =>
      if at_ <? len b.(cells) then (set_cell b at_ v, PushPublish v rest written next, Silent)
      else (b, PushPanic, Silent)
  | PushPublish v rest written next => (set_write b next, PushFill rest (written + 1) next, Pushed v)
  | PushFill rest written next => (b, PushPeak rest written (distance b next b.(read)), Silent)
  | PushPeak rest written fill => (raise_peak b fill, PushLoop rest written, Silent)
  end.
Definition fill_step (b : RealtimeBuffer) (pc : FillPc) : RealtimeBuffer * FillPc * Label :=
  match pc with
  | FillDone _ | FillPanic => (b, pc, Silent)
  | FillLoop O out => (b, FillDone out, Silent)
  | FillLoop (S n) out => (b, FillCheck n out b.(read), Silent)
  | FillCheck n out at_ =>
      if at_ =? b.(write) then (b, FillUnderrun n (out ++ [0%Z]), Silent) else (b, FillLoad n out at_, Silent)
  | FillUnderrun n out => (add_underrun b, FillLoop n out, Silent)
  | FillLoad n out at_ =>
      match b.(cells) !! N.to_nat at_ with
      | Some v => (b, FillAdvance n (out ++ [as_i16 v]) at_, Popped (as_i16 v))
      | None => (b, FillPanic, Silent)
      end
  | FillAdvance n out at_ => (set_read b (advance b at_), FillLoop n out, Silent)
  end.

Record AudioTelemetry := mkTelemetry {
  tm_underruns : N; tm_overruns : N; fill_samples : N; peak_fill_samples : N; capacity_samples : N;
  estimated_latency_micros : N;
}.
Definition telemetry (self : RealtimeBuffer) : AudioTelemetry :=
  let fill := distance self self.(write) self.(read) in
  mkTelemetry self.(underruns) self.(overruns) fill self.(peak_fill) (len self.(cells) - 1)
    (saturating_mul u64_max fill 1000000 / (SAMPLE_RATE * CHANNELS)).

(** ** Runs *)
Record System := mkSystem { ring : RealtimeBuffer; producer : PushPc; consumer : FillPc }.
Definition start (b : RealtimeBuffer) : System := mkSystem b (PushDone 0) (FillDone []).
(** A thread between two calls may begin another one; otherwise either moves. *)
Inductive system_step : System -> Label -> System -> Prop :=
| begin_push b w c samples : Forall is_i16 samples ->
    system_step (mkSystem b (PushDone w) c) Silent (mkSystem b (PushLoop samples 0) c)
| begin_fill b p out n : system_step (mkSystem b p (FillDone out)) Silent (mkSystem b p (FillLoop n []))
| push_moves b p c b' p' l : push_step b p = (b', p', l) -> system_step (mkSystem b p c) l (mkSystem b' p' c)
| fill_moves b p c b' c' l : fill_step b c = (b', c', l) -> system_step (mkSystem b p c) l (mkSystem b' p c').
Inductive system_run : System -> list Label -> System -> Prop :=
| run_nil s : system_run s [] s
| run_snoc s tr s' l s'' : system_run s tr s' -> system_step s' l s'' -> system_run s (tr ++ [l]) s''.
Definition pushed_of (l : Label) : option Z := match l with Pushed v => Some v | _ => None end.
Definition popped_of (l : Label) : option Z := match l with Popped v => Some v | _ => None end.
Definition pushed (tr : list Label) : list Z := omap pushed_of tr.
Definition popped (tr : list Label) : list Z := omap popped_of tr.

(** ** Indices *)
Definition capacity_ok (c : N) : Prop := 2 <= c /\ c <= 2 ^ 22 /\ exists k, c = 2 ^ k.
Lemma new_ring_ok (capacity : N) b :
  new_ring capacity = Ok b -> capacity_ok capacity /\ b = mkRing (replicate (N.to_nat capacity) 0%Z) 0 0 0 0 0.
Proof.
  unfold new_ring. pass H. intros [= <-]. split; [|done]. split_guard.
  unfold is_power_of_two in *. bprop. split_and!; [lia|lia|]. exists (N.log2 capacity). done.
Qed.
Lemma land_mask (c x : N) : capacity_ok c -> N.land x (c - 1) = x mod c.
Proof.
  intros (_ & _ & k & ->). rewrite <- N.land_ones, N.ones_equiv. by rewrite <- N.sub_1_r.
Qed.

(** The index of the [i]-th sample of the run, and its successor. *)
Lemma advance_mod (b : RealtimeBuffer) (i : N) :
  capacity_ok (len b.(cells)) -> advance b (i mod len b.(cells)) = (i + 1) mod len b.(cells).
Proof.
  intros Hc. unfold advance, mask. rewrite land_mask by done. pose proof Hc as (H2 & H22 & _).
  assert (i mod len (cells b) < len (cells b)) as Hm by (apply N.mod_lt; lia).
  assert (2 ^ 22 = 4194304) as E by done.
  rewrite wrapping_add_small by (unfold usize_max, u64_max; lia).
  by rewrite N.Div0.add_mod_idemp_l.
Qed.
Lemma mod_apart (c i j : N) : 0 < c -> i < j -> j < i + c -> i mod c <> j mod c.
Proof.
  intros Hc Hij Hj E. pose proof (N.div_mod i c ltac:(lia)) as Hi. pose proof (N.div_mod j c ltac:(lia)) as Hk.
  rewrite E in Hi. set (r := j mod c) in *. set (p := i / c) in *. set (q := j / c) in *.
  assert (c * p < c * q < c * p + c) as [H1 H2] by lia.
  apply N.mul_lt_mono_pos_l in H1; [|done]. replace (c * p + c) with (c * (p + 1)) in H2 by lia.
  apply N.mul_lt_mono_pos_l in H2; [|done]. lia.
Qed.
Lemma as_i16_id (v : Z) : is_i16 v -> as_i16 v = v.
Proof. unfold is_i16, i16_min, i16_max, as_i16. intros. rewrite Z.mod_small by lia. lia. Qed.

(** ** The invariant

    [hist] are the samples published so far, [taken] the ones the callback took,
    and [r] counts the ones whose cell is free again. *)
Definition producer_ok (cap : N) (cs : list Z) (r : N) (hist : list Z) (p : PushPc) : Prop :=
  match p with
  | PushDone _ | PushOverrun _ => True
  | PushLoop rest _ | PushFill rest _ _ | PushPeak rest _ _ => Forall is_i16 rest
  | PushCheck v rest _ at_ => Forall is_i16 (v :: rest) /\ at_ = len hist mod cap
  | PushCell v rest _ at_ next =>
      Forall is_i16 (v :: rest) /\ at_ = len hist mod cap /\ next = (len hist + 1) mod cap /\ len hist + 1 < r + cap
  | PushPublish v rest _ next =>
      Forall is_i16 (v :: rest) /\ next = (len hist + 1) mod cap /\ len hist + 1 < r + cap
      /\ cs !! N.to_nat (len hist mod cap) = Some v
  | PushPanic => False
  end.
Definition consumer_ok (cap r : N) (hist taken : list Z) (c : FillPc) : Prop :=
  match c with
  | FillDone _ | FillLoop _ _ | FillUnderrun _ _ => taken = take (N.to_nat r) hist
  | FillCheck _ _ at_ => taken = take (N.to_nat r) hist /\ at_ = r mod cap
  | FillLoad _ _ at_ => taken = take (N.to_nat r) hist /\ at_ = r mod cap /\ r < len hist
  | FillAdvance _ _ at_ => taken = take (N.to_nat (r + 1)) hist /\ at_ = r mod cap /\ r < len hist
  | FillPanic => False
  end.
Record ring_inv (cap r : N) (hist taken : list Z) (s : System) : Prop := {
  ri_cap : capacity_ok cap;
  ri_cells : len s.(ring).(cells) = cap;
  ri_samples : Forall is_i16 hist;
  ri_read : s.(ring).(read) = r mod cap;
  ri_write : s.(ring).(write) = len hist mod cap;
  ri_bounds : r <= len hist < r + cap;
  ri_content : forall i, r <= i < len hist -> s.(ring).(cells) !! N.to_nat (i mod cap) = hist !! N.to_nat i;
  ri_producer : producer_ok cap s.(ring).(cells) r hist s.(producer);
  ri_consumer : consumer_ok cap r hist taken s.(consumer);
}.

Lemma mod_in (cap i : N) (cs : list Z) : capacity_ok cap -> len cs = cap -> (N.to_nat (i mod cap) < length cs)%nat.
Proof. intros (? & _) <-. pose proof (N.mod_lt i (len cs) ltac:(lia)). unfold len in *. lia. Qed.

Lemma push_step_inv cap r hist taken b p c b' p' l :
  ring_inv cap r hist taken (mkSystem b p c) -> push_step b p = (b', p', l) ->
  ring_inv cap r (hist ++ omap pushed_of [l]) (taken ++ omap popped_of [l]) (mkSystem b' p' c).
Proof.
  intros Hinv Hstep. pose proof Hinv as [Hc Hl Hs Hr Hw Hb Hcont Hp Hco]. cbn in *. pose proof Hc as (H2 & _ & _).
  destruct p as [w|[|v rest] w|v rest w at_|w|v rest w at_ next|v rest w next|rest w next|rest w fill|]; cbn in Hstep, Hp;
    try (injection Hstep as <- <- <-; cbn [omap list_omap pushed_of popped_of]; rewrite !app_nil_r; by split).
  - destruct Hp as [Hf ->]. rewrite <- Hl, advance_mod, Hl in Hstep by (by rewrite Hl).
    destruct (N.eqb_spec ((len hist + 1) mod cap) (read b)) as [Heq|Hne];
      injection Hstep as <- <- <-; cbn [omap list_omap pushed_of popped_of]; rewrite !app_nil_r; [by split|].
    split; try done. cbn. split_and!; try done. rewrite Hr in Hne.
    destruct (N.eq_dec (len hist + 1) (r + cap)) as [E|]; [|lia].
    destruct Hne. rewrite E. replace (r + cap) with (r + 1 * cap) by lia. apply N.Div0.mod_add.
  - destruct Hp as (Hf & -> & -> & Hroom). pose proof (mod_in cap (len hist) (cells b) Hc Hl) as Hin.
    destruct (N.ltb_spec (len hist mod cap) (len (cells b))) as [_|Hge]; [|clear -Hin Hge; unfold len in Hin, Hge; lia].
    injection Hstep as <- <- <-. cbn [omap list_omap pushed_of popped_of]. rewrite !app_nil_r. split; try done; cbn.
    + unfold len. by rewrite length_insert.
    + intros i Hi. rewrite list_lookup_insert_ne; [by apply Hcont|].
      pose proof (mod_apart cap i (len hist) ltac:(lia) ltac:(lia) ltac:(lia)). lia.
    + split_and!; try done. by apply list_lookup_insert_eq.
  - destruct Hp as (Hf & -> & Hroom & Hcell). injection Hstep as <- <- <-. cbn [omap list_omap pushed_of popped_of].
    rewrite app_nil_r. apply Forall_cons in Hf as [Hv Hf].
    assert (len (hist ++ [v]) = len hist + 1) as Hlen by (unfold len; rewrite length_app; cbn; lia).
    split; cbn; rewrite ?Hlen; try done.
    + apply Forall_app_2; [done|by constructor].
    + lia.
    + intros i Hi. destruct (N.eq_dec i (len hist)) as [->|].
      * rewrite Hcell. unfold len. by rewrite Nat2N.id, list_lookup_middle.
      * rewrite lookup_app_l by (unfold len in *; lia). apply Hcont. lia.
    + destruct c; cbn in Hco |- *; try done; rewrite ?Hlen; destruct_and?; subst;
        rewrite ?take_app_le by (unfold len in *; lia); split_and?; (done || lia).
Qed.

Lemma fill_step_inv cap r hist taken b p c b' c' l :
  ring_inv cap r hist taken (mkSystem b p c) -> fill_step b c = (b', c', l) ->
  exists r', ring_inv cap r' (hist ++ omap pushed_of [l]) (taken ++ omap popped_of [l]) (mkSystem b' p c').
Proof.
  intros Hinv Hstep. pose proof Hinv as [Hc Hl Hs Hr Hw Hb Hcont Hp Hco]. cbn in *. pose proof Hc as (H2 & _ & _).
  destruct c as [out|[|n] out|n out at_|n out|n out at_|n out at_|]; cbn in Hstep, Hco;
    try (injection Hstep as <- <- <-; exists r; cbn [omap list_omap pushed_of popped_of]; rewrite !app_nil_r; by split).
  - destruct Hco as [-> ->]. exists r. destruct (N.eqb_spec (r mod cap) (write b)) as [Heq|Hne];
      injection Hstep as <- <- <-; cbn [omap list_omap pushed_of popped_of]; rewrite !app_nil_r; [by split|].
    split; try done. cbn. split_and!; try done. destruct (N.eq_dec r (len hist)) as [->|]; [by destruct Hne|lia].
  - destruct Hco as (-> & -> & Hlt). exists r.
    assert (is_Some (hist !! N.to_nat r)) as [v Hv] by (apply lookup_lt_is_Some_2; unfold len in Hlt; lia).
    rewrite Hcont, Hv in Hstep by lia.
    assert (is_i16 v) as Hi by (eapply Forall_lookup_1; eassumption). rewrite as_i16_id in Hstep by done.
    injection Hstep as <- <- <-. cbn [omap list_omap pushed_of popped_of]. rewrite app_nil_r. split; try done. cbn.
    split_and!; try done. rewrite <- take_S_r by done. f_equal. lia.
  - destruct Hco as (-> & -> & Hlt). exists (r + 1). rewrite <- Hl, advance_mod, Hl in Hstep by (by rewrite Hl).
    injection Hstep as <- <- <-. cbn [omap list_omap pushed_of popped_of]. rewrite !app_nil_r. split; try done; cbn; try lia.
    + intros i Hi. apply Hcont. lia.
    + destruct p; cbn in Hp |- *; naive_solver lia.
Qed.

Lemma system_run_inv b tr s :
  system_run (start b) tr s -> (exists capacity, new_ring capacity = Ok b) ->
  exists r, ring_inv (len b.(cells)) r (pushed tr) (popped tr) s.
Proof.
  intros Hrun [capacity Hnew]. apply new_ring_ok in Hnew as [Hc ->].
  assert (len (cells (mkRing (replicate (N.to_nat capacity) 0%Z) 0 0 0 0 0)) = capacity) as Hcap
    by (unfold len; cbn; rewrite length_replicate; lia).
  remember (start _) as s0 eqn:Hs0. induction Hrun as [s|s tr s' l s'' _ IH Hstep]; subst.
  - exists 0. pose proof Hc as (? & _). rewrite Hcap. split; cbn; try done; [by rewrite N.Div0.mod_0_l..|change (0 <= 0 < 0 + capacity); lia|].
    intros i [? Hi]. unfold len in Hi. cbn in Hi. lia.
  - destruct (IH eq_refl) as [r Hinv]. unfold pushed, popped. rewrite !omap_app. fold (pushed tr) (popped tr).
    destruct Hstep as [b w c samples Hf|b p out n|b p c b' p' l Hm|b p c b' c' l Hm].
    + exists r. cbn [omap list_omap pushed_of popped_of]. rewrite !app_nil_r. by destruct Hinv; split.
    + exists r. cbn [omap list_omap pushed_of popped_of]. rewrite !app_nil_r. by destruct Hinv; split.
    + exists r. by eapply push_step_inv.
    + by eapply fill_step_inv.
Qed.

(** The difference of two indices is the number of samples between them. *)
Lemma distance_mod (b : RealtimeBuffer) (i j : N) :
  capacity_ok (len b.(cells)) -> j <= i < j + len b.(cells) ->
  distance b (i mod len b.(cells)) (j mod len b.(cells)) = i - j.
Proof.
  set (c := len (cells b)). intros Hc Hij. pose proof Hc as (H2 & H22 & k & Hk). unfold distance, mask. fold c.
  rewrite land_mask by done. change (2 ^ 22) with 4194304 in H22.
  pose proof (N.div_mod i c ltac:(lia)) as Hi. pose proof (N.div_mod j c ltac:(lia)) as Hj.
  pose proof (N.mod_lt i c ltac:(lia)) as Hri. pose proof (N.mod_lt j c ltac:(lia)) as Hrj.
  set (a := i mod c) in *. set (e := j mod c) in *. set (p := i / c) in *. set (q := j / c) in *.
  unfold wrapping_sub. destruct (N.le_gt_cases e a) as [Hle|Hgt].
  - replace (a + (usize_max + 1) - e) with (a - e + 1 * (usize_max + 1)) by (unfold usize_max, u64_max; lia).
    rewrite N.Div0.mod_add, (N.mod_small (a - e)) by (unfold usize_max, u64_max; lia). rewrite N.mod_small by lia.
    assert (p = q) by nia. lia.
  - rewrite (N.mod_small (a + _ - e)) by (unfold usize_max, u64_max; lia).
    assert (exists m, usize_max + 1 = c * m /\ 1 <= m) as (m & Hm & H1).
    { exists (2 ^ (64 - k)). rewrite Hk, <- N.pow_add_r.
      assert (k <= 22) as Hk22 by (apply (N.pow_le_mono_r_iff 2); [lia|]; rewrite <- Hk; exact H22).
      replace (k + (64 - k)) with 64 by lia. split; [done|]. pose proof (N.pow_nonzero 2 (64 - k)). lia. }
    rewrite Hm. replace (a + c * m - e) with (a + c - e + (m - 1) * c) by nia.
    rewrite N.Div0.mod_add, N.mod_small by lia. assert (p = q + 1) by nia. nia.
Qed.

(** C31: however the pushing thread and the audio callback interleave, the
    callback takes the pushed samples in order, each once and none invented; no
    more than the capacity less one are under way; neither thread indexes
    outside the ring; and between calls the telemetry reports exactly the
    samples under way. *)
Theorem ring_is_fifo (capacity : N) b tr s :
  new_ring capacity = Ok b -> system_run (start b) tr s ->
  (exists waiting, pushed tr = popped tr ++ waiting /\ len waiting <= capacity - 1
     /\ (forall w out, s.(producer) = PushDone w -> s.(consumer) = FillDone out ->
           fill_samples (telemetry s.(ring)) = len waiting))
  /\ s.(producer) <> PushPanic /\ s.(consumer) <> FillPanic.
Proof.
  intros Hnew Hrun. pose proof Hnew as Hok. apply new_ring_ok in Hok as [_ Hb0].
  destruct (system_run_inv b tr s Hrun ltac:(eauto)) as [r [Hc Hl Hs Hr Hw Hb _ Hp Hco]].
  assert (len (cells b) = capacity) as Hcap by (subst b; unfold len; cbn; rewrite length_replicate; lia).
  rewrite Hcap in *. split; [|split; [by intros E; rewrite E in Hp|by intros E; rewrite E in Hco]].
  assert (exists k, popped tr = take (N.to_nat k) (pushed tr) /\ r <= k /\ k <= len (pushed tr)
          /\ ((exists out, consumer s = FillDone out) -> k = r)) as (k & Hk & Hrk & Hkl & Hdone).
  { destruct (consumer s); cbn in Hco; destruct_and?; try done; subst;
      first [exists r; split_and!; [done|lia|lia|done] | exists (r + 1); split_and!; [done|lia|lia|by intros [? [=]]]]. }
  exists (drop (N.to_nat k) (pushed tr)). rewrite Hk. split_and!.
  - by rewrite take_drop.
  - unfold len in *. rewrite length_drop. lia.
  - intros w out Hpd Hcd. rewrite Hdone in * by eauto. unfold telemetry. cbn [fill_samples]. rewrite Hw, Hr, <- Hl.
    rewrite distance_mod by (rewrite Hl; done). unfold len in *. rewrite length_drop. lia.
Qed.

(** ** At a concrete run *)
Fixpoint demo_turns (b : RealtimeBuffer) (p : PushPc) (c : FillPc) (turns : list bool) : list Label * System :=
  match turns with
  | [] => ([], mkSystem b p c)
  | true :: turns => let '(b, p, l) := push_step b p in let '(tr, s) := demo_turns b p c turns in (l :: tr, s)
  | false :: turns => let '(b, c, l) := fill_step b c in let '(tr, s) := demo_turns b p c turns in (l :: tr, s)
  end.
Lemma demo_turns_run s0 tr0 b p c turns tr s :
  system_run s0 tr0 (mkSystem b p c) -> demo_turns b p c turns = (tr, s) -> system_run s0 (tr0 ++ tr) s.
Proof.
  revert tr0 b p c tr. induction turns as [|[] turns IH]; intros tr0 b p c tr Hr; cbn [demo_turns].
  - intros [= <- <-]. by rewrite app_nil_r.
  - destruct (push_step b p) as [[b' p'] l] eqn:Hs. destruct (demo_turns b' p' c turns) as [tr' s'] eqn:Ht.
    intros [= <- <-]. rewrite cons_middle, app_assoc. eapply IH; [|exact Ht]. eapply run_snoc; [exact Hr|]. by constructor.
  - destruct (fill_step b c) as [[b' c'] l] eqn:Hs. destruct (demo_turns b' p c' turns) as [tr' s'] eqn:Ht.
    intros [= <- <-]. rewrite cons_middle, app_assoc. eapply IH; [|exact Ht]. eapply run_snoc; [exact Hr|]. by constructor.
Qed.
Definition demo_ring : RealtimeBuffer := mkRing (replicate 4 0%Z) 0 0 0 0 0.
(** A push of four samples into room for three, with the callback in between. *)
Definition demo_schedule : list bool :=
  replicate 8 true ++ replicate 5 false ++ replicate 20 true ++ replicate 5 false.
Lemma ring_is_fifo_witness : exists tr s,
  system_run (start demo_ring) tr s /\ pushed tr = [5; -6; 7; 8]%Z /\ popped tr = [5; -6]%Z
  /\ exists waiting, pushed tr = popped tr ++ waiting /\ len waiting <= 4 - 1.
Proof.
  destruct (demo_turns demo_ring (PushLoop [5; -6; 7; 8]%Z 0) (FillLoop 3 []) demo_schedule) as [tr s] eqn:Ht.
  assert (system_run (start demo_ring) ([Silent; Silent] ++ tr) s) as Hrun.
  { eapply demo_turns_run; [|exact Ht]. eapply (run_snoc _ [Silent]).
    - eapply (run_snoc _ []); [constructor|]. apply (begin_push _ _ _ [5; -6; 7; 8]%Z).
      repeat constructor; unfold is_i16, i16_min, i16_max; lia.
    - apply begin_fill. }
  exists ([Silent; Silent] ++ tr), s. split; [exact Hrun|].
  destruct (ring_is_fifo 4 demo_ring _ s eq_refl Hrun) as [(waiting & Hw & Hle & _) _].
  vm_compute in Ht. injection Ht as <- _. split; [reflexivity|]. split; [reflexivity|]. exists waiting. by split.
Defined.
