(* ===== verification/AudioTheorems.v ===== *)
(** * Theorems about the audio renderer

    A graph that passes validation always renders: no index leaves its array, no
    event is refused, every sample is 16 bits wide, and the WAV file holds
    exactly the samples it announces. *)
From S2P Require Import Prelude Text Media Audio.

(** ** Validated graphs *)
(** The state [st] belongs to [node] at position [index], and reads only earlier
    values. *)
Definition fits (index : N) (node : AudioNode) (st : NodeState) : Prop :=
  match node, st with
  | Oscillator _ _ _ _, OscillatorState id _ _ _ _ _ => id = index
  | Gain _ _ _, GainState id input _ | LowPass _ _ _, LowPassState id input _ _ | Output _ _, OutputState id input =>
      id = index /\ input < index
  | Delay _ _ _ _ _, DelayState id input samples cursor _ _ => id = index /\ input < index /\ cursor < len samples
  | _, _ => False
  end.
Inductive all_fit : N -> list AudioNode -> list NodeState -> Prop :=
| fit_nil index : all_fit index [] []
| fit_cons index node st nodes states :
    fits index node st -> all_fit (index + 1) nodes states -> all_fit index (node :: nodes) (st :: states).
#[local] Hint Constructors all_fit : core.

Lemma check_audio_nodes_fit limits index delay l n seed :
  check_audio_nodes limits index delay l = Ok n -> all_fit index l ((fun node => new_state node seed) <$> l).
Proof.
  revert index delay. induction l as [|node l IH]; intros index delay; cbn [check_audio_nodes]; [by constructor|].
  pass Hid. pass Hin. bprop. succeed d Hd. intros Hl%IH. rewrite fmap_cons. constructor; [|done].
  destruct node as [id w f lv|id i g|id i c|id i d' f m|id i]; cbn in *; bprop; try (split; [done|lia]); [done|].
  split_and!; [done|lia|]. revert Hd. pass Hz. intros _. split_guard. unfold len. rewrite length_replicate. lia.
Qed.

Lemma all_fit_lookup index nodes states i node :
  all_fit index nodes states -> nodes !! i = Some node ->
  exists st, states !! i = Some st /\ fits (index + N.of_nat i) node st.
Proof.
  intros Hf. revert i. induction Hf as [|index n st nodes states Hn _ IH]; intros [|i]; cbn; try done.
  - intros [= <-]. exists st. split; [done|]. by rewrite N.add_0_r.
  - intros (st' & ? & Hst)%IH. exists st'. split; [done|]. by replace (index + N.of_nat (S i)) with (index + 1 + N.of_nat i) by lia.
Qed.
Lemma all_fit_length index nodes states : all_fit index nodes states -> length nodes = length states.
Proof. induction 1; cbn; congruence. Qed.
Lemma fits_id index node st : fits index node st -> state_id st = index.
Proof. destruct node, st; cbn; naive_solver. Qed.

(** ** One frame *)
Lemma clamp_i32 (v : Z) : is_i32 (clampZ i32_min i32_max v).
Proof. apply clampZ_bounds. unfold i32_min, i32_max. lia. Qed.
Lemma q15_i32 (v f : Z) : is_i32 (q15 v f).
Proof. apply clamp_i32. Qed.
#[local] Hint Resolve clamp_i32 q15_i32 : core.

Lemma sample_ok index node st values :
  fits index node st -> len values = index -> Forall is_i32 values ->
  exists st' v, sample st values = Some (st', v) /\ fits index node st' /\ is_i32 v.
Proof.
  intros Hf Hl Hv.
  assert (forall input, input < index -> exists v, values !! N.to_nat input = Some v /\ is_i32 v) as Hin.
  { intros input Hi. destruct (lookup_lt_is_Some_2 values (N.to_nat input)) as [v Hlv]; [unfold len in Hl; lia|].
    exists v. split; [done|]. by eapply Forall_lookup_1. }
  destruct node as [id w f lv|id i g|id i c|id i d f m|id i], st as [id' w' ph inc lv' no|id' i' g'|id' i' c' pr|id' i' ss cu fb mx|id' i'];
    cbn in Hf; try done; cbn [sample].
  - destruct (oscillate w' ph no) as [raw no']. eexists _, _. split_and!; [done..|auto].
  - destruct Hf as [-> Hi]. destruct (Hin _ Hi) as (v & -> & ?). cbn. eexists _, _. split_and!; [done..|auto].
  - destruct Hf as [-> Hi]. destruct (Hin _ Hi) as (v & -> & ?). cbn. eexists _, _. split_and!; [done..|].
    unfold saturating_add_i32. auto.
  - destruct Hf as (-> & Hi & Hc). destruct (Hin _ Hi) as (v & -> & ?).
    destruct (lookup_lt_is_Some_2 ss (N.to_nat cu)) as [dl ->]; [unfold len in Hc; lia|]. cbn.
    eexists _, _. split_and!; [done..| |unfold saturating_add_i32; auto].
    unfold len in *. rewrite length_insert. split_and!; [done|done|]. apply N.mod_lt. lia.
  - destruct Hf as [-> Hi]. destruct (Hin _ Hi) as (v & -> & ?). cbn. eexists _, _. split_and!; [done..|auto].
Qed.

Lemma sample_nodes_ok index nodes states values :
  all_fit index nodes states -> len values = index -> Forall is_i32 values ->
  exists states' values', sample_nodes states values = Some (states', values') /\ all_fit index nodes states'
    /\ length values' = (length values + length nodes)%nat /\ Forall is_i32 values'.
Proof.
  intros Hf. revert values. induction Hf as [index|index node st nodes states Hn _ IH]; intros values Hl Hv; cbn [sample_nodes].
  - eexists _, _. split_and!; [done|by constructor|cbn; lia|done].
  - destruct (sample_ok _ _ _ _ Hn Hl Hv) as (st' & v & -> & Hst & Hi). cbn.
    destruct (IH (values ++ [v])) as (states' & values' & -> & Hs & Hlen & Hi32).
    { unfold len in *. rewrite length_app. cbn. lia. }
    { apply Forall_app_2; [done|by constructor]. }
    cbn. eexists _, _. split_and!; [done|by constructor|rewrite Hlen, length_app; cbn; lia|done].
Qed.

(** ** Events *)
Definition event_ok (nodes : list AudioNode) (e : ParameterEvent) : Prop :=
  exists node, nodes !! N.to_nat e.(pe_node) = Some node /\ validate_parameter node e = Ok tt.

Lemma check_audio_events_ok graph first previous l :
  check_audio_events graph first previous l = Ok tt -> Forall (event_ok graph.(nodes)) l.
Proof.
  revert first previous. induction l as [|e l IH]; intros first previous; cbn [check_audio_events]; [constructor|].
  pass He. unfold ok_or. destruct (nodes graph !! N.to_nat (pe_node e)) as [node|] eqn:Hn; [|done].
  succeed u Hu. destruct u. intros Hl%IH. constructor; [|done]. by exists node.
Qed.

Lemma apply_parameter_ok index node st e :
  fits index node st -> validate_parameter node e = Ok tt ->
  exists st', apply_parameter st e = Ok st' /\ fits index node st'.
Proof.
  intros Hf. unfold validate_parameter. cbv zeta.
  destruct node, st; cbn in Hf; try done; unfold apply_parameter, checked_i16, checked_u15;
    destruct (parameter e); cbn [negb]; try done; destruct (in_rangeZ _ _ _) eqn:Hr; cbn [negb]; try done;
    intros _; eexists; (split; [reflexivity|done]).
Qed.

Lemma apply_event_ok index nodes states e node :
  all_fit index nodes states -> index <= e.(pe_node) -> nodes !! N.to_nat (e.(pe_node) - index) = Some node ->
  validate_parameter node e = Ok tt ->
  exists states', apply_audio_event states e = Ok states' /\ all_fit index nodes states'.
Proof.
  intros Hf. induction Hf as [index|index n st nodes states Hn Hrest IH]; intros Hi Hlook Hv; cbn [apply_audio_event]; [done|].
  pose proof (fits_id _ _ _ Hn) as ->. destruct (N.eqb_spec index (pe_node e)) as [E|Hne].
  - rewrite E, N.sub_diag in Hlook. injection Hlook as ->.
    destruct (apply_parameter_ok _ _ _ _ Hn Hv) as (st' & -> & ?). eauto.
  - replace (N.to_nat (pe_node e - index)) with (S (N.to_nat (pe_node e - (index + 1)))) in Hlook by lia.
    destruct IH as (states' & -> & ?); [lia|done|done|]. eauto.
Qed.

Lemma apply_events_at_ok frame nodes states l :
  all_fit 0 nodes states -> Forall (event_ok nodes) l ->
  exists states' l', apply_events_at frame states l = Ok (states', l') /\ all_fit 0 nodes states' /\ Forall (event_ok nodes) l'.
Proof.
  revert states. induction l as [|e l IH]; intros states Hf Hl; cbn [apply_events_at]; [eauto|].
  apply Forall_cons in Hl as Hl'. destruct Hl' as [(node & Hn & Hv) Hrest].
  destruct (pe_frame e =? frame); [|eauto 6].
  destruct (apply_event_ok 0 nodes states e node) as (states' & -> & Hf'); [done|lia|by rewrite N.sub_0_r|done|]. auto.
Qed.

(** ** The whole render *)
Definition loud_at_most (peak : Z) (s : Z) : Prop := is_i16 s /\ (saturating_abs_i16 s <= peak)%Z.

Lemma render_loop_ok nodes remaining frame states l peak out :
  nodes <> [] -> all_fit 0 nodes states -> Forall (event_ok nodes) l -> Forall (loud_at_most peak) out -> (0 <= peak <= i16_max)%Z ->
  exists pcm peak', render_loop remaining frame states l peak out = Ok (Some (pcm, peak'))
    /\ length pcm = (length out + 2 * remaining)%nat /\ Forall (loud_at_most peak') pcm /\ (0 <= peak' <= i16_max)%Z.
Proof.
  intros Hne. revert frame states l peak out. induction remaining as [|n IH]; intros frame states l peak out Hf Hl Ho Hp; cbn [render_loop].
  - eexists _, _. split_and!; [done|lia|done|lia..].
  - destruct (apply_events_at_ok frame nodes states l Hf Hl) as (states1 & l1 & -> & Hf1 & Hl1).
    destruct (sample_nodes_ok 0 nodes states1 [] Hf1 eq_refl (Forall_nil_2 _)) as (states2 & values & -> & Hf2 & Hlen & _).
    cbn. destruct (last values) as [value|] eqn:Hlast.
    + cbn. set (s := clamp_i16 value). set (peak1 := Z.max peak (saturating_abs_i16 s)).
      assert (is_i16 s) as Hs by (apply clampZ_bounds; unfold i16_min, i16_max; lia).
      destruct (IH (frame + 1) states2 l1 peak1 (out ++ [s; s])) as (pcm & peak' & Hr & Hlen' & Hloud & Hpk); try done.
      * apply Forall_app_2.
        -- eapply Forall_impl; [exact Ho|]. intros x [? ?]. split; [done|]. subst peak1. lia.
        -- repeat constructor; try apply Hs; subst peak1; lia.
      * subst peak1. unfold saturating_abs_i16, i16_max in *. lia.
      * eexists _, _. split_and!; [exact Hr| |done|lia..]. rewrite Hlen', length_app. cbn. lia.
    + apply last_None in Hlast as ->. cbn in Hlen. destruct nodes; [done|cbn in Hlen; lia].
Qed.

(** ** WAV *)
(** Reading back two bytes at a time. *)
Fixpoint decode_pcm (b : bytes) : list Z :=
  match b with
  | lo :: hi :: b =>
      let v := Z.of_N (le_value [lo; hi]) in (if v <? 32768 then v else v - 65536)%Z :: decode_pcm b
  | _ => []
  end.
Lemma decode_pcm_bytes (l : list Z) : Forall is_i16 l -> decode_pcm (l ≫= i16_bytes) = l.
Proof.
  induction 1 as [|v l Hv _ IH]; [done|]. rewrite bind_cons. unfold is_i16, i16_min, i16_max in Hv.
  pose proof (le_value_bytes 2 (Z.to_N (v mod 65536))) as Hval. unfold i16_bytes.
  pose proof (Z.mod_pos_bound v 65536 ltac:(lia)) as Hm.
  pose proof (le_byte_list_len 2 (Z.to_N (v mod 65536))) as Hlen.
  destruct (le_byte_list 2 (Z.to_N (v mod 65536))) as [|lo [|hi [|? ?]]]; try discriminate Hlen.
  cbn [app decode_pcm]. rewrite Hval by (change (256 ^ N.of_nat 2) with 65536; lia).
  f_equal; [|exact IH]. rewrite Z2N.id by lia.
  destruct (Z_lt_ge_dec v 0).
  - assert (v mod 65536 = v + 65536)%Z as -> by (symmetry; apply (Z.mod_unique _ _ (-1)); lia).
    destruct (Z.ltb_spec (v + 65536) 32768); lia.
  - rewrite Z.mod_small by lia. destruct (Z.ltb_spec v 32768); lia.
Qed.
Lemma pcm_bytes_len (l : list Z) : length (l ≫= i16_bytes) = (2 * length l)%nat.
Proof. induction l as [|v l IH]; [done|]. rewrite bind_cons, length_app, IH. unfold i16_bytes. rewrite le_byte_list_len. cbn. lia. Qed.
Lemma wav_header_len d r : length (wav_header d r) = 44%nat.
Proof. unfold wav_header. rewrite !length_app, !le_byte_list_len. reflexivity. Qed.

Lemma encode_wav_ok pcm frames :
  len pcm = 2 * frames -> frames <= MAX_AUDIO_FRAMES ->
  encode_wav pcm frames = Ok (wav_header (4 * frames) (36 + 4 * frames) ++ (pcm ≫= i16_bytes)).
Proof.
  unfold MAX_AUDIO_FRAMES, SAMPLE_RATE. intros Hl Hf. unfold encode_wav, ok_or, CHANNELS.
  rewrite (proj2 (checked_mul_Some usize_max (len pcm) 2 (4 * frames))) by (unfold usize_max, u64_max; lia).
  destruct (N.ltb_spec u32_max (4 * frames)); [unfold u32_max in *; lia|].
  rewrite (proj2 (checked_add_Some u32_max 36 (4 * frames) _)) by (split; [reflexivity|unfold u32_max; lia]).
  rewrite (proj2 (checked_mul_Some u64_max frames 2 (2 * frames))) by (unfold u64_max; lia).
  cbn [mbind option_bind].
  rewrite (proj2 (checked_mul_Some u64_max (2 * frames) 2 (4 * frames))) by (unfold u64_max; lia).
  by rewrite bool_decide_eq_true_2.
Qed.

Section Theorems.
Context `{Ext : Externals}.

(** a graph that passes validation renders, without an index out of range
    or a refused event: two samples per frame, each 16 bits wide and at most the
    reported peak; the WAV file announces its own length and reads back as these
    samples. *)
Theorem valid_graph_renders (graph : AudioDocument) limits :
  validate_audio_graph graph limits = Ok tt ->
  exists r, render_audio graph limits = Ok (Some r)
    /\ len r.(pcm) = 2 * graph.(ad_frames)
    /\ Forall (fun s => is_i16 s /\ (saturating_abs_i16 s <= r.(ar_receipt).(peak))%Z) r.(pcm)
    /\ decode_pcm (drop 44 r.(wav)) = r.(pcm)
    /\ le_value (take 4 (drop 4 r.(wav))) = len r.(wav) - 8 /\ le_value (take 4 (drop 40 r.(wav))) = len r.(wav) - 44.
Proof.
  intros Hv. unfold render_audio. rewrite Hv. revert Hv. unfold validate_audio_graph.
  pass H1. pass H2. pass H3. succeed work Hw. pass H4. succeed d Hd. pass H5. intros He%check_audio_events_ok. split_guard.
  assert (ad_frames graph <= MAX_AUDIO_FRAMES) as Hf by lia.
  assert (MAX_AUDIO_FRAMES = 1440000) as Hmax by done.
  unfold ok_or. rewrite (proj2 (checked_mul_Some usize_max (ad_frames graph) CHANNELS _))
    by (split; [reflexivity|unfold usize_max, u64_max, CHANNELS; lia]).
  apply (check_audio_nodes_fit _ _ _ _ _ (seed graph)) in Hd.
  assert (nodes graph <> []) as Hne by (intros E; rewrite E in *; done).
  destruct (render_loop_ok (nodes graph) (N.to_nat (ad_frames graph)) 0 _ (ad_events graph) 0 [] Hne Hd He (Forall_nil_2 _))
    as (pcm & peak & -> & Hlen & Hloud & _); [unfold i16_max; lia|].
  cbn [length] in Hlen. assert (len pcm = 2 * ad_frames graph) as Hpcm by (unfold len; lia).
  rewrite (encode_wav_ok pcm) by done. eexists. split; [reflexivity|]. cbn [Audio.pcm wav ar_receipt Audio.peak].
  set (body := pcm ≫= i16_bytes). set (h := wav_header (4 * ad_frames graph) (36 + 4 * ad_frames graph)).
  assert (length h = 44%nat) as Hh by apply wav_header_len.
  assert (len (h ++ body) = 44 + 4 * ad_frames graph) as Hwav.
  { unfold len. rewrite length_app, Hh. unfold body. rewrite pcm_bytes_len. unfold len in Hpcm. lia. }
  rewrite Hwav. split_and!; [done|done| | |].
  - rewrite <- Hh, drop_app_length. unfold body. apply decode_pcm_bytes. eapply Forall_impl; [exact Hloud|]. by intros ? [? _].
  - assert (take 4 (drop 4 (h ++ body)) = le_byte_list 4 (36 + 4 * ad_frames graph)) as -> by reflexivity.
    rewrite le_value_bytes by (cbn; lia). lia.
  - assert (take 4 (drop 40 (h ++ body)) = le_byte_list 4 (4 * ad_frames graph)) as -> by reflexivity.
    rewrite le_value_bytes by (cbn; lia). lia.
Qed.
End Theorems.

Definition demo_graph : AudioDocument :=
  mkAudioDocument 24 7 [Oscillator 0 Triangle 440000 20000; Delay 1 0 5 12000 16000; LowPass 2 1 9000; Gain 3 2 (-16384); Output 4 3]
    [mkParameterEvent 0 0 LevelQ15 (-20000); mkParameterEvent 9 1 MixQ15 100].
Lemma valid_graph_renders_witness : exists r,
  @render_audio demo_externals demo_graph default_audio_limits = Ok (Some r) /\ len r.(pcm) = 48.
Proof.
  destruct (@valid_graph_renders demo_externals demo_graph default_audio_limits) as (r & Hr & Hl & _); [reflexivity|].
  exists r. split; [exact Hr|exact Hl].
Defined.
