(* ===== verification/Host.v ===== *)
(** * The host of a guest ([crates/cartridge-runtime/src/host.rs])

    The recorder of a run ([record], [replay_outcome], [finish_replay]) and the
    state behind the capability calls.  The storage a host uses is an interface,
    [StorageBackend], with the in-memory backend and the snapshot branch as
    instances.  What a call learns from outside (the clock, entropy, the HTTP
    transport, the invocation broker, elapsed time) is an argument of the call;
    what leaves the host (log lines, health reports, responses) is a list of
    effects. *)
From stdpp Require Import pretty.
From S2P Require Import Prelude Text Storage Snapshot Directory Blob Network Core Manifest Trace Media Graphics Audio.

Definition MAX_RANDOM_BYTES : N := 1024 * 1024.
Definition MAX_LOG_CHARACTERS : N := 16 * 1024.
Definition MAX_HEALTH_DETAIL_BYTES : N := 512.
Definition MAX_HEALTH_REPORTS_PER_RUN : N := 4096.
Definition MIN_SERVICE_TIMEOUT_MS : N := 10.
Definition MAX_SERVICE_TIMEOUT_MS : N := 30000.

(** ** The storage interface *)
Class StorageBackend (S : Type) := {
  sb_prepare : S -> string -> N -> StorageLimits -> S * Result unit;
  sb_get : S -> string -> string -> Result (option bytes);
  sb_put : S -> string -> string -> bytes -> StorageLimits -> S * Result unit;
  sb_delete : S -> string -> string -> S * Result bool;
  sb_list : S -> string -> string -> Result (list string);
  sb_usage : S -> string -> Result StorageUsage;
  sb_revision : S -> string -> Result N;
  sb_compare_exchange : S -> string -> N -> string -> option bytes -> option bytes -> StorageLimits ->
    S * Result StorageTransactionResult;
  sb_apply_batch : S -> string -> N -> list StorageMutation -> StorageLimits -> S * Result StorageTransactionResult;
}.
#[global] Instance memory_backend : StorageBackend MemoryStorage := {|
  sb_prepare := MemoryBackend.prepare; sb_get := MemoryBackend.get; sb_put := MemoryBackend.put;
  sb_delete := MemoryBackend.delete; sb_list := MemoryBackend.list; sb_usage := MemoryBackend.usage;
  sb_revision := MemoryBackend.revision; sb_compare_exchange := MemoryBackend.compare_exchange;
  sb_apply_batch := MemoryBackend.apply_batch |}.
#[global] Instance snapshot_backend : StorageBackend SnapshotStorage := {|
  sb_prepare := snapshot_prepare; sb_get := snapshot_get; sb_put := snapshot_put; sb_delete := snapshot_delete;
  sb_list := snapshot_list; sb_usage := snapshot_storage_usage; sb_revision := snapshot_revision;
  sb_compare_exchange := snapshot_compare_exchange; sb_apply_batch := snapshot_apply_batch |}.

(** ** Texts *)
(** [Debug] of a string: quotes, backslashes and control characters escaped. *)
Definition hex_short (n : N) : string :=
  if n <? 16 then String (hex_digit n) EmptyString
  else String (hex_digit (n / 16)) (String (hex_digit (n mod 16)) EmptyString).
Definition escape_control (n : N) : string :=
  if n =? 9 then "\t" else if n =? 10 then "\n" else if n =? 13 then "\r" else "\u{" +:+ hex_short n +:+ "}".
Fixpoint debug_body (s : string) : string :=
  match s with
  | EmptyString => EmptyString
  | String a s =>
      let n := N_of_ascii a in
      (if n =? 0 then "\0" else if (n =? 34) || (n =? 92) then String "\" (String a EmptyString)
       else if (n <? 32) || (n =? 127) then escape_control n else String a EmptyString) +:+ debug_body s
  end.
Definition quote : string := String (ascii_of_N 34) EmptyString.
Definition debug_str (s : string) : string := quote +:+ debug_body s +:+ quote.
(** [Display] of the storage errors *)
Definition storage_error_text (e : Storage.Error) : string :=
  match e with
  | Storage.InvalidNamespace name => "invalid storage namespace: " +:+ debug_str name
  | Storage.InvalidKey key => "invalid storage key: " +:+ debug_str key
  | Storage.InvalidLimits => "invalid storage limits"
  | Storage.ValueTooLarge size limit => "storage value uses " +:+ pretty size +:+ " bytes; the per-value limit is " +:+ pretty limit
  | Storage.QuotaExceeded size limit => "storage write would use " +:+ pretty size +:+ " bytes; the quota is " +:+ pretty limit
  | Storage.KeyLimitExceeded limit => "storage write would exceed the " +:+ pretty limit +:+ "-key limit"
  | Storage.Unavailable => "storage backend is unavailable"
  | Storage.Corrupt detail => "storage data is corrupt: " +:+ detail
  | Storage.NoRecoverableState => "storage has no valid state to recover"
  | Storage.Io detail => "storage I/O error: " +:+ detail
  | Storage.Serialization detail => "storage serialization error: " +:+ detail
  | Storage.SnapshotIdentity expected actual => "snapshot belongs to " +:+ actual +:+ "; expected " +:+ expected
  | Storage.SchemaMismatch expected actual => "state uses schema " +:+ pretty actual +:+ "; expected schema " +:+ pretty expected
  | Storage.StateChanged => "durable state changed after the source snapshot was captured"
  | Storage.LockTimeout ms => "storage lock was not available within " +:+ pretty ms +:+ " ms"
  | Storage.UnsafePath path => "storage path is not a private directory or regular file: " +:+ path
  | Storage.InvalidTransaction => "storage transaction must contain between 1 and " +:+ pretty MAX_TRANSACTION_OPERATIONS +:+ " unique operations"
  | Storage.TransactionTooLarge size limit => "storage transaction input uses " +:+ pretty size +:+ " bytes; the limit is " +:+ pretty limit
  | Storage.RevisionOverflow => "storage revision overflowed"
  | Storage.InvalidSchemaTransition from to => "state schema transition must increase: " +:+ pretty from +:+ " -> " +:+ pretty to
  end.
(** [message.chars().take(n).collect()]: a byte that does not continue a
    character begins one. *)
Fixpoint take_chars (n : N) (s : string) : string :=
  match s with
  | EmptyString => EmptyString
  | String a rest =>
      if in_range 128 191 (N_of_ascii a) then String a (take_chars n rest)
      else if n =? 0 then EmptyString else String a (take_chars (n - 1) rest)
  end.
(** [terminal_safe]: the characters U+0080 to U+009F are two bytes, the first of
    which is 0xC2. *)
Fixpoint terminal_safe (s : string) : string :=
  match s with
  | EmptyString => EmptyString
  | String a rest =>
      let n := N_of_ascii a in
      match rest with
      | String b rest' =>
          if (n =? 194) && in_range 128 159 (N_of_ascii b) then escape_control (N_of_ascii b) +:+ terminal_safe rest'
          else if (n <? 32) || (n =? 127) then escape_control n +:+ terminal_safe rest
          else String a (terminal_safe rest)
      | EmptyString => if (n <? 32) || (n =? 127) then escape_control n else s
      end
  end.
Definition is_safe_asset_path (path : string) : bool :=
  negb (str_is_empty path) && negb (starts_with_char path "/") && negb (starts_with_char path "\")
  && negb (contains_char path "\") && forallb (fun part => negb (unsafe_part part)) (split_on "/" path).

(** ** Recording and replaying *)
Record ReplayCursor := mkCursor { rc_events : list TraceEvent; cursor : N }.
Definition new_cursor (events : list TraceEvent) : ReplayCursor := mkCursor events 0.
(** The fields of [HostState] that record a run. *)
Record Recorder := mkRecorder {
  events : list TraceEvent;
  trace_bytes : N;
  trace_limit_reached : bool;
  next_sequence : N;
  replay : option ReplayCursor;
  divergence : option ReplayError;
}.
Definition new_recorder (replay_events : option (list TraceEvent)) : Recorder :=
  mkRecorder [] 0 false 0 (new_cursor <$> replay_events) None.

Section Record.
Context `{JV : !Json Value}.

(** [Display] of a value is its compact encoding. *)
Definition display_value (v : Value) : string :=
  match to_vec v with
  | Ok b => foldr (fun x s => String (ascii_of_byte x) s) EmptyString b
  | Err _ => EmptyString
  end.
Definition event_label (event : TraceEvent) : string :=
  "event " +:+ pretty event.(sequence) +:+ " " +:+ event.(capability) +:+ "." +:+ event.(operation)
  +:+ " with " +:+ display_value event.(outcome).
Definition set_divergence (r : Recorder) (reason : string) : Recorder :=
  if is_none r.(divergence) then
    mkRecorder r.(events) r.(trace_bytes) r.(trace_limit_reached) r.(next_sequence) r.(replay)
      (Some (Divergence r.(next_sequence) reason))
  else r.
Definition event_bytes (capability operation : string) (outcome : Value) : N :=
  saturating_add usize_max
    (saturating_add usize_max (saturating_add usize_max (str_len capability) (str_len operation))
       (match to_vec outcome with Ok b => len b | Err _ => usize_max end)) 128.
(** What the next recorded event says about [actual]: the reason of a
    divergence, and the cursor moved on. *)
Definition compare_event (replay : ReplayCursor) (actual : TraceEvent) : option string * ReplayCursor :=
  (match replay.(rc_events) !! N.to_nat replay.(cursor) with
   | Some expected =>
       if bool_decide (expected = actual) then None
       else Some ("expected " +:+ event_label expected +:+ ", got " +:+ event_label actual)
   | None => Some ("execution produced an extra " +:+ event_label actual)
   end, mkCursor replay.(rc_events) (replay.(cursor) + 1)).
Definition record (r : Recorder) (capability operation : string) (outcome : Value) : Recorder :=
  if r.(trace_limit_reached) then r
  else
    let next_trace_bytes := saturating_add usize_max r.(trace_bytes) (event_bytes capability operation outcome) in
    if (MAX_TRACE_EVENTS <=? len r.(events)) || (MAX_TRACE_BYTES <? next_trace_bytes) then
      mkRecorder r.(events) r.(trace_bytes) true r.(next_sequence) r.(replay)
        (if is_none r.(divergence) then Some (TraceLimitExceeded (len r.(events)) r.(trace_bytes)) else r.(divergence))
    else
      let actual := mkTraceEvent r.(next_sequence) capability operation outcome in
      let '(reason, moved) := match r.(replay) with
                              | None => (None, None)
                              | Some c => let '(reason, moved) := compare_event c actual in (reason, Some moved)
                              end in
      let r := mkRecorder r.(events) r.(trace_bytes) r.(trace_limit_reached) r.(next_sequence) moved r.(divergence) in
      let r := match reason with Some reason => set_divergence r reason | None => r end in
      mkRecorder (r.(events) ++ [actual]) next_trace_bytes r.(trace_limit_reached) (r.(next_sequence) + 1) r.(replay)
        r.(divergence).
Definition replay_outcome (r : Recorder) (capability operation : string) : Recorder * option (result string Value) :=
  match r.(replay) with
  | None => (r, None)
  | Some replay =>
      match replay.(rc_events) !! N.to_nat replay.(cursor) with
      | None =>
          let message := "trace ended before " +:+ capability +:+ "." +:+ operation in
          (set_divergence r message, Some (Err message))
      | Some expected =>
          if negb (expected.(sequence) =? r.(next_sequence)) || negb (bool_decide (expected.(Trace.capability) = capability))
             || negb (bool_decide (expected.(Trace.operation) = operation))
          then
            let message := "expected " +:+ event_label expected +:+ ", guest called " +:+ capability +:+ "." +:+ operation in
            (set_divergence r message, Some (Err message))
          else (r, Some (Ok expected.(outcome)))
      end
  end.
Definition take_divergence (r : Recorder) : Recorder :=
  mkRecorder r.(events) r.(trace_bytes) r.(trace_limit_reached) r.(next_sequence) r.(replay) None.
Definition finish_replay (r : Recorder) : Recorder * result ReplayError unit :=
  match r.(divergence) with
  | Some error => (take_divergence r, Err error)
  | None =>
      match r.(replay) with
      | Some replay =>
          let remaining := len replay.(rc_events) - replay.(cursor) in
          if negb (remaining =? 0) then (r, Err (EventsRemaining remaining)) else (r, Ok tt)
      | None => (r, Ok tt)
      end
  end.
End Record.

(** ** The state of a host *)
Record MediaMetrics := mkMetrics {
  graphics_present_calls : N; graphics_present_micros : N; audio_render_calls : N; audio_render_micros : N;
}.
Inductive GuestHealthState := Started | Ready | Heartbeat | Unhealthy.
Inductive LogLevel := LogDebug | LogInfo | LogWarn | LogError.
(** What leaves the host. *)
Inductive Effect :=
| Printed (line : string)
| Reported (state : GuestHealthState) (detail : string)
| Responded (id : string) (response : ServiceResponse).
Record HostState (S : Type) := mkHost {
  h_permissions : Permissions;
  h_assets : gmap string bytes;
  h_storage : S;
  storage_namespace : string;
  storage_limits : StorageLimits;
  recorder : Recorder;
  apply_replay_storage : bool;
  display : HeadlessDisplay;
  input : InputQueue;
  h_midi : list MidiEvent;
  audio_renders : list AudioRender;
  audio_limits : AudioLimits;
  media_bytes : N;
  media_metrics : MediaMetrics;
  http_policy : HttpPolicy;
  health_reporter : bool;
  health_reports : N;
  service_requests : gset string;
  effects : list Effect;
}.
Arguments mkHost {S}.
Arguments h_permissions {S}. Arguments h_assets {S}. Arguments h_storage {S}. Arguments storage_namespace {S}.
Arguments storage_limits {S}. Arguments recorder {S}. Arguments apply_replay_storage {S}. Arguments display {S}.
Arguments input {S}. Arguments h_midi {S}. Arguments audio_renders {S}. Arguments audio_limits {S}. Arguments media_bytes {S}.
Arguments media_metrics {S}. Arguments http_policy {S}. Arguments health_reporter {S}. Arguments health_reports {S}.
Arguments service_requests {S}. Arguments effects {S}.

(** What a call learns from outside: the system time in milliseconds, random
    bytes, the HTTP transport and the invocation broker if there is one, the
    milliseconds left before the deadline, and how long a rendering took. *)
Record Outside := mkOutside {
  system_time_ms : result string N;
  entropy : nat -> byte;
  http_transport : option (HttpRequest -> result string HttpResponse);
  broker_receive : option (N -> result string (option ServiceRequest));
  broker_respond : option (string -> ServiceResponse -> result string unit);
  remaining_ms : N;
  elapsed_micros : N;
}.

(** [HostState::new_with_permissions]; [with_media_input] fills the queues. *)
Definition new_host {S : Type} (manifest : PackageManifest) (permissions : Permissions) (assets : gmap string bytes)
    (storage : S) (replay_events : option (list TraceEvent)) (has_reporter : bool) : HostState S :=
  let runtime := manifest.(Manifest.runtime) in
  mkHost permissions assets storage manifest.(cartridge).(cm_id)
    (mkLimits runtime.(storage_bytes) runtime.(storage_keys) runtime.(storage_value_bytes))
    (new_recorder replay_events) false
    (new_display (mkGraphicsLimits MAX_WINDOWS runtime.(graphics_pixels) runtime.(graphics_commands) MAX_GRAPHICS_ASSET_BYTES))
    (mkInputQueue [] MAX_INPUT_EVENTS) [] []
    (mkAudioLimits runtime.(audio_nodes) runtime.(audio_events) runtime.(audio_frames) MAX_AUDIO_WORK_UNITS)
    0 (mkMetrics 0 0 0 0) manifest.(pm_http) has_reporter 0 ∅ [].

Section Setters.
Context {S : Type}.
Implicit Types self : HostState S.
Definition set_recorder self (r : Recorder) : HostState S :=
  mkHost self.(h_permissions) self.(h_assets) self.(h_storage) self.(storage_namespace) self.(storage_limits) r
    self.(apply_replay_storage) self.(display) self.(input) self.(h_midi) self.(audio_renders) self.(audio_limits)
    self.(media_bytes) self.(media_metrics) self.(http_policy) self.(health_reporter) self.(health_reports)
    self.(service_requests) self.(effects).
Definition set_storage self (s : S) : HostState S :=
  mkHost self.(h_permissions) self.(h_assets) s self.(storage_namespace) self.(storage_limits) self.(recorder)
    self.(apply_replay_storage) self.(display) self.(input) self.(h_midi) self.(audio_renders) self.(audio_limits)
    self.(media_bytes) self.(media_metrics) self.(http_policy) self.(health_reporter) self.(health_reports)
    self.(service_requests) self.(effects).
Definition set_apply_replay_storage self : HostState S :=
  mkHost self.(h_permissions) self.(h_assets) self.(h_storage) self.(storage_namespace) self.(storage_limits) self.(recorder)
    true self.(display) self.(input) self.(h_midi) self.(audio_renders) self.(audio_limits)
    self.(media_bytes) self.(media_metrics) self.(http_policy) self.(health_reporter) self.(health_reports)
    self.(service_requests) self.(effects).
Definition set_display self (d : HeadlessDisplay) (m : MediaMetrics) : HostState S :=
  mkHost self.(h_permissions) self.(h_assets) self.(h_storage) self.(storage_namespace) self.(storage_limits) self.(recorder)
    self.(apply_replay_storage) d self.(input) self.(h_midi) self.(audio_renders) self.(audio_limits)
    self.(media_bytes) m self.(http_policy) self.(health_reporter) self.(health_reports)
    self.(service_requests) self.(effects).
Definition set_queues self (i : InputQueue) (m : list MidiEvent) : HostState S :=
  mkHost self.(h_permissions) self.(h_assets) self.(h_storage) self.(storage_namespace) self.(storage_limits) self.(recorder)
    self.(apply_replay_storage) self.(display) i m self.(audio_renders) self.(audio_limits)
    self.(media_bytes) self.(media_metrics) self.(http_policy) self.(health_reporter) self.(health_reports)
    self.(service_requests) self.(effects).
Definition set_audio self (l : list AudioRender) (n : N) (m : MediaMetrics) : HostState S :=
  mkHost self.(h_permissions) self.(h_assets) self.(h_storage) self.(storage_namespace) self.(storage_limits) self.(recorder)
    self.(apply_replay_storage) self.(display) self.(input) self.(h_midi) l self.(audio_limits)
    n m self.(http_policy) self.(health_reporter) self.(health_reports)
    self.(service_requests) self.(effects).
Definition set_services self (n : N) (requests : gset string) (e : list Effect) : HostState S :=
  mkHost self.(h_permissions) self.(h_assets) self.(h_storage) self.(storage_namespace) self.(storage_limits) self.(recorder)
    self.(apply_replay_storage) self.(display) self.(input) self.(h_midi) self.(audio_renders) self.(audio_limits)
    self.(media_bytes) self.(media_metrics) self.(http_policy) self.(health_reporter) n requests e.
Definition emit self (e : Effect) : HostState S := set_services self self.(health_reports) self.(service_requests) (self.(effects) ++ [e]).
Definition diverge `{!Json Value} self (reason : string) : HostState S := set_recorder self (set_divergence self.(recorder) reason).
Definition note `{!Json Value} self (capability operation : string) (outcome : Value) : HostState S :=
  set_recorder self (record self.(recorder) capability operation outcome).
(** [let Some(outcome) = self.replay_outcome(..)]: the recorded outcome, [None]
    when the run is live. *)
Definition next_outcome `{!Json Value} self (capability operation : string) : HostState S * option (result string Value) :=
  let '(r, o) := replay_outcome self.(recorder) capability operation in (set_recorder self r, o).
(** The fallible step of a replayed call whose failure is a divergence. *)
Definition or_diverge `{!Json Value} {A : Type} self (r : result string A) : HostState S * result string A :=
  match r with Ok a => (self, Ok a) | Err e => (diverge self e, Err e) end.
End Setters.

(** ** Queues of a host *)
Fixpoint push_inputs (q : InputQueue) (l : list InputEvent) : MediaResult InputQueue :=
  match l with
  | [] => Ok q
  | e :: l => match input_push q e with (q, Ok _) => push_inputs q l | (_, Err e) => Err e end
  end.
Fixpoint check_midi (l : list MidiEvent) : MediaResult (list MidiEvent) :=
  match l with
  | [] => Ok []
  | e :: l => let? e := validate_midi e in let? l := check_midi l in Ok (e :: l)
  end.
Definition with_media_input {S : Type} (self : HostState S) (input_events : list InputEvent) (midi_events : list MidiEvent) :
    MediaResult (HostState S) :=
  let? q := push_inputs self.(input) input_events in
  if MAX_MIDI_EVENTS <? len midi_events then Err (Limit "MIDI event limit exceeded")
  else
    let? l := check_midi midi_events in
    Ok (set_queues self q (self.(h_midi) ++ l)).
Definition take_media {S : Type} (self : HostState S) : HostState S * (list RenderedFrame * list AudioRender * MediaMetrics) :=
  let '(d, fs) := take_frames self.(display) in
  (set_audio (set_display self d self.(media_metrics)) [] self.(media_bytes) (mkMetrics 0 0 0 0),
   (fs, self.(audio_renders), self.(media_metrics))).

(** ** JSON of the values a host records *)
(** [serde_json] on a type with derived [Serialize] and [Deserialize]: reading
    back what was written, which is never null. *)
Class ValueCodec (A : Type) := {
  to_value : A -> Value;
  from_value : Value -> result string A;
  from_to_value : forall a, from_value (to_value a) = Ok a;
  to_value_not_null : forall a, to_value a <> Null;
}.
(** The same on [Option<A>]. *)
Definition to_value_option {A : Type} `{!ValueCodec A} (o : option A) : Value := from_option to_value Null o.
Definition from_value_option {A : Type} `{!ValueCodec A} (v : Value) : result string (option A) :=
  if bool_decide (v = Null) then Ok None else let? a := from_value v in Ok (Some a).

Definition method_text (m : HttpMethod) : string :=
  match m with GET => "GET" | HEAD => "HEAD" | POST => "POST" | PUT => "PUT" | PATCH => "PATCH" | DELETE => "DELETE" end.
Definition headers_value (headers : gmap string string) : Value :=
  Obj ((fun h => (h.1, Str h.2)) <$> btree_iter headers).
(** [serde_json::from_value::<BTreeMap<String, String>>] *)
Fixpoint read_headers (acc : gmap string string) (fields : list (string * Value)) : result string (gmap string string) :=
  match fields with
  | [] => Ok acc
  | (name, Str value) :: fields => read_headers (<[name := value]> acc) fields
  | _ => Err "invalid type: expected a string"
  end.
Definition headers_of_value (v : Value) : result string (gmap string string) :=
  match v with Obj fields => read_headers ∅ fields | _ => Err "invalid type: expected a map" end.
Definition frame_receipt_value (r : FrameReceipt) : Value :=
  object [("window", unsigned r.(fr_window)); ("frame", unsigned r.(frame)); ("simulation_tick", unsigned r.(fr_simulation_tick));
          ("width", unsigned r.(fr_width)); ("height", unsigned r.(fr_height)); ("command_count", unsigned r.(command_count));
          ("rgba_sha256", Str r.(rgba_sha256)); ("png_sha256", Str r.(png_sha256))].
Definition audio_receipt_value (r : AudioReceipt) : Value :=
  object [("frames", unsigned r.(ar_frames)); ("sample_rate", unsigned r.(ar_sample_rate)); ("channels", unsigned r.(ar_channels));
          ("node_count", unsigned r.(node_count)); ("event_count", unsigned r.(event_count)); ("pcm_sha256", Str r.(pcm_sha256));
          ("wav_sha256", Str r.(wav_sha256));
          ("peak", if (r.(peak) <? 0)%Z then Num (NegInt r.(peak)) else unsigned (Z.to_N r.(peak)))].

(** ** The types of the guest interface *)
Record GuestRequest := mkGuestRequest { gq_method : HttpMethod; gq_url : string; gq_headers : list (string * string); gq_body : bytes }.
Record GuestResponse := mkGuestResponse { gp_status : N; gp_headers : list (string * string); gp_body : bytes }.
Record GuestServiceRequest := mkGuestServiceRequest {
  gs_id : string; gs_method : HttpMethod; gs_path : string; gs_headers : list (string * string); gs_body : bytes;
}.
Fixpoint collect_headers (normalized : gset string) (headers : gmap string string) (l : list (string * string)) :
    result string (gmap string string) :=
  match l with
  | [] => Ok headers
  | (name, value) :: l =>
      if bool_decide (str_lower name ∈ normalized) || is_some (headers !! name)
      then Err "duplicate HTTP header names are not allowed"
      else collect_headers ({[str_lower name]} ∪ normalized) (<[name := value]> headers) l
  end.
Definition frame_receipt (r : FrameReceipt) : result string FrameReceipt :=
  if u32_max <? r.(command_count) then Err "draw command count exceeds u32" else Ok r.
Definition audio_receipt (r : AudioReceipt) : result string AudioReceipt :=
  if u16_max <? r.(node_count) then Err "audio node count exceeds u16"
  else if u32_max <? r.(event_count) then Err "audio event count exceeds u32" else Ok r.

(** ** The capability calls *)
Section Calls.
Context {S : Type} `{SB : !StorageBackend S}.
Context `{Ext : Externals} `{JV : !Json Value} `{Hex : HexDecode} `{UC : UrlCrate} `{JRq : !Json HttpRequest}.
Context `{Png : !PngCrate} `{DF : !JsonDecode FrameDocument} `{DA : !JsonDecode AudioDocument}.
Context `{JI : !Json InputEvent} `{JM : !Json MidiEvent} `{VI : !ValueCodec InputEvent} `{VM : !ValueCodec MidiEvent}.
Implicit Types (self : HostState S) (w : Outside).

(** A call without its permission is recorded and refused. *)
Definition deny {A : Type} self (capability operation : string) (fields : list (string * Value)) (error : string) :
    HostState S * result string A :=
  (note self capability operation (object (fields ++ [("denied", Str error)])), Err error).

Definition level_label (level : LogLevel) : string :=
  match level with LogDebug => "debug" | LogInfo => "info" | LogWarn => "warn" | LogError => "error" end.
Definition log self (level : LogLevel) (message : string) : HostState S :=
  if self.(recorder).(trace_limit_reached) then self
  else
    let message := take_chars MAX_LOG_CHARACTERS message in
    let label := level_label level in
    let self := emit self (Printed ("[" +:+ label +:+ "] " +:+ terminal_safe message)) in
    note self "log" "write" (object [("level", Str label); ("message", Str message)]).
Definition health_report self (state : GuestHealthState) (detail : string) : HostState S :=
  if (MAX_HEALTH_DETAIL_BYTES <? str_len detail) || existsb (fun c => char_is_control c && negb (c =? 9)) (str_chars detail)
  then self
  else if self.(health_reporter) then
    if MAX_HEALTH_REPORTS_PER_RUN <=? self.(health_reports) then self
    else emit (set_services self (self.(health_reports) + 1) self.(service_requests) self.(effects)) (Reported state detail)
  else self.

Definition wall_clock_ms self w : HostState S * result string N :=
  if negb self.(h_permissions).(clock) then deny self "clock" "wall-clock-ms" [] "clock capability was not granted"
  else
    let '(self, recorded) := next_outcome self "clock" "wall-clock-ms" in
    match recorded with
    | Some outcome =>
        let! outcome := outcome on self in
        match value_get outcome "value" ≫= as_u64 with
        | None => let error := "recorded clock outcome does not contain an unsigned value" in (diverge self error, Err error)
        | Some millis => (note self "clock" "wall-clock-ms" outcome, Ok millis)
        end
    | None =>
        let! millis := w.(system_time_ms) on self in
        if u64_max <? millis then (self, Err "system time is out of range")
        else (note self "clock" "wall-clock-ms" (object [("value", unsigned millis)]), Ok millis)
    end.

Definition random_bytes self w (length : N) : HostState S * result string bytes :=
  if negb self.(h_permissions).(random) then deny self "random" "random-bytes" [] "random capability was not granted"
  else if MAX_RANDOM_BYTES <? length
  then deny self "random" "random-bytes" [] ("random request exceeds the " +:+ pretty MAX_RANDOM_BYTES +:+ "-byte limit")
  else
    let '(self, recorded) := next_outcome self "random" "random-bytes" in
    match recorded with
    | Some outcome =>
        let! outcome := outcome on self in
        let recorded_length := value_get outcome "length" ≫= as_u64 in
        if negb (bool_decide (recorded_length = Some length)) then
          let error := "recorded random length was " +:+ from_option pretty "missing" recorded_length
                       +:+ ", guest requested " +:+ pretty length in
          (diverge self error, Err error)
        else
          match value_get outcome "bytes" ≫= as_str with
          | None => let error := "recorded random outcome does not contain bytes" in (diverge self error, Err error)
          | Some encoded =>
              match hex_decode encoded with
              | Err e => let error := "recorded random bytes are invalid: " +:+ e in (diverge self error, Err error)
              | Ok bytes =>
                  if negb (len bytes =? length) then
                    let error := "recorded random data has " +:+ pretty (len bytes) +:+ " bytes, expected " +:+ pretty length in
                    (diverge self error, Err error)
                  else (note self "random" "random-bytes" outcome, Ok bytes)
              end
          end
    | None =>
        let bytes := w.(entropy) <$> seq 0 (N.to_nat length) in
        (note self "random" "random-bytes" (object [("length", unsigned length); ("bytes", Str (hex_encode bytes))]), Ok bytes)
    end.

Definition read_asset self (path : string) : HostState S * result string bytes :=
  if negb self.(h_permissions).(assets) then deny self "assets" "read" [("path", Str path)] "asset capability was not granted"
  else if negb (is_safe_asset_path path)
  then deny self "assets" "read" [("path", Str path)] "asset path must be a normalized relative path"
  else
    match self.(h_assets) !! path with
    | None => (note self "assets" "read" (object [("path", Str path); ("missing", Bool true)]),
               Err ("asset does not exist: " +:+ path))
    | Some bytes =>
        (note self "assets" "read"
           (object [("path", Str path); ("length", unsigned (len bytes)); ("sha256", Str (hex_sha256 bytes))]), Ok bytes)
    end.

(** The response a recorded outcome holds. *)
Definition recorded_response (outcome : Value) : result string HttpResponse :=
  let? response := ok_or (value_get outcome "response") "recorded HTTP response is missing" in
  let? status := ok_or (n ← value_get response "status" ≫= as_u64; if n <=? u16_max then Some n else None)
                   "recorded HTTP status is invalid" in
  let? headers := ok_or (value_get response "headers") "recorded HTTP headers are missing" in
  let? headers := headers_of_value headers in
  let? body := ok_or (value_get response "body" ≫= as_str) "recorded HTTP body is missing" in
  let? body := match hex_decode body with Ok b => Ok b | Err _ => Err "recorded HTTP body is invalid" end in
  Ok (mkResponse status headers body).
Definition response_value (r : HttpResponse) : Value :=
  object [("status", unsigned r.(rp_status)); ("headers", headers_value r.(rp_headers)); ("body", Str (hex_encode r.(rp_body)))].
Definition guest_response (r : HttpResponse) : GuestResponse := mkGuestResponse r.(rp_status) (btree_iter r.(rp_headers)) r.(rp_body).
Definition http_fetch self w (request : GuestRequest) : HostState S * result string GuestResponse :=
  let! headers := collect_headers ∅ ∅ request.(gq_headers) on self in
  let request := mkRequest request.(gq_method) request.(gq_url) headers request.(gq_body) in
  let! print := fingerprint request on self in
  if negb self.(h_permissions).(http)
  then deny self "http" "fetch" [("request", Str print)] "HTTP capability was not granted"
  else
    match authorize self.(http_policy) request with
    | Err error => deny self "http" "fetch" [("request", Str print)] error
    | Ok _ =>
        let '(self, recorded) := next_outcome self "http" "fetch" in
        match recorded with
        | Some outcome =>
            let! outcome := outcome on self in
            if negb (bool_decide (value_get outcome "request" ≫= as_str = Some print)) then
              let error := "recorded HTTP request does not match the guest request" in (diverge self error, Err error)
            else
              let! response := recorded_response outcome on self in
              let! _ := validate_response self.(http_policy) response on self in
              (note self "http" "fetch" outcome, Ok (guest_response response))
        | None =>
            let! transport := ok_or w.(http_transport) "no host HTTP transport is configured" on self in
            let! response := transport request on self in
            let! _ := validate_response self.(http_policy) response on self in
            (note self "http" "fetch" (object [("request", Str print); ("response", response_value response)]),
             Ok (guest_response response))
        end
    end.

Definition serve_next self w (timeout_ms : N) : HostState S * result string (option GuestServiceRequest) :=
  if negb self.(h_permissions).(serve) then (self, Err "serve capability was not granted")
  else if is_some self.(recorder).(replay) then (self, Err "service invocations are unavailable during replay")
  else if negb (in_range MIN_SERVICE_TIMEOUT_MS MAX_SERVICE_TIMEOUT_MS timeout_ms)
  then (self, Err "service receive timeout is outside its limits")
  else if negb (bool_decide (self.(service_requests) = ∅)) then (self, Err "the previous service request has not been answered")
  else if w.(remaining_ms) =? 0 then (self, Err "cartridge wall-clock deadline exceeded")
  else
    let! receive := ok_or w.(broker_receive) "no host invocation broker is configured" on self in
    let! received := receive (N.min timeout_ms w.(remaining_ms)) on self in
    match received with
    | None => (self, Ok None)
    | Some request =>
        let! _ := validate_service_request request on self in
        let self := set_services self self.(health_reports) ({[request.(sr_id)]} ∪ self.(service_requests)) self.(effects) in
        (note self "serve" "receive"
           (object [("id", Str request.(sr_id)); ("method", Str (method_text request.(sr_method))); ("path", Str request.(sr_path));
                    ("body_bytes", unsigned (len request.(sr_body))); ("body_sha256", Str (hex_sha256 request.(sr_body)))]),
         Ok (Some (mkGuestServiceRequest request.(sr_id) request.(sr_method) request.(sr_path)
                     (btree_iter request.(sr_headers)) request.(sr_body))))
    end.
Definition serve_respond self w (request_id : string) (response : GuestResponse) : HostState S * result string unit :=
  if negb self.(h_permissions).(serve) then (self, Err "serve capability was not granted")
  else if negb (is_digest request_id) then (self, Err "service response identity is invalid")
  else if negb (bool_decide (request_id ∈ self.(service_requests)))
  then (self, Err "service response does not match the active request")
  else if (MAX_HTTP_HEADERS <? len response.(gp_headers)) || (MAX_SERVICE_RESPONSE_BYTES <? len response.(gp_body))
  then (self, Err "service response exceeds its limits")
  else
    let! headers := collect_headers ∅ ∅ response.(gp_headers) on self in
    let answer := mkServiceResponse response.(gp_status) headers response.(gp_body) in
    let! _ := validate_service_response answer on self in
    let! respond := ok_or w.(broker_respond) "no host invocation broker is configured" on self in
    let! _ := respond request_id answer on self in
    let self := emit (set_services self self.(health_reports) (self.(service_requests) ∖ {[request_id]}) self.(effects))
                  (Responded request_id answer) in
    (note self "serve" "respond"
       (object [("id", Str request_id); ("status", unsigned response.(gp_status)); ("body_bytes", unsigned (len response.(gp_body)));
                ("body_sha256", Str (hex_sha256 response.(gp_body)))]), Ok tt).

(** ** Graphics, input and audio *)
Definition graphics_denied : string := "graphics capability was not granted".
(** The result of a call of the display, recorded either way. *)
Definition note_media {A : Type} self (operation : string) (error_fields : list (string * Value)) (answer : MediaResult A)
    (value : A -> Value) : HostState S * result string A :=
  match answer with
  | Ok a => (note self "graphics" operation (value a), Ok a)
  | Err e =>
      let error := media_error_text e in
      (note self "graphics" operation (object (error_fields ++ [("error", Str error)])), Err error)
  end.
Definition window_open self (config : WindowConfig) : HostState S * result string N :=
  if negb self.(h_permissions).(graphics) then deny self "graphics" "window-open" [] graphics_denied
  else
    let '(d, drawn) := display_open self.(display) config in
    note_media (set_display self d self.(media_metrics)) "window-open" [] drawn (fun window => object [("window", unsigned window)]).
Definition window_resize self (window width height : N) : HostState S * result string unit :=
  if negb self.(h_permissions).(graphics) then deny self "graphics" "window-resize" [("window", unsigned window)] graphics_denied
  else
    let '(d, drawn) := display_resize self.(display) window width height in
    note_media (set_display self d self.(media_metrics)) "window-resize" [("window", unsigned window)] drawn
      (fun _ => object [("window", unsigned window); ("width", unsigned width); ("height", unsigned height)]).
Definition window_close self (window : N) : HostState S * result string unit :=
  if negb self.(h_permissions).(graphics) then deny self "graphics" "window-close" [("window", unsigned window)] graphics_denied
  else
    let '(d, drawn) := display_close self.(display) window in
    note_media (set_display self d self.(media_metrics)) "window-close" [("window", unsigned window)] drawn
      (fun _ => object [("window", unsigned window)]).
(** Rendering always ends ([rendering_is_bounded]), so that the inner option of
    [display_present] is never [None]. *)
Definition settle {A : Type} (r : MediaResult (option A)) : MediaResult A :=
  match r with Ok (Some a) => Ok a | Ok None => Err (Encoding "rendering did not end") | Err e => Err e end.
Definition graphics_present self w (window : N) (document : bytes) : HostState S * result string FrameReceipt :=
  if negb self.(h_permissions).(graphics) then deny self "graphics" "present" [("window", unsigned window)] graphics_denied
  else
    let '(d, drawn) := display_present self.(display) window document (fun path => self.(h_assets) !! path) in
    let m := self.(media_metrics) in
    let m := mkMetrics (saturating_add u64_max m.(graphics_present_calls) 1) (m.(graphics_present_micros) + w.(elapsed_micros))
               m.(audio_render_calls) m.(audio_render_micros) in
    let '(self, answer) :=
      note_media (set_display self d m) "present" [("window", unsigned window)] (settle drawn)
        (fun receipt => object [("document_sha256", Str (hex_sha256 document)); ("receipt", frame_receipt_value receipt)]) in
    let! receipt := answer on self in
    (self, frame_receipt receipt).

(** [event.as_ref().map(serde_json::to_vec).transpose()] *)
Definition encode_option {A : Type} `{!Json A} (o : option A) : result string (option bytes) :=
  match o with None => Ok None | Some a => let? b := to_vec a in Ok (Some b) end.
(** A recorded queue event, read and validated again. *)
Definition recorded_event {A : Type} `{!ValueCodec A} (kind : string) (validate : A -> MediaResult A) (outcome : Value) :
    result string (option A) :=
  let? event := match from_value_option (default Null (value_get outcome "event")) with
                | Ok e => Ok e
                | Err e => Err ("recorded " +:+ kind +:+ " event is invalid: " +:+ e)
                end in
  match event with
  | None => Ok None
  | Some e =>
      match validate e with
      | Ok e => Ok (Some e)
      | Err e => Err ("recorded " +:+ kind +:+ " event failed validation: " +:+ media_error_text e)
      end
  end.
Definition input_next self : HostState S * result string (option bytes) :=
  if negb self.(h_permissions).(graphics) then deny self "input" "next" [] graphics_denied
  else
    let '(self, recorded) := next_outcome self "input" "next" in
    match recorded with
    | Some outcome =>
        let! outcome := outcome on self in
        let '(self, event) := or_diverge self (recorded_event "input" validate_input outcome) in
        let! event := event on self in
        let! encoded := encode_option event on self in
        (note self "input" "next" outcome, Ok encoded)
    | None =>
        let '(q, event) := input_pop self.(input) in
        let self := set_queues self q self.(h_midi) in
        let! encoded := encode_option event on self in
        (note self "input" "next" (object [("event", to_value_option event)]), Ok encoded)
    end.
Definition midi_next self : HostState S * result string (option bytes) :=
  if negb self.(h_permissions).(midi) then deny self "midi" "next" [] "MIDI capability was not granted"
  else
    let '(self, recorded) := next_outcome self "midi" "next" in
    match recorded with
    | Some outcome =>
        let! outcome := outcome on self in
        let '(self, event) := or_diverge self (recorded_event "MIDI" validate_midi outcome) in
        let! event := event on self in
        let! encoded := encode_option event on self in
        (note self "midi" "next" outcome, Ok encoded)
    | None =>
        let '(event, rest) := match self.(h_midi) with [] => (None, []) | e :: l => (Some e, l) end in
        let self := set_queues self self.(input) rest in
        let! encoded := encode_option event on self in
        (note self "midi" "next" (object [("event", to_value_option event)]), Ok encoded)
    end.

Definition audio_limit : string := "captured audio output limit exceeded".
Definition audio_render self w (document : bytes) : HostState S * result string AudioReceipt :=
  if negb self.(h_permissions).(audio) then deny self "audio" "render" [] "audio capability was not granted"
  else if (len self.(audio_renders) =? MAX_CAPTURED_AUDIO_RENDERS) || (MAX_CAPTURED_AUDIO_BYTES <=? self.(media_bytes))
  then deny self "audio" "render" [] audio_limit
  else
    let rendered := settle (render_audio_document document self.(audio_limits)) in
    let m := self.(media_metrics) in
    let m := mkMetrics m.(graphics_present_calls) m.(graphics_present_micros)
               (saturating_add u64_max m.(audio_render_calls) 1) (m.(audio_render_micros) + w.(elapsed_micros)) in
    let self := set_audio self self.(audio_renders) self.(media_bytes) m in
    match rendered with
    | Err e =>
        let error := media_error_text e in (note self "audio" "render" (object [("error", Str error)]), Err error)
    | Ok render =>
        let! bytes := ok_or (n ← checked_mul usize_max (len render.(pcm)) 2; checked_add usize_max (len render.(wav)) n)
                        "captured audio size overflows" on self in
        let! next_bytes := ok_or (checked_add usize_max self.(media_bytes) bytes) "captured audio size overflows" on self in
        if (len self.(audio_renders) =? MAX_CAPTURED_AUDIO_RENDERS) || (MAX_CAPTURED_AUDIO_BYTES <? next_bytes)
        then deny (set_audio self self.(audio_renders) MAX_CAPTURED_AUDIO_BYTES m) "audio" "render" [] audio_limit
        else
          let self := set_audio self (self.(audio_renders) ++ [render]) next_bytes m in
          (note self "audio" "render"
             (object [("document_sha256", Str (hex_sha256 document)); ("receipt", audio_receipt_value render.(ar_receipt))]),
           audio_receipt render.(ar_receipt))
    end.
End Calls.
