(* ===== verification/HostStorage.v ===== *)
(** * Storage calls of a guest ([crates/cartridge-runtime/src/host/storage.rs])

    Each call checks the permission, takes its answer from the trace when a run
    is replayed, and otherwise asks the backend and records the outcome.  A
    replay that applies storage repeats the call on its own branch and compares. *)
From stdpp Require Import pretty.
From S2P Require Import Prelude Text Storage Snapshot Directory Blob Network Core Manifest Trace Media Graphics Audio Host.

(** ** Recorded outcomes *)
Definition recorded_error (outcome : Value) : option string :=
  or_else (value_get outcome "error") (value_get outcome "denied") ≫= as_str.
Definition or_recorded_error {A : Type} (outcome : Value) (k : result string A) : result string A :=
  match recorded_error outcome with Some error => Err error | None => k end.

Section Decode.
Context `{Ext : Externals} `{Hex : HexDecode}.
Definition decode_recorded_get (outcome : Value) : result string (option bytes) :=
  or_recorded_error outcome
    (match value_get outcome "found" ≫= as_bool with
     | Some false => Ok None
     | Some true =>
         let? encoded := ok_or (value_get outcome "bytes" ≫= as_str) "recorded storage value is missing bytes" in
         let? bytes := match hex_decode encoded with Ok b => Ok b | Err e => Err ("recorded storage bytes are invalid: " +:+ e) end in
         if negb (bool_decide (value_get outcome "length" ≫= as_u64 = Some (len bytes)))
         then Err "recorded storage value length does not match its bytes"
         else if negb (bool_decide (value_get outcome "sha256" ≫= as_str = Some (hex_sha256 bytes)))
         then Err "recorded storage value digest does not match its bytes"
         else Ok (Some bytes)
     | None => Err "recorded storage get outcome is missing found"
     end).
Definition decode_recorded_unit (outcome : Value) : result string unit :=
  or_recorded_error outcome
    (if bool_decide (value_get outcome "stored" ≫= as_bool = Some true) then Ok tt
     else Err "recorded storage put outcome is missing stored").
Definition decode_recorded_bool (outcome : Value) (field : string) : result string bool :=
  or_recorded_error outcome
    (ok_or (value_get outcome field ≫= as_bool) ("recorded storage outcome is missing " +:+ field)).
(** [serde_json::from_value::<Vec<String>>] *)
Fixpoint strings_of (l : list Value) : result string (list string) :=
  match l with
  | [] => Ok []
  | Str s :: l => let? rest := strings_of l in Ok (s :: rest)
  | _ => Err "invalid type: expected a string"
  end.
Definition decode_recorded_list (outcome : Value) : result string (list string) :=
  or_recorded_error outcome
    (let? keys := ok_or (value_get outcome "keys") "recorded storage list outcome is missing keys" in
     match match keys with Arr l => strings_of l | _ => Err "invalid type: expected a sequence" end with
     | Ok l => Ok l
     | Err e => Err ("recorded storage keys are invalid: " +:+ e)
     end).
Definition decode_recorded_revision (outcome : Value) : result string N :=
  or_recorded_error outcome (ok_or (value_get outcome "revision" ≫= as_u64) "recorded storage revision is missing").
Definition decode_recorded_transaction (outcome : Value) : result string StorageTransactionResult :=
  or_recorded_error outcome
    (let? applied := ok_or (value_get outcome "applied" ≫= as_bool) "recorded storage transaction is missing applied" in
     let? revision := ok_or (value_get outcome "result_revision" ≫= as_u64)
                        "recorded storage transaction is missing its revision" in
     Ok (mkTxResult applied revision)).

(** ** Identities of the values of a call *)
Definition value_identity (value : option bytes) (hash : bool) : Value :=
  match value with
  | None => Null
  | Some value =>
      if hash then object [("length", unsigned (len value)); ("sha256", Str (hex_sha256 value))]
      else object [("length", unsigned (len value)); ("oversized", Bool true)]
  end.
Definition value_identities (expected replacement : option bytes) : Value * Value :=
  let total := checked_add usize_max (opt_len expected) (opt_len replacement) in
  let hash := is_some_and (fun total => total <=? MAX_TRANSACTION_INPUT_BYTES) total in
  (value_identity expected hash, value_identity replacement hash).
(** [u64::to_be_bytes] *)
Definition be_bytes (n : N) : bytes := rev (le_byte_list 8 n).
Fixpoint mutation_bytes (total : N) (l : list StorageMutation) : option N :=
  match l with
  | [] => Some total
  | m :: l =>
      bytes ← checked_add usize_max total (str_len m.(mut_key));
      bytes ← match m.(mut_value) with None => Some bytes | Some value => checked_add usize_max bytes (len value) end;
      mutation_bytes bytes l
  end.
Definition mutation_input (m : StorageMutation) : bytes :=
  be_bytes (str_len m.(mut_key)) ++ as_bytes m.(mut_key)
  ++ match m.(mut_value) with Some value => [x01] ++ be_bytes (len value) ++ value | None => [x00] end.
Definition mutation_identity (mutations : list StorageMutation) : Value :=
  if MAX_TRANSACTION_OPERATIONS <? len mutations
  then object [("operations", unsigned (len mutations)); ("oversized", Bool true)]
  else
    match mutation_bytes 0 mutations with
    | None => object [("operations", unsigned (len mutations)); ("input_bytes", unsigned u64_max); ("oversized", Bool true)]
    | Some input_bytes =>
        if MAX_TRANSACTION_INPUT_BYTES <? input_bytes
        then object [("operations", unsigned (len mutations)); ("input_bytes", unsigned input_bytes); ("oversized", Bool true)]
        else
          let hashed := as_bytes "cartridge-storage-batch-v1" ++ [x00] ++ be_bytes (len mutations)
                        ++ (mutations ≫= mutation_input) in
          object [("operations", unsigned (len mutations)); ("input_bytes", unsigned input_bytes); ("sha256", Str (hex_sha256 hashed))]
    end.
End Decode.

(** ** The calls *)
Section Calls.
Context {S : Type} `{SB : !StorageBackend S} `{Ext : Externals} `{JV : !Json Value} `{Hex : HexDecode}.
Implicit Types (self : HostState S).

Definition storage_denied : string := "storage capability was not granted".
Definition or_null (v : option Value) : Value := default Null v.
Definition check_replay_field self (outcome : Value) (field : string) (actual : Value) : HostState S * result string unit :=
  if bool_decide (value_get outcome field = Some actual) then (self, Ok tt)
  else
    let error := "recorded storage " +:+ field +:+ " was " +:+ display_value (or_null (value_get outcome field))
                 +:+ ", guest supplied " +:+ display_value actual in
    (diverge self error, Err error).
(** Several [check_replay_field(..)?] in a row *)
Fixpoint check_replay_fields self (outcome : Value) (fields : list (string * Value)) : HostState S * result string unit :=
  match fields with
  | [] => (self, Ok tt)
  | (field, actual) :: fields =>
      match check_replay_field self outcome field actual with
      | (self, Ok _) => check_replay_fields self outcome fields
      | (self, Err e) => (self, Err e)
      end
  end.
Definition text_of {A : Type} (r : Result A) : result string A :=
  match r with Ok a => Ok a | Err e => Err (storage_error_text e) end.
(** A read that is compared with the branch: [result.as_ref().is_ok_and(|expected| expected != &actual)]. *)
Definition compare_read {A : Type} `{EqDecision A} self (recorded : result string A) (actual : Result A) (error : string) :
    HostState S * result string unit :=
  if self.(apply_replay_storage) then
    let! actual := text_of actual on self in
    match recorded with
    | Ok expected => if bool_decide (expected = actual) then (self, Ok tt) else (diverge self error, Err error)
    | Err _ => (self, Ok tt)
    end
  else (self, Ok tt).
Definition record_error {A : Type} self (operation : string) (fields : list (string * Value)) (e : Storage.Error) :
    HostState S * result string A :=
  let error := storage_error_text e in
  (note self "storage" operation (object (fields ++ [("error", Str error)])), Err error).

Definition get_storage self (key : string) : HostState S * result string (option bytes) :=
  if negb self.(h_permissions).(storage) then deny self "storage" "get" [("key", Str key)] storage_denied
  else
    let '(self, recorded) := next_outcome self "storage" "get" in
    match recorded with
    | Some outcome =>
        let! outcome := outcome on self in
        let '(self, checked) := check_replay_fields self outcome [("key", Str key)] in
        let! _ := checked on self in
        let '(self, answer) := or_diverge self (decode_recorded_get outcome) in
        let '(self, compared) :=
          compare_read self answer (sb_get self.(h_storage) self.(storage_namespace) key)
            "source state does not match recorded storage get" in
        let! _ := compared on self in
        (note self "storage" "get" outcome, answer)
    | None =>
        match sb_get self.(h_storage) self.(storage_namespace) key with
        | Ok (Some bytes) =>
            if self.(storage_limits).(max_value_bytes) <? len bytes then
              deny self "storage" "get" [("key", Str key); ("length", unsigned (len bytes))]
                ("stored value exceeds the " +:+ pretty self.(storage_limits).(max_value_bytes) +:+ "-byte runtime limit")
            else
              (note self "storage" "get"
                 (object [("key", Str key); ("found", Bool true); ("length", unsigned (len bytes));
                          ("sha256", Str (hex_sha256 bytes)); ("bytes", Str (hex_encode bytes))]), Ok (Some bytes))
        | Ok None => (note self "storage" "get" (object [("key", Str key); ("found", Bool false)]), Ok None)
        | Err e => record_error self "get" [("key", Str key)] e
        end
    end.

Definition put_storage self (key : string) (value : bytes) : HostState S * result string unit :=
  if negb self.(h_permissions).(storage) then deny self "storage" "put" [("key", Str key)] storage_denied
  else
    let identity := [("key", Str key); ("length", unsigned (len value)); ("sha256", Str (hex_sha256 value))] in
    let '(self, recorded) := next_outcome self "storage" "put" in
    match recorded with
    | Some outcome =>
        let! outcome := outcome on self in
        let '(self, checked) := check_replay_fields self outcome identity in
        let! _ := checked on self in
        let '(self, answer) := or_diverge self (decode_recorded_unit outcome) in
        let '(self, applied) :=
          if self.(apply_replay_storage) && is_ok answer then
            let '(s, r) := sb_put self.(h_storage) self.(storage_namespace) key value self.(storage_limits) in
            let self := set_storage self s in
            or_diverge self (match r with
                             | Ok _ => Ok tt
                             | Err e => Err ("replayed storage put failed: " +:+ storage_error_text e)
                             end)
          else (self, Ok tt) in
        let! _ := applied on self in
        (note self "storage" "put" outcome, answer)
    | None =>
        let '(s, r) := sb_put self.(h_storage) self.(storage_namespace) key value self.(storage_limits) in
        let self := set_storage self s in
        match r with
        | Ok _ => (note self "storage" "put" (object (identity ++ [("stored", Bool true)])), Ok tt)
        | Err e => record_error self "put" identity e
        end
    end.

Definition delete_storage self (key : string) : HostState S * result string bool :=
  if negb self.(h_permissions).(storage) then deny self "storage" "delete" [("key", Str key)] storage_denied
  else
    let '(self, recorded) := next_outcome self "storage" "delete" in
    match recorded with
    | Some outcome =>
        let! outcome := outcome on self in
        let '(self, checked) := check_replay_fields self outcome [("key", Str key)] in
        let! _ := checked on self in
        let '(self, answer) := or_diverge self (decode_recorded_bool outcome "deleted") in
        let '(self, applied) :=
          match answer with
          | Ok expected =>
              if self.(apply_replay_storage) then
                let '(s, r) := sb_delete self.(h_storage) self.(storage_namespace) key in
                let self := set_storage self s in
                let! actual := text_of r on self in
                if bool_decide (actual = expected) then (self, Ok tt)
                else
                  let error := "source state does not match recorded storage delete" in
                  (diverge self error, Err error)
              else (self, Ok tt)
          | Err _ => (self, Ok tt)
          end in
        let! _ := applied on self in
        (note self "storage" "delete" outcome, answer)
    | None =>
        let '(s, r) := sb_delete self.(h_storage) self.(storage_namespace) key in
        let self := set_storage self s in
        match r with
        | Ok deleted => (note self "storage" "delete" (object [("key", Str key); ("deleted", Bool deleted)]), Ok deleted)
        | Err e => record_error self "delete" [("key", Str key)] e
        end
    end.

Definition list_storage self (prefix : string) : HostState S * result string (list string) :=
  if negb self.(h_permissions).(storage) then deny self "storage" "list" [("prefix", Str prefix)] storage_denied
  else
    let '(self, recorded) := next_outcome self "storage" "list" in
    match recorded with
    | Some outcome =>
        let! outcome := outcome on self in
        let '(self, checked) := check_replay_fields self outcome [("prefix", Str prefix)] in
        let! _ := checked on self in
        let '(self, answer) := or_diverge self (decode_recorded_list outcome) in
        let '(self, compared) :=
          compare_read self answer (sb_list self.(h_storage) self.(storage_namespace) prefix)
            "source state does not match recorded storage list" in
        let! _ := compared on self in
        (note self "storage" "list" outcome, answer)
    | None =>
        match sb_list self.(h_storage) self.(storage_namespace) prefix with
        | Ok keys =>
            if self.(storage_limits).(max_keys) <? len keys then
              deny self "storage" "list" [("prefix", Str prefix); ("count", unsigned (len keys))]
                ("stored key count exceeds the " +:+ pretty self.(storage_limits).(max_keys) +:+ "-key runtime limit")
            else (note self "storage" "list" (object [("prefix", Str prefix); ("keys", Arr (Str <$> keys))]), Ok keys)
        | Err e => record_error self "list" [("prefix", Str prefix)] e
        end
    end.

Definition storage_revision self : HostState S * result string N :=
  if negb self.(h_permissions).(storage) then deny self "storage" "revision" [] storage_denied
  else
    let '(self, recorded) := next_outcome self "storage" "revision" in
    match recorded with
    | Some outcome =>
        let! outcome := outcome on self in
        let '(self, answer) := or_diverge self (decode_recorded_revision outcome) in
        let '(self, compared) :=
          compare_read self answer (sb_revision self.(h_storage) self.(storage_namespace))
            "source state does not match recorded storage revision" in
        let! _ := compared on self in
        (note self "storage" "revision" outcome, answer)
    | None =>
        match sb_revision self.(h_storage) self.(storage_namespace) with
        | Ok revision => (note self "storage" "revision" (object [("revision", unsigned revision)]), Ok revision)
        | Err e => record_error self "revision" [] e
        end
    end.

(** A transaction that a replay repeats on its branch: the new storage and the
    answer of the backend, or [None] for a batch that was too large to be
    passed on. *)
Definition replay_transaction self (operation : string) (outcome : Value)
    (attempt : option (S * Result StorageTransactionResult)) (failed mismatch : string) :
    HostState S * result string StorageTransactionResult :=
  let '(self, answer) := or_diverge self (decode_recorded_transaction outcome) in
  match answer with
  | Ok recorded =>
      if self.(apply_replay_storage) then
        match attempt with
        | None =>
            let error := "recorded oversized storage batch unexpectedly succeeded" in (diverge self error, Err error)
        | Some (s, r) =>
            let self := set_storage self s in
            match r with
            | Err e => let error := failed +:+ storage_error_text e in (diverge self error, Err error)
            | Ok actual =>
                if negb (bool_decide (actual = recorded)) then (diverge self mismatch, Err mismatch)
                else (note self "storage" operation outcome, Ok recorded)
            end
        end
      else (note self "storage" operation outcome, answer)
  | Err _ => (note self "storage" operation outcome, answer)
  end.
Definition record_transaction self (operation : string) (identity : Value) (answer : Result StorageTransactionResult) :
    HostState S * result string StorageTransactionResult :=
  match identity with
  | Obj fields =>
      match answer with
      | Ok r =>
          (note self "storage" operation
             (Obj (insert_field "result_revision" (unsigned r.(tx_revision)) (insert_field "applied" (Bool r.(applied)) fields))),
           Ok r)
      | Err e =>
          let error := storage_error_text e in
          (note self "storage" operation (Obj (insert_field "error" (Str error) fields)), Err error)
      end
  | _ => (self, Err "storage trace identity is not an object")
  end.

Definition compare_exchange_storage self (revision : N) (key : string) (expected replacement : option bytes) :
    HostState S * result string StorageTransactionResult :=
  if negb self.(h_permissions).(storage) then deny self "storage" "compare-exchange" [("key", Str key)] storage_denied
  else
    let '(expected_value, replacement_value) := value_identities expected replacement in
    let identity := [("revision", unsigned revision); ("key", Str key); ("expected", expected_value);
                     ("replacement", replacement_value)] in
    let '(self, recorded) := next_outcome self "storage" "compare-exchange" in
    match recorded with
    | Some outcome =>
        let! outcome := outcome on self in
        let '(self, checked) := check_replay_fields self outcome identity in
        let! _ := checked on self in
        replay_transaction self "compare-exchange" outcome
          (Some (sb_compare_exchange self.(h_storage) self.(storage_namespace) revision key expected replacement
                   self.(storage_limits)))
          "replayed storage compare-exchange failed: " "source state does not match recorded compare-exchange result"
    | None =>
        let '(s, r) := sb_compare_exchange self.(h_storage) self.(storage_namespace) revision key expected replacement
                         self.(storage_limits) in
        record_transaction (set_storage self s) "compare-exchange" (object identity) r
    end.

Definition apply_storage_batch_request self (revision : N) (mutations : option (list StorageMutation)) (request : Value) :
    HostState S * result string StorageTransactionResult :=
  if negb self.(h_permissions).(storage) then deny self "storage" "apply" [] storage_denied
  else
    let identity := [("revision", unsigned revision); ("request", request)] in
    let '(self, recorded) := next_outcome self "storage" "apply" in
    match recorded with
    | Some outcome =>
        let! outcome := outcome on self in
        let '(self, checked) := check_replay_fields self outcome identity in
        let! _ := checked on self in
        replay_transaction self "apply" outcome
          ((fun mutations => sb_apply_batch self.(h_storage) self.(storage_namespace) revision mutations self.(storage_limits))
             <$> mutations)
          "replayed storage batch failed: " "source state does not match recorded storage batch result"
    | None =>
        let '(s, r) := match mutations with
                       | None => (self.(h_storage), Err InvalidTransaction)
                       | Some mutations =>
                           sb_apply_batch self.(h_storage) self.(storage_namespace) revision mutations self.(storage_limits)
                       end in
        record_transaction (set_storage self s) "apply" (object identity) r
    end.
Definition apply_storage_batch self (revision : N) (mutations : list StorageMutation) :
    HostState S * result string StorageTransactionResult :=
  apply_storage_batch_request self revision (Some mutations) (mutation_identity mutations).
Definition reject_oversized_storage_batch self (revision operations : N) : HostState S * result string StorageTransactionResult :=
  apply_storage_batch_request self revision None (object [("operations", unsigned operations); ("oversized", Bool true)]).
(** [storage_apply] of [host.rs] *)
Definition storage_apply self (revision : N) (mutations : list StorageMutation) : HostState S * result string StorageTransactionResult :=
  if MAX_TRANSACTION_OPERATIONS <? len mutations then reject_oversized_storage_batch self revision (len mutations)
  else apply_storage_batch self revision mutations.
End Calls.
