(* ===== verification/Runtime.v ===== *)
(** * Running and replaying a cartridge ([crates/cartridge-runtime/src/lib.rs])

    A guest is a program that calls the host and continues with the answer: what
    Wasmtime makes of a component and its arguments.  [run] handles its calls
    with the operations of [Host] and [HostStorage]; [execute], [replay_trace],
    [replay_from_snapshot] and [migrate] are the operations of the runtime. *)
From stdpp Require Import pretty.
From S2P Require Import Prelude Text Storage Snapshot Directory Blob Network Core Manifest Trace Media Graphics Audio Host HostStorage.

Definition MAX_GUEST_ERROR_BYTES : N := 16 * 1024.
Definition MAX_MIGRATION_STEPS_PER_RUN : N := 64.
Definition MAX_MIGRATION_TOTAL_TIMEOUT_MS : N := 10 * 60 * 1000.
Definition EPOCH_TICK_MS : N := 10.

(** ** The guest interface *)
Inductive HostCall : Type -> Type :=
| Log (level : LogLevel) (message : string) : HostCall unit
| HealthReport (state : GuestHealthState) (detail : string) : HostCall unit
| WallClockMs : HostCall (result string N)
| RandomBytes (length : N) : HostCall (result string bytes)
| ReadAsset (path : string) : HostCall (result string bytes)
| HttpFetch (request : GuestRequest) : HostCall (result string GuestResponse)
| ServeNext (timeout_ms : N) : HostCall (result string (option GuestServiceRequest))
| ServeRespond (request_id : string) (response : GuestResponse) : HostCall (result string unit)
| StorageGet (key : string) : HostCall (result string (option bytes))
| StoragePut (key : string) (value : bytes) : HostCall (result string unit)
| StorageDelete (key : string) : HostCall (result string bool)
| StorageList (prefix : string) : HostCall (result string (list string))
| StorageRevision : HostCall (result string N)
| StorageCompareExchange (revision : N) (key : string) (expected replacement : option bytes) :
    HostCall (result string StorageTransactionResult)
| StorageApply (revision : N) (mutations : list StorageMutation) : HostCall (result string StorageTransactionResult)
| WindowOpen (config : WindowConfig) : HostCall (result string N)
| WindowResize (window width height : N) : HostCall (result string unit)
| WindowClose (window : N) : HostCall (result string unit)
| GraphicsPresent (window : N) (document : bytes) : HostCall (result string FrameReceipt)
| InputNext : HostCall (result string (option bytes))
| AudioRender (document : bytes) : HostCall (result string AudioReceipt)
| MidiNext : HostCall (result string (option bytes)).
(** A guest ends with its own result and the fuel it used, or traps. *)
Inductive Guest :=
| Finish (answer : result string string) (fuel_left : N)
| Trap (message : string) (fuel_left : N)
| Invoke (A : Type) (call : HostCall A) (continue : A -> Guest).
Arguments Invoke {A}.

(** ** Limits and permissions *)
Definition effective_permissions (ceiling : option Permissions) (requested : Permissions) : Permissions :=
  match ceiling with
  | None => requested
  | Some c =>
      mkPermissions (requested.(clock) && c.(clock)) (requested.(random) && c.(random)) (requested.(assets) && c.(assets))
        (requested.(storage) && c.(storage)) (requested.(graphics) && c.(graphics)) (requested.(audio) && c.(audio))
        (requested.(midi) && c.(midi)) (requested.(http) && c.(http)) (requested.(serve) && c.(serve))
  end.
Definition effective_limits (ceiling : option RuntimeLimits) (requested : RuntimeLimits) : RuntimeLimits :=
  match ceiling with None => requested | Some c => constrained_by requested c end.
Definition storage_limits_of (limits : RuntimeLimits) : StorageLimits :=
  mkLimits limits.(storage_bytes) limits.(storage_keys) limits.(storage_value_bytes).
Definition timeout_ticks (timeout_ms : N) : N := (timeout_ms + (EPOCH_TICK_MS - 1)) / EPOCH_TICK_MS.
Definition trace_identity (manifest : PackageManifest) : TraceIdentity :=
  mkTraceIdentity manifest.(cartridge).(cm_id) manifest.(cartridge).(cm_version) manifest.(integrity).(in_component_sha256).
Definition with_runtime (manifest : PackageManifest) (limits : RuntimeLimits) : PackageManifest :=
  mkPackageManifest manifest.(pm_format_version) manifest.(cartridge) manifest.(permissions) manifest.(pm_http)
    manifest.(compatibility) limits manifest.(state) manifest.(dependencies) manifest.(provides) manifest.(integrity).
Definition validate_migration_budget (manifest : PackageManifest) (plan : MigrationPlan) : result string unit :=
  if MAX_MIGRATION_STEPS_PER_RUN <? len plan.(steps)
  then Err ("migration plan contains " +:+ pretty (len plan.(steps)) +:+ " steps; maximum is " +:+ pretty MAX_MIGRATION_STEPS_PER_RUN)
  else
    let? total := ok_or (checked_mul u64_max manifest.(Manifest.runtime).(timeout_ms) (len plan.(steps)))
                    "migration timeout budget overflowed" in
    if MAX_MIGRATION_TOTAL_TIMEOUT_MS <? total
    then Err ("migration timeout budget is " +:+ pretty total +:+ " ms; maximum is " +:+ pretty MAX_MIGRATION_TOTAL_TIMEOUT_MS +:+ " ms")
    else Ok tt.

(** The settings of a [Runtime] that a run depends on. *)
Record RuntimeConfig := mkRuntimeConfig {
  input_events : list InputEvent;
  midi_events : list MidiEvent;
  permission_ceiling : option Permissions;
  limit_ceiling : option RuntimeLimits;
  has_health_reporter : bool;
}.
(** The manifest and assets of an opened archive, and its component as the guest
    it runs for given arguments, or the error when it cannot be instantiated. *)
Record CartridgeArchive := mkArchive {
  ca_manifest : PackageManifest;
  ca_assets : gmap string bytes;
  ca_guest : list string -> result string Guest;
  ca_migration : string -> N -> N -> result string Guest;
}.
Record RunReport := mkRunReport {
  rr_output : string;
  rr_fuel_consumed : N;
  rr_trace : ExecutionTrace;
  rr_frames : list RenderedFrame;
  rr_audio : list Audio.AudioRender;
}.
Record MigrationStepReport := mkStepReport {
  ms_name : string; ms_from : N; ms_to : N; ms_fuel_consumed : N; ms_event_count : N;
}.
Record MigrationReport := mkMigrationReport { mr_plan : MigrationPlan; mr_steps : list MigrationStepReport; mr_snapshot : StorageSnapshot }.
(** The ways a run fails, with the text of the error. *)
Inductive RunError := Refused (message : string) | Replay (error : ReplayError) | Panicked.

Section Runtime.
Context {S : Type} `{SB : !StorageBackend S}.
Context `{Ext : Externals} `{JV : !Json Value} `{Hex : HexDecode} `{UC : UrlCrate} `{JRq : !Json HttpRequest}.
Context `{Png : !PngCrate} `{DF : !JsonDecode FrameDocument} `{DA : !JsonDecode AudioDocument}.
Context `{JI : !Json InputEvent} `{JM : !Json MidiEvent} `{VI : !ValueCodec InputEvent} `{VM : !ValueCodec MidiEvent}.
Implicit Types (self : HostState S) (w : Outside).

Definition handle {A : Type} (call : HostCall A) w self : HostState S * A :=
  match call in HostCall A return HostState S * A with
  | Log level message => (log self level message, tt)
  | HealthReport state detail => (health_report self state detail, tt)
  | WallClockMs => wall_clock_ms self w
  | RandomBytes length => random_bytes self w length
  | ReadAsset path => read_asset self path
  | HttpFetch request => http_fetch self w request
  | ServeNext timeout_ms => serve_next self w timeout_ms
  | ServeRespond request_id response => serve_respond self w request_id response
  | StorageGet key => get_storage self key
  | StoragePut key value => put_storage self key value
  | StorageDelete key => delete_storage self key
  | StorageList prefix => list_storage self prefix
  | StorageRevision => storage_revision self
  | StorageCompareExchange revision key expected replacement => compare_exchange_storage self revision key expected replacement
  | StorageApply revision mutations => storage_apply self revision mutations
  | WindowOpen config => window_open self config
  | WindowResize window width height => window_resize self window width height
  | WindowClose window => window_close self window
  | GraphicsPresent window document => graphics_present self w window document
  | InputNext => input_next self
  | AudioRender document => audio_render self w document
  | MidiNext => midi_next self
  end.

(** What a guest ends with: its result or a trap, and the fuel that is left. *)
Definition Ending : Type := result string (result string string) * N.
(** The run of a guest; [world n] is what the [n]-th call finds outside. *)
Fixpoint run (world : nat -> Outside) (n : nat) (guest : Guest) self : HostState S * Ending :=
  match guest with
  | Finish answer fuel_left => (self, (Ok answer, fuel_left))
  | Trap message fuel_left => (self, (Err message, fuel_left))
  | Invoke call continue =>
      let '(self, answer) := handle call (world n) self in
      run world (Datatypes.S n) (continue answer) self
  end.

(** ** [execute] *)
Definition prepare_host (config : RuntimeConfig) (archive : CartridgeArchive) (storage : S)
    (replay_events : option (list TraceEvent)) (apply : bool) : result RunError (HostState S) :=
  let manifest := with_runtime archive.(ca_manifest)
                    (effective_limits config.(limit_ceiling) archive.(ca_manifest).(Manifest.runtime)) in
  let permissions := effective_permissions config.(permission_ceiling) archive.(ca_manifest).(Manifest.permissions) in
  let host := new_host manifest permissions archive.(ca_assets) storage replay_events config.(has_health_reporter) in
  match with_media_input host config.(input_events) config.(midi_events) with
  | Ok host => Ok (if apply then set_apply_replay_storage host else host)
  | Err e => Err (Refused (media_error_text e))
  end.
(** The end of a run: the recorder is settled before the guest's own result is
    looked at. *)
Definition conclude (runtime_version : string) (manifest : PackageManifest) (args : list string)
    (expected : option TraceResult) (self : HostState S) (ending : Ending) : HostState S * result RunError RunReport :=
  let '(r, finished) := finish_replay self.(recorder) in
  let self := set_recorder self r in
  match finished with
  | Err e => (self, Err (Replay e))
  | Ok _ =>
      let '(self, (frames, audio, _)) := take_media self in
      match ending.1 with
      | Err message => (self, Err (Refused ("the component trapped while running: " +:+ message)))
      | Ok (Err message) =>
          if str_len message <=? MAX_GUEST_ERROR_BYTES
          then (self, Err (Refused ("cartridge returned an error: " +:+ message)))
          else (self, Err (Refused ("cartridge returned an error larger than the " +:+ pretty MAX_GUEST_ERROR_BYTES +:+ " byte limit")))
      | Ok (Ok output) =>
          if MAX_TRACE_OUTPUT_BYTES <? str_len output
          then (self, Err (Refused ("cartridge output exceeds the " +:+ pretty MAX_TRACE_OUTPUT_BYTES +:+ " byte limit")))
          else
            let fuel_consumed := manifest.(Manifest.runtime).(fuel) - ending.2 in
            let result := mkTraceResult output fuel_consumed in
            match match expected with None => Ok tt | Some expected => compare_result expected result end with
            | Err e => (self, Err (Replay e))
            | Ok _ =>
                (self, Ok (mkRunReport output fuel_consumed
                             (new_trace runtime_version (trace_identity manifest) args self.(recorder).(events) result)
                             frames audio))
            end
      end
  end.
Context `{SV : !Semver}.
Definition execute (runtime_version : string) (config : RuntimeConfig) (world : nat -> Outside) (storage : S)
    (archive : CartridgeArchive) (args : list string) (replay : option ExecutionTrace) (apply : bool) :
    S * result RunError RunReport :=
  match negotiate_platform archive.(ca_manifest) with
  | None => (storage, Err Panicked)
  | Some (Err e) => (storage, Err (Refused (error_to_string e)))
  | Some (Ok _) =>
      let manifest := with_runtime archive.(ca_manifest)
                        (effective_limits config.(limit_ceiling) archive.(ca_manifest).(Manifest.runtime)) in
      let permissions := effective_permissions config.(permission_ceiling) archive.(ca_manifest).(Manifest.permissions) in
      let '(storage, prepared) :=
        if is_none replay && permissions.(Manifest.storage)
        then sb_prepare storage manifest.(cartridge).(cm_id) manifest.(Manifest.state).(schema)
               (storage_limits_of manifest.(Manifest.runtime))
        else (storage, Ok tt) in
      match prepared with
      | Err e => (storage, Err (Refused (storage_error_text e)))
      | Ok _ =>
          match prepare_host config archive storage (et_events <$> replay) apply with
          | Err e => (storage, Err e)
          | Ok host =>
              match archive.(ca_guest) args with
              | Err e => (storage, Err (Refused ("the component could not be instantiated: " +:+ e)))
              | Ok guest =>
                  let '(host, ending) := run world 0 guest host in
                  let '(host, report) := conclude runtime_version manifest args (et_result <$> replay) host ending in
                  (host.(h_storage), report)
              end
          end
      end
  end.
(** [Runtime::replay] *)
Definition replay_trace (runtime_version : string) (config : RuntimeConfig) (world : nat -> Outside) (storage : S)
    (archive : CartridgeArchive) (args : list string) (trace : ExecutionTrace) : S * result RunError RunReport :=
  match validate_invocation trace runtime_version (trace_identity archive.(ca_manifest)) args with
  | Err e => (storage, Err (Replay e))
  | Ok _ => execute runtime_version config world storage archive args (Some trace) false
  end.
End Runtime.

(** ** Branches of a snapshot *)
Section Branches.
Context `{Ext : Externals} `{JV : !Json Value} `{Hex : HexDecode} `{UC : UrlCrate} `{JRq : !Json HttpRequest}.
Context `{Png : !PngCrate} `{DF : !JsonDecode FrameDocument} `{DA : !JsonDecode AudioDocument}.
Context `{JI : !Json InputEvent} `{JM : !Json MidiEvent} `{VI : !ValueCodec InputEvent} `{VM : !ValueCodec MidiEvent}.
Context `{SV : !Semver} `{JSp : !Json SnapshotPayload}.

Definition refuse {A : Type} (r : Result A) : result RunError A :=
  match r with Ok a => Ok a | Err e => Err (Refused (storage_error_text e)) end.
(** A snapshot loaded into a branch of its own and prepared for a schema *)
Definition branch_of (snapshot : StorageSnapshot) (cartridge_id : string) (schema : N) (limits : StorageLimits) :
    result RunError SnapshotStorage :=
  let? branch := refuse (from_snapshot snapshot cartridge_id limits) in
  let '(branch, prepared) := sb_prepare branch cartridge_id schema limits in
  let? _ := refuse prepared in
  Ok branch.

Definition replay_from_snapshot (runtime_version : string) (config : RuntimeConfig) (world : nat -> Outside)
    (archive : CartridgeArchive) (args : list string) (trace : ExecutionTrace) (source : StorageSnapshot) :
    result RunError (RunReport * StorageSnapshot) :=
  let? _ := match validate_invocation trace runtime_version (trace_identity archive.(ca_manifest)) args with
            | Ok _ => Ok tt
            | Err e => Err (Replay e)
            end in
  let limits := storage_limits_of (effective_limits config.(limit_ceiling) archive.(ca_manifest).(Manifest.runtime)) in
  let? branch := branch_of source archive.(ca_manifest).(cartridge).(cm_id) archive.(ca_manifest).(Manifest.state).(schema) limits in
  let '(branch, report) := execute runtime_version config world branch archive args (Some trace) true in
  let? report := report in
  let? snapshot := refuse (export_snapshot branch) in
  Ok (report, snapshot).

(** ** Migrations *)
Definition execute_migration_step (config : RuntimeConfig) (world : nat -> Outside) (archive : CartridgeArchive)
    (manifest : PackageManifest) (branch : SnapshotStorage) (step : StateMigration) :
    result RunError (SnapshotStorage * MigrationStepReport) :=
  let permissions := effective_permissions config.(permission_ceiling) manifest.(Manifest.permissions) in
  let? guest := match archive.(ca_migration) step.(mg_name) step.(from) step.(to) with
                | Ok guest => Ok guest
                | Err e => Err (Refused e)
                end in
  let host := new_host manifest permissions archive.(ca_assets) branch None false in
  let '(host, ending) := run world 0 guest host in
  let '(r, finished) := finish_replay host.(recorder) in
  let? _ := match finished with Ok _ => Ok tt | Err e => Err (Replay e) end in
  match ending.1 with
  | Err message => Err (Refused ("migration " +:+ step.(mg_name) +:+ " trapped while running: " +:+ message))
  | Ok (Err message) =>
      if MAX_GUEST_ERROR_BYTES <? str_len message
      then Err (Refused ("migration " +:+ step.(mg_name) +:+ " returned an error larger than the "
                         +:+ pretty MAX_GUEST_ERROR_BYTES +:+ " byte limit"))
      else Err (Refused ("migration " +:+ step.(mg_name) +:+ " returned an error: " +:+ message))
  | Ok (Ok _) =>
      Ok (host.(h_storage),
          mkStepReport step.(mg_name) step.(from) step.(to) (manifest.(Manifest.runtime).(fuel) - ending.2) (len r.(events)))
  end.
(** The loop over the steps: [current] is the snapshot so far. *)
Fixpoint migrate_steps (config : RuntimeConfig) (world : nat -> nat -> Outside) (archive : CartridgeArchive)
    (manifest : PackageManifest) (limits : StorageLimits) (n : nat) (current : StorageSnapshot) (l : list StateMigration) :
    result RunError (StorageSnapshot * list MigrationStepReport) :=
  match l with
  | [] => Ok (current, [])
  | step :: l =>
      let? branch := branch_of current manifest.(cartridge).(cm_id) step.(from) limits in
      let? (branch, report) := execute_migration_step config (world n) archive manifest branch step in
      let? next := refuse (export_migrated_snapshot branch step.(from) step.(to) limits) in
      let? _ := refuse (summary next) in
      let? (final, reports) := migrate_steps config world archive manifest limits (S n) next l in
      Ok (final, report :: reports)
  end.
Definition migrate (config : RuntimeConfig) (world : nat -> nat -> Outside) (archive : CartridgeArchive) (source : StorageSnapshot) :
    result RunError MigrationReport :=
  let manifest := with_runtime archive.(ca_manifest)
                    (effective_limits config.(limit_ceiling) archive.(ca_manifest).(Manifest.runtime)) in
  match migration_plan manifest source.(sn_payload).(sn_state_schema) with
  | None => Err Panicked
  | Some (Err e) => Err (Refused (error_to_string e))
  | Some (Ok plan) =>
      let? _ := match validate_migration_budget manifest plan with Ok _ => Ok tt | Err e => Err (Refused e) end in
      let limits := storage_limits_of manifest.(Manifest.runtime) in
      let? _ := branch_of source manifest.(cartridge).(cm_id) source.(sn_payload).(sn_state_schema) limits in
      if bool_decide (length plan.(steps) = 0%nat) then Ok (mkMigrationReport plan [] source)
      else if negb (effective_permissions config.(permission_ceiling) manifest.(Manifest.permissions)).(Manifest.storage)
      then Err (Refused "state migrations require the storage permission")
      else
        let? (current, reports) := migrate_steps config world archive manifest limits 0 source plan.(steps) in
        if negb (current.(sn_payload).(sn_state_schema) =? plan.(target_schema))
        then Err (Refused ("migration ended at schema " +:+ pretty current.(sn_payload).(sn_state_schema) +:+ "; expected "
                           +:+ pretty plan.(target_schema)))
        else Ok (mkMigrationReport plan reports current)
  end.
End Branches.
