(* ===== verification/RuntimeTheorems.v ===== *)
(** * Theorems about recording and replaying a run

    A replay is a lock-step simulation of the recorded run: at every call the
    replaying host is the [mirror] of the recording one, with the events of the
    finished run ahead of its cursor.  A run whose calls the host answered is
    reproduced exactly, whatever the outside world, the queues and the live
    storage of the replay are. *)
From stdpp Require Import pretty.
From S2P Require Import Prelude Text Storage Snapshot Directory Blob Network Core Manifest Trace Media Graphics Audio Host HostStorage Runtime ManifestTheorems NetworkTheorems GraphicsTheorems AudioTheorems.

(** ** Fields of recorded objects *)
Lemma value_get_insert (k key : string) (v : Value) (fields : list (string * Value)) :
  value_get (Obj (insert_field key v fields)) k = if String.eqb key k then Some v else value_get (Obj fields) k.
Proof.
  cbn [value_get].
  induction fields as [|[k' w] fields IH]; cbn [insert_field].
  - cbn [List.find fst]. destruct (String.eqb_spec key k) as [->|Hk].
    + by rewrite bool_decide_eq_true_2.
    + by rewrite bool_decide_eq_false_2.
  - case_bool_decide as Hkey; [subst k'|destruct (str_lt key k')]; cbn [List.find fst].
    + destruct (String.eqb_spec key k) as [->|Hk]; [by rewrite bool_decide_eq_true_2|].
      by rewrite bool_decide_eq_false_2.
    + destruct (String.eqb_spec key k) as [->|Hk]; [by rewrite bool_decide_eq_true_2|].
      by rewrite bool_decide_eq_false_2.
    + case_bool_decide as Hk'; [|exact IH].
      destruct (String.eqb_spec key k) as [->|Hk]; [congruence|done].
Qed.
Lemma value_get_object (fields : list (string * Value)) (k : string) :
  value_get (object fields) k = foldl (fun acc f => if String.eqb f.1 k then Some f.2 else acc) None fields.
Proof.
  unfold object. change (@None Value) with (value_get (Obj []) k). generalize (@nil (string * Value)) as acc.
  induction fields as [|[key v] fields IH]; intros acc; [done|].
  cbn [foldl fst snd]. by rewrite IH, value_get_insert.
Qed.
(** Computes the fields of an [object] with literal names. *)
Ltac fields := rewrite ?value_get_insert, ?value_get_object; cbn -[value_get object hex_sha256 hex_encode N.leb N.ltb u16_max headers_of_value headers_value].

Lemma read_headers_back (l : list (string * string)) (acc : gmap string string) :
  read_headers acc ((fun h => (h.1, Str h.2)) <$> l) = Ok (foldl insert_pair acc l).
Proof. revert acc. induction l as [|[k v] l IH]; intros acc; [done|]. cbn. apply IH. Qed.
Lemma headers_round_trip (headers : gmap string string) : headers_of_value (headers_value headers) = Ok headers.
Proof. unfold headers_of_value, headers_value. by rewrite read_headers_back, insert_btree. Qed.

(** ** Reading back what a call recorded *)
Section Decoding.
Context `{Ext : Externals} `{Hex : HexDecode}.
Lemma decode_get_missing (key : string) :
  decode_recorded_get (object [("key", Str key); ("found", Bool false)]) = Ok None.
Proof. unfold decode_recorded_get, or_recorded_error, recorded_error. by fields. Qed.
Lemma decode_get_found (key : string) (b : bytes) :
  decode_recorded_get
    (object [("key", Str key); ("found", Bool true); ("length", unsigned (len b)); ("sha256", Str (hex_sha256 b));
             ("bytes", Str (hex_encode b))]) = Ok (Some b).
Proof.
  unfold decode_recorded_get, or_recorded_error, recorded_error. fields.
  rewrite hex_decode_encode. cbn -[value_get object hex_sha256 hex_encode N.leb N.ltb u16_max headers_of_value headers_value]. fields.
  by rewrite !bool_decide_eq_true_2.
Qed.
Lemma decode_unit_stored (key : string) (b : bytes) :
  decode_recorded_unit
    (object ([("key", Str key); ("length", unsigned (len b)); ("sha256", Str (hex_sha256 b))] ++ [("stored", Bool true)])) = Ok tt.
Proof. unfold decode_recorded_unit, or_recorded_error, recorded_error. fields. by rewrite bool_decide_eq_true_2. Qed.
Lemma decode_bool_deleted (key : string) (deleted : bool) :
  decode_recorded_bool (object [("key", Str key); ("deleted", Bool deleted)]) "deleted" = Ok deleted.
Proof. unfold decode_recorded_bool, or_recorded_error, recorded_error. by fields. Qed.
Lemma strings_of_back (l : list string) : strings_of (Str <$> l) = Ok l.
Proof. induction l as [|s l IH]; [done|]. cbn [fmap list_fmap strings_of]. by rewrite IH. Qed.
Lemma decode_list_keys (prefix : string) (keys : list string) :
  decode_recorded_list (object [("prefix", Str prefix); ("keys", Arr (Str <$> keys))]) = Ok keys.
Proof. unfold decode_recorded_list, or_recorded_error, recorded_error. fields. by rewrite strings_of_back. Qed.
Lemma decode_revision (n : N) : decode_recorded_revision (object [("revision", unsigned n)]) = Ok n.
Proof. unfold decode_recorded_revision, or_recorded_error, recorded_error. by fields. Qed.
(** The outcome of a transaction, whose identity holds neither an error nor a
    denial. *)
Definition transaction_outcome (identity : list (string * Value)) (r : StorageTransactionResult) : Value :=
  match object identity with
  | Obj fields =>
      Obj (insert_field "result_revision" (unsigned r.(tx_revision)) (insert_field "applied" (Bool r.(applied)) fields))
  | v => v
  end.
Lemma transaction_get (identity : list (string * Value)) (r : StorageTransactionResult) (k : string) :
  value_get (transaction_outcome identity r) k =
  if String.eqb "result_revision" k then Some (unsigned r.(tx_revision))
  else if String.eqb "applied" k then Some (Bool r.(applied)) else value_get (object identity) k.
Proof. unfold transaction_outcome. cbn [object]. by rewrite !value_get_insert. Qed.
Lemma decode_transaction (identity : list (string * Value)) (r : StorageTransactionResult) :
  value_get (object identity) "error" = None -> value_get (object identity) "denied" = None ->
  decode_recorded_transaction (transaction_outcome identity r) = Ok r.
Proof.
  intros He Hd. unfold decode_recorded_transaction, or_recorded_error, recorded_error.
  rewrite !transaction_get. cbn -[value_get object]. rewrite He, Hd. by destruct r.
Qed.
Lemma recorded_response_back (print : string) (r : HttpResponse) :
  r.(rp_status) <= u16_max ->
  recorded_response (object [("request", Str print); ("response", response_value r)]) = Ok r.
Proof.
  intros Hs. unfold recorded_response, response_value. do 2 fields. rewrite (proj2 (N.leb_le _ _) Hs). fields.
  rewrite headers_round_trip. fields. rewrite hex_decode_encode. by destruct r.
Qed.
End Decoding.

Lemma recorded_event_back {A : Type} `{!ValueCodec A} (kind : string) (validate : A -> MediaResult A) (o : option A) :
  (forall a, o = Some a -> validate a = Ok a) ->
  recorded_event kind validate (object [("event", to_value_option o)]) = Ok o.
Proof.
  intros Hv. unfold recorded_event. fields. unfold from_value_option, to_value_option. destruct o as [a|]; cbn [from_option].
  - rewrite bool_decide_eq_false_2 by apply to_value_not_null. rewrite from_to_value. cbn. by rewrite (Hv a).
  - by rewrite bool_decide_eq_true_2.
Qed.

(** ** The recorder of a replay *)
Section Mirror.
Context {S : Type} `{SB : !StorageBackend S}.
Context `{Ext : Externals} `{JV : !Json Value} `{Hex : HexDecode} `{UC : UrlCrate} `{JRq : !Json HttpRequest}.
Context `{Png : !PngCrate} `{DF : !JsonDecode FrameDocument} `{DA : !JsonDecode AudioDocument}.
Context `{JI : !Json InputEvent} `{JM : !Json MidiEvent} `{VI : !ValueCodec InputEvent} `{VM : !ValueCodec MidiEvent}.
(** The events of the recorded run, whether the replay applies storage, and the
    storage it leaves alone otherwise. *)
Context (full : list TraceEvent) (apply : bool) (s0 : S).
Implicit Types (l r : HostState S).

(** A recording host on the way to [full]. *)
Definition tracked (r : Recorder) : Prop :=
  r.(replay) = None /\ r.(divergence) = None /\ r.(trace_limit_reached) = false /\ r.(events) `prefix_of` full.
Definition mirror_recorder (r : Recorder) : Recorder :=
  mkRecorder r.(events) r.(trace_bytes) r.(trace_limit_reached) r.(next_sequence)
    (Some (mkCursor full (len r.(events)))) r.(divergence).
(** The replaying host: its own queues and timings, the storage of its branch. *)
Definition mirror (q : InputQueue) (m : list MidiEvent) (mm : MediaMetrics) l : HostState S :=
  mkHost l.(h_permissions) l.(h_assets) (if apply then l.(h_storage) else s0) l.(storage_namespace) l.(Host.storage_limits)
    (mirror_recorder l.(recorder)) apply l.(display) q m l.(audio_renders) l.(audio_limits) l.(media_bytes) mm
    l.(http_policy) l.(health_reporter) l.(health_reports) l.(service_requests) l.(effects).

Lemma record_tracked (r : Recorder) c o v :
  r.(replay) = None -> tracked (record r c o v) ->
  tracked r /\ exists b, record r c o v = mkRecorder (r.(events) ++ [mkTraceEvent r.(next_sequence) c o v]) b false
                              (r.(next_sequence) + 1) None None.
Proof.
  intros Hr (_ & Hd & Hlim & Hp). unfold record in *.
  destruct (trace_limit_reached r) eqn:Hl; [congruence|].
  destruct ((MAX_TRACE_EVENTS <=? len r.(events)) || _); [done|].
  rewrite Hr in *. cbn in *. rewrite ?Hl, Hd. split; [|by eexists].
  repeat split; [done..|]. etrans; [|exact Hp]. by apply prefix_app_r.
Qed.
Lemma replayed_event (r : Recorder) c o v :
  tracked (record r c o v) -> r.(replay) = None ->
  full !! N.to_nat (len r.(events)) = Some (mkTraceEvent r.(next_sequence) c o v).
Proof.
  intros Ht Hr. destruct (record_tracked r c o v Hr Ht) as [_ [b Hb]]. destruct Ht as (_ & _ & _ & Hp).
  rewrite Hb in Hp. cbn in Hp. destruct Hp as [rest Hp]. rewrite Hp, <- app_assoc.
  unfold len. rewrite Nat2N.id. by rewrite lookup_app_r, Nat.sub_diag by done.
Qed.
Lemma mirror_record (r : Recorder) c o v :
  r.(replay) = None -> tracked (record r c o v) -> record (mirror_recorder r) c o v = mirror_recorder (record r c o v).
Proof.
  intros Hr Ht. pose proof (replayed_event r c o v Ht Hr) as He.
  destruct (record_tracked r c o v Hr Ht) as [(_ & Hd & Hl & _) _]. revert Ht. unfold record.
  cbn [mirror_recorder trace_limit_reached trace_bytes events Host.replay Host.divergence next_sequence]. rewrite Hl, Hr.
  intros (_ & _ & Hlim & _). destruct ((MAX_TRACE_EVENTS <=? len r.(events)) || _); [done|].
  unfold compare_event. cbn [rc_events Host.cursor]. rewrite He, bool_decide_eq_true_2 by done. cbn.
  unfold mirror_recorder. cbn. f_equal. do 2 f_equal. unfold len. rewrite length_app. cbn. lia.
Qed.
Lemma mirror_outcome (r : Recorder) c o v :
  r.(replay) = None -> tracked (record r c o v) ->
  replay_outcome (mirror_recorder r) c o = (mirror_recorder r, Some (Ok v)).
Proof.
  intros Hr Ht. unfold replay_outcome. cbn [mirror_recorder Host.replay rc_events Host.cursor].
  rewrite (replayed_event r c o v Ht Hr). cbn. rewrite N.eqb_refl, !bool_decide_eq_true_2 by done. done.
Qed.

Lemma set_same_recorder l : set_recorder l l.(recorder) = l.
Proof. by destruct l. Qed.
Lemma note_mirror q m mm l r c o v :
  r = mirror q m mm l -> l.(recorder).(replay) = None -> tracked (note l c o v).(recorder) ->
  note r c o v = mirror q m mm (note l c o v).
Proof.
  intros -> Hr Ht. unfold note, set_recorder, mirror. cbn. by rewrite mirror_record.
Qed.
Lemma outcome_mirror q m mm l l1 c o v :
  l.(recorder).(replay) = None -> l1.(recorder) = l.(recorder) -> tracked (note l1 c o v).(recorder) ->
  next_outcome (mirror q m mm l) c o = (mirror q m mm l, Some (Ok v)).
Proof.
  intros Hr Heq Ht. unfold note in Ht. cbn in Ht. rewrite Heq in Ht.
  unfold next_outcome. cbn [mirror recorder]. rewrite (mirror_outcome _ _ _ v) by done. done.
Qed.
Lemma outcome_live l c o : l.(recorder).(replay) = None -> next_outcome l c o = (l, None).
Proof. intros Hr. unfold next_outcome, replay_outcome. rewrite Hr. by rewrite set_same_recorder. Qed.
Lemma check_fields (r : HostState S) outcome (fields : list (string * Value)) :
  Forall (fun f => value_get outcome f.1 = Some f.2) fields -> check_replay_fields r outcome fields = (r, Ok tt).
Proof.
  induction 1 as [|[k v] fields Hk _ IH]; [done|]. cbn. unfold check_replay_field.
  by rewrite bool_decide_eq_true_2.
Qed.

(** ** One event per call *)
(** A live call records at most one event, under names that a trace may hold. *)
Definition one_event l l' : Prop :=
  l'.(recorder) = l.(recorder)
  \/ exists c o v, valid_label c && valid_label o = true /\ l'.(recorder) = record l.(recorder) c o v.
Lemma one_event_note l l1 c o v :
  l1.(recorder) = l.(recorder) -> valid_label c && valid_label o = true -> one_event l (note l1 c o v).
Proof. intros H Hl. right. exists c, o, v. split; [done|]. unfold note. cbn. by rewrite H. Qed.
Lemma one_event_refl l l1 : l1.(recorder) = l.(recorder) -> one_event l l1.
Proof. by left. Qed.
Lemma record_live (r : Recorder) c o v : r.(replay) = None -> (record r c o v).(replay) = None.
Proof.
  intros Hr. unfold record. destruct (trace_limit_reached r); [done|].
  destruct (_ || _); [done|]. rewrite Hr. done.
Qed.
Lemma one_event_live l l' : one_event l l' -> l.(recorder).(replay) = None -> l'.(recorder).(replay) = None.
Proof. intros [->|(c & o & v & _ & ->)] Hr; [done|]. by apply record_live. Qed.
Lemma one_event_tracked l l' :
  one_event l l' -> l.(recorder).(replay) = None -> tracked l'.(recorder) -> tracked l.(recorder).
Proof. intros [->|(c & o & v & _ & ->)] Hr Ht; [done|]. by destruct (record_tracked _ _ _ _ Hr Ht). Qed.

(** Takes a live call apart into the states it can end in. *)
Ltac branch :=
  match goal with
  | |- _ (_, _).1 => cbn [fst]
  | |- _ (match match ?x with _ => _ end with _ => _ end).1 => destruct x
  | |- _ (match ?x with _ => _ end).1 => destruct x
  | |- _ (match ?x with _ => _ end) => destruct x
  | |- one_event _ (note _ _ _ _) => apply one_event_note; reflexivity
  | |- one_event _ _ => apply one_event_refl; reflexivity
  | H : ?P |- ?P => exact H
  end.
Ltac live_call H := cbn [fst]; cbv zeta; rewrite ?(outcome_live _ _ _ H); repeat branch.
Ltac open_calls :=
  unfold log, health_report, wall_clock_ms, random_bytes, read_asset, http_fetch, serve_next, serve_respond, get_storage,
    put_storage, delete_storage, list_storage, storage_revision, compare_exchange_storage, storage_apply,
    reject_oversized_storage_batch, apply_storage_batch, apply_storage_batch_request, record_transaction, record_error,
    window_open, window_resize, window_close, graphics_present, note_media, input_next, audio_render, midi_next, deny.
Lemma handle_one_event {A : Type} (call : HostCall A) w l :
  l.(recorder).(replay) = None -> one_event l (handle call w l).1.
Proof.
  intros H. destruct call; cbn [handle]; open_calls; live_call H.
Qed.

(** ** The fields a replay shares with its run *)
Lemma mirror_permissions q m mm l : (mirror q m mm l).(h_permissions) = l.(h_permissions). Proof. done. Qed.
Lemma mirror_assets q m mm l : (mirror q m mm l).(h_assets) = l.(h_assets). Proof. done. Qed.
Lemma mirror_display q m mm l : (mirror q m mm l).(display) = l.(display). Proof. done. Qed.
Lemma mirror_policy q m mm l : (mirror q m mm l).(http_policy) = l.(http_policy). Proof. done. Qed.
Lemma mirror_namespace q m mm l : (mirror q m mm l).(storage_namespace) = l.(storage_namespace). Proof. done. Qed.
Lemma mirror_limits q m mm l : (mirror q m mm l).(Host.storage_limits) = l.(Host.storage_limits). Proof. done. Qed.
Lemma mirror_apply q m mm l : (mirror q m mm l).(apply_replay_storage) = apply. Proof. done. Qed.
Lemma mirror_storage q m mm l : apply = true -> (mirror q m mm l).(h_storage) = l.(h_storage).
Proof. intros Ha. unfold mirror. cbn. by rewrite Ha. Qed.
Lemma set_storage_mirror q m mm l s : apply = true -> set_storage (mirror q m mm l) s = mirror q m mm (set_storage l s).
Proof. intros Ha. unfold mirror, set_storage. cbn. by rewrite Ha. Qed.
Lemma ignored_storage_mirror q m mm l s : apply = false -> mirror q m mm (set_storage l s) = mirror q m mm l.
Proof. intros Ha. unfold mirror, set_storage. cbn. by rewrite Ha. Qed.
Lemma set_display_mirror q m mm l d mm' ml : set_display (mirror q m mm l) d mm' = mirror q m mm' (set_display l d ml).
Proof. done. Qed.
Lemma set_audio_mirror q m mm l a n mm' ml : set_audio (mirror q m mm l) a n mm' = mirror q m mm' (set_audio l a n ml).
Proof. done. Qed.
Ltac demirror := rewrite ?mirror_permissions, ?mirror_assets, ?mirror_display, ?mirror_policy, ?mirror_namespace, ?mirror_limits, ?mirror_apply.

Lemma deny_mirror {A : Type} q m mm l r c o fields error :
  r = mirror q m mm l -> l.(recorder).(replay) = None -> tracked (@deny S _ A l c o fields error).1.(recorder) ->
  @deny S _ A r c o fields error = (mirror q m mm (@deny S _ A l c o fields error).1, Err error).
Proof. intros -> Hr Ht. unfold deny. f_equal. by apply note_mirror. Qed.
Lemma note_media_mirror {A : Type} q m mm l r op ef (ans : MediaResult A) value :
  r = mirror q m mm l -> l.(recorder).(replay) = None -> tracked (note_media l op ef ans value).1.(recorder) ->
  note_media r op ef ans value = (mirror q m mm (note_media l op ef ans value).1, (note_media l op ef ans value).2).
Proof. intros -> Hr. unfold note_media. destruct ans; cbn [fst snd]; intros Ht; f_equal; by apply note_mirror. Qed.
Lemma compare_read_mirror {A : Type} `{EqDecision A} (r : HostState S) (a : A) (actual : Result A) error :
  (r.(apply_replay_storage) = true -> actual = Ok a) -> compare_read r (Ok a) actual error = (r, Ok tt).
Proof.
  intros H. unfold compare_read. destruct (apply_replay_storage r); [|done].
  rewrite H by done. cbn. by rewrite bool_decide_eq_true_2.
Qed.

(** What it takes for the trace of a call to hold all that a replay needs: clock,
    queues and storage answered without an error or were not permitted at all, a
    request was sent and answered or refused before that, and the guest serves no
    requests. *)
Definition refused_before_sending l (request : GuestRequest) : bool :=
  match collect_headers ∅ ∅ request.(gq_headers) with
  | Err _ => true
  | Ok headers =>
      let request := mkRequest request.(gq_method) request.(gq_url) headers request.(gq_body) in
      negb (is_ok (fingerprint request)) || negb l.(h_permissions).(http) || negb (is_ok (authorize l.(http_policy) request))
  end.
Definition answered {A : Type} (call : HostCall A) w l : bool :=
  match call with
  | WallClockMs => negb l.(h_permissions).(clock) || is_ok (wall_clock_ms l w).2
  | HttpFetch request => refused_before_sending l request || is_ok (http_fetch l w request).2
  | ServeNext _ | ServeRespond _ _ => negb l.(h_permissions).(serve)
  | StorageGet key => negb l.(h_permissions).(storage) || is_ok (get_storage l key).2
  | StoragePut key value => negb l.(h_permissions).(storage) || is_ok (put_storage l key value).2
  | StorageDelete key => negb l.(h_permissions).(storage) || is_ok (delete_storage l key).2
  | StorageList prefix => negb l.(h_permissions).(storage) || is_ok (list_storage l prefix).2
  | StorageRevision => negb l.(h_permissions).(storage) || is_ok (storage_revision l).2
  | StorageCompareExchange revision key expected replacement =>
      negb l.(h_permissions).(storage) || is_ok (compare_exchange_storage l revision key expected replacement).2
  | StorageApply revision mutations => negb l.(h_permissions).(storage) || is_ok (storage_apply l revision mutations).2
  | InputNext => negb l.(h_permissions).(graphics) || is_ok (input_next l).2
  | MidiNext => negb l.(h_permissions).(midi) || is_ok (midi_next l).2
  | _ => true
  end.
Definition queues_ok l : Prop :=
  Forall (fun e => validate_input e = Ok e) l.(input).(iq_events) /\ Forall (fun e => validate_midi e = Ok e) l.(h_midi).
Definition reproduced {A : Type} (call : HostCall A) : Prop :=
  forall w w' l q m mm,
    l.(recorder).(replay) = None -> queues_ok l -> answered call w l = true -> tracked (handle call w l).1.(recorder) ->
    exists mm', handle call w' (mirror q m mm l) = (mirror q m mm' (handle call w l).1, (handle call w l).2).

Lemma clock_reproduced : reproduced WallClockMs.
Proof.
  intros w w' l q m mm Hr _. cbn [answered handle]. intros Ha Ht. exists mm. revert Ha Ht. unfold wall_clock_ms.
  demirror. destruct (clock _); cbn [negb orb]; [|intros _ Ht; by apply deny_mirror].
  rewrite outcome_live by done. destruct (system_time_ms w) as [millis|e]; [|done].
  destruct (u64_max <? millis); [done|]. intros _ Ht.
  rewrite (outcome_mirror _ _ _ l l _ _ _ Hr eq_refl Ht). fields. f_equal. by apply note_mirror.
Qed.
Lemma random_reproduced length : reproduced (RandomBytes length).
Proof.
  intros w w' l q m mm Hr _. cbn [answered handle]. intros _ Ht. exists mm. revert Ht. unfold random_bytes.
  demirror. destruct (random _); cbn [negb]; [|intros Ht; by apply deny_mirror].
  destruct (MAX_RANDOM_BYTES <? length); [intros Ht; by apply deny_mirror|].
  rewrite outcome_live by done. intros Ht.
  rewrite (outcome_mirror _ _ _ l l _ _ _ Hr eq_refl Ht). fields.
  rewrite bool_decide_eq_true_2 by done. cbn [negb]. fields. rewrite hex_decode_encode.
  replace (len (entropy w <$> seq 0 (N.to_nat length)) =? length) with true; cycle 1.
  { symmetry. apply N.eqb_eq. unfold len. rewrite length_fmap, length_seq. apply N2Nat.id. }
  cbn [negb]. f_equal. by apply note_mirror.
Qed.
Lemma log_reproduced level message : reproduced (Log level message).
Proof.
  intros w w' l q m mm Hr _. cbn [answered handle fst snd]. intros _ Ht. exists mm. f_equal. revert Ht. unfold log.
  change (trace_limit_reached (recorder (mirror q m mm l))) with (trace_limit_reached (recorder l)).
  destruct (trace_limit_reached (recorder l)); [done|]. cbv zeta. intros Ht. by apply note_mirror.
Qed.
Lemma health_reproduced state detail : reproduced (HealthReport state detail).
Proof.
  intros w w' l q m mm Hr _ _ _. cbn [handle fst snd]. exists mm. f_equal. unfold health_report.
  destruct (_ || _); [done|]. change (health_reporter (mirror q m mm l)) with (health_reporter l).
  destruct (health_reporter l); [|done]. change (health_reports (mirror q m mm l)) with (health_reports l).
  by destruct (_ <=? _).
Qed.
Lemma asset_reproduced path : reproduced (ReadAsset path).
Proof.
  intros w w' l q m mm Hr _ _. cbn [handle]. intros Ht. exists mm. revert Ht. unfold read_asset. demirror.
  destruct (assets _); cbn [negb]; [|intros Ht; by apply deny_mirror].
  destruct (is_safe_asset_path path); cbn [negb]; [|intros Ht; by apply deny_mirror].
  destruct (h_assets l !! path); cbn [fst snd]; intros Ht; f_equal; by apply note_mirror.
Qed.
Lemma in_range_u16 (n : N) : in_range 100 599 n = true -> n <= u16_max.
Proof. unfold in_range. rewrite andb_true_iff, !N.leb_le. change u16_max with 65535. lia. Qed.
Lemma http_reproduced request : reproduced (HttpFetch request).
Proof.
  intros w w' l q m mm Hr _. cbn [answered handle]. intros Ha Ht. exists mm. revert Ha Ht.
  unfold refused_before_sending, http_fetch. destruct (collect_headers _ _ _) as [headers|e]; [|done].
  cbv zeta. set (rq := mkRequest _ _ _ _). demirror.
  destruct (fingerprint rq) as [print|e]; [|done]. cbn [is_ok negb orb].
  destruct (http _); cbn [negb orb]; [|intros _ Ht; by apply deny_mirror].
  destruct (authorize _ rq) as [url|e]; cbn [is_ok negb orb]; [|intros _ Ht; by apply deny_mirror].
  rewrite outcome_live by done. destruct (http_transport w) as [transport|]; [|done]. cbn [ok_or].
  destruct (transport rq) as [response|e]; [|done].
  destruct (validate_response _ response) as [[]|e] eqn:Hv; [|done]. intros _ Ht.
  assert (rp_status response <= u16_max) as Hs.
  { apply in_range_u16. revert Hv. unfold validate_response. destruct (_ <? _); [done|].
    by destruct (in_range 100 599 _). }
  rewrite (outcome_mirror _ _ _ l l _ _ _ Hr eq_refl Ht).
  rewrite value_get_object. cbn [foldl fst snd String.eqb Ascii.eqb Bool.eqb mbind option_bind as_str].
  rewrite bool_decide_eq_true_2 by done. cbn [negb]. rewrite recorded_response_back by done. demirror. rewrite Hv.
  f_equal. by apply note_mirror.
Qed.
Lemma serve_next_reproduced timeout_ms : reproduced (ServeNext timeout_ms).
Proof.
  intros w w' l q m mm Hr _. cbn [answered handle]. intros Ha _. exists mm. revert Ha. unfold serve_next. demirror.
  by destruct (serve _).
Qed.
Lemma serve_respond_reproduced request_id response : reproduced (ServeRespond request_id response).
Proof.
  intros w w' l q m mm Hr _. cbn [answered handle]. intros Ha _. exists mm. revert Ha. unfold serve_respond. demirror.
  by destruct (serve _).
Qed.
Lemma window_open_reproduced config : reproduced (WindowOpen config).
Proof.
  intros w w' l q m mm Hr _ _. cbn [handle]. intros Ht. exists mm. revert Ht. unfold window_open. demirror.
  destruct (graphics _); cbn [negb]; [|intros Ht; by apply deny_mirror].
  destruct (display_open _ _) as [d drawn]. intros Ht. by apply note_media_mirror.
Qed.
Lemma window_resize_reproduced window width height : reproduced (WindowResize window width height).
Proof.
  intros w w' l q m mm Hr _ _. cbn [handle]. intros Ht. exists mm. revert Ht. unfold window_resize. demirror.
  destruct (graphics _); cbn [negb]; [|intros Ht; by apply deny_mirror].
  destruct (display_resize _ _ _ _) as [d drawn]. intros Ht. by apply note_media_mirror.
Qed.
Lemma window_close_reproduced window : reproduced (WindowClose window).
Proof.
  intros w w' l q m mm Hr _ _. cbn [handle]. intros Ht. exists mm. revert Ht. unfold window_close. demirror.
  destruct (graphics _); cbn [negb]; [|intros Ht; by apply deny_mirror].
  destruct (display_close _ _) as [d drawn]. intros Ht. by apply note_media_mirror.
Qed.
Lemma present_reproduced window document : reproduced (GraphicsPresent window document).
Proof.
  intros w w' l q m mm Hr _ _. cbn [handle]. unfold graphics_present. demirror.
  destruct (graphics _); cbn [negb]; [|intros Ht; exists mm; by apply deny_mirror].
  destruct (display_present _ _ _ _) as [d drawn]. cbv zeta.
  set (m1 := mkMetrics (saturating_add u64_max (graphics_present_calls (media_metrics l)) 1) _ _ _).
  set (m2 := mkMetrics (saturating_add u64_max (graphics_present_calls (media_metrics (mirror q m mm l))) 1) _ _ _).
  intros Ht. exists m2. rewrite (set_display_mirror q m mm l d m2 m1).
  erewrite note_media_mirror; [|reflexivity|done|].
  - by destruct (note_media (set_display l d m1) _ _ _ _) as [l1 [receipt|e]].
  - revert Ht. by destruct (note_media (set_display l d m1) _ _ _ _) as [l1 [receipt|e]].
Qed.
Lemma audio_reproduced document : reproduced (AudioRender document).
Proof.
  intros w w' l q m mm Hr _ _. cbn [handle]. unfold audio_render. demirror.
  destruct (audio _); cbn [negb]; [|intros Ht; exists mm; by apply deny_mirror].
  change (audio_renders (mirror q m mm l)) with (audio_renders l). change (media_bytes (mirror q m mm l)) with (media_bytes l).
  destruct (_ || _); [intros Ht; exists mm; by apply deny_mirror|].
  change (audio_limits (mirror q m mm l)) with (audio_limits l). cbv zeta.
  set (m1 := mkMetrics _ _ (saturating_add u64_max (audio_render_calls (media_metrics l)) 1) _).
  set (m2 := mkMetrics _ _ (saturating_add u64_max (audio_render_calls (media_metrics (mirror q m mm l))) 1) _).
  intros Ht. exists m2. revert Ht. rewrite (set_audio_mirror q m mm l _ _ m2 m1). cbn [set_audio media_bytes audio_renders].
  destruct (settle _) as [render|e]; [|cbn [fst snd]; intros Ht; f_equal; by apply note_mirror].
  destruct (ok_or _ _) as [n|e]; [|done].
  change (media_bytes (mirror q m m2 (set_audio l (audio_renders l) (media_bytes l) m1))) with (media_bytes l).
  destruct (ok_or _ _) as [next_bytes|e]; [|done].
  change (audio_renders (mirror q m m2 (set_audio l (audio_renders l) (media_bytes l) m1))) with (audio_renders l).
  destruct (_ || _); [intros Ht; by apply deny_mirror|]. cbn [fst snd]. intros Ht. f_equal. by apply note_mirror.
Qed.
Lemma input_reproduced : reproduced InputNext.
Proof.
  intros w w' l q m mm Hr [Hq _]. cbn [answered handle]. intros Ha Ht. exists mm. revert Ha Ht. unfold input_next. demirror.
  destruct (graphics _); cbn [negb orb]; [|intros _ Ht; by apply deny_mirror].
  rewrite outcome_live by done. destruct (input_pop (input l)) as [rest event] eqn:Hpop.
  assert (forall e, event = Some e -> validate_input e = Ok e) as Hv.
  { intros e ->. unfold input_pop in Hpop. destruct (iq_events (input l)); [done|].
    apply Forall_cons_1 in Hq as [Hq _]. by injection Hpop as <- <-. }
  destruct (encode_option event) as [encoded|e] eqn:He; [|done]. intros _ Ht.
  rewrite (outcome_mirror _ _ _ l (set_queues l rest (h_midi l)) _ _ _ Hr eq_refl Ht).
  rewrite recorded_event_back by done. cbn [or_diverge]. rewrite He. cbn [fst snd]. f_equal. by apply note_mirror.
Qed.
Lemma midi_reproduced : reproduced MidiNext.
Proof.
  intros w w' l q m mm Hr [_ Hq]. cbn [answered handle]. intros Ha Ht. exists mm. revert Ha Ht. unfold midi_next. demirror.
  destruct (midi _); cbn [negb orb]; [|intros _ Ht; by apply deny_mirror].
  rewrite outcome_live by done.
  destruct (match h_midi l with [] => (None, []) | e :: l => (Some e, l) end) as [event rest] eqn:Hpop.
  assert (forall e, event = Some e -> validate_midi e = Ok e) as Hv.
  { intros e ->. destruct (h_midi l); [done|]. apply Forall_cons_1 in Hq as [Hq _]. by injection Hpop as <- <-. }
  destruct (encode_option event) as [encoded|e] eqn:He; [|done]. intros _ Ht.
  rewrite (outcome_mirror _ _ _ l (set_queues l (input l) rest) _ _ _ Hr eq_refl Ht).
  rewrite recorded_event_back by done. cbn [or_diverge]. rewrite He. cbn [fst snd]. f_equal. by apply note_mirror.
Qed.

(** ** Storage calls *)
Ltac recorded_fields := repeat apply Forall_cons_2; [..|by apply Forall_nil_2]; by fields.
Lemma get_reproduced key : reproduced (StorageGet key).
Proof.
  intros w w' l q m mm Hr _. cbn [answered handle]. intros Ha Ht. exists mm. revert Ha Ht. unfold get_storage. demirror.
  destruct (storage _); cbn [negb orb]; [|intros _ Ht; by apply deny_mirror].
  rewrite outcome_live by done. destruct (sb_get (h_storage l) _ _) as [[b|]|e] eqn:Hg; [destruct (_ <? _); [done|]| |done];
    cbn [fst snd]; intros _ Ht; rewrite (outcome_mirror _ _ _ l l _ _ _ Hr eq_refl Ht);
    (rewrite check_fields by recorded_fields); cbn [fst snd];
    rewrite ?decode_get_found, ?decode_get_missing; cbn [or_diverge];
    (rewrite compare_read_mirror by (intros Hs; rewrite mirror_storage; [by demirror|done]));
    f_equal; by apply note_mirror.
Qed.
Lemma list_reproduced prefix : reproduced (StorageList prefix).
Proof.
  intros w w' l q m mm Hr _. cbn [answered handle]. intros Ha Ht. exists mm. revert Ha Ht. unfold list_storage. demirror.
  destruct (storage _); cbn [negb orb]; [|intros _ Ht; by apply deny_mirror].
  rewrite outcome_live by done. destruct (sb_list (h_storage l) _ _) as [keys|e] eqn:Hg; [destruct (_ <? _); [done|]|done].
  cbn [fst snd]; intros _ Ht; rewrite (outcome_mirror _ _ _ l l _ _ _ Hr eq_refl Ht).
  rewrite check_fields by recorded_fields. rewrite decode_list_keys. cbn [or_diverge].
  rewrite compare_read_mirror by (intros Hs; rewrite mirror_storage; [by demirror|done]).
  f_equal. by apply note_mirror.
Qed.
Lemma revision_reproduced : reproduced StorageRevision.
Proof.
  intros w w' l q m mm Hr _. cbn [answered handle]. intros Ha Ht. exists mm. revert Ha Ht. unfold storage_revision. demirror.
  destruct (storage _); cbn [negb orb]; [|intros _ Ht; by apply deny_mirror].
  rewrite outcome_live by done. destruct (sb_revision (h_storage l) _) as [n|e] eqn:Hg; [|done].
  cbn [fst snd]; intros _ Ht; rewrite (outcome_mirror _ _ _ l l _ _ _ Hr eq_refl Ht).
  rewrite decode_revision. cbn [or_diverge].
  rewrite compare_read_mirror by (intros Hs; rewrite mirror_storage; [by demirror|done]).
  f_equal. by apply note_mirror.
Qed.
Lemma put_reproduced key value : reproduced (StoragePut key value).
Proof.
  intros w w' l q m mm Hr _. cbn [answered handle]. intros Ha Ht. exists mm. revert Ha Ht. unfold put_storage. demirror.
  destruct (storage _); cbn [negb orb]; [|intros _ Ht; by apply deny_mirror].
  rewrite outcome_live by done. cbv zeta. destruct (sb_put (h_storage l) _ _ _ _) as [s [[]|e]] eqn:Hp; [|done].
  intros _ Ht. cbn [fst snd] in *. rewrite (outcome_mirror _ _ _ l (set_storage l s) _ _ _ Hr eq_refl Ht).
  rewrite check_fields by recorded_fields. rewrite decode_unit_stored. cbn [or_diverge is_ok]. rewrite andb_true_r. demirror.
  case_eq apply; intros Happ.
  - rewrite mirror_storage, Hp by done. cbn [or_diverge]. f_equal. apply note_mirror; [|done..]. by apply set_storage_mirror.
  - f_equal. apply note_mirror; [|done..]. by rewrite ignored_storage_mirror.
Qed.
Lemma delete_reproduced key : reproduced (StorageDelete key).
Proof.
  intros w w' l q m mm Hr _. cbn [answered handle]. intros Ha Ht. exists mm. revert Ha Ht. unfold delete_storage. demirror.
  destruct (storage _); cbn [negb orb]; [|intros _ Ht; by apply deny_mirror].
  rewrite outcome_live by done. destruct (sb_delete (h_storage l) _ _) as [s [deleted|e]] eqn:Hp; [|done].
  intros _ Ht. cbv zeta in *. cbn [fst snd] in *. rewrite (outcome_mirror _ _ _ l (set_storage l s) _ _ _ Hr eq_refl Ht).
  rewrite check_fields by recorded_fields. rewrite decode_bool_deleted. cbn [or_diverge]. demirror.
  case_eq apply; intros Happ.
  - rewrite mirror_storage, Hp by done. cbn [text_of]. rewrite bool_decide_eq_true_2 by done.
    f_equal. apply note_mirror; [|done..]. by apply set_storage_mirror.
  - f_equal. apply note_mirror; [|done..]. by rewrite ignored_storage_mirror.
Qed.
Lemma transaction_mirror q m mm l s (r : StorageTransactionResult) op identity attempt failed mismatch :
  value_get (object identity) "error" = None -> value_get (object identity) "denied" = None ->
  l.(recorder).(replay) = None -> tracked (note (set_storage l s) "storage" op (transaction_outcome identity r)).(recorder) ->
  (apply = true -> attempt = Some (s, Ok r)) ->
  replay_transaction (mirror q m mm l) op (transaction_outcome identity r) attempt failed mismatch
  = (mirror q m mm (note (set_storage l s) "storage" op (transaction_outcome identity r)), Ok r).
Proof.
  intros He Hd Hr Ht Hat. unfold replay_transaction. rewrite decode_transaction by done. cbn [or_diverge]. demirror.
  case_eq apply; intros Happ.
  - rewrite Hat by done. cbv zeta. rewrite bool_decide_eq_true_2 by done. cbn [negb]. f_equal.
    apply note_mirror; [|done..]. by apply set_storage_mirror.
  - f_equal. apply note_mirror; [|done..]. by rewrite ignored_storage_mirror.
Qed.
Lemma identity_fields identity (r : StorageTransactionResult) (fields : list (string * Value)) :
  Forall (fun f => String.eqb "result_revision" f.1 = false /\ String.eqb "applied" f.1 = false
                   /\ value_get (object identity) f.1 = Some f.2) fields ->
  Forall (fun f => value_get (transaction_outcome identity r) f.1 = Some f.2) fields.
Proof. intros H. eapply Forall_impl; [exact H|]. intros [k v] (Hr & Ha & Hv). cbn [fst snd] in *. by rewrite transaction_get, Hr, Ha. Qed.
Ltac identity := apply identity_fields; repeat apply Forall_cons_2; [..|by apply Forall_nil_2]; (split; [done|split; [done|by fields]]).
Lemma compare_exchange_reproduced revision key expected replacement :
  reproduced (StorageCompareExchange revision key expected replacement).
Proof.
  intros w w' l q m mm Hr _. cbn [answered handle]. intros Ha Ht. exists mm. revert Ha Ht. unfold compare_exchange_storage.
  demirror. destruct (storage _); cbn [negb orb]; [|intros _ Ht; by apply deny_mirror].
  destruct (value_identities expected replacement) as [ev rv]. rewrite outcome_live by done. cbv zeta.
  destruct (sb_compare_exchange (h_storage l) _ _ _ _ _ _) as [s [r|e]] eqn:Hx; [|done]. intros _ Ht.
  set (identity := [("revision", unsigned revision); ("key", Str key); ("expected", ev); ("replacement", rv)]) in *.
  change (tracked (note (set_storage l s) "storage" "compare-exchange" (transaction_outcome identity r)).(recorder)) in Ht.
  rewrite (outcome_mirror _ _ _ l (set_storage l s) _ _ _ Hr eq_refl Ht). rewrite check_fields by identity.
  apply transaction_mirror; [by fields..|done|done|].
  intros Happ. rewrite mirror_storage by done. demirror. by rewrite Hx.
Qed.
Lemma batch_reproduced q m mm l revision mutations request :
  l.(recorder).(replay) = None ->
  negb l.(h_permissions).(storage) || is_ok (apply_storage_batch_request l revision mutations request).2 = true ->
  tracked (apply_storage_batch_request l revision mutations request).1.(recorder) ->
  apply_storage_batch_request (mirror q m mm l) revision mutations request
  = (mirror q m mm (apply_storage_batch_request l revision mutations request).1,
     (apply_storage_batch_request l revision mutations request).2).
Proof.
  intros Hr. unfold apply_storage_batch_request.
  demirror. destruct (storage _); cbn [negb orb]; [|intros _ Ht; by apply deny_mirror].
  rewrite outcome_live by done. cbv zeta. destruct mutations as [mutations|]; [|done].
  destruct (sb_apply_batch (h_storage l) _ _ _ _) as [s [r|e]] eqn:Hx; [|done]. intros _ Ht.
  set (identity := [("revision", unsigned revision); ("request", request)]) in *.
  change (tracked (note (set_storage l s) "storage" "apply" (transaction_outcome identity r)).(recorder)) in Ht.
  rewrite (outcome_mirror _ _ _ l (set_storage l s) _ _ _ Hr eq_refl Ht). rewrite check_fields by identity.
  apply transaction_mirror; [by fields..|done|done|].
  intros Happ. cbn [fmap option_fmap option_map]. rewrite mirror_storage by done. demirror. by rewrite Hx.
Qed.
Lemma apply_reproduced revision mutations : reproduced (StorageApply revision mutations).
Proof.
  intros w w' l q m mm Hr _. cbn [answered handle]. intros Ha Ht. exists mm. revert Ha Ht.
  unfold storage_apply, reject_oversized_storage_batch, apply_storage_batch.
  destruct (_ <? _); intros Ha Ht; by apply batch_reproduced.
Qed.

Lemma finish_diverged (r : Recorder) c o v error :
  r.(divergence) = Some error -> (finish_replay (record r c o v)).2 = Err error.
Proof.
  intros Hd. unfold finish_replay, record. destruct (trace_limit_reached r); [by rewrite Hd|].
  destruct (_ || _); [cbn; by rewrite Hd|].
  destruct (replay r) as [c0|]; [destruct (compare_event c0 _) as [[reason|] moved]|]; unfold set_divergence; cbn; rewrite ?Hd; cbn; by rewrite ?Hd.
Qed.

(** ** Every call, and every run *)
Lemma call_reproduced {A : Type} (call : HostCall A) : reproduced call.
Proof.
  destruct call; auto using log_reproduced, health_reproduced, clock_reproduced, random_reproduced, asset_reproduced,
    http_reproduced, serve_next_reproduced, serve_respond_reproduced, get_reproduced, put_reproduced, delete_reproduced,
    list_reproduced, revision_reproduced, compare_exchange_reproduced, apply_reproduced, window_open_reproduced,
    window_resize_reproduced, window_close_reproduced, present_reproduced, input_reproduced, audio_reproduced, midi_reproduced.
Qed.
Lemma handle_queues {A : Type} (call : HostCall A) w l :
  l.(recorder).(replay) = None -> queues_ok l -> queues_ok (handle call w l).1.
Proof.
  intros H [Hi Hm]. destruct call; cbn [handle].
  20: { unfold input_next, deny, input_pop. cbn [fst]. rewrite (outcome_live _ _ _ H).
        destruct (negb _); [done|]. destruct (iq_events (input l)) as [|e rest] eqn:Hq; cbv zeta.
        - destruct (encode_option None); split; cbn; by rewrite ?Hq.
        - destruct (encode_option (Some e)); (split; cbn; [by apply Forall_cons_1 in Hi as [_ ?]|done]). }
  21: { unfold midi_next, deny. cbn [fst]. rewrite (outcome_live _ _ _ H).
        destruct (negb _); [done|]. destruct (h_midi l) as [|e rest] eqn:Hq; cbv zeta.
        - destruct (encode_option None); split; cbn; by rewrite ?Hq.
        - destruct (encode_option (Some e)); (split; cbn; [done|by apply Forall_cons_1 in Hm as [_ ?]]). }
  all: assert (queues_ok l) as Hq by done; clear Hi Hm; open_calls; live_call H.
Qed.

Fixpoint run_answered (world : nat -> Outside) (n : nat) (guest : Guest) l : bool :=
  match guest with
  | Finish _ _ | Trap _ _ => true
  | Invoke call continue =>
      answered call (world n) l
      && run_answered world (Datatypes.S n) (continue (handle call (world n) l).2) (handle call (world n) l).1
  end.
Lemma run_invoke world n {A : Type} (call : HostCall A) continue l :
  run world n (Invoke call continue) l
  = run world (Datatypes.S n) (continue (handle call (world n) l).2) (handle call (world n) l).1.
Proof. cbn [run]. by destruct (handle call (world n) l). Qed.
Lemma run_tracked world guest : forall n l,
  l.(recorder).(replay) = None -> tracked (run world n guest l).1.(recorder) -> tracked l.(recorder).
Proof.
  induction guest as [answer fuel|message fuel|A call continue IH]; intros n l Hr; [done..|].
  rewrite run_invoke. intros Ht. pose proof (handle_one_event call (world n) l Hr) as Hone.
  apply (one_event_tracked _ _ Hone Hr). apply IH in Ht; [done|]. by apply (one_event_live _ _ Hone).
Qed.
Lemma run_reproduced world world' guest : forall n n' l q m mm,
  l.(recorder).(replay) = None -> queues_ok l -> run_answered world n guest l = true ->
  tracked (run world n guest l).1.(recorder) ->
  exists mm', run world' n' guest (mirror q m mm l) = (mirror q m mm' (run world n guest l).1, (run world n guest l).2).
Proof.
  induction guest as [answer fuel|message fuel|A call continue IH]; intros n n' l q m mm Hr Hq Ha Ht; [by eexists..|].
  rewrite run_invoke in *. cbn [run_answered] in Ha. apply andb_true_iff in Ha as [Ha Hrest].
  pose proof (one_event_live _ _ (handle_one_event call (world n) l Hr) Hr) as Hr'.
  destruct (call_reproduced call (world n) (world' n') l q m mm Hr Hq Ha (run_tracked _ _ _ _ Hr' Ht)) as [mm1 Hcall].
  rewrite run_invoke, Hcall. cbn [fst snd]. by apply IH; [|apply handle_queues|..].
Qed.

(** A storage error that the trace records cannot be replayed: when the backend
    refuses a read, the live call answers with the error and records it, but the
    replay of that very event, on the same storage or not, marks the run as
    diverged and so ends in an error. *)
Theorem recorded_storage_error_diverges q m mm l key e :
  l.(recorder).(replay) = None -> l.(h_permissions).(storage) = true ->
  sb_get l.(h_storage) l.(storage_namespace) key = Err e -> tracked (get_storage l key).1.(recorder) ->
  (get_storage l key).2 = Err (storage_error_text e)
  /\ (get_storage (mirror q m mm l) key).2 = Err (storage_error_text e)
  /\ (finish_replay (get_storage (mirror q m mm l) key).1.(recorder)).2
     = Err (Divergence l.(recorder).(next_sequence) (storage_error_text e)).
Proof.
  intros Hr Hp He. unfold get_storage. demirror. rewrite Hp, outcome_live, He by done. cbn [negb record_error fst snd].
  intros Ht. split; [done|]. rewrite (outcome_mirror _ _ _ l l _ _ _ Hr eq_refl Ht).
  destruct (record_tracked _ _ _ _ Hr Ht) as [(_ & Hd & Hl & _) [b Hb]].
  rewrite check_fields by recorded_fields.
  replace (decode_recorded_get _) with (@Err string (option bytes) (storage_error_text e)); cycle 1.
  { unfold decode_recorded_get, or_recorded_error, recorded_error. by fields. }
  cbn [or_diverge]. set (error := storage_error_text e) in *. set (r1 := diverge (mirror q m mm l) error).
  assert (divergence (recorder r1) = Some (Divergence (next_sequence (recorder l)) error)) as Hr1.
  { unfold r1, diverge, set_divergence. cbn [set_recorder mirror recorder mirror_recorder Host.divergence]. by rewrite Hd. }
  assert (apply = true -> h_storage r1 = h_storage l) as Hst by apply mirror_storage.
  unfold compare_read. change (apply_replay_storage r1) with apply. case_eq apply; intros Happ.
  - rewrite (Hst Happ). change (storage_namespace r1) with (storage_namespace l). rewrite He. cbn [text_of fst snd].
    split; [done|]. unfold finish_replay. by rewrite Hr1.
  - cbn [fst snd]. split; [done|]. unfold note. cbn [set_recorder recorder]. by apply finish_diverged.
Qed.
End Mirror.

(** ** Executions *)
Section Executions.
Context {S : Type} `{SB : !StorageBackend S}.
Context `{Ext : Externals} `{JV : !Json Value} `{Hex : HexDecode} `{UC : UrlCrate} `{JRq : !Json HttpRequest}.
Context `{Png : !PngCrate} `{DF : !JsonDecode FrameDocument} `{DA : !JsonDecode AudioDocument}.
Context `{JI : !Json InputEvent} `{JM : !Json MidiEvent} `{VI : !ValueCodec InputEvent} `{VM : !ValueCodec MidiEvent}.
Context `{SV : !Semver}.
Implicit Types (l r host final : HostState S) (storage : S) (archive : CartridgeArchive) (config : RuntimeConfig).

(** A recorder that hit its limit says so at the end. *)
Definition limit_reported (r : Recorder) : Prop := r.(trace_limit_reached) = true -> r.(divergence) <> None.
Lemma record_limit_reported (r : Recorder) c o v : limit_reported r -> limit_reported (record r c o v).
Proof.
  intros Hl. unfold record. destruct (trace_limit_reached r) eqn:Hlim; [done|].
  destruct (_ || _).
  - intros _. cbn. destruct (divergence r); done.
  - destruct (replay r) as [c0|]; [destruct (compare_event c0 _) as [[reason|] moved]|]; intros H; cbn in H; try congruence.
    unfold set_divergence in H. cbn in H. destruct (is_none _) in H; cbn in H; congruence.
Qed.
Lemma run_invariants world guest : forall n l,
  l.(recorder).(replay) = None -> limit_reported l.(recorder) ->
  (run world n guest l).1.(recorder).(replay) = None /\ limit_reported (run world n guest l).1.(recorder).
Proof.
  induction guest as [answer fuel|message fuel|A call continue IH]; intros n l Hr Hl; [done..|].
  rewrite run_invoke. pose proof (handle_one_event call (world n) l Hr) as Hone.
  apply IH; [by apply (one_event_live _ _ Hone)|].
  destruct Hone as [->|(c & o & v & _ & ->)]; [done|]. by apply record_limit_reported.
Qed.
(** A run that ends well went to the events it recorded. *)
Lemma run_ends_tracked world guest l :
  l.(recorder) = new_recorder None -> (run world 0 guest l).1.(recorder).(divergence) = None ->
  tracked (run world 0 guest l).1.(recorder).(events) (run world 0 guest l).1.(recorder).
Proof.
  intros Hl Hd. destruct (run_invariants world guest 0 l) as [Hr Hlim].
  - by rewrite Hl.
  - rewrite Hl. intros H. discriminate H.
  - repeat split; [done..| |done]. destruct (trace_limit_reached _) eqn:Ht; [|done]. by destruct (Hlim Ht).
Qed.

Lemma push_inputs_ok (events : list InputEvent) : forall q q',
  push_inputs q events = Ok q' -> Forall (fun e => validate_input e = Ok e) q.(iq_events) ->
  Forall (fun e => validate_input e = Ok e) q'.(iq_events).
Proof.
  induction events as [|e events IH]; intros q q'; cbn [push_inputs]; [by intros [= ->]|].
  unfold input_push. destruct (validate_event e) as [[]|err] eqn:Hv; [|done].
  destruct (_ =? _); [done|]. intros H Hq. apply (IH _ _ H). cbn. apply Forall_app. split; [done|].
  constructor; [|done]. unfold validate_input. by rewrite Hv.
Qed.
Lemma check_midi_ok (events l : list MidiEvent) : check_midi events = Ok l -> Forall (fun e => validate_midi e = Ok e) l.
Proof.
  revert l. induction events as [|e events IH]; intros l; cbn [check_midi]; [by intros [= <-]|].
  unfold validate_midi at 1. destruct (_ || _) eqn:Hv; [done|].
  destruct (check_midi events) as [l'|err]; [|done]. cbn. intros [= <-]. constructor; [|by apply IH].
  unfold validate_midi. by rewrite Hv.
Qed.
Lemma media_input_fields l l' inputs midis :
  with_media_input l inputs midis = Ok l' ->
  l' = set_queues l l'.(input) l'.(h_midi)
  /\ (queues_ok l -> queues_ok l').
Proof.
  unfold with_media_input. destruct (push_inputs _ _) as [q|] eqn:Hq; [|done]. destruct (_ <? _); [done|].
  destruct (check_midi midis) as [ms|] eqn:Hm; [|done]. cbn. intros [= <-]. split; [done|].
  intros [Hi Hms]. split; [by apply (push_inputs_ok _ _ _ Hq)|].
  apply Forall_app. split; [done|by apply (check_midi_ok _ _ Hm)].
Qed.

(** The storage a live run works on, once [prepare] has seen it, and the host and
    guest it starts with. *)
Definition run_manifest (config : RuntimeConfig) (archive : CartridgeArchive) : PackageManifest :=
  with_runtime archive.(ca_manifest) (effective_limits config.(limit_ceiling) archive.(ca_manifest).(Manifest.runtime)).
Definition prepared_storage (config : RuntimeConfig) (storage : S) (archive : CartridgeArchive) : S :=
  let manifest := run_manifest config archive in
  if (effective_permissions config.(permission_ceiling) archive.(ca_manifest).(permissions)).(Manifest.storage)
  then (sb_prepare storage manifest.(cartridge).(cm_id) manifest.(state).(schema) (storage_limits_of manifest.(Manifest.runtime))).1
  else storage.
Definition execution_answered (config : RuntimeConfig) (world : nat -> Outside) (storage : S) (archive : CartridgeArchive)
    (args : list string) : bool :=
  match prepare_host config archive (prepared_storage config storage archive) None false, archive.(ca_guest) args with
  | Ok host, Ok guest => run_answered world 0 guest host
  | _, _ => false
  end.
(** Two configurations that grant the same; their queues need only be valid. *)
Definition same_grants (config config' : RuntimeConfig) : Prop :=
  config'.(permission_ceiling) = config.(permission_ceiling) /\ config'.(limit_ceiling) = config.(limit_ceiling)
  /\ config'.(has_health_reporter) = config.(has_health_reporter).
Definition valid_media (config : RuntimeConfig) : bool :=
  is_ok (push_inputs (mkInputQueue [] MAX_INPUT_EVENTS) config.(input_events))
  && (len config.(midi_events) <=? MAX_MIDI_EVENTS) && is_ok (check_midi config.(midi_events)).

Lemma prepared_live config archive (storage : S) host :
  prepare_host config archive storage None false = Ok host ->
  host.(recorder) = new_recorder None /\ queues_ok host /\ host.(h_storage) = storage.
Proof.
  unfold prepare_host. cbv zeta. destruct (with_media_input _ _ _) as [h|] eqn:Hm; [|done]. intros [= <-].
  destruct (media_input_fields _ _ _ _ Hm) as [-> Hq]. split; [done|]. split; [|done]. apply Hq. by split.
Qed.
Lemma prepared_mirror config config' archive (storage : S) host full (apply : bool) (s0 : S) :
  prepare_host config archive storage None false = Ok host -> same_grants config config' -> valid_media config' = true ->
  exists q m mm, prepare_host config' archive (if apply then storage else s0) (Some full) apply
                 = Ok (mirror full apply s0 q m mm host).
Proof.
  unfold prepare_host. cbv zeta. intros Hp (Hperm & Hlim & Hrep) Hv. rewrite Hperm, Hlim, Hrep.
  destruct (with_media_input (new_host _ _ _ storage _ _) _ _) as [h|] eqn:Hm; [|done]. injection Hp as <-.
  destruct (media_input_fields _ _ _ _ Hm) as [-> _]. clear Hm.
  unfold valid_media in Hv. apply andb_true_iff in Hv as [[Hq Hlen%N.leb_le]%andb_true_iff Hc].
  unfold with_media_input. cbn [new_host input h_midi app].
  destruct (push_inputs _ _) as [q|]; [|done]. destruct (check_midi _) as [ms|]; [|done].
  rewrite (proj2 (N.ltb_ge _ _) Hlen). cbn [is_ok].
  destruct apply; by eexists _, _, _.
Qed.
Lemma conclude_live version manifest args host ending final report :
  host.(recorder).(replay) = None ->
  conclude version manifest args None host ending = (final, Ok report) ->
  host.(recorder).(divergence) = None /\ final.(h_storage) = host.(h_storage)
  /\ et_events report.(rr_trace) = host.(recorder).(events).
Proof.
  intros Hr. unfold conclude, finish_replay. rewrite Hr. destruct (divergence (recorder host)); [done|].
  rewrite set_same_recorder. unfold take_media. destruct (take_frames _) as [d fs].
  destruct ending as [[[output|message]|message] fuel]; cbn [fst snd]; [|by destruct (_ <=? _)|done].
  destruct (_ <? _); [done|]. intros [= <- <-]. by repeat split.
Qed.
Lemma conclude_mirror version manifest args host ending final report full (apply : bool) (s0 : S) q m mm :
  full = host.(recorder).(events) -> host.(recorder).(replay) = None ->
  conclude version manifest args None host ending = (final, Ok report) ->
  exists r', conclude version manifest args (Some (et_result report.(rr_trace))) (mirror full apply s0 q m mm host) ending
             = (r', Ok report)
             /\ r'.(h_storage) = if apply then host.(h_storage) else s0.
Proof.
  intros -> Hr. unfold conclude, finish_replay. rewrite Hr. cbn [mirror recorder mirror_recorder Host.divergence Host.replay].
  destruct (divergence (recorder host)); [done|]. cbn [rc_events Host.cursor]. rewrite N.sub_diag. cbn [N.eqb negb].
  rewrite set_same_recorder. unfold take_media. cbn [set_recorder display mirror audio_renders].
  destruct (take_frames _) as [d fs].
  destruct ending as [[[output|message]|message] fuel]; cbn [fst snd]; [|by destruct (_ <=? _)|done].
  destruct (_ <? _); [done|]. intros [= <- <-]. cbn [rr_trace new_trace et_result].
  unfold compare_result. cbn [tr_output fuel_consumed]. rewrite bool_decide_eq_true_2, N.eqb_refl by done. cbn [negb].
  eexists. split; [reflexivity|done].
Qed.
Lemma execute_trace_identity version config world (storage : S) archive args (s' : S) report :
  execute version config world storage archive args None false = (s', Ok report) ->
  et_runtime_version report.(rr_trace) = version
  /\ et_cartridge_id report.(rr_trace) = (trace_identity archive.(ca_manifest)).(ti_cartridge_id)
  /\ et_cartridge_version report.(rr_trace) = (trace_identity archive.(ca_manifest)).(ti_cartridge_version)
  /\ et_component_sha256 report.(rr_trace) = (trace_identity archive.(ca_manifest)).(ti_component_sha256)
  /\ et_args report.(rr_trace) = args.
Proof.
  unfold execute. cbv zeta. destruct (negotiate_platform _) as [[negotiated|e]|]; [|done..].
  destruct (if is_none _ && _ then sb_prepare _ _ _ _ else _) as [s1 [[]|e]]; [|done]. destruct (prepare_host _ _ _ _ _) as [host|e]; [|done].
  destruct (ca_guest archive args) as [guest|e]; [|done]. destruct (run world 0 guest host) as [h ending].
  unfold conclude. destruct (finish_replay _) as [r [[]|e]]; [|done]. destruct (take_media _) as [h' [[fs audio] mm]].
  destruct ending as [[[output|message]|message] fuel]; cbn [fst snd]; [|by destruct (_ <=? _)|done].
  destruct (_ <? _); [done|]. cbn [fmap option_fmap option_map]. intros [= <- <-]. by repeat split.
Qed.
Lemma execute_replayed version config config' world world' (storage : S) archive args (s' : S) report (apply : bool) (s0 : S) :
  execute version config world storage archive args None false = (s', Ok report) ->
  execution_answered config world storage archive args = true -> same_grants config config' -> valid_media config' = true ->
  execute version config' world' (if apply then prepared_storage config storage archive else s0) archive args
    (Some report.(rr_trace)) apply
  = (if apply then s' else s0, Ok report).
Proof.
  unfold execute, execution_answered. cbv zeta. intros Hx Ha Hsame Hv.
  destruct (negotiate_platform _) as [[negotiated|e]|]; [|done..]. cbn [is_none andb] in *.
  assert (exists host guest, prepare_host config archive (prepared_storage config storage archive) None false = Ok host
            /\ ca_guest archive args = Ok guest /\ run_answered world 0 guest host = true
            /\ exists final, conclude version (run_manifest config archive) args None (run world 0 guest host).1
                                (run world 0 guest host).2 = (final, Ok report) /\ s' = final.(h_storage)) as Hlive.
  { revert Hx Ha. unfold prepared_storage. cbv zeta. fold (run_manifest config archive). cbn [fmap option_fmap option_map].
    destruct (Manifest.storage _); [destruct (sb_prepare _ _ _ _) as [s1 [[]|e]]; [|done]|];
      cbn [fst]; (destruct (prepare_host _ _ _ _ _) as [host|e]; [|done]); (destruct (ca_guest archive args) as [guest|e]; [|done]);
      (destruct (run world 0 guest host) as [h ending] eqn:Hrun); intros Hx Ha;
      exists host, guest; rewrite Hrun; cbn [fst snd] in *;
      (destruct (conclude _ _ _ _ _ _) as [final rep]); injection Hx as <- ->; by eauto 10. }
  destruct Hlive as (host & guest & Hhost & Hguest & Hans & final & Hend & ->). clear Hx Ha.
  destruct (prepared_live _ _ _ _ Hhost) as (Hrec & Hq & Hst).
  assert (replay (recorder host) = None) as Hr by (by rewrite Hrec).
  destruct (run_invariants world guest 0 host Hr) as [Hr' _]; [rewrite Hrec; intros H; discriminate H|].
  destruct (conclude_live _ _ _ _ _ _ _ Hr' Hend) as (Hd & Hfs & Hev).
  pose proof (run_ends_tracked world guest host Hrec Hd) as Ht. rewrite <- Hev in Ht.
  destruct (prepared_mirror config config' archive _ host report.(rr_trace).(et_events) apply s0 Hhost Hsame Hv) as (q & m & mm & Hm).
  destruct (run_reproduced _ apply s0 world world' guest 0 0 host q m mm Hr Hq Hans Ht) as [mm' Hrun].
  destruct (conclude_mirror _ _ _ _ _ _ _ _ apply s0 q m mm' Hev Hr' Hend) as (r' & Hc & Hrs).
  cbn [fmap option_fmap option_map]. rewrite Hm, Hguest, Hrun. destruct Hsame as (_ & Hlim & _). rewrite Hlim.
  fold (run_manifest config archive). rewrite Hc. by rewrite Hrs, Hfs.
Qed.

(** C14: A replay reproduces its run.  Whenever an execution succeeded and its
    trace holds what a replay needs, replaying the trace with any outside world,
    any valid queues and any storage succeeds with the very same report (output,
    fuel, trace, frames and audio) and leaves the storage untouched. *)
Theorem replay_reproduces_run version config config' world world' (storage storage' : S) archive args (s' : S) report :
  execute version config world storage archive args None false = (s', Ok report) ->
  execution_answered config world storage archive args = true ->
  same_grants config config' -> valid_media config' = true -> validate_trace report.(rr_trace) = Ok tt ->
  replay_trace version config' world' storage' archive args report.(rr_trace) = (storage', Ok report).
Proof.
  intros Hx Ha Hs Hv Ht. unfold replay_trace, validate_invocation. rewrite Ht.
  destruct (execute_trace_identity _ _ _ _ _ _ _ _ Hx) as (-> & -> & -> & -> & ->).
  unfold check_identity. rewrite !bool_decide_eq_true_2 by done. cbn [negb].
  by apply (execute_replayed version config config' world world' storage archive args s' report false storage').
Qed.
(** C15: A replay that applies storage reaches the state of the run: started from
    the storage the run started from, it succeeds with the same report and ends
    with the storage the run ended with, without the outside world. *)
Theorem state_replay_reaches_state version config config' world world' (storage : S) archive args (s' : S) report :
  execute version config world storage archive args None false = (s', Ok report) ->
  execution_answered config world storage archive args = true ->
  same_grants config config' -> valid_media config' = true ->
  execute version config' world' (prepared_storage config storage archive) archive args (Some report.(rr_trace)) true
  = (s', Ok report).
Proof. intros Hx Ha Hs Hv. by apply (execute_replayed version config config' world world' storage archive args s' report true storage). Qed.
End Executions.

(** ** What the recorder writes is a valid trace *)
Section Recorded.
Context {S : Type} `{SB : !StorageBackend S}.
Context `{Ext : Externals} `{JV : !Json Value} `{Hex : HexDecode} `{UC : UrlCrate} `{JRq : !Json HttpRequest}.
Context `{Png : !PngCrate} `{DF : !JsonDecode FrameDocument} `{DA : !JsonDecode AudioDocument}.
Context `{JI : !Json InputEvent} `{JM : !Json MidiEvent} `{VI : !ValueCodec InputEvent} `{VM : !ValueCodec MidiEvent}.
Context `{SV : !Semver}.
Implicit Types (l : HostState S).

Lemma len_snoc {A : Type} (l : list A) (x : A) : len (l ++ [x]) = len l + 1.
Proof. unfold len. rewrite length_app. cbn. lia. Qed.
Lemma check_events_snoc (events : list TraceEvent) (e : TraceEvent) (b : bytes) : forall index n total,
  check_trace_events index n events = Ok total -> e.(sequence) = index + len events -> index + len events <= u64_max ->
  valid_label e.(capability) && valid_label e.(operation) = true -> to_vec e.(outcome) = Ok b ->
  total + str_len e.(capability) + str_len e.(operation) + len b + 128 <= MAX_TRACE_BYTES ->
  check_trace_events index n (events ++ [e])
  = Ok (total + str_len e.(capability) + str_len e.(operation) + len b + 128).
Proof.
  induction events as [|f events IH]; intros index n total Hc Hs Hu Hl Hb Hm; cbn [app check_trace_events] in *.
  - injection Hc as ->. change (len (@nil TraceEvent)) with 0 in *. rewrite N.add_0_r in *.
    apply andb_true_iff in Hl as [-> ->]. rewrite Hs, N.eqb_refl, (proj2 (N.ltb_ge _ _) Hu), Hb. cbn [negb map_err].
    change MAX_TRACE_BYTES with 16777216 in *. change usize_max with 18446744073709551615 in *. unfold checked_add.
    rewrite !(proj2 (N.leb_le _ _)) by lia. cbn [mbind option_bind].
    rewrite !(proj2 (N.leb_le _ _)) by lia. cbn [mbind option_bind].
    rewrite !(proj2 (N.leb_le _ _)) by lia. cbn [mbind option_bind].
    rewrite !(proj2 (N.leb_le _ _)) by lia. cbn [ok_or].
    by rewrite (proj2 (N.ltb_ge _ _) Hm).
  - revert Hc. destruct (_ <? index); [done|]. destruct (negb _); [done|]. destruct (negb _); [done|].
    destruct (negb _); [done|]. destruct (map_err _ _) as [ob|]; [|done]. destruct (ok_or _ _) as [n'|]; [|done].
    destruct (_ <? n'); [done|]. intros Hc. unfold len in *. cbn [length] in *. apply IH; try done; lia.
Qed.
Definition well_recorded (r : Recorder) : Prop :=
  check_trace_events 0 0 r.(events) = Ok r.(trace_bytes) /\ r.(next_sequence) = len r.(events)
  /\ len r.(events) <= MAX_TRACE_EVENTS.
Lemma event_fits (n : N) c o v :
  saturating_add usize_max n (event_bytes c o v) <= MAX_TRACE_BYTES ->
  exists b, to_vec v = Ok b
    /\ saturating_add usize_max n (event_bytes c o v) = n + str_len c + str_len o + len b + 128
    /\ n + str_len c + str_len o + len b + 128 <= MAX_TRACE_BYTES.
Proof.
  unfold event_bytes, saturating_add. change MAX_TRACE_BYTES with 16777216.
  assert (usize_max = 18446744073709551615) as -> by done. generalize (str_len c) (str_len o). intros x y.
  destruct (to_vec v) as [b|e]; [|lia]. intros H. exists b. split; [done|]. generalize dependent (len b). intros z H. lia.
Qed.
Lemma record_well (r : Recorder) c o v :
  r.(replay) = None -> well_recorded r -> valid_label c && valid_label o = true -> well_recorded (record r c o v).
Proof.
  intros Hr (Hc & Hn & Hm) Hl. unfold record. rewrite Hr. destruct (trace_limit_reached r); [done|].
  destruct ((MAX_TRACE_EVENTS <=? len r.(events)) || (MAX_TRACE_BYTES <? _)) eqn:Hlim; [done|].
  apply orb_false_iff in Hlim as [He%N.leb_gt Hb%N.ltb_ge]. destruct (event_fits _ _ _ _ Hb) as (b & Hv & Hsum & Hfit).
  unfold well_recorded. cbn [events trace_bytes next_sequence]. rewrite len_snoc, Hsum, Hn. split; [|split; [done|lia]].
  apply (check_events_snoc r.(events) (mkTraceEvent (len r.(events)) c o v) b 0 0 r.(trace_bytes)); try done.
  change MAX_TRACE_EVENTS with 100000 in Hm. change u64_max with 18446744073709551615. lia.
Qed.
Lemma run_well world guest : forall n l,
  l.(recorder).(replay) = None -> well_recorded l.(recorder) -> well_recorded (run world n guest l).1.(recorder).
Proof.
  induction guest as [answer fuel|message fuel|A call continue IH]; intros n l Hr Hw; [done..|].
  rewrite run_invoke. pose proof (handle_one_event call (world n) l Hr) as Hone.
  apply IH; [by apply (one_event_live _ _ Hone)|].
  destruct Hone as [->|(c & o & v & Hl & ->)]; [done|]. by apply record_well.
Qed.
Definition well_recorded_trace (t : ExecutionTrace) : Prop :=
  et_format_version t = CURRENT_TRACE_FORMAT_VERSION
  /\ exists b, check_trace_events 0 0 t.(et_events) = Ok b /\ len t.(et_events) <= MAX_TRACE_EVENTS
     /\ str_len t.(et_result).(tr_output) <= MAX_TRACE_OUTPUT_BYTES.
Lemma execute_well version config world (storage : S) archive args (s' : S) report :
  execute version config world storage archive args None false = (s', Ok report) -> well_recorded_trace report.(rr_trace).
Proof.
  unfold execute. cbv zeta. destruct (negotiate_platform _) as [[negotiated|e]|]; [|done..].
  destruct (if is_none _ && _ then sb_prepare _ _ _ _ else _) as [s1 [[]|e]]; [|done].
  destruct (prepare_host _ _ _ _ _) as [host|e] eqn:Hp; [|done].
  destruct (ca_guest archive args) as [guest|e]; [|done]. destruct (run world 0 guest host) as [h ending] eqn:Hrun.
  destruct (prepared_live _ _ _ _ Hp) as (Hrec & _ & _).
  assert (well_recorded h.(recorder)) as (Hc & _ & Hm).
  { replace h with (run world 0 guest host).1 by (by rewrite Hrun). apply run_well; by rewrite Hrec. }
  unfold conclude, finish_replay. destruct (divergence (recorder h)); [done|].
  assert (forall r : Recorder, r = recorder h -> set_recorder h r = h) as Hset by (intros r ->; apply set_same_recorder).
  destruct (replay (recorder h)) as [c|]; [destruct (negb _); [done|]|]; rewrite Hset by done; unfold take_media;
    destruct (take_frames _) as [d fs]; destruct ending as [[[output|message]|message] fuel]; cbn [fst snd];
    try done; try (by destruct (_ <=? _)); (destruct (_ <? _) eqn:Ho; [done|]); intros [= <- <-];
    (split; [done|]); exists h.(recorder).(trace_bytes); split_and!; try done; by apply N.ltb_ge in Ho.
Qed.
(** C26: A trace that an execution reports passes validation: its events are
    numbered without gaps, carry proper names and stay within their budgets, for
    every guest; what remains to be checked is only the package and its arguments. *)
Theorem recorded_trace_valid version config world (storage : S) archive args (s' : S) report n :
  execute version config world storage archive args None false = (s', Ok report) ->
  valid_label version && valid_label archive.(ca_manifest).(cartridge).(cm_id)
    && valid_label archive.(ca_manifest).(cartridge).(cm_version)
    && is_sha256 archive.(ca_manifest).(integrity).(in_component_sha256) = true ->
  len args <= MAX_TRACE_ARGUMENTS -> argument_bytes 0 args = Ok n -> n <= MAX_TRACE_ARGUMENT_BYTES ->
  validate_trace report.(rr_trace) = Ok tt.
Proof.
  intros Hx Hid Ha Hn Hnm. apply andb_true_iff in Hid as [[[Hv Hi]%andb_true_iff Hcv]%andb_true_iff Hd].
  assert (well_recorded_trace report.(rr_trace)) as (Hf & b & Hev & Hlen & Hout) by (by eapply execute_well).
  destruct (execute_trace_identity _ _ _ _ _ _ _ _ Hx) as (E1 & E2 & E3 & E4 & E5).
  unfold validate_trace. rewrite Hf, E1, E2, E3, E4, E5. cbn [trace_identity ti_cartridge_id ti_cartridge_version ti_component_sha256].
  rewrite Hv, Hi, Hcv, Hd, Hn, Hev, N.eqb_refl. cbn [negb].
  by rewrite !(proj2 (N.ltb_ge _ _)).
Qed.
End Recorded.

(** ** Migrations *)
Section Migrations.
Context `{Ext : Externals} `{JV : !Json Value} `{Hex : HexDecode} `{UC : UrlCrate} `{JRq : !Json HttpRequest}.
Context `{Png : !PngCrate} `{DF : !JsonDecode FrameDocument} `{DA : !JsonDecode AudioDocument}.
Context `{JI : !Json InputEvent} `{JM : !Json MidiEvent} `{VI : !ValueCodec InputEvent} `{VM : !ValueCodec MidiEvent}.
Context `{SV : !Semver} `{JSp : !Json SnapshotPayload}.
Definition schema_of (s : StorageSnapshot) : N := s.(sn_payload).(sn_state_schema).
Definition as_step (r : MigrationStepReport) : StateMigration := mkMigration r.(ms_name) r.(ms_from) r.(ms_to).

Lemma from_snapshot_schema snapshot id limits branch :
  from_snapshot snapshot id limits = Ok branch -> branch.(ss_state_schema) = schema_of snapshot.
Proof.
  unfold from_snapshot. destruct (validate_limits limits); [|done]. destruct (entries_for _ _); [|done].
  destruct (MemoryBackend.load_namespace _ _ _ _ _ _) as [s [[]|e]]; [|done]. by intros [= <-].
Qed.
Lemma from_entries_schema id wanted revision entries next :
  from_entries_with_revision id wanted revision entries = Ok next -> schema_of next = wanted.
Proof.
  unfold from_entries_with_revision. destruct (validate_namespace id); [|done]. cbv zeta.
  destruct (payload_digest _); [|done]. by intros [= <-].
Qed.
Lemma export_migrated_schema branch from to limits next :
  export_migrated_snapshot branch from to limits = Ok next -> schema_of next = to.
Proof.
  unfold export_migrated_snapshot, export_snapshot_with_schema. destruct (negb _); [done|]. destruct (_ <=? _); [done|].
  destruct (MemoryBackend.snapshot_state _ _ _) as [[revision entries]|]; [|done]. apply from_entries_schema.
Qed.
Lemma step_reported config world archive manifest branch step branch' report :
  execute_migration_step config world archive manifest branch step = Ok (branch', report) -> as_step report = step.
Proof.
  unfold execute_migration_step. cbv zeta. destruct (ca_migration _ _ _ _) as [guest|]; [|done].
  destruct (run _ _ _ _) as [host ending]. destruct (finish_replay _) as [r [[]|e]]; [|done].
  destruct (ending.1) as [[a|m]|m]; [|by destruct (_ <? _)|done]. intros [= _ <-]. by destruct step.
Qed.
Lemma branch_schema snapshot id wanted limits branch :
  branch_of snapshot id wanted limits = Ok branch -> schema_of snapshot = wanted.
Proof.
  unfold branch_of, refuse. destruct (from_snapshot snapshot id limits) as [b|] eqn:Hb; [|done]. cbn [sb_prepare snapshot_backend].
  unfold snapshot_prepare. destruct (check_namespace b id); [|done].
  destruct (N.eqb_spec (ss_state_schema b) wanted) as [Heq|]; [|done]. intros _. rewrite <- Heq. symmetry.
  by apply (from_snapshot_schema _ _ _ _ Hb).
Qed.
(** A path with no step is a state that is already there. *)
Lemma follow_extends fuel sources target : forall current acc l,
  follow fuel sources target current acc = Some (Ok l) -> exists more, l = acc ++ more /\ (more = [] -> target <= current).
Proof.
  induction fuel as [|fuel IH]; intros current acc l; cbn [follow];
    (destruct (N.ltb_spec current target); [|intros [= <-]; exists []; by rewrite app_nil_r]); [done|].
  destruct (sources !! current) as [step|]; [|done]. intros (more & -> & _)%IH.
  exists (step :: more). by rewrite <- app_assoc.
Qed.
Lemma planned_schema manifest source plan :
  migration_plan manifest source = Some (Ok plan) ->
  plan.(target_schema) = manifest.(state).(schema) /\ (plan.(steps) = [] -> source = manifest.(state).(schema)).
Proof.
  unfold migration_plan. destruct (validate_package manifest); [|done]. cbv zeta.
  destruct (N.ltb_spec (schema (state manifest)) source); [done|].
  destruct (follow _ _ _ _ _) as [[l|e]|] eqn:Hf; [|done..]. intros [= <-]. cbn [target_schema steps]. split; [done|].
  apply follow_extends in Hf as (more & -> & Hm). cbn [app]. intros Hnil. apply Hm in Hnil. lia.
Qed.
Lemma migrate_steps_linked config world archive manifest limits steps : forall n current final reports,
  migrate_steps config world archive manifest limits n current steps = Ok (final, reports) ->
  as_step <$> reports = steps /\ linked (schema_of current) steps (schema_of final).
Proof.
  induction steps as [|step steps IH]; intros n current final reports; cbn [migrate_steps]; [by intros [= <- <-]|].
  destruct (branch_of _ _ _ _) as [branch|] eqn:Hb; [|done]. apply branch_schema in Hb.
  destruct (execute_migration_step _ _ _ _ _ _) as [[branch' report]|] eqn:Hs; [|done]. unfold refuse.
  destruct (export_migrated_snapshot _ _ _ _) as [next|] eqn:Hn; [|done]. destruct (summary next); [|done].
  destruct (migrate_steps _ _ _ _ _ _ _ _) as [[final' reports']|] eqn:Hm; [|done]. intros [= <- <-].
  destruct (IH _ _ _ _ Hm) as [Hr Hl]. apply export_migrated_schema in Hn. apply step_reported in Hs.
  cbn [fmap list_fmap linked]. rewrite Hs. split; [by f_equal|]. split; [done|]. by rewrite <- Hn.
Qed.
(** A migration ends at the schema of its package: a report names exactly the
    steps of the plan in order, each of them started from the schema the previous
    one ended with, and its snapshot has the schema of the package; a source that
    is up to date comes back unchanged. *)
Theorem migration_reaches_schema config world archive source report :
  migrate config world archive source = Ok report ->
  schema_of report.(mr_snapshot) = archive.(ca_manifest).(state).(schema)
  /\ as_step <$> report.(mr_steps) = report.(mr_plan).(steps)
  /\ linked (schema_of source) (as_step <$> report.(mr_steps)) (schema_of report.(mr_snapshot))
  /\ (report.(mr_steps) = [] -> report.(mr_snapshot) = source).
Proof.
  unfold migrate. cbv zeta. destruct (migration_plan _ _) as [[plan|e]|] eqn:Hplan; [|done..].
  apply planned_schema in Hplan as [Htarget Hempty]. destruct (validate_migration_budget _ _); [|done].
  destruct (branch_of _ _ _ _); [|done]. case_bool_decide as Hlen.
  - intros [= <-]. apply nil_length_inv in Hlen. cbn. split; [by apply Hempty|]. by rewrite Hlen.
  - destruct (negb _); [done|]. destruct (migrate_steps _ _ _ _ _ _ _ _) as [[final reports]|] eqn:Hm; [|done].
    destruct (N.eqb_spec (sn_state_schema (sn_payload final)) (target_schema plan)) as [Heq|]; [|done]. intros [= <-].
    apply migrate_steps_linked in Hm as [Hr Hl]. cbn [mr_snapshot mr_plan mr_steps]. rewrite Hr. split_and!; [|done|done|].
    + unfold schema_of. by rewrite Heq, Htarget.
    + intros ->. cbn in Hr. by rewrite <- Hr in Hlen.
Qed.
End Migrations.

(** ** A concrete cartridge *)
(** A codec of the queue events. *)
Definition demo_input_codec : ValueCodec InputEvent.
Proof.
  refine {| to_value e := match e with
       | Key c p r => Arr [Str "key"; unsigned c; Bool p; Bool r]
       | PointerMove x y => Arr [Str "move"; Num (NegInt x); Num (NegInt y)]
       | PointerButton b p => Arr [Str "button"; unsigned b; Bool p]
       | PointerWheel x y => Arr [Str "wheel"; Num (NegInt x); Num (NegInt y)]
       | ControllerAxis c a v => Arr [Str "axis"; unsigned c; unsigned a; Num (NegInt v)]
       | ControllerButton c b p => Arr [Str "pad"; unsigned c; unsigned b; Bool p]
       | TextInput s => Arr [Str "text"; Str s]
       | CloseRequested => Arr [Str "close"]
       end;
     from_value v := match v with
       | Arr [Str "key"; Num (PosInt c); Bool p; Bool r] => Ok (Key c p r)
       | Arr [Str "move"; Num (NegInt x); Num (NegInt y)] => Ok (PointerMove x y)
       | Arr [Str "button"; Num (PosInt b); Bool p] => Ok (PointerButton b p)
       | Arr [Str "wheel"; Num (NegInt x); Num (NegInt y)] => Ok (PointerWheel x y)
       | Arr [Str "axis"; Num (PosInt c); Num (PosInt a); Num (NegInt v)] => Ok (ControllerAxis c a v)
       | Arr [Str "pad"; Num (PosInt c); Num (PosInt b); Bool p] => Ok (ControllerButton c b p)
       | Arr [Str "text"; Str s] => Ok (TextInput s)
       | Arr [Str "close"] => Ok CloseRequested
       | _ => Err "unknown event"
       end |}.
  - by intros [].
  - by intros [].
Defined.
Definition demo_midi_codec : ValueCodec MidiEvent.
Proof.
  refine {| to_value e := Arr (unsigned <$> [timestamp_frames e; cable e; midi_status e; data1 e; data2 e]);
     from_value v := match v with
       | Arr [Num (PosInt t); Num (PosInt c); Num (PosInt s); Num (PosInt a); Num (PosInt b)] => Ok (mkMidi t c s a b)
       | _ => Err "unknown event"
       end |}.
  - by intros [].
  - by intros [].
Defined.
Section RuntimeWitness.
#[local] Existing Instance demo_externals.
#[local] Existing Instance demo_hex.
#[local] Existing Instance demo_semver.
#[local] Existing Instance toy_url.
#[local] Existing Instance demo_png.
#[local] Existing Instance demo_input_codec.
#[local] Existing Instance demo_midi_codec.
#[local] Instance runtime_value_json : Json Value := demo_json.
#[local] Instance runtime_request_json : Json HttpRequest := demo_json.
#[local] Instance runtime_input_json : Json InputEvent := fun _ => Ok [x69].
#[local] Instance runtime_midi_json : Json MidiEvent := fun _ => Ok [x6d].
#[local] Instance runtime_frame_decode : JsonDecode FrameDocument := fun _ => Ok demo_frame.
#[local] Instance runtime_audio_decode : JsonDecode AudioDocument := fun _ => Ok demo_graph.
Definition demo_app : PackageManifest :=
  mkPackageManifest 1 (mkMetadata "dev.example.app" "App" "1.2.0" "")
    (mkPermissions true true true true true false false false false) default_http_policy
    (mkCompatibility "" ∅) default_limits (mkStateConfig 0 []) [] [] (mkIntegrity (hex_encode (replicate 32 x00)) ∅ "").
(** It asks for the time, randomness and input, stores what it drew, reads it
    back, and opens a window without storing anything about it. *)
Definition demo_guest : Guest :=
  Invoke WallClockMs (fun now =>
  Invoke (RandomBytes 2) (fun drawn =>
  Invoke InputNext (fun _ =>
  Invoke (StoragePut "seed" (match drawn with Ok b => b | Err _ => [] end)) (fun _ =>
  Invoke (StorageGet "seed") (fun back =>
  Invoke (WindowOpen demo_window) (fun _ =>
  Finish (match now, back with Ok n, Ok (Some b) => Ok (pretty n +:+ hex_encode b) | _, _ => Err "no" end) 5)))))).
Definition demo_archive : CartridgeArchive := mkArchive demo_app ∅ (fun _ => Ok demo_guest) (fun _ _ _ => Err "no migrations").
Definition demo_config : RuntimeConfig := mkRuntimeConfig [PointerMove 3 (-4)] [] None None false.
Definition quiet_config : RuntimeConfig := mkRuntimeConfig [] [] None None false.
Definition demo_world : nat -> Outside := fun _ =>
  mkOutside (Ok 1700) (fun i => if Nat.even i then xab else xcd) None None None 100 3.
Definition other_world : nat -> Outside := fun _ => mkOutside (Err "no clock") (fun _ => x00) None None None 0 9.
Definition no_storage : MemoryStorage := mkMemoryStorage false ∅.
Definition demo_execution : MemoryStorage * result RunError RunReport :=
  execute "0.1.0" demo_config demo_world no_storage demo_archive ["a"] None false.
Lemma replay_reproduces_run_witness :
  exists report, demo_execution.2 = Ok report /\ report.(rr_output) = "1700abcd"
    /\ replay_trace "0.1.0" quiet_config other_world no_storage demo_archive ["a"] report.(rr_trace) = (no_storage, Ok report).
Proof.
  destruct demo_execution as [s [report|e]] eqn:Hx; [|vm_compute in Hx; discriminate Hx].
  exists report. split; [done|]. split; [vm_compute in Hx; by injection Hx as _ <-|].
  apply (replay_reproduces_run "0.1.0" demo_config quiet_config demo_world other_world no_storage no_storage demo_archive ["a"] s report);
    [exact Hx|vm_compute; reflexivity|by repeat split|vm_compute; reflexivity|].
  vm_compute in Hx. injection Hx as _ <-. vm_compute. reflexivity.
Defined.
Lemma recorded_trace_valid_witness :
  exists report, demo_execution.2 = Ok report /\ validate_trace report.(rr_trace) = Ok tt.
Proof.
  destruct demo_execution as [s [report|e]] eqn:Hx; [|vm_compute in Hx; discriminate Hx].
  exists report. split; [done|].
  apply (recorded_trace_valid "0.1.0" demo_config demo_world no_storage demo_archive ["a"] s report 1);
    [exact Hx|vm_compute; reflexivity|vm_compute; discriminate|vm_compute; reflexivity|vm_compute; discriminate].
Defined.
(** A host that has just started and reads a key that is not one. *)
Definition demo_host : HostState MemoryStorage :=
  match prepare_host demo_config demo_archive (prepared_storage demo_config no_storage demo_archive) None false with
  | Ok host => host
  | Err _ => new_host demo_app demo_app.(permissions) ∅ no_storage None false
  end.
Lemma recorded_storage_error_diverges_witness :
  exists text, (get_storage demo_host "").2 = Err text
    /\ (finish_replay (get_storage (mirror (get_storage demo_host "").1.(recorder).(events) false no_storage
                          (mkInputQueue [] 1) [] (mkMetrics 0 0 0 0) demo_host) "").1.(recorder)).2 = Err (Divergence 0 text).
Proof.
  exists (storage_error_text (InvalidKey "")).
  destruct (recorded_storage_error_diverges (get_storage demo_host "").1.(recorder).(events) false no_storage
              (mkInputQueue [] 1) [] (mkMetrics 0 0 0 0) demo_host "" (InvalidKey "")) as (H1 & _ & H2).
  - vm_compute. reflexivity.
  - vm_compute. reflexivity.
  - vm_compute. reflexivity.
  - split_and!; [vm_compute; reflexivity..|done].
  - split; [exact H1|exact H2].
Defined.
Lemma state_replay_reaches_state_witness :
  exists s report, demo_execution = (s, Ok report) /\ s <> no_storage
    /\ execute "0.1.0" quiet_config other_world (prepared_storage demo_config no_storage demo_archive) demo_archive ["a"]
         (Some report.(rr_trace)) true = (s, Ok report).
Proof.
  destruct demo_execution as [s [report|e]] eqn:Hx; [|vm_compute in Hx; discriminate Hx].
  exists s, report. split; [done|]. split; [vm_compute in Hx; injection Hx as <- _; discriminate|].
  apply (state_replay_reaches_state "0.1.0" demo_config quiet_config demo_world other_world no_storage demo_archive ["a"] s report);
    [exact Hx|vm_compute; reflexivity|by repeat split|vm_compute; reflexivity].
Defined.
#[local] Instance runtime_payload_json : Json SnapshotPayload := demo_json.
Definition old_state : StorageSnapshot :=
  match from_entries_with_revision "dev.example.app" 0 7 {["name" := [x61]]} with
  | Ok s => s
  | Err _ => mkSnapshot (mkSnapshotPayload 0 "" 9 0 ∅) ""
  end.
Definition migrating_archive : CartridgeArchive :=
  mkArchive demo_package ∅ (fun _ => Err "not run")
    (fun name _ _ => Ok (Invoke (StoragePut "migrated-by" (as_bytes name)) (fun _ => Finish (Ok "") 1))).
Lemma migration_reaches_schema_witness :
  exists report, migrate quiet_config (fun _ => other_world) migrating_archive old_state = Ok report
    /\ schema_of report.(mr_snapshot) = 3 /\ (ms_to <$> report.(mr_steps)) = [1; 3].
Proof.
  destruct (migrate quiet_config (fun _ => other_world) migrating_archive old_state) as [report|e] eqn:Hm;
    [|vm_compute in Hm; discriminate Hm].
  exists report. split; [done|].
  destruct (migration_reaches_schema quiet_config (fun _ => other_world) migrating_archive old_state report Hm) as (Hs & _).
  split; [exact Hs|]. vm_compute in Hm. injection Hm as <-. vm_compute. reflexivity.
Defined.
End RuntimeWitness.
