(* ===== verification/Archive.v ===== *)
(** * Package archives ([crates/cartridge-core/src/archive.rs] and [pack.rs])

    Opening a package: the entries of the zip file with their limits, the
    manifest, and the digests that bind the component and the assets to it; the
    check of a single asset; and packing, which writes such a file.  The formats
    of zip and TOML are parameters with the law that reading gives back what was
    written. *)
From stdpp Require Import pretty.
From S2P Require Import Prelude Text Core Storage Snapshot Directory Blob Network Manifest Files.

(** An entry of a zip file: the size its header declares, and the bytes its
    decoder yields before it ends or fails. *)
Record ZipEntry := mkZipEntry {
  ze_name : string;
  ze_is_dir : bool;
  ze_size : N;
  ze_content : bytes;
  ze_failure : option string;
}.
Definition plain_entry (name : string) (content : bytes) : ZipEntry := mkZipEntry name false (len content) content None.
Class ZipCrate := {
  (** [ZipArchive::new] and, for every index, [by_index] *)
  zip_entries : bytes -> result string (list (result string ZipEntry));
  (** [ZipWriter] over the files in order *)
  zip_write : list (string * bytes) -> result string bytes;
  zip_round_trip : forall files b, zip_write files = Ok b ->
    zip_entries b = Ok ((fun f => Ok (plain_entry f.1 f.2)) <$> files);
}.
Class TomlCrate := {
  toml_from_str : string -> result string PackageManifest;
  toml_to_string_pretty : PackageManifest -> result string string;
  toml_round_trip : forall m s, toml_to_string_pretty m = Ok s -> toml_from_str s = Ok m;
  toml_utf8 : forall m s, toml_to_string_pretty m = Ok s -> from_utf8 (as_bytes s) = Some s;
}.

Definition MANIFEST_PATH : string := "cartridge.toml".
Definition COMPONENT_PATH : string := "component.wasm".
Definition ASSETS : string := "assets/".

Record PackageLimits := mkPackageLimits {
  archive_bytes : N;
  manifest_bytes : N;
  component_bytes : N;
  asset_bytes : N;
  pl_total_bytes : N;
  max_entries : N;
}.
Definition default_package_limits : PackageLimits :=
  mkPackageLimits (160 * 1024 * 1024) (1024 * 1024) (32 * 1024 * 1024) (16 * 1024 * 1024) (128 * 1024 * 1024) 1024.

Record CartridgeArchive := mkCartridgeArchive {
  ar_package_sha256 : string;
  ar_package_bytes : N;
  ar_manifest : PackageManifest;
  ar_component : bytes;
  ar_assets : gmap string bytes;
}.
Record AssetVerification := mkAssetVerification {
  av_cartridge_id : string;
  av_cartridge_version : string;
  av_path : string;
  av_bytes : N;
  av_sha256 : string;
  av_assets_root_sha256 : string;
}.
Definition archive_error {A : Type} (m : string) : ManifestResult A := Err (Core.Archive m).
Definition integrity_error {A : Type} (m : string) : ManifestResult A := Err (Core.Integrity m).

Section Archive.
Context `{Ext : Externals} `{Hex : HexDecode} `{SV : !Semver} `{UC : UrlCrate}.

(** The reader is a file or a buffer, given by its content. *)
Definition package_snapshot (content : bytes) (limit : N) : ManifestResult (bytes * N * string) :=
  if (len content =? 0) || (limit <? len content)
  then archive_error ("archive byte length must be between 1 and " +:+ pretty limit)
  else Ok (content, len content, hex_sha256 content).

Definition read_bounded_entry (entry : ZipEntry) (limit : N) (name : string) : ManifestResult bytes :=
  let window := saturating_add u64_max limit 1 in
  match (if len entry.(ze_content) <? window then entry.(ze_failure) else None) with
  | Some e => Err (Core.Io e)
  | None =>
      let bytes := take (N.to_nat window) entry.(ze_content) in
      if limit <? len bytes then archive_error ("archive entry exceeded its decompressed size limit: " +:+ name)
      else if negb (len bytes =? entry.(ze_size))
      then archive_error ("archive entry size does not match its contents: " +:+ name)
      else Ok bytes
  end.
Definition entry_limit (limits : PackageLimits) (name : string) : ManifestResult N :=
  if bool_decide (name = MANIFEST_PATH) then Ok limits.(manifest_bytes)
  else if bool_decide (name = COMPONENT_PATH) then Ok limits.(component_bytes)
  else if starts_with name ASSETS then Ok limits.(asset_bytes)
  else archive_error ("unexpected archive entry: " +:+ name).

(** The loop of [open_reader] over the entries *)
Fixpoint collect_entries (limits : PackageLimits) (entries : gmap string bytes) (total_size : N)
    (l : list (result string ZipEntry)) : ManifestResult (gmap string bytes) :=
  match l with
  | [] => Ok entries
  | Err e :: _ => Err (Core.Zip e)
  | Ok entry :: l =>
      if entry.(ze_is_dir) then collect_entries limits entries total_size l
      else
        let? name := normalize_relative_path entry.(ze_name) in
        if is_some (entries !! name) then archive_error ("duplicate archive entry: " +:+ name)
        else
          let? limit := entry_limit limits name in
          if limit <? entry.(ze_size) then archive_error ("archive entry is too large: " +:+ name)
          else
            let remaining := limits.(pl_total_bytes) - total_size in
            if remaining <? entry.(ze_size) then archive_error "archive exceeds the total uncompressed size limit"
            else
              let? bytes := read_bounded_entry entry (N.min limit remaining) name in
              let? total_size := ok_or (checked_add u64_max total_size (len bytes)) (Core.Archive "archive size overflow") in
              collect_entries limits (<[name := bytes]> entries) total_size l
  end.

Context `{ZC : !ZipCrate} `{TC : !TomlCrate}.

Definition parse_manifest (content : bytes) : ManifestResult PackageManifest :=
  let? text := ok_or (from_utf8 content) (Core.Manifest "manifest must be UTF-8") in
  let? manifest := map_err Core.TomlDecode (toml_from_str text) in
  let? _ := validate_package manifest in
  Ok manifest.
Definition verify_component (manifest : PackageManifest) (component : bytes) : ManifestResult unit :=
  if str_is_empty manifest.(integrity).(in_component_sha256) then integrity_error "component digest is missing"
  else
    let actual := hex_sha256 component in
    if negb (eq_ignore_ascii_case actual manifest.(integrity).(in_component_sha256))
    then integrity_error ("component digest mismatch: expected " +:+ manifest.(integrity).(in_component_sha256) +:+ ", got " +:+ actual)
    else Ok tt.
Fixpoint check_asset_digests (declared : gmap string string) (l : list (string * bytes)) : ManifestResult unit :=
  match l with
  | [] => Ok tt
  | (path, bytes) :: l =>
      let? expected := ok_or (declared !! path) (Core.Integrity ("asset digest is missing: " +:+ path)) in
      let actual := hex_sha256 bytes in
      if negb (eq_ignore_ascii_case actual expected)
      then integrity_error ("asset digest mismatch for " +:+ path +:+ ": expected " +:+ expected +:+ ", got " +:+ actual)
      else check_asset_digests declared l
  end.
Definition verify_assets (manifest : PackageManifest) (assets : gmap string bytes) : ManifestResult unit :=
  let declared := manifest.(integrity) in
  let? _ :=
    if str_is_empty declared.(assets_root_sha256) then Ok tt
    else
      let? actual := asset_integrity_root declared.(assets_sha256) in
      if negb (eq_ignore_ascii_case actual declared.(assets_root_sha256))
      then integrity_error "asset integrity root does not match the manifest" else Ok tt in
  if negb (btree_len declared.(assets_sha256) =? btree_len assets)
  then integrity_error ("asset digest set contains " +:+ pretty (btree_len declared.(assets_sha256))
                        +:+ " entries but the package contains " +:+ pretty (btree_len assets) +:+ " assets")
  else check_asset_digests declared.(assets_sha256) (btree_iter assets).
(** The entries that are left, without their prefix *)
Fixpoint strip_assets (acc : gmap string bytes) (l : list (string * bytes)) : ManifestResult (gmap string bytes) :=
  match l with
  | [] => Ok acc
  | (name, bytes) :: l =>
      let? path := ok_or (strip_prefix ASSETS name) (Core.Archive ("unexpected archive entry: " +:+ name)) in
      strip_assets (<[path := bytes]> acc) l
  end.

Definition open_reader (content : bytes) (limits : PackageLimits) : ManifestResult CartridgeArchive :=
  let? (bytes, package_bytes, package_sha256) := package_snapshot content limits.(archive_bytes) in
  let? zip := map_err Core.Zip (zip_entries bytes) in
  if limits.(max_entries) <? len zip
  then archive_error ("archive contains " +:+ pretty (len zip) +:+ " entries; maximum is " +:+ pretty limits.(max_entries))
  else
    let? entries := collect_entries limits ∅ 0 zip in
    let? manifest_bytes := ok_or (entries !! MANIFEST_PATH) (Core.Archive ("missing " +:+ MANIFEST_PATH)) in
    let entries := delete MANIFEST_PATH entries in
    let? manifest := parse_manifest manifest_bytes in
    let? component := ok_or (entries !! COMPONENT_PATH) (Core.Archive ("missing " +:+ COMPONENT_PATH)) in
    let entries := delete COMPONENT_PATH entries in
    let? _ := verify_component manifest component in
    let? assets := strip_assets ∅ (btree_iter entries) in
    let? _ := verify_assets manifest assets in
    Ok (mkCartridgeArchive package_sha256 package_bytes manifest component assets).
Definition open_bytes (content : bytes) : ManifestResult CartridgeArchive := open_reader content default_package_limits.

(** ** A single asset *)
Record SelectiveEntries := mkSelective {
  se_manifest : N;
  se_requested : option N;
  se_assets : gset string;
}.
Record SelectiveScan := mkScan {
  sc_seen : gset string;
  sc_assets : gset string;
  sc_manifest : option N;
  sc_component : bool;
  sc_requested : option N;
  sc_total : N;
}.
Fixpoint scan_loop (limits : PackageLimits) (requested : string) (index : N) (s : SelectiveScan)
    (l : list (result string ZipEntry)) : ManifestResult SelectiveScan :=
  match l with
  | [] => Ok s
  | Err e :: _ => Err (Core.Zip e)
  | Ok entry :: l =>
      if entry.(ze_is_dir) then scan_loop limits requested (index + 1) s l
      else
        let? name := normalize_relative_path entry.(ze_name) in
        if bool_decide (name ∈ s.(sc_seen)) then archive_error ("duplicate archive entry: " +:+ name)
        else
          let seen := {[name]} ∪ s.(sc_seen) in
          let? limit := entry_limit limits name in
          let s :=
            if bool_decide (name = MANIFEST_PATH)
            then mkScan seen s.(sc_assets) (Some index) s.(sc_component) s.(sc_requested) s.(sc_total)
            else if bool_decide (name = COMPONENT_PATH)
            then mkScan seen s.(sc_assets) s.(sc_manifest) true s.(sc_requested) s.(sc_total)
            else mkScan seen ({[default name (strip_prefix ASSETS name)]} ∪ s.(sc_assets)) s.(sc_manifest) s.(sc_component)
                   (if bool_decide (name = requested) then Some index else s.(sc_requested)) s.(sc_total) in
          if limit <? entry.(ze_size) then archive_error ("archive entry is too large: " +:+ name)
          else
            let? total := ok_or (checked_add u64_max s.(sc_total) entry.(ze_size)) (Core.Archive "archive size overflow") in
            if limits.(pl_total_bytes) <? total then archive_error "archive exceeds the total uncompressed size limit"
            else
              scan_loop limits requested (index + 1)
                (mkScan s.(sc_seen) s.(sc_assets) s.(sc_manifest) s.(sc_component) s.(sc_requested) total) l
  end.
Definition scan_selective_entries (zip : list (result string ZipEntry)) (limits : PackageLimits) (requested : string) :
    ManifestResult SelectiveEntries :=
  if limits.(max_entries) <? len zip
  then archive_error ("archive contains " +:+ pretty (len zip) +:+ " entries; maximum is " +:+ pretty limits.(max_entries))
  else
    let? s := scan_loop limits requested 0 (mkScan ∅ ∅ None false None 0) zip in
    if negb s.(sc_component) then archive_error ("missing " +:+ COMPONENT_PATH)
    else
      let? manifest := ok_or s.(sc_manifest) (Core.Archive ("missing " +:+ MANIFEST_PATH)) in
      Ok (mkSelective manifest s.(sc_requested) s.(sc_assets)).
(** [zip.by_index(index)?] *)
Definition by_index (zip : list (result string ZipEntry)) (index : N) : ManifestResult ZipEntry :=
  let? entry := ok_or (zip !! N.to_nat index) (Core.Zip "specified file not found in archive") in
  map_err Core.Zip entry.
Definition verify_asset (content : bytes) (asset_path : string) : ManifestResult AssetVerification :=
  let limits := default_package_limits in
  let? requested := normalize_relative_path asset_path in
  let requested_entry := ASSETS +:+ requested in
  let? zip := map_err Core.Zip (zip_entries content) in
  let? entries := scan_selective_entries zip limits requested_entry in
  let? entry := by_index zip entries.(se_manifest) in
  let? bytes := read_bounded_entry entry limits.(manifest_bytes) MANIFEST_PATH in
  let? manifest := parse_manifest bytes in
  if negb (bool_decide (entries.(se_assets) = dom manifest.(integrity).(assets_sha256)))
  then integrity_error "archive asset names do not match the manifest"
  else if str_is_empty manifest.(integrity).(assets_root_sha256)
  then integrity_error "selective asset verification requires an asset integrity root"
  else
    let? expected := ok_or (manifest.(integrity).(assets_sha256) !! requested) (Core.Archive ("asset not found: " +:+ requested)) in
    let? index := ok_or entries.(se_requested) (Core.Archive ("asset not found: " +:+ requested)) in
    let? entry := by_index zip index in
    let? bytes := read_bounded_entry entry limits.(asset_bytes) requested_entry in
    let sha256 := hex_sha256 bytes in
    if negb (eq_ignore_ascii_case sha256 expected)
    then integrity_error ("asset digest mismatch for " +:+ requested)
    else
      Ok (mkAssetVerification manifest.(cartridge).(cm_id) manifest.(cartridge).(cm_version) requested entry.(ze_size) sha256
            manifest.(integrity).(assets_root_sha256)).

(** ** Packing

    An input is a file given by its content; the walk of the asset directory is
    the list of what it meets, with the path below the root where that is
    Unicode. *)
Record WalkEntry := mkWalkEntry { wk_is_file : bool; wk_path : option string; wk_content : bytes }.
Record PackInput := mkPackInput {
  pi_manifest : bytes;
  pi_component : bytes;
  pi_assets : option (list (result string WalkEntry));
}.
Definition read_bounded_file (content : bytes) (limit : N) (label : string) : ManifestResult bytes :=
  if limit <? len content then archive_error (label +:+ " exceeds the " +:+ pretty limit +:+ "-byte input limit") else Ok content.
Fixpoint collect_assets (limits : PackageLimits) (assets : gmap string bytes) (total_bytes : N)
    (walk : list (result string WalkEntry)) : ManifestResult (gmap string bytes * N) :=
  match walk with
  | [] => Ok (assets, total_bytes)
  | Err e :: _ => archive_error e
  | Ok entry :: walk =>
      if negb entry.(wk_is_file) then collect_assets limits assets total_bytes walk
      else if limits.(max_entries) - 2 <=? btree_len assets
      then archive_error ("package contains more than " +:+ pretty (limits.(max_entries) - 2) +:+ " asset files")
      else
        let? path := ok_or entry.(wk_path) (Core.Archive "asset path is not valid UTF-8") in
        let? path := normalize_relative_path path in
        if is_some (assets !! path) then archive_error ("duplicate asset path: " +:+ path)
        else
          let? bytes := read_bounded_file entry.(wk_content) limits.(asset_bytes) "asset" in
          let? total := ok_or (checked_add u64_max total_bytes (len bytes)) (Core.Archive "package input size overflow") in
          if limits.(pl_total_bytes) <? total
          then archive_error "package inputs exceed the total uncompressed size limit"
          else collect_assets limits (<[path := bytes]> assets) total walk
  end.
Definition with_integrity (m : PackageManifest) (i : Integrity) : PackageManifest :=
  mkPackageManifest m.(pm_format_version) m.(cartridge) m.(permissions) m.(pm_http) m.(compatibility) m.(runtime) m.(state)
    m.(dependencies) m.(provides) i.
(** What is packed: the manifest with the digests filled in, the component and
    the assets. *)
Definition prepare_package (input : PackInput) : ManifestResult (PackageManifest * bytes * gmap string bytes) :=
  let limits := default_package_limits in
  let? manifest_content := read_bounded_file input.(pi_manifest) limits.(manifest_bytes) "manifest" in
  let? manifest := parse_manifest manifest_content in
  let? component := read_bounded_file input.(pi_component) limits.(component_bytes) "component" in
  if (len component <? 8) || negb (bool_decide (take 4 component = [x00; x61; x73; x6d]))
  then archive_error "component is not a WebAssembly binary"
  else
    let total_bytes := len manifest_content + len component in
    if limits.(pl_total_bytes) <? total_bytes
    then archive_error "package inputs exceed the total uncompressed size limit"
    else
      let? (assets, _) := match input.(pi_assets) with
                          | Some walk => collect_assets limits ∅ total_bytes walk
                          | None => Ok (∅, total_bytes)
                          end in
      if negb (bool_decide (assets = ∅)) && negb manifest.(permissions).(Manifest.assets)
      then Err (Core.Manifest "the package contains assets but permissions.assets is false")
      else
        let digests := hex_sha256 <$> assets in
        let? root := asset_integrity_root digests in
        Ok (with_integrity manifest (mkIntegrity (hex_sha256 component) digests root), component, assets).
(** The files [write_archive] writes, in order *)
Definition archive_files (manifest_text : string) (component : bytes) (assets : gmap string bytes) : list (string * bytes) :=
  (MANIFEST_PATH, as_bytes manifest_text) :: (COMPONENT_PATH, component)
  :: ((fun f => (ASSETS +:+ f.1, f.2)) <$> btree_iter assets).
Definition package_content (manifest : PackageManifest) (component : bytes) (assets : gmap string bytes) : ManifestResult bytes :=
  let? text := map_err Core.TomlEncode (toml_to_string_pretty manifest) in
  map_err Core.Zip (zip_write (archive_files text component assets)).
Definition write_archive (path : Path) (manifest : PackageManifest) (component : bytes) (assets : gmap string bytes) :
    IO (ManifestResult unit) :=
  create_new path ;;?
  match package_content manifest component assets with
  | Err e => ret (Err e)
  | Ok content => write_all path content ;;? ret (Ok tt)
  end.
Definition pack_temporary (output : Path) : IO Path :=
  do? sequence := fetch_sequence in
  do? process := get_process_id in
  ret (output.1, output.2 +:+ "." +:+ pretty process +:+ "-" +:+ pretty sequence +:+ ".tmp").
(** An I/O error is the [Err] of the run, every other error its answer. *)
Definition pack (input : PackInput) (output : Path) : IO (ManifestResult PackageManifest) :=
  if negb (bool_decide (extension output.2 = Some "cartridge"))
  then ret (archive_error "output file must use the .cartridge extension")
  else
    match prepare_package input with
    | Err e => ret (Err e)
    | Ok (manifest, component, assets) =>
        ensure_directory output.1 ;;?
        do? temporary := pack_temporary output in
        do? written := attempt (write_archive temporary manifest component assets) in
        match written with
        | Err e => discard temporary ;;? fail e
        | Ok (Err e) => discard temporary ;;? ret (Err e)
        | Ok (Ok _) =>
            do? linked := attempt (hard_link temporary output) in
            match linked with
            | Err e => discard temporary ;;? fail e
            | Ok _ => remove_file temporary ;;? ret (Ok manifest)
            end
        end
    end.
End Archive.
