(* ===== verification/ArchiveTheorems.v ===== *)
(** * Theorems about package archives

    A package that opens is whole: its digests bind every byte the runtime will
    use, and nothing leaves the limits.  What is packed opens again as what was
    packed, and the check of a single asset agrees with opening the whole
    package. *)
From stdpp Require Import pretty.
From S2P Require Import Prelude Text Core Storage Snapshot Directory Blob BlobTheorems Network NetworkTheorems Manifest ManifestTheorems Files Archive.

(** ** Sizes *)
Definition total_len (m : gmap string bytes) : N := map_fold (fun _ b n => len b + n) 0 m.
Lemma total_len_insert (m : gmap string bytes) k b : m !! k = None -> total_len (<[k := b]> m) = len b + total_len m.
Proof. intros H. unfold total_len. rewrite map_fold_insert_L; [done|intros; lia|done]. Qed.
Lemma total_len_delete (m : gmap string bytes) k b : m !! k = Some b -> total_len m = len b + total_len (delete k m).
Proof. intros H. rewrite <- (insert_delete_id m k b H) at 1. apply total_len_insert. apply lookup_delete_eq. Qed.
Lemma total_len_lookup (m : gmap string bytes) k b : m !! k = Some b -> len b <= total_len m.
Proof. intros H. rewrite (total_len_delete m k b H). lia. Qed.

Lemma strip_prefix_back p s : strip_prefix p (p +:+ s) = Some s.
Proof.
  induction p as [|a p IH]; [done|]. change (String a p +:+ s) with (String a (p +:+ s)). cbn [strip_prefix].
  by rewrite bool_decide_eq_true_2.
Qed.
Lemma strip_prefix_inv p s r : strip_prefix p s = Some r -> s = p +:+ r.
Proof.
  revert s. induction p as [|a p IH]; intros s; cbn [strip_prefix]; [by intros [= ->]|].
  destruct s as [|b s]; [done|]. case_bool_decide; [subst b|done]. intros H%IH. by subst s.
Qed.
Lemma prefixed_inj (p a b : string) : p +:+ a = p +:+ b -> a = b.
Proof. induction p as [|x p IH]; [done|]. change (String x p +:+ ?s) with (String x (p +:+ s)). intros [= H]. by apply IH. Qed.

Section Collect.
Context (limits : PackageLimits).
(** What the loop has let through *)
Definition entry_ok (name : string) (b : bytes) : Prop :=
  normalize_relative_path name = Ok name /\ exists limit, entry_limit limits name = Ok limit /\ len b <= limit.
Definition entries_ok (m : gmap string bytes) : Prop := map_Forall entry_ok m /\ total_len m <= limits.(pl_total_bytes).
Lemma normalize_same s r : normalize_relative_path s = Ok r -> r = s.
Proof. unfold normalize_relative_path. destruct (_ || _); [done|]. destruct (existsb _ _); [done|]. by intros [= ->]. Qed.
Lemma read_bounded_len entry limit name b :
  read_bounded_entry entry limit name = Ok b -> len b <= limit /\ len b = entry.(ze_size).
Proof.
  unfold read_bounded_entry. cbv zeta.
  destruct (if len (ze_content entry) <? _ then _ else None); [done|].
  destruct (N.ltb_spec limit (len (take (N.to_nat (saturating_add u64_max limit 1)) (ze_content entry)))); [done|].
  destruct (N.eqb_spec (len (take (N.to_nat (saturating_add u64_max limit 1)) (ze_content entry))) (ze_size entry)); [|done].
  cbn. by intros [= <-].
Qed.
Lemma collect_entries_ok l : forall entries total entries',
  collect_entries limits entries total l = Ok entries' -> entries_ok entries -> total = total_len entries -> entries_ok entries'.
Proof.
  induction l as [|[entry|e] l IH]; intros entries total entries'; cbn [collect_entries]; [by intros [= <-]| |done].
  destruct (ze_is_dir entry); [apply IH|].
  destruct (normalize_relative_path (ze_name entry)) as [name|] eqn:Hn; [|done].
  destruct (entries !! name) as [b0|] eqn:Hfresh; [done|]. cbn [is_some].
  destruct (entry_limit limits name) as [limit|] eqn:Hl; [|done]. destruct (limit <? _); [done|]. destruct (_ <? ze_size _); [done|].
  destruct (read_bounded_entry _ _ _) as [b|] eqn:Hb; [|done]. apply read_bounded_len in Hb as [Hb _].
  unfold checked_add. destruct (_ <=? u64_max); [|done]. cbn [ok_or]. intros H [Hall Htot] ->.
  apply (IH _ _ _ H).
  - split; [|rewrite total_len_insert by done; lia]. apply map_Forall_insert_2; [|done]. split.
    + pose proof (normalize_same _ _ Hn) as ->. exact Hn.
    + exists limit. split; [done|lia].
  - rewrite total_len_insert by done. lia.
Qed.
End Collect.

(** ** Opening *)
Section Opened.
Context `{Ext : Externals} `{Hex : HexDecode} `{SV : !Semver} `{UC : UrlCrate} `{ZC : !ZipCrate} `{TC : !TomlCrate}.

Lemma strip_assets_spec (l : list (string * bytes)) : forall acc m,
  strip_assets acc l = Ok m -> NoDup l.*1 -> (forall p, (ASSETS +:+ p) ∈ l.*1 -> acc !! p = None) ->
  (forall p b, m !! p = Some b <-> acc !! p = Some b \/ (ASSETS +:+ p, b) ∈ l)
  /\ total_len m = total_len acc + sumN ((fun x => len x.2) <$> l).
Proof.
  induction l as [|[name b] l IH]; intros acc m; cbn [strip_assets].
  { intros [= <-] _ _. split; [set_solver|]. rewrite fmap_nil, sumN_nil. lia. }
  destruct (strip_prefix ASSETS name) as [path|] eqn:Hp; [|done]. cbn [ok_or]. apply strip_prefix_inv in Hp as ->.
  rewrite fmap_cons. cbn [fst]. intros H [Hnin Hnd]%NoDup_cons Hacc.
  assert (acc !! path = None) as Hfresh by (apply Hacc; left).
  destruct (IH _ _ H Hnd) as [Hm Hs].
  { intros p Hin. destruct (decide (p = path)) as [->|Hne]; [done|].
    rewrite lookup_insert_ne by done. apply Hacc. by right. }
  split; [|rewrite fmap_cons, sumN_cons; cbn [snd]; rewrite Hs, total_len_insert by done; lia].
  intros p b'. rewrite Hm, elem_of_cons. destruct (decide (p = path)) as [->|Hne].
  - rewrite lookup_insert_eq, Hfresh. split; [intros [[= ->]|Hin]; [by right; left|by right; right]|].
    intros [?|[[= ->]|Hin]]; [done|by left|by right].
  - rewrite lookup_insert_ne by done. split; [intros [?|?]; [by left|by right; right]|].
    intros [?|[Heq|?]]; [by left| |by right]. injection Heq as Heq ->. by apply prefixed_inj in Heq.
Qed.
Lemma total_len_iter (m : gmap string bytes) : sumN ((fun x => len x.2) <$> btree_iter m) = total_len m.
Proof.
  rewrite (sumN_perm _ ((fun x => len x.2) <$> map_to_list m)) by (by rewrite btree_iter_perm).
  induction m as [|k b m Hk IH] using map_ind; [by rewrite map_to_list_empty, fmap_nil, sumN_nil|].
  rewrite (sumN_perm _ ((fun x => len x.2) <$> ((k, b) :: map_to_list m))) by (by rewrite map_to_list_insert).
  rewrite fmap_cons, sumN_cons, total_len_insert by done. cbn [snd]. by rewrite IH.
Qed.
Lemma strip_assets_map (entries m : gmap string bytes) :
  strip_assets ∅ (btree_iter entries) = Ok m ->
  (forall p b, m !! p = Some b <-> entries !! (ASSETS +:+ p) = Some b) /\ total_len m = total_len entries.
Proof.
  intros H. destruct (strip_assets_spec _ _ _ H) as [Hm Hs].
  - rewrite btree_iter_perm. apply NoDup_fst_map_to_list.
  - intros p _. apply lookup_empty.
  - rewrite total_len_iter in Hs. split; [|exact Hs].
    intros p b. rewrite Hm, btree_iter_elem, lookup_empty. naive_solver.
Qed.
Lemma asset_digests_spec (declared : gmap string string) (l : list (string * bytes)) :
  check_asset_digests declared l = Ok tt ->
  forall p b, (p, b) ∈ l -> exists d, declared !! p = Some d /\ eq_ignore_ascii_case (hex_sha256 b) d = true.
Proof.
  induction l as [|[path b0] l IH]; cbn [check_asset_digests]; [set_solver|].
  destruct (declared !! path) as [d|] eqn:Hd; [|done]. cbn [ok_or].
  destruct (eq_ignore_ascii_case _ d) eqn:He; [|done]. intros H p b [[= -> ->]|Hin]%elem_of_cons; [by exists d|]. by apply IH.
Qed.
Lemma same_size_dom (declared : gmap string string) (assets : gmap string bytes) :
  btree_len declared = btree_len assets -> dom assets ⊆ dom declared -> dom assets = dom declared :> gset string.
Proof.
  intros Hs Hsub. apply set_subseteq_size_eq; [done|]. rewrite !size_dom. unfold btree_len in Hs. lia.
Qed.
Lemma verify_assets_spec manifest (assets : gmap string bytes) :
  verify_assets manifest assets = Ok tt ->
  dom assets = dom manifest.(integrity).(assets_sha256) :> gset string
  /\ (forall p b, assets !! p = Some b ->
        exists d, manifest.(integrity).(assets_sha256) !! p = Some d /\ eq_ignore_ascii_case (hex_sha256 b) d = true).
Proof.
  unfold verify_assets. cbv zeta. destruct (if str_is_empty _ then _ else _) as [[]|]; [|done].
  destruct (N.eqb_spec (btree_len (assets_sha256 (integrity manifest))) (btree_len assets)) as [Hl|]; [|done]. cbn [negb].
  intros H. assert (forall p b, assets !! p = Some b ->
    exists d, manifest.(integrity).(assets_sha256) !! p = Some d /\ eq_ignore_ascii_case (hex_sha256 b) d = true) as Hdig.
  { intros p b Hb. apply (asset_digests_spec _ _ H). by apply btree_iter_elem. }
  split; [|done]. apply same_size_dom; [done|]. intros p Hp. apply elem_of_dom in Hp as [b Hb].
  destruct (Hdig _ _ Hb) as (d & Hd & _). by apply elem_of_dom.
Qed.
Lemma prefix_back (p s : string) : starts_with (p +:+ s) p = true.
Proof.
  unfold starts_with. induction p as [|x p IH]; [by destruct s|]. change (String x p +:+ s) with (String x (p +:+ s)).
  cbn [String.prefix]. by destruct (ascii_dec x x).
Qed.
Lemma asset_entry_limit limits path : entry_limit limits (ASSETS +:+ path) = Ok limits.(asset_bytes).
Proof.
  unfold entry_limit. rewrite !bool_decide_eq_false_2 by done. by rewrite prefix_back.
Qed.
(** The stages of [open_reader] *)
Lemma open_reader_stages content limits a :
  open_reader content limits = Ok a ->
  exists entries mb,
    (a.(ar_package_sha256) = hex_sha256 content /\ a.(ar_package_bytes) = len content /\ 0 < len content <= limits.(archive_bytes))
    /\ entries_ok limits entries /\ entries !! MANIFEST_PATH = Some mb /\ parse_manifest mb = Ok a.(ar_manifest)
    /\ delete MANIFEST_PATH entries !! COMPONENT_PATH = Some a.(ar_component)
    /\ verify_component a.(ar_manifest) a.(ar_component) = Ok tt
    /\ strip_assets ∅ (btree_iter (delete COMPONENT_PATH (delete MANIFEST_PATH entries))) = Ok a.(ar_assets)
    /\ verify_assets a.(ar_manifest) a.(ar_assets) = Ok tt.
Proof.
  unfold open_reader, package_snapshot. destruct ((len content =? 0) || _) eqn:Hlen; [done|].
  destruct (map_err _ _) as [zip|]; [|done]. destruct (_ <? len zip); [done|].
  destruct (collect_entries _ _ _ _) as [entries|] eqn:Hc; [|done].
  destruct (entries !! MANIFEST_PATH) as [mb|] eqn:Hm; [|done]. cbn [ok_or]. cbv zeta.
  destruct (parse_manifest mb) as [manifest|] eqn:Hp; [|done].
  destruct (delete MANIFEST_PATH entries !! COMPONENT_PATH) as [component|] eqn:Hcomp; [|done]. cbn [ok_or].
  destruct (verify_component _ _) as [[]|] eqn:Hvc; [|done].
  destruct (strip_assets _ _) as [assets|] eqn:Hst; [|done].
  destruct (verify_assets _ _) as [[]|] eqn:Hva; [|done]. intros [= <-].
  exists entries, mb. cbn. split_and!; try done.
  - apply orb_false_iff in Hlen as [H0%N.eqb_neq _]. lia.
  - by apply orb_false_iff in Hlen as [_ ?%N.ltb_ge].
  - apply (collect_entries_ok limits _ _ _ _ Hc); [|done]. split; [apply map_Forall_empty|apply N.le_0_l].
Qed.

(** C27: A package that opens is whole and bounded: its digest and length are those
    of the bytes it was read from; the manifest is valid; the component and every
    asset have the digests the manifest declares, for exactly the declared assets;
    every asset path is a normalized relative one; and nothing that was unpacked
    exceeds its own limit or the limit of the whole. *)
Theorem opened_package_is_whole (content : bytes) (limits : PackageLimits) (a : CartridgeArchive) :
  open_reader content limits = Ok a ->
  a.(ar_package_sha256) = hex_sha256 content /\ a.(ar_package_bytes) = len content
  /\ 0 < len content <= limits.(archive_bytes)
  /\ validate_package a.(ar_manifest) = Ok tt
  /\ eq_ignore_ascii_case (hex_sha256 a.(ar_component)) a.(ar_manifest).(integrity).(in_component_sha256) = true
  /\ dom a.(ar_assets) = dom a.(ar_manifest).(integrity).(assets_sha256) :> gset string
  /\ (forall path b, a.(ar_assets) !! path = Some b ->
        normalize_relative_path (ASSETS +:+ path) = Ok (ASSETS +:+ path) /\ len b <= limits.(asset_bytes)
        /\ exists d, a.(ar_manifest).(integrity).(assets_sha256) !! path = Some d
             /\ eq_ignore_ascii_case (hex_sha256 b) d = true)
  /\ len a.(ar_component) <= limits.(component_bytes)
  /\ len a.(ar_component) + total_len a.(ar_assets) <= limits.(pl_total_bytes).
Proof.
  intros H. destruct (open_reader_stages content limits a H) as (entries & mb & Hsnap & Hents & Hm & Hman & Hc & Hvc & Hst & Hva).
  destruct Hsnap as (-> & -> & Hlen). destruct Hents as [Hall Htot].
  destruct (strip_assets_map _ _ Hst) as [Hmap Hsum].
  destruct (verify_assets_spec _ _ Hva) as [Hdom Hdig].
  assert (entries !! COMPONENT_PATH = Some a.(ar_component)) as Hc0 by (by rewrite lookup_delete_ne in Hc).
  split_and!; try done; try lia.
  - unfold parse_manifest in Hman. destruct (from_utf8 mb); [|done]. cbn [ok_or] in Hman.
    destruct (map_err _ _) as [m|]; [|done]. destruct (validate_package m) as [[]|] eqn:Hv; [|done]. by injection Hman as <-.
  - unfold verify_component in Hvc. destruct (str_is_empty _); [done|]. cbv zeta in Hvc.
    by destruct (eq_ignore_ascii_case _ _).
  - intros path b Hb. pose proof Hb as He. apply Hmap in He. rewrite !lookup_delete_ne in He by done.
    destruct (Hall _ _ He) as (Hn & limit & Hl & Hle). split; [done|]. split; [|by apply Hdig].
    rewrite (asset_entry_limit limits path) in Hl. by injection Hl as ->.
  - destruct (Hall _ _ Hc0) as (_ & limit & Hl & Hle). by injection Hl as <-.
  - rewrite Hsum. pose proof (total_len_delete _ _ _ Hc). rewrite (total_len_delete _ _ _ Hm) in Htot. lia.
Qed.
End Opened.

(** ** Packing and opening again *)
Section RoundTrip.
Context `{Ext : Externals} `{Hex : HexDecode} `{SV : !Semver} `{UC : UrlCrate} `{ZC : !ZipCrate} `{TC : !TomlCrate}.

Lemma digest_is_sha256 s : is_digest s = true -> is_sha256 s = true.
Proof.
  unfold is_digest, is_sha256. intros [-> H]%andb_true_iff. cbn [andb]. apply forallb_forall. intros x Hx.
  rewrite forallb_forall in H. apply H in Hx. unfold is_lower_hex in Hx. unfold is_ascii_hexdigit.
  apply orb_true_iff in Hx as [->| ->]; [done|]. by rewrite orb_true_r.
Qed.
Lemma hash_is_sha256 b : is_sha256 (hex_sha256 b) = true.
Proof. apply digest_is_sha256, hex_sha256_is_digest. Qed.
Lemma ignore_case_refl s : eq_ignore_ascii_case s s = true.
Proof. unfold eq_ignore_ascii_case. by apply bool_decide_eq_true_2. Qed.

Definition digests32 (l : list bytes) : Prop := Forall (fun b => length b = 32%nat) l.
Lemma parents_32_step n : forall l, (length l <= n)%nat -> digests32 (parents l).
Proof.
  induction n as [|n IH]; intros [|a [|b l]] Hl; cbn [parents length] in *; try lia; repeat constructor; rewrite ?sha256_length; try done.
  apply IH. lia.
Qed.
Lemma collapse_32 fuel : forall l x, digests32 l -> collapse fuel l = Some x -> length x = 32%nat.
Proof.
  induction fuel as [|fuel IH]; intros [|a [|b l]] x Hl; cbn [collapse]; try done;
    try (intros [= <-]; by apply Forall_cons_1 in Hl as [? _]).
  apply IH. by apply (parents_32_step (length (a :: b :: l))).
Qed.
Lemma leaves_32 l : forall leaves, asset_leaves l = Ok leaves -> digests32 leaves.
Proof.
  induction l as [|[p d] l IH]; intros leaves; cbn [asset_leaves]; [intros [= <-]; constructor|].
  destruct (hex_decode d); [|done]. destruct (negb _); [done|]. destruct (asset_leaves l) as [rest|]; [|done].
  intros [= <-]. constructor; [apply sha256_length|by apply IH].
Qed.
Lemma root_is_sha256 digests root : asset_integrity_root digests = Ok root -> is_sha256 root = true.
Proof.
  unfold asset_integrity_root. destruct (asset_leaves _) as [nodes|] eqn:Hl; [|done]. apply leaves_32 in Hl.
  destruct nodes as [|x nodes]; [intros [= <-]; apply hash_is_sha256|].
  destruct (collapse _ _) as [r|] eqn:Hc; [|done]. apply collapse_32 in Hc; [|done]. intros [= <-].
  apply digest_is_sha256. unfold is_digest. rewrite hex_encode_len, hex_encode_lower. unfold len. by rewrite Hc.
Qed.
Lemma check_assets_ok l :
  (forall p d, (p, d) ∈ l -> is_ok (normalize_relative_path p) = true /\ is_sha256 d = true) -> check_assets l = Ok tt.
Proof.
  induction l as [|[p d] l IH]; intros H; cbn [check_assets]; [done|].
  destruct (H p d) as [Hp Hd]; [left|]. destruct (normalize_relative_path p); [|done]. rewrite Hd. cbn [negb].
  apply IH. intros p' d' Hin. apply H. by right.
Qed.
Lemma collect_assets_paths limits walk : forall assets total assets' total',
  collect_assets limits assets total walk = Ok (assets', total') ->
  map_Forall (fun p b => is_ok (normalize_relative_path p) = true /\ len b <= limits.(asset_bytes)) assets ->
  (size assets <= N.to_nat (limits.(max_entries) - 2))%nat ->
  map_Forall (fun p b => is_ok (normalize_relative_path p) = true /\ len b <= limits.(asset_bytes)) assets'
  /\ (size assets' <= N.to_nat (limits.(max_entries) - 2))%nat.
Proof.
  induction walk as [|[entry|e] walk IH]; intros assets total assets' total'; cbn [collect_assets]; [by intros [= <- <-]| |done].
  destruct (negb _); [apply IH|]. destruct (N.leb_spec (max_entries limits - 2) (btree_len assets)) as [|Hroom]; [done|].
  destruct (wk_path entry) as [path|]; [|done]. cbn [ok_or].
  destruct (normalize_relative_path path) as [name|] eqn:Hn; [|done]. destruct (assets !! name) eqn:Hf; [done|]. cbn [is_some].
  unfold read_bounded_file. destruct (N.ltb_spec (asset_bytes limits) (len (wk_content entry))) as [|Hlen]; [done|].
  destruct (ok_or _ _) as [t|]; [|done]. destruct (_ <? t); [done|]. intros H Hall Hsize. apply (IH _ _ _ _ H).
  - apply map_Forall_insert_2; [|done]. split; [|done]. pose proof (normalize_same _ _ Hn) as ->. by rewrite Hn.
  - rewrite map_size_insert_None by done. unfold btree_len in Hroom. lia.
Qed.
Lemma with_integrity_valid m i :
  validate_package m = Ok tt -> validate_integrity i = Ok tt -> validate_package (with_integrity m i) = Ok tt.
Proof.
  intros Hv Hi. revert Hv. unfold validate_package.
  cbn [with_integrity pm_format_version cartridge pm_http permissions compatibility Manifest.runtime integrity].
  destruct (negb _); [done|]. destruct (validate_id _); [|done]. destruct (validate_human_text _ _ 80 _); [|done].
  destruct (validate_human_text _ _ 240 _); [|done]. destruct (negb _); [done|]. destruct (map_err _ _); [|done].
  destruct (_ && _); [done|].
  change (validate_compatibility (compatibility m) (with_integrity m i)) with (validate_compatibility (compatibility m) m).
  destruct (validate_compatibility _ _); [|done]. destruct (validate_runtime_limits _); [|done].
  change (validate_state (with_integrity m i)) with (validate_state m). destruct (validate_state m); [|done].
  rewrite Hi. destruct (validate_integrity (integrity m)); [|done]. done.
Qed.
Lemma split_on_slash (a b : string) : split_on "/" (a +:+ String "/" b) = split_on "/" a ++ split_on "/" b.
Proof.
  induction a as [|x a IH].
  - change ("" +:+ String "/" b) with (String "/" b). cbn [split_on]. by rewrite bool_decide_eq_true_2.
  - change (String x a +:+ String "/" b) with (String x (a +:+ String "/" b)). cbn [split_on]. rewrite IH.
    case_bool_decide; [done|]. destruct (split_on "/" a) eqn:Hs; [|done].
    exfalso. clear -Hs. destruct a as [|y a]; [done|]. cbn [split_on] in Hs. case_bool_decide; [done|]. by destruct (split_on "/" a).
Qed.
(** What packing has established before it writes *)
Lemma prepared_package input manifest component (assets : gmap string bytes) :
  prepare_package input = Ok (manifest, component, assets) ->
  validate_package manifest = Ok tt /\ manifest.(integrity).(in_component_sha256) = hex_sha256 component
  /\ manifest.(integrity).(assets_sha256) = hex_sha256 <$> assets
  /\ asset_integrity_root (hex_sha256 <$> assets) = Ok manifest.(integrity).(assets_root_sha256)
  /\ len component <= default_package_limits.(component_bytes)
  /\ map_Forall (fun p b => is_ok (normalize_relative_path p) = true /\ len b <= default_package_limits.(asset_bytes)) assets
  /\ (size assets <= 1022)%nat.
Proof.
  unfold prepare_package. cbv zeta. destruct (read_bounded_file _ _ _) as [mc|]; [|done].
  destruct (parse_manifest mc) as [m|] eqn:Hm; [|done].
  unfold read_bounded_file. destruct (N.ltb_spec (component_bytes default_package_limits) (len (pi_component input))) as [|Hc]; [done|].
  destruct (_ || _); [done|]. destruct (_ <? _); [done|].
  destruct (match pi_assets input with Some walk => _ | None => _ end) as [[assets' total]|] eqn:Ha; [|done].
  destruct (_ && _); [done|]. destruct (asset_integrity_root _) as [root|] eqn:Hr; [|done]. intros [= <- <- <-].
  assert (map_Forall (fun p b => is_ok (normalize_relative_path p) = true /\ len b <= default_package_limits.(asset_bytes)) assets'
          /\ (size assets' <= 1022)%nat) as [Hall Hsize].
  { destruct (pi_assets input) as [walk|]; [|injection Ha as <- _; by split; [apply map_Forall_empty|rewrite map_size_empty; lia]].
    apply (collect_assets_paths default_package_limits) in Ha; [exact Ha|apply map_Forall_empty|rewrite map_size_empty; lia]. }
  cbn [integrity with_integrity in_component_sha256 assets_sha256 assets_root_sha256]. split_and!; try done.
  assert (validate_package m = Ok tt) as Hv.
  { unfold parse_manifest in Hm. destruct (from_utf8 mc); [|done]. cbn [ok_or] in Hm. destruct (map_err _ _) as [m'|]; [|done].
    destruct (validate_package m') as [[]|] eqn:Hv; [|done]. by injection Hm as <-. }
  apply (with_integrity_valid m _ Hv). unfold validate_integrity.
  cbn [in_component_sha256 assets_sha256 assets_root_sha256]. rewrite hash_is_sha256, andb_false_r.
  rewrite check_assets_ok.
  - destruct (str_is_empty root); [done|]. by rewrite (root_is_sha256 _ _ Hr), Hr, ignore_case_refl.
  - intros p d Hin. apply btree_iter_elem in Hin. rewrite lookup_fmap_Some in Hin. destruct Hin as (b & <- & Hb).
    split; [by apply (Hall p b)|apply hash_is_sha256].
Qed.

(** The loop over files that were just written *)
Lemma read_plain name content limit :
  limit < u64_max -> len content <= limit -> read_bounded_entry (plain_entry name content) limit name = Ok content.
Proof.
  intros Hu Hl. unfold read_bounded_entry. cbn [plain_entry ze_content ze_failure ze_size]. cbv zeta.
  assert (saturating_add u64_max limit 1 = limit + 1) as -> by (unfold saturating_add; lia).
  destruct (_ <? _); (rewrite take_ge by (unfold len in Hl; lia)); rewrite (proj2 (N.ltb_ge _ _) Hl), N.eqb_refl; done.
Qed.
Lemma collect_plain limits files : limits.(pl_total_bytes) < u64_max -> forall entries total,
  NoDup files.*1 -> (forall n, n ∈ files.*1 -> entries !! n = None) ->
  Forall (fun f => normalize_relative_path f.1 = Ok f.1
                   /\ exists limit, entry_limit limits f.1 = Ok limit /\ len f.2 <= limit) files ->
  total + sumN ((fun f => len f.2) <$> files) <= limits.(pl_total_bytes) ->
  collect_entries limits entries total ((fun f => Ok (plain_entry f.1 f.2)) <$> files) = Ok (foldl insert_pair entries files).
Proof.
  intros Hu. induction files as [|[name content] files IH]; intros entries total Hnd Hfresh Hok Htot; [done|].
  rewrite fmap_cons in *. cbn [fst snd] in *. apply NoDup_cons in Hnd as [Hn Hnd].
  apply Forall_cons_1 in Hok as [(Hnorm & limit & Hlim & Hlen) Hok]. rewrite fmap_cons, sumN_cons in Htot. cbn [fst snd] in *.
  cbn [collect_entries plain_entry ze_is_dir ze_name ze_size foldl]. rewrite Hnorm, (Hfresh name), Hlim by left. cbn [is_some].
  rewrite (proj2 (N.ltb_ge _ _) Hlen). cbv zeta. rewrite (proj2 (N.ltb_ge _ _)) by lia.
  change (mkZipEntry name false (len content) content None) with (plain_entry name content).
  rewrite read_plain by lia. unfold checked_add. rewrite (proj2 (N.leb_le _ _)) by lia. cbn [ok_or].
  apply IH; [done| |done|lia]. intros n Hin. unfold insert_pair. cbn [fst snd]. rewrite lookup_insert_ne by (by intros ->).
  apply Hfresh. by right.
Qed.
Lemma asset_path_normal p : is_ok (normalize_relative_path p) = true -> normalize_relative_path (ASSETS +:+ p) = Ok (ASSETS +:+ p).
Proof.
  unfold normalize_relative_path. destruct (str_is_empty p || _ || _ || contains_char p "\") eqn:Hp; [done|].
  destruct (existsb unsafe_part (split_on "/" p)) eqn:Hs; [done|]. intros _.
  apply orb_false_iff in Hp as [_ Hback].
  change (contains_char (ASSETS +:+ p) "\") with (contains_char p "\"). rewrite Hback.
  change (ASSETS +:+ p) with ("assets" +:+ String "/" p). rewrite split_on_slash, existsb_app, Hs. done.
Qed.
Definition asset_files (assets : gmap string bytes) : list (string * bytes) := (fun f => (ASSETS +:+ f.1, f.2)) <$> btree_iter assets.
Lemma asset_files_elem (assets : gmap string bytes) n b :
  (n, b) ∈ asset_files assets <-> exists p, n = ASSETS +:+ p /\ assets !! p = Some b.
Proof.
  unfold asset_files. rewrite list_elem_of_fmap. split.
  - intros ([p b'] & [= -> ->] & Hin). exists p. split; [done|]. by apply btree_iter_elem.
  - intros (p & -> & Hp). exists (p, b). split; [done|]. by apply btree_iter_elem.
Qed.
Lemma asset_files_names (assets : gmap string bytes) n : n ∈ (asset_files assets).*1 -> exists p, n = ASSETS +:+ p.
Proof. intros ([k b] & -> & (p & Hp & _)%asset_files_elem)%list_elem_of_fmap. by exists p. Qed.
Lemma asset_files_NoDup (assets : gmap string bytes) : NoDup (asset_files assets).*1.
Proof.
  unfold asset_files. rewrite <- list_fmap_compose.
  replace (fst ∘ (fun f : string * bytes => (ASSETS +:+ f.1, f.2)) <$> btree_iter assets)
    with ((fun p => ASSETS +:+ p) <$> (btree_iter assets).*1) by (by rewrite <- list_fmap_compose).
  apply NoDup_fmap_2; [intros a b; apply prefixed_inj|]. rewrite btree_iter_perm. apply NoDup_fst_map_to_list.
Qed.
Lemma asset_files_sum (assets : gmap string bytes) : sumN ((fun f => len f.2) <$> asset_files assets) = total_len assets.
Proof. unfold asset_files. rewrite <- list_fmap_compose. apply total_len_iter. Qed.
Lemma strip_assets_total l : forall acc,
  (forall n b, (n, b) ∈ l -> exists p, n = ASSETS +:+ p) -> exists m, strip_assets acc l = Ok m.
Proof.
  induction l as [|[n b] l IH]; intros acc H; cbn [strip_assets]; [by eexists|].
  destruct (H n b) as [p ->]; [left|]. rewrite strip_prefix_back. cbn [ok_or]. apply IH.
  intros n' b' Hin. apply (H n' b'). by right.
Qed.
Lemma strip_asset_files (assets : gmap string bytes) :
  strip_assets ∅ (btree_iter (list_to_map (asset_files assets) : gmap string bytes)) = Ok assets.
Proof.
  assert (forall n b, (list_to_map (asset_files assets) : gmap string bytes) !! n = Some b <-> (n, b) ∈ asset_files assets) as Hl.
  { intros n b. symmetry. apply elem_of_list_to_map, asset_files_NoDup. }
  destruct (strip_assets_total (btree_iter (list_to_map (asset_files assets) : gmap string bytes)) ∅) as [m Hm].
  { intros n b Hin%btree_iter_elem%Hl%asset_files_elem. destruct Hin as (p & -> & _). by exists p. }
  rewrite Hm. f_equal. apply map_eq. intros p. apply option_eq. intros b.
  destruct (strip_assets_map _ _ Hm) as [Hmap _]. rewrite Hmap, Hl, asset_files_elem. split; [|intros H; by exists p].
  intros (p' & Hp & H). apply prefixed_inj in Hp. by subst p'.
Qed.
Lemma check_digests_ok (assets : gmap string bytes) l :
  (forall p b, (p, b) ∈ l -> assets !! p = Some b) -> check_asset_digests (hex_sha256 <$> assets) l = Ok tt.
Proof.
  induction l as [|[p b] l IH]; intros H; cbn [check_asset_digests]; [done|].
  rewrite lookup_fmap, (H p b) by left. cbn [fmap option_fmap option_map ok_or]. rewrite ignore_case_refl. cbn [negb].
  apply IH. intros p' b' Hin. apply H. by right.
Qed.
Lemma verify_packed manifest component (assets : gmap string bytes) :
  manifest.(integrity).(in_component_sha256) = hex_sha256 component ->
  manifest.(integrity).(assets_sha256) = hex_sha256 <$> assets ->
  asset_integrity_root (hex_sha256 <$> assets) = Ok manifest.(integrity).(assets_root_sha256) ->
  verify_component manifest component = Ok tt /\ verify_assets manifest assets = Ok tt.
Proof.
  intros Hc Ha Hr. unfold verify_component, verify_assets. rewrite Hc, Ha, Hr, !ignore_case_refl. cbv zeta. split.
  - pose proof (hex_sha256_is_digest component) as Hd. unfold is_digest in Hd. by destruct (hex_sha256 component).
  - destruct (str_is_empty _); cbn [negb]; unfold btree_len; rewrite map_size_fmap, N.eqb_refl; cbn [negb];
      apply check_digests_ok; intros p b; by rewrite btree_iter_elem.
Qed.

Lemma archive_names_NoDup text component (assets : gmap string bytes) : NoDup (archive_files text component assets).*1.
Proof.
  unfold archive_files. fold (asset_files assets). rewrite !fmap_cons. cbn [fst].
  apply NoDup_cons. split; [|apply NoDup_cons; split; [|apply asset_files_NoDup]].
  - rewrite elem_of_cons. intros [?|(p & Hp)%asset_files_names]; done.
  - intros (p & Hp)%asset_files_names. done.
Qed.
Lemma collect_archive_files text component (assets : gmap string bytes) :
  str_len text <= default_package_limits.(manifest_bytes) -> len component <= default_package_limits.(component_bytes) ->
  map_Forall (fun p b => is_ok (normalize_relative_path p) = true /\ len b <= default_package_limits.(asset_bytes)) assets ->
  str_len text + len component + total_len assets <= default_package_limits.(pl_total_bytes) ->
  collect_entries default_package_limits ∅ 0 ((fun f => Ok (plain_entry f.1 f.2)) <$> archive_files text component assets)
  = Ok (<[MANIFEST_PATH := as_bytes text]> (<[COMPONENT_PATH := component]> (list_to_map (asset_files assets)))).
Proof.
  intros Htext Hcl Hall Htotal. rewrite collect_plain.
  - f_equal. rewrite insert_pairs; [|apply archive_names_NoDup|intros n _; apply lookup_empty]. by rewrite (right_id_L ∅ (∪)).
  - reflexivity.
  - apply archive_names_NoDup.
  - intros n _. apply lookup_empty.
  - repeat apply Forall_cons_2; cbn [fst snd].
    + split; [done|]. eexists. split; [reflexivity|]. by rewrite as_bytes_length.
    + split; [done|]. eexists. by split.
    + apply Forall_forall. intros [n b] (p & -> & Hp)%asset_files_elem. cbn [fst snd]. destruct (Hall p b Hp) as [Hn Hb].
      split; [by apply asset_path_normal|]. exists (asset_bytes default_package_limits). split; [apply asset_entry_limit|done].
  - unfold archive_files. fold (asset_files assets). rewrite !fmap_cons, !sumN_cons, asset_files_sum. cbn [snd].
    rewrite as_bytes_length. lia.
Qed.
Lemma archive_entry_count text component (assets : gmap string bytes) :
  (size assets <= 1022)%nat ->
  (max_entries default_package_limits <? len ((fun f => @Ok string ZipEntry (plain_entry f.1 f.2)) <$> archive_files text component assets))
  = false.
Proof.
  intros Hs. apply N.ltb_ge. unfold len, archive_files. rewrite length_fmap. cbn [length]. rewrite length_fmap.
  rewrite (Permutation_length (btree_iter_perm assets)), length_map_to_list. change (max_entries default_package_limits) with 1024. lia.
Qed.
(** C28: What is packed opens again as what was packed: the archive that packing
    writes opens with the very manifest, component and assets, provided the
    manifest, once the digests are filled in, and the whole still fit their
    limits. *)
Theorem pack_then_open input manifest component (assets : gmap string bytes) text content :
  prepare_package input = Ok (manifest, component, assets) ->
  toml_to_string_pretty manifest = Ok text -> package_content manifest component assets = Ok content ->
  str_len text <= default_package_limits.(manifest_bytes) ->
  str_len text + len component + total_len assets <= default_package_limits.(pl_total_bytes) ->
  0 < len content <= default_package_limits.(archive_bytes) ->
  open_bytes content = Ok (mkCartridgeArchive (hex_sha256 content) (len content) manifest component assets).
Proof.
  intros Hprep Htoml Hcontent Htext Htotal Hlen.
  destruct (prepared_package _ _ _ _ Hprep) as (Hvalid & Hcomp & Hassets & Hroot & Hcl & Hall & Hsize).
  unfold package_content in Hcontent. rewrite Htoml in Hcontent. cbn [map_err] in Hcontent.
  destruct (zip_write _) as [b|] eqn:Hzip; [|done]. cbn [map_err] in Hcontent. injection Hcontent as ->.
  apply zip_round_trip in Hzip.
  destruct (verify_packed manifest component assets Hcomp Hassets Hroot) as [Hvc Hva].
  unfold open_bytes, open_reader, package_snapshot.
  rewrite (proj2 (N.eqb_neq _ _)), (proj2 (N.ltb_ge _ _)) by lia. cbn [orb]. rewrite Hzip. cbn [map_err].
  rewrite archive_entry_count, collect_archive_files by done.
  assert (forall n, (n = MANIFEST_PATH \/ n = COMPONENT_PATH) ->
            (list_to_map (asset_files assets) : gmap string bytes) !! n = None) as Hno.
  { intros n Hn. apply not_elem_of_list_to_map_1. intros (p & ->)%asset_files_names. by destruct Hn. }
  rewrite lookup_insert_eq. cbn [ok_or]. cbv zeta.
  rewrite (delete_insert_id _ MANIFEST_PATH) by (rewrite lookup_insert_ne by done; apply Hno; by left).
  unfold parse_manifest. rewrite (toml_utf8 _ _ Htoml). cbn [ok_or]. rewrite (toml_round_trip _ _ Htoml). cbn [map_err].
  rewrite Hvalid, lookup_insert_eq. cbn [ok_or].
  rewrite (delete_insert_id _ COMPONENT_PATH) by (apply Hno; by right).
  by rewrite Hvc, strip_asset_files, Hva.
Qed.
End RoundTrip.

(** ** One asset and the whole package *)
Section Selective.
Context `{Ext : Externals} `{Hex : HexDecode} `{SV : !Semver} `{UC : UrlCrate} `{ZC : !ZipCrate} `{TC : !TomlCrate}.
Context (limits : PackageLimits) (requested : string) (Hreq : exists p, requested = ASSETS +:+ p).

(** An entry that was read to its end *)
Definition reads (e : ZipEntry) (b : bytes) : Prop := e.(ze_content) = b /\ e.(ze_failure) = None /\ e.(ze_size) = len b.
Lemma reads_of entry limit name b : read_bounded_entry entry limit name = Ok b -> limit < u64_max -> reads entry b.
Proof.
  unfold read_bounded_entry. cbv zeta. intros H Hu. revert H.
  assert (saturating_add u64_max limit 1 = limit + 1) as -> by (unfold saturating_add; lia).
  destruct (N.ltb_spec (len (ze_content entry)) (limit + 1)) as [Hshort|Hlong].
  - destruct (ze_failure entry) eqn:Hf; [done|]. rewrite take_ge by (unfold len in Hshort; lia).
    destruct (limit <? _); [done|]. destruct (N.eqb_spec (len (ze_content entry)) (ze_size entry)); [|done]. by intros [= <-].
  - assert (len (take (N.to_nat (limit + 1)) (ze_content entry)) = limit + 1) as ->.
    { unfold len in *. rewrite length_take. lia. }
    by rewrite (proj2 (N.ltb_lt _ _)) by lia.
Qed.
Lemma reads_again entry limit name b : reads entry b -> limit < u64_max -> len b <= limit -> read_bounded_entry entry limit name = Ok b.
Proof.
  intros (<- & Hf & Hs) Hu Hl. unfold read_bounded_entry. cbv zeta. rewrite Hf, Hs.
  assert (saturating_add u64_max limit 1 = limit + 1) as -> by (unfold saturating_add; lia).
  rewrite (proj2 (N.ltb_lt _ _)) by lia. rewrite take_ge by (unfold len in Hl; lia).
  by rewrite (proj2 (N.ltb_ge _ _) Hl), N.eqb_refl.
Qed.

(** The state of the scan after the entries [done_] against what opening has
    collected from them *)
Definition found (done_ : list (result string ZipEntry)) (entries : gmap string bytes) (name : string) (o : option N) : Prop :=
  match o with
  | Some i => exists e b, done_ !! N.to_nat i = Some (Ok e) /\ entries !! name = Some b /\ reads e b
  | None => entries !! name = None
  end.
Record scanned (done_ : list (result string ZipEntry)) (entries : gmap string bytes) (s : SelectiveScan) : Prop := {
  scanned_seen : s.(sc_seen) = dom entries;
  scanned_total : s.(sc_total) = total_len entries;
  scanned_assets : forall p, p ∈ s.(sc_assets) <-> is_Some (entries !! (ASSETS +:+ p));
  scanned_component : s.(sc_component) = is_some (entries !! COMPONENT_PATH);
  scanned_manifest : found done_ entries MANIFEST_PATH s.(sc_manifest);
  scanned_requested : found done_ entries requested s.(sc_requested);
}.
Lemma found_other done_ entries name o x k b : found done_ entries name o -> k <> name -> found (done_ ++ [x]) (<[k := b]> entries) name o.
Proof.
  intros Hf Hne. destruct o as [i|]; cbn in *.
  - destruct Hf as (e & b' & Hi & Hb & Hr). exists e, b'. split; [by apply lookup_app_l_Some|]. by rewrite lookup_insert_ne.
  - by rewrite lookup_insert_ne.
Qed.
Lemma found_here done_ (entries : gmap string bytes) name e b :
  reads e b -> found (done_ ++ [Ok e]) (<[name := b]> entries) name (Some (len done_)).
Proof.
  intros Hr. exists e, b. split; [|by rewrite lookup_insert_eq].
  unfold len. rewrite Nat2N.id. by rewrite lookup_app_r, Nat.sub_diag by done.
Qed.
Lemma found_grow done_ entries name o x : found done_ entries name o -> found (done_ ++ [x]) entries name o.
Proof.
  destruct o as [i|]; cbn; [|done]. intros (e & b & Hi & Hb). exists e, b. split; [by apply lookup_app_l_Some|done].
Qed.
Lemma starts_with_app p s : starts_with s p = true -> exists r, s = p +:+ r.
Proof.
  unfold starts_with. revert s. induction p as [|a p IH]; intros s; [by exists s|]. destruct s as [|b s]; [done|].
  cbn [String.prefix]. destruct (ascii_dec a b) as [->|]; [|done]. intros [r ->]%IH. by exists r.
Qed.
Lemma limit_cases name limit : entry_limit limits name = Ok limit ->
  name = MANIFEST_PATH \/ name = COMPONENT_PATH \/ exists p, name = ASSETS +:+ p.
Proof.
  unfold entry_limit. case_bool_decide; [by left|]. case_bool_decide; [by right; left|].
  destruct (starts_with name ASSETS) eqn:Hs; [|done]. intros _. right. right. by apply starts_with_app.
Qed.
Definition scan_entry (index : N) (name : string) (s : SelectiveScan) : SelectiveScan :=
  let seen := {[name]} ∪ s.(sc_seen) in
  if bool_decide (name = MANIFEST_PATH)
  then mkScan seen s.(sc_assets) (Some index) s.(sc_component) s.(sc_requested) s.(sc_total)
  else if bool_decide (name = COMPONENT_PATH)
  then mkScan seen s.(sc_assets) s.(sc_manifest) true s.(sc_requested) s.(sc_total)
  else mkScan seen ({[default name (strip_prefix ASSETS name)]} ∪ s.(sc_assets)) s.(sc_manifest) s.(sc_component)
         (if bool_decide (name = requested) then Some index else s.(sc_requested)) s.(sc_total).
Definition with_total (s : SelectiveScan) (total : N) : SelectiveScan :=
  mkScan s.(sc_seen) s.(sc_assets) s.(sc_manifest) s.(sc_component) s.(sc_requested) total.
Lemma scan_entry_ok done_ (entries : gmap string bytes) s name e b :
  scanned done_ entries s -> entries !! name = None -> reads e b ->
  name = MANIFEST_PATH \/ name = COMPONENT_PATH \/ (exists p, name = ASSETS +:+ p) ->
  scanned (done_ ++ [Ok e]) (<[name := b]> entries)
    (with_total (scan_entry (len done_) name s) (s.(sc_total) + e.(ze_size))).
Proof.
  intros [Hseen Htot Has Hcomp Hman Hrq] Hfresh Hr Hname. pose proof Hr as (Hc & Hf & Hs). destruct Hreq as [rp Hrp].
  assert (forall x, ({[name]} ∪ sc_seen s : gset string) = dom (<[name := x]> entries)) as Hdom.
  { intros x. rewrite dom_insert_L, Hseen. done. }
  assert (sc_total s + ze_size e = total_len (<[name := b]> entries)) as Ht by (rewrite total_len_insert, Htot, Hs by done; lia).
  destruct Hname as [->|[->|[p ->]]]; unfold scan_entry.
  - rewrite bool_decide_eq_true_2 by done. split; cbn [with_total sc_seen sc_total sc_assets sc_component sc_manifest sc_requested]; try done.
    + intros q. rewrite lookup_insert_ne by done. apply Has.
    + by rewrite lookup_insert_ne.
    + by apply found_here.
    + apply found_other; [done|rewrite ?Hrp; intros Hn; discriminate Hn].
  - rewrite bool_decide_eq_false_2, bool_decide_eq_true_2 by done. split; cbn [with_total sc_seen sc_total sc_assets sc_component sc_manifest sc_requested]; try done.
    + intros q. rewrite lookup_insert_ne by done. apply Has.
    + by rewrite lookup_insert_eq.
    + apply found_other; [done|rewrite ?Hrp; intros Hn; discriminate Hn].
    + apply found_other; [done|rewrite ?Hrp; intros Hn; discriminate Hn].
  - rewrite !bool_decide_eq_false_2 by done. rewrite strip_prefix_back. split; cbn [with_total sc_seen sc_total sc_assets sc_component sc_manifest sc_requested default]; try done.
    + intros q. rewrite elem_of_union, elem_of_singleton, Has. destruct (decide (q = p)) as [->|Hne].
      * rewrite lookup_insert_eq. naive_solver.
      * rewrite lookup_insert_ne by (by intros ?%prefixed_inj). naive_solver.
    + by rewrite lookup_insert_ne.
    + apply found_other; [done|rewrite ?Hrp; intros Hn; discriminate Hn].
    + case_bool_decide as Heq; [rewrite Heq; by apply found_here|by apply found_other].
Qed.
Lemma scan_follows l : limits.(pl_total_bytes) < u64_max -> forall done_ (entries : gmap string bytes) total entries' s,
  scanned done_ entries s -> total = total_len entries -> total <= limits.(pl_total_bytes) ->
  collect_entries limits entries total l = Ok entries' ->
  exists s', scan_loop limits requested (len done_) s l = Ok s' /\ scanned (done_ ++ l) entries' s'.
Proof.
  intros Hu. induction l as [|[entry|e] l IH]; intros done_ entries total entries' s Hs -> Htot; cbn [collect_entries scan_loop]; [| |done].
  { intros [= <-]. exists s. by rewrite app_nil_r. }
  assert (len (done_ ++ [@Ok string ZipEntry entry]) = len done_ + 1) as Hlen by (unfold len; rewrite length_app; cbn; lia).
  destruct (ze_is_dir entry).
  { intros H. rewrite <- Hlen, (cons_middle _ done_ l), app_assoc. apply (IH _ entries (total_len entries)); [|done|done|done].
    destruct Hs. split; try done; by apply found_grow. }
  destruct (normalize_relative_path (ze_name entry)) as [name|]; [|done].
  destruct (entries !! name) as [b0|] eqn:Hfresh; [done|]. cbn [is_some].
  rewrite bool_decide_eq_false_2 by (rewrite (scanned_seen _ _ _ Hs); by apply not_elem_of_dom).
  destruct (entry_limit limits name) as [limit|] eqn:Hl; [|done]. destruct (limit <? _); [done|].
  destruct (N.ltb_spec (pl_total_bytes limits - total_len entries) (ze_size entry)) as [|Hroom]; [done|].
  destruct (read_bounded_entry _ _ _) as [b|] eqn:Hb; [|done]. pose proof (reads_of _ _ _ _ Hb) as Hr.
  apply read_bounded_len in Hb as [Hle Hsize]. specialize (Hr ltac:(lia)).
  unfold checked_add at 1. destruct (_ <=? u64_max); [|done]. cbn [ok_or]. intros H.
  fold (scan_entry (len done_) name s). cbv zeta. set (s1 := scan_entry (len done_) name s).
  assert (sc_total s1 = total_len entries) as ->.
  { rewrite <- (scanned_total _ _ _ Hs). unfold s1, scan_entry. by repeat case_bool_decide. }
  unfold checked_add. rewrite (proj2 (N.leb_le _ _)) by lia. cbn [ok_or]. rewrite (proj2 (N.ltb_ge _ _)) by lia.
  fold (with_total s1 (total_len entries + ze_size entry)). rewrite <- Hlen, (cons_middle _ done_ l), app_assoc.
  cbn [is_some is_none negb] in H. apply (IH _ (<[name := b]> entries) (total_len entries + len b) entries').
  - rewrite <- (scanned_total _ _ _ Hs). apply scan_entry_ok; [done..|by apply (limit_cases _ limit)].
  - rewrite total_len_insert by done. lia.
  - lia.
  - done.
Qed.
End Selective.

Section SelectiveTheorem.
Context `{Ext : Externals} `{Hex : HexDecode} `{SV : !Semver} `{UC : UrlCrate} `{ZC : !ZipCrate} `{TC : !TomlCrate}.
Lemma asset_path_back path : normalize_relative_path (ASSETS +:+ path) = Ok (ASSETS +:+ path) -> normalize_relative_path path = Ok path.
Proof.
  unfold normalize_relative_path at 1. destruct (_ || contains_char (ASSETS +:+ path) "\") eqn:Hc; [done|].
  change (ASSETS +:+ path) with ("assets" +:+ String "/" path). rewrite split_on_slash, existsb_app.
  destruct (existsb unsafe_part (split_on "/" path)) eqn:Hs; [done|]. intros _.
  apply orb_false_iff in Hc as [_ Hback]. change (contains_char path "\" = false) in Hback.
  unfold normalize_relative_path. rewrite Hback, Hs, orb_false_r.
  destruct path as [|c path]; [done|]. cbn [str_is_empty orb starts_with_char].
  rewrite !bool_decide_eq_false_2; [done|intros ->; by cbn in Hback|intros ->; by cbn in Hs].
Qed.
Lemma scanned_start requested : scanned requested [] ∅ (mkScan ∅ ∅ None false None 0).
Proof.
  split; cbn; try done; try (by rewrite lookup_empty).
  - intros p. rewrite lookup_empty. split; [set_solver|by intros [? ?]].
Qed.
Lemma opened_entries content limits a :
  open_reader content limits = Ok a ->
  exists zip entries mb,
    zip_entries content = Ok zip /\ (limits.(max_entries) <? len zip) = false
    /\ collect_entries limits ∅ 0 zip = Ok entries /\ entries !! MANIFEST_PATH = Some mb
    /\ parse_manifest mb = Ok a.(ar_manifest) /\ entries !! COMPONENT_PATH = Some a.(ar_component)
    /\ (forall p b, a.(ar_assets) !! p = Some b <-> entries !! (ASSETS +:+ p) = Some b)
    /\ verify_assets a.(ar_manifest) a.(ar_assets) = Ok tt.
Proof.
  unfold open_reader, package_snapshot. destruct ((len content =? 0) || _); [done|].
  destruct (zip_entries content) as [zip|]; [|done]. cbn [map_err]. destruct (_ <? len zip) eqn:Hcount; [done|].
  destruct (collect_entries _ _ _ _) as [entries|] eqn:Hc; [|done].
  destruct (entries !! MANIFEST_PATH) as [mb|] eqn:Hm; [|done]. cbn [ok_or]. cbv zeta.
  destruct (parse_manifest mb) as [manifest|] eqn:Hp; [|done].
  destruct (delete MANIFEST_PATH entries !! COMPONENT_PATH) as [component|] eqn:Hcomp; [|done]. cbn [ok_or].
  destruct (verify_component _ _) as [[]|] eqn:Hvc; [|done].
  destruct (strip_assets _ _) as [assets|] eqn:Hst; [|done].
  destruct (verify_assets _ _) as [[]|] eqn:Hva; [|done]. intros [= <-].
  exists zip, entries, mb. cbn. split_and!; try done.
  - by rewrite lookup_delete_ne in Hcomp.
  - intros p b. destruct (strip_assets_map _ _ Hst) as [Hmap _]. by rewrite Hmap, !lookup_delete_ne.
Qed.
(** The check of a single asset agrees with the whole package: for every asset
    of a package that opens and has an asset root, it succeeds without unpacking
    the rest and reports the asset's length and digest. *)
Theorem asset_check_agrees content a path b :
  open_bytes content = Ok a -> a.(ar_assets) !! path = Some b ->
  str_is_empty a.(ar_manifest).(integrity).(assets_root_sha256) = false ->
  verify_asset content path
  = Ok (mkAssetVerification a.(ar_manifest).(cartridge).(cm_id) a.(ar_manifest).(cartridge).(cm_version) path (len b)
          (hex_sha256 b) a.(ar_manifest).(integrity).(assets_root_sha256)).
Proof.
  intros Hopen Hb Hroot. set (limits := default_package_limits).
  destruct (opened_entries content limits a Hopen) as (zip & entries & mb & Hzip & Hcount & Hcol & Hm & Hman & Hcomp & Hmap & Hva).
  destruct (verify_assets_spec _ _ Hva) as [Hdom Hdig]. destruct (Hdig _ _ Hb) as (d & Hd & Hed).
  assert (entries_ok limits entries) as [Hall _].
  { apply (collect_entries_ok limits _ _ _ _ Hcol); [|done]. split; [apply map_Forall_empty|apply N.le_0_l]. }
  pose proof (proj1 (Hmap path b) Hb) as He. destruct (Hall _ _ He) as (Hn & lim & Hlim & Hle).
  destruct (Hall _ _ Hm) as (_ & mlim & Hmlim & Hmle). injection Hmlim as <-.
  rewrite asset_entry_limit in Hlim. injection Hlim as <-.
  destruct (scan_follows limits (ASSETS +:+ path) ltac:(by exists path) zip eq_refl [] ∅ 0 entries (mkScan ∅ ∅ None false None 0))
    as (s & Hscan & [_ _ Has Hc Hfm Hfr]); [by apply scanned_start|done|apply N.le_0_l|exact Hcol|].
  cbn [app] in *. change (len (@nil (result string ZipEntry))) with 0 in Hscan.
  destruct (sc_manifest s) as [mi|] eqn:Hmi; [|cbn in Hfm; congruence]. destruct Hfm as (me & mb' & Hmi' & Hmb & Hmr).
  destruct (sc_requested s) as [ri|] eqn:Hri; [|cbn in Hfr; congruence]. destruct Hfr as (re & rb & Hri' & Hrb & Hrr).
  assert (mb' = mb) as -> by congruence. assert (rb = b) as -> by congruence.
  unfold verify_asset. rewrite (asset_path_back path Hn). cbv zeta. fold limits. rewrite Hzip. cbn [map_err].
  unfold scan_selective_entries. rewrite Hcount, Hscan, Hc, Hcomp, Hmi. cbn [is_some is_none negb]. cbn [ok_or se_manifest se_requested se_assets].
  unfold by_index. rewrite Hmi'. cbn [ok_or map_err]. rewrite (reads_again me limits.(manifest_bytes) MANIFEST_PATH mb Hmr eq_refl Hmle), Hman.
  rewrite bool_decide_eq_true_2; cycle 1.
  { apply set_eq. intros p. rewrite Has, <- Hdom, elem_of_dom. split; intros [x Hx]; exists x; by apply Hmap. }
  cbn [negb]. rewrite Hroot, Hd, Hri. cbn [ok_or]. rewrite Hri'. cbn [ok_or map_err].
  rewrite (reads_again re limits.(asset_bytes) (ASSETS +:+ path) b Hrr eq_refl Hle), Hed. cbn [negb]. by destruct Hrr as (_ & _ & ->).
Qed.
End SelectiveTheorem.

(** ** A concrete package

    A manifest with one asset, the two manifests a table of TOML texts holds, and
    the one archive a table of zip files holds. *)
#[local] Instance package_manifest_eq_dec : EqDecision PackageManifest.
Proof.
  assert (EqDecision CartridgeMetadata) by solve_decision. assert (EqDecision Permissions) by solve_decision.
  assert (EqDecision Compatibility) by solve_decision. assert (EqDecision StateMigration) by solve_decision.
  assert (EqDecision StateConfig) by solve_decision. assert (EqDecision CartridgeDependency) by solve_decision.
  assert (EqDecision ProvidedService) by solve_decision. assert (EqDecision Integrity) by solve_decision.
  solve_decision.
Defined.
Section ArchiveWitness.
#[local] Existing Instance demo_externals.
#[local] Existing Instance demo_hex.
#[local] Existing Instance demo_semver.
#[local] Existing Instance toy_url.
Definition source_manifest : PackageManifest :=
  mkPackageManifest 1 (mkMetadata "dev.example.app" "App" "1.2.0" "")
    (mkPermissions false false true false false false false false false) default_http_policy
    (mkCompatibility "" ∅) default_limits (mkStateConfig 0 []) [] [] (mkIntegrity "" ∅ "").
Definition wasm_component : bytes := [x00; x61; x73; x6d; x0d; x00; x01; x00].
Definition source_assets : gmap string bytes := {["sprite.png" := [x89; x50]]}.
Definition packed_manifest : PackageManifest :=
  with_integrity source_manifest
    (mkIntegrity (hex_sha256 wasm_component) (hex_sha256 <$> source_assets)
       (match asset_integrity_root (hex_sha256 <$> source_assets) with Ok root => root | Err _ => "" end)).
Definition toy_toml : TomlCrate.
Proof.
  refine {| toml_from_str := fun s => if bool_decide (s = "packed") then Ok packed_manifest
                                      else if bool_decide (s = "source") then Ok source_manifest else Err "toml";
            toml_to_string_pretty := fun m => if bool_decide (m = packed_manifest) then Ok "packed" else Err "toml" |}.
  - intros m s. case_bool_decide; [|done]. by intros [= <-]; subst.
  - intros m s. case_bool_decide; [|done]. by intros [= <-].
Defined.
Definition packed_files : list (string * bytes) := archive_files "packed" wasm_component source_assets.
Definition toy_zip : ZipCrate.
Proof.
  refine {| zip_entries := fun b => if bool_decide (b = [x50; x4b])
                                    then Ok ((fun f => Ok (plain_entry f.1 f.2)) <$> packed_files) else Err "zip";
            zip_write := fun files => if bool_decide (files = packed_files) then Ok [x50; x4b] else Err "zip" |}.
  intros files b. case_bool_decide; [|done]. by intros [= <-]; subst.
Defined.
#[local] Existing Instance toy_toml.
#[local] Existing Instance toy_zip.
Definition packed_archive : CartridgeArchive :=
  mkCartridgeArchive (hex_sha256 [x50; x4b]) 2 packed_manifest wasm_component source_assets.
Definition pack_source : PackInput :=
  mkPackInput (as_bytes "source") wasm_component (Some [Ok (mkWalkEntry true (Some "sprite.png") [x89; x50])]).
Lemma pack_then_open_witness : open_bytes [x50; x4b] = Ok packed_archive.
Proof.
  apply (pack_then_open pack_source packed_manifest wasm_component source_assets "packed" [x50; x4b]);
    vm_compute; split_and?; try reflexivity; discriminate.
Defined.
Lemma packed_opens : open_bytes [x50; x4b] = Ok packed_archive.
Proof. vm_compute. reflexivity. Qed.
Lemma opened_package_is_whole_witness :
  validate_package packed_manifest = Ok tt /\ dom source_assets = dom packed_manifest.(integrity).(assets_sha256) :> gset string.
Proof.
  destruct (opened_package_is_whole [x50; x4b] default_package_limits packed_archive packed_opens) as (_ & _ & _ & H & _ & Hd & _).
  by split.
Defined.
Lemma asset_check_agrees_witness :
  exists v, verify_asset [x50; x4b] "sprite.png" = Ok v /\ v.(av_bytes) = 2 /\ v.(av_cartridge_id) = "dev.example.app".
Proof.
  eexists. split; [|split].
  - apply (asset_check_agrees [x50; x4b] packed_archive "sprite.png" [x89; x50] packed_opens); vm_compute; reflexivity.
  - reflexivity.
  - reflexivity.
Defined.
End ArchiveWitness.

(** * Packing does not overwrite, whatever happens to its system calls

    The package is written beside its destination and linked into place, so the
    destination holds what it held before or, where there was nothing, the whole
    package. *)

Section PackOutput.
Context `{Ext : Externals} `{Hex : HexDecode} `{SV : !Semver} `{UC : UrlCrate} `{ZC : !ZipCrate} `{TC : !TomlCrate}.
Context (d0 : Disk) (output : Path) (manifest : PackageManifest) (component : bytes) (assets : gmap string bytes).

(** The destination as it was, and the package in an empty place. *)
Definition unpacked (d : Disk) : Prop := read_path d output = read_path d0 output.
Definition packed (d : Disk) : Prop :=
  read_path d0 output = None
  /\ exists content, package_content manifest component assets = Ok content /\ read_path d output = Some content.
Definition packed_or_not (d : Disk) : Prop := unpacked d \/ packed d.

Context (q : Path) (Hq : q <> output) (Hdir : q.1 = output.1).
Lemma unpacked_beside d c : unpacked d -> unpacked (write_path d q c) /\ unpacked (remove_path d q).
Proof. unfold unpacked. by rewrite read_write_ne, read_remove_ne. Qed.
Lemma packed_beside d : packed d -> packed (remove_path d q).
Proof. unfold packed. by rewrite read_remove_ne. Qed.
Lemma discard_beside : triple unpacked (discard q) (fun _ => unpacked) unpacked.
Proof.
  apply (triple_bind _ _ _ (fun _ => unpacked)); [|intros _; by apply triple_ret].
  apply triple_attempt, triple_syscall; [|done]. intros d Hd. destruct (is_some _); [|done]. by apply (unpacked_beside d []).
Qed.
Lemma write_archive_triple :
  triple unpacked (write_archive q manifest component assets)
    (fun r d => unpacked d /\ match r with
                              | Ok (Ok _) => exists content, package_content manifest component assets = Ok content
                                                             /\ read_path d q = Some content
                              | _ => True
                              end) unpacked.
Proof.
  unfold write_archive. apply (triple_bind _ _ _ (fun _ d => unpacked d /\ is_Some (d !! q.1))).
  { apply triple_syscall; [|done]. intros d Hd. destruct (d !! q.1) as [x|] eqn:Hx; [|done].
    destruct (is_some _); [done|]. split; [by apply unpacked_beside|]. apply is_dir_write. by exists x. }
  intros _. destruct (package_content _ _ _) as [content|e]; [|by apply triple_ret; intros d [Hd _]].
  apply (triple_bind _ _ _ (fun _ d => unpacked d /\ read_path d q = Some content)).
  - apply triple_syscall.
    + intros d [Hd Hx]. split; [by apply unpacked_beside|]. by apply read_write_eq.
    + intros d n [Hd _]. split; [split; [|done]|]; by apply unpacked_beside.
  - intros _. apply triple_ret. intros d [Hd Hr]. split; [done|]. by exists content.
Qed.
Lemma link_output_triple :
  triple (fun d => unpacked d /\ exists content, package_content manifest component assets = Ok content /\ read_path d q = Some content)
    (hard_link q output)
    (fun r d => match r with Ok _ => packed d /\ is_some (read_path d q) = true | Err _ => unpacked d end) unpacked.
Proof.
  apply triple_syscall; [|by intros d n [Hd _]]. intros d (Hd & content & Hc & Hr). rewrite Hr.
  destruct (read_path d output) as [x|] eqn:Hx; [done|]. cbn [is_some is_none negb].
  split; [|by rewrite read_write_ne, Hr]. split; [by rewrite <- Hd|]. exists content. split; [done|].
  apply read_write_eq. rewrite <- Hdir. by apply (read_Some_dir d q content).
Qed.
(** Everything [pack] does with its temporary file. *)
Lemma place_triple :
  triple unpacked
    (do? written := attempt (write_archive q manifest component assets) in
     match written with
     | Err e => discard q ;;? fail e
     | Ok (Err e) => discard q ;;? ret (Err e)
     | Ok (Ok _) =>
         do? linked := attempt (hard_link q output) in
         match linked with
         | Err e => discard q ;;? fail e
         | Ok _ => remove_file q ;;? ret (Ok manifest)
         end
     end)
    (fun r d => packed_or_not d /\ (forall m, r = Ok (Ok m) -> m = manifest /\ packed d)) packed_or_not.
Proof.
  set (Q := fun (r : result string (ManifestResult PackageManifest)) d =>
              packed_or_not d /\ (forall m, r = Ok (Ok m) -> m = manifest /\ packed d)).
  assert (forall r : result string (ManifestResult PackageManifest), (forall m, r <> Ok (Ok m)) ->
            triple unpacked (discard q ;;? lift r) Q packed_or_not) as Hdiscard.
  { intros r Hr. apply (triple_bind _ _ _ (fun _ => unpacked)).
    - eapply triple_weaken; [apply discard_beside|done| |by left]. intros [u|e] d Hd; [done|]. split; [by left|discriminate].
    - intros _. apply triple_lift. intros d Hd. split; [by left|]. intros m Hm. by destruct (Hr m). }
  eapply triple_bind.
  { apply triple_attempt. eapply triple_weaken; [apply write_archive_triple|done| |by left].
    intros r d Hd. exact Hd. }
  intros [[[]|e]|e]; cbn beta iota.
  - eapply triple_bind.
    { apply triple_attempt. eapply triple_weaken; [apply link_output_triple|by intros d| |by left]. intros r d Hd. exact Hd. }
    intros [u|e]; [|by apply (Hdiscard (Err e))].
    apply (triple_bind _ _ _ (fun _ => packed)).
    + apply triple_syscall.
      * intros d [Hd ->]. by apply packed_beside.
      * intros d n [Hd _]. split; [split; [by right|discriminate]|by right].
    + intros _. apply triple_ret. intros d Hd. split; [by right|]. by intros m [= <-].
  - eapply triple_weaken; [by apply (Hdiscard (Ok (Err e)))|by intros d [Hd _]|done|done].
  - eapply triple_weaken; [by apply (Hdiscard (Err e))|by intros d [Hd _]|done|done].
Qed.
End PackOutput.

Section PackTheorem.
Context `{Ext : Externals} `{Hex : HexDecode} `{SV : !Semver} `{UC : UrlCrate} `{ZC : !ZipCrate} `{TC : !TomlCrate}.
Lemma ensure_directory_reads (d0 : Disk) output :
  triple (fun d => d = d0) (ensure_directory output.1) (fun _ => unpacked d0 output) (unpacked d0 output).
Proof.
  intros w Hw. unfold ensure_directory. destruct (disk w !! output.1) as [x|] eqn:Hx; cbn [is_some is_none negb].
  { unfold unpacked. by rewrite Hw. }
  rewrite Hw in Hx. revert w Hw.
  enough (triple (fun d => d = d0) (syscall (fun d => Ok (<[output.1 := ∅]> d, tt)) untouched)
            (fun _ => unpacked d0 output) (unpacked d0 output)) as Ht by exact Ht.
  apply triple_syscall; [|by intros d n ->]. intros d ->. unfold unpacked, read_path. by rewrite lookup_insert_eq, Hx.
Qed.

(** Packing never overwrites, whatever calls fail and wherever the process
    dies: a destination that exists stays as it is, and an empty one stays empty
    or holds the whole package that was prepared; packing answers with a manifest
    only when it took an empty place and the package is there. *)
Theorem pack_never_overwrites (input : PackInput) (output : Path) (w : World) :
  let holds manifest (d : Disk) :=
    read_path w.(disk) output = None
    /\ exists component assets content,
         prepare_package input = Ok (manifest, component, assets)
         /\ package_content manifest component assets = Ok content /\ read_path d output = Some content in
  let '(w', o) := pack input output w in
  (read_path w'.(disk) output = read_path w.(disk) output \/ exists manifest, holds manifest w'.(disk))
  /\ forall manifest, o = Done (Ok (Ok manifest)) -> holds manifest w'.(disk).
Proof.
  cbn zeta. unfold pack. destruct (negb _); [by split; [left|discriminate]|].
  destruct (prepare_package input) as [[[manifest component] assets]|e] eqn:Hprep; [|by split; [left|discriminate]].
  pose proof (ensure_directory_reads (disk w) output w eq_refl) as Hens. unfold bind at 1.
  destruct (ensure_directory output.1 w) as [w1 [[[]|e]|]]; [|by split; [left|discriminate]..].
  set (q := (output.1, output.2 +:+ "." +:+ pretty (process_id w1) +:+ "-" +:+ pretty (sequence w1) +:+ ".tmp")).
  assert (q <> output) as Hq. { destruct output as [dir name]. intros [= H]. by eapply append_ne, H. }
  pose proof (place_triple (disk w) output manifest component assets q Hq eq_refl
                (mkWorld w1.(disk) (wrapping_add u64_max w1.(sequence) 1) w1.(process_id) w1.(fates)) Hens) as Hp.
  unfold bind at 1, pack_temporary, bind at 1, fetch_sequence, bind at 1, get_process_id, ret at 1. cbn [process_id]. fold q.
  assert (forall d, packed (disk w) output manifest component assets d ->
    read_path (disk w) output = None /\ exists component0 assets0 content,
      @Ok Core.Error _ (manifest, component, assets) = Ok (manifest, component0, assets0)
      /\ package_content manifest component0 assets0 = Ok content /\ read_path d output = Some content) as Hpk.
  { intros d (Hn & content & Hc & Hr). split; [done|]. by exists component, assets, content. }
  destruct (bind _ _ _) as [w' [r|]]; [destruct Hp as [Hor Hok]|rename Hp into Hor]; (split; [destruct Hor as [Hun|Hpa]; [by left|right; exists manifest; by apply Hpk]|]); [|discriminate].
  intros m [= ->]. destruct (Hok m eq_refl) as [-> Hd]. by apply Hpk.
Qed.
End PackTheorem.
