(* ===== verification/Identity.v ===== *)
(** * Package identity ([crates/cartridge-identity/src/lib.rs])

    Developer keys, package signatures, the trust store with rotation and
    revocation of keys, and build attestations.  Ed25519 is a parameter: a secret
    of 32 bytes has a public key, and what it signs verifies. *)
From stdpp Require Import pretty.
From S2P Require Import Prelude Text Core Storage Snapshot Directory Blob Network Manifest Files Archive.

Class Ed25519 := {
  (** [SigningKey::from_bytes(secret).verifying_key().to_bytes()] *)
  ed_public : bytes -> bytes;
  (** [VerifyingKey::from_bytes(key).is_ok()] *)
  ed_valid_key : bytes -> bool;
  ed_sign : bytes -> bytes -> bytes;
  ed_verify : bytes -> bytes -> bytes -> bool;
  ed_public_length : forall s, length (ed_public s) = 32%nat;
  ed_sign_length : forall s m, length (ed_sign s m) = 64%nat;
  ed_public_valid : forall s, ed_valid_key (ed_public s) = true;
  ed_sign_verifies : forall s m, ed_verify (ed_public s) m (ed_sign s m) = true;
}.

Definition SIGNATURE_FORMAT_VERSION : N := 1.
Definition TRUST_FORMAT_VERSION : N := 1.
Definition REGISTRY_FORMAT_VERSION : N := 1.
Definition ATTESTATION_FORMAT_VERSION : N := 1.
Definition MAX_PACKAGE_BYTES : N := 160 * 1024 * 1024.
Definition MAX_IDENTITY_DOCUMENT_BYTES : N := 8 * 1024 * 1024.
Definition MAX_REGISTRY_VERSIONS : N := 100000.
Definition MAX_TRANSPARENCY_ENTRIES : N := 100000.

Record PackageIdentity := mkPackageIdentity {
  id_cartridge_id : string;
  id_version : string;
  id_package_sha256 : string;
  id_package_bytes : N;
  id_component_sha256 : string;
  id_assets_root_sha256 : string;
}.
#[global] Instance package_identity_eq_dec : EqDecision PackageIdentity.
Proof. solve_decision. Defined.
Record PackageSignature := mkPackageSignature {
  ps_format_version : N;
  ps_algorithm : string;
  ps_key_id : string;
  ps_public_key : string;
  ps_identity : PackageIdentity;
  ps_signature : string;
}.
#[global] Instance package_signature_eq_dec : EqDecision PackageSignature.
Proof. solve_decision. Defined.
Record DeveloperKeyFile := mkDeveloperKeyFile {
  kf_format_version : N;
  kf_algorithm : string;
  kf_key_id : string;
  kf_public_key : string;
  kf_secret_key : string;
}.
(** A signing key is its secret. *)
Record DeveloperKey := mkDeveloperKey { signing : bytes }.
Record TrustEntry := mkTrustEntry {
  te_key_id : string;
  te_public_key : string;
  te_label : string;
  te_recovery_keys : gset string;
}.
Record KeyRotation := mkKeyRotation {
  kr_format_version : N;
  kr_old_key_id : string;
  kr_old_public_key : string;
  kr_new_key_id : string;
  kr_new_public_key : string;
  kr_reason : string;
  kr_old_signature : string;
  kr_new_signature : string;
}.
Record RevocationRecord := mkRevocation {
  rv_format_version : N;
  rv_revoked_key_id : string;
  rv_signer_public_key : string;
  rv_reason : string;
  rv_signature : string;
}.
Record BuildAttestation := mkBuildAttestation {
  ba_format_version : N;
  ba_identity : PackageIdentity;
  ba_source_sha256 : string;
  ba_toolchain : string;
  ba_build_arguments : list string;
  ba_key_id : string;
  ba_public_key : string;
  ba_signature : string;
}.
Record TrustStore := mkTrustStore {
  ts_format_version : N;
  trusted : gmap string TrustEntry;
  revoked : gmap string RevocationRecord;
  rotations : list KeyRotation;
}.
(** What is signed of a document: its fields without the signatures
    ([serde_json::json!]). *)
Record RotationPayload := mkRotationPayload {
  rp_format_version : N;
  rp_old_key_id : string;
  rp_old_public_key : string;
  rp_new_key_id : string;
  rp_new_public_key : string;
  rp_reason : string;
}.
Record RevocationPayload := mkRevocationPayload {
  vp_format_version : N;
  vp_revoked_key_id : string;
  vp_signer_public_key : string;
  vp_reason : string;
}.
Record AttestationPayload := mkAttestationPayload {
  ap_format_version : N;
  ap_identity : PackageIdentity;
  ap_source_sha256 : string;
  ap_toolchain : string;
  ap_build_arguments : list string;
  ap_key_id : string;
  ap_public_key : string;
}.

(** ** Checks *)
(** The iteration of a [BTreeSet<String>] *)
Definition set_strings (X : gset string) : list string := merge_sort String.le (elements X).
Definition validate_sha256 (value label : string) : result string unit :=
  if negb (str_len value =? 64) || negb (forallb is_ascii_hexdigit (str_bytes value))
  then Err (label +:+ " is not a SHA-256 digest") else Ok tt.
Definition validate_label (value : string) : result string unit :=
  if str_is_empty value || (256 <? str_len value) || existsb char_is_control (str_chars value)
  then Err "label is empty, too long, or contains controls" else Ok tt.
Fixpoint validate_recovery_keys (l : list string) : result string unit :=
  match l with
  | [] => Ok tt
  | recovery :: l => let? _ := validate_sha256 recovery "recovery key id" in validate_recovery_keys l
  end.
Definition bad_arguments (arguments : list string) : bool :=
  (128 <? len arguments) || existsb (fun value => (4096 <? str_len value) || contains_char value "000") arguments.

(** [framed_payload]: the domain and the message with their lengths. *)
Definition framed_payload (domain message : bytes) : bytes :=
  le_byte_list 8 (len domain) ++ domain ++ le_byte_list 8 (len message) ++ message.
Definition PACKAGE_DOMAIN : bytes := as_bytes "cartridge-package-signature-v1".
Definition ROTATION_DOMAIN : bytes := as_bytes "cartridge-key-rotation-v1".
Definition REVOCATION_DOMAIN : bytes := as_bytes "cartridge-key-revocation-v1".
Definition ATTESTATION_DOMAIN : bytes := as_bytes "cartridge-build-attestation-v1".

Section Identity.
Context `{Ext : Externals} `{Hex : HexDecode} `{SV : !Semver} `{UC : UrlCrate} `{ZC : !ZipCrate} `{TC : !TomlCrate} `{ED : !Ed25519}.
Context `{JI : Json PackageIdentity} `{JR : Json RotationPayload} `{JV : Json RevocationPayload} `{JA : Json AttestationPayload}.

Definition key_id (public : bytes) : string := hex_sha256 public.
Definition decode_array (n : N) (value label : string) : result string bytes :=
  match hex_decode value with
  | Err _ => Err (label +:+ " is not hexadecimal")
  | Ok bytes => if negb (len bytes =? n) then Err (label +:+ " has the wrong length") else Ok bytes
  end.
Definition verifying_key (value : string) : result string bytes :=
  let? key := decode_array 32 value "public key" in
  if ed_valid_key key then Ok key else Err "public key is invalid".
Definition verify_detached (public : string) (domain message : bytes) (signature : string) : result string unit :=
  let? public := verifying_key public in
  let? signature := decode_array 64 signature "signature" in
  if ed_verify public (framed_payload domain message) signature then Ok tt else Err "detached signature verification failed".

(** ** Developer keys *)
Definition public_key (self : DeveloperKey) : bytes := ed_public self.(signing).
Definition developer_key_id (self : DeveloperKey) : string := key_id (public_key self).
Definition public_key_hex (self : DeveloperKey) : string := hex_encode (public_key self).
Definition sign_bytes (self : DeveloperKey) (domain message : bytes) : string :=
  hex_encode (ed_sign self.(signing) (framed_payload domain message)).
(** [DeveloperKey::generate] with the random secret. *)
Definition generate (secret : bytes) : DeveloperKey := mkDeveloperKey secret.
(** The document [write_new] writes, and the checks of [read]. *)
Definition key_document (self : DeveloperKey) : DeveloperKeyFile :=
  mkDeveloperKeyFile SIGNATURE_FORMAT_VERSION "ed25519" (developer_key_id self) (hex_encode (public_key self)) (hex_encode self.(signing)).
Definition key_of_document (document : DeveloperKeyFile) : result string DeveloperKey :=
  if negb (document.(kf_format_version) =? SIGNATURE_FORMAT_VERSION) || negb (bool_decide (document.(kf_algorithm) = "ed25519"))
  then Err "unsupported developer key format"
  else
    let? secret := decode_array 32 document.(kf_secret_key) "secret key" in
    let key := mkDeveloperKey secret in
    if negb (bool_decide (developer_key_id key = document.(kf_key_id)))
       || negb (bool_decide (hex_encode (public_key key) = document.(kf_public_key)))
    then Err "developer key identity does not match its secret"
    else Ok key.

(** ** Package signatures *)
Definition package_identity (content : bytes) : result string PackageIdentity :=
  let? archive := map_err error_to_string (open_bytes content) in
  Ok (mkPackageIdentity archive.(ar_manifest).(cartridge).(cm_id) archive.(ar_manifest).(cartridge).(cm_version)
        (hex_sha256 content) (len content) archive.(ar_manifest).(integrity).(in_component_sha256)
        archive.(ar_manifest).(integrity).(assets_root_sha256)).
Definition package_signature_payload (identity : PackageIdentity) (content : bytes) : result string bytes :=
  if negb (bool_decide (identity.(id_package_sha256) = hex_sha256 content)) || negb (identity.(id_package_bytes) =? len content)
  then Err "package identity does not match bytes"
  else
    let? encoded := to_vec identity in
    Ok (framed_payload PACKAGE_DOMAIN encoded).
Definition validate_signature_identity (identity : PackageIdentity) : result string unit :=
  let? _ := validate_sha256 identity.(id_package_sha256) "package digest" in
  let? _ := validate_sha256 identity.(id_component_sha256) "component digest" in
  let? _ := if str_is_empty identity.(id_assets_root_sha256) then Ok tt
            else validate_sha256 identity.(id_assets_root_sha256) "asset root digest" in
  if (identity.(id_package_bytes) =? 0) || (MAX_PACKAGE_BYTES <? identity.(id_package_bytes))
  then Err "signed package byte length is invalid"
  else if is_none (parse_version identity.(id_version)) then Err "signed package version is invalid" else Ok tt.
Definition validate_signature_document (value : PackageSignature) : result string unit :=
  if negb (value.(ps_format_version) =? SIGNATURE_FORMAT_VERSION) || negb (bool_decide (value.(ps_algorithm) = "ed25519"))
  then Err "unsupported package signature format"
  else validate_signature_identity value.(ps_identity).
(** [sign_package] of a file with that content. *)
Definition sign_package (self : DeveloperKey) (content : bytes) : result string PackageSignature :=
  let? identity := package_identity content in
  let? payload := package_signature_payload identity content in
  Ok (mkPackageSignature SIGNATURE_FORMAT_VERSION "ed25519" (developer_key_id self) (hex_encode (public_key self)) identity
        (hex_encode (ed_sign self.(signing) payload))).
Definition verify_package_bytes (content : bytes) (identity : PackageIdentity) (signature : PackageSignature) : result string unit :=
  let? _ := validate_signature_document signature in
  if negb (bool_decide (signature.(ps_identity) = identity)) then Err "signed package identity does not match the package"
  else
    let? public := verifying_key signature.(ps_public_key) in
    if negb (bool_decide (key_id public = signature.(ps_key_id))) then Err "signature key id does not match its public key"
    else
      let? value := decode_array 64 signature.(ps_signature) "signature" in
      let? payload := package_signature_payload identity content in
      if ed_verify public payload value then Ok tt else Err "package signature verification failed".
Definition verify_package (content : bytes) (signature : PackageSignature) : result string PackageIdentity :=
  let? identity := package_identity content in
  let? _ := verify_package_bytes content identity signature in
  Ok identity.

(** ** Rotation and revocation *)
Definition rotation_payload (self : KeyRotation) : result string bytes :=
  to_vec (mkRotationPayload self.(kr_format_version) self.(kr_old_key_id) self.(kr_old_public_key) self.(kr_new_key_id)
            self.(kr_new_public_key) self.(kr_reason)).
Definition create_rotation (old new : DeveloperKey) (reason : string) : result string KeyRotation :=
  let? _ := validate_label reason in
  let value := mkKeyRotation TRUST_FORMAT_VERSION (developer_key_id old) (hex_encode (public_key old)) (developer_key_id new)
                 (hex_encode (public_key new)) reason "" "" in
  let? payload := rotation_payload value in
  Ok (mkKeyRotation TRUST_FORMAT_VERSION (developer_key_id old) (hex_encode (public_key old)) (developer_key_id new)
        (hex_encode (public_key new)) reason (sign_bytes old ROTATION_DOMAIN payload) (sign_bytes new ROTATION_DOMAIN payload)).
Definition verify_rotation (self : KeyRotation) : result string unit :=
  if negb (self.(kr_format_version) =? TRUST_FORMAT_VERSION) || bool_decide (self.(kr_old_key_id) = self.(kr_new_key_id))
  then Err "invalid key rotation"
  else
    let? _ := validate_label self.(kr_reason) in
    let? payload := rotation_payload self in
    let? _ := verify_detached self.(kr_old_public_key) ROTATION_DOMAIN payload self.(kr_old_signature) in
    let? payload := rotation_payload self in
    verify_detached self.(kr_new_public_key) ROTATION_DOMAIN payload self.(kr_new_signature).
Definition revocation_payload (self : RevocationRecord) : result string bytes :=
  to_vec (mkRevocationPayload self.(rv_format_version) self.(rv_revoked_key_id) self.(rv_signer_public_key) self.(rv_reason)).
Definition create_revocation (revoked_key_id : string) (signer : DeveloperKey) (reason : string) : result string RevocationRecord :=
  let? _ := validate_sha256 revoked_key_id "revoked key id" in
  let? _ := validate_label reason in
  let value := mkRevocation TRUST_FORMAT_VERSION revoked_key_id (hex_encode (public_key signer)) reason "" in
  let? payload := revocation_payload value in
  Ok (mkRevocation TRUST_FORMAT_VERSION revoked_key_id (hex_encode (public_key signer)) reason
        (sign_bytes signer REVOCATION_DOMAIN payload)).
Definition verify_revocation (self : RevocationRecord) : result string unit :=
  if negb (self.(rv_format_version) =? TRUST_FORMAT_VERSION) then Err "unsupported revocation format"
  else
    let? _ := validate_sha256 self.(rv_revoked_key_id) "revoked key id" in
    let? _ := validate_label self.(rv_reason) in
    let? payload := revocation_payload self in
    verify_detached self.(rv_signer_public_key) REVOCATION_DOMAIN payload self.(rv_signature).

(** ** Build attestations *)
Definition attestation_payload (self : BuildAttestation) : result string bytes :=
  to_vec (mkAttestationPayload self.(ba_format_version) self.(ba_identity) self.(ba_source_sha256) self.(ba_toolchain)
            self.(ba_build_arguments) self.(ba_key_id) self.(ba_public_key)).
Definition create_attestation (key : DeveloperKey) (identity : PackageIdentity) (source_sha256 toolchain : string)
    (build_arguments : list string) : result string BuildAttestation :=
  let? _ := validate_sha256 source_sha256 "source digest" in
  let? _ := validate_label toolchain in
  if bad_arguments build_arguments then Err "build arguments are invalid"
  else
    let value := mkBuildAttestation ATTESTATION_FORMAT_VERSION identity source_sha256 toolchain build_arguments
                   (developer_key_id key) (hex_encode (public_key key)) "" in
    let? payload := attestation_payload value in
    Ok (mkBuildAttestation ATTESTATION_FORMAT_VERSION identity source_sha256 toolchain build_arguments
          (developer_key_id key) (hex_encode (public_key key)) (sign_bytes key ATTESTATION_DOMAIN payload)).
Definition verify_attestation (self : BuildAttestation) : result string unit :=
  if negb (self.(ba_format_version) =? ATTESTATION_FORMAT_VERSION) then Err "invalid build attestation identity"
  else
    let? public := decode_array 32 self.(ba_public_key) "attestation public key" in
    if negb (bool_decide (key_id public = self.(ba_key_id))) then Err "invalid build attestation identity"
    else
      let? _ := validate_sha256 self.(ba_source_sha256) "source digest" in
      let? _ := validate_label self.(ba_toolchain) in
      if bad_arguments self.(ba_build_arguments) then Err "build arguments are invalid"
      else
        let? payload := attestation_payload self in
        verify_detached self.(ba_public_key) ATTESTATION_DOMAIN payload self.(ba_signature).

(** ** The trust store *)
Definition new_trust_store : TrustStore := mkTrustStore TRUST_FORMAT_VERSION ∅ ∅ [].
Fixpoint check_trusted (l : list (string * TrustEntry)) : result string unit :=
  match l with
  | [] => Ok tt
  | (id, entry) :: l =>
      if negb (bool_decide (id = entry.(te_key_id))) then Err "trust entry identity is invalid"
      else
        let? public := decode_array 32 entry.(te_public_key) "trusted public key" in
        if negb (bool_decide (key_id public = id)) then Err "trust entry identity is invalid"
        else
          let? _ := validate_label entry.(te_label) in
          let? _ := validate_recovery_keys (set_strings entry.(te_recovery_keys)) in
          check_trusted l
  end.
Fixpoint check_revoked (l : list (string * RevocationRecord)) : result string unit :=
  match l with
  | [] => Ok tt
  | (id, record) :: l =>
      if negb (bool_decide (id = record.(rv_revoked_key_id))) then Err "revocation index is invalid"
      else let? _ := verify_revocation record in check_revoked l
  end.
Fixpoint check_rotations (l : list KeyRotation) : result string unit :=
  match l with
  | [] => Ok tt
  | rotation :: l => let? _ := verify_rotation rotation in check_rotations l
  end.
Definition validate_trust (self : TrustStore) : result string unit :=
  if negb (self.(ts_format_version) =? TRUST_FORMAT_VERSION) || (10000 <? btree_len self.(trusted))
     || (10000 <? btree_len self.(revoked)) || (10000 <? len self.(rotations))
  then Err "invalid or oversized trust store"
  else
    let? _ := check_trusted (btree_iter self.(trusted)) in
    let? _ := check_revoked (btree_iter self.(revoked)) in
    check_rotations self.(rotations).
Definition trust (self : TrustStore) (public : bytes) (label : string) (recovery_keys : gset string) : result string (TrustStore * string) :=
  let? _ := validate_label label in
  let? _ := validate_recovery_keys (set_strings recovery_keys) in
  let id := key_id public in
  Ok (mkTrustStore self.(ts_format_version) (<[id := mkTrustEntry id (hex_encode public) label recovery_keys]> self.(trusted))
        self.(revoked) self.(rotations), id).
Definition verify_bytes (self : TrustStore) (content : bytes) (signature : PackageSignature) : result string PackageIdentity :=
  let? _ := validate_trust self in
  if is_some (self.(revoked) !! signature.(ps_key_id)) then Err "package signing key is revoked"
  else
    let? entry := ok_or (self.(trusted) !! signature.(ps_key_id)) "package signing key is not trusted" in
    if negb (bool_decide (entry.(te_public_key) = signature.(ps_public_key))) then Err "trusted public key does not match the signature"
    else
      let? identity := package_identity content in
      let? _ := verify_package_bytes content identity signature in
      Ok identity.
Definition verify_trusted_bytes (self : TrustStore) (key_id_value public : string) (domain message : bytes) (signature : string) :
    result string unit :=
  let? _ := validate_trust self in
  if is_some (self.(revoked) !! key_id_value) then Err "signing key is revoked"
  else
    let? entry := ok_or (self.(trusted) !! key_id_value) "signing key is not trusted" in
    if negb (bool_decide (entry.(te_public_key) = public)) then Err "trusted public key does not match the signature"
    else
      let? decoded := decode_array 32 public "public key" in
      if negb (bool_decide (key_id decoded = key_id_value)) then Err "signature key id is invalid"
      else verify_detached public domain message signature.
Definition apply_rotation (self : TrustStore) (rotation : KeyRotation) : result string TrustStore :=
  let? _ := verify_rotation rotation in
  let? old := ok_or (self.(trusted) !! rotation.(kr_old_key_id)) "old rotation key is not trusted" in
  if negb (bool_decide (old.(te_public_key) = rotation.(kr_old_public_key))) then Err "rotation old key does not match trust store"
  else
    let? public := decode_array 32 rotation.(kr_new_public_key) "new public key" in
    let new_id := key_id public in
    if negb (bool_decide (new_id = rotation.(kr_new_key_id))) then Err "rotation new key id is invalid"
    else
      Ok (mkTrustStore self.(ts_format_version)
            (<[new_id := mkTrustEntry new_id rotation.(kr_new_public_key) old.(te_label) old.(te_recovery_keys)]>
               (delete rotation.(kr_old_key_id) self.(trusted)))
            self.(revoked) (self.(rotations) ++ [rotation])).
Definition apply_revocation (self : TrustStore) (record : RevocationRecord) : result string TrustStore :=
  let? _ := verify_revocation record in
  let? entry := ok_or (self.(trusted) !! record.(rv_revoked_key_id)) "revoked key is not trusted" in
  let? public := decode_array 32 record.(rv_signer_public_key) "revocation signer" in
  let signer_id := key_id public in
  if negb (bool_decide (signer_id = record.(rv_revoked_key_id))) && negb (bool_decide (signer_id ∈ entry.(te_recovery_keys)))
  then Err "revocation signer is not an authorized recovery key"
  else
    Ok (mkTrustStore self.(ts_format_version) self.(trusted) (<[record.(rv_revoked_key_id) := record]> self.(revoked)) self.(rotations)).
End Identity.
