(* ===== verification/IdentityFiles.v ===== *)
(** * Identity documents on disk ([crates/cartridge-identity/src/lib.rs])

    The bounded readers, the writers that create or replace a file, and the files
    of keys, trust stores, signatures, rotations and revocations. *)
From stdpp Require Import pretty.
From S2P Require Import Prelude Text Core Storage Snapshot Directory Blob Network Manifest Files Archive Identity.

Definition read_bounded (path : Path) (limit : N) : IO bytes :=
  do? content := read_file path in
  if limit <? len content then fail ("file must be regular and within the " +:+ pretty limit +:+ "-byte limit") else ret content.
Definition read_json {T : Type} `{JsonDecode T} (path : Path) (limit : N) : IO T :=
  do? content := read_bounded path limit in
  lift (from_slice content).
(** [write_bytes_new] *)
Definition write_bytes_new (destination : Path) (content : bytes) : IO unit :=
  create_new destination ;;? write_all destination content ;;? sync_parent_directory.
Definition write_json_new {T : Type} `{Json T} (path : Path) (value : T) : IO unit :=
  do? content := lift (to_vec value) in
  if MAX_IDENTITY_DOCUMENT_BYTES <? len content then fail "identity document exceeds its size limit"
  else write_bytes_new path content.
(** [write_private_json_new]: the same file with private permissions. *)
Definition write_private_json_new {T : Type} `{Json T} (path : Path) (value : T) : IO unit :=
  do? content := lift (to_vec value) in
  if MAX_IDENTITY_DOCUMENT_BYTES <? len content then fail "identity document exceeds its size limit"
  else write_bytes_new path content.
(** [path.with_extension(format!("json.{}-{sequence}.tmp", process::id()))] of a
    [.json] file. *)
Definition json_temporary (path : Path) : IO Path :=
  do? sequence := fetch_sequence in
  do? process := get_process_id in
  ret (path.1, path.2 +:+ "." +:+ pretty process +:+ "-" +:+ pretty sequence +:+ ".tmp").
Definition remove_if_present (path : Path) : IO unit :=
  do? present := exists_file path in
  if present : bool then remove_file path else ret tt.
Definition atomic_json_replace {T : Type} `{Json T} (path : Path) (value : T) : IO unit :=
  do? content := lift (to_vec value) in
  if MAX_IDENTITY_DOCUMENT_BYTES <? len content then fail "registry document exceeds its size limit"
  else
    do? temp := json_temporary path in
    let backup := backup_of path in
    write_json_new temp value ;;?
    do? present := exists_file path in
    (if present : bool then remove_if_present backup ;;? rename path backup else ret tt) ;;?
    do? renamed := attempt (rename temp path) in
    match renamed with
    | Err error =>
        do? saved := exists_file backup in
        (if saved : bool then attempt (rename backup path) ;;? ret tt else ret tt) ;;?
        discard temp ;;? fail error
    | Ok _ => remove_if_present backup ;;? sync_parent_directory
    end.

Section Documents.
Context `{Ext : Externals} `{Hex : HexDecode} `{SV : !Semver} `{UC : UrlCrate} `{ZC : !ZipCrate} `{TC : !TomlCrate} `{ED : !Ed25519}.
Context `{JI : Json PackageIdentity} `{JR : Json RotationPayload} `{JV : Json RevocationPayload}.
Context `{Json DeveloperKeyFile} `{JsonDecode DeveloperKeyFile} `{Json TrustStore} `{JsonDecode TrustStore}.
Context `{Json PackageSignature} `{JsonDecode PackageSignature} `{Json KeyRotation} `{JsonDecode KeyRotation}.
Context `{Json RevocationRecord} `{JsonDecode RevocationRecord}.

Definition read_key (path : Path) : IO DeveloperKey :=
  do? document := read_json path (16 * 1024) in
  lift (key_of_document document).
Definition write_new_key (self : DeveloperKey) (path : Path) : IO unit := write_private_json_new path (key_document self).
Definition read_trust (path : Path) : IO TrustStore :=
  do? value := read_json path MAX_IDENTITY_DOCUMENT_BYTES in
  lift (validate_trust value) ;;? ret value.
Definition write_new_trust (self : TrustStore) (path : Path) : IO unit :=
  lift (validate_trust self) ;;? write_private_json_new path self.
Definition write_replace_trust (self : TrustStore) (path : Path) : IO unit :=
  lift (validate_trust self) ;;? atomic_json_replace path self.
Definition package_identity_and_bytes (path : Path) : IO (PackageIdentity * bytes) :=
  do? content := read_bounded path MAX_PACKAGE_BYTES in
  do? identity := lift (package_identity content) in
  ret (identity, content).
Definition sign_package_file (self : DeveloperKey) (path : Path) : IO PackageSignature :=
  do? (identity, content) := package_identity_and_bytes path in
  lift (sign_package self content).
Definition verify_package_file (path : Path) (signature : PackageSignature) : IO PackageIdentity :=
  do? (identity, content) := package_identity_and_bytes path in
  lift (verify_package_bytes content identity signature) ;;? ret identity.
Definition verify_trust (self : TrustStore) (package : Path) (signature : PackageSignature) : IO PackageIdentity :=
  do? content := read_bounded package MAX_PACKAGE_BYTES in
  lift (verify_bytes self content signature).
Definition read_signature (path : Path) : IO PackageSignature := read_json path MAX_IDENTITY_DOCUMENT_BYTES.
Definition write_signature (path : Path) (value : PackageSignature) : IO unit :=
  lift (validate_signature_document value) ;;? write_json_new path value.
Definition read_rotation (path : Path) : IO KeyRotation :=
  do? value := read_json path MAX_IDENTITY_DOCUMENT_BYTES in
  lift (verify_rotation value) ;;? ret value.
Definition write_rotation (path : Path) (value : KeyRotation) : IO unit :=
  lift (verify_rotation value) ;;? write_json_new path value.
Definition read_revocation (path : Path) : IO RevocationRecord :=
  do? value := read_json path MAX_IDENTITY_DOCUMENT_BYTES in
  lift (verify_revocation value) ;;? ret value.
Definition write_revocation (path : Path) (value : RevocationRecord) : IO unit :=
  lift (verify_revocation value) ;;? write_json_new path value.
End Documents.
