(* ===== verification/Registry.v ===== *)
(** * The package registry ([crates/cartridge-identity/src/lib.rs])

    The index of published versions with its transparency log, publishing,
    resolving, the audit, and the recovery of the index. *)
From stdpp Require Import pretty.
From S2P Require Import Prelude Text Core Storage Snapshot Directory Blob Network Manifest Files Archive Identity IdentityFiles.

Record RegistryVersion := mkRegistryVersion {
  rg_identity : PackageIdentity;
  rg_key_id : string;
  published_at_ms : N;
  rg_dependencies : list string;
  rg_capabilities : list string;
}.
#[global] Instance registry_version_eq_dec : EqDecision RegistryVersion.
Proof. solve_decision. Defined.
Record TransparencyEntry := mkTransparencyEntry {
  tr_sequence : N;
  tr_cartridge_id : string;
  tr_version : string;
  tr_package_sha256 : string;
  tr_key_id : string;
  tr_previous_sha256 : string;
  tr_entry_sha256 : string;
}.
#[global] Instance transparency_entry_eq_dec : EqDecision TransparencyEntry.
Proof. solve_decision. Defined.
Record RegistryIndex := mkRegistryIndex {
  ri_format_version : N;
  packages : gmap string (gmap string RegistryVersion);
  transparency : list TransparencyEntry;
}.
#[global] Instance registry_index_eq_dec : EqDecision RegistryIndex.
Proof. solve_decision. Defined.
(** What is hashed of an entry *)
Record TransparencyPayload := mkTransparencyPayload {
  tp_sequence : N;
  tp_cartridge_id : string;
  tp_version : string;
  tp_package_sha256 : string;
  tp_key_id : string;
  tp_previous_sha256 : string;
}.
(** An open registry: its directory and the index in memory.  The lock is held
    while it lives. *)
Record Registry := mkRegistry { rg_root : string; rg_index : RegistryIndex }.

Definition ZERO_SHA256 : string := "0000000000000000000000000000000000000000000000000000000000000000".
Definition permission_names (manifest : PackageManifest) : list string :=
  let p := manifest.(permissions) in
  (filter (fun n => n.2 = true)
     [("clock", p.(clock)); ("random", p.(random)); ("assets", p.(Manifest.assets)); ("storage", p.(storage));
      ("graphics", p.(graphics)); ("audio", p.(audio)); ("midi", p.(midi))]).*1.
(** [packages.values().map(BTreeMap::len).sum()] *)
Definition version_count (index : RegistryIndex) : N := sumN (btree_len <$> btree_values index.(packages)).

Section Registry.
Context `{Ext : Externals} `{Hex : HexDecode} `{SV : !Semver} `{UC : UrlCrate} `{ZC : !ZipCrate} `{TC : !TomlCrate} `{ED : !Ed25519}.
Context `{JI : Json PackageIdentity} `{JR : Json RotationPayload} `{JV : Json RevocationPayload}.
Context `{JS : Json PackageSignature} `{DS : JsonDecode PackageSignature}.
Context `{JX : Json RegistryIndex} `{DX : JsonDecode RegistryIndex} `{JT : Json TransparencyPayload}.

(** ** Validation *)
Definition transparency_hash (entry : TransparencyEntry) : result string string :=
  let? bytes := to_vec (mkTransparencyPayload entry.(tr_sequence) entry.(tr_cartridge_id) entry.(tr_version)
                          entry.(tr_package_sha256) entry.(tr_key_id) entry.(tr_previous_sha256)) in
  Ok (hex_sha256 bytes).
Definition log_key (entry : TransparencyEntry) : string * string * string * string :=
  (entry.(tr_cartridge_id), entry.(tr_version), entry.(tr_package_sha256), entry.(tr_key_id)).
Fixpoint check_log (position : N) (previous : string) (logged : gset (string * string * string * string))
    (l : list TransparencyEntry) : result string (gset (string * string * string * string)) :=
  match l with
  | [] => Ok logged
  | entry :: l =>
      if negb (entry.(tr_sequence) =? position) || negb (bool_decide (entry.(tr_previous_sha256) = previous))
      then Err "transparency log chain is invalid"
      else
        let? hash := transparency_hash entry in
        if negb (bool_decide (hash = entry.(tr_entry_sha256))) then Err "transparency log chain is invalid"
        else
          let? _ := validate_sha256 entry.(tr_package_sha256) "transparency package digest" in
          let? _ := validate_sha256 entry.(tr_key_id) "transparency key id" in
          if bool_decide (log_key entry ∈ logged) then Err "transparency log contains a duplicate entry"
          else check_log (position + 1) entry.(tr_entry_sha256) ({[log_key entry]} ∪ logged) l
  end.
Fixpoint check_versions (logged : gset (string * string * string * string)) (id : string) (l : list (string * RegistryVersion)) :
    result string unit :=
  match l with
  | [] => Ok tt
  | (version, value) :: l =>
      if negb (bool_decide (value.(rg_identity).(id_cartridge_id) = id))
         || negb (bool_decide (value.(rg_identity).(id_version) = version))
         || negb (bool_decide ((id, version, value.(rg_identity).(id_package_sha256), value.(rg_key_id)) ∈ logged))
      then Err "registry version is not bound to its transparency entry"
      else if is_none (parse_version version) then Err "registry version is not semantic versioning"
      else
        let? _ := validate_signature_identity value.(rg_identity) in
        let? _ := validate_sha256 value.(rg_key_id) "registry signing key id" in
        check_versions logged id l
  end.
Fixpoint check_packages (logged : gset (string * string * string * string)) (l : list (string * gmap string RegistryVersion)) :
    result string unit :=
  match l with
  | [] => Ok tt
  | (id, versions) :: l =>
      let? _ := check_versions logged id (btree_iter versions) in
      check_packages logged l
  end.
Definition validate_registry (index : RegistryIndex) : result string unit :=
  if negb (index.(ri_format_version) =? REGISTRY_FORMAT_VERSION) || (MAX_REGISTRY_VERSIONS <? version_count index)
     || (MAX_TRANSPARENCY_ENTRIES <? len index.(transparency))
  then Err "invalid or oversized registry index"
  else
    let? logged := check_log 0 ZERO_SHA256 ∅ index.(transparency) in
    if negb (set_len logged =? version_count index)
    then Err "registry index and transparency log do not describe the same version count"
    else check_packages logged (btree_iter index.(packages)).

(** ** Opening *)
Definition index_path (root : string) : Path := (root, "index.json").
Definition objects (root : string) : string := root +:+ "/objects".
Definition registry_object (root sha256 : string) : Path := (objects root, sha256 +:+ ".cartridge").
Definition signature_path (root sha256 : string) : Path := (objects root, sha256 +:+ ".signature.json").
Definition read_index (path : Path) : IO RegistryIndex := read_json path MAX_IDENTITY_DOCUMENT_BYTES.
(** [read_json(path).and_then(validate).is_ok()] *)
Definition index_valid (path : Path) : IO bool :=
  do? r := attempt (do? value := read_index path in lift (validate_registry value)) in
  ret (is_ok r).
Definition recover_registry_index (path : Path) : IO unit :=
  let backup := backup_of path in
  do? saved := exists_file backup in
  if negb saved then ret tt
  else
    do? backup_valid := index_valid backup in
    do? present := exists_file path in
    if negb present then
      if negb backup_valid then fail "registry index recovery backup is invalid"
      else rename backup path
    else
      do? current_valid := index_valid path in
      if current_valid : bool then remove_file backup
      else if negb backup_valid then fail "registry index and recovery backup are invalid"
      else
        let corrupt := (path.1, path.2 +:+ ".corrupt") in
        do? quarantined := exists_file corrupt in
        if quarantined : bool then fail "registry recovery quarantine already exists"
        else rename path corrupt ;;? rename backup path.
Definition open_registry (root : string) : IO Registry :=
  ensure_directory root ;;? ensure_directory (objects root) ;;?
  open_lock_file (root, "registry.lock") ;;? acquire_lock ;;?
  recover_registry_index (index_path root) ;;?
  do? present := exists_file (index_path root) in
  do? index := (if present : bool then read_index (index_path root)
                else ret (mkRegistryIndex REGISTRY_FORMAT_VERSION ∅ [])) in
  lift (validate_registry index) ;;?
  ret (mkRegistry root index).

(** ** Publishing *)
Definition append_transparency (index : RegistryIndex) (identity : PackageIdentity) (signing_key : string) : result string RegistryIndex :=
  if MAX_TRANSPARENCY_ENTRIES <=? len index.(transparency) then Err "transparency log limit exceeded"
  else
    let entry := mkTransparencyEntry (len index.(transparency)) identity.(id_cartridge_id) identity.(id_version)
                   identity.(id_package_sha256) signing_key
                   (match last index.(transparency) with None => ZERO_SHA256 | Some value => value.(tr_entry_sha256) end) "" in
    let? hash := transparency_hash entry in
    Ok (mkRegistryIndex index.(ri_format_version) index.(packages)
          (index.(transparency) ++ [mkTransparencyEntry entry.(tr_sequence) entry.(tr_cartridge_id) entry.(tr_version)
             entry.(tr_package_sha256) entry.(tr_key_id) entry.(tr_previous_sha256) hash])).
Definition save_registry (self : Registry) : IO unit :=
  lift (validate_registry self.(rg_index)) ;;?
  atomic_json_replace (index_path self.(rg_root)) self.(rg_index).
Definition published_version (index : RegistryIndex) (id version : string) : option RegistryVersion :=
  versions ← index.(packages) !! id; versions !! version.
Definition insert_version (index : RegistryIndex) (published : RegistryVersion) : RegistryIndex :=
  let id := published.(rg_identity).(id_cartridge_id) in
  mkRegistryIndex index.(ri_format_version)
    (<[id := <[published.(rg_identity).(id_version) := published]> (default ∅ (index.(packages) !! id))]> index.(packages))
    index.(transparency).
(** Everything before the index changes: an existing version ([inl]), or the
    version to insert, whose object and signature are stored. *)
Definition prepare_publish (self : Registry) (package : Path) (signature : PackageSignature) (trust : TrustStore)
    (now_ms : result string N) : IO (RegistryVersion + RegistryVersion) :=
  do? content := read_bounded package MAX_PACKAGE_BYTES in
  do? identity := lift (verify_bytes trust content signature) in
  if MAX_REGISTRY_VERSIONS <=? version_count self.(rg_index) then fail "registry version limit exceeded"
  else
    match published_version self.(rg_index) identity.(id_cartridge_id) identity.(id_version) with
    | Some existing =>
        if bool_decide (existing.(rg_identity).(id_package_sha256) = identity.(id_package_sha256))
        then ret (inl existing) else fail "registry versions are immutable"
    | None =>
        let object := registry_object self.(rg_root) identity.(id_package_sha256) in
        do? present := exists_file object in
        (if present : bool then
           do? stored := read_bounded object MAX_PACKAGE_BYTES in
           if negb (bool_decide (stored = content)) then fail "registry object does not match its content address" else ret tt
         else write_bytes_new object content) ;;?
        let path := signature_path self.(rg_root) identity.(id_package_sha256) in
        do? signed := exists_file path in
        (if negb signed then write_json_new path signature else ret tt) ;;?
        do? stored := read_file object in
        do? archive := lift (map_err error_to_string (open_bytes stored)) in
        do? now := lift now_ms in
        ret (inr (mkRegistryVersion identity signature.(ps_key_id) now (dp_cartridge <$> archive.(ar_manifest).(dependencies))
                    (permission_names archive.(ar_manifest))))
    end.
(** The index in memory changes before it is saved, and stays changed when that
    fails: the registry is returned with the answer. *)
Definition publish (self : Registry) (package : Path) (signature : PackageSignature) (trust : TrustStore)
    (now_ms : result string N) : IO (Registry * result string RegistryVersion) :=
  do? prepared := attempt (prepare_publish self package signature trust now_ms) in
  match prepared with
  | Err e => ret (self, Err e)
  | Ok (inl existing) => ret (self, Ok existing)
  | Ok (inr published) =>
      let self := mkRegistry self.(rg_root) (insert_version self.(rg_index) published) in
      match append_transparency self.(rg_index) published.(rg_identity) published.(rg_key_id) with
      | Err e => ret (self, Err e)
      | Ok index =>
          let self := mkRegistry self.(rg_root) index in
          do? saved := attempt (save_registry self) in
          ret (self, let? _ := saved in Ok published)
      end
  end.

(** ** Reading *)
(** [filter_map(...).max_by(...)]: the last of the greatest *)
Fixpoint newest (requirement : VersionReq) (best : option (Version * RegistryVersion)) (l : list (string * RegistryVersion)) :
    option (Version * RegistryVersion) :=
  match l with
  | [] => best
  | (text, value) :: l =>
      match parse_version text with
      | Some version =>
          if req_matches requirement version then
            newest requirement
              (match best with
               | Some (b, w) => if version_leb b version then Some (version, value) else Some (b, w)
               | None => Some (version, value)
               end) l
          else newest requirement best l
      | None => newest requirement best l
      end
  end.
Definition resolve (self : Registry) (id requirement : string) : result string (option RegistryVersion) :=
  let? requirement := ok_or (parse_req requirement) "invalid version requirement" in
  Ok (versions ← self.(rg_index).(packages) !! id; snd <$> newest requirement None (btree_iter versions)).
Fixpoint audit_versions (self : Registry) (trust : TrustStore) (verified : N) (l : list RegistryVersion) : IO N :=
  match l with
  | [] => ret verified
  | version :: l =>
      let digest := version.(rg_identity).(id_package_sha256) in
      do? signature := read_json (T := PackageSignature) (signature_path self.(rg_root) digest) MAX_IDENTITY_DOCUMENT_BYTES in
      do? content := read_bounded (registry_object self.(rg_root) digest) MAX_PACKAGE_BYTES in
      do? identity := lift (verify_bytes trust content signature) in
      if negb (bool_decide (identity = version.(rg_identity))) || negb (bool_decide (signature.(ps_key_id) = version.(rg_key_id)))
      then fail "registry index does not match a stored signed object"
      else audit_versions self trust (verified + 1) l
  end.
Definition audit_registry (self : Registry) (trust : TrustStore) : IO N :=
  lift (validate_registry self.(rg_index)) ;;?
  audit_versions self trust 0 (btree_values self.(rg_index).(packages) ≫= btree_values).
End Registry.
