(* ===== verification/IdentityTheorems.v ===== *)
(** * Theorems about keys, signatures and the trust store

    Signed messages are framed so that no two documents share one; a package that
    a trust store accepts was signed by a trusted key that is not revoked; what a
    trusted key signs is accepted; and what the operations of a trust store keep,
    and what they do not. *)
From S2P Require Import Prelude Text Core Storage Snapshot Directory Blob BlobTheorems Network NetworkTheorems Manifest ManifestTheorems Files Archive ArchiveTheorems Identity.

(** ** Framing *)
Lemma framed_payload_inj (d d' m m' : bytes) :
  len d < 256 ^ 8 -> len d' < 256 ^ 8 -> framed_payload d m = framed_payload d' m' -> d = d' /\ m = m'.
Proof.
  intros Hd Hd' H. unfold framed_payload in H.
  apply app_inj_1 in H as [Hl H]; [|by rewrite !le_byte_list_len].
  apply (le_byte_list_inj 8) in Hl; [|done..].
  apply app_inj_1 in H as [-> H]; [|unfold len in Hl; lia]. split; [done|].
  apply app_inj_1 in H as [_ H]; [done|by rewrite !le_byte_list_len].
Qed.
Definition signing_domains : list bytes := [PACKAGE_DOMAIN; ROTATION_DOMAIN; REVOCATION_DOMAIN; ATTESTATION_DOMAIN].
(** What is signed for one purpose is never what is signed for another: two
    framed messages of the documents' domains are equal only when both the domain
    and the message are, so a signature of a package, a rotation, a revocation or
    an attestation says nothing about any other message. *)
Theorem signed_messages_are_separate (i j : nat) (d d' m m' : bytes) :
  signing_domains !! i = Some d -> signing_domains !! j = Some d' ->
  framed_payload d m = framed_payload d' m' -> i = j /\ m = m'.
Proof.
  intros Hi Hj H.
  assert (forall k x, signing_domains !! k = Some x -> len x < 256 ^ 8) as Hlen.
  { intros k x Hk. apply list_elem_of_lookup_2 in Hk. unfold signing_domains in Hk.
    repeat (apply elem_of_cons in Hk as [->|Hk]; [reflexivity|]). by apply not_elem_of_nil in Hk. }
  destruct (framed_payload_inj d d' m m' (Hlen _ _ Hi) (Hlen _ _ Hj) H) as [-> ->]. split; [|done].
  eapply (NoDup_lookup signing_domains); [|exact Hi|exact Hj].
  apply (bool_decide_unpack _). vm_compute. exact I.
Qed.

Section Signing.
Context `{Ext : Externals} `{Hex : HexDecode} `{SV : !Semver} `{UC : UrlCrate} `{ZC : !ZipCrate} `{TC : !TomlCrate} `{ED : !Ed25519}.
Context `{JI : Json PackageIdentity} `{JR : Json RotationPayload} `{JV : Json RevocationPayload} `{JA : Json AttestationPayload}.

Lemma decode_encoded (n : N) (b : bytes) label : len b = n -> decode_array n (hex_encode b) label = Ok b.
Proof. intros H. unfold decode_array. by rewrite hex_decode_encode, H, N.eqb_refl. Qed.
Lemma public_key_len k : len (public_key k) = 32.
Proof. unfold len, public_key. by rewrite ed_public_length. Qed.
Lemma verifying_key_encoded k : verifying_key (hex_encode (public_key k)) = Ok (public_key k).
Proof.
  unfold verifying_key. rewrite decode_encoded by apply public_key_len. unfold public_key. by rewrite ed_public_valid.
Qed.
Lemma signature_len s m : len (ed_sign s m) = 64.
Proof. unfold len. by rewrite ed_sign_length. Qed.
Lemma verify_signed k domain m : verify_detached (hex_encode (public_key k)) domain m (sign_bytes k domain m) = Ok tt.
Proof.
  unfold verify_detached, sign_bytes. rewrite verifying_key_encoded, decode_encoded by apply signature_len.
  unfold public_key. by rewrite ed_sign_verifies.
Qed.
Lemma sha256_valid s label : is_sha256 s = true -> validate_sha256 s label = Ok tt.
Proof. unfold is_sha256, validate_sha256. by intros [-> ->]%andb_true_iff. Qed.
Lemma valid_sha256 s label : validate_sha256 s label = Ok tt -> is_sha256 s = true.
Proof. unfold is_sha256, validate_sha256. by destruct (_ =? _), (forallb _ _). Qed.

(** The identity of a package that opens passes the checks of a signature. *)
Lemma package_identity_valid content identity :
  package_identity content = Ok identity ->
  validate_signature_identity identity = Ok tt
  /\ identity.(id_package_sha256) = hex_sha256 content /\ identity.(id_package_bytes) = len content.
Proof.
  unfold package_identity. destruct (open_bytes content) as [a|] eqn:Ho; [|done]. cbn [map_err]. intros [= <-].
  destruct (open_reader_stages content _ a Ho) as (entries & mb & (_ & _ & Hlen) & _ & _ & Hman & _ & Hvc & _).
  split; [|done]. unfold validate_signature_identity. cbn [id_package_sha256 id_component_sha256 id_assets_root_sha256 id_package_bytes id_version].
  assert (validate_package a.(ar_manifest) = Ok tt) as Hv.
  { revert Hman. unfold parse_manifest. destruct (from_utf8 mb); [|done]. cbn [ok_or]. destruct (map_err _ _) as [m|]; [|done].
    destruct (validate_package m) as [[]|] eqn:E; [|done]. by intros [= <-]. }
  unfold verify_component in Hvc. destruct (str_is_empty (in_component_sha256 _)) eqn:Hne; [done|].
  revert Hv. unfold validate_package. pass Hf. succeed t1 H1. succeed t2 H2. succeed t3 H3. pass Hsem. succeed t4 H4. pass Hs.
  succeed t5 H5. succeed t6 H6. succeed t7 H7. succeed t8 H8. intros _.
  revert H8. unfold validate_integrity. rewrite Hne. cbn [negb andb]. pass Hc. succeed t9 H9.
  intros Hroot. rewrite sha256_valid by apply hash_is_sha256. rewrite sha256_valid by (by destruct (is_sha256 _)).
  assert ((if str_is_empty (assets_root_sha256 (integrity (ar_manifest a))) then Ok tt
           else validate_sha256 (assets_root_sha256 (integrity (ar_manifest a))) "asset root digest") = Ok tt) as ->.
  { destruct (str_is_empty (assets_root_sha256 (integrity (ar_manifest a)))); [done|]. apply sha256_valid. by destruct (is_sha256 (assets_root_sha256 _)). }
  change (archive_bytes default_package_limits) with MAX_PACKAGE_BYTES in Hlen.
  rewrite (proj2 (N.eqb_neq _ _)), (proj2 (N.ltb_ge _ _)) by lia. cbn [orb].
  pose proof (parse_version_ok (cm_version (cartridge (ar_manifest a)))) as Hp. unfold is_some in Hp.
  destruct (is_none _); [|done]. cbn in Hp. by rewrite <- Hp in Hsem.
Qed.
Lemma signature_payload_of content identity encoded :
  package_identity content = Ok identity -> to_vec identity = Ok encoded ->
  package_signature_payload identity content = Ok (framed_payload PACKAGE_DOMAIN encoded).
Proof.
  intros Hid He. destruct (package_identity_valid _ _ Hid) as (_ & H1 & H2). unfold package_signature_payload.
  rewrite H1, H2, bool_decide_eq_true_2, N.eqb_refl by done. cbn. by rewrite He.
Qed.

(** ** Packages a trust store accepts *)
(** C29: A package that a trust store accepts was signed by a trusted key: the store
    itself is valid, the signature names a key that is trusted under exactly that
    public key and not revoked, the key id is the digest of the public key, the
    package opens, and the signature verifies for the identity of exactly these
    bytes. *)
Theorem accepted_package_is_signed (store : TrustStore) content signature identity :
  verify_bytes store content signature = Ok identity ->
  validate_trust store = Ok tt /\ store.(revoked) !! signature.(ps_key_id) = None
  /\ (exists entry, store.(trusted) !! signature.(ps_key_id) = Some entry /\ entry.(te_public_key) = signature.(ps_public_key))
  /\ (exists archive, open_bytes content = Ok archive
        /\ identity = mkPackageIdentity archive.(ar_manifest).(cartridge).(cm_id) archive.(ar_manifest).(cartridge).(cm_version)
             (hex_sha256 content) (len content) archive.(ar_manifest).(integrity).(in_component_sha256)
             archive.(ar_manifest).(integrity).(assets_root_sha256))
  /\ signature.(ps_identity) = identity
  /\ exists public encoded value,
       verifying_key signature.(ps_public_key) = Ok public /\ key_id public = signature.(ps_key_id)
       /\ to_vec identity = Ok encoded /\ decode_array 64 signature.(ps_signature) "signature" = Ok value
       /\ ed_verify public (framed_payload PACKAGE_DOMAIN encoded) value = true.
Proof.
  unfold verify_bytes. succeed t Hv. destruct t. destruct (revoked store !! _) as [r|] eqn:Hr; [done|]. cbn [is_some is_none negb].
  destruct (trusted store !! _) as [entry|] eqn:He; [|done]. cbn [ok_or]. pass Hpk. bprop.
  succeed idn Hid. succeed u Hver. intros [= ->]. split; [done|]. split; [done|]. split; [by exists entry|].
  split.
  { revert Hid. unfold package_identity. destruct (open_bytes content) as [a|]; [|done]. intros [= <-]. by exists a. }
  revert Hver. unfold verify_package_bytes. succeed t1 Hdoc. pass Hsame. bprop. succeed pub Hpub. pass Hkid. bprop.
  succeed v64 Hval. succeed pay Hpay. destruct (ed_verify pub pay v64) eqn:Hed; [|done]. intros _.
  split; [done|]. revert Hpay. unfold package_signature_payload. pass Hb. succeed enc Henc. intros [= <-].
  by exists pub, enc, v64.
Qed.

(** What a trusted developer signs is accepted: when a key signs a package that
    opens, and a valid store trusts the key under its own public key and has not
    revoked it, the store accepts the package with its signature. *)
Theorem signed_package_is_accepted (store : TrustStore) key content signature entry :
  sign_package key content = Ok signature -> validate_trust store = Ok tt ->
  store.(trusted) !! developer_key_id key = Some entry -> entry.(te_public_key) = public_key_hex key ->
  store.(revoked) !! developer_key_id key = None ->
  verify_bytes store content signature = Ok signature.(ps_identity)
  /\ verify_package content signature = Ok signature.(ps_identity).
Proof.
  intros Hsign Hv Ht Hpk Hr. revert Hsign. unfold sign_package. succeed idn Hid. succeed pay Hpay. intros [= <-].
  cbn [ps_identity]. destruct (package_identity_valid _ _ Hid) as (Hvalid & _ & _).
  assert (verify_package_bytes content idn
            (mkPackageSignature SIGNATURE_FORMAT_VERSION "ed25519" (developer_key_id key) (hex_encode (public_key key)) idn
               (hex_encode (ed_sign (signing key) pay))) = Ok tt) as Hver.
  { unfold verify_package_bytes, validate_signature_document. cbn [ps_format_version ps_algorithm ps_identity ps_public_key ps_key_id ps_signature].
    rewrite N.eqb_refl, bool_decide_eq_true_2 by done. cbn [negb orb]. rewrite Hvalid, bool_decide_eq_true_2 by done. cbn [negb].
    rewrite verifying_key_encoded, bool_decide_eq_true_2 by done. cbn [negb].
    rewrite decode_encoded by apply signature_len. rewrite Hpay. unfold public_key. by rewrite ed_sign_verifies. }
  unfold verify_bytes, verify_package. cbn [ps_key_id ps_public_key]. rewrite Hv, Hr, Ht. cbn [is_some is_none negb ok_or].
  rewrite Hpk, bool_decide_eq_true_2 by done. cbn [negb]. by rewrite Hid, Hver.
Qed.

(** ** Documents that are created verify *)
Lemma created_rotation_verifies old new reason r :
  create_rotation old new reason = Ok r -> developer_key_id old <> developer_key_id new -> verify_rotation r = Ok tt.
Proof.
  unfold create_rotation. succeed t Hl. succeed payload Hp. intros [= <-] Hne. unfold verify_rotation.
  cbn [kr_format_version kr_old_key_id kr_new_key_id kr_reason kr_old_public_key kr_new_public_key kr_old_signature kr_new_signature].
  rewrite N.eqb_refl, bool_decide_eq_false_2 by done. cbn [negb orb]. rewrite Hl.
  unfold rotation_payload in *. cbn [kr_format_version kr_old_key_id kr_new_key_id kr_reason kr_old_public_key kr_new_public_key] in *.
  by rewrite Hp, !verify_signed.
Qed.
Lemma created_revocation_verifies id signer reason r :
  create_revocation id signer reason = Ok r -> verify_revocation r = Ok tt.
Proof.
  unfold create_revocation. succeed t Hd. succeed t' Hl. succeed payload Hp. intros [= <-]. unfold verify_revocation.
  cbn [rv_format_version rv_revoked_key_id rv_signer_public_key rv_reason rv_signature]. rewrite N.eqb_refl, Hd, Hl. cbn [negb].
  unfold revocation_payload in *. cbn [rv_format_version rv_revoked_key_id rv_signer_public_key rv_reason] in *. by rewrite Hp, verify_signed.
Qed.
Lemma created_attestation_verifies key identity source toolchain arguments a :
  create_attestation key identity source toolchain arguments = Ok a -> verify_attestation a = Ok tt.
Proof.
  unfold create_attestation. succeed t Hd. succeed t' Hl. pass Hb. succeed payload Hp. intros [= <-]. unfold verify_attestation.
  cbn [ba_format_version ba_public_key ba_key_id ba_source_sha256 ba_toolchain ba_build_arguments ba_signature].
  rewrite N.eqb_refl. cbn [negb]. rewrite decode_encoded by apply public_key_len. rewrite bool_decide_eq_true_2 by done. cbn [negb].
  rewrite Hd, Hl, Hb. unfold attestation_payload in *.
  cbn [ba_format_version ba_identity ba_source_sha256 ba_toolchain ba_build_arguments ba_key_id ba_public_key] in *.
  by rewrite Hp, verify_signed.
Qed.
Lemma key_file_round_trip key : len key.(signing) = 32 -> key_of_document (key_document key) = Ok key.
Proof.
  intros Hl. destruct key as [secret]. unfold key_of_document, key_document.
  cbn [kf_format_version kf_algorithm kf_key_id kf_public_key kf_secret_key signing] in *.
  rewrite N.eqb_refl, !bool_decide_eq_true_2 by done. cbn [negb orb]. rewrite decode_encoded by done.
  by rewrite !bool_decide_eq_true_2.
Qed.
End Signing.

(** ** The trust store as a state machine *)
Section Trust.
Context `{Ext : Externals} `{Hex : HexDecode} `{SV : !Semver} `{UC : UrlCrate} `{ZC : !ZipCrate} `{TC : !TomlCrate} `{ED : !Ed25519}.
Context `{JI : Json PackageIdentity} `{JR : Json RotationPayload} `{JV : Json RevocationPayload} `{JA : Json AttestationPayload}.

(** A text is the public key of a key id. *)
Definition names_key (text id : string) : Prop :=
  exists public label, decode_array 32 text label = Ok public /\ key_id public = id.
Record entry_ok (id : string) (entry : TrustEntry) : Prop := {
  entry_id : id = entry.(te_key_id);
  entry_key : names_key entry.(te_public_key) id;
  entry_label : validate_label entry.(te_label) = Ok tt;
  entry_recovery : validate_recovery_keys (set_strings entry.(te_recovery_keys)) = Ok tt;
}.
Definition revocation_ok (id : string) (record : RevocationRecord) : Prop :=
  id = record.(rv_revoked_key_id) /\ verify_revocation record = Ok tt.
Record trust_ok (s : TrustStore) : Prop := {
  ok_format : s.(ts_format_version) = TRUST_FORMAT_VERSION;
  ok_trusted : map_Forall entry_ok s.(trusted);
  ok_revoked : map_Forall revocation_ok s.(revoked);
  ok_rotations : Forall (fun r => verify_rotation r = Ok tt) s.(rotations);
}.
Definition trust_sized (s : TrustStore) : Prop :=
  btree_len s.(trusted) <= 10000 /\ btree_len s.(revoked) <= 10000 /\ len s.(rotations) <= 10000.

Lemma names_key_decode text id label : names_key text id -> exists public, decode_array 32 text label = Ok public /\ key_id public = id.
Proof.
  intros (public & label' & Hd & Hk). exists public. split; [|done]. revert Hd. unfold decode_array.
  destruct (hex_decode text); [|done]. by destruct (_ =? _).
Qed.
Lemma check_trusted_iff l : check_trusted l = Ok tt <-> Forall (fun p => entry_ok p.1 p.2) l.
Proof.
  induction l as [|[id entry] l IH]; [done|]. rewrite Forall_cons, <- IH. cbn [check_trusted fst snd]. split.
  - pass Hid. succeed key Hk. pass Hkey. succeed t Hl. succeed u Hr. destruct t, u. bprop. intros H. split; [|done].
    split; try done. by exists key, "trusted public key".
  - intros [[-> Hk Hl Hr] H]. destruct (names_key_decode _ _ "trusted public key" Hk) as (public & Hd & Hid).
    by rewrite bool_decide_eq_true_2, Hd, bool_decide_eq_true_2, Hl, Hr by done.
Qed.
Lemma check_revoked_iff l : check_revoked l = Ok tt <-> Forall (fun p => revocation_ok p.1 p.2) l.
Proof.
  induction l as [|[id record] l IH]; [done|]. rewrite Forall_cons, <- IH. cbn [check_revoked fst snd]. split.
  - pass Hid. succeed t Hv. destruct t. bprop. by intros H.
  - intros [[-> Hv] H]. by rewrite bool_decide_eq_true_2, Hv by done.
Qed.
Lemma check_rotations_iff l : check_rotations l = Ok tt <-> Forall (fun r => verify_rotation r = Ok tt) l.
Proof.
  induction l as [|r l IH]; [done|]. rewrite Forall_cons, <- IH. cbn [check_rotations]. split.
  - succeed t Hv. by destruct t.
  - by intros [-> H].
Qed.
Lemma btree_forall {V : Type} (P : string -> V -> Prop) (m : gmap string V) :
  Forall (fun p => P p.1 p.2) (btree_iter m) <-> map_Forall P m.
Proof.
  rewrite Forall_forall. split.
  - intros H k v Hk. apply (H (k, v)). by apply btree_iter_elem.
  - intros H [k v] Hk. apply H. by apply btree_iter_elem.
Qed.
Lemma validate_trust_iff s : validate_trust s = Ok tt <-> trust_ok s /\ trust_sized s.
Proof.
  unfold validate_trust, trust_sized. split.
  - pass Hg. succeed t Ht. succeed u Hu. destruct t, u. intros Hr. split_guard.
    split; [|done]. split; [done| | |by apply check_rotations_iff].
    + by apply btree_forall, check_trusted_iff.
    + by apply btree_forall, check_revoked_iff.
  - intros [[Hf Ht Hv Hr] (H1 & H2 & H3)]. rewrite Hf, N.eqb_refl, !(proj2 (N.ltb_ge _ _)) by done. cbn [negb orb].
    rewrite (proj2 (check_trusted_iff _)), (proj2 (check_revoked_iff _)) by (by apply btree_forall).
    by apply check_rotations_iff.
Qed.

(** An operation, with the key it makes trusted by the user's own word. *)
Inductive trust_step (s : TrustStore) : gset string -> TrustStore -> Prop :=
| step_trust public label recovery s' id :
    len public = 32 -> trust s public label recovery = Ok (s', id) -> trust_step s {[id]} s'
| step_rotate r s' : apply_rotation s r = Ok s' -> trust_step s ∅ s'
| step_revoke r s' : apply_revocation s r = Ok s' -> trust_step s ∅ s'.
Inductive trust_run (s : TrustStore) : gset string -> TrustStore -> Prop :=
| run_start : trust_run s ∅ s
| run_next A s1 B s2 : trust_run s A s1 -> trust_step s1 B s2 -> trust_run s (A ∪ B) s2.

Lemma trust_keeps_ok s public label recovery s' id :
  len public = 32 -> trust_ok s -> trust s public label recovery = Ok (s', id) -> trust_ok s'.
Proof.
  intros Hlen [Hf Ht Hv Hr]. unfold trust. succeed t Hl. succeed u Hk. destruct t, u. intros [= <- <-].
  split; try done. apply map_Forall_insert_2; [|done]. split; try done.
  exists public, "". split; [by apply decode_encoded|done].
Qed.
Lemma rotation_spec s r s' :
  apply_rotation s r = Ok s' ->
  verify_rotation r = Ok tt /\ names_key r.(kr_new_public_key) r.(kr_new_key_id)
  /\ (exists old, s.(trusted) !! r.(kr_old_key_id) = Some old /\ old.(te_public_key) = r.(kr_old_public_key)
       /\ s'.(trusted) = <[r.(kr_new_key_id) := mkTrustEntry r.(kr_new_key_id) r.(kr_new_public_key) old.(te_label) old.(te_recovery_keys)]>
                            (delete r.(kr_old_key_id) s.(trusted)))
  /\ s'.(ts_format_version) = s.(ts_format_version) /\ s'.(revoked) = s.(revoked) /\ s'.(rotations) = s.(rotations) ++ [r].
Proof.
  unfold apply_rotation. succeed t Hver. destruct t. destruct (trusted s !! _) as [old|] eqn:Hold; [|done]. cbn [ok_or].
  pass Hpk. succeed key Hkey. cbv zeta. pass Hid. bprop. intros [= <-]. cbn. rewrite <- Hid.
  split_and!; try done; [by exists key, "new public key"|]. by exists old.
Qed.
Lemma rotation_keeps_ok s r s' : trust_ok s -> apply_rotation s r = Ok s' -> trust_ok s'.
Proof.
  intros [Hf Ht Hv Hr] (Hver & Hnew & (old & Hold & _ & Htr) & Hf' & Hv' & Hr')%rotation_spec.
  destruct (Ht _ _ Hold) as [_ _ Hl Hk]. split; rewrite ?Hf', ?Hv', ?Htr, ?Hr'; try done.
  - apply map_Forall_insert_2; [done|]. by apply map_Forall_delete.
  - apply Forall_app_2; [done|]. by repeat constructor.
Qed.
Lemma revocation_spec s r s' :
  apply_revocation s r = Ok s' ->
  verify_revocation r = Ok tt
  /\ (exists entry signer, s.(trusted) !! r.(rv_revoked_key_id) = Some entry /\ names_key r.(rv_signer_public_key) signer
        /\ (signer = r.(rv_revoked_key_id) \/ signer ∈ entry.(te_recovery_keys)))
  /\ s' = mkTrustStore s.(ts_format_version) s.(trusted) (<[r.(rv_revoked_key_id) := r]> s.(revoked)) s.(rotations).
Proof.
  unfold apply_revocation. succeed t Hver. destruct t. destruct (trusted s !! _) as [entry|] eqn:He; [|done]. cbn [ok_or].
  succeed key Hkey. cbv zeta. pass Hg. intros [= <-]. split_and!; try done. exists entry, (key_id key).
  split_and!; try done; [by exists key, "revocation signer"|]. apply andb_false_iff in Hg as [Hg|Hg]; bprop; [by left|by right].
Qed.
Lemma revocation_keeps_ok s r s' : trust_ok s -> apply_revocation s r = Ok s' -> trust_ok s'.
Proof.
  intros [Hf Ht Hv Hr] (Hver & _ & ->)%revocation_spec. split; try done. by apply map_Forall_insert_2.
Qed.
Lemma step_keeps_ok s A s' : trust_ok s -> trust_step s A s' -> trust_ok s'.
Proof. intros Hs []; eauto using trust_keeps_ok, rotation_keeps_ok, revocation_keeps_ok. Qed.
Lemma run_keeps_ok s A s' : trust_ok s -> trust_run s A s' -> trust_ok s'.
Proof. intros Hs. induction 1; eauto using step_keeps_ok. Qed.
Lemma new_trust_ok : trust_ok new_trust_store.
Proof. split; [done|apply map_Forall_empty|apply map_Forall_empty|constructor]. Qed.

(** A rotation from one key to another: both are the keys their ids name, and both
    signed it. *)
Definition rotated (l : list KeyRotation) (a b : string) : Prop :=
  exists r, r ∈ l /\ verify_rotation r = Ok tt /\ r.(kr_old_key_id) = a /\ r.(kr_new_key_id) = b
    /\ names_key r.(kr_old_public_key) a /\ names_key r.(kr_new_public_key) b.
Lemma rotated_more l k a b : rtc (rotated l) a b -> rtc (rotated (l ++ k)) a b.
Proof.
  intros H. eapply rtc_subrel; [|exact H]. intros x y (r & Hr & Hrest). exists r. split; [|done].
  apply elem_of_app. by left.
Qed.
Definition provenance (A : gset string) (s : TrustStore) : Prop :=
  forall id entry, s.(trusted) !! id = Some entry -> exists anchor, anchor ∈ A /\ rtc (rotated s.(rotations)) anchor id.
Lemma step_provenance A s B s' : trust_ok s -> provenance A s -> trust_step s B s' -> provenance (A ∪ B) s'.
Proof.
  intros Hok Hp [public label recovery s1 id Hlen Ht|r s1 Hr|r s1 Hr] k entry.
  - revert Ht. unfold trust. succeed t Hl. succeed u Hk. intros [= <- <-]. cbn [trusted rotations].
    intros [[<- _]|[_ H]]%lookup_insert_Some; [exists (key_id public); split; [set_solver|constructor]|].
    destruct (Hp _ _ H) as (anchor & Ha & Hrtc). exists anchor. split; [set_solver|done].
  - apply rotation_spec in Hr as (Hver & Hnew & (old & Hold & Hpk & ->) & _ & _ & ->).
    destruct (ok_trusted _ Hok _ _ Hold) as [_ Hkey _ _]. rewrite Hpk in Hkey.
    intros [[<- _]|[_ [_ H]%lookup_delete_Some]]%lookup_insert_Some.
    + destruct (Hp _ _ Hold) as (anchor & Ha & Hrtc). exists anchor. split; [set_solver|].
      eapply rtc_r; [apply rotated_more, Hrtc|]. exists r. split; [set_solver|done].
    + destruct (Hp _ _ H) as (anchor & Ha & Hrtc). exists anchor. split; [set_solver|]. by apply rotated_more.
  - apply revocation_spec in Hr as (_ & _ & ->). cbn. intros H. destruct (Hp _ _ H) as (anchor & Ha & Hrtc).
    exists anchor. split; [set_solver|done].
Qed.

(** C30: Trust has provenance: in every store that operations lead to from the
    empty one, a trusted key was trusted by the user's own word or descends from
    such a key by rotations of the store, each signed by both its keys; and the
    store is valid exactly when it is within its size limits. *)
Theorem trust_has_provenance (A : gset string) (s : TrustStore) :
  trust_run new_trust_store A s ->
  (validate_trust s = Ok tt <-> trust_sized s)
  /\ forall id entry, s.(trusted) !! id = Some entry ->
       exists anchor, anchor ∈ A /\ rtc (rotated s.(rotations)) anchor id.
Proof.
  intros Hrun. split.
  - rewrite validate_trust_iff. pose proof (run_keeps_ok _ _ _ new_trust_ok Hrun). tauto.
  - change (provenance A s). induction Hrun as [|A s1 B s2 Hrun IH Hstep]; [by intros id entry|].
    eapply step_provenance; [exact (run_keeps_ok _ _ _ new_trust_ok Hrun)|done|done].
Qed.

Lemma run_revoked s A s' k : trust_run s A s' -> is_Some (s.(revoked) !! k) -> is_Some (s'.(revoked) !! k).
Proof.
  induction 1 as [|A s1 B s2 Hrun IH Hstep]; [done|]. intros Hk. specialize (IH Hk).
  destruct Hstep as [public label recovery s2 id Hlen Ht|r s2 Hr|r s2 Hr].
  - revert Ht. unfold trust. succeed t Hl. succeed u Hq. by intros [= <- <-].
  - by apply rotation_spec in Hr as (_ & _ & _ & _ & -> & _).
  - apply revocation_spec in Hr as (_ & _ & ->). cbn. destruct (decide (rv_revoked_key_id r = k)) as [->|Hne].
    + rewrite lookup_insert_eq. by eexists.
    + by rewrite lookup_insert_ne.
Qed.
(** Revocation is permanent: once a key is revoked, no sequence of operations
    on the trust store, trusting the key again included, makes it accept a package
    or any other message signed under that key id. *)
Theorem revocation_is_permanent (s s' : TrustStore) (A : gset string) (k : string) :
  trust_run s A s' -> is_Some (s.(revoked) !! k) ->
  (forall content signature, signature.(ps_key_id) = k -> is_ok (verify_bytes s' content signature) = false)
  /\ (forall public domain message signature, is_ok (verify_trusted_bytes s' k public domain message signature) = false).
Proof.
  intros Hrun Hk. destruct (run_revoked _ _ _ _ Hrun Hk) as [r Hr]. split.
  - intros content signature Hkey. unfold verify_bytes. destruct (validate_trust s'); [|done]. by rewrite Hkey, Hr.
  - intros public domain message signature. unfold verify_trusted_bytes. destruct (validate_trust s'); [|done]. by rewrite Hr.
Qed.

(** A revoked key can still pass its trust on: the rotation of a revoked key
    to any key that is not revoked is accepted, and the new key is then trusted
    and not revoked, with the label and the recovery keys of the old one. *)
Theorem revoked_key_passes_trust_on (s : TrustStore) old new reason r entry :
  s.(trusted) !! developer_key_id old = Some entry -> entry.(te_public_key) = public_key_hex old ->
  is_Some (s.(revoked) !! developer_key_id old) -> s.(revoked) !! developer_key_id new = None ->
  developer_key_id old <> developer_key_id new -> create_rotation old new reason = Ok r ->
  exists s', apply_rotation s r = Ok s' /\ s'.(revoked) !! developer_key_id new = None
    /\ s'.(trusted) !! developer_key_id new
       = Some (mkTrustEntry (developer_key_id new) (public_key_hex new) entry.(te_label) entry.(te_recovery_keys)).
Proof.
  intros He Hpk _ Hnew Hne Hr. pose proof (created_rotation_verifies _ _ _ _ Hr Hne) as Hver.
  assert (r.(kr_old_key_id) = developer_key_id old /\ r.(kr_old_public_key) = public_key_hex old
          /\ r.(kr_new_key_id) = developer_key_id new /\ r.(kr_new_public_key) = public_key_hex new) as (H1 & H2 & H3 & H4).
  { revert Hr. unfold create_rotation. succeed t Hl. succeed pay Hp. by intros [= <-]. }
  unfold apply_rotation. rewrite Hver, H1, He. cbn [ok_or]. rewrite Hpk, H2, bool_decide_eq_true_2 by done. cbn [negb].
  rewrite H4. unfold public_key_hex at 1. rewrite decode_encoded by apply public_key_len. cbv zeta.
  rewrite H3, bool_decide_eq_true_2 by done. cbn [negb]. eexists. split; [done|]. cbn. split; [done|].
  by rewrite lookup_insert_eq.
Qed.
End Trust.

(** ** Concrete keys

    A scheme whose only signature is 64 zero bytes, and keys that are told apart by
    a checksum. *)
Definition toy_signatures : Ed25519.
Proof.
  refine {| ed_public := fun s => default x00 (head (checksum s)) :: replicate 31 x00; ed_valid_key := fun _ => true; ed_sign := fun _ _ => replicate 64 x00;
            ed_verify := fun _ _ s => bool_decide (s = replicate 64 x00) |}.
  - done.
  - done.
  - done.
  - intros s m. by apply bool_decide_eq_true_2.
Defined.
Section IdentityWitness.
#[local] Existing Instance demo_externals.
#[local] Existing Instance demo_hex.
#[local] Existing Instance demo_semver.
#[local] Existing Instance toy_url.
#[local] Existing Instance toy_toml.
#[local] Existing Instance toy_zip.
#[local] Existing Instance toy_signatures.
#[local] Instance identity_json : Json PackageIdentity := demo_json.
#[local] Instance rotation_json : Json RotationPayload := demo_json.
#[local] Instance revocation_json : Json RevocationPayload := demo_json.
#[local] Instance attestation_json : Json AttestationPayload := demo_json.
Definition first_key : DeveloperKey := mkDeveloperKey (replicate 32 x01).
Definition second_key : DeveloperKey := mkDeveloperKey (replicate 32 x02).
Definition first_entry : TrustEntry := mkTrustEntry (developer_key_id first_key) (public_key_hex first_key) "first" ∅.
Definition first_trusted : TrustStore := mkTrustStore 1 {[developer_key_id first_key := first_entry]} ∅ [].
Definition first_revocation : RevocationRecord :=
  mkRevocation 1 (developer_key_id first_key) (public_key_hex first_key) "stolen" (hex_encode (replicate 64 x00)).
Definition first_revoked : TrustStore :=
  mkTrustStore 1 {[developer_key_id first_key := first_entry]} {[developer_key_id first_key := first_revocation]} [].
Definition packed_signature : PackageSignature :=
  mkPackageSignature 1 "ed25519" (developer_key_id first_key) (public_key_hex first_key)
    (mkPackageIdentity "dev.example.app" "1.2.0" (hex_sha256 [x50; x4b]) 2 (hex_sha256 wasm_component)
       packed_manifest.(integrity).(assets_root_sha256)) (hex_encode (replicate 64 x00)).

Lemma signed_messages_are_separate_witness : framed_payload PACKAGE_DOMAIN [x01] <> framed_payload ROTATION_DOMAIN [x01].
Proof.
  intros H. assert (0%nat = 1%nat /\ [x01] = [x01]) as [? _]; [|done].
  by apply (signed_messages_are_separate 0 1 PACKAGE_DOMAIN ROTATION_DOMAIN [x01] [x01]).
Defined.
Lemma signed_package_is_accepted_witness : verify_bytes first_trusted [x50; x4b] packed_signature = Ok packed_signature.(ps_identity).
Proof.
  destruct (signed_package_is_accepted first_trusted first_key [x50; x4b] packed_signature first_entry) as [H _];
    [vm_compute; reflexivity..|exact H].
Defined.
Lemma accepted_package_is_signed_witness : exists archive, open_bytes [x50; x4b] = Ok archive.
Proof.
  destruct (accepted_package_is_signed first_trusted [x50; x4b] packed_signature packed_signature.(ps_identity)) as (_ & _ & _ & (a & H & _) & _).
  - vm_compute. reflexivity.
  - by exists a.
Defined.
Lemma first_run : trust_run new_trust_store ({[developer_key_id first_key]} ∪ ∅) first_revoked.
Proof.
  apply (run_next _ _ first_trusted).
  - replace {[developer_key_id first_key]} with (∅ ∪ {[developer_key_id first_key]} : gset string) by set_solver.
    apply (run_next _ _ new_trust_store); [constructor|].
    apply (step_trust _ (public_key first_key) "first" ∅); vm_compute; reflexivity.
  - apply (step_revoke _ first_revocation). vm_compute. reflexivity.
Qed.
Lemma trust_has_provenance_witness :
  exists anchor, anchor ∈ ({[developer_key_id first_key]} ∪ ∅ : gset string)
    /\ rtc (rotated first_revoked.(rotations)) anchor (developer_key_id first_key).
Proof.
  destruct (trust_has_provenance _ _ first_run) as [_ H]. apply (H _ first_entry). vm_compute. reflexivity.
Defined.
Lemma revocation_is_permanent_witness : is_ok (verify_bytes first_revoked [x50; x4b] packed_signature) = false.
Proof.
  destruct (revocation_is_permanent first_revoked first_revoked ∅ (developer_key_id first_key)) as [H _].
  - constructor.
  - exists first_revocation. vm_compute. reflexivity.
  - apply H. reflexivity.
Defined.
Lemma revoked_key_passes_trust_on_witness :
  exists r s', create_rotation first_key second_key "new laptop" = Ok r /\ apply_rotation first_revoked r = Ok s'
    /\ s'.(revoked) !! developer_key_id second_key = None.
Proof.
  destruct (create_rotation first_key second_key "new laptop") as [r|] eqn:Hr; [|vm_compute in Hr; discriminate].
  destruct (revoked_key_passes_trust_on first_revoked first_key second_key "new laptop" r first_entry) as (s' & Hs & Hn & _).
  - vm_compute. reflexivity.
  - vm_compute. reflexivity.
  - exists first_revocation. vm_compute. reflexivity.
  - vm_compute. reflexivity.
  - intros H. apply (f_equal (fun s => bool_decide (s = developer_key_id second_key))) in H. vm_compute in H. discriminate.
  - exact Hr.
  - by exists r, s'.
Defined.
End IdentityWitness.

(** * Replacing a JSON document

    The writer that the registry and the updater share: whatever calls fail and
    wherever the process dies, a reader that falls back to the backup sees the old
    document or the new one. *)
From stdpp Require Import pretty.
From S2P Require Import IdentityFiles.

Lemma app_inj_str (a b c : string) : a +:+ b = a +:+ c -> b = c.
Proof. induction a as [|x a IH]; [done|]. rewrite !app_cons_str. intros [= H]. by apply IH. Qed.

Section Replace.
Context (d0 : Disk) (path : Path) (content : bytes).
#[local] Notation backup := (backup_of path).

(** A temporary name of the document *)
Definition beside (t : Path) : Prop :=
  t.1 = path.1 /\ exists middle, t.2 = path.2 +:+ "." +:+ middle +:+ ".tmp".
Definition other_directories (d : Disk) : Prop := forall q, q.1 <> path.1 -> read_path d q = read_path d0 q.
(** A reader sees what it saw, or sees the new document. *)
Definition kept (d : Disk) : Prop := other_directories d /\ visible d path = visible d0 path.
Definition written (d : Disk) : Prop := other_directories d /\ visible d path = Some content.
Definition kept_or_written (d : Disk) : Prop := kept d \/ written d.

Lemma backup_not_path : backup <> path.
Proof. apply backup_ne. Qed.
Lemma beside_ne t : beside t -> t <> path /\ t <> backup.
Proof.
  intros [_ [middle Hm]]. split; intros ->.
  - symmetry in Hm. by apply append_ne in Hm.
  - unfold backup_of in Hm. cbn in Hm. apply app_inj_str in Hm.
    pose proof (ends_with_app ("." +:+ middle) ".tmp") as He. rewrite <- app_assoc_str, <- Hm in He. by vm_compute in He.
Qed.
Lemma others_write d t c : t.1 = path.1 -> other_directories d -> other_directories (write_path d t c).
Proof. intros Ht Hd q Hq. rewrite read_write_ne; [by apply Hd|congruence]. Qed.
Lemma others_remove d t : t.1 = path.1 -> other_directories d -> other_directories (remove_path d t).
Proof. intros Ht Hd q Hq. rewrite read_remove_ne; [by apply Hd|congruence]. Qed.
Lemma others_rename d t u c : t.1 = path.1 -> u.1 = path.1 -> other_directories d -> other_directories (write_path (remove_path d t) u c).
Proof. intros. by apply others_write, others_remove. Qed.

(** What the steps need to know of the three files *)
Record holds (t : Path) (p b s : option bytes) (d : Disk) : Prop := {
  h_others : other_directories d;
  h_path : read_path d path = p;
  h_backup : read_path d backup = b;
  h_temp : read_path d t = s;
}.
Lemma holds_visible t p b s d : holds t p b s d -> visible d path = match p with Some c => Some c | None => b end.
Proof. intros [_ Hp Hb _]. unfold visible. by rewrite Hp, Hb. Qed.
Lemma holds_kept t p b s d : holds t p b s d -> match p with Some c => Some c | None => b end = visible d0 path -> kept d.
Proof. intros H Hv. split; [apply H|]. by rewrite (holds_visible _ _ _ _ _ H). Qed.
Lemma holds_written t p b s d : holds t p b s d -> match p with Some c => Some c | None => b end = Some content -> written d.
Proof. intros H Hv. split; [apply H|]. by rewrite (holds_visible _ _ _ _ _ H). Qed.

Context (t : Path) (Ht : beside t).
Lemma temp_not_path : t <> path.
Proof. by apply beside_ne. Qed.
Lemma temp_not_backup : t <> backup.
Proof. by apply beside_ne. Qed.
Lemma temp_dir : t.1 = path.1.
Proof. apply Ht. Qed.
Lemma holds_write_temp p b s d c : is_Some (d !! path.1) -> holds t p b s d -> holds t p b (Some c) (write_path d t c).
Proof.
  intros Hdir [Ho Hp Hb Hs]. pose proof temp_not_path. pose proof temp_not_backup. pose proof temp_dir as Hd. split.
  - by apply others_write.
  - by rewrite read_write_ne.
  - by rewrite read_write_ne.
  - apply read_write_eq. by rewrite Hd.
Qed.

(** Staging: whatever happens, the document and its backup stay. *)
Lemma write_new_triple_beside p b :
  triple (fun d => exists s, holds t p b s d) (write_bytes_new t content)
    (fun r d => match r with Ok _ => holds t p b (Some content) d | Err _ => exists s, holds t p b s d end)
    (fun d => exists s, holds t p b s d).
Proof.
  unfold write_bytes_new. apply (triple_bind _ _ _ (fun _ d => is_Some (d !! path.1) /\ exists s, holds t p b s d)).
  { apply triple_syscall; [|intros d n [s Hd]; split; by exists s]. intros d [s Hd].
    destruct (d !! t.1) as [x|] eqn:Hx; [|by exists s]. rewrite temp_dir in Hx.
    destruct (is_some _); [by exists s|]. split; [apply is_dir_write; by exists x|]. exists (Some []).
    apply (holds_write_temp p b s); [by exists x|done]. }
  intros _. apply (triple_bind _ _ _ (fun _ d => holds t p b (Some content) d)).
  - apply triple_syscall.
    + intros d [Hdir [s Hd]]. by apply (holds_write_temp p b s).
    + intros d n [Hdir [s Hd]]. split; eexists; by apply (holds_write_temp p b s).
  - intros _. apply triple_syscall; [done|]. intros d n Hd. split; by eexists.
Qed.

(** The old document becomes the backup. *)
Lemma remove_backup_triple (q : option bytes) old s :
  triple (holds t (Some old) q s) (remove_if_present backup)
    (fun r d => match r with Ok _ => holds t (Some old) None s d | Err _ => exists q, holds t (Some old) q s d end)
    (fun d => exists q, holds t (Some old) q s d).
Proof.
  unfold remove_if_present. apply (triple_bind _ _ _ (fun present d => present = is_some q /\ holds t (Some old) q s d)).
  { apply triple_exists. intros d Hd. by rewrite (h_backup _ _ _ _ _ Hd). }
  intros present. apply triple_pure. intros ->. destruct q as [c|]; cbn [is_some is_none negb]; [|by apply triple_ret].
  apply triple_syscall; [|intros d n Hd; split; by exists (Some c)]. intros d [Ho Hp Hb Hs]. rewrite Hb. cbn [is_some is_none negb]. split.
  - by apply others_remove.
  - rewrite read_remove_ne; [done|apply backup_not_path].
  - apply read_remove_eq.
  - rewrite read_remove_ne; [done|]. intros H. symmetry in H. by apply temp_not_backup in H.
Qed.
Lemma save_triple old s :
  triple (holds t (Some old) None s) (rename path backup)
    (fun r d => match r with Ok _ => holds t None (Some old) s d | Err _ => holds t (Some old) None s d end)
    (holds t (Some old) None s).
Proof.
  apply triple_syscall; [|done]. intros d [Ho Hp Hb Hs]. rewrite Hp. split.
  - by apply others_rename.
  - rewrite read_write_ne; [apply read_remove_eq|apply backup_not_path].
  - apply read_write_eq. apply is_dir_remove. by apply (read_Some_dir _ path old).
  - rewrite read_write_ne, read_remove_ne; [done| |]; intros H; symmetry in H; [by apply temp_not_path in H|by apply temp_not_backup in H].
Qed.
(** The new document takes its place. *)
Lemma place_document_triple p q :
  triple (holds t p q (Some content)) (rename t path)
    (fun r d => match r with Ok _ => holds t (Some content) q None d | Err _ => holds t p q (Some content) d end)
    (holds t p q (Some content)).
Proof.
  apply triple_syscall; [|done]. intros d [Ho Hp Hb Hs]. rewrite Hs. split.
  - apply others_rename; [apply temp_dir|done..].
  - apply read_write_eq. apply is_dir_remove. rewrite <- temp_dir. by apply (read_Some_dir _ t content).
  - rewrite read_write_ne, read_remove_ne; [done|apply temp_not_backup|]. intros H. symmetry in H. by apply backup_not_path in H.
  - rewrite read_write_ne; [apply read_remove_eq|]. intros H. symmetry in H. by apply temp_not_path in H.
Qed.
(** Giving up: the backup is put back and the temporary file removed, as far as
    that works. *)
Lemma restore_backup_triple q :
  triple (holds t None q (Some content)) (attempt (rename backup path))
    (fun r d => holds t q None (Some content) d \/ holds t None q (Some content) d) (holds t None q (Some content)).
Proof.
  apply triple_attempt, triple_syscall; [|intros d n Hd; split; [by right|done]].
  intros d [Ho Hp Hb Hs]. destruct q as [c|]; rewrite Hb; [|by right]. left. split.
  - by apply others_rename.
  - apply read_write_eq. apply is_dir_remove. by apply (read_Some_dir _ backup c).
  - rewrite read_write_ne; [apply read_remove_eq|]. intros H. symmetry in H. by apply backup_not_path in H.
  - rewrite read_write_ne, read_remove_ne; [done| |]; intros H; symmetry in H; [by apply temp_not_backup in H|by apply temp_not_path in H].
Qed.
Lemma discard_temp_triple : triple kept (discard t) (fun _ => kept) kept.
Proof.
  unfold discard. apply (triple_bind _ _ _ (fun _ => kept)); [|intros _; by apply triple_ret].
  apply triple_attempt, triple_syscall; [|done]. intros d [Ho Hv]. destruct (is_some _); [|done].
  split; [by apply others_remove; [apply temp_dir|]|]. unfold visible in *.
  by rewrite !read_remove_ne by (apply temp_not_path || apply temp_not_backup).
Qed.
Lemma drop_backup_triple q s :
  triple (holds t (Some content) q s) (remove_if_present backup) (fun _ => written) written.
Proof.
  eapply triple_weaken; [apply remove_backup_triple|done| |].
  - intros [u|e] d; [intros Hd|intros [q' Hd]]; by eapply holds_written.
  - intros d [q' Hd]. by eapply holds_written.
Qed.
End Replace.
