(* ===== verification/RegistryTheorems.v ===== *)
(** * Theorems about the package registry

    Publishing survives a crash at any system call, versions are immutable and the
    log only grows; the last hash of a log binds the whole registry; and an audit
    that succeeds has seen every package. *)
From stdpp Require Import pretty.
From S2P Require Import Prelude Text Core Storage Snapshot Directory Blob BlobTheorems Network NetworkTheorems Manifest ManifestTheorems Files Archive ArchiveTheorems Identity IdentityFiles IdentityTheorems Registry.

(** ** Replacing the index *)
Section AtomicJson.
Context {T : Type} `{Json T} (d0 : Disk) (path : Path) (value : T).

Definition replaced_by (d : Disk) : Prop := exists content, to_vec value = Ok content /\ written d0 path content d.
Definition replace_result (r : result string unit) (d : Disk) : Prop :=
  (kept d0 path d \/ replaced_by d) /\ (r = Ok tt -> replaced_by d).
Definition replace_crash (d : Disk) : Prop := kept d0 path d \/ replaced_by d.
Lemma result_kept e d : kept d0 path d -> replace_result (Err e) d.
Proof. intros Hd. split; [by left|discriminate]. Qed.
Lemma result_replaced r d : replaced_by d -> replace_result r d.
Proof. intros Hd. split; [by right|done]. Qed.

Context (content : bytes) (Hcontent : to_vec value = Ok content).
Context (t : Path) (Ht : beside path t).
#[local] Abbreviation before := (holds d0 path t).
Lemma before_kept p b s d : before p b s d -> match p with Some c => Some c | None => b end = visible d0 path -> kept d0 path d.
Proof. apply holds_kept. Qed.
(** The old document is out of the way. *)
Lemma clear_triple :
  triple (before (read_path d0 path) (read_path d0 (backup_of path)) (Some content))
    (do? present := exists_file path in
     if present : bool then remove_if_present (backup_of path) ;;? rename path (backup_of path) else ret tt)
    (fun r d => match r with Ok _ => before None (visible d0 path) (Some content) d | Err e => replace_result (Err e) d end)
    replace_crash.
Proof.
  assert (forall d q s old, read_path d0 path = Some old -> before (Some old) q s d -> kept d0 path d) as Hk.
  { intros d q s old Hp Hd. eapply before_kept; [exact Hd|]. unfold visible. by rewrite Hp. }
  apply (triple_bind _ _ _ (fun present d => present = is_some (read_path d0 path)
           /\ before (read_path d0 path) (read_path d0 (backup_of path)) (Some content) d)).
  { apply triple_exists. intros d Hd. by rewrite (h_path _ _ _ _ _ _ _ Hd). }
  intros present. apply triple_pure. intros ->. destruct (read_path d0 path) as [old|] eqn:Hp; cbn [is_some is_none negb].
  - apply (triple_bind _ _ _ (fun _ => before (Some old) None (Some content))).
    + eapply triple_weaken; [by apply remove_backup_triple|done| |].
      * intros [[]|e] d; [done|]. intros [q Hd]. by eapply result_kept, Hk.
      * intros d [q Hd]. left. by eapply Hk.
    + intros []. eapply triple_weaken; [by apply save_triple|done| |].
      * intros [u|e] d Hd; [unfold visible; by rewrite Hp|]. by eapply result_kept, Hk.
      * intros d Hd. left. by eapply Hk.
  - apply triple_ret. intros d Hd. unfold visible. by rewrite Hp.
Qed.
Lemma place_triple_json :
  triple (before None (visible d0 path) (Some content))
    (do? renamed := attempt (rename t path) in
     match renamed with
     | Err error =>
         do? saved := exists_file (backup_of path) in
         (if saved : bool then attempt (rename (backup_of path) path) ;;? ret tt else ret tt) ;;?
         discard t ;;? fail error
     | Ok _ => remove_if_present (backup_of path) ;;? sync_parent_directory
     end) replace_result replace_crash.
Proof.
  assert (forall d, before None (visible d0 path) (Some content) d -> kept d0 path d) as Hk.
  { intros d Hd. by eapply before_kept. }
  assert (forall d, written d0 path content d -> replaced_by d) as Hw by (intros d Hd; by exists content).
  apply (triple_bind _ _ _ (fun r d => match r with
                                       | Ok _ => before (Some content) (visible d0 path) None d
                                       | Err _ => before None (visible d0 path) (Some content) d
                                       end)).
  { apply triple_attempt. eapply triple_weaken; [by apply place_document_triple|done|by intros r d Hd|].
    intros d Hd. left. by apply Hk. }
  intros [[]|e].
  - apply (triple_bind _ _ _ (fun _ => written d0 path content)).
    + eapply triple_weaken; [by apply drop_backup_triple|done| |].
      * intros [u|e] d Hd; [done|]. by apply result_replaced, Hw.
      * intros d Hd. right. by apply Hw.
    + intros _. apply triple_syscall; [intros d Hd|intros d n Hd; split; [|right]]; try apply result_replaced; by apply Hw.
  - apply (triple_bind _ _ _ (fun saved d => before None (visible d0 path) (Some content) d)); [by apply triple_exists|].
    intros saved. apply (triple_bind _ _ _ (fun _ => kept d0 path)).
    + destruct saved; [|apply triple_ret; by apply Hk].
      apply (triple_bind _ _ _ (fun _ => kept d0 path)); [|intros _; by apply triple_ret].
      eapply triple_weaken; [by apply restore_backup_triple|done| |intros d Hd; left; by apply Hk].
      intros r d [Hd|Hd]; (enough (kept d0 path d) by (destruct r; [done|by apply result_kept])); [|by apply Hk].
      eapply before_kept; [exact Hd|]. by destruct (visible d0 path).
    + intros _. apply (triple_bind _ _ _ (fun _ => kept d0 path)).
      * eapply triple_weaken; [by apply discard_temp_triple|done| |by left]. intros [u|e'] d Hd; [done|by apply result_kept].
      * intros _. apply triple_fail. intros d. apply result_kept.
Qed.
End AtomicJson.
Lemma triple_assoc {A B C : Type} P (m : IO A) (k : A -> IO B) (k' : B -> IO C) Q D :
  triple P (do? b := (do? a := m in k a) in k' b) Q D -> triple P (do? a := m in do? b := k a in k' b) Q D.
Proof.
  intros H w Hw. specialize (H w Hw). unfold bind in *. by destruct (m w) as [w1 [[a|e]|]].
Qed.
Lemma json_replace_triple {T : Type} `{Json T} (d0 : Disk) (path : Path) (value : T) :
  triple (fun d => d = d0) (atomic_json_replace path value) (replace_result d0 path value) (replace_crash d0 path value).
Proof.
  assert (kept d0 path d0) as Hk0 by done. intros w Hw. unfold atomic_json_replace. unfold bind at 1, lift.
  destruct (to_vec value) as [content|e] eqn:Hc; [|apply result_kept; by rewrite Hw].
  destruct (_ <? len content) eqn:Hsize; [apply result_kept; by rewrite Hw|].
  unfold bind at 1, json_temporary, bind at 1, fetch_sequence, bind at 1, get_process_id, ret at 1. cbn [process_id].
  set (t := (path.1, path.2 +:+ "." +:+ pretty (process_id w) +:+ "-" +:+ pretty (sequence w) +:+ ".tmp")).
  set (w1 := mkWorld _ _ _ _).
  assert (beside path t) as Ht.
  { split; [done|]. exists (pretty (process_id w) +:+ "-" +:+ pretty (sequence w)). cbn. by rewrite <- !app_assoc_str. }
  assert (disk w1 = d0) as Hw1 by exact Hw. clearbody w1 t. clear Hw w. rename w1 into w, Hw1 into Hw. revert w Hw.
  match goal with |- forall w, _ -> match ?m w with _ => _ end =>
    enough (triple (fun d => d = d0) m (replace_result d0 path value) (replace_crash d0 path value)) as Hm by exact Hm end.
  set (p0 := read_path d0 path). set (b0 := read_path d0 (backup_of path)).
  assert (forall d s, holds d0 path t p0 b0 s d -> kept d0 path d) as Hk by (intros d s Hd; by eapply before_kept).
  apply (triple_bind _ _ _ (fun _ d => holds d0 path t p0 b0 (Some content) d)).
  { intros w Hw. unfold write_json_new, bind at 1, lift. rewrite Hc, Hsize.
    assert (exists s, holds d0 path t p0 b0 s (disk w)) as Hstart by (exists (read_path d0 t); by rewrite Hw).
    pose proof (write_new_triple_beside d0 path content t Ht p0 b0 w Hstart) as Hm.
    destruct (write_bytes_new t content w) as [w' [[u|e]|]]; [done| |left]; destruct Hm as [s Hm]; [apply result_kept|]; by eapply Hk. }
  intros _. apply triple_assoc. apply (triple_bind _ _ _ (fun _ => holds d0 path t None (visible d0 path) (Some content))).
  - by apply clear_triple.
  - intros _. by apply place_triple_json.
Qed.

(** ** Publishing *)
Lemma write_bytes_new_stable (P : Disk -> Prop) path content :
  (forall d c, P d -> P (write_path d path c)) ->
  triple P (write_bytes_new path content) (fun r d => P d /\ (r = Ok tt -> read_path d path = Some content)) P.
Proof.
  intros HP. unfold write_bytes_new. apply (triple_bind _ _ _ (fun _ d => P d /\ is_Some (d !! path.1))).
  { apply triple_syscall; [|intros d n Hd; split; [by split|done]]. intros d Hd.
    destruct (d !! path.1) as [x|] eqn:Hx; [|by split]. destruct (is_some _); [by split|].
    split; [by apply HP|]. apply is_dir_write. by exists x. }
  intros _. apply (triple_bind _ _ _ (fun _ d => P d /\ read_path d path = Some content)).
  - apply triple_syscall.
    + intros d [Hd Hx]. split; [by apply HP|by apply read_write_eq].
    + intros d n [Hd _]. split; [split; [by apply HP|discriminate]|by apply HP].
  - intros _. apply triple_syscall; [intros d [Hd Hr]; by split|]. intros d n [Hd _]. split; [split; [done|discriminate]|done].
Qed.

Section Publish.
Context `{Ext : Externals} `{Hex : HexDecode} `{SV : !Semver} `{UC : UrlCrate} `{ZC : !ZipCrate} `{TC : !TomlCrate} `{ED : !Ed25519}.
Context `{JI : Json PackageIdentity} `{JR : Json RotationPayload} `{JV : Json RevocationPayload}.
Context `{JS : Json PackageSignature} `{DS : JsonDecode PackageSignature}.
Context `{JX : Json RegistryIndex} `{DX : JsonDecode RegistryIndex} `{JT : Json TransparencyPayload}.

Lemma published_insert index v id version :
  published_version (insert_version index v) id version
  = if decide (id = v.(rg_identity).(id_cartridge_id) /\ version = v.(rg_identity).(id_version)) then Some v
    else published_version index id version.
Proof.
  unfold published_version, insert_version. cbn [packages].
  destruct (decide (id = v.(rg_identity).(id_cartridge_id))) as [->|Hid].
  - rewrite lookup_insert_eq. cbn. destruct (decide (version = v.(rg_identity).(id_version))) as [->|Hv].
    + rewrite lookup_insert_eq, decide_True; done.
    + rewrite lookup_insert_ne by done. rewrite decide_False by naive_solver.
      destruct (packages index !! _); [done|]. apply lookup_empty.
  - rewrite lookup_insert_ne, decide_False by naive_solver. done.
Qed.
(** One more version: the others stay, and the log has one more entry. *)
Definition extended (index : RegistryIndex) (v : RegistryVersion) (index' : RegistryIndex) : Prop :=
  (forall id version x, published_version index id version = Some x -> published_version index' id version = Some x)
  /\ published_version index' v.(rg_identity).(id_cartridge_id) v.(rg_identity).(id_version) = Some v
  /\ exists entry, index'.(transparency) = index.(transparency) ++ [entry]
       /\ log_key entry = (v.(rg_identity).(id_cartridge_id), v.(rg_identity).(id_version), v.(rg_identity).(id_package_sha256), v.(rg_key_id)).
Lemma insert_keeps index v id version x :
  published_version index v.(rg_identity).(id_cartridge_id) v.(rg_identity).(id_version) = None ->
  published_version index id version = Some x -> published_version (insert_version index v) id version = Some x.
Proof. intros Hn Hx. rewrite published_insert. destruct (decide _) as [[-> ->]|]; [congruence|done]. Qed.
Lemma append_extends index v index' :
  published_version index v.(rg_identity).(id_cartridge_id) v.(rg_identity).(id_version) = None ->
  append_transparency (insert_version index v) v.(rg_identity) v.(rg_key_id) = Ok index' -> extended index v index'.
Proof.
  intros Hn. unfold append_transparency. pass Hlim. cbv zeta. succeed hash Hh. intros [= <-]. split_and!.
  - intros id version x Hx. by apply (insert_keeps index v).
  - pose proof (published_insert index v (id_cartridge_id (rg_identity v)) (id_version (rg_identity v))) as Hp.
    by rewrite decide_True in Hp.
  - by eexists.
Qed.

(** The objects only grow, and nothing else changes. *)
Definition grown (root : string) (d0 d : Disk) : Prop :=
  (forall q c, q.1 = objects root -> read_path d0 q = Some c -> read_path d q = Some c)
  /\ (forall q, q.1 <> objects root -> read_path d q = read_path d0 q).
Lemma grown_write root d0 d q c : q.1 = objects root -> read_path d0 q = None -> grown root d0 d -> grown root d0 (write_path d q c).
Proof.
  intros Hq Hn [Hg Ho]. split.
  - intros q' c' Hq' Hc'. rewrite read_write_ne; [by apply Hg|]. congruence.
  - intros q' Hq'. rewrite read_write_ne; [by apply Ho|]. congruence.
Qed.
Lemma grown_absent root d0 d q : q.1 = objects root -> grown root d0 d -> read_path d q = None -> read_path d0 q = None.
Proof. intros Hq [Hg _] Hn. destruct (read_path d0 q) as [c|] eqn:Hc; [|done]. rewrite (Hg _ _ Hq Hc) in Hn. done. Qed.
Lemma object_not_signature root sha : registry_object root sha <> signature_path root sha.
Proof. intros [= H]. apply app_inj_str in H. done. Qed.

Definition stored (root : string) (trust : TrustStore) signature (v : RegistryVersion) (d : Disk) : Prop :=
  exists content, read_path d (registry_object root v.(rg_identity).(id_package_sha256)) = Some content
    /\ hex_sha256 content = v.(rg_identity).(id_package_sha256)
    /\ verify_bytes trust content signature = Ok v.(rg_identity).
Definition prepared (r : Registry) (trust : TrustStore) signature (x : RegistryVersion + RegistryVersion) (d : Disk) : Prop :=
  match x with
  | inl v => exists content identity, verify_bytes trust content signature = Ok identity
               /\ published_version r.(rg_index) identity.(id_cartridge_id) identity.(id_version) = Some v
               /\ v.(rg_identity).(id_package_sha256) = identity.(id_package_sha256)
  | inr v => published_version r.(rg_index) v.(rg_identity).(id_cartridge_id) v.(rg_identity).(id_version) = None
             /\ v.(rg_key_id) = signature.(ps_key_id) /\ stored r.(rg_root) trust signature v d
  end.
Lemma accepted_identity trust content signature identity :
  verify_bytes trust content signature = Ok identity -> hex_sha256 content = identity.(id_package_sha256).
Proof.
  unfold verify_bytes. succeed t Hv. destruct (is_some _); [done|]. destruct (trusted trust !! _); [|done]. cbn [ok_or]. pass Hk.
  succeed idn Hid. succeed u Hu. intros [= <-]. symmetry. by apply (package_identity_valid content idn).
Qed.
Lemma store_object_triple root d0 object content :
  object.1 = objects root ->
  triple (fun d => d = d0)
    (do? present := exists_file object in
     if present : bool then
       do? stored := read_bounded object MAX_PACKAGE_BYTES in
       if negb (bool_decide (stored = content)) then fail "registry object does not match its content address" else ret tt
     else write_bytes_new object content)
    (fun r d => grown root d0 d /\ (r = Ok tt -> read_path d object = Some content)) (grown root d0).
Proof.
  intros Hobj. assert (grown root d0 d0) as H0 by done.
  intros w Hw. unfold bind at 1, exists_file. rewrite Hw. destruct (read_path d0 object) as [c|] eqn:Hc; cbn [is_some is_none negb].
  - unfold read_bounded, read_file, bind, ret, fail. rewrite Hw, Hc. cbn [ok_or].
    destruct (_ <? len c); [by cbn; rewrite Hw|]. destruct (bool_decide (c = content)) eqn:He; cbn; rewrite Hw; [|by split].
    bprop. subst c. by split.
  - pose proof (write_bytes_new_stable (grown root d0) object content) as Ht.
    apply (Ht ltac:(intros d c'; by apply grown_write) w). by rewrite Hw.
Qed.
Lemma store_signature_triple root d0 sha content (signature : PackageSignature) :
  triple (fun d => grown root d0 d /\ read_path d (registry_object root sha) = Some content)
    (do? signed := exists_file (signature_path root sha) in
     if negb signed then write_json_new (signature_path root sha) signature else ret tt)
    (fun _ d => grown root d0 d /\ read_path d (registry_object root sha) = Some content)
    (fun d => grown root d0 d /\ read_path d (registry_object root sha) = Some content).
Proof.
  set (path := signature_path root sha). intros w Hw. unfold bind at 1, exists_file.
  destruct (read_path (disk w) path) as [c|] eqn:Hc; cbn [is_some is_none negb]; [done|].
  unfold write_json_new, bind at 1, lift. destruct (to_vec signature) as [bytes|e]; [|done].
  destruct (_ <? len bytes); [done|].
  assert (read_path d0 path = None) as Hn. { destruct Hw as [Hg _]. by apply (grown_absent root d0 (disk w)). }
  pose proof (write_bytes_new_stable (fun d => grown root d0 d /\ read_path d (registry_object root sha) = Some content) path bytes) as Ht.
  specialize (Ht ltac:(intros d c [Hg Ho]; split; [by apply grown_write|]; rewrite read_write_ne; [done|];
                       intros H; symmetry in H; by apply object_not_signature in H) w Hw).
  destruct (write_bytes_new path bytes w) as [w' [r|]]; [apply Ht|done].
Qed.
Lemma prepare_publish_triple (r : Registry) package signature trust now_ms d0 :
  triple (fun d => d = d0) (prepare_publish r package signature trust now_ms)
    (fun x d => grown r.(rg_root) d0 d /\ match x with Ok x => prepared r trust signature x d | Err _ => True end)
    (grown r.(rg_root) d0).
Proof.
  assert (grown r.(rg_root) d0 d0) as H0 by done. intros w Hw. unfold prepare_publish.
  unfold bind at 1, read_bounded at 1, read_file at 1, bind at 1. destruct (ok_or _ _) as [content|e] eqn:Hc; [|by cbn; rewrite Hw].
  destruct (_ <? len content); [by cbn; rewrite Hw|]. unfold ret at 1, bind at 1, lift at 1.
  destruct (verify_bytes trust content signature) as [identity|e] eqn:Hv; [|by cbn; rewrite Hw].
  destruct (_ <=? version_count _); [by cbn; rewrite Hw|].
  destruct (published_version _ _ _) as [existing|] eqn:Hp.
  { destruct (bool_decide _) eqn:He; cbn; rewrite Hw; [|done]. bprop. split; [done|]. by exists content, identity. }
  set (object := registry_object (rg_root r) (id_package_sha256 identity)).
  revert w Hw Hc. clear H0. intros w Hw _. revert w Hw.
  match goal with |- forall w, _ -> match ?m w with _ => _ end =>
    enough (triple (fun d => d = d0) m
      (fun x d => grown r.(rg_root) d0 d /\ match x with Ok x => prepared r trust signature x d | Err _ => True end)
      (grown r.(rg_root) d0)) as Hm by exact Hm end.
  apply triple_assoc. apply (triple_bind _ _ _ (fun _ d => grown (rg_root r) d0 d /\ read_path d object = Some content)).
  { eapply triple_weaken; [by apply (store_object_triple (rg_root r) d0 object content)|done| |done].
    intros [[]|e] d [Hg Hok]; [|by split]. by split; [|apply Hok]. }
  intros _. apply triple_assoc. apply (triple_bind _ _ _ (fun _ d => grown (rg_root r) d0 d /\ read_path d object = Some content)).
  { eapply triple_weaken; [apply (store_signature_triple (rg_root r) d0 (id_package_sha256 identity) content signature)|done| |by intros d [Hg _]].
    intros [[]|e] d Hd; [done|by destruct Hd]. }
  intros _ w [Hg Ho]. unfold bind at 1, read_file. fold object in Ho. rewrite Ho. cbn [ok_or]. unfold bind, lift, ret.
  destruct (map_err _ _) as [archive|e]; [|done]. destruct now_ms as [now|e]; [|done]. split; [done|].
  split; [done|]. split; [done|]. exists content. cbn. by rewrite (accepted_identity trust content signature identity).
Qed.

End Publish.

(** ** The log binds the registry *)
Section Log.
Context `{Ext : Externals} `{Hex : HexDecode} `{SV : !Semver} `{UC : UrlCrate} `{ZC : !ZipCrate} `{TC : !TomlCrate} `{ED : !Ed25519}.
Context `{JI : Json PackageIdentity} `{JR : Json RotationPayload} `{JV : Json RevocationPayload}.
Context `{JS : Json PackageSignature} `{DS : JsonDecode PackageSignature}.
Context `{JX : Json RegistryIndex} `{DX : JsonDecode RegistryIndex}.
Context `{JT : Json TransparencyPayload} `{DT : JsonDecode TransparencyPayload} `{RT : !JsonRoundTrip TransparencyPayload}.

(** The hash the next entry names *)
Definition last_hash (previous : string) (l : list TransparencyEntry) : string :=
  match last l with None => previous | Some e => e.(tr_entry_sha256) end.
Lemma last_hash_cons previous e l : last_hash previous (e :: l) = last_hash e.(tr_entry_sha256) l.
Proof. unfold last_hash. rewrite last_cons. by destruct (last l). Qed.
Lemma last_hash_snoc previous l e : last_hash previous (l ++ [e]) = e.(tr_entry_sha256).
Proof. unfold last_hash. by rewrite last_snoc. Qed.
Lemma check_log_cons position previous logged e l out :
  check_log position previous logged (e :: l) = Ok out ->
  e.(tr_previous_sha256) = previous /\ transparency_hash e = Ok e.(tr_entry_sha256) /\ log_key e ∉ logged
  /\ check_log (position + 1) e.(tr_entry_sha256) ({[log_key e]} ∪ logged) l = Ok out.
Proof.
  cbn [check_log]. pass Hg. succeed hash Hh. pass He. succeed t1 H1. succeed t2 H2. pass Hd. bprop. intros Hrest. by subst.
Qed.
Lemma check_log_snoc l e : forall position previous logged out,
  check_log position previous logged (l ++ [e]) = Ok out ->
  (exists mid, check_log position previous logged l = Ok mid)
  /\ e.(tr_previous_sha256) = last_hash previous l /\ transparency_hash e = Ok e.(tr_entry_sha256).
Proof.
  induction l as [|x l IH]; intros position previous logged out.
  { cbn [app]. intros (Hp & Hh & _)%check_log_cons. split; [by eexists|done]. }
  cbn [app]. intros H. pose proof H as (Hp & Hh & Hn & Hrest)%check_log_cons. destruct (IH _ _ _ _ Hrest) as ([mid Hmid] & He & Hhe).
  rewrite last_hash_cons. split; [|done]. exists mid. revert H. cbn [check_log].
  pass Hg. succeed hash H0. pass H1. succeed t1 H2. succeed t2 H3. pass H4. by intros _.
Qed.
Lemma check_log_set l : forall position previous logged out,
  check_log position previous logged l = Ok out ->
  out = list_to_set (log_key <$> l) ∪ logged /\ (size out = size logged + length l)%nat.
Proof.
  induction l as [|e l IH]; intros position previous logged out; [intros [= <-]; split; [set_solver|cbn; lia]|].
  intros (_ & _ & Hn & Hrest)%check_log_cons. destruct (IH _ _ _ _ Hrest) as [-> Hs]. split; [rewrite fmap_cons, list_to_set_cons; set_solver|].
  rewrite Hs, size_union, size_singleton by set_solver. cbn. lia.
Qed.
(** The byte strings that a log hashes *)
Definition entry_payload (e : TransparencyEntry) : TransparencyPayload :=
  mkTransparencyPayload e.(tr_sequence) e.(tr_cartridge_id) e.(tr_version) e.(tr_package_sha256) e.(tr_key_id) e.(tr_previous_sha256).
Definition entry_input (e : TransparencyEntry) : option bytes :=
  match to_vec (entry_payload e) with Ok b => Some b | Err _ => None end.
Definition log_inputs (l : list TransparencyEntry) : list bytes := omap entry_input l.
Lemma entry_hash e hash : transparency_hash e = Ok hash -> exists b, entry_input e = Some b /\ hash = hex_sha256 b.
Proof.
  unfold transparency_hash, entry_input. fold (entry_payload e). succeed b Hb. intros [= <-]. by exists b.
Qed.
Lemma entry_input_inj e e' b :
  entry_input e = Some b -> entry_input e' = Some b -> e.(tr_entry_sha256) = e'.(tr_entry_sha256) -> e = e'.
Proof.
  unfold entry_input. destruct (to_vec (entry_payload e)) as [c|] eqn:Hc; [|done]. intros [= ->].
  destruct (to_vec (entry_payload e')) as [c|] eqn:Hc'; [|done]. intros [= ->] Hh.
  apply from_slice_to_vec in Hc, Hc'. rewrite Hc in Hc'. injection Hc' as H1 H2 H3 H4 H5 H6.
  destruct e, e'; cbn in *; congruence.
Qed.
Lemma same_logs (I : list bytes) (l : list TransparencyEntry) : collision_free I -> forall l' out out',
  (forall b, b ∈ log_inputs l -> b ∈ I) -> (forall b, b ∈ log_inputs l' -> b ∈ I) ->
  check_log 0 ZERO_SHA256 ∅ l = Ok out -> check_log 0 ZERO_SHA256 ∅ l' = Ok out' -> length l = length l' ->
  last_hash ZERO_SHA256 l = last_hash ZERO_SHA256 l' -> l = l'.
Proof.
  intros Hfree. induction l as [|e l IH] using rev_ind; intros l' out out' HI HI' Hl Hl' Hlen Hlast; [by destruct l'|].
  destruct l' as [|e' l' _] using rev_ind; [rewrite length_app in Hlen; cbn in Hlen; lia|].
  rewrite !length_app in Hlen. rewrite !last_hash_snoc in Hlast.
  destruct (check_log_snoc _ _ _ _ _ _ Hl) as ([mid Hmid] & Hp & Hh). destruct (check_log_snoc _ _ _ _ _ _ Hl') as ([mid' Hmid'] & Hp' & Hh').
  unfold log_inputs in HI, HI'. rewrite omap_app in HI, HI'.
  destruct (entry_hash _ _ Hh) as (b & Hb & Hs). destruct (entry_hash _ _ Hh') as (b' & Hb' & Hs').
  assert (b = b') as <-.
  { apply Hfree; [apply HI|apply HI'|]; [cbn; rewrite Hb; set_solver|cbn; rewrite Hb'; set_solver|].
    apply hex_encode_inj. unfold hex_sha256 in *. congruence. }
  assert (e = e') as <- by (by eapply entry_input_inj).
  f_equal. apply (IH l' mid mid'); try done; [intros x Hx; apply HI; set_solver|intros x Hx; apply HI'; set_solver|cbn in Hlen; lia|congruence].
Qed.

(** The versions of an index, as the log names them *)
Definition version_key (id : string) (p : string * RegistryVersion) : string * string * string * string :=
  (id, p.1, p.2.(rg_identity).(id_package_sha256), p.2.(rg_key_id)).
Definition version_keys (index : RegistryIndex) : list (string * string * string * string) :=
  btree_iter index.(packages) ≫= fun p => version_key p.1 <$> btree_iter p.2.
Lemma btree_iter_length {V : Type} (m : gmap string V) : len (btree_iter m) = btree_len m.
Proof. unfold len, btree_len. by rewrite (Permutation_length (btree_iter_perm m)), length_map_to_list. Qed.
Lemma btree_iter_nodup {V : Type} (m : gmap string V) : NoDup (btree_iter m).
Proof. rewrite btree_iter_perm. apply NoDup_map_to_list. Qed.
Lemma version_keys_length index : len (version_keys index) = version_count index.
Proof.
  unfold version_keys, version_count, btree_values. induction (btree_iter (packages index)) as [|[id vs] l IH]; [done|].
  rewrite bind_cons, !fmap_cons, sumN_cons. unfold len in *. rewrite length_app, length_fmap. cbn [fst snd] in *.
  rewrite Nat2N.inj_add, IH. f_equal. apply btree_iter_length.
Qed.
Lemma version_keys_elem index id version sha key :
  (id, version, sha, key) ∈ version_keys index
  <-> exists x, published_version index id version = Some x /\ x.(rg_identity).(id_package_sha256) = sha /\ x.(rg_key_id) = key.
Proof.
  unfold version_keys, published_version. rewrite list_elem_of_bind. split.
  - intros ([id' vs] & ([version' x] & Heq & Hx)%list_elem_of_fmap & Hvs). injection Heq as -> -> -> ->.
    apply btree_iter_elem in Hvs. apply btree_iter_elem in Hx. exists x. cbn in *. by rewrite Hvs.
  - intros (x & Hx & <- & <-). destruct (packages index !! id) as [vs|] eqn:Hvs; [|done]. cbn in Hx. exists (id, vs).
    split; [|by apply btree_iter_elem]. apply list_elem_of_fmap. exists (version, x). split; [done|]. by apply btree_iter_elem.
Qed.
Lemma version_keys_nodup index : NoDup (version_keys index).
Proof.
  unfold version_keys. apply NoDup_bind.
  - intros [id vs] [id' vs'] k H1 H2 (p & -> & _)%list_elem_of_fmap (p' & Heq & _)%list_elem_of_fmap.
    injection Heq as Heq _ _ _. cbn in *. subst id'. apply btree_iter_elem in H1. apply btree_iter_elem in H2. congruence.
  - intros [id vs] _. apply NoDup_fmap_2_strong; [|apply btree_iter_nodup].
    intros [v x] [v' x'] H1 H2 Heq. injection Heq as Heq _ _. cbn in *. subst v'.
    apply btree_iter_elem in H1. apply btree_iter_elem in H2. congruence.
  - apply btree_iter_nodup.
Qed.
Lemma check_packages_keys (logged : gset (string * string * string * string)) l :
  check_packages logged l = Ok tt -> forall id vs p, (id, vs) ∈ l -> p ∈ btree_iter vs -> version_key id p ∈ logged.
Proof.
  induction l as [|[id0 vs0] l IH]; [set_solver|]. cbn [check_packages]. succeed t Hv. destruct t. intros Hl id vs p [[= -> ->]|Hin]%elem_of_cons; [|by eauto].
  clear IH Hl. induction (btree_iter vs0) as [|[v x] k IH]; [set_solver|]. revert Hv. cbn [check_versions].
  pass Hg. pass Hp. succeed t1 H1. succeed t2 H2. intros Hk [->|Hin]%elem_of_cons; [|by apply IH]. bprop. done.
Qed.
(** A valid index lists exactly what its log does. *)
Lemma valid_index_log index :
  validate_registry index = Ok tt ->
  exists logged, check_log 0 ZERO_SHA256 ∅ index.(transparency) = Ok logged
    /\ forall id version sha key, (id, version, sha, key) ∈ logged
         <-> exists x, published_version index id version = Some x /\ x.(rg_identity).(id_package_sha256) = sha /\ x.(rg_key_id) = key.
Proof.
  unfold validate_registry. pass Hg. succeed logged Hlog. pass Hcount. intros Hp. exists logged. split; [done|].
  assert (list_to_set (version_keys index) = logged) as <-.
  { apply set_subseteq_size_eq.
    - intros k Hk%elem_of_list_to_set. unfold version_keys in Hk. apply list_elem_of_bind in Hk as ([id vs] & (p & -> & Hp')%list_elem_of_fmap & Hvs).
      by eapply check_packages_keys.
    - rewrite size_list_to_set by apply version_keys_nodup. bprop. rewrite <- version_keys_length in Hcount. unfold set_len, len in Hcount. lia. }
  intros id version sha key. by rewrite elem_of_list_to_set, version_keys_elem.
Qed.
(** The log binds the registry: two valid indexes whose logs have the same
    length and the same last hash have the same log and list the same versions
    with the same package digests and signing keys, unless two of the entries that
    were hashed for the two logs collide. *)
Theorem log_binds_registry (index index' : RegistryIndex) :
  validate_registry index = Ok tt -> validate_registry index' = Ok tt ->
  length index.(transparency) = length index'.(transparency) ->
  last_hash ZERO_SHA256 index.(transparency) = last_hash ZERO_SHA256 index'.(transparency) ->
  collision_free (log_inputs index.(transparency) ++ log_inputs index'.(transparency)) ->
  index.(transparency) = index'.(transparency)
  /\ forall id version, (fun x => (x.(rg_identity).(id_package_sha256), x.(rg_key_id))) <$> published_version index id version
                        = (fun x => (x.(rg_identity).(id_package_sha256), x.(rg_key_id))) <$> published_version index' id version.
Proof.
  intros (logged & Hl & Hk)%valid_index_log (logged' & Hl' & Hk')%valid_index_log Hlen Hlast Hfree.
  assert (index.(transparency) = index'.(transparency)) as Heq.
  { eapply same_logs; [exact Hfree|set_solver|set_solver|exact Hl|exact Hl'|done|done]. }
  split; [done|]. rewrite Heq, Hl' in Hl. injection Hl as ->. intros id version.
  assert (forall sha key,
    (exists x, published_version index id version = Some x /\ x.(rg_identity).(id_package_sha256) = sha /\ x.(rg_key_id) = key)
    <-> exists x, published_version index' id version = Some x /\ x.(rg_identity).(id_package_sha256) = sha /\ x.(rg_key_id) = key) as Hij
    by (intros sha key; by rewrite <- Hk, <- Hk').
  destruct (published_version index id version) as [x|] eqn:Hx.
  - destruct (proj1 (Hij (x.(rg_identity).(id_package_sha256)) x.(rg_key_id))) as (y & -> & H1 & H2); [by exists x|].
    cbn. by rewrite H1, H2.
  - destruct (published_version index' id version) as [y|] eqn:Hy; [|done].
    destruct (proj2 (Hij (y.(rg_identity).(id_package_sha256)) y.(rg_key_id))) as (z & Hz & _); [by exists y|done].
Qed.
End Log.

(** ** Opening and auditing *)
Section Reading.
Context `{Ext : Externals} `{Hex : HexDecode} `{SV : !Semver} `{UC : UrlCrate} `{ZC : !ZipCrate} `{TC : !TomlCrate} `{ED : !Ed25519}.
Context `{JI : Json PackageIdentity} `{JR : Json RotationPayload} `{JV : Json RevocationPayload}.
Context `{JS : Json PackageSignature} `{DS : JsonDecode PackageSignature}.
Context `{JX : Json RegistryIndex} `{DX : JsonDecode RegistryIndex} `{JT : Json TransparencyPayload}.

Section Reopen.
Context (root : string) (c : bytes) (index : RegistryIndex).
Context (Hfits : len c <= MAX_IDENTITY_DOCUMENT_BYTES) (Hdecode : from_slice c = Ok index) (Hvalid : validate_registry index = Ok tt).
#[local] Abbreviation path := (index_path root).
#[local] Abbreviation sees := (fun w => visible w.(disk) path = Some c).

Lemma read_index_run p w : read_path (disk w) p = Some c -> read_index p w = (w, Done (Ok index)).
Proof.
  intros Hr. unfold read_index, read_json, read_bounded, bind, read_file, lift. rewrite Hr. cbn [ok_or].
  rewrite (proj2 (N.ltb_ge _ _)) by done. unfold ret. by rewrite Hdecode.
Qed.
Lemma index_valid_run p w : read_path (disk w) p = Some c -> index_valid p w = (w, Done (Ok true)).
Proof.
  intros Hr. unfold index_valid, attempt, bind. rewrite (read_index_run p w Hr). unfold lift, ret. by rewrite Hvalid.
Qed.
Lemma index_valid_pure p w : exists b, index_valid p w = (w, Done (Ok b)).
Proof.
  unfold index_valid, read_index, read_json, read_bounded, read_file, attempt, bind, lift, ret, fail.
  destruct (ok_or _ _) as [x|]; [|by eexists]. destruct (_ <? len x); [by eexists|].
  destruct (from_slice x); [|by eexists]. by eexists.
Qed.
Lemma recover_index_clean : clean sees (recover_registry_index path) (fun _ w => read_path w.(disk) path = Some c).
Proof.
  intros w Hf Hsee. unfold recover_registry_index. unfold bind at 1, exists_file at 1. cbv zeta.
  unfold visible in Hsee. destruct (read_path (disk w) (backup_of path)) as [b|] eqn:Hb; cbn [is_some is_none negb]; cycle 1.
  { exists w, tt. destruct (read_path (disk w) path); done. }
  destruct (index_valid_pure (backup_of path) w) as [valid Hv]. unfold bind at 1. rewrite Hv. unfold bind at 1, exists_file at 1.
  destruct (read_path (disk w) path) as [x|] eqn:Hp; cbn [is_some is_none negb].
  - injection Hsee as ->. unfold bind at 1. rewrite (index_valid_run path w Hp).
    apply (clean_syscall (fun w' => w' = w)); [|done..]. intros w' ->. rewrite Hb. cbn [is_some is_none negb]. eexists _, _. split; [done|].
    cbn [with_disk disk]. rewrite read_remove_ne; [done|apply backup_ne].
  - injection Hsee as ->. rewrite (index_valid_run _ w Hb) in Hv. injection Hv as <-. cbn [negb].
    apply (clean_syscall (fun w' => w' = w)); [|done..]. intros w' ->. rewrite Hb. eexists _, _. split; [done|].
    cbn [with_disk disk]. apply read_write_eq. apply is_dir_remove. exact (read_Some_dir (disk w) (backup_of path) c Hb).
Qed.
Lemma sees_root w : visible (disk w) path = Some c -> is_Some (disk w !! root).
Proof.
  unfold visible. destruct (read_path (disk w) path) as [x|] eqn:Hp; [intros _; by apply (read_Some_dir _ path x)|].
  intros Hb. by apply (read_Some_dir _ (backup_of path) c).
Qed.
Lemma ensure_objects_clean : clean sees (ensure_directory (objects root)) (fun _ => sees).
Proof.
  intros w Hf Hsee. unfold ensure_directory. destruct (disk w !! objects root) as [x|] eqn:Hx; cbn [is_some is_none negb]; [by exists w, tt|].
  apply (clean_syscall (fun w' => w' = w)); [|done..]. intros w' ->. eexists _, _. split; [done|].
  cbn. revert Hsee. unfold visible, read_path. cbn. rewrite !lookup_insert_ne; [done|by apply append_ne..].
Qed.
Lemma lock_clean : clean sees (open_lock_file (root, "registry.lock")) (fun _ => sees).
Proof.
  apply clean_syscall. intros w Hsee. destruct (read_path (disk w) _); eexists _, _; (split; [done|]); cbn [with_disk disk]; [done|].
  revert Hsee. unfold visible. by rewrite !read_write_ne.
Qed.
Lemma open_registry_clean : clean sees (open_registry root) (fun r w => r = mkRegistry root index /\ read_path w.(disk) path = Some c).
Proof.
  unfold open_registry. apply (clean_bind _ _ _ (fun _ => sees)).
  { intros w Hf Hsee. unfold ensure_directory. destruct (sees_root w Hsee) as [x Hx]. rewrite Hx. by exists w, tt. }
  intros _. apply (clean_bind _ _ _ (fun _ => sees)); [apply ensure_objects_clean|].
  intros _. apply (clean_bind _ _ _ (fun _ => sees)); [apply lock_clean|].
  intros _. apply (clean_bind _ _ _ (fun _ => sees)).
  { apply clean_syscall. intros w Hsee. by eexists _, _. }
  intros _. apply (clean_bind _ _ _ (fun _ w => read_path w.(disk) path = Some c)); [apply recover_index_clean|].
  intros _ w Hf Hp. unfold bind at 1, exists_file. rewrite Hp. cbn [is_some is_none negb]. unfold bind at 1. rewrite (read_index_run path w Hp).
  unfold bind, lift, ret. rewrite Hvalid. by eexists _, _.
Qed.
End Reopen.

(** Opening finds what publishing left: when the index a reader sees is a valid
    document, an undisturbed opening succeeds with exactly that index, whether the
    last replacement was finished or cut short, and puts it in its place. *)
Theorem reopened_registry_is_published (root : string) (c : bytes) (index : RegistryIndex) (w : World) :
  w.(fates) = [] -> visible w.(disk) (index_path root) = Some c -> len c <= MAX_IDENTITY_DOCUMENT_BYTES ->
  from_slice c = Ok index -> validate_registry index = Ok tt ->
  exists w', open_registry root w = (w', Done (Ok (mkRegistry root index)))
    /\ read_path w'.(disk) (index_path root) = Some c.
Proof.
  intros Hf Hsee Hfits Hdec Hval. destruct (open_registry_clean root c index Hfits Hdec Hval w Hf Hsee) as (w' & r & Hrun & _ & -> & Hp).
  by exists w'.
Qed.

Lemma audit_versions_sound r trust l : forall n w w' m,
  audit_versions r trust n l w = (w', Done (Ok m)) ->
  w' = w /\ m = n + len l
  /\ forall v, v ∈ l -> exists content signature bytes,
       read_path w.(disk) (registry_object r.(rg_root) v.(rg_identity).(id_package_sha256)) = Some content
       /\ read_path w.(disk) (signature_path r.(rg_root) v.(rg_identity).(id_package_sha256)) = Some bytes
       /\ from_slice bytes = Ok signature /\ verify_bytes trust content signature = Ok v.(rg_identity)
       /\ signature.(ps_key_id) = v.(rg_key_id).
Proof.
  induction l as [|v l IH]; intros n w w' m.
  { unfold audit_versions, ret. intros [= <- <-]. split_and!; [done|unfold len; cbn; lia|set_solver]. }
  cbn [audit_versions]. unfold bind at 1, read_json, read_bounded, read_file, bind, lift, ret.
  destruct (read_path (disk w) (signature_path _ _)) as [bytes|] eqn:Hs; [|done]. cbn [ok_or].
  destruct (_ <? len bytes); [done|]. destruct (from_slice bytes) as [signature|] eqn:Hd; [|done].
  destruct (read_path (disk w) (registry_object _ _)) as [content|] eqn:Ho; [|done]. cbn [ok_or].
  destruct (_ <? len content); [done|]. destruct (verify_bytes trust content signature) as [identity|] eqn:Hv; [|done].
  destruct (negb (bool_decide (identity = rg_identity v)) || _) eqn:Hg; [done|]. intros H. split_guard.
  destruct (IH _ _ _ _ H) as (-> & -> & Hall). split; [done|]. split; [unfold len; cbn [length]; lia|].
  intros x [->|Hin]%elem_of_cons; [|by apply Hall]. exists content, signature, bytes. subst identity. by split_and!.
Qed.
(** An audit that succeeds has seen every package: the index is valid, and
    every version it lists has its package and signature stored, the trust store
    accepts the package with it, and identity and signing key are those of the
    index; the count is the number of versions and nothing was changed. *)
Theorem audit_is_sound (r : Registry) (trust : TrustStore) (w w' : World) (n : N) :
  audit_registry r trust w = (w', Done (Ok n)) ->
  w' = w /\ n = version_count r.(rg_index) /\ validate_registry r.(rg_index) = Ok tt
  /\ forall id version v, published_version r.(rg_index) id version = Some v ->
       exists content signature bytes,
         read_path w.(disk) (registry_object r.(rg_root) v.(rg_identity).(id_package_sha256)) = Some content
         /\ read_path w.(disk) (signature_path r.(rg_root) v.(rg_identity).(id_package_sha256)) = Some bytes
         /\ from_slice bytes = Ok signature /\ verify_bytes trust content signature = Ok v.(rg_identity)
         /\ signature.(ps_key_id) = v.(rg_key_id).
Proof.
  unfold audit_registry, bind, lift. destruct (validate_registry _) as [[]|] eqn:Hv; [|done].
  intros (-> & -> & Hall)%audit_versions_sound. split; [done|]. split; [|split; [done|]].
  - clear Hall. unfold version_count. induction (btree_values (packages (rg_index r))) as [|m l IH]; [done|].
    rewrite fmap_cons, sumN_cons, bind_cons. unfold len in *. rewrite length_app.
    assert (N.of_nat (length (btree_values m)) = btree_len m) as Hm by (unfold btree_values; rewrite length_fmap; apply btree_iter_length). lia.
  - intros id version v Hp. apply Hall. apply list_elem_of_bind. unfold published_version in Hp.
    destruct (packages (rg_index r) !! id) as [vs|] eqn:Hvs; [|done]. exists vs.
    split; apply list_elem_of_fmap; [exists (version, v)|exists (id, vs)]; (split; [done|]); by apply btree_iter_elem.
Qed.
End Reading.

(** ** A concrete registry *)
#[local] Instance transparency_payload_eq_dec : EqDecision TransparencyPayload.
Proof. solve_decision. Defined.
Section RegistryWitness.
#[local] Existing Instance demo_externals.
#[local] Existing Instance demo_hex.
#[local] Existing Instance demo_semver.
#[local] Existing Instance toy_url.
#[local] Existing Instance toy_toml.
#[local] Existing Instance toy_zip.
#[local] Existing Instance toy_signatures.
#[local] Existing Instance identity_json.
#[local] Existing Instance rotation_json.
#[local] Existing Instance revocation_json.
Definition app_version : RegistryVersion := mkRegistryVersion packed_signature.(ps_identity) packed_signature.(ps_key_id) 5 [] ["assets"].
Definition app_payload : TransparencyPayload :=
  mkTransparencyPayload 0 "dev.example.app" "1.2.0" packed_signature.(ps_identity).(id_package_sha256) packed_signature.(ps_key_id) ZERO_SHA256.
#[local] Instance payload_json : Json TransparencyPayload := table_json [app_payload].
#[local] Instance payload_decode : JsonDecode TransparencyPayload := table_decode [app_payload].
#[local] Instance payload_round_trip : JsonRoundTrip TransparencyPayload := table_round_trip [app_payload].
Definition empty_registry : Registry := mkRegistry "reg" (mkRegistryIndex 1 ∅ []).
Definition app_index : RegistryIndex :=
  match append_transparency (insert_version empty_registry.(rg_index) app_version) app_version.(rg_identity) app_version.(rg_key_id) with
  | Ok index => index
  | Err _ => empty_registry.(rg_index)
  end.
#[local] Instance index_json : Json RegistryIndex := table_json [app_index].
#[local] Instance index_decode : JsonDecode RegistryIndex := table_decode [app_index].
#[local] Instance signature_json : Json PackageSignature := table_json [packed_signature].
#[local] Instance signature_decode : JsonDecode PackageSignature := table_decode [packed_signature].
Definition app_package : Path := ("home", "app.cartridge").
Definition app_disk : Disk := {["home" := {["app.cartridge" := [x50; x4b]]}; "reg" := ∅; "reg/objects" := ∅]}.
Definition app_world (fates : list fate) : World := mkWorld app_disk 0 7 fates.
Definition app_publish (r : Registry) : IO (Registry * result string RegistryVersion) :=
  publish r app_package packed_signature first_trusted (Ok 5).
Definition app_published : World := (app_publish empty_registry (app_world [])).1.

Lemma app_index_valid : validate_registry app_index = Ok tt.
Proof. vm_compute. reflexivity. Qed.
Lemma reopened_registry_is_published_witness :
  exists w', open_registry "reg" app_published = (w', Done (Ok (mkRegistry "reg" app_index))).
Proof.
  destruct (reopened_registry_is_published "reg" [x00] app_index app_published) as (w' & H & _).
  - vm_compute. reflexivity.
  - vm_compute. reflexivity.
  - vm_compute. discriminate.
  - vm_compute. reflexivity.
  - apply app_index_valid.
  - by exists w'.
Defined.
Lemma audit_is_sound_witness :
  audit_registry (mkRegistry "reg" app_index) first_trusted app_published = (app_published, Done (Ok 1)) 
  /\ version_count (mkRegistry "reg" app_index).(rg_index) = 1.
Proof.
  assert (audit_registry (mkRegistry "reg" app_index) first_trusted app_published = (app_published, Done (Ok 1))) as Ha by (vm_compute; reflexivity).
  split; [exact Ha|]. destruct (audit_is_sound _ _ _ _ _ Ha) as (_ & H & _). exact (eq_sym H).
Defined.
Lemma log_binds_registry_witness : transparency app_index = transparency app_index.
Proof.
  destruct (log_binds_registry app_index app_index app_index_valid app_index_valid eq_refl eq_refl) as [H _]; [|exact H].
  intros x y Hx Hy _. assert (log_inputs (transparency app_index) = [[x00]]) as Hin by (vm_compute; reflexivity).
  rewrite Hin in Hx, Hy. cbn [app] in Hx, Hy. apply list_elem_of_In in Hx, Hy. cbn in Hx, Hy.
  destruct Hx as [<-|[<-|[]]], Hy as [<-|[<-|[]]]; reflexivity.
Defined.
(** A publication that was not saved is reported as published when it is tried
    again: when only the replacement of the index fails, the first call answers an
    error, the second answers the version without a single system call, and no
    index is on disk. *)
Theorem unsaved_publication_is_reported :
  exists r w1 w2 e,
    app_publish empty_registry (app_world (replicate 9 Succeeds ++ [Fails 0])) = (w1, Done (Ok (r, Err e)))
    /\ app_publish r w1 = (w2, Done (Ok (r, Ok app_version)))
    /\ w2 = w1 /\ visible w2.(disk) (index_path "reg") = None.
Proof.
  set (first := app_publish empty_registry (app_world (replicate 9 Succeeds ++ [Fails 0]))).
  exists (match first.2 with Done (Ok (r, _)) => r | _ => empty_registry end), first.1, first.1, "I/O error".
  split_and!; vm_compute; reflexivity.
Qed.
End RegistryWitness.
