(* ===== verification/Release.v ===== *)
(** * Signed runtime releases ([crates/cartridge-release/src/lib.rs])

    Release documents and their signature, the state of an updater, and installing
    and rolling back as runs of system calls. *)
From stdpp Require Import pretty.
From S2P Require Import Prelude Text Core Storage Snapshot Directory Blob Network Manifest Files Archive Identity IdentityFiles.

Definition RELEASE_FORMAT_VERSION : N := 1.
Definition UPDATE_STATE_FORMAT_VERSION : N := 1.
Definition MAX_RELEASE_DOCUMENT_BYTES : N := 1024 * 1024.
Definition MAX_RUNTIME_ARTIFACT_BYTES : N := 512 * 1024 * 1024.
Definition MAX_RELEASE_ARTIFACTS : N := 32.
Definition RELEASE_DOMAIN : bytes := as_bytes "cartridge-runtime-release-v1".

Record ReleaseArtifact := mkReleaseArtifact { rt_target : string; rt_filename : string; rt_bytes : N; rt_sha256 : string }.
Record ReleasePayload := mkReleasePayload {
  rl_format_version : N;
  rl_channel : string;
  rl_version : string;
  rl_published_at_ms : N;
  rl_minimum_updater_version : string;
  rl_artifacts : list ReleaseArtifact;
}.
Record SignedRelease := mkSignedRelease {
  sr_payload : ReleasePayload;
  sr_algorithm : string;
  sr_key_id : string;
  sr_public_key : string;
  sr_signature : string;
}.
Record InstalledRelease := mkInstalledRelease {
  ir_version : string;
  ir_target : string;
  ir_relative_path : string;
  ir_sha256 : string;
  ir_bytes : N;
  ir_signing_key_id : string;
}.
#[global] Instance installed_release_eq_dec : EqDecision InstalledRelease.
Proof. solve_decision. Defined.
Record UpdateState := mkUpdateState {
  us_format_version : N;
  us_channel : string;
  us_active : option InstalledRelease;
  us_previous : option InstalledRelease;
  us_installed : gmap string InstalledRelease;
}.
#[global] Instance update_state_eq_dec : EqDecision UpdateState.
Proof. solve_decision. Defined.
Record StateDocument := mkStateDocument { sd_payload : UpdateState; sd_payload_sha256 : string }.
#[global] Instance state_document_eq_dec : EqDecision StateDocument.
Proof. solve_decision. Defined.
(** The updater; its lock is held while it lives. *)
Record Updater := mkUpdater { up_root : string; up_state : UpdateState }.

(** ** Checks *)
Definition is_ascii (s : string) : bool := forallb (fun b => b <? 128) (str_bytes s).
Definition validate_token (value label : string) (max : N) : result string unit :=
  if str_is_empty value || (max <? str_len value)
     || negb (forallb (fun b => is_ascii_alphanumeric b || (b =? 46) || (b =? 45) || (b =? 95)) (str_bytes value))
  then Err (label +:+ " is invalid") else Ok tt.
Definition validate_filename (value : string) : result string unit :=
  if str_is_empty value || (128 <? str_len value) || bool_decide (value = ".") || bool_decide (value = "..")
     || contains_char value "/" || contains_char value "\" || contains_char value ":" || existsb char_is_control (str_chars value)
  then Err "runtime artifact filename is invalid" else Ok tt.
Definition validate_release_digest (value : string) : result string unit :=
  if negb (is_digest value) then Err "release digest is invalid" else Ok tt.
Definition find_artifact (self : ReleasePayload) (target : string) : result string ReleaseArtifact :=
  match list_find (fun a => a.(rt_target) = target) self.(rl_artifacts) with
  | Some (_, artifact) => Ok artifact
  | None => Err ("release has no artifact for " +:+ target)
  end.

Section Release.
Context `{Ext : Externals} `{Hex : HexDecode} `{SV : !Semver} `{UC : UrlCrate} `{ZC : !ZipCrate} `{TC : !TomlCrate} `{ED : !Ed25519}.
Context `{JI : Json PackageIdentity} `{JR : Json RotationPayload} `{JV : Json RevocationPayload}.
Context `{JP : Json ReleasePayload} `{JU : Json UpdateState} `{JD : Json StateDocument} `{DD : JsonDecode StateDocument}.
Context `{JL : Json SignedRelease} `{DL : JsonDecode SignedRelease}.

Definition validate_version (value label : string) : result string unit :=
  if (128 <? str_len value) || negb (is_ascii value) || is_none (parse_version value) then Err (label +:+ " is invalid") else Ok tt.
Fixpoint check_artifacts (targets : gset string) (l : list ReleaseArtifact) : result string unit :=
  match l with
  | [] => Ok tt
  | artifact :: l =>
      let? _ := validate_token artifact.(rt_target) "release target" 128 in
      let? _ := validate_filename artifact.(rt_filename) in
      if (artifact.(rt_bytes) =? 0) || (MAX_RUNTIME_ARTIFACT_BYTES <? artifact.(rt_bytes))
      then Err "runtime artifact byte length is invalid"
      else
        let? _ := validate_release_digest artifact.(rt_sha256) in
        if bool_decide (artifact.(rt_target) ∈ targets) then Err "release contains duplicate targets"
        else check_artifacts ({[artifact.(rt_target)]} ∪ targets) l
  end.
Definition validate_release (self : ReleasePayload) : result string unit :=
  if negb (self.(rl_format_version) =? RELEASE_FORMAT_VERSION) || (self.(rl_published_at_ms) =? 0)
  then Err "release metadata version or timestamp is invalid"
  else
    let? _ := validate_token self.(rl_channel) "release channel" 32 in
    let? _ := validate_version self.(rl_version) "runtime release version" in
    let? _ := validate_version self.(rl_minimum_updater_version) "minimum updater version" in
    if bool_decide (self.(rl_artifacts) = []) || (MAX_RELEASE_ARTIFACTS <? len self.(rl_artifacts))
    then Err "release artifact count is invalid"
    else check_artifacts ∅ self.(rl_artifacts).
Definition new_release (channel version : string) (published_at_ms : N) (minimum_updater_version : string)
    (artifacts : list ReleaseArtifact) : result string ReleasePayload :=
  let value := mkReleasePayload RELEASE_FORMAT_VERSION channel version published_at_ms minimum_updater_version artifacts in
  let? _ := validate_release value in
  Ok value.

(** ** Signed releases *)
Definition create_release (key : DeveloperKey) (payload : ReleasePayload) : result string SignedRelease :=
  let? _ := validate_release payload in
  let? bytes := to_vec payload in
  Ok (mkSignedRelease payload "ed25519" (developer_key_id key) (public_key_hex key) (sign_bytes key RELEASE_DOMAIN bytes)).
Definition verify_release (self : SignedRelease) (trust : TrustStore) (updater_version : string) : result string unit :=
  let? _ := validate_release self.(sr_payload) in
  if negb (bool_decide (self.(sr_algorithm) = "ed25519")) then Err "runtime release signature algorithm is unsupported"
  else
    let? updater := ok_or (parse_version updater_version) "updater version is invalid" in
    let? minimum := ok_or (parse_version self.(sr_payload).(rl_minimum_updater_version)) "minimum updater version is invalid" in
    if negb (version_leb minimum updater)
    then Err ("updater " +:+ version_string updater +:+ " is older than required " +:+ version_string minimum)
    else
      let? bytes := to_vec self.(sr_payload) in
      verify_trusted_bytes trust self.(sr_key_id) self.(sr_public_key) RELEASE_DOMAIN bytes self.(sr_signature).

(** ** Installed releases and the state *)
Definition release_prefix (version : string) : string := "releases/" +:+ version +:+ "/".
Definition validate_installed (value : InstalledRelease) : result string unit :=
  let? _ := validate_version value.(ir_version) "installed runtime version" in
  let? _ := validate_token value.(ir_target) "installed target" 128 in
  let? _ := validate_release_digest value.(ir_sha256) in
  let? _ := validate_release_digest value.(ir_signing_key_id) in
  if (value.(ir_bytes) =? 0) || (MAX_RUNTIME_ARTIFACT_BYTES <? value.(ir_bytes)) then Err "installed runtime byte length is invalid"
  else
    let? filename := ok_or (strip_prefix (release_prefix value.(ir_version)) value.(ir_relative_path)) "installed runtime path is invalid" in
    validate_filename filename.
Fixpoint check_installed (l : list (string * InstalledRelease)) : result string unit :=
  match l with
  | [] => Ok tt
  | (version, release) :: l =>
      if negb (bool_decide (version = release.(ir_version))) then Err "installed runtime index is invalid"
      else let? _ := validate_installed release in check_installed l
  end.
Fixpoint check_current (installed : gmap string InstalledRelease) (l : list InstalledRelease) : result string unit :=
  match l with
  | [] => Ok tt
  | release :: l =>
      let? _ := validate_installed release in
      if negb (bool_decide (installed !! release.(ir_version) = Some release)) then Err "active runtime is missing from installed index"
      else check_current installed l
  end.
Definition validate_update_state (value : UpdateState) (channel : string) : result string unit :=
  if negb (value.(us_format_version) =? UPDATE_STATE_FORMAT_VERSION) || negb (bool_decide (value.(us_channel) = channel))
     || (128 <? btree_len value.(us_installed))
  then Err "runtime update state is invalid"
  else
    let? _ := validate_token value.(us_channel) "release channel" 32 in
    let? _ := check_installed (btree_iter value.(us_installed)) in
    check_current value.(us_installed) (option_list value.(us_active) ++ option_list value.(us_previous)).
Definition new_document (payload : UpdateState) : result string StateDocument :=
  let? bytes := to_vec payload in
  Ok (mkStateDocument payload (hex_sha256 bytes)).
Definition validate_document (self : StateDocument) (channel : string) : result string UpdateState :=
  let? _ := validate_release_digest self.(sd_payload_sha256) in
  let? bytes := to_vec self.(sd_payload) in
  if negb (bool_decide (hex_sha256 bytes = self.(sd_payload_sha256))) then Err "runtime update state checksum is invalid"
  else
    let? _ := validate_update_state self.(sd_payload) channel in
    Ok self.(sd_payload).

(** ** Files *)
Definition release_read_bounded (path : Path) (limit : N) : IO bytes :=
  do? content := read_file path in
  if limit <? len content then fail "file exceeds its byte limit" else ret content.
Definition release_write_bytes_new (path : Path) (content : bytes) : IO unit :=
  create_new path ;;?
  do? written := attempt (write_all path content) in
  match written with
  | Err error => discard path ;;? fail error
  | Ok _ => ret tt
  end.
Definition release_write_json_new {T : Type} `{Json T} (path : Path) (value : T) : IO unit :=
  do? content := lift (to_vec value) in
  if MAX_RELEASE_DOCUMENT_BYTES <? len content then fail "release document exceeds its byte limit"
  else release_write_bytes_new path content.
Definition release_json_replace {T : Type} `{Json T} (path : Path) (value : T) : IO unit :=
  do? temporary := json_temporary path in
  let backup := backup_of path in
  release_write_json_new temporary value ;;?
  do? present := exists_file path in
  (if present : bool then
     remove_if_present backup ;;?
     rename path backup ;;?
     do? renamed := attempt (rename temporary path) in
     match renamed with
     | Err error => attempt (rename backup path) ;;? discard temporary ;;? fail error
     | Ok _ => remove_file backup
     end
   else rename temporary path) ;;?
  sync_parent_directory.
Definition hash_regular_file (path : Path) (limit : N) : IO (N * string) :=
  do? content := release_read_bounded path limit in
  ret (len content, hex_sha256 content).
Definition verify_artifact (path : Path) (artifact : ReleaseArtifact) : IO unit :=
  do? (bytes, sha256) := hash_regular_file path MAX_RUNTIME_ARTIFACT_BYTES in
  if negb (bytes =? artifact.(rt_bytes)) || negb (bool_decide (sha256 = artifact.(rt_sha256)))
  then fail "runtime artifact does not match signed release metadata" else ret tt.
Definition copy_runtime_new (source destination : Path) (limit : N) : IO (N * string) :=
  do? content := release_read_bounded source limit in
  create_new destination ;;?
  do? written := attempt (write_all destination content) in
  match written with
  | Err error => discard destination ;;? fail error
  | Ok _ => ret (len content, hex_sha256 content)
  end.
Definition read_release (path : Path) : IO SignedRelease :=
  do? content := release_read_bounded path MAX_RELEASE_DOCUMENT_BYTES in lift (from_slice content).
Definition write_release (self : SignedRelease) (path : Path) : IO unit :=
  lift (validate_release self.(sr_payload)) ;;? release_write_json_new path self.
Definition read_state (path : Path) (channel : string) : IO UpdateState :=
  do? content := release_read_bounded path MAX_RELEASE_DOCUMENT_BYTES in
  do? document := lift (from_slice content) in
  lift (validate_document document channel).
Definition state_file_valid (path : Path) (channel : string) : IO bool :=
  do? r := attempt (read_state path channel) in ret (is_ok r).
(** [(0..32).map(...).find(|candidate| !candidate.exists())] *)
Fixpoint free_quarantine (path : Path) (l : list nat) : IO Path :=
  match l with
  | [] => fail "runtime update recovery quarantine is full"
  | n :: l =>
      let candidate := (path.1, path.2 +:+ ".corrupt-" +:+ pretty n) in
      do? present := exists_file candidate in
      if present : bool then free_quarantine path l else ret candidate
  end.
Definition recover_state (path : Path) (channel : string) : IO unit :=
  let backup := backup_of path in
  do? saved := exists_file backup in
  if negb saved then ret tt
  else
    do? present := exists_file path in
    if negb present then
      do? valid := state_file_valid backup channel in
      if negb valid then fail "runtime update recovery backup is invalid" else rename backup path
    else
      do? current_valid := state_file_valid path channel in
      if current_valid : bool then remove_file backup
      else
        do? valid := state_file_valid backup channel in
        if negb valid then fail "runtime update state and recovery backup are invalid"
        else
          do? corrupt := free_quarantine path (seq 0 32) in
          rename path corrupt ;;? rename backup path.

(** ** The updater *)
Definition state_path (root : string) : Path := (root, "update.json").
Definition releases (root : string) : string := root +:+ "/releases".
Definition version_directory (root version : string) : string := releases root +:+ "/" +:+ version.
Definition open_updater (root channel : string) : IO Updater :=
  lift (validate_token channel "release channel" 32) ;;?
  ensure_directory root ;;? set_private_directory_permissions root ;;?
  ensure_directory (releases root) ;;? set_private_directory_permissions (releases root) ;;?
  open_lock_file (root, "update.lock") ;;? sync_all ;;? acquire_lock ;;?
  recover_state (state_path root) channel ;;?
  do? present := exists_file (state_path root) in
  do? state := (if present : bool then read_state (state_path root) channel
                else ret (mkUpdateState UPDATE_STATE_FORMAT_VERSION channel None None ∅)) in
  lift (validate_update_state state channel) ;;?
  ret (mkUpdater root state).
Definition save_state (self : Updater) (state : UpdateState) : IO unit :=
  lift (validate_update_state state self.(up_state).(us_channel)) ;;?
  do? document := lift (new_document state) in
  release_json_replace (state_path self.(up_root)) document.
Definition check_downgrade (active : option InstalledRelease) (version : string) (allow_downgrade : bool) : result string unit :=
  match active with
  | None => Ok tt
  | Some active =>
      let? next := ok_or (parse_version version) "release version is invalid" in
      let? current := ok_or (parse_version active.(ir_version)) "active version is invalid" in
      if negb (version_leb current next) && negb allow_downgrade then Err "runtime downgrade requires explicit approval" else Ok tt
  end.
(** The artifact at its place: verified when it is there, copied otherwise. *)
Definition place_artifact (source destination : Path) (artifact : ReleaseArtifact) : IO unit :=
  do? present := exists_file destination in
  if present : bool then
    verify_artifact source artifact ;;?
    do? same := attempt (verify_artifact destination artifact) in
    match same with
    | Err _ => fail "installed runtime version differs from signed artifact"
    | Ok _ => ret tt
    end
  else
    do? (bytes, sha256) := copy_runtime_new source destination MAX_RUNTIME_ARTIFACT_BYTES in
    if negb (bytes =? artifact.(rt_bytes)) || negb (bool_decide (sha256 = artifact.(rt_sha256)))
    then discard destination ;;? fail "runtime artifact does not match signed release metadata"
    else ret tt.
Definition installed_release (release : SignedRelease) (artifact : ReleaseArtifact) (target : string) : InstalledRelease :=
  mkInstalledRelease release.(sr_payload).(rl_version) target
    ("releases/" +:+ release.(sr_payload).(rl_version) +:+ "/" +:+ artifact.(rt_filename)) artifact.(rt_sha256) artifact.(rt_bytes)
    release.(sr_key_id).
Definition activate (state : UpdateState) (installed : InstalledRelease) : UpdateState :=
  mkUpdateState state.(us_format_version) state.(us_channel) (Some installed)
    (if bool_decide (state.(us_active) = Some installed) then state.(us_previous) else state.(us_active))
    (<[installed.(ir_version) := installed]> state.(us_installed)).
Definition install (self : Updater) (release : SignedRelease) (trust : TrustStore) (artifact_path : Path) (target updater_version : string)
    (allow_downgrade : bool) : IO (Updater * InstalledRelease) :=
  lift (verify_release release trust updater_version) ;;?
  if negb (bool_decide (release.(sr_payload).(rl_channel) = self.(up_state).(us_channel)))
  then fail "release channel does not match updater channel"
  else
    do? artifact := lift (find_artifact release.(sr_payload) target) in
    lift (check_downgrade self.(up_state).(us_active) release.(sr_payload).(rl_version) allow_downgrade) ;;?
    let directory := version_directory self.(up_root) release.(sr_payload).(rl_version) in
    ensure_directory directory ;;? set_private_directory_permissions directory ;;?
    place_artifact artifact_path (directory, artifact.(rt_filename)) artifact ;;?
    let installed := installed_release release artifact target in
    let next := activate self.(up_state) installed in
    save_state self next ;;?
    ret (mkUpdater self.(up_root) next, installed).
(** [root.join(relative_path)] of a release that passed validation. *)
Definition installed_path (root : string) (value : InstalledRelease) : Path :=
  (version_directory root value.(ir_version), default "" (strip_prefix (release_prefix value.(ir_version)) value.(ir_relative_path))).
Definition verify_installed (root : string) (value : InstalledRelease) : IO unit :=
  lift (validate_installed value) ;;?
  do? (bytes, sha256) := hash_regular_file (installed_path root value) MAX_RUNTIME_ARTIFACT_BYTES in
  if negb (bytes =? value.(ir_bytes)) || negb (bool_decide (sha256 = value.(ir_sha256)))
  then fail "installed runtime artifact failed integrity verification" else ret tt.
Definition rollback (self : Updater) : IO (Updater * InstalledRelease) :=
  match self.(up_state).(us_previous) with
  | None => fail "no previous runtime release is available"
  | Some previous =>
      verify_installed self.(up_root) previous ;;?
      let next := mkUpdateState self.(up_state).(us_format_version) self.(up_state).(us_channel) (Some previous)
                    self.(up_state).(us_active) self.(up_state).(us_installed) in
      save_state self next ;;?
      ret (mkUpdater self.(up_root) next, previous)
  end.
Definition active_release (self : Updater) : IO (option InstalledRelease) :=
  match self.(up_state).(us_active) with
  | None => ret None
  | Some value => verify_installed self.(up_root) value ;;? ret (Some value)
  end.
End Release.
