(* ===== verification/ReleaseTheorems.v ===== *)
(** * Theorems about runtime updates

    Installing and rolling back survive a crash at any system call: the state a
    reader sees is the old one or the new one, and the artifacts of the active and
    the previous release of either are on disk, whole. *)
From stdpp Require Import pretty.
From S2P Require Import Prelude Text Core Storage Snapshot Directory Blob BlobTheorems Network NetworkTheorems Manifest ManifestTheorems Files Archive ArchiveTheorems Identity IdentityFiles IdentityTheorems RegistryTheorems Release.

(** ** Replacing the state *)
Section StateReplace.
Context {T : Type} `{Json T} (d0 : Disk) (path : Path) (value : T).
Context (content : bytes) (Hcontent : to_vec value = Ok content).
Context (t : Path) (Ht : beside path t).
#[local] Abbreviation before := (holds d0 path t).
#[local] Abbreviation p0 := (read_path d0 path).
#[local] Abbreviation b0 := (read_path d0 (backup_of path)).
#[local] Abbreviation finished := (replace_result d0 path value).
#[local] Abbreviation crashed := (replace_crash d0 path value).

Lemma start_kept s d : before p0 b0 s d -> kept d0 path d.
Proof. intros Hd. by eapply before_kept. Qed.
Lemma replaced_written d : written d0 path content d -> replaced_by d0 path value d.
Proof. intros Hd. by exists content. Qed.
Lemma stage_state_triple :
  triple (fun d => d = d0) (release_write_bytes_new t content)
    (fun r d => match r with Ok _ => before p0 b0 (Some content) d | Err e => finished (Err e) d end) crashed.
Proof.
  unfold release_write_bytes_new.
  apply (triple_bind _ _ _ (fun _ d => is_Some (d !! path.1) /\ exists s, before p0 b0 s d)).
  { apply triple_syscall; [|intros d n ->; split; [by apply result_kept|by left]]. intros d ->.
    destruct (d0 !! t.1) as [x|] eqn:Hx; [|by apply result_kept]. rewrite (temp_dir path t Ht) in Hx.
    destruct (is_some _); [by apply result_kept|]. split; [apply is_dir_write; by exists x|]. exists (Some []).
    apply (holds_write_temp d0 path t Ht p0 b0 (read_path d0 t)); [by exists x|done]. }
  intros _. apply (triple_bind _ _ _ (fun r d => match r with Ok _ => before p0 b0 (Some content) d | Err _ => kept d0 path d end)).
  { apply triple_attempt, triple_syscall.
    - intros d [Hdir [s Hd]]. by apply (holds_write_temp d0 path t Ht p0 b0 s).
    - intros d n [Hdir [s Hd]].
      assert (kept d0 path (write_path d t (take n content))) as Hk by (eapply start_kept; by apply (holds_write_temp d0 path t Ht p0 b0 s)).
      split; [done|by left]. }
  intros [u|e]; [by apply triple_ret|]. apply (triple_bind _ _ _ (fun _ => kept d0 path)).
  - eapply triple_weaken; [by apply discard_temp_triple|done| |by left]. intros [u|e'] d Hd; [done|by apply result_kept].
  - intros _. apply triple_fail. intros d. apply result_kept.
Qed.
Lemma swap_state_triple old :
  p0 = Some old ->
  triple (before None (Some old) (Some content))
    (do? renamed := attempt (rename t path) in
     match renamed with
     | Err error => attempt (rename (backup_of path) path) ;;? discard t ;;? fail error
     | Ok _ => remove_file (backup_of path)
     end)
    (fun r d => match r with Ok _ => written d0 path content d | Err e => finished (Err e) d end) crashed.
Proof.
  intros Hp. assert (visible d0 path = Some old) as Hvis by (unfold visible; by rewrite Hp).
  assert (forall d, before None (Some old) (Some content) d -> kept d0 path d) as Hk by (intros d Hd; by eapply before_kept).
  apply (triple_bind _ _ _ (fun r d => match r with
                                       | Ok _ => before (Some content) (Some old) None d
                                       | Err _ => before None (Some old) (Some content) d
                                       end)).
  { apply triple_attempt. eapply triple_weaken; [by apply place_document_triple|done|by intros r d|]. intros d Hd. left. by apply Hk. }
  intros [u|e].
  - apply triple_syscall.
    + intros d Hd. rewrite (h_backup _ _ _ _ _ _ _ Hd). cbn [is_some is_none negb]. destruct Hd as [Ho Hpath Hb Hs].
      split; [by apply others_remove|]. unfold visible. rewrite read_remove_ne, Hpath; [done|apply backup_ne].
    + intros d n Hd. assert (written d0 path content d) as Hw by (by eapply holds_written).
      split; [apply result_replaced|right]; by apply replaced_written.
  - apply (triple_bind _ _ _ (fun _ => kept d0 path)).
    + eapply triple_weaken; [by apply restore_backup_triple|done| |intros d Hd; left; by apply Hk].
      intros r d [Hd|Hd]; (enough (kept d0 path d) by (destruct r; [done|by apply result_kept])); [|by apply Hk].
      by eapply before_kept.
    + intros _. apply (triple_bind _ _ _ (fun _ => kept d0 path)).
      * eapply triple_weaken; [by apply discard_temp_triple|done| |by left]. intros [u|e'] d Hd; [done|by apply result_kept].
      * intros _. apply triple_fail. intros d. apply result_kept.
Qed.
Lemma place_state_triple :
  triple (before p0 b0 (Some content))
    (do? present := exists_file path in
     if present : bool then
       remove_if_present (backup_of path) ;;?
       rename path (backup_of path) ;;?
       do? renamed := attempt (rename t path) in
       match renamed with
       | Err error => attempt (rename (backup_of path) path) ;;? discard t ;;? fail error
       | Ok _ => remove_file (backup_of path)
       end
     else rename t path)
    (fun r d => match r with Ok _ => written d0 path content d | Err e => finished (Err e) d end) crashed.
Proof.
  apply (triple_bind _ _ _ (fun present d => present = is_some p0 /\ before p0 b0 (Some content) d)).
  { apply triple_exists. intros d Hd. by rewrite (h_path _ _ _ _ _ _ _ Hd). }
  intros present. apply triple_pure. intros ->. destruct (read_path d0 path) as [old|] eqn:Hp; cbn [is_some is_none negb].
  - assert (forall d q s, before (Some old) q s d -> kept d0 path d) as Hk.
    { intros d q s Hd. eapply before_kept; [exact Hd|]. unfold visible. by rewrite Hp. }
    apply (triple_bind _ _ _ (fun _ => before (Some old) None (Some content))).
    + eapply triple_weaken; [by apply remove_backup_triple|done| |].
      * intros [[]|e] d; [done|]. intros [q Hd]. by eapply result_kept, Hk.
      * intros d [q Hd]. left. by eapply Hk.
    + intros []. apply (triple_bind _ _ _ (fun _ => before None (Some old) (Some content))); [|intros _; by apply swap_state_triple].
      eapply triple_weaken; [by apply save_triple|done| |].
      * intros [u|e] d Hd; [done|]. by eapply result_kept, Hk.
      * intros d Hd. left. by eapply Hk.
  - assert (forall d, before None b0 (Some content) d -> kept d0 path d) as Hk.
    { intros d Hd. eapply before_kept; [exact Hd|]. unfold visible. by rewrite Hp. }
    eapply triple_weaken; [by apply place_document_triple|done| |intros d Hd; left; by apply Hk].
    intros [u|e] d Hd; [by eapply holds_written|]. by apply result_kept, Hk.
Qed.
End StateReplace.
Lemma state_replace_triple {T : Type} `{Json T} (d0 : Disk) (path : Path) (value : T) :
  triple (fun d => d = d0) (release_json_replace path value) (replace_result d0 path value) (replace_crash d0 path value).
Proof.
  intros w Hw. unfold release_json_replace.
  unfold bind at 1, json_temporary, bind at 1, fetch_sequence, bind at 1, get_process_id, ret at 1. cbn [process_id].
  set (t := (path.1, path.2 +:+ "." +:+ pretty (process_id w) +:+ "-" +:+ pretty (sequence w) +:+ ".tmp")).
  set (w1 := mkWorld _ _ _ _).
  assert (beside path t) as Ht.
  { split; [done|]. exists (pretty (process_id w) +:+ "-" +:+ pretty (sequence w)). cbn. by rewrite <- !app_assoc_str. }
  assert (disk w1 = d0) as Hw1 by exact Hw. clearbody w1 t. clear Hw w. rename w1 into w, Hw1 into Hw.
  unfold release_write_json_new. unfold bind at 1, bind at 1, lift.
  destruct (to_vec value) as [content|e] eqn:Hc; [|apply result_kept; by rewrite Hw].
  destruct (_ <? len content); [unfold fail; apply result_kept; by rewrite Hw|].
  pose proof (stage_state_triple d0 path value content t Ht w Hw) as Hstage.
  destruct (release_write_bytes_new t content w) as [w' [[u|e]|]]; [|done..].
  revert w' Hstage.
  match goal with |- forall w', _ -> match ?m w' with _ => _ end =>
    enough (triple (holds d0 path t (read_path d0 path) (read_path d0 (backup_of path)) (Some content)) m
              (replace_result d0 path value) (replace_crash d0 path value)) as Hm by exact Hm end.
  apply triple_assoc. apply (triple_bind _ _ _ (fun _ => written d0 path content)); [by apply place_state_triple|].
  intros _. apply triple_syscall; [intros d Hd|intros d n Hd; split; [|right]]; try apply result_replaced; by exists content.
Qed.

(** ** Artifacts *)
Lemma mkdir_reads (d : Disk) dir q : d !! dir = None -> read_path (<[dir := ∅]> d) q = read_path d q.
Proof.
  intros Hd. unfold read_path. destruct (decide (q.1 = dir)) as [<-|Hne]; [|by rewrite lookup_insert_ne].
  by rewrite lookup_insert_eq, Hd.
Qed.
Section Updates.
Context `{Ext : Externals} `{Hex : HexDecode} `{SV : !Semver} `{UC : UrlCrate} `{ZC : !ZipCrate} `{TC : !TomlCrate} `{ED : !Ed25519}.
Context `{JI : Json PackageIdentity} `{JR : Json RotationPayload} `{JV : Json RevocationPayload}.
Context `{JP : Json ReleasePayload} `{JU : Json UpdateState} `{JD : Json StateDocument} `{DD : JsonDecode StateDocument}.

Definition has_digest (content : bytes) (bytes : N) (sha256 : string) : Prop := len content = bytes /\ hex_sha256 content = sha256.
(** Files beside the state stay; the state and its backup are as they were. *)
Definition files_kept (root : string) (d0 d : Disk) : Prop :=
  (forall q c, q.1 <> root -> read_path d0 q = Some c -> read_path d q = Some c)
  /\ (forall q, q.1 = root -> read_path d q = read_path d0 q).
Lemma files_kept_write root d0 d q c : q.1 <> root -> read_path d0 q = None -> files_kept root d0 d -> files_kept root d0 (write_path d q c).
Proof.
  intros Hq Hn [Hk Hr]. split; [intros q' c' Hq' Hc'|intros q' Hq']; rewrite read_write_ne; auto; congruence.
Qed.
Lemma files_kept_remove root d0 d q : q.1 <> root -> read_path d0 q = None -> files_kept root d0 d -> files_kept root d0 (remove_path d q).
Proof.
  intros Hq Hn [Hk Hr]. split; [intros q' c' Hq' Hc'|intros q' Hq']; rewrite read_remove_ne; auto; congruence.
Qed.
Lemma files_kept_visible root d0 d : files_kept root d0 d -> visible d (state_path root) = visible d0 (state_path root).
Proof. intros [_ Hr]. unfold visible. by rewrite !Hr. Qed.
Lemma version_directory_ne root version : version_directory root version <> root.
Proof. unfold version_directory, releases. rewrite <- app_assoc_str. by apply append_ne. Qed.

Lemma verify_artifact_spec path artifact w :
  exists r, verify_artifact path artifact w = (w, Done r)
    /\ (r = Ok tt -> exists c, read_path w.(disk) path = Some c /\ has_digest c artifact.(rt_bytes) artifact.(rt_sha256)).
Proof.
  unfold verify_artifact, hash_regular_file, release_read_bounded, read_file, bind, ret, fail.
  destruct (read_path (disk w) path) as [c|]; cbn [ok_or]; [|by eexists]. destruct (_ <? len c); [by eexists|].
  destruct (_ || _) eqn:Hg; [by eexists|]. eexists. split; [done|]. intros _. split_guard. exists c. by repeat split.
Qed.
Lemma discard_kept root d0 q :
  q.1 <> root -> read_path d0 q = None -> triple (files_kept root d0) (discard q) (fun _ => files_kept root d0) (files_kept root d0).
Proof.
  intros Hq Hn. apply (triple_bind _ _ _ (fun _ => files_kept root d0)); [|intros _; by apply triple_ret].
  apply triple_attempt, triple_syscall; [|done]. intros d Hd. destruct (is_some _); [|done]. by apply files_kept_remove.
Qed.
Lemma copy_runtime_triple root d0 source destination limit :
  destination.1 <> root -> read_path d0 destination = None ->
  triple (files_kept root d0) (copy_runtime_new source destination limit)
    (fun r d => files_kept root d0 d
       /\ match r with Ok (bytes, sha256) => exists c, read_path d destination = Some c /\ has_digest c bytes sha256 | Err _ => True end)
    (files_kept root d0).
Proof.
  intros Hq Hn w Hw. unfold copy_runtime_new. unfold bind at 1, release_read_bounded, bind at 1, read_file.
  destruct (ok_or _ _) as [content|e]; [|done]. destruct (_ <? len content); [done|]. unfold ret at 1. revert w Hw.
  match goal with |- forall w, _ -> match ?m w with _ => _ end =>
    enough (triple (files_kept root d0) m
      (fun r d => files_kept root d0 d
         /\ match r with Ok (bytes, sha256) => exists c, read_path d destination = Some c /\ has_digest c bytes sha256 | Err _ => True end)
      (files_kept root d0)) as Hm by exact Hm end.
  apply (triple_bind _ _ _ (fun _ d => files_kept root d0 d /\ is_Some (d !! destination.1))).
  { apply triple_syscall; [|done]. intros d Hd. destruct (d !! destination.1) as [x|] eqn:Hx; [|done]. destruct (is_some _); [done|].
    split; [by apply files_kept_write|]. apply is_dir_write. by exists x. }
  intros _. apply (triple_bind _ _ _ (fun r d => files_kept root d0 d /\ (is_ok r = true -> read_path d destination = Some content))).
  { apply triple_attempt, triple_syscall.
    - intros d [Hd Hx]. split; [by apply files_kept_write|]. intros _. by apply read_write_eq.
    - intros d n [Hd _]. split; [split; [by apply files_kept_write|done]|by apply files_kept_write]. }
  intros [u|e].
  - apply triple_ret. intros d [Hd Hr]. split; [done|]. exists content. by rewrite Hr.
  - apply (triple_bind _ _ _ (fun _ => files_kept root d0)); [|intros _; by apply triple_fail].
    eapply triple_weaken; [by apply (discard_kept root d0 destination)|by intros d [Hd _]|by intros [u|e'] d Hd|done].
Qed.
Lemma place_artifact_triple root d0 source destination artifact :
  destination.1 <> root ->
  triple (files_kept root d0) (place_artifact source destination artifact)
    (fun r d => files_kept root d0 d
       /\ (r = Ok tt -> exists c, read_path d destination = Some c /\ has_digest c artifact.(rt_bytes) artifact.(rt_sha256)))
    (files_kept root d0).
Proof.
  intros Hq w Hw. unfold place_artifact. unfold bind at 1, exists_file.
  destruct (read_path (disk w) destination) as [c|] eqn:Hc; cbn [is_some is_none negb].
  - destruct (verify_artifact_spec source artifact w) as (r1 & H1 & _). destruct (verify_artifact_spec destination artifact w) as (r2 & H2 & Hok).
    unfold bind at 1. rewrite H1. destruct r1 as [[]|e]; [|done]. unfold bind, attempt. rewrite H2.
    destruct r2 as [[]|e]; [|done]. split; [done|]. intros _. by apply Hok.
  - assert (read_path d0 destination = None) as Hn.
    { destruct (read_path d0 destination) as [c|] eqn:H0; [|done]. destruct Hw as [Hk _]. rewrite (Hk _ _ Hq H0) in Hc. done. }
    clear Hc. revert w Hw.
    match goal with |- forall w, _ -> match ?m w with _ => _ end =>
      enough (triple (files_kept root d0) m
        (fun r d => files_kept root d0 d
           /\ (r = Ok tt -> exists c, read_path d destination = Some c /\ has_digest c artifact.(rt_bytes) artifact.(rt_sha256)))
        (files_kept root d0)) as Hm by exact Hm end.
    apply (triple_bind _ _ _ (fun p d => files_kept root d0 d /\ exists c, read_path d destination = Some c /\ has_digest c p.1 p.2)).
    { eapply triple_weaken; [by apply (copy_runtime_triple root d0 source destination)|done| |done]. by intros [[bytes sha]|e] d [Hd Hr]. }
    intros [bytes sha]. destruct (_ || _) eqn:Hg.
    + apply (triple_bind _ _ _ (fun _ => files_kept root d0)); [|intros _; by apply triple_fail].
      eapply triple_weaken; [by apply (discard_kept root d0 destination)|by intros d [Hd _]|by intros [u|e'] d Hd|done].
    + apply triple_ret. intros d [Hd Hr]. split; [done|]. intros _. split_guard. cbn [fst snd] in Hr. by subst.
Qed.

(** The active and the previous release can be run: their artifacts are on disk,
    whole. *)
Definition runnable (d : Disk) (root : string) (state : UpdateState) : Prop :=
  forall r, state.(us_active) = Some r \/ state.(us_previous) = Some r ->
    exists c, read_path d (installed_path root r) = Some c /\ has_digest c r.(ir_bytes) r.(ir_sha256).
(** The state document on disk is that of a valid state. *)
Definition saved (u : Updater) (state : UpdateState) (d : Disk) : Prop :=
  validate_update_state state u.(up_state).(us_channel) = Ok tt
  /\ exists document content, new_document state = Ok document /\ to_vec document = Ok content
       /\ visible d (state_path u.(up_root)) = Some content.
Lemma runnable_mono root d d' state :
  (forall q c, q.1 <> root -> read_path d q = Some c -> read_path d' q = Some c) -> runnable d root state -> runnable d' root state.
Proof.
  intros Hm Hr r Hin. destruct (Hr r Hin) as (c & Hc & Hd). exists c. split; [|done]. apply Hm; [|done]. apply version_directory_ne.
Qed.
Lemma save_state_triple u next d1 :
  triple (fun d => d = d1) (save_state u next)
    (fun r d => other_directories d1 (state_path u.(up_root)) d
       /\ (visible d (state_path u.(up_root)) = visible d1 (state_path u.(up_root)) \/ saved u next d) /\ (r = Ok tt -> saved u next d))
    (fun d => other_directories d1 (state_path u.(up_root)) d
       /\ (visible d (state_path u.(up_root)) = visible d1 (state_path u.(up_root)) \/ saved u next d)).
Proof.
  intros w Hw. unfold save_state. unfold bind at 1, lift at 1. destruct (validate_update_state _ _) as [[]|e] eqn:Hv; cycle 1.
  { cbn. rewrite Hw. split; [done|]. split; [by left|discriminate]. }
  unfold bind at 1, lift at 1. destruct (new_document next) as [document|e] eqn:Hdoc; cycle 1.
  { cbn. rewrite Hw. split; [done|]. split; [by left|discriminate]. }
  pose proof (state_replace_triple d1 (state_path (up_root u)) document w Hw) as Ht.
  assert (forall d, replaced_by d1 (state_path (up_root u)) document d -> other_directories d1 (state_path (up_root u)) d /\ saved u next d) as Hs.
  { intros d (content & Hc & Ho & Hvis). split; [done|]. split; [done|]. by exists document, content. }
  assert (forall d, replace_crash d1 (state_path (up_root u)) document d -> other_directories d1 (state_path (up_root u)) d
    /\ (visible d (state_path (up_root u)) = visible d1 (state_path (up_root u)) \/ saved u next d)) as Hcr.
  { intros d [[Ho Hvis]|[Ho Hsv]%Hs]; (split; [done|]); [by left|by right]. }
  destruct (release_json_replace _ _ w) as [w' [r|]]; [|by apply Hcr]. destruct Ht as [Hor Hok].
  destruct (Hcr _ Hor) as [Ho Hvis]. split; [done|]. split; [done|]. intros Hr. by apply Hs, Hok.
Qed.
Lemma installed_release_path root release artifact target :
  installed_path root (installed_release release artifact target)
  = (version_directory root release.(sr_payload).(rl_version), artifact.(rt_filename)).
Proof.
  unfold installed_path, installed_release, release_prefix. cbn [ir_version ir_relative_path].
  rewrite !app_assoc_str. by rewrite strip_prefix_back.
Qed.
Lemma activate_runnable d root state installed :
  runnable d root state ->
  (exists c, read_path d (installed_path root installed) = Some c /\ has_digest c installed.(ir_bytes) installed.(ir_sha256)) ->
  runnable d root (activate state installed).
Proof.
  intros Hr Hi r. unfold activate. cbn [us_active us_previous]. intros [[= <-]|Hp]; [done|].
  destruct (bool_decide _); apply Hr; [by right|by left].
Qed.
(** What an installation must have checked *)
Definition authorised (u : Updater) release trust target updater_version allow_downgrade (installed : InstalledRelease) : Prop :=
  verify_release release trust updater_version = Ok tt
  /\ release.(sr_payload).(rl_channel) = u.(up_state).(us_channel)
  /\ check_downgrade u.(up_state).(us_active) release.(sr_payload).(rl_version) allow_downgrade = Ok tt
  /\ exists artifact, find_artifact release.(sr_payload) target = Ok artifact /\ installed = installed_release release artifact target.

Section Install.
Context (u : Updater) (release : SignedRelease) (trust : TrustStore) (source : Path) (target updater_version : string).
Context (allow_downgrade : bool) (d0 : Disk) (Hrun : runnable d0 u.(up_root) u.(up_state)).
#[local] Abbreviation root := u.(up_root).
Definition installs (installed : InstalledRelease) (d : Disk) : Prop :=
  authorised u release trust target updater_version allow_downgrade installed
  /\ saved u (activate u.(up_state) installed) d /\ runnable d root (activate u.(up_state) installed).
Definition install_outcome (d : Disk) : Prop :=
  (forall q c, q.1 <> root -> read_path d0 q = Some c -> read_path d q = Some c)
  /\ runnable d root u.(up_state)
  /\ (visible d (state_path root) = visible d0 (state_path root) \/ exists installed, installs installed d).
Lemma kept_outcome d : files_kept root d0 d -> install_outcome d.
Proof.
  intros Hd. split; [apply Hd|]. split; [eapply runnable_mono; [apply Hd|done]|]. left. by apply files_kept_visible.
Qed.
Definition install_result (r : result string (Updater * InstalledRelease)) (d : Disk) : Prop :=
  install_outcome d
  /\ match r with
     | Ok (u', installed) => u' = mkUpdater root (activate u.(up_state) installed) /\ installs installed d
     | Err _ => True
     end.
Lemma kept_result e d : files_kept root d0 d -> install_result (Err e) d.
Proof. intros Hd. split; [by apply kept_outcome|done]. Qed.
Lemma ensure_version_triple version :
  triple (files_kept root d0) (ensure_directory (version_directory root version)) (fun _ => files_kept root d0) (files_kept root d0).
Proof.
  intros w Hw. unfold ensure_directory. destruct (disk w !! _) as [x|] eqn:Hx; [done|]. cbn [is_some is_none negb].
  unfold syscall, untouched.
  assert (files_kept root d0 (<[version_directory root version := ∅]> (disk w))) as Hnew.
  { destruct Hw as [Hk Hr]. split; [intros q c Hq Hc|intros q Hq]; rewrite mkdir_reads by done; auto. }
  by destruct (fates w) as [|[|n|n] l].
Qed.
Lemma finish_install_triple artifact :
  let installed := installed_release release artifact target in
  authorised u release trust target updater_version allow_downgrade installed ->
  triple (fun d => files_kept root d0 d
            /\ exists c, read_path d (installed_path root installed) = Some c /\ has_digest c artifact.(rt_bytes) artifact.(rt_sha256))
    (save_state u (activate u.(up_state) installed) ;;? ret (mkUpdater root (activate u.(up_state) installed), installed))
    install_result install_outcome.
Proof.
  intros installed Hauth w [Hkept Hart]. set (next := activate u.(up_state) installed).
  pose proof (save_state_triple u next (disk w) w eq_refl) as Hsave.
  assert (forall d, other_directories (disk w) (state_path root) d ->
    (forall q c, q.1 <> root -> read_path d0 q = Some c -> read_path d q = Some c)
    /\ runnable d root u.(up_state) /\ runnable d root next) as Hoth.
  { intros d Ho. assert (forall q c, q.1 <> root -> read_path (disk w) q = Some c -> read_path d q = Some c) as Hmono
      by (intros q c Hq Hc; by rewrite Ho). destruct Hkept as [Hk _].
    assert (runnable (disk w) root u.(up_state)) as Hrun' by (by eapply runnable_mono).
    split; [auto|]. split; (eapply runnable_mono; [exact Hmono|]); [done|]. by apply activate_runnable. }
  rewrite (files_kept_visible root d0 (disk w) Hkept) in Hsave.
  assert (forall d, other_directories (disk w) (state_path root) d /\ (visible d (state_path root) = visible d0 (state_path root) \/ saved u next d) ->
    install_outcome d) as Hout.
  { intros d [Ho Hvis]. destruct (Hoth d Ho) as (H1 & H2 & H3). split; [done|]. split; [done|].
    destruct Hvis as [?|?]; [by left|right]. by exists installed. }
  unfold bind. destruct (save_state u next w) as [w' [[[]|e]|]].
  - destruct Hsave as (Ho & Hvis & Hok). split; [by apply Hout|]. split; [done|]. split; [done|]. split; [by apply Hok|by apply Hoth].
  - destruct Hsave as (Ho & Hvis & _). split; [by apply Hout|done].
  - by apply Hout.
Qed.
Lemma install_triple :
  triple (fun d => d = d0) (install u release trust source target updater_version allow_downgrade) install_result install_outcome.
Proof.
  assert (files_kept root d0 d0) as H0 by done. unfold install.
  apply (triple_bind _ _ _ (fun _ d => verify_release release trust updater_version = Ok tt /\ d = d0)).
  { apply triple_lift. intros d ->. destruct (verify_release _ _ _) as [[]|e]; [done|by apply kept_result]. }
  intros _. apply triple_pure. intros Hver. destruct (bool_decide _) eqn:Hch; cbn [negb]; cycle 1.
  { apply triple_fail. intros d ->. by apply kept_result. }
  bprop. apply (triple_bind _ _ _ (fun artifact d => find_artifact (sr_payload release) target = Ok artifact /\ d = d0)).
  { apply triple_lift. intros d ->. destruct (find_artifact _ _) as [artifact|e]; [done|by apply kept_result]. }
  intros artifact. apply triple_pure. intros Hart.
  apply (triple_bind _ _ _ (fun _ d => check_downgrade (us_active (up_state u)) (rl_version (sr_payload release)) allow_downgrade = Ok tt /\ d = d0)).
  { apply triple_lift. intros d ->. destruct (check_downgrade _ _ _) as [[]|e]; [done|by apply kept_result]. }
  intros _. apply triple_pure. intros Hdown. cbv zeta.
  set (dir := version_directory root (rl_version (sr_payload release))).
  apply (triple_bind _ _ _ (fun _ => files_kept root d0)).
  { eapply triple_weaken; [apply ensure_version_triple|by intros d ->| |by apply kept_outcome]. intros [x|e] d Hd; [done|by apply kept_result]. }
  intros _. apply (triple_bind _ _ _ (fun _ => files_kept root d0)).
  { apply triple_syscall; [done|]. intros d n Hd. split; [by apply kept_result|by apply kept_outcome]. }
  intros _. apply (triple_bind _ _ _ (fun _ d => files_kept root d0 d
    /\ exists c, read_path d (dir, artifact.(rt_filename)) = Some c /\ has_digest c artifact.(rt_bytes) artifact.(rt_sha256))).
  { eapply triple_weaken; [apply (place_artifact_triple root d0); apply version_directory_ne|done| |by apply kept_outcome].
    intros [[]|e] d [Hd Hok]; [split; [done|by apply Hok]|by apply kept_result]. }
  intros _. pose proof (finish_install_triple artifact) as Hfin. cbv zeta in Hfin. rewrite installed_release_path in Hfin.
  apply Hfin. repeat split; try done. by exists artifact.
Qed.
End Install.

(** An installation survives a crash anywhere and leaves a runtime that can be
    run and rolled back.  From a state whose active and previous artifacts are on
    disk, whatever calls fail and wherever the process dies: no file but the state
    changes, the old state stays runnable, and the state a reader sees is the old
    one, or the valid one that activates a release which the trust store verified,
    of this channel and not older than the active one unless that was allowed, and
    both artifacts of the new state are on disk, whole, with their signed length
    and digest.  An answer means the new state. *)
Theorem install_survives_crash (u : Updater) release trust source target updater_version allow_downgrade (w : World) :
  runnable w.(disk) u.(up_root) u.(up_state) ->
  let installs installed d := installs u release trust target updater_version allow_downgrade installed d in
  let '(w', o) := install u release trust source target updater_version allow_downgrade w in
  (forall q c, q.1 <> u.(up_root) -> read_path w.(disk) q = Some c -> read_path w'.(disk) q = Some c)
  /\ runnable w'.(disk) u.(up_root) u.(up_state)
  /\ (visible w'.(disk) (state_path u.(up_root)) = visible w.(disk) (state_path u.(up_root)) \/ exists installed, installs installed w'.(disk))
  /\ match o with
     | Done (Ok (u', installed)) => u' = mkUpdater u.(up_root) (activate u.(up_state) installed) /\ installs installed w'.(disk)
     | _ => True
     end.
Proof.
  cbn zeta. intros Hrun. pose proof (install_triple u release trust source target updater_version allow_downgrade (disk w) Hrun w eq_refl) as Ht.
  destruct (install _ _ _ _ _ _ _ w) as [w' [r|]]; [destruct Ht as [(H1 & H2 & H3) H4]|destruct Ht as (H1 & H2 & H3)]; split_and!; try done.
Qed.

(** ** Rolling back *)
Definition swapped (state : UpdateState) : UpdateState :=
  mkUpdateState state.(us_format_version) state.(us_channel) state.(us_previous) state.(us_active) state.(us_installed).
Lemma swapped_twice state : swapped (swapped state) = state.
Proof. by destruct state. Qed.
Lemma runnable_swapped d root state : runnable d root state -> runnable d root (swapped state).
Proof. intros Hr r Hin. apply Hr. cbn in Hin. tauto. Qed.
Lemma verify_installed_pure root value w : exists r, verify_installed root value w = (w, Done r).
Proof.
  unfold verify_installed, hash_regular_file, release_read_bounded, read_file, bind, lift, ret, fail.
  destruct (validate_installed value); [|by eexists]. destruct (ok_or _ _) as [c|]; [|by eexists]. destruct (_ <? len c); [by eexists|].
  destruct (_ || _); by eexists.
Qed.
(** A rollback survives a crash anywhere: whatever calls fail and wherever the
    process dies, the artifacts stay, and the state a reader sees is the old one or
    the valid one with the active and the previous release exchanged, both
    runnable; an answer is the previous release and means the new state, so that a
    second rollback leads back. *)
Theorem runtime_rollback_survives_crash (u : Updater) (w : World) :
  runnable w.(disk) u.(up_root) u.(up_state) ->
  let '(w', o) := rollback u w in
  (forall q, q.1 <> u.(up_root) -> read_path w'.(disk) q = read_path w.(disk) q)
  /\ runnable w'.(disk) u.(up_root) u.(up_state) /\ runnable w'.(disk) u.(up_root) (swapped u.(up_state))
  /\ (visible w'.(disk) (state_path u.(up_root)) = visible w.(disk) (state_path u.(up_root)) \/ saved u (swapped u.(up_state)) w'.(disk))
  /\ match o with
     | Done (Ok (u', r)) => u' = mkUpdater u.(up_root) (swapped u.(up_state)) /\ u.(up_state).(us_previous) = Some r
                            /\ saved u (swapped u.(up_state)) w'.(disk)
     | _ => True
     end.
Proof.
  intros Hrun. pose proof (runnable_swapped _ _ _ Hrun) as Hsw. unfold rollback.
  destruct (us_previous (up_state u)) as [previous|] eqn:Hprev; [|by split_and!; auto].
  destruct (verify_installed_pure (up_root u) previous w) as [r Hv]. unfold bind at 1. rewrite Hv.
  destruct r as [[]|e]; [|by split_and!; auto]. cbv zeta. rewrite <- Hprev. fold (swapped (up_state u)).
  pose proof (save_state_triple u (swapped (up_state u)) (disk w) w eq_refl) as Hsave.
  assert (forall d state, other_directories (disk w) (state_path (up_root u)) d -> runnable (disk w) (up_root u) state -> runnable d (up_root u) state) as Hm.
  { intros d state Ho. apply runnable_mono. intros q c Hq Hc. by rewrite Ho. }
  unfold bind. destruct (save_state _ _ w) as [w' [[[]|e]|]]; [destruct Hsave as (Ho & Hvis & Hok)|destruct Hsave as (Ho & Hvis & _)|destruct Hsave as [Ho Hvis]];
    (split; [exact Ho|]; split; [by apply Hm|]; split; [by apply Hm|]; split; [done|]); [|done..].
  split; [done|]. split; [done|]. by apply Hok.
Qed.

(** The active version cannot be issued again: a release of the version that
    is active, which differs from it in its key, target, file or digest, is never
    installed, because the release it replaces becomes the previous one and is
    then missing from the index. *)
Theorem reissued_version_is_refused (u : Updater) release trust source target updater_version allow_downgrade a artifact (w : World) :
  runnable w.(disk) u.(up_root) u.(up_state) -> u.(up_state).(us_active) = Some a ->
  a.(ir_version) = release.(sr_payload).(rl_version) -> find_artifact release.(sr_payload) target = Ok artifact ->
  installed_release release artifact target <> a ->
  match (install u release trust source target updater_version allow_downgrade w).2 with Done (Ok _) => False | _ => True end.
Proof.
  intros Hrun Ha Hver Hart Hne.
  pose proof (install_triple u release trust source target updater_version allow_downgrade (disk w) Hrun w eq_refl) as Ht.
  destruct (install _ _ _ _ _ _ _ w) as [w' [[[u' i]|e]|]]; [|done..]. cbn [snd].
  destruct Ht as (_ & _ & (_ & _ & _ & artifact' & Hart' & Hi) & [Hval _] & _). assert (artifact' = artifact) as -> by congruence. subst i.
  set (i := installed_release release artifact target) in *.
  revert Hval. unfold validate_update_state. pass Hg. succeed t1 H1. succeed t2 H2.
  unfold activate. cbn [us_active us_previous us_installed option_list app]. rewrite Ha, bool_decide_eq_false_2 by congruence.
  change (option_list (Some i) ++ option_list (Some a)) with [i; a]. cbn [check_current]. succeed t3 H3. pass H4. succeed t4 H5. pass H6. bprop.
  rewrite Hver in *. change (rl_version (sr_payload release)) with (ir_version i) in *. congruence.
Qed.
End Updates.

(** ** A concrete release *)
Section ReleaseWitness.
#[local] Existing Instance demo_externals.
#[local] Existing Instance demo_hex.
#[local] Existing Instance demo_semver.
#[local] Existing Instance toy_signatures.
#[local] Existing Instance rotation_json.
#[local] Existing Instance revocation_json.
#[local] Instance release_json : Json ReleasePayload := demo_json.
#[local] Instance state_json : Json UpdateState := demo_json.
#[local] Instance document_json : Json StateDocument := demo_json.
Definition linux_artifact : ReleaseArtifact := mkReleaseArtifact "linux" "runtime" 1 (hex_sha256 [x01]).
Definition first_release : SignedRelease :=
  mkSignedRelease (mkReleasePayload 1 "stable" "1.0.0" 5 "1.0.0" [linux_artifact]) "ed25519" (developer_key_id first_key)
    (public_key_hex first_key) (hex_encode (replicate 64 x00)).
Definition fresh_updater : Updater := mkUpdater "root" (mkUpdateState 1 "stable" None None ∅).
Definition fresh_world : World := mkWorld {["home" := {["download" := [x01]]}; "root" := ∅]} 0 7 [].
Definition first_installed : InstalledRelease := installed_release first_release linux_artifact "linux".
Definition installed_updater : Updater := mkUpdater "root" (activate fresh_updater.(up_state) first_installed).
Definition installed_world : World := (install fresh_updater first_release first_trusted ("home", "download") "linux" "1.0.0" false fresh_world).1.
Lemma first_install :
  (install fresh_updater first_release first_trusted ("home", "download") "linux" "1.0.0" false fresh_world).2
  = Done (Ok (installed_updater, first_installed)).
Proof. vm_compute. reflexivity. Qed.
Lemma install_survives_crash_witness : runnable installed_world.(disk) "root" installed_updater.(up_state).
Proof.
  pose proof (install_survives_crash fresh_updater first_release first_trusted ("home", "download") "linux" "1.0.0" false fresh_world) as H.
  specialize (H ltac:(intros r [Hr|Hr]; discriminate Hr)). pose proof first_install as Hi. revert H Hi. unfold installed_world.
  destruct (install _ _ _ _ _ _ _ fresh_world) as [w' o]. intros (_ & _ & _ & H) Hi. cbn [snd] in Hi. rewrite Hi in H. apply H.
Defined.
Lemma installed_runnable : runnable installed_world.(disk) "root" installed_updater.(up_state).
Proof.
  intros r [Hr|Hr]; [|discriminate Hr]. injection Hr as <-. exists [x01]. split; [vm_compute; reflexivity|]. split; vm_compute; reflexivity.
Qed.
Lemma runtime_rollback_survives_crash_witness : runnable (rollback installed_updater installed_world).1.(disk) "root" installed_updater.(up_state).
Proof.
  pose proof (runtime_rollback_survives_crash installed_updater installed_world installed_runnable) as H.
  destruct (rollback _ _) as [w' o]. apply H.
Defined.
Definition both_trusted : TrustStore :=
  mkTrustStore 1 {[developer_key_id first_key := first_entry;
                   developer_key_id second_key := mkTrustEntry (developer_key_id second_key) (public_key_hex second_key) "second" ∅]} ∅ [].
Lemma reissued_version_is_refused_witness :
  match (install installed_updater
           (mkSignedRelease first_release.(sr_payload) "ed25519" (developer_key_id second_key) (public_key_hex second_key) (hex_encode (replicate 64 x00)))
           both_trusted ("home", "download") "linux" "1.0.0" false installed_world).2 with Done (Ok _) => False | _ => True end.
Proof.
  apply (reissued_version_is_refused installed_updater _ both_trusted ("home", "download") "linux" "1.0.0" false first_installed linux_artifact installed_world installed_runnable).
  - reflexivity.
  - reflexivity.
  - reflexivity.
  - intros H. apply (f_equal (fun i => bool_decide (i.(ir_signing_key_id) = developer_key_id first_key))) in H. vm_compute in H. discriminate H.
Defined.
End ReleaseWitness.
