(* ===== verification/RolloutStatus.v ===== *)
(** * The status of a rollout ([rollout.rs])

    The report that a rollout record is summarised in, with its own digest, and
    that every valid record has one. *)
From S2P Require Import Prelude Text Core Rolling Plan Events Rollout.

Record RolloutStatus := mkRolloutStatus {
  rs_format_version : N;
  rs_rollout_id : string;
  rs_stack : string;
  rs_phase : RolloutPhase;
  rs_created_at_ms : N;
  rs_updated_at_ms : N;
  rs_previous_revision : option N;
  rs_previous_generation : option string;
  rs_previous_state : option EngineStackState;
  rs_previous_plan_sha256 : option string;
  rs_candidate_plan_sha256 : string;
  rs_activated_revision : option N;
  rs_activated_generation : option string;
  rs_rollback_revision : option N;
  rs_rollback_generation : option string;
  rs_health_report_sha256 : option string;
  checkpoint_sha256 : string;
  status_sha256 : string;
}.
Definition with_status_sha256 (s : RolloutStatus) (sha : string) : RolloutStatus :=
  mkRolloutStatus s.(rs_format_version) s.(rs_rollout_id) s.(rs_stack) s.(rs_phase) s.(rs_created_at_ms) s.(rs_updated_at_ms)
    s.(rs_previous_revision) s.(rs_previous_generation) s.(rs_previous_state) s.(rs_previous_plan_sha256) s.(rs_candidate_plan_sha256)
    s.(rs_activated_revision) s.(rs_activated_generation) s.(rs_rollback_revision) s.(rs_rollback_generation)
    s.(rs_health_report_sha256) s.(checkpoint_sha256) sha.
Definition previous_valid (self : RolloutStatus) : bool :=
  match self.(rs_previous_revision), self.(rs_previous_generation), self.(rs_previous_state), self.(rs_previous_plan_sha256) with
  | None, None, None, None => true
  | Some revision, Some generation, Some EngineStackState.Removed, None => (0 <? revision) && is_digest generation
  | Some revision, Some generation, Some _, Some plan => (0 <? revision) && is_digest generation && is_digest plan
  | _, _, _, _ => false
  end.
Section RolloutStatus.
Context `{Ext : Externals} `{JP : !Json StackPlan} `{JI : !Json RolloutIdentity} `{JRo : !Json RolloutRecord} `{JS : !Json RolloutStatus}.
Definition status_computed_sha256 (self : RolloutStatus) : result string string :=
  let? bytes := to_vec (with_status_sha256 self "") in
  Ok (hex_sha256 bytes).
Definition validate_rollout_status (self : RolloutStatus) : result string unit :=
  if negb (self.(rs_format_version) =? ENGINE_ROLLOUT_FORMAT_VERSION) || negb (valid_name self.(rs_stack))
     || negb (previous_valid self) || negb (is_digest self.(rs_candidate_plan_sha256)) || negb (is_digest self.(checkpoint_sha256))
     || negb (is_digest self.(status_sha256)) || (self.(rs_created_at_ms) =? 0) || (self.(rs_updated_at_ms) <? self.(rs_created_at_ms))
  then Err "engine rollout status is invalid"
  else
    let? rid := rollout_id self.(rs_stack) self.(rs_created_at_ms) self.(rs_previous_revision) self.(rs_previous_generation)
                  self.(rs_candidate_plan_sha256) in
    if negb (bool_decide (self.(rs_rollout_id) = rid))
       || negb (valid_phase_fields self.(rs_phase) self.(rs_previous_revision) self.(rs_activated_revision)
                  self.(rs_activated_generation) self.(rs_rollback_revision) self.(rs_rollback_generation) self.(rs_health_report_sha256))
    then Err "engine rollout status is invalid"
    else
      let? sha := status_computed_sha256 self in
      if negb (bool_decide (sha = self.(status_sha256))) then Err "engine rollout status is invalid" else Ok tt.
Definition status_of_record (record : RolloutRecord) : RolloutStatus :=
  mkRolloutStatus record.(ro_format_version) record.(ro_rollout_id) record.(ro_stack) record.(ro_phase) record.(ro_created_at_ms)
    record.(ro_updated_at_ms) record.(previous_revision) record.(previous_generation) record.(previous_state)
    (sp_plan_sha256 <$> record.(previous_plan)) record.(candidate_plan).(sp_plan_sha256) record.(activated_revision)
    record.(activated_generation) record.(rollback_revision) record.(rollback_generation) record.(health_report_sha256)
    record.(record_sha256) "".
Definition from_record (record : RolloutRecord) : result string RolloutStatus :=
  let? _ := validate_record record in
  let value := status_of_record record in
  let? sha := status_computed_sha256 value in
  let value := with_status_sha256 value sha in
  let? _ := validate_rollout_status value in
  Ok value.
End RolloutStatus.

Section StatusTheorem.
Context `{Ext : Externals} `{JP : !Json StackPlan} `{JI : !Json RolloutIdentity} `{JRo : !Json RolloutRecord} `{JS : !Json RolloutStatus}.
Lemma valid_plan_digest plan : validate_plan plan = Ok tt -> is_digest plan.(sp_plan_sha256) = true.
Proof. unfold validate_plan. pass Hg. intros _. by apply orb_false_iff in Hg as [_ ?%negb_false_iff]. Qed.
Lemma valid_record_previous r :
  validate_previous r = Ok tt -> forall sha, previous_valid (with_status_sha256 (status_of_record r) sha) = true.
Proof.
  unfold validate_previous, previous_valid. intros H sha. cbn [with_status_sha256 status_of_record rs_previous_revision rs_previous_generation rs_previous_state rs_previous_plan_sha256].
  destruct (previous_revision r) as [revision|], (previous_generation r) as [generation|], (previous_state r) as [state|]; try done.
  - destruct ((0 <? revision) && is_digest generation) eqn:Hg; [|done]. destruct state.
    + destruct (previous_plan r) as [plan|]; [|done]. cbn [ok_or] in H. destruct (validate_plan plan) as [[]|] eqn:Hp; [|done].
      cbn. by rewrite (valid_plan_digest plan Hp).
    + destruct (previous_plan r) as [plan|]; [|done]. cbn [ok_or] in H. destruct (validate_plan plan) as [[]|] eqn:Hp; [|done].
      cbn. by rewrite (valid_plan_digest plan Hp).
    + by destruct (previous_plan r).
  - by destruct (previous_plan r).
Qed.
(** Every valid rollout record has a status: the summary is always built, is
    valid, and names the phase, the revisions, the plans and the checkpoint of the
    record. *)
Theorem valid_record_has_status `{!JsonTotal RolloutStatus} (r : RolloutRecord) :
  validate_record r = Ok tt ->
  exists sha, from_record r = Ok (with_status_sha256 (status_of_record r) sha)
    /\ validate_rollout_status (with_status_sha256 (status_of_record r) sha) = Ok tt.
Proof.
  intros Hr. unfold from_record. rewrite Hr. cbv zeta. unfold status_computed_sha256 at 1.
  destruct (to_vec_total (with_status_sha256 (status_of_record r) "")) as [b Hb]. rewrite Hb. exists (hex_sha256 b).
  enough (validate_rollout_status (with_status_sha256 (status_of_record r) (hex_sha256 b)) = Ok tt) as -> by done.
  revert Hr. unfold validate_record. succeed t1 Hplan. destruct t1. pass Hid. succeed rid Hrid. pass Hrec. succeed sha Hsha. pass Hsum.
  succeed t2 Hprev. destruct t2. intros Hphase. unfold validate_rollout_status.
  rewrite (valid_record_previous r Hprev).
  cbn [with_status_sha256 status_of_record rs_format_version rs_stack rs_candidate_plan_sha256 checkpoint_sha256 status_sha256 rs_created_at_ms rs_updated_at_ms rs_previous_revision rs_previous_generation rs_rollout_id rs_phase rs_activated_revision rs_activated_generation rs_rollback_revision rs_rollback_generation rs_health_report_sha256].
  rewrite (valid_plan_digest _ Hplan), hex_sha256_is_digest.
  apply orb_false_iff in Hid as [Hid Hupd]. apply orb_false_iff in Hid as [Hid Hcreated]. apply orb_false_iff in Hid as [Hid _].
  apply orb_false_iff in Hid as [Hid Hname]. apply orb_false_iff in Hid as [Hfmt _]. apply orb_false_iff in Hrec as [Hsame Hdig].
  rewrite Hfmt, Hname, Hdig, Hcreated, Hupd. cbn [negb orb]. unfold computed_rollout_id in Hrid. rewrite Hrid, Hsame. cbn [orb].
  unfold validate_phase in Hphase. destruct (valid_phase_fields _ _ _ _ _ _ _); [|done]. cbn [negb].
  unfold status_computed_sha256. change (with_status_sha256 (with_status_sha256 (status_of_record r) (hex_sha256 b)) "")
    with (with_status_sha256 (status_of_record r) ""). rewrite Hb. by rewrite bool_decide_eq_true_2.
Qed.
End StatusTheorem.
