(* ===== verification/Desktop.v ===== *)
(** * The desktop library ([crates/cartridge-desktop/src/lib.rs] and [gpu.rs])

    The catalog of installed packages, permission grants, launches with their
    history and safe mode, profiles, the files of the library as runs of system
    calls, and the checks of an accelerated command stream. *)
From stdpp Require Import pretty.
From S2P Require Import Prelude Text Core Storage Snapshot Directory Blob Network Manifest Files Archive IdentityFiles Release.

Definition LIBRARY_FORMAT_VERSION : N := 1.
Definition MAX_LIBRARY_DOCUMENT_BYTES : N := 8 * 1024 * 1024.
Definition MAX_INSTALLED_PACKAGES : N := 10000.
Definition MAX_LAUNCH_HISTORY : N := 4096.
Definition MAX_RESOURCE_SAMPLES_PER_LAUNCH : N := 2048.
Definition MAX_PROFILES : N := 1024.
Definition MAX_PROFILE_CARTRIDGES : N := 256.
Definition SAFE_MODE_CRASH_THRESHOLD : N := 3.
Definition MAX_PACKAGE_FILE_BYTES : N := 160 * 1024 * 1024.
Definition CARGO_PKG_VERSION : string := "0.1.0".
Definition u32_max : N := 4294967295.

(** ** Data *)
Module Capability.
Inductive t := Clock | Random | Assets | Storage | Graphics | Audio | Midi | Http | Serve.
#[global] Instance eq_dec : EqDecision t.
Proof. solve_decision. Defined.
Definition index (c : t) : N :=
  match c with
  | Clock => 0 | Random => 1 | Assets => 2 | Storage => 3 | Graphics => 4 | Audio => 5 | Midi => 6 | Http => 7 | Serve => 8
  end.
(** The order of the derived [Ord] *)
Definition all : list t := [Clock; Random; Assets; Storage; Graphics; Audio; Midi; Http; Serve].
Definition of_index (n : N) : option t := all !! N.to_nat n.
Lemma of_index_index c : of_index (index c) = Some c.
Proof. by destruct c. Qed.
#[global] Instance countable : Countable t := inj_countable index of_index of_index_index.
(** The iteration of a [BTreeSet<Capability>] *)
Definition iter (s : gset t) : list t := filter (fun c => c ∈ s) all.
Definition debug (c : t) : string :=
  match c with
  | Clock => "Clock" | Random => "Random" | Assets => "Assets" | Storage => "Storage" | Graphics => "Graphics" | Audio => "Audio"
  | Midi => "Midi" | Http => "Http" | Serve => "Serve"
  end.
(** The texts of [capability_request_digest] *)
Definition label (c : t) : string :=
  match c with
  | Clock => "clock" | Random => "random" | Assets => "assets" | Storage => "storage" | Graphics => "graphics" | Audio => "audio"
  | Midi => "midi" | Http => "http" | Serve => "serve"
  end.
End Capability.
Abbreviation Capabilities := (gset Capability.t).

Module LaunchStatus.
Inductive t := Running | Succeeded | Failed | Terminated.
#[global] Instance eq_dec : EqDecision t.
Proof. solve_decision. Defined.
End LaunchStatus.

Record InstalledVersion := mkInstalledVersion {
  iv_name : string;
  iv_description : string;
  iv_package_sha256 : string;
  iv_package_bytes : N;
  iv_relative_path : string;
  iv_requested_permissions : Capabilities;
  iv_installed_at_ms : N;
}.
#[global] Instance installed_version_eq_dec : EqDecision InstalledVersion.
Proof. solve_decision. Defined.
Record PersistentGrant := mkPersistentGrant {
  pg_cartridge_id : string;
  pg_capabilities : Capabilities;
  pg_approved_request_sha256 : string;
  pg_updated_at_ms : N;
}.
#[global] Instance persistent_grant_eq_dec : EqDecision PersistentGrant.
Proof. solve_decision. Defined.
Record Profile := mkProfile { pf_name : string; pf_cartridges : gset string }.
#[global] Instance profile_eq_dec : EqDecision Profile.
Proof. solve_decision. Defined.
Record ResourceSample := mkResourceSample { elapsed_ms : N; sample_fuel : N; memory_bytes : N; audio_underruns : N }.
#[global] Instance resource_sample_eq_dec : EqDecision ResourceSample.
Proof. solve_decision. Defined.
Record LaunchRecord := mkLaunchRecord {
  lr_id : N;
  lr_cartridge_id : string;
  lr_version : string;
  lr_started_at_ms : N;
  lr_finished_at_ms : option N;
  lr_status : LaunchStatus.t;
  lr_fuel_consumed : option N;
  lr_peak_memory_bytes : option N;
  lr_trace_path : option string;
  lr_resource_samples : list ResourceSample;
}.
#[global] Instance launch_record_eq_dec : EqDecision LaunchRecord.
Proof. solve_decision. Defined.
Record CartridgeHealth := mkCartridgeHealth { consecutive_failures : N; safe_mode : bool }.
#[global] Instance cartridge_health_eq_dec : EqDecision CartridgeHealth.
Proof. solve_decision. Defined.
Definition default_health : CartridgeHealth := mkCartridgeHealth 0 false.
Record LibraryDocument := mkLibraryDocument {
  ld_format_version : N;
  ld_runtime_channel : string;
  ld_runtime_version : string;
  ld_installed : gmap string (gmap string InstalledVersion);
  ld_grants : gmap string PersistentGrant;
  ld_profiles : gmap string Profile;
  ld_history : list LaunchRecord;
  ld_health : gmap string CartridgeHealth;
}.
#[global] Instance library_document_eq_dec : EqDecision LibraryDocument.
Proof. solve_decision. Defined.
Definition default_document : LibraryDocument :=
  mkLibraryDocument LIBRARY_FORMAT_VERSION "stable" CARGO_PKG_VERSION ∅ ∅ ∅ [] ∅.
Record LibraryEntry := mkLibraryEntry { le_cartridge_id : string; le_name : string; le_versions : list string; le_safe_mode : bool }.
Record CatalogPackage := mkCatalogPackage {
  cp_cartridge_id : string;
  cp_version : string;
  cp_package_sha256 : string;
  cp_package_bytes : N;
  cp_path : Path;
}.
Record PermissionPreflight := mkPreflight {
  pp_cartridge_id : string;
  pp_version : string;
  requested : Capabilities;
  granted : Capabilities;
  missing : Capabilities;
}.
Record PermissionRow := mkPermissionRow { row_capability : Capability.t; row_label : string; row_description : string }.
Record PermissionPrompt := mkPermissionPrompt {
  prompt_title : string;
  prompt_summary : string;
  prompt_rows : list PermissionRow;
  approve_label : string;
  deny_label : string;
}.
(** The library; its lock is held while it lives. *)
Record Library := mkLibrary {
  lb_root : string;
  lb_document : LibraryDocument;
  session_grants : gmap string Capabilities;
}.
Definition with_document (self : Library) (d : LibraryDocument) : Library := mkLibrary self.(lb_root) d self.(session_grants).
Definition with_installed (d : LibraryDocument) (x : gmap string (gmap string InstalledVersion)) : LibraryDocument :=
  mkLibraryDocument d.(ld_format_version) d.(ld_runtime_channel) d.(ld_runtime_version) x d.(ld_grants) d.(ld_profiles) d.(ld_history) d.(ld_health).
Definition with_grants (d : LibraryDocument) (x : gmap string PersistentGrant) : LibraryDocument :=
  mkLibraryDocument d.(ld_format_version) d.(ld_runtime_channel) d.(ld_runtime_version) d.(ld_installed) x d.(ld_profiles) d.(ld_history) d.(ld_health).
Definition with_profiles (d : LibraryDocument) (x : gmap string Profile) : LibraryDocument :=
  mkLibraryDocument d.(ld_format_version) d.(ld_runtime_channel) d.(ld_runtime_version) d.(ld_installed) d.(ld_grants) x d.(ld_history) d.(ld_health).
Definition with_launches (d : LibraryDocument) (x : list LaunchRecord) (h : gmap string CartridgeHealth) : LibraryDocument :=
  mkLibraryDocument d.(ld_format_version) d.(ld_runtime_channel) d.(ld_runtime_version) d.(ld_installed) d.(ld_grants) d.(ld_profiles) x h.
Definition with_release (d : LibraryDocument) (channel version : string) : LibraryDocument :=
  mkLibraryDocument d.(ld_format_version) channel version d.(ld_installed) d.(ld_grants) d.(ld_profiles) d.(ld_history) d.(ld_health).

(** ** Pure helpers *)
Definition capabilities (value : Permissions) : Capabilities :=
  list_to_set ((filter (fun p => p.2 = true)
    [(Capability.Clock, value.(clock)); (Capability.Random, value.(random)); (Capability.Assets, value.(Manifest.assets));
     (Capability.Storage, value.(storage)); (Capability.Graphics, value.(graphics)); (Capability.Audio, value.(audio));
     (Capability.Midi, value.(midi)); (Capability.Http, value.(http)); (Capability.Serve, value.(serve))]).*1).
Definition permission_row (capability : Capability.t) : PermissionRow :=
  match capability with
  | Capability.Clock => mkPermissionRow capability "Clock" "Read host wall-clock time."
  | Capability.Random => mkPermissionRow capability "Randomness" "Request host-generated random bytes."
  | Capability.Assets => mkPermissionRow capability "Packaged assets" "Read files bundled inside this cartridge."
  | Capability.Storage => mkPermissionRow capability "Private storage" "Read and change isolated persistent state."
  | Capability.Graphics => mkPermissionRow capability "Graphics" "Open cartridge windows and submit drawing work."
  | Capability.Audio => mkPermissionRow capability "Audio" "Create audio graphs and send sound to an output device."
  | Capability.Midi => mkPermissionRow capability "MIDI" "Receive events from approved MIDI devices."
  | Capability.Http => mkPermissionRow capability "HTTP" "Send bounded requests only to declared URL scopes."
  | Capability.Serve => mkPermissionRow capability "Local service" "Receive bounded requests through the engine."
  end.
Definition sanitize_trace_path (value : string) : result string string :=
  if (4096 <? str_len value) || existsb char_is_control (str_chars value) then Err "trace path is invalid" else Ok value.
(** [windows(2).any(...)] *)
Fixpoint any_pair {A : Type} (f : A -> A -> bool) (l : list A) : bool :=
  match l with
  | a :: ((b :: _) as l') => f a b || any_pair f l'
  | _ => false
  end.
Definition accepts_file (name : string) : bool :=
  is_some_and (fun e => eq_ignore_ascii_case e "cartridge") (extension name).
(** [{:?}] of a set of capabilities *)
Definition debug_set (s : Capabilities) : string := "{" +:+ String.concat ", " (Capability.debug <$> Capability.iter s) +:+ "}".
(** [health.entry(id).or_default()] after one more failure *)
Definition failed_once (h : CartridgeHealth) : CartridgeHealth :=
  let failures := saturating_add u32_max h.(consecutive_failures) 1 in
  mkCartridgeHealth failures (SAFE_MODE_CRASH_THRESHOLD <=? failures).
Definition health_of (d : LibraryDocument) (id : string) : CartridgeHealth := default default_health (d.(ld_health) !! id).
Definition total_versions (d : LibraryDocument) : N := sumN (btree_len <$> btree_values d.(ld_installed)).
(** [root.join(relative_path)] *)
Definition relative_file (root relative : string) : Path :=
  match rsplit_once "/" relative with Some (dir, name) => (root +:+ "/" +:+ dir, name) | None => (root, relative) end.

Section Desktop.
Context `{Ext : Externals} `{Hex : HexDecode} `{SV : !Semver} `{UC : UrlCrate} `{ZC : !ZipCrate} `{TC : !TomlCrate}.
Context `{JD : Json LibraryDocument} `{DD : JsonDecode LibraryDocument}.

Definition capability_request_digest (value : Capabilities) : string :=
  hex_sha256 (Capability.iter value ≫= fun c => le_byte_list 8 (str_len (Capability.label c)) ++ as_bytes (Capability.label c)).
(** [Version::parse(left).ok() <= Version::parse(right).ok()] *)
Definition version_le (left right : string) : bool :=
  match parse_version left, parse_version right with
  | None, _ => true
  | Some _, None => false
  | Some l, Some r => version_leb l r
  end.
(** [iter().max_by(...)]: the last of the greatest *)
Fixpoint newest_entry (best : option (string * InstalledVersion)) (l : list (string * InstalledVersion)) : option (string * InstalledVersion) :=
  match l with
  | [] => best
  | e :: l =>
      newest_entry (match best with
                    | Some b => if version_le b.1 e.1 then Some e else Some b
                    | None => Some e
                    end) l
  end.
Definition newest_version_with_name (versions : gmap string InstalledVersion) : option (string * InstalledVersion) :=
  newest_entry None (btree_iter versions).

(** ** Validation *)
Fixpoint check_library_versions (id : string) (l : list (string * InstalledVersion)) : result string unit :=
  match l with
  | [] => Ok tt
  | (version, installed) :: l =>
      if negb (valid_text version 64 false) || is_none (parse_version version) then Err "invalid installed version"
      else if negb (valid_cartridge_id id)
           || negb (bool_decide (installed.(iv_relative_path)
                      = "packages/" +:+ id +:+ "/" +:+ version +:+ "/" +:+ installed.(iv_package_sha256) +:+ ".cartridge"))
           || (installed.(iv_package_bytes) =? 0) || (MAX_PACKAGE_FILE_BYTES <? installed.(iv_package_bytes))
           || negb (valid_text installed.(iv_name) 128 false) || negb (valid_text installed.(iv_description) 2048 true)
      then Err "unsafe installed package path"
      else if negb (is_digest installed.(iv_package_sha256)) then Err "invalid installed package digest"
      else check_library_versions id l
  end.
Fixpoint check_library_installed (l : list (string * gmap string InstalledVersion)) : result string unit :=
  match l with
  | [] => Ok tt
  | (id, versions) :: l =>
      if bool_decide (versions = ∅) then Err "installed cartridge has no versions"
      else
        let? _ := check_library_versions id (btree_iter versions) in
        check_library_installed l
  end.
Definition bad_samples (record : LaunchRecord) : bool :=
  (MAX_RESOURCE_SAMPLES_PER_LAUNCH <? len record.(lr_resource_samples))
  || any_pair (fun a b => b.(elapsed_ms) <? a.(elapsed_ms)) record.(lr_resource_samples).
Definition bad_grant (p : string * PersistentGrant) : bool :=
  negb (valid_cartridge_id p.1) || negb (bool_decide (p.2.(pg_cartridge_id) = p.1)) || negb (is_digest p.2.(pg_approved_request_sha256)).
Definition bad_profile (d : LibraryDocument) (p : string * Profile) : bool :=
  negb (bool_decide (p.2.(pf_name) = p.1)) || negb (valid_text p.1 64 false) || (MAX_PROFILE_CARTRIDGES <? set_len p.2.(pf_cartridges))
  || existsb (fun id => negb (valid_cartridge_id id) || is_none (d.(ld_installed) !! id)) (elements p.2.(pf_cartridges)).
Definition bad_launch (record : LaunchRecord) : bool :=
  negb (valid_cartridge_id record.(lr_cartridge_id)) || negb (valid_text record.(lr_version) 64 false)
  || is_none (parse_version record.(lr_version))
  || is_some_and (fun path => negb (is_ok (sanitize_trace_path path))) record.(lr_trace_path).
Definition validate_library (value : LibraryDocument) : result string unit :=
  if negb (value.(ld_format_version) =? LIBRARY_FORMAT_VERSION) || negb (valid_text value.(ld_runtime_channel) 64 false)
     || negb (valid_text value.(ld_runtime_version) 64 false) || is_none (parse_version value.(ld_runtime_version))
  then Err "unsupported library format"
  else if MAX_INSTALLED_PACKAGES <? total_versions value then Err "library package limit exceeded"
  else if MAX_LAUNCH_HISTORY <? len value.(ld_history) then Err "library history limit exceeded"
  else if MAX_PROFILES <? btree_len value.(ld_profiles) then Err "library profile limit exceeded"
  else if existsb bad_samples value.(ld_history) then Err "invalid launch resource samples"
  else if any_pair (fun a b => b.(lr_id) <=? a.(lr_id)) value.(ld_history) then Err "launch record ids must be strictly increasing"
  else
    let? _ := check_library_installed (btree_iter value.(ld_installed)) in
    if existsb bad_grant (btree_iter value.(ld_grants)) then Err "invalid persistent grant"
    else if existsb (bad_profile value) (btree_iter value.(ld_profiles)) then Err "invalid library profile"
    else if existsb bad_launch value.(ld_history) then Err "invalid library history"
    else if existsb (fun id => negb (valid_cartridge_id id)) (btree_keys value.(ld_health)) then Err "invalid library health record"
    else Ok tt.

(** ** The document on disk *)
Definition document_path (root : string) : Path := (root, "library.json").
Definition recovery_directory (root : string) : string := root +:+ "/recovery".
Definition read_document (path : Path) : IO LibraryDocument :=
  do? content := read_file path in
  if MAX_LIBRARY_DOCUMENT_BYTES <? len content then fail "library document must be a bounded regular file"
  else
    do? document := lift (from_slice content) in
    lift (validate_library document) ;;? ret document.
Fixpoint quarantine_at (root : string) (source : Path) (l : list nat) : IO unit :=
  match l with
  | [] => fail "recovery directory is full"
  | n :: l =>
      let destination := (recovery_directory root, "library-corrupt-" +:+ pretty n +:+ ".json") in
      do? present := exists_file destination in
      if present : bool then quarantine_at root source l else rename source destination
  end.
Definition quarantine_broken_document (root : string) (source : Path) : IO unit := quarantine_at root source (seq 0 1024).
Definition document_ok (path : Path) : IO bool := do? r := attempt (read_document path) in ret (is_ok r).
Definition recover_library_document (root : string) : IO unit :=
  let document := document_path root in
  let backup := backup_of document in
  do? present := exists_file document in
  do? saved := exists_file backup in
  if negb present && saved then
    do? valid := document_ok backup in
    if valid : bool then rename backup document else quarantine_broken_document root backup
  else if negb present then ret tt
  else
    do? readable := document_ok document in
    if negb readable && saved then
      do? valid := document_ok backup in
      if valid : bool then quarantine_broken_document root document ;;? rename backup document
      else quarantine_broken_document root backup
    else ret tt.
Definition atomic_replace (path : Path) (content : bytes) : IO unit :=
  do? temporary := json_temporary path in
  release_write_bytes_new temporary content ;;?
  do? present := exists_file path in
  (if present : bool then
     let backup := backup_of path in
     remove_if_present backup ;;?
     rename path backup ;;?
     do? renamed := attempt (rename temporary path) in
     match renamed with
     | Err error => attempt (rename backup path) ;;? discard temporary ;;? fail error
     | Ok _ => remove_file backup
     end
   else rename temporary path) ;;?
  sync_parent_directory.
Definition save_library (self : Library) : IO unit :=
  lift (validate_library self.(lb_document)) ;;?
  do? content := lift (to_vec self.(lb_document)) in
  if MAX_LIBRARY_DOCUMENT_BYTES <? len content then fail "library document exceeds its size limit"
  else atomic_replace (document_path self.(lb_root)) content.
(** [self.save()?; Ok(a)]: what was changed in memory stays changed when saving
    fails, so the library is returned with the answer. *)
Definition saving {A : Type} (self : Library) (a : A) : IO (Library * result string A) :=
  do? saved := attempt (save_library self) in
  ret (self, let? _ := saved in Ok a).

(** ** Opening *)
Fixpoint terminate_launches (now : N) (history : list LaunchRecord) : list LaunchRecord :=
  match history with
  | [] => []
  | r :: history =>
      (if bool_decide (r.(lr_status) = LaunchStatus.Running)
       then mkLaunchRecord r.(lr_id) r.(lr_cartridge_id) r.(lr_version) r.(lr_started_at_ms) (Some now) LaunchStatus.Terminated
              r.(lr_fuel_consumed) r.(lr_peak_memory_bytes) r.(lr_trace_path) r.(lr_resource_samples)
       else r) :: terminate_launches now history
  end.
Definition count_failures (health : gmap string CartridgeHealth) (ids : list string) : gmap string CartridgeHealth :=
  foldl (fun health id => <[id := failed_once (default default_health (health !! id))]> health) health ids.
Definition recover_interrupted_launches (d : LibraryDocument) (now_ms : result string N) : result string LibraryDocument :=
  let interrupted := filter (fun r => r.(lr_status) = LaunchStatus.Running) d.(ld_history) in
  match interrupted with
  | [] => Ok d
  | _ =>
      let? now := now_ms in
      Ok (with_launches d (terminate_launches now d.(ld_history)) (count_failures d.(ld_health) (lr_cartridge_id <$> interrupted)))
  end.
Definition open_library (root : string) (now_ms : result string N) : IO Library :=
  ensure_directory root ;;? ensure_directory (root +:+ "/packages") ;;? ensure_directory (recovery_directory root) ;;?
  open_lock_file (root, "library.lock") ;;? acquire_lock ;;?
  recover_library_document root ;;?
  do? present := exists_file (document_path root) in
  do? document :=
    (if present : bool then
       do? r := attempt (read_document (document_path root)) in
       match r with
       | Ok document => ret document
       | Err _ => quarantine_broken_document root (document_path root) ;;? ret default_document
       end
     else ret default_document) in
  lift (validate_library document) ;;?
  do? document := lift (recover_interrupted_launches document now_ms) in
  let library := mkLibrary root document ∅ in
  save_library library ;;? ret library.

(** ** Installing *)
Definition copy_bounded_and_hash (source destination : Path) (limit : N) : IO (N * string) :=
  do? content := read_file source in
  if limit <? len content then fail ("package exceeds the " +:+ pretty limit +:+ "-byte file limit")
  else
    create_new destination ;;?
    do? written := attempt (write_all destination content) in
    match written with
    | Err error => discard destination ;;? fail error
    | Ok _ => ret (len content, hex_sha256 content)
    end.
Definition hash_file (path : Path) (limit : N) : IO string :=
  do? content := read_file path in
  if limit <? len content then fail ("package exceeded the " +:+ pretty limit +:+ "-byte limit while reading")
  else ret (hex_sha256 content).
(** [!is_regular_file(path) || hash_file(path)? != digest] *)
Definition differs (path : Path) (digest : string) : IO bool :=
  do? present := exists_file path in
  if negb present then ret true
  else
    do? actual := hash_file path MAX_PACKAGE_FILE_BYTES in
    ret (negb (bool_decide (actual = digest))).
Definition installed_lookup (d : LibraryDocument) (id version : string) : option InstalledVersion :=
  versions ← d.(ld_installed) !! id; versions !! version.
Definition insert_installed (d : LibraryDocument) (id version : string) (installed : InstalledVersion) : LibraryDocument :=
  with_installed d (<[id := <[version := installed]> (default ∅ (d.(ld_installed) !! id))]> d.(ld_installed)).
Definition incoming (root : string) : string := root +:+ "/packages/.incoming".
Definition staged_path (root : string) : IO Path :=
  do? sequence := fetch_sequence in
  do? process := get_process_id in
  ret (incoming root, pretty process +:+ "-" +:+ pretty sequence +:+ ".cartridge").
Definition package_path_of (id version digest : string) : string :=
  "packages/" +:+ id +:+ "/" +:+ version +:+ "/" +:+ digest +:+ ".cartridge".
Definition link_package (root : string) (staged destination : Path) (digest : string) : IO unit :=
  do? present := exists_file destination in
  if present : bool then
    do? different := differs destination digest in
    if different : bool then discard staged ;;? fail "installed package path has unexpected contents" else ret tt
  else
    do? linked := attempt (hard_link staged destination) in
    match linked with
    | Err error => discard staged ;;? fail error
    | Ok _ => ret tt
    end.
(** Everything before the document changes: a version that is there ([inl]), or the
    id, the version and the record to insert, whose package is in its place. *)
Definition prepare_install (self : Library) (package : Path) (now_ms : result string N) :
    IO (InstalledVersion + string * string * InstalledVersion) :=
  let root := self.(lb_root) in
  ensure_directory (incoming root) ;;?
  do? staged := staged_path root in
  do? (bytes, digest) := copy_bounded_and_hash package staged MAX_PACKAGE_FILE_BYTES in
  do? content := read_file staged in
  match open_bytes content with
  | Err error => discard staged ;;? fail (error_to_string error)
  | Ok archive =>
      if negb (archive.(ar_package_bytes) =? bytes) || negb (bool_decide (archive.(ar_package_sha256) = digest))
      then discard staged ;;? fail "incoming package changed while it was being installed"
      else
        let id := archive.(ar_manifest).(cartridge).(cm_id) in
        let version := archive.(ar_manifest).(cartridge).(cm_version) in
        match installed_lookup self.(lb_document) id version with
        | Some existing =>
            discard staged ;;?
            if negb (bool_decide (existing.(iv_package_sha256) = digest))
            then fail "an installed version is immutable; use a new version number"
            else
              do? different := differs (relative_file root existing.(iv_relative_path)) digest in
              if different : bool then fail "the installed package failed integrity verification" else ret (inl existing)
        | None =>
            if MAX_INSTALLED_PACKAGES <=? total_versions self.(lb_document)
            then discard staged ;;? fail ("library reached the " +:+ pretty MAX_INSTALLED_PACKAGES +:+ "-package limit")
            else
              let relative_path := package_path_of id version digest in
              ensure_directory (root +:+ "/packages/" +:+ id) ;;?
              ensure_directory (root +:+ "/packages/" +:+ id +:+ "/" +:+ version) ;;?
              link_package root staged (relative_file root relative_path) digest ;;?
              remove_file staged ;;?
              do? now := lift now_ms in
              ret (inr (id, version,
                mkInstalledVersion archive.(ar_manifest).(cartridge).(cm_name) archive.(ar_manifest).(cartridge).(cm_description)
                  digest bytes relative_path (capabilities archive.(ar_manifest).(permissions)) now))
        end
  end.
Definition install_package (self : Library) (package : Path) (now_ms : result string N) : IO (Library * result string InstalledVersion) :=
  do? prepared := attempt (prepare_install self package now_ms) in
  match prepared with
  | Err e => ret (self, Err e)
  | Ok (inl existing) => ret (self, Ok existing)
  | Ok (inr (id, version, installed)) =>
      saving (with_document self (insert_installed self.(lb_document) id version installed)) installed
  end.

(** ** Reading the catalog *)
Definition installed_version (self : Library) (id : string) (version : option string) : result string (string * InstalledVersion) :=
  let? versions := ok_or (self.(lb_document).(ld_installed) !! id) "cartridge is not installed" in
  match version with
  | Some version => let? value := ok_or (versions !! version) "cartridge version is not installed" in Ok (version, value)
  | None => ok_or (newest_version_with_name versions) "cartridge has no installed versions"
  end.
Definition newer_first (left right : string) : Prop := version_le right left = true.
#[global] Instance newer_first_dec : RelDecision newer_first.
Proof. intros x y. unfold newer_first. apply _. Defined.
Definition list_entry (self : Library) (query : string) (p : string * gmap string InstalledVersion) : option LibraryEntry :=
  newest ← newest_version_with_name p.2;
  if negb (str_is_empty query) && negb (contains (str_lower p.1) query) && negb (contains (str_lower newest.2.(iv_name)) query)
     && negb (contains (str_lower newest.2.(iv_description)) query)
  then None
  else Some (mkLibraryEntry p.1 newest.2.(iv_name) (merge_sort newer_first (btree_keys p.2))
               (is_some_and safe_mode (self.(lb_document).(ld_health) !! p.1))).
Definition list_library (self : Library) (query : option string) : list LibraryEntry :=
  omap (list_entry self (str_lower (default "" query))) (btree_iter self.(lb_document).(ld_installed)).
Definition catalog_record (self : Library) (id version : string) (installed : InstalledVersion) : IO CatalogPackage :=
  let path := relative_file self.(lb_root) installed.(iv_relative_path) in
  do? content := read_file path in
  do? bad := (if negb (len content =? installed.(iv_package_bytes)) then ret true
              else do? actual := hash_file path MAX_PACKAGE_FILE_BYTES in
                   ret (negb (bool_decide (actual = installed.(iv_package_sha256))))) in
  if bad : bool then fail "installed package is missing or failed integrity verification"
  else ret (mkCatalogPackage id version installed.(iv_package_sha256) installed.(iv_package_bytes) path).
Definition catalog_package (self : Library) (id : string) (version : option string) : IO CatalogPackage :=
  do? (version, installed) := lift (installed_version self id version) in
  catalog_record self id version installed.
Fixpoint catalog_records (self : Library) (id : string) (l : list (string * InstalledVersion)) : IO (list CatalogPackage) :=
  match l with
  | [] => ret []
  | (version, installed) :: l =>
      do? record := catalog_record self id version installed in
      do? records := catalog_records self id l in
      ret (record :: records)
  end.
Definition newer_record (left right : CatalogPackage) : Prop := newer_first left.(cp_version) right.(cp_version).
#[global] Instance newer_record_dec : RelDecision newer_record.
Proof. intros x y. unfold newer_record. apply _. Defined.
Definition catalog_versions (self : Library) (id : string) (maximum : N) : IO (list CatalogPackage) :=
  match self.(lb_document).(ld_installed) !! id with
  | None => ret []
  | Some versions =>
      if maximum <? btree_len versions
      then fail ("installed versions for " +:+ id +:+ " exceed the " +:+ pretty maximum +:+ "-candidate resolution limit")
      else
        do? records := catalog_records self id (btree_iter versions) in
        ret (merge_sort newer_record records)
  end.

(** ** Permissions *)
Definition preflight (self : Library) (id : string) (version : option string) : result string PermissionPreflight :=
  let? (version, installed) := installed_version self id version in
  let request_digest := capability_request_digest installed.(iv_requested_permissions) in
  let granted :=
    match self.(lb_document).(ld_grants) !! id with
    | Some value => if bool_decide (value.(pg_approved_request_sha256) = request_digest) then value.(pg_capabilities) else ∅
    | None => ∅
    end in
  let granted := match self.(session_grants) !! id with Some session => granted ∪ session | None => granted end in
  let granted := granted ∩ installed.(iv_requested_permissions) in
  Ok (mkPreflight id version installed.(iv_requested_permissions) granted (installed.(iv_requested_permissions) ∖ granted)).
Definition permission_prompt (self : Library) (id : string) (version : option string) : result string PermissionPrompt :=
  let? p := preflight self id version in
  Ok (mkPermissionPrompt ("Permissions for " +:+ p.(pp_cartridge_id))
        ("Review " +:+ pretty (set_len p.(missing)) +:+ " requested capability or capabilities before launch.")
        (permission_row <$> Capability.iter p.(missing)) "Approve and launch" "Cancel").
Definition grant (self : Library) (id : string) (capabilities : Capabilities) (persistent : bool) (now_ms : result string N) :
    IO (Library * result string unit) :=
  match installed_version self id None with
  | Err e => ret (self, Err e)
  | Ok (_, installed) =>
      if negb (bool_decide (capabilities ⊆ installed.(iv_requested_permissions)))
      then ret (self, Err "cannot grant a capability the cartridge did not request")
      else if persistent then
        match now_ms with
        | Err e => ret (self, Err e)
        | Ok now =>
            let request_digest := capability_request_digest installed.(iv_requested_permissions) in
            let held := match self.(lb_document).(ld_grants) !! id with
                        | Some g => if bool_decide (g.(pg_approved_request_sha256) = request_digest) then g.(pg_capabilities) else ∅
                        | None => ∅
                        end in
            let owner := match self.(lb_document).(ld_grants) !! id with Some g => g.(pg_cartridge_id) | None => id end in
            saving (with_document self (with_grants self.(lb_document)
              (<[id := mkPersistentGrant owner (held ∪ capabilities) request_digest now]> self.(lb_document).(ld_grants)))) tt
        end
      else
        ret (mkLibrary self.(lb_root) self.(lb_document)
               (<[id := default ∅ (self.(session_grants) !! id) ∪ capabilities]> self.(session_grants)), Ok tt)
  end.
Definition revoke (self : Library) (id : string) (capability : option Capability.t) : IO (Library * result string unit) :=
  match capability with
  | Some c =>
      saving (mkLibrary self.(lb_root)
                (with_grants self.(lb_document)
                   (alter (fun g => mkPersistentGrant g.(pg_cartridge_id) (g.(pg_capabilities) ∖ {[c]}) g.(pg_approved_request_sha256) g.(pg_updated_at_ms))
                      id self.(lb_document).(ld_grants)))
                (alter (fun s => s ∖ {[c]}) id self.(session_grants))) tt
  | None =>
      saving (mkLibrary self.(lb_root) (with_grants self.(lb_document) (delete id self.(lb_document).(ld_grants)))
                (delete id self.(session_grants))) tt
  end.

(** ** Launches *)
Definition trim_history (history : list LaunchRecord) : list LaunchRecord :=
  drop (N.to_nat (len history - MAX_LAUNCH_HISTORY)) history.
Definition begin_launch (self : Library) (id : string) (version : option string) (now_ms : result string N) :
    IO (Library * result string LaunchRecord) :=
  if is_some_and safe_mode (self.(lb_document).(ld_health) !! id)
  then ret (self, Err "cartridge is in safe mode; reset it before launching")
  else
    match preflight self id version with
    | Err e => ret (self, Err e)
    | Ok p =>
        if negb (bool_decide (p.(missing) = ∅)) then ret (self, Err ("permission approval required: " +:+ debug_set p.(missing)))
        else
          match now_ms with
          | Err e => ret (self, Err e)
          | Ok now =>
              let record := mkLaunchRecord
                (match last self.(lb_document).(ld_history) with None => 1 | Some value => saturating_add u64_max value.(lr_id) 1 end)
                id p.(pp_version) now None LaunchStatus.Running None None None [] in
              saving (with_document self (with_launches self.(lb_document)
                (trim_history (self.(lb_document).(ld_history) ++ [record])) self.(lb_document).(ld_health))) record
          end
    end.
Definition is_launch (launch_id : N) (r : LaunchRecord) : bool := r.(lr_id) =? launch_id.
Definition find_launch (d : LibraryDocument) (launch_id : N) : option LaunchRecord :=
  List.find (is_launch launch_id) d.(ld_history).
Definition set_launch (d : LibraryDocument) (launch_id : N) (r : LaunchRecord) : LibraryDocument :=
  with_launches d (update_first (is_launch launch_id) (fun _ => r) d.(ld_history)) d.(ld_health).
Definition finish_launch (self : Library) (launch_id : N) (status : LaunchStatus.t) (fuel_consumed peak_memory_bytes : option N)
    (trace_path : option string) (now_ms : result string N) : IO (Library * result string unit) :=
  if bool_decide (status = LaunchStatus.Running) then ret (self, Err "a completed launch cannot retain running status")
  else
    match find_launch self.(lb_document) launch_id with
    | None => ret (self, Err "launch record was not found")
    | Some record =>
        if negb (bool_decide (record.(lr_status) = LaunchStatus.Running)) then ret (self, Err "launch record is already complete")
        else
          (* each assignment is kept when a later step fails *)
          let marked finished fuel peak trace :=
            set_launch self.(lb_document) launch_id
              (mkLaunchRecord record.(lr_id) record.(lr_cartridge_id) record.(lr_version) record.(lr_started_at_ms) finished status
                 fuel peak trace record.(lr_resource_samples)) in
          match now_ms with
          | Err e =>
              ret (with_document self (marked record.(lr_finished_at_ms) record.(lr_fuel_consumed) record.(lr_peak_memory_bytes) record.(lr_trace_path)), Err e)
          | Ok now =>
              match (match trace_path with None => Ok None | Some path => let? path := sanitize_trace_path path in Ok (Some path) end) with
              | Err e => ret (with_document self (marked (Some now) fuel_consumed peak_memory_bytes record.(lr_trace_path)), Err e)
              | Ok trace =>
                  let document := marked (Some now) fuel_consumed peak_memory_bytes trace in
                  let health := health_of document record.(lr_cartridge_id) in
                  let health := if bool_decide (status = LaunchStatus.Succeeded) then mkCartridgeHealth 0 health.(safe_mode)
                                else failed_once health in
                  saving (with_document self (with_launches document document.(ld_history)
                    (<[record.(lr_cartridge_id) := health]> document.(ld_health)))) tt
              end
          end
    end.
Definition record_resource_sample (self : Library) (launch_id : N) (sample : ResourceSample) : IO (Library * result string unit) :=
  match find_launch self.(lb_document) launch_id with
  | None => ret (self, Err "launch record was not found")
  | Some r =>
      if negb (bool_decide (r.(lr_status) = LaunchStatus.Running)) then ret (self, Err "resource samples require a running launch")
      else if MAX_RESOURCE_SAMPLES_PER_LAUNCH <=? len r.(lr_resource_samples) then ret (self, Err "resource sample limit exceeded")
      else if is_some_and (fun previous => sample.(elapsed_ms) <? previous.(elapsed_ms)) (last r.(lr_resource_samples))
      then ret (self, Err "resource sample time cannot move backwards")
      else
        saving (with_document self (set_launch self.(lb_document) launch_id
          (mkLaunchRecord r.(lr_id) r.(lr_cartridge_id) r.(lr_version) r.(lr_started_at_ms) r.(lr_finished_at_ms) r.(lr_status)
             r.(lr_fuel_consumed) r.(lr_peak_memory_bytes) r.(lr_trace_path) (r.(lr_resource_samples) ++ [sample])))) tt
  end.
Definition reset_safe_mode (self : Library) (id : string) : IO (Library * result string unit) :=
  saving (with_document self (with_launches self.(lb_document) self.(lb_document).(ld_history)
    (<[id := mkCartridgeHealth 0 false]> self.(lb_document).(ld_health)))) tt.

(** ** Settings *)
Definition set_runtime_release (self : Library) (channel version : string) : IO (Library * result string unit) :=
  if negb (bool_decide (channel = "stable")) && negb (bool_decide (channel = "beta")) && negb (bool_decide (channel = "nightly"))
  then ret (self, Err "runtime channel must be stable, beta, or nightly")
  else if is_none (parse_version version) then ret (self, Err "runtime version must be valid SemVer")
  else saving (with_document self (with_release self.(lb_document) channel version)) tt.
Definition set_profile (self : Library) (name : string) (cartridges : gset string) : IO (Library * result string unit) :=
  let d := self.(lb_document) in
  if negb (valid_text name 64 false) then ret (self, Err "profile name is invalid")
  else if MAX_PROFILE_CARTRIDGES <? set_len cartridges
  then ret (self, Err ("profile exceeds the " +:+ pretty MAX_PROFILE_CARTRIDGES +:+ "-cartridge limit"))
  else if (MAX_PROFILES <=? btree_len d.(ld_profiles)) && is_none (d.(ld_profiles) !! name)
  then ret (self, Err ("library reached the " +:+ pretty MAX_PROFILES +:+ "-profile limit"))
  else if existsb (fun id => is_none (d.(ld_installed) !! id)) (elements cartridges)
  then ret (self, Err "profile contains a cartridge that is not installed")
  else saving (with_document self (with_profiles d (<[name := mkProfile name cartridges]> d.(ld_profiles)))) tt.
End Desktop.

(** ** Accelerated graphics *)
Definition GPU_PROTOCOL_VERSION : N := 1.
Definition MAX_GPU_BUFFER_BYTES : N := 256 * 1024 * 1024.
Definition MAX_GPU_TEXTURE_BYTES : N := 512 * 1024 * 1024.
Definition MAX_GPU_COMMANDS : N := 65536.
Definition MAX_GPU_PASSES : N := 256.
Definition MAX_SHADER_BYTES : N := 1024 * 1024.
Definition MAX_GPU_STREAM_BYTES : N := 16 * 1024 * 1024.
Definition GPU_HEADER_BYTES : N := 16.
Inductive GraphicsMode := CanonicalCpu | AcceleratedGpu.
#[global] Instance graphics_mode_eq_dec : EqDecision GraphicsMode.
Proof. solve_decision. Defined.
Record GpuLimits := mkGpuLimits { buffer_bytes : N; texture_bytes : N; gl_commands : N; gl_passes : N; shader_bytes : N }.
Definition default_gpu_limits : GpuLimits := mkGpuLimits (64 * 1024 * 1024) (128 * 1024 * 1024) 16384 64 (256 * 1024).
Definition validate_gpu_limits (self : GpuLimits) : result string unit :=
  if (self.(buffer_bytes) =? 0) || (MAX_GPU_BUFFER_BYTES <? self.(buffer_bytes)) then Err "GPU buffer budget is outside the supported range"
  else if (self.(texture_bytes) =? 0) || (MAX_GPU_TEXTURE_BYTES <? self.(texture_bytes)) then Err "GPU texture budget is outside the supported range"
  else if (self.(gl_commands) =? 0) || (MAX_GPU_COMMANDS <? self.(gl_commands)) then Err "GPU command budget is outside the supported range"
  else if (self.(gl_passes) =? 0) || (MAX_GPU_PASSES <? self.(gl_passes)) then Err "GPU pass budget is outside the supported range"
  else if (self.(shader_bytes) =? 0) || (MAX_SHADER_BYTES <? self.(shader_bytes)) then Err "GPU shader budget is outside the supported range"
  else Ok tt.
Record GpuAdapterInfo := mkGpuAdapter { supports_robust_buffer_access : bool; supports_process_isolation : bool }.
Record RenderPolicy := mkRenderPolicy {
  mode : GraphicsMode;
  allow_custom_shaders : bool;
  require_robust_buffer_access : bool;
  require_helper_process : bool;
  gpu_limits : GpuLimits;
}.
Definition canonical : RenderPolicy := mkRenderPolicy CanonicalCpu false true true default_gpu_limits.
Definition validate_for (self : RenderPolicy) (adapter : GpuAdapterInfo) : result string unit :=
  let? _ := validate_gpu_limits self.(gpu_limits) in
  if bool_decide (self.(mode) = AcceleratedGpu) && self.(require_robust_buffer_access) && negb adapter.(supports_robust_buffer_access)
  then Err "GPU adapter does not provide robust buffer access"
  else if bool_decide (self.(mode) = AcceleratedGpu) && self.(require_helper_process) && negb adapter.(supports_process_isolation)
  then Err "accelerated graphics requires an isolated GPU helper"
  else Ok tt.
Record ValidatedGpuStream := mkGpuStream { gs_bytes : bytes; gs_commands : N; gs_passes : N }.
Definition read_u32 (content : bytes) (offset : N) : result string N :=
  let value := take 4 (drop (N.to_nat offset) content) in
  if negb (len value =? 4) then Err "GPU command stream header is truncated" else Ok (Prelude.le_value value).
Definition parse_gpu_stream (content : bytes) (policy : RenderPolicy) : result string ValidatedGpuStream :=
  let? _ := validate_gpu_limits policy.(gpu_limits) in
  if (len content <? GPU_HEADER_BYTES) || (MAX_GPU_STREAM_BYTES <? len content) then Err "GPU command stream is outside its byte limit"
  else if negb (bool_decide (take 4 content = as_bytes "CGRP")) then Err "GPU command stream has an invalid magic value"
  else
    let? version := read_u32 content 4 in
    if negb (version =? GPU_PROTOCOL_VERSION) then Err "GPU command stream version is unsupported"
    else
      let? commands := read_u32 content 8 in
      let? passes := read_u32 content 12 in
      if (policy.(gpu_limits).(gl_commands) <? commands) || (policy.(gpu_limits).(gl_passes) <? passes)
      then Err "GPU command stream exceeds its command or pass budget"
      else Ok (mkGpuStream content commands passes).
