(* ===== verification/DesktopTheorems.v ===== *)
(** * Theorems about the desktop library

    Saving and installing survive a crash anywhere, a launch needs every requested
    capability approved for exactly this request, repeated failures end in safe
    mode; and where the library departs from that. *)
From stdpp Require Import pretty.
From S2P Require Import Prelude Text Core Storage Snapshot Directory Blob BlobTheorems Network NetworkTheorems Manifest ManifestTheorems Files Archive ArchiveTheorems Identity IdentityFiles IdentityTheorems RegistryTheorems Release ReleaseTheorems Desktop.

(** ** Saving *)
Lemma library_replace_triple {T : Type} `{Json T} (d0 : Disk) (path : Path) (value : T) (content : bytes) :
  to_vec value = Ok content ->
  triple (fun d => d = d0) (atomic_replace path content) (replace_result d0 path value) (replace_crash d0 path value).
Proof.
  intros Hc w Hw. unfold atomic_replace.
  unfold bind at 1, json_temporary, bind at 1, fetch_sequence, bind at 1, get_process_id, ret at 1. cbn [process_id].
  set (t := (path.1, path.2 +:+ "." +:+ pretty (process_id w) +:+ "-" +:+ pretty (sequence w) +:+ ".tmp")).
  set (w1 := mkWorld _ _ _ _).
  assert (beside path t) as Ht.
  { split; [done|]. exists (pretty (process_id w) +:+ "-" +:+ pretty (sequence w)). cbn. by rewrite <- !app_assoc_str. }
  assert (disk w1 = d0) as Hw1 by exact Hw. clearbody w1 t. clear Hw w. rename w1 into w, Hw1 into Hw. revert w Hw.
  match goal with |- forall w, _ -> match ?m w with _ => _ end =>
    enough (triple (fun d => d = d0) m (replace_result d0 path value) (replace_crash d0 path value)) as Hm by exact Hm end.
  apply (triple_bind _ _ _ (fun _ => holds d0 path t (read_path d0 path) (read_path d0 (backup_of path)) (Some content)));
    [by apply stage_state_triple|].
  intros _. apply triple_assoc. apply (triple_bind _ _ _ (fun _ => written d0 path content)); [by apply place_state_triple|].
  intros _. apply triple_syscall; [intros d Hd|intros d n Hd; split; [|right]]; try apply result_replaced; by exists content.
Qed.

Section Library.
Context `{Ext : Externals} `{Hex : HexDecode} `{SV : !Semver} `{UC : UrlCrate} `{ZC : !ZipCrate} `{TC : !TomlCrate}.
Context `{JD : Json LibraryDocument} `{DD : JsonDecode LibraryDocument}.

(** The document on disk is that of the library in memory, and valid. *)
Definition persisted (self : Library) (d : Disk) : Prop :=
  validate_library self.(lb_document) = Ok tt
  /\ exists content, to_vec self.(lb_document) = Ok content /\ len content <= MAX_LIBRARY_DOCUMENT_BYTES
       /\ visible d (document_path self.(lb_root)) = Some content.
Definition save_outcome (self : Library) (d0 d : Disk) : Prop :=
  other_directories d0 (document_path self.(lb_root)) d
  /\ (visible d (document_path self.(lb_root)) = visible d0 (document_path self.(lb_root)) \/ persisted self d).
Lemma save_library_triple self d0 :
  triple (fun d => d = d0) (save_library self)
    (fun r d => save_outcome self d0 d /\ (r = Ok tt -> persisted self d)) (save_outcome self d0).
Proof.
  assert (save_outcome self d0 d0) as H0 by (split; [done|by left]).
  intros w Hw. unfold save_library. unfold bind at 1, lift at 1. destruct (validate_library _) as [[]|e] eqn:Hv; [|by cbn; rewrite Hw].
  unfold bind at 1, lift at 1. destruct (to_vec _) as [content|e] eqn:Hc; [|by cbn; rewrite Hw].
  destruct (_ <? len content) eqn:Hfit; [by cbn; rewrite Hw|]. bprop.
  pose proof (library_replace_triple d0 (document_path (lb_root self)) (lb_document self) content Hc w Hw) as Ht.
  assert (forall d, replaced_by d0 (document_path (lb_root self)) (lb_document self) d ->
    other_directories d0 (document_path (lb_root self)) d /\ persisted self d) as Hp.
  { intros d (c & Hc' & Ho & Hvis). split; [done|]. split; [done|]. rewrite Hc in Hc'. injection Hc' as <-. by exists content. }
  assert (forall d, replace_crash d0 (document_path (lb_root self)) (lb_document self) d -> save_outcome self d0 d) as Hcr.
  { intros d [[Ho Hvis]|[Ho Hsv]%Hp]; (split; [done|]); [by left|by right]. }
  destruct (atomic_replace _ _ w) as [w' [r|]]; [|by apply Hcr]. destruct Ht as [Hor Hok].
  split; [by apply Hcr|]. intros Hr. by apply Hp, Hok.
Qed.
Lemma saving_triple {A : Type} self (a : A) d0 :
  triple (fun d => d = d0) (saving self a)
    (fun r d => save_outcome self d0 d
       /\ exists answer, r = Ok (self, answer) /\ forall a', answer = Ok a' -> a' = a /\ persisted self d) (save_outcome self d0).
Proof.
  unfold saving. apply (triple_bind _ _ _ (fun r d => save_outcome self d0 d /\ (r = Ok tt -> persisted self d))).
  { apply triple_attempt, save_library_triple. }
  intros r. apply triple_ret. intros d [Ho Hp]. split; [done|]. eexists. split; [done|]. destruct r as [[]|e]; [|done].
  intros a' [= <-]. split; [done|]. by apply Hp.
Qed.

(** ** Opening *)
Section Opening.
Context `{RT : !JsonRoundTrip LibraryDocument} (root : string) (self : Library) (now_ms : result string N).
Context (content : bytes) (Hvalid : validate_library self.(lb_document) = Ok tt) (Hcontent : to_vec self.(lb_document) = Ok content).
Context (Hfits : len content <= MAX_LIBRARY_DOCUMENT_BYTES).
#[local] Abbreviation path := (document_path root).
Definition sees (d : Disk) : Prop := visible d path = Some content.
Definition recovered (d : Disk) : Prop :=
  exists doc, recover_interrupted_launches self.(lb_document) now_ms = Ok doc /\ persisted (mkLibrary root doc ∅) d.
Definition open_outcome (d : Disk) : Prop := sees d \/ recovered d.
Definition open_result (r : result string Library) (d : Disk) : Prop :=
  match r with
  | Ok lib => exists doc, lib = mkLibrary root doc ∅ /\ recover_interrupted_launches self.(lb_document) now_ms = Ok doc /\ persisted lib d
  | Err _ => open_outcome d
  end.
Lemma sees_outcome e d : sees d -> open_result (Err e) d /\ open_outcome d.
Proof. intros H. split; by left. Qed.
Lemma read_document_ok q w : read_path w.(disk) q = Some content -> read_document q w = (w, Done (Ok self.(lb_document))).
Proof.
  intros Hq. unfold read_document, bind, read_file, lift, ret. rewrite Hq. cbn [ok_or]. destruct (N.ltb_spec MAX_LIBRARY_DOCUMENT_BYTES (len content)); [lia|].
  rewrite (from_slice_to_vec _ _ Hcontent). by rewrite Hvalid.
Qed.
Lemma ensure_sees dir : triple sees (ensure_directory dir) (fun r d => match r with Ok _ => sees d | Err e => open_result (Err e) d end) open_outcome.
Proof.
  intros w Hw. unfold ensure_directory. destruct (disk w !! dir) as [x|] eqn:Hx; cbn [is_some is_none negb]; [done|]. unfold syscall, untouched.
  assert (sees (<[dir := ∅]> (disk w))) as Hs by (unfold sees, visible; by rewrite !mkdir_reads).
  destruct (fates w) as [|[|n|n] l]; cbn; try done; by left.
Qed.
Lemma recover_document_triple :
  triple sees (recover_library_document root)
    (fun r d => match r with Ok _ => read_path d path = Some content | Err e => open_result (Err e) d end) open_outcome.
Proof.
  intros w Hw. unfold recover_library_document. unfold bind at 1, exists_file. unfold bind at 1, exists_file.
  unfold sees, visible in Hw. destruct (read_path (disk w) path) as [c|] eqn:Hp; cbn [is_some is_none negb andb].
  - injection Hw as ->. unfold document_ok, bind, attempt, ret. rewrite (read_document_ok path w Hp). exact Hp.
  - rewrite Hw. cbn [is_some is_none negb]. unfold document_ok, bind, attempt, ret. rewrite (read_document_ok _ w Hw). cbn [is_ok].
    assert (sees (disk w)) as Hs by (unfold sees, visible; by rewrite Hp).
    unfold rename, syscall, untouched. rewrite Hw.
    assert (read_path (write_path (remove_path (disk w) (backup_of path)) path content) path = Some content) as Hnew.
    { apply read_write_eq, is_dir_remove. unfold read_path in Hw. change (backup_of path).1 with path.1 in Hw. destruct (disk w !! path.1); [by eexists|done]. }
    destruct (fates w) as [|[|n|n] l]; try done; by left.
Qed.
Lemma open_library_triple : triple sees (open_library root now_ms) open_result open_outcome.
Proof.
  unfold open_library. do 3 (apply (triple_bind _ _ _ (fun _ => sees)); [apply ensure_sees|intros _]).
  apply (triple_bind _ _ _ (fun _ => sees)).
  { apply triple_syscall; [|intros d n; apply sees_outcome]. intros d Hd. destruct (read_path d (root, "library.lock")); [done|].
    unfold sees, visible. by rewrite !read_write_ne. }
  intros _. apply (triple_bind _ _ _ (fun _ => sees)); [apply triple_syscall; [done|intros d n; apply sees_outcome]|].
  intros _. apply (triple_bind _ _ _ (fun _ d => read_path d path = Some content)); [apply recover_document_triple|]. intros _.
  intros w Hw. assert (sees (disk w)) as Hs by (unfold sees, visible; by rewrite Hw).
  unfold bind at 1, exists_file. rewrite Hw. cbn [is_some is_none negb]. unfold bind at 1, bind at 1, attempt. rewrite (read_document_ok _ _ Hw).
  unfold ret at 1. unfold bind at 1, lift at 1. rewrite Hvalid. unfold bind at 1, lift at 1.
  destruct (recover_interrupted_launches _ _) as [doc|e] eqn:Hrec; [|by left]. unfold bind.
  pose proof (save_library_triple (mkLibrary root doc ∅) (disk w) w eq_refl) as Ht.
  assert (forall d, save_outcome (mkLibrary root doc ∅) (disk w) d -> open_outcome d) as Hout.
  { intros d [_ [Hv|Hp]]; [left; unfold sees; by rewrite <- Hs|right; by exists doc]. }
  destruct (save_library _ w) as [w' [[[]|e]|]]; [|by apply Hout, Ht|by apply Hout]. exists doc. split; [done|]. split; [done|]. by apply Ht.
Qed.
End Opening.
(** Opening finds what was saved, whether the last replacement was finished or
    cut short: whatever calls fail and wherever the process dies, a reader sees the
    saved document or the saved document with the interrupted launches counted, and an
    answer is the latter, on disk, with no approvals for the session. *)
Theorem reopened_library_is_saved `{RT : !JsonRoundTrip LibraryDocument} (self : Library) now_ms (w : World) :
  persisted self w.(disk) ->
  let reopened d lib := exists doc, lib = mkLibrary self.(lb_root) doc ∅
    /\ recover_interrupted_launches self.(lb_document) now_ms = Ok doc /\ persisted lib d in
  let '(w', o) := open_library self.(lb_root) now_ms w in
  (visible w'.(disk) (document_path self.(lb_root)) = visible w.(disk) (document_path self.(lb_root)) \/ exists lib, reopened w'.(disk) lib)
  /\ match o with Done (Ok lib) => reopened w'.(disk) lib | _ => True end.
Proof.
  intros (Hv & content & Hc & Hfit & Hvis). cbv zeta.
  pose proof (open_library_triple self.(lb_root) self now_ms content Hv Hc Hfit w Hvis) as Ht.
  assert (forall d, open_outcome self.(lb_root) self now_ms content d ->
    visible d (document_path self.(lb_root)) = visible w.(disk) (document_path self.(lb_root))
    \/ exists lib doc, lib = mkLibrary self.(lb_root) doc ∅ /\ recover_interrupted_launches self.(lb_document) now_ms = Ok doc /\ persisted lib d) as Hout.
  { intros d [Hs|(doc & Hr & Hp)]; [left; unfold sees in Hs; congruence|right; by eexists _, doc]. }
  destruct (open_library _ _ w) as [w' [[lib|e]|]]; (split; [|done]); [|by apply Hout..]. right. by exists lib.
Qed.

(** ** Launches *)
(** Where an approval comes from *)
Definition approved (self : Library) (id : string) (request : Capabilities) (c : Capability.t) : Prop :=
  (exists g, self.(lb_document).(ld_grants) !! id = Some g /\ g.(pg_approved_request_sha256) = capability_request_digest request
             /\ c ∈ g.(pg_capabilities))
  \/ (exists s, self.(session_grants) !! id = Some s /\ c ∈ s).
Lemma preflight_spec self id version p :
  preflight self id version = Ok p ->
  exists v installed, installed_version self id version = Ok (v, installed) /\ p.(pp_version) = v
    /\ p.(requested) = installed.(iv_requested_permissions)
    /\ (forall c, c ∈ p.(granted) <-> c ∈ p.(requested) /\ approved self id p.(requested) c)
    /\ p.(missing) = p.(requested) ∖ p.(granted).
Proof.
  unfold preflight. destruct (installed_version self id version) as [[v installed]|] eqn:Hi; [|done]. intros [= <-].
  exists v, installed. cbn. split_and!; try done. intros c. rewrite elem_of_intersection.
  match goal with |- c ∈ ?X /\ _ <-> _ => enough (c ∈ X <-> approved self id (iv_requested_permissions installed) c) by tauto end.
  unfold approved. destruct (ld_grants _ !! id) as [g|] eqn:Hg, (session_grants self !! id) as [s|] eqn:Hs;
    try destruct (bool_decide (pg_approved_request_sha256 g = _)) eqn:Hd; bprop; set_solver.
Qed.
Lemma increasing_last (l : list LaunchRecord) r :
  any_pair (fun a b => b.(lr_id) <=? a.(lr_id)) l = false -> last l = Some r -> forall o, o ∈ l -> o = r \/ o.(lr_id) < r.(lr_id).
Proof.
  induction l as [|a [|b l] IH]; [done| |].
  - intros _ [= <-] o Ho. left. set_solver.
  - cbn [any_pair]. intros [Hab Hl]%orb_false_iff Hr o [->|Ho]%elem_of_cons; [|by apply IH].
    right. apply N.leb_gt in Hab. destruct (IH Hl Hr b) as [->|?]; [set_solver|done|lia].
Qed.
Lemma valid_library_history d : validate_library d = Ok tt -> any_pair (fun a b => b.(lr_id) <=? a.(lr_id)) d.(ld_history) = false.
Proof. unfold validate_library. pass H1. pass H2. pass H3. pass H4. pass H5. pass H6. done. Qed.
Lemma trim_last (l : list LaunchRecord) r : last (trim_history (l ++ [r])) = Some r.
Proof.
  unfold trim_history. assert (N.to_nat (len (l ++ [r]) - MAX_LAUNCH_HISTORY) <= length l)%nat as Hn.
  { unfold len. rewrite length_app. cbn [length]. change MAX_LAUNCH_HISTORY with 4096. lia. }
  rewrite drop_app_le by done. apply last_snoc.
Qed.
(** C24: A launch needs approval: a launch that is answered was of a cartridge that
    is not in safe mode, with every capability the version requests approved, by a
    persistent grant for exactly this request or for the session; and before the
    answer the launch is recorded on disk as running, with a number above all
    others. *)
Theorem launch_needs_approval (self : Library) id version now_ms (w w' : World) self' r :
  begin_launch self id version now_ms w = (w', Done (Ok (self', Ok r))) ->
  is_some_and safe_mode (self.(lb_document).(ld_health) !! id) = false
  /\ (exists v installed, installed_version self id version = Ok (v, installed) /\ r.(lr_version) = v
        /\ forall c, c ∈ installed.(iv_requested_permissions) -> approved self id installed.(iv_requested_permissions) c)
  /\ r.(lr_status) = LaunchStatus.Running /\ r.(lr_cartridge_id) = id
  /\ last self'.(lb_document).(ld_history) = Some r /\ persisted self' w'.(disk)
  /\ forall o, o ∈ self'.(lb_document).(ld_history) -> o = r \/ o.(lr_id) < r.(lr_id).
Proof.
  unfold begin_launch. destruct (is_some_and safe_mode _) eqn:Hsafe; [done|]. destruct (preflight self id version) as [p|] eqn:Hp; [|done].
  destruct (bool_decide (missing p = ∅)) eqn:Hm; [|done]. cbn [negb]. bprop. destruct now_ms as [now|]; [|done]. cbv zeta. intros Hrun.
  match type of Hrun with saving ?l ?x _ = _ => set (next := l) in *; set (record := x) in * end.
  pose proof (saving_triple next record (disk w) w eq_refl) as Ht. rewrite Hrun in Ht.
  destruct Ht as (_ & answer & Heq & Hok). injection Heq as Hself Hans. rewrite Hself. clear Hself Hrun. subst answer.
  destruct (Hok r eq_refl) as [Hr Hpers]. rewrite Hr. clear Hok Hr.
  destruct (preflight_spec _ _ _ _ Hp) as (v & installed & Hi & Hv & Hreq & Hgr & Hmiss).
  split; [done|]. split.
  { exists v, installed. split; [done|]. split; [done|]. rewrite <- Hreq. intros c Hc. apply Hgr. rewrite Hm in Hmiss. set_solver. }
  assert (last next.(lb_document).(ld_history) = Some record) as Hl by apply trim_last.
  split; [done|]. split; [done|]. split; [done|]. split; [done|]. apply increasing_last; [|done]. apply valid_library_history, Hpers.
Qed.

(** ** Approvals are for one request *)
Definition frame (c : Capability.t) : bytes := le_byte_list 8 (str_len (Capability.label c)) ++ as_bytes (Capability.label c).
Definition request_input (request : Capabilities) : bytes := Capability.iter request ≫= frame.
Lemma frame_inj c c' x y : frame c ++ x = frame c' ++ y -> c = c' /\ x = y.
Proof. destruct c, c'; intros H; try discriminate H; split; try done; revert H; cbn; congruence. Qed.
Lemma frame_nonempty c : frame c <> [].
Proof. by destruct c. Qed.
Lemma frames_inj (l l' : list Capability.t) : l ≫= frame = l' ≫= frame -> l = l'.
Proof.
  revert l'. induction l as [|c l IH]; intros [|c' l'] H; [done| | |].
  1,2: symmetry in H || idtac; cbn in H; by destruct c || destruct c'.
  apply frame_inj in H as [-> H]. by rewrite (IH l').
Qed.
Lemma elem_of_iter (request : Capabilities) c : c ∈ Capability.iter request <-> c ∈ request.
Proof.
  unfold Capability.iter. rewrite list_elem_of_filter. split; [by intros [? _]|]. intros Hc. split; [done|]. unfold Capability.all. destruct c; set_solver.
Qed.
Lemma request_input_inj a b : request_input a = request_input b -> a = b.
Proof. intros H%frames_inj. apply set_eq. intros c. by rewrite <- !elem_of_iter, H. Qed.
(** An approval is for one request: a persistent grant given for the requests
    [given] approves nothing of a version that requests anything else, unless the
    two requests hash alike; without approval for the session the version cannot be
    launched, and neither the library nor the disk changes. *)
Theorem approval_is_for_one_request (self : Library) id version now_ms g given v installed (w : World) :
  self.(lb_document).(ld_grants) !! id = Some g -> g.(pg_approved_request_sha256) = capability_request_digest given ->
  self.(session_grants) !! id = None ->
  installed_version self id version = Ok (v, installed) ->
  installed.(iv_requested_permissions) <> given -> installed.(iv_requested_permissions) <> ∅ ->
  collision_free [request_input given; request_input installed.(iv_requested_permissions)] ->
  (exists p, preflight self id version = Ok p /\ p.(granted) = ∅ /\ p.(missing) = installed.(iv_requested_permissions))
  /\ exists e, begin_launch self id version now_ms w = (w, Done (Ok (self, Err e))).
Proof.
  intros Hg Hdigest Hs Hi Hne Hsome Hfree.
  destruct (preflight self id version) as [p|e] eqn:Hp; [|by unfold preflight in Hp; rewrite Hi in Hp].
  destruct (preflight_spec _ _ _ _ Hp) as (v' & installed' & Hi' & _ & Hreq & Hgr & Hmiss).
  rewrite Hi in Hi'. injection Hi' as <- <-.
  assert (p.(granted) = ∅) as Hempty.
  { apply elem_of_equiv_empty_L. intros c Hc. apply Hgr in Hc as [_ [(g' & Hg' & Hd & _)|(s & Hs' & _)]]; [|congruence].
    rewrite Hg in Hg'. injection Hg' as <-. rewrite Hdigest, Hreq in Hd. apply hex_encode_inj in Hd.
    apply Hne, request_input_inj. symmetry. apply Hfree; [by left|right; by left|exact Hd]. }
  rewrite Hempty, Hreq in Hmiss. rewrite difference_empty_L in Hmiss.
  split; [by exists p|]. unfold begin_launch. destruct (is_some_and _ _); [by eexists|]. rewrite Hp.
  rewrite bool_decide_eq_false_2 by congruence. by eexists.
Qed.

(** ** Failures *)
Definition running_of (id : string) (history : list LaunchRecord) : N :=
  len (filter (fun r => r.(lr_status) = LaunchStatus.Running /\ r.(lr_cartridge_id) = id) history).
(** [n] more failures of one cartridge *)
Definition failed_times (n : N) (h : CartridgeHealth) : CartridgeHealth :=
  if n =? 0 then h
  else let failures := saturating_add u32_max h.(consecutive_failures) n in mkCartridgeHealth failures (SAFE_MODE_CRASH_THRESHOLD <=? failures).
Lemma failed_times_succ n h : failed_times (N.succ n) h = failed_times n (failed_once h).
Proof.
  unfold failed_times, failed_once, saturating_add. generalize SAFE_MODE_CRASH_THRESHOLD. intros limit. destruct (N.eqb_spec (N.succ n) 0); [lia|]. destruct (N.eqb_spec n 0) as [->|]; cbn [consecutive_failures]; [done|].
  generalize u32_max. intros m. replace (N.min (N.min (consecutive_failures h + 1) m + n) m) with (N.min (consecutive_failures h + N.succ n) m) by lia. done.
Qed.
Lemma len_cons {A : Type} (a : A) l : len (a :: l) = N.succ (len l).
Proof. unfold len. cbn [length]. lia. Qed.
Lemma count_failures_spec health ids id :
  default default_health (count_failures health ids !! id)
  = failed_times (len (filter (fun i => i = id) ids)) (default default_health (health !! id)).
Proof.
  revert health. induction ids as [|i ids IH]; intros health; [done|]. cbn [count_failures foldl]. fold (count_failures (<[i := failed_once (default default_health (health !! i))]> health) ids).
  rewrite IH, filter_cons. destruct (decide (i = id)) as [->|Hne]; [|by rewrite lookup_insert_ne].
  by rewrite lookup_insert_eq, len_cons, failed_times_succ.
Qed.
Lemma terminated now history : forall r, r ∈ terminate_launches now history -> r.(lr_status) <> LaunchStatus.Running.
Proof.
  induction history as [|a l IH]; [set_solver|]. cbn [terminate_launches]. intros r [->|Hr]%elem_of_cons; [|by apply IH].
  destruct (bool_decide _) eqn:Hb; bprop; [done|by apply Hb].
Qed.
Lemma filter_fmap_running id history :
  len (filter (fun i => i = id) (lr_cartridge_id <$> filter (fun r => r.(lr_status) = LaunchStatus.Running) history)) = running_of id history.
Proof.
  unfold running_of. induction history as [|r l IH]; [done|]. rewrite !filter_cons. destruct (decide (lr_status r = _)) as [Hr|Hr].
  - rewrite fmap_cons, filter_cons. destruct (decide (lr_cartridge_id r = id)); [rewrite decide_True by done|rewrite decide_False by naive_solver];
      rewrite ?len_cons, ?IH; done.
  - rewrite (decide_False _ (P := _ /\ _)) by naive_solver. done.
Qed.
(** Launches that were running when the library was left count as failures of
    their cartridge: after opening, no launch is running, no launch was added or
    dropped, and every cartridge has one more failure for each launch of it that
    was interrupted, and is in safe mode if that makes three. *)
Theorem interrupted_launches_count (d d' : LibraryDocument) now_ms id :
  recover_interrupted_launches d now_ms = Ok d' ->
  (forall r, r ∈ d'.(ld_history) -> r.(lr_status) <> LaunchStatus.Running)
  /\ lr_id <$> d'.(ld_history) = lr_id <$> d.(ld_history)
  /\ health_of d' id = failed_times (running_of id d.(ld_history)) (health_of d id).
Proof.
  unfold recover_interrupted_launches. pose proof (filter_fmap_running id (ld_history d)) as Hrun.
  destruct (filter _ (ld_history d)) as [|a l] eqn:Hf; try rewrite Hf in Hrun.
  - intros [= <-]. split; [|split; [done|by rewrite <- Hrun]]. intros r Hr Hs.
    assert (r ∈ filter (fun r => r.(lr_status) = LaunchStatus.Running) (ld_history d)) as Hin by (by apply list_elem_of_filter).
    rewrite Hf in Hin. set_solver.
  - destruct now_ms as [now|]; [|done]. intros [= <-]. cbn [ld_history with_launches]. split; [apply terminated|]. split.
    { clear. induction (ld_history d) as [|r l IH]; [done|]. cbn. rewrite <- IH. f_equal. by destruct (bool_decide _). }
    rewrite <- Hrun. unfold health_of. exact (count_failures_spec (ld_health d) (lr_cartridge_id <$> a :: l) id).
Qed.
(** What an answered [finish_launch] did *)
Lemma finish_launch_spec self launch_id status fuel peak trace now_ms (w w' : World) self' :
  finish_launch self launch_id status fuel peak trace now_ms w = (w', Done (Ok (self', Ok tt))) ->
  exists r, find_launch self.(lb_document) launch_id = Some r /\ persisted self' w'.(disk)
    /\ self'.(lb_document).(ld_health) !! r.(lr_cartridge_id)
       = Some (let h := health_of self.(lb_document) r.(lr_cartridge_id) in
               if bool_decide (status = LaunchStatus.Succeeded) then mkCartridgeHealth 0 h.(safe_mode) else failed_once h).
Proof.
  unfold finish_launch. destruct (bool_decide (status = LaunchStatus.Running)) eqn:Hs; [done|].
  destruct (find_launch _ _) as [r|] eqn:Hf; [|done]. destruct (negb _) eqn:Hrun; [done|]. cbv zeta.
  destruct now_ms as [now|]; [|done]. destruct (match trace with None => _ | Some _ => _ end) as [t|]; [|done]. intros Hsave.
  match type of Hsave with saving ?l ?x _ = _ => pose proof (saving_triple l x (disk w) w eq_refl) as Ht; remember l as next eqn:Hnext end.
  rewrite Hsave in Ht. destruct Ht as (_ & answer & Heq & Hok). injection Heq as -> <-. destruct (Hok tt eq_refl) as [_ Hpers].
  exists r. split; [done|]. split; [done|]. rewrite Hnext. cbn [lb_document with_document ld_health with_launches]. by rewrite lookup_insert_eq.
Qed.
(** The third failure in a row blocks a cartridge: when a launch of a cartridge
    with two failures or more is reported as failed or terminated, and the report is
    answered, then the failure is on disk and no launch of this cartridge begins,
    of whatever version, until its safe mode is reset. *)
Theorem third_failure_blocks_launches (self : Library) launch_id status fuel peak trace now_ms (w w' : World) self' r :
  finish_launch self launch_id status fuel peak trace now_ms w = (w', Done (Ok (self', Ok tt))) ->
  status <> LaunchStatus.Succeeded -> find_launch self.(lb_document) launch_id = Some r ->
  2 <= (health_of self.(lb_document) r.(lr_cartridge_id)).(consecutive_failures) ->
  persisted self' w'.(disk)
  /\ forall version now w2,
       begin_launch self' r.(lr_cartridge_id) version now w2
       = (w2, Done (Ok (self', Err "cartridge is in safe mode; reset it before launching"))).
Proof.
  intros Hfin Hst Hf Htwo. destruct (finish_launch_spec _ _ _ _ _ _ _ _ _ _ Hfin) as (r' & Hf' & Hp & Hh).
  rewrite Hf in Hf'. injection Hf' as <-. split; [done|]. intros version now w2. unfold begin_launch. rewrite Hh.
  rewrite bool_decide_eq_false_2 by done. cbn [is_some_and failed_once safe_mode]. unfold saturating_add.
  assert (SAFE_MODE_CRASH_THRESHOLD <=? N.min (consecutive_failures (health_of (lb_document self) (lr_cartridge_id r)) + 1) u32_max = true) as ->;
    [|done]. apply N.leb_le. change SAFE_MODE_CRASH_THRESHOLD with 3. change u32_max with 4294967295. lia.
Qed.
(** A failure whose trace path is not acceptable is never counted: the report is
    refused, but the launch is no longer running in memory, so the health of the
    cartridge stays as it was, and every later report about this launch is refused
    as well. *)
Theorem bad_trace_path_hides_failure (self : Library) launch_id status fuel peak path now e r (w : World) :
  find_launch self.(lb_document) launch_id = Some r -> r.(lr_status) = LaunchStatus.Running -> status <> LaunchStatus.Running ->
  sanitize_trace_path path = Err e ->
  exists self', finish_launch self launch_id status fuel peak (Some path) (Ok now) w = (w, Done (Ok (self', Err e)))
    /\ self'.(lb_document).(ld_health) = self.(lb_document).(ld_health)
    /\ forall status' fuel' peak' trace' now' w', exists e',
         finish_launch self' launch_id status' fuel' peak' trace' now' w' = (w', Done (Ok (self', Err e'))).
Proof.
  intros Hf Hr Hs He. unfold finish_launch at 1. rewrite bool_decide_eq_false_2 by done. rewrite Hf, bool_decide_eq_true_2 by done.
  cbn [negb]. cbv zeta. rewrite He. eexists. split; [done|]. split; [done|]. intros status' fuel' peak' trace' now' w'.
  unfold finish_launch. destruct (bool_decide _); [by eexists|].
  unfold find_launch in *. cbn [lb_document with_document ld_history with_launches set_launch].
  erewrite find_update_first; [|exact Hf|apply find_some in Hf as [_ Hid]; exact Hid]. cbn [lr_status]. rewrite bool_decide_eq_false_2 by done. by eexists.
Qed.
End Library.

(** ** A concrete library *)
Section LibraryWitness.
#[local] Existing Instance demo_externals.
#[local] Existing Instance demo_semver.
#[local] Existing Instance demo_hex.
#[local] Existing Instance toy_url.
#[local] Existing Instance toy_toml.
#[local] Existing Instance toy_zip.
#[local] Instance library_json : Json LibraryDocument := demo_json.
Definition app_id : string := "dev.example.app".
Definition app_request : Capabilities := {[Capability.Storage]}.
Definition app_version : InstalledVersion :=
  mkInstalledVersion "App" "" (hex_sha256 [x50; x4b]) 2
    ("packages/dev.example.app/1.2.0/" +:+ hex_sha256 [x50; x4b] +:+ ".cartridge") app_request 5.
Definition app_grant : PersistentGrant := mkPersistentGrant app_id app_request (capability_request_digest app_request) 6.
Definition app_library : Library :=
  mkLibrary "root"
    (mkLibraryDocument 1 "stable" "0.1.0" {[app_id := {["1.2.0" := app_version]}]} {[app_id := app_grant]} ∅ [] ∅) ∅.
Definition library_world : World := mkWorld {["root" := ∅]} 0 7 [].
(** One call after another; an answer that is an error stops the run. *)
Definition next_call {A : Type} (p : option (Library * World)) (f : Library -> IO (Library * result string A)) : option (Library * World) :=
  match p with
  | Some (self, w) => match f self w with (w', Done (Ok (self', Ok _))) => Some (self', w') | _ => None end
  | None => None
  end.
Definition launch (self : Library) : IO (Library * result string LaunchRecord) := begin_launch self app_id None (Ok 7).
Definition finish (launch_id : N) (status : LaunchStatus.t) (self : Library) : IO (Library * result string unit) :=
  finish_launch self launch_id status None None None (Ok 8).
Definition five_launches : option (Library * World) :=
  next_call (next_call (next_call (next_call (next_call (Some (app_library, library_world)) launch) launch) launch) launch) launch.
Definition two_failures : option (Library * World) := next_call (next_call five_launches (finish 1 LaunchStatus.Failed)) (finish 2 LaunchStatus.Terminated).
Definition three_failures : option (Library * World) := next_call two_failures (finish 3 LaunchStatus.Failed).
(** A failure can end safe mode.  Five launches of one cartridge run at the same
    time; three fail, and the cartridge is in safe mode.  One succeeds: the
    failures are counted from zero again and the cartridge stays in safe mode.
    The last one fails: it is the first failure of the new count, and the
    cartridge leaves safe mode without having been reset, and can be launched. *)
Theorem failure_ends_safe_mode :
  option_map (fun p => health_of p.1.(lb_document) app_id) three_failures = Some (mkCartridgeHealth 3 true)
  /\ (let succeeded := next_call three_failures (finish 4 LaunchStatus.Succeeded) in
      let failed := next_call succeeded (finish 5 LaunchStatus.Failed) in
      option_map (fun p => health_of p.1.(lb_document) app_id) succeeded = Some (mkCartridgeHealth 0 true)
      /\ option_map (fun p => health_of p.1.(lb_document) app_id) failed = Some (mkCartridgeHealth 1 false)
      /\ is_some (next_call failed launch) = true).
Proof. vm_compute. repeat split. Qed.

Definition first_launch : LaunchRecord :=
  mkLaunchRecord 1 app_id "1.2.0" 7 None LaunchStatus.Running None None None [].
Definition launched : Library := with_document app_library (with_launches app_library.(lb_document) [first_launch] ∅).
Lemma launch_needs_approval_witness : exists w, launch app_library library_world = (w, Done (Ok (launched, Ok first_launch))) /\ persisted launched w.(disk).
Proof.
  destruct (launch app_library library_world) as [w o] eqn:Hl.
  assert (o = Done (Ok (launched, Ok first_launch))) as ->.
  { transitivity (launch app_library library_world).2; [by rewrite Hl|]. vm_compute. reflexivity. }
  exists w. split; [done|]. by destruct (launch_needs_approval app_library app_id None (Ok 7) library_world w launched first_launch Hl) as (_ & _ & _ & _ & _ & H & _).
Defined.
Definition other_request : Capabilities := {[Capability.Storage; Capability.Http]}.
Definition updated_library : Library :=
  with_document app_library (with_installed app_library.(lb_document)
    {[app_id := {["1.2.0" := mkInstalledVersion "App" "" (hex_sha256 [x50; x4b]) 2 app_version.(iv_relative_path) other_request 5]}]}).
Lemma approval_is_for_one_request_witness :
  exists e, begin_launch updated_library app_id None (Ok 7) library_world = (library_world, Done (Ok (updated_library, Err e))).
Proof.
  destruct (approval_is_for_one_request updated_library app_id None (Ok 7) app_grant app_request "1.2.0"
    (mkInstalledVersion "App" "" (hex_sha256 [x50; x4b]) 2 app_version.(iv_relative_path) other_request 5) library_world) as [_ H].
  - vm_compute. reflexivity.
  - vm_compute. reflexivity.
  - vm_compute. reflexivity.
  - vm_compute. reflexivity.
  - intros H. apply (f_equal (fun s => bool_decide (Capability.Http ∈ s))) in H. vm_compute in H. discriminate H.
  - intros H. apply (f_equal (fun s => bool_decide (Capability.Http ∈ s))) in H. vm_compute in H. discriminate H.
  - intros x y Hx Hy He. apply elem_of_cons in Hx as [->|Hx%list_elem_of_singleton]; apply elem_of_cons in Hy as [->|Hy%list_elem_of_singleton]; subst;
      try reflexivity; vm_compute in He; discriminate He.
  - exact H.
Defined.
Lemma interrupted_launches_count_witness :
  exists d, recover_interrupted_launches launched.(lb_document) (Ok 9) = Ok d /\ health_of d app_id = mkCartridgeHealth 1 false.
Proof.
  destruct (recover_interrupted_launches (lb_document launched) (Ok 9)) as [d|] eqn:Hd; [|vm_compute in Hd; discriminate Hd].
  exists d. split; [done|]. destruct (interrupted_launches_count _ _ _ app_id Hd) as (_ & _ & H). rewrite H. vm_compute. reflexivity.
Defined.
Section Reopen.
Definition recovered_document : LibraryDocument :=
  with_launches app_library.(lb_document)
    [mkLaunchRecord 1 app_id "1.2.0" 7 (Some 9) LaunchStatus.Terminated None None None []] {[app_id := mkCartridgeHealth 1 false]}.
Definition library_table : list LibraryDocument := [launched.(lb_document); recovered_document].
#[local] Instance library_table_json : Json LibraryDocument := table_json library_table.
#[local] Instance library_table_decode : JsonDecode LibraryDocument := table_decode library_table.
#[local] Instance library_round_trip : JsonRoundTrip LibraryDocument := table_round_trip library_table.
(** The replacement was cut short: the saved document is in the backup. *)
Definition cut_short : World := mkWorld {["root" := {["library.json.previous" := [x00]]}]} 0 7 [].
Lemma reopened_library_is_saved_witness :
  let w' := (open_library "root" (Ok 9) cut_short).1 in
  persisted (mkLibrary "root" recovered_document ∅) w'.(disk) /\ read_path w'.(disk) (document_path "root") = Some [x01].
Proof.
  pose proof (reopened_library_is_saved launched (Ok 9) cut_short) as H.
  assert (persisted launched cut_short.(disk)) as Hp.
  { split; [vm_compute; reflexivity|]. exists [x00]. split; [vm_compute; reflexivity|]. split; [by vm_compute|vm_compute; reflexivity]. }
  specialize (H Hp). cbv zeta in H. change (lb_root launched) with "root" in H.
  assert ((open_library "root" (Ok 9) cut_short).2 = Done (Ok (mkLibrary "root" recovered_document ∅))) as Ho by (vm_compute; reflexivity).
  cbv zeta. split; [|vm_compute; reflexivity]. revert H Ho. destruct (open_library _ _ cut_short) as [w' o]. intros [_ H] Ho. cbn [snd] in Ho.
  rewrite Ho in H. destruct H as (doc & Heq & _ & H). exact H.
Defined.
End Reopen.
Definition failing_library : Library :=
  with_document launched (with_launches launched.(lb_document) [first_launch] {[app_id := mkCartridgeHealth 2 false]}).
Definition blocked_library : Library :=
  with_document launched (with_launches launched.(lb_document)
    [mkLaunchRecord 1 app_id "1.2.0" 7 (Some 8) LaunchStatus.Failed None None None []] {[app_id := mkCartridgeHealth 3 true]}).
Lemma third_failure_blocks_launches_witness :
  begin_launch blocked_library app_id None (Ok 9) library_world
  = (library_world, Done (Ok (blocked_library, Err "cartridge is in safe mode; reset it before launching"))).
Proof.
  destruct (finish_launch failing_library 1 LaunchStatus.Failed None None None (Ok 8) library_world) as [w o] eqn:Hl.
  assert (o = Done (Ok (blocked_library, Ok tt))) as ->.
  { transitivity (finish_launch failing_library 1 LaunchStatus.Failed None None None (Ok 8) library_world).2; [by rewrite Hl|]. vm_compute. reflexivity. }
  destruct (third_failure_blocks_launches _ _ _ _ _ _ _ _ _ _ first_launch Hl) as [_ H]; [done|done|by vm_compute|apply H].
Defined.
Definition long_path : string := String.concat "" (replicate 513 "/a/b/c/d").
Lemma bad_trace_path_hides_failure_witness :
  exists self', finish_launch launched 1 LaunchStatus.Failed None None (Some long_path) (Ok 8) library_world
    = (library_world, Done (Ok (self', Err "trace path is invalid"))).
Proof.
  destruct (bad_trace_path_hides_failure launched 1 LaunchStatus.Failed None None long_path 8 "trace path is invalid" first_launch library_world) as (self' & H & _);
    [done|done|done|vm_compute; reflexivity|]. by exists self'.
Defined.
End LibraryWitness.

(** * Theorems about installing into the desktop library

    Installing survives a crash anywhere and never changes an installed version;
    and a version number the library cannot hold stops the library. *)

(** ** Paths of packages *)
Lemma rsplit_some c a b : rsplit_once c (a +:+ String c b) <> None.
Proof.
  induction a as [|x a IH]; simpl.
  - destruct (rsplit_once c b) as [[l r]|]; [done|]. by rewrite bool_decide_eq_true_2.
  - by destruct (rsplit_once c (a +:+ String c b)) as [[l r]|].
Qed.
Lemma rsplit_last c a b : rsplit_once c b = None -> rsplit_once c (a +:+ String c b) = Some (a, b).
Proof.
  intros Hb. induction a as [|x a IH]; simpl.
  - by rewrite Hb, bool_decide_eq_true_2.
  - by rewrite IH.
Qed.
Lemma rsplit_digest s t : forallb is_lower_hex (str_bytes s) = true -> rsplit_once "/" t = None -> rsplit_once "/" (s +:+ t) = None.
Proof.
  intros Hs Ht. induction s as [|x s IH]; [done|]. cbn [str_bytes forallb] in Hs. apply andb_true_iff in Hs as [Hx Hs].
  simpl. rewrite (IH Hs), bool_decide_eq_false_2; [done|]. intros ->. discriminate Hx.
Qed.
Lemma package_file root id version digest :
  is_digest digest = true ->
  relative_file root (package_path_of id version digest) = (root +:+ "/packages/" +:+ id +:+ "/" +:+ version, digest +:+ ".cartridge").
Proof.
  intros [_ Hd]%andb_true_iff. unfold relative_file, package_path_of.
  replace ("packages/" +:+ id +:+ "/" +:+ version +:+ "/" +:+ digest +:+ ".cartridge")
    with (("packages/" +:+ id +:+ "/" +:+ version) +:+ "/" +:+ (digest +:+ ".cartridge")) by (by rewrite !app_assoc_str).
  change ("/" +:+ (digest +:+ ".cartridge")) with (String "/" (digest +:+ ".cartridge")). by rewrite rsplit_last by (by apply rsplit_digest).
Qed.
Lemma package_directory_ne root id version : root +:+ "/packages/" +:+ id +:+ "/" +:+ version <> root.
Proof. by apply append_ne. Qed.
Lemma package_not_incoming root id version : root +:+ "/packages/" +:+ id +:+ "/" +:+ version <> incoming root.
Proof.
  unfold incoming. change "/packages/.incoming" with ("/packages/" +:+ ".incoming"). intros H%(inj (String.append root))%(inj (String.append "/packages/")).
  apply (rsplit_some "/" id version). change (rsplit_once "/" (id +:+ "/" +:+ version) = None). by rewrite H.
Qed.

Section Installing.
Context `{Ext : Externals} `{Hex : HexDecode} `{SV : !Semver} `{UC : UrlCrate} `{ZC : !ZipCrate} `{TC : !TomlCrate}.
Context `{JD : Json LibraryDocument} `{DD : JsonDecode LibraryDocument}.

(** ** What is installed is on disk *)
Definition package_on_disk (d : Disk) (root : string) (i : InstalledVersion) : Prop :=
  exists c, read_path d (relative_file root i.(iv_relative_path)) = Some c /\ hex_sha256 c = i.(iv_package_sha256).
Definition whole (d : Disk) (root : string) (doc : LibraryDocument) : Prop :=
  forall id version i, installed_lookup doc id version = Some i -> package_on_disk d root i.
(** The record of a package says what the package says of itself. *)
Definition describes (id version : string) (i : InstalledVersion) : Prop :=
  exists content archive, open_bytes content = Ok archive /\ has_digest content i.(iv_package_bytes) i.(iv_package_sha256)
    /\ archive.(ar_manifest).(cartridge).(cm_id) = id /\ archive.(ar_manifest).(cartridge).(cm_version) = version
    /\ i.(iv_requested_permissions) = capabilities archive.(ar_manifest).(permissions)
    /\ i.(iv_relative_path) = package_path_of id version i.(iv_package_sha256).
Definition prepared (self : Library) (d : Disk) (x : InstalledVersion + string * string * InstalledVersion) : Prop :=
  match x with
  | inl i => exists id version, installed_lookup self.(lb_document) id version = Some i
  | inr (id, version, i) =>
      installed_lookup self.(lb_document) id version = None /\ describes id version i /\ package_on_disk d self.(lb_root) i
  end.
Lemma described_outside root id version i : describes id version i -> (relative_file root i.(iv_relative_path)).1 <> root.
Proof.
  intros (content & archive & _ & [_ Hd] & _ & _ & _ & ->). rewrite package_file; [apply package_directory_ne|]. rewrite <- Hd. apply hex_sha256_is_digest.
Qed.
Lemma ensure_kept_triple root d0 dir P :
  (forall d, P d -> files_kept root d0 d) -> (forall d, d !! dir = None -> P d -> P (<[dir := ∅]> d)) ->
  triple P (ensure_directory dir) (fun r d => files_kept root d0 d /\ (is_ok r = true -> P d /\ is_Some (d !! dir))) (files_kept root d0).
Proof.
  intros HP Hnew w Hw. unfold ensure_directory. destruct (disk w !! dir) as [x|] eqn:Hx; cbn [is_some is_none negb].
  { split; [auto|]. intros _. split; [done|]. by exists x. }
  unfold syscall, untouched.
  assert (P (<[dir := ∅]> (disk w)) /\ is_Some ((<[dir := ∅]> (disk w) : Disk) !! dir)) as [Hd Hs].
  { split; [by apply Hnew|]. rewrite lookup_insert_eq. by eexists. }
  destruct (fates w) as [|[|n|n] l]; cbn; try (split; [auto|intros; try done; by split]). by auto.
Qed.
(** The staged copy is there, and nothing that was there changed. *)
Definition staged_copy (root : string) (d0 : Disk) (staged : Path) (content : bytes) (d : Disk) : Prop :=
  files_kept root d0 d /\ read_path d staged = Some content.
Section Staged.
Context (root : string) (d0 : Disk) (staged : Path) (Hdir : staged.1 = incoming root) (Hnew : read_path d0 staged = None).
#[local] Abbreviation kept := (files_kept root d0).
Lemma staged_outside : staged.1 <> root.
Proof. rewrite Hdir. by apply append_ne. Qed.
Lemma discard_staged : triple kept (discard staged) (fun _ => kept) kept.
Proof. apply discard_kept; [apply staged_outside|done]. Qed.
Lemma refuse_triple {A : Type} P (e : string) (Q : result string A -> Disk -> Prop) :
  (forall d, P d -> kept d) -> (forall e d, kept d -> Q (Err e) d) -> triple P (discard staged ;;? fail e) Q kept.
Proof.
  intros HP HQ. apply (triple_bind _ _ _ (fun _ => kept)).
  - eapply triple_weaken; [apply discard_staged|done| |done]. intros [u|e'] d Hd; auto.
  - intros _. apply triple_fail. auto.
Qed.
Lemma copy_triple source limit :
  triple kept (copy_bounded_and_hash source staged limit)
    (fun r d => match r with
                | Ok (n, digest) => exists content, staged_copy root d0 staged content d /\ has_digest content n digest
                | Err _ => kept d
                end) kept.
Proof.
  pose proof staged_outside as Hout. unfold copy_bounded_and_hash.
  apply (triple_bind _ _ _ (fun _ => kept)).
  { apply triple_read. intros d Hd. by destruct (read_path d source). }
  intros content. destruct (_ <? len content); [by apply triple_fail|].
  apply (triple_bind _ _ _ (fun _ d => kept d /\ is_Some (d !! staged.1))).
  { apply triple_syscall; [|done]. intros d Hd. destruct (d !! staged.1) as [x|] eqn:Hx; [|done]. destruct (is_some _); [done|].
    split; [by apply files_kept_write|]. apply is_dir_write. by exists x. }
  intros _. apply (triple_bind _ _ _ (fun r d => kept d /\ (is_ok r = true -> read_path d staged = Some content))).
  { apply triple_attempt, triple_syscall.
    - intros d [Hd Hx]. split; [by apply files_kept_write|]. intros _. by apply read_write_eq.
    - intros d n [Hd _]. split; [split; [by apply files_kept_write|done]|by apply files_kept_write]. }
  intros [u|e].
  - apply triple_ret. intros d [Hd Hr]. exists content. split; [split; [done|by apply Hr]|done].
  - by apply refuse_triple; [intros d [Hd _]|].
Qed.
(** The package is put in its place, or one with its digest is there. *)
Lemma link_package_triple destination digest content :
  destination.1 <> root -> destination <> staged -> hex_sha256 content = digest ->
  triple (fun d => staged_copy root d0 staged content d /\ is_Some (d !! destination.1)) (link_package root staged destination digest)
    (fun r d => kept d /\ (is_ok r = true -> exists c, read_path d destination = Some c /\ hex_sha256 c = digest)) kept.
Proof.
  intros Hout Hne Hdigest w [[Hk Hst] Hx]. unfold link_package. unfold bind at 1, exists_file.
  destruct (read_path (disk w) destination) as [c|] eqn:Hc; cbn [is_some is_none negb].
  - unfold differs, hash_file. unfold bind at 1, bind at 1, exists_file. rewrite Hc. cbn [is_some is_none negb].
    unfold bind at 1, bind at 1, read_file. rewrite Hc. cbn [ok_or]. destruct (_ <? len c); [done|]. unfold ret at 1, ret at 1.
    destruct (bool_decide (hex_sha256 c = digest)) eqn:Hb; cbn [negb].
    + bprop. split; [done|]. intros _. by exists c.
    + clear Hst Hx Hc. revert w Hk.
      apply (refuse_triple (A := unit) kept _ (fun r d => kept d /\ (is_ok r = true -> exists c, read_path d destination = Some c /\ hex_sha256 c = digest))); done.
  - assert (read_path d0 destination = None) as Hn.
    { destruct (read_path d0 destination) as [c|] eqn:H0; [|done]. destruct Hk as [Hk _]. rewrite (Hk _ _ Hout H0) in Hc. done. }
    pose proof (conj (conj Hk Hst) Hx) as Hw. clear Hk Hst Hx Hc. revert w Hw.
    match goal with |- forall w, ?P -> match ?m w with _ => _ end =>
      enough (triple (fun d => (kept d /\ read_path d staged = Some content) /\ is_Some (d !! destination.1)) m
        (fun r d => kept d /\ (is_ok r = true -> exists c, read_path d destination = Some c /\ hex_sha256 c = digest)) kept) as Hm by exact Hm end.
    apply (triple_bind _ _ _ (fun r d => kept d /\ (is_ok r = true -> exists c, read_path d destination = Some c /\ hex_sha256 c = digest))).
    { apply triple_attempt, triple_syscall; [|by intros d n [[Hd _] _]]. intros d [[Hd Hst] Hx]. rewrite Hst. destruct (is_some _); [done|].
      split; [by apply files_kept_write|]. intros _. exists content. split; [by apply read_write_eq|done]. }
    intros [u|e]; [by apply triple_ret|]. apply refuse_triple; [by intros d [Hd _]|done].
Qed.
(** Checking an installed version again changes nothing. *)
Lemma installed_again_triple (self : Library) existing digest id version :
  installed_lookup self.(lb_document) id version = Some existing ->
  triple kept
    (discard staged ;;?
     if negb (bool_decide (existing.(iv_package_sha256) = digest)) then fail "an installed version is immutable; use a new version number"
     else
       do? different := differs (relative_file root existing.(iv_relative_path)) digest in
       if different : bool then fail "the installed package failed integrity verification"
       else ret (inl existing : InstalledVersion + string * string * InstalledVersion))
    (fun r d => kept d /\ match r with Ok x => prepared self d x | Err _ => True end) kept.
Proof.
  intros Hthere. apply (triple_bind _ _ _ (fun _ => kept)).
  { eapply triple_weaken; [apply discard_staged|done| |done]. by intros [u|e'] d Hd. }
  intros _. destruct (negb _); [by apply triple_fail|]. intros w Hw. unfold differs, hash_file, bind, exists_file, read_file, fail, ret.
  destruct (read_path (disk w) _) as [c|] eqn:Hc; cbn [is_some is_none negb]; [|done]. rewrite Hc. cbn [ok_or].
  destruct (_ <? len c); [done|]. destruct (negb _); [done|]. split; [done|]. by exists id, version.
Qed.
(** Putting a new version in its place *)
Lemma place_package_triple (self : Library) content archive bytes digest (now_ms : result string N) :
  self.(lb_root) = root -> open_bytes content = Ok archive -> has_digest content bytes digest ->
  let id := archive.(ar_manifest).(cartridge).(cm_id) in
  let version := archive.(ar_manifest).(cartridge).(cm_version) in
  let relative_path := package_path_of id version digest in
  installed_lookup self.(lb_document) id version = None ->
  triple (staged_copy root d0 staged content)
    (ensure_directory (root +:+ "/packages/" +:+ id) ;;?
     ensure_directory (root +:+ "/packages/" +:+ id +:+ "/" +:+ version) ;;?
     link_package root staged (relative_file root relative_path) digest ;;?
     remove_file staged ;;?
     do? now := lift now_ms in
     ret (inr (id, version,
       mkInstalledVersion archive.(ar_manifest).(cartridge).(cm_name) archive.(ar_manifest).(cartridge).(cm_description)
         digest bytes relative_path (capabilities archive.(ar_manifest).(permissions)) now) : InstalledVersion + string * string * InstalledVersion))
    (fun r d => kept d /\ match r with Ok x => prepared self d x | Err _ => True end) kept.
Proof.
  intros Hroot Hopen Hdigest id version relative_path Hnone.
  assert (is_digest digest = true) as Hisd by (destruct Hdigest as [_ <-]; apply hex_sha256_is_digest).
  pose proof (package_file root id version digest Hisd) as Hpf. set (destination := relative_file root relative_path). fold relative_path in Hpf.
  assert (destination.1 = root +:+ "/packages/" +:+ id +:+ "/" +:+ version) as Hdest by (unfold destination; by rewrite Hpf).
  assert (destination <> staged) as Hne.
  { intros He. apply (f_equal fst) in He. rewrite Hdest, Hdir in He. by apply package_not_incoming in He. }
  assert (forall dir d, d !! dir = None -> staged_copy root d0 staged content d -> staged_copy root d0 staged content (<[dir := ∅]> d)) as Hmk.
  { intros dir d Hd [[Hk Hr] Hs]. split; [|by rewrite mkdir_reads]. split; [intros q c Hq Hc|intros q Hq]; rewrite mkdir_reads by done; auto. }
  apply (triple_bind _ _ _ (fun _ => staged_copy root d0 staged content)).
  { eapply triple_weaken; [apply (ensure_kept_triple root d0 _ (staged_copy root d0 staged content))|done| |done]; [by intros d []|apply Hmk|].
    intros [u|e] d [Hk Hok]; [by apply Hok|done]. }
  intros _. apply (triple_bind _ _ _ (fun _ d => staged_copy root d0 staged content d /\ is_Some (d !! destination.1))).
  { eapply triple_weaken; [apply (ensure_kept_triple root d0 _ (staged_copy root d0 staged content))|done| |done]; [by intros d []|apply Hmk|].
    intros [u|e] d [Hk Hok]; [rewrite Hdest; by apply Hok|done]. }
  intros _. apply (triple_bind _ _ _ (fun _ d => kept d /\ exists c, read_path d destination = Some c /\ hex_sha256 c = digest)).
  { eapply triple_weaken; [apply (link_package_triple destination digest content)|done| |done].
    - rewrite Hdest. apply package_directory_ne.
    - done.
    - apply Hdigest.
    - intros [u|e] d [Hk Hok]; [split; [done|by apply Hok]|done]. }
  intros _. apply (triple_bind _ _ _ (fun _ d => kept d /\ exists c, read_path d destination = Some c /\ hex_sha256 c = digest)).
  { apply triple_syscall; [|by intros d n [Hd _]]. intros d [Hd (c & Hc & Hh)]. destruct (is_some _); [|done].
    split; [apply files_kept_remove; [apply staged_outside|done..]|]. exists c. by rewrite read_remove_ne. }
  intros _. apply (triple_bind _ _ _ (fun _ d => kept d /\ exists c, read_path d destination = Some c /\ hex_sha256 c = digest)).
  { apply triple_lift. intros d Hd. by destruct now_ms; [|split; [apply Hd|]]. }
  intros now. apply triple_ret. intros d [Hd Hc]. split; [done|]. split; [done|]. split; [|by rewrite Hroot]. by exists content, archive.
Qed.
End Staged.
Lemma prepare_install_triple (self : Library) package now_ms d0 :
  triple (fun d => d = d0) (prepare_install self package now_ms)
    (fun r d => files_kept self.(lb_root) d0 d /\ match r with Ok x => prepared self d x | Err _ => True end) (files_kept self.(lb_root) d0).
Proof.
  set (root := self.(lb_root)). unfold prepare_install. fold root. apply (triple_bind _ _ _ (fun _ => files_kept root d0)).
  { eapply triple_weaken; [apply (ensure_kept_triple root d0 _ (files_kept root d0))|by intros d ->| |done]; [done| |].
    - intros d Hd [Hk Hr]. split; [intros q c Hq Hc|intros q Hq]; rewrite mkdir_reads by done; auto.
    - by intros [u|e] d [Hk Hok]. }
  intros _. apply (triple_bind _ _ _ (fun staged d => staged.1 = incoming root /\ files_kept root d0 d)); [by intros w Hw|].
  intros staged. apply triple_pure. intros Hdir. destruct (read_path d0 staged) as [x|] eqn:Hx.
  { intros w Hw. unfold bind at 1, copy_bounded_and_hash, bind at 1, read_file. destruct (ok_or _ _) as [content|e]; [|done].
    destruct (_ <? len content); [done|]. unfold bind at 1, create_new, syscall.
    assert (read_path (disk w) staged = Some x) as Hs.
    { destruct Hw as [Hk _]. apply Hk; [|done]. rewrite Hdir. by apply append_ne. }
    assert (exists y, disk w !! staged.1 = Some y) as [y Hy] by (unfold read_path in Hs; destruct (disk w !! staged.1) as [y|]; [by exists y|done]).
    rewrite Hs, Hy. cbn [is_some is_none negb]. by destruct (fates w) as [|[|n|n] l]. }
  apply (triple_bind _ _ _ (fun p d => exists content, staged_copy root d0 staged content d /\ has_digest content p.1 p.2)).
  { eapply triple_weaken; [by apply copy_triple|done| |done]. by intros [[n digest]|e] d Hd. }
  intros [bytes digest] w (content & Hst & Hdigest). unfold bind at 1, read_file. rewrite (proj2 Hst). cbn [ok_or fst snd] in *. revert w Hst.
  match goal with |- forall w, _ -> match ?m w with _ => _ end =>
    enough (triple (staged_copy root d0 staged content) m
      (fun r d => files_kept root d0 d /\ match r with Ok x => prepared self d x | Err _ => True end) (files_kept root d0)) as Hm by exact Hm end.
  assert (forall d, staged_copy root d0 staged content d -> files_kept root d0 d) as Hkept by (by intros d []).
  destruct (open_bytes content) as [archive|e] eqn:Hopen; [|by apply refuse_triple].
  destruct (_ || _) eqn:Hsame; [by apply refuse_triple|]. cbv zeta.
  destruct (installed_lookup _ _ _) as [existing|] eqn:Hi.
  - eapply triple_weaken; [by eapply installed_again_triple|done|done|done].
  - destruct (_ <=? _); [by apply refuse_triple|]. by apply place_package_triple.
Qed.

(** ** The catalog on disk *)
Definition added (self : Library) (id version : string) (i : InstalledVersion) : Library :=
  with_document self (insert_installed self.(lb_document) id version i).
Lemma installed_lookup_insert doc id version i id' version' :
  installed_lookup (insert_installed doc id version i) id' version'
  = if decide (id' = id /\ version' = version) then Some i else installed_lookup doc id' version'.
Proof.
  unfold installed_lookup, insert_installed. cbn [ld_installed with_installed]. destruct (decide (id' = id)) as [->|Hne].
  - rewrite lookup_insert_eq. cbn. destruct (decide (version' = version)) as [->|Hv].
    + by rewrite lookup_insert_eq, decide_True.
    + rewrite lookup_insert_ne, decide_False by naive_solver. by destruct (ld_installed doc !! id).
  - by rewrite lookup_insert_ne, decide_False by naive_solver.
Qed.
Lemma valid_versions id l version i :
  check_library_versions id l = Ok tt -> (version, i) ∈ l ->
  valid_text version 64 false = true /\ i.(iv_relative_path) = package_path_of id version i.(iv_package_sha256)
  /\ is_digest i.(iv_package_sha256) = true.
Proof.
  induction l as [|[v x] l IH]; [set_solver|]. cbn [check_library_versions]. pass H1. pass H2. pass H3. intros Hl [Heq|Hin]%elem_of_cons; [|by apply IH].
  injection Heq as -> ->. split_guard. bprop. by repeat split.
Qed.
Lemma valid_installed l id versions version i :
  check_library_installed l = Ok tt -> (id, versions) ∈ l -> versions !! version = Some i ->
  valid_text version 64 false = true /\ i.(iv_relative_path) = package_path_of id version i.(iv_package_sha256)
  /\ is_digest i.(iv_package_sha256) = true.
Proof.
  induction l as [|[id' vs] l IH]; [set_solver|]. cbn [check_library_installed]. pass H1. succeed t H2.
  intros Hl [Heq|Hin]%elem_of_cons Hv; [|by apply IH]. injection Heq as -> ->. destruct t. eapply valid_versions; [done|]. by apply btree_iter_elem.
Qed.
Lemma valid_library_paths doc id version i :
  validate_library doc = Ok tt -> installed_lookup doc id version = Some i ->
  valid_text version 64 false = true /\ i.(iv_relative_path) = package_path_of id version i.(iv_package_sha256)
  /\ is_digest i.(iv_package_sha256) = true.
Proof.
  unfold validate_library. pass H1. pass H2. pass H3. pass H4. pass H5. pass H6. succeed t H7. intros _. unfold installed_lookup.
  destruct (ld_installed doc !! id) as [versions|] eqn:Hid; [|done]. cbn. intros Hv. destruct t. eapply valid_installed; [done| |done].
  by apply btree_iter_elem.
Qed.
Lemma whole_kept root d0 d doc : files_kept root d0 d -> whole d0 root doc -> whole d root doc.
Proof.
  intros [Hk Hr] Hw id version i Hi. destruct (Hw _ _ _ Hi) as (c & Hc & Hh). exists c. split; [|done].
  destruct (decide ((relative_file root (iv_relative_path i)).1 = root)); [by rewrite Hr|by apply Hk].
Qed.
Lemma whole_saved root d0 d doc :
  validate_library doc = Ok tt -> other_directories d0 (document_path root) d -> whole d0 root doc -> whole d root doc.
Proof.
  intros Hval Ho Hw id version i Hi. destruct (Hw _ _ _ Hi) as (c & Hc & Hh). exists c. split; [|done]. rewrite Ho; [done|].
  destruct (valid_library_paths _ _ _ _ Hval Hi) as (_ & -> & Hd). rewrite package_file by done. apply package_directory_ne.
Qed.
Lemma whole_added d self id version i :
  whole d self.(lb_root) self.(lb_document) -> package_on_disk d self.(lb_root) i ->
  whole d self.(lb_root) (added self id version i).(lb_document).
Proof.
  intros Hw Hi id' version' j. cbn [added lb_document with_document]. rewrite installed_lookup_insert.
  destruct (decide _); [by intros [= <-]|apply Hw].
Qed.
(** The library with one more version, on disk with all its packages *)
Definition installs (self : Library) (id version : string) (i : InstalledVersion) (d : Disk) : Prop :=
  installed_lookup self.(lb_document) id version = None /\ describes id version i
  /\ persisted (added self id version i) d /\ whole d self.(lb_root) (added self id version i).(lb_document).
Definition package_outcome (self : Library) (d0 d : Disk) : Prop :=
  (forall q c, q.1 <> self.(lb_root) -> read_path d0 q = Some c -> read_path d q = Some c)
  /\ whole d self.(lb_root) self.(lb_document)
  /\ (visible d (document_path self.(lb_root)) = visible d0 (document_path self.(lb_root)) \/ exists id version i, installs self id version i d).
Lemma kept_package_outcome self d0 d :
  whole d0 self.(lb_root) self.(lb_document) -> files_kept self.(lb_root) d0 d -> package_outcome self d0 d.
Proof.
  intros Hw Hk. split; [apply Hk|]. split; [by eapply whole_kept|]. left. destruct Hk as [_ Hr]. unfold visible. by rewrite !Hr.
Qed.
Lemma save_added self d0 d d' id version i :
  validate_library self.(lb_document) = Ok tt -> whole d0 self.(lb_root) self.(lb_document) ->
  files_kept self.(lb_root) d0 d -> prepared self d (inr (id, version, i)) -> save_outcome (added self id version i) d d' ->
  package_outcome self d0 d' /\ (persisted (added self id version i) d' -> installs self id version i d').
Proof.
  intros Hval Hw Hk (Hnone & Hdesc & Hon) [Ho Hvis]. set (next := added self id version i) in *.
  assert (whole d self.(lb_root) self.(lb_document)) as Hwd by (by eapply whole_kept).
  assert (persisted next d' -> installs self id version i d') as Hinst.
  { intros Hp. do 3 (split; [done|]). eapply whole_saved; [apply Hp|exact Ho|by apply whole_added]. }
  split; [|done]. split; [|split].
  - intros q c Hq Hc. rewrite Ho by done. by apply Hk.
  - by eapply whole_saved.
  - destruct Hvis as [Hvis|Hp]; [left|right; exists id, version, i; auto].
    transitivity (visible d (document_path self.(lb_root))); [exact Hvis|]. destruct Hk as [_ Hr]. unfold visible. by rewrite !Hr.
Qed.

(** C23: Installing a package survives a crash anywhere.  From a valid library all
    of whose packages are on disk with their digests, whatever calls fail and
    wherever the process dies: no file outside the library's root directory is
    lost or changed, every installed package stays, and the document a reader sees
    is the old one, or the old one with one version more, one that was not
    installed, whose record states the identity and the permissions in the
    package's own manifest and whose package is on disk under its digest.  An answer means that
    the version is installed, now or before. *)
Theorem install_package_survives_crash (self : Library) package now_ms (w : World) :
  validate_library self.(lb_document) = Ok tt -> whole w.(disk) self.(lb_root) self.(lb_document) ->
  let '(w', o) := install_package self package now_ms w in
  (forall q c, q.1 <> self.(lb_root) -> read_path w.(disk) q = Some c -> read_path w'.(disk) q = Some c)
  /\ whole w'.(disk) self.(lb_root) self.(lb_document)
  /\ (visible w'.(disk) (document_path self.(lb_root)) = visible w.(disk) (document_path self.(lb_root))
      \/ exists id version i, installs self id version i w'.(disk))
  /\ match o with
     | Done (Ok (self', Ok i)) =>
         (self' = self /\ exists id version, installed_lookup self.(lb_document) id version = Some i)
         \/ (exists id version, self' = added self id version i /\ installs self id version i w'.(disk))
     | _ => True
     end.
Proof.
  intros Hval Hw. pose proof (prepare_install_triple self package now_ms (disk w) w eq_refl) as Ht.
  unfold install_package, bind at 1, attempt. destruct (prepare_install self package now_ms w) as [w1 [r|]].
  2:{ destruct (kept_package_outcome self (disk w) (disk w1) Hw Ht) as (H1 & H2 & H3). by split_and!. }
  destruct Ht as [Hk Hr]. destruct (kept_package_outcome self (disk w) (disk w1) Hw Hk) as (H1 & H2 & H3).
  destruct r as [[existing|[[id version] i]]|e]; cbn [ret]; [split_and!; auto| |by split_and!].
  clear H1 H2 H3. pose proof (saving_triple (added self id version i) i (disk w1) w1 eq_refl) as Hs. unfold added in Hs at 1.
  destruct (saving _ i w1) as [w' [r|]].
  - destruct Hs as (Ho & answer & -> & Hok). destruct (save_added _ _ _ _ _ _ _ Hval Hw Hk Hr Ho) as [(H1 & H2 & H3) Hi].
    split_and!; auto. destruct answer as [a|e]; [|done]. destruct (Hok a eq_refl) as [-> Hp]. right. exists id, version. auto.
  - destruct (save_added _ _ _ _ _ _ _ Hval Hw Hk Hr Hs) as [(H1 & H2 & H3) _]. by split_and!.
Qed.

(** A version number of more than 64 characters stops the library.  Manifests
    may have one, so that such a package is put in its place and its record is
    inserted in memory before the document is refused: the installation is answered
    with an error, and from then on no launch begins, whatever is launched. *)
Theorem long_version_stops_library (self : Library) package now_ms (w w1 : World) id version i :
  prepare_install self package now_ms w = (w1, Done (Ok (inr (id, version, i)))) -> 64 < len (str_chars version) ->
  exists self', (exists e, install_package self package now_ms w = (w1, Done (Ok (self', Err e))))
    /\ forall id' version' now' w', exists self'' e,
         begin_launch self' id' version' now' w' = (w', Done (Ok (self'', Err e))).
Proof.
  intros Hprep Hlong.
  assert (forall doc (A : Type) (a : A) lib w', lib.(lb_document) = doc -> installed_lookup doc id version = Some i ->
    exists e, saving lib a w' = (w', Done (Ok (lib, Err e)))) as Hsave.
  { intros doc A a lib w' Hdoc Hi. unfold saving, save_library. unfold bind, attempt, lift. destruct (validate_library _) as [[]|e] eqn:Hv; [|by eexists].
    subst doc. destruct (valid_library_paths _ _ _ _ Hv Hi) as [Ht _]. unfold valid_text in Ht.
    apply andb_true_iff in Ht as [[_ Ht]%andb_true_iff _]. bprop. lia. }
  exists (added self id version i).
  assert (installed_lookup (added self id version i).(lb_document) id version = Some i) as Hi.
  { cbn [added lb_document with_document]. by rewrite installed_lookup_insert, decide_True. }
  split.
  - destruct (Hsave _ _ i (added self id version i) w1 eq_refl Hi) as [e He]. exists e.
    unfold install_package, bind at 1, attempt. rewrite Hprep. exact He.
  - intros id' version' now' w'. unfold begin_launch. destruct (is_some_and _ _); [by do 2 eexists|].
    destruct (preflight _ _ _) as [p|]; [|by do 2 eexists]. destruct (negb _); [by do 2 eexists|]. destruct now' as [now'|]; [|by do 2 eexists].
    cbv zeta. match goal with |- exists s e, saving ?l ?a _ = _ => destruct (Hsave _ _ a l w' eq_refl Hi) as [e He] end.
    do 2 eexists. exact He.
Qed.
End Installing.

(** ** A concrete installation *)
Section InstallWitness.
#[local] Existing Instance demo_externals.
#[local] Existing Instance demo_hex.
#[local] Existing Instance demo_semver.
#[local] Existing Instance toy_url.
#[local] Existing Instance library_json.
Definition empty_library : Library := mkLibrary "root" default_document ∅.
Definition download_world : World :=
  mkWorld {["home" := {["app.cartridge" := [x50; x4b]]}; "root" := ∅; "root/packages" := ∅]} 0 7 [].
Definition download : Path := ("home", "app.cartridge").
Section Plain.
#[local] Existing Instance toy_toml.
#[local] Existing Instance toy_zip.
Definition app_installed : InstalledVersion :=
  mkInstalledVersion "App" "" (hex_sha256 [x50; x4b]) 2 (package_path_of "dev.example.app" "1.2.0" (hex_sha256 [x50; x4b]))
    {[Capability.Assets]} 9.
Lemma install_package_survives_crash_witness :
  whole (install_package empty_library download (Ok 9) download_world).1.(disk) "root"
    (added empty_library "dev.example.app" "1.2.0" app_installed).(lb_document).
Proof.
  pose proof (install_package_survives_crash empty_library download (Ok 9) download_world) as H.
  specialize (H ltac:(vm_compute; reflexivity) ltac:(intros id version i Hi; vm_compute in Hi; discriminate Hi)).
  assert ((install_package empty_library download (Ok 9) download_world).2
          = Done (Ok (added empty_library "dev.example.app" "1.2.0" app_installed, Ok app_installed))) as Ho by (vm_compute; reflexivity).
  revert H Ho. destruct (install_package _ _ _ download_world) as [w' o]. intros (_ & _ & _ & H) Ho. cbn [snd] in Ho. rewrite Ho in H.
  destruct H as [[H _]|(id & version & Heq & _ & _ & _ & H)].
  - apply (f_equal (fun s => bool_decide (s.(lb_document).(ld_installed) = ∅))) in H. vm_compute in H. discriminate H.
  - cbn [fst]. rewrite Heq. exact H.
Defined.
End Plain.
Definition long_version : string := "1.2." +:+ String.concat "" (replicate 70 "7").
Definition long_source : PackageManifest :=
  mkPackageManifest 1 (mkMetadata "dev.example.app" "App" long_version "")
    (mkPermissions false false true false false false false false false) default_http_policy
    (mkCompatibility "" ∅) default_limits (mkStateConfig 0 []) [] [] packed_manifest.(integrity).
#[local] Instance long_toml : TomlCrate.
Proof.
  refine {| toml_from_str := fun s => if bool_decide (s = "packed") then Ok long_source else Err "toml";
            toml_to_string_pretty := fun _ => Err "toml" |}; done.
Defined.
#[local] Existing Instance toy_zip.
Lemma long_version_stops_library_witness :
  exists self', (exists e, (install_package empty_library download (Ok 9) download_world).2 = Done (Ok (self', Err e)))
    /\ forall id' version' now' w', exists self'' e, begin_launch self' id' version' now' w' = (w', Done (Ok (self'', Err e))).
Proof.
  destruct (prepare_install empty_library download (Ok 9) download_world) as [w1 o] eqn:Hp.
  assert (o = Done (Ok (inr ("dev.example.app", long_version,
    mkInstalledVersion "App" "" (hex_sha256 [x50; x4b]) 2 (package_path_of "dev.example.app" long_version (hex_sha256 [x50; x4b])) {[Capability.Assets]} 9)))) as ->.
  { transitivity (prepare_install empty_library download (Ok 9) download_world).2; [by rewrite Hp|]. vm_compute. reflexivity. }
  destruct (long_version_stops_library _ _ _ _ _ _ _ _ Hp) as (self' & [e He] & H); [by vm_compute|].
  exists self'. split; [|exact H]. exists e. by rewrite He.
Defined.
End InstallWitness.
