(* ===== verification/Probe.v ===== *)
(** * The probe channel ([crates/cartridge-engine/src/probe.rs])

    Health signals of a guest, sealed for one run of one replica; the random bytes
    that are drawn are arguments, and XChaCha20-Poly1305 is the cipher of [Peer]. *)
From S2P Require Import Prelude Text Core Snapshot Network Peer Plan Supervisor.

Definition ENGINE_PROBE_FORMAT_VERSION : N := 1.
Definition MAX_PROBE_ENVELOPE_BYTES : N := 4096.
Definition PROBE_ASSOCIATED_DATA : string := "cartridge-application-health-v1".
Definition MAX_PROBE_DETAIL_BYTES : N := 512.
Definition lower_hex (value : string) : bool := forallb is_lower_hex (str_bytes value).

Record ProbeSignal := mkProbeSignal {
  sg_format_version : N;
  sg_run_id : string;
  sg_sequence : N;
  sg_emitted_at_ms : N;
  sg_kind : ProbeSignalKind;
  sg_detail : string;
}.
Record ProbeEnvelope := mkProbeEnvelope {
  pe_format_version : N;
  pe_run_id : string;
  pe_nonce_hex : string;
  pe_ciphertext_hex : string;
}.
Definition validate_signal (self : ProbeSignal) : result string unit :=
  if negb (self.(sg_format_version) =? ENGINE_PROBE_FORMAT_VERSION) || negb (is_digest self.(sg_run_id)) || (self.(sg_sequence) =? 0)
     || (self.(sg_emitted_at_ms) =? 0) || (MAX_PROBE_DETAIL_BYTES <? str_len self.(sg_detail))
     || negb (valid_text self.(sg_detail) MAX_PROBE_DETAIL_BYTES true)
  then Err "application health signal is invalid" else Ok tt.
Definition new_signal (run_id : string) (sequence emitted_at_ms : N) (kind : ProbeSignalKind) (detail : string) : result string ProbeSignal :=
  let value := mkProbeSignal ENGINE_PROBE_FORMAT_VERSION run_id sequence emitted_at_ms kind detail in
  let? _ := validate_signal value in
  Ok value.
Definition validate_envelope (self : ProbeEnvelope) : result string unit :=
  if negb (self.(pe_format_version) =? ENGINE_PROBE_FORMAT_VERSION) || negb (is_digest self.(pe_run_id))
     || negb (str_len self.(pe_nonce_hex) =? 48) || negb (lower_hex self.(pe_nonce_hex)) || str_is_empty self.(pe_ciphertext_hex)
     || (saturating_mul usize_max MAX_PROBE_ENVELOPE_BYTES 2 <? str_len self.(pe_ciphertext_hex))
     || negb (str_len self.(pe_ciphertext_hex) mod 2 =? 0) || negb (lower_hex self.(pe_ciphertext_hex))
  then Err "probe envelope is invalid" else Ok tt.
Definition probe_aad (run_id : string) : bytes := as_bytes PROBE_ASSOCIATED_DATA ++ as_bytes run_id.

Section Probe.
Context `{Hex : HexDecode} `{PC : PeerCrypto} `{JS : Json ProbeSignal} `{DS : JsonDecode ProbeSignal} `{JE : Json ProbeEnvelope} `{DE : JsonDecode ProbeEnvelope}.
(** [ProbeChannelKey]: its 32 bytes *)
Definition probe_key_from_hex (value : string) : result string bytes :=
  if negb (str_len value =? 64) || negb (lower_hex value) then Err "probe channel key is invalid"
  else
    match hex_decode value with
    | Err _ => Err "probe channel key is invalid"
    | Ok key => if negb (len key =? 32) then Err "probe channel key has the wrong length" else Ok key
    end.
Definition expose_hex (key : bytes) : string := hex_encode key.
Definition seal_signal (nonce : bytes) (signal : ProbeSignal) (key : bytes) : result string bytes :=
  let? _ := validate_signal signal in
  let? plaintext := to_vec signal in
  let? ciphertext := ok_or (aead_encrypt key nonce (probe_aad signal.(sg_run_id)) plaintext) "probe signal encryption failed" in
  let envelope := mkProbeEnvelope ENGINE_PROBE_FORMAT_VERSION signal.(sg_run_id) (hex_encode nonce) (hex_encode ciphertext) in
  let? _ := validate_envelope envelope in
  let? content := to_vec envelope in
  if MAX_PROBE_ENVELOPE_BYTES <? len content then Err "probe envelope exceeds its byte limit" else Ok content.
Definition open_signal (content : bytes) (expected_run_id : string) (key : bytes) : result string ProbeSignal :=
  if (len content =? 0) || (MAX_PROBE_ENVELOPE_BYTES <? len content) || negb (is_digest expected_run_id)
  then Err "probe envelope exceeds its byte limit or has invalid context"
  else
    let? envelope := map_err (fun _ => "probe envelope is invalid") (from_slice content) in
    let? _ := validate_envelope envelope in
    if negb (bool_decide (envelope.(pe_run_id) = expected_run_id)) then Err "probe envelope belongs to another worker run"
    else
      let? nonce := map_err (fun _ => "probe nonce is invalid") (hex_decode envelope.(pe_nonce_hex)) in
      if negb (len nonce =? 24) then Err "probe nonce has the wrong length"
      else
        let? ciphertext := map_err (fun _ => "probe ciphertext is invalid") (hex_decode envelope.(pe_ciphertext_hex)) in
        let? plaintext := ok_or (aead_decrypt key nonce (probe_aad expected_run_id) ciphertext) "probe signal authentication failed" in
        let? signal := map_err (fun _ => "probe signal plaintext is invalid") (from_slice plaintext) in
        let? _ := validate_signal signal in
        if negb (bool_decide (signal.(sg_run_id) = expected_run_id)) then Err "probe signal belongs to another worker run" else Ok signal.

(** ** A signal is for one run *)
Context `{RS : !JsonRoundTrip ProbeSignal} `{RE : !JsonRoundTrip ProbeEnvelope}.
Context (Htext : forall (e : ProbeEnvelope) content, to_vec e = Ok content -> content <> []).
(** A sealed signal opens to itself for its own run, and is refused for every other. *)
Theorem signal_opens_for_its_run (nonce : bytes) (signal : ProbeSignal) (key content : bytes) :
  len nonce = 24 -> seal_signal nonce signal key = Ok content ->
  open_signal content signal.(sg_run_id) key = Ok signal
  /\ forall other, is_digest other = true -> other <> signal.(sg_run_id) ->
       open_signal content other key = Err "probe envelope belongs to another worker run".
Proof.
  intros Hn. unfold seal_signal. succeed u Hsig. destruct u. succeed msg Hmsg. destruct (aead_encrypt _ _ _ _) as [c|] eqn:He; [|done]. cbn [ok_or].
  succeed u Henv. destruct u. succeed text Hto. pass Hfit. intros [= <-]. bprop.
  assert (is_digest signal.(sg_run_id) = true) as Hid.
  { revert Hsig. unfold validate_signal. pass Hg. intros _. by split_guard. }
  assert (len text <> 0) as Hne by (specialize (Htext _ _ Hto); by destruct text).
  assert (forall run, is_digest run = true -> (len text =? 0) || (MAX_PROBE_ENVELOPE_BYTES <? len text) || negb (is_digest run) = false) as Hguard.
  { intros run ->. destruct (N.eqb_spec (len text) 0); [done|]. destruct (N.ltb_spec MAX_PROBE_ENVELOPE_BYTES (len text)); [lia|done]. }
  split; [|intros other Ho Hother]; unfold open_signal; rewrite Hguard by done; rewrite (from_slice_to_vec _ _ Hto); cbn [map_err]; rewrite Henv;
    cbn [pe_run_id pe_nonce_hex pe_ciphertext_hex].
  - rewrite bool_decide_eq_true_2 by done. cbn [negb]. rewrite !hex_decode_encode. cbn [map_err]. rewrite Hn. cbn [N.eqb negb].
    rewrite (aead_round_trip _ _ _ _ _ He). cbn [ok_or]. rewrite (from_slice_to_vec _ _ Hmsg). cbn [map_err]. rewrite Hsig.
    by rewrite bool_decide_eq_true_2.
  - by rewrite bool_decide_eq_false_2.
Qed.
End Probe.
