(* ===== verification/Daemon.v ===== *)
(** * The daemon protocol ([crates/cartridge-engine/src/daemon.rs] and, of
    [crates/cartridge-cli/src/engine_daemon.rs], the replay cache and the framing)

    Requests and responses and their checks, the sealed frames, the framing over a
    connection that reads and writes in pieces, the endpoint file and the cache that
    keeps a request from being used twice.  The random bytes that are drawn and the
    time are arguments. *)
From stdpp Require Import pretty.
From S2P Require Import Prelude Text Core Rolling Plan Supervisor Events Health Rollout RolloutStatus Progress Store Routing Files Snapshot Directory Blob Network Peer Host Probe IdentityFiles.

Definition DAEMON_PROTOCOL_VERSION : N := 4.
Definition DAEMON_ENDPOINT_FILE : string := "daemon.json".
Definition MAX_DAEMON_FRAME_BYTES : N := 4 * 1024 * 1024.
Definition MAX_DAEMON_EVENTS : N := 256.
Definition MAX_DAEMON_SUPERVISORS : N := 64.
Definition MAX_DAEMON_ENDPOINT_BYTES : N := 4096.
Definition DAEMON_DIRECTION_REQUEST : string := "cartridge-daemon-request-v1".
Definition DAEMON_DIRECTION_RESPONSE : string := "cartridge-daemon-response-v1".

(** ** Data *)
Record DaemonEndpoint := mkEndpoint {
  de_protocol_version : N;
  de_instance_id : string;
  de_key_hex : string;
  de_port : N;
  de_pid : N;
  de_started_at_ms : N;
}.
Record DaemonInfo := mkInfo {
  di_protocol_version : N;
  di_instance_id : string;
  di_pid : N;
  di_started_at_ms : N;
  active_supervisors : N;
  max_supervisors : N;
  workers_per_stack : N;
  known_stacks : N;
  applied_stacks : N;
}.
Module DaemonRequest.
Inductive DaemonRequest :=
| Ping
| Info
| List
| Status (stack : string)
| RuntimeStatus (stack : string)
| Routes (stack : string)
| Invoke (stack instance : string) (request : ServiceRequest) (timeout_ms : N)
| Events (stack : string) (tail : N)
| Health (stack : option string)
| Plan (manifest : StackManifest)
| Apply (plan : StackPlan) (allow_insecure : bool)
| RolloutStatus (stack : string)
| RolloutPrepare (plan : StackPlan) (allow_insecure : bool)
| RolloutActivate (stack rollout_id : string)
| RolloutCommit (stack rollout_id : string)
| RolloutRollback (stack rollout_id : string)
| Stop (stack : string)
| Remove (stack : string)
| Shutdown.
End DaemonRequest.
Abbreviation DaemonRequest := DaemonRequest.DaemonRequest.
Module DaemonResponse.
Inductive DaemonResponse :=
| Pong
| Info (info : DaemonInfo)
| Stacks (stacks : list StackStatus)
| Status (status : StackStatus)
| RuntimeStatus (status : option StackRuntimeStatus)
| Routes (routes : option RoutingSnapshot)
| Invoked (response : ServiceResponse)
| Events (events : list EngineEvent)
| Health (reports : list StackHealthReport)
| Planned (plan : StackPlan)
| Applied (report : ApplyReport)
| Rollout (status : option RolloutStatus.RolloutStatus)
| Stopped (report : ApplyReport)
| Removed (report : ApplyReport)
| ShuttingDown
| Error (code message : string).
End DaemonResponse.
Abbreviation DaemonResponse := DaemonResponse.DaemonResponse.
Record DaemonFrame := mkFrame {
  df_protocol_version : N;
  df_instance_id : string;
  df_nonce_hex : string;
  df_ciphertext_hex : string;
}.
Record RequestEnvelope := mkRequestEnvelope { re_request_id : string; re_issued_at_ms : N; re_request : DaemonRequest }.
Record ResponseEnvelope := mkResponseEnvelope { rs_request_id : string; rs_response : DaemonResponse }.
(** [OpenedDaemonRequest] has the fields of the envelope. *)
Record OpenedDaemonRequest := mkOpened { od_request_id : string; od_issued_at_ms : N; od_request : DaemonRequest }.
Record DaemonCodec := mkCodec { dc_instance_id : string; dc_key : bytes }.

(** ** Checks *)
Definition validate_endpoint (self : DaemonEndpoint) : result string unit :=
  if negb (self.(de_protocol_version) =? DAEMON_PROTOCOL_VERSION) || negb (is_digest self.(de_instance_id))
     || negb (is_digest self.(de_key_hex)) || (self.(de_port) =? 0) || (self.(de_pid) =? 0) || (self.(de_started_at_ms) =? 0)
  then Err "daemon endpoint identity is invalid" else Ok tt.
Definition validate_info (self : DaemonInfo) : result string unit :=
  if negb (self.(di_protocol_version) =? DAEMON_PROTOCOL_VERSION) || negb (is_digest self.(di_instance_id)) || (self.(di_pid) =? 0)
     || (self.(di_started_at_ms) =? 0) || (self.(max_supervisors) <? self.(active_supervisors)) || (self.(max_supervisors) =? 0)
     || (MAX_DAEMON_SUPERVISORS <? self.(max_supervisors)) || (self.(workers_per_stack) =? 0)
     || (MAX_STACK_TOTAL_ACTIVE_REPLICAS <? self.(workers_per_stack)) || (self.(known_stacks) <? self.(applied_stacks))
  then Err "daemon information is invalid" else Ok tt.
Definition bad_stack_response (status : StackStatus) : bool :=
  negb (valid_name status.(ss_stack)) || (status.(ss_revision) =? 0) || negb (is_digest status.(ss_event_sha256))
  || is_some_and (fun digest => negb (is_digest digest)) status.(ss_plan_sha256).
Definition validate_stack_responses (stacks : list StackStatus) : result string unit :=
  if 1024 <? len stacks then Err "daemon response contains too many stacks"
  else if existsb bad_stack_response stacks then Err "daemon stack response is invalid" else Ok tt.
Definition validate_frame (self : DaemonFrame) : result string unit :=
  if negb (self.(df_protocol_version) =? DAEMON_PROTOCOL_VERSION) || negb (is_digest self.(df_instance_id))
     || negb (str_len self.(df_nonce_hex) =? 48) || negb (lower_hex self.(df_nonce_hex)) || str_is_empty self.(df_ciphertext_hex)
     || (saturating_mul usize_max MAX_DAEMON_FRAME_BYTES 2 <? str_len self.(df_ciphertext_hex))
     || negb (str_len self.(df_ciphertext_hex) mod 2 =? 0) || negb (lower_hex self.(df_ciphertext_hex))
  then Err "daemon frame is invalid" else Ok tt.
Fixpoint validate_events `{Externals} `{Json StackPlan} `{Json EngineEvent} (l : list EngineEvent) : result string unit :=
  match l with
  | [] => Ok tt
  | event :: l => let? _ := validate_event event in validate_events l
  end.

Section Daemon.
Context `{Ext : Externals} `{Hex : HexDecode} `{PC : PeerCrypto}.
Context `{JP : !Json StackPlan} `{JS : !Json StackRuntimeStatus} `{JE : !Json EngineEvent} `{JI : !Json RolloutIdentity}
  `{JH : !Json StackHealthReport} `{JRs : !Json RolloutStatus.RolloutStatus} `{JRt : !Json RoutingSnapshot}.
Context `{JF : Json DaemonFrame} `{DF : JsonDecode DaemonFrame} `{JQ : Json RequestEnvelope} `{DQ : JsonDecode RequestEnvelope}
  `{JA : Json ResponseEnvelope} `{DA : JsonDecode ResponseEnvelope} `{JN : Json DaemonEndpoint} `{DN : JsonDecode DaemonEndpoint}.

Definition request_invalid : result string unit := Err "daemon request is invalid".
Definition validate_request (self : DaemonRequest) : result string unit :=
  match self with
  | DaemonRequest.Ping | DaemonRequest.Info | DaemonRequest.List | DaemonRequest.Shutdown => Ok tt
  | DaemonRequest.Status stack | DaemonRequest.RuntimeStatus stack | DaemonRequest.Routes stack | DaemonRequest.RolloutStatus stack
  | DaemonRequest.Stop stack | DaemonRequest.Remove stack => if valid_name stack then Ok tt else request_invalid
  | DaemonRequest.Invoke stack instance request timeout_ms =>
      if valid_name stack && valid_name instance && in_range MIN_SERVICE_TIMEOUT_MS MAX_SERVICE_TIMEOUT_MS timeout_ms
      then validate_service_request request else request_invalid
  | DaemonRequest.Events stack tail =>
      if valid_name stack && (0 <? tail) && (tail <=? MAX_DAEMON_EVENTS) then Ok tt else request_invalid
  | DaemonRequest.Health stack =>
      if match stack with None => true | Some value => valid_name value end then Ok tt else request_invalid
  | DaemonRequest.Plan manifest => validate_manifest manifest
  | DaemonRequest.Apply plan _ | DaemonRequest.RolloutPrepare plan _ => validate_plan plan
  | DaemonRequest.RolloutActivate stack id | DaemonRequest.RolloutCommit stack id | DaemonRequest.RolloutRollback stack id =>
      if valid_name stack && is_digest id then Ok tt else request_invalid
  end.
Definition validate_response (self : DaemonResponse) : result string unit :=
  match self with
  | DaemonResponse.Info info => validate_info info
  | DaemonResponse.Stacks stacks => validate_stack_responses stacks
  | DaemonResponse.Status status => validate_stack_responses [status]
  | DaemonResponse.RuntimeStatus (Some status) => validate_status status
  | DaemonResponse.Routes (Some routes) => validate_routing routes
  | DaemonResponse.Invoked response => validate_service_response response
  | DaemonResponse.Pong | DaemonResponse.ShuttingDown | DaemonResponse.RuntimeStatus None | DaemonResponse.Routes None
  | DaemonResponse.Rollout None => Ok tt
  | DaemonResponse.Events events =>
      if MAX_DAEMON_EVENTS <? len events then Err "daemon response contains too many events" else validate_events events
  | DaemonResponse.Health reports => validate_health_reports reports
  | DaemonResponse.Planned plan => validate_plan plan
  | DaemonResponse.Rollout (Some record) => validate_rollout_status record
  | DaemonResponse.Applied report | DaemonResponse.Stopped report | DaemonResponse.Removed report =>
      validate_stack_responses [report.(report_status)]
  | DaemonResponse.Error code message =>
      if valid_name code && valid_text message 1024 false then Ok tt else Err "daemon error response is invalid"
  end.

(** ** Sealed frames *)
Definition generate_codec (instance key : bytes) : DaemonCodec := mkCodec (hex_encode instance) key.
Definition codec_from_endpoint (endpoint : DaemonEndpoint) : result string DaemonCodec :=
  let? _ := validate_endpoint endpoint in
  let? key := hex_decode endpoint.(de_key_hex) in
  if negb (len key =? 32) then Err "daemon endpoint key has the wrong length" else Ok (mkCodec endpoint.(de_instance_id) key).
Definition endpoint_of (self : DaemonCodec) (port pid started_at_ms : N) : DaemonEndpoint :=
  mkEndpoint DAEMON_PROTOCOL_VERSION self.(dc_instance_id) (hex_encode self.(dc_key)) port pid started_at_ms.
Definition daemon_aad (direction instance_id : string) : bytes :=
  le_byte_list 8 (str_len direction) ++ as_bytes direction ++ as_bytes instance_id.
(** [saturating_sub] is the subtraction of [N]. *)
Definition maximum_plaintext : N := (MAX_DAEMON_FRAME_BYTES - 1024) / 2.
Definition seal_frame {T : Type} `{Json T} (self : DaemonCodec) (nonce : bytes) (direction : string) (value : T) : result string bytes :=
  let? plaintext := to_vec value in
  if maximum_plaintext <? len plaintext then Err "daemon message exceeds its byte limit"
  else if negb (len nonce =? 24) then Err "daemon nonce has the wrong length"
  else
    let? ciphertext := ok_or (aead_encrypt self.(dc_key) nonce (daemon_aad direction self.(dc_instance_id)) plaintext) "daemon message encryption failed" in
    let frame := mkFrame DAEMON_PROTOCOL_VERSION self.(dc_instance_id) (hex_encode nonce) (hex_encode ciphertext) in
    let? _ := validate_frame frame in
    let? content := to_vec frame in
    if MAX_DAEMON_FRAME_BYTES <? len content then Err "daemon frame exceeds its byte limit" else Ok content.
Definition open_frame {T : Type} `{JsonDecode T} (self : DaemonCodec) (direction : string) (content : bytes) : result string T :=
  if (len content =? 0) || (MAX_DAEMON_FRAME_BYTES <? len content) then Err "daemon frame exceeds its byte limit"
  else
    let? frame := from_slice content in
    let? _ := validate_frame frame in
    if negb (bool_decide (frame.(df_instance_id) = self.(dc_instance_id))) then Err "daemon frame belongs to another engine instance"
    else
      let? nonce := hex_decode frame.(df_nonce_hex) in
      if negb (len nonce =? 24) then Err "daemon nonce has the wrong length"
      else
        let? ciphertext := hex_decode frame.(df_ciphertext_hex) in
        let? plaintext := ok_or (aead_decrypt self.(dc_key) nonce (daemon_aad direction self.(dc_instance_id)) ciphertext)
                            "daemon message authentication failed" in
        from_slice plaintext.
(** [identity]: the 32 random bytes of the request id *)
Definition seal_request (self : DaemonCodec) (identity nonce : bytes) (request : DaemonRequest) (issued_at_ms : N) : result string (string * bytes) :=
  let? _ := validate_request request in
  if issued_at_ms =? 0 then Err "daemon request timestamp is invalid"
  else
    let request_id := hex_encode identity in
    let? content := seal_frame self nonce DAEMON_DIRECTION_REQUEST (mkRequestEnvelope request_id issued_at_ms request) in
    Ok (request_id, content).
Definition open_request (self : DaemonCodec) (content : bytes) : result string OpenedDaemonRequest :=
  let? envelope := open_frame (T := RequestEnvelope) self DAEMON_DIRECTION_REQUEST content in
  if negb (is_digest envelope.(re_request_id)) || (envelope.(re_issued_at_ms) =? 0) then Err "daemon request envelope is invalid"
  else
    let? _ := validate_request envelope.(re_request) in
    Ok (mkOpened envelope.(re_request_id) envelope.(re_issued_at_ms) envelope.(re_request)).
Definition seal_response (self : DaemonCodec) (nonce : bytes) (request_id : string) (response : DaemonResponse) : result string bytes :=
  if negb (is_digest request_id) then Err "daemon response request identity is invalid"
  else
    let? _ := validate_response response in
    seal_frame self nonce DAEMON_DIRECTION_RESPONSE (mkResponseEnvelope request_id response).
Definition open_response (self : DaemonCodec) (expected_request_id : string) (content : bytes) : result string DaemonResponse :=
  if negb (is_digest expected_request_id) then Err "daemon response request identity is invalid"
  else
    let? envelope := open_frame (T := ResponseEnvelope) self DAEMON_DIRECTION_RESPONSE content in
    if negb (bool_decide (envelope.(rs_request_id) = expected_request_id)) then Err "daemon response belongs to another request"
    else
      let? _ := validate_response envelope.(rs_response) in
      Ok envelope.(rs_response).
(** What the client makes of an answer *)
Definition client_answer (response : DaemonResponse) : result string DaemonResponse :=
  match response with
  | DaemonResponse.Error code message => Err ("engine " +:+ code +:+ ": " +:+ message)
  | response => Ok response
  end.

(** ** The endpoint file and the lease *)
Definition endpoint_path : Path := (".", DAEMON_ENDPOINT_FILE).
Definition read_endpoint : IO DaemonEndpoint :=
  do? content := read_file endpoint_path in
  if MAX_DAEMON_ENDPOINT_BYTES <? len content then fail "daemon endpoint must be a bounded regular file"
  else
    do? endpoint := lift (from_slice content) in
    lift (validate_endpoint endpoint) ;;? ret endpoint.
Definition replace_private (path : Path) (content : bytes) : IO unit :=
  ensure_directory path.1 ;;?
  do? temporary := stage ".daemon-endpoint-" path.1 content in
  do? present := exists_file path in
  if present : bool then
    let backup := backup_of path in
    remove_if_present backup ;;?
    rename path backup ;;?
    do? renamed := attempt (rename temporary path) in
    match renamed with
    | Err error => attempt (rename backup path) ;;? discard temporary ;;? fail error
    | Ok _ => remove_file backup
    end
  else rename temporary path.
(** [private]: whether the root is closed to others; [held]: whether another
    process holds the lock *)
Definition acquire_lease (private held : bool) : IO unit :=
  ensure_directory "." ;;?
  if negb private then fail "daemon root must not be accessible to group or other users"
  else
    open_lock_file (".", "daemon.lock") ;;?
    if held then fail "engine daemon is already running" else ret tt.
Definition lease_is_active (held : bool) : IO bool :=
  do? present := exists_file (".", "daemon.lock") in
  if negb present then ret false else ret held.
Definition publish_endpoint (endpoint : DaemonEndpoint) : IO unit :=
  lift (validate_endpoint endpoint) ;;?
  do? content := lift (to_vec endpoint) in
  if MAX_DAEMON_ENDPOINT_BYTES <? len content then fail "daemon endpoint exceeds its byte limit"
  else replace_private endpoint_path content.
Definition remove_endpoint (instance_id : string) : IO unit :=
  do? present := exists_file endpoint_path in
  if negb present then ret tt
  else
    do? endpoint := read_endpoint in
    if negb (bool_decide (endpoint.(de_instance_id) = instance_id)) then fail "refusing to remove another daemon's endpoint"
    else remove_file endpoint_path.
End Daemon.

(** ** Framing

    A connection that reads in pieces: what one call of [read] can find.  [Late]
    is the deadline, found before the call or by it. *)
Inductive arrival := Arrives (b : bytes) | Closes | Late | Breaks (error : string).
Fixpoint read_exact_before (want : nat) (label : string) (s : list arrival) : result string (bytes * list arrival) :=
  match want with
  | O => Ok ([], s)
  | _ =>
      match s with
      | [] | Closes :: _ | Arrives [] :: _ => Err ("could not read " +:+ label +:+ ": connection closed")
      | Late :: _ => Err "engine request deadline exceeded"
      | Breaks error :: _ => Err ("could not read " +:+ label +:+ ": " +:+ error)
      | Arrives b :: s =>
          if (length b <=? want)%nat then
            let? (rest, s) := read_exact_before (want - length b) label s in
            Ok (b ++ rest, s)
          else Ok (take want b, Arrives (drop want b) :: s)
      end
  end.
Definition read_frame_before (s : list arrival) : result string (bytes * list arrival) :=
  let? (length, s) := read_exact_before 4 "engine frame length" s in
  let length := from_be_bytes length in
  if (length =? 0) || (MAX_DAEMON_FRAME_BYTES <? length) then Err "engine frame length is invalid"
  else read_exact_before (N.to_nat length) "engine frame" s.
(** What one call of [write] can do with the bytes it is given *)
Inductive acceptance := Accepts (n : nat) | WriteLate | WriteBreaks (error : string).
Fixpoint write_all_before (remaining : bytes) (sent : bytes) (s : list acceptance) : result string (bytes * list acceptance) :=
  match remaining with
  | [] => Ok (sent, s)
  | _ =>
      match s with
      | [] | Accepts O :: _ => Err "could not write engine frame: connection closed"
      | WriteLate :: _ => Err "engine request deadline exceeded"
      | WriteBreaks error :: _ => Err ("could not write engine frame: " +:+ error)
      | Accepts n :: s => write_all_before (drop n remaining) (sent ++ take n remaining) s
      end
  end.
Definition write_frame_before (frame : bytes) (s : list acceptance) : result string bytes :=
  if (len frame =? 0) || (MAX_DAEMON_FRAME_BYTES <? len frame) then Err "engine frame length is invalid"
  else
    let? (sent, s) := write_all_before (be_bytes 4 (len frame)) [] s in
    let? (sent, s) := write_all_before frame sent s in
    Ok sent.

(** ** The replay cache *)
Definition REQUEST_MAX_SKEW_MS : N := 30000.
Definition REPLAY_RETENTION_MS : N := 60000.
Definition MAX_REPLAY_IDS : N := 4096.
Definition MAX_CLIENTS : N := 8.
Definition abs_diff (a b : N) : N := if a <? b then b - a else a - b.
(** [ReplayCache]: when each request id was seen *)
Abbreviation ReplayCache := (gmap string N).
Definition replay_accept (self : ReplayCache) (request_id : string) (issued_at_ms now_ms : N) : ReplayCache * result string unit :=
  if REQUEST_MAX_SKEW_MS <? abs_diff now_ms issued_at_ms then (self, Err "daemon request is outside the freshness window")
  else
    let cutoff := now_ms - REPLAY_RETENTION_MS in
    let self := filter (fun p => cutoff <= p.2) self in
    if is_some (self !! request_id) then (self, Err "daemon request was already used")
    else if MAX_REPLAY_IDS <=? btree_len self then (self, Err "daemon replay cache is full")
    else (<[request_id := now_ms]> self, Ok tt).
(** [reserve_client]: one atomic update *)
Definition reserve_client (active : N) : option N := if active <? MAX_CLIENTS then Some (active + 1) else None.

(** ** Errors that can be shown

    [String::from_iter] of characters, each at most U+10FFFF *)
Definition utf8_encode (c : N) : list N :=
  if c <? 128 then [c]
  else if c <? 2048 then [192 + c / 64; 128 + c mod 64]
  else if c <? 65536 then [224 + c / 4096; 128 + c / 64 mod 64; 128 + c mod 64]
  else [240 + c / 262144; 128 + c / 4096 mod 64; 128 + c / 64 mod 64; 128 + c mod 64].
Definition string_of_chars (l : list N) : string := String.string_of_list_ascii (ascii_of_N <$> (l ≫= utf8_encode)).
Definition safe_error (value : string) : string :=
  let safe := string_of_chars (take 1024 ((fun c => if char_is_control c then 32 else c) <$> str_chars value)) in
  if trim_is_empty safe then "engine request failed" else safe.
