(* ===== verification/DaemonTheorems.v ===== *)
(** * Theorems about the daemon protocol

    A sealed request opens to itself and a sealed response only for its request,
    frames survive every fragmentation, a request is used once, and every error can
    be answered. *)
From S2P Require Import Prelude Text Core Rolling Plan Supervisor Events Health Rollout RolloutStatus Progress Store Routing Files Snapshot Directory Blob BlobTheorems Network Peer PeerTheorems Host Probe Daemon.

(** ** Sealed frames *)
Section Sealed.
Context `{Ext : Externals} `{Hex : HexDecode} `{PC : PeerCrypto}.
Context `{JP : !Json StackPlan} `{JS : !Json StackRuntimeStatus} `{JE : !Json EngineEvent} `{JI : !Json RolloutIdentity}
  `{JH : !Json StackHealthReport} `{JRs : !Json RolloutStatus.RolloutStatus} `{JRt : !Json RoutingSnapshot}.
Context `{JF : Json DaemonFrame} `{DF : JsonDecode DaemonFrame} `{RF : !JsonRoundTrip DaemonFrame}.
Context `{JQ : Json RequestEnvelope} `{DQ : JsonDecode RequestEnvelope} `{RQ : !JsonRoundTrip RequestEnvelope}.
Context `{JA : Json ResponseEnvelope} `{DA : JsonDecode ResponseEnvelope} `{RA : !JsonRoundTrip ResponseEnvelope}.

Lemma open_sealed {T : Type} `{JT : Json T} `{DT : JsonDecode T} `{RT : !JsonRoundTrip T} (codec : DaemonCodec) nonce direction (value : T) content :
  seal_frame codec nonce direction value = Ok content -> len content <> 0 -> open_frame codec direction content = Ok value.
Proof.
  unfold seal_frame. succeed msg Hmsg. pass Hmax. pass Hnonce. destruct (aead_encrypt _ _ _ _) as [c|] eqn:He; [|done]. cbn [ok_or].
  succeed u Hv. succeed text Htext. pass Hfit. intros [= <-] Hne. split_guard. unfold open_frame.
  destruct (N.eqb_spec (len text) 0); [done|]. destruct (N.ltb_spec MAX_DAEMON_FRAME_BYTES (len text)); [lia|]. cbn [orb].
  rewrite (from_slice_to_vec _ _ Htext). destruct u. rewrite Hv. cbn [df_instance_id df_nonce_hex df_ciphertext_hex].
  rewrite bool_decide_eq_true_2 by done. cbn [negb]. rewrite !hex_decode_encode. destruct (N.eqb_spec (len nonce) 24); [|done]. cbn [negb].
  rewrite (aead_round_trip _ _ _ _ _ He). cbn [ok_or]. by apply from_slice_to_vec.
Qed.
(** A JSON text is never empty. *)
Context (Htext : forall (frame : DaemonFrame) content, to_vec frame = Ok content -> content <> []).
Lemma sealed_nonempty {T : Type} `{JT : Json T} (codec : DaemonCodec) nonce direction (value : T) content :
  seal_frame codec nonce direction value = Ok content -> len content <> 0.
Proof.
  unfold seal_frame. succeed msg Hmsg. pass Hmax. pass Hnonce. destruct (aead_encrypt _ _ _ _) as [c|]; [|done]. cbn [ok_or].
  succeed u Hv. succeed text Hto. pass Hfit. intros [= <-]. specialize (Htext _ _ Hto). by destruct text.
Qed.
(** C36: What is sealed opens: a request that a client seals is opened by the daemon
    as that very request, under the identity the client remembers; and a response
    the daemon seals for a request is opened by the client of exactly this request,
    and refused by the client of any other. *)
Theorem sealed_messages_open (codec : DaemonCodec) identity nonce nonce' request issued id frame response answer :
  length identity = 32%nat ->
  seal_request codec identity nonce request issued = Ok (id, frame) ->
  open_request codec frame = Ok (mkOpened id issued request)
  /\ (seal_response codec nonce' id response = Ok answer ->
      open_response codec id answer = Ok response
      /\ forall other, is_digest other = true -> other <> id -> open_response codec other answer = Err "daemon response belongs to another request").
Proof.
  intros Hlen. unfold seal_request. succeed u Hreq. pass Htime. succeed content Hseal. intros [= <- <-]. bprop.
  assert (is_digest (hex_encode identity) = true) as Hid.
  { unfold is_digest. rewrite hex_encode_len, hex_encode_lower. unfold len. by rewrite Hlen. }
  split.
  - unfold open_request. rewrite (open_sealed _ _ _ _ _ Hseal) by (exact (sealed_nonempty _ _ _ _ _ Hseal)). cbn [re_request_id re_issued_at_ms re_request].
    rewrite Hid. destruct (N.eqb_spec issued 0); [lia|]. cbn [negb orb]. destruct u. by rewrite Hreq.
  - unfold seal_response. rewrite Hid. cbn [negb]. succeed u2 Hresp. intros Hans.
    pose proof (open_sealed _ _ _ _ _ Hans (sealed_nonempty _ _ _ _ _ Hans)) as Hopen. split.
    + unfold open_response. rewrite Hid, Hopen. cbn [negb rs_request_id rs_response]. rewrite bool_decide_eq_true_2 by done. cbn [negb]. destruct u2. by rewrite Hresp.
    + intros other Ho Hne. unfold open_response. rewrite Ho, Hopen. cbn [negb rs_request_id]. by rewrite bool_decide_eq_false_2.
Qed.
End Sealed.

(** ** Framing *)
(** The bytes a connection still delivers, in pieces that are not empty *)
Inductive delivers : list arrival -> bytes -> Prop :=
| delivers_nil : delivers [] []
| delivers_cons b s rest : b <> [] -> delivers s rest -> delivers (Arrives b :: s) (b ++ rest).
Lemma read_exact_spec want label s x y :
  delivers s (x ++ y) -> length x = want -> exists s', read_exact_before want label s = Ok (x, s') /\ delivers s' y.
Proof.
  intros Hs. remember (x ++ y) as all eqn:Hall. revert want x y Hall.
  induction Hs as [|b s rest Hb Hs IH]; intros want x y Hall Hlen.
  - symmetry in Hall. apply app_nil in Hall as [-> ->]. subst want. exists []. split; [done|constructor].
  - destruct want as [|n]; [destruct x; [|done]; exists (Arrives b :: s); split; [done|]; cbn in Hall; subst y; by constructor|].
    assert (read_exact_before (S n) label (Arrives b :: s)
      = if (length b <=? S n)%nat then let? (rest, s) := read_exact_before (S n - length b) label s in Ok (b ++ rest, s)
        else Ok (take (S n) b, Arrives (drop (S n) b) :: s)) as -> by (by destruct b).
    rename b into p. destruct (Nat.leb_spec (length p) (S n)) as [Hle|Hgt].
    + assert (exists z, x = p ++ z /\ rest = z ++ y) as (z & -> & ->).
      { exists (drop (length p) x). assert (x = take (length p) x ++ drop (length p) x) as Hx by (by rewrite take_drop).
        assert (take (length p) x = p) as Ht.
        { apply (f_equal (take (length p))) in Hall. rewrite take_app_length in Hall. rewrite take_app_le in Hall; [done|lia]. }
        rewrite Ht in Hx. split; [done|]. rewrite Hx, <- app_assoc in Hall. by apply app_inv_head in Hall. }
      rewrite length_app in Hlen. destruct (IH (S n - length p)%nat z y eq_refl) as (s' & Hr & Hd); [lia|]. exists s'. by rewrite Hr.
    + exists (Arrives (drop (S n) p) :: s). assert (take (S n) p = x) as Ht.
      { apply (f_equal (take (S n))) in Hall. rewrite take_app_le in Hall by lia. by rewrite Hall, <- Hlen, take_app_length. }
      rewrite Ht. split; [done|]. assert (y = drop (S n) p ++ rest) as ->.
      { apply (f_equal (drop (S n))) in Hall. rewrite drop_app_le in Hall by lia. by rewrite Hall, <- Hlen, drop_app_length. }
      constructor; [|done]. intros Hnil. apply (f_equal length) in Hnil. rewrite length_drop in Hnil. cbn in Hnil. lia.
Qed.
Lemma write_all_spec remaining sent s sent' s' : write_all_before remaining sent s = Ok (sent', s') -> sent' = sent ++ remaining.
Proof.
  revert remaining sent. induction s as [|[[|n]| |e] s IH]; intros [|c r] sent; cbn [write_all_before]; try done.
  all: try (intros Heq; injection Heq as <- <-; by rewrite app_nil_r).
  intros ->%IH. by rewrite <- app_assoc, take_drop.
Qed.
(** Frames survive every fragmentation: whatever pieces the writer's calls
    accept, a frame that was written is its length in four bytes and the frame, and
    whatever pieces they arrive in, followed by anything, the reader returns exactly
    the frame and has consumed nothing of what follows. *)
Theorem frames_survive_fragmentation (frame sent rest : bytes) (calls : list acceptance) (pieces : list arrival) :
  write_frame_before frame calls = Ok sent -> delivers pieces (sent ++ rest) ->
  sent = be_bytes 4 (len frame) ++ frame /\ exists left, read_frame_before pieces = Ok (frame, left) /\ delivers left rest.
Proof.
  unfold write_frame_before. pass Hg. split_guard. succeed a Ha. destruct a as [sent1 s1]. succeed b Hb. destruct b as [sent2 s2].
  intros [= <-] Hd. apply write_all_spec in Ha, Hb. subst sent1 sent2. split; [done|]. rewrite app_nil_l, <- app_assoc in Hd.
  destruct (read_exact_spec 4 "engine frame length" pieces _ _ Hd eq_refl) as (s3 & Hr & Hd3).
  unfold read_frame_before. rewrite Hr. assert (from_be_bytes (be_bytes 4 (len frame)) = len frame) as Hbe.
  { unfold from_be_bytes. rewrite from_be_be. rewrite N.mod_small; [lia|]. change (256 ^ N.of_nat 4) with 4294967296.
    change MAX_DAEMON_FRAME_BYTES with 4194304 in *. lia. }
  rewrite Hbe. destruct (N.eqb_spec (len frame) 0); [done|]. destruct (N.ltb_spec MAX_DAEMON_FRAME_BYTES (len frame)); [lia|]. cbn [orb].
  destruct (read_exact_spec (N.to_nat (len frame)) "engine frame" s3 frame rest Hd3) as (s4 & Hr4 & Hd4); [unfold len; lia|].
  exists s4. by rewrite Hr4.
Qed.

(** ** The replay cache *)
(** The requests, with their time of issue, that a run of calls accepts *)
Fixpoint accepted (self : ReplayCache) (calls : list (string * N * N)) : list (string * N) :=
  match calls with
  | [] => []
  | (id, issued, now) :: calls =>
      match replay_accept self id issued now with
      | (self', Ok _) => (id, issued) :: accepted self' calls
      | (self', Err _) => accepted self' calls
      end
  end.
Fixpoint clock_advances (last : N) (calls : list (string * N * N)) : Prop :=
  match calls with
  | [] => True
  | (_, _, now) :: calls => last <= now /\ clock_advances now calls
  end.
(** Every request used so far is in the cache or too old to be accepted again. *)
Definition remembers (self : ReplayCache) (last : N) (used : list (string * N)) : Prop :=
  forall id issued, (id, issued) ∈ used -> exists t, abs_diff t issued <= REQUEST_MAX_SKEW_MS /\ t <= last
    /\ ((exists t', self !! id = Some t' /\ t <= t') \/ t + REPLAY_RETENTION_MS < last).
Lemma abs_diff_triangle a b c : abs_diff a c <= REQUEST_MAX_SKEW_MS -> abs_diff b c <= REQUEST_MAX_SKEW_MS -> a <= b -> b <= a + REPLAY_RETENTION_MS.
Proof.
  unfold abs_diff. change REQUEST_MAX_SKEW_MS with 30000. change REPLAY_RETENTION_MS with 60000.
  destruct (N.ltb_spec a c), (N.ltb_spec b c); lia.
Qed.
Lemma remembers_filter self last used now :
  last <= now -> remembers self last used -> remembers (filter (fun p => now - REPLAY_RETENTION_MS <= p.2) self) now used.
Proof.
  intros Hn Hr id issued Hin. destruct (Hr _ _ Hin) as (t & Hs & Hl & [(t' & Ht' & Hle)|Hold]); exists t; (split; [done|]; split; [lia|]); [|right; lia].
  destruct (decide (now - REPLAY_RETENTION_MS <= t')); [|right; lia]. left. exists t'. split; [|done]. by apply map_lookup_filter_Some_2.
Qed.
Lemma remembers_later self last used now : last <= now -> remembers self last used -> remembers self now used.
Proof. intros Hn Hr id issued Hin. destruct (Hr _ _ Hin) as (t & Hs & Hl & H). exists t. split; [done|]. split; [lia|]. destruct H; [by left|right; lia]. Qed.
Lemma accept_step self last used id issued now :
  last <= now -> remembers self last used ->
  let '(self', r) := replay_accept self id issued now in
  match r with
  | Ok _ => (id, issued) ∉ used /\ remembers self' now ((id, issued) :: used)
  | Err _ => remembers self' now used
  end.
Proof.
  intros Hn Hr. unfold replay_accept. destruct (N.ltb_spec REQUEST_MAX_SKEW_MS (abs_diff now issued)); [by eapply remembers_later|].
  cbv zeta. pose proof (remembers_filter _ _ _ _ Hn Hr) as Hf. set (kept := filter _ self) in *.
  destruct (kept !! id) as [seen|] eqn:Hseen; cbn [is_some is_none negb]; [done|]. destruct (_ <=? btree_len kept); [done|]. split.
  - intros Hin. destruct (Hf _ _ Hin) as (t & Hs & Hl & [(t' & Ht' & _)|Hold]); [congruence|].
    pose proof (abs_diff_triangle t now issued). lia.
  - intros i iss [[= -> ->]|Hin]%elem_of_cons.
    + exists now. split; [done|]. split; [lia|]. left. exists now. by rewrite lookup_insert_eq.
    + destruct (Hf _ _ Hin) as (t & Hs & Hl & [(t' & Ht' & Hle)|Hold]); exists t; (split; [done|]; split; [done|]); [|by right].
      left. destruct (decide (i = id)) as [->|Hne]; [exists now; by rewrite lookup_insert_eq|]. exists t'. by rewrite lookup_insert_ne.
Qed.
Lemma accepted_fresh self last used calls :
  remembers self last used -> clock_advances last calls ->
  NoDup (accepted self calls) /\ forall x, x ∈ accepted self calls -> x ∉ used.
Proof.
  revert self last used. induction calls as [|[[id issued] now] calls IH]; intros self last used Hr; [intros _; split; [constructor|set_solver]|].
  cbn [accepted clock_advances]. intros [Hn Hc]. pose proof (accept_step self last used id issued now Hn Hr) as Hs.
  destruct (replay_accept _ _ _ _) as [self' [[]|e]]; [|by eapply IH]. destruct Hs as [Hnew Hr'].
  destruct (IH _ _ _ Hr' Hc) as [Hd Hout]. split.
  - constructor; [|done]. intros Hin. apply (Hout _ Hin). by left.
  - intros x [->|Hin]%elem_of_cons; [done|]. intros Hu. apply (Hout _ Hin). by right.
Qed.
(** A request is used once: whatever requests arrive, in whatever order and
    however often, as long as the clock of the daemon does not go back no request is
    accepted a second time, whatever the cache has forgotten in between. *)
Theorem request_is_used_once (calls : list (string * N * N)) : clock_advances 0 calls -> NoDup (accepted ∅ calls).
Proof. intros Hc. apply (accepted_fresh ∅ 0 [] calls); [|done]. intros id issued Hin. set_solver. Qed.
Lemma request_is_used_once_witness : NoDup (accepted ∅ [("a", 100000, 100000); ("a", 100000, 110000); ("b", 175000, 170000); ("a", 100000, 170000)]).
Proof. apply request_is_used_once. cbn. lia. Defined.
(** A clock that goes back lets a request be used twice: a request seen a minute
    ago is forgotten when another one arrives, and after the clock was set back it
    is fresh again. *)
Theorem clock_step_back_allows_replay :
  accepted ∅ [("a", 100000, 100000); ("b", 161000, 161000); ("a", 100000, 120000)] = [("a", 100000); ("b", 161000); ("a", 100000)].
Proof. vm_compute. reflexivity. Qed.

(** ** Errors that can be shown *)
Definition is_char (c : N) : Prop := c < 1114112.
Lemma utf8_decode_encode c rest : is_char c -> utf8_chars (utf8_encode c ++ rest) = c :: utf8_chars rest.
Proof.
  unfold is_char, utf8_encode. intros Hc. pose proof (N.div_mod c 64). pose proof (N.mod_upper_bound c 64).
  pose proof (N.div_mod (c / 64) 64). pose proof (N.mod_upper_bound (c / 64) 64).
  pose proof (N.div_mod (c / 64 / 64) 64). pose proof (N.mod_upper_bound (c / 64 / 64) 64).
  assert (c / 4096 = c / 64 / 64) as Hb4 by (by rewrite N.Div0.div_div).
  assert (c / 262144 = c / 64 / 64 / 64) as Hd2 by (by rewrite !N.Div0.div_div). rewrite Hb4, Hd2.
  set (a := c / 64) in *. set (b := a / 64) in *. set (d := b / 64) in *. set (x := c mod 64) in *. set (y := a mod 64) in *. set (z := b mod 64) in *.
  destruct (N.ltb_spec c 128); cbn [app utf8_chars].
  { destruct (N.ltb_spec c 192); [done|lia]. }
  destruct (N.ltb_spec c 2048); cbn [app utf8_chars].
  { destruct (N.ltb_spec (192 + a) 192); [lia|]. destruct (N.ltb_spec (192 + a) 224); [|lia]. f_equal. lia. }
  destruct (N.ltb_spec c 65536); cbn [app utf8_chars].
  { destruct (N.ltb_spec (224 + b) 192); [lia|]. destruct (N.ltb_spec (224 + b) 224); [lia|]. destruct (N.ltb_spec (224 + b) 240); [|lia]. f_equal. lia. }
  destruct (N.ltb_spec (240 + d) 192); [lia|]. destruct (N.ltb_spec (240 + d) 224); [lia|]. destruct (N.ltb_spec (240 + d) 240); [lia|]. f_equal. lia.
Qed.
Lemma utf8_encode_bytes c x : is_char c -> x ∈ utf8_encode c -> x < 256.
Proof.
  unfold is_char, utf8_encode. intros Hc. pose proof (N.mod_upper_bound c 64). pose proof (N.mod_upper_bound (c / 64) 64). pose proof (N.mod_upper_bound (c / 4096) 64).
  assert (c < 2048 -> c / 64 < 32) by (intros; apply N.Div0.div_lt_upper_bound; lia).
  assert (c < 65536 -> c / 4096 < 16) by (intros; apply N.Div0.div_lt_upper_bound; lia).
  assert (c / 262144 < 5) by (apply N.Div0.div_lt_upper_bound; lia).
  destruct (N.ltb_spec c 128); [|destruct (N.ltb_spec c 2048); [|destruct (N.ltb_spec c 65536)]];
    intros Hx; repeat (apply elem_of_cons in Hx as [->|Hx]; [lia|]); set_solver.
Qed.
Lemma str_bytes_ascii (l : list N) : (forall x, x ∈ l -> x < 256) -> str_bytes (String.string_of_list_ascii (ascii_of_N <$> l)) = l.
Proof.
  induction l as [|x l IH]; intros Hl; [done|]. cbn [fmap list_fmap String.string_of_list_ascii str_bytes].
  rewrite N_ascii_embedding by (apply Hl; by left). f_equal. apply IH. intros y Hy. apply Hl. by right.
Qed.
Lemma chars_of_string (l : list N) : (forall c, c ∈ l -> is_char c) -> str_chars (string_of_chars l) = l.
Proof.
  intros Hl. unfold str_chars, string_of_chars. rewrite str_bytes_ascii.
  - induction l as [|c l IH]; [done|]. cbn [mbind list_bind]. rewrite utf8_decode_encode by (apply Hl; by left). f_equal. apply IH.
    intros x Hx. apply Hl. by right.
  - intros x (c & Hx & Hc)%list_elem_of_bind. by apply (utf8_encode_bytes c); [apply Hl|].
Qed.
(** C37: Every error can be answered: whatever the text of an error is, the response
    the daemon makes of it passes the check that responses have to pass. *)
Theorem error_can_be_answered `{Ext : Externals} `{JP : !Json StackPlan} `{JS : !Json StackRuntimeStatus} `{JE : !Json EngineEvent}
    `{JI : !Json RolloutIdentity} `{JH : !Json StackHealthReport} `{JRs : !Json RolloutStatus.RolloutStatus} `{JRt : !Json RoutingSnapshot} (message : string) :
  (forall c, c ∈ str_chars message -> is_char c) ->
  validate_response (DaemonResponse.Error "request-failed" (safe_error message)) = Ok tt.
Proof.
  intros Hm. cbn [validate_response]. assert (valid_text (safe_error message) 1024 false = true) as ->; [|done].
  unfold safe_error. cbv zeta. set (l := take 1024 _).
  assert (forall c, c ∈ l -> is_char c /\ char_is_control c = false) as Hl.
  { intros c Hc. apply elem_of_take in Hc as (i & Hi & _). apply list_elem_of_lookup_2, list_elem_of_fmap in Hi as (x & -> & Hx).
    destruct (char_is_control x) eqn:Hctl; [done|]. split; [by apply Hm|done]. }
  destruct (trim_is_empty (string_of_chars l)) eqn:Ht; [reflexivity|].
  unfold valid_text. rewrite Ht, chars_of_string by (intros c Hc; by apply Hl). cbn [negb orb andb].
  assert (len l <=? 1024 = true) as ->. { apply N.leb_le. unfold len, l. rewrite length_take. lia. }
  assert (existsb char_is_control l = false) as ->; [|done].
  apply not_true_is_false. intros (c & Hc & Hctl)%existsb_exists. apply list_elem_of_In, Hl in Hc as [_ Hc]. congruence.
Qed.

(** ** A concrete exchange *)
#[global] Instance daemon_frame_eq_dec : EqDecision DaemonFrame.
Proof. solve_decision. Defined.
Section DaemonWitness.
#[local] Existing Instance demo_externals.
#[local] Existing Instance demo_hex.
#[local] Existing Instance toy_crypto.
#[local] Instance plan_json : Json StackPlan := demo_json.
#[local] Instance status_json : Json StackRuntimeStatus := demo_json.
#[local] Instance event_json : Json EngineEvent := demo_json.
#[local] Instance identity_json : Json RolloutIdentity := demo_json.
#[local] Instance report_json : Json StackHealthReport := demo_json.
#[local] Instance rollout_status_json : Json RolloutStatus.RolloutStatus := demo_json.
#[local] Instance routing_json : Json RoutingSnapshot := demo_json.
Definition ping_id : string := hex_encode (replicate 32 x05).
(** The one request and the one response that are written *)
#[local] Instance request_json : Json RequestEnvelope := fun e =>
  match e with
  | mkRequestEnvelope id 7 DaemonRequest.Ping => if bool_decide (id = ping_id) then Ok [x01] else Err "json"
  | _ => Err "json"
  end.
#[local] Instance request_decode : JsonDecode RequestEnvelope := fun _ => Ok (mkRequestEnvelope ping_id 7 DaemonRequest.Ping).
#[local] Instance request_round_trip : JsonRoundTrip RequestEnvelope.
Proof.
  intros [id time request] b. unfold to_vec, from_slice, request_json, request_decode.
  destruct time as [|[[[]|[]|]|[[]|[]|]|]]; try done. destruct request; try done. case_bool_decide; [|done]. by subst.
Qed.
#[local] Instance response_json : Json ResponseEnvelope := fun e =>
  match e with
  | mkResponseEnvelope id DaemonResponse.Pong => if bool_decide (id = ping_id) then Ok [x02] else Err "json"
  | _ => Err "json"
  end.
#[local] Instance response_decode : JsonDecode ResponseEnvelope := fun _ => Ok (mkResponseEnvelope ping_id DaemonResponse.Pong).
#[local] Instance response_round_trip : JsonRoundTrip ResponseEnvelope.
Proof.
  intros [id response] b. unfold to_vec, from_slice, response_json, response_decode.
  destruct response; try done. case_bool_decide; [|done]. by subst.
Qed.
Definition ping_codec : DaemonCodec := generate_codec (replicate 32 x09) (replicate 32 x08).
Definition frame_of (message : bytes) : DaemonFrame :=
  mkFrame DAEMON_PROTOCOL_VERSION ping_codec.(dc_instance_id) (hex_encode (replicate 24 x03)) (hex_encode (message ++ replicate 16 x00)).
Definition ping_frames : list DaemonFrame := [frame_of [x01]; frame_of [x02]].
#[local] Instance frame_json : Json DaemonFrame := table_json ping_frames.
#[local] Instance frame_decode : JsonDecode DaemonFrame := table_decode ping_frames.
#[local] Instance frame_round_trip : JsonRoundTrip DaemonFrame := table_round_trip ping_frames.
Lemma frame_text (frame : DaemonFrame) content : to_vec frame = Ok content -> content <> [].
Proof.
  unfold to_vec, frame_json, table_json. intros H Hnil. rewrite Hnil in H. revert H. destruct (list_find _ ping_frames) as [[i y]|]; [|done].
  by destruct (Byte.of_N _).
Qed.
Lemma sealed_messages_open_witness :
  open_request ping_codec [x00] = Ok (mkOpened ping_id 7 DaemonRequest.Ping) /\ open_response ping_codec ping_id [x01] = Ok DaemonResponse.Pong.
Proof.
  destruct (sealed_messages_open frame_text ping_codec (replicate 32 x05) (replicate 24 x03) (replicate 24 x03) DaemonRequest.Ping 7 ping_id [x00] DaemonResponse.Pong [x01]) as [Ho Hr].
  - reflexivity.
  - vm_compute. reflexivity.
  - split; [exact Ho|]. destruct Hr as [Hr _]; [vm_compute; reflexivity|exact Hr].
Defined.
Lemma frames_survive_fragmentation_witness :
  read_frame_before [Arrives [x00; x00; x00]; Arrives [x02; x07]; Arrives [x08; x09]] = Ok ([x07; x08], [Arrives [x09]]).
Proof.
  destruct (frames_survive_fragmentation [x07; x08] [x00; x00; x00; x02; x07; x08] [x09] [Accepts 1; Accepts 9; Accepts 1; Accepts 1]
    [Arrives [x00; x00; x00]; Arrives [x02; x07]; Arrives [x08; x09]]) as (_ & left & H & _).
  - vm_compute. reflexivity.
  - apply (delivers_cons [x00; x00; x00] _ [x02; x07; x08; x09]); [done|]. apply (delivers_cons [x02; x07] _ [x08; x09]); [done|].
    apply (delivers_cons [x08; x09] [] []); [done|constructor].
  - rewrite H. vm_compute in H. by injection H as <-.
Defined.
Lemma error_can_be_answered_witness : validate_response (DaemonResponse.Error "request-failed" (safe_error "no such stack")) = Ok tt.
Proof.
  apply error_can_be_answered. intros c Hc. apply list_elem_of_In in Hc. unfold is_char.
  assert (forallb (fun c => c <? 1114112) (str_chars "no such stack") = true) as Hall by (vm_compute; reflexivity).
  apply N.ltb_lt. exact (proj1 (forallb_forall _ _) Hall c Hc).
Defined.
End DaemonWitness.
