(* ===== verification/Planning.v ===== *)
(** * Plans of installed packages ([crates/cartridge-engine/src/lib.rs])

    Building a plan from a manifest and the library, checking it against the library
    again, and what the store keeps for the replicas of a generation: leases, state
    and probe directories, invocation channels ([invocation.rs]) and health of all
    stacks. *)
From stdpp Require Import pretty.
From S2P Require Import Prelude Text Core Storage Snapshot Directory Blob Network Manifest Resolver Files Archive Rolling Plan Supervisor Events Health Rollout Progress Store Routing Host IdentityFiles Release Desktop Probe.

Definition MAX_STACK_BYTES : N := 1024 * 1024.
Definition MAX_STALE_PROBE_FILES : N := 4096.

(** ** Capabilities *)
Definition stack_capabilities_order : list StackCapability :=
  [Plan.Clock; Plan.Random; Plan.Assets; Plan.Storage; Plan.Graphics; Plan.Audio; Plan.Midi; Plan.Http; Plan.Serve].
Definition stack_capabilities (manifest : PackageManifest) : Plan.Capabilities :=
  let value := manifest.(permissions) in
  list_to_set ((filter (fun p => p.1 = true)
    [(value.(clock), Plan.Clock); (value.(random), Plan.Random); (value.(Manifest.assets), Plan.Assets); (value.(storage), Plan.Storage);
     (value.(graphics), Plan.Graphics); (value.(audio), Plan.Audio); (value.(midi), Plan.Midi);
     (negb (bool_decide (manifest.(pm_http).(scopes) = [])), Plan.Http); (value.(serve), Plan.Serve)]).*2).
Definition capability_label (c : StackCapability) : string :=
  match c with
  | Plan.Clock => "clock" | Plan.Random => "random" | Plan.Assets => "assets" | Plan.Storage => "storage" | Plan.Graphics => "graphics"
  | Plan.Audio => "audio" | Plan.Midi => "midi" | Plan.Http => "http" | Plan.Serve => "serve"
  end.
Definition capability_labels (value : Plan.Capabilities) : string :=
  String.concat "," (capability_label <$> filter (fun c => c ∈ value) stack_capabilities_order).
Definition resolve_error_to_string (e : ResolveError) : string :=
  match e with
  | InvalidManifest m => "invalid manifest in dependency set: " +:+ m
  | DuplicateCandidate cartridge version => "candidate set contains duplicate package " +:+ cartridge +:+ " " +:+ version
  | CandidateLimit maximum => "candidate set exceeds the " +:+ pretty maximum +:+ "-package limit"
  | RequiredUnavailable alias cartridge version reason =>
      "required dependency " +:+ alias +:+ " (" +:+ cartridge +:+ " " +:+ version +:+ ") could not be resolved: " +:+ reason
  end.
Definition locked_package (archive : CartridgeArchive) : LockedPackage :=
  mkLockedPackage archive.(ar_manifest).(cartridge).(cm_id) archive.(ar_manifest).(cartridge).(cm_version) archive.(ar_package_sha256)
    archive.(ar_package_bytes) (str_lower archive.(ar_manifest).(integrity).(in_component_sha256))
    (str_lower archive.(ar_manifest).(integrity).(assets_root_sha256)).
Definition same_key (a b : LockedPackage) : bool :=
  bool_decide (a.(lp_cartridge_id) = b.(lp_cartridge_id)) && bool_decide (a.(lp_version) = b.(lp_version)).
(** The packages of the resolved dependencies, each once *)
Fixpoint select_packages (packages selected : list LockedPackage) (l : list ResolvedDependency) : result string (list LockedPackage) :=
  match l with
  | [] => Ok selected
  | dependency :: l =>
      let? package := ok_or (List.find (fun package => bool_decide (package.(lp_cartridge_id) = dependency.(rd_cartridge))
                                                     && bool_decide (package.(lp_version) = dependency.(rd_version))) packages)
                        "resolver selected a provider without package identity" in
      select_packages packages (if existsb (fun value => same_key value package) selected then selected else selected ++ [package]) l
  end.
Definition name_le (a b : PlannedInstance) : Prop := String.le a.(pi_name) b.(pi_name).
#[global] Instance name_le_dec : RelDecision name_le.
Proof. intros a b. unfold name_le. apply _. Defined.
Definition resource_le (a b : PlannedResource) : Prop := String.le a.(pr_name) b.(pr_name).
#[global] Instance resource_le_dec : RelDecision resource_le.
Proof. intros a b. unfold resource_le. apply _. Defined.
Definition secret_le (a b : PlannedSecret) : Prop := String.le a.(ps_name) b.(ps_name).
#[global] Instance secret_le_dec : RelDecision secret_le.
Proof. intros a b. unfold secret_le. apply _. Defined.
Definition report_le (a b : StackHealthReport) : Prop := String.le a.(hr_stack) b.(hr_stack).
#[global] Instance report_le_dec : RelDecision report_le.
Proof. intros a b. unfold report_le. apply _. Defined.
Definition plan_warnings (sandbox : SandboxPolicy) (instances : list PlannedInstance) : list string :=
  (if bool_decide (sandbox = Disabled) then ["native worker sandboxing is explicitly disabled"] else [])
  ++ omap (fun instance => if bool_decide (instance.(pi_denied) = ∅) then None
                           else Some (instance.(pi_name) +:+ " has denied requested capabilities: " +:+ capability_labels instance.(pi_denied))) instances.
Definition planned_resource (value : ResourceSpec) : PlannedResource :=
  mkPlannedResource value.(rs_name) value.(rs_kind) value.(rs_owner) value.(rs_retention) value.(rs_quota_bytes).
Definition planned_secret (value : SecretSpec) : PlannedSecret := mkPlannedSecret value.(ss_name) value.(ss_required).
(** The unsealed plan *)
Definition draft_plan (manifest : StackManifest) (instances : list PlannedInstance) : StackPlan :=
  let instances := merge_sort name_le instances in
  mkStackPlan STACK_PLAN_FORMAT_VERSION manifest.(sm_name)
    (mkPlannedSecurity manifest.(sm_security).(profile) manifest.(sm_security).(sandbox)) instances
    (merge_sort resource_le (planned_resource <$> manifest.(sm_resources)))
    (merge_sort secret_le (planned_secret <$> manifest.(sm_secrets)))
    (plan_warnings manifest.(sm_security).(sandbox) instances) "".

(** [toml::from_str] of a stack manifest *)
Class StackToml := stack_from_str : string -> result string StackManifest.

Section Planning.
Context `{Ext : Externals} `{Hex : HexDecode} `{SV : !Semver} `{UC : UrlCrate} `{ZC : !ZipCrate} `{TC : !TomlCrate} `{ST : !StackToml}.
Context `{JP : !Json StackPlan} `{JN : !Json PlannedInstance}.

Definition parse_stack (text : string) : result string StackManifest :=
  if MAX_STACK_BYTES <? str_len text then Err "stack manifest exceeds its byte limit"
  else
    let? value := stack_from_str text in
    let? _ := validate_manifest value in
    Ok value.
Definition read_stack (path : Path) : IO StackManifest :=
  do? content := read_file path in
  if MAX_STACK_BYTES <? len content then fail "stack manifest must be a bounded regular file"
  else
    do? text := lift (ok_or (from_utf8 content) "stack manifest must be UTF-8") in
    lift (parse_stack text).

(** ** Building *)
Definition open_catalog_archive (record : CatalogPackage) : IO CartridgeArchive :=
  do? content := read_file record.(cp_path) in
  do? archive := lift (map_err error_to_string (open_bytes content)) in
  if negb (bool_decide (archive.(ar_manifest).(cartridge).(cm_id) = record.(cp_cartridge_id)))
     || negb (bool_decide (archive.(ar_manifest).(cartridge).(cm_version) = record.(cp_version)))
     || negb (bool_decide (archive.(ar_package_sha256) = record.(cp_package_sha256)))
     || negb (archive.(ar_package_bytes) =? record.(cp_package_bytes))
  then fail "installed package changed after catalog verification" else ret archive.
Fixpoint open_records (l : list CatalogPackage) : IO (list CartridgeArchive) :=
  match l with
  | [] => ret []
  | record :: l =>
      do? archive := open_catalog_archive record in
      do? rest := open_records l in
      ret (archive :: rest)
  end.
Fixpoint collect_candidates (library : Library) (candidates : list CartridgeArchive) (ids : list string) : IO (list CartridgeArchive) :=
  match ids with
  | [] => ret candidates
  | id :: ids =>
      do? records := catalog_versions library id (MAX_RESOLUTION_CANDIDATES - len candidates) in
      do? opened := open_records records in
      collect_candidates library (candidates ++ opened) ids
  end.
Definition direct_composition_lock (root : CartridgeArchive) (library : Library) : IO CompositionLock :=
  let ids : gset string := list_to_set (dp_cartridge <$> root.(ar_manifest).(dependencies)) in
  do? candidates := collect_candidates library [] (merge_sort String.le (elements ids)) in
  do? plan := lift (map_err resolve_error_to_string (resolve_dependencies root.(ar_manifest) (ar_manifest <$> candidates))) in
  do? selected := lift (select_packages (locked_package <$> candidates) [] plan.(resolved)) in
  lift (new_composition_lock (locked_package root) selected plan).
Definition satisfies (requirement : VersionReq) (record : CatalogPackage) : bool :=
  is_some_and (req_matches requirement) (parse_version record.(cp_version)).
Definition plan_instance (spec : InstanceSpec) (security : StackSecurity) (library : Library) : IO PlannedInstance :=
  do? requirement := lift (ok_or (parse_req spec.(is_version)) "version requirement is invalid") in
  do? records := catalog_versions library spec.(is_cartridge) MAX_RESOLUTION_CANDIDATES in
  do? record := lift (ok_or (List.find (satisfies requirement) records)
                  ("no installed version of " +:+ spec.(is_cartridge) +:+ " satisfies " +:+ spec.(is_version))) in
  do? archive := open_catalog_archive record in
  do? limits := lift (apply_limits spec.(is_limits) archive.(ar_manifest).(runtime)) in
  do? composition := direct_composition_lock archive library in
  let requested := stack_capabilities archive.(ar_manifest) in
  if negb (bool_decide (spec.(is_allow) ⊆ requested)) || negb (bool_decide (spec.(is_deny) ⊆ requested))
  then fail ("instance " +:+ spec.(is_name) +:+ " grants or denies a capability not requested by its package")
  else
    let allowed := profile_capabilities security.(profile) requested spec.(is_allow) ∖ spec.(is_deny) in
    ret (mkPlannedInstance spec.(is_name) record.(cp_cartridge_id) record.(cp_version) record.(cp_package_sha256) record.(cp_package_bytes)
           spec.(is_replicas) spec.(is_desired) spec.(is_restart) spec.(is_max_restarts) requested spec.(is_allow) spec.(is_deny)
           allowed (requested ∖ allowed) spec.(is_args) spec.(is_secrets) limits spec.(is_health) spec.(is_update) composition).
Fixpoint plan_instances (security : StackSecurity) (library : Library) (planned_bytes : N) (l : list InstanceSpec) : IO (list PlannedInstance) :=
  match l with
  | [] => ret []
  | instance :: l =>
      do? planned := plan_instance instance security library in
      do? content := lift (to_vec planned) in
      do? planned_bytes := lift (ok_or (checked_add usize_max planned_bytes (len content)) "stack plan size overflow") in
      if MAX_STACK_PLAN_BYTES <? planned_bytes then fail "stack plan exceeds its byte limit"
      else
        do? rest := plan_instances security library planned_bytes l in
        ret (planned :: rest)
  end.
Definition build_plan (manifest : StackManifest) (library : Library) : IO StackPlan :=
  lift (validate_manifest manifest) ;;?
  do? instances := plan_instances manifest.(sm_security) library 0 manifest.(sm_instances) in
  let value := draft_plan manifest instances in
  do? sha := lift (plan_computed_sha256 value) in
  let value := with_plan_sha256 value sha in
  lift (validate_plan value) ;;? ret value.

(** ** Checking again *)
Definition verify_locked_package_installed (package : LockedPackage) (library : Library) : IO unit :=
  do? record := catalog_package library package.(lp_cartridge_id) (Some package.(lp_version)) in
  do? archive := open_catalog_archive record in
  if negb (bool_decide (locked_package archive = package)) then fail "installed package no longer matches the reviewed plan" else ret tt.
Fixpoint verify_packages (library : Library) (checked : gset (string * string)) (l : list LockedPackage) : IO (gset (string * string)) :=
  match l with
  | [] => ret checked
  | package :: l =>
      let key := (package.(lp_cartridge_id), package.(lp_version)) in
      if bool_decide (key ∈ checked) then verify_packages library checked l
      else verify_locked_package_installed package library ;;? verify_packages library ({[key]} ∪ checked) l
  end.
Fixpoint verify_instances (library : Library) (checked : gset (string * string)) (l : list PlannedInstance) : IO unit :=
  match l with
  | [] => ret tt
  | instance :: l =>
      do? checked := verify_packages library checked (instance.(pi_composition).(root) :: instance.(pi_composition).(providers)) in
      do? record := catalog_package library instance.(pi_cartridge_id) (Some instance.(pi_version)) in
      do? archive := open_catalog_archive record in
      if negb (bool_decide (constrained_by archive.(ar_manifest).(runtime) instance.(pi_limits) = instance.(pi_limits)))
      then fail "planned runtime limits are not a ceiling on the installed package"
      else verify_instances library checked l
  end.
Definition verify_installed (self : StackPlan) (library : Library) : IO unit :=
  lift (validate_plan self) ;;? verify_instances library ∅ self.(sp_instances).
End Planning.
