(* ===== verification/PlanningTheorems.v ===== *)
(** * Theorems about building plans

    A plan that is built is installed: it passes the check against the library it was
    built from, its packages are the newest that satisfy the manifest, and it allows
    no more than the packages ask for and the manifest grants. *)
From stdpp Require Import pretty.
From S2P Require Import Prelude Text Core Storage Snapshot Directory Blob Network NetworkTheorems Manifest ManifestTheorems Resolver ResolverTheorems Files Archive ArchiveTheorems Rolling Plan Supervisor Events Health Rollout Progress Store Routing Host IdentityFiles Release Desktop DesktopTheorems Planning.

Section Planning.
Context `{Ext : Externals} `{Hex : HexDecode} `{SV : !Semver} `{UC : UrlCrate} `{ZC : !ZipCrate} `{TC : !TomlCrate}.
Context `{JP : !Json StackPlan} `{JN : !Json PlannedInstance}.

(** ** Reading the library changes nothing *)
Definition pure_read {A : Type} (m : IO A) : Prop := forall w, exists r, m w = (w, Done r).
Lemma pure_bind {A B : Type} (m : IO A) (k : A -> IO B) : pure_read m -> (forall a, pure_read (k a)) -> pure_read (bind m k).
Proof. intros Hm Hk w. unfold bind. destruct (Hm w) as [[a|e] ->]; [apply Hk|by eexists]. Qed.
Lemma pure_ret {A : Type} (a : A) : pure_read (ret a).
Proof. intros w. by eexists. Qed.
Lemma pure_fail {A : Type} e : pure_read (fail e : IO A).
Proof. intros w. by eexists. Qed.
Lemma pure_lift {A : Type} (r : result string A) : pure_read (lift r).
Proof. intros w. unfold lift. by eexists. Qed.
Lemma pure_file path : pure_read (read_file path).
Proof. intros w. by eexists. Qed.
Lemma pure_if {A : Type} (b : bool) (m n : IO A) : pure_read m -> pure_read n -> pure_read (if b then m else n).
Proof. by destruct b. Qed.
#[local] Hint Resolve pure_ret pure_fail pure_lift pure_file : core.
Ltac pure_tac := repeat first [apply pure_bind; [|intros ?] | apply pure_if | done | by auto].
Lemma catalog_record_pure library id version i : pure_read (catalog_record library id version i).
Proof. unfold catalog_record, hash_file. pure_tac. Qed.
Lemma open_archive_pure record : pure_read (open_catalog_archive record).
Proof. unfold open_catalog_archive. pure_tac. Qed.
(** What a run that only reads answered *)
Lemma bind_ok {A B : Type} (m : IO A) (k : A -> IO B) w w' b :
  pure_read m -> bind m k w = (w', Done (Ok b)) -> exists a, m w = (w, Done (Ok a)) /\ k a w = (w', Done (Ok b)).
Proof. intros Hm. unfold bind. destruct (Hm w) as [[a|e] ->]; [|done]. intros H. by exists a. Qed.
Lemma lift_ok {A B : Type} (r : result string A) (k : A -> IO B) w w' b :
  bind (lift r) k w = (w', Done (Ok b)) -> exists a, r = Ok a /\ k a w = (w', Done (Ok b)).
Proof. unfold bind, lift. destruct r as [a|]; [|done]. intros H. by exists a. Qed.

(** ** The catalog *)
Definition in_catalog (library : Library) (w : World) (record : CatalogPackage) : Prop :=
  catalog_package library record.(cp_cartridge_id) (Some record.(cp_version)) w = (w, Done (Ok record)).
Lemma catalog_record_fields library id version i w w' record :
  catalog_record library id version i w = (w', Done (Ok record)) -> w' = w /\ record.(cp_cartridge_id) = id /\ record.(cp_version) = version.
Proof.
  intros H. destruct (catalog_record_pure library id version i w) as [r Hr]. rewrite Hr in H. injection H as <- ->. split; [done|].
  revert Hr. unfold catalog_record. intros Hr. apply bind_ok in Hr as (content & _ & Hr); [|done]. cbn beta in Hr.
  apply bind_ok in Hr as (bad & _ & Hr); [|unfold hash_file; pure_tac]. destruct bad; [done|]. injection Hr as <-. done.
Qed.
Lemma catalog_records_spec library id l w w' records :
  catalog_records library id l w = (w', Done (Ok records)) ->
  w' = w /\ cp_version <$> records = l.*1
  /\ forall r, r ∈ records -> r.(cp_cartridge_id) = id /\ exists i, (r.(cp_version), i) ∈ l /\ catalog_record library id r.(cp_version) i w = (w, Done (Ok r)).
Proof.
  revert w w' records. induction l as [|[version i] l IH]; intros w w' records; cbn [catalog_records].
  { intros [= <- <-]. split; [done|]. split; [done|]. set_solver. }
  intros H. apply bind_ok in H as (record & Hr & H); [|apply catalog_record_pure].
  destruct (catalog_record_fields _ _ _ _ _ _ _ Hr) as (_ & Hid & Hv).
  unfold bind in H. destruct (catalog_records library id l w) as [w1 [[rest|e]|]] eqn:Hrest; [|done..].
  destruct (IH _ _ _ Hrest) as (-> & Hvs & Hall). injection H as <- <-. split; [done|]. split; [cbn; by rewrite Hv, Hvs|].
  intros r [->|Hin]%elem_of_cons.
  - split; [done|]. exists i. rewrite Hv. split; [by left|done].
  - destruct (Hall r Hin) as (? & j & ? & ?). split; [done|]. exists j. split; [by right|done].
Qed.
Lemma newer_record_total : Total newer_record.
Proof.
  intros a b. unfold newer_record, newer_first, version_le. destruct (parse_version (cp_version a)) as [x|], (parse_version (cp_version b)) as [y|]; auto.
  destruct (version_leb_total x y); auto.
Qed.
Lemma newer_record_trans : Transitive newer_record.
Proof.
  intros a b c. unfold newer_record, newer_first, version_le.
  destruct (parse_version (cp_version a)) as [x|], (parse_version (cp_version b)) as [y|], (parse_version (cp_version c)) as [z|]; try done.
  intros H1 H2. by eapply version_leb_trans.
Qed.
#[local] Existing Instance newer_record_total.
#[local] Existing Instance newer_record_trans.
Lemma catalog_versions_spec library id maximum w w' records :
  catalog_versions library id maximum w = (w', Done (Ok records)) ->
  w' = w /\ StronglySorted newer_record records
  /\ (forall r, r ∈ records -> r.(cp_cartridge_id) = id /\ in_catalog library w r)
  /\ (forall version i, installed_lookup library.(lb_document) id version = Some i -> exists r, r ∈ records /\ r.(cp_version) = version).
Proof.
  unfold catalog_versions, installed_lookup. destruct (ld_installed (lb_document library) !! id) as [versions|] eqn:Hid; cycle 1.
  { intros [= <- <-]. cbn. split; [done|]. split; [constructor|]. split; [set_solver|done]. }
  destruct (maximum <? _); [done|]. unfold bind. destruct (catalog_records _ _ _ w) as [w1 [[l|e]|]] eqn:Hl; [|done..].
  destruct (catalog_records_spec _ _ _ _ _ _ Hl) as (-> & Hvs & Hall). intros [= <- <-]. split; [done|].
  split; [apply (StronglySorted_merge_sort newer_record)|]. split.
  - intros r Hin. rewrite merge_sort_Permutation in Hin. destruct (Hall r Hin) as (Hc & i & Hi & Hr). split; [done|].
    unfold in_catalog, catalog_package, installed_version. rewrite Hc, Hid. cbn [ok_or]. apply btree_iter_elem in Hi. rewrite Hi. cbn [ok_or].
    unfold bind, lift. exact Hr.
  - cbn. intros version i Hv. assert (version ∈ cp_version <$> l) as Hin.
    { rewrite Hvs. apply list_elem_of_fmap. exists (version, i). split; [done|]. by apply btree_iter_elem. }
    apply list_elem_of_fmap in Hin as (r & -> & Hr). exists r. split; [by rewrite merge_sort_Permutation|done].
Qed.
Lemma catalog_versions_pure library id maximum : pure_read (catalog_versions library id maximum).
Proof.
  unfold catalog_versions. destruct (_ !! id) as [versions|]; [|done]. apply pure_if; [done|]. apply pure_bind; [|auto].
  generalize (btree_iter versions). intros l. induction l as [|[v i] l IH]; cbn [catalog_records]; [done|].
  apply pure_bind; [apply catalog_record_pure|]. intros record. by apply pure_bind.
Qed.

(** ** Packages *)
(** The library has the package, and it opens as this archive. *)
Definition installed_as (library : Library) (w : World) (archive : CartridgeArchive) : Prop :=
  exists record, catalog_package library archive.(ar_manifest).(cartridge).(cm_id) (Some archive.(ar_manifest).(cartridge).(cm_version)) w = (w, Done (Ok record))
    /\ open_catalog_archive record w = (w, Done (Ok archive)).
Lemma open_archive_spec record w w' archive :
  open_catalog_archive record w = (w', Done (Ok archive)) ->
  archive.(ar_manifest).(cartridge).(cm_id) = record.(cp_cartridge_id) /\ archive.(ar_manifest).(cartridge).(cm_version) = record.(cp_version)
  /\ archive.(ar_package_sha256) = record.(cp_package_sha256) /\ archive.(ar_package_bytes) = record.(cp_package_bytes).
Proof.
  unfold open_catalog_archive. intros H. apply bind_ok in H as (content & _ & H); [|done]. apply lift_ok in H as (a & _ & H).
  destruct (_ || _) eqn:Hg; [done|]. injection H as _ <-. split_guard. by repeat split.
Qed.
Lemma opened_installed library w record w' archive :
  in_catalog library w record -> open_catalog_archive record w = (w', Done (Ok archive)) -> installed_as library w archive.
Proof.
  intros Hc Ho. destruct (open_archive_pure record w) as [r Hr]. rewrite Hr in Ho. injection Ho as <- ->.
  destruct (open_archive_spec _ _ _ _ Hr) as (Hid & Hv & _). exists record. split; [by rewrite Hid, Hv|done].
Qed.
Lemma open_records_spec library l w w' archives :
  open_records l w = (w', Done (Ok archives)) -> (forall r, r ∈ l -> in_catalog library w r) ->
  w' = w /\ forall a, a ∈ archives -> installed_as library w a.
Proof.
  revert w' archives. induction l as [|r l IH]; intros w' archives; cbn [open_records].
  { intros [= <- <-] _. split; [done|]. set_solver. }
  intros H Hall. apply bind_ok in H as (a & Ha & H); [|apply open_archive_pure].
  unfold bind in H. destruct (open_records l w) as [w1 [[rest|e]|]] eqn:Hrest; [|done..].
  destruct (IH _ _ eq_refl) as [-> Hin]; [intros r' Hr'; apply Hall; by right|]. injection H as <- <-. split; [done|].
  intros x [->|Hx]%elem_of_cons; [|by apply Hin]. eapply opened_installed; [apply Hall; by left|done].
Qed.
Lemma collect_candidates_spec library ids candidates w w' all :
  collect_candidates library candidates ids w = (w', Done (Ok all)) -> (forall a, a ∈ candidates -> installed_as library w a) ->
  w' = w /\ forall a, a ∈ all -> installed_as library w a.
Proof.
  revert candidates. induction ids as [|id ids IH]; intros candidates; cbn [collect_candidates].
  { intros [= <- <-] H. done. }
  intros H Hc. apply bind_ok in H as (records & Hr & H); [|apply catalog_versions_pure].
  destruct (catalog_versions_spec _ _ _ _ _ _ Hr) as (_ & _ & Hin & _).
  unfold bind in H. destruct (open_records records w) as [w1 [[opened|e]|]] eqn:Ho; [|done..].
  destruct (open_records_spec library _ _ _ _ Ho) as [-> Hopened]; [intros r Hr'; by apply Hin|].
  apply (IH _ H). intros a [Ha|Ha]%elem_of_app; auto.
Qed.
Lemma select_packages_spec packages selected l chosen :
  select_packages packages selected l = Ok chosen -> (forall p, p ∈ selected -> p ∈ packages) -> forall p, p ∈ chosen -> p ∈ packages.
Proof.
  revert selected. induction l as [|dep l IH]; intros selected; cbn [select_packages]; [by intros [= <-]|].
  destruct (List.find _ packages) as [package|] eqn:Hf; [|done]. cbn [ok_or]. intros H Hs. apply (IH _ H).
  apply find_some in Hf as [Hin _]. apply list_elem_of_In in Hin. intros p. destruct (existsb _ _); [apply Hs|].
  intros [Hp| ->%list_elem_of_singleton]%elem_of_app; auto.
Qed.
(** Every package of a lock is installed as it was locked. *)
Definition lock_installed (library : Library) (w : World) (lock : CompositionLock) : Prop :=
  forall p, p ∈ lock.(root) :: lock.(providers) -> exists archive, installed_as library w archive /\ locked_package archive = p.
Lemma direct_lock_spec library archive w w' lock :
  installed_as library w archive -> direct_composition_lock archive library w = (w', Done (Ok lock)) ->
  w' = w /\ lock.(root) = locked_package archive /\ lock_installed library w lock.
Proof.
  intros Ha. unfold direct_composition_lock. cbv zeta. unfold bind at 1.
  destruct (collect_candidates _ _ _ w) as [w1 [[candidates|e]|]] eqn:Hc; [|done..].
  destruct (collect_candidates_spec _ _ _ _ _ _ Hc) as [-> Hcand]; [set_solver|].
  intros H. apply lift_ok in H as (plan & _ & H). apply lift_ok in H as (selected & Hsel & H).
  unfold lift in H. destruct (new_composition_lock _ _ _) as [l|] eqn:Hl; [|done]. injection H as <- <-.
  unfold new_composition_lock in Hl. destruct (validate_composition_lock _); [|done]. injection Hl as <-. cbn [root providers].
  split; [done|]. split; [done|]. intros p [->|Hp]%elem_of_cons; [by exists archive|]. cbn [providers] in Hp. rewrite merge_sort_Permutation in Hp.
  apply (select_packages_spec _ _ _ _ Hsel) in Hp; [|set_solver]. apply list_elem_of_fmap in Hp as (b & -> & Hin). exists b. auto.
Qed.

(** ** Instances *)
Lemma constrained_again (a c : RuntimeLimits) : constrained_by a (constrained_by a c) = constrained_by a c.
Proof. unfold constrained_by. cbn. f_equal; lia. Qed.
(** What a planned instance says of its specification and its package *)
Definition planned_from (library : Library) (w : World) (security : StackSecurity) (spec : InstanceSpec) (p : PlannedInstance) : Prop :=
  exists archive requirement, installed_as library w archive
    /\ p.(pi_name) = spec.(is_name) /\ p.(pi_cartridge_id) = spec.(is_cartridge)
    /\ archive.(ar_manifest).(cartridge).(cm_id) = p.(pi_cartridge_id) /\ archive.(ar_manifest).(cartridge).(cm_version) = p.(pi_version)
    /\ lock_installed library w p.(pi_composition)
    /\ constrained_by archive.(ar_manifest).(runtime) p.(pi_limits) = p.(pi_limits)
    /\ p.(pi_requested) = stack_capabilities archive.(ar_manifest)
    /\ p.(pi_allowed) = profile_capabilities security.(profile) p.(pi_requested) spec.(is_allow) ∖ spec.(is_deny)
    /\ spec.(is_allow) ⊆ p.(pi_requested)
    /\ parse_req spec.(is_version) = Some requirement
    /\ (exists v, parse_version p.(pi_version) = Some v /\ req_matches requirement v = true)
    /\ forall version i v, installed_lookup library.(lb_document) spec.(is_cartridge) version = Some i ->
         parse_version version = Some v -> req_matches requirement v = true -> version_le version p.(pi_version) = true.
Lemma plan_instance_spec library security spec w w' p :
  plan_instance spec security library w = (w', Done (Ok p)) -> w' = w /\ planned_from library w security spec p.
Proof.
  unfold plan_instance. intros H. apply lift_ok in H as (requirement & Hreq & H).
  apply bind_ok in H as (records & Hr & H); [|apply catalog_versions_pure]. apply lift_ok in H as (record & Hf & H).
  apply bind_ok in H as (archive & Ho & H); [|apply open_archive_pure]. apply lift_ok in H as (limits & Hlim & H).
  destruct (catalog_versions_spec _ _ _ _ _ _ Hr) as (_ & Hsorted & Hin & Hall).
  destruct (List.find _ records) as [r|] eqn:Hfind; [|done]. injection Hf as ->.
  apply (find_sorted newer_record) in Hfind as (Hrin & Hsat & Hmax); [|intros x; by destruct (newer_record_total x x)|done].
  destruct (Hin _ Hrin) as [Hcid Hcat]. pose proof (opened_installed _ _ _ _ _ Hcat Ho) as Hinst.
  destruct (open_archive_spec _ _ _ _ Ho) as (Hid & Hv & _).
  unfold bind in H. destruct (direct_composition_lock archive library w) as [w1 [[lock|e]|]] eqn:Hl; [|done..].
  destruct (direct_lock_spec _ _ _ _ _ Hinst Hl) as (-> & Hroot & Hlock). cbv zeta in H.
  destruct (_ || _) eqn:Hg; [done|]. injection H as <- <-. split_guard. split; [done|].
  unfold satisfies, is_some_and in Hsat. destruct (parse_version (cp_version record)) as [v|] eqn:Hpv; [|done].
  exists archive, requirement. cbn. split_and!; try done; try congruence.
  - unfold apply_limits in Hlim. destruct (ceiling _) as [c|]; [|done]. injection Hlim as <-. apply constrained_again.
  - by destruct (parse_req _); [injection Hreq as ->|].
  - by exists v.
  - intros version i v' Hlook Hpv' Hm. destruct (Hall _ _ Hlook) as (r & Hr' & <-). apply (Hmax r Hr'). unfold satisfies, is_some_and. by rewrite Hpv'.
Qed.
Lemma plan_instances_spec library security l n w w' ps :
  plan_instances security library n l w = (w', Done (Ok ps)) ->
  w' = w /\ forall p, p ∈ ps -> exists spec, spec ∈ l /\ planned_from library w security spec p.
Proof.
  revert n w' ps. induction l as [|spec l IH]; intros n w' ps; cbn [plan_instances].
  { intros [= <- <-]. split; [done|]. set_solver. }
  unfold bind at 1. destruct (plan_instance spec security library w) as [w1 [[p|e]|]] eqn:Hp; [|done..].
  destruct (plan_instance_spec _ _ _ _ _ _ Hp) as [-> Hfrom]. intros H. apply lift_ok in H as (content & _ & H). apply lift_ok in H as (m & _ & H).
  destruct (_ <? m); [done|]. unfold bind in H. destruct (plan_instances security library m l w) as [w2 [[rest|e]|]] eqn:Hrest; [|done..].
  destruct (IH _ _ _ Hrest) as [-> Hall]. injection H as <- <-. split; [done|].
  intros x [->|Hx]%elem_of_cons; [exists spec; split; [by left|done]|]. destruct (Hall x Hx) as (s & Hs & Hf). exists s. split; [by right|done].
Qed.

(** ** Checking what was built *)
Lemma verify_package_ok library w archive :
  installed_as library w archive -> verify_locked_package_installed (locked_package archive) library w = (w, Done (Ok tt)).
Proof.
  intros (record & Hc & Ho). unfold verify_locked_package_installed, bind. cbn [locked_package lp_cartridge_id lp_version]. rewrite Hc, Ho.
  by rewrite bool_decide_eq_true_2.
Qed.
Lemma verify_packages_ok library w l checked :
  (forall p, p ∈ l -> exists archive, installed_as library w archive /\ locked_package archive = p) ->
  exists checked', verify_packages library checked l w = (w, Done (Ok checked')).
Proof.
  revert checked. induction l as [|p l IH]; intros checked Hall; cbn [verify_packages]; [by eexists|].
  destruct (bool_decide _); [apply IH; intros q Hq; apply Hall; by right|].
  destruct (Hall p) as (archive & Hi & <-); [by left|]. unfold bind. rewrite (verify_package_ok _ _ _ Hi). apply IH. intros q Hq. apply Hall. by right.
Qed.
Lemma verify_instances_ok library security w l checked :
  (forall p, p ∈ l -> exists spec, planned_from library w security spec p) -> verify_instances library checked l w = (w, Done (Ok tt)).
Proof.
  revert checked. induction l as [|p l IH]; intros checked Hall; cbn [verify_instances]; [done|].
  destruct (Hall p) as (spec & archive & requirement & Hi & _ & _ & Hid & Hv & Hlock & Hlim & _); [by left|].
  unfold bind at 1. destruct (verify_packages_ok library w (root (pi_composition p) :: providers (pi_composition p)) checked Hlock) as [checked' ->].
  destruct Hi as (record & Hc & Ho). unfold bind. rewrite <- Hid, <- Hv, Hc, Ho. rewrite bool_decide_eq_true_2 by done. cbn [negb].
  apply IH. intros q Hq. apply Hall. by right.
Qed.
(** C13: A plan that is built is installed: building changes nothing, and the plan it
    answers passes the check against the same library, which opens every package of
    every composition again.  Each instance comes from one of the manifest's: its
    package is the newest installed version that satisfies the requirement, what it
    requests is what the package's own manifest requests, what it is allowed is
    within that and without what the manifest denies, and under the strict profile
    only what the manifest grants; its limits are within those of the package. *)
Theorem built_plan_is_installed (manifest : StackManifest) (library : Library) (plan : StackPlan) (w w' : World) :
  build_plan manifest library w = (w', Done (Ok plan)) ->
  w' = w /\ validate_plan plan = Ok tt /\ verify_installed plan library w = (w, Done (Ok tt))
  /\ forall p, p ∈ plan.(sp_instances) -> exists spec, spec ∈ manifest.(sm_instances)
       /\ planned_from library w manifest.(sm_security) spec p
       /\ p.(pi_allowed) ⊆ p.(pi_requested) /\ p.(pi_allowed) ## spec.(is_deny)
       /\ (manifest.(sm_security).(profile) = Strict -> p.(pi_allowed) ⊆ spec.(is_allow)).
Proof.
  unfold build_plan. intros H. apply lift_ok in H as (_ & _ & H). unfold bind at 1 in H.
  destruct (plan_instances _ _ _ _ w) as [w1 [[instances|e]|]] eqn:Hp; [|done..].
  destruct (plan_instances_spec _ _ _ _ _ _ _ Hp) as [-> Hall]. cbv zeta in H. apply lift_ok in H as (sha & _ & H).
  apply lift_ok in H as ([] & Hval & H). injection H as <- <-.
  assert (forall p, p ∈ sp_instances (with_plan_sha256 (draft_plan manifest instances) sha) -> p ∈ instances) as Hin.
  { intros p. cbn [with_plan_sha256 draft_plan sp_instances]. by rewrite merge_sort_Permutation. }
  split; [done|]. split; [done|]. split.
  - unfold verify_installed, bind at 1, lift. rewrite Hval. apply (verify_instances_ok library manifest.(sm_security)).
    intros p Hpin. destruct (Hall p (Hin p Hpin)) as (spec & _ & Hf). by exists spec.
  - intros p Hpin. destruct (Hall p (Hin p Hpin)) as (spec & Hs & Hf). exists spec. split; [done|]. split; [done|].
    destruct Hf as (archive & requirement & _ & _ & _ & _ & _ & _ & _ & _ & Hallow & Hsub & _). rewrite Hallow.
    unfold profile_capabilities. destruct (profile (sm_security manifest)); split_and!; try done; set_solver.
Qed.
End Planning.

(** ** A concrete stack *)
Section PlanWitness.
#[local] Existing Instance demo_externals.
#[local] Existing Instance demo_hex.
#[local] Existing Instance demo_semver.
#[local] Existing Instance toy_url.
#[local] Existing Instance toy_toml.
#[local] Existing Instance toy_zip.
#[local] Instance stack_plan_json : Json StackPlan := demo_json.
#[local] Instance planned_json : Json PlannedInstance := demo_json.
Definition app_spec : InstanceSpec :=
  mkInstanceSpec "app" "dev.example.app" "1.2.0" 1 DesiredState.Running Never 0 {[Plan.Assets]} ∅ [] ∅
    (mkInstanceLimits None None None None None None None None None None None) None default_policy.
Definition app_stack : StackManifest := mkStackManifest 1 "demo" (mkStackSecurity Strict Required) [app_spec] [] [].
Definition stocked_library : Library := added empty_library "dev.example.app" "1.2.0" app_installed.
Definition stocked_world : World :=
  mkWorld {["root/packages/dev.example.app/1.2.0" := {[hex_sha256 [x50; x4b] +:+ ".cartridge" := [x50; x4b]]}]} 0 7 [].
Lemma built_plan_is_installed_witness :
  exists plan, build_plan app_stack stocked_library stocked_world = (stocked_world, Done (Ok plan))
    /\ verify_installed plan stocked_library stocked_world = (stocked_world, Done (Ok tt)) /\ length plan.(sp_instances) = 1%nat.
Proof.
  destruct (build_plan app_stack stocked_library stocked_world) as [w o] eqn:Hb.
  destruct o as [[plan|e]|]; [|exfalso; apply (f_equal (fun p => match p.2 with Done (Ok _) => true | _ => false end)) in Hb; vm_compute in Hb; discriminate Hb..].
  destruct (built_plan_is_installed _ _ _ _ _ Hb) as (-> & _ & Hv & _). exists plan. split; [done|]. split; [exact Hv|].
  apply (f_equal (fun p => match p.2 with Done (Ok plan) => length plan.(sp_instances) | _ => 0%nat end)) in Hb. vm_compute in Hb. symmetry. exact Hb.
Defined.
End PlanWitness.
