(* ===== verification/Replicas.v ===== *)
(** * What the store keeps for replicas ([crates/cartridge-engine/src/lib.rs] and [invocation.rs])

    Opening the store, the leases of supervisors, the state and probe directories of
    a replica and their cleaning, invocation channels and their envelopes, and the
    health of all stacks.  Whether a lock is held by another process is an argument. *)
From stdpp Require Import pretty.
From S2P Require Import Prelude Text Core Storage Snapshot Directory Blob Network Files Rolling Plan Supervisor Events Health Rollout Progress Store Routing Host Probe Planning.

Definition ENGINE_INVOCATION_FORMAT_VERSION : N := 1.
Definition MAX_INVOCATION_ENVELOPE_BYTES : N := 2 * 1024 * 1024.
Definition MAX_INVOCATIONS_PER_REPLICA : N := 16.

Record InvocationRequestEnvelope := mkInvocationRequest {
  iq_format_version : N;
  iq_stack : string;
  iq_routing_epoch : string;
  iq_routing_sequence : N;
  iq_target : RouteTarget;
  iq_issued_at_ms : N;
  iq_deadline_at_ms : N;
  iq_request : ServiceRequest;
}.
Record InvocationResponseEnvelope := mkInvocationResponse {
  ir_format_version : N;
  ir_stack : string;
  ir_target : RouteTarget;
  ir_request_id : string;
  ir_responded_at_ms : N;
  ir_response : ServiceResponse;
}.
Definition validate_invocation_request (self : InvocationRequestEnvelope) : result string unit :=
  if negb (self.(iq_format_version) =? ENGINE_INVOCATION_FORMAT_VERSION) || negb (valid_name self.(iq_stack))
     || negb (is_digest self.(iq_routing_epoch)) || (self.(iq_routing_sequence) =? 0) || (self.(iq_issued_at_ms) =? 0)
     || (self.(iq_deadline_at_ms) <=? self.(iq_issued_at_ms)) || (MAX_SERVICE_TIMEOUT_MS <? self.(iq_deadline_at_ms) - self.(iq_issued_at_ms))
  then Err "invocation request identity is invalid"
  else validate_service_request self.(iq_request).
Definition validate_invocation_response (self : InvocationResponseEnvelope) : result string unit :=
  if negb (self.(ir_format_version) =? ENGINE_INVOCATION_FORMAT_VERSION) || negb (valid_name self.(ir_stack))
     || negb (is_digest self.(ir_request_id)) || (self.(ir_responded_at_ms) =? 0)
  then Err "invocation response identity is invalid"
  else validate_service_response self.(ir_response).

(** ** Names of probe files *)
Definition all_digits (part : string) : bool := negb (str_is_empty part) && forallb is_ascii_digit (str_bytes part).
Definition valid_probe_file_name (name : string) : bool :=
  is_some_and is_digest (strip_suffix ".probe" name)
  || is_some_and (fun value => match split_on "-" value with [a; b] => all_digits a && all_digits b | _ => false end)
       (strip_prefix ".probe-report-" name ≫= strip_suffix ".tmp").
Definition valid_probe_directory (depth : N) (name : string) : bool :=
  match depth with
  | 0 => valid_name name
  | 1 => (str_len name =? 4) && forallb is_ascii_digit (str_bytes name) && negb (bool_decide (name = "0000"))
  | _ => false
  end.
(** The directories directly below a directory *)
Definition child_directories (d : Disk) (dir : string) : list string :=
  merge_sort String.le (omap (fun '(path, _) => match strip_prefix (dir +:+ "/") path with
                                                | Some name => if contains_char name "/" then None else Some name
                                                | None => None
                                                end) (map_to_list d)).
(** [collect_probe_entries]: the files and directories to remove; a directory is two
    levels below at most, which bounds the recursion.  The order in which a
    directory is listed is that of the names, directories first. *)
Fixpoint check_probe_files (depth : N) (dir : string) (files : list Path) (l : list (string * bytes)) : result string (list Path) :=
  match l with
  | [] => Ok files
  | (name, content) :: l =>
      if (depth =? 2) && (len content <=? MAX_PROBE_ENVELOPE_BYTES) && valid_probe_file_name name then
        let files := files ++ [(dir, name)] in
        if MAX_STALE_PROBE_FILES <? len files then Err "application health channel cleanup limit exceeded"
        else check_probe_files depth dir files l
      else Err "application health channel contains an unsafe entry"
  end.
Fixpoint collect_probe_entries (fuel : nat) (d : Disk) (depth : N) (dir : string) (found : list Path * list string) :
    result string (list Path * list string) :=
  match fuel with
  | O => Err "application health channel directory is not canonical"
  | S fuel =>
      let? found := foldl (fun found name =>
                             let? found := found in
                             if negb (valid_probe_directory depth name) then Err "application health channel directory is not canonical"
                             else
                               let? (files, directories) := collect_probe_entries fuel d (depth + 1) (dir +:+ "/" +:+ name) found in
                               Ok (files, directories ++ [dir +:+ "/" +:+ name])) (Ok found) (child_directories d dir) in
      let? files := check_probe_files depth dir found.1 (btree_iter (default ∅ (d !! dir))) in
      Ok (files, found.2)
  end.
(** [fs::remove_dir]: of an empty directory *)
Definition remove_dir (dir : string) : IO unit :=
  syscall (fun d => match d !! dir with
                    | None => Err NO_ENTRY
                    | Some files => if bool_decide (files = ∅) && bool_decide (child_directories d dir = []) then Ok (delete dir d, tt)
                                    else Err "directory not empty"
                    end) untouched.
Fixpoint remove_files (l : list Path) : IO unit :=
  match l with [] => ret tt | path :: l => remove_file path ;;? remove_files l end.
Fixpoint remove_dirs (l : list string) : IO unit :=
  match l with [] => ret tt | dir :: l => remove_dir dir ;;? remove_dirs l end.

(** ** Paths of replicas *)
Definition replica_dirs (stack : string) (parts : list string) : list string :=
  foldl (fun l part => l ++ [default (stack_dir stack) (last l) +:+ "/" +:+ part]) [stack_dir stack] parts.
Fixpoint ensure_directories (l : list string) : IO unit :=
  match l with [] => ret tt | dir :: l => ensure_directory dir ;;? ensure_directories l end.
Definition state_parts (generation : string) (id : ReplicaId) (package : string) : list string :=
  ["replicas"; id.(Supervisor.instance); digits 4 id.(ordinal); "generations"; generation; "state"; package].
Definition probe_parts (generation : string) (id : ReplicaId) : list string :=
  ["probes"; generation; id.(Supervisor.instance); digits 4 id.(ordinal)].
Definition invocation_parts (generation : string) (id : ReplicaId) (run_id : string) : list string :=
  ["invocations"; generation; id.(Supervisor.instance) +:+ "-" +:+ pretty id.(ordinal); run_id].
Definition deepest (l : list string) : string := default "" (last l).

Section Replicas.
Context `{Ext : Externals} `{JP : !Json StackPlan} `{JS : !Json StackRuntimeStatus} `{JE : !Json EngineEvent}
  `{JH : !Json StackHealthReport} `{JI : !Json RolloutIdentity} `{JRo : !Json RolloutRecord}
  `{JPr : !Json RolloutProgress} `{DE : !JsonDecode EngineEvent} `{DS : !JsonDecode StackRuntimeStatus}
  `{DRo : !JsonDecode RolloutRecord} `{DPr : !JsonDecode RolloutProgress}
  `{JRs : !Json RoutingSnapshot} `{DRs : !JsonDecode RoutingSnapshot}.

Definition open_store : IO unit :=
  ensure_directory "." ;;? ensure_directory "stacks" ;;? open_lock_file (".", "engine.lock") ;;? acquire_lock.
Fixpoint health_reports (now_ms : N) (l : list StackStatus) : IO (list StackHealthReport) :=
  match l with
  | [] => ret []
  | status :: l =>
      do? runtime := runtime_status status.(ss_stack) in
      do? report := lift (from_status status runtime now_ms) in
      do? rest := health_reports now_ms l in
      ret (report :: rest)
  end.
Definition health_all (now_ms : N) : IO (list StackHealthReport) :=
  do? statuses := list_stacks in
  if MAX_ENGINE_HEALTH_REPORTS <? len statuses then fail "engine health inventory is too large; select one stack"
  else
    do? reports := health_reports now_ms statuses in
    let reports := merge_sort report_le reports in
    lift (validate_health_reports reports) ;;? ret reports.
Definition acquire_supervisor_lease (stack : string) (held : bool) : IO unit :=
  do? desired := desired_plan stack in
  if is_none desired then fail "removed stack cannot be supervised"
  else
    ensure_directory (stack_dir stack) ;;?
    open_lock_file (stack_dir stack, "supervisor.lock") ;;?
    if held then fail "stack already has an active supervisor" else ret tt.
Definition acquire_generation_supervisor_lease (stack generation : string) (held : bool) : IO unit :=
  do? target := generation_target stack generation in
  if is_none target then fail "runtime generation cannot be supervised"
  else
    ensure_directory (stack_dir stack +:+ "/supervisors") ;;?
    open_lock_file (stack_dir stack +:+ "/supervisors", generation +:+ ".lock") ;;?
    if held then fail "generation already has an active supervisor" else ret tt.

Definition replica_state_directory (stack generation : string) (id : ReplicaId) : IO string :=
  do? target := generation_target stack generation in
  do? target := lift (ok_or target "runtime generation has no replica state authority") in
  let planned_instance := List.find (fun i => bool_decide (i.(pi_name) = id.(Supervisor.instance)) && (id.(ordinal) <=? i.(pi_replicas)))
                            target.(gt_plan).(sp_instances) in
  if negb (valid_name id.(Supervisor.instance)) || (id.(ordinal) =? 0) || is_none planned_instance
  then fail "replica state request does not match its generation target"
  else
    do? planned := lift (ok_or planned_instance "replica is not part of the generation target") in
    let directories := replica_dirs stack (state_parts generation id planned.(pi_package_sha256)) in
    ensure_directories directories ;;? ret (deepest directories).
Definition probe_is_planned (id : ReplicaId) (i : PlannedInstance) : bool :=
  bool_decide (i.(pi_name) = id.(Supervisor.instance)) && (0 <? id.(ordinal)) && (id.(ordinal) <=? i.(pi_replicas))
  && bool_decide (i.(pi_desired) = DesiredState.Running) && is_some i.(pi_health).
Definition replica_probe_path (stack generation : string) (id : ReplicaId) (run_id : string) : IO Path :=
  do? target := generation_target stack generation in
  do? target := lift (ok_or target "runtime generation has no health-channel authority") in
  if negb (valid_name id.(Supervisor.instance)) || negb (is_digest run_id)
     || negb (existsb (probe_is_planned id) target.(gt_plan).(sp_instances))
  then fail "application health channel does not match the desired generation"
  else
    let directories := replica_dirs stack (probe_parts generation id) in
    ensure_directories directories ;;? ret (deepest directories, run_id +:+ ".probe").
Definition clear_probe_channels_for_generation (stack generation : string) : IO N :=
  do? target := generation_target stack generation in
  if is_none target then fail "runtime generation has no health-channel authority"
  else
    let probes_root := stack_dir stack +:+ "/probes" in
    let probes := probes_root +:+ "/" +:+ generation in
    do? d := read_disk in
    if is_none (d !! probes_root) || is_none (d !! probes) then ret 0
    else
      do? (files, directories) := lift (collect_probe_entries 3 d 0 probes ([], [])) in
      remove_files files ;;? remove_dirs directories ;;? remove_dir probes ;;?
      do? d := read_disk in
      (if bool_decide (default ∅ (d !! probes_root) = ∅) && bool_decide (child_directories d probes_root = [])
       then remove_dir probes_root else ret tt) ;;?
      ret (len files).
Definition clear_probe_channels (stack : string) : IO N :=
  do? desired := desired_plan stack in
  match desired with
  | None => fail "stack has no active application health channels"
  | Some (_, generation, _) => clear_probe_channels_for_generation stack generation
  end.

(** ** Invocation channels *)
Definition replica_invocation_directory (stack generation : string) (id : ReplicaId) (run_id : string) : IO string :=
  if negb (valid_name stack) || negb (is_digest generation) || negb (valid_name id.(Supervisor.instance)) || (id.(ordinal) =? 0)
     || (MAX_STACK_REPLICAS <? id.(ordinal)) || negb (is_digest run_id)
  then fail "invocation channel identity is invalid"
  else
    do? target := generation_target stack generation in
    do? target := lift (ok_or target "invocation generation is no longer authorized") in
    do? i := lift (ok_or (List.find (fun i => bool_decide (i.(pi_name) = id.(Supervisor.instance))) target.(gt_plan).(sp_instances))
               "invocation instance is not in the generation") in
    if i.(pi_replicas) <? id.(ordinal) then fail "invocation replica is outside the generation"
    else if negb (bool_decide (Plan.Serve ∈ i.(pi_allowed))) then fail "instance was not granted the serve capability"
    else
      let directories := replica_dirs stack (invocation_parts generation id run_id) in
      (* the stack's own directory is not made here *)
      ensure_directories (tail directories) ;;? ret (deepest directories).
Definition invocation_directory (stack : string) (target : RouteTarget) : IO string :=
  do? ready := route_target_is_ready stack target in
  if negb ready then fail "invocation target is no longer routable"
  else
    do? generation := generation_target stack target.(rt_generation) in
    do? generation := lift (ok_or generation "invocation generation is no longer authorized") in
    do? i := lift (ok_or (List.find (fun i => bool_decide (i.(pi_name) = target.(rt_instance))) generation.(gt_plan).(sp_instances))
               "invocation instance is not in the generation") in
    if negb (bool_decide (Plan.Serve ∈ i.(pi_allowed))) then fail "instance was not granted the serve capability"
    else replica_invocation_directory stack target.(rt_generation) (mkReplicaId target.(rt_instance) target.(rt_ordinal)) target.(rt_run_id).
End Replicas.
