(* ===== verification/EngineDaemon.v ===== *)
(** * The engine daemon ([crates/cartridge-cli/src/engine_daemon.rs])

    The requests of the clients, the invocation of a service, and the passes that
    advance rollouts, publish routes and start supervisors.  The sockets are what
    they carry, a child process is what is seen of it, and the readings of the
    clocks, random bytes and counters of names are arguments.  The lock of the
    mutations is the sequencing of the operations; a poisoned lock is not
    modelled.  The engine's root is the current directory, the library has a root
    of its own.  Errors carry the text of the innermost cause where the code adds
    a context to them. *)
From stdpp Require Import pretty.
From S2P Require Import Prelude Text Core Storage Snapshot Directory Blob Network Manifest Resolver Archive Rolling Plan Supervisor Events Health Files Rollout Progress Store Routing Peer Host IdentityFiles RolloutStatus Release Desktop Probe Daemon Planning Replicas.

Definition MIN_SUPERVISOR_RETRY_DELAY : N := 250.
Definition MAX_SUPERVISOR_RETRY_DELAY : N := 30000.
Definition SUPERVISOR_STABLE_WINDOW : N := 60000.

Record ServeOptions := mkServeOptions { so_library : string; so_max_supervisors : N; so_workers_per_stack : N }.
Record DaemonState := mkDaemonState {
  ds_library : string;
  ds_codec : DaemonCodec;
  ds_started_at_ms : N;
  ds_max_supervisors : N;
  ds_workers_per_stack : N;
  ds_stopping : bool;
  ds_replay : ReplayCache;
  ds_active_supervisors : N;
}.
Definition with_replay (s : DaemonState) (cache : ReplayCache) : DaemonState :=
  mkDaemonState s.(ds_library) s.(ds_codec) s.(ds_started_at_ms) s.(ds_max_supervisors) s.(ds_workers_per_stack) s.(ds_stopping)
    cache s.(ds_active_supervisors).
Definition with_stopping (s : DaemonState) : DaemonState :=
  mkDaemonState s.(ds_library) s.(ds_codec) s.(ds_started_at_ms) s.(ds_max_supervisors) s.(ds_workers_per_stack) true
    s.(ds_replay) s.(ds_active_supervisors).
Definition with_active_count (s : DaemonState) (count : N) : DaemonState :=
  mkDaemonState s.(ds_library) s.(ds_codec) s.(ds_started_at_ms) s.(ds_max_supervisors) s.(ds_workers_per_stack) s.(ds_stopping)
    s.(ds_replay) count.
(** The guards of [serve] and the state it starts from *)
Definition initial_state (options : ServeOptions) (codec : DaemonCodec) (started_at_ms : N) : result string DaemonState :=
  if (options.(so_max_supervisors) =? 0) || (MAX_DAEMON_SUPERVISORS <? options.(so_max_supervisors))
  then Err "daemon supervisor limit is invalid"
  else if (options.(so_workers_per_stack) =? 0) || (MAX_STACK_TOTAL_ACTIVE_REPLICAS <? options.(so_workers_per_stack))
  then Err "daemon worker limit is invalid"
  else Ok (mkDaemonState options.(so_library) codec started_at_ms options.(so_max_supervisors) options.(so_workers_per_stack)
             false ∅ 0).
(** [lock_mutation] *)
Definition lock_mutation (state : DaemonState) : IO unit := when state.(ds_stopping) "engine daemon is shutting down".

(** What a request finds in its surroundings: the readings of the clock in the order
    they are taken, those of the store and of the library, the random bytes of a
    routing epoch, and the counter of invocation files *)
Record Ambient := mkAmbient {
  am_now : nat -> result string N;
  am_store_now : result string N;
  am_library_now : result string N;
  am_epoch : bytes;
  am_writes : nat -> N;
}.

(** ** Invocation files *)
Definition ALREADY_EXISTS : string := "invocation already exists".
(** [error.kind() == ErrorKind::AlreadyExists] *)
Definition already_exists (error : string) : bool := bool_decide (error = ALREADY_EXISTS) || bool_decide (error = EXISTS).
Definition invocation_entry_count (directory : string) : IO N :=
  do? d := read_disk in
  do? files := lift (ok_or (d !! directory) NO_ENTRY) in
  let names := (btree_iter files).*1 in
  if saturating_mul usize_max MAX_INVOCATIONS_PER_REPLICA 3 <? len names + len (child_directories d directory)
  then fail "invocation channel entry limit exceeded"
  else
    let counted := fun name => ends_with name ".request" || ends_with name ".active" in
    ret (len (List.filter counted names) + len (List.filter counted (child_directories d directory))).
(** [write_invocation_new] of [<id>.request]; [name] is the file without its extension *)
Definition write_invocation_new (sequence : N) (directory name extension : string) (content : bytes) : IO unit :=
  if (len content =? 0) || (MAX_INVOCATION_ENVELOPE_BYTES <? len content) then fail "invocation envelope exceeds its limit"
  else
    let path := (directory, name +:+ "." +:+ extension) in
    do? present := exists_file path in
    if present : bool then fail ALREADY_EXISTS
    else
      do? process := get_process_id in
      let temporary := (directory, name +:+ ".pending-" +:+ pretty process +:+ "-" +:+ pretty sequence) in
      create_new temporary ;;?
      do? written := attempt (write_all temporary content) in
      match written with
      | Err error => discard temporary ;;? fail error
      | Ok _ =>
          do? renamed := attempt (rename temporary path) in
          match renamed with
          | Err error => discard temporary ;;? fail error
          | Ok _ => ret tt
          end
      end.
Definition read_invocation_file (path : Path) : IO bytes :=
  do? content := read_file path in
  if (len content =? 0) || (MAX_INVOCATION_ENVELOPE_BYTES <? len content)
  then fail "invocation response is not a bounded regular file"
  else ret content.
Definition remove_invocation_file (path : Path) : IO unit :=
  do? present := exists_file path in
  if negb present then ret tt else remove_file path.

(** [usize::from_str_radix(text, 16)] *)
Definition hex_digit (c : N) : option N :=
  if in_range 48 57 c then Some (c - 48)
  else if in_range 97 102 c then Some (c - 87)
  else if in_range 65 70 c then Some (c - 55)
  else None.
Fixpoint hex_number (acc : N) (l : list N) : option N :=
  match l with
  | [] => Some acc
  | c :: l => d ← hex_digit c; hex_number (acc * 16 + d) l
  end.
Definition from_str_radix_16 (text : list N) : option N :=
  match text with
  | [] => None
  | 43 :: [] => None
  | 43 :: l => hex_number 0 l
  | l => hex_number 0 l
  end.
Definition rotate_left {A : Type} (offset : nat) (l : list A) : list A := drop offset l ++ take offset l.
(** The ready replicas of the instance, beginning at one the request's id picks *)
Definition rotated_targets (instance : string) (request : ServiceRequest) (routes : RoutingSnapshot) : list RouteTarget :=
  let targets := List.filter (fun t => bool_decide (t.(rt_instance) = instance)) routes.(rs_targets) in
  let offset := default 0 (from_str_radix_16 (take 8 (str_bytes request.(sr_id)))) mod len targets in
  rotate_left (N.to_nat offset) targets.

(** ** Supervisor processes *)
(** [SupervisorKey]: the stack and the generation *)
Abbreviation SupervisorKey := (string * string)%type.
Record SupervisorRetry := mkRetry { sr_attempts : N; sr_deadline : N }.
(** [ManagedSupervisor]: when the child was started *)
Record Supervisors := mkSupervisors { su_managed : gmap SupervisorKey N; su_retries : gmap SupervisorKey SupervisorRetry }.
Definition schedule_supervisor_retry (now : N) (retries : gmap SupervisorKey SupervisorRetry) (key : SupervisorKey) (stable : bool) :
    gmap SupervisorKey SupervisorRetry :=
  let attempts := if stable then 1
                  else match retries !! key with None => 1 | Some retry => saturating_add u8_max retry.(sr_attempts) 1 end in
  let multiplier := N.shiftl 1 (N.min (attempts - 1) 7) in
  let delay := N.min (MIN_SUPERVISOR_RETRY_DELAY * multiplier) MAX_SUPERVISOR_RETRY_DELAY in
  <[key := mkRetry attempts (now + delay)]> retries.
Definition with_active (state : DaemonState) (s : Supervisors) : DaemonState := with_active_count state (N.of_nat (size s.(su_managed))).
(** What is seen of the children during a pass, and when: whether one has ended,
    whether one can be started *)
Record Observed := mkObserved {
  ob_finished : SupervisorKey -> bool;
  ob_seen_at : SupervisorKey -> N;
  ob_spawns : SupervisorKey -> bool;
  ob_now : SupervisorKey -> N;
}.
Definition reap_one (ob : Observed) (s : Supervisors) (entry : SupervisorKey * N) : Supervisors :=
  let '(key, started_at) := entry in
  mkSupervisors (delete key s.(su_managed))
    (schedule_supervisor_retry (ob.(ob_seen_at) key) s.(su_retries) key
       (SUPERVISOR_STABLE_WINDOW <=? ob.(ob_seen_at) key - started_at)).
Definition reap (ob : Observed) (s : Supervisors) : Supervisors :=
  foldl (reap_one ob) s (List.filter (fun entry => ob.(ob_finished) entry.1) (map_to_list s.(su_managed))).
Definition unfinished (replica : ReplicaRuntime) : bool :=
  match replica.(phase) with
  | ReplicaPhase.Pending | ReplicaPhase.Starting | ReplicaPhase.Running | ReplicaPhase.Backoff => true
  | _ => false
  end.

(** ** Clients

    What a call of [accept] answers, and how many clients ended before it; no more
    answers means that the call would block.  The result tells which connections
    were served. *)
Inductive acceptance_of_client := Connects (loopback : bool) (ended : N) | AcceptFails (error : string).
Fixpoint accept_clients (active : N) (l : list acceptance_of_client) : N * list bool * result string unit :=
  match l with
  | [] => (active, [], Ok tt)
  | AcceptFails _ :: _ => (active, [], Err "engine daemon accept failed")
  | Connects loopback ended :: l =>
      let active := active - ended in
      match (if loopback : bool then reserve_client active else None) with
      | None => let '(n, served, r) := accept_clients active l in (n, false :: served, r)
      | Some active => let '(n, served, r) := accept_clients active l in (n, true :: served, r)
      end
  end.
(** [drain_clients]: the counts it sees until the deadline *)
Fixpoint drain_clients (seen : list N) : result string unit :=
  match seen with
  | [] => Err "engine clients did not drain before shutdown"
  | 0 :: _ => Ok tt
  | _ :: seen => drain_clients seen
  end.
(** [stop_supervisors]: the children still running at each look are kept, and the ones
    left at the end are terminated *)
Fixpoint wait_supervisors (managed : gmap SupervisorKey N) (looks : list (SupervisorKey -> bool)) : gmap SupervisorKey N :=
  match looks with
  | [] => managed
  | finished :: looks => wait_supervisors (filter (fun p => finished p.1 = false) managed) looks
  end.
Definition stop_supervisors (s : Supervisors) (looks : list (SupervisorKey -> bool)) : Supervisors * list SupervisorKey :=
  let left := wait_supervisors s.(su_managed) looks in
  (mkSupervisors ∅ s.(su_retries), (map_to_list left).*1).

(** What happens between two looks at an invocation: what others did to the files, and
    whether the daemon is stopping.  After the last of them the deadline has passed. *)
Record Poll := mkPoll { po_change : Disk -> Disk; po_stopping : bool }.
Definition others (f : Disk -> Disk) : IO unit := fun w => (with_disk w (f w.(disk)), Done (Ok tt)).
(** The latest deadline of an instance *)
Definition rollout_progress_expired (progress : RolloutProgress) (now_ms : N) : bool :=
  let deadline_ms := foldr N.max 0 ((fun i => i.(ip_policy).(progress_deadline_ms)) <$> progress.(rp_instances)) in
  deadline_ms <=? now_ms - progress.(last_progress_at_ms).

Section EngineDaemon.
Context `{Ext : Externals} `{Hex : HexDecode} `{SV : !Semver} `{UC : UrlCrate} `{ZC : !ZipCrate} `{TC : !TomlCrate} `{PC : PeerCrypto}.
Context `{JD : Json LibraryDocument} `{DD : JsonDecode LibraryDocument} `{JN : !Json PlannedInstance}.
Context `{JP : !Json StackPlan} `{JS : !Json StackRuntimeStatus} `{JE : !Json EngineEvent}
  `{JH : !Json StackHealthReport} `{JI : !Json RolloutIdentity} `{JRo : !Json RolloutRecord}
  `{JPr : !Json RolloutProgress} `{DE : !JsonDecode EngineEvent} `{DS : !JsonDecode StackRuntimeStatus}
  `{DRo : !JsonDecode RolloutRecord} `{DPr : !JsonDecode RolloutProgress}
  `{JRs : !Json RoutingSnapshot} `{DRs : !JsonDecode RoutingSnapshot} `{JSt : !Json RolloutStatus.RolloutStatus}.
Context `{JIq : Json InvocationRequestEnvelope} `{DIr : JsonDecode InvocationResponseEnvelope}.
Context `{JF : Json DaemonFrame} `{DF : JsonDecode DaemonFrame} `{JQ : Json RequestEnvelope} `{DQ : JsonDecode RequestEnvelope}
  `{JA : Json ResponseEnvelope} `{DA : JsonDecode ResponseEnvelope}.

(** ** Invoking a service *)
Definition invocation_envelope (stack : string) (routes : RoutingSnapshot) (target : RouteTarget) (issued_at_ms deadline_at_ms : N)
    (request : ServiceRequest) : InvocationRequestEnvelope :=
  mkInvocationRequest ENGINE_INVOCATION_FORMAT_VERSION stack routes.(routing_epoch) routes.(rs_sequence) target issued_at_ms
    deadline_at_ms request.
(** The first replica with room takes the request *)
Fixpoint select_target (writes : nat -> N) (stack : string) (routes : RoutingSnapshot) (request : ServiceRequest)
    (issued_at_ms deadline_at_ms : N) (targets : list RouteTarget) : IO (option (RouteTarget * string)) :=
  match targets with
  | [] => ret None
  | target :: targets =>
      do? directory := invocation_directory stack target in
      do? count := invocation_entry_count directory in
      if MAX_INVOCATIONS_PER_REPLICA <=? count
      then select_target writes stack routes request issued_at_ms deadline_at_ms targets
      else
        let envelope := invocation_envelope stack routes target issued_at_ms deadline_at_ms request in
        lift (validate_invocation_request envelope) ;;?
        do? content := lift (to_vec envelope) in
        do? written := Files.attempt (write_invocation_new (writes (length targets)) directory request.(sr_id) "request" content) in
        match written with
        | Ok _ => ret (Some (target, directory))
        | Err error =>
            if already_exists error then select_target writes stack routes request issued_at_ms deadline_at_ms targets
            else fail error
        end
  end.
(** One turn of the loop that waits for the response; [None] sleeps *)
Definition poll_once (stack : string) (target : RouteTarget) (request_id : string) (deadline_at_ms : N) (response_path : Path)
    (stopping expired : bool) : IO (option DaemonResponse) :=
  if stopping then fail "engine daemon is shutting down"
  else
    do? present := exists_file response_path in
    if present : bool then
      do? content := read_invocation_file response_path in
      do? envelope := lift (from_slice content) in
      lift (validate_invocation_response envelope) ;;?
      if negb (bool_decide (envelope.(ir_stack) = stack)) || negb (bool_decide (envelope.(ir_target) = target))
         || negb (bool_decide (envelope.(ir_request_id) = request_id)) || (deadline_at_ms <? envelope.(ir_responded_at_ms))
      then fail "invocation response identity is invalid"
      else ret (Some (DaemonResponse.Invoked envelope.(ir_response)))
    else if expired then fail "service invocation timed out"
    else
      open_store ;;?
      do? ready := route_target_is_ready stack target in
      if negb ready then fail "service route changed during invocation" else ret None.
Fixpoint await_response (stack : string) (target : RouteTarget) (request_id : string) (deadline_at_ms : N) (response_path : Path)
    (polls : list Poll) (final : Poll) : IO DaemonResponse :=
  match polls with
  | [] =>
      others final.(po_change) ;;?
      do? r := poll_once stack target request_id deadline_at_ms response_path final.(po_stopping) true in
      lift (ok_or r "service invocation timed out")
  | poll :: polls =>
      others poll.(po_change) ;;?
      do? r := poll_once stack target request_id deadline_at_ms response_path poll.(po_stopping) false in
      match r with
      | Some response => ret response
      | None => await_response stack target request_id deadline_at_ms response_path polls final
      end
  end.
(** [a.and(b)] of results that were all computed *)
Definition result_and {A B : Type} (a : result string A) (b : result string B) : result string B :=
  match a with Ok _ => b | Err e => Err e end.
Definition execute_invocation (state : DaemonState) (am : Ambient) (polls : list Poll) (final : Poll) (stack instance : string)
    (request : ServiceRequest) (timeout_ms : N) : IO DaemonResponse :=
  lift (validate_service_request request) ;;?
  lock_mutation state ;;?
  open_store ;;?
  do? now := lift (am.(am_now) 1%nat) in
  do? routes := publish_routing_snapshot am.(am_epoch) stack now in
  let targets := List.filter (fun t => bool_decide (t.(rt_instance) = instance)) routes.(rs_targets) in
  if len targets =? 0 then fail "instance has no ready service replicas"
  else
    do? issued_at_ms := lift (am.(am_now) 2%nat) in
    do? deadline_at_ms := lift (ok_or (checked_add u64_max issued_at_ms timeout_ms) "invocation deadline overflow") in
    do? selected := select_target am.(am_writes) stack routes request issued_at_ms deadline_at_ms (rotated_targets instance request routes) in
    do? (target, directory) := lift (ok_or selected "all ready service replicas are busy") in
    let file := fun extension => (directory, request.(sr_id) +:+ extension) in
    do? result := Files.attempt (await_response stack target request.(sr_id) deadline_at_ms (file ".response") polls final) in
    do? r1 := Files.attempt (remove_invocation_file (file ".request")) in
    do? r2 := Files.attempt (remove_invocation_file (file ".active")) in
    do? r3 := Files.attempt (remove_invocation_file (file ".response")) in
    lift (result_and (result_and (result_and r1 r2) r3) result).

(** ** Requests *)
Definition require_installed (state : DaemonState) (am : Ambient) (plan : StackPlan) : IO unit :=
  do? library := open_library state.(ds_library) am.(am_library_now) in
  verify_installed plan library.
Definition publish_after (am : Ambient) (stack : string) (i : nat) : IO unit :=
  do? now := lift (am.(am_now) i) in
  publish_routing_snapshot am.(am_epoch) stack now ;;? ret tt.
Definition execute_stack_mutation (state : DaemonState) (am : Ambient) (request : DaemonRequest) : IO DaemonResponse :=
  lock_mutation state ;;?
  open_store ;;?
  match request with
  | DaemonRequest.Apply plan allow_insecure =>
      require_installed state am plan ;;?
      do? report := apply_stack am.(am_store_now) plan allow_insecure in
      publish_after am plan.(sp_stack) 1 ;;?
      ret (DaemonResponse.Applied report)
  | DaemonRequest.Stop stack =>
      do? report := stop_stack am.(am_store_now) stack in
      publish_after am stack 1 ;;?
      ret (DaemonResponse.Stopped report)
  | DaemonRequest.Remove stack =>
      do? report := remove_stack am.(am_store_now) stack in
      publish_after am stack 1 ;;?
      ret (DaemonResponse.Removed report)
  | _ => fail "request is not a stack mutation"
  end.
Definition current_rollout (stack rollout_id : string) : IO RolloutRecord :=
  do? checkpoint := rollout stack in
  do? checkpoint := lift (ok_or checkpoint "stack has no rollout checkpoint") in
  if negb (bool_decide (checkpoint.(ro_rollout_id) = rollout_id))
  then fail "rollout identity does not match the current checkpoint"
  else ret checkpoint.
(** [verify_rollback_target], which [RolloutRollback] repeats *)
Definition verify_rollback_target (state : DaemonState) (am : Ambient) (record : RolloutRecord) : IO unit :=
  match record.(previous_plan) with
  | Some previous => require_installed state am previous
  | None => ret tt
  end.
Definition rollout_response (record : RolloutRecord) : result string DaemonResponse :=
  let? status := from_record record in Ok (DaemonResponse.Rollout (Some status)).
Definition execute_rollout_request (state : DaemonState) (am : Ambient) (request : DaemonRequest) : IO DaemonResponse :=
  match request with
  | DaemonRequest.RolloutStatus stack =>
      open_store ;;?
      do? record := rollout stack in
      match record with
      | None => ret (DaemonResponse.Rollout None)
      | Some record => lift (rollout_response record)
      end
  | DaemonRequest.RolloutPrepare plan allow_insecure =>
      lock_mutation state ;;?
      require_installed state am plan ;;?
      open_store ;;?
      do? now := lift (am.(am_now) 1%nat) in
      do? record := prepare_rollout plan allow_insecure now in
      lift (rollout_response record)
  | DaemonRequest.RolloutActivate stack rollout_id =>
      lock_mutation state ;;?
      open_store ;;?
      do? checkpoint := current_rollout stack rollout_id in
      require_installed state am checkpoint.(candidate_plan) ;;?
      do? now := lift (am.(am_now) 1%nat) in
      do? record := activate_rollout am.(am_store_now) stack rollout_id now in
      publish_after am stack 2 ;;?
      lift (rollout_response record)
  | DaemonRequest.RolloutCommit stack rollout_id =>
      lock_mutation state ;;?
      open_store ;;?
      do? now := lift (am.(am_now) 1%nat) in
      do? record := commit_rollout stack rollout_id now in
      publish_after am stack 2 ;;?
      lift (rollout_response record)
  | DaemonRequest.RolloutRollback stack rollout_id =>
      lock_mutation state ;;?
      open_store ;;?
      do? checkpoint := current_rollout stack rollout_id in
      verify_rollback_target state am checkpoint ;;?
      do? now := lift (am.(am_now) 1%nat) in
      do? record := rollback_rollout am.(am_store_now) stack rollout_id now in
      publish_after am stack 2 ;;?
      lift (rollout_response record)
  | _ => fail "request is not a rollout operation"
  end.
Definition engine_health (am : Ambient) (stack : option string) : IO DaemonResponse :=
  open_store ;;?
  do? observed_at_ms := lift (am.(am_now) 1%nat) in
  do? reports := match stack with
                 | Some stack => do? report := health stack observed_at_ms in ret [report]
                 | None => health_all observed_at_ms
                 end in
  ret (DaemonResponse.Health reports).
Definition daemon_info (state : DaemonState) (process : N) (statuses : list StackStatus) : result string DaemonInfo :=
  let applied := List.filter (fun s => bool_decide (s.(ss_state) = EngineStackState.Applied)) statuses in
  if u32_max <? len statuses then Err "stack count overflow"
  else if u32_max <? len applied then Err "applied stack count overflow"
  else if u16_max <? state.(ds_active_supervisors) then Err "active supervisor count overflow"
  else Ok (mkInfo DAEMON_PROTOCOL_VERSION state.(ds_codec).(dc_instance_id) process state.(ds_started_at_ms)
             state.(ds_active_supervisors) state.(ds_max_supervisors) state.(ds_workers_per_stack) (len statuses) (len applied)).
Definition execute_request (state : DaemonState) (am : Ambient) (polls : list Poll) (final : Poll) (request : DaemonRequest) :
    IO DaemonResponse :=
  match request with
  | DaemonRequest.Ping => ret DaemonResponse.Pong
  | DaemonRequest.Info =>
      open_store ;;?
      do? statuses := list_stacks in
      do? process := get_process_id in
      do? info := lift (daemon_info state process statuses) in
      ret (DaemonResponse.Info info)
  | DaemonRequest.List => open_store ;;? do? statuses := list_stacks in ret (DaemonResponse.Stacks statuses)
  | DaemonRequest.Status stack => open_store ;;? do? status := status_of stack in ret (DaemonResponse.Status status)
  | DaemonRequest.RuntimeStatus stack =>
      open_store ;;? do? status := runtime_status stack in ret (DaemonResponse.RuntimeStatus status)
  | DaemonRequest.Routes stack => open_store ;;? do? routes := routing_snapshot stack in ret (DaemonResponse.Routes routes)
  | DaemonRequest.Invoke stack instance request timeout_ms =>
      execute_invocation state am polls final stack instance request timeout_ms
  | DaemonRequest.Events stack tail =>
      open_store ;;?
      do? events := Store.events stack in
      let keep := N.to_nat (N.min tail MAX_DAEMON_EVENTS) in
      ret (DaemonResponse.Events (drop (length events - keep) events))
  | DaemonRequest.Health stack => engine_health am stack
  | DaemonRequest.RolloutStatus _ | DaemonRequest.RolloutPrepare _ _ | DaemonRequest.RolloutActivate _ _
  | DaemonRequest.RolloutCommit _ _ | DaemonRequest.RolloutRollback _ _ => execute_rollout_request state am request
  | DaemonRequest.Plan manifest =>
      do? library := open_library state.(ds_library) am.(am_library_now) in
      do? plan := build_plan manifest library in
      ret (DaemonResponse.Planned plan)
  | DaemonRequest.Apply _ _ | DaemonRequest.Stop _ | DaemonRequest.Remove _ => execute_stack_mutation state am request
  | DaemonRequest.Shutdown => ret DaemonResponse.ShuttingDown
  end.
(** [handle_client]: from the frame that arrived to the frame that is sent back; the
    state is what the connection leaves behind.  The nonce of the response is
    random. *)
Definition handle_client (state : DaemonState) (am : Ambient) (polls : list Poll) (final : Poll) (nonce frame : bytes) :
    DaemonState * IO bytes :=
  match open_request state.(ds_codec) frame with
  | Err error => (state, fail error)
  | Ok opened =>
      match am.(am_now) 0%nat with
      | Err error => (state, fail error)
      | Ok now =>
          let (cache, accepted) := replay_accept state.(ds_replay) opened.(od_request_id) opened.(od_issued_at_ms) now in
          let state := with_replay state cache in
          match accepted with
          | Err error => (state, fail error)
          | Ok _ =>
              match opened.(od_request) with
              | DaemonRequest.Shutdown =>
                  (with_stopping state, lift (seal_response state.(ds_codec) nonce opened.(od_request_id) DaemonResponse.ShuttingDown))
              | request =>
                  (state,
                   do? r := Files.attempt (execute_request state am polls final request) in
                   let response := match r with
                                   | Ok response => response
                                   | Err error => DaemonResponse.Error "request-failed" (safe_error error)
                                   end in
                   lift (seal_response state.(ds_codec) nonce opened.(od_request_id) response))
              end
          end
      end
  end.

(** ** Advancing rollouts

    [progress.set_phase(...)?] and the other operations on a progress *)
Definition mutating (r : RolloutProgress * result string unit) : IO RolloutProgress := lift r.2 ;;? ret r.1.
Definition stopped_candidate (record : RolloutRecord) (report : StackHealthReport) : bool :=
  bool_decide (report.(hr_state) = StackHealthState.Stopped)
  && forallb (fun i => bool_decide (i.(pi_desired) = DesiredState.Stopped)) record.(candidate_plan).(sp_instances).
(** The progress of a rollout that is over *)
Definition settle_progress (progress : RolloutProgress) (interim : RolloutExecutionPhase) (from : list RolloutExecutionPhase)
    (final : RolloutExecutionPhase) (now_ms : N) : IO RolloutProgress :=
  do? progress := (if bool_decide (progress.(rp_phase) ∈ from) then mutating (set_execution_phase progress interim now_ms)
                   else ret progress) in
  if bool_decide (progress.(rp_phase) = interim) then
    do? progress := mutating (set_execution_phase progress final now_ms) in
    save_rollout_progress progress ;;? ret progress
  else ret progress.
(** An activated rollout whose progress is [Completing] *)
Definition complete_rollout (epoch : bytes) (stack : string) (record : RolloutRecord) (progress : RolloutProgress) (now_ms : N) :
    IO RolloutProgress :=
  do? report := health stack now_ms in
  if ready report || stopped_candidate record report then
    commit_rollout stack record.(ro_rollout_id) now_ms ;;?
    publish_routing_snapshot epoch stack now_ms ;;?
    do? progress := mutating (set_execution_phase progress RolloutExecutionPhase.Completed now_ms) in
    save_rollout_progress progress ;;? ret progress
  else if rollout_progress_expired progress now_ms then
    do? progress := mutating (set_execution_phase progress RolloutExecutionPhase.RollingBack now_ms) in
    publish_routing_snapshot_for_progress epoch progress now_ms ;;?
    save_rollout_progress progress ;;? ret progress
  else ret progress.
(** An activated rollout whose progress is [RollingBack] *)
Definition abandon_rollout (state : DaemonState) (am : Ambient) (stack : string) (record : RolloutRecord) (progress : RolloutProgress)
    (now_ms : N) : IO RolloutProgress :=
  verify_rollback_target state am record ;;?
  rollback_rollout am.(am_store_now) stack record.(ro_rollout_id) now_ms ;;?
  publish_routing_snapshot am.(am_epoch) stack now_ms ;;?
  do? progress := mutating (set_execution_phase progress RolloutExecutionPhase.RolledBack now_ms) in
  save_rollout_progress progress ;;? ret progress.
Definition reconcile_rollout_phase (state : DaemonState) (am : Ambient) (stack : string) (record : RolloutRecord)
    (progress : RolloutProgress) (now_ms : N) : IO (bool * RolloutProgress) :=
  match record.(ro_phase) with
  | RolloutPhase.Committed =>
      do? progress := settle_progress progress RolloutExecutionPhase.Completing
                        [RolloutExecutionPhase.Rolling; RolloutExecutionPhase.Paused] RolloutExecutionPhase.Completed now_ms in
      ret (true, progress)
  | RolloutPhase.RolledBack | RolloutPhase.Cancelled =>
      do? progress := settle_progress progress RolloutExecutionPhase.RollingBack
                        [RolloutExecutionPhase.Rolling; RolloutExecutionPhase.Paused; RolloutExecutionPhase.Completing]
                        RolloutExecutionPhase.RolledBack now_ms in
      ret (true, progress)
  | RolloutPhase.Prepared => ret (true, progress)
  | RolloutPhase.Activated =>
      match progress.(rp_phase) with
      | RolloutExecutionPhase.Completing =>
          do? progress := complete_rollout am.(am_epoch) stack record progress now_ms in ret (true, progress)
      | RolloutExecutionPhase.RollingBack =>
          do? progress := abandon_rollout state am stack record progress now_ms in ret (true, progress)
      | RolloutExecutionPhase.Rolling => ret (false, progress)
      | _ => ret (true, progress)
      end
  end.
Definition advance_active_rollout (epoch : bytes) (stack : string) (record : RolloutRecord) (progress : RolloutProgress)
    (now_ms : N) : IO unit :=
  do? previous := match record.(previous_generation) with
                  | Some generation => runtime_status_for_generation stack generation
                  | None => ret None
                  end in
  do? candidate := runtime_status_for_generation stack progress.(candidate_generation) in
  let '(progress, drained) := acknowledge_drained progress previous now_ms in
  do? drained := lift drained in
  (if 0 <? drained then save_rollout_progress progress else ret tt) ;;?
  do? decision := lift (next_action progress previous candidate now_ms) in
  let publish := fun progress =>
    publish_routing_snapshot_for_progress epoch progress now_ms ;;? save_rollout_progress progress in
  match decision.(pa_action) with
  | StartCandidate ordinals =>
      do? instance := lift (ok_or decision.(pa_instance) "rollout start has no instance") in
      do? progress := mutating (enable_candidate progress instance ordinals now_ms) in
      publish progress
  | DrainPrevious ordinals _ =>
      do? instance := lift (ok_or decision.(pa_instance) "rollout drain has no instance") in
      do? progress := mutating (request_previous_drain progress instance ordinals now_ms) in
      publish progress
  | Complete => do? progress := mutating (set_execution_phase progress RolloutExecutionPhase.Completing now_ms) in publish progress
  | Rollback _ => do? progress := mutating (set_execution_phase progress RolloutExecutionPhase.RollingBack now_ms) in publish progress
  | Wait _ => ret tt
  end.
(** One stack of [reconcile_rollouts] *)
Definition reconcile_stack (state : DaemonState) (am : Ambient) (stack : string) (now_ms : N) : IO unit :=
  do? record := rollout stack in
  match record with
  | None => ret tt
  | Some record =>
      do? progress := rollout_progress stack in
      do? progress := match progress with
                      | Some progress => ret (Some progress)
                      | None =>
                          if bool_decide (record.(ro_phase) = RolloutPhase.Activated) then
                            do? progress := begin_rollout_progress stack record.(ro_rollout_id) (N.max now_ms record.(ro_updated_at_ms)) in
                            ret (Some progress)
                          else ret None
                      end in
      match progress with
      | None => ret tt
      | Some progress =>
          let rollout_now_ms := N.max (N.max now_ms record.(ro_updated_at_ms)) progress.(rp_updated_at_ms) in
          do? (settled, progress) := reconcile_rollout_phase state am stack record progress rollout_now_ms in
          if settled : bool then ret tt
          else advance_active_rollout am.(am_epoch) stack record progress rollout_now_ms
      end
  end.
(** A pass takes one reading of the clock; the store's and the random bytes are those of
    each stack *)
Fixpoint reconcile_stacks (state : DaemonState) (am : string -> Ambient) (now_ms : N) (l : list StackStatus) : IO unit :=
  match l with
  | [] => ret tt
  | status :: l => reconcile_stack state (am status.(ss_stack)) status.(ss_stack) now_ms ;;? reconcile_stacks state am now_ms l
  end.
Definition reconcile_rollouts (state : DaemonState) (am : string -> Ambient) (now : result string N) : IO unit :=
  lock_mutation state ;;?
  open_store ;;?
  do? now_ms := lift now in
  do? statuses := list_stacks in
  reconcile_stacks state am now_ms statuses.
(** A failure of one stack's routes is reported and passed over *)
Fixpoint publish_routes (am : string -> Ambient) (now_ms : N) (l : list StackStatus) : IO unit :=
  match l with
  | [] => ret tt
  | status :: l =>
      Files.attempt (publish_routing_snapshot (am status.(ss_stack)).(am_epoch) status.(ss_stack) now_ms) ;;?
      publish_routes am now_ms l
  end.
Definition reconcile_routing (state : DaemonState) (am : string -> Ambient) (now : result string N) : IO unit :=
  lock_mutation state ;;?
  open_store ;;?
  do? now_ms := lift now in
  do? statuses := list_stacks in
  publish_routes am now_ms statuses.

(** ** Starting supervisors

    The maps outlive a failure, so a step answers them beside its result. *)
Definition Managing (A : Type) : Type := IO (Supervisors * result string A).
Definition managing {A B : Type} (s : Supervisors) (m : IO A) (k : A -> Managing B) : Managing B :=
  do? r := Files.attempt m in
  match r with
  | Ok a => k a
  | Err e => ret (s, Err e)
  end.
Definition should_run (runtime : option StackRuntimeStatus) : bool :=
  is_none_or (fun runtime => existsb unfinished runtime.(replicas)) runtime.
Definition retry_pending (ob : Observed) (s : Supervisors) (key : SupervisorKey) : bool :=
  is_some_and (fun retry => ob.(ob_now) key <? retry.(sr_deadline)) (s.(su_retries) !! key).
Definition supervise_target (ob : Observed) (max_supervisors : N) (s : Supervisors) (stack generation : string) : Managing unit :=
  let key := (stack, generation) in
  if is_some (s.(su_managed) !! key) then ret (s, Ok tt)
  else if (max_supervisors <=? N.of_nat (size s.(su_managed))) || retry_pending ob s key then ret (s, Ok tt)
  else
    managing s (runtime_status_for_generation stack generation) (fun runtime =>
      if negb (should_run runtime) then ret (mkSupervisors s.(su_managed) (delete key s.(su_retries)), Ok tt)
      else if ob.(ob_spawns) key then ret (mkSupervisors (<[key := ob.(ob_now) key]> s.(su_managed)) s.(su_retries), Ok tt)
      else ret (mkSupervisors s.(su_managed) (schedule_supervisor_retry (ob.(ob_now) key) s.(su_retries) key false), Ok tt)).
Fixpoint supervise_targets (ob : Observed) (max_supervisors : N) (s : Supervisors) (stack : string) (l : list GenerationTarget) :
    Managing unit :=
  match l with
  | [] => ret (s, Ok tt)
  | target :: l =>
      do? (s, r) := supervise_target ob max_supervisors s stack target.(gt_generation) in
      match r with
      | Err e => ret (s, Err e)
      | Ok _ => supervise_targets ob max_supervisors s stack l
      end
  end.
Fixpoint supervise_stacks (ob : Observed) (max_supervisors : N) (s : Supervisors) (authorized : gset SupervisorKey) (l : list StackStatus) :
    Managing (gset SupervisorKey) :=
  match l with
  | [] => ret (s, Ok authorized)
  | status :: l =>
      let stack := status.(ss_stack) in
      if negb (bool_decide (status.(ss_state) = EngineStackState.Applied)) then
        supervise_stacks ob max_supervisors
          (mkSupervisors s.(su_managed) (filter (fun p => p.1.1 <> stack) s.(su_retries))) authorized l
      else
        managing s (generation_targets stack) (fun targets =>
          do? (s, r) := supervise_targets ob max_supervisors s stack targets in
          match r with
          | Err e => ret (s, Err e)
          | Ok _ =>
              let authorized := authorized ∪ list_to_set ((fun t => (stack, t.(gt_generation))) <$> targets) in
              supervise_stacks ob max_supervisors s authorized l
          end)
  end.
Definition reconcile_supervisors (state : DaemonState) (ob : Observed) (s : Supervisors) :
    IO (DaemonState * Supervisors * result string unit) :=
  let s := reap ob s in
  let state := with_active state s in
  do? statuses := Files.attempt (open_store ;;? list_stacks) in
  match statuses with
  | Err e => ret (state, s, Err e)
  | Ok statuses =>
      do? (s, r) := supervise_stacks ob state.(ds_max_supervisors) s ∅ statuses in
      match r with
      | Err e => ret (state, s, Err e)
      | Ok authorized =>
          let s := mkSupervisors s.(su_managed) (filter (fun p => p.1 ∈ authorized) s.(su_retries)) in
          ret (with_active state s, s, Ok tt)
      end
  end.
(** A turn of the loop of [serve]; an error ends the daemon *)
Definition serve_pass (state : DaemonState) (am : string -> Ambient) (rollout_now routing_now : result string N) (ob : Observed)
    (s : Supervisors) : IO (DaemonState * Supervisors * result string unit) :=
  do? r := Files.attempt (reconcile_rollouts state am rollout_now ;;? reconcile_routing state am routing_now) in
  match r with
  | Err e => ret (state, s, Err e)
  | Ok _ => reconcile_supervisors state ob s
  end.
End EngineDaemon.
