(* ===== verification/InvocationTheorems.v ===== *)
(** * Theorems about invocations

    An invocation that is answered was put to one ready replica of the instance and
    answered by it in time, and leaves none of its files behind. *)
From stdpp Require Import pretty.
From S2P Require Import Prelude Text Core Storage Snapshot Directory Blob Network Manifest Resolver Archive Rolling Plan Supervisor Events Health Files Rollout Progress Store Routing RoutingTheorems Peer Host IdentityFiles RolloutStatus Release Desktop Probe Daemon Planning Replicas EngineDaemon.

Section Invocations.
Context `{Ext : Externals} `{JP : !Json StackPlan} `{JS : !Json StackRuntimeStatus} `{JE : !Json EngineEvent}
  `{JH : !Json StackHealthReport} `{JI : !Json RolloutIdentity} `{JRo : !Json RolloutRecord}
  `{JPr : !Json RolloutProgress} `{DE : !JsonDecode EngineEvent} `{DS : !JsonDecode StackRuntimeStatus}
  `{DRo : !JsonDecode RolloutRecord} `{DPr : !JsonDecode RolloutProgress}
  `{JRs : !Json RoutingSnapshot} `{DRs : !JsonDecode RoutingSnapshot}.
Context `{JIq : Json InvocationRequestEnvelope} `{DIr : JsonDecode InvocationResponseEnvelope}.

Lemma bind_attempt_Ok {A B : Type} (m : IO A) (k : result string A -> IO B) w w' b :
  bind (Files.attempt m) k w = (w', Done (Ok b)) -> exists w1 r, m w = (w1, Done r) /\ k r w1 = (w', Done (Ok b)).
Proof. unfold bind, Files.attempt. destruct (m w) as [w1 [r|]]; [|done]. intros H. by exists w1, r. Qed.
Lemma syscall_Ok {A : Type} step torn w w' (a : A) :
  syscall step torn w = (w', Done (Ok a)) -> exists d, step (disk w) = Ok (d, a) /\ disk w' = d.
Proof.
  unfold syscall. destruct (fates w) as [|[| |] ?]; (destruct (step (disk w)) as [[d x]|] eqn:Hs; [|try done]); try done; intros [= <- ->]; by exists d.
Qed.
(** Whatever a system call does, it changes the disk as its step or its torn write *)
Lemma syscall_disk {A : Type} step torn w w' (r : outcome A) :
  syscall step torn w = (w', r) -> disk w' = disk w \/ (exists a, step (disk w) = Ok (disk w', a)) \/ exists n, disk w' = torn n (disk w).
Proof.
  unfold syscall. destruct (fates w) as [|[| |] ?]; try (destruct (step (disk w)) as [[d x]|] eqn:Hs); intros [= <- <-]; cbn; eauto.
Qed.
Lemma remove_file_absent path q w w' r :
  remove_file path w = (w', r) -> read_path (disk w) q = None -> read_path (disk w') q = None.
Proof.
  unfold remove_file. intros [->|[[a Hs]|[n ->]]]%syscall_disk Hq; [done| |done]. destruct (is_some _) in Hs; [|done]. injection Hs as <- _.
  destruct (decide (path = q)) as [->|]; [apply read_remove_eq|by rewrite read_remove_ne].
Qed.
Lemma remove_invocation_absent path q w w' r :
  remove_invocation_file path w = (w', r) -> read_path (disk w) q = None -> read_path (disk w') q = None.
Proof.
  unfold remove_invocation_file, bind, exists_file. destruct (is_some _); cbn [negb]; [apply remove_file_absent|by intros [= <- _]].
Qed.
Lemma remove_invocation_Ok path w w' u : remove_invocation_file path w = (w', Done (Ok u)) -> read_path (disk w') path = None.
Proof.
  unfold remove_invocation_file, bind, exists_file. destruct (read_path (disk w) path) eqn:Hp; cbn [is_some is_none negb].
  - unfold remove_file. intros (d & Hs & ->)%syscall_Ok. rewrite Hp in Hs. cbn in Hs. injection Hs as <-. apply read_remove_eq.
  - unfold ret. intros [= <- _]. done.
Qed.
(** The three removals of the end *)
Lemma cleanup_Ok (p1 p2 p3 : Path) (result : result string DaemonResponse) w w' response :
  (do? r1 := Files.attempt (remove_invocation_file p1) in
   do? r2 := Files.attempt (remove_invocation_file p2) in
   do? r3 := Files.attempt (remove_invocation_file p3) in
   lift (result_and (result_and (result_and r1 r2) r3) result)) w = (w', Done (Ok response)) ->
  result = Ok response /\ forall q, q ∈ [p1; p2; p3] -> read_path (disk w') q = None.
Proof.
  intros (w1 & r1 & H1 & H)%bind_attempt_Ok. apply bind_attempt_Ok in H as (w2 & r2 & H2 & H). apply bind_attempt_Ok in H as (w3 & r3 & H3 & H).
  apply lift_Ok in H as [-> H]. destruct r1 as [[]|], r2 as [[]|], r3 as [[]|]; try done. split; [done|].
  pose proof (remove_invocation_Ok _ _ _ _ H1). pose proof (remove_invocation_Ok _ _ _ _ H2). pose proof (remove_invocation_Ok _ _ _ _ H3).
  intros q Hq. repeat (apply elem_of_cons in Hq as [->|Hq]; [by eauto using remove_invocation_absent|]). by apply elem_of_nil in Hq.
Qed.

(** ** Putting the request to a replica *)
Definition asked (w : World) (directory : string) (envelope : InvocationRequestEnvelope) : Prop :=
  exists content, to_vec envelope = Ok content
    /\ read_path (disk w) (directory, envelope.(iq_request).(sr_id) +:+ "." +:+ "request") = Some content.
(** A file that is created, written and moved to its place holds its content *)
Lemma staged_write_Ok tmp path content w2 w3 w4 w5 :
  tmp.1 = path.1 -> create_new tmp w2 = (w3, Done (Ok tt)) -> write_all tmp content w3 = (w4, Done (Ok tt)) -> rename tmp path w4 = (w5, Done (Ok tt)) ->
  read_path (disk w5) path = Some content.
Proof.
  intros Hdirs Hc Hw Hr. unfold create_new in Hc. apply syscall_Ok in Hc as (d3 & Hs3 & Hd3).
  destruct (disk w2 !! tmp.1) as [files|] eqn:Hdir; [|done]. destruct (is_some _) in Hs3; [done|]. injection Hs3 as <-.
  unfold write_all in Hw. apply syscall_Ok in Hw as (d4 & [= <-] & Hd4). unfold rename in Hr. apply syscall_Ok in Hr as (d5 & Hs5 & Hd5).
  assert (is_Some (disk w3 !! tmp.1)) as Hin by (rewrite Hd3; apply is_dir_write; by eexists).
  rewrite Hd4, read_write_eq in Hs5 by done. injection Hs5 as <-. rewrite Hd5. apply read_write_eq. apply is_dir_remove, is_dir_write. by rewrite <- Hdirs.
Qed.
Lemma write_new_Ok n directory name extension content w w' u :
  write_invocation_new n directory name extension content w = (w', Done (Ok u)) ->
  read_path (disk w') (directory, name +:+ "." +:+ extension) = Some content.
Proof.
  unfold write_invocation_new. destruct (_ || _); [done|]. intros (w1 & present & _ & H)%bind_Ok. destruct present; [done|].
  apply bind_Ok in H as (w2 & pid & _ & H). cbv zeta in H. set (tmp := (directory, name +:+ ".pending-" +:+ pretty pid +:+ "-" +:+ pretty n)) in *.
  apply bind_Ok in H as (w3 & [] & Hc & H). apply bind_attempt_Ok in H as (w4 & r4 & Hw & H).
  destruct r4 as [[]|]; [|by apply bind_Ok in H as (? & ? & _ & ?)].
  apply bind_attempt_Ok in H as (w5 & r5 & Hr & H). destruct r5 as [[]|]; [|by apply bind_Ok in H as (? & ? & _ & ?)].
  apply ret_Ok in H as [-> _]. by eapply (staged_write_Ok tmp).
Qed.
Lemma select_target_Ok writes stack routes request issued deadline targets w w' target directory :
  select_target writes stack routes request issued deadline targets w = (w', Done (Ok (Some (target, directory)))) ->
  target ∈ targets /\ returned (invocation_directory stack target) directory
  /\ asked w' directory (invocation_envelope stack routes target issued deadline request)
  /\ validate_invocation_request (invocation_envelope stack routes target issued deadline request) = Ok tt.
Proof.
  revert w. induction targets as [|t targets IH]; intros w; cbn [select_target]; [done|].
  intros (w1 & dir & Hd & H)%bind_Ok. apply bind_Ok in H as (w2 & count & _ & H).
  assert (forall w, select_target writes stack routes request issued deadline targets w = (w', Done (Ok (Some (target, directory)))) ->
    target ∈ t :: targets /\ returned (invocation_directory stack target) directory
    /\ asked w' directory (invocation_envelope stack routes target issued deadline request)
    /\ validate_invocation_request (invocation_envelope stack routes target issued deadline request) = Ok tt) as Hrec.
  { intros w0 [Hin Hrest]%IH. split; [by right|done]. }
  destruct (_ <=? count); [by eapply Hrec|]. cbv zeta in H. apply bind_Ok in H as (w3 & [] & Hv & H). apply bind_Ok in H as (w4 & content & Hc & H).
  apply lift_Ok in Hv as [_ Hv]. apply lift_Ok in Hc as [_ Hc]. apply bind_attempt_Ok in H as (w5 & r & Hw & H). destruct r as [[]|e].
  - apply ret_Ok in H as [-> H]. injection H as -> ->. split_and!; [by left|by eexists _, _| |done]. exists content. split; [done|]. by eapply write_new_Ok.
  - destruct (already_exists e); [by eapply Hrec|done].
Qed.

(** ** Waiting for the response *)
Definition answers (stack : string) (target : RouteTarget) (request_id : string) (deadline : N) (response : DaemonResponse) : Prop :=
  exists envelope, response = DaemonResponse.Invoked envelope.(ir_response) /\ validate_invocation_response envelope = Ok tt
    /\ envelope.(ir_stack) = stack /\ envelope.(ir_target) = target /\ envelope.(ir_request_id) = request_id
    /\ envelope.(ir_responded_at_ms) <= deadline
    /\ exists content, from_slice content = Ok envelope.
Lemma poll_once_Ok stack target id deadline path stopping expired w w' response :
  poll_once stack target id deadline path stopping expired w = (w', Done (Ok (Some response))) -> answers stack target id deadline response.
Proof.
  unfold poll_once. destruct stopping; [done|]. intros (w1 & present & _ & H)%bind_Ok. destruct present.
  - apply bind_Ok in H as (w2 & content & Hc & H). apply bind_Ok in H as (w3 & envelope & He & H). apply bind_Ok in H as (w4 & [] & Hv & H).
    apply lift_Ok in He as [_ He]. apply lift_Ok in Hv as [_ Hv].
    destruct (bool_decide_reflect (ir_stack envelope = stack)); [|done]. destruct (bool_decide_reflect (ir_target envelope = target)); [|done].
    destruct (bool_decide_reflect (ir_request_id envelope = id)); [|done]. destruct (N.ltb_spec deadline (ir_responded_at_ms envelope)); [done|].
    apply ret_Ok in H as [_ [= ->]]. exists envelope. split_and!; eauto.
  - destruct expired; [done|]. apply bind_Ok in H as (w2 & [] & _ & H). apply bind_Ok in H as (w3 & ready & _ & H). destruct ready; [|done].
    by apply ret_Ok in H as [_ ?].
Qed.
Lemma await_response_Ok stack target id deadline path polls final w w' response :
  await_response stack target id deadline path polls final w = (w', Done (Ok response)) -> answers stack target id deadline response.
Proof.
  revert w. induction polls as [|poll polls IH]; intros w; cbn [await_response].
  - intros (w1 & [] & _ & H)%bind_Ok. apply bind_Ok in H as (w2 & r & Hp & H). apply lift_Ok in H as [_ H]. destruct r as [x|]; [|done].
    cbn in H. injection H as ->. by eapply poll_once_Ok.
  - intros (w1 & [] & _ & H)%bind_Ok. apply bind_Ok in H as (w2 & r & Hp & H). destruct r as [x|]; [|by eapply IH].
    apply ret_Ok in H as [_ ->]. by eapply poll_once_Ok.
Qed.
Lemma rotated_elem instance request routes t :
  t ∈ rotated_targets instance request routes -> t ∈ routes.(rs_targets) /\ t.(rt_instance) = instance.
Proof.
  unfold rotated_targets, rotate_left. cbv zeta. intros Hin.
  assert (t ∈ List.filter (fun t => bool_decide (t.(rt_instance) = instance)) (rs_targets routes)) as Hf.
  { apply elem_of_app in Hin as [Hin|Hin]; [by apply subseteq_drop in Hin|by apply subseteq_take in Hin]. }
  apply list_elem_of_In, filter_In in Hf as [Hf ?%bool_decide_eq_true_1]. split; [by apply list_elem_of_In|done].
Qed.
End Invocations.

Section InvocationWitness.
#[local] Existing Instance demo_externals.
#[local] Instance plan_json : Json StackPlan := demo_json.
#[local] Instance status_json : Json StackRuntimeStatus := demo_json.
#[local] Instance event_json : Json EngineEvent := demo_json.
#[local] Instance record_json : Json RolloutRecord := demo_json.
#[local] Instance identity_json : Json RolloutIdentity := demo_json.
#[local] Instance progress_json : Json RolloutProgress := demo_json.
#[local] Instance report_json : Json StackHealthReport := demo_json.
#[local] Instance routing_json : Json RoutingSnapshot := demo_json.
Definition serving_plan : StackPlan :=
  mkStackPlan 4 "shop" (mkPlannedSecurity Balanced Required)
    [mkPlannedInstance "web" "dev.example.root" "1.2.3" zero_digest 4096 1 DesiredState.Running OnFailure 2
       {[Plan.Serve]} {[Plan.Serve]} ∅ {[Plan.Serve]} ∅ [] ∅ default_limits None default_policy demo_lock] [] [] [] zero_digest.
Definition serving_event : EngineEvent := mkEvent 1 1 "shop" EngineEventKind.Apply "" 7 (Some serving_plan) (hex_sha256 []).
Definition web : ReplicaId := mkReplicaId "web" 1.
Definition serving_status : StackRuntimeStatus :=
  match from_plan serving_plan 1 (hex_sha256 []) 10 with
  | Ok s => (mark_running (begin_start s web zero_digest 20).1 web zero_digest 21).1
  | Err _ => mkStatus 0 "" 0 "" 0 [] ""
  end.
Definition serving_route : RouteTarget := mkRoute "web" 1 1 (hex_sha256 []) zero_digest 20.
#[local] Instance event_decode : JsonDecode EngineEvent := fun _ => Ok serving_event.
#[local] Instance status_decode : JsonDecode StackRuntimeStatus := fun _ => Ok serving_status.
#[local] Instance record_decode : JsonDecode RolloutRecord := fun _ => Err "none".
#[local] Instance progress_decode : JsonDecode RolloutProgress := fun _ => Err "none".
#[local] Instance routing_decode : JsonDecode RoutingSnapshot := fun _ => Err "none".
#[local] Instance invocation_json : Json InvocationRequestEnvelope := fun _ => Ok [x01].
Definition web_response : ServiceResponse := mkServiceResponse 200 ∅ [x2a].
#[local] Instance response_decode : JsonDecode InvocationResponseEnvelope := fun _ =>
  Ok (mkInvocationResponse 1 "shop" serving_route zero_digest 50 web_response).
Definition serving_world : World :=
  mkWorld {[ "." := ∅; "stacks" := ∅; "stacks/shop" := ∅;
             "stacks/shop/events" := {[ event_file_name 1 := [x00] ]};
             "stacks/shop/runtime" := {[ hex_sha256 [] +:+ ".json" := [] ]} ]} 0 7 [].
Definition web_directory : string := "stacks/shop/invocations/" +:+ hex_sha256 [] +:+ "/web-1/" +:+ zero_digest.
Definition daemon_state : DaemonState := mkDaemonState "library" (mkCodec zero_digest []) 1 4 8 false ∅ 0.
Definition at_forty : Ambient := mkAmbient (fun _ => Ok 40) (Ok 40) (Ok 40) (replicate 32 x00) (fun _ => 0).
Definition greeting : ServiceRequest := mkServiceRequest zero_digest Network.GET "/" ∅ [].
(** The replica takes the request and answers between two looks *)
Definition replica_answers : Poll :=
  mkPoll (fun d => write_path (write_path (remove_path d (web_directory, zero_digest +:+ ".request")) (web_directory, zero_digest +:+ ".active") [x01])
                     (web_directory, zero_digest +:+ ".response") [x02]) false.
Definition greet : World * outcome DaemonResponse :=
  execute_invocation daemon_state at_forty [mkPoll (fun d => d) false; replica_answers] (mkPoll (fun d => d) false) "shop" "web" greeting 1000 serving_world.
End InvocationWitness.
