(* ===== verification/EngineDaemonTheorems.v ===== *)
(** * Theorems about the engine daemon

    A request acts at most once; an answered invocation is that of the replica that
    was asked and leaves no file behind; the supervisors are those of authorized
    generations and never too many. *)
From stdpp Require Import pretty.
From S2P Require Import Prelude Text Core Storage Snapshot Directory Blob Network NetworkTheorems Manifest ManifestTheorems Resolver Archive ArchiveTheorems Rolling Plan Supervisor Events Health Files Rollout Progress Store StorageSpec StoreTheorems Routing RoutingTheorems Peer PeerTheorems Host IdentityFiles RolloutStatus Release Desktop Probe Daemon DaemonTheorems Planning Replicas EngineDaemon InvocationTheorems.

Section Clients.
Context `{Ext : Externals} `{Hex : HexDecode} `{SV : !Semver} `{UC : UrlCrate} `{ZC : !ZipCrate} `{TC : !TomlCrate} `{PC : PeerCrypto}.
Context `{JD : Json LibraryDocument} `{DD : JsonDecode LibraryDocument} `{JN : !Json PlannedInstance}.
Context `{JP : !Json StackPlan} `{JS : !Json StackRuntimeStatus} `{JE : !Json EngineEvent}
  `{JH : !Json StackHealthReport} `{JI : !Json RolloutIdentity} `{JRo : !Json RolloutRecord}
  `{JPr : !Json RolloutProgress} `{DE : !JsonDecode EngineEvent} `{DS : !JsonDecode StackRuntimeStatus}
  `{DRo : !JsonDecode RolloutRecord} `{DPr : !JsonDecode RolloutProgress}
  `{JRs : !Json RoutingSnapshot} `{DRs : !JsonDecode RoutingSnapshot} `{JSt : !Json RolloutStatus.RolloutStatus}.
Context `{JIq : Json InvocationRequestEnvelope} `{DIr : JsonDecode InvocationResponseEnvelope}.
Context `{JF : Json DaemonFrame} `{DF : JsonDecode DaemonFrame} `{JQ : Json RequestEnvelope} `{DQ : JsonDecode RequestEnvelope}
  `{JA : Json ResponseEnvelope} `{DA : JsonDecode ResponseEnvelope}.

(** A connection: what it finds around it and the frame it brings *)
Record Client := mkClient { cl_am : Ambient; cl_polls : list Poll; cl_final : Poll; cl_nonce : bytes; cl_frame : bytes }.
Definition handle (s : DaemonState) (c : Client) : DaemonState * IO bytes :=
  handle_client s c.(cl_am) c.(cl_polls) c.(cl_final) c.(cl_nonce) c.(cl_frame).
(** The connections one after the other *)
Definition serve_clients (s : DaemonState) (l : list Client) : DaemonState := foldl (fun s c => (handle s c).1) s l.
(** The request a frame carries: its id and time of issue *)
Definition carried (codec : DaemonCodec) (c : Client) : option (string * N) :=
  match open_request codec c.(cl_frame) with Ok o => Some (o.(od_request_id), o.(od_issued_at_ms)) | Err _ => None end.
(** A connection that neither touches a file nor gets an answer nor stops the daemon *)
Definition inert (s : DaemonState) (c : Client) : Prop :=
  ds_stopping (handle s c).1 = s.(ds_stopping) /\ forall w, exists e, (handle s c).2 w = (w, Done (Err e)).
Fixpoint clients_clock (last : N) (l : list Client) : Prop :=
  match l with
  | [] => True
  | c :: l => match c.(cl_am).(am_now) 0%nat with Ok now => last <= now /\ clients_clock now l | Err _ => clients_clock last l end
  end.
Definition knows (s : DaemonState) (last : N) (used : list (string * N)) : Prop := remembers s.(ds_replay) last used.
Definition clock_after (last : N) (c : Client) : N := match c.(cl_am).(am_now) 0%nat with Ok now => now | Err _ => last end.

Lemma handle_codec s c : (handle s c).1.(ds_codec) = s.(ds_codec).
Proof.
  unfold handle, handle_client. destruct (open_request _ _) as [o|]; [|done]. destruct (am_now _ _) as [now|]; [|done].
  destruct (replay_accept _ _ _ _) as [cache [[]|]]; [|done]. by destruct (od_request o).
Qed.
Lemma handle_step s c last used :
  last <= clock_after last c -> knows s last used ->
  (inert s c /\ knows (handle s c).1 (clock_after last c) used)
  \/ exists x, carried s.(ds_codec) c = Some x /\ x ∉ used /\ knows (handle s c).1 (clock_after last c) (x :: used).
Proof.
  unfold clock_after, inert, knows, handle, handle_client, carried. intros Hle Hr.
  destruct (open_request _ _) as [o|e].
  2:{ left. split; [split; [done|intros w; by exists e]|]. by eapply remembers_later. }
  destruct (am_now _ _) as [now|e]; [|left; split; [split; [done|intros w; by exists e]|done]].
  pose proof (accept_step _ _ _ (od_request_id o) (od_issued_at_ms o) now Hle Hr) as Hs.
  destruct (replay_accept _ _ _ _) as [cache [[]|e]].
  - destruct Hs as [Hnew Hs]. right. exists (od_request_id o, od_issued_at_ms o). split; [done|]. split; [done|]. by destruct (od_request o).
  - left. split; [split; [done|intros w; by exists e]|done].
Qed.
Lemma clients_run s l last used :
  clients_clock last l -> knows s last used ->
  exists last' used', knows (serve_clients s l) last' used' /\ (forall x, x ∈ used -> x ∈ used') /\ (serve_clients s l).(ds_codec) = s.(ds_codec)
    /\ forall l', clients_clock last (l ++ l') -> clients_clock last' l'.
Proof.
  revert s last used. induction l as [|c l IH]; intros s last used Hc Hk; [by exists last, used|].
  assert (last <= clock_after last c /\ clients_clock (clock_after last c) l) as [Hle Hc'].
  { unfold clock_after. cbn in Hc. destruct (am_now _ _); [done|]. by split; [lia|]. }
  assert (exists used1, knows (handle s c).1 (clock_after last c) used1 /\ forall x, x ∈ used -> x ∈ used1) as (used1 & Hk1 & Hsub).
  { destruct (handle_step s c last used Hle Hk) as [[_ H]|(x & _ & _ & H)]; [by exists used|exists (x :: used); split; [done|intros; by right]]. }
  destruct (IH _ _ _ Hc' Hk1) as (last' & used' & Hk' & Hsub' & Hcodec & Hrest). exists last', used'. split; [done|]. split; [auto|].
  split; [change (serve_clients s (c :: l)) with (serve_clients (handle s c).1 l); rewrite Hcodec; apply handle_codec|]. intros l' Hl'. apply Hrest. unfold clock_after. cbn in Hl'. destruct (am_now _ _); [by destruct Hl'|done].
Qed.
Lemma clients_clock_prefix last l l' : clients_clock last (l ++ l') -> clients_clock last l.
Proof.
  revert last. induction l as [|c l IH]; intros last; [done|]. cbn. destruct (am_now _ _); [|apply IH]. intros [? ?]. split; [done|]. by apply IH.
Qed.
Lemma unopened_inert s c : carried s.(ds_codec) c = None -> inert s c.
Proof.
  unfold carried, inert, handle, handle_client. destruct (open_request _ _) as [o|e]; [done|]. intros _. split; [done|]. intros w. by exists e.
Qed.
Lemma serve_codec s l : (serve_clients s l).(ds_codec) = s.(ds_codec).
Proof.
  revert s. induction l as [|c l IH]; intros s; [done|]. change (serve_clients s (c :: l)) with (serve_clients (handle s c).1 l).
  rewrite IH. apply handle_codec.
Qed.
(** C5: A request acts at most once: however many connections arrive and whatever they
    carry, of two connections with the same request, by its id and time of issue, one
    touches no file, stops nothing and gets no answer, and so does every connection
    whose frame does not open under the daemon's key; the clock must not go back. *)
Theorem request_acts_once (s : DaemonState) (l1 l2 : list Client) (c1 c2 : Client) :
  s.(ds_replay) = ∅ -> clients_clock 0 (l1 ++ c1 :: l2 ++ [c2]) -> carried s.(ds_codec) c1 = carried s.(ds_codec) c2 ->
  (inert (serve_clients s l1) c1 \/ inert (serve_clients s (l1 ++ c1 :: l2)) c2)
  /\ (carried s.(ds_codec) c1 = None -> inert (serve_clients s l1) c1 /\ inert (serve_clients s (l1 ++ c1 :: l2)) c2).
Proof.
  intros He Hc Hsame. split.
  2:{ intros Hnone. split; apply unopened_inert; rewrite serve_codec; congruence. }
  destruct (clients_run s l1 0 []) as (last1 & used1 & Hk1 & _ & Hcodec1 & Hrest1); [by eapply clients_clock_prefix|unfold knows; rewrite He; intros ?? Hin; set_solver|].
  pose proof (Hrest1 _ Hc) as Hc1. set (s1 := serve_clients s l1) in *.
  assert (last1 <= clock_after last1 c1 /\ clients_clock (clock_after last1 c1) (l2 ++ [c2])) as [Hle1 Hc2].
  { unfold clock_after. cbn in Hc1. destruct (am_now _ _); [done|]. by split; [lia|]. }
  destruct (handle_step s1 c1 last1 used1 Hle1 Hk1) as [[Hin _]|(x & Hx & _ & Hk2)]; [by left|right].
  destruct (clients_run (handle s1 c1).1 l2 _ _ (clients_clock_prefix _ _ _ Hc2) Hk2) as (last2 & used2 & Hk3 & Hsub & Hcodec2 & Hrest2).
  pose proof (Hrest2 _ Hc2) as Hc3.
  assert (serve_clients s (l1 ++ c1 :: l2) = serve_clients (handle s1 c1).1 l2) as -> by (unfold serve_clients; by rewrite foldl_app).
  set (s2 := serve_clients (handle s1 c1).1 l2) in *.
  assert (last2 <= clock_after last2 c2) as Hle2 by (unfold clock_after; cbn in Hc3; destruct (am_now _ _); [by destruct Hc3|lia]).
  destruct (handle_step s2 c2 last2 used2 Hle2 Hk3) as [[Hin _]|(y & Hy & Hny & _)]; [done|exfalso].
  assert (y = x) as -> by (rewrite Hcodec2, handle_codec, Hcodec1, <- Hsame in Hy; rewrite Hcodec1 in Hx; congruence).
  apply Hny, Hsub. by left.
Qed.

(** ** Supervisors *)
Lemma retry_delay now retries key stable :
  exists attempts deadline, schedule_supervisor_retry now retries key stable = <[key := mkRetry attempts deadline]> retries
    /\ now + MIN_SUPERVISOR_RETRY_DELAY <= deadline <= now + MAX_SUPERVISOR_RETRY_DELAY.
Proof.
  eexists _, _. split; [reflexivity|]. match goal with |- context [N.shiftl 1 ?k] => assert (1 <= N.shiftl 1 k) as Hm end.
  { rewrite N.shiftl_1_l. pose proof (N.pow_nonzero 2). lia. }
  change MIN_SUPERVISOR_RETRY_DELAY with 250. change MAX_SUPERVISOR_RETRY_DELAY with 30000. lia.
Qed.
Definition due (ob : Observed) (retry : SupervisorRetry) (key : SupervisorKey) : Prop :=
  ob.(ob_seen_at) key + MIN_SUPERVISOR_RETRY_DELAY <= retry.(sr_deadline) <= ob.(ob_seen_at) key + MAX_SUPERVISOR_RETRY_DELAY.
Lemma reap_fold ob l s key :
  NoDup l.*1 ->
  let s' := foldl (reap_one ob) s l in
  (key ∈ l.*1 -> s'.(su_managed) !! key = None /\ exists retry, s'.(su_retries) !! key = Some retry /\ due ob retry key)
  /\ (key ∉ l.*1 -> s'.(su_managed) !! key = s.(su_managed) !! key /\ s'.(su_retries) !! key = s.(su_retries) !! key).
Proof.
  revert s. induction l as [|[k started] l IH]; intros s Hnd; cbn [foldl fmap list_fmap fst]; [split; [by intros ?%elem_of_nil|done]|].
  apply NoDup_cons in Hnd as [Hk Hnd]. destruct (IH (reap_one ob s (k, started)) Hnd) as [Hin Hout].
  destruct (retry_delay (ob_seen_at ob k) (su_retries s) k (SUPERVISOR_STABLE_WINDOW <=? ob_seen_at ob k - started)) as (a & d & Hs & Hd).
  split.
  - intros [->|Hl]%elem_of_cons; [|auto]. destruct (Hout Hk) as [-> ->]. cbn. rewrite Hs, lookup_delete_eq, lookup_insert_eq. split; [done|]. by eexists.
  - intros [Hne Hl]%not_elem_of_cons. destruct (Hout Hl) as [-> ->]. cbn. by rewrite Hs, lookup_delete_ne, lookup_insert_ne.
Qed.
Lemma reap_spec ob s key :
  let s' := reap ob s in
  (forall started, s.(su_managed) !! key = Some started -> ob.(ob_finished) key = true ->
     s'.(su_managed) !! key = None /\ exists retry, s'.(su_retries) !! key = Some retry /\ due ob retry key)
  /\ (s.(su_managed) !! key = None \/ ob.(ob_finished) key = false ->
     s'.(su_managed) !! key = s.(su_managed) !! key /\ s'.(su_retries) !! key = s.(su_retries) !! key).
Proof.
  set (l := List.filter (fun entry => ob_finished ob entry.1) (map_to_list (su_managed s))).
  assert (NoDup l.*1) as Hnd.
  { pose proof (NoDup_fst_map_to_list (su_managed s)) as H. subst l. revert H. generalize (map_to_list (su_managed s)). intros m.
    induction m as [|[k v] m IH]; [done|]. cbn. intros [Hk Hm]%NoDup_cons. destruct (ob_finished ob k); [|auto]. cbn. constructor; [|auto].
    intros ([k' v'] & Hkk & Hin)%list_elem_of_fmap. cbn in Hkk. subst k'. apply Hk. apply list_elem_of_fmap. exists (k, v'). split; [done|].
    apply list_elem_of_In in Hin. apply filter_In in Hin as [Hin _]. by apply list_elem_of_In. }
  assert (key ∈ l.*1 <-> is_Some (su_managed s !! key) /\ ob_finished ob key = true) as Hl.
  { rewrite list_elem_of_fmap. split.
    - intros ([k v] & -> & Hin). apply list_elem_of_In, filter_In in Hin as [Hin Hf]. apply list_elem_of_In, elem_of_map_to_list in Hin. by split.
    - intros [[v Hv] Hf]. exists (key, v). split; [done|]. apply list_elem_of_In, filter_In. split; [|done]. apply list_elem_of_In. by apply elem_of_map_to_list. }
  destruct (reap_fold ob l s key Hnd) as [Hin Hout]. split.
  - intros started Hs Hf. apply Hin, Hl. split; [by eexists|done].
  - intros H. apply Hout. rewrite Hl. intros [[v Hv] Hf]. destruct H; congruence.
Qed.
(** A child that this pass started *)
Definition started_now (ob : Observed) (retries : gmap SupervisorKey SupervisorRetry) (key : SupervisorKey) (started : N) : Prop :=
  started = ob.(ob_now) key /\ ob.(ob_spawns) key = true
  /\ forall retry, retries !! key = Some retry -> retry.(sr_deadline) <= ob.(ob_now) key.
(** Between the beginning of a pass, after the children that ended were taken out, and a
    point in it: [A] are the keys looked at so far, [G] the stacks passed over *)
Record pass_inv (ob : Observed) (limit : N) (A : SupervisorKey -> Prop) (G : string -> Prop) (s0 s : Supervisors) : Prop := {
  inv_size : N.of_nat (size s.(su_managed)) <= limit;
  inv_managed : forall key started, s.(su_managed) !! key = Some started ->
    s0.(su_managed) !! key = Some started
    \/ s0.(su_managed) !! key = None /\ A key /\ (~ G key.1 -> started_now ob s0.(su_retries) key started);
  inv_kept : forall key started, s0.(su_managed) !! key = Some started -> s.(su_managed) !! key = Some started;
  inv_pending : forall key retry, ~ G key.1 -> s0.(su_retries) !! key = Some retry -> ob.(ob_now) key < retry.(sr_deadline) ->
    s.(su_retries) !! key = Some retry;
}.
Lemma pass_inv_mono ob limit (A A' : SupervisorKey -> Prop) (G G' : string -> Prop) s0 s :
  (forall key, A key -> A' key) -> (forall st, G st -> G' st) -> pass_inv ob limit A G s0 s -> pass_inv ob limit A' G' s0 s.
Proof.
  intros HA HG [Hs Hm Hk Hp]. split; [done| |done|eauto]. intros key started H. destruct (Hm _ _ H) as [?|(? & ? & Hn)]; [by left|right].
  split_and!; eauto.
Qed.
Lemma supervise_target_inv ob limit A G s0 s stack generation w w' s' r :
  pass_inv ob limit A G s0 s -> A (stack, generation) ->
  supervise_target ob limit s stack generation w = (w', Done (Ok (s', r))) -> pass_inv ob limit A G s0 s'.
Proof.
  intros Hi HA. pose proof Hi as [Hs Hm Hk Hp]. unfold supervise_target. set (key := (stack, generation)) in *.
  destruct (su_managed s !! key) as [v|] eqn:Hv; cbn [is_some is_none negb]; [by intros [= <- <- <-]|].
  destruct (N.leb_spec limit (N.of_nat (size (su_managed s)))) as [|Hroom]; cbn [orb]; [by intros [= <- <- <-]|].
  destruct (retry_pending ob s key) eqn:Hpend; [by intros [= <- <- <-]|].
  assert (forall retry, ~ G key.1 -> su_retries s0 !! key = Some retry -> sr_deadline retry <= ob_now ob key) as Hdue.
  { intros retry Hg Hr. destruct (N.lt_ge_cases (ob_now ob key) (sr_deadline retry)) as [Hlt|]; [|done]. unfold retry_pending in Hpend.
    rewrite (Hp _ _ Hg Hr Hlt) in Hpend. cbn in Hpend. apply N.ltb_ge in Hpend. lia. }
  assert (forall k retry, ~ G k.1 -> su_retries s0 !! k = Some retry -> ob_now ob k < sr_deadline retry -> k <> key) as Hother.
  { intros k retry Hg Hr Hlt ->. pose proof (Hdue _ Hg Hr). lia. }
  unfold managing, bind, Files.attempt. destruct (runtime_status_for_generation _ _ _) as [w1 [[rt|e]|]]; [|by intros [= <- <- <-]|done].
  destruct (should_run rt); cbn [negb]; [destruct (ob_spawns ob key) eqn:Hsp|]; intros [= <- <- <-].
  - split; cbn [su_managed su_retries].
    + rewrite map_size_insert_None by done. lia.
    + intros k started. destruct (decide (k = key)) as [->|Hne].
      * rewrite lookup_insert_eq. intros [= <-]. right. split; [|split; [done|]].
        { destruct (su_managed s0 !! key) as [v|] eqn:H0; [|done]. apply Hk in H0. congruence. }
        intros Hg. split_and!; [done|done|]. intros retry. by apply Hdue.
      * rewrite lookup_insert_ne by done. apply Hm.
    + intros k started H. apply Hk in H. destruct (decide (k = key)) as [->|]; [congruence|]. by rewrite lookup_insert_ne.
    + done.
  - split; cbn [su_managed su_retries]; [done..|]. intros k retry Hg Hr Hlt. destruct (retry_delay (ob_now ob key) (su_retries s) key false) as (a & d & -> & _).
    rewrite lookup_insert_ne; [by apply Hp|]. intros <-. by eapply Hother.
  - split; cbn [su_managed su_retries]; [done..|]. intros k retry Hg Hr Hlt. rewrite lookup_delete_ne; [by apply Hp|]. intros <-. by eapply Hother.
Qed.
Lemma supervise_targets_inv ob limit A G s0 s stack l w w' s' r :
  pass_inv ob limit A G s0 s -> (forall t, t ∈ l -> A (stack, t.(gt_generation))) ->
  supervise_targets ob limit s stack l w = (w', Done (Ok (s', r))) -> pass_inv ob limit A G s0 s'.
Proof.
  revert s w. induction l as [|t l IH]; intros s w Hi HA; [by intros [= <- <- <-]|]. cbn [supervise_targets]. unfold bind.
  destruct (supervise_target _ _ _ _ _ _) as [w1 [[[s1 r1]|e]|]] eqn:Ht; [|done..].
  apply supervise_target_inv with (A := A) (G := G) (s0 := s0) in Ht; [|done|apply HA; by left].
  destruct r1; [|by intros [= <- <- <-]]. intros H. eapply IH; [done| |exact H]. intros t' Ht'. apply HA. by right.
Qed.
(** A generation the store named as a target of an applied stack *)
Definition authorized (statuses : list StackStatus) (key : SupervisorKey) : Prop :=
  (exists st, st ∈ statuses /\ st.(ss_stack) = key.1 /\ st.(ss_state) = EngineStackState.Applied)
  /\ exists targets t, returned (generation_targets key.1) targets /\ t ∈ targets /\ t.(gt_generation) = key.2.
Definition passed_over (statuses : list StackStatus) (stack : string) : Prop :=
  exists st, st ∈ statuses /\ st.(ss_stack) = stack /\ st.(ss_state) <> EngineStackState.Applied.
Lemma supervise_stacks_inv ob limit statuses s0 l s known w w' s' r :
  pass_inv ob limit (authorized statuses) (passed_over statuses) s0 s -> (forall st, st ∈ l -> st ∈ statuses) ->
  (forall key, key ∈ known -> authorized statuses key) ->
  supervise_stacks ob limit s known l w = (w', Done (Ok (s', r))) ->
  pass_inv ob limit (authorized statuses) (passed_over statuses) s0 s'
  /\ forall a, r = Ok a -> forall key, key ∈ a -> authorized statuses key.
Proof.
  revert s known w. induction l as [|st l IH]; intros s known w Hi Hsub Hknown; cbn [supervise_stacks].
  { intros [= <- <- <-]. split; [done|]. by intros a [= <-]. }
  destruct (bool_decide_reflect (ss_state st = EngineStackState.Applied)) as [Happ|Hnot]; cbn [negb].
  - unfold managing, bind, Files.attempt. destruct (generation_targets _ _) as [w1 [[targets|e]|]] eqn:Hg; [|by intros [= <- <- <-]|done].
    destruct (supervise_targets _ _ _ _ _ _) as [w2 [[[s1 r1]|e]|]] eqn:Ht; [|done..].
    assert (forall t, t ∈ targets -> authorized statuses (ss_stack st, gt_generation t)) as Hauth.
    { intros t Hin. split; [exists st; split_and!; [apply Hsub; by left|done|done]|]. exists targets, t. split_and!; [by eexists _, _|done|done]. }
    eapply supervise_targets_inv in Ht; [|done|exact Hauth]. destruct r1; [|by intros [= <- <- <-]].
    intros H. eapply IH; [exact Ht| | |exact H]; [intros; apply Hsub; by right|].
    intros key [Hk|Hk]%elem_of_union; [auto|]. apply elem_of_list_to_set, list_elem_of_fmap in Hk as (t & -> & Hin). auto.
  - intros H. eapply IH; [| | |exact H]; [|intros; apply Hsub; by right|done]. destruct Hi as [Hs Hm Hk Hp]. split; cbn [su_managed su_retries]; [done..|].
    intros key retry Hg Hr Hlt. apply map_lookup_filter_Some_2; [by apply Hp|]. cbn. intros Heq. apply Hg. exists st. split_and!; [apply Hsub; by left|done|done].
Qed.
(** ** The stacks of a listing are distinct *)
Lemma stack_names_NoDup d : NoDup (stack_names d).
Proof.
  unfold stack_names. rewrite (merge_sort_Permutation String.le _). pose proof (NoDup_fst_map_to_list d) as Hnd. revert Hnd.
  generalize (map_to_list d). intros l. induction l as [|[path dir] l IH]; [constructor|]. cbn [fmap list_fmap fst omap list_omap]. intros [Hp Hl]%NoDup_cons.
  assert (forall path name, match split_on "/" path with ["stacks"; name] => Some name | _ => None end = Some name ->
            path = join_slash ["stacks"; name]) as Hinv.
  { clear. intros path name H. rewrite <- (join_split path). f_equal. destruct (split_on "/" path) as [|a [|b [|]]]; [done|repeat case_match; congruence| |repeat case_match; congruence].
    repeat case_match; congruence. }
  destruct (match split_on "/" path with ["stacks"; name] => Some name | _ => None end) as [name|] eqn:Hn; [|auto].
  constructor; [|auto]. intros ([path' dir'] & Hin & Hn')%list_elem_of_omap. apply Hp. rewrite (Hinv _ _ Hn), <- (Hinv _ _ Hn').
  apply list_elem_of_fmap. by exists (path', dir').
Qed.
Lemma latest_stack stack w w' e : latest stack w = (w', Done (Ok (Some e))) -> e.(ev_stack) = stack.
Proof.
  unfold latest, events. intros (w1 & es & He & Hr)%bind_Ok. apply bind_Ok in He as (w2 & [] & _ & He). apply bind_Ok in He as (w3 & d & _ & He).
  apply lift_Ok in He as [_ He]. apply ret_Ok in Hr as [_ Hr].
  destruct (read_events_with_size _ _) as [[es' n]|] eqn:Hread; [|done]. cbn in He. injection He as ->. apply read_events_spec in Hread as (Hc & _).
  eapply chain_elem; [exact Hc|]. symmetry in Hr. by apply last_Some_elem_of.
Qed.
Lemma list_names_stacks names w w' l : list_names names w = (w', Done (Ok l)) -> sublist (ss_stack <$> l) names.
Proof.
  revert w w' l. induction names as [|name names IH]; intros w w' l; cbn [list_names]; [intros [_ ->]%ret_Ok; constructor|].
  intros (w1 & e & He & H)%bind_Ok. apply bind_Ok in H as (w2 & rest & Hrest & H). apply ret_Ok in H as [_ ->]. apply IH in Hrest.
  destruct e as [e|]; [|by constructor]. apply latest_stack in He. cbn [fmap list_fmap].
  assert (ss_stack (event_status e) = name) as -> by (by rewrite <- He). by constructor.
Qed.
Lemma list_stacks_NoDup w w' l : list_stacks w = (w', Done (Ok l)) -> NoDup (ss_stack <$> l).
Proof.
  unfold list_stacks. intros (w1 & d & _ & H)%bind_Ok. apply bind_Ok in H as (w2 & [] & _ & H). apply bind_Ok in H as (w3 & [] & _ & H).
  apply list_names_stacks in H. eapply sublist_NoDup; [apply stack_names_NoDup|exact H].
Qed.
Lemma applied_not_passed_over statuses st :
  NoDup (ss_stack <$> statuses) -> st ∈ statuses -> st.(ss_state) = EngineStackState.Applied -> ~ passed_over statuses st.(ss_stack).
Proof.
  intros Hnd Hin Happ (st' & Hin' & Heq & Hne). assert (st' = st) as ->; [|done].
  apply list_elem_of_lookup in Hin as [i Hi]. apply list_elem_of_lookup in Hin' as [j Hj].
  assert (i = j) as <- by (eapply NoDup_lookup; [exact Hnd| |]; rewrite list_lookup_fmap; [rewrite Hi; reflexivity|rewrite Hj; cbn; by rewrite Heq]). congruence.
Qed.
End Clients.

Section SupervisorWitness.
#[local] Existing Instance demo_externals.
#[local] Existing Instance InvocationTheorems.plan_json.
#[local] Existing Instance InvocationTheorems.status_json.
#[local] Existing Instance InvocationTheorems.event_json.
#[local] Existing Instance InvocationTheorems.record_json.
#[local] Existing Instance InvocationTheorems.identity_json.
#[local] Existing Instance InvocationTheorems.progress_json.
#[local] Existing Instance InvocationTheorems.event_decode.
#[local] Existing Instance InvocationTheorems.status_decode.
#[local] Existing Instance InvocationTheorems.record_decode.
#[local] Existing Instance InvocationTheorems.progress_decode.
(** The child of another stack has ended; that of the desired one is started *)
Definition old_key : SupervisorKey := ("old", zero_digest).
Definition new_key : SupervisorKey := ("shop", hex_sha256 []).
Definition all_ended : Observed := mkObserved (fun _ => true) (fun _ => 100) (fun _ => true) (fun _ => 110).
Definition pass : World * Files.outcome (DaemonState * Supervisors * result string unit)%type :=
  reconcile_supervisors daemon_state all_ended (mkSupervisors {[old_key := 10]} ∅) serving_world.
End SupervisorWitness.

Section ClientWitness.
#[local] Existing Instance demo_externals.
#[local] Existing Instance demo_hex.
#[local] Existing Instance demo_semver.
#[local] Existing Instance toy_url.
#[local] Existing Instance toy_toml.
#[local] Existing Instance toy_zip.
#[local] Existing Instance toy_crypto.
#[local] Existing Instance InvocationTheorems.plan_json.
#[local] Existing Instance InvocationTheorems.status_json.
#[local] Existing Instance InvocationTheorems.event_json.
#[local] Existing Instance InvocationTheorems.record_json.
#[local] Existing Instance InvocationTheorems.identity_json.
#[local] Existing Instance InvocationTheorems.progress_json.
#[local] Existing Instance InvocationTheorems.report_json.
#[local] Existing Instance InvocationTheorems.routing_json.
#[local] Existing Instance InvocationTheorems.event_decode.
#[local] Existing Instance InvocationTheorems.status_decode.
#[local] Existing Instance InvocationTheorems.record_decode.
#[local] Existing Instance InvocationTheorems.progress_decode.
#[local] Existing Instance InvocationTheorems.routing_decode.
#[local] Existing Instance InvocationTheorems.invocation_json.
#[local] Existing Instance InvocationTheorems.response_decode.
#[local] Existing Instance DaemonTheorems.rollout_status_json.
#[local] Existing Instance DaemonTheorems.request_json.
#[local] Existing Instance DaemonTheorems.request_decode.
#[local] Existing Instance DaemonTheorems.response_json.
#[local] Existing Instance DaemonTheorems.response_decode.
#[local] Existing Instance DaemonTheorems.frame_json.
#[local] Existing Instance DaemonTheorems.frame_decode.
#[local] Instance library_json : Json LibraryDocument := demo_json.
#[local] Instance library_decode : JsonDecode LibraryDocument := fun _ => Err "none".
#[local] Instance planned_instance_json : Json PlannedInstance := demo_json.
Definition ping_state : DaemonState := mkDaemonState "library" ping_codec 1 4 8 false ∅ 0.
(** A ping that is answered, and the same frame again a second later *)
Definition ping_at (now : N) : Client :=
  mkClient (mkAmbient (fun _ => Ok now) (Ok now) (Ok now) [] (fun _ => 0)) [] (mkPoll (fun d => d) false) (replicate 24 x03) [x00].
Lemma request_acts_once_witness :
  ((handle ping_state (ping_at 40)).2 serving_world).2 = Done (Ok [x01])
  /\ inert (serve_clients ping_state [ping_at 40]) (ping_at 1040).
Proof.
  assert (((handle ping_state (ping_at 40)).2 serving_world).2 = Done (Ok [x01])) as Hfirst by (vm_compute; reflexivity).
  split; [exact Hfirst|].
  destruct (request_acts_once ping_state [] [] (ping_at 40) (ping_at 1040)) as [[[_ H]|H] _]; [reflexivity|cbn; lia|reflexivity| |exact H].
  destruct (H serving_world) as [e He]. cbn [serve_clients foldl] in He. rewrite He in Hfirst. discriminate.
Defined.
End ClientWitness.
