(* ===== verification/ReconcileTheorems.v ===== *)
(** * What the operations of the engine leave alone

    [keeps P m]: whatever system calls of [m] fail and wherever the process dies, a
    disk in [P] stays in [P].  The operations that read the store, publish routes,
    save the progress of a rollout or open the library keep the journal and the
    checkpoint of a rollout that is in step with it. *)
From stdpp Require Import pretty.
From S2P Require Import Prelude Text Core Storage Snapshot Directory Blob Network Manifest Resolver Archive Rolling Plan Supervisor Events Health Files Rollout Progress Store StoreTheorems Routing Peer Host IdentityFiles RolloutStatus Release Desktop Probe Daemon Planning Replicas EngineDaemon.

Definition keeps {A : Type} (P : Disk -> Prop) (m : IO A) : Prop := triple P m (fun _ => P) P.
Create HintDb keep.

Section Generic.
Context (P : Disk -> Prop).
Lemma keeps_bind {A B : Type} (m : IO A) (k : A -> IO B) : keeps P m -> (forall a, keeps P (k a)) -> keeps P (bind m k).
Proof. intros Hm Hk. apply (triple_bind _ _ _ (fun _ => P)); [|done]. eapply triple_weaken; [exact Hm|done| |done]. by intros [a|e]. Qed.
Lemma keeps_ret {A : Type} (a : A) : keeps P (ret a).
Proof. by apply triple_ret. Qed.
Lemma keeps_fail {A : Type} e : keeps P (fail e : IO A).
Proof. by apply triple_fail. Qed.
Lemma keeps_lift {A : Type} (r : result string A) : keeps P (lift r).
Proof. by apply triple_lift. Qed.
Lemma keeps_attempt {A : Type} (m : IO A) : keeps P m -> keeps P (Files.attempt m).
Proof. intros Hm. by apply triple_attempt. Qed.
Lemma keeps_when b e : keeps P (when b e).
Proof. unfold when. destruct b; [apply keeps_fail|apply keeps_ret]. Qed.
Lemma keeps_exists path : keeps P (exists_file path).
Proof. by apply triple_exists. Qed.
Lemma keeps_read path : keeps P (read_file path).
Proof. by apply triple_read. Qed.
Lemma keeps_disk : keeps P read_disk.
Proof. by intros w Hw. Qed.
Lemma keeps_sequence : keeps P fetch_sequence.
Proof. by intros w Hw. Qed.
Lemma keeps_process : keeps P get_process_id.
Proof. by intros w Hw. Qed.
Lemma keeps_sync : keeps P sync_all.
Proof. by apply triple_syscall. Qed.
Lemma keeps_sync_parent : keeps P sync_parent_directory.
Proof. by apply triple_syscall. Qed.
End Generic.
#[export] Hint Resolve keeps_ret keeps_fail keeps_lift keeps_when keeps_exists keeps_read keeps_disk keeps_sequence keeps_process keeps_sync
  keeps_sync_parent : keep.

(** Files that [P] does not look at *)
Section Apart.
Context (P : Disk -> Prop) (apart : Path -> Prop).
Class Framed := {
  framed_on_write : forall d q c, apart q -> P d -> P (write_path d q c);
  framed_on_remove : forall d q, apart q -> P d -> P (remove_path d q);
  framed_on_create : forall d x, d !! x = None -> P d -> P (<[x := ∅]> d);
}.
Context `{FR : Framed}.
Lemma keeps_create q : apart q -> keeps P (create_new q).
Proof. intros Hq. apply triple_syscall; [|done]. intros d Hd. destruct (d !! q.1); [|done]. destruct (is_some _); [done|]. by apply framed_on_write. Qed.
Lemma keeps_write_all q c : apart q -> keeps P (write_all q c).
Proof. intros Hq. apply triple_syscall; [intros d Hd; by apply framed_on_write|]. intros d n Hd. split; by apply framed_on_write. Qed.
Lemma keeps_rename p q : apart p -> apart q -> keeps P (rename p q).
Proof. intros Hp Hq. apply triple_syscall; [|done]. intros d Hd. destruct (read_path d p); [|done]. by apply framed_on_write, framed_on_remove. Qed.
Lemma keeps_remove q : apart q -> keeps P (remove_file q).
Proof. intros Hq. apply triple_syscall; [|done]. intros d Hd. destruct (is_some _); [|done]. by apply framed_on_remove. Qed.
Lemma keeps_open_lock q : apart q -> keeps P (open_lock_file q).
Proof. intros Hq. apply triple_syscall; [|done]. intros d Hd. destruct (read_path d q); [done|]. by apply framed_on_write. Qed.
Lemma keeps_ensure x : keeps P (ensure_directory x).
Proof.
  intros w Hw. unfold ensure_directory. destruct (disk w !! x) eqn:Hx; cbn [is_some is_none negb]; [done|].
  assert (triple (fun d => P d /\ d !! x = None) (syscall (fun d => Ok (<[x := ∅]> d, tt)) untouched) (fun _ => P) P) as Ht.
  { apply triple_syscall; [|by intros d n [Hd _]]. intros d [Hd Hn]. by apply framed_on_create. }
  exact (Ht w (conj Hw Hx)).
Qed.
Lemma keeps_discard q : apart q -> keeps P (discard q).
Proof. intros Hq. apply keeps_bind; [by apply keeps_attempt, keeps_remove|]. intros r. apply keeps_ret. Qed.
Lemma keeps_remove_if_present q : apart q -> keeps P (remove_if_present q).
Proof. intros Hq. apply keeps_bind; [apply keeps_exists|]. intros []; [by apply keeps_remove|apply keeps_ret]. Qed.

(** A file that is replaced, with its backup and its temporary files *)
Lemma stage_apart prefix dir content :
  (forall n, staged prefix n = true -> apart (dir, n)) ->
  triple P (stage prefix dir content) (fun r d => match r with Ok q => apart q /\ P d | Err _ => P d end) P.
Proof.
  intros Hs. unfold stage. apply (triple_bind _ _ _ (fun _ => P)); [eapply triple_weaken; [apply keeps_sequence|done|by intros [|]|done]|]. intros s.
  apply (triple_bind _ _ _ (fun _ => P)); [eapply triple_weaken; [apply keeps_process|done|by intros [|]|done]|]. intros p. cbv zeta.
  pose proof (Hs _ (temporary_staged prefix p s)) as Hq. set (q0 := (dir, temporary_name prefix p s)) in *.
  apply (triple_bind _ _ _ (fun _ => P)); [eapply triple_weaken; [by apply (keeps_create q0)|done|by intros [|]|done]|]. intros _.
  apply (triple_bind _ _ _ (fun _ => P)); [eapply triple_weaken; [by apply keeps_attempt, (keeps_write_all q0)|done|by intros [|]|done]|]. intros [u|e].
  - by apply triple_ret.
  - apply (triple_bind _ _ _ (fun _ => P)); [eapply triple_weaken; [by apply (keeps_discard q0)|done|by intros [|]|done]|]. intros _. by apply triple_fail.
Qed.
Lemma keeps_replace path content :
  apart path -> apart (backup_of path) -> (forall n, staged ".runtime-status-" n = true -> apart (path.1, n)) ->
  keeps P (write_replace_atomic path content).
Proof.
  intros Hp Hb Hs. unfold write_replace_atomic. apply keeps_bind; [apply keeps_ensure|]. intros _.
  apply (triple_bind _ _ _ (fun q d => apart q /\ P d)); [by apply stage_apart|].
  intros q. apply triple_pure. intros Hq. apply keeps_bind; [apply keeps_exists|]. intros present. apply keeps_bind; [|intros _; apply keeps_sync_parent].
  destruct present; [|by apply keeps_rename]. cbv zeta. apply keeps_bind; [apply keeps_exists|]. intros [].
  - apply keeps_bind; [by apply keeps_discard|]. intros _. apply keeps_fail.
  - apply keeps_bind; [by apply keeps_rename|]. intros _. apply keeps_bind; [by apply keeps_attempt, keeps_rename|]. intros [|e]; [by apply keeps_remove|].
    apply keeps_bind; [by apply keeps_attempt, keeps_rename|]. intros _. apply keeps_bind; [by apply keeps_discard|]. intros _. apply keeps_fail.
Qed.
Lemma keeps_recover {A : Type} (parse : bytes -> result string A) path : apart path -> apart (backup_of path) -> keeps P (recover_file parse path).
Proof.
  intros Hp Hb. unfold recover_file. apply keeps_bind; [apply keeps_exists|]. intros present. apply keeps_bind; [apply keeps_exists|]. intros saved.
  destruct (negb present && saved); [|destruct (present && saved); [|apply keeps_ret]];
    (apply keeps_bind; [apply keeps_read|]; intros c; apply keeps_bind; [apply keeps_lift|]; intros _; apply keeps_bind; [|intros _; apply keeps_sync_parent]);
    [by apply keeps_rename|by apply keeps_remove].
Qed.
End Apart.
#[export] Hint Extern 2 (keeps _ (create_new _)) => eapply keeps_create; [apply _|..] : keep.
#[export] Hint Extern 2 (keeps _ (write_all _ _)) => eapply keeps_write_all; [apply _|..] : keep.
#[export] Hint Extern 2 (keeps _ (rename _ _)) => eapply keeps_rename; [apply _|..] : keep.
#[export] Hint Extern 2 (keeps _ (remove_file _)) => eapply keeps_remove; [apply _|..] : keep.
#[export] Hint Extern 2 (keeps _ (open_lock_file _)) => eapply keeps_open_lock; [apply _|..] : keep.
#[export] Hint Extern 2 (keeps _ (ensure_directory _)) => eapply keeps_ensure; [apply _|..] : keep.
#[export] Hint Extern 2 (keeps _ (discard _)) => eapply keeps_discard; [apply _|..] : keep.
#[export] Hint Extern 2 (keeps _ (remove_if_present _)) => eapply keeps_remove_if_present; [apply _|..] : keep.
(** One sequence of steps for every operation: its calls one after the other, each branch *)
Ltac keep_step :=
  first [ solve [auto 3 with keep nocore]
        | match goal with
          | |- keeps _ (bind _ _) => apply keeps_bind; [|intros ?]
          | |- keeps _ (Files.attempt _) => apply keeps_attempt
          | |- keeps _ (match ?x with _ => _ end) => destruct x
          | |- keeps _ (let '_ := ?x in _) => destruct x
          end ].
Ltac keep_all := cbv zeta; repeat (keep_step; cbv zeta).

(** ** The library *)
Section KeepLibrary.
Context `{Ext : Externals} `{Hex : HexDecode} `{SV : !Semver} `{UC : UrlCrate} `{ZC : !ZipCrate} `{TC : !TomlCrate}.
Context `{JD : Json LibraryDocument} `{DD : JsonDecode LibraryDocument} `{JP : !Json StackPlan}.
Context (P : Disk -> Prop) (apart : Path -> Prop) `{FR : !Framed P apart} (root : string).
Context (Hroot : forall n, apart (root, n)) (Hrecovery : forall n, apart (recovery_directory root, n)).
#[local] Hint Extern 1 (apart _) => first [apply Hroot | apply Hrecovery] : keep.

Lemma keeps_read_document path : keeps P (read_document path).
Proof. unfold read_document. keep_all. Qed.
Lemma keeps_document_ok path : keeps P (document_ok path).
Proof. unfold document_ok. keep_all. apply keeps_read_document. Qed.
Lemma keeps_quarantine source l : apart source -> keeps P (quarantine_at root source l).
Proof. intros Hs. induction l as [|n l IH]; cbn [quarantine_at]; keep_all. Qed.
#[local] Hint Resolve keeps_read_document keeps_document_ok keeps_quarantine : keep.
Lemma keeps_recover_library : keeps P (recover_library_document root).
Proof. unfold recover_library_document, quarantine_broken_document. keep_all. Qed.
Lemma keeps_release_write q content : apart q -> keeps P (release_write_bytes_new q content).
Proof. intros Hq. unfold release_write_bytes_new. keep_all. Qed.
Lemma keeps_save_library library : library.(lb_root) = root -> keeps P (save_library library).
Proof.
  intros Hl. unfold save_library. rewrite Hl. do 2 (apply keeps_bind; [apply keeps_lift|intros ?]). destruct (_ <? _); [apply keeps_fail|]. unfold atomic_replace.
  apply (triple_bind _ _ _ (fun q d => apart q /\ P d)).
  { unfold json_temporary. intros w Hw. split; [apply Hroot|exact Hw]. }
  intros q. apply triple_pure. intros Hq. pose proof (keeps_release_write q) as Hwrite.
  match goal with |- triple _ ?m _ _ => change (keeps P m) end. keep_all.
Qed.
#[local] Hint Resolve keeps_recover_library : keep.
Lemma keeps_open_library now : keeps P (open_library root now).
Proof. unfold open_library, quarantine_broken_document, acquire_lock. keep_all. by apply keeps_save_library. Qed.
Lemma keeps_catalog_record library id version i : keeps P (catalog_record library id version i).
Proof. unfold catalog_record, hash_file. keep_all. Qed.
#[local] Hint Resolve keeps_catalog_record : keep.
Lemma keeps_catalog_package library id version : keeps P (catalog_package library id version).
Proof. unfold catalog_package. keep_all. Qed.
Lemma keeps_open_archive record : keeps P (open_catalog_archive record).
Proof. unfold open_catalog_archive. keep_all. Qed.
#[local] Hint Resolve keeps_catalog_package keeps_open_archive : keep.
Lemma keeps_verify_packages library checked l : keeps P (verify_packages library checked l).
Proof. revert checked. induction l as [|p l IH]; intros checked; cbn [verify_packages]; unfold verify_locked_package_installed; keep_all. Qed.
#[local] Hint Resolve keeps_verify_packages : keep.
Lemma keeps_verify_installed plan library : keeps P (verify_installed plan library).
Proof.
  unfold verify_installed. apply keeps_bind; [apply keeps_lift|]. intros _. generalize (∅ : gset (string * string)).
  induction (sp_instances plan) as [|i l IH]; intros checked; cbn [verify_instances]; keep_all.
Qed.
End KeepLibrary.

(** ** The store *)
Lemma app_str_inj (a b c : string) : a +:+ b = a +:+ c -> b = c.
Proof. induction a as [|x a IH]; [done|]. rewrite !app_cons_str. intros [= H]. by apply IH. Qed.
Lemma runtime_not_events stack : runtime_dir stack <> events_dir stack.
Proof. unfold runtime_dir, events_dir. intros H%app_str_inj. done. Qed.
Lemma runtime_not_stack stack : runtime_dir stack <> stack_dir stack.
Proof.
  unfold runtime_dir. intros H. apply (f_equal String.length) in H. rewrite (length_app_str (stack_dir stack)) in H.
  change (String.length "/runtime") with 8%nat in H. lia.
Qed.
(** The files other than the journal and the checkpoint of the stack *)
Definition store_apart (stack : string) (q : Path) : Prop :=
  q.1 <> events_dir stack /\ q <> rollout_file stack /\ q <> backup_of (rollout_file stack).
Section KeepStore.
Context `{Ext : Externals} `{JP : !Json StackPlan} `{JS : !Json StackRuntimeStatus} `{JE : !Json EngineEvent}
  `{JH : !Json StackHealthReport} `{JI : !Json RolloutIdentity} `{JRo : !Json RolloutRecord}
  `{JPr : !Json RolloutProgress} `{DE : !JsonDecode EngineEvent} `{DS : !JsonDecode StackRuntimeStatus}
  `{DRo : !JsonDecode RolloutRecord} `{DPr : !JsonDecode RolloutProgress}
  `{JRs : !Json RoutingSnapshot} `{DRs : !JsonDecode RoutingSnapshot}.

#[export] Instance state_framed stack es v : Framed (state stack es v) (store_apart stack).
Proof.
  split.
  - intros d q c (He & Hr & Hb) [Hj Hv]. split; [apply (journal_dir stack es d); [by apply dir_write, not_eq_sym|done]|].
    unfold visible. by rewrite !read_write_ne.
  - intros d q (He & Hr & Hb) [Hj Hv]. split; [apply (journal_dir stack es d); [by apply dir_remove, not_eq_sym|done]|].
    unfold visible. by rewrite !read_remove_ne.
  - intros d x Hx [Hj Hv]. split; [|by rewrite visible_created]. destruct (decide (x = events_dir stack)) as [->|Hne]; [by apply journal_created|].
    apply (journal_dir stack es d); [by rewrite lookup_insert_ne|done].
Qed.
Lemma apart_stack stack name : name <> "rollout.json" -> name <> "rollout.json.previous" -> store_apart stack (stack_dir stack, name).
Proof. intros H1 H2. split; [apply dirs_differ|]. split; intros H; injection H as H; [by apply H1|by apply H2]. Qed.
Lemma apart_elsewhere stack dir name : dir <> events_dir stack -> dir <> stack_dir stack -> store_apart stack (dir, name).
Proof. intros H1 H2. split; [done|]. split; intros H; injection H as H _; by apply H2. Qed.
Lemma apart_staged stack n : staged ".runtime-status-" n = true -> store_apart stack (stack_dir stack, n).
Proof.
  intros Hs. destruct (plain_not_staged ".runtime-status-" (rollout_file stack) (stack_dir stack, n) eq_refl (plain_rollout stack) Hs) as [H1 H2].
  split; [apply dirs_differ|done].
Qed.

(** A rollout in step with its journal *)
Context (st : string) (es : list EngineEvent) (c : bytes) (r : RolloutRecord).
Context (Hparse : parse_rollout c = Ok r) (Hstack : r.(ro_stack) = st) (Hstep : recover_rollout_checkpoint r (last es) = Ok (r, false)).
Let P : Disk -> Prop := state st es (Some c).
Lemma keeps_reads {A : Type} (m : IO A) a : reads_as st es (Some c) m a -> keeps P m.
Proof. intros Hm. eapply triple_weaken; [exact Hm|done|by intros ? d [? _]|done]. Qed.
Lemma keeps_latest : keeps P (latest st).
Proof. eapply keeps_reads, reads_latest. Qed.
Lemma keeps_rollout : keeps P (rollout st).
Proof. eapply keeps_reads. by apply reads_rollout. Qed.
#[local] Hint Resolve keeps_latest keeps_rollout : keep.
#[local] Hint Extern 1 (store_apart _ _) => first
  [ apply apart_stack; discriminate
  | apply apart_elsewhere; [apply runtime_not_events|apply runtime_not_stack] ] : keep.
Lemma keeps_status_of : keeps P (status_of st).
Proof. unfold status_of. keep_all. Qed.
Lemma keeps_desired_plan : keeps P (desired_plan st).
Proof. unfold desired_plan. keep_all. Qed.
#[local] Hint Resolve keeps_status_of keeps_desired_plan : keep.
Lemma keeps_generation_target generation : keeps P (generation_target st generation).
Proof. unfold generation_target. keep_all. Qed.
#[local] Hint Resolve keeps_generation_target : keep.
Lemma keeps_generation_targets : keeps P (generation_targets st).
Proof. unfold generation_targets. keep_all. Qed.
Lemma keeps_recover_generation {A : Type} (parse : bytes -> result string A) generation : keeps P (recover_file parse (generation_file st generation)).
Proof. apply (keeps_recover P (store_apart st)); apply apart_elsewhere; first [apply runtime_not_events|apply runtime_not_stack]. Qed.
Lemma keeps_stack_file {A : Type} (parse : bytes -> result string A) name :
  name <> "rollout.json" -> name <> "rollout.json.previous" -> name +:+ ".previous" <> "rollout.json.previous" -> name +:+ ".previous" <> "rollout.json" ->
  keeps P (recover_file parse (stack_dir st, name)) /\ forall content, keeps P (write_replace_atomic (stack_dir st, name) content).
Proof.
  intros H1 H2 H3 H4. assert (store_apart st (stack_dir st, name)) by (by apply apart_stack).
  assert (store_apart st (backup_of (stack_dir st, name))) by (by apply apart_stack).
  split; [by apply (keeps_recover P (store_apart st))|]. intros content. apply (keeps_replace P (store_apart st)); [done|done|apply apart_staged].
Qed.
Lemma generation_path_triple generation :
  triple P (generation_runtime_path st generation) (fun res d => P d /\ (is_ok res = true -> res = Ok (generation_file st generation))) P.
Proof.
  unfold generation_runtime_path. apply (triple_bind _ _ _ (fun _ => P)); [eapply triple_weaken; [apply keeps_when|done|by intros [|]|done]|]. intros _.
  apply (triple_bind _ _ _ (fun _ => P)); [eapply triple_weaken; [apply (keeps_ensure P (store_apart st))|done|by intros [|]|done]|]. intros _. by apply triple_ret.
Qed.
Lemma keeps_generation_path {B : Type} generation (k : Path -> IO B) :
  keeps P (k (generation_file st generation)) -> keeps P (bind (generation_runtime_path st generation) k).
Proof.
  intros Hk. apply (triple_bind _ _ _ (fun q d => q = generation_file st generation /\ P d)).
  - eapply triple_weaken; [apply generation_path_triple|done| |done]. intros [q|e] d [Hd Hq]; [|done]. split; [|done]. specialize (Hq eq_refl). congruence.
  - intros q. apply triple_pure. by intros ->.
Qed.
Lemma stack_file_ok {A : Type} (parse : bytes -> result string A) :
  keeps P (recover_file parse (runtime_file st)) /\ keeps P (recover_file parse (progress_file st)) /\ keeps P (recover_file parse (routes_file st))
  /\ forall content, keeps P (write_replace_atomic (progress_file st) content) /\ keeps P (write_replace_atomic (routes_file st) content).
Proof. split_and!; [by apply keeps_stack_file..|]. intros content. by split; apply (keeps_stack_file parse). Qed.
#[local] Hint Extern 1 (keeps _ (recover_file _ (generation_file _ _))) => apply keeps_recover_generation : keep.
#[local] Hint Extern 1 (keeps _ (recover_file ?parse (runtime_file _))) => exact (proj1 (stack_file_ok parse)) : keep.
#[local] Hint Extern 1 (keeps _ (recover_file ?parse (progress_file _))) => exact (proj1 (proj2 (stack_file_ok parse))) : keep.
#[local] Hint Extern 1 (keeps _ (recover_file ?parse (routes_file _))) => exact (proj1 (proj2 (proj2 (stack_file_ok parse)))) : keep.
#[local] Hint Extern 1 (keeps _ (write_replace_atomic (progress_file _) _)) => apply (proj2 (proj2 (proj2 (stack_file_ok parse_rollout)))) : keep.
#[local] Hint Extern 1 (keeps _ (write_replace_atomic (routes_file _) _)) => apply (proj2 (proj2 (proj2 (stack_file_ok parse_rollout)))) : keep.
#[local] Hint Resolve keeps_generation_targets : keep.
Lemma keeps_runtime_status : keeps P (runtime_status st).
Proof.
  unfold runtime_status, recover_runtime_status, read_runtime_status. apply keeps_bind; [auto with keep|]. intros [[[revision generation] plan]|]; [|apply keeps_ret].
  apply keeps_generation_path. keep_all.
Qed.
Lemma keeps_runtime_for_generation generation : keeps P (runtime_status_for_generation st generation).
Proof.
  unfold runtime_status_for_generation, recover_runtime_status, read_runtime_status. apply keeps_bind; [auto with keep|]. intros [target|]; [|apply keeps_ret].
  apply keeps_generation_path. keep_all.
Qed.
#[local] Hint Resolve keeps_runtime_status keeps_runtime_for_generation : keep.
Lemma keeps_health now : keeps P (health st now).
Proof. unfold health. keep_all. Qed.
Lemma keeps_rollout_progress : keeps P (rollout_progress st).
Proof. unfold rollout_progress, recover_progress_file, read_progress_file. keep_all. Qed.
#[local] Hint Resolve keeps_health keeps_rollout_progress : keep.
Lemma keeps_begin_progress id now : keeps P (begin_rollout_progress st id now).
Proof. unfold begin_rollout_progress, write_progress_file. keep_all. Qed.
Lemma keeps_save_progress progress : progress.(rp_stack) = st -> keeps P (save_rollout_progress progress).
Proof. intros Hp. unfold save_rollout_progress, recover_progress_file, write_progress_file. rewrite Hp. keep_all. Qed.
Lemma keeps_routing_targets progress : keeps P (routing_targets st progress).
Proof.
  unfold routing_targets. assert (forall l ts, keeps P (route_generations st progress ts l)) as Hg.
  { intros l. induction l as [|g l IH]; intros ts; cbn [route_generations]; keep_all. }
  keep_all.
Qed.
#[local] Hint Resolve keeps_routing_targets : keep.
Lemma keeps_reset_routing : keeps P (reset_invalid_routing_files (routes_file st)).
Proof. unfold reset_invalid_routing_files, remove_artifact. keep_all. Qed.
#[local] Hint Resolve keeps_reset_routing : keep.
Lemma keeps_publish_inner epoch progress now : keeps P (publish_routing_snapshot_inner epoch st progress now).
Proof. unfold publish_routing_snapshot_inner, routing_snapshot_for_publish, recover_routing_file, read_routing_file, write_routing_file. keep_all. Qed.
#[local] Hint Resolve keeps_publish_inner : keep.
Lemma keeps_publish epoch now : keeps P (publish_routing_snapshot epoch st now).
Proof. unfold publish_routing_snapshot, active_routing_progress. keep_all. Qed.
Lemma keeps_publish_for_progress epoch progress now : progress.(rp_stack) = st -> keeps P (publish_routing_snapshot_for_progress epoch progress now).
Proof. intros Hp. unfold publish_routing_snapshot_for_progress. rewrite Hp. keep_all. Qed.
End KeepStore.

(** * Theorems about the reconciliation of rollouts

    A pass of the daemon over a stack moves its rollout only the way the recorded
    progress asks for, wherever it is cut short; and a replica that is started again
    while its rollout completes ends the daemon. *)
From S2P Require Import NetworkTheorems ManifestTheorems ArchiveTheorems RoutingTheorems InvocationTheorems.

Section Reconcile.
Context `{Ext : Externals} `{Hex : HexDecode} `{SV : !Semver} `{UC : UrlCrate} `{ZC : !ZipCrate} `{TC : !TomlCrate}.
Context `{JD : Json LibraryDocument} `{DD : JsonDecode LibraryDocument} `{JN : !Json PlannedInstance}.
Context `{JP : !Json StackPlan} `{JS : !Json StackRuntimeStatus} `{JE : !Json EngineEvent}
  `{JH : !Json StackHealthReport} `{JI : !Json RolloutIdentity} `{JRo : !Json RolloutRecord}
  `{JPr : !Json RolloutProgress} `{DE : !JsonDecode EngineEvent} `{DS : !JsonDecode StackRuntimeStatus}
  `{DRo : !JsonDecode RolloutRecord} `{DPr : !JsonDecode RolloutProgress}
  `{JRs : !Json RoutingSnapshot} `{DRs : !JsonDecode RoutingSnapshot}.
Context `{RTE : !JsonRoundTrip EngineEvent} `{RTRo : !JsonRoundTrip RolloutRecord} `{Unlinked : !EventsUnlinked}.

(** ** The stack of a progress *)
Lemma refresh_stack p : (refresh_progress p).1.(rp_stack) = p.(rp_stack).
Proof. unfold refresh_progress. by destruct (progress_computed_sha256 _). Qed.
Lemma mark_stack p now : (mark_progress p now).1.(rp_stack) = p.(rp_stack).
Proof. unfold mark_progress. destruct (ok_or _ _); [by rewrite refresh_stack|done]. Qed.
Lemma phase_stack p next now : (set_execution_phase p next now).1.(rp_stack) = p.(rp_stack).
Proof. unfold set_execution_phase. destruct (ensure_time p now); [|done]. destruct (negb _); [done|]. by rewrite mark_stack. Qed.
Lemma enable_stack p i l now : (enable_candidate p i l now).1.(rp_stack) = p.(rp_stack).
Proof.
  unfold enable_candidate. destruct (ensure_mutable p now); [|done]. destruct l; [done|]. destruct (instance_mut p i); [|done].
  destruct (existsb _ _); [done|]. by rewrite mark_stack.
Qed.
Lemma drain_stack p i l now : (request_previous_drain p i l now).1.(rp_stack) = p.(rp_stack).
Proof.
  unfold request_previous_drain. destruct (ensure_mutable p now); [|done]. destruct l; [done|]. destruct (instance_mut p i); [|done].
  destruct (ok_or _ _); [|done]. destruct (existsb _ _); [done|]. by rewrite mark_stack.
Qed.
Lemma acknowledge_stack p previous now : (acknowledge_drained p previous now).1.(rp_stack) = p.(rp_stack).
Proof.
  unfold acknowledge_drained. destruct (ensure_mutable p now); [|done]. destruct (validate_runtime _ _ _ _); [|done]. destruct previous; [|done].
  destruct (_ <? _); [|done]. set (q := with_instances _ _). pose proof (mark_stack q now) as H. destruct (mark_progress q now) as [q' [[]|]]; exact H.
Qed.

(** ** Runs with their answers *)
Lemma triple_answer {A : Type} P (m : IO A) Q C :
  triple P m Q C -> triple P m (fun r d => Q r d /\ forall a, r = Ok a -> RoutingTheorems.returned m a) C.
Proof. intros Hm w Hw. specialize (Hm w Hw). destruct (m w) as [w' [r|]] eqn:Hrun; [|done]. split; [done|]. intros a ->. by exists w, w'. Qed.
Lemma triple_conj {A : Type} P (m : IO A) Q Q' C C' : triple P m Q C -> triple P m Q' C' -> triple P m (fun r d => Q r d /\ Q' r d) (fun d => C d /\ C' d).
Proof. intros H1 H2 w Hw. specialize (H1 w Hw). specialize (H2 w Hw). by destruct (m w) as [w' [r|]]. Qed.
Lemma keeps_triple {A : Type} P (m : IO A) (Q : result string A -> Disk -> Prop) C :
  keeps P m -> (forall r d, P d -> Q r d) -> (forall d, P d -> C d) -> triple P m Q C.
Proof. intros Hm HQ HC. by eapply triple_weaken. Qed.
Lemma keeps_then {A B : Type} P (m : IO A) (k : A -> IO B) Q C :
  keeps P m -> (forall e d, P d -> Q (Err e) d) -> (forall d, P d -> C d) -> (forall a, RoutingTheorems.returned m a -> triple P (k a) Q C) ->
  triple P (bind m k) Q C.
Proof.
  intros Hm HQ HC Hk. apply (triple_bind _ _ _ (fun a d => RoutingTheorems.returned m a /\ P d)).
  - eapply triple_weaken; [apply triple_answer, Hm|done| |done]. intros [a|e] d [Hd Ha]; [split; [by apply Ha|done]|by apply HQ].
  - intros a. apply triple_pure. apply Hk.
Qed.

(** ** Committing *)
Definition commit_of (st : string) (r r' : RolloutRecord) : Prop :=
  r'.(ro_phase) = RolloutPhase.Committed /\ r'.(ro_rollout_id) = r.(ro_rollout_id) /\ r'.(candidate_plan) = r.(candidate_plan)
  /\ r'.(activated_generation) = r.(activated_generation)
  /\ exists now report, RoutingTheorems.returned (health st now) report /\ r'.(health_report_sha256) = Some report.(report_sha256)
       /\ (ready report = true \/ report.(hr_state) = StackHealthState.Stopped).
(** The record stands beside its journal and is in step with it *)
Definition stands (st : string) (es : list EngineEvent) (r : RolloutRecord) (d : Disk) : Prop :=
  exists c, parse_rollout c = Ok r /\ r.(ro_stack) = st /\ recover_rollout_checkpoint r (last es) = Ok (r, false) /\ state st es (Some c) d.
Lemma refresh_fields r r' : refresh_record r = Ok r' -> exists sha, r' = with_record_sha256 r sha.
Proof.
  unfold refresh_record. destruct (record_computed_sha256 _) as [sha|]; [|done]. cbn. destruct (validate_record _); [|done]. intros [= <-]. by exists sha.
Qed.
Lemma commit_rollout_triple st es c r rid now :
  parse_rollout c = Ok r -> r.(ro_stack) = st -> recover_rollout_checkpoint r (last es) = Ok (r, false) -> r.(ro_phase) = RolloutPhase.Activated ->
  let S d := state st es (Some c) d \/ exists r', commit_of st r r' /\ stands st es r' d in
  triple (state st es (Some c)) (commit_rollout st rid now)
    (fun res d => match res with Ok r' => commit_of st r r' /\ stands st es r' d | Err _ => S d end) S.
Proof.
  intros Hparse Hst Hstep Hph S. unfold commit_rollout.
  apply (reads_bind _ _ _ _ _ r); [by apply reads_require|by left|by left|]. rewrite Hph.
  apply lift_bind; [by left|]. intros [] Htime. apply (reads_bind _ _ _ _ _ (last es)); [apply reads_latest|by left|by left|].
  apply lift_bind; [by left|]. intros _ _. apply keeps_then; [apply keeps_health|by left|by left|]. intros report Hreport. cbv zeta.
  match goal with |- context [when (negb (ready report) && negb ?b) _] => destruct (negb (ready report) && negb b) eqn:Hok end.
  { apply keeps_then; [apply keeps_when|by left|by left|]. intros [] (w1 & w2 & H). by apply when_Ok in H as [_ ?]. }
  apply keeps_then; [apply keeps_when|by left|by left|]. intros _ _.
  apply keeps_then; [|by left|by left|].
  { destruct (bool_decide (hr_state report = StackHealthState.Healthy)); [|apply keeps_ret]. apply keeps_bind; [apply keeps_runtime_status|]. intros rt.
    apply keeps_bind; [apply keeps_lift|]. intros x. apply keeps_when. }
  intros _ _. apply lift_bind; [by left|]. intros r' Hr'. destruct (refresh_fields _ _ Hr') as [sha Hfields].
  assert (commit_of st r r') as Hcommit.
  { rewrite Hfields. split_and!; [done..|]. exists now, report. split_and!; [done..|]. apply andb_false_iff in Hok as [Hok|Hok]; apply negb_false_iff in Hok; [by left|right].
    apply andb_true_iff in Hok as [Hok _]. apply andb_true_iff in Hok as [Hok _]. by apply bool_decide_eq_true_1 in Hok. }
  assert (forall d c', parse_rollout c' = Ok r' -> state st es (Some c') d -> stands st es r' d) as Hstands.
  { intros d c' Hc' Hs. exists c'. split_and!; [done|by rewrite Hfields| |done]. rewrite Hfields. done. }
  apply (triple_bind _ _ _ (fun _ d => stands st es r' d)).
  { eapply triple_weaken; [apply write_rollout_triple|done| |].
    - intros [u|e] d; [intros (c' & ? & ?); by eapply Hstands|]. intros [?|(c' & ? & ?)]; [by left|right; eauto].
    - intros d [?|(c' & ? & ?)]; [by left|right; eauto]. }
  intros _. apply triple_ret. intros d Hd. done.
Qed.

(** ** A pass over one stack *)
Definition moved (st : string) (es : list EngineEvent) (r : RolloutRecord) (p : RolloutProgress) (d : Disk) : Prop :=
  exists es' v' r', state st es' v' d /\ checkpoint st es' v' = Ok (Some r')
    /\ ((es' = es /\ r' = r)
        \/ (es' = es /\ p.(rp_phase) = RolloutExecutionPhase.Completing /\ commit_of st r r')
        \/ exists e, es' = es ++ [e] /\ p.(rp_phase) = RolloutExecutionPhase.RollingBack /\ rollback_of r e r').
Lemma triple_ex {A X : Type} (P : X -> Disk -> Prop) (m : IO A) Q C : (forall x, triple (P x) m Q C) -> triple (fun d => exists x, P x d) m Q C.
Proof. intros H w [x Hw]. exact (H x w Hw). Qed.
Lemma keeps_mutating {B : Type} P (r : RolloutProgress * result string unit) (k : RolloutProgress -> IO B) : keeps P (k r.1) -> keeps P (bind (mutating r) k).
Proof. intros Hk w Hw. unfold mutating, bind, lift, ret. destruct r as [p [u|e]]; cbn; [by apply (Hk w)|exact Hw]. Qed.
Lemma stands_checkpoint st es r d : stands st es r d -> exists v, state st es v d /\ checkpoint st es v = Ok (Some r).
Proof. intros (c & Hp & Hs & Hr & Hd). exists (Some c). split; [done|]. by apply checkpoint_settled. Qed.
Lemma stands_keeps {A : Type} st es r (m : IO A) :
  (forall c, parse_rollout c = Ok r -> r.(ro_stack) = st -> recover_rollout_checkpoint r (last es) = Ok (r, false) -> keeps (state st es (Some c)) m) ->
  keeps (stands st es r) m.
Proof.
  intros H. apply triple_ex. intros c. apply triple_pure. intros Hp. apply triple_pure. intros Hs. apply triple_pure. intros Hr.
  eapply triple_weaken; [by apply H|done| |]; intros; by exists c.
Qed.
(** Publishing and saving after the record was written *)
Lemma keeps_finish st es c r epoch p next now :
  parse_rollout c = Ok r -> r.(ro_stack) = st -> recover_rollout_checkpoint r (last es) = Ok (r, false) -> p.(rp_stack) = st ->
  keeps (state st es (Some c))
    (publish_routing_snapshot epoch st now ;;?
     do? p := mutating (set_execution_phase p next now) in
     save_rollout_progress p ;;? ret p).
Proof.
  intros Hp Hs Hr Hst. apply keeps_bind; [by apply (keeps_publish st es c r)|]. intros _. apply keeps_mutating.
  apply keeps_bind; [apply (keeps_save_progress st es c r); [done..|]; by rewrite phase_stack|]. intros _. apply keeps_ret.
Qed.
Lemma complete_triple st es c r epoch p now :
  parse_rollout c = Ok r -> r.(ro_stack) = st -> recover_rollout_checkpoint r (last es) = Ok (r, false) -> r.(ro_phase) = RolloutPhase.Activated ->
  p.(rp_stack) = st -> p.(rp_phase) = RolloutExecutionPhase.Completing ->
  triple (state st es (Some c)) (complete_rollout epoch st r p now) (fun _ => moved st es r p) (moved st es r p).
Proof.
  intros Hparse Hst Hstep Hph Hp Hcomp.
  assert (forall d, state st es (Some c) d -> moved st es r p d) as Hsame.
  { intros d Hd. exists es, (Some c), r. split_and!; [done|by apply checkpoint_settled|by left]. }
  assert (forall r' d, commit_of st r r' -> stands st es r' d -> moved st es r p d) as Hdone.
  { intros r' d Hc Hd. destruct (stands_checkpoint _ _ _ _ Hd) as (v & Hs & Hv). exists es, v, r'. split_and!; [done..|]. right. by left. }
  unfold complete_rollout. apply keeps_then; [apply keeps_health|by auto..|]. intros report Hreport. destruct (_ || _).
  - apply (triple_bind _ _ _ (fun r' d => commit_of st r r' /\ stands st es r' d)).
    { eapply triple_weaken; [by apply commit_rollout_triple|done| |]; [intros [r'|e] d; [done|]|intros d]; (intros [?|(r' & ? & ?)]; [by apply Hsame|by eapply Hdone]). }
    intros r'. apply triple_pure. intros Hc. apply (keeps_triple (stands st es r')); [|intros _ d; by apply Hdone|intros d; by apply Hdone].
    apply stands_keeps. intros c' Hp' Hs' Hr'. by apply (keeps_finish st es c' r').
  - destruct (rollout_progress_expired p now); [|by apply triple_ret]. apply (keeps_triple (state st es (Some c))); [|by auto..].
    apply keeps_mutating. apply keeps_bind; [apply (keeps_publish_for_progress st es c r); [done..|]; by rewrite phase_stack|]. intros _.
    apply keeps_bind; [apply (keeps_save_progress st es c r); [done..|]; by rewrite phase_stack|]. intros _. apply keeps_ret.
Qed.

(** ** Rolling back *)
Lemma rollback_written st es c r clock rid now :
  parse_rollout c = Ok r -> r.(ro_stack) = st -> recover_rollout_checkpoint r (last es) = Ok (r, false) -> r.(ro_phase) = RolloutPhase.Activated ->
  triple (state st es (Some c)) (rollback_rollout clock st rid now)
    (fun res d => match res with Ok x => exists e, stands st (es ++ [e]) x d | Err _ => True end) (fun _ => True).
Proof.
  intros Hparse Hst Hstep Hph. unfold rollback_rollout.
  pose proof (proj1 (proj1 (validate_record_iff r) (parse_valid _ _ Hparse))) as Hok.
  apply (reads_bind _ _ _ _ _ r); [by apply reads_require|done|done|]. rewrite Hph. apply lift_bind; [done|]. intros [] _.
  apply (reads_bind _ _ _ _ _ (last es)); [apply reads_latest|done|done|]. apply lift_bind; [done|]. intros _ _.
  apply lift_bind; [done|]. intros [kind plan] Htgt. apply lift_bind; [done|]. intros e He.
  destruct (activated_in_step r es Hph Hstep) as (x & Hlast & _ & _).
  set (next := with_rollback (with_phase r RolloutPhase.RolledBack now) e).
  assert (exists r', (forall y, refresh_record next = Ok y -> y = r') /\ r'.(ro_phase) = RolloutPhase.RolledBack /\ r'.(ro_stack) = st) as (r' & Hr' & Hph' & Hst').
  { destruct (refresh_record next) as [y|] eqn:Hy; [|exists next; split_and!; [done|done|exact Hst]].
    destruct (refresh_fields _ _ Hy) as [sha ->]. exists (with_record_sha256 next sha). split_and!; [congruence|done|exact Hst]. }
  intros w Hw. destruct (Hw) as [Hj _]. destruct (journal_revision _ _ _ _ Hj Hlast) as [_ Hxst]. revert w Hw Hj.
  assert (e.(ev_stack) = st) as Hes.
  { unfold next_event in He. rewrite Hlast in He. cbn [from_option] in He.
    destruct (match sp_stack <$> plan with Some s => Some s | None => ev_stack <$> Some x end) as [s|] eqn:Hs; [|done]. cbn [ok_or] in He.
    apply new_event_inv in He as (_ & _ & -> & _). destruct plan as [q|]; cbn in Hs; injection Hs as <-; [|done].
    by rewrite (rollback_target_stack r kind (Some q) q Hok Htgt eq_refl). }
  enough (triple (state st es (Some c)) (append e ;;? (do? record := lift (refresh_record next) in write_rollout_file (rollout_file st) record ;;? ret record))
    (fun res d => match res with Ok x => exists e, stands st (es ++ [e]) x d | Err _ => True end) (fun _ => True)) as Ht by (intros w Hw _; exact (Ht w Hw)).
  eapply triple_weaken; [apply (record_event_triple st es c e next r' Hes Hr')|done| |done].
  intros [z|] d; [|done]. intros (-> & c' & Hc' & Hs). exists e, c'. split_and!; [done..| |done]. unfold recover_rollout_checkpoint. by rewrite Hph'.
Qed.
Lemma rollback_triple st es c r clock rid now d0 :
  (forall kind plan e, rollback_target r = Ok (kind, plan) -> next_event clock (last es) kind plan = Ok e ->
     event_fits r now e (fun t => with_rollback (with_phase r RolloutPhase.RolledBack t) e)) ->
  state st es (Some c) d0 -> parse_rollout c = Ok r -> r.(ro_stack) = st -> recover_rollout_checkpoint r (last es) = Ok (r, false) ->
  r.(ro_phase) = RolloutPhase.Activated ->
  triple (state st es (Some c)) (rollback_rollout clock st rid now)
    (fun res => settled st es r (rollback_of r) (match res with Ok x => Some x | Err _ => None end)) (settled st es r (rollback_of r) None).
Proof.
  intros Hfits H0 Hparse Hst Hstep Hph. unfold rollback_rollout.
  assert (forall d, state st es (Some c) d -> settled st es r (rollback_of r) None d) as Hsame by (intros d; by apply settled_unchanged).
  apply (reads_bind _ _ _ _ _ r); [by apply reads_require|done|done|]. rewrite Hph. apply lift_bind; [done|]. intros [] Htime.
  apply (reads_bind _ _ _ _ _ (last es)); [apply reads_latest|done|done|]. apply lift_bind; [done|]. intros _ _.
  by apply (rollback_tail_triple st es c r clock now d0).
Qed.
Lemma abandon_triple st es c r state0 am p now d0 :
  (forall n, store_apart st (state0.(ds_library), n)) -> (forall n, store_apart st (recovery_directory state0.(ds_library), n)) ->
  (forall kind plan e, rollback_target r = Ok (kind, plan) -> next_event am.(am_store_now) (last es) kind plan = Ok e ->
     event_fits r now e (fun t => with_rollback (with_phase r RolloutPhase.RolledBack t) e)) ->
  state st es (Some c) d0 -> parse_rollout c = Ok r -> r.(ro_stack) = st -> recover_rollout_checkpoint r (last es) = Ok (r, false) ->
  r.(ro_phase) = RolloutPhase.Activated -> p.(rp_stack) = st -> p.(rp_phase) = RolloutExecutionPhase.RollingBack ->
  triple (state st es (Some c)) (abandon_rollout state0 am st r p now) (fun _ => moved st es r p) (moved st es r p).
Proof.
  intros Hlib Hrecovery Hfits H0 Hparse Hst Hstep Hph Hp Hback.
  assert (forall d, state st es (Some c) d -> moved st es r p d) as Hsame.
  { intros d Hd. exists es, (Some c), r. split_and!; [done|by apply checkpoint_settled|by left]. }
  assert (forall x e d, rollback_of r e x -> stands st (es ++ [e]) x d -> moved st es r p d) as Hdone.
  { intros x e d Hx Hd. destruct (stands_checkpoint _ _ _ _ Hd) as (v & Hs & Hv). exists (es ++ [e]), v, x. split_and!; [done..|]. right; right. by exists e. }
  assert (forall d, settled st es r (rollback_of r) None d -> moved st es r p d) as Hsettled.
  { intros d (es' & v' & Hs & [(-> & Hv & _)|(e & r' & -> & Hv & Hr & _)]); [exists es, v', r; split_and!; [done..|by left]|].
    exists (es ++ [e]), v', r'. split_and!; [done..|]. right; right. by exists e. }
  unfold abandon_rollout. apply keeps_then; [|by auto..|].
  { unfold verify_rollback_target, require_installed. destruct (previous_plan r); [|apply keeps_ret].
    apply keeps_bind; [by apply (keeps_open_library _ (store_apart st))|]. intros l. apply keeps_verify_installed. }
  intros _ _. apply (triple_bind _ _ _ (fun x d => exists e, rollback_of r e x /\ stands st (es ++ [e]) x d)).
  - eapply triple_weaken; [apply triple_conj; [by apply (rollback_triple st es c r _ _ _ d0)|by apply (rollback_written st es c r)]|done| |by intros d [? _]; auto].
    intros [x|e] d; [|intros [? _]; auto]. intros [(es' & v' & Hs & [(_ & _ & [=])|(e & r' & -> & Hv & Hr & Hx)]) (e' & Hstands)].
    assert (e' = e) as ->.
    { destruct Hstands as (c' & _ & _ & _ & [Hj _]). destruct Hs as [Hj' _].
      assert (es ++ [e'] = es ++ [e]) as Heq%app_inv_head by (by eapply journal_fun). congruence. }
    exists e. rewrite <- (Hx x eq_refl) in Hr. done.
  - intros x. apply triple_ex. intros e. apply triple_pure. intros Hx. apply (keeps_triple (stands st (es ++ [e]) x)); [|intros _ d; by apply Hdone|intros d; by apply Hdone].
    apply stands_keeps. intros c' Hp' Hs' Hr'. by apply (keeps_finish st (es ++ [e]) c' x).
Qed.
(** ** Advancing *)
Lemma keeps_advance st es c r r0 epoch p now :
  parse_rollout c = Ok r -> r.(ro_stack) = st -> recover_rollout_checkpoint r (last es) = Ok (r, false) -> p.(rp_stack) = st ->
  keeps (state st es (Some c)) (advance_active_rollout epoch st r0 p now).
Proof.
  intros Hparse Hst Hstep Hp. unfold advance_active_rollout.
  assert (forall p', p'.(rp_stack) = st -> keeps (state st es (Some c)) (publish_routing_snapshot_for_progress epoch p' now ;;? save_rollout_progress p')) as Hpub.
  { intros p' Hp'. apply keeps_bind; [by apply (keeps_publish_for_progress st es c r)|]. intros _. by apply (keeps_save_progress st es c r). }
  apply keeps_bind; [destruct (previous_generation r0); [by apply (keeps_runtime_for_generation st es c r)|apply keeps_ret]|]. intros previous.
  apply keeps_bind; [by apply (keeps_runtime_for_generation st es c r)|]. intros candidate.
  pose proof (acknowledge_stack p previous now) as Ha. destruct (acknowledge_drained p previous now) as [q drained]. cbn [fst] in Ha. rewrite Hp in Ha.
  apply keeps_bind; [apply keeps_lift|]. intros n. apply keeps_bind; [destruct (0 <? n); [by apply (keeps_save_progress st es c r)|apply keeps_ret]|]. intros _.
  apply keeps_bind; [apply keeps_lift|]. intros decision. cbv zeta. destruct (pa_action decision); [| |apply keeps_ret| |].
  - apply keeps_bind; [apply keeps_lift|]. intros i. apply keeps_mutating, Hpub. by rewrite enable_stack.
  - apply keeps_bind; [apply keeps_lift|]. intros i. apply keeps_mutating, Hpub. by rewrite drain_stack.
  - apply keeps_mutating, Hpub. by rewrite phase_stack.
  - apply keeps_mutating, Hpub. by rewrite phase_stack.
Qed.

(** ** The progress a pass works on *)
Definition progress_of (st : string) (p : RolloutProgress) : Prop :=
  p.(rp_stack) = st /\ (RoutingTheorems.returned (rollout_progress st) (Some p) \/ p.(rp_phase) = RolloutExecutionPhase.Rolling).
Lemma rollout_progress_read st p :
  RoutingTheorems.returned (rollout_progress st) (Some p) -> p.(rp_stack) = st /\ exists content, parse_progress content = Ok p.
Proof.
  intros (w & w' & H). unfold rollout_progress in H. apply bind_Ok in H as (w1 & [] & _ & H). cbv zeta in H. apply bind_Ok in H as (w2 & [] & _ & H).
  apply bind_Ok in H as (w3 & present & _ & H). destruct present; [|by apply ret_Ok in H as [_ ?]]. cbn [negb] in H.
  apply bind_Ok in H as (w4 & q & Hq & H). apply bind_Ok in H as (w5 & [] & Hw & H). apply when_Ok in Hw as [_ Hw].
  apply bind_Ok in H as (w6 & x & _ & H). apply bind_Ok in H as (w7 & y & _ & H). apply bind_Ok in H as (w8 & [] & _ & H). apply ret_Ok in H as [_ [= ->]].
  apply negb_false_iff, bool_decide_eq_true_1 in Hw. split; [done|]. unfold read_progress_file in Hq. apply bind_Ok in Hq as (w9 & content & _ & Hq).
  apply lift_Ok in Hq as [_ Hq]. by exists content.
Qed.
Lemma from_rollout_fields r now p : from_rollout r now = Ok p -> p.(rp_stack) = r.(ro_stack) /\ p.(rp_phase) = RolloutExecutionPhase.Rolling.
Proof.
  unfold from_rollout. destruct (validate_record r); [|done]. cbn. destruct (_ || _); [done|]. destruct (ok_or _ _) as [generation|]; [|done].
  destruct (instance_transitions _ _ _) as [l|]; [|done]. cbn. destruct (ok_or _ _) as [revision|]; [|done]. cbn. unfold refresh_progress.
  destruct (progress_computed_sha256 _) as [sha|]; [|done]. cbn. destruct (validate_progress _); [|done]. by intros [= <-].
Qed.
Lemma begin_triple st es c r id now :
  parse_rollout c = Ok r -> r.(ro_stack) = st -> recover_rollout_checkpoint r (last es) = Ok (r, false) ->
  triple (state st es (Some c)) (begin_rollout_progress st id now)
    (fun res d => state st es (Some c) d /\ forall p, res = Ok p -> progress_of st p) (state st es (Some c)).
Proof.
  intros Hparse Hst Hstep. unfold begin_rollout_progress. apply keeps_then; [by apply (keeps_rollout_progress st es c r)|by split|done|].
  intros [p|] Hp.
  - destruct (bool_decide _); [|by apply triple_fail]. apply triple_ret. intros d Hd. split; [done|]. intros ? [= <-].
    split; [by apply rollout_progress_read|by left].
  - apply (reads_bind _ _ _ _ _ (Some r)); [by apply reads_rollout|by split|done|]. cbn [ok_or]. apply lift_bind; [by split|]. intros ? [= <-].
    apply keeps_then; [apply keeps_when|by split|done|]. intros _ _. apply lift_bind; [by split|]. intros p Hf. apply from_rollout_fields in Hf as [Hs Hph].
    apply keeps_then; [|by split|done|].
    { unfold write_progress_file. apply keeps_bind; [apply keeps_lift|]. intros b. by apply (keeps_stack_file st es c parse_rollout). }
    intros _ _. apply triple_ret. intros d Hd. split; [done|]. intros ? [= <-]. split; [congruence|by right].
Qed.
Lemma phase_triple st es c r state0 am p now d0 :
  (forall n, store_apart st (state0.(ds_library), n)) -> (forall n, store_apart st (recovery_directory state0.(ds_library), n)) ->
  (p.(rp_phase) = RolloutExecutionPhase.RollingBack -> forall kind plan e, rollback_target r = Ok (kind, plan) -> next_event am.(am_store_now) (last es) kind plan = Ok e ->
     event_fits r now e (fun t => with_rollback (with_phase r RolloutPhase.RolledBack t) e)) ->
  state st es (Some c) d0 -> parse_rollout c = Ok r -> r.(ro_stack) = st -> recover_rollout_checkpoint r (last es) = Ok (r, false) ->
  r.(ro_phase) = RolloutPhase.Activated -> p.(rp_stack) = st ->
  triple (state st es (Some c)) (reconcile_rollout_phase state0 am st r p now)
    (fun res d => match res with Ok (false, p') => p' = p /\ state st es (Some c) d | _ => moved st es r p d end) (moved st es r p).
Proof.
  intros Hlib Hrecovery Hfits H0 Hparse Hst Hstep Hph Hp. unfold reconcile_rollout_phase. rewrite Hph.
  assert (forall d, state st es (Some c) d -> moved st es r p d) as Hsame.
  { intros d Hd. exists es, (Some c), r. split_and!; [done|by apply checkpoint_settled|by left]. }
  destruct (rp_phase p) eqn:Hphase; try (by apply triple_ret; auto).
  - apply (triple_bind _ _ _ (fun _ => moved st es r p)); [|intros q; by apply triple_ret].
    eapply triple_weaken; [by apply complete_triple|done|by intros [|]|done].
  - apply (triple_bind _ _ _ (fun _ => moved st es r p)); [|intros q; by apply triple_ret].
    eapply triple_weaken; [apply (abandon_triple st es c r _ _ _ _ d0); try done; by apply Hfits|done|by intros [|]|done].
Qed.
End Reconcile.

Section ReconcileWitness.
#[local] Existing Instance demo_externals.
#[local] Existing Instance demo_hex.
#[local] Existing Instance demo_semver.
#[local] Existing Instance toy_url.
#[local] Existing Instance toy_toml.
#[local] Existing Instance toy_zip.
#[local] Existing Instance InvocationTheorems.plan_json.
#[local] Existing Instance InvocationTheorems.status_json.
#[local] Existing Instance InvocationTheorems.event_json.
#[local] Existing Instance InvocationTheorems.record_json.
#[local] Existing Instance InvocationTheorems.identity_json.
#[local] Existing Instance InvocationTheorems.progress_json.
#[local] Existing Instance InvocationTheorems.report_json.
#[local] Existing Instance InvocationTheorems.routing_json.
#[local] Existing Instance InvocationTheorems.event_decode.
#[local] Existing Instance InvocationTheorems.routing_decode.
#[local] Instance library_json : Json LibraryDocument := demo_json.
#[local] Instance library_decode : JsonDecode LibraryDocument := fun _ => Err "none".
#[local] Instance planned_instance_json : Json PlannedInstance := demo_json.
(** A rollout that was about to be completed when its replica ended and was started again *)
Definition restarted_status : StackRuntimeStatus :=
  let s := (mark_exit serving_status web zero_digest false None "exit" 2510).1 in
  (mark_running (begin_start s web zero_digest 4000).1 web zero_digest 4001).1.
Definition completing_record : RolloutRecord :=
  mkRollout 1 (hex_sha256 []) "shop" RolloutPhase.Activated 8 9 None None None None serving_plan (Some 1) (Some (hex_sha256 [])) None None None (hex_sha256 []).
Definition completing_progress : RolloutProgress :=
  match from_rollout completing_record 10 with
  | Ok progress => (set_execution_phase progress RolloutExecutionPhase.Completing 2500).1
  | Err _ => mkProgress 0 "" "" RolloutExecutionPhase.Rolling None None 0 "" 0 0 0 0 [] ""
  end.
#[local] Instance restarted_decode : JsonDecode StackRuntimeStatus := fun _ => Ok restarted_status.
#[local] Instance completing_decode : JsonDecode RolloutRecord := fun _ => Ok completing_record.
#[local] Instance completing_progress_decode : JsonDecode RolloutProgress := fun _ => Ok completing_progress.
Definition completing_world : World :=
  mkWorld {[ "." := ∅; "stacks" := ∅; "stacks/shop" := {[ "rollout.json" := []; "rollout-progress.json" := [] ]};
             "stacks/shop/events" := {[ event_file_name 1 := [x00] ]};
             "stacks/shop/runtime" := {[ hex_sha256 [] +:+ ".json" := [] ]} ]} 0 7 [].
Definition later (now : N) : Ambient := mkAmbient (fun _ => Ok now) (Ok now) (Ok now) (replicate 32 x00) (fun _ => 0).
(** A replica that ends and is started again while its rollout completes takes the
    daemon down: it is running, so the stack is healthy, but not yet for the two seconds
    that committing asks for, and the refusal of the commit leaves the loop of the
    daemon; two seconds later the same pass succeeds. *)
Theorem restarted_replica_ends_daemon (ob : Observed) (s : Supervisors) :
  (serve_pass daemon_state (fun _ => later 4100) (Ok 4100) (Ok 4100) ob s completing_world).2
    = Done (Ok (daemon_state, s, Err "rollout stability window has not elapsed"))
  /\ (reconcile_rollouts daemon_state (fun _ => later 6100) (Ok 6100) completing_world).2 = Done (Ok tt).
Proof.
  split; [|vm_compute; reflexivity]. unfold serve_pass, bind at 1, Files.attempt.
  assert ((reconcile_rollouts daemon_state (fun _ => later 4100) (Ok 4100) completing_world).2 = Done (Err "rollout stability window has not elapsed")) as Hr
    by (vm_compute; reflexivity).
  unfold bind at 1. destruct (reconcile_rollouts _ _ _ _) as [w' o]. cbn [snd] in Hr. rewrite Hr. reflexivity.
Qed.
End ReconcileWitness.

Section MovesWitness.
#[local] Existing Instance demo_externals.
#[local] Existing Instance demo_hex.
#[local] Existing Instance demo_semver.
#[local] Existing Instance toy_url.
#[local] Existing Instance toy_toml.
#[local] Existing Instance toy_zip.
#[local] Existing Instance StoreTheorems.plan_json.
#[local] Existing Instance StoreTheorems.identity_json.
#[local] Existing Instance StoreTheorems.store_event_json.
#[local] Existing Instance StoreTheorems.store_event_decode.
#[local] Existing Instance StoreTheorems.store_event_round_trip.
#[local] Existing Instance StoreTheorems.store_unlinked.
#[local] Existing Instance InvocationTheorems.status_json.
#[local] Existing Instance InvocationTheorems.progress_json.
#[local] Existing Instance InvocationTheorems.report_json.
#[local] Existing Instance InvocationTheorems.routing_json.
#[local] Existing Instance InvocationTheorems.routing_decode.
#[local] Existing Instance library_json.
#[local] Existing Instance library_decode.
#[local] Existing Instance planned_instance_json.
(** A rollout of the second generation, about to be completed *)
Definition committed_at (sha : string) : RolloutRecord := shop_record RolloutPhase.Committed 2100 false (Some zero_digest) sha.
Definition move_records : list RolloutRecord := [activated 9 ""; committed_at ""; activated 9 (sum_of 0); committed_at (sum_of 1)].
#[local] Instance move_record_json : Json RolloutRecord := table_json move_records.
#[local] Instance move_record_decode : JsonDecode RolloutRecord := table_decode move_records.
#[local] Instance move_record_round_trip : JsonRoundTrip RolloutRecord := table_round_trip move_records.
Definition start_replica (s : StackRuntimeStatus) (i : ReplicaId) : StackRuntimeStatus :=
  (mark_running (begin_start s i zero_digest 20).1 i zero_digest 20).1.
Definition second_status : StackRuntimeStatus :=
  match from_plan shop_plan 2 (sum_of 1) 10 with
  | Ok s => foldl start_replica s [mkReplicaId "api" 1; mkReplicaId "api" 2; mkReplicaId "web" 1]
  | Err _ => mkStatus 0 "" 0 "" 0 [] ""
  end.
Definition second_progress : RolloutProgress :=
  match from_rollout (activated 9 (sum_of 0)) 10 with
  | Ok progress => (set_execution_phase progress RolloutExecutionPhase.Completing 2090).1
  | Err _ => mkProgress 0 "" "" RolloutExecutionPhase.Rolling None None 0 "" 0 0 0 0 [] ""
  end.
#[local] Instance second_status_decode : JsonDecode StackRuntimeStatus := fun _ => Ok second_status.
#[local] Instance second_progress_decode : JsonDecode RolloutProgress := fun _ => Ok second_progress.
Definition second_world : World :=
  mkWorld (<["stacks/shop" := {[ "rollout.json" := [x02]; "rollout-progress.json" := [] ]}]>
             (<["stacks/shop/runtime" := {[ sum_of 1 +:+ ".json" := [] ]}]> (store_disk 2 0))) 0 7 [].
Lemma second_state : state "shop" [event_one; event_two] (Some [x02]) (disk second_world).
Proof. split; [eexists|]; vm_compute; reflexivity. Qed.
End MovesWitness.
