(* ===== verification/Broker.v ===== *)
(** * The broker of a replica ([crates/cartridge-cli/src/invocation_broker.rs])

    The replica's end of an invocation: it claims the requests in its directory by
    renaming them and writes the responses there.  Whether the paths are absolute,
    the readings of the clock and the counter of temporary names are arguments; the
    entries of the directory that matter are files. *)
From stdpp Require Import pretty.
From S2P Require Import Prelude Text Core Storage Snapshot Directory Blob Network Manifest Resolver Archive Rolling Plan Supervisor Events Health Files Rollout Progress Store Routing RoutingTheorems Peer Host IdentityFiles RolloutStatus Release Desktop Probe Daemon Planning Replicas EngineDaemon InvocationTheorems.

(** [FileInvocationBroker]; the root is the current directory *)
Record FileInvocationBroker := mkBroker {
  fb_stack : string;
  fb_directory : string;
  fb_target : RouteTarget;
  fb_active : gmap string (RouteTarget * N);
}.
Definition with_active_requests (self : FileInvocationBroker) (active : gmap string (RouteTarget * N)) : FileInvocationBroker :=
  mkBroker self.(fb_stack) self.(fb_directory) self.(fb_target) active.
Definition broker_read_bounded (path : Path) : IO bytes :=
  do? content := read_file path in
  if (len content =? 0) || (MAX_INVOCATION_ENVELOPE_BYTES <? len content)
  then fail "invocation envelope is not a bounded regular file"
  else ret content.
(** [write_new_atomic] of [<id>.response] *)
Definition broker_write_new (sequence : N) (directory id : string) (content : bytes) : IO unit :=
  if (len content =? 0) || (MAX_INVOCATION_ENVELOPE_BYTES <? len content) then fail "invocation envelope exceeds its byte limit"
  else
    let path := (directory, id +:+ ".response") in
    do? present := exists_file path in
    if present : bool then fail "invocation response already exists"
    else
      do? process := get_process_id in
      let temporary := (directory, id +:+ ".tmp-" +:+ pretty process +:+ "-" +:+ pretty sequence) in
      create_new temporary ;;?
      do? written := Files.attempt (write_all temporary content) in
      match written with
      | Err error => discard temporary ;;? fail error
      | Ok _ =>
          do? renamed := Files.attempt (rename temporary path) in
          match renamed with
          | Err error => discard temporary ;;? fail error
          | Ok _ => ret tt
          end
      end.

Section Broker.
Context `{Ext : Externals} `{JP : !Json StackPlan} `{JS : !Json StackRuntimeStatus} `{JE : !Json EngineEvent}
  `{JH : !Json StackHealthReport} `{JI : !Json RolloutIdentity} `{JRo : !Json RolloutRecord}
  `{JPr : !Json RolloutProgress} `{DE : !JsonDecode EngineEvent} `{DS : !JsonDecode StackRuntimeStatus}
  `{DRo : !JsonDecode RolloutRecord} `{DPr : !JsonDecode RolloutProgress}
  `{JRs : !Json RoutingSnapshot} `{DRs : !JsonDecode RoutingSnapshot}.
Context `{DIq : JsonDecode InvocationRequestEnvelope} `{JIr : Json InvocationResponseEnvelope} `{DIr : !JsonDecode InvocationResponseEnvelope}.

Definition new_broker (absolute : bool) (stack directory : string) (target : RouteTarget) : IO FileInvocationBroker :=
  if negb absolute then fail "invocation channel paths must be absolute"
  else
    open_store ;;?
    do? expected := replica_invocation_directory stack target.(rt_generation) (mkReplicaId target.(rt_instance) target.(rt_ordinal)) target.(rt_run_id) in
    if negb (bool_decide (expected = directory)) then fail "invocation channel path does not match its worker identity"
    else ret (mkBroker stack directory target ∅).
Definition same_worker (a b : RouteTarget) : bool :=
  bool_decide (a.(rt_instance) = b.(rt_instance)) && (a.(rt_ordinal) =? b.(rt_ordinal)) && (a.(rt_revision) =? b.(rt_revision))
  && bool_decide (a.(rt_generation) = b.(rt_generation)) && bool_decide (a.(rt_run_id) = b.(rt_run_id)).
Definition open_claimed (self : FileInvocationBroker) (now : result string N) (path : Path) (request_id : string) :
    IO (FileInvocationBroker * ServiceRequest) :=
  do? content := broker_read_bounded path in
  do? envelope := lift (from_slice content) in
  lift (validate_invocation_request envelope) ;;?
  if negb (bool_decide (envelope.(iq_request).(sr_id) = request_id)) || negb (bool_decide (envelope.(iq_stack) = self.(fb_stack)))
     || negb (same_worker envelope.(iq_target) self.(fb_target))
  then fail "invocation request belongs to another worker"
  else
    do? now_ms := lift now in
    if envelope.(iq_deadline_at_ms) <? now_ms then fail "invocation request expired before delivery"
    else
      open_store ;;?
      do? ready := route_target_is_ready self.(fb_stack) envelope.(iq_target) in
      if negb ready then fail "invocation route changed before delivery"
      else
        ret (with_active_requests self (<[envelope.(iq_request).(sr_id) := (envelope.(iq_target), envelope.(iq_deadline_at_ms))]> self.(fb_active)),
             envelope.(iq_request)).
Definition active_file (self : FileInvocationBroker) (request_id : string) : Path := (self.(fb_directory), request_id +:+ ".active").
Fixpoint claim_first (self : FileInvocationBroker) (now : result string N) (names : list string) :
    IO (FileInvocationBroker * option ServiceRequest) :=
  match names with
  | [] => ret (self, None)
  | name :: names =>
      match strip_suffix ".request" name with
      | None => claim_first self now names
      | Some request_id =>
          if negb (is_digest request_id) then claim_first self now names
          else
            do? renamed := Files.attempt (rename (self.(fb_directory), name) (active_file self request_id)) in
            match renamed with
            | Err error => if bool_decide (error = NO_ENTRY) then claim_first self now names else fail error
            | Ok _ =>
                do? opened := Files.attempt (open_claimed self now (active_file self request_id) request_id) in
                match opened with
                | Ok (self, request) => ret (self, Some request)
                | Err error => discard (active_file self request_id) ;;? fail error
                end
            end
      end
  end.
Definition take_request (self : FileInvocationBroker) (now : result string N) : IO (FileInvocationBroker * option ServiceRequest) :=
  do? d := read_disk in
  do? files := lift (ok_or (d !! self.(fb_directory)) NO_ENTRY) in
  let names := (btree_iter files).*1 in
  if saturating_mul usize_max MAX_INVOCATIONS_PER_REPLICA 3 <? len names + len (child_directories d self.(fb_directory))
  then fail "invocation channel entry limit exceeded"
  else claim_first self now names.
(** [receive]: what others did to the files before each look, and the clock then; after
    the last of them the time is up *)
Fixpoint receive (self : FileInvocationBroker) (looks : list ((Disk -> Disk) * result string N)) : IO (FileInvocationBroker * option ServiceRequest) :=
  match looks with
  | [] => ret (self, None)
  | (change, now) :: looks =>
      others change ;;?
      do? (self, request) := take_request self now in
      match request with
      | Some request => ret (self, Some request)
      | None => receive self looks
      end
  end.
(** [respond]: the claim is given up even when the answer is an error, so both are
    answered *)
Definition respond (self : FileInvocationBroker) (sequence : N) (checked_at responded_at : result string N) (request_id : string)
    (response : ServiceResponse) : IO (FileInvocationBroker * result string unit) :=
  let stop := fun e => ret (self, Err e) in
  match validate_service_response response with
  | Err e => stop e
  | Ok _ =>
      match self.(fb_active) !! request_id with
      | None => stop "invocation response does not match a claimed request"
      | Some (target, deadline_at_ms) =>
          let released := with_active_requests self (delete request_id self.(fb_active)) in
          match checked_at with
          | Err e => stop e
          | Ok now =>
              if deadline_at_ms <? now then ret (released, Err "invocation deadline expired before the response")
              else
                match responded_at with
                | Err e => stop e
                | Ok responded_at_ms =>
                    let envelope := mkInvocationResponse ENGINE_INVOCATION_FORMAT_VERSION self.(fb_stack) target request_id responded_at_ms response in
                    do? written := Files.attempt
                      (lift (validate_invocation_response envelope) ;;?
                       do? content := lift (to_vec envelope) in
                       broker_write_new sequence self.(fb_directory) request_id content) in
                    match written with
                    | Err e => stop e
                    | Ok _ =>
                        do? present := exists_file (active_file self request_id) in
                        if negb present then ret (released, Ok tt)
                        else
                          do? removed := Files.attempt (remove_file (active_file self request_id)) in
                          match removed with
                          | Err e => ret (released, if bool_decide (e = NO_ENTRY) then Ok tt else Err e)
                          | Ok _ => ret (released, Ok tt)
                          end
                    end
                end
          end
      end
  end.

(** ** Both ends together *)
Lemma broker_write_Ok n directory id content w w' u :
  broker_write_new n directory id content w = (w', Done (Ok u)) ->
  read_path (disk w') (directory, id +:+ ".response") = Some content /\ 0 < len content <= MAX_INVOCATION_ENVELOPE_BYTES.
Proof.
  unfold broker_write_new. destruct (N.eqb_spec (len content) 0) as [|Hne]; [done|].
  destruct (N.ltb_spec MAX_INVOCATION_ENVELOPE_BYTES (len content)) as [|Hle]; [done|]. cbn [orb]. intros (w1 & present & _ & H)%bind_Ok. destruct present; [done|].
  apply bind_Ok in H as (w2 & pid & _ & H). cbv zeta in H. set (tmp := (directory, id +:+ ".tmp-" +:+ pretty pid +:+ "-" +:+ pretty n)) in *.
  apply bind_Ok in H as (w3 & [] & Hc & H). apply bind_attempt_Ok in H as (w4 & r4 & Hw & H).
  destruct r4 as [[]|]; [|by apply bind_Ok in H as (? & ? & _ & ?)].
  apply bind_attempt_Ok in H as (w5 & r5 & Hr & H). destruct r5 as [[]|]; [|by apply bind_Ok in H as (? & ? & _ & ?)].
  apply ret_Ok in H as [-> _]. split; [|lia]. by eapply (staged_write_Ok tmp).
Qed.
End Broker.

(** * Theorems about the broker

    A request that a replica takes was claimed for it alone, and what the replica
    answers in time is what the daemon that waits for it finds. *)
From S2P Require Import NetworkTheorems.

Section BrokerTheorems.
Context `{Ext : Externals} `{JP : !Json StackPlan} `{JS : !Json StackRuntimeStatus} `{JE : !Json EngineEvent}
  `{JH : !Json StackHealthReport} `{JI : !Json RolloutIdentity} `{JRo : !Json RolloutRecord}
  `{JPr : !Json RolloutProgress} `{DE : !JsonDecode EngineEvent} `{DS : !JsonDecode StackRuntimeStatus}
  `{DRo : !JsonDecode RolloutRecord} `{DPr : !JsonDecode RolloutProgress}
  `{JRs : !Json RoutingSnapshot} `{DRs : !JsonDecode RoutingSnapshot}.
Context `{DIq : JsonDecode InvocationRequestEnvelope} `{JIr : Json InvocationResponseEnvelope} `{DIr : !JsonDecode InvocationResponseEnvelope}
  `{RIr : !JsonRoundTrip InvocationResponseEnvelope}.

Lemma remove_file_other path q w w' r : path <> q -> remove_file path w = (w', r) -> read_path (disk w') q = read_path (disk w) q.
Proof.
  unfold remove_file. intros Hne [->|[[a Hs]|[n ->]]]%syscall_disk; [done| |done]. destruct (is_some _) in Hs; [|done]. injection Hs as <- _.
  by rewrite read_remove_ne.
Qed.
Lemma append_differs (a b c : string) : b <> c -> a +:+ b <> a +:+ c.
Proof.
  intros Hne. induction a as [|x a IH]; [done|]. change (String x (a +:+ b) <> String x (a +:+ c)). congruence.
Qed.
(** What is left after a response was written: the file, whole *)
Definition answered (self : FileInvocationBroker) (id : string) (target : RouteTarget) (responded : N) (response : ServiceResponse) (w : World) : Prop :=
  exists content, read_path (disk w) (self.(fb_directory), id +:+ ".response") = Some content /\ 0 < len content <= MAX_INVOCATION_ENVELOPE_BYTES
    /\ from_slice content = Ok (mkInvocationResponse ENGINE_INVOCATION_FORMAT_VERSION self.(fb_stack) target id responded response)
    /\ validate_invocation_response (mkInvocationResponse ENGINE_INVOCATION_FORMAT_VERSION self.(fb_stack) target id responded response) = Ok tt.
Lemma respond_Ok self n checked responded id response w w' self' :
  respond self n checked responded id response w = (w', Done (Ok (self', Ok tt))) ->
  exists target deadline t, self.(fb_active) !! id = Some (target, deadline) /\ self'.(fb_active) = delete id self.(fb_active)
    /\ responded = Ok t /\ (exists now, checked = Ok now /\ now <= deadline) /\ answered self id target t response w'.
Proof.
  unfold respond. destruct (validate_service_response response); [|done]. destruct (fb_active self !! id) as [[target deadline]|] eqn:Ha; [|done].
  cbv zeta. destruct checked as [now|]; [|done]. destruct (N.ltb_spec deadline now) as [|Hnow]; [done|]. destruct responded as [t|]; [|done].
  intros (w1 & r1 & Hw & H)%bind_attempt_Ok. destruct r1 as [[]|]; [|done].
  apply bind_Ok in Hw as (w2 & [] & Hv & Hw). apply lift_Ok in Hv as [-> Hv]. apply bind_Ok in Hw as (w3 & content & Hc & Hw). apply lift_Ok in Hc as [-> Hc].
  apply broker_write_Ok in Hw as [Hread Hlen].
  assert (active_file self id <> (fb_directory self, id +:+ ".response")) as Hne by (intros [= Heq]; revert Heq; by apply append_differs).
  assert (forall w4, read_path (disk w4) (fb_directory self, id +:+ ".response") = Some content -> answered self id target t response w4) as Hans.
  { intros w4 Hr. exists content. split_and!; [done|lia|lia|by apply from_slice_to_vec|done]. }
  enough (self' = with_active_requests self (delete id self.(fb_active)) /\ read_path (disk w') (fb_directory self, id +:+ ".response") = Some content) as [-> Hr].
  { exists target, deadline, t. split_and!; [done|done|done|by exists now|by apply Hans]. }
  apply bind_Ok in H as (w5 & present & Hp & H). unfold exists_file in Hp. injection Hp as <- _. destruct present; cbn [negb] in H; [|by apply ret_Ok in H as [-> [= ->]]].
  apply bind_attempt_Ok in H as (w6 & r6 & Hrem & H). apply (remove_file_other _ _ _ _ _ Hne) in Hrem. rewrite Hread in Hrem.
  destruct r6 as [[]|e]; [by apply ret_Ok in H as [-> [= ->]]|]. destruct (bool_decide _); [|done]. by apply ret_Ok in H as [-> [= ->]].
Qed.
(** C10: What a replica answers is delivered: when the broker of a replica has answered a
    claimed request, the daemon that waits for that request, replica and deadline finds
    exactly this response at its next look, even if the time is up by then; the claim
    is given up, so a second answer is refused and changes nothing. *)
Theorem replica_answer_is_delivered (self self' : FileInvocationBroker) (n : N) (checked responded : result string N) (id : string)
    (response : ServiceResponse) (w w' : World) (expired : bool) (waiting : N) :
  respond self n checked responded id response w = (w', Done (Ok (self', Ok tt))) ->
  exists target deadline t, self.(fb_active) !! id = Some (target, deadline) /\ responded = Ok t
    /\ (t <= waiting -> poll_once self.(fb_stack) target id waiting (self.(fb_directory), id +:+ ".response") false expired w'
                        = (w', Done (Ok (Some (DaemonResponse.Invoked response)))))
    /\ forall n' checked' responded' response', validate_service_response response' = Ok tt ->
         respond self' n' checked' responded' id response' w' = (w', Done (Ok (self', Err "invocation response does not match a claimed request"))).
Proof.
  intros (target & deadline & t & Ha & Hself & -> & _ & content & Hread & Hlen & Hdec & Hv)%respond_Ok. exists target, deadline, t.
  split; [done|]. split; [done|]. split.
  - intros Ht. unfold poll_once, bind, exists_file. rewrite Hread. cbn [is_some is_none negb]. unfold read_invocation_file, bind, read_file. rewrite Hread. cbn [ok_or].
    destruct (N.eqb_spec (len content) 0); [lia|]. destruct (N.ltb_spec MAX_INVOCATION_ENVELOPE_BYTES (len content)); [lia|]. cbn [orb]. unfold ret, lift.
    rewrite Hdec, Hv. cbn [ir_stack ir_target ir_request_id ir_responded_at_ms ir_response]. rewrite !bool_decide_eq_true_2 by done. cbn [negb orb].
    destruct (N.ltb_spec waiting t); [lia|done].
  - intros n' checked' responded' response' Hresp. unfold respond. rewrite Hresp, Hself, lookup_delete_eq. done.
Qed.
End BrokerTheorems.

(** ** A concrete answer *)
Section BrokerWitness.
#[local] Existing Instance demo_externals.
#[local] Existing Instance InvocationTheorems.plan_json.
#[local] Existing Instance InvocationTheorems.status_json.
#[local] Existing Instance InvocationTheorems.event_json.
#[local] Existing Instance InvocationTheorems.record_json.
#[local] Existing Instance InvocationTheorems.identity_json.
#[local] Existing Instance InvocationTheorems.progress_json.
#[local] Existing Instance InvocationTheorems.report_json.
#[local] Existing Instance InvocationTheorems.routing_json.
#[local] Existing Instance InvocationTheorems.event_decode.
#[local] Existing Instance InvocationTheorems.status_decode.
#[local] Existing Instance InvocationTheorems.record_decode.
#[local] Existing Instance InvocationTheorems.progress_decode.
#[local] Existing Instance InvocationTheorems.routing_decode.
#[local] Instance envelope_eq_dec : EqDecision InvocationResponseEnvelope.
Proof. assert (EqDecision ServiceResponse) by solve_decision. solve_decision. Defined.
Definition web_envelope : InvocationResponseEnvelope := mkInvocationResponse 1 "shop" serving_route zero_digest 50 web_response.
#[local] Instance web_response_json : Json InvocationResponseEnvelope := fun e => if bool_decide (e = web_envelope) then Ok [x02] else Err "json".
#[local] Instance web_response_decode : JsonDecode InvocationResponseEnvelope := fun b => if bool_decide (b = [x02]) then Ok web_envelope else Err "json".
#[local] Instance web_response_rt : JsonRoundTrip InvocationResponseEnvelope.
Proof. intros e b. unfold to_vec, web_response_json. case_bool_decide; [|done]. intros [= <-]. by subst. Qed.
Definition web_broker : FileInvocationBroker := mkBroker "shop" web_directory serving_route {[ zero_digest := (serving_route, 1040) ]}.
Definition claimed_world : World := mkWorld {[ web_directory := {[ zero_digest +:+ ".active" := [x01] ]} ]} 0 7 [].
Definition web_answer : World * Files.outcome (FileInvocationBroker * result string unit) :=
  respond web_broker 3 (Ok 45) (Ok 50) zero_digest web_response claimed_world.
Lemma replica_answer_is_delivered_witness :
  exists w', web_answer.1 = w'
    /\ poll_once "shop" serving_route zero_digest 1040 (web_directory, zero_digest +:+ ".response") false true w'
       = (w', Done (Ok (Some (DaemonResponse.Invoked web_response)))).
Proof.
  exists web_answer.1. split; [reflexivity|].
  assert (web_answer.2 = Done (Ok (with_active_requests web_broker ∅, Ok tt))) as Ho by (vm_compute; reflexivity).
  destruct web_answer as [w' o] eqn:Hrun. cbn [fst snd] in *. rewrite Ho in Hrun. unfold web_answer in Hrun.
  destruct (replica_answer_is_delivered web_broker _ 3 _ _ zero_digest web_response claimed_world w' true 1040 Hrun)
    as (target & deadline & t & Ha & Ht & Hpoll & _).
  injection Ht as <-. vm_compute in Ha. injection Ha as <- <-. apply Hpoll. lia.
Defined.
End BrokerWitness.
