(* ===== verification/Documents.v ===== *)
(** * Documents that are written once ([snapshot.rs] of the storage crate, [migration_receipt.rs] of the command line)

    The writer that snapshots, migration receipts and capsules share, as a run of
    system calls; the files of snapshots; and migration receipts, complete.  The two
    writers of receipts and snapshots differ only in when the document is encoded;
    the texts of errors leave out the quoted path. *)
From stdpp Require Import pretty.
From S2P Require Import Prelude Text Core Storage Files Snapshot Directory Blob BlobTheorems.

(** ** A new document, linked into place *)
Definition link_new {E : Type} (prefix : string) (path : Path) (encoded : result E bytes) : IO (result E unit) :=
  ensure_directory path.1 ;;?
  do? sequence := fetch_sequence in
  do? process := get_process_id in
  let temporary := (path.1, temporary_name prefix process sequence) in
  create_new temporary ;;?
  match encoded with
  | Err error => ret (Err error)
  | Ok content =>
      write_all temporary content ;;?
      do? linked := Files.attempt (hard_link temporary path) in
      match linked with
      | Err error => discard temporary ;;? fail error
      | Ok _ => remove_file temporary ;;? sync_parent_directory ;;? ret (Ok tt)
      end
  end.
(** [File::open(path)?.take(limit + 1).read_to_end(..)] *)
Definition read_take (path : Path) (limit : N) : IO bytes :=
  do? content := read_file path in
  ret (take (N.to_nat (N.min (limit + 1) (len content))) content).

Section LinkNew.
Context {E : Type}.
Variables (prefix : string) (path : Path) (encoded : result E bytes) (d0 : Disk).
Hypothesis (Hname : staged prefix path.2 = false).
Definition link_before (d : Disk) : Prop := framed prefix path.1 [path.2] d0 d /\ read_path d path = read_path d0 path.
Definition link_after (d : Disk) : Prop :=
  framed prefix path.1 [path.2] d0 d /\ read_path d0 path = None /\ exists b, encoded = Ok b /\ read_path d path = Some b.
Definition link_either (d : Disk) : Prop := link_before d \/ link_after d.
Definition link_post (r : result string (result E unit)) (d : Disk) : Prop :=
  link_either d /\ match r with Ok (Ok _) => link_after d | _ => True end.

Lemma before_post e d : link_before d -> link_post (Err e) d.
Proof. intros H. split; [by left|done]. Qed.
Lemma after_post r d : link_after d -> link_post r d.
Proof. intros H. split; [by right|by destruct r as [[]|]]. Qed.
Lemma link_before_ignores : ignores prefix path.1 link_before.
Proof.
  intros d q Hq Hs [Hf Hr]. assert (q <> path) by (intros ->; congruence). split; [intros c|]; split.
  - apply framed_write; auto.
  - by rewrite read_write_ne.
  - apply framed_remove; auto.
  - by rewrite read_remove_ne.
Qed.
Lemma link_after_ignores : ignores prefix path.1 link_after.
Proof.
  intros d q Hq Hs (Hf & Hn & b & Hb & Hr). assert (q <> path) by (intros ->; congruence). split; [intros c|]; (split; [|split; [done|]]).
  - apply framed_write; auto.
  - exists b. by rewrite read_write_ne.
  - apply framed_remove; auto.
  - exists b. by rewrite read_remove_ne.
Qed.
Lemma directory_triple : triple (fun d => d = d0) (ensure_directory path.1) (fun r d => match r with Ok _ => link_before d | Err e => link_post (Err e) d end) link_either.
Proof.
  assert (link_before d0) as H0 by (split; [apply framed_refl|done]).
  intros w Hw0. unfold ensure_directory. rewrite Hw0. destruct (d0 !! path.1) as [x|] eqn:Hx; cbn [is_some is_none negb]; [by rewrite Hw0|].
  assert (triple (fun d => d = d0) (syscall (fun d => Ok (<[path.1 := ∅]> d, tt)) untouched)
    (fun r d => match r with Ok _ => link_before d | Err e => link_post (Err e) d end) link_either) as Ht; [apply triple_syscall|].
  - intros d ->. assert (forall name, read_path (<[path.1 := ∅]> d0) (path.1, name) = read_path d0 (path.1, name)) as Hread.
    { intros name. unfold read_path. cbn [fst snd]. by rewrite lookup_insert_eq, Hx. }
    split; [constructor|].
    + intros y Hne. by rewrite lookup_insert_ne.
    + intros [y Hy]. congruence.
    + intros name _ _. apply Hread.
    + destruct path as [pd pn]. apply Hread.
  - intros d n ->. split; [by apply before_post|by left].
  - by apply (Ht w Hw0).
Qed.
Lemma link_place_triple q b :
  q.1 = path.1 -> staged prefix q.2 = true -> encoded = Ok b ->
  triple (fun d => link_before d /\ read_path d q = Some b)
    (do? linked := Files.attempt (hard_link q path) in
     match linked with
     | Err error => discard q ;;? fail error
     | Ok _ => remove_file q ;;? sync_parent_directory ;;? ret (Ok tt)
     end) link_post link_either.
Proof.
  intros Hq Hs Hb.
  apply (triple_bind _ _ _ (fun r d => match r with Ok _ => link_after d | Err _ => link_before d end)).
  { apply triple_attempt, triple_syscall; [|by intros d n [Hd _]; split; [|left]].
    intros d [[Hf Hr] Hc]. rewrite Hc. destruct (read_path d path) as [x|] eqn:Hp; cbn [is_some is_none negb]; [by split; [|congruence]|].
    split; [apply framed_write; [done|done|left; set_solver]|]. split; [congruence|]. exists b. split; [done|].
    apply read_write_eq. rewrite <- Hq. by apply read_Some_dir in Hc. }
  intros [u|e].
  - apply (triple_bind _ _ _ (fun _ => link_after)).
    { apply triple_syscall; [|intros d n Hd; split; [by apply after_post|by right]].
      intros d Hd. destruct (is_some _); [by apply (link_after_ignores d q)|by apply after_post]. }
    intros _. apply (triple_bind _ _ _ (fun _ => link_after)); [|intros _; apply triple_ret; intros d Hd; by apply after_post].
    apply triple_syscall; [by intros d Hd|intros d n Hd; split; [by apply after_post|by right]].
  - apply (triple_bind _ _ _ (fun _ => link_before)).
    { eapply triple_weaken; [apply (discard_triple prefix path.1 link_before q link_before_ignores Hq Hs)|done| |by left].
      intros [[]|e'] d Hd; [done|by apply before_post]. }
    intros _. apply triple_fail. intros d Hd. by apply before_post.
Qed.
Lemma link_new_triple : triple (fun d => d = d0) (link_new prefix path encoded) link_post link_either.
Proof.
  unfold link_new. apply (triple_bind _ _ _ (fun _ => link_before)); [exact directory_triple|].
  intros _ [dk sq pid fs] Hw. set (q := (path.1, temporary_name prefix pid sq)).
  assert (staged prefix q.2 = true) as Hs by apply temporary_staged.
  enough (triple link_before (create_new q ;;?
    match encoded with
    | Err error => ret (Err error)
    | Ok content =>
        write_all q content ;;?
        do? linked := Files.attempt (hard_link q path) in
        match linked with Err error => discard q ;;? fail error | Ok _ => remove_file q ;;? sync_parent_directory ;;? ret (Ok tt) end
    end) link_post link_either) as Ht
    by exact (Ht (mkWorld dk (wrapping_add u64_max sq 1) pid fs) Hw).
  apply (triple_bind _ _ _ (fun _ d => link_before d /\ is_Some (d !! path.1))).
  { apply triple_syscall; [|intros d n Hd; split; [by apply before_post|by left]].
    intros d Hd. change q.1 with path.1. destruct (d !! path.1) as [x|] eqn:Hx; [|by apply before_post].
    destruct (is_some _); [by apply before_post|]. split; [by apply (link_before_ignores d q)|]. apply is_dir_write. by exists x. }
  intros _. destruct encoded as [b|e] eqn:Hb; [|apply triple_ret; intros d [Hd _]; split; [by left|done]].
  apply (triple_bind _ _ _ (fun _ d => link_before d /\ read_path d q = Some b)); [|intros _; by apply link_place_triple].
  apply triple_syscall.
  - intros d [Hd Hi]. split; [by apply (link_before_ignores d q)|by apply read_write_eq].
  - intros d n [Hd Hi]. split; [split; [left|done]|left]; by apply (link_before_ignores d q).
Qed.
End LinkNew.

(** A document is linked whole or not at all, over nothing: whatever calls fail and
    wherever the process dies, the file is as it was or it took an empty place and
    holds the whole encoding, other files stay, temporary ones apart, and a write
    that is answered is there. *)
Theorem linked_document_is_whole {E : Type} (prefix : string) (path : Path) (encoded : result E bytes) (w : World) :
  staged prefix path.2 = false ->
  let '(w', o) := link_new prefix path encoded w in
  framed prefix path.1 [path.2] w.(disk) w'.(disk)
  /\ (read_path w'.(disk) path = read_path w.(disk) path
      \/ (read_path w.(disk) path = None /\ exists b, encoded = Ok b /\ read_path w'.(disk) path = Some b))
  /\ match o with
     | Done (Ok (Ok _)) => read_path w.(disk) path = None /\ exists b, encoded = Ok b /\ read_path w'.(disk) path = Some b
     | _ => True
     end.
Proof.
  intros Hname. pose proof (link_new_triple prefix path encoded (disk w) Hname w eq_refl) as Ht.
  destruct (link_new prefix path encoded w) as [w' o].
  assert (link_either prefix path encoded (disk w) (disk w')) as Hor by (destruct o as [r|]; [apply Ht|done]).
  split; [by destruct Hor as [[]|[]]|]. split; [destruct Hor as [[]|(_ & ? & ?)]; [by left|by right]|].
  destruct o as [[[u|]|]|]; [|done..]. by destruct Ht as [_ (_ & ? & ?)].
Qed.

(** ** Snapshots in files *)
Definition SNAPSHOT_PREFIX : string := ".cartridge-snapshot-".
Section SnapshotFiles.
Context `{Ext : Externals} `{Hex : HexDecode} `{JP : !Json SnapshotPayload} `{JS : !Json StorageSnapshot} `{DS : !JsonDecode StorageSnapshot}.
Definition read_snapshot (path : Path) : IOR StorageSnapshot :=
  try? content := io (read_take path MAX_SNAPSHOT_FILE_BYTES) in
  if MAX_SNAPSHOT_FILE_BYTES <? len content then pure_ (Err (Corrupt "snapshot exceeds the snapshot size limit"))
  else pure_ (snapshot_from_slice content).
Definition write_snapshot (self : StorageSnapshot) (path : Path) : IOR unit :=
  pure_ (validate_snapshot self) ;;!
  link_new SNAPSHOT_PREFIX path (serialize self).
End SnapshotFiles.

(** ** Migration receipts *)
Definition RECEIPT_FORMAT_VERSION : N := 2.
Definition MAX_RECEIPT_BYTES : N := 64 * 1024.
Definition RECEIPT_PREFIX : string := ".cartridge-migration-receipt-".
Record MigrationReceiptPayload := mkReceiptPayload {
  mrp_format_version : N;
  mrp_cartridge_id : string;
  mrp_package_version : string;
  mrp_component_sha256 : string;
  mrp_source_generation : N;
  mrp_target_generation : N;
  mrp_migration_revision : N;
  mrp_source_schema : N;
  mrp_target_schema : N;
  mrp_source_snapshot_sha256 : string;
  mrp_target_snapshot_sha256 : string;
}.
#[global] Instance receipt_payload_eq_dec : EqDecision MigrationReceiptPayload.
Proof. solve_decision. Defined.
Record MigrationReceipt := mkReceipt { mr_payload : MigrationReceiptPayload; mr_payload_sha256 : string }.
#[global] Instance receipt_eq_dec : EqDecision MigrationReceipt.
Proof. solve_decision. Defined.

Definition valid_receipt_id (value : string) : bool :=
  negb (str_is_empty value) && (str_len value <=? 128)
  && forallb (fun b => is_ascii_lowercase b || is_ascii_digit b || (b =? 45) || (b =? 46)) (str_bytes value).
Definition valid_package_version (value : string) : bool :=
  negb (str_is_empty value) && (str_len value <=? 64)
  && forallb (fun b => is_ascii_alphanumeric b || (b =? 46) || (b =? 45) || (b =? 43)) (str_bytes value).
Definition with_receipt_format (p : MigrationReceiptPayload) (format_version : N) : MigrationReceiptPayload :=
  mkReceiptPayload format_version p.(mrp_cartridge_id) p.(mrp_package_version) p.(mrp_component_sha256) p.(mrp_source_generation)
    p.(mrp_target_generation) p.(mrp_migration_revision) p.(mrp_source_schema) p.(mrp_target_schema) p.(mrp_source_snapshot_sha256)
    p.(mrp_target_snapshot_sha256).

Section Receipts.
Context `{Ext : Externals} `{JP : !Json MigrationReceiptPayload} `{JR : !Json MigrationReceipt} `{DR : !JsonDecode MigrationReceipt}.
Definition receipt_digest (payload : MigrationReceiptPayload) : result string string :=
  let? content := to_vec payload in
  Ok (hex_sha256 content).
(** The generation that the migration of a payload has to reach *)
Definition expected_generation (payload : MigrationReceiptPayload) : result string N :=
  let? base := if payload.(mrp_format_version) =? 1 then
                 if negb (payload.(mrp_migration_revision) =? 0) then Err "migration receipt format 1 cannot declare a migration revision"
                 else Ok payload.(mrp_source_generation)
               else Ok (N.max payload.(mrp_source_generation) payload.(mrp_migration_revision)) in
  ok_or (checked_add u64_max base 1) "migration receipt generation overflowed".
Definition validate_receipt (self : MigrationReceipt) : result string unit :=
  let payload := self.(mr_payload) in
  if negb ((payload.(mrp_format_version) =? 1) || (payload.(mrp_format_version) =? RECEIPT_FORMAT_VERSION))
  then Err ("unsupported migration receipt format " +:+ pretty payload.(mrp_format_version) +:+ "; expected 1 or 2")
  else if negb (valid_receipt_id payload.(mrp_cartridge_id)) then Err "migration receipt has an invalid cartridge id"
  else if negb (valid_package_version payload.(mrp_package_version)) then Err "migration receipt has an invalid package version"
  else if negb (is_digest payload.(mrp_component_sha256)) then Err "migration receipt has an invalid component digest"
  else if negb (is_digest payload.(mrp_source_snapshot_sha256)) then Err "migration receipt has an invalid source snapshot digest"
  else if negb (is_digest payload.(mrp_target_snapshot_sha256)) then Err "migration receipt has an invalid target snapshot digest"
  else
    let? generation := expected_generation payload in
    if negb (payload.(mrp_target_generation) =? generation)
    then Err "migration receipt target generation does not follow its revision evidence"
    else if payload.(mrp_target_schema) <=? payload.(mrp_source_schema)
    then Err "migration receipt must describe an increasing schema transition"
    else
      let? digest := receipt_digest payload in
      if negb (bool_decide (self.(mr_payload_sha256) = digest))
      then Err "migration receipt payload digest does not match its contents"
      else Ok tt.
Definition new_receipt (payload : MigrationReceiptPayload) : result string MigrationReceipt :=
  let payload := with_receipt_format payload RECEIPT_FORMAT_VERSION in
  let? digest := receipt_digest payload in
  let receipt := mkReceipt payload digest in
  let? _ := validate_receipt receipt in
  Ok receipt.
Definition receipt_from_slice (content : bytes) : result string MigrationReceipt :=
  if MAX_RECEIPT_BYTES <? len content then Err "migration receipt exceeds the 65536 byte limit"
  else
    let? receipt := from_slice content in
    let? _ := validate_receipt receipt in
    Ok receipt.
Definition read_receipt (path : Path) : IO MigrationReceipt :=
  do? content := read_take path MAX_RECEIPT_BYTES in
  if MAX_RECEIPT_BYTES <? len content then fail "migration receipt exceeds the 65536 byte limit"
  else lift (receipt_from_slice content).
Definition write_receipt (self : MigrationReceipt) (path : Path) : IO unit :=
  lift (validate_receipt self) ;;?
  do? content := lift (to_vec self) in
  if MAX_RECEIPT_BYTES <? len content then fail "migration receipt exceeds the 65536 byte limit"
  else
    do? linked := link_new (E := string) RECEIPT_PREFIX path (Ok content) in
    lift linked.

(** ** What a receipt says *)
Lemma receipt_facts r :
  validate_receipt r = Ok tt ->
  r.(mr_payload).(mrp_source_schema) < r.(mr_payload).(mrp_target_schema)
  /\ r.(mr_payload).(mrp_target_generation) = N.max r.(mr_payload).(mrp_source_generation) r.(mr_payload).(mrp_migration_revision) + 1
  /\ r.(mr_payload).(mrp_target_generation) <= u64_max
  /\ exists b, to_vec r.(mr_payload) = Ok b /\ r.(mr_payload_sha256) = hex_sha256 b.
Proof.
  unfold validate_receipt. cbv zeta. pass Hf. pass Hid. pass Hv. pass H1. pass H2. pass H3. succeed g Hg. pass Hgen. pass Hs. succeed digest Hd. pass Hsha. intros _.
  unfold receipt_digest in Hd. destruct (to_vec _) as [b|] eqn:Hb; [|done]. injection Hd as <-. bprop.
  assert (N.max r.(mr_payload).(mrp_source_generation) r.(mr_payload).(mrp_migration_revision) + 1 = g /\ g <= u64_max) as [Hmax Hle].
  { revert Hg. unfold expected_generation. destruct (_ =? 1).
    - destruct (N.eqb_spec r.(mr_payload).(mrp_migration_revision) 0) as [->|]; cbn [negb]; [|done].
      destruct (checked_add _ _ _) as [n|] eqn:Hc; [|done]. apply checked_add_Some in Hc as [-> ?]. intros [= <-]. lia.
    - destruct (checked_add _ _ _) as [n|] eqn:Hc; [|done]. apply checked_add_Some in Hc as [-> ?]. intros [= <-]. lia. }
  split_and!; [lia..|]. by exists b.
Qed.

(** A receipt that is written is evidence that stays: when the write is answered,
    reading the file gives the receipt back, and it describes a migration to a later
    schema whose generation is the successor of the later one of its source and its
    revision, under the digest of that description; nothing was overwritten. *)
Theorem written_receipt_is_evidence `{RT : !JsonRoundTrip MigrationReceipt} (r : MigrationReceipt) (path : Path) (w w' : World) :
  staged RECEIPT_PREFIX path.2 = false ->
  write_receipt r path w = (w', Done (Ok tt)) ->
  read_path w.(disk) path = None
  /\ read_receipt path w' = (w', Done (Ok r))
  /\ r.(mr_payload).(mrp_source_schema) < r.(mr_payload).(mrp_target_schema)
  /\ r.(mr_payload).(mrp_target_generation) = N.max r.(mr_payload).(mrp_source_generation) r.(mr_payload).(mrp_migration_revision) + 1
  /\ r.(mr_payload).(mrp_target_generation) <= u64_max
  /\ exists b, to_vec r.(mr_payload) = Ok b /\ r.(mr_payload_sha256) = hex_sha256 b.
Proof.
  intros Hname. unfold write_receipt, lift, bind. destruct (validate_receipt r) as [[]|] eqn:Hv; [|done].
  destruct (to_vec r) as [content|] eqn:Hc; [|done]. destruct (N.ltb_spec MAX_RECEIPT_BYTES (len content)) as [|Hl]; [done|].
  pose proof (linked_document_is_whole (E := string) RECEIPT_PREFIX path (Ok content) w Hname) as Ht.
  destruct (link_new _ _ _ w) as [w1 [[[u|]|]|]]; [|done..]. intros [= <-]. destruct Ht as (_ & _ & Hn & b & [= <-] & Hr).
  split; [done|]. split; [|by apply receipt_facts].
  unfold read_receipt, read_take, read_file, bind. rewrite Hr. cbn [ok_or]. unfold ret. rewrite take_ge by (unfold len in *; lia).
  unfold receipt_from_slice, lift. destruct (N.ltb_spec MAX_RECEIPT_BYTES (len content)); [lia|].
  by rewrite (from_slice_to_vec r content Hc), Hv.
Qed.
End Receipts.

(** ** A concrete receipt *)
Section ReceiptWitness.
#[local] Existing Instance demo_externals.
#[local] Instance receipt_payload_json : Json MigrationReceiptPayload := demo_json.
Definition demo_receipt : MigrationReceipt :=
  mkReceipt (mkReceiptPayload 2 "dev.example.notes" "1.2.0" (hex_sha256 [x01]) 7 10 9 1 3 (hex_sha256 [x02]) (hex_sha256 [x03])) (hex_sha256 []).
#[local] Instance receipt_json : Json MigrationReceipt := table_json [demo_receipt].
#[local] Instance receipt_decode : JsonDecode MigrationReceipt := table_decode [demo_receipt].
#[local] Instance receipt_rt : JsonRoundTrip MigrationReceipt := table_round_trip [demo_receipt].
Definition receipt_world : World := mkWorld {["out" := ∅]} 0 77 [].
Lemma written_receipt_is_evidence_witness :
  let w' := (write_receipt demo_receipt ("out", "receipt.json") receipt_world).1 in
  read_receipt ("out", "receipt.json") w' = (w', Done (Ok demo_receipt)).
Proof.
  cbv zeta. destruct (written_receipt_is_evidence demo_receipt ("out", "receipt.json") receipt_world
    (write_receipt demo_receipt ("out", "receipt.json") receipt_world).1) as (_ & H & _); [vm_compute; reflexivity..|exact H].
Defined.
End ReceiptWitness.
