(* ===== verification/Ingress.v ===== *)
(** * The ingress ([crates/cartridge-cli/src/ingress.rs])

    An HTTP listener on the loopback interface that forwards the requests of clients
    who know its token to a service of a stack.  A connection is what its reads find
    and its writes take, one call after the other, with the deadline among it; the
    random bytes of a request's identity and the daemon's answer are arguments, and
    of the threads only their number matters. *)
From stdpp Require Import pretty.
From S2P Require Import Prelude Text Core Storage Files Snapshot Directory Blob Network Daemon DaemonTheorems.

Definition MAX_HEAD : N := 16 * 1024.
Definition MAX_INGRESS_CLIENTS : N := 4.
Definition CR : ascii := "013".
Definition LF : ascii := "010".
Definition CRLF : string := String CR (String LF "").
(** [b"\r\n\r\n"] *)
Definition blank_line : bytes := [x0d; x0a; x0d; x0a].

(** ** Texts *)
(** [text.split("\r\n")] *)
Fixpoint split_crlf (s : string) : list string :=
  match s with
  | EmptyString => [""]
  | String a EmptyString => [String a ""]
  | String a ((String b s2) as s1) =>
      if bool_decide (a = CR) && bool_decide (b = LF) then "" :: split_crlf s2
      else match split_crlf s1 with first :: rest => String a first :: rest | [] => [String a ""] end
  end.
(** [value.trim()] of a text of ASCII characters *)
Definition ascii_space (a : ascii) : bool := in_range 9 13 (N_of_ascii a) || (N_of_ascii a =? 32).
Fixpoint trim_start (s : string) : string :=
  match s with String a s' => if ascii_space a then trim_start s' else s | EmptyString => "" end.
(** [s.trim_end_matches(..)] *)
Fixpoint trim_end_of (dropped : ascii -> bool) (s : string) : string :=
  match s with
  | EmptyString => ""
  | String a s' => let t := trim_end_of dropped s' in if str_is_empty t && dropped a then "" else String a t
  end.
Definition trim (s : string) : string := trim_end_of ascii_space (trim_start s).
(** [value.parse::<usize>()] of digits *)
Definition parse_usize (value : string) : option N :=
  let n := foldl (fun acc b => acc * 10 + (b - 48)) 0 (str_bytes value) in
  if usize_max <? n then None else Some n.
(** The comparison of credentials: every byte is looked at *)
Definition same_secret (actual expected : string) : bool :=
  (str_len actual =? str_len expected)
  && (foldl (fun acc ab => N.lor acc (N.lxor ab.1 ab.2)) 0 (zip (str_bytes actual) (str_bytes expected)) =? 0).

(** ** The token *)
Definition read_token (path : Path) : IO string :=
  do? content := read_file path in
  do? token := lift (ok_or (from_utf8 (take 129 content)) "stream did not contain valid UTF-8") in
  if 128 <? str_len token then fail "ingress token file is too large"
  else
    let token := trim_end_of (fun a => bool_decide (a = CR) || bool_decide (a = LF)) token in
    if negb (str_len token =? 64) || negb (forallb is_lower_hex (str_bytes token))
    then fail "ingress token must be 64 lowercase hexadecimal characters"
    else ret token.

(** ** The head of a request; errors are the status that is answered *)
Definition parse_method (word : option string) : option HttpMethod :=
  match word with
  | Some "GET" => Some GET | Some "HEAD" => Some HEAD | Some "POST" => Some POST
  | Some "PUT" => Some PUT | Some "PATCH" => Some PATCH | Some "DELETE" => Some DELETE
  | _ => None
  end.
Definition printable (b : N) : bool := in_range 32 126 b.
Fixpoint parse_headers (headers : gmap string string) (lines : list string) : result N (gmap string string) :=
  match lines with
  | [] => Ok headers
  | line :: lines =>
      let? (name, value) := ok_or (split_once ":" line) 400 in
      if str_is_empty name || negb (forallb header_name_byte (str_bytes name)) || negb (forallb printable (str_bytes value)) then Err 400
      else
        let name := str_lower name in
        if is_some (headers !! name) then Err 400
        else
          let headers := <[name := trim value]> headers in
          if 128 <? btree_len headers then Err 400 else parse_headers headers lines
  end.
Definition refused_headers : list string :=
  ["transfer-encoding"; "expect"; "upgrade"; "trailer"; "te"; "proxy-authorization"; "proxy-connection"].
Definition content_length (value : option string) : result N N :=
  match value with
  | None => Ok 0
  | Some value =>
      if negb (str_is_empty value) && forallb is_ascii_digit (str_bytes value) then ok_or (parse_usize value) 413 else Err 400
  end.
Definition parse_head (random : bytes) (content : bytes) (authority token : string) : result N (ServiceRequest * N) :=
  let? text := ok_or (from_utf8 content) 400 in
  let? text := ok_or (strip_suffix (CRLF +:+ CRLF) text) 400 in
  let lines := split_crlf text in
  let? line := ok_or (head lines) 400 in
  let parts := split_on " " line in
  let? method := ok_or (parse_method (head parts)) 405 in
  let? path := ok_or (parts !! 1%nat) 400 in
  if negb (bool_decide (parts !! 2%nat = Some "HTTP/1.1")) || is_some (parts !! 3%nat) then Err 400
  else
    let? headers := parse_headers ∅ (tail lines) in
    if negb (bool_decide (headers !! "host" = Some authority)) then Err 421
    else
      let headers := delete "host" headers in
      if is_some (headers !! "origin") || is_some_and (fun v => negb (bool_decide (v = "none"))) (headers !! "sec-fetch-site") then Err 403
      else
        let? actual := ok_or (headers !! "authorization") 401 in
        let headers := delete "authorization" headers in
        if negb (same_secret actual ("Bearer " +:+ token)) then Err 401
        else if existsb (fun name => is_some (headers !! name)) refused_headers then Err 400
        else if is_some_and (fun v => negb (eq_ignore_ascii_case v "close") && negb (eq_ignore_ascii_case v "keep-alive")) (headers !! "connection")
        then Err 400
        else
          let headers := delete "connection" headers in
          let? length := content_length (headers !! "content-length") in
          let headers := delete "content-length" headers in
          if MAX_SERVICE_REQUEST_BYTES <? length then Err 413
          else
            let request := mkServiceRequest (hex_encode random) method path headers [] in
            match validate_service_request request with
            | Err _ => Err 400
            | Ok _ => Ok (request, length)
            end.

(** ** Reading a request *)
(** [bytes.windows(4).position(|s| s == b"\r\n\r\n")] *)
Fixpoint find_blank (l : bytes) : option nat :=
  match l with
  | [] => None
  | _ :: l' => if bool_decide (take 4 l = blank_line) then Some O else S <$> find_blank l'
  end.
(** One read into a buffer of [limit] bytes: what was read, and what is left *)
Definition read_some (limit : nat) (s : list arrival) : result N (bytes * list arrival) :=
  match s with
  | [] | Closes :: _ | Arrives [] :: _ => Err 400
  | Late :: _ | Breaks _ :: _ => Err 408
  | Arrives b :: s => if (length b <=? limit)%nat then Ok (b, s) else Ok (take limit b, Arrives (drop limit b) :: s)
  end.
(** Every read adds a byte, so [MAX_HEAD] of them reach the limit *)
Fixpoint read_head (fuel : nat) (seen : bytes) (s : list arrival) : result N (nat * bytes * list arrival) :=
  match find_blank seen with
  | Some blank => Ok ((blank + 4)%nat, seen, s)
  | None =>
      if MAX_HEAD <=? len seen then Err 431
      else
        match fuel with
        | O => Err 431
        | S fuel =>
            let? (chunk, s) := read_some 1024 s in
            read_head fuel (seen ++ chunk) s
        end
  end.
(** Every read adds a byte, so as many as are missing complete the body *)
Fixpoint read_body (fuel : nat) (length : nat) (body : bytes) (s : list arrival) : result N bytes :=
  if (length <=? List.length body)%nat then Ok body
  else
    match fuel with
    | O => Ok body
    | S fuel =>
        let? (chunk, s) := read_some (Nat.min (N.to_nat 8192) (length - List.length body)) s in
        read_body fuel length (body ++ chunk) s
    end.
Definition with_body (request : ServiceRequest) (body : bytes) : ServiceRequest :=
  mkServiceRequest request.(sr_id) request.(sr_method) request.(sr_path) request.(sr_headers) body.
Definition read_request (random : bytes) (s : list arrival) (authority token : string) : result N ServiceRequest :=
  let? (header_end, seen, s) := read_head (N.to_nat MAX_HEAD) [] s in
  if MAX_HEAD <? N.of_nat header_end then Err 431
  else
    let? (request, length) := parse_head random (take header_end seen) authority token in
    let rest := drop header_end seen in
    if length <? len rest then Err 400
    else
      let length := N.to_nat length in
      let? body := read_body (length - List.length rest) length rest s in
      Ok (with_body request body).

(** ** Responses *)
Definition error_response (status : N) : ServiceResponse :=
  mkServiceResponse status ∅ (as_bytes ("request failed (" +:+ pretty status +:+ ")" +:+ String LF "")).
Definition host_owned (lower : string) : bool :=
  existsb (fun name => bool_decide (lower = name))
    ["cache-control"; "x-content-type-options"; "trailer"; "te"; "keep-alive"; "proxy-connection"]
  || starts_with lower "access-control-".
Definition header_line (name value : string) : string := name +:+ ": " +:+ value.
(** The lines of a response before the blank one *)
Definition response_lines (response : ServiceResponse) (length : N) : list string :=
  [ "HTTP/1.1 " +:+ pretty response.(sp_status) +:+ " Response"; "Connection: close" ]
  ++ (if (response.(sp_status) =? 204) || (response.(sp_status) =? 304) then [] else [header_line "Content-Length" (pretty length)])
  ++ [ "Cache-Control: no-store"; "X-Content-Type-Options: nosniff" ]
  ++ omap (fun '(name, value) =>
       if host_owned (str_lower name) || negb (forallb printable (str_bytes value)) then None else Some (header_line name value))
       (btree_iter response.(sp_headers)).
Definition as_lines (lines : list string) : bytes := lines ≫= (fun line => as_bytes (line +:+ CRLF)).
Definition no_body (status : N) : bool := (status =? 204) || (status =? 205) || (status =? 304).
Definition sent_response (response : ServiceResponse) : ServiceResponse :=
  if is_ok (validate_service_response response) && (200 <=? response.(sp_status)) then response else error_response 502.
Definition encode_response (response : ServiceResponse) (head : bool) : bytes :=
  let response := sent_response response in
  let length := if no_body response.(sp_status) then 0 else len response.(sp_body) in
  as_lines (response_lines response length) ++ as_bytes CRLF
  ++ (if negb head && negb (no_body response.(sp_status)) then response.(sp_body) else []).
(** The bytes that were sent when every byte was *)
Fixpoint write_before (remaining sent : bytes) (s : list acceptance) : result string bytes :=
  match remaining with
  | [] => Ok sent
  | _ =>
      match s with
      | [] | Accepts O :: _ => Err "write zero"
      | WriteLate :: _ => Err "ingress deadline expired"
      | WriteBreaks error :: _ => Err error
      | Accepts n :: s => write_before (drop n remaining) (sent ++ take n remaining) s
      end
  end.
Definition write_response (response : ServiceResponse) (head : bool) (s : list acceptance) : result string bytes :=
  write_before (encode_response response head) [] s.

(** ** A client *)
Definition invocation_response (answer : result string DaemonResponse) : ServiceResponse :=
  match answer with
  | Ok (DaemonResponse.Invoked response) => if is_ok (validate_service_response response) then response else error_response 503
  | _ => error_response 503
  end.
Definition serve_client (invoke : DaemonRequest -> result string DaemonResponse) (random : bytes) (stack instance authority token : string)
    (timeout_ms : N) (s : list arrival) (calls : list acceptance) : result string bytes :=
  match read_request random s authority token with
  | Ok request =>
      let response := invocation_response (invoke (DaemonRequest.Invoke stack instance request timeout_ms)) in
      write_response response (bool_decide (request.(sr_method) = HEAD)) calls
  | Err status => write_response (error_response status) false calls
  end.
(** The clients after a connection was accepted, [true] for one whose thread has
    ended, and whether it is served: the threads that ended are joined before *)
Definition accept_ingress (clients : list bool) (loopback blocking : bool) : list bool * bool :=
  let running := List.filter negb clients in
  if negb loopback || (MAX_INGRESS_CLIENTS <=? len running) then (running, false)
  else if negb blocking then (running, false)
  else (running ++ [false], true).

(** * Theorems about the ingress

    What is forwarded was authorized and arrived whole, however it was fragmented;
    and what is answered cannot be split by what a service answers. *)

(** ** Bytes of a connection *)
Fixpoint received (s : list arrival) : bytes :=
  match s with Arrives b :: s => b ++ received s | _ => [] end.
Lemma read_some_spec limit s chunk s' :
  (0 < limit)%nat -> read_some limit s = Ok (chunk, s') -> received s = chunk ++ received s' /\ (0 < length chunk <= limit)%nat.
Proof.
  intros Hl. destruct s as [|[[|x b]| | |] s]; cbn [read_some]; try done.
  destruct (Nat.leb_spec (length (x :: b)) limit) as [Hle|Hgt]; intros [= <- <-].
  - split; [done|]. cbn [length] in *. lia.
  - cbn [received]. rewrite app_assoc, take_drop. split; [done|]. rewrite length_take. lia.
Qed.
Lemma read_head_spec fuel seen s n seen' s' :
  read_head fuel seen s = Ok (n, seen', s') ->
  seen ++ received s = seen' ++ received s' /\ exists i, find_blank seen' = Some i /\ n = (i + 4)%nat.
Proof.
  revert seen s. induction fuel as [|fuel IH]; intros seen s; cbn [read_head].
  - destruct (find_blank seen) as [i|] eqn:Hi; [|by destruct (_ <=? _)]. intros [= <- <- <-]. split; [done|]. by exists i.
  - destruct (find_blank seen) as [i|] eqn:Hi; [intros [= <- <- <-]; split; [done|]; by exists i|].
    destruct (_ <=? _); [done|]. destruct (read_some 1024 s) as [[chunk s1]|] eqn:Hr; [|done].
    apply read_some_spec in Hr as [-> _]; [|lia]. intros [Ha Hb]%IH. by rewrite app_assoc.
Qed.
Lemma read_body_spec fuel n body s body' :
  (n - length body <= fuel)%nat -> (length body <= n)%nat -> read_body fuel n body s = Ok body' ->
  body' = take n (body ++ received s) /\ length body' = n.
Proof.
  revert body s. induction fuel as [|fuel IH]; intros body s Hf Hn; cbn [read_body].
  - destruct (Nat.leb_spec n (length body)); [|lia]. intros [= <-]. split; [|lia]. rewrite take_app_le by lia. by rewrite take_ge by lia.
  - destruct (Nat.leb_spec n (length body)); [intros [= <-]; split; [|lia]; rewrite take_app_le by lia; by rewrite take_ge by lia|].
    destruct (read_some _ s) as [[chunk s1]|] eqn:Hr; [|done]. apply read_some_spec in Hr as [-> Hc]; [|lia].
    intros H1. apply IH in H1; [by rewrite app_assoc|rewrite length_app; lia..].
Qed.

Lemma fmap_Some_S (o : option nat) i : S <$> o = Some (S i) <-> o = Some i.
Proof. destruct o; cbn; naive_solver. Qed.
Lemma find_blank_spec l i : find_blank l = Some i <-> take 4 (drop i l) = blank_line /\ forall j, (j < i)%nat -> take 4 (drop j l) <> blank_line.
Proof.
  revert i. induction l as [|a l IH]; intros i; cbn [find_blank].
  - split; [done|]. intros [H _]. by rewrite drop_nil in H.
  - case_bool_decide as Hb.
    + split; [intros [= <-]; split; [done|lia]|]. intros [H1 H2]. destruct i as [|i]; [done|]. by destruct (H2 0%nat); [lia|].
    + destruct i as [|i].
      * split; [by destruct (find_blank l)|]. intros [H1 _]. done.
      * rewrite fmap_Some_S, (IH i). split; intros [H1 H2]; (split; [done|]).
        -- intros [|j] Hj; [done|]. apply (H2 j). lia.
        -- intros j Hj. apply (H2 (S j)). lia.
Qed.
Lemma find_blank_fits l i : find_blank l = Some i -> (i + 4 <= length l)%nat.
Proof.
  intros [H _]%find_blank_spec. apply (f_equal length) in H. rewrite length_take, length_drop in H. cbn [length blank_line] in H. lia.
Qed.
Lemma find_blank_take l i : find_blank l = Some i -> find_blank (take (i + 4) l) = Some i.
Proof.
  intros H. pose proof (find_blank_fits _ _ H) as Hf. apply find_blank_spec in H as [H1 H2]. apply find_blank_spec.
  assert (forall j, (j <= i)%nat -> take 4 (drop j (take (i + 4) l)) = take 4 (drop j l)) as Hsame.
  { intros j Hj. rewrite skipn_firstn_comm, take_take. f_equal. lia. }
  split; [by rewrite Hsame|]. intros j Hj. rewrite Hsame by lia. by apply H2.
Qed.

(** ** Credentials *)
Lemma xor_fold l acc : foldl (fun acc (ab : N * N) => N.lor acc (N.lxor ab.1 ab.2)) acc l = 0 <-> acc = 0 /\ Forall (fun ab => ab.1 = ab.2) l.
Proof.
  revert acc. induction l as [|[a b] l IH]; intros acc; cbn [foldl]; [by split; [split|intros []]|].
  rewrite IH, Forall_cons. cbn [fst snd]. rewrite N.lor_eq_0_iff, N.lxor_eq_0_iff. naive_solver.
Qed.
Lemma zip_equal (l l' : list N) : length l = length l' -> Forall (fun ab => ab.1 = ab.2) (zip l l') -> l = l'.
Proof. revert l'. induction l as [|a l IH]; intros [|b l']; cbn; try done. intros [= Hl]. rewrite Forall_cons. cbn [fst snd]. intros [-> Hf]. f_equal. by apply IH. Qed.
Lemma str_bytes_equal a b : str_bytes a = str_bytes b -> a = b.
Proof.
  revert b. induction a as [|x a IH]; intros [|y b]; cbn [str_bytes]; try done. intros [= Hx Hab]. f_equal; [|by apply IH].
  by rewrite <- (ascii_N_embedding x), Hx, ascii_N_embedding.
Qed.
Lemma same_secret_iff a b : same_secret a b = true <-> a = b.
Proof.
  unfold same_secret. rewrite andb_true_iff, !N.eqb_eq, xor_fold. split.
  - intros [Hl [_ Hf]]. apply str_bytes_equal, zip_equal; [|done]. unfold str_len, len in Hl. lia.
  - intros ->. split; [done|]. split; [done|]. induction (str_bytes b) as [|x l IH]; [by constructor|]. by constructor.
Qed.

(** ** What a head says *)
Record authorized_head (random content : bytes) (authority token : string) (request : ServiceRequest) (length : N) : Prop := {
  ah_valid : validate_service_request request = Ok tt;
  ah_id : request.(sr_id) = hex_encode random;
  ah_headers : exists text headers,
    from_utf8 content = Some (text +:+ CRLF +:+ CRLF)
    /\ parse_headers ∅ (tail (split_crlf text)) = Ok headers
    /\ headers !! "host" = Some authority
    /\ headers !! "authorization" = Some ("Bearer " +:+ token)
    /\ headers !! "origin" = None
    /\ (forall v, headers !! "sec-fetch-site" = Some v -> v = "none")
    /\ (forall name, name ∈ refused_headers -> headers !! name = None)
    /\ content_length (headers !! "content-length") = Ok length
    /\ request.(sr_headers) = delete "content-length" (delete "connection" (delete "authorization" (delete "host" headers)));
}.
Lemma strip_suffix_tail suffix s r : strip_suffix suffix s = Some r -> s = r +:+ suffix.
Proof.
  revert r. induction s as [|a s IH]; intros r; cbn [strip_suffix].
  - case_bool_decide; [|done]. intros [= <-]. by subst.
  - case_bool_decide; [intros [= <-]; by subst|]. destruct (strip_suffix suffix s) as [r'|]; [|done]. intros [= <-].
    change (String a s = String a (r' +:+ suffix)). f_equal. by apply IH.
Qed.
Lemma parse_head_spec random content authority token request n :
  parse_head random content authority token = Ok (request, n) ->
  authorized_head random content authority token request n /\ request.(sr_body) = [] /\ n <= MAX_SERVICE_REQUEST_BYTES.
Proof.
  unfold parse_head. destruct (from_utf8 content) as [whole|] eqn:Hwhole; [|done]. cbn [ok_or].
  destruct (strip_suffix _ whole) as [text|] eqn:Htext; [|done]. cbn [ok_or]. apply strip_suffix_tail in Htext. cbv zeta.
  destruct (head _) as [line|]; [|done]. cbn [ok_or]. destruct (parse_method _) as [method|]; [|done]. cbn [ok_or].
  destruct (_ !! 1%nat) as [path|]; [|done]. cbn [ok_or]. pass Hparts. succeed headers Hheaders. pass Hhost. pass Horigin.
  destruct (delete "host" headers !! "authorization") as [actual|] eqn:Hauth; [|done]. cbn [ok_or]. pass Hsecret. pass Hrefused. pass Hconn.
  succeed declared Hlength. pass Hmax. destruct (validate_service_request _) as [[]|] eqn:Hv; [|done]. intros [= <- <-].
  apply negb_false_iff, bool_decide_eq_true in Hhost. apply negb_false_iff, same_secret_iff in Hsecret. subst actual.
  apply orb_false_iff in Horigin as [Horigin Hfetch]. apply N.ltb_ge in Hmax.
  rewrite lookup_delete_ne in Hauth, Horigin, Hfetch by done. rewrite !lookup_delete_ne in Hlength by done.
  split; [|done]. constructor; [done|done|]. exists text, headers.
  split; [by rewrite Hwhole, Htext|]. split; [done|]. split; [done|]. split; [done|]. split; [by destruct (headers !! "origin")|].
  split. { intros v Hs. rewrite Hs in Hfetch. cbn [is_some_and] in Hfetch. by apply negb_false_iff, bool_decide_eq_true in Hfetch. }
  split; [|done]. intros name Hin. destruct (headers !! name) as [v|] eqn:Hn; [exfalso|done].
  assert (existsb (fun name => is_some (delete "authorization" (delete "host" headers) !! name)) refused_headers = true) as Hyes; [|congruence].
  apply existsb_exists. exists name. split; [by apply list_elem_of_In|]. rewrite !lookup_delete_ne; [by rewrite Hn|..];
    intros <-; apply (bool_decide_eq_true_2 _) in Hin; vm_compute in Hin; done.
Qed.
Lemma with_body_valid request body :
  validate_service_request request = Ok tt -> len body <= MAX_SERVICE_REQUEST_BYTES -> validate_service_request (with_body request body) = Ok tt.
Proof.
  unfold validate_service_request. cbn [with_body sr_id sr_path sr_headers sr_body]. destruct (_ || _); [done|]. intros H Hb.
  destruct (negb (valid_service_path _)); [done|]. cbn [orb] in *. destruct (_ <? len (sr_body request)); [done|].
  destruct (N.ltb_spec MAX_SERVICE_REQUEST_BYTES (len body)); [lia|done].
Qed.


(** ** Fragments *)
Lemma read_some_delivers limit s rest :
  (0 < limit)%nat -> rest <> [] -> delivers s rest ->
  exists chunk s' rest', read_some limit s = Ok (chunk, s') /\ delivers s' rest' /\ rest = chunk ++ rest' /\ (0 < length chunk <= limit)%nat.
Proof.
  intros Hl Hne Hs. destruct Hs as [|b s rest Hb Hs]; [done|].
  assert (read_some limit (Arrives b :: s) = if (length b <=? limit)%nat then Ok (b, s) else Ok (take limit b, Arrives (drop limit b) :: s)) as ->
    by (by destruct b).
  destruct (Nat.leb_spec (length b) limit) as [Hle|Hgt].
  - exists b, s, rest. split_and!; [done..| |done]. destruct b; [done|cbn; lia].
  - exists (take limit b), (Arrives (drop limit b) :: s), (drop limit b ++ rest). split; [done|]. split.
    { constructor; [|done]. intros Hnil. apply (f_equal length) in Hnil. rewrite length_drop in Hnil. cbn in Hnil. lia. }
    rewrite app_assoc, take_drop. split; [done|]. rewrite length_take. lia.
Qed.
Lemma read_head_delivers fuel seen s rest whole i :
  (N.to_nat MAX_HEAD - length seen <= fuel)%nat -> seen ++ rest = whole -> delivers s rest -> find_blank whole = Some i -> N.of_nat (i + 4) <= MAX_HEAD ->
  exists seen' s' rest', read_head fuel seen s = Ok ((i + 4)%nat, seen', s') /\ delivers s' rest' /\ seen' ++ rest' = whole /\ (i + 4 <= length seen')%nat.
Proof.
  intros Hf Hall Hs Hi Hmax. pose proof (find_blank_fits _ _ Hi) as Hfits. pose proof (find_blank_take _ _ Hi) as Htake. apply find_blank_spec in Hi as [Hat Hfirst].
  revert seen s rest Hf Hall Hs. induction fuel as [|fuel IH]; intros seen s rest Hf Hall Hs.
  all: assert (forall j, (j + 4 <= length seen)%nat -> take 4 (drop j seen) = take 4 (drop j whole)) as Hsame
    by (intros j Hj; subst whole; rewrite drop_app_le, take_app_le by (rewrite ?length_drop; lia); done).
  all: destruct (decide (i + 4 <= length seen)%nat) as [Hin|Hout].
  1,3: exists seen, s, rest; assert (find_blank seen = Some i) as Hb
    by (apply find_blank_spec; split; [by rewrite Hsame|intros j Hj; rewrite Hsame by lia; by apply Hfirst]); cbn [read_head]; by rewrite Hb.
  all: assert (find_blank seen = None) as Hb by (destruct (find_blank seen) as [j|] eqn:Hj; [|done]; exfalso;
    pose proof (find_blank_fits _ _ Hj); apply find_blank_spec in Hj as [Hj _]; rewrite Hsame in Hj by lia; apply (Hfirst j); [lia|done]).
  - lia.
  - cbn [read_head]. rewrite Hb. destruct (N.leb_spec MAX_HEAD (len seen)) as [Hge|_]; [unfold len in Hge; lia|].
    destruct (read_some_delivers 1024 s rest) as (chunk & s1 & rest1 & -> & Hs1 & -> & Hc); [lia| |done|].
    { intros ->. rewrite app_nil_r in Hall. subst whole. lia. }
    apply (IH _ _ rest1); [rewrite length_app; lia|by rewrite <- app_assoc|done].
Qed.
Lemma read_body_delivers fuel n body s rest :
  (n - length body <= fuel)%nat -> length (body ++ rest) = n -> delivers s rest -> read_body fuel n body s = Ok (body ++ rest).
Proof.
  revert body s rest. induction fuel as [|fuel IH]; intros body s rest Hf Hn Hs; rewrite length_app in Hn; cbn [read_body].
  all: destruct (Nat.leb_spec n (length body)); [assert (rest = []) as -> by (apply nil_length_inv; lia); by rewrite app_nil_r|].
  - lia.
  - destruct (read_some_delivers (Nat.min (N.to_nat 8192) (n - length body)) s rest) as (chunk & s1 & rest1 & -> & Hs1 & -> & Hc); [lia| |done|].
    { intros ->. cbn in Hn. lia. }
    rewrite length_app in Hn. rewrite (IH _ _ rest1), <- app_assoc; [done|rewrite length_app; lia|rewrite !length_app; lia|done].
Qed.
(** A request is read however it is fragmented: whatever pieces a head of at most
    16 KiB and the body it declares arrive in, the request is that of the head with
    that body. *)
Theorem fragmented_request_is_read (random content body : bytes) (pieces : list arrival) (authority token : string) (request : ServiceRequest) (i : nat) :
  find_blank (content ++ body) = Some i -> length content = (i + 4)%nat -> len content <= MAX_HEAD ->
  parse_head random content authority token = Ok (request, len body) -> delivers pieces (content ++ body) ->
  read_request random pieces authority token = Ok (with_body request body).
Proof.
  intros Hi Hlen Hmax Hp Hd.
  destruct (read_head_delivers (N.to_nat MAX_HEAD) [] pieces (content ++ body) (content ++ body) i) as (seen & s & rest & Hh & Hs & Hall & Hin); [cbn; lia|done|done|done|unfold len in Hmax; lia|].
  unfold read_request. rewrite Hh. destruct (N.ltb_spec MAX_HEAD (N.of_nat (i + 4))) as [Hbad|_]; [unfold len in Hmax; lia|].
  assert (take (i + 4) seen = content) as ->.
  { apply (f_equal (take (i + 4))) in Hall. rewrite take_app_le in Hall by lia. rewrite Hall, take_app_le by lia. rewrite take_ge by lia. done. }
  assert (drop (i + 4) seen ++ rest = body) as Hbody.
  { apply (f_equal (drop (i + 4))) in Hall. rewrite drop_app_le in Hall by lia. by rewrite Hall, <- Hlen, drop_app_length. }
  rewrite Hp. cbv zeta. destruct (N.ltb_spec (len body) (len (drop (i + 4) seen))) as [Hbad|_].
  { rewrite <- Hbody in Hbad. unfold len in Hbad. rewrite length_app in Hbad. lia. }
  rewrite (read_body_delivers _ _ _ _ rest); [by rewrite Hbody|lia|rewrite Hbody; unfold len; lia|done].
Qed.

(** ** Responses *)
Definition field_name (line : string) : option string := (fun p => str_lower p.1) <$> split_once ":" line.
(** The lines that say where a response ends *)
Definition framing_line (line : string) : bool :=
  existsb (fun name => bool_decide (field_name line = Some name)) ["connection"; "content-length"; "transfer-encoding"].
Definition printable_line (line : string) : Prop := line <> "" /\ forallb printable (str_bytes line) = true.

Lemma bytes_of_append a b : str_bytes (a +:+ b) = str_bytes a ++ str_bytes b.
Proof. induction a as [|x a IH]; [done|]. change (String x a +:+ b) with (String x (a +:+ b)). cbn [str_bytes]. by rewrite IH. Qed.
Lemma as_bytes_append a b : as_bytes (a +:+ b) = as_bytes a ++ as_bytes b.
Proof. unfold as_bytes. by rewrite bytes_of_append, fmap_app. Qed.
Lemma pretty_char_digit x : is_ascii_digit (N_of_ascii (pretty_N_char x)) = true.
Proof. destruct x as [|[[[[]|[]|]|[[]|[]|]|]|[[[]|[]|]|[[]|[]|]|]|]]; reflexivity. Qed.
Lemma pretty_digits (n : N) : forallb is_ascii_digit (str_bytes (pretty n)) = true.
Proof.
  unfold pretty, pretty_N. destruct (decide (n = 0)) as [->|Hn]; [done|].
  assert (forall s, forallb is_ascii_digit (str_bytes s) = true -> forallb is_ascii_digit (str_bytes (pretty_N_go n s)) = true) as Hgo; [|by apply Hgo].
  clear Hn. induction (N.lt_wf_0 n) as [n _ IH]. intros s Hs. destruct (decide (0 < n)%N) as [Hpos|Hz].
  - rewrite pretty_N_go_step by done. apply IH; [apply N.div_lt; lia|]. cbn [str_bytes forallb]. by rewrite pretty_char_digit.
  - assert (n = 0) as -> by lia. by rewrite pretty_N_go_0.
Qed.
Lemma digit_printable b : is_ascii_digit b = true -> printable b = true /\ b <> 58.
Proof. unfold is_ascii_digit, printable, in_range. rewrite !andb_true_iff, !N.leb_le. lia. Qed.
Lemma pretty_printable (n : N) : forallb printable (str_bytes (pretty n)) = true.
Proof. apply forallb_forall. intros b Hb. pose proof (pretty_digits n) as Hd. rewrite forallb_forall in Hd. by apply digit_printable, Hd. Qed.
Lemma split_once_none s : 58 ∉ str_bytes s -> split_once ":" s = None.
Proof.
  induction s as [|a s IH]; [done|]. cbn [str_bytes split_once]. intros [Ha Hs]%not_elem_of_cons.
  rewrite bool_decide_eq_false_2; [by rewrite (IH Hs)|]. by intros ->.
Qed.
Lemma printable_no_cr s : forallb printable (str_bytes s) = true -> x0d ∉ as_bytes s.
Proof.
  intros Hp Hin. apply list_elem_of_fmap in Hin as (n & Hx & Hin). rewrite forallb_forall in Hp. apply list_elem_of_In, Hp in Hin.
  destruct (Byte.of_N n) as [b|] eqn:Hb; [|done]. cbn in Hx. subst b. apply Byte.to_of_N in Hb. subst n. done.
Qed.
Lemma find_blank_skip l t : x0d ∉ l -> find_blank (l ++ t) = (fun i => (length l + i)%nat) <$> find_blank t.
Proof.
  induction l as [|a l IH]; intros Hl; [cbn; by destruct (find_blank t)|]. apply not_elem_of_cons in Hl as [Ha Hl]. cbn [app find_blank].
  rewrite bool_decide_eq_false_2 by (cbn [take]; unfold blank_line; congruence). rewrite (IH Hl). by destruct (find_blank t).
Qed.
Lemma find_blank_lines lines body :
  lines <> [] -> Forall printable_line lines ->
  (2 <= length (as_lines lines))%nat /\ find_blank (as_lines lines ++ as_bytes CRLF ++ body) = Some (length (as_lines lines) - 2)%nat.
Proof.
  intros Hne Hall. induction Hall as [|line lines [Hsome Hline] Hall IH]; [done|]. clear Hne.
  unfold as_lines in *. cbn [mbind list_bind]. fold (mbind (M := list) (fun line => as_bytes (line +:+ CRLF)) lines).
  rewrite as_bytes_append. change (as_bytes CRLF) with [x0d; x0a] in *. rewrite <- !app_assoc, !length_app. cbn [length].
  split; [lia|]. rewrite find_blank_skip by (by apply printable_no_cr). destruct lines as [|next lines].
  - cbn [mbind list_bind app find_blank take]. rewrite bool_decide_eq_true_2 by done. cbn. f_equal. lia.
  - destruct (IH ltac:(done)) as [Htwo IH']. clear IH. set (rest := mbind (M := list) _ (next :: lines)) in *.
    assert (exists c r, rest = c :: r /\ c <> x0d) as (c & r & Hrest & Hc).
    { inversion Hall as [|? ? [Hs Hp] _]; subst. destruct next as [|a next]; [done|]. apply printable_no_cr in Hp. subst rest.
      cbn [mbind list_bind]. rewrite as_bytes_append. unfold as_bytes in *. cbn [str_bytes fmap list_fmap app] in *.
      eexists _, _. split; [done|]. set_solver. }
    rewrite Hrest in *. cbn [app find_blank take] in *. rewrite (bool_decide_eq_false_2 (_ = blank_line)) by (unfold blank_line; congruence).
    rewrite (bool_decide_eq_false_2 (_ = blank_line)) by (unfold blank_line; congruence). rewrite IH'. cbn. f_equal. cbn in Htwo. lia.
Qed.
(** A header that passed the check of a response *)
Definition sound_header (h : string * string) : Prop :=
  h.1 <> "" /\ forallb header_name_byte (str_bytes h.1) = true /\ str_lower h.1 ∉ forbidden_headers.
Lemma check_headers_sound size seen l total : check_headers size seen l = Ok total -> Forall sound_header l.
Proof.
  revert size seen. induction l as [|[name value] l IH]; intros size seen; [constructor|]. cbn [check_headers]. pass Hg. cbv zeta. pass Hd. pass Hf.
  destruct (checked_add _ _ _); [|done]. cbn [ok_or]. intros H1%IH. constructor; [|done].
  apply orb_false_iff in Hg as [Hg _]. apply orb_false_iff in Hg as [Hg Hn]. apply orb_false_iff in Hg as [He _].
  unfold str_is_empty in He. split_and!; [by apply bool_decide_eq_false in He|by apply negb_false_iff in Hn|by apply bool_decide_eq_false in Hf].
Qed.
Lemma sent_headers_sound response : Forall sound_header (btree_iter (sent_response response).(sp_headers)).
Proof.
  unfold sent_response. destruct (validate_service_response response) as [[]|] eqn:Hv; cbn [is_ok andb]; [|constructor].
  destruct (200 <=? _); [|constructor]. revert Hv. unfold validate_service_response. pass Hg. unfold validate_headers. pass Hl.
  destruct (check_headers _ _ _) eqn:Hc; [|done]. intros _. by eapply check_headers_sound.
Qed.
Lemma name_byte_printable b : header_name_byte b = true -> printable b = true /\ b <> 58.
Proof.
  unfold header_name_byte, is_ascii_alphanumeric, is_ascii_digit, is_ascii_lowercase, is_ascii_uppercase, printable, in_range. cbn [str_bytes existsb N_of_ascii N_of_digits].
  rewrite !orb_true_iff, !andb_true_iff, !N.leb_le, !N.eqb_eq. lia.
Qed.
Lemma split_name name value :
  forallb header_name_byte (str_bytes name) = true -> split_once ":" (name +:+ String ":" value) = Some (name, value).
Proof.
  induction name as [|a name IH]; [done|]. cbn [str_bytes forallb]. intros [Ha Hn]%andb_true_iff.
  change (String a name +:+ String ":" value) with (String a (name +:+ String ":" value)). cbn [split_once].
  rewrite bool_decide_eq_false_2; [by rewrite (IH Hn)|]. intros ->. by apply name_byte_printable in Ha as [_ Ha].
Qed.
Lemma header_line_spec name value :
  name <> "" -> forallb header_name_byte (str_bytes name) = true -> forallb printable (str_bytes value) = true ->
  printable_line (header_line name value) /\ field_name (header_line name value) = Some (str_lower name).
Proof.
  intros He Hn Hv. unfold header_line. split; [split|].
  - by destruct name.
  - rewrite !bytes_of_append, !forallb_app, Hv, andb_true_r.
    apply forallb_forall. intros b Hb. rewrite forallb_forall in Hn. by apply name_byte_printable, Hn.
  - unfold field_name. change (": " +:+ value) with (String ":" (String " " value)). by rewrite split_name.
Qed.
(** Every line is printable, and two of them say where the response ends *)
Lemma response_lines_spec response n :
  Forall sound_header (btree_iter response.(sp_headers)) ->
  Forall printable_line (response_lines response n)
  /\ List.filter framing_line (response_lines response n)
     = "Connection: close" :: (if (response.(sp_status) =? 204) || (response.(sp_status) =? 304) then [] else [header_line "Content-Length" (pretty n)]).
Proof.
  intros Hs. unfold response_lines. set (guest := omap _ _).
  assert (Forall (fun line => printable_line line /\ framing_line line = false) guest) as Hguest.
  { apply Forall_forall. intros line ([name value] & Hin & Hl)%list_elem_of_omap. destruct (host_owned _); [done|].
    destruct (forallb printable (str_bytes value)) eqn:Hv; [|done]. injection Hl as <-. rewrite Forall_forall in Hs. apply Hs in Hin as (He & Hn & Hf).
    destruct (header_line_spec name value He Hn Hv) as [Hp Hfield]. split; [done|]. unfold framing_line. rewrite Hfield.
    apply not_true_iff_false. intros (x & Hx & Hd)%existsb_exists. apply bool_decide_eq_true in Hd. injection Hd as Hd. apply Hf. cbn [fst]. rewrite Hd.
    cbn in Hx. destruct Hx as [<-|[<-|[<-|[]]]]; apply (bool_decide_unpack _); vm_compute; done. }
  assert (List.filter framing_line guest = []) as Hnone.
  { clear -Hguest. induction Hguest as [|l g [_ Hl] _ IH]; [done|]. cbn [List.filter]. by rewrite Hl. }
  assert (printable_line ("HTTP/1.1 " +:+ pretty (sp_status response) +:+ " Response")) as Hstatus.
  { split; [done|]. by rewrite !bytes_of_append, !forallb_app, pretty_printable. }
  assert (framing_line ("HTTP/1.1 " +:+ pretty (sp_status response) +:+ " Response") = false) as Hplain.
  { unfold framing_line, field_name. rewrite split_once_none; [done|]. rewrite !bytes_of_append, !elem_of_app.
    intros [Hin|[Hin|Hin]]; [|pose proof (pretty_digits (sp_status response)) as Hd; rewrite forallb_forall in Hd; by apply list_elem_of_In, Hd, digit_printable in Hin as [_ ?]|];
      apply (bool_decide_eq_true_2 _) in Hin; vm_compute in Hin; done. }
  destruct (header_line_spec "Content-Length" (pretty n)) as [Hlp Hlf]; [done..|apply pretty_printable|].
  split.
  - apply Forall_app. split; [constructor; [exact Hstatus|]; by repeat constructor|]. apply Forall_app. split.
    { destruct (_ || _); [constructor|]. constructor; [exact Hlp|constructor]. }
    apply Forall_app. split; [by repeat constructor|]. eapply Forall_impl; [exact Hguest|]. by intros x [].
  - rewrite !List.filter_app, Hnone. cbn [List.filter]. rewrite Hplain. destruct (_ || _); [done|]. cbn [List.filter].
    assert (framing_line (header_line "Content-Length" (pretty n)) = true) as ->; [|done]. unfold framing_line. rewrite Hlf. done.
Qed.
Lemma sent_status response : 200 <= (sent_response response).(sp_status) <= 599.
Proof.
  unfold sent_response. destruct (validate_service_response response) as [[]|] eqn:Hv; cbn [is_ok andb]; [|done].
  destruct (N.leb_spec 200 (sp_status response)) as [Hs|]; [|done]. revert Hv. unfold validate_service_response.
  destruct (in_range _ _ _) eqn:Hr; [|done]. intros _. apply andb_true_iff in Hr as [_ Hr]. apply N.leb_le in Hr. lia.
Qed.
(** C12: A service cannot split the response of the ingress or lie about its length: for
    every response, valid or not, the encoding is lines of printable characters, a
    blank line, and the body; the first blank line a client finds is that one; of the
    lines that say where a response ends there are exactly the connection that closes
    and, for every status that can have a body, one length, which is that of the body
    unless the request was for the head alone. *)
Theorem response_cannot_be_split (response : ServiceResponse) (head : bool) :
  let sent := sent_response response in
  let encoded := encode_response response head in
  exists lines body n,
    encoded = as_lines lines ++ as_bytes CRLF ++ body
    /\ find_blank encoded = Some (length (as_lines lines) - 2)%nat
    /\ Forall printable_line lines
    /\ List.filter framing_line lines
       = "Connection: close" :: (if (sent.(sp_status) =? 204) || (sent.(sp_status) =? 304) then [] else [header_line "Content-Length" (pretty n)])
    /\ 200 <= sent.(sp_status) <= 599
    /\ (no_body sent.(sp_status) = true -> n = 0 /\ body = [])
    /\ (no_body sent.(sp_status) = false -> n = len sent.(sp_body) /\ body = if head then [] else sent.(sp_body)).
Proof.
  cbv zeta. unfold encode_response. cbv zeta. set (sent := sent_response response). set (n := if no_body _ then 0 else _).
  set (body := if negb head && _ then _ else _). exists (response_lines sent n), body, n.
  destruct (response_lines_spec sent n (sent_headers_sound response)) as [Hp Hf].
  destruct (find_blank_lines (response_lines sent n) body) as [_ Hb]; [done|done|]. split_and!; [done|done|done|done|..].
  1,2: apply sent_status.
  - intros Hn. subst n body. rewrite Hn. by rewrite andb_false_r.
  - intros Hn. subst n body. rewrite Hn. by destruct head.
Qed.

(** ** A concrete exchange *)
Definition demo_authority : string := "127.0.0.1:8080".
Definition demo_token : string := hex_encode (replicate 32 x0a).
Definition demo_head : bytes :=
  as_lines ["POST /health HTTP/1.1"; "Host: 127.0.0.1:8080"; "Authorization: Bearer " +:+ demo_token; "Content-Length: 4"; "Content-Type: text/plain"]
  ++ as_bytes CRLF.
Definition demo_pieces : list arrival := [Arrives (take 30 demo_head); Arrives (drop 30 demo_head ++ as_bytes "pi"); Arrives (as_bytes "ng")].
Definition demo_request : ServiceRequest :=
  mkServiceRequest (hex_encode (replicate 32 x01)) POST "/health" {[ "content-type" := "text/plain" ]} (as_bytes "ping").
Lemma fragmented_request_is_read_witness :
  read_request (replicate 32 x01) demo_pieces demo_authority demo_token = Ok (with_body (with_body demo_request []) (as_bytes "ping")).
Proof.
  apply (fragmented_request_is_read (replicate 32 x01) demo_head (as_bytes "ping") demo_pieces demo_authority demo_token
    (with_body demo_request []) (length demo_head - 4)); [vm_compute; reflexivity|vm_compute; reflexivity|vm_compute; discriminate|vm_compute; reflexivity|].
  change (demo_head ++ as_bytes "ping") with (take 30 demo_head ++ (drop 30 demo_head ++ as_bytes "pi") ++ as_bytes "ng" ++ []).
  repeat constructor; vm_compute; discriminate.
Defined.
