(* ===== verification/Capsule.v ===== *)
(** * Capsules ([crates/cartridge-cli/src/capsule.rs])

    A capsule records one run: the package, the snapshot it started from, its trace
    and the snapshot it ended with, each as a file beside the capsule with its size
    and digest, and what they say about each other.  Creating, inspecting, comparing
    and verifying capsules, and loading the inputs of a replay, as runs of system
    calls.  Paths are directories and names that are already resolved, so resolving
    one asks only whether the file is there; the texts of errors leave out the quoted
    paths. *)
From stdpp Require Import pretty.
From S2P Require Import Prelude Text Core Storage StorageSpec Files Snapshot Directory DirectoryTheorems Blob Network NetworkTheorems Manifest ManifestTheorems Trace Archive ArchiveTheorems Host Desktop Planning PlanningTheorems Documents.

Definition CAPSULE_FORMAT_VERSION : N := 1.
Definition MAX_CAPSULE_BYTES : N := 128 * 1024.
Definition MAX_CAPSULE_PACKAGE_BYTES : N := 256 * 1024 * 1024.
Definition MAX_ARTIFACT_PATH_BYTES : N := 512.
Definition MAX_ARGUMENTS : N := 4096.
Definition MAX_ARGUMENT_BYTES : N := 1024 * 1024.
Definition MAX_EVENTS : N := 100000.
Definition MAX_OUTPUT_BYTES : N := 1024 * 1024.
Definition MAX_BLOB_REFERENCES : N := 100000.
Definition CAPSULE_PREFIX : string := ".cartridge-capsule-".

(** ** Data *)
Record ArtifactReference := mkArtifact { af_path : string; af_bytes : N; af_sha256 : string }.
#[global] Instance artifact_eq_dec : EqDecision ArtifactReference.
Proof. solve_decision. Defined.
Record SnapshotReference := mkSnapshotReference {
  sf_artifact : ArtifactReference;
  sf_state_schema : N;
  sf_entries : N;
  sf_bytes : N;
  sf_payload_sha256 : string;
}.
#[global] Instance snapshot_reference_eq_dec : EqDecision SnapshotReference.
Proof. solve_decision. Defined.
Record TraceReference := mkTraceReference {
  tf_artifact : ArtifactReference;
  tf_format_version : N;
  tf_event_count : N;
  tf_output_bytes : N;
  tf_output_sha256 : string;
  tf_fuel_consumed : N;
}.
#[global] Instance trace_reference_eq_dec : EqDecision TraceReference.
Proof. solve_decision. Defined.
Record CapsulePayload := mkCapsulePayload {
  cp_format_version : N;
  cp_cartridge_id : string;
  cp_cartridge_version : string;
  cp_component_sha256 : string;
  cp_runtime_version : string;
  cp_argument_count : N;
  cp_argument_bytes : N;
  cp_arguments_sha256 : string;
  cp_package : ArtifactReference;
  cp_source_snapshot : SnapshotReference;
  cp_trace : TraceReference;
  cp_result_snapshot : SnapshotReference;
}.
#[global] Instance capsule_payload_eq_dec : EqDecision CapsulePayload.
Proof. solve_decision. Defined.
Record Capsule := mkCapsule { cs_payload : CapsulePayload; cs_payload_sha256 : string }.
#[global] Instance capsule_eq_dec : EqDecision Capsule.
Proof. solve_decision. Defined.
Record CapsuleSummary := mkCapsuleSummary {
  cy_format_version : N;
  cy_cartridge_id : string;
  cy_cartridge_version : string;
  cy_component_sha256 : string;
  cy_runtime_version : string;
  cy_argument_count : N;
  cy_argument_bytes : N;
  cy_arguments_sha256 : string;
  cy_source_schema : N;
  cy_source_entries : N;
  cy_source_bytes : N;
  cy_source_snapshot_sha256 : string;
  cy_result_schema : N;
  cy_result_entries : N;
  cy_result_bytes : N;
  cy_result_snapshot_sha256 : string;
  cy_trace_events : N;
  cy_trace_output_bytes : N;
  cy_trace_output_sha256 : string;
  cy_fuel_consumed : N;
  cy_capsule_sha256 : string;
}.
Record CapsuleVerification := mkCapsuleVerification {
  cv_valid : bool;
  cv_capsule : CapsuleSummary;
  cv_package_path : string;
  cv_source_snapshot_path : string;
  cv_trace_path : string;
  cv_result_snapshot_path : string;
}.
(** [CapsuleDifference::Field] *)
Record CapsuleDifference := mkDifference { cd_field : string; cd_left : Value; cd_right : Value }.
Record CapsuleComparison := mkCapsuleComparison { cc_identical : bool; cc_difference : option CapsuleDifference }.
Record CapsuleReplayInputs := mkReplayInputs {
  cr_package_path : Path;
  cr_package : CartridgeArchive;
  cr_trace : ExecutionTrace;
  cr_source : StorageSnapshot;
  cr_arguments : list string;
  cr_summary : CapsuleSummary;
}.
Record CapsuleBlobReachability := mkBlobReachability { cb_capsule_sha256 : string; cb_references : gmap string N }.

(** ** Paths *)
Definition bad_part (part : string) : bool :=
  str_is_empty part || bool_decide (part = ".") || bool_decide (part = "..") || existsb char_is_control (str_chars part).
(** The components of a resolved path below the resolved directory *)
Definition relative_parts (root : string) (path : Path) : option (list string) :=
  if bool_decide (path.1 = root) then Some [path.2]
  else (fun below => split_on "/" below ++ [path.2]) <$> strip_prefix (root +:+ "/") path.1.
Definition portable_path (parts : list string) : result string string :=
  if existsb (fun part => bad_part part || contains_char part "/" || contains_char part "\") parts then Err "capsule artifact path is not portable"
  else match parts with [] => Err "capsule artifact path is empty" | _ => Ok (String.concat "/" parts) end.
Definition path_from_portable (value : string) : result string (list string) :=
  if starts_with_char value "/" || contains_char value "\" then Err "capsule artifact path is not a safe relative path"
  else
    let parts := split_on "/" value in
    if existsb (fun part => bad_part part || contains_char part ":") parts then Err "capsule artifact path is not a safe relative path"
    else Ok parts.
(** [root.join(path)] *)
Fixpoint join_parts (root : string) (parts : list string) : Path :=
  match parts with
  | [] => (root, "")
  | [name] => (root, name)
  | part :: parts => join_parts (root +:+ "/" +:+ part) parts
  end.
(** [canonical.starts_with(root)] *)
Definition within_root (root : string) (path : Path) : bool := bool_decide (path.1 = root) || starts_with path.1 (root +:+ "/").

(** ** Checks *)
Definition capsule_label (value : string) (limit : N) : bool :=
  negb (str_is_empty value) && (str_len value <=? limit) && negb (existsb char_is_control (str_chars value)).
Definition validate_artifact (artifact : ArtifactReference) (limit : N) : result string unit :=
  if str_is_empty artifact.(af_path) || (MAX_ARTIFACT_PATH_BYTES <? str_len artifact.(af_path)) || (limit <? artifact.(af_bytes))
     || negb (is_digest artifact.(af_sha256))
  then Err "capsule contains invalid artifact metadata"
  else let? _ := path_from_portable artifact.(af_path) in Ok tt.
Definition bad_metadata (p : CapsulePayload) : bool :=
  negb (capsule_label p.(cp_cartridge_id) 128) || negb (capsule_label p.(cp_cartridge_version) 64)
  || negb (capsule_label p.(cp_runtime_version) 128) || negb (is_digest p.(cp_component_sha256)) || negb (is_digest p.(cp_arguments_sha256))
  || negb (is_digest p.(cp_source_snapshot).(sf_payload_sha256)) || negb (is_digest p.(cp_trace).(tf_output_sha256))
  || negb (is_digest p.(cp_result_snapshot).(sf_payload_sha256)).
Definition exceeds_limits (p : CapsulePayload) : bool :=
  (MAX_ARGUMENTS <? p.(cp_argument_count)) || (MAX_ARGUMENT_BYTES <? p.(cp_argument_bytes)) || (MAX_EVENTS <? p.(cp_trace).(tf_event_count))
  || (MAX_OUTPUT_BYTES <? p.(cp_trace).(tf_output_bytes)) || (MAX_STORAGE_KEYS <? p.(cp_source_snapshot).(sf_entries))
  || (MAX_STORAGE_KEYS <? p.(cp_result_snapshot).(sf_entries)) || (MAX_STORAGE_BYTES <? p.(cp_source_snapshot).(sf_bytes))
  || (MAX_STORAGE_BYTES <? p.(cp_result_snapshot).(sf_bytes)).

(** ** Comparison *)
Definition first_difference (fields : list (string * Value * Value)) : option CapsuleDifference :=
  (fun '(field, l, r) => mkDifference field l r) <$> List.find (fun '(field, l, r) => negb (bool_decide (l = r))) fields.
Definition compare_identity (left right : CapsulePayload) : option CapsuleDifference :=
  first_difference
    [("format_version", unsigned left.(cp_format_version), unsigned right.(cp_format_version));
     ("cartridge_id", Str left.(cp_cartridge_id), Str right.(cp_cartridge_id));
     ("cartridge_version", Str left.(cp_cartridge_version), Str right.(cp_cartridge_version));
     ("component_sha256", Str left.(cp_component_sha256), Str right.(cp_component_sha256));
     ("runtime_version", Str left.(cp_runtime_version), Str right.(cp_runtime_version));
     ("argument_count", unsigned left.(cp_argument_count), unsigned right.(cp_argument_count));
     ("argument_bytes", unsigned left.(cp_argument_bytes), unsigned right.(cp_argument_bytes));
     ("arguments_sha256", Str left.(cp_arguments_sha256), Str right.(cp_arguments_sha256))].
Definition compare_package (left right : CapsulePayload) : option CapsuleDifference :=
  first_difference
    [("package.bytes", unsigned left.(cp_package).(af_bytes), unsigned right.(cp_package).(af_bytes));
     ("package.sha256", Str left.(cp_package).(af_sha256), Str right.(cp_package).(af_sha256))].
Definition compare_source (left right : CapsulePayload) : option CapsuleDifference :=
  let l := left.(cp_source_snapshot) in
  let r := right.(cp_source_snapshot) in
  first_difference
    [("source.state_schema", unsigned l.(sf_state_schema), unsigned r.(sf_state_schema));
     ("source.entries", unsigned l.(sf_entries), unsigned r.(sf_entries));
     ("source.bytes", unsigned l.(sf_bytes), unsigned r.(sf_bytes));
     ("source.payload_sha256", Str l.(sf_payload_sha256), Str r.(sf_payload_sha256));
     ("source.file_bytes", unsigned l.(sf_artifact).(af_bytes), unsigned r.(sf_artifact).(af_bytes));
     ("source.file_sha256", Str l.(sf_artifact).(af_sha256), Str r.(sf_artifact).(af_sha256))].
Definition compare_trace (left right : CapsulePayload) : option CapsuleDifference :=
  let l := left.(cp_trace) in
  let r := right.(cp_trace) in
  first_difference
    [("trace.format_version", unsigned l.(tf_format_version), unsigned r.(tf_format_version));
     ("trace.event_count", unsigned l.(tf_event_count), unsigned r.(tf_event_count));
     ("trace.output_bytes", unsigned l.(tf_output_bytes), unsigned r.(tf_output_bytes));
     ("trace.output_sha256", Str l.(tf_output_sha256), Str r.(tf_output_sha256));
     ("trace.fuel_consumed", unsigned l.(tf_fuel_consumed), unsigned r.(tf_fuel_consumed));
     ("trace.file_bytes", unsigned l.(tf_artifact).(af_bytes), unsigned r.(tf_artifact).(af_bytes));
     ("trace.file_sha256", Str l.(tf_artifact).(af_sha256), Str r.(tf_artifact).(af_sha256))].
Definition compare_outcome (left right : CapsulePayload) : option CapsuleDifference :=
  let l := left.(cp_result_snapshot) in
  let r := right.(cp_result_snapshot) in
  first_difference
    [("result.state_schema", unsigned l.(sf_state_schema), unsigned r.(sf_state_schema));
     ("result.entries", unsigned l.(sf_entries), unsigned r.(sf_entries));
     ("result.bytes", unsigned l.(sf_bytes), unsigned r.(sf_bytes));
     ("result.payload_sha256", Str l.(sf_payload_sha256), Str r.(sf_payload_sha256));
     ("result.file_bytes", unsigned l.(sf_artifact).(af_bytes), unsigned r.(sf_artifact).(af_bytes));
     ("result.file_sha256", Str l.(sf_artifact).(af_sha256), Str r.(sf_artifact).(af_sha256))].
Definition compare_capsules (left right : Capsule) : CapsuleComparison :=
  let l := left.(cs_payload) in
  let r := right.(cs_payload) in
  let difference := or_else (compare_identity l r) (or_else (compare_package l r)
    (or_else (compare_source l r) (or_else (compare_trace l r) (compare_outcome l r)))) in
  mkCapsuleComparison (is_none difference) difference.

(** The sizes of blobs that two snapshots refer to *)
Fixpoint merge_blob_references (target : gmap string N) (source : list (string * N)) : result string (gmap string N) :=
  match source with
  | [] => Ok target
  | (sha256, bytes) :: source =>
      if is_some_and (fun existing => negb (existing =? bytes)) (target !! sha256)
      then Err ("capsule has conflicting sizes for blob " +:+ sha256)
      else
        let target := <[sha256 := bytes]> target in
        if MAX_BLOB_REFERENCES <? btree_len target then Err "capsule exceeds the 100000-reference limit"
        else merge_blob_references target source
  end.
Definition capsule_summary (self : Capsule) : CapsuleSummary :=
  let p := self.(cs_payload) in
  mkCapsuleSummary p.(cp_format_version) p.(cp_cartridge_id) p.(cp_cartridge_version) p.(cp_component_sha256) p.(cp_runtime_version)
    p.(cp_argument_count) p.(cp_argument_bytes) p.(cp_arguments_sha256) p.(cp_source_snapshot).(sf_state_schema)
    p.(cp_source_snapshot).(sf_entries) p.(cp_source_snapshot).(sf_bytes) p.(cp_source_snapshot).(sf_payload_sha256)
    p.(cp_result_snapshot).(sf_state_schema) p.(cp_result_snapshot).(sf_entries) p.(cp_result_snapshot).(sf_bytes)
    p.(cp_result_snapshot).(sf_payload_sha256) p.(cp_trace).(tf_event_count) p.(cp_trace).(tf_output_bytes)
    p.(cp_trace).(tf_output_sha256) p.(cp_trace).(tf_fuel_consumed) self.(cs_payload_sha256).
(** The texts of the errors of a trace that its validation can give *)
Definition replay_error_text (e : ReplayError) : string :=
  match e with
  | UnsupportedFormat found expected => "unsupported trace format " +:+ pretty found +:+ "; this runtime expects " +:+ pretty expected
  | InvalidTrace reason => "invalid trace: " +:+ reason
  | IdentityMismatch field expected actual => "trace " +:+ field +:+ " mismatch: expected " +:+ expected +:+ ", got " +:+ actual
  | InvocationMismatch _ _ => "trace arguments do not match"
  | Divergence sequence reason => "trace diverged at event " +:+ pretty sequence +:+ ": " +:+ reason
  | EventsRemaining remaining => "trace contains " +:+ pretty remaining +:+ " unconsumed event(s) after execution"
  | TraceLimitExceeded events bytes => "trace budget exceeded after " +:+ pretty events +:+ " event(s) and " +:+ pretty bytes +:+ " byte(s)"
  | ResultMismatch field expected actual => "replay " +:+ field +:+ " mismatch: expected " +:+ debug_str expected +:+ ", got " +:+ debug_str actual
  end.

Section Capsules.
Context `{Ext : Externals} `{Hex : HexDecode} `{SV : !Semver} `{UC : UrlCrate} `{ZC : !ZipCrate} `{TC : !TomlCrate}.
Context `{JSp : !Json SnapshotPayload} `{JSn : !Json StorageSnapshot} `{DSn : !JsonDecode StorageSnapshot}.
Context `{JV : !Json Value} `{JA : !Json (list string)} `{DT : !JsonDecode ExecutionTrace}.
Context `{JCp : !Json CapsulePayload} `{JCa : !Json Capsule} `{DCa : !JsonDecode Capsule}.

(** ** The document *)
Definition capsule_digest (payload : CapsulePayload) : result string string :=
  let? content := to_vec payload in
  Ok (hex_sha256 content).
Definition validate_capsule (self : Capsule) : result string unit :=
  let p := self.(cs_payload) in
  if negb (p.(cp_format_version) =? CAPSULE_FORMAT_VERSION)
  then Err ("unsupported capsule format " +:+ pretty p.(cp_format_version) +:+ "; expected 1")
  else if bad_metadata p then Err "capsule contains invalid identity or digest metadata"
  else
    let? _ := validate_artifact p.(cp_package) MAX_CAPSULE_PACKAGE_BYTES in
    let? _ := validate_artifact p.(cp_source_snapshot).(sf_artifact) MAX_SNAPSHOT_FILE_BYTES in
    let? _ := validate_artifact p.(cp_trace).(tf_artifact) MAX_TRACE_DOCUMENT_BYTES in
    let? _ := validate_artifact p.(cp_result_snapshot).(sf_artifact) MAX_SNAPSHOT_FILE_BYTES in
    if exceeds_limits p then Err "capsule summary metadata exceeds its resource limits"
    else if negb (p.(cp_source_snapshot).(sf_state_schema) =? p.(cp_result_snapshot).(sf_state_schema))
    then Err "capsule source and result snapshots use different schemas"
    else
      let? digest := capsule_digest p in
      if negb (bool_decide (self.(cs_payload_sha256) = digest)) then Err "capsule payload digest does not match its contents" else Ok tt.
Definition new_capsule (payload : CapsulePayload) : result string Capsule :=
  let? digest := capsule_digest payload in
  let capsule := mkCapsule payload digest in
  let? _ := validate_capsule capsule in
  Ok capsule.
Definition capsule_from_slice (content : bytes) : result string Capsule :=
  if MAX_CAPSULE_BYTES <? len content then Err "capsule exceeds the 131072 byte input limit"
  else
    let? capsule := from_slice content in
    let? _ := validate_capsule capsule in
    Ok capsule.
Definition read_capsule (path : Path) : IO Capsule :=
  do? content := read_take path MAX_CAPSULE_BYTES in
  if MAX_CAPSULE_BYTES <? len content then fail "capsule exceeds the 131072 byte input limit"
  else lift (capsule_from_slice content).
Definition write_capsule (self : Capsule) (path : Path) : IO unit :=
  lift (validate_capsule self) ;;?
  do? content := lift (to_vec self) in
  if MAX_CAPSULE_BYTES <? len content then fail "capsule exceeds the 131072 byte output limit"
  else
    do? linked := link_new (E := string) CAPSULE_PREFIX path (Ok content) in
    lift linked.

(** ** The artifacts *)
Definition hash_artifact (path : Path) (limit : N) : IO (N * string) :=
  do? content := read_file path in
  if limit <? len content then fail "artifact exceeds its file limit" else ret (len content, hex_sha256 content).
Definition artifact_reference (root : string) (path : Path) (limit : N) : IO ArtifactReference :=
  do? present := exists_file path in
  if negb present then fail NO_ENTRY
  else
    do? parts := lift (ok_or (relative_parts root path) "artifact must be inside capsule directory") in
    do? portable := lift (portable_path parts) in
    do? (bytes, sha256) := hash_artifact path limit in
    let artifact := mkArtifact portable bytes sha256 in
    lift (validate_artifact artifact limit) ;;?
    ret artifact.
(** Where an artifact lies: shared by [verify_artifact] and [read_verified_snapshot] *)
Definition locate_artifact (root : string) (artifact : ArtifactReference) (limit : N) : IO Path :=
  lift (validate_artifact artifact limit) ;;?
  do? parts := lift (path_from_portable artifact.(af_path)) in
  let joined := join_parts root parts in
  do? present := exists_file joined in
  if negb present then fail NO_ENTRY
  else if negb (within_root root joined) then fail ("capsule artifact " +:+ artifact.(af_path) +:+ " escapes its directory")
  else ret joined.
Definition verify_artifact (root : string) (artifact : ArtifactReference) (limit : N) : IO Path :=
  do? canonical := locate_artifact root artifact limit in
  do? (bytes, sha256) := hash_artifact canonical limit in
  if negb (bytes =? artifact.(af_bytes)) || negb (bool_decide (sha256 = artifact.(af_sha256)))
  then fail ("capsule artifact " +:+ artifact.(af_path) +:+ " does not match its digest")
  else ret canonical.
Definition storage_io {A : Type} (m : IOR A) : IO A := do? r := m in lift (map_err storage_error_text r).
Definition open_package (path : Path) : IO CartridgeArchive :=
  do? content := read_file path in
  lift (map_err error_to_string (open_bytes content)).
Definition read_trace (path : Path) : IO ExecutionTrace :=
  do? content := read_take path MAX_TRACE_DOCUMENT_BYTES in
  if MAX_TRACE_DOCUMENT_BYTES <? len content then fail "trace exceeds the 33554432 byte input limit"
  else
    do? trace := lift (from_slice content) in
    lift (map_err replay_error_text (validate_trace trace)) ;;?
    ret trace.

(** ** The run *)
Definition validate_run_identity (package : CartridgeArchive) (source : StorageSnapshot) (trace : ExecutionTrace) (result : StorageSnapshot) :
    Prelude.result string unit :=
  let? _ := map_err replay_error_text (validate_trace trace) in
  let manifest := package.(ar_manifest) in
  let id := manifest.(cartridge).(cm_id) in
  if negb (bool_decide (source.(sn_payload).(sn_cartridge_id) = id)) || negb (bool_decide (result.(sn_payload).(sn_cartridge_id) = id))
     || negb (bool_decide (trace.(et_cartridge_id) = id)) || negb (bool_decide (trace.(et_cartridge_version) = manifest.(cartridge).(cm_version)))
     || negb (eq_ignore_ascii_case trace.(et_component_sha256) manifest.(integrity).(in_component_sha256))
  then Err "capsule artifacts do not share one exact package identity"
  else if negb (source.(sn_payload).(sn_state_schema) =? result.(sn_payload).(sn_state_schema))
          || negb (source.(sn_payload).(sn_state_schema) =? manifest.(state).(schema))
  then Err "capsule snapshots do not use the package state schema"
  else Ok tt.
Definition capsule_argument_bytes (args : list string) : result string N :=
  map_err (fun _ => "capsule argument size overflowed") (argument_bytes 0 args).
Definition snapshot_matches (reference : SnapshotReference) (summary : StorageSnapshotSummary) : bool :=
  (reference.(sf_state_schema) =? summary.(sm_state_schema)) && (reference.(sf_entries) =? summary.(sm_entries))
  && (reference.(sf_bytes) =? summary.(sm_bytes)) && bool_decide (reference.(sf_payload_sha256) = summary.(sm_payload_sha256)).
Definition verify_semantics (p : CapsulePayload) (package : CartridgeArchive) (source : StorageSnapshot) (trace : ExecutionTrace)
    (result : StorageSnapshot) : Prelude.result string unit :=
  let? source_summary := map_err storage_error_text (summary source) in
  let? result_summary := map_err storage_error_text (summary result) in
  let trace_summary := trace_summary trace in
  let? argument_bytes := capsule_argument_bytes trace.(et_args) in
  let manifest := package.(ar_manifest) in
  let? matches :=
    (if negb (bool_decide (p.(cp_cartridge_id) = manifest.(cartridge).(cm_id))
              && bool_decide (p.(cp_cartridge_version) = manifest.(cartridge).(cm_version))
              && eq_ignore_ascii_case p.(cp_component_sha256) manifest.(integrity).(in_component_sha256)
              && bool_decide (p.(cp_runtime_version) = trace.(et_runtime_version)) && (p.(cp_argument_count) =? len trace.(et_args))
              && (p.(cp_argument_bytes) =? argument_bytes)) then Ok false
     else
       let? arguments := to_vec trace.(et_args) in
       Ok (bool_decide (p.(cp_arguments_sha256) = hex_sha256 arguments)
           && snapshot_matches p.(cp_source_snapshot) source_summary
           && (p.(cp_trace).(tf_format_version) =? trace_summary.(ts_format_version))
           && (p.(cp_trace).(tf_event_count) =? trace_summary.(ts_event_count))
           && (p.(cp_trace).(tf_output_bytes) =? str_len trace.(et_result).(tr_output))
           && bool_decide (p.(cp_trace).(tf_output_sha256) = hex_sha256 (as_bytes trace.(et_result).(tr_output)))
           && (p.(cp_trace).(tf_fuel_consumed) =? trace.(et_result).(fuel_consumed))
           && snapshot_matches p.(cp_result_snapshot) result_summary)) in
  if negb matches then Err "capsule metadata does not match its referenced artifacts" else Ok tt.

(** ** Operations *)
Definition inspect (path : Path) : IO CapsuleSummary :=
  do? capsule := read_capsule path in
  ret (capsule_summary capsule).
Definition compare_files (l r : Path) : IO CapsuleComparison :=
  do? l := read_capsule l in
  do? r := read_capsule r in
  ret (compare_capsules l r).
Definition verify_artifacts (root : string) (p : CapsulePayload) : IO (Path * Path * Path * Path) :=
  do? package_path := verify_artifact root p.(cp_package) MAX_CAPSULE_PACKAGE_BYTES in
  do? source_path := verify_artifact root p.(cp_source_snapshot).(sf_artifact) MAX_SNAPSHOT_FILE_BYTES in
  do? trace_path := verify_artifact root p.(cp_trace).(tf_artifact) MAX_TRACE_DOCUMENT_BYTES in
  do? result_path := verify_artifact root p.(cp_result_snapshot).(sf_artifact) MAX_SNAPSHOT_FILE_BYTES in
  ret (package_path, source_path, trace_path, result_path).
Definition verify (path : Path) : IO CapsuleVerification :=
  do? capsule := read_capsule path in
  let root := path.1 in
  let p := capsule.(cs_payload) in
  do? (package_path, source_path, trace_path, result_path) := verify_artifacts root p in
  do? package := open_package package_path in
  do? source := storage_io (read_snapshot source_path) in
  do? trace := read_trace trace_path in
  do? result := storage_io (read_snapshot result_path) in
  lift (validate_run_identity package source trace result) ;;?
  lift (verify_semantics p package source trace result) ;;?
  verify_artifacts root p ;;?
  ret (mkCapsuleVerification true (capsule_summary capsule) p.(cp_package).(af_path) p.(cp_source_snapshot).(sf_artifact).(af_path)
         p.(cp_trace).(tf_artifact).(af_path) p.(cp_result_snapshot).(sf_artifact).(af_path)).
Definition snapshot_reference (artifact : ArtifactReference) (summary : StorageSnapshotSummary) : SnapshotReference :=
  mkSnapshotReference artifact summary.(sm_state_schema) summary.(sm_entries) summary.(sm_bytes) summary.(sm_payload_sha256).
Definition create (package_path source_path trace_path result_path output : Path) : IO CapsuleSummary :=
  let root := output.1 in
  ensure_directory root ;;?
  do? package := open_package package_path in
  do? source := storage_io (read_snapshot source_path) in
  do? trace := read_trace trace_path in
  do? result := storage_io (read_snapshot result_path) in
  lift (validate_run_identity package source trace result) ;;?
  do? source_summary := lift (map_err storage_error_text (summary source)) in
  do? result_summary := lift (map_err storage_error_text (summary result)) in
  let trace_summary := trace_summary trace in
  do? argument_bytes := lift (capsule_argument_bytes trace.(et_args)) in
  do? arguments := lift (to_vec trace.(et_args)) in
  do? package_artifact := artifact_reference root package_path MAX_CAPSULE_PACKAGE_BYTES in
  do? source_artifact := artifact_reference root source_path MAX_SNAPSHOT_FILE_BYTES in
  do? trace_artifact := artifact_reference root trace_path MAX_TRACE_DOCUMENT_BYTES in
  do? result_artifact := artifact_reference root result_path MAX_SNAPSHOT_FILE_BYTES in
  let manifest := package.(ar_manifest) in
  let payload := mkCapsulePayload CAPSULE_FORMAT_VERSION manifest.(cartridge).(cm_id) manifest.(cartridge).(cm_version)
    (str_lower manifest.(integrity).(in_component_sha256)) trace.(et_runtime_version) (len trace.(et_args)) argument_bytes
    (hex_sha256 arguments) package_artifact (snapshot_reference source_artifact source_summary)
    (mkTraceReference trace_artifact trace_summary.(ts_format_version) trace_summary.(ts_event_count) (str_len trace.(et_result).(tr_output))
       (hex_sha256 (as_bytes trace.(et_result).(tr_output))) trace.(et_result).(fuel_consumed))
    (snapshot_reference result_artifact result_summary) in
  do? capsule := lift (new_capsule payload) in
  write_capsule capsule output ;;?
  do? verification := verify output in
  ret verification.(cv_capsule).
Definition read_verified_snapshot (root : string) (reference : SnapshotReference) : IO StorageSnapshot :=
  do? canonical := locate_artifact root reference.(sf_artifact) MAX_SNAPSHOT_FILE_BYTES in
  do? content := read_take canonical MAX_SNAPSHOT_FILE_BYTES in
  if negb (len content =? reference.(sf_artifact).(af_bytes)) || negb (bool_decide (hex_sha256 content = reference.(sf_artifact).(af_sha256)))
  then fail ("capsule artifact " +:+ reference.(sf_artifact).(af_path) +:+ " does not match its digest")
  else
    do? snapshot := lift (map_err storage_error_text (snapshot_from_slice content)) in
    do? summary := lift (map_err storage_error_text (summary snapshot)) in
    if negb (snapshot_matches reference summary)
    then fail ("capsule snapshot " +:+ reference.(sf_artifact).(af_path) +:+ " does not match its metadata")
    else ret snapshot.
Definition capsule_blob_references (path : Path) : IO CapsuleBlobReachability :=
  do? initial := verify path in
  do? capsule := read_capsule path in
  let expected := initial.(cv_capsule).(cy_capsule_sha256) in
  let changed := "capsule changed while blob references were being loaded" in
  if negb (bool_decide (capsule.(cs_payload_sha256) = expected)) then fail changed
  else
    do? source := read_verified_snapshot path.1 capsule.(cs_payload).(cp_source_snapshot) in
    do? result := read_verified_snapshot path.1 capsule.(cs_payload).(cp_result_snapshot) in
    do? references := lift (map_err storage_error_text (blob_references source)) in
    do? others := lift (map_err storage_error_text (blob_references result)) in
    do? references := lift (merge_blob_references references (btree_iter others)) in
    do? final := verify path in
    if negb (bool_decide (final.(cv_capsule).(cy_capsule_sha256) = expected)) then fail changed
    else ret (mkBlobReachability expected references).
Definition replay_inputs (path : Path) : IO CapsuleReplayInputs :=
  do? initial := verify path in
  let expected := initial.(cv_capsule).(cy_capsule_sha256) in
  do? capsule := read_capsule path in
  let changed := "capsule changed while replay inputs were being loaded" in
  if negb (bool_decide (capsule.(cs_payload_sha256) = expected)) then fail changed
  else
    let root := path.1 in
    let p := capsule.(cs_payload) in
    do? package_path := verify_artifact root p.(cp_package) MAX_CAPSULE_PACKAGE_BYTES in
    do? package := open_package package_path in
    verify_artifact root p.(cp_package) MAX_CAPSULE_PACKAGE_BYTES ;;?
    do? source_path := verify_artifact root p.(cp_source_snapshot).(sf_artifact) MAX_SNAPSHOT_FILE_BYTES in
    do? source := storage_io (read_snapshot source_path) in
    verify_artifact root p.(cp_source_snapshot).(sf_artifact) MAX_SNAPSHOT_FILE_BYTES ;;?
    do? trace_path := verify_artifact root p.(cp_trace).(tf_artifact) MAX_TRACE_DOCUMENT_BYTES in
    do? trace := read_trace trace_path in
    verify_artifact root p.(cp_trace).(tf_artifact) MAX_TRACE_DOCUMENT_BYTES ;;?
    do? final := verify path in
    if negb (bool_decide (final.(cv_capsule).(cy_capsule_sha256) = expected)) then fail changed
    else ret (mkReplayInputs package_path package trace source trace.(et_args) (capsule_summary capsule)).
End Capsules.

(** * Theorems about capsules

    Capsules that compare as identical replay alike, wherever their files lie; a
    capsule is created whole or not at all, over nothing, and the one that is
    reported verifies and names the files it was made from. *)

(** ** Comparison is exact *)
(** A payload without the paths of its files *)
Definition unplaced (a : ArtifactReference) : ArtifactReference := mkArtifact "" a.(af_bytes) a.(af_sha256).
Definition unplaced_snapshot (s : SnapshotReference) : SnapshotReference :=
  mkSnapshotReference (unplaced s.(sf_artifact)) s.(sf_state_schema) s.(sf_entries) s.(sf_bytes) s.(sf_payload_sha256).
Definition unplaced_payload (p : CapsulePayload) : CapsulePayload :=
  mkCapsulePayload p.(cp_format_version) p.(cp_cartridge_id) p.(cp_cartridge_version) p.(cp_component_sha256) p.(cp_runtime_version)
    p.(cp_argument_count) p.(cp_argument_bytes) p.(cp_arguments_sha256) (unplaced p.(cp_package)) (unplaced_snapshot p.(cp_source_snapshot))
    (mkTraceReference (unplaced p.(cp_trace).(tf_artifact)) p.(cp_trace).(tf_format_version) p.(cp_trace).(tf_event_count)
       p.(cp_trace).(tf_output_bytes) p.(cp_trace).(tf_output_sha256) p.(cp_trace).(tf_fuel_consumed))
    (unplaced_snapshot p.(cp_result_snapshot)).
Lemma capsule_difference_None fields : first_difference fields = None <-> Forall (fun f => f.1.2 = f.2) fields.
Proof.
  unfold first_difference. induction fields as [|[[field l] r] fields IH]; [by split; [constructor|]|].
  cbn [List.find]. rewrite Forall_cons. cbn [fst snd]. case_bool_decide as He; cbn [negb]; [naive_solver|]. split; [done|]. by intros [? _].
Qed.
Lemma or_else_None {A : Type} (a b : option A) : or_else a b = None <-> a = None /\ b = None.
Proof. destruct a; cbn; naive_solver. Qed.
(** Capsules compare as identical exactly when they differ in nothing but the
    places of their files. *)
Theorem comparison_is_exact (l r : Capsule) :
  (compare_capsules l r).(cc_identical) = true <-> unplaced_payload l.(cs_payload) = unplaced_payload r.(cs_payload).
Proof.
  unfold compare_capsules. cbn [cc_identical]. set (p := cs_payload l). set (q := cs_payload r).
  assert (forall A (o : option A), is_none o = true <-> o = None) as -> by (intros A []; done).
  rewrite !or_else_None. unfold compare_identity, compare_package, compare_source, compare_trace, compare_outcome.
  rewrite !capsule_difference_None, !Forall_cons, !Forall_nil. cbn [fst snd]. unfold unsigned.
  destruct p as [? ? ? ? ? ? ? ? [] [[]] [[]] [[]]], q as [? ? ? ? ? ? ? ? [] [[]] [[]] [[]]].
  unfold unplaced_payload, unplaced_snapshot, unplaced. cbn. split.
  - intros H. destruct_and?. congruence.
  - intros H. injection H as H. intuition congruence.
Qed.

Section CapsuleTheorems.
Context `{Ext : Externals} `{Hex : HexDecode} `{SV : !Semver} `{UC : UrlCrate} `{ZC : !ZipCrate} `{TC : !TomlCrate}.
Context `{JSp : !Json SnapshotPayload} `{JSn : !Json StorageSnapshot} `{DSn : !JsonDecode StorageSnapshot}.
Context `{JV : !Json Value} `{JA : !Json (list string)} `{DT : !JsonDecode ExecutionTrace}.
Context `{JCp : !Json CapsulePayload} `{JCa : !Json Capsule} `{DCa : !JsonDecode Capsule}.

(** ** Reading changes nothing *)
Ltac reads_tac := repeat first [solve [auto 2] | apply pure_bind; [|intros ?] | apply pure_if].

Lemma pure_exists path : pure_read (exists_file path).
Proof. intros w. by eexists. Qed.
#[local] Hint Resolve pure_ret pure_fail pure_lift pure_file pure_exists : core.
Lemma read_take_pure path limit : pure_read (read_take path limit).
Proof. unfold read_take. reads_tac. Qed.
#[local] Hint Resolve read_take_pure : core.
Lemma read_capsule_pure path : pure_read (read_capsule path).
Proof. unfold read_capsule. reads_tac. Qed.
Lemma locate_pure root artifact limit : pure_read (locate_artifact root artifact limit).
Proof. unfold locate_artifact. reads_tac. Qed.
#[local] Hint Resolve read_capsule_pure locate_pure : core.
Lemma verify_artifact_pure root artifact limit : pure_read (verify_artifact root artifact limit).
Proof. unfold verify_artifact, hash_artifact. apply pure_bind; [done|intros p]. apply pure_bind; [reads_tac|intros [n sha]]. reads_tac. Qed.
Lemma open_package_pure path : pure_read (open_package path).
Proof. unfold open_package. reads_tac. Qed.
Lemma read_snapshot_pure path : pure_read (storage_io (read_snapshot path)).
Proof.
  unfold storage_io, read_snapshot, rbind, io, pure_. apply pure_bind; [|by auto]. apply pure_bind; [reads_tac|]. intros [a|e]; reads_tac.
Qed.
Lemma read_trace_pure path : pure_read (read_trace path).
Proof. unfold read_trace. reads_tac. Qed.
#[local] Hint Resolve verify_artifact_pure open_package_pure read_snapshot_pure read_trace_pure : core.
Lemma verify_artifacts_pure root p : pure_read (verify_artifacts root p).
Proof. unfold verify_artifacts. reads_tac. Qed.
#[local] Hint Resolve verify_artifacts_pure : core.
Lemma verify_pure path : pure_read (verify path).
Proof.
  unfold verify. apply pure_bind; [done|intros c]. cbv zeta. apply pure_bind; [done|intros [[[? ?] ?] ?]]. reads_tac.
Qed.
#[local] Hint Resolve verify_pure : core.

(** ** What is verified *)
Definition carries (w : World) (path : Path) (artifact : ArtifactReference) (content : bytes) : Prop :=
  read_path w.(disk) path = Some content /\ len content = artifact.(af_bytes) /\ hex_sha256 content = artifact.(af_sha256).
Lemma capsule_artifact_spec root artifact limit w w' path :
  verify_artifact root artifact limit w = (w', Done (Ok path)) ->
  w' = w /\ (exists content, carries w path artifact content) /\ exists parts, path_from_portable artifact.(af_path) = Ok parts /\ path = join_parts root parts.
Proof.
  unfold verify_artifact. intros (p & Hp & H)%bind_ok; [|done]. unfold hash_artifact in H.
  apply bind_ok in H as ([n sha] & Hh & H); [|reads_tac]. destruct (_ || _) eqn:Hg; [done|]. injection H as <- <-.
  apply bind_ok in Hh as (content & Hr & Hh); [|done]. destruct (limit <? _); [done|]. injection Hh as <- <-.
  apply orb_false_iff in Hg as [H1 H2]. apply negb_false_iff, N.eqb_eq in H1. apply negb_false_iff, bool_decide_eq_true in H2.
  split; [done|]. split.
  - exists content. split; [|done]. unfold read_file in Hr. destruct (read_path _ _); [|done]. by injection Hr as ->.
  - revert Hp. unfold locate_artifact. intros (u & _ & Hp)%bind_ok; [|done]. apply lift_ok in Hp as (parts & Hparts & Hp). exists parts. split; [done|].
    cbv zeta in Hp. apply bind_ok in Hp as (present & _ & Hp); [|done]. destruct (negb present); [done|]. destruct (negb _); [done|]. by injection Hp as <-.
Qed.
(** What readers find depends on the content only *)
Lemma open_package_content w w' path content package :
  read_path w.(disk) path = Some content -> open_package path w = (w', Done (Ok package)) -> open_bytes content = Ok package.
Proof.
  intros Hr. unfold open_package, bind, read_file. rewrite Hr. cbn [ok_or]. unfold lift. destruct (open_bytes content) as [a|]; [|done]. by intros [= _ ->].
Qed.
Definition trace_of (content : bytes) : result string ExecutionTrace := from_slice (take (N.to_nat (N.min (MAX_TRACE_DOCUMENT_BYTES + 1) (len content))) content).
Lemma read_trace_content w w' path content trace :
  read_path w.(disk) path = Some content -> read_trace path w = (w', Done (Ok trace)) -> trace_of content = Ok trace.
Proof.
  intros Hr. unfold read_trace, read_take, bind, read_file. rewrite Hr. cbn [ok_or]. unfold ret. destruct (_ <? _); [done|]. unfold lift, trace_of.
  destruct (from_slice _) as [t|]; [|done]. destruct (map_err _ _); [|done]. by intros [= _ ->].
Qed.
Definition snapshot_of (content : bytes) : Result StorageSnapshot := snapshot_from_slice (take (N.to_nat (N.min (MAX_SNAPSHOT_FILE_BYTES + 1) (len content))) content).
Lemma read_snapshot_content w w' path content snapshot :
  read_path w.(disk) path = Some content -> storage_io (read_snapshot path) w = (w', Done (Ok snapshot)) -> snapshot_of content = Ok snapshot.
Proof.
  intros Hr. unfold storage_io, read_snapshot, rbind, io, bind, read_take, bind, read_file. rewrite Hr. cbn [ok_or]. unfold ret. destruct (_ <? _); [done|].
  unfold pure_, ret, lift, snapshot_of. destruct (snapshot_from_slice _) as [s|]; [|done]. by intros [= _ ->].
Qed.
Lemma replay_inputs_spec path w w' inputs :
  replay_inputs path w = (w', Done (Ok inputs)) ->
  exists c package source trace, read_capsule path w = (w, Done (Ok c))
    /\ (exists p, carries w p c.(cs_payload).(cp_package) package) /\ open_bytes package = Ok inputs.(cr_package)
    /\ (exists p, carries w p c.(cs_payload).(cp_source_snapshot).(sf_artifact) source) /\ snapshot_of source = Ok inputs.(cr_source)
    /\ (exists p, carries w p c.(cs_payload).(cp_trace).(tf_artifact) trace) /\ trace_of trace = Ok inputs.(cr_trace)
    /\ inputs.(cr_arguments) = inputs.(cr_trace).(et_args).
Proof.
  unfold replay_inputs. intros (initial & _ & H)%bind_ok; [|done]. cbv zeta in H. apply bind_ok in H as (c & Hc & H); [|done].
  destruct (negb _); [done|]. apply bind_ok in H as (p1 & Hp1 & H); [|done]. apply bind_ok in H as (package & Hpackage & H); [|done].
  apply bind_ok in H as (? & _ & H); [|done]. apply bind_ok in H as (p2 & Hp2 & H); [|done]. apply bind_ok in H as (source & Hsource & H); [|done].
  apply bind_ok in H as (? & _ & H); [|done]. apply bind_ok in H as (p3 & Hp3 & H); [|done]. apply bind_ok in H as (trace & Htrace & H); [|done].
  apply bind_ok in H as (? & _ & H); [|done]. apply bind_ok in H as (final & _ & H); [|done]. destruct (negb _); [done|]. injection H as _ <-.
  apply capsule_artifact_spec in Hp1 as (_ & (b1 & H1) & _), Hp2 as (_ & (b2 & H2) & _), Hp3 as (_ & (b3 & H3) & _).
  exists c, b1, b2, b3. split; [done|]. cbn. split_and!; [by exists p1| |by exists p2| |by exists p3| |done].
  - by apply (open_package_content w w p1); [apply H1|].
  - by apply (read_snapshot_content w w p2); [apply H2|].
  - by apply (read_trace_content w w p3); [apply H3|].
Qed.
(** The contents of all files *)
Definition contents (w : World) : list bytes := (map_to_list w.(disk)).*2 ≫= (fun d : gmap string bytes => (map_to_list d).*2).
Lemma read_contents w path content : read_path w.(disk) path = Some content -> content ∈ contents w.
Proof.
  unfold read_path, contents. destruct (disk w !! path.1) as [d|] eqn:Hd; [|done]. cbn. intros Hc. apply list_elem_of_bind. exists d. split.
  - apply list_elem_of_fmap. exists (path.2, content). split; [done|]. by apply elem_of_map_to_list.
  - apply list_elem_of_fmap. exists (path.1, d). split; [done|]. by apply elem_of_map_to_list.
Qed.
Lemma hex_encode_injective a b : hex_encode a = hex_encode b -> a = b.
Proof. intros H. apply (f_equal hex_decode) in H. rewrite !hex_decode_encode in H. by injection H. Qed.
Lemma same_artifact w1 w2 p1 p2 a1 a2 b1 b2 :
  collision_free (contents w1 ++ contents w2) -> carries w1 p1 a1 b1 -> carries w2 p2 a2 b2 -> unplaced a1 = unplaced a2 -> b1 = b2.
Proof.
  intros Hfree (Hr1 & _ & Hh1) (Hr2 & _ & Hh2) Heq. injection Heq as _ Hsha. apply read_contents in Hr1, Hr2.
  apply Hfree; [apply elem_of_app; by left|apply elem_of_app; by right|]. apply hex_encode_injective. unfold hex_sha256 in *. congruence.
Qed.
(** C17: Capsules that compare as identical replay alike: whatever machines and places
    their files lie in, the packages, traces, source snapshots and arguments that are
    loaded for the two replays are the same, unless two of the files collide under
    SHA-256. *)
Theorem identical_capsules_replay_alike (path1 path2 : Path) (w1 w1' w2 w2' : World) (a b : CapsuleReplayInputs) (c1 c2 : Capsule) :
  collision_free (contents w1 ++ contents w2) ->
  replay_inputs path1 w1 = (w1', Done (Ok a)) -> replay_inputs path2 w2 = (w2', Done (Ok b)) ->
  read_capsule path1 w1 = (w1, Done (Ok c1)) -> read_capsule path2 w2 = (w2, Done (Ok c2)) ->
  (compare_capsules c1 c2).(cc_identical) = true ->
  a.(cr_package) = b.(cr_package) /\ a.(cr_trace) = b.(cr_trace) /\ a.(cr_source) = b.(cr_source) /\ a.(cr_arguments) = b.(cr_arguments).
Proof.
  intros Hfree Ha Hb Hc1 Hc2 Hid. apply comparison_is_exact in Hid.
  apply replay_inputs_spec in Ha as (c & pk & sn & tr & Hc & (q1 & H1) & Hpk & (q2 & H2) & Hsn & (q3 & H3) & Htr & Harg). rewrite Hc in Hc1. injection Hc1 as ->.
  apply replay_inputs_spec in Hb as (c & pk' & sn' & tr' & Hc' & (q1' & H1') & Hpk' & (q2' & H2') & Hsn' & (q3' & H3') & Htr' & Harg'). rewrite Hc' in Hc2. injection Hc2 as ->.
  unfold unplaced_payload, unplaced_snapshot in Hid. injection Hid as ? ? ? ? ? ? ? ? Hp1 Hp2 Hs1 Hs2 ? ? ? ? Ht1 Ht2 ? ? ? ? ? ? ? ? ? ? ?.
  assert (pk = pk') as -> by (eapply same_artifact; [done|exact H1|exact H1'|unfold unplaced; congruence]).
  assert (sn = sn') as -> by (eapply same_artifact; [done|exact H2|exact H2'|unfold unplaced; congruence]).
  assert (tr = tr') as -> by (eapply same_artifact; [done|exact H3|exact H3'|unfold unplaced; congruence]).
  split_and!; congruence.
Qed.

(** ** Paths *)
Lemma split_plain part : contains_char part "/" = false -> split_on "/" part = [part].
Proof.
  unfold contains_char. induction part as [|a part IH]; [done|]. cbn [str_bytes existsb split_on]. intros [Ha Hp]%orb_false_iff.
  rewrite bool_decide_eq_false_2; [by rewrite (IH Hp)|]. intros ->. by apply N.eqb_neq in Ha.
Qed.
Lemma split_concat parts :
  parts <> [] -> forallb (fun part => negb (contains_char part "/")) parts = true -> split_on "/" (String.concat "/" parts) = parts.
Proof.
  intros Hne. induction parts as [|part parts IH]; [done|]. cbn [forallb]. intros [Hp Hps]%andb_true_iff. apply negb_true_iff in Hp.
  destruct parts as [|next parts]; [by apply split_plain|]. change (String.concat "/" (part :: next :: parts)) with (part +:+ String "/" (String.concat "/" (next :: parts))).
  rewrite split_on_slash, split_plain, IH by done. done.
Qed.
Lemma append_assoc (a b c : string) : (a +:+ b) +:+ c = a +:+ b +:+ c.
Proof. induction a as [|x a IH]; [done|]. change (String x ((a +:+ b) +:+ c) = String x (a +:+ b +:+ c)). by rewrite IH. Qed.
Lemma join_below root l name : l <> [] -> join_parts root (l ++ [name]) = (root +:+ "/" +:+ join_slash l, name).
Proof.
  revert root. induction l as [|part l IH]; intros root Hne; [done|]. destruct l as [|next l]; [done|].
  change (join_parts root ((part :: next :: l) ++ [name])) with (join_parts (root +:+ "/" +:+ part) ((next :: l) ++ [name])).
  rewrite IH by done. change (join_slash (part :: next :: l)) with (part +:+ "/" +:+ join_slash (next :: l)). by rewrite !append_assoc.
Qed.
(** A file's portable path leads back to the file. *)
Lemma portable_round_trip root path parts s parts' :
  relative_parts root path = Some parts -> portable_path parts = Ok s -> path_from_portable s = Ok parts' -> join_parts root parts' = path.
Proof.
  unfold portable_path, path_from_portable. intros Hrel. destruct (existsb _ parts) eqn:Hbad; [done|]. destruct parts as [|part0 parts0] eqn:Hparts; [done|].
  rewrite <- Hparts in *. intros [= <-]. destruct (_ || _); [done|]. cbv zeta. destruct (existsb _ (split_on _ _)); [done|]. intros [= <-].
  rewrite split_concat; [|by subst|].
  2:{ apply forallb_forall. intros x Hx. apply negb_true_iff. destruct (contains_char x "/") eqn:Hc; [|done]. rewrite <- Hbad. symmetry. apply existsb_exists.
      exists x. split; [done|]. rewrite Hc. by rewrite orb_true_r. }
  clear Hbad Hparts. revert Hrel. unfold relative_parts. destruct path as [dir name]. cbn [fst snd]. case_bool_decide as Hd; [intros [= <-]; by subst|].
  destruct (strip_prefix _ dir) as [below|] eqn:Hb; [|done]. intros [= <-]. apply strip_prefix_app in Hb as ->.
  by rewrite join_below, join_split, !append_assoc by (apply split_on_ne).
Qed.
(** ** Creation *)
Definition located (root : string) (artifact : ArtifactReference) (path : Path) : Prop :=
  exists parts, path_from_portable artifact.(af_path) = Ok parts /\ join_parts root parts = path.
Lemma artifact_reference_spec root path limit w w' artifact :
  artifact_reference root path limit w = (w', Done (Ok artifact)) -> located root artifact path.
Proof.
  unfold artifact_reference. intros (present & _ & H)%bind_ok; [|done]. destruct (negb present); [done|]. apply lift_ok in H as (parts & Hparts & H).
  apply lift_ok in H as (s & Hs & H). apply bind_ok in H as ([n sha] & _ & H); [|unfold hash_artifact; reads_tac]. apply lift_ok in H as (u & Hu & H).
  injection H as _ <-. destruct (relative_parts root path) as [ps|] eqn:Hrel; [|done]. injection Hparts as ->.
  unfold validate_artifact in Hu. destruct (_ || _); [done|]. cbn [af_path] in Hu. destruct (path_from_portable s) as [parts'|] eqn:Hp; [|done].
  exists parts'. split; [done|]. by eapply portable_round_trip.
Qed.
Lemma artifact_reference_pure root path limit : pure_read (artifact_reference root path limit).
Proof.
  unfold artifact_reference. apply pure_bind; [done|intros present]. apply pure_if; [done|]. apply pure_bind; [done|intros parts]. apply pure_bind; [done|intros s].
  apply pure_bind; [unfold hash_artifact; reads_tac|intros [n sha]]. reads_tac.
Qed.
#[local] Hint Resolve artifact_reference_pure : core.
(** A step that only reads fails, or goes on in the same world *)
Lemma bind_cases {A B : Type} (m : IO A) (k : A -> IO B) w :
  pure_read m -> (exists e, bind m k w = (w, Done (Err e))) \/ exists a, m w = (w, Done (Ok a)) /\ bind m k w = k a w.
Proof. intros Hm. unfold bind. destruct (Hm w) as [[a|e] ->]; [right; by exists a|left; by exists e]. Qed.
Lemma framed_trans prefix dir names d0 d1 d2 :
  framed prefix dir names d0 d1 -> framed prefix dir names d1 d2 -> framed prefix dir names d0 d2.
Proof.
  intros [A1 A2 A3] [B1 B2 B3]. constructor.
  - intros x Hx. by rewrite B1, A1.
  - auto.
  - intros name Hn Hs. by rewrite B3, A3.
Qed.
(** The file of a capsule is as it was, or took an empty place whole *)
Definition made_capsule (output : Path) (w w' : World) : Prop :=
  framed CAPSULE_PREFIX output.1 [output.2] w.(disk) w'.(disk)
  /\ (read_path w'.(disk) output = read_path w.(disk) output
      \/ (read_path w.(disk) output = None /\ exists c b, validate_capsule c = Ok tt /\ to_vec c = Ok b /\ read_path w'.(disk) output = Some b)).
Lemma write_capsule_spec c output w (Hname : staged CAPSULE_PREFIX output.2 = false) :
  let '(w', o) := write_capsule c output w in
  made_capsule output w w' /\ match o with Done (Ok _) => exists b, to_vec c = Ok b /\ read_path w'.(disk) output = Some b /\ len b <= MAX_CAPSULE_BYTES | _ => True end.
Proof.
  assert (made_capsule output w w) as Hsame by (split; [apply framed_refl|by left]).
  unfold write_capsule, bind, lift. destruct (validate_capsule c) as [[]|] eqn:Hv; [|done]. destruct (to_vec c) as [content|] eqn:Hc; [|done].
  destruct (N.ltb_spec MAX_CAPSULE_BYTES (len content)) as [|Hl]; [done|].
  pose proof (linked_document_is_whole (E := string) CAPSULE_PREFIX output (Ok content) w Hname) as Ht.
  destruct (link_new _ _ _ w) as [w1 o]. destruct Ht as (Hf & Hor & Ho).
  assert (made_capsule output w w1) as Hm.
  { split; [done|]. destruct Hor as [|(Hn & b & [= <-] & Hr)]; [by left|right]. split; [done|]. by exists c, content. }
  destruct o as [[[u|]|]|]; [|by split..]. split; [done|]. destruct Ho as (_ & b & [= <-] & Hr). by exists content.
Qed.
Lemma directory_made output w (Hname : staged CAPSULE_PREFIX output.2 = false) :
  let '(w', o) := ensure_directory output.1 w in
  framed CAPSULE_PREFIX output.1 [output.2] w.(disk) w'.(disk) /\ read_path w'.(disk) output = read_path w.(disk) output.
Proof.
  pose proof (directory_triple (E := string) CAPSULE_PREFIX output (Err "") (disk w) Hname w eq_refl) as Ht.
  destruct (ensure_directory output.1 w) as [w1 [[u|e]|]]; [done|destruct Ht as [Ht _]|].
  all: by destruct Ht as [|(_ & _ & b & ? & _)].
Qed.
Lemma made_after output w w1 w2 :
  framed CAPSULE_PREFIX output.1 [output.2] w.(disk) w1.(disk) -> read_path w1.(disk) output = read_path w.(disk) output ->
  made_capsule output w1 w2 -> made_capsule output w w2.
Proof. intros Hf Hr [Hf2 Hor]. split; [by eapply framed_trans|]. rewrite <- Hr. done. Qed.
(** What an answered creation reports *)
Definition reports (package source trace result output : Path) (w' : World) (s : CapsuleSummary) : Prop :=
  exists v c, verify output w' = (w', Done (Ok v)) /\ v.(cv_capsule) = s /\ read_capsule output w' = (w', Done (Ok c)) /\ capsule_summary c = s
    /\ located output.1 c.(cs_payload).(cp_package) package /\ located output.1 c.(cs_payload).(cp_source_snapshot).(sf_artifact) source
    /\ located output.1 c.(cs_payload).(cp_trace).(tf_artifact) trace /\ located output.1 c.(cs_payload).(cp_result_snapshot).(sf_artifact) result.
Lemma verify_reads path w v : verify path w = (w, Done (Ok v)) -> exists c, read_capsule path w = (w, Done (Ok c)) /\ v.(cv_capsule) = capsule_summary c.
Proof.
  unfold verify. intros (c & Hc & H)%bind_ok; [|done]. exists c. split; [done|]. cbv zeta in H. apply bind_ok in H as ([[[p1 p2] p3] p4] & _ & H); [|done].
  do 4 (apply bind_ok in H as (? & _ & H); [|done]). do 2 (apply lift_ok in H as (? & _ & H)). apply bind_ok in H as (? & _ & H); [|done]. by injection H as <-.
Qed.
Lemma written_capsule_reads `{RC : !JsonRoundTrip Capsule} c output w b :
  to_vec c = Ok b -> read_path w.(disk) output = Some b -> len b <= MAX_CAPSULE_BYTES -> forall c', read_capsule output w = (w, Done (Ok c')) -> c' = c.
Proof.
  intros Hb Hr Hl c'. unfold read_capsule, read_take, bind, read_file. rewrite Hr. cbn [ok_or]. unfold ret. rewrite take_ge by (unfold len in *; lia).
  destruct (_ <? _); [done|]. unfold lift, capsule_from_slice. destruct (_ <? _); [done|]. rewrite (from_slice_to_vec c b Hb). destruct (validate_capsule c); [|done].
  by intros [= <-].
Qed.
Ltac reading H := match goal with |- context [bind ?m ?k ?w] =>
  let e := fresh "e" in let x := fresh "x" in
  destruct (bind_cases m k w) as [[e H]|(x & H & ->)]; [by auto|rewrite H; by split|] end.
(** C16: A capsule is created whole or not at all, and over nothing: whatever calls fail
    and wherever the process dies, its file is as it was or took an empty place and is
    the whole encoding of a valid capsule, and every other file stays, temporary ones
    apart; and a creation that is answered reports the summary of the capsule that is
    there, which verifies and names exactly the four files it was made from. *)
Theorem created_capsule_verifies `{RC : !JsonRoundTrip Capsule} (package source trace result output : Path) (w : World) :
  staged CAPSULE_PREFIX output.2 = false ->
  let '(w', o) := create package source trace result output w in
  made_capsule output w w' /\ match o with Done (Ok s) => reports package source trace result output w' s | _ => True end.
Proof.
  intros Hname. unfold create. cbv zeta. unfold bind at 1. pose proof (directory_made output w Hname) as Hd.
  destruct (ensure_directory output.1 w) as [w1 o1]. destruct Hd as [Hf1 Hr1].
  assert (made_capsule output w w1) as Hm1 by (split; [done|by left]). destruct o1 as [[[]|e1]|]; [|by split..].
  reading H1. reading H2. reading H3. reading H4. reading H5. reading H6. reading H7. reading H8. reading H9. reading Hp1. reading Hp2. reading Hp3. reading Hp4.
  apply artifact_reference_spec in Hp1, Hp2, Hp3, Hp4. reading Hcap.
  rename x12 into c. unfold lift in Hcap. injection Hcap as Hcap. unfold bind at 1. pose proof (write_capsule_spec c output w1 Hname) as Hw.
  destruct (write_capsule c output w1) as [w2 o2]. destruct Hw as [Hm2 Ho2]. pose proof (made_after _ _ _ _ Hf1 Hr1 Hm2) as Hm.
  destruct o2 as [[[]|e2]|]; [|by split..]. reading Hv. cbn. split; [done|]. destruct Ho2 as (b & Hb & Hr & Hl).
  destruct (verify_reads _ _ _ Hv) as (c' & Hc' & Hsum). eexists _, c'. split; [exact Hv|]. split; [done|]. split; [done|]. split; [done|].
  apply (written_capsule_reads c output w2 b Hb Hr Hl) in Hc' as ->. unfold new_capsule in Hcap. destruct (capsule_digest _) as [digest|]; [|done].
  destruct (validate_capsule _); [|done]. injection Hcap as <-. by cbn.
Qed.
End CapsuleTheorems.

(** ** A concrete run *)
Section CapsuleWitness.
#[local] Existing Instance demo_externals.
#[local] Existing Instance demo_hex.
#[local] Existing Instance demo_semver.
#[local] Existing Instance toy_url.
#[local] Existing Instance toy_toml.
#[local] Existing Instance toy_zip.
#[local] Existing Instance trace_demo_json.
#[local] Instance run_payload_json : Json SnapshotPayload := demo_json.
#[local] Instance run_arguments_json : Json (list string) := demo_json.
#[local] Instance run_capsule_payload_json : Json CapsulePayload := demo_json.
Definition run_snapshot (value : bytes) : StorageSnapshot :=
  mkSnapshot (mkSnapshotPayload 3 "dev.example.app" 0 1 {["score" := hex_encode value]}) (hex_sha256 []).
Definition snapshot_table : list StorageSnapshot := [run_snapshot [x01]; run_snapshot [x02; x03]].
#[local] Instance run_snapshot_json : Json StorageSnapshot := table_json snapshot_table.
#[local] Instance run_snapshot_decode : JsonDecode StorageSnapshot := table_decode snapshot_table.
Definition run_trace : ExecutionTrace :=
  mkTrace 2 "0.1.0" "dev.example.app" "1.2.0" (hex_sha256 wasm_component) ["play"] [] (mkTraceResult "won" 42).
#[local] Instance run_trace_decode : JsonDecode ExecutionTrace := table_decode [run_trace].
Definition run_payload (below : string) : CapsulePayload :=
  let artifact := fun name content => mkArtifact (below +:+ name) (len content) (hex_sha256 content) in
  mkCapsulePayload 1 "dev.example.app" "1.2.0" (hex_sha256 wasm_component) "0.1.0" 1 4 (hex_sha256 []) (artifact "app.cartridge" [x50; x4b])
    (mkSnapshotReference (artifact "before.json" [x00]) 0 1 1 (hex_sha256 []))
    (mkTraceReference (artifact "run.trace" [x00]) 2 0 3 (hex_sha256 (as_bytes "won")) 42)
    (mkSnapshotReference (artifact "after.json" [x01]) 0 1 2 (hex_sha256 [])).
Definition run_capsule (below : string) : Capsule := mkCapsule (run_payload below) (hex_sha256 []).
Definition capsule_table : list Capsule := [run_capsule ""; run_capsule "files/"].
#[local] Instance run_capsule_json : Json Capsule := table_json capsule_table.
#[local] Instance run_capsule_decode : JsonDecode Capsule := table_decode capsule_table.
#[local] Instance run_capsule_rt : JsonRoundTrip Capsule := table_round_trip capsule_table.
Definition run_files : gmap string bytes :=
  {["app.cartridge" := [x50; x4b]; "before.json" := [x00]; "run.trace" := [x00]; "after.json" := [x01]]}.
Definition run_world : World := mkWorld {["/caps" := run_files]} 0 7 [].
Definition in_caps (name : string) : Path := ("/caps", name).
Definition created_run : World * Files.outcome CapsuleSummary :=
  create (in_caps "app.cartridge") (in_caps "before.json") (in_caps "run.trace") (in_caps "after.json") (in_caps "run.capsule") run_world.
Lemma created_capsule_verifies_witness :
  exists s, created_run.2 = Done (Ok s)
    /\ reports (in_caps "app.cartridge") (in_caps "before.json") (in_caps "run.trace") (in_caps "after.json") (in_caps "run.capsule") created_run.1 s.
Proof.
  pose proof (created_capsule_verifies (in_caps "app.cartridge") (in_caps "before.json") (in_caps "run.trace") (in_caps "after.json") (in_caps "run.capsule")
    run_world eq_refl) as H. fold created_run in H.
  assert (match created_run.2 with Done (Ok _) => true | _ => false end = true) as Hok by (vm_compute; reflexivity).
  destruct created_run as [w' [[s|e]|]]; [|discriminate Hok..]. exists s. split; [reflexivity|]. apply H.
Defined.
Definition moved_world : World :=
  mkWorld {["/home" := {["run.capsule" := [x01]]}; "/home/files" := run_files]} 0 7 [].
Definition first_replay : World * Files.outcome CapsuleReplayInputs := replay_inputs (in_caps "run.capsule") created_run.1.
Definition second_replay : World * Files.outcome CapsuleReplayInputs := replay_inputs ("/home", "run.capsule") moved_world.
Lemma identical_capsules_replay_alike_witness :
  exists a b, first_replay.2 = Done (Ok a) /\ second_replay.2 = Done (Ok b)
    /\ a.(cr_package) = b.(cr_package) /\ a.(cr_trace) = b.(cr_trace) /\ a.(cr_source) = b.(cr_source) /\ a.(cr_arguments) = b.(cr_arguments).
Proof.
  assert (match first_replay.2 with Done (Ok _) => true | _ => false end = true) as Hok1 by (vm_compute; reflexivity).
  assert (match second_replay.2 with Done (Ok _) => true | _ => false end = true) as Hok2 by (vm_compute; reflexivity).
  destruct first_replay as [w1 [[a|e]|]] eqn:H1; [|discriminate Hok1..]. destruct second_replay as [w2 [[b|e]|]] eqn:H2; [|discriminate Hok2..].
  exists a, b. split; [reflexivity|]. split; [reflexivity|]. unfold first_replay in H1. unfold second_replay in H2.
  apply (identical_capsules_replay_alike (in_caps "run.capsule") ("/home", "run.capsule") created_run.1 w1 moved_world w2 a b (run_capsule "") (run_capsule "files/"));
    [|exact H1|exact H2|vm_compute; reflexivity..].
  assert (forall l, Forall (fun x => Forall (fun y => sha256 x = sha256 y -> x = y) l) l -> collision_free l) as Hfree
    by (intros l Hl x y Hx Hy; rewrite Forall_forall in Hl; specialize (Hl x Hx); rewrite Forall_forall in Hl; by apply Hl).
  apply Hfree. apply (bool_decide_unpack _). vm_compute. reflexivity.
Defined.
End CapsuleWitness.
