(* ===== verification/Migrate.v ===== *)
(** * Migrations of durable state ([storage_migrate_commit_command], [storage_migration_recover_command] and their neighbours in [crates/cartridge-cli/src/main.rs])

    The commands that move a cartridge's durable state to another schema or snapshot
    and that find out afterwards what became of a migration, as runs of system calls
    without what they print.  The state directory is the current one; the compiled
    component is a guest per run, given by the bytes of the component; and what the
    world answers to the guests is an argument. *)
From stdpp Require Import pretty.
From S2P Require Import Prelude Text Core Storage Files Snapshot Directory Blob Network Manifest Trace Media Graphics Audio Archive Host HostStorage Runtime Documents Capsule.

(** ** Permissions on a command line *)
Definition bit (b : bool) (n : N) : N := if b then N.shiftl 1 n else 0.
Definition permissions_mask (p : Permissions) : N :=
  N.lor (bit p.(Manifest.clock) 0) (N.lor (bit p.(Manifest.random) 1) (N.lor (bit p.(Manifest.assets) 2) (N.lor (bit p.(Manifest.storage) 3)
    (N.lor (bit p.(Manifest.graphics) 4) (N.lor (bit p.(Manifest.audio) 5) (N.lor (bit p.(Manifest.midi) 6) (N.lor (bit p.(Manifest.http) 7) (bit p.(Manifest.serve) 8)))))))).
Definition permissions_from_mask (mask : N) : result string Permissions :=
  if negb (N.ldiff mask 511 =? 0) then Err "capability ceiling contains unknown bits"
  else Ok (mkPermissions (N.testbit mask 0) (N.testbit mask 1) (N.testbit mask 2) (N.testbit mask 3) (N.testbit mask 4) (N.testbit mask 5)
             (N.testbit mask 6) (N.testbit mask 7) (N.testbit mask 8)).

(** ** Outcomes *)
Module MigrationRecoveryStatus.
Inductive t := NotCommitted | Committed | CommittedThenChanged | Indeterminate.
#[global] Instance eq_dec : EqDecision t.
Proof. solve_decision. Defined.
End MigrationRecoveryStatus.
Record MigrationRecoveryReport := mkRecovery {
  rv_cartridge_id : string;
  rv_receipt_sha256 : string;
  rv_status : MigrationRecoveryStatus.t;
  rv_source_generation : N;
  rv_target_generation : N;
  rv_observed_generation : N;
  rv_observed_schema : N;
  rv_observed_snapshot_sha256 : string;
  rv_target_generation_retained : bool;
}.
Definition run_error_text (e : RunError) : string :=
  match e with Refused message => message | Replay error => replay_error_text error | Panicked => "panicked" end.

Section Migrations.
Context `{Ext : Externals} `{JV : !Json Value} `{Hex : HexDecode} `{UC : UrlCrate} `{JRq : !Json HttpRequest}.
Context `{Png : !PngCrate} `{DF : !JsonDecode FrameDocument} `{DA : !JsonDecode AudioDocument}.
Context `{JI : !Json InputEvent} `{JM : !Json MidiEvent} `{VI : !ValueCodec InputEvent} `{VM : !ValueCodec MidiEvent}.
Context `{ZC : !ZipCrate} `{TC : !TomlCrate}.
Context `{JSp : !Json SnapshotPayload} `{JSn : !Json StorageSnapshot} `{DSn : !JsonDecode StorageSnapshot}.
Context `{JD : !Json DiskPayload} `{JEn : !Json DiskEnvelope} `{DEn : !JsonDecode DiskEnvelope}.
Context `{JRp : !Json MigrationReceiptPayload} `{JRe : !Json MigrationReceipt} `{DRe : !JsonDecode MigrationReceipt}.
Variables (config : RuntimeConfig) (world : nat -> nat -> Outside).
(** The compiled component *)
Variables (guest : bytes -> list string -> result string Guest) (migration : bytes -> string -> N -> N -> result string Guest).

Definition loaded (archive : Archive.CartridgeArchive) : Runtime.CartridgeArchive :=
  mkArchive archive.(ar_manifest) archive.(ar_assets) (guest archive.(ar_component)) (migration archive.(ar_component)).
Definition stored {A : Type} (r : Result A) : IO A := lift (map_err storage_error_text r).
Definition storage_limits (manifest : PackageManifest) : StorageLimits :=
  mkLimits manifest.(Manifest.runtime).(storage_bytes) manifest.(Manifest.runtime).(storage_keys) manifest.(Manifest.runtime).(storage_value_bytes).

Definition storage_restore (package snapshot : Path) (dry_run : bool) : IO RestorePlan :=
  do? archive := open_package package in
  do? snapshot := storage_io (read_snapshot snapshot) in
  let manifest := archive.(ar_manifest) in
  if negb (snapshot.(sn_payload).(sn_state_schema) =? manifest.(state).(schema))
  then fail ("snapshot uses state schema " +:+ pretty snapshot.(sn_payload).(sn_state_schema) +:+ "; package expects schema "
             +:+ pretty manifest.(state).(schema) +:+ "; build and execute a migration plan first")
  else if dry_run then storage_io (DirectoryBackend.plan_restore manifest.(cartridge).(cm_id) snapshot (storage_limits manifest))
  else storage_io (DirectoryBackend.restore manifest.(cartridge).(cm_id) snapshot (storage_limits manifest)).

Definition run_migration (archive : Archive.CartridgeArchive) (source : StorageSnapshot) : IO MigrationReport :=
  lift (map_err run_error_text (migrate config world (loaded archive) source)).
Definition storage_migrate (package source output : Path) : IO (MigrationReport * StorageSnapshotSummary) :=
  do? archive := open_package package in
  do? source := storage_io (read_snapshot source) in
  do? report := run_migration archive source in
  do? summary := stored (summary report.(mr_snapshot)) in
  storage_io (write_snapshot report.(mr_snapshot) output) ;;?
  ret (report, summary).

(** The rollback snapshot and the receipt are there before the state changes *)
Definition storage_migrate_commit (package rollback_output receipt_output : Path) : IO (MigrationReport * RestorePlan) :=
  if bool_decide (rollback_output = receipt_output) then fail "rollback and receipt outputs must use different paths"
  else
    do? archive := open_package package in
    let cartridge_id := archive.(ar_manifest).(cartridge).(cm_id) in
    let limits := storage_limits archive.(ar_manifest) in
    do? source := storage_io (DirectoryBackend.capture cartridge_id) in
    storage_io (write_snapshot source.(cs_snapshot) rollback_output) ;;?
    do? report := run_migration archive source.(cs_snapshot) in
    if bool_decide (report.(mr_plan).(steps) = [])
    then fail ("durable state already uses schema " +:+ pretty report.(mr_plan).(target_schema) +:+ "; no migration commit is needed")
    else
      do? migration_summary := stored (summary report.(mr_snapshot)) in
      do? source_summary := stored (summary source.(cs_snapshot)) in
      do? target_generation := lift (ok_or (checked_add u64_max (N.max source.(cs_generation) migration_summary.(sm_state_revision)) 1)
                                       "durable generation overflowed") in
      do? committed_snapshot := stored (with_state_revision report.(mr_snapshot) target_generation) in
      do? summary := stored (summary committed_snapshot) in
      do? receipt := lift (new_receipt (mkReceiptPayload 0 cartridge_id report.(mr_plan).(mp_cartridge_version)
        (str_lower report.(mr_plan).(mp_component_sha256)) source.(cs_generation) target_generation migration_summary.(sm_state_revision)
        report.(mr_plan).(source_schema) report.(mr_plan).(target_schema) source_summary.(sm_payload_sha256) summary.(sm_payload_sha256))) in
      write_receipt receipt receipt_output ;;?
      do? commit := storage_io (DirectoryBackend.restore_if_unchanged cartridge_id source report.(mr_snapshot) limits) in
      ret (report, commit).

(** What the durable state says about a receipt *)
Definition target_matches (p : MigrationReceiptPayload) (format : N) (captured : CapturedState) : bool :=
  (captured.(cs_generation) =? p.(mrp_target_generation)) && (captured.(cs_snapshot).(sn_payload).(sn_state_schema) =? p.(mrp_target_schema))
  && match payload_sha256_for_format captured.(cs_snapshot) format with
     | Ok digest => bool_decide (digest = p.(mrp_target_snapshot_sha256))
     | Err _ => false
     end.
Definition storage_migration_recover (package receipt_path : Path) : IO MigrationRecoveryReport :=
  do? archive := open_package package in
  do? receipt := read_receipt receipt_path in
  let p := receipt.(mr_payload) in
  let manifest := archive.(ar_manifest) in
  if negb (bool_decide (p.(mrp_cartridge_id) = manifest.(cartridge).(cm_id)))
     || negb (bool_decide (p.(mrp_package_version) = manifest.(cartridge).(cm_version)))
     || negb (eq_ignore_ascii_case p.(mrp_component_sha256) manifest.(integrity).(in_component_sha256))
     || negb (p.(mrp_target_schema) =? manifest.(state).(schema))
  then fail "migration receipt does not belong to this exact package"
  else
    do? evidence := storage_io (DirectoryBackend.evidence p.(mrp_cartridge_id) p.(mrp_target_generation)) in
    let current := evidence.(ge_current) in
    do? current_summary := stored (summary current.(cs_snapshot)) in
    let snapshot_format := if p.(mrp_format_version) =? 1 then 2 else current_summary.(sm_format_version) in
    let retained := is_some evidence.(ge_requested) in
    let target := is_some_and (target_matches p snapshot_format) evidence.(ge_requested) in
    do? source :=
      (if negb (current.(cs_generation) =? p.(mrp_source_generation)) || negb (current_summary.(sm_state_schema) =? p.(mrp_source_schema)) then ret false
       else
         do? digest := stored (payload_sha256_for_format current.(cs_snapshot) snapshot_format) in
         ret (bool_decide (digest = p.(mrp_source_snapshot_sha256)))) in
    let status :=
      if target && (current.(cs_generation) =? p.(mrp_target_generation)) then MigrationRecoveryStatus.Committed
      else if target then MigrationRecoveryStatus.CommittedThenChanged
      else if retained || source then MigrationRecoveryStatus.NotCommitted
      else MigrationRecoveryStatus.Indeterminate in
    ret (mkRecovery p.(mrp_cartridge_id) receipt.(mr_payload_sha256) status p.(mrp_source_generation) p.(mrp_target_generation)
           current.(cs_generation) current_summary.(sm_state_schema) current_summary.(sm_payload_sha256) retained).

(** The time that a migration may take in all *)
Definition migration_budget_ms (archive : Archive.CartridgeArchive) (source : StorageSnapshot) : option (result string N) :=
  let manifest := archive.(ar_manifest) in
  if negb (bool_decide (source.(sn_payload).(sn_cartridge_id) = manifest.(cartridge).(cm_id)))
  then Some (Err ("snapshot belongs to " +:+ source.(sn_payload).(sn_cartridge_id) +:+ "; package belongs to " +:+ manifest.(cartridge).(cm_id)))
  else
    match migration_plan manifest source.(sn_payload).(sn_state_schema) with
    | None => None
    | Some (Err e) => Some (Err (error_to_string e))
    | Some (Ok plan) =>
        let count := len plan.(steps) in
        Some (if MAX_MIGRATION_STEPS_PER_RUN <? count
              then Err ("migration plan contains " +:+ pretty count +:+ " steps; maximum is " +:+ pretty MAX_MIGRATION_STEPS_PER_RUN)
              else
                let? budget_ms := ok_or (checked_mul u64_max manifest.(Manifest.runtime).(timeout_ms) (N.max count 1)) "migration timeout budget overflowed" in
                if MAX_MIGRATION_TOTAL_TIMEOUT_MS <? budget_ms
                then Err ("migration timeout budget is " +:+ pretty budget_ms +:+ " ms; maximum is " +:+ pretty MAX_MIGRATION_TOTAL_TIMEOUT_MS +:+ " ms")
                else Ok budget_ms)
    end.
End Migrations.

(** * Theorems about migrations of durable state

    A migration that is committed leaves the state it started from or the migrated
    one, the latter only with the rollback snapshot and the receipt in place, and the
    recovery command tells which; permissions survive the command line. *)
From S2P Require Import StorageSpec Events DirectoryTheorems RestoreTheorems NetworkTheorems ManifestTheorems GraphicsTheorems ArchiveTheorems RuntimeTheorems Desktop Planning PlanningTheorems Capsule.

(** ** Permissions *)
(** Permissions survive the command line: a mask reads back as the permissions it
    was made of and fits 9 bits, and no other number is read as permissions. *)
Theorem permissions_round_trip (p : Permissions) (mask : N) :
  permissions_from_mask (permissions_mask p) = Ok p /\ permissions_mask p < 512
  /\ (permissions_from_mask mask = Ok p -> mask = permissions_mask p).
Proof.
  split_and!; [by destruct p as [[] [] [] [] [] [] [] [] []]..|]. unfold permissions_from_mask.
  destruct (N.eqb_spec (N.ldiff mask 511) 0) as [Hd|]; cbn [negb]; [|done]. intros [= <-].
  assert (mask < 512) as Hlt.
  { apply N.ldiff_le in Hd. lia. }
  assert (forallb (fun n => permissions_mask (mkPermissions (N.testbit n 0) (N.testbit n 1) (N.testbit n 2) (N.testbit n 3) (N.testbit n 4)
    (N.testbit n 5) (N.testbit n 6) (N.testbit n 7) (N.testbit n 8)) =? n) (N.of_nat <$> seq 0 512) = true) as Hall by (vm_compute; reflexivity).
  rewrite forallb_forall in Hall. symmetry. apply N.eqb_eq, Hall, list_elem_of_In, list_elem_of_fmap. exists (N.to_nat mask).
  split; [lia|]. apply elem_of_seq. lia.
Qed.

Section Reads.
Context `{Ext : Externals} `{Hex : HexDecode} `{JSp : !Json SnapshotPayload} `{JD : !Json DiskPayload} `{JEn : !Json DiskEnvelope} `{DEn : !JsonDecode DiskEnvelope}.
(** ** Reading the durable state *)
Definition durable (ns : string) (s : State) (w : World) : Prop := load_state (default ∅ (disk w !! namespace_directory ns)) ns = Ok s.
Lemma durable_holds ns s w : durable ns s w <-> holds (disk w) ns s (disk w).
Proof. unfold durable, holds, hold. naive_solver. Qed.
Lemma reading_triple {A : Type} d0 ns s (k : string -> IOR A) (R : Result A -> Prop) :
  (forall dir, dir = namespace_directory ns -> triple (fun d => holds d0 ns s d /\ is_Some (d !! dir)) (k dir)
     (fun r d => holds d0 ns s d /\ match r with Ok x => R x | Err _ => True end) (holds d0 ns s)) ->
  (forall e, R (Err e)) ->
  triple (holds d0 ns s) (with_namespace ns k) (fun r d => holds d0 ns s d /\ match r with Ok x => R x | Err _ => True end) (holds d0 ns s).
Proof.
  intros Hk HR. unfold with_namespace. apply triple_pure_bind; [intros e d _ Hd; by split|]. intros _ _. cbv zeta. set (dir := namespace_directory ns).
  apply (open_triple dir (hold d0 dir ns s)); [apply hold_new|intros d n c; apply hold_write| |done|by apply Hk].
  intros [[a|e]|e] d Hd Hr; by split.
Qed.
Lemma capture_triple d0 ns s :
  triple (holds d0 ns s) (DirectoryBackend.capture ns)
    (fun r d => holds d0 ns s d /\ match r with Ok x => forall c, x = Ok c -> DirectoryBackend.capture_state ns s = Ok c | Err _ => True end) (holds d0 ns s).
Proof.
  unfold DirectoryBackend.capture. apply (reading_triple d0 ns s _ (fun x => forall c, x = Ok c -> DirectoryBackend.capture_state ns s = Ok c)); [|done].
  intros dir ->. apply (triple_rbind _ _ _ (fun s1 d => s1 = s /\ holds d0 ns s d)).
  { eapply triple_weaken; [apply (load_triple d0 (namespace_directory ns) ns s)|done| |done]. intros r d [-> [Hd _]]. by split. }
  intros s1 w [-> Hw]. by split.
Qed.
Lemma evidence_triple d0 ns s g :
  triple (holds d0 ns s) (DirectoryBackend.evidence ns g)
    (fun r d => holds d0 ns s d /\ match r with
       | Ok x => forall e, x = Ok e -> DirectoryBackend.capture_state ns s = Ok e.(ge_current)
                  /\ (g = s.(st_generation) -> e.(ge_requested) = Some e.(ge_current)) /\ (s.(st_generation) < g -> e.(ge_requested) = None)
       | Err _ => True end) (holds d0 ns s).
Proof.
  unfold DirectoryBackend.evidence. apply (reading_triple d0 ns s _ (fun x => forall e, x = Ok e -> DirectoryBackend.capture_state ns s = Ok e.(ge_current)
    /\ (g = s.(st_generation) -> e.(ge_requested) = Some e.(ge_current)) /\ (s.(st_generation) < g -> e.(ge_requested) = None))); [|done].
  intros dir ->. apply (triple_rbind _ _ _ (fun s1 d => s1 = s /\ holds d0 ns s d /\ is_Some (d !! namespace_directory ns))).
  { eapply triple_weaken; [apply (load_triple d0 (namespace_directory ns) ns s)|done| |done]. intros r d [-> Hd]. by split. }
  intros s1 w [-> [Hw [m Hm]]]. pose proof Hw as [_ Hload]. rewrite Hm in Hload. cbn in Hload.
  unfold rbind, pure_, bind, ret. destruct (DirectoryBackend.capture_state ns s) as [c|] eqn:Hc; [|by split].
  destruct (N.eqb_spec g (st_generation s)) as [Heq|Hne].
  - split; [done|]. intros e [= <-]. cbn. split_and!; [done|done|lia].
  - unfold io, bind, read_dir. rewrite Hm. cbn. unfold ret. destruct (state_files m) as [fs|] eqn:Hfs; [|by split].
    destruct (List.find _ fs) as [[g' [n content]]|] eqn:Hfind; cbn; [|split; [done|]; intros e [= <-]; cbn; split_and!; [done|lia|done]].
    apply List.find_some in Hfind as [Hin Hg]. apply N.eqb_eq in Hg. cbn in Hg. subst g'. apply list_elem_of_In in Hin.
    pose proof (load_state_generation m ns s fs _ Hload Hfs Hin) as Hle. cbn in Hle.
    destruct (read_state content ns g) as [s2|]; [|by split]. destruct (DirectoryBackend.capture_state ns s2); [|by split].
    split; [done|]. intros e [= <-]. cbn. split_and!; [done|lia|lia].
Qed.
(** What a captured state is *)
Lemma capture_fields ns s c :
  DirectoryBackend.capture_state ns s = Ok c ->
  c.(cs_generation) = s.(st_generation)
  /\ c.(cs_snapshot).(sn_payload) = mkSnapshotPayload SNAPSHOT_FORMAT_VERSION ns s.(st_schema) s.(st_generation) (hex_encode <$> s.(st_entries))
  /\ payload_digest c.(cs_snapshot).(sn_payload) = Ok c.(cs_snapshot).(sn_payload_sha256).
Proof.
  unfold DirectoryBackend.capture_state, from_entries_with_revision. destruct (validate_namespace ns); [|done]. cbv zeta.
  destruct (payload_digest _) as [digest|] eqn:Hd; [|done]. intros [= <-]. by cbn.
Qed.
Lemma summary_fields snapshot sm :
  summary snapshot = Ok sm -> validate_snapshot snapshot = Ok tt /\ sm.(sm_payload_sha256) = snapshot.(sn_payload_sha256)
    /\ sm.(sm_state_revision) = snapshot.(sn_payload).(sn_state_revision) /\ sm.(sm_state_schema) = snapshot.(sn_payload).(sn_state_schema)
    /\ sm.(sm_format_version) = snapshot.(sn_payload).(sn_format_version).
Proof.
  unfold summary. destruct (validate_snapshot snapshot) as [[]|]; [|done]. destruct (decode_entries snapshot); [|done]. destruct (snapshot_usage _); [|done].
  cbv zeta. intros [= <-]. by cbn.
Qed.
(** The digest of a captured state in its own format is its own *)
Lemma capture_digest ns s c :
  DirectoryBackend.capture_state ns s = Ok c -> validate_snapshot c.(cs_snapshot) = Ok tt ->
  payload_sha256_for_format c.(cs_snapshot) SNAPSHOT_FORMAT_VERSION = Ok c.(cs_snapshot).(sn_payload_sha256).
Proof.
  intros (_ & Hp & Hd)%capture_fields Hv. unfold payload_sha256_for_format. rewrite Hv, <- Hd, Hp. done.
Qed.
End Reads.

Section MigrateTheorems.
Context `{Ext : Externals} `{JV : !Json Value} `{Hex : HexDecode} `{UC : UrlCrate} `{JRq : !Json HttpRequest}.
Context `{Png : !PngCrate} `{DF : !JsonDecode FrameDocument} `{DA : !JsonDecode AudioDocument}.
Context `{JI : !Json InputEvent} `{JM : !Json MidiEvent} `{VI : !ValueCodec InputEvent} `{VM : !ValueCodec MidiEvent}.
Context `{ZC : !ZipCrate} `{TC : !TomlCrate}.
Context `{JSp : !Json SnapshotPayload} `{JSn : !Json StorageSnapshot} `{DSn : !JsonDecode StorageSnapshot}.
Context `{JD : !Json DiskPayload} `{JEn : !Json DiskEnvelope} `{DEn : !JsonDecode DiskEnvelope} `{RTEn : !JsonRoundTrip DiskEnvelope}.
Context `{JRp : !Json MigrationReceiptPayload} `{JRe : !Json MigrationReceipt} `{DRe : !JsonDecode MigrationReceipt} `{RRe : !JsonRoundTrip MigrationReceipt}.
Variables (config : RuntimeConfig) (world : nat -> nat -> Outside).
Variables (guest : bytes -> list string -> result string Guest) (migration : bytes -> string -> N -> N -> result string Guest).

(** ** The steps of a commit *)
Definition apart (ns : string) (w w' : World) : Prop := forall x, x <> namespace_directory ns -> disk w' !! x = disk w !! x.
Lemma apart_read ns w w' path : apart ns w w' -> path.1 <> namespace_directory ns -> read_path (disk w') path = read_path (disk w) path.
Proof. intros Ha Hp. unfold read_path. by rewrite Ha. Qed.
Lemma framed_durable prefix dir names ns s w w' :
  framed prefix dir names (disk w) (disk w') -> dir <> namespace_directory ns -> durable ns s w -> durable ns s w'.
Proof. intros [Hd _ _] Hne. unfold durable. by rewrite Hd. Qed.
Lemma framed_read prefix dir names w w' path :
  framed prefix dir names (disk w) (disk w') -> ~ (path.1 = dir /\ path.2 ∈ names) -> staged prefix path.2 = false ->
  read_path (disk w') path = read_path (disk w) path.
Proof.
  intros [Hd _ Hn] Hnot Hs. destruct path as [d n]. cbn [fst snd] in *. destruct (decide (d = dir)) as [->|Hne].
  - apply Hn; [|done]. intros Hin. by apply Hnot.
  - unfold read_path. cbn [fst snd]. by rewrite Hd.
Qed.
Lemma storage_io_run {A : Type} (m : IOR A) w w' o :
  storage_io m w = (w', o) -> exists o', m w = (w', o') /\ forall a, o = Done (Ok a) -> o' = Done (Ok (Ok a)).
Proof.
  unfold storage_io, bind, lift. destruct (m w) as [w1 [[r|e]|]]; intros [= <- <-]; (eexists; split; [done|]); [|done..].
  intros a. destruct r; cbn [map_err]; [by intros [= <-]|done].
Qed.
Lemma capture_run ns s w w' o :
  durable ns s w -> storage_io (DirectoryBackend.capture ns) w = (w', o) ->
  durable ns s w' /\ apart ns w w' /\ forall c, o = Done (Ok c) -> DirectoryBackend.capture_state ns s = Ok c.
Proof.
  intros Hd%durable_holds (o' & Hr & Ho)%storage_io_run. pose proof (capture_triple (disk w) ns s w Hd) as Ht. rewrite Hr in Ht.
  destruct o' as [[r|e]|]; [destruct Ht as [[Ha Hl] Hc]|destruct Ht as [[Ha Hl] _]|destruct Ht as [Ha Hl]]; (split; [exact Hl|]; split; [exact Ha|]).
  - intros c Hoc. apply Ho in Hoc. injection Hoc as ->. by apply Hc.
  - intros c Hoc. by apply Ho in Hoc.
  - intros c Hoc. by apply Ho in Hoc.
Qed.
Lemma write_snapshot_run snapshot path w w' o :
  staged SNAPSHOT_PREFIX path.2 = false -> storage_io (write_snapshot snapshot path) w = (w', o) ->
  framed SNAPSHOT_PREFIX path.1 [path.2] (disk w) (disk w')
  /\ forall u, o = Done (Ok u) -> exists b, to_vec snapshot = Ok b /\ read_path (disk w') path = Some b.
Proof.
  intros Hname (o' & Hr & Ho)%storage_io_run. revert Hr. unfold write_snapshot, rbind, pure_, bind, ret.
  destruct (validate_snapshot snapshot); [|intros [= <- <-]; split; [apply framed_refl|]; intros u Hu; by apply Ho in Hu].
  intros Hr. pose proof (linked_document_is_whole SNAPSHOT_PREFIX path (serialize snapshot) w Hname) as Ht. rewrite Hr in Ht.
  destruct Ht as (Hf & _ & Hok). split; [done|]. intros u Hu. apply Ho in Hu. subst o'. destruct Hok as (_ & b & Hb & Hread). exists b. split; [|done].
  unfold serialize in Hb. destruct (to_vec snapshot); [|done]. by injection Hb as ->.
Qed.
(** A receipt that is on disk *)
Definition receipt_at (r : MigrationReceipt) (path : Path) (w : World) : Prop :=
  validate_receipt r = Ok tt /\ exists b, to_vec r = Ok b /\ len b <= MAX_RECEIPT_BYTES /\ read_path (disk w) path = Some b.
Lemma receipt_reads r path w : receipt_at r path w -> read_receipt path w = (w, Done (Ok r)).
Proof.
  intros [Hv (b & Hb & Hl & Hr)]. unfold read_receipt, read_take, read_file, bind. rewrite Hr. cbn [ok_or]. unfold ret. rewrite take_ge by (unfold len in *; lia).
  unfold receipt_from_slice, lift. destruct (N.ltb_spec MAX_RECEIPT_BYTES (len b)); [lia|]. by rewrite (from_slice_to_vec r b Hb), Hv.
Qed.
Lemma write_receipt_run r path w w' o :
  staged RECEIPT_PREFIX path.2 = false -> write_receipt r path w = (w', o) ->
  framed RECEIPT_PREFIX path.1 [path.2] (disk w) (disk w') /\ (read_path (disk w') path = read_path (disk w) path \/ receipt_at r path w')
  /\ forall u, o = Done (Ok u) -> receipt_at r path w'.
Proof.
  intros Hname. unfold write_receipt, lift, bind. destruct (validate_receipt r) as [[]|] eqn:Hv;
    [|intros [= <- <-]; split_and!; [apply framed_refl|by left|done]].
  destruct (to_vec r) as [b|] eqn:Hb; [|intros [= <- <-]; split_and!; [apply framed_refl|by left|done]].
  destruct (N.ltb_spec MAX_RECEIPT_BYTES (len b)) as [|Hl]; [intros [= <- <-]; split_and!; [apply framed_refl|by left|done]|].
  pose proof (linked_document_is_whole (E := string) RECEIPT_PREFIX path (Ok b) w Hname) as Ht. destruct (link_new _ _ _ w) as [w1 o1].
  destruct Ht as (Hf & Hor & Hok). intros Hrun. assert (w1 = w') as -> by (by destruct o1 as [[|]|]; injection Hrun).
  split; [done|]. split; [destruct Hor as [|(_ & c & [= <-] & Hr)]; [by left|right; split; [done|]; by exists b]|].
  intros u ->. destruct o1 as [[[u'|]|]|]; [|done..]. destruct Hok as (_ & c & [= <-] & Hr). split; [done|]. by exists b.
Qed.
(** The state that restoring commits *)
Definition migrated_state (s : State) (snapshot : StorageSnapshot) (entries : gmap string bytes) : State := committed (restored_state s snapshot entries).
Lemma restore_run ns s source snapshot limits w w' o :
  durable ns s w -> s.(st_schema) <> snapshot.(sn_payload).(sn_state_schema) ->
  (forall entries, entries_for snapshot ns = Ok entries -> fits ns (restored_state s snapshot entries)) ->
  storage_io (DirectoryBackend.restore_if_unchanged ns source snapshot limits) w = (w', o) ->
  apart ns w w'
  /\ ((durable ns s w' /\ forall u, o <> Done (Ok u)) \/ exists entries, entries_for snapshot ns = Ok entries /\ durable ns (migrated_state s snapshot entries) w').
Proof.
  intros Hd%durable_holds Hne Hfit (o' & Hr & Ho)%storage_io_run.
  change (DirectoryBackend.restore_if_unchanged ns source snapshot limits) with (restore_call ns (Some source) snapshot limits) in Hr.
  apply (holds_run (disk w) ns _ _ s _ _ _ _ (restore_transact ns (Some source) snapshot limits) Hd) in Hr.
  2:{ intros plan s' _ Hn. apply restore_next_ok in Hn as (m & Hm & -> & Hok & Hge). by split_and!; [..|apply Hfit]. }
  assert (forall plan s' d, restore_next ns (Some source) snapshot s = Ok (plan, Some s') -> holds (disk w) ns (committed s') d -> d = disk w' ->
    apart ns w w' /\ exists entries, entries_for snapshot ns = Ok entries /\ durable ns (migrated_state s snapshot entries) w') as Hnew.
  { intros plan s' d Hn [Ha Hl] ->. split; [exact Ha|]. apply restore_next_ok in Hn as (m & Hm & -> & _). by exists m. }
  destruct o' as [[[plan|e]|e]|].
  1:{ destruct Hr as (_ & next & Hn & Hh). assert (exists s', next = Some s') as [s' ->].
    { revert Hn. unfold restore_next. destruct (_ || _); [done|]. destruct (entries_for snapshot ns) as [m|]; [|done].
      destruct (DirectoryBackend.plan_of s snapshot m) as [p|] eqn:Hp; [|done]. apply build_plan_spec in Hp as [_ Hp].
      destruct (plan_changed p); [|by destruct Hp as (_ & _ & ? & _)]. intros [= _ <-]. by eexists. }
    destruct (Hnew _ _ _ Hn Hh eq_refl) as [Ha He]. split; [done|]. by right. }
  all: destruct Hr as [[Ha Hl]|(plan & s' & _ & Hn & Hh)];
    [split; [exact Ha|]; left; split; [exact Hl|]; intros u Hu; by apply Ho in Hu|destruct (Hnew _ _ _ Hn Hh eq_refl) as [Ha He]; split; [done|by right]].
Qed.
(** What the report of a migration says about schemas *)
Lemma migrate_schemas archive source report :
  migrate config world archive source = Ok report -> report.(mr_plan).(steps) <> [] ->
  report.(mr_plan).(source_schema) = source.(sn_payload).(sn_state_schema)
  /\ report.(mr_plan).(target_schema) = report.(mr_snapshot).(sn_payload).(sn_state_schema).
Proof.
  unfold migrate. cbv zeta. destruct (migration_plan _ _) as [[plan|e]|] eqn:Hplan; [|done..].
  assert (plan.(source_schema) = source.(sn_payload).(sn_state_schema)) as Hs.
  { revert Hplan. unfold migration_plan. destruct (validate_package _); [|done]. cbv zeta. destruct (_ <? _); [done|].
    destruct (follow _ _ _ _ _) as [[l|]|]; [|done..]. by intros [= <-]. }
  destruct (validate_migration_budget _ _); [|done]. destruct (branch_of _ _ _ _); [|done]. case_bool_decide as Hlen.
  - intros [= <-] Hne. by apply nil_length_inv in Hlen.
  - destruct (negb _); [done|]. destruct (migrate_steps _ _ _ _ _ _ _ _) as [[final reports]|]; [|done].
    destruct (N.eqb_spec (sn_state_schema (sn_payload final)) (target_schema plan)) as [Heq|]; [|done]. intros [= <-] _. by cbn.
Qed.

(** ** Receipts that describe a migration *)
Record describes (r : MigrationReceipt) (ns : string) (s : State) (snapshot : StorageSnapshot) : Prop := {
  de_format : r.(mr_payload).(mrp_format_version) = RECEIPT_FORMAT_VERSION;
  de_cartridge : r.(mr_payload).(mrp_cartridge_id) = ns;
  de_source : r.(mr_payload).(mrp_source_generation) = s.(st_generation) /\ r.(mr_payload).(mrp_source_schema) = s.(st_schema);
  de_target : r.(mr_payload).(mrp_target_generation) = N.max s.(st_generation) snapshot.(sn_payload).(sn_state_revision) + 1
              /\ r.(mr_payload).(mrp_target_schema) = snapshot.(sn_payload).(sn_state_schema);
  de_source_digest : forall c, DirectoryBackend.capture_state ns s = Ok c -> c.(cs_snapshot).(sn_payload_sha256) = r.(mr_payload).(mrp_source_snapshot_sha256);
  de_target_digest : forall entries c, entries_for snapshot ns = Ok entries ->
    DirectoryBackend.capture_state ns (migrated_state s snapshot entries) = Ok c -> c.(cs_snapshot).(sn_payload_sha256) = r.(mr_payload).(mrp_target_snapshot_sha256);
}.
Lemma entries_for_fields snapshot ns entries :
  entries_for snapshot ns = Ok entries -> snapshot.(sn_payload).(sn_cartridge_id) = ns /\ decode_entries snapshot = Ok entries.
Proof. unfold entries_for. destruct (validate_snapshot snapshot); [|done]. destruct (bool_decide_reflect (sn_cartridge_id (sn_payload snapshot) = ns)); done. Qed.
Lemma committed_digest s snapshot ns g committed_snapshot sm entries c :
  with_state_revision snapshot g = Ok committed_snapshot -> summary committed_snapshot = Ok sm -> entries_for snapshot ns = Ok entries ->
  g = N.max s.(st_generation) snapshot.(sn_payload).(sn_state_revision) + 1 ->
  DirectoryBackend.capture_state ns (migrated_state s snapshot entries) = Ok c -> c.(cs_snapshot).(sn_payload_sha256) = sm.(sm_payload_sha256).
Proof.
  intros Hw Hsm He -> Hc. apply summary_fields in Hsm as (_ & -> & _). apply entries_for_fields in He as [Hid Hdec]. revert Hw Hc.
  unfold with_state_revision, DirectoryBackend.capture_state. destruct (validate_snapshot snapshot); [|done]. rewrite Hdec, Hid.
  cbn [migrated_state committed with_generation restored_state st_schema st_generation st_entries]. intros -> . by intros [= <-].
Qed.
Lemma recovery_run package path r ns w w' rep (current : State) :
  receipt_at r path w -> r.(mr_payload).(mrp_cartridge_id) = ns -> r.(mr_payload).(mrp_format_version) = RECEIPT_FORMAT_VERSION -> durable ns current w ->
  storage_migration_recover package path w = (w', Done (Ok rep)) ->
  durable ns current w' /\ exists c, DirectoryBackend.capture_state ns current = Ok c /\ validate_snapshot c.(cs_snapshot) = Ok tt
    /\ (r.(mr_payload).(mrp_target_generation) = current.(st_generation) -> target_matches r.(mr_payload) SNAPSHOT_FORMAT_VERSION c = true ->
        rep.(rv_status) = MigrationRecoveryStatus.Committed)
    /\ (current.(st_generation) < r.(mr_payload).(mrp_target_generation) -> r.(mr_payload).(mrp_source_generation) = current.(st_generation) ->
        r.(mr_payload).(mrp_source_schema) = current.(st_schema) -> c.(cs_snapshot).(sn_payload_sha256) = r.(mr_payload).(mrp_source_snapshot_sha256) ->
        rep.(rv_status) = MigrationRecoveryStatus.NotCommitted).
Proof.
  intros Hat Hns Hformat Hd. unfold storage_migration_recover. intros (archive & _ & H)%bind_ok; [|apply open_package_pure].
  unfold bind at 1 in H. rewrite (receipt_reads _ _ _ Hat) in H. cbv zeta in H. destruct (_ || _); [done|]. rewrite Hns in H.
  unfold bind at 1 in H. destruct (storage_io _ w) as [w1 o1] eqn:Hev. destruct o1 as [[ev|e]|]; [|done..].
  apply storage_io_run in Hev as (o' & Hev & Ho). specialize (Ho ev eq_refl) as ->.
  pose proof (evidence_triple (disk w) ns current (mrp_target_generation (mr_payload r)) w (proj1 (durable_holds _ _ _) Hd)) as Ht. rewrite Hev in Ht.
  destruct Ht as [[Ha Hl] Ht]. destruct (Ht ev eq_refl) as (Hcap & Hsame & Hnone). clear Ht. unfold stored in H. apply lift_ok in H as (sm & Hsm & H).
  destruct (summary _) as [sm'|] eqn:Hsum; [|done]. injection Hsm as ->. apply summary_fields in Hsum as (Hval & Hsha & Hrev & Hschema & Hfmt).
  pose proof (capture_fields _ _ _ Hcap) as (Hgen & Hpay & _). rewrite Hformat in H. change (RECEIPT_FORMAT_VERSION =? 1) with false in H.
  rewrite Hfmt, Hpay in H. cbn [sn_format_version] in H.
  assert (exists source, w' = w1 /\ rep.(rv_status) =
    (if is_some_and (target_matches r.(mr_payload) SNAPSHOT_FORMAT_VERSION) (ge_requested ev) && (cs_generation (ge_current ev) =? mrp_target_generation (mr_payload r))
     then MigrationRecoveryStatus.Committed
     else if is_some_and (target_matches r.(mr_payload) SNAPSHOT_FORMAT_VERSION) (ge_requested ev) then MigrationRecoveryStatus.CommittedThenChanged
     else if is_some (ge_requested ev) || source then MigrationRecoveryStatus.NotCommitted else MigrationRecoveryStatus.Indeterminate)
    /\ (r.(mr_payload).(mrp_source_generation) = current.(st_generation) -> r.(mr_payload).(mrp_source_schema) = current.(st_schema) ->
        (ge_current ev).(cs_snapshot).(sn_payload_sha256) = r.(mr_payload).(mrp_source_snapshot_sha256) -> source = true)) as (source & -> & Hstatus & Hsource).
  { rewrite Hschema, Hpay, Hgen in H. cbn [sn_state_schema] in H. unfold bind at 1 in H. destruct (_ || _) eqn:Hg.
    - exists false. injection H as <- <-. split_and!; [done|by rewrite Hgen|]. intros H1 H2 _. rewrite H1, H2, !N.eqb_refl in Hg. done.
    - unfold bind, lift in H. rewrite (capture_digest _ _ _ Hcap Hval) in H. cbn [map_err] in H. unfold ret in H. injection H as <- <-.
      eexists. split_and!; [done|cbn; by rewrite Hgen|]. intros _ _ Hd3. by apply bool_decide_eq_true_2. }
  split; [exact Hl|]. exists (ge_current ev). split; [done|]. split; [done|]. split.
  - intros Hg Htm. rewrite Hstatus, (Hsame Hg). cbn [is_some_and]. rewrite Htm, Hgen, Hg, N.eqb_refl. done.
  - intros Hlt H1 H2 H3. rewrite Hstatus, (Hnone Hlt), (Hsource H1 H2 H3). done.
Qed.

(** ** The outcomes of a commit *)
Section Commit.
Variables (package rollback receipt : Path) (archive : Archive.CartridgeArchive) (s : State).
Notation ns := (archive.(ar_manifest).(cartridge).(cm_id)).
(** Nothing changed and there is no receipt *)
Definition untouched (w' : World) : Prop := durable ns s w' /\ read_path (disk w') receipt = None.
(** The receipt is there and the state is still the old one *)
Definition prepared (w' : World) : Prop :=
  durable ns s w' /\ exists r source report, DirectoryBackend.capture_state ns s = Ok source
    /\ migrate config world (loaded guest migration archive) source.(cs_snapshot) = Ok report
    /\ receipt_at r receipt w' /\ describes r ns s report.(mr_snapshot).
(** The state is the migrated one; the snapshot to go back to and the receipt are there *)
Definition migrated (w' : World) : Prop :=
  exists r source report entries b, DirectoryBackend.capture_state ns s = Ok source
    /\ migrate config world (loaded guest migration archive) source.(cs_snapshot) = Ok report
    /\ entries_for report.(mr_snapshot) ns = Ok entries /\ durable ns (migrated_state s report.(mr_snapshot) entries) w'
    /\ to_vec source.(cs_snapshot) = Ok b /\ read_path (disk w') rollback = Some b
    /\ receipt_at r receipt w' /\ describes r ns s report.(mr_snapshot).
Definition settled {A : Type} (o : Files.outcome A) (w' : World) : Prop :=
  (untouched w' \/ prepared w' \/ migrated w') /\ forall a, o = Done (Ok a) -> migrated w'.
Lemma settled_untouched {A : Type} (o : Files.outcome A) w' : untouched w' -> (forall a, o <> Done (Ok a)) -> settled o w'.
Proof. intros H Hn. split; [by left|]. intros a Ho. by destruct (Hn a). Qed.

Hypothesis Hrollback : rollback.1 <> namespace_directory ns /\ staged SNAPSHOT_PREFIX rollback.2 = false /\ staged RECEIPT_PREFIX rollback.2 = false.
Hypothesis Hreceipt : receipt.1 <> namespace_directory ns /\ staged SNAPSHOT_PREFIX receipt.2 = false /\ staged RECEIPT_PREFIX receipt.2 = false.
Hypothesis Hfits : forall source report entries, DirectoryBackend.capture_state ns s = Ok source ->
  migrate config world (loaded guest migration archive) source.(cs_snapshot) = Ok report ->
  entries_for report.(mr_snapshot) ns = Ok entries -> fits ns (restored_state s report.(mr_snapshot) entries).

(** The receipt that a commit makes describes its migration *)
Lemma receipt_describes source report migration_summary source_summary target_generation committed_snapshot summary1 r version component :
  DirectoryBackend.capture_state ns s = Ok source -> migrate config world (loaded guest migration archive) source.(cs_snapshot) = Ok report ->
  report.(mr_plan).(steps) <> [] -> summary report.(mr_snapshot) = Ok migration_summary -> summary source.(cs_snapshot) = Ok source_summary ->
  checked_add u64_max (N.max source.(cs_generation) migration_summary.(sm_state_revision)) 1 = Some target_generation ->
  with_state_revision report.(mr_snapshot) target_generation = Ok committed_snapshot -> summary committed_snapshot = Ok summary1 ->
  new_receipt (mkReceiptPayload 0 ns version component source.(cs_generation) target_generation migration_summary.(sm_state_revision)
    report.(mr_plan).(source_schema) report.(mr_plan).(target_schema) source_summary.(sm_payload_sha256) summary1.(sm_payload_sha256)) = Ok r ->
  validate_receipt r = Ok tt /\ describes r ns s report.(mr_snapshot) /\ s.(st_schema) <> report.(mr_snapshot).(sn_payload).(sn_state_schema).
Proof.
  intros Hc Hm Hsteps Hms Hss Hadd Hcs Hsum Hr. destruct (migrate_schemas _ _ _ Hm Hsteps) as [Hsrc Htgt].
  apply summary_fields in Hss as (_ & Hsha & _). apply summary_fields in Hms as (_ & _ & Hrev & _). apply checked_add_Some in Hadd as [-> _].
  pose proof (capture_fields _ _ _ Hc) as (Hgen & Hpay & _). revert Hr. unfold new_receipt. cbv zeta. cbn [with_receipt_format mrp_cartridge_id mrp_package_version
    mrp_component_sha256 mrp_source_generation mrp_target_generation mrp_migration_revision mrp_source_schema mrp_target_schema mrp_source_snapshot_sha256
    mrp_target_snapshot_sha256]. destruct (receipt_digest _) as [digest|]; [|done].
  destruct (validate_receipt _) as [[]|] eqn:Hv; [|done]. intros [= <-]. split; [done|]. split.
  - constructor; cbn [mr_payload mrp_format_version mrp_cartridge_id mrp_source_generation mrp_source_schema mrp_target_generation mrp_target_schema
      mrp_source_snapshot_sha256 mrp_target_snapshot_sha256]; [done|done|by rewrite Hsrc, Hpay|by rewrite Hgen, Hrev| |].
    + intros c Hc'. rewrite Hc in Hc'. injection Hc' as <-. by rewrite Hsha.
    + intros entries c He Hcap. rewrite Hgen, Hrev in Hcs. by eapply committed_digest.
  - apply receipt_facts in Hv as [Hlt _]. cbn [mr_payload mrp_source_schema mrp_target_schema] in Hlt. rewrite Hsrc, Hpay in Hlt. cbn in Hlt. lia.
Qed.
(** After the receipt is written the state is restored over what was captured *)
Lemma commit_restores source report r b w w' o :
  DirectoryBackend.capture_state ns s = Ok source -> migrate config world (loaded guest migration archive) source.(cs_snapshot) = Ok report ->
  durable ns s w -> receipt_at r receipt w -> describes r ns s report.(mr_snapshot) -> s.(st_schema) <> report.(mr_snapshot).(sn_payload).(sn_state_schema) ->
  to_vec source.(cs_snapshot) = Ok b -> read_path (disk w) rollback = Some b ->
  storage_io (DirectoryBackend.restore_if_unchanged ns source report.(mr_snapshot) (storage_limits archive.(ar_manifest))) w = (w', o) -> settled o w'.
Proof.
  intros Hc Hm Hd Hat Hde Hne Hb Hback Hrun. apply (restore_run ns s) in Hrun; [|done..|by intros entries; eapply Hfits]. destruct Hrun as [Ha Hor].
  assert (receipt_at r receipt w') as Hat'.
  { destruct Hat as [Hv (c & Hc1 & Hl & Hr)]. split; [done|]. exists c. split_and!; [done..|]. by rewrite (apart_read _ _ _ _ Ha (proj1 Hreceipt)). }
  destruct Hor as [[Hd' Ho]|(entries & He & Hd')].
  - split; [right; left; split; [done|]; by exists r, source, report|]. intros a Hoa. by destruct (Ho a).
  - assert (migrated w') as Hmig.
    { exists r, source, report, entries, b. split_and!; try done. by rewrite (apart_read _ _ _ _ Ha (proj1 Hrollback)). }
    split; [by right; right|done].
Qed.
(** A step that computes keeps an untouched world untouched *)
Lemma settled_lift {A B : Type} (r : result string A) (k : A -> IO B) w w' o :
  untouched w -> bind (lift r) k w = (w', o) -> (forall a, r = Ok a -> k a w = (w', o) -> settled o w') -> settled o w'.
Proof.
  intros Hu Hrun Hk. revert Hrun. unfold bind, lift. destruct r as [a|e]; [by apply Hk|]. intros [= <- <-]. by apply settled_untouched.
Qed.
Lemma settled_bind {A B : Type} (m : IO A) (k : A -> B) w w' o :
  bind m (fun a => ret (k a)) w = (w', o) -> (forall o', m w = (w', o') -> settled o' w') -> settled o w'.
Proof.
  unfold bind. destruct (m w) as [w1 o1] eqn:Hm. intros Hrun Hk. assert (w1 = w') as -> by (destruct o1 as [[|]|]; by injection Hrun).
  destruct (Hk o1 eq_refl) as [H1 H2]. split; [done|]. intros b ->. destruct o1 as [[a|]|]; [by apply (H2 a)|done..].
Qed.
(** From the captured state on *)
Lemma commit_after_capture source w w' o b :
  DirectoryBackend.capture_state ns s = Ok source -> rollback <> receipt -> untouched w -> to_vec source.(cs_snapshot) = Ok b -> read_path (disk w) rollback = Some b ->
  (do? report := run_migration config world guest migration archive source.(cs_snapshot) in
   if bool_decide (report.(mr_plan).(steps) = []) then fail ("durable state already uses schema " +:+ pretty report.(mr_plan).(target_schema) +:+ "; no migration commit is needed")
   else
      do? migration_summary := stored (summary report.(mr_snapshot)) in
      do? source_summary := stored (summary source.(cs_snapshot)) in
      do? target_generation := lift (ok_or (checked_add u64_max (N.max source.(cs_generation) migration_summary.(sm_state_revision)) 1)
                                       "durable generation overflowed") in
      do? committed_snapshot := stored (with_state_revision report.(mr_snapshot) target_generation) in
      do? summary := stored (summary committed_snapshot) in
      do? r := lift (new_receipt (mkReceiptPayload 0 ns report.(mr_plan).(mp_cartridge_version)
        (str_lower report.(mr_plan).(mp_component_sha256)) source.(cs_generation) target_generation migration_summary.(sm_state_revision)
        report.(mr_plan).(source_schema) report.(mr_plan).(target_schema) source_summary.(sm_payload_sha256) summary.(sm_payload_sha256))) in
      write_receipt r receipt ;;?
      do? commit := storage_io (DirectoryBackend.restore_if_unchanged ns source report.(mr_snapshot) (storage_limits archive.(ar_manifest))) in
      ret (report, commit)) w = (w', o) -> settled o w'.
Proof.
  intros Hc Hdiff Hu Hb Hback. unfold run_migration, stored.
  intros H. apply settled_lift in H; [exact H|exact Hu|]. clear H. intros report Hm H.
  destruct (migrate _ _ _ _) as [report'|] eqn:Hm'; [|done]. injection Hm as ->.
  destruct (bool_decide_reflect (steps (mr_plan report) = [])) as [|Hsteps]; [injection H as <- <-; by apply settled_untouched|].
  apply settled_lift in H; [exact H|exact Hu|]. clear H. intros ms Hms H. destruct (summary (mr_snapshot report)) as [ms'|] eqn:Hms'; [|done]. injection Hms as ->.
  apply settled_lift in H; [exact H|exact Hu|]. clear H. intros ss Hss H. destruct (summary (cs_snapshot source)) as [ss'|] eqn:Hss'; [|done]. injection Hss as ->.
  apply settled_lift in H; [exact H|exact Hu|]. clear H. intros g Hg H. destruct (checked_add _ _ _) as [g'|] eqn:Hg'; [|done]. injection Hg as ->.
  apply settled_lift in H; [exact H|exact Hu|]. clear H. intros cs Hcs H. destruct (with_state_revision _ _) as [cs'|] eqn:Hcs'; [|done]. injection Hcs as ->.
  apply settled_lift in H; [exact H|exact Hu|]. clear H. intros sm Hsm H. destruct (summary cs) as [sm'|] eqn:Hsm'; [|done]. injection Hsm as ->.
  apply settled_lift in H; [exact H|exact Hu|]. clear H. intros r Hr H.
  destruct (receipt_describes _ _ _ _ _ _ _ _ _ _ Hc Hm' Hsteps Hms' Hss' Hg' Hcs' Hsm' Hr) as (Hv & Hde & Hne).
  unfold bind at 1 in H. destruct (write_receipt r receipt w) as [w1 o1] eqn:Hw.
  apply write_receipt_run in Hw as (Hf & Hor & Hok); [|apply Hreceipt]. destruct Hu as [Hd Hnone].
  pose proof (framed_durable _ _ _ _ s _ _ Hf (proj1 Hreceipt) Hd) as Hd1.
  assert (forall o2 : Files.outcome (MigrationReport * RestorePlan), (forall a, o2 <> Done (Ok a)) -> settled o2 w1) as Hstop.
  { intros o2 Hn. split; [|intros a Ho; by destruct (Hn a)]. rewrite Hnone in Hor. destruct Hor as [?|?]; [by left|right; left; split; [done|]; by exists r, source, report]. }
  destruct o1 as [[u|e]|]; [|injection H as <- <-; by apply Hstop..].
  apply settled_bind in H; [exact H|]. intros o' Ho'. eapply commit_restores; try done; [by eapply Hok|].
  rewrite (framed_read _ _ _ _ _ rollback Hf); [done| |apply Hrollback].
  intros [H1 H2%list_elem_of_singleton]. apply Hdiff. by destruct rollback, receipt; cbn in *; subst.
Qed.
Lemma commit_settles w w' o :
  open_package package w = (w, Done (Ok archive)) -> untouched w ->
  storage_migrate_commit config world guest migration package rollback receipt w = (w', o) -> settled o w'.
Proof.
  intros Hopen Hu. unfold storage_migrate_commit. destruct (bool_decide_reflect (rollback = receipt)) as [|Hdiff];
    [intros [= <- <-]; by apply settled_untouched|]. unfold bind at 1. rewrite Hopen. cbv zeta. unfold bind at 1.
  destruct Hu as [Hd Hnone]. destruct (storage_io (DirectoryBackend.capture _) w) as [w1 o1] eqn:Hc.
  apply (capture_run _ s) in Hc as (Hd1 & Ha & Hcap); [|done].
  assert (untouched w1) as Hu1 by (split; [done|by rewrite (apart_read _ _ _ _ Ha (proj1 Hreceipt))]).
  destruct o1 as [[source|e]|]; [|intros [= <- <-]; by apply settled_untouched..]. specialize (Hcap source eq_refl).
  unfold bind at 1. destruct (storage_io (write_snapshot _ _) w1) as [w2 o2] eqn:Hw. apply write_snapshot_run in Hw as [Hf Hok]; [|apply Hrollback].
  assert (untouched w2) as Hu2.
  { split; [by apply (framed_durable _ _ _ _ _ _ _ Hf (proj1 Hrollback))|]. rewrite (framed_read _ _ _ _ _ receipt Hf); [apply Hu1| |apply Hreceipt].
    intros [H1 H2%list_elem_of_singleton]. apply Hdiff. by destruct rollback, receipt; cbn in *; subst. }
  destruct o2 as [[u|e]|]; [|intros [= <- <-]; by apply settled_untouched..]. destruct (Hok u eq_refl) as (b & Hb & Hr).
  by apply (commit_after_capture source w2 w' o b).
Qed.
(** What recovery says afterwards *)
Lemma recovery_tells package' w' w'' rep :
  untouched w' \/ prepared w' \/ migrated w' -> storage_migration_recover package' receipt w' = (w'', Done (Ok rep)) ->
  (rep.(rv_status) = MigrationRecoveryStatus.Committed /\ migrated w') \/ (rep.(rv_status) = MigrationRecoveryStatus.NotCommitted /\ prepared w').
Proof.
  intros Hcases Hrun. destruct Hcases as [[Hd Hnone]|[Hp|Hm]].
  - exfalso. revert Hrun. unfold storage_migration_recover. intros (a & _ & H)%bind_ok; [|apply open_package_pure].
    unfold read_receipt, read_take, read_file, bind in H. by rewrite Hnone in H.
  - right. split; [|done]. destruct Hp as [Hd (r & source & report & Hc & Hm & Hat & [H1 H2 [H3 H4] [H5 H6] H7 H8])].
    destruct (recovery_run _ _ _ _ _ _ _ _ Hat H2 H1 Hd Hrun) as (_ & c & Hc' & _ & _ & Hnot). apply Hnot; [lia|done..|by apply H7].
  - left. split; [|done]. destruct Hm as (r & source & report & entries & b & Hc & Hm & He & Hd & Hb & Hback & Hat & [H1 H2 [H3 H4] [H5 H6] H7 H8]).
    destruct (recovery_run _ _ _ _ _ _ _ _ Hat H2 H1 Hd Hrun) as (_ & c & Hc' & Hval & Hyes & _).
    apply Hyes; [done|]. unfold target_matches. rewrite (capture_digest _ _ _ Hc' Hval), (H8 _ _ He Hc'). apply capture_fields in Hc' as (Hg & Hp & _).
    rewrite Hg, Hp, H5, H6. cbn [sn_state_schema]. rewrite !andb_true_iff. split_and!; [by apply N.eqb_eq..|by apply bool_decide_eq_true_2].
Qed.
End Commit.

(** C21: A migration of durable state can be gone back on and found out about: whatever
    calls fail and wherever the process dies, a commit leaves the old state with no
    receipt, the old state with a receipt that describes the migration, or the migrated
    state with both the receipt and the encoding of the old state in the rollback
    file, and only the last when it is answered; and whatever the recovery command
    then reports is true: committed in the last case, not committed in the second,
    and an error in the first. *)
Theorem migration_is_recoverable (package rollback receipt : Path) (archive : Archive.CartridgeArchive) (s : State) (w w' : World)
    (o : Files.outcome (MigrationReport * RestorePlan)) :
  let ns := archive.(ar_manifest).(cartridge).(cm_id) in
  open_package package w = (w, Done (Ok archive)) -> durable ns s w -> read_path (disk w) receipt = None ->
  rollback.1 <> namespace_directory ns /\ staged SNAPSHOT_PREFIX rollback.2 = false /\ staged RECEIPT_PREFIX rollback.2 = false ->
  receipt.1 <> namespace_directory ns /\ staged SNAPSHOT_PREFIX receipt.2 = false /\ staged RECEIPT_PREFIX receipt.2 = false ->
  (forall source report entries, DirectoryBackend.capture_state ns s = Ok source ->
     migrate config world (loaded guest migration archive) source.(cs_snapshot) = Ok report ->
     entries_for report.(mr_snapshot) ns = Ok entries -> fits ns (restored_state s report.(mr_snapshot) entries)) ->
  storage_migrate_commit config world guest migration package rollback receipt w = (w', o) ->
  (untouched receipt archive s w' \/ prepared receipt archive s w' \/ migrated rollback receipt archive s w')
  /\ (forall a, o = Done (Ok a) -> migrated rollback receipt archive s w')
  /\ forall package' w'' rep, storage_migration_recover package' receipt w' = (w'', Done (Ok rep)) ->
       (rep.(rv_status) = MigrationRecoveryStatus.Committed /\ migrated rollback receipt archive s w')
       \/ (rep.(rv_status) = MigrationRecoveryStatus.NotCommitted /\ prepared receipt archive s w').
Proof.
  cbv zeta. intros Hopen Hd Hnone Hrb Hrc Hfits Hrun.
  destruct (commit_settles package rollback receipt archive s Hrb Hrc Hfits w w' o Hopen (conj Hd Hnone) Hrun) as [Hcases Hok].
  split_and!; [done..|]. intros package' w'' rep. by apply recovery_tells.
Qed.
End MigrateTheorems.
(** ** A concrete migration *)
Section MigrateWitness.
#[local] Existing Instance demo_externals.
#[local] Existing Instance demo_hex.
#[local] Existing Instance demo_semver.
#[local] Existing Instance toy_url.
#[local] Existing Instance demo_png.
#[local] Existing Instance demo_input_codec.
#[local] Existing Instance demo_midi_codec.
#[local] Instance migrate_value_json : Json Value := demo_json.
#[local] Instance migrate_request_json : Json HttpRequest := demo_json.
#[local] Instance migrate_input_json : Json InputEvent := fun _ => Ok [x69].
#[local] Instance migrate_midi_json : Json MidiEvent := fun _ => Ok [x6d].
#[local] Instance migrate_frame_decode : JsonDecode FrameDocument := fun _ => Err "frame".
#[local] Instance migrate_audio_decode : JsonDecode AudioDocument := fun _ => Err "audio".
#[local] Instance migrate_snapshot_payload_json : Json SnapshotPayload := fun p => Ok [if p.(sn_state_schema) =? 0 then x01 else x02].
#[local] Instance migrate_snapshot_json : Json StorageSnapshot := demo_json.
#[local] Instance migrate_disk_payload_json : Json DiskPayload := demo_json.
#[local] Instance migrate_receipt_payload_json : Json MigrationReceiptPayload := demo_json.
Definition migrating_manifest : PackageManifest :=
  with_integrity demo_package (mkIntegrity (hex_sha256 wasm_component) ∅ (match asset_integrity_root ∅ with Ok root => root | Err _ => "" end)).
#[local] Existing Instance package_manifest_eq_dec.
Definition migrating_toml : TomlCrate.
Proof.
  refine {| toml_from_str := fun s => if bool_decide (s = "migrating") then Ok migrating_manifest else Err "toml";
            toml_to_string_pretty := fun m => if bool_decide (m = migrating_manifest) then Ok "migrating" else Err "toml" |}.
  - intros m s. case_bool_decide; [|done]. by intros [= <-]; subst.
  - intros m s. case_bool_decide; [|done]. by intros [= <-].
Defined.
Definition migrating_files : list (string * bytes) := archive_files "migrating" wasm_component ∅.
Definition migrating_zip : ZipCrate.
Proof.
  refine {| zip_entries := fun b => if bool_decide (b = [x50; x4b]) then Ok ((fun f => Ok (plain_entry f.1 f.2)) <$> migrating_files) else Err "zip";
            zip_write := fun files => if bool_decide (files = migrating_files) then Ok [x50; x4b] else Err "zip" |}.
  intros files b. case_bool_decide; [|done]. by intros [= <-]; subst.
Defined.
#[local] Existing Instance migrating_toml.
#[local] Existing Instance migrating_zip.
Definition migrating_package : Archive.CartridgeArchive := mkCartridgeArchive (hex_sha256 [x50; x4b]) 2 migrating_manifest wasm_component ∅.
Definition migration_guest (component : bytes) (name : string) (from to_ : N) : result string Guest :=
  Ok (Invoke (StoragePut "migrated-by" (as_bytes name)) (fun _ => Finish (Ok "") 1)).
Definition no_guest (component : bytes) (arguments : list string) : result string Guest := Err "not run".
Definition old_entries : gmap string bytes := {["name" := [x61]]}.
Definition schema_state : State := mkState 1 0 old_entries (mkUsage (entries_bytes old_entries) (btree_len old_entries)).
Definition new_entries : gmap string bytes := {["name" := [x61]; "migrated-by" := as_bytes "one-three"]}.
Definition schema_envelope (generation schema : N) (entries : gmap string bytes) : DiskEnvelope :=
  mkDiskEnvelope (mkDiskPayload 2 "dev.example.app" generation schema (hex_encode <$> entries)) (hex_sha256 []).
Definition schema_envelopes : list DiskEnvelope := [schema_envelope 1 0 old_entries; schema_envelope 4 3 new_entries].
#[local] Instance migrate_envelope_json : Json DiskEnvelope := table_json schema_envelopes.
#[local] Instance migrate_envelope_decode : JsonDecode DiskEnvelope := table_decode schema_envelopes.
#[local] Instance migrate_envelope_rt : JsonRoundTrip DiskEnvelope := table_round_trip schema_envelopes.
Definition schema_receipt : MigrationReceipt :=
  mkReceipt (mkReceiptPayload 2 "dev.example.app" "1.2.0" (hex_sha256 wasm_component) 1 4 3 0 3 (hex_sha256 [x01]) (hex_sha256 [x02])) (hex_sha256 []).
#[local] Instance migrate_receipt_json : Json MigrationReceipt := table_json [schema_receipt].
#[local] Instance migrate_receipt_decode : JsonDecode MigrationReceipt := table_decode [schema_receipt].
#[local] Instance migrate_receipt_rt : JsonRoundTrip MigrationReceipt := table_round_trip [schema_receipt].
Definition schema_world : World :=
  mkWorld {[namespace_directory "dev.example.app" := {[state_file_name 1 := [x00]]}; "out" := {["app.cartridge" := [x50; x4b]]}]} 0 77 [].
Definition out (name : string) : Path := ("out", name).
Definition committed_run : World * Files.outcome (MigrationReport * RestorePlan) :=
  storage_migrate_commit quiet_config (fun _ => other_world) no_guest migration_guest (out "app.cartridge") (out "rollback.json") (out "receipt.json") schema_world.
Definition recovered_run : World * Files.outcome MigrationRecoveryReport := storage_migration_recover (out "app.cartridge") (out "receipt.json") committed_run.1.
Definition schema_source : CapturedState := mkCaptured 1 (mkSnapshot (mkSnapshotPayload 3 "dev.example.app" 0 1 (hex_encode <$> old_entries)) (hex_sha256 [x01])).
Definition schema_run : result RunError MigrationReport :=
  migrate quiet_config (fun _ => other_world) (loaded no_guest migration_guest migrating_package) schema_source.(cs_snapshot).
Definition schema_target : StorageSnapshot := mkSnapshot (mkSnapshotPayload 3 "dev.example.app" 3 3 (hex_encode <$> new_entries)) (hex_sha256 [x02]).
Lemma schema_run_target : exists report, schema_run = Ok report /\ report.(mr_snapshot) = schema_target.
Proof. eexists. split; [vm_compute; reflexivity|vm_compute; reflexivity]. Qed.
Lemma schema_entries : entries_for schema_target "dev.example.app" = Ok new_entries.
Proof. vm_compute. reflexivity. Qed.
Lemma schema_captured : DirectoryBackend.capture_state "dev.example.app" schema_state = Ok schema_source.
Proof. vm_compute. reflexivity. Qed.
Lemma schema_fits : fits "dev.example.app" (restored_state schema_state schema_target new_entries).
Proof.
  exists (schema_envelope 4 3 new_entries), [x01]. split; [vm_compute; reflexivity|]. split; [vm_compute; reflexivity|]. vm_compute. discriminate.
Qed.
Lemma migration_is_recoverable_witness :
  exists a rep, committed_run.2 = Done (Ok a) /\ recovered_run.2 = Done (Ok rep) /\ rep.(rv_status) = MigrationRecoveryStatus.Committed
    /\ migrated quiet_config (fun _ => other_world) no_guest migration_guest (out "rollback.json") (out "receipt.json") migrating_package schema_state committed_run.1.
Proof.
  assert (match committed_run.2 with Done (Ok _) => true | _ => false end = true) as Hok1 by (vm_compute; reflexivity).
  assert (match recovered_run.2 with Done (Ok r) => bool_decide (r.(rv_status) = MigrationRecoveryStatus.Committed) | _ => false end = true) as Hok2 by (vm_compute; reflexivity).
  destruct (migration_is_recoverable quiet_config (fun _ => other_world) no_guest migration_guest (out "app.cartridge") (out "rollback.json") (out "receipt.json")
    migrating_package schema_state schema_world committed_run.1 committed_run.2) as (_ & Hdone & Hrec).
  - vm_compute. reflexivity.
  - vm_compute. reflexivity.
  - vm_compute. reflexivity.
  - vm_compute. repeat split; discriminate.
  - vm_compute. repeat split; discriminate.
  - intros source report entries Hc Hm He. change (DirectoryBackend.capture_state "dev.example.app" schema_state = Ok source) in Hc.
    rewrite schema_captured in Hc. injection Hc as <-.
    destruct schema_run_target as (report' & Hr & Ht). unfold schema_run in Hr. rewrite Hr in Hm. injection Hm as <-. rewrite Ht in He |- *.
    change (entries_for schema_target "dev.example.app" = Ok entries) in He. rewrite schema_entries in He. injection He as <-. exact schema_fits.
  - exact (surjective_pairing committed_run).
  - destruct committed_run.2 as [[a|]|]; [|discriminate Hok1..]. specialize (Hdone a eq_refl). exists a.
    destruct (recovered_run) as [w'' o] eqn:Hrun. destruct o as [[rep|]|]; [|discriminate Hok2..]. exists rep.
    split; [reflexivity|]. split; [reflexivity|]. split; [by apply bool_decide_eq_true in Hok2|exact Hdone].
Defined.
End MigrateWitness.
