(* ===== verification/Supervise.v ===== *)
(** * The supervisor of a stack ([supervise_stack] of [crates/cartridge-cli/src/main.rs])

    One generation of a stack, from the checks of the command to its last worker: the
    workers that run, the runtime status that is kept about them and its file, the
    controls that a rollout sets, and the passes of the loop.  A pass is a run over the
    state of the supervisor and the disk in which an error keeps what was done; at its
    end, and at an error, the workers that are left are terminated.  What a pass finds
    outside is an argument: the readings of the clocks, what a child process does, what
    its worker wrote to the health channel, and whether a new process could be started.
    Errors carry the text of the innermost cause where the code adds a context. *)
From stdpp Require Import pretty.
From S2P Require Import Prelude Text Core Storage Snapshot Directory Blob Network Manifest Resolver Archive Rolling Plan Supervisor Events Health Files Rollout Progress Store Routing Peer Host IdentityFiles Release Desktop Probe Daemon Planning Replicas.

Definition WORKER_STARTUP_BUDGET : N := 10000.
Definition DESIRED_STATE_POLL_INTERVAL : N := 250.
Definition SUPERVISOR_HEARTBEAT_INTERVAL : N := 5000.
Definition TERMINATION_GRACE : N := 2000.

(** ** Data *)
Record StackWorkerTemplate := mkTemplate {
  wt_package : Path;
  wt_package_sha256 : string;
  wt_package_bytes : N;
  wt_state : string;
  wt_args : list string;
  wt_permissions : Permissions;
  wt_limits : RuntimeLimits;
  wt_harden : bool;
  wt_timeout : N;
  wt_health : option HealthProbeSpec;
}.
Record ActiveProbe := mkActiveProbe {
  ap_path : Path;
  ap_key : bytes;
  ap_policy : HealthProbeSpec;
  ap_startup_deadline : N;
  ap_readiness_deadline : N;
  ap_next_liveness_check : option N;
  ap_first_signal : bool;
  ap_ever_ready : bool;
  ap_envelope_sha256 : option string;
}.
Record ActiveStackWorker := mkActiveWorker {
  aw_run_id : string;
  aw_deadline : N;
  aw_probe : option ActiveProbe;
  aw_invocation : option string;
}.
Abbreviation ActiveStackWorkers := (gmap ReplicaId ActiveStackWorker).
Record GenerationControls := mkControls {
  gc_role : GenerationRole;
  gc_candidate_enabled : gset ReplicaId;
  gc_previous_draining : gmap ReplicaId N;
}.
Definition with_probe (worker : ActiveStackWorker) (probe : ActiveProbe) : ActiveStackWorker :=
  mkActiveWorker worker.(aw_run_id) worker.(aw_deadline) (Some probe) worker.(aw_invocation).
Definition with_envelope (probe : ActiveProbe) (digest : string) : ActiveProbe :=
  mkActiveProbe probe.(ap_path) probe.(ap_key) probe.(ap_policy) probe.(ap_startup_deadline) probe.(ap_readiness_deadline)
    probe.(ap_next_liveness_check) probe.(ap_first_signal) probe.(ap_ever_ready) (Some digest).
Definition is_ready (kind : ProbeSignalKind) : bool := match kind with ProbeSignalKind.Ready => true | _ => false end.
(** A signal was seen *)
Definition signalled (probe : ActiveProbe) (kind : ProbeSignalKind) : ActiveProbe :=
  mkActiveProbe probe.(ap_path) probe.(ap_key) probe.(ap_policy) probe.(ap_startup_deadline) probe.(ap_readiness_deadline)
    probe.(ap_next_liveness_check) true (probe.(ap_ever_ready) || is_ready kind) probe.(ap_envelope_sha256).
Definition with_liveness (probe : ActiveProbe) (deadline : N) : ActiveProbe :=
  mkActiveProbe probe.(ap_path) probe.(ap_key) probe.(ap_policy) probe.(ap_startup_deadline) probe.(ap_readiness_deadline)
    (Some deadline) probe.(ap_first_signal) probe.(ap_ever_ready) probe.(ap_envelope_sha256).

(** ** What a pass finds outside

    An exit status is the code of the process, if it has one: 0 is success. *)
Definition ExitStatus : Type := option Z.
Definition success (exit : ExitStatus) : bool := bool_decide (exit = Some 0%Z).
(** The worker process: what [try_wait] and [terminate] with its grace answer *)
Record Child := mkChild { ch_try_wait : result string (option ExitStatus); ch_terminate : N -> result string (option ExitStatus) }.
(** A worker in a pass: what it wrote to its channel before the first look and before
    the late one, the instants at which a signal was taken up, deadlines were compared
    and the deadline of the worker was, and the time of the late look *)
Record Seen := mkSeen {
  se_before : option bytes;
  se_late : option bytes;
  se_signalled_at : N;
  se_checked_at : N;
  se_deadline_at : N;
  se_late_ms : result string N;
  se_child : Child;
}.
(** A start: the instants at which the probe and the deadline begin, the key, whether the
    root resolves and whether the process was started *)
Record Begin := mkBegin { be_probe_at : N; be_key : bytes; be_resolved : result string unit; be_spawned : bool; be_spawned_at : N }.
Record Pass := mkPass {
  pa_interrupted : bool;
  pa_desired_at : N;
  pa_daemon_lease : bool;
  pa_polled_at : N;
  pa_now_ms : result string N;
  pa_drain_ms : ReplicaId -> result string N;
  pa_drained : ReplicaId -> Child;
  pa_seen : ReplicaId -> Seen;
  pa_heartbeat_at : N;
  pa_heartbeat_ms : result string N;
  pa_beaten_at : N;
  pa_begin : ReplicaId -> N -> Begin;
  pa_stopped : ReplicaId -> Child;
  pa_stop_ms : ReplicaId -> result string N;
}.

(** ** The state of the supervisor and runs over it *)
Record Supervision := mkSupervision {
  sv_active : ActiveStackWorkers;
  sv_status : StackRuntimeStatus;
  sv_controls : GenerationControls;
  sv_next_desired_check : N;
  sv_next_heartbeat : N;
  sv_changed : bool;
}.
Definition with_active (s : Supervision) (active : ActiveStackWorkers) : Supervision :=
  mkSupervision active s.(sv_status) s.(sv_controls) s.(sv_next_desired_check) s.(sv_next_heartbeat) s.(sv_changed).
Definition with_status (s : Supervision) (status : StackRuntimeStatus) : Supervision :=
  mkSupervision s.(sv_active) status s.(sv_controls) s.(sv_next_desired_check) s.(sv_next_heartbeat) s.(sv_changed).
Definition with_controls (s : Supervision) (controls : GenerationControls) (next : N) : Supervision :=
  mkSupervision s.(sv_active) s.(sv_status) controls next s.(sv_next_heartbeat) s.(sv_changed).
Definition with_heartbeat (s : Supervision) (next : N) : Supervision :=
  mkSupervision s.(sv_active) s.(sv_status) s.(sv_controls) s.(sv_next_desired_check) next s.(sv_changed).
Definition with_changed (s : Supervision) (changed : bool) : Supervision :=
  mkSupervision s.(sv_active) s.(sv_status) s.(sv_controls) s.(sv_next_desired_check) s.(sv_next_heartbeat) changed.

Definition SM (A : Type) : Type := Supervision -> World -> World * (Supervision * Files.outcome A).
Definition sret {A : Type} (a : A) : SM A := fun s w => (w, (s, Done (Ok a))).
Definition sbind {A B : Type} (m : SM A) (k : A -> SM B) : SM B := fun s w =>
  match m s w with
  | (w, (s, Done (Ok a))) => k a s w
  | (w, (s, Done (Err e))) => (w, (s, Done (Err e)))
  | (w, (s, Died)) => (w, (s, Died))
  end.
(** System calls, and values that may be errors *)
Definition calls {A : Type} (m : IO A) : SM A := fun s w => let '(w, o) := m w in (w, (s, o)).
Definition value {A : Type} (r : result string A) : SM A := calls (lift r).
Definition get : SM Supervision := fun s w => (w, (s, Done (Ok s))).
Definition modify (f : Supervision -> Supervision) : SM unit := fun s w => (w, (f s, Done (Ok tt))).
(** A method of the runtime status that may fail after a write *)
Definition mark {A : Type} (f : StackRuntimeStatus -> StackRuntimeStatus * result string A) : SM A := fun s w =>
  let '(status, r) := f s.(sv_status) in (w, (with_status s status, Done r)).
Declare Scope supervise_scope.
Notation "'go?' x := m 'in' k" := (sbind m (fun x => k)) (at level 10, x pattern, m at level 100, k at level 200) : supervise_scope.
Notation "m ';;>' k" := (sbind m (fun _ => k)) (at level 60, right associativity) : supervise_scope.
#[local] Open Scope supervise_scope.

(** The order of a [BTreeMap] keyed by replicas *)
Definition id_le (a b : ReplicaId) : Prop := id_lt b a = false.
#[global] Instance id_le_dec : RelDecision id_le.
Proof. intros a b. unfold id_le. apply _. Defined.
Definition sorted_ids {A : Type} (m : gmap ReplicaId A) : list ReplicaId := merge_sort id_le (elements (dom m)).

(** ** Files of a worker *)
(** What a worker writes to its channel meanwhile *)
Definition arrives (path : Path) (content : bytes) : IO unit := fun w => (with_disk w (write_path w.(disk) path content), Done (Ok tt)).
Definition ignored {A : Type} (m : IO A) : IO unit := do? _ := attempt m in ret tt.
Definition valid_daemon_instance (value : string) : bool := (str_len value =? 64) && forallb is_lower_hex (str_bytes value).
Definition cleanup_probe_file (worker : ActiveStackWorker) : IO unit :=
  match worker.(aw_probe) with
  | None => ret tt
  | Some probe =>
      do? present := exists_file probe.(ap_path) in
      if present : bool then ignored (remove_file probe.(ap_path)) else ret tt
  end.
Definition invocation_suffix (suffix : string) : bool :=
  bool_decide (suffix ∈ [".request"; ".active"; ".response"]) || starts_with suffix ".pending-" || starts_with suffix ".tmp-".
Definition invocation_name (name : string) : bool :=
  valid_daemon_instance (String.substring 0 64 name) && invocation_suffix (String.substring 64 (String.length name - 64) name).
(** Entries are met in the order of their names, directories last; whether all were files of invocations *)
Fixpoint remove_invocation_entries (directory : string) (names : list string) : IO bool :=
  match names with
  | [] => ret true
  | name :: names =>
      if negb (invocation_name name) then ret false
      else ignored (remove_file (directory, name)) ;;? remove_invocation_entries directory names
  end.
(** [Path::parent] of a path of several parts *)
Fixpoint parent_of (directory : string) : option string :=
  match directory with
  | "" => None
  | String c rest =>
      match parent_of rest with
      | Some parent => Some (String c parent)
      | None => if bool_decide (c = "/"%char) then Some "" else None
      end
  end.
Definition remove_empty_invocation_parent (path : option string) : IO unit :=
  match path with None => ret tt | Some path => ignored (remove_dir path) end.
Definition cleanup_invocation_directory (directory : string) : IO unit :=
  do? d := read_disk in
  match d !! directory with
  | None => ret tt
  | Some files =>
      let inner := child_directories d directory in
      if MAX_INVOCATIONS_PER_REPLICA * 3 <? len (btree_iter files) + len inner then ret tt
      else
        do? all := remove_invocation_entries directory (fst <$> btree_iter files) in
        if negb all || negb (bool_decide (inner = [])) then ret tt
        else
          ignored (remove_dir directory) ;;?
          remove_empty_invocation_parent (parent_of directory) ;;?
          remove_empty_invocation_parent (parent_of directory ≫= parent_of)
  end.
Definition cleanup_worker_channels (worker : ActiveStackWorker) : IO unit :=
  cleanup_probe_file worker ;;?
  match worker.(aw_invocation) with None => ret tt | Some directory => cleanup_invocation_directory directory end.
(** Termination of all workers: whatever their processes answer *)
Fixpoint cleanup_all (workers : list (option ActiveStackWorker)) : IO unit :=
  match workers with
  | [] => ret tt
  | worker :: workers => match worker with None => ret tt | Some worker => cleanup_worker_channels worker end ;;? cleanup_all workers
  end.
Definition terminate_all (active : ActiveStackWorkers) : IO unit := cleanup_all ((fun id => active !! id) <$> sorted_ids active).

(** ** The worker's side of the health channel ([FileHealthReporter]) *)
Definition PROBE_REPORT_PREFIX : string := ".probe-report-".
Definition write_probe_replace (path : Path) (content : bytes) : IO unit :=
  if (len content =? 0) || (MAX_PROBE_ENVELOPE_BYTES <? len content) then fail "application health envelope exceeds its byte limit"
  else
    do? d := read_disk in
    if is_none (d !! path.1) then fail NO_ENTRY
    else
      do? sequence := fetch_sequence in
      do? process := get_process_id in
      let temporary := (path.1, temporary_name PROBE_REPORT_PREFIX process sequence) in
      create_new temporary ;;?
      do? written := attempt (write_all temporary content) in
      match written with
      | Err error => discard temporary ;;? fail error
      | Ok _ =>
          do? present := exists_file path in
          (if present : bool then remove_file path else ret tt) ;;?
          do? renamed := attempt (rename temporary path) in
          match renamed with
          | Err error => discard temporary ;;? fail error
          | Ok _ => ret tt
          end
      end.
Record FileHealthReporter := mkReporter { fr_path : Path; fr_key : bytes; fr_run_id : string; fr_sequence : N }.
Definition signal_kind (state : GuestHealthState) : ProbeSignalKind :=
  match state with
  | Host.Started => ProbeSignalKind.Started
  | Host.Ready => ProbeSignalKind.Ready
  | Host.Heartbeat => ProbeSignalKind.Heartbeat
  | Host.Unhealthy => ProbeSignalKind.Unhealthy
  end.

(** ** Identity of a run *)
Definition run_input (generation : string) (id : ReplicaId) (attempt : N) : bytes :=
  as_bytes generation ++ le_byte_list 8 (str_len id.(Supervisor.instance)) ++ as_bytes id.(Supervisor.instance)
  ++ le_byte_list 2 id.(ordinal) ++ le_byte_list 2 attempt.
Definition replica_run_id `{Ext : Externals} (generation : string) (id : ReplicaId) (attempt : N) : string :=
  hex_sha256 (run_input generation id attempt).
Definition stack_permissions (instance : PlannedInstance) : Permissions :=
  let allowed (c : StackCapability) : bool := bool_decide (c ∈ instance.(pi_allowed)) in
  mkPermissions (allowed Plan.Clock) (allowed Plan.Random) (allowed Plan.Assets) (allowed Plan.Storage) (allowed Plan.Graphics)
    (allowed Plan.Audio) (allowed Plan.Midi) (allowed Plan.Http) (allowed Plan.Serve).

Section Supervise.
Context `{Ext : Externals} `{Hex : HexDecode} `{SV : !Semver} `{UC : UrlCrate} `{ZC : !ZipCrate} `{TC : !TomlCrate} `{PC : PeerCrypto}.
Context `{JP : !Json StackPlan} `{JN : !Json PlannedInstance} `{JS : !Json StackRuntimeStatus} `{JE : !Json EngineEvent} `{JI : !Json RolloutIdentity}
  `{JRo : !Json RolloutRecord} `{JPr : !Json RolloutProgress} `{DE : !JsonDecode EngineEvent} `{DS : !JsonDecode StackRuntimeStatus}
  `{DRo : !JsonDecode RolloutRecord} `{DPr : !JsonDecode RolloutProgress}.
Context `{JL : Json LibraryDocument} `{DL : JsonDecode LibraryDocument} `{DEp : JsonDecode DaemonEndpoint}.
Context `{JSg : Json ProbeSignal} `{DSg : JsonDecode ProbeSignal} `{JPe : Json ProbeEnvelope} `{DPe : JsonDecode ProbeEnvelope}.

(** ** Authority *)
Definition runtime_generation_is_authorized (stack : string) (revision : N) (generation : string) : IO bool :=
  open_store ;;?
  do? target := generation_target stack generation in
  ret (is_some_and (fun t => (t.(gt_revision) =? revision) && bool_decide (t.(gt_generation) = generation)) target).
Definition daemon_owner_is_active (instance : string) (lease : bool) : IO bool :=
  do? endpoint := attempt read_endpoint in
  match endpoint with
  | Err _ => ret false
  | Ok endpoint => if bool_decide (endpoint.(de_instance_id) = instance) then lease_is_active lease else ret false
  end.
Definition persist_runtime_status (status : StackRuntimeStatus) : IO unit := open_store ;;? save_runtime_status_for_generation status.

(** The controls that the progress of a rollout sets *)
Definition enabled_ids (progress : RolloutProgress) : gset ReplicaId :=
  list_to_set (progress.(rp_instances) ≫= (fun i => mkReplicaId i.(ip_name) <$> elements i.(candidate_enabled))).
Definition draining_ids (progress : RolloutProgress) : gmap ReplicaId N :=
  list_to_map (reverse (progress.(rp_instances) ≫= (fun i =>
    (fun '(ordinal, intent) => (mkReplicaId i.(ip_name) ordinal, intent.(deadline_at_ms))) <$> map_to_list i.(previous_draining)))).
Definition generation_controls (stack generation : string) : IO GenerationControls :=
  open_store ;;?
  do? target := generation_target stack generation in
  do? target := lift (ok_or target "runtime generation is no longer authorized") in
  let controls := mkControls target.(gt_role) ∅ ∅ in
  if bool_decide (target.(gt_role) = GenerationRole.Desired) then ret controls
  else
    do? progress := rollout_progress stack in
    match progress with
    | None => ret controls
    | Some progress =>
        if negb (bool_decide (target.(gt_rollout_id) = Some progress.(rp_rollout_id))) then fail "runtime generation rollout identity changed"
        else if bool_decide (target.(gt_role) = GenerationRole.RolloutCandidate)
        then ret (mkControls target.(gt_role) (enabled_ids progress) ∅)
        else ret (mkControls target.(gt_role) ∅ (draining_ids progress))
    end.

(** ** Templates *)
Definition ordinals_of (count : N) : list N := N.of_nat <$> seq 1 (N.to_nat count).
Fixpoint replica_templates (plan : StackPlan) (generation : string) (instance : PlannedInstance) (record : CatalogPackage) (ordinals : list N)
    (templates : gmap ReplicaId StackWorkerTemplate) : IO (gmap ReplicaId StackWorkerTemplate) :=
  match ordinals with
  | [] => ret templates
  | ordinal :: ordinals =>
      let id := mkReplicaId instance.(pi_name) ordinal in
      do? state := replica_state_directory plan.(sp_stack) generation id in
      let template := mkTemplate record.(cp_path) record.(cp_package_sha256) record.(cp_package_bytes) state instance.(pi_args)
        (stack_permissions instance) instance.(pi_limits) (negb (bool_decide (plan.(sp_security).(ps_sandbox) = Disabled)))
        instance.(pi_limits).(timeout_ms) instance.(pi_health) in
      replica_templates plan generation instance record ordinals (<[id := template]> templates)
  end.
Fixpoint instance_templates (library : Library) (plan : StackPlan) (generation : string) (instances : list PlannedInstance)
    (templates : gmap ReplicaId StackWorkerTemplate) : IO (gmap ReplicaId StackWorkerTemplate) :=
  match instances with
  | [] => ret templates
  | instance :: instances =>
      do? record := catalog_package library instance.(pi_cartridge_id) (Some instance.(pi_version)) in
      if negb (bool_decide (record.(cp_package_sha256) = instance.(pi_package_sha256)))
         || negb (record.(cp_package_bytes) =? instance.(pi_package_bytes))
      then fail "installed package no longer matches the desired stack generation"
      else
        do? content := read_file record.(cp_path) in
        do? archive := lift (map_err error_to_string (open_bytes content)) in
        if negb (bool_decide (constrained_by archive.(ar_manifest).(Manifest.runtime) instance.(pi_limits) = instance.(pi_limits)))
        then fail "planned runtime limits are not a ceiling on the installed package"
        else
          do? templates := replica_templates plan generation instance record (ordinals_of instance.(pi_replicas)) templates in
          instance_templates library plan generation instances templates
  end.
Definition stack_worker_templates (library : Library) (plan : StackPlan) (generation : string) : IO (gmap ReplicaId StackWorkerTemplate) :=
  instance_templates library plan generation plan.(sp_instances) ∅.

(** ** The health channel of a worker *)
Definition poll_worker_probe (worker : ActiveStackWorker) : IO (ActiveStackWorker * result string (option Probe.ProbeSignal)) :=
  match worker.(aw_probe) with
  | None => ret (worker, Ok None)
  | Some probe =>
      do? present := exists_file probe.(ap_path) in
      if negb present then ret (worker, Ok None)
      else
        do? content := attempt (read_file probe.(ap_path)) in
        match content with
        | Err e => ret (worker, Err e)
        | Ok content =>
            if (len content =? 0) || (MAX_PROBE_ENVELOPE_BYTES <? len content)
            then ret (worker, Err "application health envelope is not a bounded regular file")
            else
              let digest := hex_sha256 content in
              if bool_decide (probe.(ap_envelope_sha256) = Some digest) then ret (worker, Ok None)
              else
                match open_signal content worker.(aw_run_id) probe.(ap_key) with
                | Err e => ret (worker, Err e)
                | Ok signal => ret (with_probe worker (with_envelope probe digest), Ok (Some signal))
                end
        end
  end.
(** What the worker reports: the counter moves on whatever happens *)
Definition report (self : FileHealthReporter) (state : GuestHealthState) (detail : string) (clock : result string N) (nonce : bytes) :
    IO (FileHealthReporter * result string unit) :=
  let self' := mkReporter self.(fr_path) self.(fr_key) self.(fr_run_id) (wrapping_add u64_max self.(fr_sequence) 1) in
  let content :=
    let? sequence := ok_or (checked_add u64_max self.(fr_sequence) 1) "application health signal sequence overflow" in
    let? now := clock in
    let? signal := new_signal self.(fr_run_id) sequence now (signal_kind state) detail in
    seal_signal nonce signal self.(fr_key) in
  match content with
  | Err e => ret (self', Err e)
  | Ok content => do? written := attempt (write_probe_replace self.(fr_path) content) in ret (self', written)
  end.
(** The variables of the environment that name the channel *)
Definition configure_health_reporter (path : option Path) (absolute : bool) (key run_id : option string) : result string (option FileHealthReporter) :=
  match path, key, run_id with
  | None, None, None => Ok None
  | Some path, Some key, Some run_id =>
      if negb absolute || negb (valid_daemon_instance run_id) then Err "worker application health channel is invalid"
      else let? key := probe_key_from_hex key in Ok (Some (mkReporter path key run_id 0))
  | _, _, _ => Err "worker application health channel is incomplete"
  end.
Definition worker_of (id : ReplicaId) : SM ActiveStackWorker :=
  go? s := get in value (ok_or (s.(sv_active) !! id) "active worker disappeared").
Definition probe_of (id : ReplicaId) : SM (ActiveStackWorker * ActiveProbe) :=
  go? s := get in
  value (ok_or (s.(sv_active) !! id ≫= (fun worker => (fun probe => (worker, probe)) <$> worker.(aw_probe))) "application health channel disappeared").
Definition set_worker (id : ReplicaId) (worker : ActiveStackWorker) : SM unit := modify (fun s => with_active s (<[id := worker]> s.(sv_active))).
Definition changed : SM unit := modify (fun s => with_changed s true).
Definition look (written : option bytes) (id : ReplicaId) : SM (result string (option Probe.ProbeSignal)) :=
  go? worker := worker_of id in
  match written, worker.(aw_probe) with
  | Some content, Some probe => calls (arrives probe.(ap_path) content)
  | _, _ => sret tt
  end ;;>
  go? (worker, signal) := calls (poll_worker_probe worker) in
  set_worker id worker ;;>
  sret signal.
Definition failures_of (status : StackRuntimeStatus) (id : ReplicaId) : N :=
  match List.find (has_id id) status.(replicas) with
  | Some r => match r.(Supervisor.probe) with Some probe => probe.(Supervisor.consecutive_failures) | None => 0 end
  | None => 0
  end.
(** The signal of a worker: the reason to terminate it, if there is one *)
Definition take_signal (now_ms : N) (seen : Seen) (id : ReplicaId) : SM (option string) :=
  go? signal := look seen.(se_before) id in
  match signal with
  | Err _ => sret (Some "application health signal failed authentication")
  | Ok None => sret None
  | Ok (Some signal) =>
      go? worker := worker_of id in
      mark (fun status => mark_probe_signal status id worker.(aw_run_id) signal.(sg_sequence) signal.(sg_kind) now_ms) ;;>
      go? (worker, probe) := probe_of id in
      let probe := signalled probe signal.(sg_kind) in
      let probe := if probe.(ap_ever_ready) then with_liveness probe (seen.(se_signalled_at) + probe.(ap_policy).(liveness_timeout_ms)) else probe in
      set_worker id (with_probe worker probe) ;;>
      changed ;;>
      go? s := get in
      sret (if probe.(ap_policy).(failure_threshold) <=? failures_of s.(sv_status) id then Some "application reported unhealthy" else None)
  end.
(** The deadlines of its probe *)
Definition check_probe (now_ms : N) (seen : Seen) (id : ReplicaId) : SM (option string) :=
  go? s := get in
  let now := seen.(se_checked_at) in
  match s.(sv_active) !! id ≫= aw_probe with
  | None => sret None
  | Some probe =>
      if negb probe.(ap_first_signal) && (probe.(ap_startup_deadline) <=? now) then sret (Some "application startup probe timed out")
      else if negb probe.(ap_ever_ready) && (probe.(ap_readiness_deadline) <=? now) then sret (Some "application readiness probe timed out")
      else if is_some_and (fun deadline => deadline <=? now) probe.(ap_next_liveness_check) then
        go? worker := worker_of id in
        go? failures := mark (fun status => mark_probe_timeout status id worker.(aw_run_id) now_ms) in
        go? (worker, current) := probe_of id in
        set_worker id (with_probe worker (with_liveness current (now + probe.(ap_policy).(liveness_timeout_ms)))) ;;>
        changed ;;>
        sret (if probe.(ap_policy).(failure_threshold) <=? failures then Some "application liveness probe timed out" else None)
      else sret None
  end.
(** A worker that has exited may have signalled just before *)
Definition late_signal (seen : Seen) (id : ReplicaId) : SM unit :=
  go? signal := look seen.(se_late) id in
  match signal with
  | Ok (Some signal) =>
      go? observed_at_ms := value seen.(se_late_ms) in
      go? worker := worker_of id in
      mark (fun status => mark_probe_signal status id worker.(aw_run_id) signal.(sg_sequence) signal.(sg_kind) observed_at_ms) ;;>
      go? s := get in
      match s.(sv_active) !! id ≫= (fun worker => (fun probe => (worker, probe)) <$> worker.(aw_probe)) with
      | Some (worker, probe) => set_worker id (with_probe worker (signalled probe signal.(sg_kind)))
      | None => sret tt
      end ;;>
      changed
  | _ => sret tt
  end.
Definition exit_code (exit : option ExitStatus) : option Z := exit ≫= (fun status => status).
(** How a worker ended: success, code and the reason that is recorded *)
Definition ending (seen : Seen) (id : ReplicaId) (probe_failure : option string) : SM (option (bool * option Z * string)) :=
  go? s := get in
  let timed_out := is_some_and (fun worker => worker.(aw_deadline) <=? seen.(se_deadline_at)) (s.(sv_active) !! id) in
  match probe_failure with
  | Some detail =>
      worker_of id ;;>
      go? exit := value (seen.(se_child).(ch_terminate) TERMINATION_GRACE) in
      sret (Some (false, exit_code exit, detail))
  | None =>
      if timed_out then
        worker_of id ;;>
        go? exit := value (seen.(se_child).(ch_terminate) TERMINATION_GRACE) in
        sret (Some (false, exit_code exit, "worker exceeded its supervised deadline"))
      else
        worker_of id ;;>
        go? exit := value seen.(se_child).(ch_try_wait) in
        (if is_some exit && negb (probe_ready s.(sv_status) id) then late_signal seen id else sret tt) ;;>
        go? s := get in
        sret ((fun exit => if success exit && negb (probe_ready s.(sv_status) id)
                           then (false, exit, "worker exited before application readiness")
                           else (success exit, exit, "worker exited")) <$> exit)
  end.
Definition watch_worker (now_ms : N) (seen : Seen) (id : ReplicaId) : SM unit :=
  go? failure := take_signal now_ms seen id in
  go? failure := match failure with Some detail => sret (Some detail) | None => check_probe now_ms seen id end in
  go? outcome := ending seen id failure in
  match outcome with
  | None => sret tt
  | Some (success, code, detail) =>
      go? worker := worker_of id in
      modify (fun s => with_active s (delete id s.(sv_active))) ;;>
      calls (cleanup_worker_channels worker) ;;>
      mark (fun status => mark_exit status id worker.(aw_run_id) success code detail now_ms) ;;>
      changed
  end.
Fixpoint watch_workers (now_ms : N) (seen : ReplicaId -> Seen) (ids : list ReplicaId) : SM unit :=
  match ids with
  | [] => sret tt
  | id :: ids => watch_worker now_ms (seen id) id ;;> watch_workers now_ms seen ids
  end.

(** ** Draining *)
Definition is_stopped (status : StackRuntimeStatus) (id : ReplicaId) : bool :=
  is_some_and (fun r => phase_is r ReplicaPhase.Stopped) (List.find (has_id id) status.(replicas)).
Definition drain_one (now_ms : N) (deadline_at_ms : N) (clock : result string N) (child : Child) (id : ReplicaId) : SM bool :=
  go? current := value clock in
  let observed_at_ms := N.max current now_ms in
  go? s := get in
  if is_stopped s.(sv_status) id then sret false
  else
    match s.(sv_active) !! id with
    | Some worker =>
        modify (fun s => with_active s (delete id s.(sv_active))) ;;>
        go? exit := value child.(ch_try_wait) in
        (if is_some exit then sret tt
         else go? _ := value (child.(ch_terminate) (N.min (deadline_at_ms - observed_at_ms) TERMINATION_GRACE)) in sret tt) ;;>
        calls (cleanup_worker_channels worker) ;;>
        mark (fun status => mark_drained status id (Some worker.(aw_run_id)) observed_at_ms)
    | None => mark (fun status => mark_drained status id None observed_at_ms)
    end ;;>
    sret true.
Fixpoint drain_each (now_ms : N) (clock : ReplicaId -> result string N) (child : ReplicaId -> Child) (draining : list (ReplicaId * N)) (done : bool) : SM bool :=
  match draining with
  | [] => sret done
  | (id, deadline) :: draining =>
      go? drained := drain_one now_ms deadline (clock id) (child id) id in
      drain_each now_ms clock child draining (done || drained)
  end.
Definition apply_rollout_drains (now_ms : N) (clock : ReplicaId -> result string N) (child : ReplicaId -> Child) : SM bool :=
  go? s := get in
  let draining := s.(sv_controls).(gc_previous_draining) in
  drain_each now_ms clock child ((fun id => (id, default 0 (draining !! id))) <$> sorted_ids draining) false.

(** ** Starting *)
Definition may_start (s : Supervision) (id : ReplicaId) : bool :=
  is_none (s.(sv_active) !! id) && is_none (s.(sv_controls).(gc_previous_draining) !! id)
  && (negb (bool_decide (s.(sv_controls).(gc_role) = GenerationRole.RolloutCandidate)) || bool_decide (id ∈ s.(sv_controls).(gc_candidate_enabled))).
Definition next_start (s : Supervision) (now_ms : N) : option ReplicaId := List.find (may_start s) (eligible_starts s.(sv_status) now_ms).
Definition fresh_probe (path : Path) (key : bytes) (policy : HealthProbeSpec) (started : N) : ActiveProbe :=
  mkActiveProbe path key policy (started + policy.(startup_timeout_ms)) (started + policy.(readiness_timeout_ms)) None false false None.
Definition persist : SM unit := go? s := get in calls (persist_runtime_status s.(sv_status)).

Section Generation.
Variables (stack generation : string) (max_workers : N) (templates : gmap ReplicaId StackWorkerTemplate).
Definition open_probe (template : StackWorkerTemplate) (id : ReplicaId) (run_id : string) (b : Begin) : IO (option ActiveProbe) :=
  match template.(wt_health) with
  | None => ret None
  | Some policy =>
      open_store ;;?
      do? path := replica_probe_path stack generation id run_id in
      do? present := exists_file path in
      if present : bool then fail "application health channel already exists for a new worker run"
      else ret (Some (fresh_probe path b.(be_key) policy b.(be_probe_at)))
  end.
Definition open_invocations (template : StackWorkerTemplate) (id : ReplicaId) (run_id : string) : IO (option string) :=
  if template.(wt_permissions).(Manifest.serve) then
    open_store ;;? do? directory := replica_invocation_directory stack generation id run_id in ret (Some directory)
  else ret None.
Definition start_worker (now_ms : N) (begin : N -> Begin) (id : ReplicaId) : SM unit :=
  go? s := get in
  go? replica := value (ok_or (List.find (has_id id) s.(sv_status).(replicas)) "runtime replica disappeared") in
  go? attempt := value (ok_or (checked_add u16_max replica.(Supervisor.attempt) 1) "replica attempt counter overflow") in
  let b := begin attempt in
  let run_id := replica_run_id generation id attempt in
  mark (fun status => begin_start status id run_id now_ms) ;;>
  persist ;;>
  go? template := value (ok_or (templates !! id) "replica has no verified worker template") in
  go? probe := calls (open_probe template id run_id b) in
  value b.(be_resolved) ;;>
  go? invocation := calls (open_invocations template id run_id) in
  (if b.(be_spawned) then
     set_worker id (mkActiveWorker run_id (b.(be_spawned_at) + WORKER_STARTUP_BUDGET + template.(wt_timeout)) probe invocation) ;;>
     if is_some probe then sret tt else mark (fun status => mark_running status id run_id now_ms)
   else
     match invocation with Some directory => calls (cleanup_invocation_directory directory) | None => sret tt end ;;>
     mark (fun status => mark_exit status id run_id false None "worker process could not be started" now_ms)) ;;>
  persist.
(** The loop of the starts ends when all workers are taken or nothing is left to start *)
Fixpoint start_workers (fuel : nat) (now_ms : N) (begin : ReplicaId -> N -> Begin) : SM unit :=
  match fuel with
  | O => sret tt
  | S fuel =>
      go? s := get in
      if negb (N.of_nat (size s.(sv_active)) <? max_workers) then sret tt
      else
        match next_start s now_ms with
        | None => sret tt
        | Some id => start_worker now_ms (begin id) id ;;> start_workers fuel now_ms begin
        end
  end.

(** ** Stopping *)
Fixpoint stop_each (child : ReplicaId -> Child) (clock : ReplicaId -> result string N) (ids : list ReplicaId) : SM unit :=
  match ids with
  | [] => sret tt
  | id :: ids =>
      go? worker := worker_of id in
      modify (fun s => with_active s (delete id s.(sv_active))) ;;>
      go? exit := value (child id).(ch_try_wait) in
      go? exit := match exit with Some exit => sret (Some exit) | None => value ((child id).(ch_terminate) TERMINATION_GRACE) end in
      calls (cleanup_worker_channels worker) ;;>
      go? now_ms := value (clock id) in
      mark (fun status => mark_exit status id worker.(aw_run_id) false (exit_code exit) "supervisor was interrupted" now_ms) ;;>
      stop_each child clock ids
  end.
Definition stop_active_workers (child : ReplicaId -> Child) (clock : ReplicaId -> result string N) : SM unit :=
  go? s := get in stop_each child clock (sorted_ids s.(sv_active)) ;;> persist.

(** ** The loop *)
Variables (revision : N) (daemon_instance : option string).
Definition still_waiting (status : StackRuntimeStatus) : bool :=
  existsb (fun r => match r.(phase) with
                    | ReplicaPhase.Pending | ReplicaPhase.Starting | ReplicaPhase.Running | ReplicaPhase.Backoff => true
                    | _ => false
                    end) status.(replicas).
(** Whether the supervisor still owns its generation: the end of the supervisor if it
    does not, and the current controls if it does *)
Definition check_ownership (pass : Pass) : SM bool :=
  go? s := get in
  if pass.(pa_desired_at) <? s.(sv_next_desired_check) then sret true
  else
    go? generation_is_current := calls (runtime_generation_is_authorized stack revision generation) in
    go? daemon_is_current := match daemon_instance with None => sret true | Some instance => calls (daemon_owner_is_active instance pass.(pa_daemon_lease)) end in
    if negb generation_is_current || negb daemon_is_current then
      (if generation_is_current : bool then stop_active_workers pass.(pa_stopped) pass.(pa_stop_ms)
       else calls (terminate_all s.(sv_active)) ;;> modify (fun s => with_active s ∅)) ;;>
      sret false
    else
      go? controls := calls (generation_controls stack generation) in
      modify (fun s => with_controls s controls (pass.(pa_polled_at) + DESIRED_STATE_POLL_INTERVAL)) ;;>
      sret true.
Definition beat (pass : Pass) : SM unit :=
  go? s := get in
  if pass.(pa_heartbeat_at) <? s.(sv_next_heartbeat) then sret tt
  else
    go? now_ms := value pass.(pa_heartbeat_ms) in
    mark (fun status => heartbeat status now_ms) ;;>
    persist ;;>
    modify (fun s => with_heartbeat s (pass.(pa_beaten_at) + SUPERVISOR_HEARTBEAT_INTERVAL)).
(** A pass of the loop: whether there is another one *)
Definition supervise_pass (pass : Pass) : SM bool :=
  if pass.(pa_interrupted) then stop_active_workers pass.(pa_stopped) pass.(pa_stop_ms) ;;> sret false
  else
    go? owned := check_ownership pass in
    if negb owned then sret false
    else
      modify (fun s => with_changed s false) ;;>
      go? now_ms := value pass.(pa_now_ms) in
      go? drained := apply_rollout_drains now_ms pass.(pa_drain_ms) pass.(pa_drained) in
      (if drained : bool then persist else sret tt) ;;>
      go? s := get in
      watch_workers now_ms pass.(pa_seen) (sorted_ids s.(sv_active)) ;;>
      go? s := get in
      (if s.(sv_changed) then persist else sret tt) ;;>
      beat pass ;;>
      go? s := get in
      start_workers (S (length s.(sv_status).(replicas))) now_ms pass.(pa_begin) ;;>
      go? s := get in
      sret (negb (bool_decide (s.(sv_active) = ∅) && negb (still_waiting s.(sv_status)))).
(** The passes until one is the last or fails; the guard of the workers then ends *)
Fixpoint supervise_loop (passes : list Pass) : SM bool :=
  match passes with
  | [] => sret true
  | pass :: passes => go? again := supervise_pass pass in if again : bool then supervise_loop passes else sret false
  end.
(** While the loop may go on the workers stay *)
Definition dropping (m : SM bool) : SM bool := fun s w =>
  match m s w with
  | (w, (s, Done (Ok true))) => (w, (s, Done (Ok true)))
  | (w, (s, Done r)) => match terminate_all s.(sv_active) w with
                        | (w, Done _) => (w, (with_active s ∅, Done r))
                        | (w, Died) => (w, (s, Died))
                        end
  | (w, (s, Died)) => (w, (s, Died))
  end.
End Generation.

(** ** The command *)
Record Started := mkStarted { st_target : GenerationTarget; st_templates : gmap ReplicaId StackWorkerTemplate; st_supervision : Supervision }.
(** What the command finds at its start: the leases of the daemon and of the generation,
    the watchdog, its own executable, the handler of interrupts, and the clocks *)
Record Opening := mkOpening {
  op_daemon_lease : bool;
  op_watchdog : result string unit;
  op_executable : result string unit;
  op_handler : result string unit;
  op_now_ms : result string N;
  op_library_ms : result string N;
  op_generation_held : bool;
  op_desired_at : N;
  op_heartbeat_at : N;
}.
Definition choose_target (stack : string) (requested_generation : option string) : IO GenerationTarget :=
  match requested_generation with
  | Some generation =>
      do? target := generation_target stack generation in
      lift (ok_or target "requested runtime generation is not authorized")
  | None =>
      do? desired := desired_plan stack in
      do? (_, generation, _) := lift (ok_or desired "stack was removed and has no runnable generation") in
      do? target := generation_target stack generation in
      lift (ok_or target "desired runtime generation is not authorized")
  end.
Definition open_supervisor (stack library_root : string) (max_workers : N) (requested_generation daemon_instance : option string) (o : Opening) : IO Started :=
  if (max_workers =? 0) || (MAX_STACK_TOTAL_ACTIVE_REPLICAS <? max_workers) then fail "supervisor worker limit is invalid"
  else
    do? owned := match daemon_instance with
                 | None => ret true
                 | Some instance => if negb (valid_daemon_instance instance) then ret false else daemon_owner_is_active instance o.(op_daemon_lease)
                 end in
    if negb owned then fail "engine daemon ownership could not be verified"
    else
      (if is_some daemon_instance then lift o.(op_watchdog) else ret tt) ;;?
      do? now := lift o.(op_now_ms) in
      open_store ;;?
      do? target := choose_target stack requested_generation in
      acquire_generation_supervisor_lease stack target.(gt_generation) o.(op_generation_held) ;;?
      clear_probe_channels_for_generation stack target.(gt_generation) ;;?
      do? library := open_library library_root o.(op_library_ms) in
      verify_installed target.(gt_plan) library ;;?
      do? status := prepare_runtime_status_for_generation stack target.(gt_generation) now in
      do? templates := stack_worker_templates library target.(gt_plan) target.(gt_generation) in
      lift o.(op_executable) ;;?
      do? controls := generation_controls stack target.(gt_generation) in
      lift o.(op_handler) ;;?
      ret (mkStarted target templates
             (mkSupervision ∅ status controls o.(op_desired_at) (o.(op_heartbeat_at) + SUPERVISOR_HEARTBEAT_INTERVAL) false)).
(** Whether the loop goes on after the given passes; otherwise no worker is left *)
Definition supervise_stack (stack library_root : string) (max_workers : N) (requested_generation daemon_instance : option string) (o : Opening)
    (passes : list Pass) : IO (Supervision * bool) :=
  do? started := open_supervisor stack library_root max_workers requested_generation daemon_instance o in
  fun w =>
    let '(w, (s, outcome)) :=
      dropping (supervise_loop stack started.(st_target).(gt_generation) max_workers started.(st_templates) started.(st_target).(gt_revision)
                  daemon_instance passes) started.(st_supervision) w in
    (w, match outcome with Done (Ok again) => Done (Ok (s, again)) | Done (Err e) => Done (Err e) | Died => Died end).
End Supervise.
