(* ===== verification/SuperviseTheorems.v ===== *)
(** * Theorems about the supervisor of a stack

    After every pass that goes on, the workers are exactly the replicas that the status
    says are active, within the limit and the controls of the rollout, and no start is
    left over while there is room; identities of runs are not shared; and observations
    that a pass makes later than its own time end the supervisor. *)
From stdpp Require Import pretty.
From S2P Require Import Prelude Text Core Storage Snapshot Directory Blob Network Manifest ManifestTheorems Resolver Archive Rolling Plan Supervisor SupervisorSpec SupervisorTheorems Events Health Files Rollout Progress Store StoreTheorems Routing RoutingTheorems Peer Host IdentityFiles Release Desktop Probe Daemon Planning Replicas Documents Capsule NetworkTheorems ArchiveTheorems PeerTheorems DaemonTheorems EngineDaemon InvocationTheorems Supervise.

(** ** Runs over the state of the supervisor *)
Definition runs_to {A : Type} (P : Supervision -> Prop) (m : SM A) (Q : A -> Supervision -> Prop) : Prop :=
  forall s w w' s' a, P s -> m s w = (w', (s', Done (Ok a))) -> Q a s'.
Section Rules.
Context (P : Supervision -> Prop).
Lemma runs_bind {A B : Type} (R : A -> Supervision -> Prop) (m : SM A) (k : A -> SM B) Q :
  runs_to P m R -> (forall a, runs_to (R a) (k a) Q) -> runs_to P (sbind m k) Q.
Proof.
  intros Hm Hk s w w' s' b Hs. unfold sbind. destruct (m s w) as [w1 [s1 [[a|e]|]]] eqn:H; [|done..]. intros Hrun. eapply Hk; [|exact Hrun]. by eapply Hm.
Qed.
Lemma runs_ret {A : Type} (a : A) (Q : A -> Supervision -> Prop) : (forall s, P s -> Q a s) -> runs_to P (sret a) Q.
Proof. intros H s w w' s' b Hs [= <- <- <-]. by apply H. Qed.
Lemma runs_calls {A : Type} (m : IO A) (Q : A -> Supervision -> Prop) : (forall a s, P s -> Q a s) -> runs_to P (calls m) Q.
Proof. intros H s w w' s' b Hs. unfold calls. destruct (m w) as [w1 o]. intros [= <- <- ->]. by apply H. Qed.
Lemma runs_answered {A : Type} (m : IO A) (Q : A -> Supervision -> Prop) :
  (forall w w' a s, P s -> m w = (w', Done (Ok a)) -> Q a s) -> runs_to P (calls m) Q.
Proof. intros H s w w' s' b Hs. unfold calls. destruct (m w) as [w1 o] eqn:Hm. intros [= <- <- ->]. by eapply H. Qed.
Lemma runs_value {A : Type} (r : result string A) (Q : A -> Supervision -> Prop) : (forall a s, P s -> r = Ok a -> Q a s) -> runs_to P (value r) Q.
Proof. intros H s w w' s' b Hs. unfold value, calls, lift. intros [= <- <- ->]. by apply H. Qed.
Lemma runs_get (Q : Supervision -> Supervision -> Prop) : (forall s, P s -> Q s s) -> runs_to P get Q.
Proof. intros H s w w' s' b Hs [= <- <- <-]. by apply H. Qed.
Lemma runs_modify f (Q : unit -> Supervision -> Prop) : (forall s, P s -> Q tt (f s)) -> runs_to P (modify f) Q.
Proof. intros H s w w' s' [] Hs [= <- <-]. by apply H. Qed.
Lemma runs_mark {A : Type} (f : StackRuntimeStatus -> StackRuntimeStatus * result string A) (Q : A -> Supervision -> Prop) :
  (forall s status a, P s -> f s.(sv_status) = (status, Ok a) -> Q a (with_status s status)) -> runs_to P (mark f) Q.
Proof. intros H s w w' s' b Hs. unfold mark. destruct (f (sv_status s)) as [status r] eqn:Hf. intros [= <- <- ->]. by eapply H. Qed.
Lemma runs_weaken {A : Type} (P' : Supervision -> Prop) (m : SM A) (Q Q' : A -> Supervision -> Prop) :
  runs_to P' m Q -> (forall s, P s -> P' s) -> (forall a s, Q a s -> Q' a s) -> runs_to P m Q'.
Proof. intros Hm HP HQ s w w' s' a Hs Hrun. by eapply HQ, Hm, Hrun; apply HP. Qed.
(** Steps may be regrouped *)
Lemma runs_assoc {A B C : Type} (m : SM A) (k : A -> SM B) (k' : B -> SM C) Q :
  runs_to P (sbind (sbind m k) k') Q -> runs_to P (sbind m (fun a => sbind (k a) k')) Q.
Proof.
  intros H s w w' s' c Hs Hrun. apply (H s w w' s' c Hs). rewrite <- Hrun. unfold sbind. by destruct (m s w) as [w1 [s1 [[a|e]|]]].
Qed.
End Rules.
(** Steps that leave the state of the supervisor as it is *)
Definition inert {A : Type} (m : SM A) : Prop := forall s w w' s' a, m s w = (w', (s', Done (Ok a))) -> s' = s.
Lemma inert_calls {A : Type} (m : IO A) : inert (calls m).
Proof. intros s w w' s' a. unfold calls. destruct (m w). by intros [= _ <- _]. Qed.
Lemma inert_ret {A : Type} (a : A) : inert (sret a).
Proof. by intros s w w' s' b [= _ <- _]. Qed.
Lemma inert_bind {A B : Type} (m : SM A) (k : A -> SM B) : inert m -> (forall a, inert (k a)) -> inert (sbind m k).
Proof.
  intros Hm Hk s w w' s' b. unfold sbind. destruct (m s w) as [w1 [s1 [[a|e]|]]] eqn:H; [|done..]. apply Hm in H as ->. apply Hk.
Qed.

(** ** Workers and replicas *)
Definition linked (worker : option ActiveStackWorker) (r : ReplicaRuntime) : Prop :=
  match worker with Some worker => is_active r = true /\ r.(run_id) = Some worker.(aw_run_id) | None => is_active r = false end.

Section SuperviseTheorems.
Context `{Ext : Externals} `{Hex : HexDecode} `{SV : !Semver} `{UC : UrlCrate} `{ZC : !ZipCrate} `{TC : !TomlCrate} `{PC : PeerCrypto}.
Context `{JP : !Json StackPlan} `{JN : !Json PlannedInstance} `{JS : !Json StackRuntimeStatus} `{JT : !JsonTotal StackRuntimeStatus}
  `{JE : !Json EngineEvent} `{JI : !Json RolloutIdentity}
  `{JRo : !Json RolloutRecord} `{JPr : !Json RolloutProgress} `{DE : !JsonDecode EngineEvent} `{DS : !JsonDecode StackRuntimeStatus}
  `{DRo : !JsonDecode RolloutRecord} `{DPr : !JsonDecode RolloutProgress}.
Context `{JL : Json LibraryDocument} `{DL : JsonDecode LibraryDocument} `{DEp : JsonDecode DaemonEndpoint}.
Context `{JSg : Json Probe.ProbeSignal} `{DSg : JsonDecode Probe.ProbeSignal} `{JPe : Json ProbeEnvelope} `{DPe : JsonDecode ProbeEnvelope}.

(** The workers are exactly the active replicas, each in the run of its worker; [hole] is
    a replica that is left out *)
Record tracked_but (hole : option ReplicaId) (active : ActiveStackWorkers) (status : StackRuntimeStatus) : Prop := {
  tr_inv : inv status;
  tr_linked : forall r, r ∈ status.(replicas) -> hole <> Some r.(id) -> linked (active !! r.(id)) r;
  tr_known : forall i, is_Some (active !! i) -> exists r, r ∈ status.(replicas) /\ r.(id) = i;
}.
Abbreviation tracked := (tracked_but None).
Definition tracked_in (s : Supervision) : Prop := tracked s.(sv_active) s.(sv_status).

(** A step of the status that fills the hole or opens it *)
Lemma tracked_step hole active active' status status' o i :
  tracked_but (Some i) active status -> op_id o = Some i -> op_time o < u64_max -> exec status o = (status', Ok tt) ->
  (forall j, j <> i -> active' !! j = active !! j) ->
  (forall r, r ∈ status.(replicas) -> r.(id) = i -> can o r = true -> hole <> Some i -> linked (active' !! i) (transition o r)) ->
  tracked_but hole active' status'.
Proof.
  intros [Hi Hl Hk] Ho Ht Hstep Hsame Hnew. destruct (step_replica _ _ _ Hi Ht Hstep) as (Hi' & Hreps & _ & Hcan).
  assert (exists r, r ∈ replicas status /\ r.(id) = i) as (r0 & Hr0 & Hid0).
  { destruct (exec_ok _ _ _ Hi Ht Hstep) as [He _]. destruct (enabled_inv _ _ _ He Ho) as (_ & r & Hf & _).
    destruct (find_inv _ _ _ Hi Hf) as (_ & Hr & Hin). by exists r. }
  constructor; [done| |].
  - intros r' Hr' Hh. rewrite Hreps in Hr'. apply list_elem_of_fmap in Hr' as (r & -> & Hr). rewrite after_id in Hh |- *.
    unfold after. destruct (affects o r) eqn:Ha.
    + pose proof (affects_id _ _ _ Ho Ha) as <-. apply Hnew; auto.
    + assert (r.(id) <> i) as Hne by (intros <-; unfold affects, has_id in Ha; rewrite Ho in Ha; by bprop).
      rewrite Hsame by done. apply Hl; [done|congruence].
  - intros j Hj. destruct (decide (j = i)) as [->|Hne].
    + exists (after o r0). rewrite Hreps, after_id. split; [by apply list_elem_of_fmap_2|done].
    + rewrite Hsame in Hj by done. destruct (Hk j Hj) as (r & Hr & <-). exists (after o r). rewrite Hreps, after_id. split; [by apply list_elem_of_fmap_2|done].
Qed.
Lemma tracked_hole i active status : tracked active status -> tracked_but (Some i) active status.
Proof. intros [Hi Hl Hk]. constructor; [done| |done]. intros r Hr _. by apply Hl. Qed.
(** A worker that keeps its run may change otherwise, and one may go *)
Lemma tracked_update hole i worker worker' active status :
  tracked_but hole active status -> active !! i = Some worker -> worker'.(aw_run_id) = worker.(aw_run_id) -> tracked_but hole (<[i := worker']> active) status.
Proof.
  intros [Hi Hl Hk] Ha Hrun. constructor; [done| |].
  - intros r Hr Hh. specialize (Hl r Hr Hh). destruct (decide (i = r.(id))) as [->|Hne].
    + rewrite lookup_insert_eq. rewrite Ha in Hl. cbn [linked] in *. by rewrite Hrun.
    + by rewrite lookup_insert_ne.
  - intros j Hj. apply Hk. destruct (decide (i = j)) as [->|Hne]; [by exists worker|by rewrite lookup_insert_ne in Hj].
Qed.
Lemma tracked_delete i active status : tracked active status -> tracked_but (Some i) (delete i active) status.
Proof.
  intros [Hi Hl Hk]. constructor; [done| |].
  - intros r Hr Hh. rewrite lookup_delete_ne by congruence. by apply Hl.
  - intros j Hj. apply Hk. destruct (decide (i = j)) as [->|Hne]; [by rewrite lookup_delete_eq in Hj; destruct Hj|by rewrite lookup_delete_ne in Hj].
Qed.
(** Steps of a run that goes on *)
Definition keeps_run (o : Op) (i : ReplicaId) (run : string) : Prop :=
  op_id o = Some i /\ forall r, can o r = true -> is_active r = true -> r.(run_id) = Some run ->
    is_active (transition o r) = true /\ (transition o r).(run_id) = Some run.
Lemma tracked_goes_on active status status' o i worker :
  tracked active status -> active !! i = Some worker -> keeps_run o i worker.(aw_run_id) -> op_time o < u64_max -> exec status o = (status', Ok tt) ->
  tracked active status'.
Proof.
  intros Ht Ha [Ho Hkeep] Hmax Hstep. apply (tracked_step None active active status status' o i); [by apply tracked_hole|done..|].
  intros r Hr Hid Hcan _. pose proof (tr_linked _ _ _ Ht r Hr) as Hl. rewrite Hid, Ha in Hl. rewrite Ha. destruct Hl as [H1 H2]; [done|]. by apply Hkeep.
Qed.
(** Steps that end a run *)
Lemma tracked_ends active status status' o i :
  tracked_but (Some i) active status -> active !! i = None -> op_id o = Some i -> (forall r, can o r = true -> is_active (transition o r) = false) ->
  op_time o < u64_max -> exec status o = (status', Ok tt) -> tracked active status'.
Proof.
  intros Ht Ha Ho Hend Hmax Hstep. apply (tracked_step None active active status status' o i); [done..|].
  intros r Hr Hid Hcan _. rewrite Ha. by apply Hend.
Qed.
Lemma signal_goes_on i run seq kind now : keeps_run (SupervisorSpec.ProbeSignal i run seq kind now) i run.
Proof. split; [done|]. intros r _ Ha Hr. cbn [transition]. split; [|done]. unfold is_active, phase_is in *. cbn [set_phase phase]. by destruct kind. Qed.
Lemma timeout_goes_on i run now : keeps_run (ProbeTimeout i run now) i run.
Proof. split; [done|]. intros r _ Ha Hr. cbn [transition]. by split. Qed.
Lemma finished_is_over r success code text now : is_active (finish_replica r success code text now) = false.
Proof.
  unfold is_active, phase_is, finish_replica. destruct (_ && _); [done|]. cbn [phase].
  destruct (match restart r with Never => false | _ => _ end); [done|]. by destruct success.
Qed.

(** ** What a pass may do to the workers before it starts new ones *)
Section Watching.
Variables (before : ActiveStackWorkers) (controls : GenerationControls).
Definition shrinks (active : ActiveStackWorkers) : Prop :=
  forall i worker, active !! i = Some worker -> exists worker0, before !! i = Some worker0 /\ worker0.(aw_run_id) = worker.(aw_run_id).
Record watching (s : Supervision) : Prop := {
  wa_tracked : tracked_in s;
  wa_shrinks : shrinks s.(sv_active);
  wa_controls : s.(sv_controls) = controls;
}.
Definition watching_worker (i : ReplicaId) (worker : ActiveStackWorker) (s : Supervision) : Prop := watching s /\ s.(sv_active) !! i = Some worker.
Lemma watching_update i worker worker' s :
  watching_worker i worker s -> worker'.(aw_run_id) = worker.(aw_run_id) -> watching_worker i worker' (with_active s (<[i := worker']> s.(sv_active))).
Proof.
  intros [[Ht Hs Hc] Ha] Hrun. split; [|apply lookup_insert_eq]. constructor; [by eapply tracked_update| |done].
  intros j w. cbn [sv_active with_active]. destruct (decide (i = j)) as [->|Hne]; [rewrite lookup_insert_eq|rewrite lookup_insert_ne by done; apply Hs].
  intros [= <-]. rewrite Hrun. by apply Hs.
Qed.
Lemma watching_mark i worker o status s :
  watching_worker i worker s -> keeps_run o i worker.(aw_run_id) -> op_time o < u64_max -> exec s.(sv_status) o = (status, Ok tt) ->
  watching_worker i worker (with_status s status).
Proof. intros [[Ht Hs Hc] Ha] Hk Hmax Hstep. split; [|done]. constructor; [by eapply tracked_goes_on|done..]. Qed.
Lemma worker_of_runs i : runs_to watching (worker_of i) (fun worker s => watching_worker i worker s).
Proof.
  eapply runs_bind; [apply (runs_get _ (fun s s' => watching s' /\ s' = s)); by intros s Hs|]. intros s0. apply runs_value. intros worker s [Hs ->] Hw.
  split; [done|]. destruct (sv_active s0 !! i); [|done]. by injection Hw as ->.
Qed.
Lemma worker_of_again i worker : runs_to (watching_worker i worker) (worker_of i) (fun worker' s => worker' = worker /\ watching_worker i worker s).
Proof.
  eapply runs_bind; [apply (runs_get _ (fun s s' => watching_worker i worker s' /\ s' = s)); by intros s Hs|]. intros s0. apply runs_value.
  intros worker' s [[Hs Ha] ->] Hw. rewrite Ha in Hw. by injection Hw as <-.
Qed.
Lemma set_worker_runs i worker worker' : worker'.(aw_run_id) = worker.(aw_run_id) ->
  runs_to (watching_worker i worker) (set_worker i worker') (fun _ => watching_worker i worker').
Proof. intros Hrun. apply runs_modify. intros s Hs. by apply (watching_update i worker). Qed.
Lemma probe_of_runs i worker : runs_to (watching_worker i worker) (probe_of i) (fun p s => p.1 = worker /\ watching_worker i worker s).
Proof.
  eapply runs_bind; [apply (runs_get _ (fun s s' => watching_worker i worker s' /\ s' = s)); by intros s Hs|]. intros s0. apply runs_value.
  intros [worker' probe] s [[Hs Ha] ->] Hw. rewrite Ha in Hw. cbn in Hw. destruct (aw_probe worker); [|done]. by injection Hw as <- _.
Qed.
Lemma changed_runs (P : Supervision -> Prop) : (forall s, P s -> P (with_changed s true)) -> runs_to P changed (fun _ => P).
Proof. intros H. by apply runs_modify. Qed.
Lemma watching_changed i worker s b : watching_worker i worker s -> watching_worker i worker (with_changed s b).
Proof. intros [[Ht Hs Hc] Ha]. by split; [constructor|]. Qed.
Lemma poll_keeps_run worker w w' worker' signal :
  poll_worker_probe worker w = (w', Done (Ok (worker', signal))) -> worker'.(aw_run_id) = worker.(aw_run_id).
Proof.
  unfold poll_worker_probe, bind, exists_file, read_file, Files.attempt, ret. destruct (aw_probe worker) as [probe|]; [|by intros [= _ <- _]].
  destruct (negb _); [by intros [= _ <- _]|]. destruct (ok_or _ _) as [content|]; [|by intros [= _ <- _]]. destruct (_ || _); [by intros [= _ <- _]|].
  destruct (bool_decide _); [by intros [= _ <- _]|]. destruct (open_signal _ _ _); by intros [= _ <- _].
Qed.
Lemma look_runs written i : runs_to watching (look written i) (fun _ s => exists worker, watching_worker i worker s).
Proof.
  eapply runs_bind; [apply worker_of_runs|]. intros worker. cbn beta. eapply (runs_bind _ (fun _ => watching_worker i worker)).
  { destruct written as [content|]; [destruct (aw_probe worker)|]; [by apply runs_calls|by apply runs_ret..]. }
  intros _. eapply (runs_bind _ (fun p s => p.1.(aw_run_id) = worker.(aw_run_id) /\ watching_worker i worker s)).
  { apply runs_answered. intros w w' [worker' signal] s Hs Hp. split; [by eapply poll_keeps_run|done]. }
  intros [worker' signal]. cbn [fst]. eapply (runs_bind _ (fun _ => watching_worker i worker')).
  { apply runs_modify. intros s [Hrun Hs]. by apply (watching_update i worker). }
  intros _. apply runs_ret. intros s Hs. by exists worker'.
Qed.

Context (now_ms : N) (Hnow : now_ms < u64_max).
Definition in_time (clock : result string N) : Prop := forall n, clock = Ok n -> n < u64_max.
Lemma mark_signal_runs i worker seq kind at_ms : at_ms < u64_max ->
  runs_to (watching_worker i worker) (mark (fun status => mark_probe_signal status i worker.(aw_run_id) seq kind at_ms)) (fun _ => watching_worker i worker).
Proof.
  intros Hat. apply runs_mark. intros s status [] Hs Hm. apply (watching_mark i worker (SupervisorSpec.ProbeSignal i worker.(aw_run_id) seq kind at_ms));
    [done|apply signal_goes_on|done..].
Qed.
Lemma take_signal_runs seen i : runs_to watching (take_signal now_ms seen i) (fun _ => watching).
Proof.
  eapply runs_bind; [apply look_runs|]. intros [[signal|]|e]; [|apply runs_ret; by intros s (worker & Hs & _)..].
  eapply (runs_bind _ (fun worker => watching_worker i worker)).
  { intros s w w' s' worker (worker0 & Hs) Hrun. by destruct (worker_of_again i worker0 _ _ _ _ _ Hs Hrun) as [-> ?]. }
  intros worker. eapply runs_bind; [by apply mark_signal_runs|]. intros []. eapply runs_bind; [apply probe_of_runs|]. intros [worker' probe]. cbn [fst].
  eapply (runs_bind _ (fun _ s => exists worker, watching_worker i worker s)).
  { intros s w w' s' [] [-> Hs] Hrun. eexists. by eapply (set_worker_runs i worker); [|exact Hs|exact Hrun]. }
  intros []. eapply (runs_bind _ (fun _ => watching)).
  { apply runs_modify. intros s (worker1 & Hs). by apply (watching_changed i worker1 s true). }
  intros []. eapply (runs_bind _ (fun _ => watching)); [by apply runs_get|]. intros s0. by apply runs_ret.
Qed.
Lemma check_probe_runs seen i : runs_to watching (check_probe now_ms seen i) (fun _ => watching).
Proof.
  eapply (runs_bind _ (fun _ => watching)); [by apply runs_get|]. intros s0. cbv zeta. destruct (_ ≫= aw_probe) as [probe|]; [|by apply runs_ret].
  destruct (_ && _); [by apply runs_ret|]. destruct (_ && _); [by apply runs_ret|]. destruct (is_some_and _ _); [|by apply runs_ret].
  eapply runs_bind; [apply worker_of_runs|]. intros worker. cbn beta. eapply (runs_bind _ (fun _ => watching_worker i worker)).
  { apply runs_mark. intros s status failures Hs Hm. apply (watching_mark i worker (ProbeTimeout i worker.(aw_run_id) now_ms)); [done|apply timeout_goes_on|done|].
    cbn [exec]. unfold drop_value. by rewrite Hm. }
  intros failures. eapply runs_bind; [apply probe_of_runs|]. intros [worker' current]. cbn [fst].
  eapply (runs_bind _ (fun _ s => exists worker, watching_worker i worker s)).
  { intros s w w' s' [] [-> Hs] Hrun. eexists. by eapply (set_worker_runs i worker); [|exact Hs|exact Hrun]. }
  intros []. eapply (runs_bind _ (fun _ => watching)); [|intros []; by apply runs_ret].
  apply runs_modify. intros s (worker1 & Hs). by apply (watching_changed i worker1 s true).
Qed.
Lemma late_signal_runs seen i : in_time seen.(se_late_ms) -> runs_to watching (late_signal seen i) (fun _ => watching).
Proof.
  intros Htime. eapply runs_bind; [apply look_runs|]. intros [[signal|]|e]; [|apply runs_ret; by intros s (worker & Hs & _)..].
  eapply (runs_bind _ (fun at_ms s => at_ms < u64_max /\ exists worker, watching_worker i worker s)).
  { apply runs_value. intros at_ms s Hs Hat. split; [by apply Htime|done]. }
  intros at_ms. eapply (runs_bind _ (fun worker s => at_ms < u64_max /\ watching_worker i worker s)).
  { intros s w w' s' worker [Hat (worker0 & Hs)] Hrun. by destruct (worker_of_again i worker0 _ _ _ _ _ Hs Hrun) as [-> ?]. }
  intros worker. eapply (runs_bind _ (fun _ => watching_worker i worker)).
  { intros s w w' s' [] [Hat Hs] Hrun. by eapply mark_signal_runs; [exact Hat|exact Hs|exact Hrun]. }
  intros []. eapply (runs_bind _ (fun s0 s => watching_worker i worker s /\ s = s0)); [by apply runs_get|]. intros s0.
  eapply (runs_bind _ (fun _ s => exists worker, watching_worker i worker s)).
  { intros s w w' s' [] [Hs ->] Hrun. destruct (sv_active s0 !! i ≫= _) as [[worker1 probe]|] eqn:Hp.
    - destruct Hs as [Hs Ha]. rewrite Ha in Hp. cbn in Hp. destruct (aw_probe worker); [|done]. injection Hp as <- <-. eexists.
      by eapply (set_worker_runs i worker); [|split; [exact Hs|exact Ha]|exact Hrun].
    - injection Hrun as _ <-. by exists worker. }
  intros []. apply runs_modify. intros s (worker1 & Hs). by apply (watching_changed i worker1 s true).
Qed.
Lemma ending_runs seen i failure : in_time seen.(se_late_ms) -> runs_to watching (ending seen i failure) (fun _ => watching).
Proof.
  intros Htime. eapply (runs_bind _ (fun _ => watching)); [by apply runs_get|]. intros s0. cbv zeta.
  assert (forall (A : Type) (r : result string A) (k : A -> SM (option (bool * option Z * string))), (forall a, runs_to watching (k a) (fun _ => watching)) ->
    runs_to watching (sbind (worker_of i) (fun _ => sbind (value r) k)) (fun _ => watching)) as Hstep.
  { intros A r k Hk. eapply (runs_bind _ (fun _ => watching)); [eapply runs_weaken; [apply (worker_of_runs i)|done|by intros worker s []]|]. intros _.
    eapply (runs_bind _ (fun _ => watching)); [by apply runs_value|done]. }
  destruct failure as [detail|]; [apply Hstep; intros exit; by apply runs_ret|]. destruct (is_some_and _ _); [apply Hstep; intros exit; by apply runs_ret|].
  apply Hstep. intros exit. eapply (runs_bind _ (fun _ => watching)); [destruct (_ && _); [by apply late_signal_runs|by apply runs_ret]|]. intros _.
  eapply (runs_bind _ (fun _ => watching)); [by apply runs_get|]. intros s1. by apply runs_ret.
Qed.
(** A run that ends: the worker goes first, then the status says so *)
Lemma ends_runs {A : Type} i worker o (m : SM A) : op_id o = Some i -> (forall r, can o r = true -> is_active (transition o r) = false) -> op_time o < u64_max ->
  inert m ->
  runs_to (watching_worker i worker)
    (sbind (modify (fun s => with_active s (delete i s.(sv_active)))) (fun _ => sbind m (fun _ => mark (fun status => exec status o))))
    (fun _ s => watching s /\ s.(sv_active) !! i = None).
Proof.
  intros Ho Hend Htime Hm. eapply (runs_bind _ (fun _ s => tracked_but (Some i) s.(sv_active) s.(sv_status) /\ s.(sv_active) !! i = None
    /\ shrinks s.(sv_active) /\ s.(sv_controls) = controls)).
  { apply runs_modify. intros s [[Ht Hs Hc] Ha]. cbn [sv_active sv_status sv_controls with_active]. split_and!; [by apply tracked_delete|apply lookup_delete_eq| |done].
    intros j w Hj. apply lookup_delete_Some in Hj as [_ Hj]. by apply Hs. }
  intros []. eapply (runs_bind _ (fun _ s => tracked_but (Some i) s.(sv_active) s.(sv_status) /\ s.(sv_active) !! i = None
    /\ shrinks s.(sv_active) /\ s.(sv_controls) = controls)).
  { intros s w w' s' a Hs Hrun. by rewrite (Hm _ _ _ _ _ Hrun). }
  intros _. apply runs_mark. intros s status [] (Ht & Ha & Hs & Hc) Hstep. split; [|done]. constructor; [|done..].
  by apply (tracked_ends _ _ _ o i Ht Ha Ho Hend).
Qed.
Lemma watch_worker_runs seen i : in_time seen.(se_late_ms) -> runs_to watching (watch_worker now_ms seen i) (fun _ => watching).
Proof.
  intros Htime. eapply runs_bind; [apply take_signal_runs|]. intros failure. eapply (runs_bind _ (fun _ => watching)).
  { destruct failure; [by apply runs_ret|apply check_probe_runs]. }
  intros failure'. eapply runs_bind; [by apply ending_runs|]. intros [[[success code] detail]|]; [|by apply runs_ret].
  eapply runs_bind; [apply worker_of_runs|]. intros worker. cbn beta.
  apply runs_assoc. apply runs_assoc. eapply (runs_bind _ (fun _ => watching)); [|intros []; apply runs_modify; intros s [Ht Hs Hc]; by constructor].
  intros s w w' s' a Hs Hrun. eapply (ends_runs i worker (MarkExit i worker.(aw_run_id) success code detail now_ms) (calls (cleanup_worker_channels worker)));
    [done| |done|apply inert_calls|exact Hs|].
  { intros r _. apply finished_is_over. }
  rewrite <- Hrun. unfold sbind. done.
Qed.
Lemma watch_workers_runs seen ids : (forall i, in_time (seen i).(se_late_ms)) -> runs_to watching (watch_workers now_ms seen ids) (fun _ => watching).
Proof.
  intros Htime. induction ids as [|i ids IH]; cbn [watch_workers]; [by apply runs_ret|]. eapply runs_bind; [by apply watch_worker_runs|]. intros []. exact IH.
Qed.
Lemma stopped_has_no_worker s i : tracked_in s -> is_stopped s.(sv_status) i = true -> s.(sv_active) !! i = None.
Proof.
  intros Ht. unfold is_stopped. destruct (List.find _ _) as [r|] eqn:Hf; [|done]. destruct (find_inv _ _ _ (tr_inv _ _ _ Ht) Hf) as (_ & Hid & Hin).
  cbn [is_some_and]. intros Hstop. pose proof (tr_linked _ _ _ Ht r Hin) as Hl. rewrite Hid in Hl. destruct (sv_active s !! i); [|done].
  destruct Hl as [Ha _]; [done|]. unfold is_active, phase_is in *. bprop. rewrite Hstop in Ha. by destruct Ha.
Qed.
Lemma drain_one_runs deadline clock child i : in_time clock ->
  runs_to watching (drain_one now_ms deadline clock child i) (fun _ s => watching s /\ s.(sv_active) !! i = None).
Proof.
  intros Htime. eapply (runs_bind _ (fun current s => watching s /\ N.max current now_ms < u64_max)).
  { apply runs_value. intros current s Hs Hc. split; [done|]. specialize (Htime _ Hc). lia. }
  intros current. cbv zeta. eapply (runs_bind _ (fun s0 s => watching s /\ N.max current now_ms < u64_max /\ s = s0)); [apply runs_get; by intros s []|]. intros s0.
  destruct (is_stopped (sv_status s0) i) eqn:Hstop.
  { apply runs_ret. intros s (Hs & _ & ->). split; [done|]. apply stopped_has_no_worker; [apply Hs|done]. }
  assert (forall r run, can (MarkDrained i run (N.max current now_ms)) r = true -> is_active (transition (MarkDrained i run (N.max current now_ms)) r) = false) as Hend.
  { by intros r run _. }
  destruct (sv_active s0 !! i) as [worker|] eqn:Ha.
  - eapply (runs_bind _ (fun _ s => watching s /\ sv_active s !! i = None)); [|intros []; by apply runs_ret].
    intros s w w' s' a (Hs & Hmax & ->) Hrun.
    refine (ends_runs i worker (MarkDrained i (Some worker.(aw_run_id)) (N.max current now_ms))
      (sbind (value child.(ch_try_wait)) (fun exit => sbind (if is_some exit then sret tt
         else sbind (value (child.(ch_terminate) (N.min (deadline - N.max current now_ms) TERMINATION_GRACE))) (fun _ => sret tt))
         (fun _ => calls (cleanup_worker_channels worker)))) _ _ _ _ s0 w w' s' a _ _); [done|by intros r; apply Hend|done| |split; [exact Hs|exact Ha]|].
    { apply inert_bind; [apply inert_calls|]. intros exit. apply inert_bind; [|intros _; apply inert_calls].
      destruct (is_some exit); [apply inert_ret|]. apply inert_bind; [apply inert_calls|]. intros _. apply inert_ret. }
    rewrite <- Hrun. unfold sbind, modify. cbv beta iota. destruct (value child.(ch_try_wait) _ w) as [w1 [s1 [[exit|e]|]]]; [|done..]. destruct (is_some exit).
    + unfold sret. by destruct (calls _ s1 w1) as [w3 [s3 [[u'|e]|]]].
    + destruct (value _ s1 w1) as [w2 [s2 [[u|e]|]]]; [|done..]. unfold sret. by destruct (calls _ s2 w2) as [w3 [s3 [[u'|e]|]]].
  - eapply (runs_bind _ (fun _ s => watching s /\ sv_active s !! i = None)); [|intros []; by apply runs_ret].
    apply runs_mark. intros s status [] (Hs & Hmax & ->) Hstep. destruct Hs as [Ht Hs Hc]. split; [|done]. constructor; [|done..].
    eapply (tracked_ends _ _ _ (MarkDrained i None (N.max current now_ms)) i); [by apply tracked_hole|done..].
Qed.
End Watching.

(** ** Starting a worker *)
Definition due (now_ms : N) (r : ReplicaRuntime) : bool := bool_decide (r.(desired) = DesiredState.Running) && startable r now_ms.
Definition only (i : ReplicaId) (l l' : list ReplicaRuntime) : Prop := Forall2 (fun r r' => r'.(id) = r.(id) /\ (r.(id) <> i -> r' = r)) l l'.
Lemma only_refl i l : only i l l.
Proof. apply Forall_Forall2_diag, Forall_true. by intros r. Qed.
Lemma only_trans i l1 l2 l3 : only i l1 l2 -> only i l2 l3 -> only i l1 l3.
Proof.
  intros H. revert l3. induction H as [|r1 r2 l1 l2 [H1 H2] H IH]; intros l3 H3; inversion H3 as [|? r3 ? l3' [H4 H5] H6]; subst; constructor; [|by apply IH].
  split; [congruence|]. intros Hne. rewrite H5; [by apply H2|congruence].
Qed.
Lemma only_step status status' o i :
  inv status -> op_id o = Some i -> op_time o < u64_max -> exec status o = (status', Ok tt) -> only i status.(replicas) status'.(replicas).
Proof.
  intros Hi Ho Ht Hstep. destruct (step_replica _ _ _ Hi Ht Hstep) as (_ & -> & _). apply Forall2_fmap_r, Forall_Forall2_diag, Forall_true. intros r.
  split; [apply after_id|]. intros Hne. unfold after. destruct (affects o r) eqn:Ha; [|done]. by apply (affects_id _ _ _ Ho) in Ha.
Qed.
Lemma due_count now_ms i l l' :
  only i l l' -> (forall r, r ∈ l' -> r.(id) = i -> due now_ms r = false) -> (exists r, r ∈ l /\ r.(id) = i /\ due now_ms r = true) ->
  (length (List.filter (due now_ms) l') < length (List.filter (due now_ms) l))%nat.
Proof.
  intros Ho Hno Hsome.
  assert (forall l l', only i l l' -> (forall r, r ∈ l' -> r.(id) = i -> due now_ms r = false) ->
    (length (List.filter (due now_ms) l') <= length (List.filter (due now_ms) l))%nat) as Hle.
  { clear. induction 1 as [|r r' l l' [Hid Hsame] Ho IH]; intros Hno; [done|]. cbn [List.filter].
    assert (length (List.filter (due now_ms) l') <= length (List.filter (due now_ms) l))%nat by (apply IH; intros x Hx; apply Hno; by right).
    destruct (decide (r.(id) = i)) as [Heq|Hne].
    - rewrite (Hno r') by (first [by left|congruence]). destruct (due now_ms r); cbn [length]; lia.
    - rewrite Hsame by done. destruct (due now_ms r); cbn [length]; lia. }
  destruct Hsome as (r0 & Hin & Hid0 & Hdue). revert Hno Hin. induction Ho as [|r r' l l' [Hid Hsame] Ho IH]; intros Hno Hin; [by apply elem_of_nil in Hin|].
  assert (forall x, x ∈ l' -> id x = i -> due now_ms x = false) as Hno' by (intros x Hx; apply Hno; by right). cbn [List.filter].
  specialize (Hle l l' Ho Hno'). apply elem_of_cons in Hin as [<-|Hin].
  - rewrite Hdue, (Hno r') by (first [by left|congruence]). cbn [length]. lia.
  - specialize (IH Hno' Hin). destruct (decide (r.(id) = i)) as [Heq|Hne].
    + rewrite (Hno r') by (first [by left|congruence]). destruct (due now_ms r); cbn [length]; lia.
    + rewrite Hsame by done. destruct (due now_ms r); cbn [length]; lia.
Qed.
Lemma eligible_due status now_ms i :
  i ∈ eligible_starts status now_ms <-> exists r, r ∈ status.(replicas) /\ r.(id) = i /\ due now_ms r = true.
Proof.
  unfold eligible_starts. rewrite list_elem_of_fmap. split.
  - intros (r & -> & [Hr Hd]%list_elem_of_In%List.filter_In). exists r. split; [by apply list_elem_of_In|done].
  - intros (r & Hr & <- & Hd). exists r. split; [done|]. apply list_elem_of_In, List.filter_In. split; [by apply list_elem_of_In|done].
Qed.

Section Starting.
Variables (stack generation : string) (max_workers now_ms : N) (templates : gmap ReplicaId StackWorkerTemplate).
Hypothesis Hnow : now_ms < u64_max.
Lemma finished_not_due r success code text : due now_ms (finish_replica r success code text now_ms) = false.
Proof.
  unfold due. apply andb_false_iff. right. unfold finish_replica, startable. destruct (_ && _); cbn [phase next_start_at_ms].
  - cbn [is_some_and]. apply N.leb_gt. unfold saturating_add. pose proof (restart_backoff_bounds r.(id) r.(Supervisor.attempt)) as [Hb _]. unfold MIN_RESTART_BACKOFF_MS in Hb. lia.
  - destruct (match restart r with Never => false | _ => _ end); [done|]. by destruct success.
Qed.
(** The state while a worker is being started: its replica is in the new run *)
Record starting (s0 : Supervision) (i : ReplicaId) (run : string) (s : Supervision) : Prop := {
  sg_tracked : tracked_but (Some i) s.(sv_active) s.(sv_status);
  sg_active : s.(sv_active) = s0.(sv_active);
  sg_controls : s.(sv_controls) = s0.(sv_controls);
  sg_only : only i s0.(sv_status).(replicas) s.(sv_status).(replicas);
  sg_known : exists r, r ∈ s.(sv_status).(replicas) /\ r.(id) = i;
  sg_run : forall r, r ∈ s.(sv_status).(replicas) -> r.(id) = i -> r.(phase) = ReplicaPhase.Starting /\ r.(run_id) = Some run;
}.
Record started (s0 : Supervision) (i : ReplicaId) (s : Supervision) : Prop := {
  sd_tracked : tracked_in s;
  sd_others : forall j, j <> i -> s.(sv_active) !! j = s0.(sv_active) !! j;
  sd_controls : s.(sv_controls) = s0.(sv_controls);
  sd_only : only i s0.(sv_status).(replicas) s.(sv_status).(replicas);
  sd_not_due : forall r, r ∈ s.(sv_status).(replicas) -> r.(id) = i -> due now_ms r = false;
}.
Lemma begin_runs s0 i run : tracked_in s0 -> s0.(sv_active) !! i = None ->
  runs_to (fun s => s = s0) (mark (fun status => begin_start status i run now_ms)) (fun _ => starting s0 i run).
Proof.
  intros Ht Ha. apply runs_mark. intros s status n -> Hm. assert (exec (sv_status s0) (BeginStart i run now_ms) = (status, Ok tt)) as Hstep
    by (cbn [exec]; unfold drop_value; by rewrite Hm).
  pose proof (tr_inv _ _ _ Ht) as Hi. destruct (step_replica _ (BeginStart i run now_ms) _ Hi Hnow Hstep) as (_ & Hreps & _ & Hcan).
  constructor; cbn [sv_active sv_status sv_controls with_status]; [|done|done|by apply (only_step _ _ (BeginStart i run now_ms))| |].
  - apply (tracked_step (Some i) (sv_active s0) _ (sv_status s0) _ (BeginStart i run now_ms) i); [by apply tracked_hole|done..].
  - destruct (exec_ok _ (BeginStart i run now_ms) _ Hi Hnow Hstep) as [He _]. destruct (enabled_inv _ _ _ He eq_refl) as (_ & r & Hf & _).
    destruct (find_inv _ _ _ Hi Hf) as (_ & Hr & Hin). exists (after (BeginStart i run now_ms) r). rewrite Hreps, after_id. split; [by apply list_elem_of_fmap_2|done].
  - intros r Hr Hid. rewrite Hreps in Hr. apply list_elem_of_fmap in Hr as (r0 & -> & Hr0). rewrite after_id in Hid. unfold after, affects, has_id.
    cbn [op_id]. by rewrite bool_decide_eq_true_2.
Qed.
Lemma running_runs s0 i run worker : worker.(aw_run_id) = run -> s0.(sv_active) !! i = None ->
  runs_to (starting s0 i run) (set_worker i worker) (fun _ s => started s0 i s /\ s.(sv_active) !! i = Some worker).
Proof.
  intros Hrun Ha0. apply runs_modify. intros s [[Hi Hl Hk] Ha Hc Ho Hknown Hr]. split; [|apply lookup_insert_eq].
  constructor; cbn [sv_active sv_status sv_controls with_active]; [|intros j Hj; rewrite lookup_insert_ne by done; by rewrite Ha|done|done|].
  - constructor; [done| |].
    + intros r Hin _. cbn [sv_active with_active]. destruct (decide (i = r.(id))) as [->|Hne].
      * rewrite lookup_insert_eq. destruct (Hr r Hin eq_refl) as [Hp Hrr]. cbn [linked]. unfold is_active, phase_is. rewrite Hp, Hrr, Hrun. by split.
      * rewrite lookup_insert_ne by done. apply Hl; [done|congruence].
    + intros j Hj. cbn [sv_active with_active] in Hj. destruct (decide (i = j)) as [->|Hne]; [|apply Hk; by rewrite lookup_insert_ne in Hj].
      exact Hknown.
  - intros r Hin Hid. destruct (Hr r Hin Hid) as [Hp _]. unfold due, startable. rewrite Hp. by rewrite andb_false_r.
Qed.
Lemma started_mark s0 i worker o :
  keeps_run o i worker.(aw_run_id) -> op_time o < u64_max -> (forall r, due now_ms (transition o r) = false) ->
  runs_to (fun s => started s0 i s /\ s.(sv_active) !! i = Some worker) (mark (fun status => exec status o)) (fun _ => started s0 i).
Proof.
  intros Hk Ht Hd. apply runs_mark. intros s status [] [[Htr Hs Hc Ho _] Ha] Hstep. pose proof (tr_inv _ _ _ Htr) as Hi.
  destruct (step_replica _ _ _ Hi Ht Hstep) as (_ & Hreps & _).
  constructor; cbn [sv_active sv_status sv_controls with_status]; [by eapply tracked_goes_on|done|done| |].
  - eapply only_trans; [exact Ho|]. by apply (only_step _ _ o); [..|apply Hk| |].
  - intros r Hr Hid. rewrite Hreps in Hr. apply list_elem_of_fmap in Hr as (r0 & -> & _). rewrite after_id in Hid. unfold after, affects, has_id.
    destruct Hk as [-> _]. by rewrite bool_decide_eq_true_2.
Qed.
Lemma failed_runs s0 i run text : s0.(sv_active) !! i = None ->
  runs_to (starting s0 i run) (mark (fun status => mark_exit status i run false None text now_ms)) (fun _ => started s0 i).
Proof.
  intros Ha0. apply runs_mark. intros s status [] [Ht Ha Hc Ho Hknown Hr] Hstep.
  change (exec (sv_status s) (MarkExit i run false None text now_ms) = (status, Ok tt)) in Hstep. pose proof (tr_inv _ _ _ Ht) as Hi.
  destruct (step_replica _ (MarkExit i run false None text now_ms) _ Hi Hnow Hstep) as (_ & Hreps & _).
  constructor; cbn [sv_active sv_status sv_controls with_status]; [|by rewrite Ha|done| |].
  - apply (tracked_ends _ (sv_status s) _ (MarkExit i run false None text now_ms) i); [exact Ht|cbn [sv_active with_status]; by rewrite Ha|done| |exact Hnow|exact Hstep]. intros r _. apply finished_is_over.
  - eapply only_trans; [exact Ho|]. by apply (only_step _ _ (MarkExit i run false None text now_ms)).
  - intros r Hin Hid. rewrite Hreps in Hin. apply list_elem_of_fmap in Hin as (r0 & -> & _). rewrite after_id in Hid. unfold after, affects, has_id. cbn [op_id].
    rewrite bool_decide_eq_true_2 by done. apply finished_not_due.
Qed.
Lemma inert_persist : inert persist.
Proof. apply inert_bind; [by intros s w w' s' a [= _ <- _]|]. intros s. apply inert_calls. Qed.
Lemma runs_inert {A : Type} (P : Supervision -> Prop) (m : SM A) : inert m -> runs_to P m (fun _ => P).
Proof. intros Hm s w w' s' a Hs Hrun. by apply Hm in Hrun as ->. Qed.
Lemma start_worker_runs s0 begin i : tracked_in s0 -> s0.(sv_active) !! i = None ->
  runs_to (fun s => s = s0) (start_worker stack generation templates now_ms begin i) (fun _ => started s0 i).
Proof.
  intros Ht Ha. unfold start_worker. eapply (runs_bind _ (fun _ s => s = s0)); [by apply runs_get|]. intros s1.
  eapply (runs_bind _ (fun _ s => s = s0)); [by apply runs_value|]. intros replica. eapply (runs_bind _ (fun _ s => s = s0)); [by apply runs_value|]. intros attempt.
  cbv zeta. set (run := replica_run_id generation i attempt). eapply runs_bind; [by apply begin_runs|]. intros ?.
  eapply runs_bind; [apply runs_inert, inert_persist|]. intros ?. eapply (runs_bind _ (fun _ => starting s0 i run)); [by apply runs_value|]. intros template.
  eapply (runs_bind _ (fun _ => starting s0 i run)); [by apply runs_calls|]. intros probe. eapply (runs_bind _ (fun _ => starting s0 i run)); [by apply runs_value|]. intros ?.
  eapply (runs_bind _ (fun _ => starting s0 i run)); [by apply runs_calls|]. intros invocation.
  eapply (runs_bind _ (fun _ => started s0 i)); [|intros ?; apply runs_inert, inert_persist]. destruct (be_spawned _).
  - eapply runs_bind; [by apply running_runs|]. intros ?. destruct (is_some probe); [apply runs_ret; by intros s []|].
    apply (started_mark s0 i _ (MarkRunning i run now_ms)); [|done|by intros r; unfold due, startable; cbn; rewrite andb_false_r].
    split; [done|]. intros r _ _ Hr. cbn [transition]. by split.
  - eapply (runs_bind _ (fun _ => starting s0 i run)); [destruct invocation; [by apply runs_calls|by apply runs_ret]|]. intros ?. by apply failed_runs.
Qed.

(** ** The loop of the starts *)
Definition permitted (controls : GenerationControls) (i : ReplicaId) : Prop :=
  controls.(gc_previous_draining) !! i = None /\ (controls.(gc_role) = GenerationRole.RolloutCandidate -> i ∈ controls.(gc_candidate_enabled)).
Record filled (before : ActiveStackWorkers) (controls : GenerationControls) (s : Supervision) : Prop := {
  fi_tracked : tracked_in s;
  fi_size : N.of_nat (size s.(sv_active)) <= max_workers;
  fi_controls : s.(sv_controls) = controls;
  fi_origin : forall i worker, s.(sv_active) !! i = Some worker -> before !! i = Some worker \/ permitted controls i;
}.
Lemma may_start_spec s i : may_start s i = true -> s.(sv_active) !! i = None /\ permitted s.(sv_controls) i.
Proof.
  unfold may_start, permitted. rewrite !andb_true_iff, orb_true_iff. intros [[H1 H2] H3]. destruct (sv_active s !! i); [done|].
  destruct (gc_previous_draining _ !! i); [done|]. split_and!; [done..|]. intros Hrole. destruct H3 as [H3|H3]; by bprop.
Qed.
Lemma started_filled before controls s0 i s :
  filled before controls s0 -> N.of_nat (size s0.(sv_active)) < max_workers -> may_start s0 i = true -> started s0 i s -> filled before controls s.
Proof.
  intros [Ht Hsz Hc Hor] Hroom Hmay [Ht' Hs Hc' Ho Hd]. apply may_start_spec in Hmay as [Ha Hperm]. rewrite Hc in Hperm.
  constructor; [done| |congruence|].
  - assert (dom s.(sv_active) ⊆ {[i]} ∪ dom s0.(sv_active)) as Hsub.
    { intros j Hj. apply elem_of_dom in Hj. destruct (decide (j = i)) as [->|Hne]; [by apply elem_of_union_l, elem_of_singleton|].
      apply elem_of_union_r, elem_of_dom. by rewrite <- Hs. }
    apply subseteq_size in Hsub. rewrite size_union in Hsub by (apply disjoint_singleton_l; by apply not_elem_of_dom).
    rewrite size_singleton, !size_dom in Hsub. lia.
  - intros j worker Hj. destruct (decide (j = i)) as [->|Hne]; [by right|]. rewrite Hs in Hj by done. by apply Hor.
Qed.
Lemma next_start_spec s i : next_start s now_ms = Some i -> may_start s i = true /\ i ∈ eligible_starts s.(sv_status) now_ms.
Proof. intros H. apply List.find_some in H as [H1 H2]. split; [done|by apply list_elem_of_In]. Qed.
Lemma start_workers_runs before controls begin fuel :
  runs_to (fun s => filled before controls s /\ (length (List.filter (due now_ms) s.(sv_status).(replicas)) < fuel)%nat)
    (start_workers stack generation max_workers templates fuel now_ms begin)
    (fun _ s => filled before controls s /\ (N.of_nat (size s.(sv_active)) < max_workers -> next_start s now_ms = None)).
Proof.
  induction fuel as [|fuel IH]; cbn [start_workers]; [intros s w w' s' a [_ H]; lia|].
  intros s w w' s' a [Hs Hfuel]. unfold sbind at 1, get. cbn [Supervise.get].
  destruct (N.ltb_spec (N.of_nat (size (sv_active s))) max_workers) as [Hroom|Hfull]; cbn [negb];
    [|intros [= _ <- _]; split; [done|lia]].
  destruct (next_start s now_ms) as [i|] eqn:Hnext; [|intros [= _ <- _]; by split]. apply next_start_spec in Hnext as [Hmay Hel].
  apply (runs_bind (fun s1 => s1 = s) (fun _ => started s i) (start_worker stack generation templates now_ms (begin i) i) _
    (fun _ s => filled before controls s /\ (N.of_nat (size s.(sv_active)) < max_workers -> next_start s now_ms = None))); [| |done].
  - apply start_worker_runs; [apply Hs|by apply may_start_spec].
  - intros _. eapply runs_weaken; [apply IH| |done]. intros s1 Hs1. split; [by eapply started_filled|].
    apply eligible_due in Hel. pose proof (due_count now_ms i _ _ (sd_only _ _ _ Hs1) (sd_not_due _ _ _ Hs1) Hel). lia.
Qed.
End Starting.

(** ** A pass *)
Lemma shrinks_refl active : shrinks active active.
Proof. intros i worker Hi. by exists worker. Qed.
Lemma shrinks_none before active i : shrinks before active -> before !! i = None -> active !! i = None.
Proof. intros H Hn. destruct (active !! i) as [worker|] eqn:Ha; [|done]. apply H in Ha as (worker0 & Hb & _). congruence. Qed.
Lemma shrinks_trans a b c : shrinks a b -> shrinks b c -> shrinks a c.
Proof. intros H1 H2 i worker Hi. apply H2 in Hi as (worker1 & Hi & <-). by apply H1 in Hi. Qed.
Lemma shrinks_size before active : shrinks before active -> (size active <= size before)%nat.
Proof.
  intros H. rewrite <- !size_dom. apply subseteq_size. intros i Hi. apply elem_of_dom in Hi as [worker Hi]. apply H in Hi as (worker0 & Hi & _). by apply elem_of_dom.
Qed.
Lemma watching_from s : tracked_in s -> watching s.(sv_active) s.(sv_controls) s.
Proof. intros Ht. constructor; [done|apply shrinks_refl|done]. Qed.
Definition timely (pass : Pass) : Prop :=
  in_time pass.(pa_now_ms) /\ in_time pass.(pa_heartbeat_ms) /\ (forall i, in_time (pass.(pa_drain_ms) i)) /\ forall i, in_time (pass.(pa_seen) i).(se_late_ms).
Lemma drain_each_runs now_ms clock child draining done_ : now_ms < u64_max -> (forall i, in_time (clock i)) ->
  forall s w w' s' a, tracked_in s -> drain_each now_ms clock child draining done_ s w = (w', (s', Done (Ok a))) ->
  watching s.(sv_active) s.(sv_controls) s' /\ forall i, i ∈ fst <$> draining -> s'.(sv_active) !! i = None.
Proof.
  intros Hnow Hclock. revert done_. induction draining as [|[i deadline] draining IH]; intros done_ s w w' s' a Ht; cbn [drain_each].
  - intros [= _ <- _]. split; [by apply watching_from|]. intros i Hi. by apply elem_of_nil in Hi.
  - unfold sbind. destruct (drain_one _ _ _ _ _ s w) as [w1 [s1 [[b|e]|]]] eqn:H1; [|done..]. intros H2.
    apply (drain_one_runs s.(sv_active) s.(sv_controls) now_ms Hnow deadline (clock i) (child i) i (Hclock i)) in H1 as [Hw1 Hn1]; [|by apply watching_from].
    apply IH in H2 as [Hw2 Hn2]; [|apply Hw1]. split.
    + destruct Hw1 as [_ Hs1 Hc1], Hw2 as [Ht2 Hs2 Hc2]. constructor; [done|by eapply shrinks_trans|congruence].
    + intros j Hj. cbn in Hj. apply elem_of_cons in Hj as [->|Hj]; [|by apply Hn2]. by eapply shrinks_none; [apply Hw2|].
Qed.
Lemma drains_run now_ms clock child s w w' s' a : now_ms < u64_max -> (forall i, in_time (clock i)) -> tracked_in s ->
  apply_rollout_drains now_ms clock child s w = (w', (s', Done (Ok a))) ->
  watching s.(sv_active) s.(sv_controls) s' /\ forall i, is_Some (s.(sv_controls).(gc_previous_draining) !! i) -> s'.(sv_active) !! i = None.
Proof.
  intros Hnow Hclock Ht. unfold apply_rollout_drains, sbind at 1, get. cbv zeta. intros Hrun. apply drain_each_runs in Hrun as [Hw Hn]; [|done..].
  split; [done|]. intros i Hi. apply Hn. rewrite <- list_fmap_compose. apply list_elem_of_fmap. exists i. split; [done|].
  unfold sorted_ids. rewrite merge_sort_Permutation. by apply elem_of_elements, elem_of_dom.
Qed.
Lemma tracked_heartbeat active status status' now : tracked active status -> now < u64_max -> heartbeat status now = (status', Ok tt) -> tracked active status'.
Proof.
  intros [Hi Hl Hk] Hnow Hstep. destruct (step_replica status (SupervisorSpec.Heartbeat now) status' Hi Hnow Hstep) as (Hi' & Hreps & _).
  assert (replicas status' = replicas status) as Heq by (rewrite Hreps; rewrite <- (list_fmap_id (replicas status)) at 2; by apply list_fmap_ext).
  constructor; [done|by rewrite Heq|by rewrite Heq].
Qed.

Section Passes.
Variables (stack generation : string) (max_workers revision : N) (templates : gmap ReplicaId StackWorkerTemplate) (daemon_instance : option string).
Abbreviation pass_run := (supervise_pass stack generation max_workers templates revision daemon_instance).
Lemma ownership_keeps pass s w w' s' : check_ownership stack generation revision daemon_instance pass s w = (w', (s', Done (Ok true))) ->
  s'.(sv_active) = s.(sv_active) /\ s'.(sv_status) = s.(sv_status).
Proof.
  unfold check_ownership, sbind at 1, get. destruct (_ <? _); [by intros [= _ <-]|].
  unfold sbind at 1. destruct (calls _ s w) as [w1 [s1 [[current|e]|]]] eqn:H1; [|done..]. apply inert_calls in H1 as ->.
  set (m := match daemon_instance with None => sret true | Some instance => calls (daemon_owner_is_active instance (pa_daemon_lease pass)) end).
  assert (inert m) as Hm by (unfold m; destruct daemon_instance; [apply inert_calls|apply inert_ret]).
  unfold sbind at 1. destruct (m s w1) as [w2 [s2 [[owned|e]|]]] eqn:H2; [|done..]. apply Hm in H2 as ->. destruct (_ || _).
  - unfold sbind at 1. destruct (_ s w2) as [w3 [s3 [[u|e]|]]]; done.
  - unfold sbind at 1. destruct (calls _ s w2) as [w3 [s3 [[controls|e]|]]] eqn:H3; [|done..]. apply inert_calls in H3 as ->.
    unfold sbind, modify, sret. by intros [= _ <-].
Qed.
Lemma beat_runs pass s w w' s' u : in_time pass.(pa_heartbeat_ms) -> tracked_in s -> beat pass s w = (w', (s', Done (Ok u))) ->
  tracked_in s' /\ s'.(sv_active) = s.(sv_active) /\ s'.(sv_controls) = s.(sv_controls) /\ length s'.(sv_status).(replicas) = length s.(sv_status).(replicas).
Proof.
  intros Htime Ht. unfold beat, sbind at 1, get. destruct (_ <? _); [by intros [= _ <- _]|]. unfold sbind at 1, value, calls, lift.
  destruct (pa_heartbeat_ms pass) as [now|] eqn:Hnow; [|done]. unfold sbind at 1, mark. destruct (heartbeat (sv_status s) now) as [status [[]|e]] eqn:Hb; [|done].
  unfold sbind. destruct (persist _ w) as [w2 [s2 [[u2|e]|]]] eqn:Hp; [|done..]. apply inert_persist in Hp as ->. unfold modify. intros [= _ <- _].
  specialize (Htime _ eq_refl). split; [by eapply tracked_heartbeat|]. split; [done|]. split; [done|]. cbn [sv_status with_heartbeat with_status].
  destruct (step_replica (sv_status s) (SupervisorSpec.Heartbeat now) status (tr_inv _ _ _ Ht) Htime Hb) as (_ & -> & _). apply length_fmap.
Qed.
Lemma filter_length_le {A : Type} (f : A -> bool) (l : list A) : (length (List.filter f l) <= length l)%nat.
Proof. induction l as [|x l IH]; [done|]. cbn [List.filter]. destruct (f x); cbn [length]; lia. Qed.

(** What holds after a pass that goes on, [before] being the workers it began with *)
Record in_order (before : ActiveStackWorkers) (now_ms : N) (s : Supervision) : Prop := {
  io_tracked : tracked_in s;
  io_size : N.of_nat (size s.(sv_active)) <= max_workers;
  io_drained : forall i, is_Some (s.(sv_active) !! i) -> s.(sv_controls).(gc_previous_draining) !! i = None;
  io_origin : forall i worker, s.(sv_active) !! i = Some worker ->
    (exists worker0, before !! i = Some worker0 /\ worker0.(aw_run_id) = worker.(aw_run_id)) \/ permitted s.(sv_controls) i;
  io_full : N.of_nat (size s.(sv_active)) < max_workers -> next_start s now_ms = None;
}.
Lemma pass_keeps pass s w w' s' :
  tracked_in s -> N.of_nat (size s.(sv_active)) <= max_workers -> timely pass -> pass_run pass s w = (w', (s', Done (Ok true))) ->
  exists now_ms, pass.(pa_now_ms) = Ok now_ms /\ in_order s.(sv_active) now_ms s'.
Proof.
  intros Ht Hsize (Hnow & Hbeat & Hdrain & Hlate). unfold supervise_pass. destruct (pa_interrupted pass).
  { unfold sbind. destruct (stop_active_workers _ _ s w) as [w1 [s1 [[u|e]|]]]; done. }
  unfold sbind at 1. destruct (check_ownership _ _ _ _ pass s w) as [w1 [s1 [[[]|e]|]]] eqn:H1; cbn [negb]; [|done..]. apply ownership_keeps in H1 as [Ha1 Hst1].
  unfold sbind at 1, modify. set (s2 := with_changed s1 false). unfold sbind at 1, value, calls, lift. destruct (pa_now_ms pass) as [now_ms|] eqn:Hms; [|done].
  specialize (Hnow _ eq_refl). unfold sbind at 1. destruct (apply_rollout_drains _ _ _ s2 w1) as [w3 [s3 [[b|e]|]]] eqn:H3; [|done..].
  assert (tracked_in s2) as Ht2 by (unfold tracked_in; cbn; by rewrite Ha1, Hst1). apply drains_run in H3 as [Hw3 Hn3]; [|done..].
  unfold sbind at 1. destruct ((if b then persist else sret tt) s3 w3) as [w4 [s4 [[u4|e]|]]] eqn:H4; [|done..].
  assert (s4 = s3) as -> by (destruct b; [by eapply inert_persist|by injection H4]). unfold sbind at 1, get. unfold sbind at 1.
  destruct (watch_workers _ _ _ s3 w4) as [w5 [s5 [[u5|e]|]]] eqn:H5; [|done..].
  apply (watch_workers_runs s3.(sv_active) s3.(sv_controls) now_ms Hnow) in H5; [|done|by apply watching_from; apply Hw3]. unfold sbind at 1. unfold sbind at 1.
  destruct ((if sv_changed s5 then persist else sret tt) s5 w5) as [w6 [s6 [[u6|e]|]]] eqn:H6; [|done..].
  assert (s6 = s5) as -> by (destruct (sv_changed s5); [by eapply inert_persist|by injection H6]). unfold sbind at 1.
  destruct (beat pass s5 w6) as [w7 [s7 [[u7|e]|]]] eqn:H7; [|done..]. apply beat_runs in H7 as (Ht7 & Ha7 & Hc7 & _); [|done|apply H5].
  unfold sbind at 1. unfold sbind at 1. destruct (start_workers _ _ _ _ _ _ _ s7 w7) as [w8 [s8 [[u8|e]|]]] eqn:H8; [|done..].
  apply (start_workers_runs stack generation max_workers now_ms templates Hnow s7.(sv_active) s7.(sv_controls)) in H8 as [Hf Hfull].
  2:{ split; [|pose proof (filter_length_le (due now_ms) (replicas (sv_status s7))); lia]. constructor; [done| |done|intros i worker Hi; by left].
      rewrite Ha7. pose proof (shrinks_size _ _ (wa_shrinks _ _ _ H5)). pose proof (shrinks_size _ _ (wa_shrinks _ _ _ Hw3)). cbn [s2 sv_active with_changed] in *. rewrite Ha1 in *. lia. }
  unfold sbind, sret. intros [= _ <- _]. exists now_ms. split; [done|]. destruct Hf as [Htr Hsz Hc Hor].
  assert (s8.(sv_controls) = s2.(sv_controls)) as Hc8 by (rewrite Hc, Hc7, (wa_controls _ _ _ H5); apply Hw3).
  constructor; [done|done| | |done].
  - intros i [worker Hi]. destruct (Hor _ _ Hi) as [Hb|[Hp _]]; [|by rewrite Hc]. rewrite Ha7 in Hb. rewrite Hc8.
    destruct (gc_previous_draining (sv_controls s2) !! i) eqn:Hd; [|done]. specialize (Hn3 i (ex_intro _ _ Hd)).
    pose proof (shrinks_none _ _ i (wa_shrinks _ _ _ H5) Hn3). congruence.
  - intros i worker Hi. destruct (Hor _ _ Hi) as [Hb|Hp]; [left|right; by rewrite Hc]. rewrite Ha7 in Hb.
    rewrite <- Ha1. by apply (shrinks_trans _ _ _ (wa_shrinks _ _ _ Hw3) (wa_shrinks _ _ _ H5)) in Hb.
Qed.
Lemma loop_keeps passes s w w' s' :
  tracked_in s -> N.of_nat (size s.(sv_active)) <= max_workers -> Forall timely passes ->
  supervise_loop stack generation max_workers templates revision daemon_instance passes s w = (w', (s', Done (Ok true))) ->
  tracked_in s' /\ N.of_nat (size s'.(sv_active)) <= max_workers.
Proof.
  intros Ht Hsize Htimes. revert s w Ht Hsize. induction Htimes as [|pass passes Htime Htimes IH]; intros s w Ht Hsize; cbn [supervise_loop]; [by intros [= _ <-]|].
  unfold sbind. destruct (pass_run pass s w) as [w1 [s1 [[[]|e]|]]] eqn:H1; [|done..]. apply pass_keeps in H1 as (now_ms & _ & [Ht1 Hs1 _ _ _]); [|done..]. by apply IH.
Qed.

(** C7: After every pass of its loop that goes on, a supervisor runs exactly the workers
    its status says are active, each in the run of its replica, and no more than it
    may; none of them is to be drained, one that was not there before the pass is
    permitted by the rollout, and no replica that may start is left waiting while a
    worker is free.  When the loop ends, by itself or by an error, no worker is left. *)
Theorem supervisor_tracks_workers (passes : list Pass) (pass : Pass) (s s1 s' : Supervision) (w w1 w' : World) :
  tracked_in s -> N.of_nat (size s.(sv_active)) <= max_workers -> Forall timely passes -> timely pass ->
  supervise_loop stack generation max_workers templates revision daemon_instance passes s w = (w1, (s1, Done (Ok true))) ->
  (supervise_pass stack generation max_workers templates revision daemon_instance pass s1 w1 = (w', (s', Done (Ok true))) ->
   exists now_ms, pass.(pa_now_ms) = Ok now_ms /\ in_order s1.(sv_active) now_ms s')
  /\ forall o, dropping (supervise_loop stack generation max_workers templates revision daemon_instance (passes ++ [pass])) s w = (w', (s', Done o)) ->
       o <> Ok true -> s'.(sv_active) = ∅.
Proof.
  intros Ht Hsize Htimes Htime Hloop. split.
  - intros Hpass. apply loop_keeps in Hloop as [Ht1 Hs1]; [|done..]. by eapply pass_keeps.
  - intros o. unfold dropping. destruct (supervise_loop _ _ _ _ _ _ (passes ++ [pass]) s w) as [w2 [s2 [r|]]]; [|done].
    destruct r as [[]|e]; [by intros [= _ _ <-]|..]; (destruct (terminate_all _ w2) as [w3 [r|]]; [|done]); by intros [= _ <- _].
Qed.
End Passes.

(** ** Observations that are later than the pass *)
Lemma refresh_observed status status' : refresh status = (status', Ok tt) -> status'.(observed_at_ms) = status.(observed_at_ms).
Proof. unfold refresh. destruct (status_computed_sha256 _) as [sha|]; [|done]. destruct (validate_status _); [|done]. by intros [= <-]. Qed.
Lemma signal_observed status status' i run seq kind at_ms :
  mark_probe_signal status i run seq kind at_ms = (status', Ok tt) -> status'.(observed_at_ms) = at_ms.
Proof.
  unfold mark_probe_signal. destruct (_ <? _); [done|]. destruct (replica_mut _ _) as [r|]; [|done]. destruct (_ || _); [done|].
  destruct (ok_or _ _) as [p|]; [|done]. destruct (_ <=? _); [done|].
  destruct kind; [intros H; by rewrite (refresh_observed _ _ H)..|]. cbv zeta. destruct (ok_or _ _) as [failures|]; [|done]. destruct (_ <? _); [done|]. intros H. by rewrite (refresh_observed _ _ H).
Qed.
Lemma drained_observed status status' i run at_ms : mark_drained status i run at_ms = (status', Ok tt) -> status'.(observed_at_ms) = at_ms.
Proof.
  unfold mark_drained. destruct (_ <? _); [done|]. destruct (replica_mut _ _) as [r|]; [|done]. cbv zeta. destruct (_ || _); [done|]. intros H. by rewrite (refresh_observed _ _ H).
Qed.
Lemma heartbeat_observed status status' at_ms : heartbeat status at_ms = (status', Ok tt) -> status'.(observed_at_ms) = at_ms.
Proof. unfold heartbeat. destruct (_ <? _); [done|]. intros H. by rewrite (refresh_observed _ _ H). Qed.

(** A pass takes its time once and observes with it, but drains, late signals and
    heartbeats are observed at a time that is read later: when that is a millisecond
    more or greater, no worker can be started any more in the pass, none of those that
    ended can be recorded, and no signal can be taken up; each of these ends the
    supervisor with an error, and all its workers with it. *)
Theorem later_observation_ends_supervisor (stack generation : string) (templates : gmap ReplicaId StackWorkerTemplate)
    (status status' : StackRuntimeStatus) (now_ms at_ms : N) (i : ReplicaId) (run : string) (seq : N) (kind : ProbeSignalKind) (stopped : option string) :
  now_ms < at_ms ->
  heartbeat status at_ms = (status', Ok tt) \/ mark_drained status i stopped at_ms = (status', Ok tt) \/ mark_probe_signal status i run seq kind at_ms = (status', Ok tt) ->
  forall s w, s.(sv_status) = status' ->
  (forall begin j, exists e, start_worker stack generation templates now_ms begin j s w = (w, (s, Done (Err e))))
  /\ (forall j run success code text, exists e, mark (fun st => mark_exit st j run success code text now_ms) s w = (w, (s, Done (Err e))))
  /\ (forall j run seq kind, mark (fun st => mark_probe_signal st j run seq kind now_ms) s w
         = (w, (s, Done (Err "runtime observation time cannot move backwards")))).
Proof.
  intros Hlt Hcause s w Hs. assert (now_ms <? status'.(observed_at_ms) = true) as Hstale.
  { apply N.ltb_lt. destruct Hcause as [H|[H|H]]; [by rewrite (heartbeat_observed _ _ _ H)|by rewrite (drained_observed _ _ _ _ _ H)|by rewrite (signal_observed _ _ _ _ _ _ _ H)]. }
  assert (forall st : Supervision, with_status st st.(sv_status) = st) as Hsame by (by intros []). split_and!.
  - intros begin j. unfold start_worker, sbind at 1, get. unfold sbind at 1, value at 1, calls, lift. destruct (ok_or (List.find _ _) _) as [r|e]; [|by exists e].
    unfold sbind at 1, value at 1, calls, lift. destruct (ok_or (checked_add _ _ _) _) as [n|e]; [|by exists e]. cbv zeta. unfold sbind, mark, begin_start.
    rewrite Hs, Hstale, orb_true_r, <- Hs, Hsame. eauto.
  - intros j run' ok code text. unfold mark, mark_exit. rewrite Hs, Hstale, orb_true_r, <- Hs, Hsame. eauto.
  - intros j run' seq' kind'. unfold mark, mark_probe_signal. rewrite Hs, Hstale, <- Hs, Hsame. done.
Qed.

(** ** Identities of runs *)
(** Two starts have the same run identity only if they are the same attempt of the same
    replica of the same generation, unless the inputs of the two identities collide
    under SHA-256. *)
Theorem run_identity_is_unique (generation generation' : string) (i i' : ReplicaId) (attempt attempt' : N) :
  str_len generation = str_len generation' -> str_len i.(Supervisor.instance) <= u64_max -> str_len i'.(Supervisor.instance) <= u64_max ->
  i.(ordinal) <= u16_max -> i'.(ordinal) <= u16_max -> attempt <= u16_max -> attempt' <= u16_max ->
  collision_free [run_input generation i attempt; run_input generation' i' attempt'] ->
  replica_run_id generation i attempt = replica_run_id generation' i' attempt' ->
  generation = generation' /\ i = i' /\ attempt = attempt'.
Proof.
  intros Hlen Hi Hi' Ho Ho' Ha Ha' Hfree Heq.
  assert (run_input generation i attempt = run_input generation' i' attempt') as H.
  { apply Hfree; [by left|by right; left|]. unfold replica_run_id, hex_sha256 in Heq. by apply hex_encode_injective in Heq. }
  clear Hfree Heq. unfold run_input in H.
  assert (forall s : string, length (as_bytes s) = N.to_nat (str_len s)) as Hbytes.
  { intros s. rewrite as_bytes_len. unfold str_len, len. by rewrite Nat2N.id. }
  apply app_inj_1 in H as [Hg H]; [|rewrite !Hbytes; by rewrite Hlen]. apply as_bytes_inj in Hg as ->.
  apply app_inj_1 in H as [Hl H]; [|by rewrite !le_byte_list_len]. apply (le_byte_list_inj 8) in Hl; [|unfold u64_max in *; lia..].
  apply app_inj_1 in H as [Hn H]; [|rewrite !Hbytes; by rewrite Hl]. apply as_bytes_inj in Hn.
  apply app_inj_1 in H as [Hor Hat]; [|by rewrite !le_byte_list_len]. apply (le_byte_list_inj 2) in Hor, Hat; [|unfold u16_max in *; lia..].
  destruct i, i'. cbn in *. by subst.
Qed.
End SuperviseTheorems.

(** ** The health channel *)
Section Channel.
Context `{Ext : Externals} `{Hex : HexDecode} `{PC : PeerCrypto}.
Context `{JSg : Json Probe.ProbeSignal} `{DSg : !JsonDecode Probe.ProbeSignal} `{JPe : Json ProbeEnvelope} `{DPe : !JsonDecode ProbeEnvelope}.
Context `{RSg : !JsonRoundTrip Probe.ProbeSignal} `{RPe : !JsonRoundTrip ProbeEnvelope}.
Context (Htext : forall (e : ProbeEnvelope) content, to_vec e = Ok content -> content <> []).
Lemma probe_file_whole path content w w' :
  staged PROBE_REPORT_PREFIX path.2 = false -> write_probe_replace path content w = (w', Done (Ok tt)) ->
  read_path (disk w') path = Some content /\ 0 < len content <= MAX_PROBE_ENVELOPE_BYTES.
Proof.
  intros Hname. unfold write_probe_replace. destruct (N.eqb_spec (len content) 0) as [|H0]; [done|].
  destruct (N.ltb_spec MAX_PROBE_ENVELOPE_BYTES (len content)) as [|Hmax]; [done|]. cbn [orb].
  intros (w1 & d & _ & H)%bind_Ok. destruct (is_none _); [done|]. apply bind_Ok in H as (w2 & n & _ & H). apply bind_Ok in H as (w3 & p & _ & H). cbv zeta in H.
  set (q := (path.1, temporary_name PROBE_REPORT_PREFIX p n)) in *. assert (q <> path) as Hne.
  { intros Heq. rewrite <- Heq in Hname. cbn [q snd] in Hname. by rewrite temporary_staged in Hname. }
  apply bind_Ok in H as (w4 & [] & Hc & H). apply syscall_Ok in Hc as (d4 & Hc & Hd4). destruct (disk w3 !! q.1) as [x3|] eqn:Hq; [|done].
  apply bind_attempt_Ok in H as (w5 & r5 & Hw & H). destruct r5 as [[]|e5]; [|apply bind_Ok in H as (? & ? & _ & H); done].
  apply syscall_Ok in Hw as (d5 & [= Hd5] & Hw5). apply bind_Ok in H as (w6 & present & Hp & H). injection Hp as <- _.
  apply bind_Ok in H as (w7 & [] & Hrem & H). apply bind_attempt_Ok in H as (w8 & r8 & Hmove & H).
  destruct r8 as [[]|e8]; [|apply bind_Ok in H as (? & ? & _ & H); done]. apply ret_Ok in H as [-> _].
  apply syscall_Ok in Hmove as (d8 & Hstep & Hw8).
  assert (is_Some (disk w3 !! path.1)) as Hi3 by (by exists x3).
  assert (is_Some (disk w4 !! path.1)) as Hi4.
  { rewrite Hd4. destruct (is_some (read_path (disk w3) q)); [done|]. injection Hc as <-. by apply is_dir_write. }
  assert (read_path (disk w5) q = Some content /\ is_Some (disk w5 !! path.1)) as [Hr5 Hi5].
  { rewrite Hw5, <- Hd5. split; [by apply read_write_eq|by apply is_dir_write]. }
  assert (read_path (disk w7) q = Some content /\ is_Some (disk w7 !! path.1)) as [Hr7 Hi7].
  { destruct present; [|by apply ret_Ok in Hrem as [-> _]]. apply syscall_Ok in Hrem as (d7 & Hs & Hw7). destruct (is_some _) in Hs; [|done]. injection Hs as <-.
    rewrite Hw7. split; [by rewrite read_remove_ne by done|by apply is_dir_remove]. }
  rewrite Hr7 in Hstep. injection Hstep as <-. rewrite Hw8. split; [|lia]. apply read_write_eq. by apply is_dir_remove.
Qed.
(** C8: What a worker reports is seen: when a report was answered, the next look of the
    supervisor at the channel of that run finds exactly this signal, authenticated, of
    the reported kind and under the next number, unless it has just seen the very same
    envelope; and looking again finds nothing new. *)
Theorem reported_signal_is_seen (reporter reporter' : FileHealthReporter) (state : GuestHealthState) (detail : string) (clock : result string N) (nonce : bytes)
    (worker : ActiveStackWorker) (probe : ActiveProbe) (w w' : World) :
  len nonce = 24 -> staged PROBE_REPORT_PREFIX reporter.(fr_path).2 = false ->
  report reporter state detail clock nonce w = (w', Done (Ok (reporter', Ok tt))) ->
  worker.(aw_run_id) = reporter.(fr_run_id) -> worker.(aw_probe) = Some probe -> probe.(ap_path) = reporter.(fr_path) -> probe.(ap_key) = reporter.(fr_key) ->
  (forall content, read_path (disk w') reporter.(fr_path) = Some content -> probe.(ap_envelope_sha256) <> Some (hex_sha256 content)) ->
  exists now signal worker', clock = Ok now /\ signal = mkProbeSignal ENGINE_PROBE_FORMAT_VERSION reporter.(fr_run_id) (reporter.(fr_sequence) + 1) now (signal_kind state) detail
    /\ reporter'.(fr_sequence) = reporter.(fr_sequence) + 1
    /\ poll_worker_probe worker w' = (w', Done (Ok (worker', Ok (Some signal))))
    /\ worker'.(aw_run_id) = worker.(aw_run_id)
    /\ poll_worker_probe worker' w' = (w', Done (Ok (worker', Ok None))).
Proof.
  intros Hn Hname. unfold report. destruct (checked_add _ _ _) as [seq|] eqn:Hseq; [|done]. cbn [ok_or]. destruct clock as [now|]; [|done].
  apply checked_add_Some in Hseq as [-> Hmax].
  destruct (new_signal _ _ _ _ _) as [signal|] eqn:Hsig; [|done]. destruct (seal_signal _ _ _) as [content|] eqn:Hseal; [|done].
  intros (w1 & r & Hw & H)%bind_attempt_Ok. apply ret_Ok in H as [-> [= -> <-]]. apply probe_file_whole in Hw as [Hread Hlen]; [|done].
  intros Hrun Hprobe Hpath Hkey Hnew.
  assert (signal = mkProbeSignal ENGINE_PROBE_FORMAT_VERSION reporter.(fr_run_id) (reporter.(fr_sequence) + 1) now (signal_kind state) detail) as Heq.
  { revert Hsig. unfold new_signal. cbv zeta. destruct (validate_signal _); [|done]. by intros [= <-]. }
  destruct (signal_opens_for_its_run Htext nonce signal reporter.(fr_key) content Hn Hseal) as [Hopen _]. rewrite Heq in Hopen at 1. cbn [sg_run_id] in Hopen.
  assert (forall worker1 probe1, worker1.(aw_run_id) = reporter.(fr_run_id) -> worker1.(aw_probe) = Some probe1 -> probe1.(ap_path) = reporter.(fr_path) -> probe1.(ap_key) = reporter.(fr_key) ->
    poll_worker_probe worker1 w1 = if bool_decide (probe1.(ap_envelope_sha256) = Some (hex_sha256 content)) then (w1, Done (Ok (worker1, Ok None)))
      else (w1, Done (Ok (with_probe worker1 (with_envelope probe1 (hex_sha256 content)), Ok (Some signal))))) as Hpoll.
  { intros worker1 probe1 H1 H2 H3 H4. unfold poll_worker_probe, bind, exists_file, Files.attempt, read_file, ret. rewrite H2. cbv beta iota. rewrite H3, Hread.
    cbn [is_some is_none negb]. cbv beta iota. rewrite Hread. cbn [ok_or]. cbv beta iota.
    destruct (N.eqb_spec (len content) 0); [lia|]. destruct (N.ltb_spec MAX_PROBE_ENVELOPE_BYTES (len content)); [lia|]. cbn [orb].
    destruct (bool_decide _); [reflexivity|]. by rewrite H1, H4, Hopen. }
  exists now, signal, (with_probe worker (with_envelope probe (hex_sha256 content))). split; [done|]. split; [done|]. split_and!; [|..|done|].
  - cbn. unfold wrapping_add. rewrite N.mod_small; lia.
  - rewrite (Hpoll worker probe) by done. by rewrite bool_decide_eq_false_2 by (by apply Hnew).
  - rewrite (Hpoll _ (with_envelope probe (hex_sha256 content))) by done. by rewrite bool_decide_eq_true_2.
Qed.
End Channel.

(** ** A concrete supervisor *)
Section SuperviseWitness.
#[local] Existing Instance demo_externals.
#[local] Existing Instance demo_hex.
#[local] Existing Instance demo_semver.
#[local] Existing Instance toy_url.
#[local] Existing Instance toy_toml.
#[local] Existing Instance toy_zip.
#[local] Existing Instance toy_crypto.
#[local] Existing Instance InvocationTheorems.plan_json.
#[local] Existing Instance InvocationTheorems.status_json.
#[local] Existing Instance InvocationTheorems.event_json.
#[local] Existing Instance InvocationTheorems.record_json.
#[local] Existing Instance InvocationTheorems.identity_json.
#[local] Existing Instance InvocationTheorems.progress_json.
#[local] Existing Instance InvocationTheorems.event_decode.
#[local] Existing Instance InvocationTheorems.status_decode.
#[local] Existing Instance InvocationTheorems.record_decode.
#[local] Existing Instance InvocationTheorems.progress_decode.
#[local] Instance supervise_status_total : JsonTotal StackRuntimeStatus.
Proof. intros a. by exists []. Defined.
#[local] Instance supervise_endpoint_decode : JsonDecode DaemonEndpoint := fun _ => Err "none".
#[local] Instance supervise_signal_json : Json Probe.ProbeSignal := demo_json.
#[local] Instance supervise_signal_decode : JsonDecode Probe.ProbeSignal := fun _ => Err "none".
#[local] Instance supervise_envelope_decode : JsonDecode ProbeEnvelope := fun _ => Err "none".
Definition fresh_status : StackRuntimeStatus :=
  match from_plan serving_plan 1 (hex_sha256 []) 10 with Ok s => s | Err _ => mkStatus 0 "" 0 "" 0 [] "" end.
Definition web_template : StackWorkerTemplate :=
  mkTemplate ("library/packages", "web") zero_digest 4096 "state" [] (mkPermissions false false false false false false false false true) default_limits true 30000 None.
Definition idle_child : Child := mkChild (Ok None) (fun _ => Ok None).
Definition at_time (now : N) : Pass :=
  let nothing := mkSeen None None now now now (Ok now) idle_child in
  mkPass false now false now (Ok now) (fun _ => Ok now) (fun _ => idle_child) (fun _ => nothing) now (Ok now) now
    (fun _ _ => mkBegin now [] (Ok tt) true now) (fun _ => idle_child) (fun _ => Ok now).
Definition idle_supervision : Supervision := mkSupervision ∅ fresh_status (mkControls GenerationRole.Desired ∅ ∅) 20 5000 false.
Definition run_shop (passes : list Pass) : World * (Supervision * Files.outcome bool) :=
  supervise_loop "shop" (hex_sha256 []) 4 {[web := web_template]} 1 None passes idle_supervision serving_world.
Definition first_pass : World * (Supervision * Files.outcome bool) := run_shop [at_time 20].
Definition second_pass : World * (Supervision * Files.outcome bool) :=
  supervise_pass "shop" (hex_sha256 []) 4 {[web := web_template]} 1 None (at_time 300) first_pass.2.1 first_pass.1.
Lemma fresh_tracked : tracked_in idle_supervision.
Proof.
  destruct (from_plan_inv serving_plan 1 (hex_sha256 []) 10) as (s & Hs & Hi & _); [vm_compute; reflexivity|discriminate|vm_compute; reflexivity|discriminate|].
  assert (fresh_status = s) as Heq by (unfold fresh_status; by rewrite Hs). constructor; cbn [sv_active sv_status idle_supervision].
  - by rewrite Heq.
  - assert (Forall (fun r => is_active r = false) fresh_status.(replicas)) as Hall by (apply (bool_decide_unpack _); vm_compute; reflexivity).
    rewrite Forall_forall in Hall. intros r Hr _. rewrite lookup_empty. by apply Hall.
  - intros i [worker Hw]. by rewrite lookup_empty in Hw.
Qed.
Lemma at_time_timely now : now < u64_max -> timely (at_time now).
Proof. intros H. assert (in_time (Ok now)) by (intros n [= <-]; exact H). by split_and!. Qed.
Lemma answered_run {A : Type} (r : World * (Supervision * Files.outcome A)) o : r.2.2 = o -> r = (r.1, (r.2.1, o)).
Proof. destruct r as [w [s o']]. cbn. by intros ->. Qed.
Lemma first_answer : first_pass.2.2 = Done (Ok true).
Proof. vm_compute. reflexivity. Qed.
Lemma second_answer : second_pass.2.2 = Done (Ok true).
Proof. vm_compute. reflexivity. Qed.
Lemma second_size : size second_pass.2.1.(sv_active) = 1%nat.
Proof. vm_compute. reflexivity. Qed.
Lemma first_pass_run : supervise_loop "shop" (hex_sha256 []) 4 {[web := web_template]} 1 None [at_time 20] idle_supervision serving_world
  = (first_pass.1, (first_pass.2.1, Done (Ok true))).
Proof. exact (answered_run first_pass _ first_answer). Qed.
Lemma second_pass_run : supervise_pass "shop" (hex_sha256 []) 4 {[web := web_template]} 1 None (at_time 300) first_pass.2.1 first_pass.1
  = (second_pass.1, (second_pass.2.1, Done (Ok true))).
Proof. exact (answered_run second_pass _ second_answer). Qed.
(** The first pass starts the service, the second leaves it alone *)
Lemma supervisor_tracks_workers_witness :
  in_order 4 first_pass.2.1.(sv_active) 300 second_pass.2.1 /\ size second_pass.2.1.(sv_active) = 1%nat.
Proof.
  destruct (supervisor_tracks_workers "shop" (hex_sha256 []) 4 1 {[web := web_template]} None [at_time 20] (at_time 300) idle_supervision first_pass.2.1
    second_pass.2.1 serving_world first_pass.1 second_pass.1 fresh_tracked) as [Hpass _].
  - vm_compute. discriminate.
  - apply Forall_singleton, at_time_timely. vm_compute. reflexivity.
  - apply at_time_timely. vm_compute. reflexivity.
  - exact first_pass_run.
  - split; [|exact second_size]. destruct (Hpass second_pass_run) as (now_ms & Hnow & H). injection Hnow as <-. exact H.
Defined.
End SuperviseWitness.

(** ** A concrete report *)
Section ReportWitness.
#[local] Existing Instance demo_externals.
#[local] Existing Instance demo_hex.
#[local] Existing Instance toy_crypto.
#[local] Instance signal_kind_eq_dec : EqDecision ProbeSignalKind.
Proof. solve_decision. Defined.
#[local] Instance probe_signal_eq_dec : EqDecision Probe.ProbeSignal.
Proof. solve_decision. Defined.
#[local] Instance probe_envelope_eq_dec : EqDecision ProbeEnvelope.
Proof. solve_decision. Defined.
Definition demo_run : string := hex_sha256 [x07].
Definition ready_signal : Probe.ProbeSignal := mkProbeSignal ENGINE_PROBE_FORMAT_VERSION demo_run 1 40 ProbeSignalKind.Ready "up".
Definition ready_envelope : ProbeEnvelope := mkProbeEnvelope ENGINE_PROBE_FORMAT_VERSION demo_run (hex_encode (replicate 24 x03)) (hex_encode ([x00] ++ replicate 16 x00)).
#[local] Instance report_signal_json : Json Probe.ProbeSignal := table_json [ready_signal].
#[local] Instance report_signal_decode : JsonDecode Probe.ProbeSignal := table_decode [ready_signal].
#[local] Instance report_signal_rt : JsonRoundTrip Probe.ProbeSignal := table_round_trip [ready_signal].
#[local] Instance report_envelope_json : Json ProbeEnvelope := table_json [ready_envelope].
#[local] Instance report_envelope_decode : JsonDecode ProbeEnvelope := table_decode [ready_envelope].
#[local] Instance report_envelope_rt : JsonRoundTrip ProbeEnvelope := table_round_trip [ready_envelope].
Lemma envelope_text (envelope : ProbeEnvelope) content : to_vec envelope = Ok content -> content <> [].
Proof.
  unfold to_vec, report_envelope_json, table_json. intros H Hnil. rewrite Hnil in H. revert H. destruct (list_find _ [ready_envelope]) as [[i y]|]; [|done].
  by destruct (Byte.of_N _).
Qed.
Definition demo_reporter : FileHealthReporter := mkReporter ("engine/probes", "web.probe") (replicate 32 x05) demo_run 0.
Definition demo_channel : ActiveProbe := mkActiveProbe demo_reporter.(fr_path) demo_reporter.(fr_key) Plan.default_health 1000 1000 None false false None.
Definition demo_worker : ActiveStackWorker := mkActiveWorker demo_run 9000 (Some demo_channel) None.
Definition report_world : World := mkWorld {["engine/probes" := ∅]} 0 1 [].
Definition reported : World * Files.outcome (FileHealthReporter * result string unit) :=
  report demo_reporter Host.Ready "up" (Ok 40) (replicate 24 x03) report_world.
Definition later_reporter : FileHealthReporter := mkReporter demo_reporter.(fr_path) demo_reporter.(fr_key) demo_run 1.
Lemma reported_answer : reported = (reported.1, Done (Ok (later_reporter, Ok tt))).
Proof. rewrite (surjective_pairing reported) at 1. f_equal; vm_compute; reflexivity. Qed.
(** The worker says that it is up, and the supervisor sees it *)
Lemma reported_signal_is_seen_witness :
  exists worker', poll_worker_probe demo_worker reported.1 = (reported.1, Done (Ok (worker', Ok (Some ready_signal)))).
Proof.
  destruct (reported_signal_is_seen envelope_text demo_reporter later_reporter Host.Ready "up" (Ok 40) (replicate 24 x03) demo_worker demo_channel report_world reported.1)
    as (now & signal & worker' & Hnow & Hsignal & _ & Hpoll & _).
  - reflexivity.
  - vm_compute. reflexivity.
  - exact reported_answer.
  - reflexivity.
  - reflexivity.
  - reflexivity.
  - reflexivity.
  - intros content _ H. discriminate H.
  - exists worker'. rewrite Hpoll, Hsignal. injection Hnow as <-. reflexivity.
Defined.
End ReportWitness.
